(* ===== verification/_CoqProject ===== *)
-Q . S2P
Prelude.v
CMonad.v
AtomState.v
RegAccess.v
AtomOperand.v
AtomOps.v
AtomExec.v
AtomFields.v
AtomWf.v
AtomTotal.v
AtomSemantics.v
AtomWitness.v
DmServices.v
FixCore.v
FixPt.v
FixPtProps.v
FixPtSeries.v
BwFixed.v
SubAlloc.v
SubAllocProps.v
SubAllocSpec.v
Sched.v
SchedRr.v
SchedInv.v
SchedDeps.v
SchedSpec.v
SchedWitness.v
Vector.v
VectorSpec.v
Ddc.v
Bitmap.v
KfdGtt.v
KfdInterrupt.v
KfdPasid.v
Fence.v
FenceInv.v
FenceSpec.v
Ring.v
RingSpec.v
IbSchedule.v
IbSpec.v
Engines.v
EnginesSpec.v
VmEngine.v
PageTable.v
PageTableSpec.v
PageUpdate.v
PageDir.v
SplitMapping.v
VaSpace.v
VaInv.v
VaUpdate.v
VaSubmit.v
VaMap.v
VaSpec.v
VaClaims.v
Sync.v
VmId.v
Ih.v
Irq.v
CheckArgs.v
Ctx.v
CtxLife.v
Pll.v
PickPll.v
Uvd.v
UvdSpec.v
Vce.v
VceSpec.v
VceReloc.v
BoList.v
BoListSpec.v
Gart.v
Dqm.v
DqmSpec.v
Aux.v
AuxSpec.v
I2cSw.v
Gpio.v
GpioSpec.v
