(* ===== verification/Prelude.v ===== *)
(** * A verification library for the AMDGPU kernel driver

    The repository is AMD's hybrid graphics driver for Linux: [amd/amdgpu] (the
    device driver: memory, rings, engines, display), [amd/scheduler] (the GPU
    job scheduler), [amd/dal] (the display core), [amd/powerplay] (power
    management), [amd/amdkfd] (the compute driver) and [amd/include] (register
    and BIOS headers).  This library models the parts that carry algorithms of
    their own and proves what makes them correct.  Sources are named relative
    to [src/amd].

    ** How C is modelled

    [Prelude] has the machine integers: a C integer is a [Z] with its
    wrap-around written out ([u8] .. [u64], [s32], [s64]), and [cint] decides
    linear facts about them.  [CMonad] has the effects: [M S A] is a
    computation on an explicit state that ends in [Ok], in [Fault] (undefined
    behaviour: an access outside an object, a null or freed pointer, a division
    by zero, [BUG_ON]) or in [NoFuel] (a loop that used up its iterations).
    Kernel services that are not part of the sources are parameters: register
    buses, allocators, fences, engines.  Locks are not state: an operation that
    holds its lock is one step; where threads really interleave (the scheduler,
    the interrupt ring, the waits of the sub-allocator) the steps are explicit.

    ** The components

    - The AtomBIOS interpreter ([amdgpu/atom.c], [amdgpu/atom.h],
      [include/atom-bits.h]): the video BIOS contains programs for mode setting
      and power management, which the driver interprets.  [AtomState] has
      [struct atom_context] and the byte accessors, [AtomOperand] the operand
      fetch and store and the indirect-IO programs, [AtomOps] every opcode
      handler, [AtomExec] the execution loop, nested calls, the image parser
      and the entry points.  The card's registers are the interface
      [CardInfo], which [RegAccess] implements as [amdgpu_device.c] does
      ([amdgpu_mm_rreg] and the other accessors, [cail_*]).
      Proved: [AtomFields] operands read back what was stored, skipping agrees
      with reading; [AtomWf] every execution keeps all fields within their C
      types and the image untouched; [AtomTotal] every instruction terminates
      whatever the image contains, and results do not depend on the fuel;
      [AtomSemantics] comparison and jumps, case selection, wide
      multiplication and division, the frame-buffer window and its
      off-by-one test, abort propagation.  [AtomWitness] runs an image.
    - Fixed point of the display core ([dal/dc/basics/fixpt31_32.c] in [FixPt],
      [dal/dc/calcs/bw_fixed.c] in [BwFixed], the loops both share in
      [FixCore], [ASSERT] and the 64-bit divisions in [DmServices]).
      Proved: [FixPtProps] division is correctly rounded, multiplication is
      within one unit, integer conversions; [FixPtSeries] the Taylor series of
      sinc, sin, cos and exp stay in range on their domains, and where exp
      divides by zero; [BwFixed] the same for 24 fractional bits, and for the
      unsigned numbers of [fixpt32_32.c].  Colour matrices ([conversion.c], in
      [FixPtSeries]) are written exactly and neutral adjustments keep them.
    - The ring sub-allocator ([amdgpu/amdgpu_sa.c] in [SubAlloc]): buffers
      handed out in ring order and reclaimed when fences signal.  Proved:
      [SubAllocProps] the invariant (a chain of disjoint intervals),
      [SubAllocSpec] the search terminates and finds correct space, every
      reachable state keeps buffers disjoint, allocation is safe whatever other
      clients do during its waits and succeeds when everything has signaled.
    - The GPU scheduler ([scheduler/gpu_scheduler.c], [scheduler/sched_fence.c]
      in [Sched]): entities with job queues, run queues, dependencies, the
      scheduler thread as a program counter over its phases, completion,
      time-outs, reset and recovery.  [run_step] interleaves normal operation;
      [sched_step] also has resets, which park the thread, and the recovery
      loop, turn by turn with the other steps in between.  Proved: [SchedRr]
      round robin and priorities; [SchedInv] and [SchedDeps] the invariants;
      [SchedSpec] over [sched_step] the thread runs jobs in order and none is
      lost, recovery runs again only jobs that ran and in that order, and
      dependencies hold; over [run_step] the hardware queue is never
      overfilled; work conservation; recovery resubmits.  [SchedWitness] has a
      concrete run and what goes wrong on the reset path: the null pointer, the
      completed job that runs again and the freed job that recovery follows.
    - The growable vector ([dal/dc/basics/vector.c] in [Vector]) down to bytes,
      with the kernel allocator as the class [Allocator].  Proved: [VectorSpec]
      it simulates a list.  [Ddc] is its client in [dal/dc/core/dc_link_ddc.c]:
      payload lists and DDC queries.  Proved: what the I2C engine
      receives, and that AUX queries copy from behind their payload.
    - The compute driver: [Bitmap] has the kernel bitmaps; [KfdGtt] the
      chunk allocator of [amdkfd/kfd_device.c] (first fit and
      complete); [KfdInterrupt] the lock-free interrupt
      ring of [amdkfd/kfd_interrupt.c] (a lossless bounded queue under every
      interleaving); [KfdPasid] the identifiers of [amdkfd/kfd_pasid.c]
      (uniqueness).
    - Fences and rings: [Fence] is [amdgpu/amdgpu_fence.c] (sequence numbers,
      the slots of pending fences, the handler and the emission as program
      counters over their shared accesses); [FenceInv] its invariant,
      [FenceSpec] no fence signals early or twice, a handler that runs when no
      other is inside its loop signals all that completed, draining ends.
      [Ring] is [amdgpu/amdgpu_ring.c] with the write-back slots ([RingSpec]:
      nothing unread is overwritten, whatever is submitted, taken back and
      finished, also by clients that write more than they reserved; what is
      committed is what was written).  [IbSchedule] is [amdgpu_ib_schedule] of
      [amdgpu/amdgpu_ib.c] with [amdgpu_vm_flush], over the class of engines;
      [IbSpec] its generic bound and which requests it refuses, and [Engines],
      [EnginesSpec] the packets of [sdma_v3_0.c], [gfx_v8_0.c], [uvd_v6_0.c],
      [vce_v3_0.c], which fit the reservation.
    - GPU virtual memory ([amdgpu/amdgpu_vm.c]): [VmEngine] executes the DMA
      packets of [sdma_v3_0.c]; [PageTable] the updates of page-table entries,
      [PageTableSpec] and [PageUpdate] that a mapping update sets or copies
      exactly its pages; [PageDir] the page directory;
      [SplitMapping] the split of a mapping over the nodes of its object's
      memory, and the entry that the updates leave for each page.  [VaSpace] has
      the mappings of an address space with the ioctl of [amdgpu_gem.c], moves
      and the page-table step of a submission ([amdgpu_cs.c]), and its
      [amdgpu_vm_bo_update] makes these updates with the flags of
      [amdgpu_ttm_tt_pte_flags]; any of them may fail.  Where an object's memory
      is, and how it is bound, is given for each of its moves ([vm_env]).
      [VaInv], [VaUpdate], [VaSubmit], [VaMap], [VaSpec] have the invariants and
      [VaClaims] what they give: mappings are disjoint, valid pages have the
      entries of the place where the object is, a submission sees exact
      entries, the operations of the ioctl do exactly what was asked, and where
      the checks and error paths fall short.
    - Sync objects and VMIDs: [Sync] is [amdgpu/amdgpu_sync.c] (the object
      stands for the set of unsignaled fences); [VmId] [amdgpu_vm_grab_id] and [amdgpu_job_dependency] (a VMID is not taken
      from a running job, and a grant without flush is safe).
    - Interrupts: [Ih] the ring of [amdgpu/amdgpu_ih.c] with the
      controller [tonga_ih.c] (each vector is dispatched exactly once, and the
      stale pointer that breaks this); [Irq] the reference counts of
      [amdgpu/amdgpu_irq.c] under interleaving.
    - Contexts: [Ctx] is [amdgpu/amdgpu_ctx.c]: the fence window of a
      context ring refines the history of its fences; [CtxLife] references and
      handles keep contexts alive exactly as long as needed.  [CheckArgs] is
      the check of the module parameters in [amdgpu/amdgpu_device.c].
    - Pixel clocks: [Pll] the divider search of
      [amdgpu/amdgpu_pll.c]; [PickPll] the sharing of PLLs and
      their choice in [dce_v6_0.c] .. [dce_v11_0.c].
    - The decoder's command-stream parser ([amdgpu/amdgpu_uvd.c] in [Uvd]),
      which stands in for page tables.  Proved: [UvdSpec] every buffer command
      of an accepted stream points to the byte that its own address words named,
      in the object mapped there, with room for the sizes that the messages
      before it ask for; and what messages can do to the sessions.
    - The encoder's parser ([amdgpu/amdgpu_vce.c] in [Vce]): sessions and
      relocations.  Proved: [VceSpec] sessions of other files stay as they are
      and a refused stream leaves none behind; [VceReloc] on well-formed streams
      the parser returns, and the streams it accepts are changed at the address
      words only, each to the physical address of the byte it named, with room
      for the buffer that the commands before it describe.  The decoder returns
      on every stream, unless a message makes it divide by zero ([UvdSpec]).
    - Buffer lists ([amdgpu/amdgpu_bo_list.c] in [BoList]).  Proved:
      [BoListSpec] the references of all lists of a file over any sequence of
      ioctls, and the leak of objects in user memory, and that the bucket sort
      is a stable sort.  [Gart] is the table of [amdgpu/amdgpu_gart.c].
    - Compute queues ([amdkfd/kfd_device_queue_manager.c] without the hardware
      scheduler, in [Dqm]).  Proved: [DqmSpec] slots, DMA queues, VMIDs and
      counters over any sequence of requests (free exactly when no queue uses
      them), and the slot that a failed destruction shares.
    - The AUX channel of DisplayPort ([dal/dc/i2caux/aux_engine.c], the engine
      of [i2caux/dce110/aux_engine_dce110.c] with the register macros of
      [dc_helper.c], and the commands of [i2caux/i2caux.c], in [Aux]): requests
      with their retries, over any channel ([aux_engine_funcs]).  Proved in
      [AuxSpec], against the class [AuxChannel] which the DCE 11 engine
      implements while announced replies stay and have at most sixteen bytes: a
      read that succeeds has delivered the reply, a write that succeeds was
      acknowledged.  Over any registers the bytes on the wire encode the request
      and the loops of every command end; and two ways in which replies
      overwrite memory, and the hot plug after which a status is used that was
      never set.
    - The I2C bus driven by software ([i2caux/i2c_sw_engine.c],
      [i2caux/i2c_engine.c], in [I2cSw]), bit by bit on two lines whose levels
      are the bus's answers.  Proved: what a monitor of the bus decodes is the
      command, and a command that fails leaves the bus free.
    - Pins ([dal/dc/gpio] in [Gpio]: [hw_gpio.c], [hw_ddc.c], [hw_hpd.c],
      [gpio_service.c], [gpio_base.c], [ddc.c], [irq.c]), which the two above
      open and close.  [GpioSpec] has the tables, the factory and the
      translation of DCE 11 ([gpio/dce110]).  Proved, against the class
      [FactoryOk] which these tables satisfy: pins have one holder, free pins
      have the registers they started with (but for those that were opened
      without options, whose bits are cleared), a line opens both pins or none; the
      translations are inverse, and the pins they get wrong; a pin driven by the
      I2C engine is open drain.

    ** Bounds and fuel

    The interpreter loop takes one unit of fuel per instruction and nested
    table, because a table may poll hardware for ever; [AtomTotal] shows that
    more fuel never changes a result, and the loops inside an instruction need
    none beyond the length of the image.  The trigonometric series run 13 turns
    and the exponential series 8, as in the code.  The sub-allocator's search
    gets [search_fuel], twice the number of buffers plus two, which
    [sa_search_correct] shows to be enough; its outer loop and the logarithm's
    Newton iteration take fuel from the caller, because they wait for other
    clients or for convergence.  The chunk search gets one turn more than there
    are chunks, and [interrupt_wq] 1024 turns, both proved to be enough.  The
    emission of a fence takes 2 units and its handler 3 and 3 for each slot;
    the update of page-table entries one turn for each table, the split of a
    mapping one for each node and each page ([split_fuel]), the lists of an address space one for each
    element, the PLL search one for each post divider, the walk over a decoder
    stream one for each word and one more: the loops consume what they count,
    and the theorems about these functions give their results.  The encoder's loop likewise; the loops over buffer
    lists, GART pages and pipes recurse on what they walk over.  A read on the
    AUX channel gets one round for every way its counters can still move, and
    a write likewise, with the caller's limit of deferrals; [aux_command_ends]
    shows that this is enough.  The waits of the I2C engine and of the AUX
    registers count the polls of the code.

    ** Not modelled

    Register programming for the individual engines, display blocks and power
    controllers; the glue to DRM, TTM and the IOMMU; the parsers of BIOS data
    tables; reference counts of fences; memory ordering beyond the order the
    barriers give.  Work queues, wait queues and kernel threads appear as the
    steps they trigger.

    ** Plan

    The library covers what is listed above.  Natural next steps, in this
    order: the hardware I2C engines beside [I2cSw]; events and doorbells of the
    compute driver and its packet manager; DisplayPort link training
    ([dc_link_dp.c]) over [Aux]; FreeSync. *)

From stdpp Require Import base numbers list.
From Stdlib Require Export ZArith Lia Bool Btauto.

#[global] Open Scope Z_scope.

(** ** Machine integers

    A C integer of width [w] is a [Z] kept in range by an explicit wrap.  The
    kernel is built with [-fno-strict-overflow], so signed arithmetic wraps
    in two's complement as well. *)

Definition u8 (z : Z) : Z := z mod 256.
Definition u16 (z : Z) : Z := z mod 65536.
Definition u32 (z : Z) : Z := z mod 4294967296.
Definition u64 (z : Z) : Z := z mod 18446744073709551616.
Definition s32 (z : Z) : Z := (z + 2147483648) mod 4294967296 - 2147483648.
Definition s64 (z : Z) : Z :=
  (z + 9223372036854775808) mod 18446744073709551616 - 9223372036854775808.

Definition is_u8 (z : Z) : Prop := 0 <= z < 256.
Definition is_u16 (z : Z) : Prop := 0 <= z < 65536.
Definition is_u32 (z : Z) : Prop := 0 <= z < 4294967296.
Definition is_u64 (z : Z) : Prop := 0 <= z < 18446744073709551616.
Definition is_s32 (z : Z) : Prop := -2147483648 <= z < 2147483648.
Definition is_s64 (z : Z) : Prop :=
  -9223372036854775808 <= z < 9223372036854775808.

Create HintDb cint.
#[export] Hint Unfold u8 u16 u32 u64 s32 s64 : cint.
#[export] Hint Unfold is_u8 is_u16 is_u32 is_u64 is_s32 is_s64 : cint.

(** [cint] decides linear facts about wrapped machine integers. *)
Ltac cint :=
  unfold u8, u16, u32, u64, s32, s64 in *;
  unfold is_u8, is_u16, is_u32, is_u64, is_s32, is_s64 in *;
  Z.div_mod_to_equations; lia.

Lemma u32_small z : is_u32 z -> u32 z = z.
Proof. intros. cint. Qed.
Lemma s64_small z : is_s64 z -> s64 z = z.
Proof. intros. cint. Qed.
Lemma u64_s64 z : u64 (s64 z) = u64 z.
Proof. cint. Qed.

(** ** Bits *)

Lemma testbit_mod_pow2 a n i :
  0 <= n -> Z.testbit (a mod 2 ^ n) i = (i <? n) && Z.testbit a i.
Proof.
  intros Hn. destruct (Z.ltb_spec i n); cbn [andb].
  - destruct (Z.le_gt_cases 0 i).
    + by rewrite Z.mod_pow2_bits_low by lia.
    + by rewrite !Z.testbit_neg_r by lia.
  - by rewrite Z.mod_pow2_bits_high by lia.
Qed.

Lemma testbit_u8 a i : Z.testbit (u8 a) i = (i <? 8) && Z.testbit a i.
Proof. exact (testbit_mod_pow2 a 8 i ltac:(lia)). Qed.
Lemma testbit_u16 a i : Z.testbit (u16 a) i = (i <? 16) && Z.testbit a i.
Proof. exact (testbit_mod_pow2 a 16 i ltac:(lia)). Qed.
Lemma testbit_u32 a i : Z.testbit (u32 a) i = (i <? 32) && Z.testbit a i.
Proof. exact (testbit_mod_pow2 a 32 i ltac:(lia)). Qed.
Lemma testbit_u64 a i : Z.testbit (u64 a) i = (i <? 64) && Z.testbit a i.
Proof. exact (testbit_mod_pow2 a 64 i ltac:(lia)). Qed.

Lemma testbit_ones_nonneg n i :
  0 <= n -> 0 <= i -> Z.testbit (Z.ones n) i = (i <? n).
Proof.
  intros Hn Hi. destruct (Z.ltb_spec i n).
  - by rewrite Z.ones_spec_low by lia.
  - by rewrite Z.ones_spec_high by lia.
Qed.

Lemma testbit_high w x i : 0 <= x < 2 ^ w -> w <= i -> Z.testbit x i = false.
Proof.
  intros Hx Hi. destruct (Z.le_gt_cases 0 w) as [Hw|Hw].
  - rewrite <- (Z.mod_small x (2 ^ w)) by lia.
    rewrite testbit_mod_pow2 by lia. by destruct (Z.ltb_spec i w); [lia|].
  - rewrite Z.pow_neg_r in Hx by lia. lia.
Qed.

(** A non-negative number whose bits from [w] on are clear is below [2^w]. *)
Lemma bits_bound w x :
  0 <= w -> 0 <= x -> (forall i, w <= i -> Z.testbit x i = false) -> x < 2 ^ w.
Proof.
  intros Hw Hx H.
  assert (x mod 2 ^ w = x) as <-; [|apply Z.mod_pos_bound; lia].
  apply Z.bits_inj'. intros i Hi. rewrite testbit_mod_pow2 by lia.
  destruct (Z.ltb_spec i w); [done|]. by rewrite H by lia.
Qed.

Section bit_bounds.
Context (w : Z) (Hw : 0 <= w).

Lemma land_bound_l a b : 0 <= a < 2 ^ w -> 0 <= Z.land a b < 2 ^ w.
Proof.
  intros Ha. assert (0 <= Z.land a b) by (apply Z.land_nonneg; lia).
  split; [done|]. apply bits_bound; [done|done|]. intros i Hi.
  by rewrite Z.land_spec, (testbit_high w a) by lia.
Qed.
Lemma land_bound_r a b : 0 <= b < 2 ^ w -> 0 <= Z.land a b < 2 ^ w.
Proof. rewrite Z.land_comm. apply land_bound_l. Qed.
Lemma lor_bound a b :
  0 <= a < 2 ^ w -> 0 <= b < 2 ^ w -> 0 <= Z.lor a b < 2 ^ w.
Proof.
  intros Ha Hb. assert (0 <= Z.lor a b) by (apply Z.lor_nonneg; lia).
  split; [done|]. apply bits_bound; [done|done|]. intros i Hi.
  by rewrite Z.lor_spec, (testbit_high w a), (testbit_high w b) by lia.
Qed.
Lemma lxor_bound a b :
  0 <= a < 2 ^ w -> 0 <= b < 2 ^ w -> 0 <= Z.lxor a b < 2 ^ w.
Proof.
  intros Ha Hb. assert (0 <= Z.lxor a b) by (apply Z.lxor_nonneg; lia).
  split; [done|]. apply bits_bound; [done|done|]. intros i Hi.
  by rewrite Z.lxor_spec, (testbit_high w a), (testbit_high w b) by lia.
Qed.
Lemma shiftr_bound a n : 0 <= a < 2 ^ w -> 0 <= n -> 0 <= Z.shiftr a n < 2 ^ w.
Proof.
  intros Ha Hn. rewrite Z.shiftr_div_pow2 by lia. split.
  - apply Z.div_pos; lia.
  - apply Z.le_lt_trans with a; [|lia]. apply Z.div_le_upper_bound; [lia|].
    assert (0 < 2 ^ n) by lia. nia.
Qed.
End bit_bounds.

Lemma land_pow2 x k : 0 <= k -> Z.land x (2 ^ k - 1) = x mod 2 ^ k.
Proof. intros. replace (2 ^ k - 1) with (Z.ones k) by (rewrite Z.ones_equiv; lia). by apply Z.land_ones. Qed.

Lemma pow2_bounds k : 0 <= k <= 30 -> 1 <= 2 ^ k <= 1073741824.
Proof.
  intros. change 1073741824 with (2 ^ 30). split; [|apply Z.pow_le_mono_r; lia].
  pose proof (Z.pow_pos_nonneg 2 k). lia.
Qed.

Lemma land_lnot64 x k : is_u64 x -> 0 <= k <= 64 -> Z.land x (u64 (Z.lnot (2 ^ k - 1))) = x / 2 ^ k * 2 ^ k.
Proof.
  intros Hx Hk. rewrite <- Z.shiftr_div_pow2, <- Z.shiftl_mul_pow2, <- Z.ldiff_ones_r by lia.
  replace (2 ^ k - 1) with (Z.ones k) by (rewrite Z.ones_equiv; lia).
  apply Z.bits_inj'. intros i Hi. rewrite Z.land_spec, Z.ldiff_spec, testbit_u64, Z.lnot_spec by done.
  destruct (Z.ltb_spec i 64); [done|]. rewrite (testbit_high 64 x i); [done|unfold is_u64 in Hx; lia|lia].
Qed.

Lemma u8_range z : is_u8 (u8 z).
Proof. cint. Qed.
Lemma u16_range z : is_u16 (u16 z).
Proof. cint. Qed.
Lemma u32_range z : is_u32 (u32 z).
Proof. cint. Qed.
Lemma u64_range z : is_u64 (u64 z).
Proof. cint. Qed.
Lemma s32_range z : is_s32 (s32 z).
Proof. cint. Qed.
Lemma s64_range z : is_s64 (s64 z).
Proof. cint. Qed.
Lemma is_u32_land_l a b : is_u32 a -> is_u32 (Z.land a b).
Proof. exact (land_bound_l 32 ltac:(lia) a b). Qed.
Lemma is_u32_land_r a b : is_u32 b -> is_u32 (Z.land a b).
Proof. exact (land_bound_r 32 ltac:(lia) a b). Qed.
Lemma is_u32_lor a b : is_u32 a -> is_u32 b -> is_u32 (Z.lor a b).
Proof. exact (lor_bound 32 ltac:(lia) a b). Qed.
Lemma is_u32_lxor a b : is_u32 a -> is_u32 b -> is_u32 (Z.lxor a b).
Proof. exact (lxor_bound 32 ltac:(lia) a b). Qed.
Lemma is_u32_shiftr a n : is_u32 a -> 0 <= n -> is_u32 (Z.shiftr a n).
Proof. exact (shiftr_bound 32 ltac:(lia) a n). Qed.
Lemma is_u8_u32 a : is_u8 a -> is_u32 a.
Proof. cint. Qed.
Lemma is_u16_u32 a : is_u16 a -> is_u32 a.
Proof. cint. Qed.

#[export] Hint Resolve u8_range u16_range u32_range u64_range s32_range s64_range : cint.
#[export] Hint Resolve is_u32_land_l is_u32_lor is_u32_lxor is_u8_u32 is_u16_u32 : cint.

Create HintDb zbits discriminated.
#[export] Hint Rewrite Z.land_spec Z.lor_spec Z.lxor_spec testbit_u8 testbit_u16
  testbit_u32 testbit_u64 Z.testbit_0_l : zbits.
#[export] Hint Rewrite Z.shiftl_spec Z.shiftr_spec Z.lnot_spec testbit_ones_nonneg
  using lia : zbits.

(** [bitwise] proves an equation between bit expressions whose shift counts
    and masks are constants: it compares the bits at a position [i] and splits
    on the comparisons of [i] with the constants. *)
Ltac bitwise_core :=
  autorewrite with zbits;
  repeat match goal with
  | |- context [?a <? ?b] => destruct (Z.ltb_spec a b); try lia
  | |- context [Z.testbit ?x ?i] =>
      lazymatch i with
      | context [Z.sub _ _] => rewrite (Z.testbit_neg_r x i) by lia
      end
  end;
  rewrite ?andb_false_r, ?andb_true_r, ?orb_false_r; try btauto; try done.
Ltac bitwise := apply Z.bits_inj'; intros ?i ?Hi; bitwise_core.

(** [eqb_const] evaluates the tests between closed integers in the goal. *)
Ltac eqb_const :=
  repeat match goal with
  | |- context [?a =? ?b] =>
      let r := eval vm_compute in (a =? b) in
      lazymatch r with
      | true => change (a =? b) with true
      | false => change (a =? b) with false
      end
  end;
  cbn [orb andb negb]; cbv iota.

(** ** Error codes the code returns (Linux errno values) *)

Definition EPERM : Z := 1.
Definition ENOENT : Z := 2.
Definition ENOMEM : Z := 12.
Definition EBUSY : Z := 16.
Definition EINVAL : Z := 22.

(** ** How often an element occurs in a list (reference counts) *)

Section occ.
Context {A : Type} `{EqDecision A}.
Implicit Types (x y : A) (l k : list A).

Definition occ x l : Z := Z.of_nat (length (filter (eq x) l)).

Lemma occ_nil x : occ x [] = 0.
Proof. done. Qed.
Lemma occ_cons x y l : occ x (y :: l) = occ x l + (if decide (x = y) then 1 else 0).
Proof. unfold occ. rewrite filter_cons. destruct (decide (x = y)); cbn [length]; lia. Qed.
Lemma occ_app x l k : occ x (l ++ k) = occ x l + occ x k.
Proof. unfold occ. rewrite filter_app, length_app. lia. Qed.
Lemma occ_perm x l k : l ≡ₚ k -> occ x l = occ x k.
Proof. intros H. unfold occ. by rewrite H. Qed.
#[global] Instance occ_Permutation x : Proper ((≡ₚ) ==> (=)) (occ x).
Proof. intros l k H. by apply occ_perm. Qed.
Lemma occ_range x l : 0 <= occ x l <= Z.of_nat (length l).
Proof. unfold occ. pose proof (length_filter (eq x) l). lia. Qed.
Lemma occ_pos x l : 0 < occ x l <-> x ∈ l.
Proof.
  unfold occ. split.
  - destruct (filter (eq x) l) as [|y k] eqn:E; [cbn; lia|]. intros _.
    assert (y ∈ filter (eq x) l) as Hy by (rewrite E; left). by apply list_elem_of_filter in Hy as [-> ?].
  - intros Hx. assert (x ∈ filter (eq x) l) as Hf by (by apply list_elem_of_filter).
    destruct (filter (eq x) l); [by apply not_elem_of_nil in Hf|cbn [length]; lia].
Qed.
End occ.

Lemma s32_small z : is_s32 z -> s32 z = z.
Proof. cint. Qed.
Lemma u64_small z : is_u64 z -> u64 z = z.
Proof. cint. Qed.
Lemma u8_small z : is_u8 z -> u8 z = z.
Proof. cint. Qed.
