(* ===== verification/CMonad.v ===== *)
(** * Effects of the C code: state, undefined behaviour and bounded loops

    [M S A] is a computation over a state [S]: it returns a value and a new
    state ([Ok]), reaches behaviour that C leaves undefined ([Fault]: an access
    outside an object, a shift by the width or more, a null pointer) or has
    used up the iterations a loop was given ([NoFuel]).  [triple] is the
    partial-correctness judgement the components use for their invariants;
    [outcome_le] orders computations by the fuel they needed. *)

From stdpp Require Import base numbers list.
From S2P Require Import Prelude.

Inductive outcome (A : Type) : Type :=
  | Ok (a : A)
  | Fault
  | NoFuel.
Arguments Ok {A} a.
Arguments Fault {A}.
Arguments NoFuel {A}.

Definition M (S A : Type) : Type := S -> outcome (A * S).

#[global] Instance M_ret {S} : MRet (M S) := fun A a s => Ok (a, s).
#[global] Instance M_bind {S} : MBind (M S) := fun A B k m s =>
  match m s with
  | Ok (a, s') => k a s'
  | Fault => Fault
  | NoFuel => NoFuel
  end.

Definition fault {S A} : M S A := fun _ => Fault.
Definition nofuel {S A} : M S A := fun _ => NoFuel.
Definition gets {S A} (f : S -> A) : M S A := fun s => Ok (f s, s).
Definition modify {S} (f : S -> S) : M S unit := fun s => Ok (tt, f s).

(** A lookup that may fall outside its object. *)
Definition deref {S A} (o : option A) : M S A :=
  match o with Some a => mret a | None => fault end.

(** ** Partial correctness *)

Definition triple {S A} (P : S -> Prop) (m : M S A) (Q : A -> S -> Prop) : Prop :=
  forall s, P s -> match m s with Ok (a, s') => Q a s' | _ => True end.

Section triple_rules.
Context {S : Type}.
Implicit Types P : S -> Prop.

Lemma triple_ret {A} P (a : A) (Q : A -> S -> Prop) :
  (forall s, P s -> Q a s) -> triple P (mret a) Q.
Proof. intros H s Hs. exact (H s Hs). Qed.

Lemma triple_bind {A B} P (m : M S A) (k : A -> M S B) R Q :
  triple P m R -> (forall a, triple (R a) (k a) Q) -> triple P (mbind k m) Q.
Proof.
  intros Hm Hk s Hs. specialize (Hm s Hs). unfold mbind, M_bind.
  destruct (m s) as [[a s']| |]; [exact (Hk a s' Hm)|done|done].
Qed.

Lemma triple_fault {A} P (Q : A -> S -> Prop) : triple P fault Q.
Proof. by intros s _. Qed.
Lemma triple_nofuel {A} P (Q : A -> S -> Prop) : triple P nofuel Q.
Proof. by intros s _. Qed.

Lemma triple_gets {A} P (f : S -> A) (Q : A -> S -> Prop) :
  (forall s, P s -> Q (f s) s) -> triple P (gets f) Q.
Proof. intros H s Hs. exact (H s Hs). Qed.

Lemma triple_modify P (f : S -> S) (Q : unit -> S -> Prop) :
  (forall s, P s -> Q tt (f s)) -> triple P (modify f) Q.
Proof. intros H s Hs. exact (H s Hs). Qed.

Lemma triple_deref {A} P (o : option A) (Q : A -> S -> Prop) :
  (forall a s, o = Some a -> P s -> Q a s) -> triple P (deref o) Q.
Proof. intros H s Hs. destruct o; [exact (H a s eq_refl Hs)|done]. Qed.

Lemma triple_weaken {A} P P' (m : M S A) (Q Q' : A -> S -> Prop) :
  triple P' m Q' -> (forall s, P s -> P' s) -> (forall a s, Q' a s -> Q a s) ->
  triple P m Q.
Proof.
  intros Hm HP HQ s Hs. specialize (Hm s (HP s Hs)).
  destruct (m s) as [[a s']| |]; auto.
Qed.

Lemma triple_Ok {A} P (m : M S A) (Q : A -> S -> Prop) s a s' :
  triple P m Q -> P s -> m s = Ok (a, s') -> Q a s'.
Proof. intros H Hs E. specialize (H s Hs). by rewrite E in H. Qed.
End triple_rules.

(** [keeps I m P]: [m] preserves the invariant [I] and returns a value that
    satisfies [P]. *)
Definition keeps {S A} (I : S -> Prop) (m : M S A) (P : A -> Prop) : Prop :=
  triple I m (fun v s => I s /\ P v).

Section keeps_rules.
Context {S : Type} (I : S -> Prop).

Lemma keeps_ret {A} (a : A) (P : A -> Prop) : P a -> keeps I (mret a) P.
Proof. intros HP. by apply triple_ret. Qed.

Lemma keeps_bind {A B} (m : M S A) (k : A -> M S B) P Q :
  keeps I m P -> (forall a, P a -> keeps I (k a) Q) -> keeps I (mbind k m) Q.
Proof.
  intros Hm Hk. eapply triple_bind; [exact Hm|]. intros a s [Hs HP]. exact (Hk a HP s Hs).
Qed.

Lemma keeps_fault {A} (P : A -> Prop) : keeps I fault P.
Proof. apply triple_fault. Qed.
Lemma keeps_nofuel {A} (P : A -> Prop) : keeps I nofuel P.
Proof. apply triple_nofuel. Qed.

Lemma keeps_gets {A} (f : S -> A) (P : A -> Prop) :
  (forall s, I s -> P (f s)) -> keeps I (gets f) P.
Proof. intros H. apply triple_gets. auto. Qed.

Lemma keeps_modify (f : S -> S) :
  (forall s, I s -> I (f s)) -> keeps I (modify f) (fun _ => True).
Proof. intros H. apply triple_modify. auto. Qed.

Lemma keeps_deref {A} (o : option A) (P : A -> Prop) :
  (forall a, o = Some a -> P a) -> keeps I (deref o) P.
Proof. intros H. apply triple_deref. auto. Qed.

Lemma keeps_weaken {A} (m : M S A) (P Q : A -> Prop) :
  keeps I m P -> (forall a, P a -> Q a) -> keeps I m Q.
Proof. intros Hm H. eapply triple_weaken; [exact Hm|done|]. intros a s [? ?]. auto. Qed.

Lemma keeps_if {A} (b : bool) (m1 m2 : M S A) (P : A -> Prop) :
  (b = true -> keeps I m1 P) -> (b = false -> keeps I m2 P) ->
  keeps I (if b then m1 else m2) P.
Proof. destruct b; auto. Qed.
End keeps_rules.

(** ** Fuel ordering *)

(** [o1] is [o2], or [o1] ran out of fuel. *)
Definition outcome_le {A} (o1 o2 : outcome A) : Prop := o1 = NoFuel \/ o1 = o2.
Definition M_le {S A} (m1 m2 : M S A) : Prop := forall s, outcome_le (m1 s) (m2 s).

#[global] Instance outcome_le_preorder {A} : PreOrder (@outcome_le A).
Proof.
  split; [by right|]. intros x y z [->| ->]; [by left|done].
Qed.
#[global] Instance M_le_preorder {S A} : PreOrder (@M_le S A).
Proof.
  split; [intros m s; reflexivity|].
  intros x y z H1 H2 s. by transitivity (y s).
Qed.

Lemma M_le_bind {S A B} (m1 m2 : M S A) (k1 k2 : A -> M S B) :
  M_le m1 m2 -> (forall a, M_le (k1 a) (k2 a)) -> M_le (mbind k1 m1) (mbind k2 m2).
Proof.
  intros Hm Hk s. unfold mbind, M_bind.
  destruct (Hm s) as [-> | ->]; [by left|].
  destruct (m2 s) as [[a s']| |]; [apply Hk|by right|by right].
Qed.

Lemma M_le_Ok {S A} (m1 m2 : M S A) s r :
  M_le m1 m2 -> m1 s = Ok r -> m2 s = Ok r.
Proof. intros H E. destruct (H s) as [H'|H']; congruence. Qed.

(** [total I m]: from a state satisfying [I], [m] does not run out of
    iterations and re-establishes [I]. *)
Definition total {S A} (I : S -> Prop) (m : M S A) : Prop :=
  forall s, I s -> match m s with Ok (_, s') => I s' | Fault => True | NoFuel => False end.

Section total_rules.
Context {S : Type} (I : S -> Prop).

Lemma total_ret {A} (a : A) : total I (mret a).
Proof. by intros s Hs. Qed.
Lemma total_fault {A} : total I (@fault S A).
Proof. by intros s Hs. Qed.
Lemma total_gets {A} (f : S -> A) : total I (gets f).
Proof. by intros s Hs. Qed.
Lemma total_deref {A} (o : option A) : total I (deref o).
Proof. by destruct o; intros s Hs. Qed.
Lemma total_modify (f : S -> S) : (forall s, I s -> I (f s)) -> total I (modify f).
Proof. intros H s Hs. exact (H s Hs). Qed.
Lemma total_bind {A B} (m : M S A) (k : A -> M S B) :
  total I m -> (forall a, total I (k a)) -> total I (mbind k m).
Proof.
  intros Hm Hk s Hs. specialize (Hm s Hs). unfold mbind, M_bind.
  destruct (m s) as [[a s']| |]; [exact (Hk a s' Hm)|done|done].
Qed.
Lemma total_bind_run {A B} (m : M S A) (k : A -> M S B) :
  total I m -> (forall s a s', I s -> m s = Ok (a, s') -> total I (k a)) ->
  total I (mbind k m).
Proof.
  intros Hm Hk s Hs. specialize (Hm s Hs). unfold mbind, M_bind.
  destruct (m s) as [[a s']| |] eqn:E; [exact (Hk s a s' Hs E s' Hm)|done|done].
Qed.
Lemma total_if {A} (b : bool) (m1 m2 : M S A) :
  total I m1 -> total I m2 -> total I (if b then m1 else m2).
Proof. by destruct b. Qed.
End total_rules.

Lemma bind_Ok {S A B} (m : M S A) (k : A -> M S B) s r :
  mbind k m s = Ok r <-> exists a s', m s = Ok (a, s') /\ k a s' = Ok r.
Proof.
  unfold mbind, M_bind. split.
  - destruct (m s) as [[a s']| |] eqn:E; [|done|done]. eauto.
  - by intros (a & s' & -> & ?).
Qed.

Lemma bind_eval {S A B} (m : M S A) (k : A -> M S B) s a s' :
  m s = Ok (a, s') -> mbind k m s = k a s'.
Proof. intros E. unfold mbind, M_bind. by rewrite E. Qed.

Lemma bind_Fault {S A B} (m : M S A) (k : A -> M S B) s :
  m s = Fault -> mbind k m s = Fault.
Proof. intros E. unfold mbind, M_bind. by rewrite E. Qed.

Lemma ret_Ok {S A} (a a' : A) (s s' : S) :
  mret (M := M S) a s = Ok (a', s') <-> a = a' /\ s = s'.
Proof. unfold mret, M_ret. split; [by intros [= -> ->]|by intros [-> ->]]. Qed.

Lemma gets_Ok {S A} (f : S -> A) a (s s' : S) :
  gets f s = Ok (a, s') <-> f s = a /\ s = s'.
Proof. unfold gets. split; [by intros [= -> ->]|by intros [-> ->]]. Qed.

Lemma modify_Ok {S} (f : S -> S) (u : unit) s s' :
  modify f s = Ok (u, s') <-> f s = s'.
Proof. destruct u. unfold modify. split; [by intros [= ->]|by intros ->]. Qed.

Lemma deref_Ok {S A} (o : option A) a (s s' : S) :
  deref o s = Ok (a, s') <-> o = Some a /\ s = s'.
Proof.
  destruct o; cbn.
  - rewrite ret_Ok. split; intros [? ?]; split; congruence.
  - unfold fault. split; [done|by intros [? _]].
Qed.

(** [returns m s Q]: from [s], [m] returns, with a result that satisfies [Q]. *)
Definition returns {S A} (m : M S A) (s : S) (Q : A -> S -> Prop) : Prop := exists a s', m s = Ok (a, s') /\ Q a s'.

Section returns_rules.
Context {S : Type}.
Implicit Types s : S.

Lemma returns_ret {A} (a : A) s (Q : A -> S -> Prop) : Q a s -> returns (mret a) s Q.
Proof. intros H. by exists a, s. Qed.
Lemma returns_bind {A B} (m : M S A) (k : A -> M S B) s R (Q : B -> S -> Prop) :
  returns m s R -> (forall a s', R a s' -> returns (k a) s' Q) -> returns (mbind k m) s Q.
Proof. intros (a & s' & E & HR) H. destruct (H a s' HR) as (b & s2 & E2 & HQ). exists b, s2. by rewrite (bind_eval m k s a s' E). Qed.
Lemma returns_gets {A B} (f : S -> A) (k : A -> M S B) s (Q : B -> S -> Prop) : returns (k (f s)) s Q -> returns (mbind k (gets f)) s Q.
Proof. done. Qed.
Lemma returns_modify {B} (f : S -> S) (k : unit -> M S B) s (Q : B -> S -> Prop) : returns (k tt) (f s) Q -> returns (mbind k (modify f)) s Q.
Proof. done. Qed.
Lemma returns_run {A B} (m : M S A) (k : A -> M S B) s a s' (Q : B -> S -> Prop) : m s = Ok (a, s') -> returns (k a) s' Q -> returns (mbind k m) s Q.
Proof. intros E H. unfold returns. by rewrite (bind_eval m k s a s' E). Qed.
Lemma returns_weaken {A} (m : M S A) s (Q Q' : A -> S -> Prop) : returns m s Q -> (forall a s', Q a s' -> Q' a s') -> returns m s Q'.
Proof. intros (a & s' & E & H) HQ. exists a, s'. auto. Qed.
End returns_rules.

(** [runs m]: [m] returns from every state. *)
Definition runs {S A} (m : M S A) : Prop := forall s, returns m s (fun _ _ => True).
Lemma runs_ret {S A} (a : A) : runs (mret (M := M S) a).
Proof. intros s. by apply returns_ret. Qed.
Lemma runs_bind {S A B} (m : M S A) (k : A -> M S B) : runs m -> (forall a, runs (k a)) -> runs (mbind k m).
Proof. intros Hm Hk s. eapply returns_bind; [apply Hm|]. intros a s' _. apply Hk. Qed.
Lemma runs_if {S A} (b : bool) (m1 m2 : M S A) : runs m1 -> runs m2 -> runs (if b then m1 else m2).
Proof. by destruct b. Qed.
Lemma runs_bind_ret {S A B} (a : A) (k : A -> M S B) : runs (k a) -> runs (mbind k (mret a)).
Proof. intros H s. exact (H s). Qed.
Create HintDb runs.
#[export] Hint Resolve runs_ret runs_bind runs_if : runs.

(** [minv] inverts a successful run into the runs of its steps. *)
Ltac minv_step :=
  match goal with
  | H : mbind _ _ _ = Ok _ |- _ =>
      let a := fresh "v" in let s := fresh "s" in let E := fresh "E" in
      apply bind_Ok in H; destruct H as (a & s & E & H); cbn beta in H
  | H : mret _ _ = Ok (_, _) |- _ => apply ret_Ok in H; destruct H; simplify_eq
  | H : gets _ _ = Ok (_, _) |- _ => apply gets_Ok in H; destruct H; simplify_eq
  | H : modify _ _ = Ok (_, _) |- _ => apply modify_Ok in H; simplify_eq
  | H : deref _ _ = Ok (_, _) |- _ =>
      let E := fresh "D" in apply deref_Ok in H; destruct H as [E ?]; simplify_eq
  | H : fault _ = Ok _ |- _ => discriminate H
  | H : nofuel _ = Ok _ |- _ => discriminate H
  | H : Ok _ = Ok _ |- _ => simplify_eq
  | p : prod _ _ |- _ => destruct p
  end.
Ltac minv := repeat minv_step.

Create HintDb total.
#[export] Hint Resolve total_ret total_fault total_gets total_deref : total.

Create HintDb triple.
#[export] Hint Resolve triple_fault triple_nofuel keeps_fault keeps_nofuel : triple.
