(* ===== verification/AtomState.v ===== *)
(** * AtomBIOS interpreter: context, environment and byte access

    Models the data of [amdgpu/atom.h] and [amdgpu/atom.c]: [struct
    atom_context], [atom_exec_context], [struct card_info], the tables of
    operand widths, and the accessors of [include/atom-bits.h].  The card's
    register hooks and the kernel services the interpreter calls are the
    interfaces [CardInfo] and [AtomKernel]; what the interpreter relies on is
    stated in [CardInfoOk]. *)

From stdpp Require Import base numbers list.
From S2P Require Import Prelude CMonad.

(** ** Constants of atom.h and atom.c *)

Definition ATOM_BIOS_MAGIC : Z := 0xAA55.
Definition ATOM_ATI_MAGIC_PTR : Z := 0x30.
Definition ATOM_ROM_TABLE_PTR : Z := 0x48.
Definition ATOM_ROM_MAGIC_PTR : Z := 4.
Definition ATOM_ROM_CMD_PTR : Z := 0x1E.
Definition ATOM_ROM_DATA_PTR : Z := 0x20.
Definition ATOM_CMD_INIT : Z := 0.
Definition ATOM_DATA_FWI_PTR : Z := 0xC.
Definition ATOM_DATA_IIO_PTR : Z := 0x32.
Definition ATOM_FWI_DEFSCLK_PTR : Z := 8.
Definition ATOM_FWI_DEFMCLK_PTR : Z := 0xC.
Definition ATOM_CT_WS_PTR : Z := 4.
Definition ATOM_CT_PS_PTR : Z := 5.
Definition ATOM_CT_PS_MASK : Z := 0x7F.
Definition ATOM_CT_CODE_PTR : Z := 6.
Definition ATOM_OP_CNT : Z := 127.
Definition ATOM_OP_EOT : Z := 91.
Definition ATOM_CASE_MAGIC : Z := 0x63.
Definition ATOM_CASE_END : Z := 0x5A5A.

Definition ATOM_ARG_REG : Z := 0.
Definition ATOM_ARG_PS : Z := 1.
Definition ATOM_ARG_WS : Z := 2.
Definition ATOM_ARG_FB : Z := 3.
Definition ATOM_ARG_ID : Z := 4.
Definition ATOM_ARG_IMM : Z := 5.
Definition ATOM_ARG_PLL : Z := 6.
Definition ATOM_ARG_MC : Z := 7.

Definition ATOM_SRC_DWORD : Z := 0.
Definition ATOM_SRC_WORD0 : Z := 1.
Definition ATOM_SRC_WORD16 : Z := 3.
Definition ATOM_SRC_BYTE0 : Z := 4.
Definition ATOM_SRC_BYTE24 : Z := 7.

Definition ATOM_WS_QUOTIENT : Z := 0x40.
Definition ATOM_WS_REMAINDER : Z := 0x41.
Definition ATOM_WS_DATAPTR : Z := 0x42.
Definition ATOM_WS_SHIFT : Z := 0x43.
Definition ATOM_WS_OR_MASK : Z := 0x44.
Definition ATOM_WS_AND_MASK : Z := 0x45.
Definition ATOM_WS_FB_WINDOW : Z := 0x46.
Definition ATOM_WS_ATTRIBUTES : Z := 0x47.
Definition ATOM_WS_REGPTR : Z := 0x48.

Definition ATOM_IIO_NOP : Z := 0.
Definition ATOM_IIO_START : Z := 1.
Definition ATOM_IIO_READ : Z := 2.
Definition ATOM_IIO_WRITE : Z := 3.
Definition ATOM_IIO_CLEAR : Z := 4.
Definition ATOM_IIO_SET : Z := 5.
Definition ATOM_IIO_MOVE_INDEX : Z := 6.
Definition ATOM_IIO_MOVE_ATTR : Z := 7.
Definition ATOM_IIO_MOVE_DATA : Z := 8.
Definition ATOM_IIO_END : Z := 9.

Definition ATOM_IO_MM : Z := 0.
Definition ATOM_IO_PCI : Z := 1.
Definition ATOM_IO_SYSIO : Z := 2.
Definition ATOM_IO_IIO : Z := 0x80.

Definition ATOM_COND_ABOVE : Z := 0.
Definition ATOM_COND_ABOVEOREQUAL : Z := 1.
Definition ATOM_COND_ALWAYS : Z := 2.
Definition ATOM_COND_BELOW : Z := 3.
Definition ATOM_COND_BELOWOREQUAL : Z := 4.
Definition ATOM_COND_EQUAL : Z := 5.
Definition ATOM_COND_NOTEQUAL : Z := 6.

Definition ATOM_PORT_ATI : Z := 0.
Definition ATOM_PORT_PCI : Z := 1.
Definition ATOM_PORT_SYSIO : Z := 2.
Definition ATOM_UNIT_MICROSEC : Z := 0.
Definition ATOM_UNIT_MILLISEC : Z := 1.

(** [0xCDCDCDCD], the filler of values that were not loaded. *)
Definition ATOM_POISON : Z := 0xCDCDCDCD.

(** ** Operand width tables *)

Definition table (l : list Z) (i : Z) : Z := nth (Z.to_nat i) l 0.

Definition atom_arg_mask : list Z :=
  [0xFFFFFFFF; 0xFFFF; 0xFFFF00; 0xFFFF0000; 0xFF; 0xFF00; 0xFF0000; 0xFF000000].
Definition atom_arg_shift : list Z := [0; 0; 8; 16; 0; 8; 16; 24].

Definition atom_dst_to_src : list (list Z) :=
  [[0; 0; 0; 0]; [1; 2; 3; 0]; [1; 2; 3; 0]; [1; 2; 3; 0];
   [4; 5; 6; 7]; [4; 5; 6; 7]; [4; 5; 6; 7]; [4; 5; 6; 7]].
Definition atom_def_dst : list Z := [0; 0; 1; 2; 0; 1; 2; 3].

(** The alignment a destination attribute selects. *)
Definition dst_align (attr : Z) : Z :=
  table (nth (Z.to_nat (Z.land (Z.shiftr attr 3) 7)) atom_dst_to_src [])
        (Z.land (Z.shiftr attr 6) 3).

(** ** State *)

Record atom_context := mk_atom_context {
  bios : list Z;
  cmd_table : Z;
  data_table : Z;
  iio : list Z;
  data_block : Z;
  fb_base : Z;
  divmul0 : Z;
  divmul1 : Z;
  io_attr : Z;
  reg_block : Z;
  shift : Z;
  cs_equal : bool;
  cs_above : bool;
  io_mode : Z;
  scratch : list Z;
  scratch_size_bytes : Z
}.

(** [ps] is the offset of the table's parameter window in the caller's
    parameter array, which nested tables share. *)
Record atom_exec_context := mk_atom_exec_context {
  ps : Z;
  ws : list Z;
  ps_shift : Z;
  start : Z;
  last_jump : Z;
  last_jump_jiffies : Z;
  abort : bool
}.

Record atom_state (C : Type) := mk_atom_state {
  st_ctx : atom_context;
  st_ectx : atom_exec_context;
  st_ps : list Z;
  st_card : C;
  debug_depth : Z
}.
Arguments mk_atom_state {C}.
Arguments st_ctx {C}.
Arguments st_ectx {C}.
Arguments st_ps {C}.
Arguments st_card {C}.
Arguments debug_depth {C}.

(** ** Environment *)

(** The hooks of [struct card_info], filled in by the driver. *)
Class CardInfo (C : Type) := {
  reg_read : Z -> C -> Z * C;
  reg_write : Z -> Z -> C -> C;
  ioreg_read : Z -> C -> Z * C;
  ioreg_write : Z -> Z -> C -> C;
  mc_read : Z -> C -> Z * C;
  mc_write : Z -> Z -> C -> C;
  pll_read : Z -> C -> Z * C;
  pll_write : Z -> Z -> C -> C
}.

(** Kernel services.  [undef] is the content of a local variable that was not
    written. *)
Class AtomKernel (C : Type) := {
  jiffies : C -> Z * C;
  jiffies_to_msecs : Z -> Z;
  udelay : Z -> C -> C;
  mdelay : Z -> C -> C;
  msleep : Z -> C -> C;
  drm_can_sleep : C -> bool;
  kzalloc_ok : C -> bool * C;
  undef : Z
}.

(** What the interpreter relies on: hooks return 32-bit register contents and
    [jiffies] a 64-bit counter. *)
Class CardInfoOk (C : Type) {CI : CardInfo C} {AK : AtomKernel C} : Prop := {
  reg_read_u32 : forall r c, is_u32 (fst (reg_read r c));
  ioreg_read_u32 : forall r c, is_u32 (fst (ioreg_read r c));
  mc_read_u32 : forall r c, is_u32 (fst (mc_read r c));
  pll_read_u32 : forall r c, is_u32 (fst (pll_read r c));
  jiffies_u64 : forall c, is_u64 (fst (jiffies c));
  undef_u32 : is_u32 undef
}.

Section access.
Context {C : Type}.
Notation AM := (M (atom_state C)).

Definition with_ctx (f : atom_context -> atom_context) : AM unit :=
  modify (fun s => mk_atom_state (f (st_ctx s)) (st_ectx s) (st_ps s) (st_card s) (debug_depth s)).
Definition with_ectx (f : atom_exec_context -> atom_exec_context) : AM unit :=
  modify (fun s => mk_atom_state (st_ctx s) (f (st_ectx s)) (st_ps s) (st_card s) (debug_depth s)).
Definition with_ps (f : list Z -> list Z) : AM unit :=
  modify (fun s => mk_atom_state (st_ctx s) (st_ectx s) (f (st_ps s)) (st_card s) (debug_depth s)).
Definition with_depth (f : Z -> Z) : AM unit :=
  modify (fun s => mk_atom_state (st_ctx s) (st_ectx s) (st_ps s) (st_card s) (f (debug_depth s))).

Definition ctx_get {A} (f : atom_context -> A) : AM A := gets (fun s => f (st_ctx s)).
Definition ectx_get {A} (f : atom_exec_context -> A) : AM A := gets (fun s => f (st_ectx s)).

Definition card_read {A} (f : C -> A * C) : AM A := fun s =>
  let '(v, c) := f (st_card s) in
  Ok (v, mk_atom_state (st_ctx s) (st_ectx s) (st_ps s) c (debug_depth s)).
Definition card_do (f : C -> C) : AM unit :=
  modify (fun s => mk_atom_state (st_ctx s) (st_ectx s) (st_ps s) (f (st_card s)) (debug_depth s)).
End access.

(** ** Field updates of the two contexts *)

Definition set_iio (v : list Z) (c : atom_context) : atom_context :=
  mk_atom_context (bios c) (cmd_table c) (data_table c) v (data_block c) (fb_base c)
    (divmul0 c) (divmul1 c) (io_attr c) (reg_block c) (shift c) (cs_equal c)
    (cs_above c) (io_mode c) (scratch c) (scratch_size_bytes c).
Definition set_data_block (v : Z) (c : atom_context) : atom_context :=
  mk_atom_context (bios c) (cmd_table c) (data_table c) (iio c) v (fb_base c)
    (divmul0 c) (divmul1 c) (io_attr c) (reg_block c) (shift c) (cs_equal c)
    (cs_above c) (io_mode c) (scratch c) (scratch_size_bytes c).
Definition set_fb_base (v : Z) (c : atom_context) : atom_context :=
  mk_atom_context (bios c) (cmd_table c) (data_table c) (iio c) (data_block c) v
    (divmul0 c) (divmul1 c) (io_attr c) (reg_block c) (shift c) (cs_equal c)
    (cs_above c) (io_mode c) (scratch c) (scratch_size_bytes c).
Definition set_divmul0 (v : Z) (c : atom_context) : atom_context :=
  mk_atom_context (bios c) (cmd_table c) (data_table c) (iio c) (data_block c) (fb_base c)
    v (divmul1 c) (io_attr c) (reg_block c) (shift c) (cs_equal c)
    (cs_above c) (io_mode c) (scratch c) (scratch_size_bytes c).
Definition set_divmul1 (v : Z) (c : atom_context) : atom_context :=
  mk_atom_context (bios c) (cmd_table c) (data_table c) (iio c) (data_block c) (fb_base c)
    (divmul0 c) v (io_attr c) (reg_block c) (shift c) (cs_equal c)
    (cs_above c) (io_mode c) (scratch c) (scratch_size_bytes c).
Definition set_io_attr (v : Z) (c : atom_context) : atom_context :=
  mk_atom_context (bios c) (cmd_table c) (data_table c) (iio c) (data_block c) (fb_base c)
    (divmul0 c) (divmul1 c) v (reg_block c) (shift c) (cs_equal c)
    (cs_above c) (io_mode c) (scratch c) (scratch_size_bytes c).
Definition set_reg_block (v : Z) (c : atom_context) : atom_context :=
  mk_atom_context (bios c) (cmd_table c) (data_table c) (iio c) (data_block c) (fb_base c)
    (divmul0 c) (divmul1 c) (io_attr c) v (shift c) (cs_equal c)
    (cs_above c) (io_mode c) (scratch c) (scratch_size_bytes c).
Definition set_shift (v : Z) (c : atom_context) : atom_context :=
  mk_atom_context (bios c) (cmd_table c) (data_table c) (iio c) (data_block c) (fb_base c)
    (divmul0 c) (divmul1 c) (io_attr c) (reg_block c) v (cs_equal c)
    (cs_above c) (io_mode c) (scratch c) (scratch_size_bytes c).
Definition set_cs_equal (v : bool) (c : atom_context) : atom_context :=
  mk_atom_context (bios c) (cmd_table c) (data_table c) (iio c) (data_block c) (fb_base c)
    (divmul0 c) (divmul1 c) (io_attr c) (reg_block c) (shift c) v
    (cs_above c) (io_mode c) (scratch c) (scratch_size_bytes c).
Definition set_cs_above (v : bool) (c : atom_context) : atom_context :=
  mk_atom_context (bios c) (cmd_table c) (data_table c) (iio c) (data_block c) (fb_base c)
    (divmul0 c) (divmul1 c) (io_attr c) (reg_block c) (shift c) (cs_equal c)
    v (io_mode c) (scratch c) (scratch_size_bytes c).
Definition set_io_mode (v : Z) (c : atom_context) : atom_context :=
  mk_atom_context (bios c) (cmd_table c) (data_table c) (iio c) (data_block c) (fb_base c)
    (divmul0 c) (divmul1 c) (io_attr c) (reg_block c) (shift c) (cs_equal c)
    (cs_above c) v (scratch c) (scratch_size_bytes c).
Definition set_scratch (v : list Z) (c : atom_context) : atom_context :=
  mk_atom_context (bios c) (cmd_table c) (data_table c) (iio c) (data_block c) (fb_base c)
    (divmul0 c) (divmul1 c) (io_attr c) (reg_block c) (shift c) (cs_equal c)
    (cs_above c) (io_mode c) v (scratch_size_bytes c).
Definition set_scratch_size (v : Z) (c : atom_context) : atom_context :=
  mk_atom_context (bios c) (cmd_table c) (data_table c) (iio c) (data_block c) (fb_base c)
    (divmul0 c) (divmul1 c) (io_attr c) (reg_block c) (shift c) (cs_equal c)
    (cs_above c) (io_mode c) (scratch c) v.

Definition set_ws (v : list Z) (e : atom_exec_context) : atom_exec_context :=
  mk_atom_exec_context (ps e) v (ps_shift e) (start e) (last_jump e) (last_jump_jiffies e) (abort e).
Definition set_last_jump (v : Z) (e : atom_exec_context) : atom_exec_context :=
  mk_atom_exec_context (ps e) (ws e) (ps_shift e) (start e) v (last_jump_jiffies e) (abort e).
Definition set_last_jump_jiffies (v : Z) (e : atom_exec_context) : atom_exec_context :=
  mk_atom_exec_context (ps e) (ws e) (ps_shift e) (start e) (last_jump e) v (abort e).
Definition set_abort (v : bool) (e : atom_exec_context) : atom_exec_context :=
  mk_atom_exec_context (ps e) (ws e) (ps_shift e) (start e) (last_jump e) (last_jump_jiffies e) v.

(** ** Byte access: atom-bits.h *)

(** An element of a C array: [None] outside it. *)
Definition elem (l : list Z) (i : Z) : option Z :=
  if i <? 0 then None else l !! Z.to_nat i.
Definition update (l : list Z) (i v : Z) : option (list Z) :=
  if (0 <=? i) && (i <? Z.of_nat (length l)) then Some (<[Z.to_nat i := v]> l) else None.

Definition get_u8 (b : list Z) (ptr : Z) : option Z := elem b ptr.
Definition get_u16 (b : list Z) (ptr : Z) : option Z :=
  lo ← get_u8 b ptr; hi ← get_u8 b (ptr + 1); Some (Z.lor lo (Z.shiftl hi 8)).
Definition get_u32 (b : list Z) (ptr : Z) : option Z :=
  lo ← get_u16 b ptr; hi ← get_u16 b (ptr + 2); Some (Z.lor lo (Z.shiftl hi 16)).

Section bytes.
Context {C : Type}.
Notation AM := (M (atom_state C)).

Definition U8 (ptr : Z) : AM Z := b ← ctx_get bios; deref (get_u8 b ptr).
Definition U16 (ptr : Z) : AM Z := b ← ctx_get bios; deref (get_u16 b ptr).
Definition U32 (ptr : Z) : AM Z := b ← ctx_get bios; deref (get_u32 b ptr).

(** Shifts of a 32-bit operand: a count outside [0..31] is undefined. *)
Definition shl32 (x n : Z) : AM Z :=
  if (0 <=? n) && (n <? 32) then mret (u32 (Z.shiftl x n)) else fault.
Definition shr32 (x n : Z) : AM Z :=
  if (0 <=? n) && (n <? 32) then mret (Z.shiftr x n) else fault.
End bytes.

(** ** Array access facts *)

Lemma elem_update_eq l i v l' : update l i v = Some l' -> elem l' i = Some v.
Proof.
  unfold update, elem. destruct (Z.leb_spec 0 i), (Z.ltb_spec i (Z.of_nat (length l)));
    cbn [andb]; intros [= <-].
  destruct (Z.ltb_spec i 0); [lia|]. apply list_lookup_insert_eq. lia.
Qed.

Lemma elem_update_ne l i j v l' : update l i v = Some l' -> i <> j -> elem l' j = elem l j.
Proof.
  unfold update, elem. destruct (Z.leb_spec 0 i), (Z.ltb_spec i (Z.of_nat (length l)));
    cbn [andb]; intros [= <-] Hij.
  destruct (Z.ltb_spec j 0); [done|]. apply list_lookup_insert_ne. lia.
Qed.

Lemma update_length l i v l' : update l i v = Some l' -> length l' = length l.
Proof. unfold update. case_match; intros [= <-]. apply length_insert. Qed.

Lemma update_is_Some l i v : 0 <= i < Z.of_nat (length l) -> is_Some (update l i v).
Proof.
  intros Hi. unfold update.
  destruct (Z.leb_spec 0 i), (Z.ltb_spec i (Z.of_nat (length l))); [|lia..]. by eexists.
Qed.

Lemma elem_is_Some l i : 0 <= i < Z.of_nat (length l) <-> is_Some (elem l i).
Proof.
  unfold elem. destruct (Z.ltb_spec i 0).
  - split; [lia|]. by intros [? ?].
  - rewrite lookup_lt_is_Some. lia.
Qed.

Lemma update_Forall (P : Z -> Prop) l i v l' :
  Forall P l -> P v -> update l i v = Some l' -> Forall P l'.
Proof. unfold update. case_match; intros Hl Hv [= <-]. by apply Forall_insert. Qed.

Lemma elem_Forall (P : Z -> Prop) l i v : Forall P l -> elem l i = Some v -> P v.
Proof.
  unfold elem. case_match; [done|]. intros Hl Hv. by eapply Forall_lookup_1.
Qed.
