(* ===== verification/RegAccess.v ===== *)
(** * Register access and the card hooks of the AtomBIOS interpreter

    [amdgpu_mm_rreg], [amdgpu_mm_wreg], [amdgpu_io_rreg] and [amdgpu_io_wreg]
    of [amdgpu/amdgpu_device.c]: registers inside the mapped aperture are
    accessed directly, the others through the MM_INDEX/MM_DATA pair; and the
    [cail_*] hooks with which [amdgpu_atombios_init] fills [struct card_info].
    The bus itself is the parameter [Bus]; [BusLaws] states how the hardware's
    index/data window behaves, and [sim_bus] is a device that obeys it. *)

From stdpp Require Import base numbers list.
From S2P Require Import Prelude CMonad AtomState.

(** MMIO and port-IO accessors: byte offset into the aperture. *)
Class Bus (D : Type) := {
  readl : Z -> D -> Z * D;
  writel : Z -> Z -> D -> D;
  ioread32 : Z -> D -> Z * D;
  iowrite32 : Z -> Z -> D -> D
}.

Definition mmMM_INDEX : Z := 0x0.
Definition mmMM_DATA : Z := 0x1.

Section access.
Context {D : Type} {B : Bus D}.
(** [adev->rmmio_size], [adev->rio_mem_size] and whether [adev->rio_mem] is
    mapped. *)
Context (rmmio_size rio_mem_size : Z) (rio_mem : bool).

Definition amdgpu_mm_rreg (reg : Z) (always_indirect : bool) (d : D) : Z * D :=
  if (u32 (reg * 4) <? rmmio_size) && negb always_indirect
  then readl (u32 (reg * 4)) d
  else readl (mmMM_DATA * 4) (writel (u32 (reg * 4)) (mmMM_INDEX * 4) d).

Definition amdgpu_mm_wreg (reg v : Z) (always_indirect : bool) (d : D) : D :=
  if (u32 (reg * 4) <? rmmio_size) && negb always_indirect
  then writel v (u32 (reg * 4)) d
  else writel v (mmMM_DATA * 4) (writel (u32 (reg * 4)) (mmMM_INDEX * 4) d).

Definition amdgpu_io_rreg (reg : Z) (d : D) : Z * D :=
  if u32 (reg * 4) <? rio_mem_size then ioread32 (u32 (reg * 4)) d
  else ioread32 (mmMM_DATA * 4) (iowrite32 (u32 (reg * 4)) (mmMM_INDEX * 4) d).

Definition amdgpu_io_wreg (reg v : Z) (d : D) : D :=
  if u32 (reg * 4) <? rio_mem_size then iowrite32 v (u32 (reg * 4)) d
  else iowrite32 v (mmMM_DATA * 4) (iowrite32 (u32 (reg * 4)) (mmMM_INDEX * 4) d).

(** ** The hooks *)

Definition cail_pll_read (reg : Z) (d : D) : Z * D := (0, d).
Definition cail_pll_write (reg val : Z) (d : D) : D := d.
Definition cail_mc_read (reg : Z) (d : D) : Z * D := (0, d).
Definition cail_mc_write (reg val : Z) (d : D) : D := d.
Definition cail_reg_write (reg val : Z) (d : D) : D := amdgpu_mm_wreg reg val false d.
Definition cail_reg_read (reg : Z) (d : D) : Z * D := amdgpu_mm_rreg reg false d.
Definition cail_ioreg_write (reg val : Z) (d : D) : D := amdgpu_io_wreg reg val d.
Definition cail_ioreg_read (reg : Z) (d : D) : Z * D := amdgpu_io_rreg reg d.

(** The part of [amdgpu_atombios_init] that fills the hooks: without an IO
    BAR the indirect-IO programs use MMIO. *)
Definition amdgpu_card_info : CardInfo D := {|
  reg_read := cail_reg_read;
  reg_write := cail_reg_write;
  ioreg_read := if rio_mem then cail_ioreg_read else cail_reg_read;
  ioreg_write := if rio_mem then cail_ioreg_write else cail_reg_write;
  mc_read := cail_mc_read;
  mc_write := cail_mc_write;
  pll_read := cail_pll_read;
  pll_write := cail_pll_write
|}.
End access.

(** ** The register file behind the aperture *)

(** [val d off] is the register at byte offset [off]; [idx d] the content of
    MM_INDEX.  Writing MM_DATA writes the register MM_INDEX selects. *)
Class BusLaws (D : Type) {B : Bus D} (val : D -> Z -> Z) (idx : D -> Z) : Prop := {
  readl_reg : forall off d, off <> 0 -> off <> 4 -> readl off d = (val d off, d);
  readl_data : forall d, readl 4 d = (val d (idx d), d);
  writel_reg : forall v off d o, is_u32 v -> off <> 0 -> off <> 4 ->
    val (writel v off d) o = if o =? off then v else val d o;
  writel_index : forall v d o, val (writel v 0 d) o = val d o;
  index_writel : forall v d, idx (writel v 0 d) = v;
  writel_data : forall v d o, is_u32 v ->
    val (writel v 4 d) o = if o =? idx d then v else val d o
}.

Section register_file.
Context {D : Type} {B : Bus D} (val : D -> Z -> Z) (idx : D -> Z) {BL : BusLaws D val idx}.
Context (rmmio_size : Z).

(** A register other than the window itself. *)
Definition is_register (reg : Z) : Prop := 2 <= reg < 2 ^ 30.

Lemma rreg_value reg ind d :
  is_register reg -> fst (amdgpu_mm_rreg rmmio_size reg ind d) = val d (reg * 4).
Proof.
  intros Hr. unfold is_register in Hr. unfold amdgpu_mm_rreg.
  assert (u32 (reg * 4) = reg * 4) as -> by (apply u32_small; cbv [is_u32]; lia).
  destruct (_ && _); cbn [fst].
  - by rewrite readl_reg by lia.
  - change (mmMM_DATA * 4) with 4. change (mmMM_INDEX * 4) with 0.
    rewrite readl_data. cbn. rewrite writel_index, index_writel. done.
Qed.

Lemma wreg_value reg v ind d o :
  is_register reg -> is_u32 v ->
  val (amdgpu_mm_wreg rmmio_size reg v ind d) o = if o =? reg * 4 then v else val d o.
Proof.
  intros Hr Hv. unfold is_register in Hr. unfold amdgpu_mm_wreg.
  assert (u32 (reg * 4) = reg * 4) as -> by (apply u32_small; cbv [is_u32]; lia).
  destruct (_ && _).
  - by rewrite writel_reg by (done || lia).
  - change (mmMM_DATA * 4) with 4. change (mmMM_INDEX * 4) with 0.
    by rewrite writel_data, writel_index, index_writel by done.
Qed.

(** A register write is seen by the next read of that register and by no
    other, whether either access goes through the mapped aperture or through the
    MM_INDEX/MM_DATA window. *)
Theorem reg_write_read reg reg' v ind ind' d :
  is_register reg -> is_register reg' -> is_u32 v ->
  fst (amdgpu_mm_rreg rmmio_size reg' ind' (amdgpu_mm_wreg rmmio_size reg v ind d)) =
  if reg' =? reg then v else fst (amdgpu_mm_rreg rmmio_size reg' ind' d).
Proof.
  intros Hr Hr' Hv. rewrite !rreg_value, wreg_value by done.
  destruct (Z.eqb_spec reg' reg), (Z.eqb_spec (reg' * 4) (reg * 4)); lia || done.
Qed.
End register_file.

(** ** A device *)

(** Registers by byte offset, the index register, a tick counter. *)
Record sim_dev := mk_sim_dev { sim_regs : list (Z * Z); sim_index : Z; sim_ticks : Z }.

Fixpoint assoc (k : Z) (l : list (Z * Z)) : Z :=
  match l with
  | [] => 0
  | (k', v) :: l' => if k =? k' then v else assoc k l'
  end.

Definition sim_read (off : Z) (d : sim_dev) : Z * sim_dev :=
  if off =? 0 then (u32 (sim_index d), d)
  else if off =? 4 then (u32 (assoc (sim_index d) (sim_regs d)), d)
  else (u32 (assoc off (sim_regs d)), d).

Definition sim_write (v off : Z) (d : sim_dev) : sim_dev :=
  if off =? 0 then mk_sim_dev (sim_regs d) v (sim_ticks d)
  else if off =? 4 then mk_sim_dev ((sim_index d, v) :: sim_regs d) (sim_index d) (sim_ticks d)
  else mk_sim_dev ((off, v) :: sim_regs d) (sim_index d) (sim_ticks d).

#[export] Instance sim_bus : Bus sim_dev := {|
  readl := sim_read; writel := sim_write; ioread32 := sim_read; iowrite32 := sim_write |}.

Definition sim_val (d : sim_dev) (off : Z) : Z := u32 (assoc off (sim_regs d)).

#[export] Instance sim_bus_laws : BusLaws sim_dev sim_val sim_index.
Proof.
  split; unfold readl, writel, sim_bus, sim_read, sim_write, sim_val.
  - intros off d H0 H4.
    destruct (Z.eqb_spec off 0), (Z.eqb_spec off 4); [done..|]. done.
  - done.
  - intros v off d o Hv H0 H4.
    destruct (Z.eqb_spec off 0), (Z.eqb_spec off 4); [done..|]. cbn.
    destruct (Z.eqb_spec o off); [by rewrite u32_small|done].
  - done.
  - done.
  - intros v d o Hv. cbn. destruct (Z.eqb_spec o (sim_index d)); [by rewrite u32_small|done].
Qed.

(** Kernel services around the device: a 250 Hz tick that advances with every
    look at it. *)
#[export] Instance sim_kernel : AtomKernel sim_dev := {|
  jiffies := fun d => (u64 (sim_ticks d),
                       mk_sim_dev (sim_regs d) (sim_index d) (sim_ticks d + 1));
  jiffies_to_msecs := fun j => j * 4;
  udelay := fun _ d => d;
  mdelay := fun n d => mk_sim_dev (sim_regs d) (sim_index d) (sim_ticks d + n / 4);
  msleep := fun n d => mk_sim_dev (sim_regs d) (sim_index d) (sim_ticks d + n / 4);
  drm_can_sleep := fun _ => true;
  kzalloc_ok := fun d => (true, d);
  undef := 0xDEADBEEF
|}.

#[export] Instance sim_card : CardInfo sim_dev := amdgpu_card_info 0x40000 0x100 true.

Lemma sim_read_u32 off d : is_u32 (fst (sim_read off d)).
Proof. unfold sim_read. repeat case_match; cbn; auto with cint. Qed.

#[export] Instance sim_card_ok : CardInfoOk sim_dev.
Proof.
  split; intros; cbn.
  - unfold cail_reg_read, amdgpu_mm_rreg. case_match; apply sim_read_u32.
  - unfold cail_ioreg_read, amdgpu_io_rreg. case_match; apply sim_read_u32.
  - cint.
  - cint.
  - apply u64_range.
  - cint.
Qed.

Lemma reg_write_read_witness :
  fst (amdgpu_mm_rreg 0x40000 0x20000 false
        (amdgpu_mm_wreg 0x40000 0x20000 77 false (mk_sim_dev [] 0 0))) = 77.
Proof.
  rewrite (reg_write_read sim_val sim_index 0x40000 0x20000 0x20000 77 false false
             (mk_sim_dev [] 0 0));
    [reflexivity|cbv; split; congruence..].
Defined.
