(* ===== verification/AtomOperand.v ===== *)
(** * AtomBIOS interpreter: indirect IO and operands

    The indirect-IO micro-programs ([atom_iio_execute]) and the operand
    accessors of [amdgpu/atom.c] ([atom_get_src_int], [atom_skip_src_int],
    [atom_get_src_direct], [atom_put_dst] and their wrappers).  A pointer
    argument [int *ptr] is a value in and a value out; the [saved] out
    parameter is [Some] when the function stored through it. *)

From stdpp Require Import base numbers list.
From S2P Require Import Prelude CMonad AtomState.

Section operand.
Context {C : Type} {CI : CardInfo C} {AK : AtomKernel C}.
Notation AM := (M (atom_state C)).

(** ** Indirect IO *)

(** [0xFFFFFFFF >> (32 - CU8(base + 1))] *)
Definition iio_ones (width : Z) : AM Z := shr32 0xFFFFFFFF (32 - width).

(** [temp &= ~(ones << pos)] *)
Definition iio_clear (temp width pos : Z) : AM Z :=
  m ← iio_ones width; m' ← shl32 m pos; mret (Z.land temp (u32 (Z.lnot m'))).

(** [temp |= ((src >> from) & ones) << pos], after clearing the field *)
Definition iio_move (src temp width from pos : Z) : AM Z :=
  t ← iio_clear temp width pos;
  v ← shr32 src from; m ← iio_ones width;
  f ← shl32 (Z.land v m) pos;
  mret (Z.lor t f).

Fixpoint atom_iio_loop (fuel : nat) (base index data temp : Z) : AM Z :=
  match fuel with
  | O => nofuel
  | S fuel' =>
    op ← U8 base;
    if op =? ATOM_IIO_NOP then atom_iio_loop fuel' (base + 1) index data temp
    else if op =? ATOM_IIO_READ then
      port ← U16 (base + 1);
      v ← card_read (ioreg_read port);
      atom_iio_loop fuel' (base + 3) index data v
    else if op =? ATOM_IIO_WRITE then
      port ← U16 (base + 1);
      _ ← card_do (ioreg_write port temp);
      atom_iio_loop fuel' (base + 3) index data temp
    else if op =? ATOM_IIO_CLEAR then
      w ← U8 (base + 1); p ← U8 (base + 2);
      t ← iio_clear temp w p;
      atom_iio_loop fuel' (base + 3) index data t
    else if op =? ATOM_IIO_SET then
      w ← U8 (base + 1); p ← U8 (base + 2);
      m ← iio_ones w; m' ← shl32 m p;
      atom_iio_loop fuel' (base + 3) index data (Z.lor temp m')
    else if op =? ATOM_IIO_MOVE_INDEX then
      w ← U8 (base + 1); f ← U8 (base + 2); p ← U8 (base + 3);
      t ← iio_move index temp w f p;
      atom_iio_loop fuel' (base + 4) index data t
    else if op =? ATOM_IIO_MOVE_DATA then
      w ← U8 (base + 1); f ← U8 (base + 2); p ← U8 (base + 3);
      t ← iio_move data temp w f p;
      atom_iio_loop fuel' (base + 4) index data t
    else if op =? ATOM_IIO_MOVE_ATTR then
      w ← U8 (base + 1); f ← U8 (base + 2); p ← U8 (base + 3);
      a ← ctx_get io_attr;
      t ← iio_move a temp w f p;
      atom_iio_loop fuel' (base + 4) index data t
    else if op =? ATOM_IIO_END then mret temp
    else mret 0
  end.

(** The program counter only moves forward, so the number of bytes of the
    image bounds the number of iterations. *)
Definition atom_iio_execute (base index data : Z) : AM Z :=
  b ← ctx_get bios;
  atom_iio_loop (S (length b)) base index data ATOM_POISON.

(** ** Source operands *)

(** What an operand fetch produced: [Return v] is an early [return v], which
    skips the alignment step and leaves [saved] alone. *)
Inductive fetched : Type :=
  | Return (v : Z)
  | Value (v : Z).

Definition fetch_reg (idx : Z) : AM fetched :=
  mode ← ctx_get io_mode;
  if mode =? ATOM_IO_MM then v ← card_read (reg_read idx); mret (Value v)
  else if mode =? ATOM_IO_PCI then mret (Return 0)
  else if mode =? ATOM_IO_SYSIO then mret (Return 0)
  else if Z.land mode 0x80 =? 0 then mret (Return 0)
  else
    tbl ← ctx_get iio;
    m ← deref (elem tbl (Z.land mode 0x7F));
    if m =? 0 then mret (Return 0)
    else v ← atom_iio_execute m idx 0; mret (Value v).

Definition fetch_ws (idx : Z) : AM Z :=
  if idx =? ATOM_WS_QUOTIENT then ctx_get divmul0
  else if idx =? ATOM_WS_REMAINDER then ctx_get divmul1
  else if idx =? ATOM_WS_DATAPTR then ctx_get data_block
  else if idx =? ATOM_WS_SHIFT then ctx_get shift
  else if idx =? ATOM_WS_OR_MASK then n ← ctx_get shift; shl32 1 n
  else if idx =? ATOM_WS_AND_MASK then
    n ← ctx_get shift; m ← shl32 1 n; mret (u32 (Z.lnot m))
  else if idx =? ATOM_WS_FB_WINDOW then ctx_get fb_base
  else if idx =? ATOM_WS_ATTRIBUTES then ctx_get io_attr
  else if idx =? ATOM_WS_REGPTR then ctx_get reg_block
  else w ← ectx_get ws; deref (elem w idx).

(** The bounds test of the frame-buffer window: [(gctx->fb_base + (idx * 4)) >
    gctx->scratch_size_bytes], an unsigned comparison. *)
Definition fb_beyond (c : atom_context) (idx : Z) : bool :=
  u32 (scratch_size_bytes c) <? u32 (fb_base c + idx * 4).

Definition fetch_fb (idx : Z) : AM Z :=
  b ← ctx_get (fun c => fb_beyond c idx);
  if (b : bool) then mret 0
  else
    i ← ctx_get (fun c => fb_base c / 4 + idx);
    l ← ctx_get scratch;
    deref (elem l i).

Definition fetch_imm (align ptr : Z) : AM (Z * Z) :=
  if align =? ATOM_SRC_DWORD then v ← U32 ptr; mret (v, ptr + 4)
  else if align <=? ATOM_SRC_WORD16 then v ← U16 ptr; mret (v, ptr + 2)
  else v ← U8 ptr; mret (v, ptr + 1).

(** The [switch (arg)] of [atom_get_src_int]. *)
Definition atom_fetch (arg align ptr : Z) : AM (fetched * Z) :=
  if arg =? ATOM_ARG_REG then
    idx ← U16 ptr; rb ← ctx_get reg_block;
    v ← fetch_reg (u32 (idx + rb)); mret (v, ptr + 2)
  else if arg =? ATOM_ARG_PS then
    idx ← U8 ptr; base ← ectx_get ps; p ← gets st_ps;
    v ← deref (elem p (base + idx)); mret (Value v, ptr + 1)
  else if arg =? ATOM_ARG_WS then
    idx ← U8 ptr; v ← fetch_ws idx; mret (Value v, ptr + 1)
  else if arg =? ATOM_ARG_ID then
    idx ← U16 ptr; d ← ctx_get data_block;
    v ← U32 (idx + d); mret (Value v, ptr + 2)
  else if arg =? ATOM_ARG_FB then
    idx ← U8 ptr; v ← fetch_fb idx; mret (Value v, ptr + 1)
  else if arg =? ATOM_ARG_IMM then
    '(v, ptr') ← fetch_imm align ptr; mret (Return v, ptr')
  else if arg =? ATOM_ARG_PLL then
    idx ← U8 ptr; v ← card_read (pll_read idx); mret (Value v, ptr + 1)
  else
    idx ← U8 ptr; v ← card_read (mc_read idx); mret (Value v, ptr + 1).

Definition src_arg (attr : Z) : Z := Z.land attr 7.
Definition src_align (attr : Z) : Z := Z.land (Z.shiftr attr 3) 7.

(** [val &= atom_arg_mask[align]; val >>= atom_arg_shift[align]] *)
Definition extract_field (align val : Z) : Z :=
  Z.shiftr (Z.land val (table atom_arg_mask align)) (table atom_arg_shift align).

Definition atom_get_src_int (attr ptr : Z) : AM (Z * option Z * Z) :=
  '(f, ptr') ← atom_fetch (src_arg attr) (src_align attr) ptr;
  match f with
  | Return v => mret (v, None, ptr')
  | Value v => mret (extract_field (src_align attr) v, Some v, ptr')
  end.

Definition atom_skip_src_int (attr ptr : Z) : Z :=
  let arg := src_arg attr in
  let align := src_align attr in
  if (arg =? ATOM_ARG_REG) || (arg =? ATOM_ARG_ID) then ptr + 2
  else if arg =? ATOM_ARG_IMM then
    if align =? ATOM_SRC_DWORD then ptr + 4
    else if align <=? ATOM_SRC_WORD16 then ptr + 2
    else ptr + 1
  else ptr + 1.

Definition atom_get_src (attr ptr : Z) : AM (Z * Z) :=
  '(v, _, ptr') ← atom_get_src_int attr ptr; mret (v, ptr').

Definition atom_get_src_direct (align ptr : Z) : AM (Z * Z) :=
  if align =? ATOM_SRC_DWORD then v ← U32 ptr; mret (v, ptr + 4)
  else if align <=? ATOM_SRC_WORD16 then v ← U16 ptr; mret (v, ptr + 2)
  else v ← U8 ptr; mret (v, ptr + 1).

(** [arg | atom_dst_to_src[..][..] << 3] *)
Definition dst_attr (arg attr : Z) : Z := Z.lor arg (Z.shiftl (dst_align attr) 3).

Definition atom_get_dst (arg attr ptr : Z) : AM (Z * option Z * Z) :=
  atom_get_src_int (dst_attr arg attr) ptr.

Definition atom_skip_dst (arg attr ptr : Z) : Z :=
  atom_skip_src_int (dst_attr arg attr) ptr.

(** ** Destination operands *)

(** [val <<= shift; val &= mask; saved &= ~mask; val |= saved] *)
Definition merge_field (align val saved : Z) : Z :=
  let mask := table atom_arg_mask align in
  Z.lor (Z.land (u32 (Z.shiftl val (table atom_arg_shift align))) mask)
        (Z.land saved (u32 (Z.lnot mask))).

Definition store_reg (idx val : Z) : AM unit :=
  mode ← ctx_get io_mode;
  if mode =? ATOM_IO_MM then
    if idx =? 0 then card_do (reg_write idx (u32 (Z.shiftl val 2)))
    else card_do (reg_write idx val)
  else if mode =? ATOM_IO_PCI then mret tt
  else if mode =? ATOM_IO_SYSIO then mret tt
  else if Z.land mode 0x80 =? 0 then mret tt
  else
    tbl ← ctx_get iio;
    m ← deref (elem tbl (Z.land mode 0xFF));
    if m =? 0 then mret tt
    else _ ← atom_iio_execute m idx val; mret tt.

Definition store_ps (idx val : Z) : AM unit :=
  base ← ectx_get ps; p ← gets st_ps;
  p' ← deref (update p (base + idx) val);
  with_ps (fun _ => p').

Definition store_ws (idx val : Z) : AM unit :=
  if idx =? ATOM_WS_QUOTIENT then with_ctx (set_divmul0 val)
  else if idx =? ATOM_WS_REMAINDER then with_ctx (set_divmul1 val)
  else if idx =? ATOM_WS_DATAPTR then with_ctx (set_data_block (u16 val))
  else if idx =? ATOM_WS_SHIFT then with_ctx (set_shift (u8 val))
  else if (idx =? ATOM_WS_OR_MASK) || (idx =? ATOM_WS_AND_MASK) then mret tt
  else if idx =? ATOM_WS_FB_WINDOW then with_ctx (set_fb_base val)
  else if idx =? ATOM_WS_ATTRIBUTES then with_ctx (set_io_attr (u16 val))
  else if idx =? ATOM_WS_REGPTR then with_ctx (set_reg_block (u16 val))
  else
    w ← ectx_get ws; w' ← deref (update w idx val);
    with_ectx (set_ws w').

Definition store_fb (idx val : Z) : AM unit :=
  b ← ctx_get (fun c => fb_beyond c idx);
  if (b : bool) then mret tt
  else
    i ← ctx_get (fun c => fb_base c / 4 + idx);
    l ← ctx_get scratch;
    l' ← deref (update l i val);
    with_ctx (set_scratch l').

(** The function's effect on its [ptr] argument is dropped: every caller
    passes a private copy. *)
Definition atom_put_dst (arg attr ptr val saved : Z) : AM unit :=
  let v := merge_field (dst_align attr) val saved in
  if arg =? ATOM_ARG_REG then
    idx ← U16 ptr; rb ← ctx_get reg_block; store_reg (u32 (idx + rb)) v
  else if arg =? ATOM_ARG_PS then idx ← U8 ptr; store_ps idx v
  else if arg =? ATOM_ARG_WS then idx ← U8 ptr; store_ws idx v
  else if arg =? ATOM_ARG_FB then idx ← U8 ptr; store_fb idx v
  else if arg =? ATOM_ARG_PLL then idx ← U8 ptr; card_do (pll_write idx v)
  else if arg =? ATOM_ARG_MC then idx ← U8 ptr; card_do (mc_write idx v)
  else mret tt.
End operand.
