(* ===== verification/AtomOps.v ===== *)
(** * AtomBIOS interpreter: the opcode handlers

    One definition per [atom_op_*] handler of [amdgpu/atom.c] and the dispatch
    table [opcode_table].  A handler takes its table argument and the program
    counter behind the opcode and returns the new program counter. *)

From stdpp Require Import base numbers list.
From S2P Require Import Prelude CMonad AtomState AtomOperand.

Section ops.
Context {C : Type} {CI : CardInfo C} {AK : AtomKernel C}.
Notation AM := (M (atom_state C)).

(** The content of the local [saved] after a call that may have stored it. *)
Definition saved_or_undef (saved : option Z) : Z := default undef saved.

(** Read-modify-write handlers: fetch destination and source, combine, store
    the result through the destination's own pointer. *)
Definition atom_rmw (f : Z -> Z -> Z) (arg ptr : Z) : AM Z :=
  attr ← U8 ptr;
  let dptr := ptr + 1 in
  '(dst, saved, ptr) ← atom_get_dst arg attr (ptr + 1);
  '(src, ptr) ← atom_get_src attr ptr;
  _ ← atom_put_dst arg attr dptr (f dst src) (saved_or_undef saved);
  mret ptr.

Definition atom_op_add : Z -> Z -> AM Z := atom_rmw (fun dst src => u32 (dst + src)).
Definition atom_op_and : Z -> Z -> AM Z := atom_rmw Z.land.
Definition atom_op_or : Z -> Z -> AM Z := atom_rmw Z.lor.
Definition atom_op_sub : Z -> Z -> AM Z := atom_rmw (fun dst src => u32 (dst - src)).
Definition atom_op_xor : Z -> Z -> AM Z := atom_rmw Z.lxor.

Definition atom_op_beep (arg ptr : Z) : AM Z := mret ptr.

(** [call idx params] runs command table [idx] with its parameter window at
    [params]. *)
Definition atom_op_calltable (call : Z -> Z -> AM Z) (arg ptr : Z) : AM Z :=
  idx ← U8 ptr;
  cmd ← ctx_get cmd_table;
  entry ← U16 (cmd + 4 + 2 * idx);
  r ← (if entry =? 0 then mret 0
       else p ← ectx_get ps; sh ← ectx_get ps_shift; call idx (p + sh));
  _ ← (if r =? 0 then mret tt else with_ectx (set_abort true));
  mret (ptr + 1).

(** [attr &= 0x38; attr |= atom_def_dst[attr >> 3] << 6] *)
Definition def_dst_attr (attr : Z) : Z :=
  let a := Z.land attr 0x38 in
  Z.lor a (Z.shiftl (table atom_def_dst (Z.shiftr a 3)) 6).

Definition atom_op_clear (arg ptr : Z) : AM Z :=
  attr0 ← U8 ptr;
  let dptr := ptr + 1 in
  let attr := def_dst_attr attr0 in
  '(_, saved, ptr) ← atom_get_dst arg attr (ptr + 1);
  _ ← atom_put_dst arg attr dptr 0 (saved_or_undef saved);
  mret ptr.

(** The common prologue of compare, test, mul and div. *)
Definition atom_two_sources (arg ptr : Z) : AM (Z * Z * Z) :=
  attr ← U8 ptr;
  '(dst, _, ptr) ← atom_get_dst arg attr (ptr + 1);
  '(src, ptr) ← atom_get_src attr ptr;
  mret (dst, src, ptr).

Definition atom_op_compare (arg ptr : Z) : AM Z :=
  '(dst, src, ptr) ← atom_two_sources arg ptr;
  _ ← with_ctx (set_cs_equal (dst =? src));
  _ ← with_ctx (set_cs_above (src <? dst));
  mret ptr.

Definition atom_op_delay (arg ptr : Z) : AM Z :=
  count ← U8 ptr;
  _ ← (if arg =? ATOM_UNIT_MICROSEC then card_do (udelay count)
       else c ← gets st_card;
            if drm_can_sleep c then card_do (msleep count) else card_do (mdelay count));
  mret (ptr + 1).

Definition atom_op_div (arg ptr : Z) : AM Z :=
  '(dst, src, ptr) ← atom_two_sources arg ptr;
  _ ← (if src =? 0 then
         _ ← with_ctx (set_divmul0 0); with_ctx (set_divmul1 0)
       else
         _ ← with_ctx (set_divmul0 (dst / src)); with_ctx (set_divmul1 (dst mod src)));
  mret ptr.

Definition lower_32_bits (v : Z) : Z := u32 v.
Definition upper_32_bits (v : Z) : Z := u32 (Z.shiftr v 32).

Definition atom_op_div32 (arg ptr : Z) : AM Z :=
  '(dst, src, ptr) ← atom_two_sources arg ptr;
  _ ← (if src =? 0 then
         _ ← with_ctx (set_divmul0 0); with_ctx (set_divmul1 0)
       else
         hi ← ctx_get divmul1;
         let val64 := Z.lor dst (Z.shiftl hi 32) / src in
         _ ← with_ctx (set_divmul0 (lower_32_bits val64));
         with_ctx (set_divmul1 (upper_32_bits val64)));
  mret ptr.

Definition atom_op_eot (arg ptr : Z) : AM Z := mret ptr.

(** The condition of a jump, from the flags of the last comparison. *)
Definition jump_taken (arg : Z) (equal above : bool) : bool :=
  if arg =? ATOM_COND_ABOVE then above
  else if arg =? ATOM_COND_ABOVEOREQUAL then above || equal
  else if arg =? ATOM_COND_ALWAYS then true
  else if arg =? ATOM_COND_BELOW then negb (above || equal)
  else if arg =? ATOM_COND_BELOWOREQUAL then negb above
  else if arg =? ATOM_COND_EQUAL then equal
  else if arg =? ATOM_COND_NOTEQUAL then negb equal
  else false.

(** [time_after(a, b)]: [(long)(b - a) < 0] *)
Definition time_after (a b : Z) : bool := s64 (b - a) <? 0.

(** The loop detector: repeated jumps to one target for more than 5 s abort
    the table. *)
Definition jump_watchdog (dest : Z) : AM unit :=
  lj ← ectx_get last_jump;
  if lj =? dest then
    cj ← card_read jiffies;
    since ← ectx_get last_jump_jiffies;
    if time_after cj since then
      if 5000 <? jiffies_to_msecs (u64 (cj - since))
      then with_ectx (set_abort true) else mret tt
    else
      j ← card_read jiffies; with_ectx (set_last_jump_jiffies j)
  else
    _ ← with_ectx (set_last_jump dest);
    j ← card_read jiffies; with_ectx (set_last_jump_jiffies j).

Definition atom_op_jump (arg ptr : Z) : AM Z :=
  target ← U16 ptr;
  eq ← ctx_get cs_equal;
  ab ← ctx_get cs_above;
  if jump_taken arg eq ab then
    st ← ectx_get start;
    _ ← jump_watchdog (st + target);
    mret (st + target)
  else mret (ptr + 2).

Definition atom_op_mask (arg ptr : Z) : AM Z :=
  attr ← U8 ptr;
  let dptr := ptr + 1 in
  '(dst, saved, ptr) ← atom_get_dst arg attr (ptr + 1);
  '(mask, ptr) ← atom_get_src_direct (Z.land (Z.shiftr attr 3) 7) ptr;
  '(src, ptr) ← atom_get_src attr ptr;
  _ ← atom_put_dst arg attr dptr (Z.lor (Z.land dst mask) src) (saved_or_undef saved);
  mret ptr.

Definition atom_op_move (arg ptr : Z) : AM Z :=
  attr ← U8 ptr;
  let dptr := ptr + 1 in
  '(saved, ptr) ←
    (if Z.land (Z.shiftr attr 3) 7 =? ATOM_SRC_DWORD
     then mret (ATOM_POISON, atom_skip_dst arg attr (ptr + 1))
     else '(_, saved, ptr') ← atom_get_dst arg attr (ptr + 1);
          mret (saved_or_undef saved, ptr'));
  '(src, ptr) ← atom_get_src attr ptr;
  _ ← atom_put_dst arg attr dptr src saved;
  mret ptr.

Definition atom_op_mul (arg ptr : Z) : AM Z :=
  '(dst, src, ptr) ← atom_two_sources arg ptr;
  _ ← with_ctx (set_divmul0 (u32 (dst * src)));
  mret ptr.

Definition atom_op_mul32 (arg ptr : Z) : AM Z :=
  '(dst, src, ptr) ← atom_two_sources arg ptr;
  let val64 := u64 (dst * src) in
  _ ← with_ctx (set_divmul0 (lower_32_bits val64));
  _ ← with_ctx (set_divmul1 (upper_32_bits val64));
  mret ptr.

Definition atom_op_nop (arg ptr : Z) : AM Z := mret ptr.
Definition atom_op_postcard (arg ptr : Z) : AM Z := _ ← U8 ptr; mret (ptr + 1).
Definition atom_op_repeat (arg ptr : Z) : AM Z := mret ptr.
Definition atom_op_restorereg (arg ptr : Z) : AM Z := mret ptr.
Definition atom_op_savereg (arg ptr : Z) : AM Z := mret ptr.

Definition atom_op_setdatablock (arg ptr : Z) : AM Z :=
  idx ← U8 ptr;
  _ ← (if idx =? 0 then with_ctx (set_data_block 0)
       else if idx =? 255 then st ← ectx_get start; with_ctx (set_data_block st)
       else dt ← ctx_get data_table; v ← U16 (dt + 4 + 2 * idx);
            with_ctx (set_data_block v));
  mret (ptr + 1).

Definition atom_op_setfbbase (arg ptr : Z) : AM Z :=
  attr ← U8 ptr;
  '(v, ptr) ← atom_get_src attr (ptr + 1);
  _ ← with_ctx (set_fb_base v);
  mret ptr.

Definition atom_op_setport (arg ptr : Z) : AM Z :=
  if arg =? ATOM_PORT_ATI then
    port ← U16 ptr;
    _ ← with_ctx (set_io_mode (if port =? 0 then ATOM_IO_MM else Z.lor ATOM_IO_IIO port));
    mret (ptr + 2)
  else if arg =? ATOM_PORT_PCI then
    _ ← with_ctx (set_io_mode ATOM_IO_PCI); mret (ptr + 1)
  else if arg =? ATOM_PORT_SYSIO then
    _ ← with_ctx (set_io_mode ATOM_IO_SYSIO); mret (ptr + 1)
  else mret ptr.

Definition atom_op_setregblock (arg ptr : Z) : AM Z :=
  v ← U16 ptr; _ ← with_ctx (set_reg_block v); mret (ptr + 2).

(** shift_left and shift_right: destination at its default alignment, count
    an immediate byte. *)
Definition atom_shift_imm (sh : Z -> Z -> AM Z) (arg ptr : Z) : AM Z :=
  attr0 ← U8 ptr;
  let dptr := ptr + 1 in
  let attr := def_dst_attr attr0 in
  '(dst, saved, ptr) ← atom_get_dst arg attr (ptr + 1);
  '(count, ptr) ← atom_get_src_direct ATOM_SRC_BYTE0 ptr;
  v ← sh dst (u8 count);
  _ ← atom_put_dst arg attr dptr v (saved_or_undef saved);
  mret ptr.

Definition atom_op_shift_left : Z -> Z -> AM Z := atom_shift_imm shl32.
Definition atom_op_shift_right : Z -> Z -> AM Z := atom_shift_imm shr32.

(** shl and shr: the whole saved word is shifted, then the field extracted. *)
Definition atom_shift_src (sh : Z -> Z -> AM Z) (arg ptr : Z) : AM Z :=
  attr ← U8 ptr;
  let dptr := ptr + 1 in
  let align := dst_align attr in
  '(_, saved, ptr) ← atom_get_dst arg attr (ptr + 1);
  let dst := saved_or_undef saved in
  '(count, ptr) ← atom_get_src attr ptr;
  v ← sh dst (u8 count);
  _ ← atom_put_dst arg attr dptr (extract_field align v) (saved_or_undef saved);
  mret ptr.

Definition atom_op_shl : Z -> Z -> AM Z := atom_shift_src shl32.
Definition atom_op_shr : Z -> Z -> AM Z := atom_shift_src shr32.

(** The case list of a switch: [ptr] moves past one case per iteration. *)
Fixpoint atom_switch_loop (fuel : nat) (attr src ptr : Z) : AM Z :=
  match fuel with
  | O => nofuel
  | S fuel' =>
    w ← U16 ptr;
    if w =? ATOM_CASE_END then mret (ptr + 2)
    else
      m ← U8 ptr;
      if m =? ATOM_CASE_MAGIC then
        '(val, ptr') ← atom_get_src (Z.lor (Z.land attr 0x38) ATOM_ARG_IMM) (ptr + 1);
        target ← U16 ptr';
        if val =? src then st ← ectx_get start; mret (st + target)
        else atom_switch_loop fuel' attr src (ptr' + 2)
      else mret ptr
  end.

Definition atom_op_switch (arg ptr : Z) : AM Z :=
  attr ← U8 ptr;
  '(src, ptr) ← atom_get_src attr (ptr + 1);
  b ← ctx_get bios;
  atom_switch_loop (S (length b)) attr src ptr.

Definition atom_op_test (arg ptr : Z) : AM Z :=
  '(dst, src, ptr) ← atom_two_sources arg ptr;
  _ ← with_ctx (set_cs_equal (Z.land dst src =? 0));
  mret ptr.

Definition atom_op_debug (arg ptr : Z) : AM Z := _ ← U8 ptr; mret (ptr + 1).
Definition atom_op_processds (arg ptr : Z) : AM Z := v ← U16 ptr; mret (ptr + (v + 2)).
End ops.

(** ** The dispatch table *)

Inductive atom_func : Type :=
  | F_move | F_and | F_or | F_shift_left | F_shift_right | F_mul | F_div | F_add
  | F_sub | F_setport | F_setregblock | F_setfbbase | F_compare | F_switch | F_jump
  | F_test | F_delay | F_calltable | F_repeat | F_clear | F_nop | F_eot | F_mask
  | F_postcard | F_beep | F_savereg | F_restorereg | F_setdatablock | F_xor | F_shl
  | F_shr | F_debug | F_processds | F_mul32 | F_div32.

Definition opcode_table : list (option atom_func * Z) :=
  [(None, 0); (Some F_move, ATOM_ARG_REG); (Some F_move, ATOM_ARG_PS);
   (Some F_move, ATOM_ARG_WS); (Some F_move, ATOM_ARG_FB); (Some F_move, ATOM_ARG_PLL);
   (Some F_move, ATOM_ARG_MC); (Some F_and, ATOM_ARG_REG); (Some F_and, ATOM_ARG_PS);
   (Some F_and, ATOM_ARG_WS); (Some F_and, ATOM_ARG_FB); (Some F_and, ATOM_ARG_PLL);
   (Some F_and, ATOM_ARG_MC); (Some F_or, ATOM_ARG_REG); (Some F_or, ATOM_ARG_PS);
   (Some F_or, ATOM_ARG_WS); (Some F_or, ATOM_ARG_FB); (Some F_or, ATOM_ARG_PLL);
   (Some F_or, ATOM_ARG_MC); (Some F_shift_left, ATOM_ARG_REG);
   (Some F_shift_left, ATOM_ARG_PS); (Some F_shift_left, ATOM_ARG_WS);
   (Some F_shift_left, ATOM_ARG_FB); (Some F_shift_left, ATOM_ARG_PLL);
   (Some F_shift_left, ATOM_ARG_MC); (Some F_shift_right, ATOM_ARG_REG);
   (Some F_shift_right, ATOM_ARG_PS); (Some F_shift_right, ATOM_ARG_WS);
   (Some F_shift_right, ATOM_ARG_FB); (Some F_shift_right, ATOM_ARG_PLL);
   (Some F_shift_right, ATOM_ARG_MC); (Some F_mul, ATOM_ARG_REG); (Some F_mul, ATOM_ARG_PS);
   (Some F_mul, ATOM_ARG_WS); (Some F_mul, ATOM_ARG_FB); (Some F_mul, ATOM_ARG_PLL);
   (Some F_mul, ATOM_ARG_MC); (Some F_div, ATOM_ARG_REG); (Some F_div, ATOM_ARG_PS);
   (Some F_div, ATOM_ARG_WS); (Some F_div, ATOM_ARG_FB); (Some F_div, ATOM_ARG_PLL);
   (Some F_div, ATOM_ARG_MC); (Some F_add, ATOM_ARG_REG); (Some F_add, ATOM_ARG_PS);
   (Some F_add, ATOM_ARG_WS); (Some F_add, ATOM_ARG_FB); (Some F_add, ATOM_ARG_PLL);
   (Some F_add, ATOM_ARG_MC); (Some F_sub, ATOM_ARG_REG); (Some F_sub, ATOM_ARG_PS);
   (Some F_sub, ATOM_ARG_WS); (Some F_sub, ATOM_ARG_FB); (Some F_sub, ATOM_ARG_PLL);
   (Some F_sub, ATOM_ARG_MC); (Some F_setport, ATOM_PORT_ATI);
   (Some F_setport, ATOM_PORT_PCI); (Some F_setport, ATOM_PORT_SYSIO);
   (Some F_setregblock, 0); (Some F_setfbbase, 0); (Some F_compare, ATOM_ARG_REG);
   (Some F_compare, ATOM_ARG_PS); (Some F_compare, ATOM_ARG_WS);
   (Some F_compare, ATOM_ARG_FB); (Some F_compare, ATOM_ARG_PLL);
   (Some F_compare, ATOM_ARG_MC); (Some F_switch, 0); (Some F_jump, ATOM_COND_ALWAYS);
   (Some F_jump, ATOM_COND_EQUAL); (Some F_jump, ATOM_COND_BELOW);
   (Some F_jump, ATOM_COND_ABOVE); (Some F_jump, ATOM_COND_BELOWOREQUAL);
   (Some F_jump, ATOM_COND_ABOVEOREQUAL); (Some F_jump, ATOM_COND_NOTEQUAL);
   (Some F_test, ATOM_ARG_REG); (Some F_test, ATOM_ARG_PS); (Some F_test, ATOM_ARG_WS);
   (Some F_test, ATOM_ARG_FB); (Some F_test, ATOM_ARG_PLL); (Some F_test, ATOM_ARG_MC);
   (Some F_delay, ATOM_UNIT_MILLISEC); (Some F_delay, ATOM_UNIT_MICROSEC);
   (Some F_calltable, 0); (Some F_repeat, 0); (Some F_clear, ATOM_ARG_REG);
   (Some F_clear, ATOM_ARG_PS); (Some F_clear, ATOM_ARG_WS); (Some F_clear, ATOM_ARG_FB);
   (Some F_clear, ATOM_ARG_PLL); (Some F_clear, ATOM_ARG_MC); (Some F_nop, 0);
   (Some F_eot, 0); (Some F_mask, ATOM_ARG_REG); (Some F_mask, ATOM_ARG_PS);
   (Some F_mask, ATOM_ARG_WS); (Some F_mask, ATOM_ARG_FB); (Some F_mask, ATOM_ARG_PLL);
   (Some F_mask, ATOM_ARG_MC); (Some F_postcard, 0); (Some F_beep, 0); (Some F_savereg, 0);
   (Some F_restorereg, 0); (Some F_setdatablock, 0); (Some F_xor, ATOM_ARG_REG);
   (Some F_xor, ATOM_ARG_PS); (Some F_xor, ATOM_ARG_WS); (Some F_xor, ATOM_ARG_FB);
   (Some F_xor, ATOM_ARG_PLL); (Some F_xor, ATOM_ARG_MC); (Some F_shl, ATOM_ARG_REG);
   (Some F_shl, ATOM_ARG_PS); (Some F_shl, ATOM_ARG_WS); (Some F_shl, ATOM_ARG_FB);
   (Some F_shl, ATOM_ARG_PLL); (Some F_shl, ATOM_ARG_MC); (Some F_shr, ATOM_ARG_REG);
   (Some F_shr, ATOM_ARG_PS); (Some F_shr, ATOM_ARG_WS); (Some F_shr, ATOM_ARG_FB);
   (Some F_shr, ATOM_ARG_PLL); (Some F_shr, ATOM_ARG_MC); (Some F_debug, 0);
   (Some F_processds, 0); (Some F_mul32, ATOM_ARG_PS); (Some F_mul32, ATOM_ARG_WS);
   (Some F_div32, ATOM_ARG_PS); (Some F_div32, ATOM_ARG_WS)].

Section dispatch.
Context {C : Type} {CI : CardInfo C} {AK : AtomKernel C}.
Notation AM := (M (atom_state C)).

Definition atom_func_sem (call : Z -> Z -> AM Z) (f : atom_func) : Z -> Z -> AM Z :=
  match f with
  | F_move => atom_op_move | F_and => atom_op_and | F_or => atom_op_or
  | F_shift_left => atom_op_shift_left | F_shift_right => atom_op_shift_right
  | F_mul => atom_op_mul | F_div => atom_op_div | F_add => atom_op_add
  | F_sub => atom_op_sub | F_setport => atom_op_setport
  | F_setregblock => atom_op_setregblock | F_setfbbase => atom_op_setfbbase
  | F_compare => atom_op_compare | F_switch => atom_op_switch | F_jump => atom_op_jump
  | F_test => atom_op_test | F_delay => atom_op_delay
  | F_calltable => atom_op_calltable call | F_repeat => atom_op_repeat
  | F_clear => atom_op_clear | F_nop => atom_op_nop | F_eot => atom_op_eot
  | F_mask => atom_op_mask | F_postcard => atom_op_postcard | F_beep => atom_op_beep
  | F_savereg => atom_op_savereg | F_restorereg => atom_op_restorereg
  | F_setdatablock => atom_op_setdatablock | F_xor => atom_op_xor | F_shl => atom_op_shl
  | F_shr => atom_op_shr | F_debug => atom_op_debug | F_processds => atom_op_processds
  | F_mul32 => atom_op_mul32 | F_div32 => atom_op_div32
  end.

(** [opcode_table[op].func(&ectx, &ptr, opcode_table[op].arg)] *)
Definition atom_dispatch (call : Z -> Z -> AM Z) (op ptr : Z) : AM Z :=
  e ← deref (opcode_table !! Z.to_nat op);
  match e with
  | (Some f, arg) => atom_func_sem call f arg ptr
  | (None, _) => fault
  end.
End dispatch.
