(* ===== verification/AtomExec.v ===== *)
(** * AtomBIOS interpreter: command tables, image parsing, entry points

    The fetch-execute loop and the entry points of [amdgpu/atom.c]:
    [amdgpu_atom_execute_table_locked], [amdgpu_atom_execute_table],
    [atom_index_iio], [amdgpu_atom_parse], [amdgpu_atom_asic_init],
    [amdgpu_atom_parse_data_header], [amdgpu_atom_parse_cmd_header] and
    [amdgpu_atom_allocate_fb_scratch].  The interpreter loop takes fuel, one
    unit per instruction and per nested table, because a table may loop on
    hardware state for ever. *)

From stdpp Require Import base numbers list.
From S2P Require Import Prelude CMonad AtomState AtomOperand AtomOps.

Section exec.
Context {C : Type} {CI : CardInfo C} {AK : AtomKernel C}.
Notation AM := (M (atom_state C)).

(** [kzalloc(4 * ws, GFP_KERNEL)], or no allocation when the table needs no
    work space.  A failed allocation leaves a null pointer: no element can be
    accessed. *)
Definition alloc_ws (n : Z) : AM (list Z) :=
  if n =? 0 then mret []
  else ok ← card_read kzalloc_ok;
       mret (if (ok : bool) then replicate (Z.to_nat n) 0 else []).

(** The prologue of a table: reads its header and replaces the execution
    context; returns the address of the first instruction. *)
Definition atom_enter (base params : Z) : AM Z :=
  _ ← U16 base;
  nws ← U8 (base + ATOM_CT_WS_PTR);
  psb ← U8 (base + ATOM_CT_PS_PTR);
  w ← alloc_ws nws;
  _ ← with_ectx (fun _ => mk_atom_exec_context params w
        (Z.land psb ATOM_CT_PS_MASK / 4) base 0 undef false);
  mret (base + ATOM_CT_CODE_PTR).

(** [amdgpu_atom_execute_table_locked], given the interpreter loop.  The
    caller's execution context is a stack variable and survives the call. *)
Definition execute_table_with (loop : Z -> AM Z) (index params : Z) : AM Z :=
  cmd ← ctx_get cmd_table;
  base ← U16 (cmd + 4 + 2 * index);
  if base =? 0 then mret (- EINVAL)
  else
    caller ← gets st_ectx;
    ptr ← atom_enter base params;
    _ ← with_depth (fun d => d + 1);
    ret ← loop ptr;
    _ ← with_ectx (fun _ => caller);
    mret ret.

(** The [while (1)] loop; the value is the table's return code. *)
Fixpoint atom_loop (fuel : nat) (ptr : Z) : AM Z :=
  match fuel with
  | O => nofuel
  | S fuel' =>
    op ← U8 ptr;
    ab ← ectx_get abort;
    if (ab : bool) then mret (- EINVAL)
    else if (op <? ATOM_OP_CNT) && (0 <? op) then
      ptr' ← atom_dispatch (execute_table_with (atom_loop fuel')) op (ptr + 1);
      if op =? ATOM_OP_EOT then _ ← with_depth (fun d => d - 1); mret 0
      else atom_loop fuel' ptr'
    else _ ← with_depth (fun d => d - 1); mret 0
  end.

Definition amdgpu_atom_execute_table_locked (fuel : nat) (index params : Z) : AM Z :=
  execute_table_with (atom_loop fuel) index params.

(** The fields the entry point resets before it runs a table. *)
Definition reset_ctx (c : atom_context) : atom_context :=
  set_divmul1 0 (set_divmul0 0 (set_io_mode ATOM_IO_MM (set_fb_base 0
    (set_reg_block 0 (set_data_block 0 c))))).

Definition amdgpu_atom_execute_table (fuel : nat) (index params : Z) : AM Z :=
  _ ← with_ctx reset_ctx;
  amdgpu_atom_execute_table_locked fuel index params.

(** ** Indirect IO index *)

Definition atom_iio_len : list Z := [1; 2; 3; 3; 3; 3; 4; 4; 4; 3].

(** [while (CU8(base) != ATOM_IIO_END) base += atom_iio_len[CU8(base)]] *)
Fixpoint iio_skip (fuel : nat) (base : Z) : AM Z :=
  match fuel with
  | O => nofuel
  | S fuel' =>
    op ← U8 base;
    if op =? ATOM_IIO_END then mret base
    else n ← deref (elem atom_iio_len op); iio_skip fuel' (base + n)
  end.

Fixpoint index_iio_loop (fuel : nat) (base : Z) : AM unit :=
  match fuel with
  | O => nofuel
  | S fuel' =>
    op ← U8 base;
    if op =? ATOM_IIO_START then
      i ← U8 (base + 1);
      tbl ← ctx_get iio;
      tbl' ← deref (update tbl i (u16 (base + 2)));
      _ ← with_ctx (set_iio tbl');
      b ← ctx_get bios;
      e ← iio_skip (S (length b)) (base + 2);
      index_iio_loop fuel' (e + 3)
    else mret tt
  end.

(** The result says whether the index could be allocated. *)
Definition atom_index_iio (base : Z) : AM bool :=
  ok ← card_read kzalloc_ok;
  if (ok : bool) then
    _ ← with_ctx (set_iio (replicate 256 0));
    b ← ctx_get bios;
    _ ← index_iio_loop (S (length b)) base;
    mret true
  else mret false.

(** ** Parsing the image *)

(** [!strncmp(CSTR(ptr), magic, strlen(magic))] *)
Fixpoint magic_matches (magic : list Z) (ptr : Z) : AM bool :=
  match magic with
  | [] => mret true
  | c :: rest => b ← U8 ptr; if b =? c then magic_matches rest (ptr + 1) else mret false
  end.

(** The strings [" 761295520"] and ["ATOM"]. *)
Definition ATOM_ATI_MAGIC : list Z := [0x20; 0x37; 0x36; 0x31; 0x32; 0x39; 0x35; 0x35; 0x32; 0x30].
Definition ATOM_ROM_MAGIC : list Z := [0x41; 0x54; 0x4F; 0x4D].
Definition ATOM_ROM_MSG_PTR : Z := 0x10.

Fixpoint skip_newlines (fuel : nat) (p : Z) : AM Z :=
  match fuel with
  | O => nofuel
  | S fuel' =>
    c ← U8 p;
    if negb (c =? 0) && ((c =? 10) || (c =? 13)) then skip_newlines fuel' (p + 1)
    else mret p
  end.

(** Up to [n] characters, stopping before one outside ['.'..'z']. *)
Fixpoint copy_name (n : nat) (p : Z) : AM (list Z) :=
  match n with
  | O => mret []
  | S n' =>
    c ← U8 p;
    if (c <? 46) || (122 <? c) then mret []
    else rest ← copy_name n' (p + 1); mret (c :: rest)
  end.

Definition fresh_context (b : list Z) : atom_context :=
  mk_atom_context b 0 0 [] 0 0 0 0 0 0 0 false false 0 [] 0.

(** [None] is a null context; otherwise the state holds the new context and
    the result is the name that is logged. *)
Definition amdgpu_atom_parse (image : list Z) : AM (option (list Z)) :=
  ok ← card_read kzalloc_ok;
  if negb ok then mret None
  else
    _ ← with_ctx (fun _ => fresh_context image);
    magic ← U16 0;
    if negb (magic =? ATOM_BIOS_MAGIC) then mret None
    else
      ati ← magic_matches ATOM_ATI_MAGIC ATOM_ATI_MAGIC_PTR;
      if negb ati then mret None
      else
        base ← U16 ATOM_ROM_TABLE_PTR;
        rom ← magic_matches ATOM_ROM_MAGIC (base + ATOM_ROM_MAGIC_PTR);
        if negb rom then mret None
        else
          ct ← U16 (base + ATOM_ROM_CMD_PTR);
          dt ← U16 (base + ATOM_ROM_DATA_PTR);
          _ ← with_ctx (fun c => mk_atom_context (bios c) ct dt (iio c) (data_block c)
                (fb_base c) (divmul0 c) (divmul1 c) (io_attr c) (reg_block c) (shift c)
                (cs_equal c) (cs_above c) (io_mode c) (scratch c) (scratch_size_bytes c));
          ioff ← U16 (dt + ATOM_DATA_IIO_PTR);
          indexed ← atom_index_iio (ioff + 4);
          if negb indexed then mret None
          else
            msg ← U16 (base + ATOM_ROM_MSG_PTR);
            p ← skip_newlines (S (length image)) msg;
            name ← copy_name 511 p;
            mret (Some name).

(** ** Entry points on a parsed image *)

(** [ps] is a local array of 16 words. *)
Definition amdgpu_atom_asic_init (fuel : nat) : AM Z :=
  dt ← ctx_get data_table;
  hwi ← U16 (dt + ATOM_DATA_FWI_PTR);
  sclk ← U32 (hwi + ATOM_FWI_DEFSCLK_PTR);
  mclk ← U32 (hwi + ATOM_FWI_DEFMCLK_PTR);
  if (sclk =? 0) || (mclk =? 0) then mret 1
  else
    cmd ← ctx_get cmd_table;
    entry ← U16 (cmd + 4 + 2 * ATOM_CMD_INIT);
    if entry =? 0 then mret 1
    else
      _ ← with_ps (fun _ => sclk :: mclk :: replicate 14 0);
      amdgpu_atom_execute_table fuel ATOM_CMD_INIT 0.

Record table_header := mk_table_header {
  th_size : option Z; th_frev : option Z; th_crev : option Z; th_start : Z }.

(** An out parameter that is [NULL] is not read. *)
Definition read_if (b : bool) (m : AM Z) : AM (option Z) :=
  if b then v ← m; mret (Some v) else mret None.

Definition amdgpu_atom_parse_data_header (index : Z) (size frev crev : bool) :
    AM (option table_header) :=
  dt ← ctx_get data_table;
  idx ← U16 (dt + (index * 2 + 4));
  mdt ← U16 (dt + 4 + 2 * index);
  if mdt =? 0 then mret None
  else
    sz ← read_if size (U16 idx);
    fr ← read_if frev (U8 (idx + 2));
    cr ← read_if crev (U8 (idx + 3));
    mret (Some (mk_table_header sz fr cr idx)).

Definition amdgpu_atom_parse_cmd_header (index : Z) (frev crev : bool) :
    AM (option (option Z * option Z)) :=
  ct ← ctx_get cmd_table;
  idx ← U16 (ct + (index * 2 + 4));
  mct ← U16 (ct + 4 + 2 * index);
  if mct =? 0 then mret None
  else
    fr ← read_if frev (U8 (idx + 2));
    cr ← read_if crev (U8 (idx + 3));
    mret (Some (fr, cr)).

(** [GetIndexIntoMasterTable(DATA, VRAM_UsageByFirmware)] and the offset of
    [usFirmwareUseInKb] in the table. *)
Definition VRAM_UsageByFirmware : Z := 11.
Definition usFirmwareUseInKb : Z := 8.

Definition amdgpu_atom_allocate_fb_scratch : AM Z :=
  h ← amdgpu_atom_parse_data_header VRAM_UsageByFirmware false false false;
  usage ← match h with
          | Some th => kb ← U16 (th_start th + usFirmwareUseInKb); mret (kb * 1024)
          | None => mret 0
          end;
  _ ← with_ctx (set_scratch_size 0);
  let bytes := if usage =? 0 then 20 * 1024 else usage in
  ok ← card_read kzalloc_ok;
  if (ok : bool) then
    _ ← with_ctx (set_scratch (replicate (Z.to_nat (bytes / 4)) 0));
    _ ← with_ctx (set_scratch_size bytes);
    mret 0
  else
    _ ← with_ctx (set_scratch []);
    mret (- ENOMEM).
End exec.
