(* ===== verification/AtomFields.v ===== *)
(** * AtomBIOS interpreter: operands read back what was stored

    Facts about the operand accessors: an alignment is a bit field of the
    32-bit word, [merge_field] replaces exactly that field, a stored operand
    reads back, skipping an operand moves the program counter as reading it
    does, and the frame-buffer window's bounds test. *)

From stdpp Require Import base numbers list.
From S2P Require Import Prelude CMonad AtomState AtomOperand.

(** ** Alignments are bit fields *)

Definition field_width (align : Z) : Z := table [32; 16; 16; 16; 8; 8; 8; 8] align.
Definition is_align (a : Z) : Prop := 0 <= a < 8.

Lemma align_cases a (P : Z -> Prop) :
  is_align a -> P 0 -> P 1 -> P 2 -> P 3 -> P 4 -> P 5 -> P 6 -> P 7 -> P a.
Proof.
  intros Ha. assert (a = 0 \/ a = 1 \/ a = 2 \/ a = 3 \/ a = 4 \/ a = 5 \/ a = 6 \/ a = 7)
    as H by (unfold is_align in Ha; lia).
  by repeat destruct H as [->|H]; subst.
Qed.

Lemma mask_field a :
  is_align a ->
  table atom_arg_mask a = Z.shiftl (Z.ones (field_width a)) (table atom_arg_shift a).
Proof. intros Ha. by apply (align_cases a); [done|..]. Qed.

Lemma field_fits a :
  is_align a ->
  0 < field_width a /\ 0 <= table atom_arg_shift a /\
  table atom_arg_shift a + field_width a <= 32.
Proof. intros Ha. by apply (align_cases a); [done|..]. Qed.

Lemma land7_align x : is_align (Z.land x 7).
Proof.
  unfold is_align. change 7 with (Z.ones 3). rewrite Z.land_ones by lia.
  apply Z.mod_pos_bound. lia.
Qed.

Lemma land3_range x : 0 <= Z.land x 3 < 4.
Proof.
  change 3 with (Z.ones 2). rewrite Z.land_ones by lia.
  apply Z.mod_pos_bound. lia.
Qed.

Lemma dst_align_range attr : is_align (dst_align attr).
Proof.
  unfold dst_align.
  pose proof (land3_range (Z.shiftr attr 6)) as H3.
  assert (forall j, 0 <= j < 4 -> j = 0 \/ j = 1 \/ j = 2 \/ j = 3) as H4 by lia.
  apply (align_cases (Z.land (Z.shiftr attr 3) 7)); [apply land7_align|..];
    destruct (H4 _ H3) as [->|[->|[->| ->]]]; cbv; split; congruence.
Qed.

(** Reading a field after replacing it gives the new value, cut to the
    field's width. *)
Lemma extract_merge a val saved :
  is_align a -> is_u32 saved ->
  extract_field a (merge_field a val saved) = Z.land val (Z.ones (field_width a)).
Proof.
  intros Ha Hs. unfold extract_field, merge_field. rewrite mask_field by done.
  destruct (field_fits a Ha) as (Hw & Hsh & Hfit).
  generalize dependent (field_width a). generalize dependent (table atom_arg_shift a).
  intros sh Hsh w Hw Hfit.
  apply Z.bits_inj'. intros i Hi. bitwise_core.
  - replace (i + sh - sh) with i by lia. btauto.
Qed.

(** Bits outside the field keep their saved value. *)
Lemma merge_outside a val saved i :
  is_align a -> 0 <= i < 32 ->
  i < table atom_arg_shift a \/ table atom_arg_shift a + field_width a <= i ->
  Z.testbit (merge_field a val saved) i = Z.testbit saved i.
Proof.
  intros Ha Hi Hout. unfold merge_field. rewrite mask_field by done.
  destruct (field_fits a Ha) as (Hw & Hsh & Hfit).
  generalize dependent (field_width a). generalize dependent (table atom_arg_shift a).
  intros. destruct Hout; bitwise_core.
Qed.

Lemma merge_u32 a val saved : is_align a -> is_u32 saved -> is_u32 (merge_field a val saved).
Proof.
  intros Ha Hs. unfold merge_field.
  apply is_u32_lor; apply is_u32_land_l; auto with cint.
Qed.

Lemma extract_u32 a val : is_align a -> is_u32 val -> is_u32 (extract_field a val).
Proof.
  intros Ha Hv. apply is_u32_shiftr; [by apply is_u32_land_l|].
  by destruct (field_fits a Ha) as (_ & ? & _).
Qed.

(** ** Program-counter agreement of reading and skipping *)

Lemma dst_attr_fields arg attr :
  is_align arg ->
  src_arg (dst_attr arg attr) = arg /\ src_align (dst_attr arg attr) = dst_align attr.
Proof.
  intros Harg. unfold dst_attr.
  apply (align_cases (dst_align attr)); [apply dst_align_range|..];
    by apply (align_cases arg).
Qed.

Section operands.
Context {C : Type} {CI : CardInfo C} {AK : AtomKernel C}.
Implicit Types s : atom_state C.

Lemma fetch_imm_ptr align ptr s v ptr' s' :
  fetch_imm align ptr s = Ok ((v, ptr'), s') ->
  ptr' = (if align =? ATOM_SRC_DWORD then ptr + 4
          else if align <=? ATOM_SRC_WORD16 then ptr + 2 else ptr + 1).
Proof. unfold fetch_imm. by repeat case_match; intros Hf; minv. Qed.

Lemma atom_fetch_ptr attr ptr s f ptr' s' :
  atom_fetch (src_arg attr) (src_align attr) ptr s = Ok ((f, ptr'), s') ->
  ptr' = atom_skip_src_int attr ptr.
Proof.
  unfold atom_fetch, atom_skip_src_int.
  unfold ATOM_ARG_REG, ATOM_ARG_PS, ATOM_ARG_WS, ATOM_ARG_ID, ATOM_ARG_FB, ATOM_ARG_IMM,
    ATOM_ARG_PLL.
  apply (align_cases (src_arg attr)); [apply land7_align|..]; cbn [Z.eqb Pos.eqb orb]; intros H.
  6: { minv. by eapply fetch_imm_ptr. }
  all: by minv.
Qed.

(** Reading an operand and skipping it move the program counter by the same
    amount, for every attribute byte; [atom_op_move] relies on it when it skips
    a destination it does not need to read. *)
Theorem get_src_skip_agree attr ptr s v saved ptr' s' :
  atom_get_src_int attr ptr s = Ok ((v, saved, ptr'), s') ->
  ptr' = atom_skip_src_int attr ptr.
Proof.
  unfold atom_get_src_int. intros H. minv. case_match; minv; by eapply atom_fetch_ptr.
Qed.

(** ** Stored operands read back *)

(** The work-space indices that are plain 32-bit cells: all but the masks,
    which are read-only, and the registers narrower than a word. *)
Definition ws_plain (idx : Z) : Prop :=
  idx <> ATOM_WS_DATAPTR /\ idx <> ATOM_WS_SHIFT /\ idx <> ATOM_WS_OR_MASK /\
  idx <> ATOM_WS_AND_MASK /\ idx <> ATOM_WS_ATTRIBUTES /\ idx <> ATOM_WS_REGPTR.

(** Destinations that hold what is written to them. *)
Definition is_cell (arg idx : Z) s : Prop :=
  arg = ATOM_ARG_PS \/ (arg = ATOM_ARG_WS /\ ws_plain idx) \/
  (arg = ATOM_ARG_FB /\ fb_beyond (st_ctx s) idx = false).

Lemma store_fetch_ps idx v s s' :
  store_ps idx v s = Ok (tt, s') ->
  st_ctx s' = st_ctx s /\ elem (st_ps s') (ps (st_ectx s') + idx) = Some v.
Proof.
  unfold store_ps, ectx_get, with_ps. intros H. minv. cbn.
  split; [done|]. by eapply elem_update_eq.
Qed.

Lemma store_fetch_ws idx v s s' :
  ws_plain idx -> store_ws idx v s = Ok (tt, s') ->
  bios (st_ctx s') = bios (st_ctx s) /\ fetch_ws idx s' = Ok (v, s').
Proof.
  intros (H1 & H2 & H3 & H4 & H5 & H6). unfold store_ws, fetch_ws.
  unfold with_ctx, with_ectx, ctx_get, ectx_get.
  repeat match goal with
  | |- context [idx =? ?k] =>
      destruct (Z.eqb_spec idx k); [first [contradiction | cbn [orb]; intros H'; minv; by cbn]|]
  end.
  cbn [orb]. intros H'. minv. cbn. split; [done|].
  unfold mbind, M_bind, gets. cbn. by rewrite (elem_update_eq _ _ _ _ D).
Qed.

Lemma store_fetch_fb idx v s s' :
  fb_beyond (st_ctx s) idx = false -> store_fb idx v s = Ok (tt, s') ->
  bios (st_ctx s') = bios (st_ctx s) /\ fetch_fb idx s' = Ok (v, s').
Proof.
  intros Hb. unfold store_fb, fetch_fb, ctx_get, with_ctx. intros H. minv.
  rewrite Hb in H. minv. cbn. split; [done|].
  unfold mbind, M_bind, gets, fb_beyond in *. cbn. rewrite Hb. cbn.
  by rewrite (elem_update_eq _ _ _ _ D).
Qed.

Lemma U8_Ok ptr s v s' :
  U8 ptr s = Ok (v, s') <-> get_u8 (bios (st_ctx s)) ptr = Some v /\ s' = s.
Proof.
  unfold U8, ctx_get, mbind, M_bind, gets. rewrite deref_Ok. split; intros [? ?]; auto.
Qed.
Lemma U16_Ok ptr s v s' :
  U16 ptr s = Ok (v, s') <-> get_u16 (bios (st_ctx s)) ptr = Some v /\ s' = s.
Proof.
  unfold U16, ctx_get, mbind, M_bind, gets. rewrite deref_Ok. split; intros [? ?]; auto.
Qed.
Lemma U32_Ok ptr s v s' :
  U32 ptr s = Ok (v, s') <-> get_u32 (bios (st_ctx s)) ptr = Some v /\ s' = s.
Proof.
  unfold U32, ctx_get, mbind, M_bind, gets. rewrite deref_Ok. split; intros [? ?]; auto.
Qed.

(** What the fetch part of a cell returns after a store to it. *)
Lemma store_fetch_cell arg attr ptr val saved idx s s' :
  is_cell arg idx s -> get_u8 (bios (st_ctx s)) ptr = Some idx ->
  atom_put_dst arg attr ptr val saved s = Ok (tt, s') ->
  atom_fetch arg (dst_align attr) ptr s' =
    Ok ((Value (merge_field (dst_align attr) val saved), ptr + 1), s').
Proof.
  intros Hcell Hidx. unfold atom_put_dst, atom_fetch.
  destruct Hcell as [->|[[-> Hp]|[-> Hb]]]; eqb_const; intros H; minv;
    apply U8_Ok in E as [E ->]; assert (v = idx) as -> by congruence.
  - apply store_fetch_ps in H as [Hc He].
    rewrite (bind_eval _ _ _ _ _ (proj2 (U8_Ok ptr s' idx s') ltac:(by rewrite Hc))).
    unfold mbind, M_bind, ectx_get, gets. cbn. by rewrite He.
  - apply store_fetch_ws in H as [Hc He]; [|done].
    rewrite (bind_eval _ _ _ _ _ (proj2 (U8_Ok ptr s' idx s') ltac:(by rewrite Hc))).
    by rewrite (bind_eval _ _ _ _ _ He).
  - apply store_fetch_fb in H as [Hc He]; [|done].
    rewrite (bind_eval _ _ _ _ _ (proj2 (U8_Ok ptr s' idx s') ltac:(by rewrite Hc))).
    by rewrite (bind_eval _ _ _ _ _ He).
Qed.

(** C1: When a store of the interpreter to a parameter, work-space or
    frame-buffer cell succeeds, at any alignment, reading the same operand again
    gives the value, cut to the width of the alignment, and moves the pointer
    past the operand; and the bits of the cell outside the addressed field are
    those of the word that was passed as saved. *)
Theorem dst_read_back arg attr ptr val saved idx s s' :
  is_cell arg idx s -> get_u8 (bios (st_ctx s)) ptr = Some idx -> is_u32 saved ->
  atom_put_dst arg attr ptr val saved s = Ok (tt, s') ->
  exists word,
    atom_get_dst arg attr ptr s' =
      Ok ((Z.land val (Z.ones (field_width (dst_align attr))), Some word, ptr + 1), s') /\
    forall i, 0 <= i < 32 ->
      i < table atom_arg_shift (dst_align attr) \/
      table atom_arg_shift (dst_align attr) + field_width (dst_align attr) <= i ->
      Z.testbit word i = Z.testbit saved i.
Proof.
  intros Hcell Hidx Hs Hput.
  pose proof (store_fetch_cell _ _ _ _ _ _ _ _ Hcell Hidx Hput) as Hf.
  assert (is_align arg) as Harg.
  { unfold is_align. destruct Hcell as [->|[[-> _]|[-> _]]]; cbv; split; congruence. }
  exists (merge_field (dst_align attr) val saved). split.
  - unfold atom_get_dst, atom_get_src_int.
    destruct (dst_attr_fields arg attr Harg) as [-> ->].
    rewrite (bind_eval _ _ _ _ _ Hf). cbn beta iota.
    rewrite extract_merge by auto using dst_align_range. done.
  - intros i Hi Hout. apply merge_outside; auto using dst_align_range.
Qed.
End operands.
