(* ===== verification/AtomWf.v ===== *)
(** * AtomBIOS interpreter: the type invariant

    Every field of the interpreter's contexts stays within its C type, and
    the image, the table pointers, the indirect-IO index and the sizes of the
    arrays never change, whatever table is executed. *)

From stdpp Require Import base numbers list.
From S2P Require Import Prelude CMonad AtomState AtomOperand AtomOps AtomExec AtomFields.

Record wf_ctx (c : atom_context) : Prop := {
  wf_bios : Forall is_u8 (bios c);
  wf_iio : Forall is_u16 (iio c);
  wf_data_block : is_u16 (data_block c);
  wf_fb_base : is_u32 (fb_base c);
  wf_divmul0 : is_u32 (divmul0 c);
  wf_divmul1 : is_u32 (divmul1 c);
  wf_io_attr : is_u16 (io_attr c);
  wf_reg_block : is_u16 (reg_block c);
  wf_shift : is_u8 (shift c);
  wf_io_mode : is_u16 (io_mode c);
  wf_scratch : Forall is_u32 (scratch c)
}.

Record wf_ectx (e : atom_exec_context) : Prop := {
  wf_ps : 0 <= ps e;
  wf_ws : Forall is_u32 (ws e);
  wf_ps_shift : 0 <= ps_shift e < 32;
  wf_start : is_u16 (start e);
  wf_last_jump : 0 <= last_jump e < 131072;
  wf_last_jump_jiffies : is_u64 (last_jump_jiffies e)
}.

(** What execution never changes: the image and its tables, the index, the
    extent of the scratch and parameter areas. *)
Definition frame {C} (s : atom_state C) : list Z * Z * Z * list Z * Z * nat * nat :=
  let c := st_ctx s in
  (bios c, cmd_table c, data_table c, iio c, scratch_size_bytes c,
   length (scratch c), length (st_ps s)).

Record wf_state {C} (s : atom_state C) : Prop := {
  wf_st_ctx : wf_ctx (st_ctx s);
  wf_st_ectx : wf_ectx (st_ectx s);
  wf_st_ps : Forall is_u32 (st_ps s)
}.

Lemma get_u8_range b ptr v : Forall is_u8 b -> get_u8 b ptr = Some v -> is_u8 v.
Proof. apply elem_Forall. Qed.

Lemma get_u16_range b ptr v : Forall is_u8 b -> get_u16 b ptr = Some v -> is_u16 v.
Proof.
  intros Hb H. unfold get_u16 in H.
  destruct (get_u8 b ptr) as [lo|] eqn:El; [|done].
  destruct (get_u8 b (ptr + 1)) as [hi|] eqn:Eh; [|done]. simplify_eq/=.
  pose proof (get_u8_range _ _ _ Hb El). pose proof (get_u8_range _ _ _ Hb Eh).
  apply (lor_bound 16); [lia|cbn; cbv [is_u8] in *; lia|].
  rewrite Z.shiftl_mul_pow2 by lia. cbv [is_u8] in *. lia.
Qed.

Lemma get_u32_range b ptr v : Forall is_u8 b -> get_u32 b ptr = Some v -> is_u32 v.
Proof.
  intros Hb H. unfold get_u32 in H.
  destruct (get_u16 b ptr) as [lo|] eqn:El; [|done].
  destruct (get_u16 b (ptr + 2)) as [hi|] eqn:Eh; [|done]. simplify_eq/=.
  pose proof (get_u16_range _ _ _ Hb El). pose proof (get_u16_range _ _ _ Hb Eh).
  apply is_u32_lor; [auto with cint|].
  rewrite Z.shiftl_mul_pow2 by lia. cbv [is_u16 is_u32] in *. lia.
Qed.

Section preservation.
Context {C : Type} {CI : CardInfo C} {AK : AtomKernel C} {OK : CardInfoOk C}.
Context (fr : list Z * Z * Z * list Z * Z * nat * nat).
Notation AM := (M (atom_state C)).

(** The invariant: well-formed, with the given frame. *)
Definition inv (s : atom_state C) : Prop := wf_state s /\ frame s = fr.

Lemma inv_ctx s : inv s -> wf_ctx (st_ctx s).
Proof. by intros [[? ? ?] _]. Qed.
Lemma inv_ectx s : inv s -> wf_ectx (st_ectx s).
Proof. by intros [[? ? ?] _]. Qed.
Lemma inv_ps s : inv s -> Forall is_u32 (st_ps s).
Proof. by intros [[? ? ?] _]. Qed.

Lemma U8_keeps ptr : keeps inv (U8 ptr) is_u8.
Proof.
  intros s Hs. destruct (U8 ptr s) as [[v s']| |] eqn:E; [|done|done].
  apply U8_Ok in E as [E ->]. split; [done|].
  eapply get_u8_range; [|exact E]. apply wf_bios. by apply inv_ctx.
Qed.
Lemma U16_keeps ptr : keeps inv (U16 ptr) is_u16.
Proof.
  intros s Hs. destruct (U16 ptr s) as [[v s']| |] eqn:E; [|done|done].
  apply U16_Ok in E as [E ->]. split; [done|].
  eapply get_u16_range; [|exact E]. apply wf_bios. by apply inv_ctx.
Qed.
Lemma U32_keeps ptr : keeps inv (U32 ptr) is_u32.
Proof.
  intros s Hs. destruct (U32 ptr s) as [[v s']| |] eqn:E; [|done|done].
  apply U32_Ok in E as [E ->]. split; [done|].
  eapply get_u32_range; [|exact E]. apply wf_bios. by apply inv_ctx.
Qed.

Lemma shl32_keeps x n : keeps inv (shl32 x n) is_u32.
Proof.
  unfold shl32. apply keeps_if; intros _; [|apply keeps_fault].
  apply keeps_ret. auto with cint.
Qed.
Lemma shr32_keeps x n : is_u32 x -> keeps inv (shr32 x n) is_u32.
Proof.
  intros Hx. unfold shr32. apply keeps_if; intros Hb; [|apply keeps_fault].
  apply keeps_ret. apply is_u32_shiftr; [done|]. lia.
Qed.

Lemma ctx_get_keeps {A} (f : atom_context -> A) (P : A -> Prop) :
  (forall c, wf_ctx c -> P (f c)) -> keeps inv (ctx_get f) P.
Proof. intros H. apply keeps_gets. intros s Hs. apply H. by apply inv_ctx. Qed.
Lemma ectx_get_keeps {A} (f : atom_exec_context -> A) (P : A -> Prop) :
  (forall e, wf_ectx e -> P (f e)) -> keeps inv (ectx_get f) P.
Proof. intros H. apply keeps_gets. intros s Hs. apply H. by apply inv_ectx. Qed.

(** A context update is allowed when it keeps the field types and the frame. *)
Lemma with_ctx_keeps (f : atom_context -> atom_context) :
  (forall c, wf_ctx c -> wf_ctx (f c) /\
     (bios (f c), cmd_table (f c), data_table (f c), iio (f c), scratch_size_bytes (f c),
      length (scratch (f c))) =
     (bios c, cmd_table c, data_table c, iio c, scratch_size_bytes c, length (scratch c))) ->
  keeps inv (with_ctx f) (fun _ => True).
Proof.
  intros H. apply keeps_modify. intros s [[Hc He Hp] Hf].
  destruct (H _ Hc) as [Hc' Hfr]. split; [by split|].
  rewrite <- Hf. unfold frame. cbn.
  injection Hfr as -> -> -> -> -> ->. done.
Qed.

Lemma with_ectx_keeps (f : atom_exec_context -> atom_exec_context) :
  (forall e, wf_ectx e -> wf_ectx (f e)) -> keeps inv (with_ectx f) (fun _ => True).
Proof.
  intros H. apply keeps_modify. intros s [[Hc He Hp] Hf]. split; [split; cbn; auto|done].
Qed.

Lemma with_depth_keeps f : keeps inv (with_depth f) (fun _ => True).
Proof. apply keeps_modify. intros s [[Hc He Hp] Hf]. by split. Qed.

Lemma card_read_keeps {A} (f : C -> A * C) (P : A -> Prop) :
  (forall c, P (fst (f c))) -> keeps inv (card_read f) P.
Proof.
  intros H s [[Hc He Hp] Hf]. unfold card_read. specialize (H (st_card s)).
  destruct (f (st_card s)) as [v c]. by split; [split|].
Qed.
Lemma card_do_keeps f : keeps inv (card_do f) (fun _ => True).
Proof. apply keeps_modify. intros s [[Hc He Hp] Hf]. by split. Qed.

#[local] Hint Resolve U8_keeps U16_keeps U32_keeps shl32_keeps shr32_keeps
  with_depth_keeps card_do_keeps : triple.
#[local] Hint Resolve wf_data_block wf_fb_base wf_divmul0 wf_divmul1 wf_io_attr
  wf_reg_block wf_shift wf_io_mode wf_iio wf_scratch wf_ws wf_start : cint.

(** One structural step of a preservation proof.  Values of pair type are
    split; conditionals are split. *)
Ltac keep_step :=
  match goal with
  | |- keeps _ (mbind _ _) _ => eapply keeps_bind
  | |- keeps _ (mret _) _ => apply keeps_ret
  | |- keeps _ (if _ then _ else _) _ => apply keeps_if; intros ?
  | |- keeps _ (match ?p with (_, _) => _ end) _ => destruct p
  | |- keeps _ (match ?p with Some _ => _ | None => _ end) _ => destruct p
  | |- keeps _ (deref _) _ => apply keeps_deref; intros ? ?
  | |- forall _, _ => intros ?
  | |- True => exact I
  | |- _ => solve [eauto 4 with triple cint]
  end.

Lemma iio_ones_keeps w : keeps inv (iio_ones w) is_u32.
Proof. apply shr32_keeps. cint. Qed.
#[local] Hint Resolve iio_ones_keeps : triple.

Lemma iio_clear_keeps t w p : is_u32 t -> keeps inv (iio_clear t w p) is_u32.
Proof. intros Ht. unfold iio_clear. repeat keep_step. Qed.
#[local] Hint Resolve iio_clear_keeps : triple.

Lemma iio_move_keeps src t w f p :
  is_u32 src -> is_u32 t -> keeps inv (iio_move src t w f p) is_u32.
Proof. intros Hs Ht. unfold iio_move. repeat keep_step. Qed.
#[local] Hint Resolve iio_move_keeps : triple.

Lemma atom_iio_loop_keeps fuel base index data temp :
  is_u32 index -> is_u32 data -> is_u32 temp ->
  keeps inv (atom_iio_loop fuel base index data temp) is_u32.
Proof.
  intros Hi Hd. revert base temp. induction fuel as [|fuel IH]; intros base temp Ht;
    cbn [atom_iio_loop]; [apply keeps_nofuel|].
  repeat first
    [ keep_step
    | apply card_read_keeps, ioreg_read_u32
    | apply ctx_get_keeps; intros ? ?
    | apply IH ].
  all: first [done | eauto with cint | cint].
Qed.
#[local] Hint Resolve atom_iio_loop_keeps : triple.

Lemma atom_iio_execute_keeps base index data :
  is_u32 index -> is_u32 data -> keeps inv (atom_iio_execute base index data) is_u32.
Proof.
  intros Hi Hd. unfold atom_iio_execute. eapply keeps_bind.
  - apply (ctx_get_keeps _ (fun _ => True)). done.
  - intros b _. apply atom_iio_loop_keeps; [done|done|]. cbv; split; congruence.
Qed.
#[local] Hint Resolve atom_iio_execute_keeps : triple.

(** A fetched operand is a 32-bit value. *)
Definition fetched_u32 (f : fetched) : Prop :=
  match f with Return v | Value v => is_u32 v end.

Lemma is_u32_0 : is_u32 0.
Proof. cint. Qed.
#[local] Hint Resolve is_u32_0 : cint.

Lemma fetch_reg_keeps idx : is_u32 idx -> keeps inv (fetch_reg idx) fetched_u32.
Proof.
  intros Hidx. unfold fetch_reg. eapply keeps_bind;
    [apply (ctx_get_keeps _ (fun _ => True)); done|intros mode _].
  repeat first
    [ keep_step
    | apply card_read_keeps, reg_read_u32
    | apply (ctx_get_keeps iio (Forall is_u16)); eauto with cint ].
  all: first [done | cbn; eauto with cint].
Qed.

Lemma fetch_ws_keeps idx : keeps inv (fetch_ws idx) is_u32.
Proof.
  unfold fetch_ws.
  repeat first
    [ keep_step
    | apply (ctx_get_keeps shift is_u8); solve [eauto with cint]
    | apply ctx_get_keeps; intros ? ?
    | apply (ectx_get_keeps ws (Forall is_u32)); eauto with cint ].
  all: try solve [eauto with cint].
  all: eapply elem_Forall; eauto.
Qed.

Lemma fetch_fb_keeps idx : keeps inv (fetch_fb idx) is_u32.
Proof.
  unfold fetch_fb.
  eapply keeps_bind; [apply (ctx_get_keeps _ (fun _ => True)); done|intros b _].
  apply keeps_if; intros _; [apply keeps_ret; auto with cint|].
  eapply keeps_bind; [apply (ctx_get_keeps _ (fun _ => True)); done|intros i _].
  eapply keeps_bind; [apply (ctx_get_keeps _ (Forall is_u32)); eauto with cint|].
  intros l Hl. apply keeps_deref. intros v Hv. by eapply elem_Forall.
Qed.

Lemma fetch_imm_keeps align ptr : keeps inv (fetch_imm align ptr) (fun p => is_u32 (fst p)).
Proof. unfold fetch_imm. repeat keep_step; cbn; eauto with cint. Qed.
#[local] Hint Resolve fetch_reg_keeps fetch_ws_keeps fetch_fb_keeps fetch_imm_keeps : triple.

Lemma atom_fetch_keeps arg align ptr :
  keeps inv (atom_fetch arg align ptr) (fun p => fetched_u32 (fst p)).
Proof.
  unfold atom_fetch.
  repeat first
    [ keep_step
    | apply card_read_keeps, pll_read_u32
    | apply card_read_keeps, mc_read_u32
    | apply (ctx_get_keeps _ is_u16); solve [eauto with cint]
    | apply (ectx_get_keeps _ (fun _ => True)); done
    | apply (keeps_gets _ st_ps (Forall is_u32)); apply inv_ps ].
  all: cbn in *; eauto with cint.
  by eapply elem_Forall.
Qed.

Lemma atom_get_src_int_keeps attr ptr :
  keeps inv (atom_get_src_int attr ptr)
    (fun '(v, sv, _) => is_u32 v /\ forall x, sv = Some x -> is_u32 x).
Proof.
  unfold atom_get_src_int. eapply keeps_bind; [apply atom_fetch_keeps|].
  intros [[v|v] p] Hv; cbn in *; apply keeps_ret; split; try done.
  - apply extract_u32; [apply land7_align|done].
  - by intros x [= <-].
Qed.


(** Updates of one scalar field of a context. *)
Ltac wf_update :=
  first
  [ apply with_ctx_keeps; intros ? []; split; [constructor; cbn; eauto with cint|done]
  | apply with_ectx_keeps; intros ? []; constructor; cbn; eauto with cint ].

Lemma atom_get_src_keeps attr ptr :
  keeps inv (atom_get_src attr ptr) (fun p => is_u32 (fst p)).
Proof.
  unfold atom_get_src. eapply keeps_bind; [apply atom_get_src_int_keeps|].
  intros [[v sv] p] [Hv _]. by apply keeps_ret.
Qed.
Lemma atom_get_src_direct_keeps align ptr :
  keeps inv (atom_get_src_direct align ptr) (fun p => is_u32 (fst p)).
Proof. exact (fetch_imm_keeps align ptr). Qed.

Lemma saved_u32 sv : (forall x, sv = Some x -> is_u32 x) -> is_u32 (saved_or_undef sv).
Proof. destruct sv; cbn; [auto|]. intros _. apply undef_u32. Qed.

Lemma atom_get_dst_keeps arg attr ptr :
  keeps inv (atom_get_dst arg attr ptr)
    (fun '(v, sv, _) => is_u32 v /\ is_u32 (saved_or_undef sv) ).
Proof.
  eapply keeps_weaken; [apply atom_get_src_int_keeps|].
  intros [[v sv] p] [Hv Hsv]. split; [done|]. by apply saved_u32.
Qed.

Lemma store_reg_keeps idx v : is_u32 idx -> is_u32 v -> keeps inv (store_reg idx v) (fun _ => True).
Proof.
  intros Hi Hv. unfold store_reg.
  eapply keeps_bind; [apply (ctx_get_keeps _ (fun _ => True)); done|intros mode _].
  repeat first
    [ keep_step
    | apply (ctx_get_keeps iio (fun _ => True)); done ].
Qed.

Lemma store_ps_keeps idx v : is_u32 v -> keeps inv (store_ps idx v) (fun _ => True).
Proof.
  intros Hv s Hs. unfold store_ps, ectx_get, with_ps, mbind, M_bind, gets, modify, deref.
  destruct (update (st_ps s) (ps (st_ectx s) + idx) v) as [l|] eqn:E; [|done]. cbn.
  destruct Hs as [[Hc He Hp] Hf]. split; [|done]. split.
  - split; cbn; [done|done|]. by eapply update_Forall.
  - rewrite <- Hf. unfold frame. cbn. by rewrite (update_length _ _ _ _ E).
Qed.

Lemma store_ws_keeps idx v : is_u32 v -> keeps inv (store_ws idx v) (fun _ => True).
Proof.
  intros Hv. unfold store_ws.
  repeat (apply keeps_if; intros _; [first [by apply keeps_ret | wf_update]|]).
  eapply keeps_bind; [apply (ectx_get_keeps ws (Forall is_u32)); eauto with cint|].
  intros w Hw. eapply keeps_bind; [apply (keeps_deref _ _ (Forall is_u32)); intros w' Hw'|].
  - by eapply update_Forall.
  - intros w' Hw'. wf_update.
Qed.

Lemma store_fb_keeps idx v : is_u32 v -> keeps inv (store_fb idx v) (fun _ => True).
Proof.
  intros Hv s Hs. unfold store_fb, ctx_get, with_ctx, mbind, M_bind, gets, modify, deref.
  destruct (fb_beyond (st_ctx s) idx); cbn; [done|].
  destruct (update (scratch (st_ctx s)) _ v) as [l|] eqn:E; [|done]. cbn.
  destruct Hs as [[[] He Hp] Hf]. split; [|done]. split.
  - split; cbn; [|done|done]. constructor; cbn; try done. by eapply update_Forall; [..|exact E].
  - rewrite <- Hf. unfold frame. cbn. by rewrite (update_length _ _ _ _ E).
Qed.
#[local] Hint Resolve store_reg_keeps store_ps_keeps store_ws_keeps store_fb_keeps : triple.

Lemma atom_put_dst_keeps arg attr ptr val saved :
  is_u32 saved -> keeps inv (atom_put_dst arg attr ptr val saved) (fun _ => True).
Proof.
  intros Hs. unfold atom_put_dst.
  pose proof (merge_u32 _ val saved (dst_align_range attr) Hs) as Hm.
  repeat first
    [ keep_step
    | apply (ctx_get_keeps reg_block is_u16); solve [eauto with cint] ].
Qed.
#[local] Hint Resolve atom_put_dst_keeps : triple.

(** The invariant of a handler: it preserves [inv]. *)
Notation op_keeps m := (keeps inv m (fun _ => True)).

(** Splits on the operand fetches a handler starts with. *)
Ltac op_step :=
  first
  [ match goal with
    | |- keeps _ (mbind _ (atom_get_dst _ _ _)) _ =>
        eapply keeps_bind; [apply atom_get_dst_keeps | intros [[? ?] ?] [? ?]]
    | |- keeps _ (mbind _ (atom_get_src _ _)) _ =>
        eapply keeps_bind; [apply atom_get_src_keeps | intros [? ?] ?; cbn [fst] in *]
    | |- keeps _ (mbind _ (atom_get_src_direct _ _)) _ =>
        eapply keeps_bind; [apply atom_get_src_direct_keeps | intros [? ?] ?; cbn [fst] in *]
    end
  | keep_step ].

Lemma atom_rmw_keeps f arg ptr : op_keeps (atom_rmw f arg ptr).
Proof. unfold atom_rmw. repeat op_step. Qed.

Lemma atom_op_calltable_keeps call arg ptr :
  (forall i p, 0 <= p -> op_keeps (call i p)) -> op_keeps (atom_op_calltable call arg ptr).
Proof.
  intros Hcall. unfold atom_op_calltable.
  eapply keeps_bind; [apply U8_keeps|intros idx _].
  eapply keeps_bind; [apply (ctx_get_keeps _ (fun _ => True)); done|intros cmd _].
  eapply keeps_bind; [apply U16_keeps|intros e _].
  eapply (keeps_bind _ _ _ (fun _ => True)).
  - apply keeps_if; intros _; [by apply keeps_ret|].
    eapply keeps_bind; [apply (ectx_get_keeps ps (fun p => 0 <= p)); by intros e0 []|intros p Hp].
    eapply keeps_bind;
      [apply (ectx_get_keeps ps_shift (fun p => 0 <= p < 32)); by intros e0 []|intros sh Hsh].
    apply Hcall. cbn in Hp, Hsh. lia.
  - intros r _. eapply (keeps_bind _ _ _ (fun _ => True)); [|intros; by apply keeps_ret].
    apply keeps_if; intros _; [by apply keeps_ret|wf_update].
Qed.

Lemma atom_op_clear_keeps arg ptr : op_keeps (atom_op_clear arg ptr).
Proof. unfold atom_op_clear. repeat op_step. Qed.

Lemma atom_two_sources_keeps arg ptr :
  keeps inv (atom_two_sources arg ptr) (fun '(d, s, _) => is_u32 d /\ is_u32 s).
Proof. unfold atom_two_sources. repeat op_step. Qed.

(** Starts a handler that fetches two sources. *)
Ltac two_sources :=
  eapply keeps_bind; [apply atom_two_sources_keeps | intros [[? ?] ?] [? ?]].

Lemma atom_op_compare_keeps arg ptr : op_keeps (atom_op_compare arg ptr).
Proof. unfold atom_op_compare. two_sources. repeat first [keep_step | wf_update]. Qed.

Lemma atom_op_test_keeps arg ptr : op_keeps (atom_op_test arg ptr).
Proof. unfold atom_op_test. two_sources. repeat first [keep_step | wf_update]. Qed.

Lemma atom_op_delay_keeps arg ptr : op_keeps (atom_op_delay arg ptr).
Proof.
  unfold atom_op_delay.
  repeat first [keep_step | apply (keeps_gets _ st_card (fun _ => True)); done].
Qed.

Lemma div_u32 a b : is_u32 a -> is_u32 b -> (b =? 0) = false -> is_u32 (a / b).
Proof.
  intros Ha Hb Hz. apply Z.eqb_neq in Hz. unfold is_u32 in *. split.
  - apply Z.div_pos; lia.
  - apply Z.le_lt_trans with a; [|lia]. apply Z.div_le_upper_bound; nia.
Qed.
Lemma mod_u32 a b : is_u32 a -> is_u32 b -> (b =? 0) = false -> is_u32 (a mod b).
Proof.
  intros Ha Hb Hz. apply Z.eqb_neq in Hz. unfold is_u32 in *.
  pose proof (Z.mod_pos_bound a b). lia.
Qed.
#[local] Hint Resolve div_u32 mod_u32 : cint.

Lemma atom_op_div_keeps arg ptr : op_keeps (atom_op_div arg ptr).
Proof. unfold atom_op_div. two_sources. repeat first [keep_step | wf_update]. Qed.

Lemma atom_op_div32_keeps arg ptr : op_keeps (atom_op_div32 arg ptr).
Proof.
  unfold atom_op_div32, lower_32_bits, upper_32_bits. two_sources.
  repeat first
    [ keep_step | wf_update | apply (ctx_get_keeps divmul1 (fun _ => True)); done ].
Qed.

Lemma atom_op_mul_keeps arg ptr : op_keeps (atom_op_mul arg ptr).
Proof. unfold atom_op_mul. two_sources. repeat first [keep_step | wf_update]. Qed.
Lemma atom_op_mul32_keeps arg ptr : op_keeps (atom_op_mul32 arg ptr).
Proof.
  unfold atom_op_mul32, lower_32_bits, upper_32_bits. two_sources.
  repeat first [keep_step | wf_update].
Qed.

Lemma jump_watchdog_keeps dest : 0 <= dest < 131072 -> op_keeps (jump_watchdog dest).
Proof.
  intros Hd. unfold jump_watchdog.
  repeat first
    [ keep_step
    | apply (ectx_get_keeps last_jump (fun _ => True)); done
    | apply (ectx_get_keeps last_jump_jiffies (fun _ => True)); done
    | apply card_read_keeps, jiffies_u64
    | wf_update ].
Qed.

Lemma atom_op_jump_keeps arg ptr : op_keeps (atom_op_jump arg ptr).
Proof.
  unfold atom_op_jump.
  eapply keeps_bind; [apply U16_keeps|intros target Ht].
  eapply keeps_bind; [apply (ctx_get_keeps _ (fun _ => True)); done|intros eq _].
  eapply keeps_bind; [apply (ctx_get_keeps _ (fun _ => True)); done|intros ab _].
  apply keeps_if; intros _; [|by apply keeps_ret].
  eapply keeps_bind; [apply (ectx_get_keeps start is_u16); eauto with cint|intros st Hst].
  eapply keeps_bind; [apply jump_watchdog_keeps; cint|intros; by apply keeps_ret].
Qed.

Lemma atom_op_mask_keeps arg ptr : op_keeps (atom_op_mask arg ptr).
Proof. unfold atom_op_mask. repeat op_step. Qed.

Lemma atom_op_move_keeps arg ptr : op_keeps (atom_op_move arg ptr).
Proof.
  unfold atom_op_move. eapply keeps_bind; [apply U8_keeps|intros attr _].
  eapply (keeps_bind _ _ _ (fun p => is_u32 (fst p))).
  - apply keeps_if; intros _.
    + apply keeps_ret. cbv; split; congruence.
    + repeat op_step.
  - intros [sv p] Hsv. cbn [fst] in Hsv. repeat op_step.
Qed.

Lemma atom_op_setdatablock_keeps arg ptr : op_keeps (atom_op_setdatablock arg ptr).
Proof.
  unfold atom_op_setdatablock.
  repeat first
    [ keep_step
    | apply (ectx_get_keeps start is_u16); solve [eauto with cint]
    | apply (ctx_get_keeps data_table (fun _ => True)); done
    | wf_update ].
  cint.
Qed.

Lemma atom_op_setfbbase_keeps arg ptr : op_keeps (atom_op_setfbbase arg ptr).
Proof. unfold atom_op_setfbbase. repeat first [op_step | wf_update]. Qed.

Lemma iio_mode_u16 port : is_u16 port -> is_u16 (Z.lor ATOM_IO_IIO port).
Proof. intros Hp. apply (lor_bound 16); [lia|cbv; split; congruence|done]. Qed.

Lemma atom_op_setport_keeps arg ptr : op_keeps (atom_op_setport arg ptr).
Proof.
  unfold atom_op_setport.
  repeat first [keep_step | wf_update].
  all: try (cbv; split; congruence).
  case_match; [cbv; split; congruence|by apply iio_mode_u16].
Qed.

Lemma atom_op_setregblock_keeps arg ptr : op_keeps (atom_op_setregblock arg ptr).
Proof. unfold atom_op_setregblock. repeat first [keep_step | wf_update]. Qed.

Lemma atom_shift_imm_keeps sh arg ptr :
  (forall x n, is_u32 x -> keeps inv (sh x n) is_u32) -> op_keeps (atom_shift_imm sh arg ptr).
Proof. intros Hsh. unfold atom_shift_imm. repeat op_step. Qed.

Lemma atom_shift_src_keeps sh arg ptr :
  (forall x n, is_u32 x -> keeps inv (sh x n) is_u32) -> op_keeps (atom_shift_src sh arg ptr).
Proof. intros Hsh. unfold atom_shift_src. repeat op_step. Qed.

Lemma atom_switch_loop_keeps fuel attr src ptr : op_keeps (atom_switch_loop fuel attr src ptr).
Proof.
  revert ptr. induction fuel as [|fuel IH]; intros ptr; cbn [atom_switch_loop];
    [apply keeps_nofuel|].
  repeat first
    [ op_step | apply (ectx_get_keeps start (fun _ => True)); done | apply IH ].
Qed.

Lemma atom_op_switch_keeps arg ptr : op_keeps (atom_op_switch arg ptr).
Proof.
  unfold atom_op_switch.
  repeat first
    [ op_step | apply (ctx_get_keeps bios (fun _ => True)); done
    | apply atom_switch_loop_keeps ].
Qed.

(** Every handler of the dispatch table preserves the invariant, provided
    nested tables do. *)
Lemma atom_func_sem_keeps call f arg ptr :
  (forall i p, 0 <= p -> op_keeps (call i p)) -> op_keeps (atom_func_sem call f arg ptr).
Proof.
  intros Hcall. destruct f; cbn [atom_func_sem].
  - apply atom_op_move_keeps.
  - apply atom_rmw_keeps.
  - apply atom_rmw_keeps.
  - apply atom_shift_imm_keeps. intros. apply shl32_keeps.
  - apply atom_shift_imm_keeps. apply shr32_keeps.
  - apply atom_op_mul_keeps.
  - apply atom_op_div_keeps.
  - apply atom_rmw_keeps.
  - apply atom_rmw_keeps.
  - apply atom_op_setport_keeps.
  - apply atom_op_setregblock_keeps.
  - apply atom_op_setfbbase_keeps.
  - apply atom_op_compare_keeps.
  - apply atom_op_switch_keeps.
  - apply atom_op_jump_keeps.
  - apply atom_op_test_keeps.
  - apply atom_op_delay_keeps.
  - by apply atom_op_calltable_keeps.
  - by apply keeps_ret.
  - apply atom_op_clear_keeps.
  - by apply keeps_ret.
  - by apply keeps_ret.
  - apply atom_op_mask_keeps.
  - unfold atom_op_postcard. repeat keep_step.
  - by apply keeps_ret.
  - by apply keeps_ret.
  - by apply keeps_ret.
  - apply atom_op_setdatablock_keeps.
  - apply atom_rmw_keeps.
  - apply atom_shift_src_keeps. intros. apply shl32_keeps.
  - apply atom_shift_src_keeps. apply shr32_keeps.
  - unfold atom_op_debug. repeat keep_step.
  - unfold atom_op_processds. repeat keep_step.
  - apply atom_op_mul32_keeps.
  - apply atom_op_div32_keeps.
Qed.

Lemma atom_enter_keeps base params :
  is_u16 base -> 0 <= params -> op_keeps (atom_enter base params).
Proof.
  intros Hb Hp. unfold atom_enter.
  eapply keeps_bind; [apply U16_keeps|intros len _].
  eapply keeps_bind; [apply U8_keeps|intros n _].
  eapply keeps_bind; [apply U8_keeps|intros psb _].
  eapply (keeps_bind _ _ _ (Forall is_u32)).
  - unfold alloc_ws. apply keeps_if; intros _; [by apply keeps_ret|].
    eapply keeps_bind; [by apply (card_read_keeps _ (fun _ => True))|].
    intros ok _. apply keeps_ret. destruct ok; [|done].
    apply Forall_replicate. auto with cint.
  - intros w Hw. eapply keeps_bind; [|intros; by apply keeps_ret].
    apply with_ectx_keeps. intros e He. constructor; cbn; try done.
    + change ATOM_CT_PS_MASK with (Z.ones 7). rewrite Z.land_ones by lia.
      pose proof (Z.mod_pos_bound psb (2 ^ 7)). split;
        [apply Z.div_pos|apply Z.div_lt_upper_bound]; lia.
    + pose proof undef_u32. cint.
Qed.

Lemma execute_table_with_keeps loop index params :
  (forall ptr, op_keeps (loop ptr)) -> 0 <= params ->
  op_keeps (execute_table_with loop index params).
Proof.
  intros Hloop Hp. unfold execute_table_with.
  eapply keeps_bind; [apply (ctx_get_keeps _ (fun _ => True)); done|intros cmd _].
  eapply keeps_bind; [apply U16_keeps|intros base Hb].
  apply keeps_if; intros _; [by apply keeps_ret|].
  eapply keeps_bind; [apply (keeps_gets _ st_ectx wf_ectx); apply inv_ectx|intros caller Hc].
  eapply keeps_bind; [by apply atom_enter_keeps|intros ptr _].
  eapply keeps_bind; [apply with_depth_keeps|intros ? _].
  eapply keeps_bind; [apply Hloop|intros r _].
  eapply keeps_bind; [by apply with_ectx_keeps|intros; by apply keeps_ret].
Qed.

Lemma atom_loop_keeps fuel ptr : op_keeps (atom_loop fuel ptr).
Proof.
  revert ptr. induction fuel as [|fuel IH]; intros ptr; cbn [atom_loop]; [apply keeps_nofuel|].
  eapply keeps_bind; [apply U8_keeps|intros op _].
  eapply keeps_bind; [apply (ectx_get_keeps _ (fun _ => True)); done|intros ab _].
  apply keeps_if; intros _; [by apply keeps_ret|].
  apply keeps_if; intros _.
  - eapply (keeps_bind _ _ _ (fun _ => True)).
    + unfold atom_dispatch. eapply keeps_bind;
        [apply (keeps_deref _ _ (fun _ => True)); done|intros [[f|] arg] _; [|apply keeps_fault]].
      apply atom_func_sem_keeps. intros i p Hp. by apply execute_table_with_keeps.
    + intros p _. apply keeps_if; intros _; [|apply IH].
      eapply keeps_bind; [apply with_depth_keeps|intros; by apply keeps_ret].
  - eapply keeps_bind; [apply with_depth_keeps|intros; by apply keeps_ret].
Qed.

(** Executing a command table keeps every field of the interpreter's state
    within its C type, and never changes the BIOS image, the table pointers, the
    indirect-IO index or the extent of the scratch and parameter areas, for every
    table and any number of steps. *)
Theorem execute_table_preserves fuel index params s r s' :
  inv s -> 0 <= params ->
  amdgpu_atom_execute_table fuel index params s = Ok (r, s') -> inv s'.
Proof.
  intros Hs Hp H.
  assert (op_keeps (amdgpu_atom_execute_table fuel index params)) as Hk.
  { unfold amdgpu_atom_execute_table, amdgpu_atom_execute_table_locked.
    eapply keeps_bind; [|intros ? _].
    - apply with_ctx_keeps. intros c []. split; [|done].
      constructor; cbn; try done; cint.
    - apply execute_table_with_keeps; [|done]. intros ptr. apply atom_loop_keeps. }
  specialize (Hk s Hs). rewrite H in Hk. apply Hk.
Qed.
End preservation.
