(* ===== verification/AtomTotal.v ===== *)
(** * AtomBIOS interpreter: every instruction terminates, fuel is irrelevant

    The loops inside an instruction (indirect-IO programs, case lists, the
    index scan) only move forward through the image, so they finish: the fuel
    of [atom_loop] is the only bound a run can exceed.  A result obtained with
    some fuel is the result for every larger amount. *)

From stdpp Require Import base numbers list.
From S2P Require Import Prelude CMonad AtomState AtomOperand AtomOps AtomExec AtomFields.

Section total.
Context {C : Type} {CI : CardInfo C} {AK : AtomKernel C}.
Context (image : list Z).
Notation AM := (M (atom_state C)).
Implicit Types s : atom_state C.

(** The states that hold the given image. *)
Definition has_image s : Prop := bios (st_ctx s) = image.

Lemma with_ctx_total f :
  (forall c, bios (f c) = bios c) -> total has_image (with_ctx (C := C) f).
Proof. intros H. apply total_modify. intros s Hs. unfold has_image. cbn. by rewrite H. Qed.
Lemma with_ectx_total f : total has_image (with_ectx (C := C) f).
Proof. by apply total_modify. Qed.
Lemma with_ps_total f : total has_image (with_ps (C := C) f).
Proof. by apply total_modify. Qed.
Lemma card_do_total f : total has_image (card_do (C := C) f).
Proof. by apply total_modify. Qed.
Lemma card_read_total {A} (f : C -> A * C) : total has_image (card_read f).
Proof. intros s Hs. unfold card_read. by destruct (f (st_card s)). Qed.
Lemma ctx_get_total {A} (f : atom_context -> A) : total has_image (ctx_get (C := C) f).
Proof. apply total_gets. Qed.
Lemma ectx_get_total {A} (f : atom_exec_context -> A) : total has_image (ectx_get (C := C) f).
Proof. apply total_gets. Qed.
Lemma U8_total ptr : total has_image (U8 (C := C) ptr).
Proof. apply total_bind; [apply ctx_get_total|intros; apply total_deref]. Qed.
Lemma U16_total ptr : total has_image (U16 (C := C) ptr).
Proof. apply total_bind; [apply ctx_get_total|intros; apply total_deref]. Qed.
Lemma U32_total ptr : total has_image (U32 (C := C) ptr).
Proof. apply total_bind; [apply ctx_get_total|intros; apply total_deref]. Qed.
Lemma shl32_total x n : total has_image (shl32 (C := C) x n).
Proof. apply total_if; auto with total. Qed.
Lemma shr32_total x n : total has_image (shr32 (C := C) x n).
Proof. apply total_if; auto with total. Qed.

Hint Resolve with_ectx_total with_ps_total card_do_total card_read_total ctx_get_total
  ectx_get_total U8_total U16_total U32_total shl32_total shr32_total : total.

(** One structural step of a totality proof. *)
Ltac total_step :=
  match goal with
  | |- total _ (mbind _ _) => apply total_bind
  | |- total _ (if _ then _ else _) => apply total_if
  | |- total _ (match ?p with (_, _) => _ end) => destruct p
  | |- total _ (match ?p with Some _ => _ | None => _ end) => destruct p
  | |- total _ (match ?p with Return _ => _ | Value _ => _ end) => destruct p
  | |- total _ (with_ctx _) => apply with_ctx_total; done
  | |- forall _, _ => intros ?
  | |- _ => solve [auto with total]
  end.

(** A program counter outside the image faults. *)
Lemma U8_outside base s :
  has_image s -> base < 0 \/ Z.of_nat (length image) <= base -> U8 base s = Fault.
Proof.
  intros Hs Hb. unfold U8, ctx_get, mbind, M_bind, gets. rewrite Hs.
  unfold get_u8, elem. destruct (Z.ltb_spec base 0); [done|].
  by rewrite lookup_ge_None_2 by lia.
Qed.

(** A computation that starts by reading the byte at [base] is total when
    what follows is, for a [base] inside the image. *)
Lemma total_U8_bind {A} base (k : Z -> AM A) :
  (0 <= base < Z.of_nat (length image) -> forall op, total has_image (k op)) ->
  total has_image (U8 base ≫= k).
Proof.
  intros Hk s Hs. unfold mbind, M_bind.
  destruct (decide (0 <= base < Z.of_nat (length image))) as [Hin|Hout].
  - pose proof (U8_total base s Hs) as Ht.
    destruct (U8 base s) as [[op s']| |]; [by apply Hk|done|done].
  - by rewrite U8_outside by (done || lia).
Qed.

(** Enough fuel for a loop that reads at [base] and only moves forward. *)
Definition enough (fuel : nat) (base : Z) : Prop :=
  (0 < fuel)%nat /\ (0 <= base -> Z.of_nat (length image) - base < Z.of_nat fuel).

Lemma enough_all base : enough (S (length image)) base.
Proof. split; lia. Qed.

Lemma enough_step fuel base n :
  enough (S fuel) base -> 0 <= base < Z.of_nat (length image) -> 0 < n ->
  enough fuel (base + n).
Proof. intros [_ H] Hb Hn. split; lia. Qed.

Lemma iio_clear_total t w p : total has_image (iio_clear (C := C) t w p).
Proof. unfold iio_clear, iio_ones. repeat total_step. Qed.
Lemma iio_ones_total w : total has_image (iio_ones (C := C) w).
Proof. apply shr32_total. Qed.
Hint Resolve iio_clear_total iio_ones_total : total.
Lemma iio_move_total src t w f p : total has_image (iio_move (C := C) src t w f p).
Proof. unfold iio_move. repeat total_step. Qed.
Hint Resolve iio_move_total : total.

Lemma atom_iio_loop_total fuel base index data temp :
  enough fuel base -> total has_image (atom_iio_loop fuel base index data temp).
Proof.
  revert base temp. induction fuel as [|fuel IH]; intros base temp Hf;
    [destruct Hf; lia|cbn [atom_iio_loop]].
  apply total_U8_bind. intros Hb op.
  assert (forall n t, 0 < n -> total has_image (atom_iio_loop fuel (base + n) index data t))
    as Hnext by (intros n t Hn; apply IH; by apply enough_step).
  repeat first [total_step | apply Hnext; lia].
Qed.

Lemma atom_iio_execute_total base index data :
  total has_image (atom_iio_execute base index data).
Proof.
  intros s Hs. unfold atom_iio_execute, ctx_get, mbind, M_bind, gets. rewrite Hs.
  apply atom_iio_loop_total; [apply enough_all|done].
Qed.
Hint Resolve atom_iio_execute_total : total.

Lemma fetch_ws_total idx : total has_image (fetch_ws (C := C) idx).
Proof. unfold fetch_ws. repeat total_step. Qed.
Lemma fetch_reg_total idx : total has_image (fetch_reg idx).
Proof. unfold fetch_reg. repeat total_step. Qed.
Lemma fetch_fb_total idx : total has_image (fetch_fb (C := C) idx).
Proof. unfold fetch_fb. repeat total_step. Qed.
Lemma fetch_imm_total align ptr : total has_image (fetch_imm (C := C) align ptr).
Proof. unfold fetch_imm. repeat total_step. Qed.
Hint Resolve fetch_ws_total fetch_reg_total fetch_fb_total fetch_imm_total : total.

Lemma atom_get_src_int_total attr ptr : total has_image (atom_get_src_int attr ptr).
Proof. unfold atom_get_src_int, atom_fetch. repeat total_step. Qed.
Hint Resolve atom_get_src_int_total : total.
Lemma atom_get_src_total attr ptr : total has_image (atom_get_src attr ptr).
Proof. unfold atom_get_src. repeat total_step. Qed.
Lemma atom_get_src_direct_total align ptr : total has_image (atom_get_src_direct (C := C) align ptr).
Proof. apply fetch_imm_total. Qed.
Lemma atom_get_dst_total arg attr ptr : total has_image (atom_get_dst arg attr ptr).
Proof. apply atom_get_src_int_total. Qed.

Lemma store_reg_total idx v : total has_image (store_reg idx v).
Proof. unfold store_reg. repeat total_step. Qed.
Lemma store_ps_total idx v : total has_image (store_ps (C := C) idx v).
Proof. unfold store_ps. repeat total_step. Qed.
Lemma store_ws_total idx v : total has_image (store_ws (C := C) idx v).
Proof. unfold store_ws. repeat total_step. Qed.
Lemma store_fb_total idx v : total has_image (store_fb (C := C) idx v).
Proof. unfold store_fb. repeat total_step. Qed.
Hint Resolve atom_get_src_total atom_get_src_direct_total atom_get_dst_total
  store_reg_total store_ps_total store_ws_total store_fb_total : total.
Lemma atom_put_dst_total arg attr ptr val saved :
  total has_image (atom_put_dst arg attr ptr val saved).
Proof. unfold atom_put_dst. repeat total_step. Qed.
Hint Resolve atom_put_dst_total : total.

Lemma atom_rmw_total f arg ptr : total has_image (atom_rmw f arg ptr).
Proof. unfold atom_rmw. repeat total_step. Qed.
Lemma atom_shift_imm_total sh arg ptr :
  (forall x n, total has_image (sh x n)) -> total has_image (atom_shift_imm sh arg ptr).
Proof. intros H. unfold atom_shift_imm. repeat total_step. Qed.
Lemma atom_shift_src_total sh arg ptr :
  (forall x n, total has_image (sh x n)) -> total has_image (atom_shift_src sh arg ptr).
Proof. intros H. unfold atom_shift_src. repeat total_step. Qed.
Lemma atom_two_sources_total arg ptr : total has_image (atom_two_sources arg ptr).
Proof. unfold atom_two_sources. repeat total_step. Qed.
Hint Resolve atom_rmw_total atom_shift_imm_total atom_shift_src_total
  atom_two_sources_total : total.

(** A case moves the program counter forward. *)
Lemma get_src_imm_forward attr ptr s v ptr' s' :
  atom_get_src attr ptr s = Ok ((v, ptr'), s') -> ptr < ptr'.
Proof.
  unfold atom_get_src, atom_get_src_int. intros H. minv.
  assert (ptr' = atom_skip_src_int attr ptr) as ->
    by (case_match; minv; by eapply atom_fetch_ptr).
  unfold atom_skip_src_int. repeat case_match; lia.
Qed.

Lemma U16_inside ptr s v s' :
  has_image s -> U16 ptr s = Ok (v, s') -> 0 <= ptr < Z.of_nat (length image).
Proof.
  intros Hs H. apply U16_Ok in H as [H _]. rewrite Hs in H. unfold get_u16, get_u8 in H.
  apply elem_is_Some. destruct (elem image ptr); [by eexists|done].
Qed.

Lemma atom_switch_loop_total fuel attr src ptr :
  enough fuel ptr -> total has_image (atom_switch_loop fuel attr src ptr).
Proof.
  revert ptr. induction fuel as [|fuel IH]; intros ptr Hf; [destruct Hf; lia|].
  cbn [atom_switch_loop].
  apply total_bind_run; [auto with total|]. intros s w s' Hs Hw.
  apply (U16_inside _ _ _ _ Hs) in Hw.
  apply total_if; [auto with total|].
  apply total_bind; [auto with total|]. intros m.
  apply total_if; [|auto with total].
  apply total_bind_run; [auto with total|]. intros s1 [v ptr'] s1' Hs1 Hv.
  apply get_src_imm_forward in Hv.
  repeat total_step.
  replace (ptr' + 2) with (ptr + (ptr' + 2 - ptr)) by lia.
  apply IH, enough_step; [done|done|lia].
Qed.

Lemma atom_op_switch_total arg ptr : total has_image (atom_op_switch arg ptr).
Proof.
  unfold atom_op_switch. apply total_bind; [auto with total|]. intros attr.
  apply total_bind; [auto with total|]. intros [src p] s Hs.
  unfold ctx_get, mbind, M_bind, gets. rewrite Hs.
  apply atom_switch_loop_total; [apply enough_all|done].
Qed.

Lemma jump_watchdog_total dest : total has_image (jump_watchdog dest).
Proof. unfold jump_watchdog. repeat total_step. Qed.
Hint Resolve atom_op_switch_total jump_watchdog_total : total.

Lemma atom_op_calltable_total call arg ptr :
  (forall i p, total has_image (call i p)) -> total has_image (atom_op_calltable call arg ptr).
Proof. intros H. unfold atom_op_calltable. repeat total_step. Qed.

Lemma atom_func_sem_total call f arg ptr :
  (forall i p, total has_image (call i p)) -> total has_image (atom_func_sem call f arg ptr).
Proof.
  intros Hcall. pose proof (atom_op_calltable_total call arg ptr Hcall).
  destruct f; cbn [atom_func_sem];
    unfold atom_op_move, atom_op_and, atom_op_or, atom_op_shift_left, atom_op_shift_right,
      atom_op_mul, atom_op_div, atom_op_add, atom_op_sub, atom_op_setport,
      atom_op_setregblock, atom_op_setfbbase, atom_op_compare, atom_op_jump, atom_op_test,
      atom_op_delay, atom_op_repeat, atom_op_clear, atom_op_nop, atom_op_eot, atom_op_mask,
      atom_op_postcard, atom_op_beep, atom_op_savereg, atom_op_restorereg,
      atom_op_setdatablock, atom_op_xor, atom_op_shl, atom_op_shr, atom_op_debug,
      atom_op_processds, atom_op_mul32, atom_op_div32;
    repeat total_step.
Qed.

(** C31: no instruction can hang the interpreter: every opcode handler returns or
    reaches undefined behaviour whatever the bytes of the image are, provided the
    table it may call does; in particular indirect-IO programs and case lists
    terminate. *)
Theorem instruction_terminates call op ptr s :
  (forall i p s, has_image s ->
     match call i p s with Ok (_, s') => has_image s' | Fault => True | NoFuel => False end) ->
  has_image s -> atom_dispatch call op ptr s <> NoFuel.
Proof.
  intros Hcall Hs E.
  assert (total has_image (atom_dispatch call op ptr)) as Ht.
  { unfold atom_dispatch. apply total_bind; [auto with total|].
    intros [[f|] arg]; [by apply atom_func_sem_total|auto with total]. }
  specialize (Ht s Hs). by rewrite E in Ht.
Qed.
End total.

(** ** More fuel gives the same result *)

Section fuel.
Context {C : Type} {CI : CardInfo C} {AK : AtomKernel C}.
Notation AM := (M (atom_state C)).

Lemma atom_op_calltable_le (c1 c2 : Z -> Z -> AM Z) arg ptr :
  (forall i p, M_le (c1 i p) (c2 i p)) ->
  M_le (atom_op_calltable c1 arg ptr) (atom_op_calltable c2 arg ptr).
Proof.
  intros Hc. unfold atom_op_calltable.
  repeat (apply M_le_bind; [reflexivity|intros ?]).
  apply M_le_bind; [|reflexivity].
  case_match; [reflexivity|].
  repeat (apply M_le_bind; [reflexivity|intros ?]). apply Hc.
Qed.

Lemma atom_dispatch_le (c1 c2 : Z -> Z -> AM Z) op ptr :
  (forall i p, M_le (c1 i p) (c2 i p)) ->
  M_le (atom_dispatch c1 op ptr) (atom_dispatch c2 op ptr).
Proof.
  intros Hc. unfold atom_dispatch. apply M_le_bind; [reflexivity|].
  intros [[f|] arg]; [|reflexivity].
  destruct f; first [by apply atom_op_calltable_le | reflexivity].
Qed.

Lemma execute_table_with_le (l1 l2 : Z -> AM Z) index params :
  (forall ptr, M_le (l1 ptr) (l2 ptr)) ->
  M_le (execute_table_with l1 index params) (execute_table_with l2 index params).
Proof.
  intros Hl. unfold execute_table_with.
  do 2 (apply M_le_bind; [reflexivity|intros ?]).
  case_match; [reflexivity|].
  do 3 (apply M_le_bind; [reflexivity|intros ?]).
  apply M_le_bind; [apply Hl|reflexivity].
Qed.

Lemma atom_loop_le n m ptr : (n <= m)%nat -> M_le (atom_loop n ptr) (atom_loop m ptr).
Proof.
  revert m ptr. induction n as [|n IH]; intros m ptr Hnm; [by left|].
  destruct m as [|m]; [lia|]. cbn [atom_loop].
  do 2 (apply M_le_bind; [reflexivity|intros ?]).
  do 2 (case_match; [try reflexivity|try reflexivity]).
  apply M_le_bind.
  - apply atom_dispatch_le. intros i p. apply execute_table_with_le.
    intros q. apply IH. lia.
  - intros p. case_match; [reflexivity|]. apply IH. lia.
Qed.

(** A command table has one outcome: once the interpreter returns a code or
    reaches undefined behaviour with some fuel, every larger amount of fuel gives
    the same outcome and the same final state. *)
Theorem execute_table_deterministic n m index params (s : atom_state C) :
  amdgpu_atom_execute_table n index params s <> NoFuel -> (n <= m)%nat ->
  amdgpu_atom_execute_table m index params s = amdgpu_atom_execute_table n index params s.
Proof.
  intros Hn Hnm.
  assert (M_le (amdgpu_atom_execute_table n index params)
               (amdgpu_atom_execute_table m index params)) as H.
  { apply M_le_bind; [reflexivity|intros ?]. apply execute_table_with_le.
    intros ptr. by apply atom_loop_le. }
  by destruct (H s) as [H'|H'].
Qed.
End fuel.
