(* ===== verification/AtomSemantics.v ===== *)
(** * AtomBIOS interpreter: what instructions compute

    Functional properties of the opcode handlers: comparison and jump,
    wide multiplication and division, case selection, the frame-buffer
    window, and the propagation of failures out of nested tables. *)

From stdpp Require Import base numbers list.
From S2P Require Import Prelude CMonad AtomState RegAccess AtomOperand AtomOps AtomExec.
From S2P Require Import AtomFields AtomWf AtomTotal.

(** ** Encoded case lists *)

Fixpoint le_bytes (n : nat) (v : Z) : list Z :=
  match n with O => [] | S n' => u8 v :: le_bytes n' (Z.shiftr v 8) end.

(** The size of an immediate of the given alignment. *)
Definition imm_size (align : Z) : nat :=
  if align =? ATOM_SRC_DWORD then 4 else if align <=? ATOM_SRC_WORD16 then 2 else 1.

Definition encode_case (align : Z) (c : Z * Z) : list Z :=
  ATOM_CASE_MAGIC :: le_bytes (imm_size align) (fst c) ++ le_bytes 2 (snd c).
Definition encode_cases (align : Z) (cs : list (Z * Z)) : list Z :=
  flat_map (encode_case align) cs ++ le_bytes 2 ATOM_CASE_END.

(** The bytes [bs] stand at [ptr]. *)
Definition bytes_at (b : list Z) (ptr : Z) (bs : list Z) : Prop :=
  forall i x, bs !! i = Some x -> get_u8 b (ptr + Z.of_nat i) = Some x.

Lemma bytes_at_app b ptr l1 l2 :
  bytes_at b ptr (l1 ++ l2) ->
  bytes_at b ptr l1 /\ bytes_at b (ptr + Z.of_nat (length l1)) l2.
Proof.
  intros H. split; intros i x Hx.
  - apply H. by apply lookup_app_l_Some.
  - replace (ptr + Z.of_nat (length l1) + Z.of_nat i)
      with (ptr + Z.of_nat (length l1 + i)) by lia.
    apply H. rewrite lookup_app_r by lia. by replace (length l1 + i - length l1)%nat with i by lia.
Qed.

Lemma bytes_at_cons b ptr x l :
  bytes_at b ptr (x :: l) -> get_u8 b ptr = Some x /\ bytes_at b (ptr + 1) l.
Proof.
  intros H. split.
  - specialize (H O x eq_refl). by rewrite Z.add_0_r in H.
  - intros i y Hy. replace (ptr + 1 + Z.of_nat i) with (ptr + Z.of_nat (S i)) by lia. by apply H.
Qed.

Lemma le_bytes_length n v : length (le_bytes n v) = n.
Proof. revert v. induction n; cbn; auto. Qed.

Lemma bytes_at_u8 b ptr v : bytes_at b ptr (le_bytes 1 v) -> is_u8 v -> get_u8 b ptr = Some v.
Proof.
  intros H Hv. apply bytes_at_cons in H as [-> _]. f_equal. cint.
Qed.

Lemma u16_split v : is_u16 v -> Z.lor (u8 v) (Z.shiftl (u8 (Z.shiftr v 8)) 8) = v.
Proof.
  intros Hv. apply Z.bits_inj'. intros i Hi. autorewrite with zbits.
  destruct (Z.ltb_spec i 8).
  - rewrite (Z.testbit_neg_r _ (i - 8)) by lia. cbn. by rewrite andb_false_r, orb_false_r.
  - destruct (Z.ltb_spec (i - 8) 8); cbn [andb orb].
    + rewrite Z.shiftr_spec by lia. f_equal. lia.
    + symmetry. apply (testbit_high 16); [exact Hv|lia].
Qed.

Lemma bytes_at_u16 b ptr v : bytes_at b ptr (le_bytes 2 v) -> is_u16 v -> get_u16 b ptr = Some v.
Proof.
  intros H Hv. apply bytes_at_cons in H as [H0 H]. apply bytes_at_cons in H as [H1 _].
  unfold get_u16. rewrite H0. cbn. rewrite H1. cbn. f_equal. by apply u16_split.
Qed.

Lemma bytes_at_u32 b ptr v : bytes_at b ptr (le_bytes 4 v) -> is_u32 v -> get_u32 b ptr = Some v.
Proof.
  intros H Hv.
  assert (le_bytes 4 v = le_bytes 2 (u16 v) ++ le_bytes 2 (Z.shiftr v 16)) as Hb.
  { cbn [le_bytes app]. rewrite !Z.shiftr_div_pow2 by lia.
    repeat (apply (f_equal2 (@cons Z));
            [cbv [Z.pow Z.pow_pos Pos.iter Z.mul Pos.mul]; cint|]). done. }
  rewrite Hb in H. apply bytes_at_app in H as [Hl Hh].
  rewrite le_bytes_length in Hh. change (Z.of_nat 2) with 2 in Hh.
  apply bytes_at_u16 in Hl; [|apply u16_range].
  apply bytes_at_u16 in Hh.
  2: { rewrite Z.shiftr_div_pow2 by lia. cbn. cint. }
  unfold get_u32. rewrite Hl. cbn. rewrite Hh. cbn. f_equal.
  apply Z.bits_inj'. intros i Hi. autorewrite with zbits.
  destruct (Z.ltb_spec i 16); cbn [andb orb].
  - rewrite (Z.testbit_neg_r _ (i - 16)) by lia. by rewrite orb_false_r.
  - rewrite Z.shiftr_spec by lia. f_equal. lia.
Qed.

Section semantics.
Context {C : Type} {CI : CardInfo C} {AK : AtomKernel C}.
Implicit Types s : atom_state C.

(** ** Switch *)

(** A case value fits its immediate, a target is a 16-bit offset. *)
Definition case_ok (align : Z) (c : Z * Z) : Prop :=
  0 <= fst c < 2 ^ (8 * Z.of_nat (imm_size align)) /\ is_u16 (snd c).

Lemma get_src_imm attr ptr v s :
  bytes_at (bios (st_ctx s)) ptr (le_bytes (imm_size (src_align attr)) v) ->
  0 <= v < 2 ^ (8 * Z.of_nat (imm_size (src_align attr))) ->
  atom_get_src (Z.lor (Z.land attr 0x38) ATOM_ARG_IMM) ptr s =
    Ok ((v, ptr + Z.of_nat (imm_size (src_align attr))), s).
Proof.
  intros Hb Hv.
  assert (src_arg (Z.lor (Z.land attr 56) 5) = 5) as Harg.
  { unfold src_arg. change 56 with (Z.shiftl (Z.ones 3) 3).
    apply Z.bits_inj'. intros i Hi. autorewrite with zbits.
    change 7 with (Z.ones 3). rewrite (testbit_ones_nonneg 3 i) by lia.
    destruct (Z.ltb_spec i 3).
    - rewrite (Z.testbit_neg_r _ (i - 3)) by lia. by rewrite andb_false_r, andb_true_r.
    - rewrite andb_false_r. symmetry. apply (testbit_high 3); [lia|done]. }
  assert (src_align (Z.lor (Z.land attr 56) 5) = src_align attr) as Hal.
  { unfold src_align. change 56 with (Z.shiftl (Z.ones 3) 3). change 7 with (Z.ones 3).
    apply Z.bits_inj'. intros i Hi. autorewrite with zbits.
    replace (i + 3 - 3) with i by lia.
    rewrite (testbit_high 3 5 (i + 3)) by lia.
    btauto. }
  change (Z.lor (Z.land attr 0x38) ATOM_ARG_IMM) with (Z.lor (Z.land attr 56) 5).
  unfold atom_get_src, atom_get_src_int, atom_fetch. rewrite Harg, Hal.
  revert Hb Hv. generalize (src_align attr). clear. intros a Hb Hv.
  change ATOM_ARG_IMM with 5. unfold fetch_imm, imm_size in *. eqb_const.
  destruct (a =? ATOM_SRC_DWORD); [|destruct (a <=? ATOM_SRC_WORD16)].
  - apply bytes_at_u32 in Hb; [|exact Hv].
    unfold mbind, M_bind. by rewrite (proj2 (U32_Ok ptr s v s) (conj Hb eq_refl)).
  - apply bytes_at_u16 in Hb; [|exact Hv].
    unfold mbind, M_bind. by rewrite (proj2 (U16_Ok ptr s v s) (conj Hb eq_refl)).
  - apply bytes_at_u8 in Hb; [|exact Hv].
    unfold mbind, M_bind. by rewrite (proj2 (U8_Ok ptr s v s) (conj Hb eq_refl)).
Qed.

(** The target a case list selects for [src]. *)
Definition select_case (cs : list (Z * Z)) (src : Z) : option Z :=
  snd <$> List.find (fun c => fst c =? src) cs.

Lemma encode_cases_cons align c cs :
  encode_cases align (c :: cs) =
    ATOM_CASE_MAGIC :: le_bytes (imm_size align) (fst c) ++ le_bytes 2 (snd c)
      ++ encode_cases align cs.
Proof. unfold encode_cases, encode_case. cbn. by rewrite <- !app_assoc. Qed.

(** A case's first bytes are not the end marker. *)
Lemma case_not_end b ptr w :
  get_u8 b ptr = Some ATOM_CASE_MAGIC -> get_u16 b ptr = Some w -> (w =? ATOM_CASE_END) = false.
Proof.
  unfold get_u16. intros -> H. destruct (get_u8 b (ptr + 1)) as [hi|]; [|done].
  cbn in H. simplify_eq. apply Z.eqb_neq. intros E.
  apply (f_equal (fun z => Z.testbit z 0)) in E. revert E.
  rewrite Z.lor_spec, Z.shiftl_spec, (Z.testbit_neg_r hi (0 - 8)) by lia. done.
Qed.

Lemma switch_loop_cases fuel attr src cs ptr s :
  (length cs < fuel)%nat ->
  Forall (case_ok (src_align attr)) cs ->
  bytes_at (bios (st_ctx s)) ptr (encode_cases (src_align attr) cs) ->
  atom_switch_loop fuel attr src ptr s =
    Ok (match select_case cs src with
        | Some target => start (st_ectx s) + target
        | None => ptr + Z.of_nat (length (encode_cases (src_align attr) cs))
        end, s).
Proof.
  revert fuel ptr. induction cs as [|[v t] cs IH]; intros fuel ptr Hf Hok Hb;
    (destruct fuel as [|fuel]; [cbn in Hf; lia|]); cbn [atom_switch_loop].
  - apply bytes_at_u16 in Hb; [|cbv; split; congruence].
    unfold mbind, M_bind. by rewrite (proj2 (U16_Ok ptr s _ s) (conj Hb eq_refl)).
  - apply Forall_cons in Hok as [[Hv Ht] Hok]. cbn [fst snd] in Hv, Ht.
    rewrite encode_cases_cons in *. cbn [fst snd] in *.
    apply bytes_at_cons in Hb as [Hm Hb].
    apply bytes_at_app in Hb as [Himm Hb]. apply bytes_at_app in Hb as [Htgt Hb].
    rewrite !le_bytes_length in *. apply bytes_at_u16 in Htgt; [|done].
    assert (exists w, get_u16 (bios (st_ctx s)) ptr = Some w) as [w Hw].
    { unfold get_u16. rewrite Hm. cbn.
      assert (is_Some (get_u8 (bios (st_ctx s)) (ptr + 1))) as [hi ->]; [|by eexists].
      destruct (imm_size (src_align attr)) eqn:Es.
      - by unfold imm_size in Es; repeat case_match.
      - apply bytes_at_cons in Himm as [-> _]. by eexists. }
    unfold mbind, M_bind. rewrite (proj2 (U16_Ok ptr s w s) (conj Hw eq_refl)).
    rewrite (case_not_end _ _ _ Hm Hw).
    rewrite (proj2 (U8_Ok ptr s _ s) (conj Hm eq_refl)). eqb_const.
    rewrite (get_src_imm attr (ptr + 1) v s Himm Hv).
    rewrite (proj2 (U16_Ok _ s _ s) (conj Htgt eq_refl)).
    unfold select_case. cbn [List.find fst]. destruct (v =? src); [done|].
    change 2 with (Z.of_nat 2) at 1.
    rewrite (IH fuel _ ltac:(cbn in Hf; lia) Hok Hb). unfold select_case.
    do 2 f_equal. destruct (snd <$> List.find _ cs); [done|]. cbn [length]. rewrite !length_app, !le_bytes_length. lia.
Qed.

Lemma encode_cases_length align cs : (length cs < length (encode_cases align cs))%nat.
Proof.
  induction cs as [|c cs IH]; [cbn; lia|].
  rewrite encode_cases_cons. cbn [length]. rewrite !length_app, !le_bytes_length. lia.
Qed.

Lemma bytes_at_length b ptr bs :
  bytes_at b ptr bs -> bs <> [] -> (length bs <= length b)%nat.
Proof.
  intros H Hne.
  assert (0 <= ptr) as Hp.
  { destruct bs as [|x bs]; [done|]. apply bytes_at_cons in H as [H _].
    unfold get_u8 in H. pose proof (proj2 (elem_is_Some b ptr)) as He.
    rewrite H in He. destruct He; [by eexists|lia]. }
  destruct (lookup_lt_is_Some_2 bs (pred (length bs))) as [x Hx].
  { destruct bs; [done|cbn; lia]. }
  apply H in Hx. unfold get_u8 in Hx.
  pose proof (proj2 (elem_is_Some b (ptr + Z.of_nat (pred (length bs))))) as He.
  rewrite Hx in He. destruct He; [by eexists|]. lia.
Qed.

(** A switch on a well-formed case list jumps to the target of the first case
    whose value equals the operand, and continues behind the list when there is
    none, for every immediate width. *)
Theorem switch_selects arg ptr attr src p cs s s' :
  get_u8 (bios (st_ctx s)) ptr = Some attr ->
  atom_get_src attr (ptr + 1) s = Ok ((src, p), s') ->
  Forall (case_ok (src_align attr)) cs ->
  bytes_at (bios (st_ctx s')) p (encode_cases (src_align attr) cs) ->
  atom_op_switch arg ptr s =
    Ok (match select_case cs src with
        | Some target => start (st_ectx s') + target
        | None => p + Z.of_nat (length (encode_cases (src_align attr) cs))
        end, s').
Proof.
  intros Ha Hsrc Hok Hb. unfold atom_op_switch, mbind, M_bind.
  rewrite (proj2 (U8_Ok ptr s attr s) (conj Ha eq_refl)), Hsrc.
  unfold ctx_get, gets. apply switch_loop_cases; [|done|done].
  pose proof (encode_cases_length (src_align attr) cs).
  apply bytes_at_length in Hb; [lia|]. intros E. rewrite E in H. cbn in H. lia.
Qed.

(** ** Comparison and jump *)

(** The relation each jump condition names, on unsigned operands. *)
Definition cond_holds (cond a b : Z) : bool :=
  if cond =? ATOM_COND_ABOVE then b <? a
  else if cond =? ATOM_COND_ABOVEOREQUAL then b <=? a
  else if cond =? ATOM_COND_ALWAYS then true
  else if cond =? ATOM_COND_BELOW then a <? b
  else if cond =? ATOM_COND_BELOWOREQUAL then a <=? b
  else if cond =? ATOM_COND_EQUAL then a =? b
  else if cond =? ATOM_COND_NOTEQUAL then negb (a =? b)
  else false.

Lemma jump_taken_spec cond a b : jump_taken cond (a =? b) (b <? a) = cond_holds cond a b.
Proof. unfold jump_taken, cond_holds. repeat case_match; lia. Qed.

(** A conditional jump behind a comparison is taken exactly when the relation
    its condition names holds between the two compared operands, and then goes to
    the table's start plus the encoded offset; otherwise it falls through. *)
Theorem compare_then_jump arg cond p1 p2 target s a b q s1 q' s2 p' s3 :
  atom_two_sources arg p1 s = Ok ((a, b, q), s1) ->
  atom_op_compare arg p1 s = Ok (q', s2) ->
  get_u16 (bios (st_ctx s2)) p2 = Some target ->
  atom_op_jump cond p2 s2 = Ok (p', s3) ->
  p' = if cond_holds cond a b then start (st_ectx s2) + target else p2 + 2.
Proof.
  intros Hsrc Hcmp Htgt Hjmp.
  assert (cs_equal (st_ctx s2) = (a =? b) /\ cs_above (st_ctx s2) = (b <? a)) as [He Ha].
  { unfold atom_op_compare, with_ctx in Hcmp. apply bind_Ok in Hcmp as (v & s1' & E & Hcmp).
    rewrite Hsrc in E. simplify_eq. minv. done. }
  unfold atom_op_jump, ctx_get, ectx_get in Hjmp. minv.
  apply U16_Ok in E as [E ->]. simplify_eq. rewrite He, Ha, jump_taken_spec in Hjmp.
  destruct (cond_holds cond a b); by minv.
Qed.

(** ** Wide arithmetic *)

Lemma wide_split v : is_u64 v -> upper_32_bits v * 2 ^ 32 + lower_32_bits v = v.
Proof.
  intros Hv. unfold upper_32_bits, lower_32_bits.
  rewrite Z.shiftr_div_pow2 by lia. change (2 ^ 32) with 4294967296. cint.
Qed.

Lemma mul_u64 a b : is_u32 a -> is_u32 b -> is_u64 (a * b).
Proof. unfold is_u32, is_u64. nia. Qed.

Lemma wide_lor lo hi : is_u32 lo -> is_u32 hi -> Z.lor lo (Z.shiftl hi 32) = hi * 2 ^ 32 + lo.
Proof.
  intros Hl Hh. rewrite Z.lor_comm, Z.shiftl_mul_pow2 by lia.
  assert (Z.land (hi * 2 ^ 32) lo = 0) as H0.
  { apply Z.bits_inj'. intros i Hi. rewrite Z.land_spec, Z.testbit_0_l.
    destruct (Z.ltb_spec i 32).
    - by rewrite Z.mul_pow2_bits_low by lia.
    - rewrite (testbit_high 32 lo) by done. by rewrite andb_false_r. }
  by rewrite <- Z.lxor_lor, <- Z.add_nocarry_lxor by done.
Qed.

(** MUL32 leaves the full 64-bit product of its operands in the register pair
    divmul[1]:divmul[0]. *)
Theorem mul32_wide arg ptr s a b q s1 p' s' :
  atom_two_sources arg ptr s = Ok ((a, b, q), s1) -> is_u32 a -> is_u32 b ->
  atom_op_mul32 arg ptr s = Ok (p', s') ->
  p' = q /\ divmul1 (st_ctx s') * 2 ^ 32 + divmul0 (st_ctx s') = a * b.
Proof.
  intros Hsrc Ha Hb H. unfold atom_op_mul32, with_ctx in H.
  rewrite (bind_eval _ _ _ _ _ Hsrc) in H. cbn beta iota zeta in H. minv. cbn.
  pose proof (mul_u64 a b Ha Hb). split; [done|].
  rewrite wide_split by apply u64_range. apply Z.mod_small. done.
Qed.

(** DIV32 divides the 64-bit dividend divmul[1]:operand and leaves the full
    64-bit quotient in the pair, and clears the pair when the divisor is zero. *)
Theorem div32_wide arg ptr s a b q s1 p' s' :
  atom_two_sources arg ptr s = Ok ((a, b, q), s1) -> is_u32 a -> is_u32 b ->
  is_u32 (divmul1 (st_ctx s1)) ->
  atom_op_div32 arg ptr s = Ok (p', s') ->
  divmul1 (st_ctx s') * 2 ^ 32 + divmul0 (st_ctx s') =
    if b =? 0 then 0 else (divmul1 (st_ctx s1) * 2 ^ 32 + a) / b.
Proof.
  intros Hsrc Ha Hb Hd H. unfold atom_op_div32, with_ctx, ctx_get in H.
  rewrite (bind_eval _ _ _ _ _ Hsrc) in H. cbn beta iota zeta in H.
  destruct (Z.eqb_spec b 0) as [->|Hnz]; minv; cbn; [done|].
  rewrite wide_lor by done. apply wide_split. unfold is_u32, is_u64 in *. split.
  - apply Z.div_pos; lia.
  - apply Z.div_lt_upper_bound; nia.
Qed.

(** ** The frame-buffer window *)

(** The scratch area is as large as its recorded size. *)
Definition scratch_ok (c : atom_context) : Prop :=
  scratch_size_bytes c = 4 * Z.of_nat (length (scratch c)) /\ is_s32 (scratch_size_bytes c).

(** A frame-buffer operand whose word lies inside the scratch area is
    accessed, but the bounds test lets through the word that starts at the end of
    the area: that access is outside the allocation. *)
Theorem fb_window idx s :
  scratch_ok (st_ctx s) -> is_u32 (fb_base (st_ctx s)) -> is_u8 idx ->
  (fb_base (st_ctx s) + idx * 4 + 4 <= scratch_size_bytes (st_ctx s) ->
     exists v, fetch_fb idx s = Ok (v, s) /\
               elem (scratch (st_ctx s)) (fb_base (st_ctx s) / 4 + idx) = Some v) /\
  (fb_base (st_ctx s) + idx * 4 = scratch_size_bytes (st_ctx s) ->
     fb_beyond (st_ctx s) idx = false /\ fetch_fb idx s = Fault /\
     forall v, store_fb idx v s = Fault).
Proof.
  intros [Hsz Hs32] Hb Hi. unfold fetch_fb, store_fb, ctx_get, mbind, M_bind, gets.
  unfold fb_beyond. split; intros H.
  - assert ((u32 (scratch_size_bytes (st_ctx s)) <? u32 (fb_base (st_ctx s) + idx * 4)) = false)
      as -> by (apply Z.ltb_ge; cint).
    destruct (proj1 (elem_is_Some (scratch (st_ctx s)) (fb_base (st_ctx s) / 4 + idx))) as [v Hv];
      [cint|]. exists v. by rewrite Hv.
  - assert ((u32 (scratch_size_bytes (st_ctx s)) <? u32 (fb_base (st_ctx s) + idx * 4)) = false)
      as -> by (apply Z.ltb_ge; cint).
    assert (Z.of_nat (length (scratch (st_ctx s))) <= fb_base (st_ctx s) / 4 + idx) as Hout by cint.
    assert (elem (scratch (st_ctx s)) (fb_base (st_ctx s) / 4 + idx) = None) as He.
    { destruct (elem _ _) eqn:E; [|done]. exfalso.
      pose proof (proj2 (elem_is_Some (scratch (st_ctx s)) (fb_base (st_ctx s) / 4 + idx))
        ltac:(by rewrite E)). lia. }
    split; [done|]. split; [by rewrite He|]. intros v. unfold update.
    destruct (Z.ltb_spec (fb_base (st_ctx s) / 4 + idx) (Z.of_nat (length (scratch (st_ctx s)))));
      [lia|]. by rewrite andb_false_r.
Qed.

(** ** Failures of nested tables *)

(** When a table called by CALLTABLE returns a failure, the calling table
    executes no further instruction and returns -EINVAL itself. *)
Theorem nested_failure_aborts n ptr s idx e r s1 nxt :
  get_u8 (bios (st_ctx s)) ptr = Some 82 ->
  get_u8 (bios (st_ctx s)) (ptr + 1) = Some idx ->
  get_u16 (bios (st_ctx s)) (cmd_table (st_ctx s) + 4 + 2 * idx) = Some e -> e <> 0 ->
  abort (st_ectx s) = false ->
  amdgpu_atom_execute_table_locked (S n) idx (ps (st_ectx s) + ps_shift (st_ectx s)) s
    = Ok (r, s1) -> r <> 0 ->
  get_u8 (bios (st_ctx s1)) (ptr + 2) = Some nxt ->
  exists s', atom_loop (S (S n)) ptr s = Ok (- EINVAL, s') /\
             st_ctx s' = st_ctx s1 /\ st_ps s' = st_ps s1 /\ st_card s' = st_card s1.
Proof.
  intros Hop Hidx He Hne Hab Hcall Hr Hnxt.
  assert (atom_dispatch (execute_table_with (atom_loop (S n))) 82 (ptr + 1) s =
    Ok (ptr + 1 + 1, mk_atom_state (st_ctx s1) (set_abort true (st_ectx s1)) (st_ps s1)
          (st_card s1) (debug_depth s1))) as Hd.
  { change (atom_dispatch (execute_table_with (atom_loop (S n))) 82 (ptr + 1))
      with (atom_op_calltable (execute_table_with (atom_loop (S n))) 0 (ptr + 1)).
    unfold atom_op_calltable. rewrite (bind_eval _ _ _ _ _ (proj2 (U8_Ok _ s _ s) (conj Hidx eq_refl))).
    rewrite (bind_eval _ _ s (cmd_table (st_ctx s)) s eq_refl).
    rewrite (bind_eval _ _ _ _ _ (proj2 (U16_Ok _ s _ s) (conj He eq_refl))).
    destruct (Z.eqb_spec e 0); [done|].
    assert ((p ← ectx_get ps; sh ← ectx_get ps_shift;
             execute_table_with (atom_loop (S n)) idx (p + sh)) s = Ok (r, s1)) as Hc.
    { exact Hcall. }
    rewrite (bind_eval _ _ _ _ _ Hc). destruct (Z.eqb_spec r 0); [done|]. done. }
  set (s2 := mk_atom_state (st_ctx s1) (set_abort true (st_ectx s1)) (st_ps s1)
               (st_card s1) (debug_depth s1)) in *.
  exists s2. split; [|done].
  change (atom_loop (S (S n)) ptr s) with
    ((op ← U8 ptr; ab ← ectx_get abort;
      if (ab : bool) then mret (- EINVAL)
      else if (op <? ATOM_OP_CNT) && (0 <? op) then
        ptr' ← atom_dispatch (execute_table_with (atom_loop (S n))) op (ptr + 1);
        if op =? ATOM_OP_EOT then _ ← with_depth (fun d => d - 1); mret 0
        else atom_loop (S n) ptr'
      else _ ← with_depth (fun d => d - 1); mret 0) s).
  rewrite (bind_eval _ _ _ _ _ (proj2 (U8_Ok _ s _ s) (conj Hop eq_refl))).
  assert (ectx_get abort s = Ok (false, s)) as Hab' by (unfold ectx_get, gets; by rewrite Hab).
  rewrite (bind_eval _ _ _ _ _ Hab').
  cbn [Z.ltb Z.compare Pos.compare Pos.compare_cont ATOM_OP_CNT andb].
  rewrite (bind_eval _ _ _ _ _ Hd). cbn [Z.eqb Pos.eqb ATOM_OP_EOT].
  cbn [atom_loop]. rewrite (bind_eval _ _ s2 nxt s2); [done|].
  apply U8_Ok. split; [|done]. by replace (ptr + 1 + 1) with (ptr + 2) by lia.
Qed.
End semantics.
