(* ===== verification/AtomWitness.v ===== *)
(** * AtomBIOS interpreter: a concrete image

    A small BIOS image with three command tables, executed on the simulated
    device of [RegAccess]: table 0 moves, compares, jumps, multiplies, calls
    table 1 and switches; table 1 stores through its parameter window; table 2
    spins until the loop detector stops it.  The instances of the
    interpreter's theorems on this image. *)

From stdpp Require Import base numbers list.
From S2P Require Import Prelude CMonad AtomState RegAccess AtomOperand AtomOps AtomExec.
From S2P Require Import AtomFields AtomWf AtomTotal AtomSemantics.

Definition demo_image : list Z :=
  [0; 0; 0; 0; 16; 0; 80; 0; 96; 0; 0; 0; 0; 0; 0; 0; 40; 0; 0; 0; 2; 8; 3; 5; 0; 68;
   51; 34; 17; 62; 5; 0; 0; 0; 34; 17; 70; 24; 0; 91; 124; 5; 0; 255; 255; 255; 255;
   82; 1; 66; 37; 7; 99; 3; 0; 0; 99; 7; 46; 0; 90; 90; 91; 0; 82; 2; 91; 0; 0; 0; 0;
   0; 0; 0; 0; 0; 0; 0; 0; 0; 20; 0; 0; 0; 0; 0; 2; 5; 1; 42; 0; 0; 0; 91; 0; 0; 12;
   0; 0; 0; 0; 0; 80; 255; 67; 6; 0; 0; 0; 0; 0; 0].

Definition demo_ctx : atom_context :=
  mk_atom_context demo_image 0 0 (replicate 256 0) 0 8 0 7 0 0 0 false false 0
    [10; 11; 12; 13] 16.

(** Inside table 0, with two words of work space. *)
Definition demo_state : atom_state sim_dev :=
  mk_atom_state demo_ctx
    (mk_atom_exec_context 0 [0x11223344; 5] 2 16 0 0 false)
    (replicate 8 0) (mk_sim_dev [] 0 1000) 0.

(** Table 0 runs to its end; its callee's store to PS[1] lands in PS[3] of the
    caller's parameter array. *)
Example demo_run :
  match amdgpu_atom_execute_table 100 0 0 demo_state with
  | Ok (r, s) => (r, st_ps s, divmul1 (st_ctx s), debug_depth s)
  | _ => (1, [], 0, 0)
  end = (0, [0; 0; 0; 42; 0; 0; 0; 0], 0x11223343, 0).
Proof. vm_compute. reflexivity. Qed.

(** Table 2 is stopped by the loop detector, and the debug depth it
    incremented stays incremented. *)
Example demo_stuck :
  match amdgpu_atom_execute_table 100 2 0 demo_state with
  | Ok (r, s) => (r, debug_depth s)
  | _ => (1, 0)
  end = (- EINVAL, 1).
Proof. vm_compute. reflexivity. Qed.

(** ** Instances *)

Ltac u_const := cbv; split; congruence.

Lemma demo_wf : wf_state demo_state.
Proof.
  split; [split|split|].
  all: lazymatch goal with
       | |- Forall _ _ =>
           repeat (apply Forall_nil_2 || (apply Forall_cons_2; [u_const|]))
       | |- _ => u_const || (cbn; lia)
       end.
Qed.

Lemma get_src_skip_agree_witness : 29 = atom_skip_src_int 0x05 25.
Proof.
  apply (get_src_skip_agree 0x05 25 demo_state 0x11223344 None 29 demo_state).
  vm_compute. reflexivity.
Defined.

(** Byte 1 of WS[1], selected by attribute 0x64, is replaced by 0xAB. *)
Lemma dst_read_back_witness :
  exists s',
    atom_put_dst ATOM_ARG_WS 0x64 48 0x1AB 5 demo_state = Ok (tt, s') /\
    exists word, atom_get_dst ATOM_ARG_WS 0x64 48 s' = Ok ((0xAB, Some word, 49), s') /\
      forall i, 0 <= i < 32 -> i < 8 \/ 16 <= i -> Z.testbit word i = Z.testbit 5 i.
Proof.
  eexists. split; [vm_compute; reflexivity|].
  refine (dst_read_back ATOM_ARG_WS 0x64 48 0x1AB 5 1 demo_state _ _ _ _ _).
  - right. left. split; [reflexivity|]. repeat split; discriminate.
  - reflexivity.
  - u_const.
  - vm_compute. reflexivity.
Defined.

Lemma execute_table_preserves_witness :
  exists r s', amdgpu_atom_execute_table 100 0 0 demo_state = Ok (r, s') /\
               inv (frame demo_state) s'.
Proof.
  eexists _, _. split; [vm_compute; reflexivity|].
  refine (execute_table_preserves (frame demo_state) 100 0 0 demo_state _ _ _ _ _).
  - split; [exact demo_wf|reflexivity].
  - lia.
  - vm_compute. reflexivity.
Defined.

Lemma instruction_terminates_witness :
  atom_dispatch (fun _ _ => mret 0) 66 50 demo_state <> NoFuel.
Proof.
  apply (instruction_terminates demo_image (fun _ _ => mret 0) 66 50 demo_state).
  - intros i p s Hs. exact Hs.
  - reflexivity.
Defined.

Lemma execute_table_deterministic_witness :
  amdgpu_atom_execute_table 200 0 0 demo_state = amdgpu_atom_execute_table 100 0 0 demo_state.
Proof.
  apply (execute_table_deterministic 100 200 0 0 demo_state).
  - vm_compute. discriminate.
  - lia.
Defined.

Lemma switch_selects_witness : atom_op_switch 0 50 demo_state = Ok (62, demo_state).
Proof.
  refine (switch_selects 0 50 0x25 7 52 [(3, 0); (7, 46)] demo_state demo_state _ _ _ _).
  - reflexivity.
  - vm_compute. reflexivity.
  - repeat (apply Forall_cons_2 || apply Forall_nil_2); split; u_const.
  - intros i x. do 10 (destruct i as [|i]; [intros [= <-]; reflexivity|]). intros [=].
Defined.

Lemma compare_then_jump_witness :
  exists s2 s3, atom_op_compare ATOM_ARG_WS 30 demo_state = Ok (36, s2) /\
    atom_op_jump ATOM_COND_ABOVE 37 s2 = Ok (40, s3) /\
    40 = if cond_holds ATOM_COND_ABOVE 0x11223344 0x11220000
         then start (st_ectx s2) + 24 else 37 + 2.
Proof.
  eexists _, _. split; [vm_compute; reflexivity|]. split; [vm_compute; reflexivity|].
  refine (compare_then_jump ATOM_ARG_WS ATOM_COND_ABOVE 30 37 24 demo_state
            0x11223344 0x11220000 36 demo_state _ _ _ _ _ _ _ _).
  - vm_compute. reflexivity.
  - vm_compute. reflexivity.
  - vm_compute. reflexivity.
  - vm_compute. reflexivity.
Defined.

Lemma mul32_wide_witness :
  exists s', atom_op_mul32 ATOM_ARG_WS 41 demo_state = Ok (47, s') /\ 47 = 47 /\
    divmul1 (st_ctx s') * 2 ^ 32 + divmul0 (st_ctx s') = 0x11223344 * 0xFFFFFFFF.
Proof.
  eexists. split; [vm_compute; reflexivity|].
  refine (mul32_wide ATOM_ARG_WS 41 demo_state 0x11223344 0xFFFFFFFF 47 demo_state 47 _ _ _ _ _).
  - vm_compute. reflexivity.
  - u_const.
  - u_const.
  - vm_compute. reflexivity.
Defined.

Lemma div32_wide_witness :
  exists s', atom_op_div32 ATOM_ARG_WS 30 demo_state = Ok (36, s') /\
    divmul1 (st_ctx s') * 2 ^ 32 + divmul0 (st_ctx s') = (7 * 2 ^ 32 + 0x11223344) / 0x11220000.
Proof.
  eexists. split; [vm_compute; reflexivity|].
  refine (div32_wide ATOM_ARG_WS 30 demo_state 0x11223344 0x11220000 36 demo_state 36 _ _ _ _ _ _).
  - vm_compute. reflexivity.
  - u_const.
  - u_const.
  - u_const.
  - vm_compute. reflexivity.
Defined.

(** The window starts at byte 8 of a 16-byte scratch area: FB[1] is its last
    word, FB[2] is behind its end. *)
Lemma fb_window_witness :
  (exists v, fetch_fb 1 demo_state = Ok (v, demo_state) /\
             elem (scratch (st_ctx demo_state)) 3 = Some v) /\
  (fb_beyond (st_ctx demo_state) 2 = false /\ fetch_fb 2 demo_state = Fault /\
   forall v, store_fb 2 v demo_state = Fault).
Proof.
  split.
  - apply (fb_window 1 demo_state); [split; [reflexivity|u_const]|u_const|u_const|].
    vm_compute. discriminate.
  - apply (fb_window 2 demo_state); [split; [reflexivity|u_const]|u_const|u_const|].
    vm_compute. reflexivity.
Defined.

Lemma nested_failure_aborts_witness :
  exists s', atom_loop 101 64 demo_state = Ok (- EINVAL, s').
Proof.
  destruct (nested_failure_aborts 99 64 demo_state 2 96 (- EINVAL)
    (match amdgpu_atom_execute_table_locked 100 2 2 demo_state with
     | Ok (_, s) => s | _ => demo_state end) 91) as (s' & H & _).
  - reflexivity.
  - reflexivity.
  - reflexivity.
  - discriminate.
  - reflexivity.
  - vm_compute. reflexivity.
  - discriminate.
  - vm_compute. reflexivity.
  - exists s'. exact H.
Defined.
