(* ===== verification/DmServices.v ===== *)
(** * Kernel services used by the display core's arithmetic

    The display core reports a broken expectation with [ASSERT], which is
    [WARN_ON] in the kernel build: a warning is logged and execution goes on.
    The state of these computations is therefore the number of warnings raised
    so far.  The 64-bit divisions trap on a zero divisor. *)

From stdpp Require Import base numbers list.
From S2P Require Import Prelude CMonad.

Notation W := (M Z).

Definition ASSERT (b : bool) : W unit := modify (fun w => if b then w else w + 1).

(** [div64_u64_rem(dividend, divisor, &remainder)] *)
Definition div64_u64_rem (dividend divisor : Z) : W (Z * Z) :=
  if divisor =? 0 then fault else mret (dividend / divisor, dividend mod divisor).

(** [div64_s64(dividend, divisor)]: C division truncates towards zero. *)
Definition div64_s64 (dividend divisor : Z) : W Z :=
  if divisor =? 0 then fault else mret (s64 (Z.quot dividend divisor)).

Definition LLONG_MAX : Z := 9223372036854775807.
Definition LLONG_MIN : Z := -9223372036854775808.
(** The kernel is built for x86-64, where [long] is 64 bits wide. *)
Definition LONG_MAX : Z := LLONG_MAX.
Definition LONG_MIN : Z := LLONG_MIN.

Lemma ASSERT_true (b : bool) w : b = true -> ASSERT b w = Ok (tt, w).
Proof. by intros ->. Qed.

Lemma ASSERT_bind {A} (b : bool) (k : unit -> W A) w :
  b = true -> mbind k (ASSERT b) w = k tt w.
Proof. by intros ->. Qed.

Lemma div64_u64_rem_bind {A} a d (k : Z * Z -> W A) w :
  d <> 0 -> mbind k (div64_u64_rem a d) w = k (a / d, a mod d) w.
Proof. intros Hd. unfold div64_u64_rem. by rewrite (proj2 (Z.eqb_neq d 0) Hd). Qed.

Lemma div64_s64_bind {A} a d (k : Z -> W A) w :
  d <> 0 -> mbind k (div64_s64 a d) w = k (s64 (a ÷ d)) w.
Proof. intros Hd. unfold div64_s64. by rewrite (proj2 (Z.eqb_neq d 0) Hd). Qed.

(** The C idiom [neg ? -v : v], stored in an unsigned 64-bit variable. *)
Lemma magnitude (v : Z) :
  is_s64 v -> u64 (if v <? 0 then s64 (- v) else v) = Z.abs v.
Proof. intros Hv. destruct (Z.ltb_spec v 0); cint. Qed.

(** [round_div a b]: [a / b] rounded to the nearest integer, halves up. *)
Definition round_div (a b : Z) : Z := (2 * a + b) / (2 * b).

Lemma round_div_nearest a b :
  0 < b -> - b <= 2 * (b * round_div a b - a) <= b.
Proof. intros Hb. unfold round_div. Z.div_mod_to_equations. nia. Qed.

Lemma round_div_nonneg a b : 0 <= a -> 0 < b -> 0 <= round_div a b.
Proof. intros. apply Z.div_pos; lia. Qed.

Lemma round_div_mono a a' b : 0 < b -> a <= a' -> round_div a b <= round_div a' b.
Proof. intros. apply Z.div_le_mono; lia. Qed.

Lemma round_div_le_succ a b : 0 <= a -> 0 < b -> round_div a b <= a / b + 1.
Proof. intros. unfold round_div. Z.div_mod_to_equations. nia. Qed.
