(* ===== verification/FixCore.v ===== *)
(** * The two loops shared by the fixed-point libraries

    [fixpt31_32.c] and [bw_fixed.c] contain the same long division and the
    same accumulation of partial products, with 32 and 24 fractional bits.
    The steps are defined once and analysed for any number [F] of bits. *)

From stdpp Require Import base numbers list.
From S2P Require Import Prelude CMonad DmServices.

(** The long division that produces the fractional bits; [i] iterations. *)
Fixpoint fraction_bits (i : nat) (arg2_value remainder res_value : Z) : Z * Z :=
  match i with
  | O => (remainder, res_value)
  | S i' =>
      let remainder := u64 (Z.shiftl remainder 1) in
      let res_value := u64 (Z.shiftl res_value 1) in
      if remainder >=? arg2_value
      then fraction_bits i' arg2_value (u64 (remainder - arg2_value)) (Z.lor res_value 1)
      else fraction_bits i' arg2_value remainder res_value
  end.

(** The additions of the partial products, shared by [mul] and [sqr]: the
    [tmp] of the source is added to [res] after its [ASSERT]. *)
Definition add_partial (res tmp : Z) : W Z :=
  _ ← ASSERT (tmp <=? u64 (s64 (LLONG_MAX - res)));
  mret (s64 (u64 res + tmp)).

(** ** Long division *)

Lemma lor_even_1 x : Z.lor (2 * x) 1 = 2 * x + 1.
Proof.
  assert (Z.land (2 * x) 1 = 0) as H.
  { rewrite (Z.land_ones _ 1), Z.mul_comm by lia. by apply Z_mod_mult. }
  by rewrite <- Z.lxor_lor, <- Z.add_nocarry_lxor.
Qed.

Lemma u64_double_lor x : Z.lor (u64 (Z.shiftl x 1)) 1 = u64 (2 * x + 1).
Proof.
  rewrite Z.shiftl_mul_pow2 by lia.
  replace (u64 (x * 2 ^ 1)) with (2 * (x mod 9223372036854775808)) by cint.
  rewrite lor_even_1. cint.
Qed.

Lemma u64_mul_u64 x y c : u64 (u64 x * y + c) = u64 (x * y + c).
Proof.
  unfold u64. rewrite Z.add_mod, Z.mul_mod_idemp_l, <- Z.add_mod by lia. done.
Qed.

(** The loop computes the quotient and the remainder of the scaled remainder. *)
Lemma fraction_bits_spec i b r q :
  0 <= r < b -> b <= 9223372036854775808 -> is_u64 q ->
  fraction_bits i b r q =
    ((r * 2 ^ Z.of_nat i) mod b, u64 (q * 2 ^ Z.of_nat i + r * 2 ^ Z.of_nat i / b)).
Proof.
  revert r q. induction i as [|i IH]; intros r q Hr Hb Hq.
  - cbn [fraction_bits Z.of_nat]. rewrite Z.pow_0_r, !Z.mul_1_r.
    rewrite Z.mod_small, Z.div_small by lia. f_equal. cint.
  - rewrite Nat2Z.inj_succ, Z.pow_succ_r by lia. cbn [fraction_bits].
    set (P := 2 ^ Z.of_nat i). assert (0 < P) by (apply Z.pow_pos_nonneg; lia).
    assert (u64 (Z.shiftl r 1) = 2 * r) as ->
      by (rewrite Z.shiftl_mul_pow2 by lia; cint).
    destruct (2 * r >=? b) eqn:E; rewrite Z.geb_leb in E;
      [apply Z.leb_le in E|apply Z.leb_gt in E].
    + rewrite u64_double_lor. replace (u64 (2 * r - b)) with (2 * r - b) by cint.
      rewrite IH by (lia || auto with cint). fold P.
      replace ((2 * r - b) * P) with (r * (2 * P) + (- P) * b) by ring.
      rewrite Z_mod_plus_full, Z_div_plus_full by lia. f_equal.
      rewrite u64_mul_u64. f_equal. lia.
    + rewrite IH by (lia || auto with cint). fold P.
      replace (2 * r * P) with (r * (2 * P)) by ring. f_equal.
      rewrite u64_mul_u64, Z.shiftl_mul_pow2 by lia. f_equal. ring.
Qed.

Lemma round_div_split x b :
  0 < b -> round_div x b = x / b + (if 2 * (x mod b) >=? b then 1 else 0).
Proof.
  intros Hb. unfold round_div. rewrite Z.geb_leb.
  destruct (Z.leb_spec b (2 * (x mod b))); Z.div_mod_to_equations; nia.
Qed.

(** Integer part, [F] fractional bits and the rounding summand together give
    the correctly rounded quotient. *)
Lemma fraction_rounded (F : nat) a b :
  0 < b <= 9223372036854775808 -> 0 <= a <= 9223372036854775808 ->
  round_div (a * 2 ^ Z.of_nat F) b <= LLONG_MAX ->
  exists r q, fraction_bits F b (a mod b) (a / b) = (r, q) /\
    let s := if u64 (Z.shiftl r 1) >=? b then 1 else 0 in
    0 <= s <= 1 /\ 0 <= q /\ q + s = round_div (a * 2 ^ Z.of_nat F) b /\
    0 <= a / b /\ a / b * 2 ^ Z.of_nat F <= q.
Proof.
  intros Hb Ha HR. set (P := 2 ^ Z.of_nat F) in *. assert (0 < P) by (unfold P; lia).
  pose proof (Z.mod_pos_bound a b ltac:(lia)) as Hm.
  assert (0 <= a / b <= a) as Hd
    by (split; [apply Z.div_pos; lia|apply Z.div_le_upper_bound; nia]).
  rewrite fraction_bits_spec by (lia || cint). fold P.
  assert (a / b * P + a mod b * P / b = a * P / b) as E.
  { rewrite <- Z.div_add_l by lia. f_equal. rewrite (Z.div_mod a b) at 3 by lia. ring. }
  rewrite Z.mul_mod_idemp_l, E by lia. rewrite round_div_split in * by lia.
  pose proof (Z.mod_pos_bound (a * P) b ltac:(lia)).
  assert (u64 (Z.shiftl ((a * P) mod b) 1) = 2 * ((a * P) mod b)) as E2
    by (rewrite Z.shiftl_mul_pow2 by lia; cint).
  assert (0 <= a mod b * P / b) by (apply Z.div_pos; nia).
  eexists _, _. split; [reflexivity|]. cbv zeta. rewrite E2.
  set (s := if _ >=? b then 1 else 0) in *.
  assert (0 <= s <= 1) by (unfold s; destruct (_ >=? _); lia).
  assert (0 <= a * P / b) by (apply Z.div_pos; nia).
  unfold LLONG_MAX in *. assert (u64 (a * P / b) = a * P / b) as -> by cint. lia.
Qed.

(** ** Multiplication *)

Lemma add_partial_run res tmp w :
  0 <= res -> 0 <= tmp -> res + tmp <= LLONG_MAX ->
  add_partial res tmp w = Ok (res + tmp, w).
Proof.
  intros H1 H2 H3. unfold add_partial, LLONG_MAX in *.
  rewrite ASSERT_bind by (apply Z.leb_le; cint).
  unfold mret, M_ret. do 2 f_equal. cint.
Qed.

(** The magnitude computed from two magnitudes: the product, one unit more
    when the product of the fractional parts reaches half a unit of the
    fractional scale. *)
Definition mul_magnitude (F A B : Z) : Z :=
  A * B / 2 ^ F + (if A mod 2 ^ F * (B mod 2 ^ F) >=? 2 ^ (F - 1) then 1 else 0).

Lemma product_split P A B :
  0 < P ->
  A * B / P =
    A / P * (B / P) * P + A / P * (B mod P) + B / P * (A mod P) + A mod P * (B mod P) / P.
Proof.
  intros HP. rewrite (Z.div_mod A P) at 1 by lia. rewrite (Z.div_mod B P) at 1 by lia.
  set (ai := A / P). set (bi := B / P). set (af := A mod P). set (bf := B mod P).
  replace ((P * ai + af) * (P * bi + bf))
    with ((ai * bi * P + ai * bf + bi * af) * P + af * bf) by ring.
  rewrite Z.div_add_l by lia. ring.
Qed.

(** The accumulation of the four partial products does not overflow when its
    result is representable. *)
Lemma mul_accumulate {T} (F L A B w : Z) (k : Z -> W T) :
  0 < F <= 32 -> 2 ^ (63 - F) <= L + 1 -> 0 <= A -> 0 <= B ->
  mul_magnitude F A B <= LLONG_MAX ->
  (let ai := Z.shiftr A F in
   let bi := Z.shiftr B F in
   let af := Z.land (Z.ones F) A in
   let bf := Z.land (Z.ones F) B in
   let res := s64 (u64 (ai * bi)) in
   _ ← ASSERT (res <=? L);
   let res := s64 (Z.shiftl res F) in
   res ← add_partial res (u64 (ai * bf));
   res ← add_partial res (u64 (bi * af));
   let tmp := u64 (af * bf) in
   res ← add_partial res (u64 (Z.shiftr tmp F + (if tmp >=? 2 ^ (F - 1) then 1 else 0)));
   k res) w = k (mul_magnitude F A B) w.
Proof.
  intros HF HL HA HB Hm. cbv zeta. unfold mul_magnitude in *.
  rewrite !(Z.land_comm (Z.ones F)), !Z.land_ones, !Z.shiftr_div_pow2 by lia.
  set (P := 2 ^ F) in *. assert (0 < P) by (unfold P; lia).
  assert (P <= 2 ^ 32) by (apply Z.pow_le_mono_r; lia).
  assert (P * 2 ^ (63 - F) = 2 ^ 63) by (unfold P; rewrite <- Z.pow_add_r by lia; f_equal; lia).
  rewrite product_split in * by done. revert Hm.
  pose proof (Z.mod_pos_bound A P ltac:(lia)) as Haf.
  pose proof (Z.mod_pos_bound B P ltac:(lia)) as Hbf.
  assert (0 <= A / P) by (apply Z.div_pos; lia). assert (0 <= B / P) by (apply Z.div_pos; lia).
  assert (0 <= A / P * (B / P)) as HX by nia. revert HX. generalize (A / P * (B / P)).
  assert (0 <= A / P * (B mod P)) as HY by nia. revert HY. generalize (A / P * (B mod P)).
  assert (0 <= B / P * (A mod P)) as HV by nia. revert HV. generalize (B / P * (A mod P)).
  assert (0 <= A mod P * (B mod P) < 2 ^ 64) as HT by nia. revert HT.
  generalize (A mod P * (B mod P)). intros T0 HT V HV Y HY X HX Hm.
  assert (u64 T0 = T0) as -> by cint.
  set (s := if T0 >=? 2 ^ (F - 1) then 1 else 0) in *.
  assert (0 <= s <= 1) by (unfold s; destruct (_ >=? _); lia).
  assert (0 <= T0 / P) by (apply Z.div_pos; lia).
  assert (X <= X * P) by nia. unfold LLONG_MAX in Hm.
  assert (s64 (u64 X) = X) as -> by cint. assert (u64 Y = Y) as -> by cint.
  assert (u64 V = V) as -> by cint. rewrite Z.shiftl_mul_pow2 by lia. fold P.
  assert (s64 (X * P) = X * P) as -> by cint.
  assert (u64 (T0 / P + s) = T0 / P + s) as -> by cint.
  rewrite ASSERT_bind by (apply Z.leb_le; nia).
  do 3 (erewrite bind_eval by (apply add_partial_run; unfold LLONG_MAX; lia)).
  by rewrite Z.add_assoc.
Qed.

Lemma mul_magnitude_nonneg F A B : 0 <= A -> 0 <= B -> 0 <= F -> 0 <= mul_magnitude F A B.
Proof.
  intros. unfold mul_magnitude.
  assert (0 <= A * B / 2 ^ F) by (apply Z.div_pos; nia). destruct (_ >=? _); lia.
Qed.

Lemma mul_magnitude_error F A B :
  0 < F -> 0 <= A -> 0 <= B -> - 2 ^ (F - 1) < 2 ^ F * mul_magnitude F A B - A * B <= 2 ^ F.
Proof.
  intros HF HA HB. unfold mul_magnitude. rewrite Z.geb_leb.
  set (P := 2 ^ F). assert (0 < P) by (unfold P; lia).
  assert (P = 2 * 2 ^ (F - 1)) as HP
    by (unfold P; rewrite <- Z.pow_succ_r by lia; f_equal; lia).
  assert (0 < 2 ^ (F - 1)) by lia. set (H2 := 2 ^ (F - 1)) in *. clearbody P H2.
  assert ((A * B) mod P = (A mod P * (B mod P)) mod P) as E by (by rewrite Z.mul_mod by lia).
  pose proof (Z.div_mod (A * B) P ltac:(lia)).
  pose proof (Z.mod_pos_bound (A * B) P ltac:(lia)).
  destruct (Z.leb_spec H2 (A mod P * (B mod P))) as [|Hlt]; [lia|].
  rewrite (Z.mod_small (A mod P * _)) in E; [lia|].
  pose proof (Z.mod_pos_bound A P ltac:(lia)).
  pose proof (Z.mod_pos_bound B P ltac:(lia)). nia.
Qed.

Lemma mul_magnitude_int F A k : 0 < F -> 0 <= A -> mul_magnitude F A (k * 2 ^ F) = A * k.
Proof.
  intros HF HA. unfold mul_magnitude. rewrite Z_mod_mult, Z.mul_0_r.
  rewrite Z.mul_assoc, Z.div_mul by lia.
  destruct (Z.geb_spec 0 (2 ^ (F - 1))); lia.
Qed.

Lemma mul_magnitude_le F A B A' B' :
  0 < F -> 0 <= A <= A' -> 0 <= B <= B' -> mul_magnitude F A B <= A' * B' / 2 ^ F + 1.
Proof.
  intros HF HA HB. unfold mul_magnitude.
  assert (A * B / 2 ^ F <= A' * B' / 2 ^ F) by (apply Z.div_le_mono; nia).
  destruct (_ >=? _); lia.
Qed.

(** ** Signs

    Both libraries compute on magnitudes and restore the sign at the end. *)

Lemma signed_quotient_error n d P q :
  d <> 0 -> - Z.abs d <= 2 * (Z.abs d * q - Z.abs n * P) <= Z.abs d ->
  2 * Z.abs ((if xorb (n <? 0) (d <? 0) then - q else q) * d - n * P) <= Z.abs d.
Proof.
  intros Hd H. destruct (Z.ltb_spec n 0), (Z.ltb_spec d 0); cbn [xorb];
    rewrite ?(Z.abs_eq n), ?(Z.abs_neq n), ?(Z.abs_eq d), ?(Z.abs_neq d) in * by lia; lia.
Qed.

Lemma signed_product_sign x y m :
  0 <= m -> 0 <= (if xorb (x <? 0) (y <? 0) then - m else m) * (x * y).
Proof. intros. destruct (Z.ltb_spec x 0), (Z.ltb_spec y 0); cbn [xorb]; nia. Qed.

Lemma signed_abs (b : bool) m : 0 <= m -> Z.abs (if b then - m else m) = m.
Proof. destruct b; lia. Qed.
