(* ===== verification/FixPt.v ===== *)
(** * 31.32 fixed-point arithmetic (dal/dc/basics/fixpt31_32.c)

    Every function of the file, on the signed 64-bit [value] of
    [struct fixed31_32].  Computations run in [W]: their state counts the
    [ASSERT]s that failed.  A zero divisor and a shift by 64 or more are
    [Fault]s; the Newton iteration of the logarithm takes fuel. *)

From stdpp Require Import base numbers list.
From S2P Require Import Prelude CMonad DmServices FixCore.

Record fixed31_32 := Fixed { value : Z }.
#[global] Instance fixed31_32_eq_dec : EqDecision fixed31_32.
Proof. solve_decision. Defined.

Definition wf31_32 (x : fixed31_32) : Prop := is_s64 (value x).

Definition dal_fixed31_32_zero := Fixed 0.
Definition dal_fixed31_32_epsilon := Fixed 1.
Definition dal_fixed31_32_half := Fixed 0x80000000.
Definition dal_fixed31_32_one := Fixed 0x100000000.
Definition dal_fixed31_32_pi := Fixed 13493037705.
Definition dal_fixed31_32_two_pi := Fixed 26986075409.
Definition dal_fixed31_32_e := Fixed 11674931555.
Definition dal_fixed31_32_ln2 := Fixed 2977044471.
Definition dal_fixed31_32_ln2_div_2 := Fixed 1488522236.

Definition abs_i64 (arg : Z) : Z := if arg >? 0 then u64 arg else u64 (s64 (- arg)).

Definition complete_integer_division_u64 (dividend divisor : Z) : W (Z * Z) :=
  _ ← ASSERT (negb (divisor =? 0));
  div64_u64_rem dividend divisor.

Definition BITS_PER_FRACTIONAL_PART : Z := 32.
Definition FRACTIONAL_PART_MASK : Z := Z.ones 32.
Definition GET_INTEGER_PART (x : Z) : Z := Z.shiftr x BITS_PER_FRACTIONAL_PART.
Definition GET_FRACTIONAL_PART (x : Z) : Z := Z.land FRACTIONAL_PART_MASK x.

Definition dal_fixed31_32_from_fraction (numerator denominator : Z) : W fixed31_32 :=
  let arg1_negative := numerator <? 0 in
  let arg2_negative := denominator <? 0 in
  let arg1_value := u64 (if arg1_negative then s64 (- numerator) else numerator) in
  let arg2_value := u64 (if arg2_negative then s64 (- denominator) else denominator) in
  '(res_value, remainder) ← complete_integer_division_u64 arg1_value arg2_value;
  _ ← ASSERT (res_value <=? LONG_MAX);
  let '(remainder, res_value) :=
    fraction_bits (Z.to_nat BITS_PER_FRACTIONAL_PART) arg2_value remainder res_value in
  let summand := if u64 (Z.shiftl remainder 1) >=? arg2_value then 1 else 0 in
  _ ← ASSERT (res_value <=? u64 (LLONG_MAX - summand));
  let res_value := u64 (res_value + summand) in
  let res := s64 res_value in
  mret (Fixed (if xorb arg1_negative arg2_negative then s64 (- res) else res)).

Definition dal_fixed31_32_from_int (arg : Z) : W fixed31_32 :=
  _ ← ASSERT ((LONG_MIN <=? arg) && (arg <=? LONG_MAX));
  mret (Fixed (s64 (Z.shiftl arg BITS_PER_FRACTIONAL_PART))).

Definition dal_fixed31_32_neg (arg : fixed31_32) : fixed31_32 := Fixed (s64 (- value arg)).

Definition dal_fixed31_32_abs (arg : fixed31_32) : fixed31_32 :=
  if value arg <? 0 then dal_fixed31_32_neg arg else arg.

Definition dal_fixed31_32_lt (arg1 arg2 : fixed31_32) : bool := value arg1 <? value arg2.
Definition dal_fixed31_32_le (arg1 arg2 : fixed31_32) : bool := value arg1 <=? value arg2.
Definition dal_fixed31_32_eq (arg1 arg2 : fixed31_32) : bool := value arg1 =? value arg2.

Definition dal_fixed31_32_min (arg1 arg2 : fixed31_32) : fixed31_32 :=
  if value arg1 <=? value arg2 then arg1 else arg2.
Definition dal_fixed31_32_max (arg1 arg2 : fixed31_32) : fixed31_32 :=
  if value arg1 <=? value arg2 then arg2 else arg1.

Definition dal_fixed31_32_clamp (arg min_value max_value : fixed31_32) : fixed31_32 :=
  if dal_fixed31_32_le arg min_value then min_value
  else if dal_fixed31_32_le max_value arg then max_value
  else arg.

(** A shift by the width of its operand or more is undefined in C. *)
Definition dal_fixed31_32_shl (arg : fixed31_32) (shift : Z) : W fixed31_32 :=
  if shift >=? 64 then fault else
  _ ← ASSERT
    (((value arg >=? 0) && (value arg <=? Z.shiftr LLONG_MAX shift)) ||
     ((value arg <? 0) && (value arg >=? Z.shiftr LLONG_MIN shift)));
  mret (Fixed (s64 (Z.shiftl (value arg) shift))).

Definition dal_fixed31_32_shr (arg : fixed31_32) (shift : Z) : W fixed31_32 :=
  _ ← ASSERT (shift <? 64);
  if shift >=? 64 then fault else mret (Fixed (Z.shiftr (value arg) shift)).

Definition dal_fixed31_32_add (arg1 arg2 : fixed31_32) : W fixed31_32 :=
  _ ← ASSERT
    (((value arg1 >=? 0) && (s64 (LLONG_MAX - value arg1) >=? value arg2)) ||
     ((value arg1 <? 0) && (s64 (LLONG_MIN - value arg1) <=? value arg2)));
  mret (Fixed (s64 (value arg1 + value arg2))).

Definition dal_fixed31_32_sub (arg1 arg2 : fixed31_32) : W fixed31_32 :=
  _ ← ASSERT
    (((value arg2 >=? 0) && (s64 (LLONG_MIN + value arg2) <=? value arg1)) ||
     ((value arg2 <? 0) && (s64 (LLONG_MAX + value arg2) >=? value arg1)));
  mret (Fixed (s64 (value arg1 - value arg2))).

Definition dal_fixed31_32_sub_int (arg1 : fixed31_32) (arg2 : Z) : W fixed31_32 :=
  i ← dal_fixed31_32_from_int arg2; dal_fixed31_32_sub arg1 i.

Definition round_partial (tmp : Z) : Z :=
  u64 (Z.shiftr tmp BITS_PER_FRACTIONAL_PART +
       (if tmp >=? value dal_fixed31_32_half then 1 else 0)).

Definition dal_fixed31_32_mul (arg1 arg2 : fixed31_32) : W fixed31_32 :=
  let arg1_negative := value arg1 <? 0 in
  let arg2_negative := value arg2 <? 0 in
  let arg1_value := u64 (if arg1_negative then s64 (- value arg1) else value arg1) in
  let arg2_value := u64 (if arg2_negative then s64 (- value arg2) else value arg2) in
  let arg1_int := GET_INTEGER_PART arg1_value in
  let arg2_int := GET_INTEGER_PART arg2_value in
  let arg1_fra := GET_FRACTIONAL_PART arg1_value in
  let arg2_fra := GET_FRACTIONAL_PART arg2_value in
  let res := s64 (u64 (arg1_int * arg2_int)) in
  _ ← ASSERT (res <=? LONG_MAX);
  let res := s64 (Z.shiftl res BITS_PER_FRACTIONAL_PART) in
  res ← add_partial res (u64 (arg1_int * arg2_fra));
  res ← add_partial res (u64 (arg2_int * arg1_fra));
  res ← add_partial res (round_partial (u64 (arg1_fra * arg2_fra)));
  mret (Fixed (if xorb arg1_negative arg2_negative then s64 (- res) else res)).

Definition dal_fixed31_32_mul_int (arg1 : fixed31_32) (arg2 : Z) : W fixed31_32 :=
  i ← dal_fixed31_32_from_int arg2; dal_fixed31_32_mul arg1 i.

Definition dal_fixed31_32_sqr (arg : fixed31_32) : W fixed31_32 :=
  let arg_value := abs_i64 (value arg) in
  let arg_int := GET_INTEGER_PART arg_value in
  let arg_fra := GET_FRACTIONAL_PART arg_value in
  let res := s64 (u64 (arg_int * arg_int)) in
  _ ← ASSERT (res <=? LONG_MAX);
  let res := s64 (Z.shiftl res BITS_PER_FRACTIONAL_PART) in
  let tmp := u64 (arg_int * arg_fra) in
  res ← add_partial res tmp;
  res ← add_partial res tmp;
  res ← add_partial res (round_partial (u64 (arg_fra * arg_fra)));
  mret (Fixed res).

Definition dal_fixed31_32_div_int (arg1 : fixed31_32) (arg2 : Z) : W fixed31_32 :=
  d ← dal_fixed31_32_from_int arg2;
  dal_fixed31_32_from_fraction (value arg1) (value d).

Definition dal_fixed31_32_div (arg1 arg2 : fixed31_32) : W fixed31_32 :=
  dal_fixed31_32_from_fraction (value arg1) (value arg2).

Definition dal_fixed31_32_recip (arg : fixed31_32) : W fixed31_32 :=
  _ ← ASSERT (negb (value arg =? 0));
  dal_fixed31_32_from_fraction (value dal_fixed31_32_one) (value arg).

(** One turn of the Taylor loops of [sinc] and [cos]:
    [res = 1 - square * res / (n * (n - 1))]. *)
Definition trig_step (square res : fixed31_32) (n : Z) : W fixed31_32 :=
  p ← dal_fixed31_32_mul square res;
  q ← dal_fixed31_32_div_int p (s32 (n * (n - 1)));
  dal_fixed31_32_sub dal_fixed31_32_one q.

(** [do { step; n -= 2; } while (n > limit)], the loop runs [turns] times. *)
Fixpoint trig_loop (turns : nat) (square res : fixed31_32) (n : Z) : W fixed31_32 :=
  match turns with
  | O => mret res
  | S turns' => res ← trig_step square res n; trig_loop turns' square res (n - 2)
  end.

Definition sinc_normalize (arg : fixed31_32) : W fixed31_32 :=
  if dal_fixed31_32_le dal_fixed31_32_two_pi (dal_fixed31_32_abs arg) then
    q ← div64_s64 (value arg) (value dal_fixed31_32_two_pi);
    p ← dal_fixed31_32_mul_int dal_fixed31_32_two_pi (s32 q);
    dal_fixed31_32_sub arg p
  else mret arg.

(** [n] = 27, 25, ..., 3: thirteen turns. *)
Definition dal_fixed31_32_sinc (arg : fixed31_32) : W fixed31_32 :=
  arg_norm ← sinc_normalize arg;
  square ← dal_fixed31_32_sqr arg_norm;
  res ← trig_loop 13 square dal_fixed31_32_one 27;
  if negb (value arg =? value arg_norm) then
    p ← dal_fixed31_32_mul res arg_norm;
    dal_fixed31_32_div p arg
  else mret res.

Definition dal_fixed31_32_sin (arg : fixed31_32) : W fixed31_32 :=
  s ← dal_fixed31_32_sinc arg; dal_fixed31_32_mul arg s.

(** [n] = 26, 24, ..., 2: thirteen turns. *)
Definition dal_fixed31_32_cos (arg : fixed31_32) : W fixed31_32 :=
  square ← dal_fixed31_32_sqr arg;
  trig_loop 13 square dal_fixed31_32_one 26.

(** [do res = 1 + arg * res / n; while (--n != 1)] from [n = turns + 1]. *)
Fixpoint exp_loop (turns : nat) (arg res : fixed31_32) : W fixed31_32 :=
  match turns with
  | O => mret res
  | S turns' =>
      p ← dal_fixed31_32_mul arg res;
      q ← dal_fixed31_32_div_int p (Z.of_nat turns + 1);
      res ← dal_fixed31_32_add dal_fixed31_32_one q;
      exp_loop turns' arg res
  end.

(** [n] = 9, 8, ..., 2: eight turns. *)
Definition fixed31_32_exp_from_taylor_series (arg : fixed31_32) : W fixed31_32 :=
  res ← dal_fixed31_32_from_fraction (9 + 2) (9 + 1);
  _ ← ASSERT (dal_fixed31_32_lt arg dal_fixed31_32_one);
  res ← exp_loop 8 arg res;
  p ← dal_fixed31_32_mul arg res;
  dal_fixed31_32_add dal_fixed31_32_one p.

Definition dal_fixed31_32_floor (arg : fixed31_32) : Z :=
  let arg_value := abs_i64 (value arg) in
  if value arg >=? 0 then s32 (GET_INTEGER_PART arg_value)
  else s32 (- s32 (GET_INTEGER_PART arg_value)).

(** [round] and [ceil] add their summand to the magnitude, then truncate. *)
Definition truncate_with (summand : Z) (arg : fixed31_32) : W Z :=
  let arg_value := abs_i64 (value arg) in
  _ ← ASSERT (s64 (LLONG_MAX - s64 arg_value) >=? summand);
  let arg_value := u64 (arg_value + summand) in
  mret (if value arg >=? 0 then s32 (GET_INTEGER_PART arg_value)
        else s32 (- s32 (GET_INTEGER_PART arg_value))).

Definition dal_fixed31_32_round : fixed31_32 -> W Z :=
  truncate_with (value dal_fixed31_32_half).

Definition dal_fixed31_32_ceil : fixed31_32 -> W Z :=
  truncate_with (value dal_fixed31_32_one - value dal_fixed31_32_epsilon).

Definition dal_fixed31_32_exp (arg : fixed31_32) : W fixed31_32 :=
  if dal_fixed31_32_le dal_fixed31_32_ln2_div_2 (dal_fixed31_32_abs arg) then
    quo ← dal_fixed31_32_div arg dal_fixed31_32_ln2;
    m ← dal_fixed31_32_round quo;
    p ← dal_fixed31_32_mul_int dal_fixed31_32_ln2 m;
    r ← dal_fixed31_32_sub arg p;
    _ ← ASSERT (negb (m =? 0));
    _ ← ASSERT (dal_fixed31_32_lt (dal_fixed31_32_abs r) dal_fixed31_32_one);
    if m >? 0 then
      t ← fixed31_32_exp_from_taylor_series r;
      dal_fixed31_32_shl t (u8 m)
    else
      t ← fixed31_32_exp_from_taylor_series r;
      if s32 (- m) >=? 64 then fault
      else dal_fixed31_32_div_int t (s64 (Z.shiftl 1 (s32 (- m))))
  else if negb (value arg =? 0) then fixed31_32_exp_from_taylor_series arg
  else mret dal_fixed31_32_one.

Fixpoint log_loop (fuel : nat) (arg res : fixed31_32) : W fixed31_32 :=
  match fuel with
  | O => nofuel
  | S fuel' =>
      d ← dal_fixed31_32_sub res dal_fixed31_32_one;
      e ← dal_fixed31_32_exp res;
      q ← dal_fixed31_32_div arg e;
      res1 ← dal_fixed31_32_add d q;
      error ← dal_fixed31_32_sub res res1;
      if abs_i64 (value error) >? 100 then log_loop fuel' arg res1 else mret res1
  end.

Definition dal_fixed31_32_log (fuel : nat) (arg : fixed31_32) : W fixed31_32 :=
  let res := dal_fixed31_32_neg dal_fixed31_32_one in
  _ ← ASSERT (value arg >? 0);
  log_loop fuel arg res.

Definition dal_fixed31_32_pow (fuel : nat) (arg1 arg2 : fixed31_32) : W fixed31_32 :=
  l ← dal_fixed31_32_log fuel arg1;
  p ← dal_fixed31_32_mul l arg2;
  dal_fixed31_32_exp p.

Definition ux_dy (v integer_bits fractional_bits : Z) : Z :=
  let result := u32 (s32 (Z.shiftl 1 integer_bits) - 1) in
  let fractional_part := u32 (Z.land FRACTIONAL_PART_MASK v) in
  let result := u32 (Z.land result (GET_INTEGER_PART v)) in
  let result := u32 (Z.shiftl result fractional_bits) in
  let fractional_part :=
    Z.shiftr fractional_part (BITS_PER_FRACTIONAL_PART - fractional_bits) in
  Z.lor result fractional_part.

Definition dal_fixed31_32_u2d19 (arg : fixed31_32) : Z := ux_dy (value arg) 2 19.
Definition dal_fixed31_32_u0d19 (arg : fixed31_32) : Z := ux_dy (value arg) 0 19.
