(* ===== verification/FixPtProps.v ===== *)
(** * Correctness of the 31.32 fixed-point arithmetic

    Division is correctly rounded, multiplication is exact up to one unit in
    the last place and agrees with squaring, and the conversions to integers
    and to the scaler formats are characterised. *)

From stdpp Require Import base numbers list.
From S2P Require Import Prelude CMonad DmServices FixCore FixPt.

(** ** Division *)

(** The result of [from_fraction], over- or underflow included. *)
Definition fraction_value (n d : Z) : Z :=
  let q := round_div (Z.abs n * 2 ^ 32) (Z.abs d) in
  if xorb (n <? 0) (d <? 0) then - q else q.

Lemma from_fraction_run n d w :
  is_s64 n -> is_s64 d -> d <> 0 -> round_div (Z.abs n * 2 ^ 32) (Z.abs d) <= LLONG_MAX ->
  dal_fixed31_32_from_fraction n d w = Ok (Fixed (fraction_value n d), w).
Proof.
  intros Hn Hd Hd0 Hq. unfold dal_fixed31_32_from_fraction, complete_integer_division_u64.
  rewrite !magnitude by done.
  destruct (fraction_rounded 32 (Z.abs n) (Z.abs d)) as (r & q & E & Hs & Hq0 & HR & Hi & HI);
    [cint|cint|exact Hq|].
  erewrite bind_eval.
  2: { rewrite ASSERT_bind by (apply negb_true_iff, Z.eqb_neq; lia).
       unfold div64_u64_rem. by rewrite (proj2 (Z.eqb_neq (Z.abs d) 0)) by lia. }
  cbv beta iota.
  change (Z.to_nat BITS_PER_FRACTIONAL_PART) with 32%nat.
  change (Z.of_nat 32) with 32 in *. rewrite E. clear E.
  unfold LONG_MAX, LLONG_MAX in *. set (s := if _ >=? _ then 1 else 0) in *. clearbody s.
  change (2 ^ 32) with 4294967296 in HI.
  rewrite !ASSERT_bind by (apply Z.leb_le; cint).
  unfold fraction_value, mret, M_ret. cbv zeta. rewrite <- HR.
  assert (s64 (u64 (q + s)) = q + s) as -> by cint.
  assert (s64 (- (q + s)) = - (q + s)) as -> by cint. done.
Qed.

(** ** Multiplication *)

Lemma integer_part A : GET_INTEGER_PART A = A / 2 ^ 32.
Proof. exact (Z.shiftr_div_pow2 A 32 ltac:(lia)). Qed.

Definition mul_value (x y : Z) : Z :=
  let m := mul_magnitude 32 (Z.abs x) (Z.abs y) in
  if xorb (x <? 0) (y <? 0) then - m else m.

Lemma mul_run x y w :
  wf31_32 x -> wf31_32 y ->
  mul_magnitude 32 (Z.abs (value x)) (Z.abs (value y)) <= LLONG_MAX ->
  dal_fixed31_32_mul x y w = Ok (Fixed (mul_value (value x) (value y)), w).
Proof.
  unfold wf31_32. intros Hx Hy Hm. unfold dal_fixed31_32_mul.
  rewrite !magnitude by done.
  etransitivity; [exact (mul_accumulate 32 LONG_MAX (Z.abs (value x)) (Z.abs (value y)) w
    (fun res => mret (Fixed (if xorb (value x <? 0) (value y <? 0) then s64 (- res) else res)))
    ltac:(lia) ltac:(done) ltac:(lia) ltac:(lia) Hm)|].
  pose proof (mul_magnitude_nonneg 32 (Z.abs (value x)) (Z.abs (value y))).
  unfold mul_value, mret, M_ret, LLONG_MAX in *. destruct (xorb _ _); [|done].
  do 3 f_equal. cint.
Qed.

Lemma abs_i64_abs v : is_s64 v -> abs_i64 v = Z.abs v.
Proof. intros. unfold abs_i64. rewrite Z.gtb_ltb. destruct (Z.ltb_spec 0 v); cint. Qed.

(** [dal_fixed31_32_sqr] and [dal_fixed31_32_mul] of a number with itself
    are the same computation, for every argument: same result, and the same
    warnings, also when the square overflows. *)
Theorem sqr_mul_agree (x : fixed31_32) (Hx : wf31_32 x) :
  forall w, dal_fixed31_32_sqr x w = dal_fixed31_32_mul x x w.
Proof.
  intros w. unfold dal_fixed31_32_sqr, dal_fixed31_32_mul.
  rewrite magnitude, abs_i64_abs by done. by rewrite xorb_nilpotent.
Qed.

(** [dal_fixed31_32_from_fraction] is correctly rounded: for a non-zero
    denominator, when the rounded quotient is representable, it raises no
    warning and returns the fixed-point number nearest to
    [numerator / denominator] (the error is at most half a unit in the last
    place, for every combination of signs). *)
Theorem from_fraction_nearest (numerator denominator w : Z) :
  is_s64 numerator -> is_s64 denominator -> denominator <> 0 ->
  round_div (Z.abs numerator * 2 ^ 32) (Z.abs denominator) <= LLONG_MAX ->
  exists r, dal_fixed31_32_from_fraction numerator denominator w = Ok (Fixed r, w) /\
    is_s64 r /\
    2 * Z.abs (r * denominator - numerator * 2 ^ 32) <= Z.abs denominator.
Proof.
  intros Hn Hd Hd0 Hq. exists (fraction_value numerator denominator).
  split; [by apply from_fraction_run|].
  split; [|apply signed_quotient_error; [done|]; apply round_div_nearest; lia].
  pose proof (round_div_nonneg (Z.abs numerator * 2 ^ 32) (Z.abs denominator) ltac:(lia) ltac:(lia)).
  unfold fraction_value, LLONG_MAX in *. destruct (xorb _ _); cint.
Qed.

(** [dal_fixed31_32_mul] returns the product to within one unit in the last
    place, with the right sign and without a warning, whenever the computed
    magnitude is representable; the magnitude is never more than half a unit
    too small. *)
Theorem mul_within_ulp (x y : fixed31_32) (w : Z) :
  wf31_32 x -> wf31_32 y ->
  mul_magnitude 32 (Z.abs (value x)) (Z.abs (value y)) <= LLONG_MAX ->
  exists r, dal_fixed31_32_mul x y w = Ok (Fixed r, w) /\ is_s64 r /\
    - 2 ^ 31 < 2 ^ 32 * Z.abs r - Z.abs (value x * value y) <= 2 ^ 32 /\
    0 <= r * (value x * value y).
Proof.
  intros Hx Hy Hm. exists (mul_value (value x) (value y)).
  split; [by apply mul_run|].
  pose proof (mul_magnitude_nonneg 32 (Z.abs (value x)) (Z.abs (value y))
    ltac:(lia) ltac:(lia) ltac:(lia)).
  unfold mul_value. cbv zeta. rewrite signed_abs, Z.abs_mul by done.
  split; [unfold LLONG_MAX in *; destruct (xorb _ _); cint|].
  split; [apply (mul_magnitude_error 32); lia|by apply signed_product_sign].
Qed.

Lemma from_int_run k w :
  is_s32 k -> dal_fixed31_32_from_int k w = Ok (Fixed (k * 2 ^ 32), w).
Proof.
  intros Hk. unfold dal_fixed31_32_from_int.
  rewrite ASSERT_bind by (unfold LONG_MIN, LONG_MAX, LLONG_MIN, LLONG_MAX;
    apply andb_true_intro; split; apply Z.leb_le; cint).
  unfold BITS_PER_FRACTIONAL_PART. rewrite Z.shiftl_mul_pow2 by lia.
  unfold mret, M_ret. do 3 f_equal. cint.
Qed.

Lemma mul_int_run x k w :
  wf31_32 x -> is_s32 k -> Z.abs (value x * k) <= LLONG_MAX ->
  dal_fixed31_32_mul_int x k w = Ok (Fixed (value x * k), w).
Proof.
  intros Hx Hk Hm. unfold dal_fixed31_32_mul_int.
  erewrite bind_eval by (by apply from_int_run).
  assert (mul_magnitude 32 (Z.abs (value x)) (Z.abs (k * 2 ^ 32)) = Z.abs (value x * k)) as E.
  { replace (Z.abs (k * 2 ^ 32)) with (Z.abs k * 2 ^ 32) by lia.
    rewrite mul_magnitude_int by lia. by rewrite Z.abs_mul. }
  rewrite mul_run; [|done|unfold wf31_32; cbn; cint|by cbn [value]; rewrite E].
  cbn [value]. do 3 f_equal. unfold mul_value. cbv zeta. rewrite E.
  destruct (Z.ltb_spec (value x) 0), (Z.ltb_spec (k * 2 ^ 32) 0); cbn [xorb]; nia.
Qed.

(** ** Addition and subtraction *)

Lemma add_run x y w :
  wf31_32 x -> wf31_32 y -> is_s64 (value x + value y) ->
  dal_fixed31_32_add x y w = Ok (Fixed (value x + value y), w).
Proof.
  unfold wf31_32. intros Hx Hy Hs. unfold dal_fixed31_32_add, LLONG_MAX, LLONG_MIN.
  rewrite !Z.geb_leb. rewrite ASSERT_bind; [by rewrite s64_small|].
  destruct (Z.leb_spec 0 (value x)), (Z.ltb_spec (value x) 0); try lia; cbn [andb orb];
    rewrite ?orb_false_r; apply Z.leb_le; cint.
Qed.

Lemma sub_run x y w :
  wf31_32 x -> wf31_32 y -> is_s64 (value x - value y) ->
  dal_fixed31_32_sub x y w = Ok (Fixed (value x - value y), w).
Proof.
  unfold wf31_32. intros Hx Hy Hs. unfold dal_fixed31_32_sub, LLONG_MAX, LLONG_MIN.
  rewrite !Z.geb_leb. rewrite ASSERT_bind; [by rewrite s64_small|].
  destruct (Z.leb_spec 0 (value y)), (Z.ltb_spec (value y) 0); try lia; cbn [andb orb];
    rewrite ?orb_false_r; apply Z.leb_le; cint.
Qed.

(** ** Conversion to integers *)

Lemma signed_integer_part v A :
  is_s64 v -> 0 <= A < 2 ^ 63 ->
  (if v >=? 0 then s32 (GET_INTEGER_PART A) else s32 (- s32 (GET_INTEGER_PART A))) =
  (if v <? 0 then - (A / 2 ^ 32) else A / 2 ^ 32).
Proof.
  intros Hv HA. rewrite integer_part, Z.geb_leb.
  assert (0 <= A / 2 ^ 32 < 2147483648) by (Z.div_mod_to_equations; lia).
  destruct (Z.leb_spec 0 v), (Z.ltb_spec v 0); try lia; cint.
Qed.

Lemma truncate_with_run s x w :
  wf31_32 x -> 0 <= s -> Z.abs (value x) + s <= LLONG_MAX ->
  truncate_with s x w =
    Ok (if value x <? 0 then - ((Z.abs (value x) + s) / 2 ^ 32)
        else (Z.abs (value x) + s) / 2 ^ 32, w).
Proof.
  unfold wf31_32. intros Hx Hs Hm. unfold truncate_with, LLONG_MAX in *.
  rewrite abs_i64_abs by done.
  rewrite ASSERT_bind by (rewrite Z.geb_leb; apply Z.leb_le; cint).
  assert (u64 (Z.abs (value x) + s) = Z.abs (value x) + s) as -> by cint.
  rewrite signed_integer_part by (done || lia). done.
Qed.

Lemma truncate_with_sgn s x w :
  wf31_32 x -> 0 <= s < 2 ^ 32 -> Z.abs (value x) + s <= LLONG_MAX ->
  truncate_with s x w = Ok (Z.sgn (value x) * ((Z.abs (value x) + s) / 2 ^ 32), w).
Proof.
  intros Hx Hs Hm. rewrite truncate_with_run by (done || lia). do 2 f_equal.
  destruct (Z.ltb_spec (value x) 0); [rewrite Z.sgn_neg by lia; lia|].
  destruct (Z.eq_dec (value x) 0) as [E|]; [|rewrite Z.sgn_pos by lia; lia].
  rewrite E. apply Z.div_small. cbn. lia.
Qed.

(** The conversions to integers act on the magnitude: [floor] truncates
    towards zero for every argument, [round] gives the nearest integer with
    halves away from zero and [ceil] the next integer away from zero, both
    without a warning while the magnitude plus the summand is representable. *)
Theorem integer_conversions (x : fixed31_32) (w : Z) :
  wf31_32 x ->
  dal_fixed31_32_floor x = Z.quot (value x) (2 ^ 32) /\
  (Z.abs (value x) + 2 ^ 31 <= LLONG_MAX ->
   dal_fixed31_32_round x w =
     Ok (Z.sgn (value x) * ((Z.abs (value x) + 2 ^ 31) / 2 ^ 32), w)) /\
  (Z.abs (value x) + (2 ^ 32 - 1) <= LLONG_MAX ->
   dal_fixed31_32_ceil x w =
     Ok (Z.sgn (value x) * ((Z.abs (value x) + (2 ^ 32 - 1)) / 2 ^ 32), w)).
Proof.
  intros Hx. split; [|split].
  - unfold dal_fixed31_32_floor, wf31_32 in *. rewrite abs_i64_abs by done.
    rewrite integer_part, Z.geb_leb. destruct (Z.leb_spec 0 (value x)).
    + rewrite Z.quot_div_nonneg by lia. rewrite Z.abs_eq by lia. cint.
    + assert (value x ÷ 2 ^ 32 = - (Z.abs (value x) / 2 ^ 32)) as ->; [|cint].
      rewrite <- Z.quot_div_nonneg, <- Z.quot_opp_l by lia. f_equal. lia.
  - exact (truncate_with_sgn (2 ^ 31) x w Hx ltac:(lia)).
  - exact (truncate_with_sgn (2 ^ 32 - 1) x w Hx ltac:(lia)).
Qed.

(** ** Scaler formats *)

Lemma ux_dy_spec v i f :
  0 <= i <= 30 -> 1 <= f -> i + f <= 32 ->
  ux_dy v i f = v mod 2 ^ (32 + i) / 2 ^ (32 - f).
Proof.
  intros Hi Hf Hif. unfold ux_dy, FRACTIONAL_PART_MASK, GET_INTEGER_PART,
    BITS_PER_FRACTIONAL_PART.
  assert (s32 (Z.shiftl 1 i) = 2 ^ i) as ->.
  { rewrite Z.shiftl_1_l. assert (0 < 2 ^ i <= 2 ^ 30); [|cint].
    split; [lia|apply Z.pow_le_mono_r; lia]. }
  assert (u32 (2 ^ i - 1) = Z.ones i) as ->.
  { rewrite Z.ones_equiv, <- Z.sub_1_r. assert (0 < 2 ^ i <= 2 ^ 30); [|cint].
    split; [lia|apply Z.pow_le_mono_r; lia]. }
  rewrite <- Z.shiftr_div_pow2 by lia. apply Z.bits_inj'. intros n Hn.
  rewrite Z.shiftr_spec, testbit_mod_pow2 by lia.
  rewrite Z.lor_spec, testbit_u32, Z.shiftr_spec by lia.
  destruct (Z.le_gt_cases f n).
  - rewrite Z.shiftl_spec by lia. autorewrite with zbits.
    replace (n - f + 32) with (n + (32 - f)) by lia.
    repeat match goal with |- context [?a <? ?b] => destruct (Z.ltb_spec a b); try lia end;
      btauto.
  - rewrite Z.shiftl_spec_low by lia. autorewrite with zbits.
    repeat match goal with |- context [?a <? ?b] => destruct (Z.ltb_spec a b); try lia end;
      btauto.
Qed.

(** The scaler conversions keep two (respectively no) integer bits and the
    nineteen leading fractional bits of the two's complement value: the
    result is the value modulo 4 (respectively 1) in units of [2^-19], cut
    towards minus infinity, so it always fits the register field. *)
Theorem scaler_formats (x : fixed31_32) :
  dal_fixed31_32_u2d19 x = value x mod 2 ^ 34 / 2 ^ 13 /\
  0 <= dal_fixed31_32_u2d19 x < 2 ^ 21 /\
  dal_fixed31_32_u0d19 x = value x mod 2 ^ 32 / 2 ^ 13 /\
  0 <= dal_fixed31_32_u0d19 x < 2 ^ 19.
Proof.
  unfold dal_fixed31_32_u2d19, dal_fixed31_32_u0d19. rewrite !ux_dy_spec by lia.
  change (2 ^ (32 + 2)) with (2 ^ 34). change (2 ^ (32 - 19)) with (2 ^ 13).
  change (2 ^ (32 + 0)) with (2 ^ 32).
  repeat split; try (Z.div_mod_to_equations; lia).
Qed.

(** ** Instances *)

(** -1/3 *)
Lemma from_fraction_nearest_witness :
  exists r, dal_fixed31_32_from_fraction (-1) 3 0 = Ok (Fixed r, 0) /\ is_s64 r /\
    2 * Z.abs (r * 3 - -1 * 2 ^ 32) <= Z.abs 3.
Proof.
  refine (from_fraction_nearest (-1) 3 0 _ _ _ _); [cint|cint|lia|vm_compute; congruence].
Defined.

(** 0.5 * 0.5: the result exceeds 0.25 by one unit in the last place. *)
Lemma mul_within_ulp_witness :
  dal_fixed31_32_mul dal_fixed31_32_half dal_fixed31_32_half 0 = Ok (Fixed (2 ^ 30 + 1), 0) /\
  exists r, dal_fixed31_32_mul dal_fixed31_32_half dal_fixed31_32_half 0 = Ok (Fixed r, 0) /\
    is_s64 r /\
    - 2 ^ 31 < 2 ^ 32 * Z.abs r - Z.abs (2 ^ 31 * 2 ^ 31) <= 2 ^ 32 /\ 0 <= r * (2 ^ 31 * 2 ^ 31).
Proof.
  split; [reflexivity|].
  refine (mul_within_ulp dal_fixed31_32_half dal_fixed31_32_half 0 _ _ _);
    [unfold wf31_32; cbn; cint..|vm_compute; congruence].
Defined.

(** -1.5: truncated to -1, rounded and lifted to -2. *)
Lemma integer_conversions_witness :
  dal_fixed31_32_floor (Fixed (-3 * 2 ^ 31)) = -1 /\
  dal_fixed31_32_round (Fixed (-3 * 2 ^ 31)) 0 = Ok (-2, 0) /\
  dal_fixed31_32_ceil (Fixed (-3 * 2 ^ 31)) 0 = Ok (-2, 0).
Proof.
  destruct (integer_conversions (Fixed (-3 * 2 ^ 31)) 0) as (Hf & Hr & Hc).
  { unfold wf31_32; cbn; cint. }
  split; [exact Hf|split; [apply Hr|apply Hc]]; vm_compute; congruence.
Defined.
