(* ===== verification/FixPtSeries.v ===== *)
(** * The series of the fixed-point library stay in range

    [sinc], [sin], [cos] and [exp] are Taylor series evaluated in 31.32
    arithmetic.  The bounds of the partial results are propagated by executable
    functions ([trig_ok], [exp_ok]) that mirror the loops, so that each range
    theorem is one run of the checker.  [Conversion] has their client, the
    colour matrices of dal/dc/basics/conversion.c. *)

From stdpp Require Import base numbers list.
From S2P Require Import Prelude CMonad DmServices FixCore FixPt FixPtProps.

(** ** Magnitudes of the operations *)

Lemma fraction_value_abs n d :
  d <> 0 -> Z.abs (fraction_value n d) = round_div (Z.abs n * 2 ^ 32) (Z.abs d).
Proof.
  intros Hd. unfold fraction_value. cbv zeta.
  pose proof (round_div_nonneg (Z.abs n * 2 ^ 32) (Z.abs d)). destruct (xorb _ _); lia.
Qed.

Lemma fraction_value_error n d :
  d <> 0 -> 2 * Z.abs (fraction_value n d * d - n * 2 ^ 32) <= Z.abs d.
Proof.
  intros Hd. apply signed_quotient_error; [done|]. apply round_div_nearest. lia.
Qed.

Lemma round_div_cancel a b c : 0 < b -> 0 < c -> round_div (a * c) (b * c) = round_div a b.
Proof.
  intros. unfold round_div.
  replace (2 * (a * c) + b * c) with ((2 * a + b) * c) by ring.
  replace (2 * (b * c)) with (2 * b * c) by ring. apply Z.div_mul_cancel_r; lia.
Qed.

(** Division by a small positive integer never overflows. *)
Lemma div_int_run x k w :
  wf31_32 x -> Z.abs (value x) < LLONG_MAX -> 1 <= k < 2 ^ 31 ->
  exists r, dal_fixed31_32_div_int x k w = Ok (Fixed r, w) /\
    Z.abs r <= Z.abs (value x) / k + 1 /\ (0 <= value x -> round_div (value x) k = r).
Proof.
  intros Hx Hm Hk. unfold dal_fixed31_32_div_int, wf31_32 in *.
  erewrite bind_eval by (apply from_int_run; cint). cbn [value].
  exists (fraction_value (value x) (k * 2 ^ 32)).
  assert (round_div (Z.abs (value x) * 2 ^ 32) (Z.abs (k * 2 ^ 32)) =
          round_div (Z.abs (value x)) k) as E.
  { replace (Z.abs (k * 2 ^ 32)) with (k * 2 ^ 32) by lia. apply round_div_cancel; lia. }
  pose proof (round_div_le_succ (Z.abs (value x)) k ltac:(lia) ltac:(lia)).
  assert (Z.abs (value x) / k <= Z.abs (value x)) by (apply Z.div_le_upper_bound; nia).
  split; [|split].
  - apply from_fraction_run; [done|cint|lia|rewrite E; lia].
  - rewrite fraction_value_abs, E by lia. lia.
  - intros Hp. unfold fraction_value. cbv zeta. rewrite E, Z.abs_eq by lia.
    by destruct (Z.ltb_spec (value x) 0), (Z.ltb_spec (k * 2 ^ 32) 0); try lia.
Qed.

Lemma mul_value_abs x y : Z.abs (mul_value x y) = mul_magnitude 32 (Z.abs x) (Z.abs y).
Proof.
  pose proof (mul_magnitude_nonneg 32 (Z.abs x) (Z.abs y) ltac:(lia) ltac:(lia) ltac:(lia)).
  unfold mul_value. cbv zeta. destruct (xorb _ _); lia.
Qed.

(** Multiplication under bounds on both factors. *)
Lemma mul_bounded x y X Y w :
  Z.abs (value x) <= X <= LLONG_MAX -> Z.abs (value y) <= Y <= LLONG_MAX ->
  X * Y / 2 ^ 32 + 1 <= LLONG_MAX ->
  exists r, dal_fixed31_32_mul x y w = Ok (Fixed r, w) /\
    Z.abs r <= X * Y / 2 ^ 32 + 1.
Proof.
  intros HX HY HM. exists (mul_value (value x) (value y)).
  pose proof (mul_magnitude_le 32 (Z.abs (value x)) (Z.abs (value y)) X Y ltac:(lia) ltac:(lia) ltac:(lia)).
  split; [|by rewrite mul_value_abs].
  apply mul_run; [unfold wf31_32, LLONG_MAX in *; cint..|lia].
Qed.

(** ** The Taylor loops of [sinc] and [cos] *)

Definition trig_step_bound (SQ B n : Z) : Z :=
  2 ^ 32 + ((SQ * B / 2 ^ 32 + 1) / (n * (n - 1)) + 1).

Definition trig_step_ok (SQ B n : Z) : bool :=
  (SQ <=? LLONG_MAX) && (B <=? LLONG_MAX) && (SQ * B / 2 ^ 32 + 1 <? LLONG_MAX) &&
  (2 <=? n) && (n <=? 30) && (trig_step_bound SQ B n <=? LLONG_MAX).

Fixpoint trig_bound (turns : nat) (SQ B n : Z) : Z :=
  match turns with
  | O => B
  | S t => trig_bound t SQ (trig_step_bound SQ B n) (n - 2)
  end.

Fixpoint trig_ok (turns : nat) (SQ B n : Z) : bool :=
  match turns with
  | O => true
  | S t => trig_step_ok SQ B n && trig_ok t SQ (trig_step_bound SQ B n) (n - 2)
  end.

Lemma trig_step_run square res n SQ B w :
  Z.abs (value square) <= SQ -> Z.abs (value res) <= B -> trig_step_ok SQ B n = true ->
  exists r, trig_step square res n w = Ok (Fixed r, w) /\
    Z.abs r <= trig_step_bound SQ B n.
Proof.
  intros HS HB Hok. unfold trig_step_ok in Hok.
  rewrite !andb_true_iff, !Z.leb_le, Z.ltb_lt in Hok.
  destruct Hok as (((((H1 & H2) & H3) & H4) & H5) & H6). unfold trig_step.
  destruct (mul_bounded square res SQ B w) as (p & Ep & Hp); [lia..|].
  rewrite (bind_eval _ _ _ _ _ Ep).
  assert (2 <= n * (n - 1) <= 870) as Hn by nia.
  assert (s32 (n * (n - 1)) = n * (n - 1)) as -> by cint.
  destruct (div_int_run (Fixed p) (n * (n - 1)) w) as (q & Eq & Hq & _);
    [unfold wf31_32, LLONG_MAX in *; cbn; cint|cbn; lia|lia|].
  rewrite (bind_eval _ _ _ _ _ Eq). cbn [value] in *.
  assert (Z.abs p / (n * (n - 1)) <= (SQ * B / 2 ^ 32 + 1) / (n * (n - 1)))
    by (apply Z.div_le_mono; lia).
  unfold trig_step_bound, LLONG_MAX in *.
  exists (2 ^ 32 - q). split; [|lia].
  rewrite sub_run; [done|unfold wf31_32; cbn; cint..].
Qed.

Lemma trig_loop_run turns square SQ w : forall res B n,
  Z.abs (value square) <= SQ -> Z.abs (value res) <= B -> trig_ok turns SQ B n = true ->
  exists r, trig_loop turns square res n w = Ok (Fixed r, w) /\
    Z.abs r <= trig_bound turns SQ B n.
Proof.
  induction turns as [|t IH]; intros res B n HS HB Hok.
  - destruct res as [r]. by exists r.
  - cbn [trig_ok] in Hok. apply andb_true_iff in Hok as [H1 H2].
    destruct (trig_step_run square res n SQ B w) as (r & Er & Hr); [done..|].
    cbn [trig_loop trig_bound]. rewrite (bind_eval _ _ _ _ _ Er).
    by apply IH.
Qed.

(** ** Argument reduction of [sinc] *)

Lemma sinc_normalize_run x w :
  wf31_32 x -> value x <> LLONG_MIN ->
  sinc_normalize x w = Ok (Fixed (Z.rem (value x) (value dal_fixed31_32_two_pi)), w).
Proof.
  unfold wf31_32, LLONG_MIN. intros Hx Hmin. unfold sinc_normalize.
  cbn [value dal_fixed31_32_two_pi]. set (T := 26986075409).
  assert (value (dal_fixed31_32_abs x) = Z.abs (value x)) as Habs.
  { unfold dal_fixed31_32_abs, dal_fixed31_32_neg.
    destruct (Z.ltb_spec (value x) 0); cbn [value]; cint. }
  unfold dal_fixed31_32_le. rewrite Habs. change (value dal_fixed31_32_two_pi) with T.
  pose proof (Z.quot_rem' (value x) T) as HQR.
  destruct (Z.leb_spec T (Z.abs (value x))).
  - pose proof (Z.rem_bound_abs (value x) T ltac:(lia)).
    assert (Z.abs (value x ÷ T) <= 400000000) as Hq.
    { rewrite <- Z.quot_abs by lia. change (Z.abs T) with T. rewrite Z.quot_div_nonneg by lia.
      apply Z.div_le_upper_bound; cint. }
    assert (Z.abs (T * (value x ÷ T)) <= Z.abs (value x)) as Hle.
    { rewrite Z.abs_mul, <- Z.quot_abs by lia. change (Z.abs T) with T.
      rewrite Z.quot_div_nonneg by lia. apply Z.mul_div_le. lia. }
    cbv iota. rewrite div64_s64_bind by lia.
    assert (s32 (s64 (value x ÷ T)) = value x ÷ T) as -> by cint.
    assert (dal_fixed31_32_mul_int dal_fixed31_32_two_pi (value x ÷ T) w =
            Ok (Fixed (T * (value x ÷ T)), w)) as E.
    { apply mul_int_run; change (value dal_fixed31_32_two_pi) with T;
        unfold wf31_32, LLONG_MAX; [done|cint|cint]. }
    rewrite (bind_eval _ _ _ _ _ E).
    rewrite sub_run; cbn [value]; unfold wf31_32; cbn [value];
      [|cint|cint|cint].
    do 3 f_equal. lia.
  - assert (Z.rem (value x) T = value x) as ->; [|by destruct x].
    apply Z.rem_small_iff; lia.
Qed.

(** Bounds used below: [2 pi], its square, and the resulting bounds of the
    two series. *)
Definition two_pi_sq : Z := 26986075409 * 26986075409 / 2 ^ 32 + 1.
Definition sinc_bound : Z := trig_bound 13 two_pi_sq (2 ^ 32) 27.
Definition cos_bound : Z := trig_bound 13 two_pi_sq (2 ^ 32) 26.

Lemma sqr_bounded x w :
  Z.abs (value x) <= 26986075409 ->
  exists s, dal_fixed31_32_sqr x w = Ok (Fixed s, w) /\ Z.abs s <= two_pi_sq.
Proof.
  intros Hx.
  assert (forall w, dal_fixed31_32_sqr x w = dal_fixed31_32_mul x x w) as ->.
  { intros w'. unfold dal_fixed31_32_sqr, dal_fixed31_32_mul.
    rewrite magnitude, abs_i64_abs by cint. by rewrite xorb_nilpotent. }
  apply mul_bounded; unfold LLONG_MAX; [lia..|vm_compute; congruence].
Qed.

(** The series of [sinc], before the result is rescaled to the original
    argument. *)
Lemma sinc_run x w :
  wf31_32 x -> value x <> LLONG_MIN ->
  exists r, dal_fixed31_32_sinc x w = Ok (Fixed r, w) /\
    Z.abs r <= sinc_bound + 1 /\
    2 * Z.abs (r * value x) <= 2 * (sinc_bound * 26986075409 + 2 ^ 32) + Z.abs (value x).
Proof.
  intros Hx Hmin. unfold dal_fixed31_32_sinc.
  rewrite (bind_eval _ _ _ _ _ (sinc_normalize_run x w Hx Hmin)).
  cbn [value dal_fixed31_32_two_pi]. set (T := 26986075409).
  pose proof (Z.rem_bound_abs (value x) T ltac:(lia)) as Hrem. change (Z.abs T) with T in Hrem.
  pose proof (Z.quot_rem' (value x) T) as HQR.
  destruct (sqr_bounded (Fixed (Z.rem (value x) T)) w) as (s & Es & Hs); [cbn; lia|].
  rewrite (bind_eval _ _ _ _ _ Es).
  destruct (trig_loop_run 13 (Fixed s) two_pi_sq w dal_fixed31_32_one (2 ^ 32) 27)
    as (r & Er & Hr); [done|done|vm_compute; reflexivity|].
  rewrite (bind_eval _ _ _ _ _ Er). fold sinc_bound in Hr.
  destruct (Z.eqb_spec (value x) (Z.rem (value x) T)) as [E|NE]; cbn [negb].
  { exists r. split; [done|]. split; [lia|]. rewrite Z.abs_mul, E. nia. }
  destruct (mul_bounded (Fixed r) (Fixed (Z.rem (value x) T)) sinc_bound T w)
    as (p & Ep & Hp); [cbn; split; [done|vm_compute; congruence]|cbn; unfold LLONG_MAX; lia|
    vm_compute; congruence|].
  rewrite (bind_eval _ _ _ _ _ Ep).
  assert (T <= Z.abs (value x)) as HT.
  { destruct (Z.le_gt_cases T (Z.abs (value x))); [done|].
    destruct NE. symmetry. apply Z.rem_small_iff; lia. }
  assert (Z.abs p * 2 ^ 32 <= sinc_bound * T + 2 ^ 32) as Hp'.
  { pose proof (Z.mul_div_le (sinc_bound * T) (2 ^ 32) ltac:(lia)). lia. }
  assert (round_div (Z.abs p * 2 ^ 32) (Z.abs (value x)) <= sinc_bound + 1) as HR.
  { unfold round_div. apply Z.div_le_upper_bound; [lia|].
    assert (T * sinc_bound <= Z.abs (value x) * sinc_bound) by
      (apply Z.mul_le_mono_nonneg_r; [vm_compute; congruence|done]). lia. }
  exists (fraction_value p (value x)). split; [|split].
  - apply from_fraction_run; [|done|lia|etrans; [exact HR|vm_compute; congruence]].
    cbn [value]. assert (sinc_bound * T / 2 ^ 32 + 1 <= LLONG_MAX) by (vm_compute; congruence).
    unfold LLONG_MAX in *. cint.
  - rewrite fraction_value_abs by lia. done.
  - pose proof (fraction_value_error p (value x) ltac:(lia)). lia.
Qed.

(** [sinc] and [sin] terminate without overflow or division by zero for
    every argument except the most negative one, however large: the argument
    is reduced exactly modulo [2 pi] first, no [ASSERT] fires, and the results
    are bounded. *)
Theorem sinc_sin_in_range (x : fixed31_32) (w : Z) :
  wf31_32 x -> value x <> LLONG_MIN ->
  sinc_normalize x w = Ok (Fixed (Z.rem (value x) (value dal_fixed31_32_two_pi)), w) /\
  (exists r, dal_fixed31_32_sinc x w = Ok (Fixed r, w) /\ Z.abs r <= 43 * 2 ^ 32) /\
  (exists r, dal_fixed31_32_sin x w = Ok (Fixed r, w) /\ Z.abs r <= 2 ^ 31 * 2 ^ 32).
Proof.
  intros Hx Hmin. split; [by apply sinc_normalize_run|].
  destruct (sinc_run x w Hx Hmin) as (r & Er & Hr & He).
  assert (sinc_bound + 1 <= 43 * 2 ^ 32) by (vm_compute; congruence).
  assert (2 * (sinc_bound * 26986075409 + 2 ^ 32) <= 2 ^ 80) as HB by (vm_compute; congruence).
  split; [exists r; split; [done|lia]|].
  unfold dal_fixed31_32_sin. rewrite (bind_eval _ _ _ _ _ Er).
  exists (mul_value (value x) r).
  assert (mul_magnitude 32 (Z.abs (value x)) (Z.abs r) <= 2 ^ 31 * 2 ^ 32 - 1) as HM.
  { pose proof (mul_magnitude_error 32 (Z.abs (value x)) (Z.abs r) ltac:(lia) ltac:(lia) ltac:(lia)).
    rewrite <- Z.abs_mul, (Z.mul_comm (value x)) in *. unfold wf31_32 in Hx.
    assert (Z.abs (value x) <= 2 ^ 63) by cint. lia. }
  split; [|rewrite mul_value_abs; lia].
  apply mul_run; [done|unfold wf31_32; cbn; cint|cbn; unfold LLONG_MAX; lia].
Qed.

(** [cos] is free of overflow on its documented domain: for an argument in
    [-2 pi, 2 pi] all thirteen terms of the series stay representable and no
    [ASSERT] fires. *)
Theorem cos_in_range (x : fixed31_32) (w : Z) :
  Z.abs (value x) <= value dal_fixed31_32_two_pi ->
  exists r, dal_fixed31_32_cos x w = Ok (Fixed r, w) /\ Z.abs r <= 268 * 2 ^ 32.
Proof.
  intros Hx. destruct (sqr_bounded x w Hx) as (s & Es & Hs).
  unfold dal_fixed31_32_cos. rewrite (bind_eval _ _ _ _ _ Es).
  destruct (trig_loop_run 13 (Fixed s) two_pi_sq w dal_fixed31_32_one (2 ^ 32) 26)
    as (r & Er & Hr); [done|done|vm_compute; reflexivity|].
  exists r. split; [done|]. etrans; [exact Hr|vm_compute; congruence].
Qed.

(** ** The exponential *)

Definition exp_step_bound (X B n : Z) : Z := 2 ^ 32 + ((X * B / 2 ^ 32 + 1) / n + 1).

Definition exp_step_ok (X B n : Z) : bool :=
  (X <=? LLONG_MAX) && (B <=? LLONG_MAX) && (X * B / 2 ^ 32 + 1 <? LLONG_MAX) &&
  (exp_step_bound X B n <=? LLONG_MAX).

Fixpoint exp_bound (turns : nat) (X B : Z) : Z :=
  match turns with
  | O => B
  | S t => exp_bound t X (exp_step_bound X B (Z.of_nat turns + 1))
  end.

Fixpoint exp_ok (turns : nat) (X B : Z) : bool :=
  match turns with
  | O => true
  | S t => exp_step_ok X B (Z.of_nat turns + 1) &&
           exp_ok t X (exp_step_bound X B (Z.of_nat turns + 1))
  end.

Lemma exp_loop_run turns arg X w : forall res B,
  (turns < 100)%nat ->
  Z.abs (value arg) <= X -> Z.abs (value res) <= B -> exp_ok turns X B = true ->
  exists r, exp_loop turns arg res w = Ok (Fixed r, w) /\ Z.abs r <= exp_bound turns X B.
Proof.
  induction turns as [|t IH]; intros res B Ht HX HB Hok.
  { destruct res as [r]. by exists r. }
  cbn [exp_ok] in Hok. apply andb_true_iff in Hok as [Hok Hrest].
  unfold exp_step_ok in Hok. rewrite !andb_true_iff, !Z.leb_le, Z.ltb_lt in Hok.
  destruct Hok as (((H1 & H2) & H3) & H4). cbn [exp_loop exp_bound].
  set (n := Z.of_nat (S t) + 1) in *. assert (2 <= n < 200) by lia.
  destruct (mul_bounded arg res X B w) as (p & Ep & Hp); [lia..|].
  rewrite (bind_eval _ _ _ _ _ Ep).
  destruct (div_int_run (Fixed p) n w) as (q & Eq & Hq & _);
    [unfold wf31_32, LLONG_MAX in *; cbn; cint|cbn; lia|lia|].
  rewrite (bind_eval _ _ _ _ _ Eq). cbn [value] in *.
  assert (Z.abs p / n <= (X * B / 2 ^ 32 + 1) / n) by (apply Z.div_le_mono; lia).
  assert (Z.abs (2 ^ 32 + q) <= exp_step_bound X B n) by (unfold exp_step_bound; lia).
  assert (dal_fixed31_32_add dal_fixed31_32_one (Fixed q) w = Ok (Fixed (2 ^ 32 + q), w)) as Ea.
  { unfold exp_step_bound, LLONG_MAX in *. apply add_run; unfold wf31_32; cbn; cint. }
  rewrite (bind_eval _ _ _ _ _ Ea). apply IH; [lia|done|done|done].
Qed.

(** Half of [ln 2], with the rounding error of the reduction. *)
Definition exp_domain : Z := 1488522237.

Lemma exp_taylor_run r w :
  Z.abs (value r) <= exp_domain ->
  exists t, fixed31_32_exp_from_taylor_series r w = Ok (Fixed t, w) /\
    2 ^ 31 <= t <= 2 ^ 33.
Proof.
  unfold exp_domain. intros Hr. unfold fixed31_32_exp_from_taylor_series.
  erewrite bind_eval by (apply (from_fraction_run 11 10); [done|done|done|vm_compute; congruence]).
  rewrite ASSERT_bind by (apply Z.ltb_lt; cbn; lia).
  destruct (exp_loop_run 8 r exp_domain w (Fixed (fraction_value 11 10)) (2 ^ 33))
    as (q & Eq & Hq); [lia|done|vm_compute; congruence|vm_compute; reflexivity|].
  rewrite (bind_eval _ _ _ _ _ Eq).
  assert (exp_bound 8 exp_domain (2 ^ 33) <= 2 ^ 32 + 2 ^ 30) by (vm_compute; congruence).
  destruct (mul_bounded r (Fixed q) exp_domain (2 ^ 32 + 2 ^ 30) w) as (p & Ep & Hp);
    [unfold exp_domain, LLONG_MAX; lia|cbn; unfold LLONG_MAX; lia|vm_compute; congruence|].
  rewrite (bind_eval _ _ _ _ _ Ep).
  assert (exp_domain * (2 ^ 32 + 2 ^ 30) / 2 ^ 32 + 1 <= 2 ^ 31) by (vm_compute; congruence).
  exists (2 ^ 32 + p). split; [|lia].
  apply add_run; unfold wf31_32; cbn; cint.
Qed.

Lemma abs_value x : wf31_32 x -> value x <> LLONG_MIN ->
  value (dal_fixed31_32_abs x) = Z.abs (value x).
Proof.
  unfold wf31_32, LLONG_MIN, dal_fixed31_32_abs, dal_fixed31_32_neg. intros.
  destruct (Z.ltb_spec (value x) 0); cbn [value]; cint.
Qed.

(** The reduction [x = r + m ln 2] of the exponential: [m] is the quotient
    rounded twice (to a fixed-point number, then to an integer), and still
    [r] is at most half of [ln 2] plus one unit. *)
Lemma exp_reduce x w :
  1488522236 <= Z.abs (value x) <= 20 * 2 ^ 32 ->
  exists quo m, dal_fixed31_32_div x dal_fixed31_32_ln2 w = Ok (quo, w) /\
    dal_fixed31_32_round quo w = Ok (m, w) /\ 1 <= Z.abs m <= 29 /\
    Z.abs (value x - 2977044471 * m) <= exp_domain.
Proof.
  intros Hx. set (L := 2977044471). set (q := fraction_value (value x) L).
  assert (Z.abs q = round_div (Z.abs (value x) * 2 ^ 32) L) as Habs
    by (apply (fraction_value_abs (value x) L); lia).
  assert (round_div (1488522236 * 2 ^ 32) L <= Z.abs q) as Hlo
    by (rewrite Habs; apply round_div_mono; lia).
  assert (Z.abs q <= round_div (20 * 2 ^ 32 * 2 ^ 32) L) as Hhi
    by (rewrite Habs; apply round_div_mono; lia).
  assert (2 ^ 31 <= Z.abs q <= 29 * 2 ^ 32) as Hq.
  { split; [etrans; [|exact Hlo]|etrans; [exact Hhi|]]; vm_compute; congruence. }
  pose proof (fraction_value_error (value x) L ltac:(lia)) as Herr. fold q in Herr.
  set (m := Z.sgn q * ((Z.abs q + 2 ^ 31) / 2 ^ 32)).
  assert (2 * Z.abs (m * 2 ^ 32 - q) <= 2 ^ 32) as Hm.
  { unfold m. destruct (Z.lt_trichotomy q 0) as [Hn|[Hz|Hp]]; [|lia|];
      [rewrite Z.sgn_neg by lia|rewrite Z.sgn_pos by lia];
      Z.div_mod_to_equations; lia. }
  exists (Fixed q), m. split; [|split; [|split]].
  - apply from_fraction_run; [unfold wf31_32; cint|done|done|].
    change (Z.abs (value dal_fixed31_32_ln2)) with L. rewrite <- Habs. unfold LLONG_MAX. lia.
  - apply truncate_with_sgn; [unfold wf31_32; cbn; cint|cbn; lia|cbn [value]].
    change (value dal_fixed31_32_half) with (2 ^ 31). unfold LLONG_MAX. lia.
  - unfold m. destruct (Z.lt_trichotomy q 0) as [Hn|[Hz|Hp]]; [|lia|];
      [rewrite Z.sgn_neg by lia|rewrite Z.sgn_pos by lia];
      Z.div_mod_to_equations; lia.
  - unfold exp_domain. lia.
Qed.

(** The two rescalings by a power of two. *)
Lemma exp_shift_up t m w :
  2 ^ 31 <= t <= 2 ^ 33 -> 1 <= m <= 29 ->
  exists r, dal_fixed31_32_shl (Fixed t) (u8 m) w = Ok (Fixed r, w) /\ 0 < r.
Proof.
  intros Ht Hm. exists (t * 2 ^ m). assert (u8 m = m) as -> by cint.
  unfold dal_fixed31_32_shl. rewrite !Z.geb_leb. cbn [value].
  assert (2 ^ m * 2 ^ (63 - m) = 2 ^ 63) as HP by (rewrite <- Z.pow_add_r by lia; f_equal; lia).
  assert (2 ^ m <= 2 ^ 29) by (apply Z.pow_le_mono_r; lia).
  assert (0 < 2 ^ m) by lia.
  rewrite (proj2 (Z.leb_gt 64 m)) by lia.
  assert (t <= Z.shiftr LLONG_MAX m).
  { rewrite Z.shiftr_div_pow2 by lia. apply Z.div_le_lower_bound; [lia|].
    unfold LLONG_MAX. nia. }
  rewrite ASSERT_bind by
    (rewrite (proj2 (Z.leb_le 0 t)), (proj2 (Z.leb_le t _)) by lia; done).
  rewrite Z.shiftl_mul_pow2 by lia.
  split; [|nia]. unfold mret, M_ret. rewrite s64_small by (unfold is_s64; nia). done.
Qed.

Lemma exp_shift_down t m w :
  2 ^ 31 <= t <= 2 ^ 33 -> -29 <= m <= -1 ->
  exists r, (if s32 (- m) >=? 64 then fault
             else dal_fixed31_32_div_int (Fixed t) (s64 (Z.shiftl 1 (s32 (- m))))) w =
            Ok (Fixed r, w) /\ 0 < r.
Proof.
  intros Ht Hm. assert (s32 (- m) = - m) as -> by cint. rewrite Z.geb_leb.
  rewrite (proj2 (Z.leb_gt 64 (- m))) by lia. rewrite Z.shiftl_1_l.
  assert (2 ^ (- m) <= 2 ^ 29) by (apply Z.pow_le_mono_r; lia).
  assert (0 < 2 ^ (- m)) by lia. rewrite s64_small by cint.
  destruct (div_int_run (Fixed t) (2 ^ (- m)) w) as (r & E & _ & Hr);
    [unfold wf31_32; cbn; cint|cbn; unfold LLONG_MAX; lia|lia|].
  exists r. split; [exact E|]. rewrite <- Hr by (cbn; lia). cbn [value].
  unfold round_div. assert (1 <= (2 * t + 2 ^ (- m)) / (2 * 2 ^ (- m))); [|lia].
  apply Z.div_le_lower_bound; lia.
Qed.

(** [exp] is safe on [-20, 20]: it terminates without overflow, shift or
    division error and without a failed [ASSERT], and returns a positive
    number. *)
Theorem exp_in_range (x : fixed31_32) (w : Z) :
  Z.abs (value x) <= 20 * 2 ^ 32 ->
  exists r, dal_fixed31_32_exp x w = Ok (Fixed r, w) /\ 0 < r.
Proof.
  intros Hx. assert (wf31_32 x) by (unfold wf31_32; cint).
  assert (value x <> LLONG_MIN) by (unfold LLONG_MIN; lia).
  unfold dal_fixed31_32_exp, dal_fixed31_32_le at 1. rewrite abs_value by done.
  change (value dal_fixed31_32_ln2_div_2) with 1488522236.
  destruct (Z.leb_spec 1488522236 (Z.abs (value x))) as [Hbig|Hsmall]; cbv iota.
  2: { destruct (Z.eqb_spec (value x) 0); cbn [negb]; [by exists (2 ^ 32)|].
       destruct (exp_taylor_run x w) as (t & Et & Ht); [unfold exp_domain; lia|].
       exists t. split; [done|lia]. }
  destruct (exp_reduce x w) as (quo & m & E1 & E2 & Hm & Hr); [lia|].
  rewrite (bind_eval _ _ _ _ _ E1), (bind_eval _ _ _ _ _ E2).
  assert (dal_fixed31_32_mul_int dal_fixed31_32_ln2 m w = Ok (Fixed (2977044471 * m), w)) as E3.
  { apply mul_int_run; cbn; unfold LLONG_MAX, wf31_32; cbn; cint. }
  rewrite (bind_eval _ _ _ _ _ E3).
  assert (dal_fixed31_32_sub x (Fixed (2977044471 * m)) w =
          Ok (Fixed (value x - 2977044471 * m), w)) as E4.
  { unfold exp_domain in Hr. apply sub_run; unfold wf31_32; cbn [value]; cint. }
  rewrite (bind_eval _ _ _ _ _ E4). set (r := value x - 2977044471 * m) in *.
  rewrite ASSERT_bind by (apply negb_true_iff, Z.eqb_neq; lia).
  unfold exp_domain in Hr.
  rewrite ASSERT_bind by (apply Z.ltb_lt; rewrite abs_value;
    [cbn; lia|unfold wf31_32; cbn; cint|cbn; unfold LLONG_MIN; lia]).
  destruct (exp_taylor_run (Fixed r) w) as (t & Et & Ht); [done|].
  rewrite Z.gtb_ltb. destruct (Z.ltb_spec 0 m); rewrite (bind_eval _ _ _ _ _ Et).
  - exact (exp_shift_up t m w ltac:(lia) ltac:(lia)).
  - exact (exp_shift_down t m w ltac:(lia) ltac:(lia)).
Qed.

(** Below that range [exp] breaks down: at -22 the power of two that
    divides the series is [2^32], which [dal_fixed31_32_from_int] shifts out
    of the 64-bit word, so the division traps on a zero divisor. *)
Theorem exp_underflow_traps (w : Z) :
  dal_fixed31_32_exp (Fixed (-22 * 2 ^ 32)) w = Fault.
Proof. reflexivity. Qed.

(** ** Instances *)

(** 1000 radians *)
Lemma sinc_sin_in_range_witness :
  sinc_normalize (Fixed (1000 * 2 ^ 32)) 0 =
    Ok (Fixed (Z.rem (1000 * 2 ^ 32) 26986075409), 0) /\
  (exists r, dal_fixed31_32_sinc (Fixed (1000 * 2 ^ 32)) 0 = Ok (Fixed r, 0) /\
    Z.abs r <= 43 * 2 ^ 32) /\
  (exists r, dal_fixed31_32_sin (Fixed (1000 * 2 ^ 32)) 0 = Ok (Fixed r, 0) /\
    Z.abs r <= 2 ^ 31 * 2 ^ 32).
Proof.
  refine (sinc_sin_in_range (Fixed (1000 * 2 ^ 32)) 0 _ _).
  - unfold wf31_32; cbn; cint.
  - vm_compute; congruence.
Defined.

Lemma cos_in_range_witness :
  exists r, dal_fixed31_32_cos dal_fixed31_32_pi 0 = Ok (Fixed r, 0) /\ Z.abs r <= 268 * 2 ^ 32.
Proof. refine (cos_in_range dal_fixed31_32_pi 0 _). vm_compute; congruence. Defined.

Lemma exp_in_range_witness :
  exists r, dal_fixed31_32_exp (Fixed (-20 * 2 ^ 32)) 0 = Ok (Fixed r, 0) /\ 0 < r.
Proof. refine (exp_in_range (Fixed (-20 * 2 ^ 32)) 0 _). vm_compute; congruence. Defined.

(** ** Colour matrices (dal/dc/basics/conversion.c)

    Fixed-point numbers for the registers of the colour matrices, and the
    matrices themselves. *)

Module Conversion.
Definition DIVIDER : Z := 10000.
Definition S2D13_MIN : Z := -3 * DIVIDER.
Definition S2D13_MAX : Z := 3 * DIVIDER.

(** Shifts by the width of [int] and a zero divisor are faults. *)
Definition fixed_point_to_int_frac (arg : fixed31_32) (integer_bits fractional_bits : Z) : W Z :=
  if (31 <=? integer_bits) || (31 <=? fractional_bits) || (31 <=? integer_bits + fractional_bits + 1) then fault
  else
    let divisor := Z.shiftl 1 fractional_bits in
    let d := u16 (dal_fixed31_32_floor (dal_fixed31_32_abs arg)) in
    if u16 divisor =? 0 then fault
    else
      numerator ← (if d <=? u16 (Z.shiftl 1 integer_bits) - 1 ÷ u16 divisor
                   then p ← dal_fixed31_32_mul_int arg divisor; mret (u16 (dal_fixed31_32_floor p))
                   else
                     i ← dal_fixed31_32_from_int (Z.shiftl 1 integer_bits);
                     f ← dal_fixed31_32_from_int divisor;
                     r ← dal_fixed31_32_recip f;
                     p ← dal_fixed31_32_sub i r;
                     mret (dal_fixed31_32_floor p));
      let result := if numerator >=? 0 then u16 numerator else u16 (Z.shiftl 1 (integer_bits + fractional_bits + 1) + numerator) in
      mret (if negb (result =? 0) && dal_fixed31_32_lt arg dal_fixed31_32_zero then u16 (Z.lor result (Z.shiftl 1 (integer_bits + fractional_bits))) else result).

Fixpoint convert_loop (min_2_13 max_2_13 : fixed31_32) (flt : list fixed31_32) : W (list Z) :=
  match flt with
  | [] => mret []
  | f :: flt =>
      reg_value ← fixed_point_to_int_frac (dal_fixed31_32_clamp f min_2_13 max_2_13) 2 13;
      rest ← convert_loop min_2_13 max_2_13 flt;
      mret (u16 reg_value :: rest)
  end.
Definition convert_float_matrix (flt : list fixed31_32) : W (list Z) :=
  min_2_13 ← dal_fixed31_32_from_fraction S2D13_MIN DIVIDER;
  max_2_13 ← dal_fixed31_32_from_fraction S2D13_MAX DIVIDER;
  convert_loop min_2_13 max_2_13 flt.

Record dc_csc_adjustments := Csc { contrast : fixed31_32; saturation : fixed31_32; brightness : fixed31_32; hue : fixed31_32 }.
(** [multiplier * (a * x + b * y)] and [multiplier * (a * x - b * y)]. *)
Definition mix_add (multiplier a x b y : fixed31_32) : W fixed31_32 :=
  p ← dal_fixed31_32_mul a x; q ← dal_fixed31_32_mul b y; s ← dal_fixed31_32_add p q; dal_fixed31_32_mul multiplier s.
Definition mix_sub (multiplier a x b y : fixed31_32) : W fixed31_32 :=
  p ← dal_fixed31_32_mul a x; q ← dal_fixed31_32_mul b y; s ← dal_fixed31_32_sub p q; dal_fixed31_32_mul multiplier s.
(** The new matrix; its entry 3 is left to the callers. *)
Definition calculate_adjustments_common (ideal : list fixed31_32) (adj : dc_csc_adjustments) (m3 : fixed31_32) : W (list fixed31_32) :=
  match ideal with
  | [i0; i1; i2; i3; i4; i5; i6; i7; i8; i9; i10; i11] =>
      sin_hue ← dal_fixed31_32_sin (hue adj);
      cos_hue ← dal_fixed31_32_cos (hue adj);
      multiplier ← dal_fixed31_32_mul (contrast adj) (saturation adj);
      m0 ← dal_fixed31_32_mul i0 (contrast adj);
      m1 ← dal_fixed31_32_mul i1 (contrast adj);
      m2 ← dal_fixed31_32_mul i2 (contrast adj);
      m4 ← mix_add multiplier i8 sin_hue i4 cos_hue;
      m5 ← mix_add multiplier i9 sin_hue i5 cos_hue;
      m6 ← mix_add multiplier i10 sin_hue i6 cos_hue;
      m8 ← mix_sub multiplier i8 cos_hue i4 sin_hue;
      m9 ← mix_sub multiplier i9 cos_hue i5 sin_hue;
      m10 ← mix_sub multiplier i10 cos_hue i6 sin_hue;
      mret [m0; m1; m2; m3; m4; m5; m6; i7; m8; m9; m10; i11]
  | _ => fault
  end.
Definition entry3 (ideal : list fixed31_32) : W fixed31_32 := deref (ideal !! 3%nat).
Definition calculate_adjustments (ideal : list fixed31_32) (adj : dc_csc_adjustments) (matrix3 : fixed31_32) : W (list fixed31_32) :=
  m ← calculate_adjustments_common ideal adj matrix3;
  f ← dal_fixed31_32_from_fraction 86 100;
  b ← dal_fixed31_32_mul (brightness adj) f;
  i3 ← entry3 ideal;
  v ← dal_fixed31_32_add i3 b;
  mret (<[3%nat := v]> m).
Definition calculate_adjustments_y_only (ideal : list fixed31_32) (adj : dc_csc_adjustments) (matrix3 : fixed31_32) : W (list fixed31_32) :=
  m ← calculate_adjustments_common ideal adj matrix3;
  i3 ← entry3 ideal;
  v ← dal_fixed31_32_add i3 (brightness adj);
  mret (<[3%nat := v]> m).

(** The value of a coefficient: held within 3, in units of [2^-13]. *)
Definition s2d13 (x : fixed31_32) : Z := Z.quot (Z.max (-3 * 2 ^ 32) (Z.min (3 * 2 ^ 32) (value x)) * 2 ^ 13) (2 ^ 32).

Lemma clamp_value x : value (dal_fixed31_32_clamp x (Fixed (-3 * 2 ^ 32)) (Fixed (3 * 2 ^ 32))) = Z.max (-3 * 2 ^ 32) (Z.min (3 * 2 ^ 32) (value x)).
Proof. unfold dal_fixed31_32_clamp, dal_fixed31_32_le. cbn [value]. destruct (Z.leb_spec (value x) (-3 * 2 ^ 32)); [cbn [value]; lia|]. destruct (Z.leb_spec (3 * 2 ^ 32) (value x)); cbn [value]; lia. Qed.
Lemma floor_quot x : wf31_32 x -> dal_fixed31_32_floor x = value x ÷ 2 ^ 32.
Proof. intros H. exact (proj1 (integer_conversions x 0 H)). Qed.
(** Below -2^15 the sign bit of the register is set already. *)
Lemma sign_bit_set q : -32768 <= q < 0 -> u16 (Z.lor (u16 q) (Z.shiftl 1 15)) = u16 q.
Proof.
  intros Hq. assert (E : u16 q = q + 65536) by (unfold u16; symmetry; apply Z.mod_unique with (-1); lia). rewrite E.
  assert (H : Z.lor (q + 65536) (Z.shiftl 1 15) = q + 65536).
  { apply Z.bits_inj'. intros n Hn. rewrite Z.lor_spec, Z.shiftl_1_l, Z.pow2_bits_eqb by lia. destruct (Z.eqb_spec 15 n) as [<-|]; [|apply orb_false_r]. rewrite orb_true_r.
    symmetry. rewrite Z.testbit_true by lia. change (2 ^ 15) with 32768. Z.div_mod_to_equations. lia. }
  rewrite H. unfold u16. apply Z.mod_small. lia.
Qed.
Lemma to_int_frac_run c w : -3 * 2 ^ 32 <= value c <= 3 * 2 ^ 32 -> fixed_point_to_int_frac c 2 13 w = Ok (u16 (value c * 2 ^ 13 ÷ 2 ^ 32), w).
Proof.
  intros Hc. assert (Hwf : wf31_32 c) by (unfold wf31_32, is_s64; lia). unfold fixed_point_to_int_frac. change (u16 (Z.shiftl 1 13) =? 0) with false. change (Z.shiftl 1 13) with 8192. change ((31 <=? 2) || (31 <=? 13) || (31 <=? 2 + 13 + 1)) with false. cbv iota zeta.
  assert (Habs : wf31_32 (dal_fixed31_32_abs c) /\ value (dal_fixed31_32_abs c) = Z.abs (value c)).
  { unfold dal_fixed31_32_abs, dal_fixed31_32_neg, wf31_32 in *. destruct (Z.ltb_spec (value c) 0); cbn [value]; [|split; [done|lia]]. rewrite s64_small by (unfold is_s64; lia). unfold is_s64. lia. }
  rewrite floor_quot, (proj2 Habs), Z.quot_div_nonneg by (tauto || lia).
  assert (Hd : 0 <= Z.abs (value c) / 2 ^ 32 <= 3) by (split; [apply Z.div_pos; lia|apply Z.lt_succ_r, Z.div_lt_upper_bound; lia]).
  assert (Hle : (u16 (Z.abs (value c) / 2 ^ 32) <=? u16 (Z.shiftl 1 2) - 1 ÷ u16 8192) = true).
  { change (u16 (Z.shiftl 1 2) - 1 ÷ u16 8192) with 4. apply Z.leb_le. unfold u16. rewrite Z.mod_small; lia. }
  rewrite Hle. assert (Em : dal_fixed31_32_mul_int c 8192 w = Ok (Fixed (value c * 8192), w)) by (apply mul_int_run; [done|unfold is_s32; lia|unfold LLONG_MAX; lia]).
  erewrite bind_eval by (rewrite (bind_eval _ _ _ _ _ Em); reflexivity). rewrite floor_quot by (unfold wf31_32, is_s64; cbn [value]; lia). cbn [value].
  set (q := value c * 8192 ÷ 2 ^ 32). assert (Hq : -24576 <= q <= 24576) by (unfold q; Z.quot_rem_to_equations; lia).
  assert (Hu : 0 <= u16 q < 65536) by (apply Z.mod_pos_bound; lia). rewrite Z.geb_leb, (proj2 (Z.leb_le 0 (u16 q))) by lia.
  assert (Euu : u16 (u16 q) = u16 q) by (unfold u16; apply Z.mod_mod; lia). rewrite Euu. change (2 + 13) with 15. unfold mret, M_ret, dal_fixed31_32_lt. cbn [value dal_fixed31_32_zero]. do 2 f_equal.
  change (value c * 2 ^ 13 ÷ 2 ^ 32) with q. destruct (Z.eqb_spec (u16 q) 0) as [E0|E0]; cbn [negb andb]; [done|]. destruct (Z.ltb_spec (value c) 0); [|done].
  apply sign_bit_set. split; [lia|]. assert (q <= 0) by (unfold q; Z.quot_rem_to_equations; lia). destruct (Z.eq_dec q 0) as [Eq|]; [by rewrite Eq in E0|lia].
Qed.

(** A coefficient is written as two's complement with 13 fractional bits, cut
    towards zero and held within 3, without a warning, for every argument. *)
Theorem matrix_converted (flt : list fixed31_32) (w : Z) : convert_float_matrix flt w = Ok (map (fun x => u16 (s2d13 x)) flt, w).
Proof.
  unfold convert_float_matrix. assert (E1 : dal_fixed31_32_from_fraction S2D13_MIN DIVIDER w = Ok (Fixed (-3 * 2 ^ 32), w)) by (vm_compute; reflexivity).
  assert (E2 : dal_fixed31_32_from_fraction S2D13_MAX DIVIDER w = Ok (Fixed (3 * 2 ^ 32), w)) by (vm_compute; reflexivity).
  rewrite (bind_eval _ _ _ _ _ E1), (bind_eval _ _ _ _ _ E2). induction flt as [|x flt IH]; [done|]. cbn [convert_loop map].
  assert (Ex := to_int_frac_run (dal_fixed31_32_clamp x (Fixed (-3 * 2 ^ 32)) (Fixed (3 * 2 ^ 32))) w ltac:(rewrite clamp_value; lia)). rewrite clamp_value in Ex.
  rewrite (bind_eval _ _ _ _ _ Ex), (bind_eval _ _ _ _ _ IH). unfold mret, M_ret. do 3 f_equal. unfold u16. apply Z.mod_mod. lia.
Qed.

(** ** Neutral adjustments *)

Definition plain (x : fixed31_32) : Prop := wf31_32 x /\ value x <> LLONG_MIN.
Lemma mul_by_int x k w : wf31_32 x -> is_s32 k -> Z.abs (value x * k) <= LLONG_MAX -> dal_fixed31_32_mul x (Fixed (k * 2 ^ 32)) w = Ok (Fixed (value x * k), w).
Proof. intros Hx Hk Hm. pose proof (mul_int_run x k w Hx Hk Hm) as H. unfold dal_fixed31_32_mul_int in H. by rewrite (bind_eval _ _ _ _ _ (from_int_run k w Hk)) in H. Qed.
Lemma mul_one_r x w : plain x -> dal_fixed31_32_mul x dal_fixed31_32_one w = Ok (x, w).
Proof.
  unfold plain, wf31_32, is_s64, LLONG_MIN. intros [H1 H2]. change dal_fixed31_32_one with (Fixed (1 * 2 ^ 32)). rewrite mul_by_int by (unfold wf31_32, is_s64, is_s32, LLONG_MAX; lia).
  rewrite Z.mul_1_r. by destruct x.
Qed.
Lemma mul_zero_r x w : wf31_32 x -> dal_fixed31_32_mul x dal_fixed31_32_zero w = Ok (dal_fixed31_32_zero, w).
Proof. intros H. change dal_fixed31_32_zero with (Fixed (0 * 2 ^ 32)) at 1. rewrite mul_by_int by (done || unfold is_s32, LLONG_MAX; lia). by rewrite Z.mul_0_r. Qed.
Lemma mul_one_l x w : plain x -> dal_fixed31_32_mul dal_fixed31_32_one x w = Ok (x, w).
Proof.
  intros Hp. rewrite <- (mul_one_r x w Hp). destruct Hp as [H1 H2]. unfold wf31_32, is_s64, LLONG_MIN in *.
  assert (E : forall a b, mul_magnitude 32 a b = mul_magnitude 32 b a) by (intros a b; unfold mul_magnitude; by rewrite (Z.mul_comm a b), (Z.mul_comm (a mod _))).
  assert (Em : mul_magnitude 32 (Z.abs (value x)) (Z.abs (value dal_fixed31_32_one)) = Z.abs (value x)).
  { change (Z.abs (value dal_fixed31_32_one)) with (1 * 2 ^ 32). rewrite mul_magnitude_int by lia. apply Z.mul_1_r. }
  rewrite !mul_run; try (unfold wf31_32, is_s64; cbn; lia); [|rewrite Em; unfold LLONG_MAX; lia|rewrite E, Em; unfold LLONG_MAX; lia].
  do 3 f_equal. unfold mul_value. cbv zeta. by rewrite E, xorb_comm.
Qed.
Lemma add_zero_l x w : wf31_32 x -> dal_fixed31_32_add dal_fixed31_32_zero x w = Ok (x, w).
Proof. intros H. rewrite add_run by (done || unfold wf31_32, is_s64; cbn; lia). by destruct x. Qed.
Lemma add_zero_r x w : wf31_32 x -> dal_fixed31_32_add x dal_fixed31_32_zero w = Ok (x, w).
Proof. intros H. assert (E : value x + value dal_fixed31_32_zero = value x) by (cbn; lia). rewrite add_run by (try rewrite E; done || unfold wf31_32, is_s64; cbn; lia). rewrite E. by destruct x. Qed.
Lemma sub_zero_r x w : wf31_32 x -> dal_fixed31_32_sub x dal_fixed31_32_zero w = Ok (x, w).
Proof. intros H. assert (E : value x - value dal_fixed31_32_zero = value x) by (cbn; lia). rewrite sub_run by (try rewrite E; done || unfold wf31_32, is_s64; cbn; lia). rewrite E. by destruct x. Qed.
Lemma mix_add_neutral a b w : plain a -> plain b -> mix_add dal_fixed31_32_one a dal_fixed31_32_zero b dal_fixed31_32_one w = Ok (b, w).
Proof. intros [Ha _] Hb. unfold mix_add. by rewrite (bind_eval _ _ _ _ _ (mul_zero_r a w Ha)), (bind_eval _ _ _ _ _ (mul_one_r b w Hb)), (bind_eval _ _ _ _ _ (add_zero_l b w (proj1 Hb))), mul_one_l. Qed.
Lemma mix_sub_neutral a b w : plain a -> plain b -> mix_sub dal_fixed31_32_one a dal_fixed31_32_one b dal_fixed31_32_zero w = Ok (a, w).
Proof. intros Ha [Hb _]. unfold mix_sub. by rewrite (bind_eval _ _ _ _ _ (mul_one_r a w Ha)), (bind_eval _ _ _ _ _ (mul_zero_r b w Hb)), (bind_eval _ _ _ _ _ (sub_zero_r a w (proj1 Ha))), mul_one_l. Qed.

(** Contrast and saturation 1, brightness and hue 0 leave every matrix as it
    is, exactly and without a warning: no rounding error is introduced. *)
Theorem neutral_adjustments (ideal : list fixed31_32) (m3 : fixed31_32) (w : Z) :
  length ideal = 12%nat -> Forall plain ideal ->
  let adj := Csc dal_fixed31_32_one dal_fixed31_32_one dal_fixed31_32_zero dal_fixed31_32_zero in
  calculate_adjustments ideal adj m3 w = Ok (ideal, w) /\ calculate_adjustments_y_only ideal adj m3 w = Ok (ideal, w).
Proof.
  intros Hl Hp adj. do 12 (destruct ideal as [|? ideal]; [done|]). destruct ideal; [|done]. repeat (apply Forall_cons in Hp as [? Hp]).
  assert (Es : dal_fixed31_32_sin (hue adj) w = Ok (dal_fixed31_32_zero, w)) by (vm_compute; reflexivity). assert (Ec : dal_fixed31_32_cos (hue adj) w = Ok (dal_fixed31_32_one, w)) by (vm_compute; reflexivity).
  assert (Hc : forall i3, calculate_adjustments_common [f; f0; f1; f2; f3; f4; f5; f6; f7; f8; f9; f10] adj i3 w = Ok ([f; f0; f1; i3; f3; f4; f5; f6; f7; f8; f9; f10], w)).
  { intros i3. unfold calculate_adjustments_common. rewrite (bind_eval _ _ _ _ _ Es), (bind_eval _ _ _ _ _ Ec). cbn [contrast saturation adj]. erewrite bind_eval by (vm_compute; reflexivity).
    do 3 (erewrite bind_eval by (by apply mul_one_r)). do 3 (erewrite bind_eval by (by apply mix_add_neutral)). do 3 (erewrite bind_eval by (by apply mix_sub_neutral)). done. }
  split; unfold calculate_adjustments, calculate_adjustments_y_only; rewrite (bind_eval _ _ _ _ _ (Hc m3)).
  - erewrite bind_eval by (vm_compute; reflexivity). cbn [brightness adj]. erewrite bind_eval by (vm_compute; reflexivity). erewrite bind_eval by reflexivity. erewrite bind_eval by (apply add_zero_r; apply H2). done.
  - erewrite bind_eval by reflexivity. cbn [brightness adj]. erewrite bind_eval by (apply add_zero_r; apply H2). done.
Qed.
(** The largest value is taken to be [2^integer_bits], because [1 / divisor] is
    an integer division: 4.5 passes the test and is written as a negative number. *)
Theorem too_large_passes (w : Z) : fixed_point_to_int_frac (Fixed (9 * 2 ^ 31)) 2 13 w = Ok (0x9000, w).
Proof. vm_compute. reflexivity. Qed.
End Conversion.
