(* ===== verification/BwFixed.v ===== *)
(** * Bandwidth-calculation fixed point (dal/dc/calcs/bw_fixed.c)

    Signed 64-bit numbers with 24 fractional bits, used by the display
    bandwidth formulas.  Every function of the file, in the same style as
    [FixPt]: the state counts failed [ASSERT]s.  [Fixed32] is the unsigned
    fixed point of dal/dc/basics/fixpt32_32.c. *)

From stdpp Require Import base numbers list.
From S2P Require Import Prelude CMonad DmServices FixCore.

Record bw_fixed := Bw { bw_value : Z }.
Definition wf_bw (x : bw_fixed) : Prop := is_s64 (bw_value x).

Module BwConst.
Definition BITS_PER_FRACTIONAL_PART : Z := 24.
Definition MIN_I32 : Z := - 2 ^ 39.
Definition MAX_I32 : Z := 2 ^ 39 - 1.
Definition MAX_I64 : Z := 2 ^ 63 - 1.
Definition FRACTIONAL_PART_MASK : Z := Z.ones 24.
Definition GET_INTEGER_PART (x : Z) : Z := Z.shiftr x BITS_PER_FRACTIONAL_PART.
Definition GET_FRACTIONAL_PART (x : Z) : Z := Z.land FRACTIONAL_PART_MASK x.
End BwConst.
Import BwConst.

Definition bw_abs_i64 (arg : Z) : Z := if arg >=? 0 then u64 arg else u64 (s64 (- arg)).

Definition bw_int_to_fixed (value : Z) : W bw_fixed :=
  _ ← ASSERT ((value <? MAX_I32) && (value >? MIN_I32));
  mret (Bw (s64 (Z.shiftl value BITS_PER_FRACTIONAL_PART))).

Definition bw_fixed_to_int (v : bw_fixed) : Z := s32 (GET_INTEGER_PART (bw_value v)).

Definition bw_frc_to_fixed (numerator denominator : Z) : W bw_fixed :=
  let arg1_negative := numerator <? 0 in
  let arg2_negative := denominator <? 0 in
  _ ← ASSERT (negb (denominator =? 0));
  let arg1_value := bw_abs_i64 numerator in
  let arg2_value := bw_abs_i64 denominator in
  '(res_value, remainder) ← div64_u64_rem arg1_value arg2_value;
  _ ← ASSERT (res_value <=? MAX_I32);
  let '(remainder, res_value) :=
    fraction_bits (Z.to_nat BITS_PER_FRACTIONAL_PART) arg2_value remainder res_value in
  let summand := if u64 (Z.shiftl remainder 1) >=? arg2_value then 1 else 0 in
  _ ← ASSERT (res_value <=? u64 (MAX_I64 - summand));
  let res_value := u64 (res_value + summand) in
  let res := s64 res_value in
  mret (Bw (if xorb arg1_negative arg2_negative then s64 (- res) else res)).

Definition bw_min2 (arg1 arg2 : bw_fixed) : bw_fixed :=
  if bw_value arg1 <=? bw_value arg2 then arg1 else arg2.
Definition bw_max2 (arg1 arg2 : bw_fixed) : bw_fixed :=
  if bw_value arg2 <=? bw_value arg1 then arg1 else arg2.
Definition bw_min3 (v1 v2 v3 : bw_fixed) : bw_fixed := bw_min2 (bw_min2 v1 v2) v3.
Definition bw_max3 (v1 v2 v3 : bw_fixed) : bw_fixed := bw_max2 (bw_max2 v1 v2) v3.

Definition bw_floor2 (arg significance : bw_fixed) : W bw_fixed :=
  multiplicand ← div64_s64 (bw_value arg) (s64 (bw_abs_i64 (bw_value significance)));
  let result := s64 (u64 (bw_abs_i64 (bw_value significance) * u64 multiplicand)) in
  _ ← ASSERT (bw_abs_i64 result <=? bw_abs_i64 (bw_value arg));
  mret (Bw result).

Definition bw_ceil2 (arg significance : bw_fixed) : W bw_fixed :=
  multiplicand ← div64_s64 (bw_value arg) (s64 (bw_abs_i64 (bw_value significance)));
  let result := s64 (u64 (bw_abs_i64 (bw_value significance) * u64 multiplicand)) in
  mret (Bw
    (if bw_abs_i64 result <? bw_abs_i64 (bw_value arg) then
       if bw_value arg <? 0
       then s64 (u64 (u64 result - bw_abs_i64 (bw_value significance)))
       else s64 (u64 (u64 result + bw_abs_i64 (bw_value significance)))
     else result)).

Definition bw_add (arg1 arg2 : bw_fixed) : bw_fixed := Bw (s64 (bw_value arg1 + bw_value arg2)).
Definition bw_sub (arg1 arg2 : bw_fixed) : bw_fixed := Bw (s64 (bw_value arg1 - bw_value arg2)).

Definition bw_mul (arg1 arg2 : bw_fixed) : W bw_fixed :=
  let arg1_negative := bw_value arg1 <? 0 in
  let arg2_negative := bw_value arg2 <? 0 in
  let arg1_value := bw_abs_i64 (bw_value arg1) in
  let arg2_value := bw_abs_i64 (bw_value arg2) in
  let arg1_int := GET_INTEGER_PART arg1_value in
  let arg2_int := GET_INTEGER_PART arg2_value in
  let arg1_fra := GET_FRACTIONAL_PART arg1_value in
  let arg2_fra := GET_FRACTIONAL_PART arg2_value in
  let res := s64 (u64 (arg1_int * arg2_int)) in
  _ ← ASSERT (res <=? MAX_I32);
  let res := s64 (Z.shiftl res BITS_PER_FRACTIONAL_PART) in
  res ← add_partial res (u64 (arg1_int * arg2_fra));
  res ← add_partial res (u64 (arg2_int * arg1_fra));
  let tmp := u64 (arg1_fra * arg2_fra) in
  half ← bw_frc_to_fixed 1 2;
  let tmp := u64 (Z.shiftr tmp BITS_PER_FRACTIONAL_PART +
                  (if tmp >=? u64 (bw_value half) then 1 else 0)) in
  res ← add_partial res tmp;
  mret (Bw (if xorb arg1_negative arg2_negative then s64 (- res) else res)).

Definition bw_div (arg1 arg2 : bw_fixed) : W bw_fixed :=
  bw_frc_to_fixed (bw_value arg1) (bw_value arg2).

(** [div64_u64_rem] takes unsigned operands: the signed values are converted. *)
Definition bw_mod (arg1 arg2 : bw_fixed) : W bw_fixed :=
  '(_, remainder) ← div64_u64_rem (u64 (bw_value arg1)) (u64 (bw_value arg2));
  mret (Bw (s64 remainder)).

Definition fixed31_32_to_bw_fixed (raw : Z) : bw_fixed :=
  if raw <? 0 then
    let raw := s64 (- raw) in
    Bw (s64 (- Z.shiftr raw (32 - BITS_PER_FRACTIONAL_PART)))
  else Bw (Z.shiftr raw (32 - BITS_PER_FRACTIONAL_PART)).

Definition bw_equ (arg1 arg2 : bw_fixed) : bool := bw_value arg1 =? bw_value arg2.
Definition bw_neq (arg1 arg2 : bw_fixed) : bool := negb (bw_value arg1 =? bw_value arg2).
Definition bw_leq (arg1 arg2 : bw_fixed) : bool := bw_value arg1 <=? bw_value arg2.
Definition bw_meq (arg1 arg2 : bw_fixed) : bool := bw_value arg1 >=? bw_value arg2.
Definition bw_ltn (arg1 arg2 : bw_fixed) : bool := bw_value arg1 <? bw_value arg2.
Definition bw_mtn (arg1 arg2 : bw_fixed) : bool := bw_value arg1 >? bw_value arg2.

(** ** Lemmas *)

Lemma bw_abs v : is_s64 v -> bw_abs_i64 v = Z.abs v.
Proof. intros. unfold bw_abs_i64. rewrite Z.geb_leb. destruct (Z.leb_spec 0 v); cint. Qed.

(** The result of [bw_frc_to_fixed]. *)
Definition bw_frc_value (n d : Z) : Z :=
  let q := round_div (Z.abs n * 2 ^ 24) (Z.abs d) in
  if xorb (n <? 0) (d <? 0) then - q else q.

Lemma bw_frc_run n d w :
  is_s64 n -> is_s64 d -> d <> 0 -> round_div (Z.abs n * 2 ^ 24) (Z.abs d) <= LLONG_MAX ->
  bw_frc_to_fixed n d w = Ok (Bw (bw_frc_value n d), w).
Proof.
  intros Hn Hd Hd0 Hq. unfold bw_frc_to_fixed. rewrite !bw_abs by done.
  destruct (fraction_rounded 24 (Z.abs n) (Z.abs d)) as (r & q & E & Hs & Hq0 & HR & Hi & HI);
    [cint|cint|exact Hq|].
  rewrite ASSERT_bind by (apply negb_true_iff, Z.eqb_neq; lia).
  rewrite div64_u64_rem_bind by lia. cbv beta iota.
  change (Z.to_nat BITS_PER_FRACTIONAL_PART) with 24%nat.
  change (Z.of_nat 24) with 24 in *. rewrite E. clear E.
  unfold MAX_I32, MAX_I64, LLONG_MAX in *.
  set (s := if _ >=? _ then 1 else 0) in *. clearbody s.
  change (2 ^ 24) with 16777216 in HI.
  rewrite !ASSERT_bind by (apply Z.leb_le; cint).
  unfold bw_frc_value, mret, M_ret. cbv zeta. rewrite <- HR.
  assert (s64 (u64 (q + s)) = q + s) as -> by cint.
  assert (s64 (- (q + s)) = - (q + s)) as -> by cint. done.
Qed.

Definition bw_mul_value (x y : Z) : Z :=
  let m := mul_magnitude 24 (Z.abs x) (Z.abs y) in
  if xorb (x <? 0) (y <? 0) then - m else m.

Lemma bw_mul_run x y w :
  wf_bw x -> wf_bw y ->
  mul_magnitude 24 (Z.abs (bw_value x)) (Z.abs (bw_value y)) <= LLONG_MAX ->
  bw_mul x y w = Ok (Bw (bw_mul_value (bw_value x) (bw_value y)), w).
Proof.
  unfold wf_bw. intros Hx Hy Hm. unfold bw_mul. rewrite !bw_abs by done.
  etransitivity; [|etransitivity; [exact (mul_accumulate 24 MAX_I32
    (Z.abs (bw_value x)) (Z.abs (bw_value y)) w
    (fun res => mret (Bw (if xorb (bw_value x <? 0) (bw_value y <? 0) then s64 (- res) else res)))
    ltac:(lia) ltac:(done) ltac:(lia) ltac:(lia) Hm)|]].
  { reflexivity. }
  pose proof (mul_magnitude_nonneg 24 (Z.abs (bw_value x)) (Z.abs (bw_value y))).
  unfold bw_mul_value, mret, M_ret, LLONG_MAX in *. destruct (xorb _ _); [|done].
  do 3 f_equal. cint.
Qed.

(** The bandwidth fixed point divides correctly rounded and multiplies to
    within one unit in the last place, without a warning, whenever the result
    is representable. *)
Theorem bw_div_mul_accurate (x y : bw_fixed) (w : Z) :
  wf_bw x -> wf_bw y ->
  (bw_value y <> 0 ->
   round_div (Z.abs (bw_value x) * 2 ^ 24) (Z.abs (bw_value y)) <= LLONG_MAX ->
   exists r, bw_div x y w = Ok (Bw r, w) /\
     2 * Z.abs (r * bw_value y - bw_value x * 2 ^ 24) <= Z.abs (bw_value y)) /\
  (mul_magnitude 24 (Z.abs (bw_value x)) (Z.abs (bw_value y)) <= LLONG_MAX ->
   exists r, bw_mul x y w = Ok (Bw r, w) /\
     - 2 ^ 23 < 2 ^ 24 * Z.abs r - Z.abs (bw_value x * bw_value y) <= 2 ^ 24 /\
     0 <= r * (bw_value x * bw_value y)).
Proof.
  intros Hx Hy. set (n := bw_value x). set (d := bw_value y). split.
  - intros Hd HR. exists (bw_frc_value n d). split; [by apply bw_frc_run|].
    apply signed_quotient_error; [done|]. apply round_div_nearest. lia.
  - intros Hm. exists (bw_mul_value n d). split; [by apply bw_mul_run|].
    pose proof (mul_magnitude_nonneg 24 (Z.abs n) (Z.abs d) ltac:(lia) ltac:(lia) ltac:(lia)).
    unfold bw_mul_value. cbv zeta. rewrite signed_abs, Z.abs_mul by done.
    split; [apply (mul_magnitude_error 24); lia|by apply signed_product_sign].
Qed.

(** The magnitude [|significance| * (arg / |significance|)] of [bw_floor2] and
    [bw_ceil2]. *)
Lemma bw_multiple a s :
  is_s64 a -> is_s64 s -> s <> 0 -> s <> LLONG_MIN ->
  s64 (bw_abs_i64 s) = Z.abs s /\
  s64 (u64 (bw_abs_i64 s * u64 (s64 (a ÷ Z.abs s)))) = a - Z.rem a (Z.abs s) /\
  is_s64 (a - Z.rem a (Z.abs s)) /\ Z.abs (a - Z.rem a (Z.abs s)) = Z.abs a - Z.abs (Z.rem a (Z.abs s)) /\
  Z.abs (Z.rem a (Z.abs s)) < Z.abs s.
Proof.
  unfold LLONG_MIN. intros Ha Hs Hs0 Hmin. rewrite bw_abs by done.
  pose proof (Z.rem_bound_abs a (Z.abs s) ltac:(lia)) as Hb. rewrite Z.abs_involutive in Hb.
  pose proof (Z.quot_rem' a (Z.abs s)) as HQ.
  assert (0 <= Z.rem a (Z.abs s) * a) as Hsg by (apply Z.rem_sign_mul; lia).
  assert (Z.abs (Z.rem a (Z.abs s)) <= Z.abs a) as Hle.
  { rewrite <- Z.rem_abs by lia. rewrite Z.abs_involutive.
    rewrite Z.rem_mod_nonneg by lia. apply Z.mod_le; lia. }
  assert (Z.abs (a - Z.rem a (Z.abs s)) = Z.abs a - Z.abs (Z.rem a (Z.abs s))) as HA by nia.
  assert (is_s64 (a - Z.rem a (Z.abs s))) as HR by (unfold is_s64 in *; nia).
  split; [cint|]. split; [|done].
  assert (u64 (Z.abs s * u64 (s64 (a ÷ Z.abs s))) = u64 (Z.abs s * (a ÷ Z.abs s))) as ->.
  { rewrite u64_s64. unfold u64. by rewrite Z.mul_mod_idemp_r by lia. }
  replace (Z.abs s * (a ÷ Z.abs s)) with (a - Z.rem a (Z.abs s)) by lia. cint.
Qed.

(** [bw_floor2] and [bw_ceil2] round to a multiple of the significance,
    the first towards zero and the second away from zero, by less than one
    step; a multiple is left as it is.  [bw_ceil2] needs one step of headroom;
    [bw_floor2] never fails its [ASSERT]. *)
Theorem bw_round_to_multiple (arg significance : bw_fixed) (w : Z) :
  wf_bw arg -> wf_bw significance ->
  bw_value significance <> 0 -> bw_value significance <> LLONG_MIN ->
  Z.abs (bw_value arg) + Z.abs (bw_value significance) <= LLONG_MAX ->
  exists lo hi, bw_floor2 arg significance w = Ok (Bw lo, w) /\
    bw_ceil2 arg significance w = Ok (Bw hi, w) /\
    Z.rem lo (bw_value significance) = 0 /\ Z.rem hi (bw_value significance) = 0 /\
    Z.abs lo <= Z.abs (bw_value arg) <= Z.abs hi /\
    0 <= lo * bw_value arg /\ 0 <= hi * bw_value arg /\
    Z.abs hi - Z.abs lo =
      (if Z.rem (bw_value arg) (bw_value significance) =? 0 then 0
       else Z.abs (bw_value significance)).
Proof.
  unfold wf_bw. set (a := bw_value arg). set (s := bw_value significance).
  intros Ha Hs Hs0 Hmin Hroom.
  destruct (bw_multiple a s Ha Hs Hs0 Hmin) as (E1 & E2 & Hr & Habs & Hlt).
  assert (Z.rem a s = Z.rem a (Z.abs s)) as Er.
  { destruct (Z.abs_eq_or_opp s) as [-> | ->]; [done|by rewrite Z.rem_opp_r]. }
  set (r := Z.rem a (Z.abs s)) in *.
  assert (0 <= r * a) as Hsg by (apply Z.rem_sign_mul; lia).
  assert (exists k, a - r = k * s) as [k Hk].
  { exists (a ÷ s). pose proof (Z.quot_rem' a s). lia. }
  assert (forall j, Z.rem (j * s) s = 0) as Hmul by (intros; by apply Z.rem_mul).
  assert (Z.rem (a - r) s = 0) as Hlo by (rewrite Hk; apply Hmul).
  exists (a - r), (if r =? 0 then a - r else if a <? 0 then a - r - Z.abs s else a - r + Z.abs s).
  unfold bw_floor2, bw_ceil2. fold a s. rewrite E1.
  rewrite !div64_s64_bind, E2, !bw_abs by (done || lia).
  rewrite Er, Habs, ASSERT_bind by (apply Z.leb_le; lia).
  split; [done|]. unfold LLONG_MAX in Hroom.
  destruct (Z.eqb_spec r 0) as [Hr0|Hr0].
  - rewrite (proj2 (Z.ltb_ge _ _)) by lia. split; [done|].
    split; [done|]. split; [done|]. lia.
  - rewrite (proj2 (Z.ltb_lt _ _)) by lia.
    destruct (Z.ltb_spec a 0).
    + split; [unfold mret, M_ret; do 3 f_equal; cint|]. split; [done|].
      split; [|split; [lia|split; [nia|split; [nia|lia]]]].
      rewrite Hk. destruct (Z.abs_eq_or_opp s) as [-> | ->];
        [rewrite <- (Hmul (k - 1))|rewrite <- (Hmul (k + 1))]; f_equal; ring.
    + split; [unfold mret, M_ret; do 3 f_equal; cint|]. split; [done|].
      split; [|split; [lia|split; [nia|split; [nia|lia]]]].
      rewrite Hk. destruct (Z.abs_eq_or_opp s) as [-> | ->];
        [rewrite <- (Hmul (k + 1))|rewrite <- (Hmul (k - 1))]; f_equal; ring.
Qed.

(** Conversions: an integer converts to fixed point and back unchanged and
    without a warning for every 32-bit value, and a 31.32 number converts to
    24 fractional bits by dropping eight of them towards zero, for every
    value but the most negative one. *)
Theorem bw_conversions (v raw w : Z) :
  is_s32 v -> is_s64 raw -> raw <> LLONG_MIN ->
  (exists x, bw_int_to_fixed v w = Ok (x, w) /\ bw_fixed_to_int x = v) /\
  bw_value (fixed31_32_to_bw_fixed raw) = raw ÷ 256.
Proof.
  unfold LLONG_MIN. intros Hv Hraw Hmin. split.
  - exists (Bw (v * 2 ^ 24)). unfold bw_int_to_fixed, MAX_I32, MIN_I32.
    rewrite ASSERT_bind by
      (rewrite Z.gtb_ltb; apply andb_true_intro; split; apply Z.ltb_lt; cint).
    unfold BITS_PER_FRACTIONAL_PART. rewrite Z.shiftl_mul_pow2 by lia.
    rewrite s64_small by cint. split; [done|].
    unfold bw_fixed_to_int, GET_INTEGER_PART, BITS_PER_FRACTIONAL_PART. cbn [bw_value].
    rewrite Z.shiftr_div_pow2, Z.div_mul by lia. cint.
  - unfold fixed31_32_to_bw_fixed, BITS_PER_FRACTIONAL_PART.
    change (32 - 24) with 8. rewrite !Z.shiftr_div_pow2 by lia. change (2 ^ 8) with 256.
    destruct (Z.ltb_spec raw 0); cbv zeta; cbn [bw_value].
    + replace (s64 (- raw)) with (- raw) by cint.
      rewrite <- (Z.opp_involutive raw) at 2.
      rewrite Z.quot_opp_l, Z.quot_div_nonneg by lia. cint.
    + by rewrite Z.quot_div_nonneg by lia.
Qed.

(** [bw_mod] is the remainder for non-negative operands; its arguments are
    converted to unsigned numbers, so that a negative dividend is reduced as
    [2^64 + value]. *)
Theorem bw_mod_unsigned (a b w : Z) :
  is_s64 a -> 0 < b < 2 ^ 63 ->
  bw_mod (Bw a) (Bw b) w =
    Ok (Bw ((if a <? 0 then a + 2 ^ 64 else a) mod b), w).
Proof.
  intros Ha Hb. unfold bw_mod. cbn [bw_value].
  assert (u64 b = b) as -> by cint.
  assert (u64 a = if a <? 0 then a + 2 ^ 64 else a) as ->
    by (destruct (Z.ltb_spec a 0); cint).
  rewrite div64_u64_rem_bind by lia. cbv beta iota. unfold mret, M_ret.
  pose proof (Z.mod_pos_bound (if a <? 0 then a + 2 ^ 64 else a) b ltac:(lia)).
  rewrite s64_small by (unfold is_s64; lia). done.
Qed.

(** ** Instances *)

(** 1/3 and 1/3 * 3, in 24 fractional bits *)
Lemma bw_div_mul_accurate_witness :
  (exists r, bw_div (Bw (2 ^ 24)) (Bw (3 * 2 ^ 24)) 0 = Ok (Bw r, 0) /\
     2 * Z.abs (r * (3 * 2 ^ 24) - 2 ^ 24 * 2 ^ 24) <= Z.abs (3 * 2 ^ 24)) /\
  (exists r, bw_mul (Bw (2 ^ 24)) (Bw (3 * 2 ^ 24)) 0 = Ok (Bw r, 0) /\
     - 2 ^ 23 < 2 ^ 24 * Z.abs r - Z.abs (2 ^ 24 * (3 * 2 ^ 24)) <= 2 ^ 24 /\
     0 <= r * (2 ^ 24 * (3 * 2 ^ 24))).
Proof.
  destruct (bw_div_mul_accurate (Bw (2 ^ 24)) (Bw (3 * 2 ^ 24)) 0) as (Hd & Hm);
    [unfold wf_bw; cbn; cint..|].
  split; [apply Hd|apply Hm]; vm_compute; congruence.
Defined.

(** -7 rounded to multiples of 4 *)
Lemma bw_round_to_multiple_witness :
  exists lo hi, bw_floor2 (Bw (-7)) (Bw 4) 0 = Ok (Bw lo, 0) /\
    bw_ceil2 (Bw (-7)) (Bw 4) 0 = Ok (Bw hi, 0) /\
    Z.rem lo 4 = 0 /\ Z.rem hi 4 = 0 /\ Z.abs lo <= Z.abs (-7) <= Z.abs hi /\
    0 <= lo * (-7) /\ 0 <= hi * (-7) /\
    Z.abs hi - Z.abs lo = (if Z.rem (-7) 4 =? 0 then 0 else Z.abs 4).
Proof.
  refine (bw_round_to_multiple (Bw (-7)) (Bw 4) 0 _ _ _ _ _);
    [unfold wf_bw; cbn; cint..|cbn; lia|vm_compute; congruence|vm_compute; congruence].
Defined.

Lemma bw_conversions_witness :
  (exists x, bw_int_to_fixed (-5) 0 = Ok (x, 0) /\ bw_fixed_to_int x = -5) /\
  bw_value (fixed31_32_to_bw_fixed (-1000)) = -1000 ÷ 256.
Proof.
  refine (bw_conversions (-5) (-1000) 0 _ _ _); [cint|cint|vm_compute; congruence].
Defined.

Lemma bw_mod_unsigned_witness :
  bw_mod (Bw (-1)) (Bw 10) 0 = Ok (Bw ((-1 + 2 ^ 64) mod 10), 0).
Proof. refine (bw_mod_unsigned (-1) 10 0 _ _); [cint|lia]. Defined.

(** ** Unsigned 32.32 fixed point (dal/dc/basics/fixpt32_32.c)

    Every function of the file; [ASSERT] counts as above. *)

Module Fixed32.
Record fixed32_32 := Fx { value : Z }.

(** The loop of the division; the bit that [q] loses is moved into [r]. *)
Fixpoint u64_div_loop (i : nat) (d r q : Z) : Z * Z :=
  match i with
  | O => (r, q)
  | S i =>
      let sbit := Z.land q (Z.shiftl 1 63) in
      let r := u64 (Z.shiftl r 1) in
      let r := Z.lor r (if sbit =? 0 then 0 else 1) in
      let q := u64 (Z.shiftl q 1) in
      if r >=? d then u64_div_loop i d (u64 (r - d)) (Z.lor q 1) else u64_div_loop i d r q
  end.
Definition u64_div (n d : Z) : W Z :=
  '(q, r) ← div64_u64_rem n d;
  let '(r, q) := u64_div_loop 32 d r q in
  mret (if u64 (2 * r) >=? d then u64 (q + 1) else q).

Definition dal_fixed32_32_from_fraction (n d : Z) : W fixed32_32 := v ← u64_div (u64 (Z.shiftl n 32)) (u64 (Z.shiftl d 32)); mret (Fx v).
Definition dal_fixed32_32_from_int (v : Z) : fixed32_32 := Fx (u64 (Z.shiftl v 32)).
Definition dal_fixed32_32_add (lhs rhs : fixed32_32) : W fixed32_32 :=
  let fx := u64 (value lhs + value rhs) in _ ← ASSERT (fx >=? value rhs); mret (Fx fx).
Definition dal_fixed32_32_add_int (lhs : fixed32_32) (rhs : Z) : W fixed32_32 :=
  let fx := u64 (value lhs + u64 (Z.shiftl rhs 32)) in _ ← ASSERT (fx >=? u64 (Z.shiftl rhs 32)); mret (Fx fx).
Definition dal_fixed32_32_sub (lhs rhs : fixed32_32) : W fixed32_32 :=
  _ ← ASSERT (value lhs >=? value rhs); mret (Fx (u64 (value lhs - value rhs))).
Definition dal_fixed32_32_sub_int (lhs : fixed32_32) (rhs : Z) : W fixed32_32 :=
  _ ← ASSERT (value lhs >=? u64 (Z.shiftl rhs 32)); mret (Fx (u64 (value lhs - u64 (Z.shiftl rhs 32)))).
Definition dal_fixed32_32_mul (lhs rhs : fixed32_32) : W fixed32_32 :=
  let lhs_int := Z.shiftr (value lhs) 32 in
  let lhs_frac := u32 (value lhs) in
  let rhs_int := Z.shiftr (value rhs) 32 in
  let rhs_frac := u32 (value rhs) in
  let ahbh := u64 (lhs_int * rhs_int) in
  let ahbl := u64 (lhs_int * rhs_frac) in
  let albh := u64 (lhs_frac * rhs_int) in
  let albl := u64 (lhs_frac * rhs_frac) in
  _ ← ASSERT (Z.shiftr ahbh 32 =? 0);
  mret (Fx (u64 (u64 (Z.shiftl ahbh 32) + ahbl + albh + Z.shiftr albl 32))).
Definition dal_fixed32_32_mul_int (lhs : fixed32_32) (rhs : Z) : W fixed32_32 :=
  let lhsi := u64 (Z.shiftr (value lhs) 32 * rhs) in
  _ ← ASSERT (Z.shiftr lhsi 32 =? 0);
  let lhsf := u64 (u32 (value lhs) * rhs) in
  _ ← ASSERT (u64 (u64 (Z.shiftl lhsi 32) + lhsf) >=? lhsf);
  mret (Fx (u64 (u64 (Z.shiftl lhsi 32) + lhsf))).
Definition dal_fixed32_32_div (lhs rhs : fixed32_32) : W fixed32_32 := v ← u64_div (value lhs) (value rhs); mret (Fx v).
Definition dal_fixed32_32_div_int (lhs : fixed32_32) (rhs : Z) : W fixed32_32 := v ← u64_div (value lhs) (u64 (Z.shiftl rhs 32)); mret (Fx v).
Definition dal_fixed32_32_min (lhs rhs : fixed32_32) : fixed32_32 := if value lhs <? value rhs then lhs else rhs.
Definition dal_fixed32_32_max (lhs rhs : fixed32_32) : fixed32_32 := if value lhs >? value rhs then lhs else rhs.
Definition dal_fixed32_32_gt (lhs rhs : fixed32_32) : bool := value lhs >? value rhs.
Definition dal_fixed32_32_gt_int (lhs : fixed32_32) (rhs : Z) : bool := value lhs >? u64 (Z.shiftl rhs 32).
Definition dal_fixed32_32_lt (lhs rhs : fixed32_32) : bool := value lhs <? value rhs.
Definition dal_fixed32_32_le (lhs rhs : fixed32_32) : bool := value lhs <=? value rhs.
Definition dal_fixed32_32_lt_int (lhs : fixed32_32) (rhs : Z) : bool := value lhs <? u64 (Z.shiftl rhs 32).
Definition dal_fixed32_32_le_int (lhs : fixed32_32) (rhs : Z) : bool := value lhs <=? u64 (Z.shiftl rhs 32).
Definition dal_fixed32_32_eq (lhs rhs : fixed32_32) : bool := value lhs =? value rhs.
Definition dal_fixed32_32_ceil (v : fixed32_32) : W Z :=
  _ ← ASSERT (if negb (u32 (value v) =? 0) then u64 (Z.shiftr (value v) 32 + 1) >=? 1 else true);
  mret (u32 (Z.shiftr (value v) 32 + (if negb (u32 (value v) =? 0) then 1 else 0))).
Definition dal_fixed32_32_floor (v : fixed32_32) : Z := u32 (Z.shiftr (value v) 32).
Definition dal_fixed32_32_round (v : fixed32_32) : W Z :=
  _ ← ASSERT (u64 (value v + Z.shiftl 1 31) >=? Z.shiftl 1 31);
  mret (u32 (Z.shiftr (u64 (value v + Z.shiftl 1 31)) 32)).

(** While the quotient has room for the bits to come, the loop is the long
    division of the other libraries. *)
Lemma loop_fraction_bits i d r q : 0 <= q < 2 ^ (64 - Z.of_nat i) -> (i <= 64)%nat -> u64_div_loop i d r q = fraction_bits i d r q.
Proof.
  revert r q. induction i as [|i IH]; intros r q Hq Hi; [done|]. cbn [u64_div_loop fraction_bits].
  assert (Hp : 2 ^ (64 - Z.of_nat i) = 2 * 2 ^ (64 - Z.of_nat (S i))) by (rewrite <- Z.pow_succ_r by lia; f_equal; lia).
  assert (H63 : 2 ^ (64 - Z.of_nat (S i)) <= 2 ^ 63) by (apply Z.pow_le_mono_r; lia).
  assert (Hs : Z.land q (Z.shiftl 1 63) = 0).
  { apply Z.bits_inj'. intros n Hn. rewrite Z.land_spec, Z.shiftl_1_l, Z.pow2_bits_eqb, Z.testbit_0_l by lia. destruct (Z.eqb_spec 63 n) as [<-|]; [|apply andb_false_r].
    rewrite andb_true_r. rewrite <- (Z.mod_small q (2 ^ 63)) by lia. apply Z.mod_pow2_bits_high. lia. }
  rewrite Hs. cbn [Z.eqb]. rewrite Z.lor_0_r. assert (Hd : u64 (Z.shiftl q 1) = 2 * q) by (rewrite Z.shiftl_mul_pow2 by lia; cint).
  rewrite Hd, lor_even_1. destruct (_ >=? d); apply IH; lia.
Qed.
Lemma u64_div_run n d w : is_u64 n -> 0 < d <= 2 ^ 63 -> round_div (n * 2 ^ 32) d < 2 ^ 64 -> u64_div n d w = Ok (round_div (n * 2 ^ 32) d, w).
Proof.
  intros Hn Hd HR. unfold u64_div. rewrite div64_u64_rem_bind by lia. rewrite round_div_split in * by lia. unfold is_u64 in Hn.
  assert (E : n / d * 2 ^ 32 + n mod d * 2 ^ 32 / d = n * 2 ^ 32 / d).
  { rewrite <- Z.div_add_l by lia. f_equal. rewrite (Z.div_mod n d) at 3 by lia. ring. }
  pose proof (Z.mod_pos_bound n d ltac:(lia)). pose proof (Z.mod_pos_bound (n * 2 ^ 32) d ltac:(lia)) as Hm. pose proof (Z.div_pos n d ltac:(lia) ltac:(lia)).
  pose proof (Z.div_pos (n mod d * 2 ^ 32) d ltac:(lia) ltac:(lia)).
  set (s := if 2 * _ >=? d then 1 else 0) in *. assert (0 <= s <= 1) by (unfold s; destruct (_ >=? _); lia).
  rewrite loop_fraction_bits by (change (64 - Z.of_nat 32) with 32; lia). rewrite fraction_bits_spec by (try lia; unfold is_u64; lia). change (Z.of_nat 32) with 32.
  rewrite Z.mul_mod_idemp_l, E by lia. assert (Eq : u64 (n * 2 ^ 32 / d) = n * 2 ^ 32 / d) by (apply u64_small; unfold is_u64; lia). rewrite Eq.
  assert (Er : u64 (2 * ((n * 2 ^ 32) mod d)) = 2 * ((n * 2 ^ 32) mod d)) by (apply u64_small; unfold is_u64; lia). rewrite Er. unfold mret, M_ret. do 2 f_equal. unfold s in *.
  destruct (_ >=? d); [apply u64_small; unfold is_u64; lia|lia].
Qed.

(** Division is correctly rounded for divisors below [2^31], multiplication is
    the product cut to 32 fractional bits, both without a warning, whenever
    the result is representable. *)
Theorem fixed32_mul_div (x y : fixed32_32) (w : Z) :
  is_u64 (value x) -> is_u64 (value y) ->
  (0 < value y <= 2 ^ 63 -> round_div (value x * 2 ^ 32) (value y) < 2 ^ 64 -> dal_fixed32_32_div x y w = Ok (Fx (round_div (value x * 2 ^ 32) (value y)), w)) /\
  (value x * value y / 2 ^ 32 < 2 ^ 64 -> dal_fixed32_32_mul x y w = Ok (Fx (value x * value y / 2 ^ 32), w)).
Proof.
  intros Hx Hy. split; intros H1.
  - intros H2. unfold dal_fixed32_32_div. by rewrite (bind_eval _ _ _ _ _ (u64_div_run _ _ w Hx H1 H2)).
  - unfold dal_fixed32_32_mul, u32. cbv zeta. rewrite !Z.shiftr_div_pow2 by lia. change (2 ^ 32) with 4294967296 in *. rewrite (product_split 4294967296) in * by lia. unfold is_u64 in *.
    set (ah := value x / 4294967296) in *. set (bh := value y / 4294967296) in *. set (al := value x mod 4294967296) in *. set (bl := value y mod 4294967296) in *.
    assert (0 <= ah < 4294967296) by (unfold ah; split; [apply Z.div_pos; lia|apply Z.div_lt_upper_bound; lia]). assert (0 <= bh < 4294967296) by (unfold bh; split; [apply Z.div_pos; lia|apply Z.div_lt_upper_bound; lia]).
    assert (0 <= al < 4294967296) by (apply Z.mod_pos_bound; lia). assert (0 <= bl < 4294967296) by (apply Z.mod_pos_bound; lia).
    pose proof (Z.div_pos (al * bl) 4294967296 ltac:(nia) ltac:(lia)).
    assert (Eh : u64 (ah * bh) = ah * bh) by (apply u64_small; unfold is_u64; nia). assert (E1 : u64 (ah * bl) = ah * bl) by (apply u64_small; unfold is_u64; nia).
    assert (E2 : u64 (al * bh) = al * bh) by (apply u64_small; unfold is_u64; nia). assert (E3 : u64 (al * bl) = al * bl) by (apply u64_small; unfold is_u64; nia).
    rewrite Eh, E1, E2, E3, ?Z.shiftr_div_pow2, Z.shiftl_mul_pow2 by lia. change (2 ^ 32) with 4294967296.
    assert (0 <= ah * bl) by nia. assert (0 <= al * bh) by nia. assert (0 <= ah * bh) by nia.
    rewrite ASSERT_bind by (apply Z.eqb_eq, Z.div_small; lia). unfold mret, M_ret. do 3 f_equal. rewrite (u64_small (ah * bh * _)) by (unfold is_u64; lia). rewrite u64_small by (unfold is_u64; lia). lia.
Qed.
(** Addition and subtraction warn exactly when the result is not
    representable, and are exact otherwise. *)
Theorem fixed32_add_sub (x y : fixed32_32) (w : Z) :
  is_u64 (value x) -> is_u64 (value y) ->
  (exists v, dal_fixed32_32_add x y w = Ok (Fx v, if value x + value y <? 2 ^ 64 then w else w + 1) /\ v = (value x + value y) mod 2 ^ 64) /\
  (exists v, dal_fixed32_32_sub x y w = Ok (Fx v, if value y <=? value x then w else w + 1) /\ v = (value x - value y) mod 2 ^ 64).
Proof.
  unfold is_u64. intros Hx Hy. split; eexists; (split; [|reflexivity]).
  - unfold dal_fixed32_32_add, ASSERT, modify, mbind, M_bind, mret, M_ret. rewrite Z.geb_leb. do 2 f_equal. unfold u64.
    change (2 ^ 64) with 18446744073709551616 in *. destruct (Z.ltb_spec (value x + value y) 18446744073709551616), (Z.leb_spec (value y) ((value x + value y) mod 18446744073709551616)); try done; exfalso; Z.div_mod_to_equations; lia.
  - unfold dal_fixed32_32_sub, ASSERT, modify, mbind, M_bind, mret, M_ret. by rewrite Z.geb_leb.
Qed.
(** The division loses the top bit of the remainder when the divisor is
    [2^31] or more: two thirds come out as zero.  The assertion of [ceil] is
    always true: the largest numbers are rounded up to zero without a warning. *)
Theorem fixed32_wrong (w : Z) :
  dal_fixed32_32_from_fraction 0x80000000 0xc0000000 w = Ok (Fx 0, w) /\ dal_fixed32_32_ceil (Fx 0xffffffff80000000) w = Ok (0, w).
Proof. split; reflexivity. Qed.
Lemma fixed32_mul_div_witness :
  dal_fixed32_32_div (Fx (2 ^ 32)) (Fx (3 * 2 ^ 32)) 0 = Ok (Fx (round_div (2 ^ 32 * 2 ^ 32) (3 * 2 ^ 32)), 0) /\ dal_fixed32_32_mul (Fx (2 ^ 31)) (Fx (3 * 2 ^ 32)) 0 = Ok (Fx (2 ^ 31 * (3 * 2 ^ 32) / 2 ^ 32), 0).
Proof.
  assert (U : forall v, 0 <= v < 2 ^ 64 -> is_u64 v) by (intros v Hv; unfold is_u64; lia).
  split.
  - refine (proj1 (fixed32_mul_div (Fx (2 ^ 32)) (Fx (3 * 2 ^ 32)) 0 _ _) _ _); [apply U; cbn; lia|apply U; cbn; lia|cbn; lia|vm_compute; congruence].
  - refine (proj2 (fixed32_mul_div (Fx (2 ^ 31)) (Fx (3 * 2 ^ 32)) 0 _ _) _); [apply U; cbn; lia|apply U; cbn; lia|vm_compute; congruence].
Defined.
End Fixed32.
