(* ===== verification/SubAlloc.v ===== *)
(** * The ring sub-allocator (amdgpu/amdgpu_sa.c)

    One buffer object is cut into a circular sequence of sub-allocations that
    are released when a fence signals.  The manager keeps every sub-allocation
    in [olist], ordered by offset; [hole] points at the last one handed out
    (or at the list head), and the freed ones that wait for a fence are queued
    on one of 32 [flist]s, chosen by the fence context.

    A [struct amdgpu_sa_bo] is identified by its address ([bo_id]); the [flist]s
    hold addresses, so that a buffer is one object shared by both lists.  The
    list head [&sa_manager->olist] is [None] wherever a [struct list_head *]
    is stored.  [fence_is_signaled] is the kernel's; one run of an operation
    holds the manager's lock and sees one snapshot of it. *)

From stdpp Require Import base numbers list.
From S2P Require Import Prelude CMonad.

(** The fields of the kernel's [struct fence] that tell fences apart. *)
Record fence := Fence { f_context : Z; f_seqno : Z }.
#[global] Instance fence_eq_dec : EqDecision fence.
Proof. solve_decision. Defined.

Definition AMDGPU_SA_NUM_FENCE_LISTS : Z := 32.
Definition num_lists : nat := Z.to_nat AMDGPU_SA_NUM_FENCE_LISTS.

Record amdgpu_sa_bo := SaBo {
  bo_id : nat;
  soffset : Z;
  eoffset : Z;
  bo_fence : option fence }.
#[global] Instance amdgpu_sa_bo_eq_dec : EqDecision amdgpu_sa_bo.
Proof. solve_decision. Defined.

Record amdgpu_sa_manager := SaManager {
  hole : option nat;
  flist : list (list nat);
  olist : list amdgpu_sa_bo;
  sa_size : Z;
  sa_align : Z }.

Definition set_hole (h : option nat) (m : amdgpu_sa_manager) : amdgpu_sa_manager :=
  SaManager h (flist m) (olist m) (sa_size m) (sa_align m).

Notation SA := (M amdgpu_sa_manager).

(** ** Doubly linked lists, as sequences of the nodes after the head *)

(** The nodes after node [i]; after the head for [None]. *)
Fixpoint nodes_after (i : nat) (l : list amdgpu_sa_bo) : list amdgpu_sa_bo :=
  match l with
  | [] => []
  | b :: l' => if decide (bo_id b = i) then l' else nodes_after i l'
  end.
Definition list_after (h : option nat) (l : list amdgpu_sa_bo) : list amdgpu_sa_bo :=
  match h with None => l | Some i => nodes_after i l end.

(** [node->prev], where [p] is the predecessor of the first node of [l]. *)
Fixpoint node_prev (p : option nat) (i : nat) (l : list amdgpu_sa_bo) : option nat :=
  match l with
  | [] => None
  | b :: l' => if decide (bo_id b = i) then p else node_prev (Some (bo_id b)) i l'
  end.

(** [list_add(new, h)]: insert right after [h]. *)
Fixpoint insert_after (i : nat) (x : amdgpu_sa_bo) (l : list amdgpu_sa_bo) :=
  match l with
  | [] => []
  | b :: l' => if decide (bo_id b = i) then b :: x :: l' else b :: insert_after i x l'
  end.
Definition list_add (x : amdgpu_sa_bo) (h : option nat) (l : list amdgpu_sa_bo) :=
  match h with None => x :: l | Some i => insert_after i x l end.

Definition list_del (i : nat) (l : list amdgpu_sa_bo) : list amdgpu_sa_bo :=
  filter (fun b => bo_id b <> i) l.

(** [list_entry]: the object at an address. *)
Definition entry (i : nat) (l : list amdgpu_sa_bo) : option amdgpu_sa_bo :=
  find (fun b => bool_decide (bo_id b = i)) l.

(** ** Operations *)

Definition amdgpu_sa_bo_manager_init (size align : Z) : amdgpu_sa_manager :=
  SaManager None (replicate num_lists []) [] size align.

Definition amdgpu_sa_bo_remove_locked (i : nat) : SA unit :=
  modify (fun m =>
    let h := if decide (hole m = Some i) then node_prev None i (olist m) else hole m in
    SaManager h (map (filter (fun j => j <> i)) (flist m)) (list_del i (olist m))
      (sa_size m) (sa_align m)).

Definition amdgpu_sa_bo_hole_soffset : SA Z :=
  m ← gets id;
  match hole m with
  | None => mret 0
  | Some i => b ← deref (entry i (olist m)); mret (eoffset b)
  end.

Definition amdgpu_sa_bo_hole_eoffset : SA Z :=
  m ← gets id;
  match list_after (hole m) (olist m) with
  | b :: _ => mret (soffset b)
  | [] => mret (sa_size m)
  end.

(** [(align - (soffset % align)) % align] traps when [align] is zero. *)
Definition align_waste (soff align : Z) : SA Z :=
  if align =? 0 then fault else mret (u32 (align - soff mod align) mod align).

Definition amdgpu_sa_bo_try_alloc (i : nat) (size align : Z) : SA bool :=
  soff ← amdgpu_sa_bo_hole_soffset;
  eoff ← amdgpu_sa_bo_hole_eoffset;
  wasted ← align_waste soff align;
  if u32 (eoff - soff) >=? u32 (size + wasted) then
    let soff := u32 (soff + wasted) in
    let b := SaBo i soff (u32 (soff + size)) None in
    _ ← modify (fun m =>
      SaManager (Some i) (flist m) (list_add b (hole m) (olist m)) (sa_size m) (sa_align m));
    mret true
  else mret false.

Section signals.
(** The kernel's fence status, while the lock is held. *)
Context (fence_is_signaled : fence -> bool).

Definition bo_signaled (b : amdgpu_sa_bo) : bool :=
  match bo_fence b with None => false | Some f => fence_is_signaled f end.

(** [list_for_each_entry_safe_from]: the successors are read before the body
    unlinks a node, so the walk follows the nodes of the initial list. *)
Fixpoint try_free_from (l : list amdgpu_sa_bo) : SA unit :=
  match l with
  | [] => mret tt
  | b :: l' =>
      if bo_signaled b
      then _ ← amdgpu_sa_bo_remove_locked (bo_id b); try_free_from l'
      else mret tt
  end.

Definition amdgpu_sa_bo_try_free : SA unit :=
  m ← gets id;
  match list_after (hole m) (olist m) with
  | [] => mret tt
  | l => try_free_from l
  end.

Definition amdgpu_sa_bo_manager_fini : SA unit :=
  m ← gets id;
  _ ← (match olist m with
       | [] => mret tt
       | _ => _ ← modify (set_hole None); amdgpu_sa_bo_try_free
       end);
  m ← gets id;
  _ ← foldr (fun b k => _ ← amdgpu_sa_bo_remove_locked (bo_id b); k) (mret tt) (olist m);
  modify (fun m => SaManager (hole m) (flist m) (olist m) 0 (sa_align m)).

Definition amdgpu_sa_event (size align : Z) : SA bool :=
  m ← gets id;
  if existsb (fun fl => match fl with [] => false | _ => true end) (flist m)
  then mret true
  else
    soff ← amdgpu_sa_bo_hole_soffset;
    eoff ← amdgpu_sa_bo_hole_eoffset;
    wasted ← align_waste soff align;
    mret (u32 (eoff - soff) >=? u32 (size + wasted)).

(** The search for the closest signaled buffer, over the lists from index [i]
    on; returns the chosen buffer and the updated [fences] array. *)
Fixpoint best_loop (i : nat) (fls : list (list nat)) (soff best : Z)
    (best_bo : option amdgpu_sa_bo) (fences : list (option fence)) (tries : list Z)
    : SA (option amdgpu_sa_bo * list (option fence)) :=
  match fls with
  | [] => mret (best_bo, fences)
  | [] :: fls' => best_loop (S i) fls' soff best best_bo fences tries
  | (id0 :: _) :: fls' =>
      m ← gets id;
      b ← deref (entry id0 (olist m));
      f ← deref (bo_fence b);
      if negb (fence_is_signaled f)
      then best_loop (S i) fls' soff best best_bo (<[i := Some f]> fences) tries
      else
        t ← deref (tries !! i);
        if t >? 2 then best_loop (S i) fls' soff best best_bo fences tries
        else
          let tmp := soffset b in
          let tmp := if tmp <? soff then u32 (tmp + sa_size m) else tmp in
          let tmp := u32 (tmp - soff) in
          if tmp <? best
          then best_loop (S i) fls' soff tmp (Some b) fences tries
          else best_loop (S i) fls' soff best best_bo fences tries
  end.

Definition fence_list (f : fence) : nat :=
  Z.to_nat (u32 (f_context f) mod AMDGPU_SA_NUM_FENCE_LISTS).

Definition amdgpu_sa_bo_next_hole (fences : list (option fence)) (tries : list Z)
    : SA (bool * list (option fence) * list Z) :=
  m ← gets id;
  match list_after (hole m) (olist m) with
  | [] => _ ← modify (set_hole None); mret (true, fences, tries)
  | _ =>
      soff ← amdgpu_sa_bo_hole_soffset;
      '(best_bo, fences) ←
        best_loop 0 (flist m) soff (u32 (sa_size m * 2)) None fences tries;
      match best_bo with
      | Some b =>
          f ← deref (bo_fence b);
          let idx := fence_list f in
          t ← deref (tries !! idx);
          let tries := <[idx := u32 (t + 1)]> tries in
          _ ← modify (fun m => set_hole (node_prev None (bo_id b) (olist m)) m);
          _ ← amdgpu_sa_bo_remove_locked (bo_id b);
          mret (true, fences, tries)
      | None => mret (false, fences, tries)
      end
  end.

(** The inner loop of [amdgpu_sa_bo_new]: [inl tt] when the buffer was placed,
    [inr fences] when the caller has to wait. *)
Fixpoint sa_search (fuel : nat) (i : nat) (size align : Z)
    (fences : list (option fence)) (tries : list Z) : SA (unit + list (option fence)) :=
  match fuel with
  | O => nofuel
  | S fuel' =>
      _ ← amdgpu_sa_bo_try_free;
      ok ← amdgpu_sa_bo_try_alloc i size align;
      if (ok : bool) then mret (inl tt)
      else
        '(again, fences, tries) ← amdgpu_sa_bo_next_hole fences tries;
        if (again : bool) then sa_search fuel' i size align fences tries
        else mret (inr fences)
  end.

(** Releasing a buffer: it waits on its fence's list, or is removed at once. *)
Definition amdgpu_sa_bo_free (i : option nat) (f : option fence) : SA unit :=
  match i with
  | None => mret tt
  | Some i =>
      match f with
      | Some f =>
          if negb (fence_is_signaled f) then
            modify (fun m =>
              SaManager (hole m)
                (alter (fun fl => fl ++ [i]) (fence_list f) (flist m))
                (map (fun b => if decide (bo_id b = i)
                               then SaBo (bo_id b) (soffset b) (eoffset b) (Some f) else b)
                   (olist m))
                (sa_size m) (sa_align m))
          else amdgpu_sa_bo_remove_locked i
      | None => amdgpu_sa_bo_remove_locked i
      end
  end.
End signals.

(** ** Allocation

    When nothing fits, [amdgpu_sa_bo_new] drops the lock and waits, for one of
    the collected fences or for an event.  What happens meanwhile is the
    environment's: [sa_wait fences m] gives the result of the wait, the state
    of the manager when the lock is taken again and the fence status then. *)

Definition wait_result : Type := Z * amdgpu_sa_manager * (fence -> bool).

Section new.
Context (sa_wait : list fence -> amdgpu_sa_manager -> wait_result).

(** [search_fuel] turns suffice for the inner loop, see [sa_search_total]. *)
Definition search_fuel (m : amdgpu_sa_manager) : nat := 2 * length (olist m) + 2.

Fixpoint sa_new_loop (fuel : nat) (sig : fence -> bool) (i : nat) (size align : Z)
    : SA Z :=
  match fuel with
  | O => nofuel
  | S fuel' =>
      m ← gets id;
      res ← sa_search sig (search_fuel m) i size align
              (replicate num_lists None) (replicate num_lists 0);
      match res with
      | inl _ => mret 0
      | inr fences =>
          m ← gets id;
          let '(r, m', sig') := sa_wait (omap id fences) m in
          _ ← modify (fun _ => m');
          if r =? 0 then sa_new_loop fuel' sig' i size align else mret r
      end
  end.

(** [i] is the address [kmalloc] returns, [None] when it fails. *)
Definition amdgpu_sa_bo_new (fuel : nat) (sig : fence -> bool) (i : option nat) (size align : Z)
    : SA Z :=
  m ← gets id;
  if align >? sa_align m then mret (- EINVAL)
  else if size >? sa_size m then mret (- EINVAL)
  else match i with
       | None => mret (- ENOMEM)
       | Some i => sa_new_loop fuel sig i size align
       end.
End new.
