(* ===== verification/SubAllocProps.v ===== *)
(** * Correctness of the ring sub-allocator

    [sa_inv] says that [olist] is a chain of disjoint intervals inside the
    buffer, that [hole] designates one of them, and that the fence lists hold
    exactly the buffers waiting for a fence.  Every operation preserves it;
    allocation returns an aligned interval disjoint from all others, never
    reuses a buffer whose fence has not signaled, and its search terminates. *)

From stdpp Require Import base numbers list.
From S2P Require Import Prelude CMonad SubAlloc.

(** ** Chains of intervals *)

Fixpoint chain (lo : Z) (l : list amdgpu_sa_bo) (hi : Z) : Prop :=
  match l with
  | [] => lo <= hi
  | b :: l' => lo <= soffset b <= eoffset b /\ chain (eoffset b) l' hi
  end.

(** The end of the last interval. *)
Fixpoint chain_end (lo : Z) (l : list amdgpu_sa_bo) : Z :=
  match l with [] => lo | b :: l' => chain_end (eoffset b) l' end.

Lemma chain_end_app lo l1 l2 : chain_end lo (l1 ++ l2) = chain_end (chain_end lo l1) l2.
Proof. revert lo. induction l1; intros; cbn; auto. Qed.

Lemma chain_le lo l hi : chain lo l hi -> lo <= hi.
Proof. revert lo. induction l as [|b l IH]; cbn; intros lo; [done|]. intros [? ?%IH]. lia. Qed.

Lemma chain_weaken lo lo' l hi : lo' <= lo -> chain lo l hi -> chain lo' l hi.
Proof. destruct l; cbn; [lia|intros ? [? ?]; split; [lia|done]]. Qed.

Lemma chain_app lo l1 l2 hi :
  chain lo (l1 ++ l2) hi <->
  chain lo l1 (chain_end lo l1) /\ chain (chain_end lo l1) l2 hi.
Proof.
  revert lo. induction l1 as [|b l1 IH]; intros lo; cbn.
  - split; [intros; split; [lia|done]|by intros [_ ?]].
  - rewrite IH. tauto.
Qed.

Lemma chain_end_ge lo l : chain lo l (chain_end lo l) -> lo <= chain_end lo l.
Proof. apply chain_le. Qed.

Lemma chain_filter (P : amdgpu_sa_bo -> Prop) `{!forall x, Decision (P x)} lo l hi :
  chain lo l hi -> chain lo (filter P l) hi.
Proof.
  revert lo. induction l as [|b l IH]; intros lo; [done|]. intros [Hb Hl].
  rewrite filter_cons. destruct (decide (P b)); cbn; [auto|].
  apply (chain_weaken (eoffset b)); [lia|auto].
Qed.

(** Intervals before and after an element of a chain do not meet it. *)
Lemma chain_before lo l e b :
  chain lo l e -> b ∈ l -> lo <= soffset b /\ soffset b <= eoffset b /\ eoffset b <= e.
Proof.
  revert lo. induction l as [|c l IH]; intros lo; [by intros _ ?%elem_of_nil|].
  cbn. intros [? Hc] [->|Hb]%elem_of_cons; [pose proof (chain_le _ _ _ Hc); lia|].
  specialize (IH _ Hc Hb). lia.
Qed.

Lemma chain_disjoint lo l1 b l2 hi b' :
  chain lo (l1 ++ b :: l2) hi -> b' ∈ l1 ++ l2 ->
  eoffset b' <= soffset b \/ eoffset b <= soffset b'.
Proof.
  rewrite chain_app. cbn. intros [H1 [Hb H2]] [Hin|Hin]%elem_of_app.
  - left. pose proof (chain_before _ _ _ _ H1 Hin). lia.
  - right. pose proof (chain_before _ _ _ _ H2 Hin). lia.
Qed.

(** ** Linked-list lemmas *)

Notation ids l := (bo_id <$> l).

Lemma ids_split i l :
  i ∈ ids l -> exists pre b post, l = pre ++ b :: post /\ bo_id b = i /\ i ∉ ids pre.
Proof.
  induction l as [|b l IH]; cbn; [by intros ?%elem_of_nil|].
  destruct (decide (bo_id b = i)) as [E|NE].
  - intros _. exists [], b, l. split; [done|]. split; [done|]. apply not_elem_of_nil.
  - intros [->|Hi]%elem_of_cons; [done|].
    destruct (IH Hi) as (pre & c & post & -> & Hc & Hn).
    exists (b :: pre), c, post. split; [done|]. split; [done|].
    cbn. rewrite elem_of_cons. intros [->|]; done.
Qed.

Section split.
Context (i : nat) (pre post : list amdgpu_sa_bo) (b : amdgpu_sa_bo).
Hypothesis (Hb : bo_id b = i) (Hpre : i ∉ ids pre).

Lemma not_in_cons c (l : list amdgpu_sa_bo) : i ∉ ids (c :: l) -> bo_id c <> i /\ i ∉ ids l.
Proof. cbn. rewrite not_elem_of_cons. intros [? ?]. split; [congruence|done]. Qed.

Lemma nodes_after_split : nodes_after i (pre ++ b :: post) = post.
Proof using Hb Hpre.
  induction pre as [|c l IH]; cbn; [by rewrite decide_True|].
  apply not_in_cons in Hpre as [? ?]. rewrite decide_False by done. auto.
Qed.

Lemma insert_after_split x : insert_after i x (pre ++ b :: post) = pre ++ b :: x :: post.
Proof using Hb Hpre.
  induction pre as [|c l IH]; cbn; [by rewrite decide_True|].
  apply not_in_cons in Hpre as [? ?]. rewrite decide_False by done. f_equal. auto.
Qed.

Lemma entry_split : entry i (pre ++ b :: post) = Some b.
Proof using Hb Hpre.
  unfold entry. induction pre as [|c l IH]; cbn; [by rewrite bool_decide_true|].
  apply not_in_cons in Hpre as [? ?]. rewrite bool_decide_false by done. auto.
Qed.

Lemma node_prev_split p j :
  node_prev p i (pre ++ b :: post) = Some j -> p = Some j \/ j ∈ ids pre.
Proof using Hb Hpre.
  revert p. induction pre as [|c l IH]; intros p; cbn; [rewrite decide_True by done; auto|].
  apply not_in_cons in Hpre as [? Hl]. rewrite decide_False by done.
  intros Hp. destruct (IH Hl _ Hp) as [[= ->]|?]; right; rewrite elem_of_cons; auto.
Qed.
End split.

Lemma list_del_ids i l : ids (list_del i l) = filter (fun j => j <> i) (ids l).
Proof.
  unfold list_del. induction l as [|b l IH]; [done|].
  rewrite fmap_cons, !filter_cons, <- IH. by destruct (decide _).
Qed.

Lemma elem_of_list_del b i l : b ∈ list_del i l <-> b ∈ l /\ bo_id b <> i.
Proof. unfold list_del. rewrite list_elem_of_filter. tauto. Qed.

Lemma ids_inj l b b' : NoDup (ids l) -> b ∈ l -> b' ∈ l -> bo_id b = bo_id b' -> b = b'.
Proof.
  induction l as [|c l IH]; [by intros _ ?%elem_of_nil|].
  cbn. rewrite NoDup_cons. intros [Hc Hl] [->|Hb]%elem_of_cons [->|Hb']%elem_of_cons E;
    [done|..|auto].
  - destruct Hc. rewrite E. by apply list_elem_of_fmap_2.
  - destruct Hc. rewrite <- E. by apply list_elem_of_fmap_2.
Qed.

Lemma entry_elem i l b : NoDup (ids l) -> b ∈ l -> bo_id b = i -> entry i l = Some b.
Proof.
  intros Hnd Hb E. assert (i ∈ ids l) as Hi by (rewrite <- E; by apply list_elem_of_fmap_2).
  destruct (ids_split i l Hi) as (pre & c & post & -> & Hc & Hn).
  rewrite entry_split by done. f_equal.
  apply (ids_inj (pre ++ c :: post)); [done|by apply elem_of_app; right; left|done|congruence].
Qed.

Lemma list_del_notin i l : i ∉ ids l -> list_del i l = l.
Proof.
  unfold list_del. induction l as [|c l IH]; [done|].
  intros [? ?]%not_in_cons. rewrite filter_cons, decide_True by done. f_equal. auto.
Qed.

Lemma list_del_split pre b post :
  NoDup (ids (pre ++ b :: post)) -> list_del (bo_id b) (pre ++ b :: post) = pre ++ post.
Proof.
  rewrite fmap_app, fmap_cons. intros (_ & Hd & Hb)%NoDup_app.
  apply NoDup_cons in Hb as [Hb _].
  unfold list_del. rewrite filter_app, filter_cons, decide_False by auto.
  f_equal; apply list_del_notin; [|done]. intros Hin. by apply (Hd _ Hin); left.
Qed.

Lemma list_del_length i l :
  NoDup (ids l) -> i ∈ ids l -> length l = S (length (list_del i l)).
Proof.
  intros Hnd (pre & b & post & -> & <- & Hn)%ids_split.
  rewrite list_del_split, !length_app by done. cbn. lia.
Qed.

(** ** The invariant *)

Record sa_inv (m : amdgpu_sa_manager) : Prop := {
  inv_nodup : NoDup (ids (olist m));
  inv_hole : forall i, hole m = Some i -> i ∈ ids (olist m);
  inv_chain : chain 0 (olist m) (sa_size m);
  inv_lists : length (flist m) = num_lists;
  inv_fnodup : forall k fl, flist m !! k = Some fl -> NoDup fl;
  inv_queued : forall k fl i, flist m !! k = Some fl -> i ∈ fl ->
    exists b f, b ∈ olist m /\ bo_id b = i /\ bo_fence b = Some f /\ fence_list f = k;
  inv_waiting : forall b f, b ∈ olist m -> bo_fence b = Some f ->
    exists fl, flist m !! fence_list f = Some fl /\ bo_id b ∈ fl;
  inv_bounds : 0 <= sa_size m /\ 0 <= sa_align m /\ sa_size m + sa_align m < 4294967296 }.

(** The manager after buffer [i] was unlinked. *)
Definition removed (i : nat) (m : amdgpu_sa_manager) : amdgpu_sa_manager :=
  SaManager (if decide (hole m = Some i) then node_prev None i (olist m) else hole m)
    (map (filter (fun j => j <> i)) (flist m)) (list_del i (olist m)) (sa_size m) (sa_align m).

Lemma remove_locked_run i m : amdgpu_sa_bo_remove_locked i m = Ok (tt, removed i m).
Proof. done. Qed.

Lemma removed_inv i m : sa_inv m -> i ∈ ids (olist m) -> sa_inv (removed i m).
Proof.
  intros [Hnd Hh Hc Hl Hfnd Hq Hw Hb] Hi. constructor; unfold removed; cbn.
  - rewrite list_del_ids. by apply NoDup_filter.
  - intros j. rewrite list_del_ids, list_elem_of_filter. destruct (decide _) as [E|NE].
    + destruct (ids_split i _ Hi) as (pre & b & post & E' & Hbi & Hn). rewrite E'.
      intros [|Hj]%(node_prev_split i pre post b Hbi Hn); [done|].
      split; [by intros ->|]. rewrite fmap_app. apply elem_of_app. by left.
    + intros Hj. split; [congruence|auto].
  - by apply chain_filter.
  - by rewrite length_map.
  - intros k fl (fl' & -> & Hk)%list_lookup_fmap_Some_1. apply NoDup_filter. eauto.
  - intros k fl j (fl' & -> & Hk)%list_lookup_fmap_Some_1 [Hji Hj]%list_elem_of_filter.
    destruct (Hq k fl' j Hk Hj) as (b & f & Hin & E & Hf & Hfk). exists b, f.
    rewrite elem_of_list_del. subst. auto.
  - intros b f [Hin Hne]%elem_of_list_del Hf.
    destruct (Hw b f Hin Hf) as (fl & Hfl & Hbf). exists (filter (fun j => j <> i) fl).
    rewrite list_lookup_fmap, Hfl. split; [done|]. by apply list_elem_of_filter.
  - done.
Qed.

(** [m'] results from [m] by releasing signaled buffers only. *)
Record shrinks (sig : fence -> bool) (m m' : amdgpu_sa_manager) : Prop := {
  shr_inv : sa_inv m';
  shr_sub : forall b, b ∈ olist m' -> b ∈ olist m;
  shr_keep : forall b, b ∈ olist m -> bo_signaled sig b = false -> b ∈ olist m';
  shr_size : sa_size m' = sa_size m;
  shr_align : sa_align m' = sa_align m }.

Lemma shrinks_refl sig m : sa_inv m -> shrinks sig m m.
Proof. by constructor. Qed.
Lemma shrinks_trans sig m1 m2 m3 :
  shrinks sig m1 m2 -> shrinks sig m2 m3 -> shrinks sig m1 m3.
Proof. intros [] []. constructor; [done|auto|auto|congruence|congruence]. Qed.

Lemma removed_shrinks sig b m :
  sa_inv m -> b ∈ olist m -> bo_signaled sig b = true -> shrinks sig m (removed (bo_id b) m).
Proof.
  intros Hm Hb Hs. constructor; [|intros c|intros c Hc Hcs|done|done].
  - apply removed_inv; [done|]. by apply list_elem_of_fmap_2.
  - intros [? _]%elem_of_list_del. done.
  - apply elem_of_list_del. split; [done|]. intros E.
    rewrite (ids_inj (olist m) c b) in Hcs by (done || apply Hm). congruence.
Qed.

(** Progress measure of the search: removals weigh two, moving the hole back
    to the start weighs one. *)
Definition sa_measure (m : amdgpu_sa_manager) : nat :=
  2 * length (olist m) + match hole m with None => 0 | Some _ => 1 end.

Lemma removed_measure i m :
  sa_inv m -> i ∈ ids (olist m) -> (sa_measure (removed i m) < sa_measure m)%nat.
Proof.
  intros Hm Hi. pose proof (list_del_length i (olist m) (inv_nodup _ Hm) Hi) as Hl.
  unfold sa_measure. cbn [olist removed hole]. rewrite Hl.
  destruct (if decide _ then _ else _), (hole m); lia.
Qed.

(** Where the hole is: the buffers up to it and the buffers after it. *)
Lemma hole_split m :
  sa_inv m -> exists pre post, olist m = pre ++ post /\
    list_after (hole m) (olist m) = post /\ (hole m = None -> pre = []) /\
    (forall x, list_add x (hole m) (olist m) = pre ++ x :: post) /\
    amdgpu_sa_bo_hole_soffset m = Ok (chain_end 0 pre, m).
Proof.
  intros Hm. unfold amdgpu_sa_bo_hole_soffset. destruct (hole m) as [i|] eqn:Eh.
  - destruct (ids_split i (olist m)) as (pre & b & post & E & Hb & Hn);
      [by apply (inv_hole _ Hm)|].
    exists (pre ++ [b]), post. rewrite E, <- app_assoc. cbn [app list_after list_add].
    split; [done|]. split; [by apply nodes_after_split|]. split; [done|]. split.
    + intros x. rewrite (insert_after_split i) by done. by rewrite <- app_assoc.
    + unfold mbind, M_bind, gets. cbn [id]. rewrite Eh, E, (entry_split i) by done.
      cbn. by rewrite chain_end_app.
  - exists [], (olist m). cbn. repeat split; [done..|].
    unfold mbind, M_bind, gets. cbn [id]. by rewrite Eh.
Qed.

(** The buffers up to the hole, as a list of their own. *)
Lemma hole_prefix m :
  sa_inv m -> exists pre post, olist m = pre ++ post /\
    list_after (hole m) (olist m) = post /\ list_after (hole m) pre = [] /\
    (forall i, hole m = Some i -> i ∈ ids pre).
Proof.
  intros Hm. destruct (hole m) as [i|] eqn:Eh; [|by exists [], (olist m)].
  destruct (ids_split i (olist m)) as (pre & b & post & E & Hb & Hn);
    [by apply (inv_hole _ Hm)|].
  exists (pre ++ [b]), post. rewrite E, <- app_assoc. split; [done|].
  split; [by apply nodes_after_split|]. split; [by apply (nodes_after_split i pre [] b)|].
  intros j [= <-]. rewrite fmap_app. apply elem_of_app. right. subst. by left.
Qed.

(** ** Releasing *)

Section operations.
Context (sig : fence -> bool).

Lemma try_free_from_run l m :
  sa_inv m -> NoDup (ids l) -> (forall b, b ∈ l -> b ∈ olist m) ->
  exists m', try_free_from sig l m = Ok (tt, m') /\ shrinks sig m m' /\
    (sa_measure m' <= sa_measure m)%nat.
Proof.
  revert m. induction l as [|b l IH]; intros m Hm Hnd Hl; cbn [try_free_from].
  { exists m. split; [done|]. split; [by apply shrinks_refl|done]. }
  assert (b ∈ olist m) as Hb by (apply Hl; left).
  destruct (bo_signaled sig b) eqn:Es.
  2: { exists m. split; [done|]. split; [by apply shrinks_refl|done]. }
  rewrite (bind_eval _ _ _ _ _ (remove_locked_run _ _)).
  pose proof (removed_shrinks sig b m Hm Hb Es) as Hshr.
  cbn in Hnd. apply NoDup_cons in Hnd as [Hbl Hnd].
  destruct (IH (removed (bo_id b) m)) as (m' & E & Hs & Hme).
  - apply Hshr.
  - done.
  - intros c Hc. apply elem_of_list_del. split; [apply Hl; by right|].
    intros Ecb. destruct Hbl. rewrite <- Ecb. by apply list_elem_of_fmap_2.
  - exists m'. split; [done|]. split; [by eapply shrinks_trans|].
    pose proof (removed_measure (bo_id b) m Hm (list_elem_of_fmap_2 _ _ _ Hb)). lia.
Qed.

Lemma try_free_run m :
  sa_inv m -> exists m', amdgpu_sa_bo_try_free sig m = Ok (tt, m') /\ shrinks sig m m' /\
    (sa_measure m' <= sa_measure m)%nat.
Proof.
  intros Hm. destruct (hole_split m Hm) as (pre & post & E & Ha & _).
  unfold amdgpu_sa_bo_try_free. rewrite (bind_eval (gets id) _ m m m eq_refl), Ha.
  pose proof (inv_nodup _ Hm) as Hnd. rewrite E, fmap_app, NoDup_app in Hnd.
  destruct (try_free_from_run post m Hm) as (m' & Er & ? & ?); [tauto| |].
  { intros b Hb. rewrite E. apply elem_of_app. by right. }
  exists m'. split; [|done]. by destruct post.
Qed.

(** ** Placing a buffer *)

(** [m'] is [m] with the buffer [i] placed: aligned, of the requested size,
    inside the manager's buffer and disjoint from every other buffer. *)
Record placed (i : nat) (size align : Z) (m m' : amdgpu_sa_manager) (b : amdgpu_sa_bo)
  : Prop := {
  pl_inv : sa_inv m';
  pl_same : sa_size m' = sa_size m /\ sa_align m' = sa_align m;
  pl_id : bo_id b = i;
  pl_start : soffset b mod align = 0;
  pl_size : eoffset b = soffset b + size;
  pl_range : 0 <= soffset b /\ eoffset b <= sa_size m';
  pl_live : bo_fence b = None;
  pl_in : b ∈ olist m';
  pl_frame : forall c, c ∈ olist m' <-> c = b \/ c ∈ olist m;
  pl_disjoint : forall c, c ∈ olist m -> eoffset c <= soffset b \/ eoffset b <= soffset c }.

Lemma align_waste_run s a m :
  0 < a < 4294967296 -> 0 <= s -> exists wst, align_waste s a m = Ok (wst, m) /\
    0 <= wst < a /\ (s + wst) mod a = 0 /\ (s = 0 -> wst = 0).
Proof.
  intros Ha Hs. unfold align_waste. rewrite (proj2 (Z.eqb_neq a 0)) by lia.
  pose proof (Z.mod_pos_bound s a ltac:(lia)).
  assert (u32 (a - s mod a) = a - s mod a) as -> by cint.
  eexists. split; [reflexivity|]. split; [apply Z.mod_pos_bound; lia|]. split.
  - rewrite Z.add_mod_idemp_r by lia.
    replace (s + (a - s mod a)) with ((s / a + 1) * a); [by apply Z_mod_mult|].
    rewrite (Z.div_mod s a) at 2 by lia. lia.
  - intros ->. rewrite Z.mod_0_l, Z.sub_0_r by lia. by apply Z_mod_same_full.
Qed.

Lemma insert_inv m pre b post :
  sa_inv m -> olist m = pre ++ post -> bo_id b ∉ ids (olist m) -> bo_fence b = None ->
  chain 0 (pre ++ b :: post) (sa_size m) ->
  sa_inv (SaManager (Some (bo_id b)) (flist m) (pre ++ b :: post) (sa_size m) (sa_align m)).
Proof.
  intros [Hnd Hh Hc Hl Hfnd Hq Hw Hb] E Hfresh Hf Hch. rewrite E in *.
  assert (forall c, c ∈ pre ++ post -> c ∈ pre ++ b :: post) as Hsub
    by (intros c; rewrite !elem_of_app, elem_of_cons; tauto).
  constructor; cbn.
  - rewrite fmap_app, fmap_cons, (Permutation_app_comm (ids pre)). cbn.
    rewrite (Permutation_app_comm (ids post)), <- fmap_app. by apply NoDup_cons.
  - intros i [= <-]. apply list_elem_of_fmap_2. by apply elem_of_app; right; left.
  - done.
  - done.
  - done.
  - intros k fl i Hk Hi. destruct (Hq k fl i Hk Hi) as (c & f & Hin & ?). exists c, f. auto.
  - intros c f [Hc'|[->|Hc']%elem_of_cons]%elem_of_app Hcf; [|congruence|];
      apply (Hw c f); rewrite ?elem_of_app; auto.
  - done.
Qed.

Lemma try_alloc_run i size align m :
  sa_inv m -> i ∉ ids (olist m) -> 0 < align <= sa_align m -> 0 <= size <= sa_size m ->
  exists ok m', amdgpu_sa_bo_try_alloc i size align m = Ok (ok, m') /\
    if (ok : bool) then exists b, placed i size align m m' b else m' = m /\ olist m <> [].
Proof.
  intros Hm Hi Ha Hs. destruct (hole_split m Hm) as (pre & post & E & Hafter & _ & Hadd & Hso).
  pose proof (inv_bounds _ Hm) as (HB1 & HB2 & HB3).
  pose proof (inv_chain _ Hm) as Hc. rewrite E, chain_app in Hc. destruct Hc as [Hc1 Hc2].
  pose proof (chain_end_ge _ _ Hc1) as Hge. set (s := chain_end 0 pre) in *.
  unfold amdgpu_sa_bo_try_alloc. rewrite (bind_eval _ _ _ _ _ Hso).
  set (e := match post with c :: _ => soffset c | [] => sa_size m end).
  assert (amdgpu_sa_bo_hole_eoffset m = Ok (e, m)) as He.
  { unfold amdgpu_sa_bo_hole_eoffset, mbind, M_bind, gets. cbn [id]. rewrite Hafter.
    by destruct post. }
  rewrite (bind_eval _ _ _ _ _ He).
  assert (s <= e /\ e <= sa_size m) as [Hse Hes].
  { unfold e. destruct post as [|c post]; cbn in Hc2; [lia|].
    destruct Hc2 as [? ?%chain_le]. lia. }
  destruct (align_waste_run s align m) as (wst & Ew & Hw & Hal & Hw0); [lia|lia|].
  rewrite (bind_eval _ _ _ _ _ Ew).
  assert (u32 (e - s) = e - s) as -> by cint.
  assert (u32 (size + wst) = size + wst) as -> by cint.
  destruct (Z.geb_spec (e - s) (size + wst)) as [Hfit|Hfit].
  2: { exists false, m. split; [done|]. split; [done|]. intros Enil.
       rewrite Enil in E. symmetry in E. apply app_eq_nil in E as [-> ->].
       unfold s, e in *. cbn in *. rewrite Hw0 in Hfit by done. lia. }
  assert (u32 (s + wst) = s + wst) as -> by cint.
  assert (u32 (s + wst + size) = s + wst + size) as -> by cint.
  set (b := SaBo i (s + wst) (s + wst + size) None).
  assert (chain 0 (pre ++ b :: post) (sa_size m)) as Hch.
  { apply chain_app. split; [done|]. fold s. cbn. split; [lia|].
    destruct post as [|c post]; cbn in *; [lia|]. split; [unfold e in *; lia|tauto]. }
  exists true. eexists. split; [rewrite (bind_eval _ _ _ _ _ eq_refl); reflexivity|].
  exists b. rewrite Hadd. cbn [olist sa_size]. constructor; cbn [soffset eoffset bo_id bo_fence b].
  - by apply (insert_inv m pre b post).
  - done.
  - done.
  - done.
  - done.
  - cbn. split; [lia|]. lia.
  - done.
  - cbn. by apply elem_of_app; right; left.
  - intros c. cbn. rewrite E, !elem_of_app, elem_of_cons. tauto.
  - intros c Hin. rewrite E in Hin. apply (chain_disjoint 0 pre b post (sa_size m) c Hch Hin).
Qed.
End operations.

(** ** Moving the hole *)

Section search.
Context (sig : fence -> bool).

Lemma best_loop_run m soff tries :
  sa_inv m -> length tries = num_lists -> forall fls i best best_bo fences,
  (forall k fl, fls !! k = Some fl -> flist m !! (i + k)%nat = Some fl) ->
  (forall b, best_bo = Some b -> b ∈ olist m /\ bo_signaled sig b = true) ->
  exists b' fences', best_loop sig i fls soff best best_bo fences tries m =
      Ok ((b', fences'), m) /\
    (forall b, b' = Some b -> b ∈ olist m /\ bo_signaled sig b = true) /\
    length fences' = length fences.
Proof.
  intros Hm Ht. induction fls as [|fl fls IH]; intros i best best_bo fences Hfl Hb.
  { exists best_bo, fences. auto. }
  assert (forall k fl, fls !! k = Some fl -> flist m !! (S i + k)%nat = Some fl) as Hfl'.
  { intros k fl' Hk. rewrite Nat.add_succ_comm. apply (Hfl (S k)). done. }
  destruct fl as [|j fl]; cbn [best_loop]; [by apply IH|].
  pose proof (Hfl 0%nat _ eq_refl) as H0. rewrite Nat.add_0_r in H0.
  destruct (inv_queued _ Hm i (j :: fl) j H0 ltac:(left)) as (b & f & Hin & Hid & Hf & Hk).
  rewrite (bind_eval (gets id) _ m m m eq_refl).
  rewrite (entry_elem j (olist m) b) by (done || apply Hm).
  rewrite (bind_eval _ _ _ _ _ eq_refl), Hf, (bind_eval _ _ _ _ _ eq_refl).
  destruct (sig f) eqn:Es; cbn [negb].
  - assert (is_Some (tries !! i)) as [t Et].
    { apply lookup_lt_is_Some. rewrite Ht, <- (inv_lists _ Hm). by eapply lookup_lt_Some. }
    rewrite Et, (bind_eval _ _ _ _ _ eq_refl).
    destruct (t >? 2); [by apply IH|]. destruct (_ <? best); apply IH; try done.
    intros b0 [= <-]. split; [done|]. unfold bo_signaled. by rewrite Hf.
  - destruct (IH (S i) best best_bo (<[i:=Some f]> fences)) as (b' & fs' & ? & ? & ?); [done..|].
    exists b', fs'. rewrite length_insert in *. auto.
Qed.

Lemma set_hole_inv h m :
  sa_inv m -> (forall i, h = Some i -> i ∈ ids (olist m)) -> sa_inv (set_hole h m).
Proof. intros [] Hh. by constructor. Qed.

Lemma fence_list_lt f : (fence_list f < num_lists)%nat.
Proof.
  unfold fence_list, num_lists, AMDGPU_SA_NUM_FENCE_LISTS.
  pose proof (Z.mod_pos_bound (u32 (f_context f)) 32 ltac:(lia)). lia.
Qed.

Lemma next_hole_run fences tries m :
  sa_inv m -> length tries = num_lists -> olist m <> [] ->
  exists again fences' tries' m',
    amdgpu_sa_bo_next_hole sig fences tries m = Ok ((again, fences', tries'), m') /\
    shrinks sig m m' /\ length tries' = num_lists /\ length fences' = length fences /\
    (if (again : bool) then (sa_measure m' < sa_measure m)%nat else m' = m).
Proof.
  intros Hm Ht Hne. destruct (hole_split m Hm) as (pre & post & E & Ha & Hpre & _ & Hso).
  unfold amdgpu_sa_bo_next_hole. rewrite (bind_eval (gets id) _ m m m eq_refl), Ha.
  destruct post as [|p post].
  { exists true, fences, tries, (set_hole None m).
    split; [done|]. split.
    { constructor; [apply set_hole_inv; [done|by intros]|done..]. }
    split; [done|]. split; [done|]. unfold sa_measure. cbn.
    destruct (hole m); [lia|]. rewrite Hpre in E by done. done. }
  rewrite (bind_eval _ _ _ _ _ Hso).
  destruct (best_loop_run m (chain_end 0 pre) tries Hm Ht (flist m) 0
    (u32 (sa_size m * 2)) None fences) as (b' & fs & Eb & Hb & Hlen); [by intros|done|].
  rewrite (bind_eval _ _ _ _ _ Eb). cbv beta iota.
  destruct b' as [b|]; cbv iota.
  2: { exists false, fs, tries, m. split; [done|]. split; [by apply shrinks_refl|done]. }
  destruct (Hb b eq_refl) as [Hin Hs]. unfold bo_signaled in Hs.
  destruct (bo_fence b) as [f|] eqn:Ef; [|done]. rewrite (bind_eval _ _ _ _ _ eq_refl).
  assert (is_Some (tries !! fence_list f)) as [t Et].
  { apply lookup_lt_is_Some. rewrite Ht. apply fence_list_lt. }
  rewrite Et. rewrite !(bind_eval _ _ _ _ _ eq_refl).
  set (m1 := set_hole (node_prev None (bo_id b) (olist m)) m).
  assert (bo_id b ∈ ids (olist m)) as Hi by (by apply list_elem_of_fmap_2).
  assert (sa_inv m1) as Hm1.
  { apply set_hole_inv; [done|]. intros j. destruct (ids_split _ _ Hi) as (l1 & c & l2 & El & Hc & Hn).
    rewrite El. intros [|Hj]%(node_prev_split _ l1 l2 c Hc Hn); [done|].
    rewrite fmap_app. apply elem_of_app. by left. }
  assert (shrinks sig m1 (removed (bo_id b) m1)) as Hshr.
  { apply removed_shrinks; [done|done|]. unfold bo_signaled. by rewrite Ef. }
  exists true, fs, (<[fence_list f:=u32 (t + 1)]> tries), (removed (bo_id b) m1).
  split; [done|]. split; [destruct Hshr; by constructor|].
  rewrite length_insert. split; [done|]. split; [done|].
  pose proof (list_del_length (bo_id b) (olist m) (inv_nodup _ Hm) Hi) as Hl.
  unfold sa_measure. cbn [olist removed m1 set_hole hole]. rewrite Hl.
  destruct (if decide _ then _ else _), (hole m); lia.
Qed.

(** The search ends, in a placement or in a request to wait; on the way it
    releases signaled buffers only. *)
Lemma sa_search_run i size align : forall fuel m fences tries,
  (sa_measure m < fuel)%nat ->
  sa_inv m -> i ∉ ids (olist m) -> 0 < align <= sa_align m -> 0 <= size <= sa_size m ->
  length tries = num_lists ->
  exists res m', sa_search sig fuel i size align fences tries m = Ok (res, m') /\
    match res with
    | inl _ => exists m0 b, shrinks sig m m0 /\ placed i size align m0 m' b
    | inr fences' => shrinks sig m m' /\ length fences' = length fences
    end.
Proof.
  induction fuel as [|fuel IH]; intros m fences tries Hf Hm Hi Ha Hs Ht; [lia|].
  cbn [sa_search].
  destruct (try_free_run sig m Hm) as (m1 & E1 & H1 & Hme1).
  rewrite (bind_eval _ _ _ _ _ E1).
  assert (i ∉ ids (olist m1)) as Hi1.
  { intros (b & -> & Hb)%list_elem_of_fmap. destruct Hi. apply list_elem_of_fmap_2.
    by apply (shr_sub _ _ _ H1). }
  rewrite <- (shr_align _ _ _ H1) in Ha. rewrite <- (shr_size _ _ _ H1) in Hs.
  destruct (try_alloc_run i size align m1 (shr_inv _ _ _ H1) Hi1 Ha Hs) as (ok & m2 & E2 & H2).
  rewrite (bind_eval _ _ _ _ _ E2). destruct ok.
  { exists (inl tt), m2. split; [done|]. destruct H2 as [b Hb]. eauto. }
  destruct H2 as [-> Hne].
  destruct (next_hole_run fences tries m1 (shr_inv _ _ _ H1) Ht Hne)
    as (again & fs & ts & m3 & E3 & H3 & Ht3 & Hl3 & Hag).
  rewrite (bind_eval _ _ _ _ _ E3). cbv beta iota. destruct again.
  - destruct (IH m3 fs ts) as (res & m' & E & Hres).
    + lia.
    + apply H3.
    + intros (b & -> & Hb)%list_elem_of_fmap. destruct Hi1. apply list_elem_of_fmap_2.
      by apply (shr_sub _ _ _ H3).
    + by rewrite (shr_align _ _ _ H3).
    + by rewrite (shr_size _ _ _ H3).
    + done.
    + exists res, m'. split; [done|]. destruct res as [u|fs'].
      * destruct Hres as (m0 & b & Hm0 & Hb). exists m0, b. split; [|done].
        eauto using shrinks_trans.
      * destruct Hres as [? ?]. split; [eauto using shrinks_trans|congruence].
  - subst m3. exists (inr fs), m1. split; [done|]. auto.
Qed.
End search.

(** ** Freeing *)

Definition live (i : nat) (m : amdgpu_sa_manager) : Prop :=
  exists b, b ∈ olist m /\ bo_id b = i /\ bo_fence b = None.

(** Recording the fence of a freed buffer. *)
Definition with_fence (i : nat) (f : fence) (b : amdgpu_sa_bo) : amdgpu_sa_bo :=
  if decide (bo_id b = i) then SaBo (bo_id b) (soffset b) (eoffset b) (Some f) else b.

Lemma with_fence_id i f b : bo_id (with_fence i f b) = bo_id b.
Proof. unfold with_fence. by destruct (decide _). Qed.

Lemma with_fence_ids i f (l : list amdgpu_sa_bo) : ids (with_fence i f <$> l) = ids l.
Proof. rewrite <- list_fmap_compose. apply list_fmap_ext. intros. apply with_fence_id. Qed.

Lemma with_fence_chain i f lo l hi : chain lo l hi -> chain lo (with_fence i f <$> l) hi.
Proof.
  revert lo. induction l as [|b l IH]; intros lo; [done|]. rewrite fmap_cons.
  intros [Hb Hl]. split.
  - unfold with_fence. by destruct (decide _).
  - replace (eoffset (with_fence i f b)) with (eoffset b); [by apply IH|].
    unfold with_fence. by destruct (decide _).
Qed.

Lemma queue_inv i f m :
  sa_inv m -> live i m ->
  sa_inv (SaManager (hole m) (alter (fun fl => fl ++ [i]) (fence_list f) (flist m))
            (with_fence i f <$> olist m) (sa_size m) (sa_align m)).
Proof.
  intros [Hnd Hh Hc Hl Hfnd Hq Hw Hb] (b0 & Hb0 & Hi & Hn).
  assert (forall k fl, flist m !! k = Some fl -> i ∉ fl) as Hnot.
  { intros k fl Hk Hin. destruct (Hq k fl i Hk Hin) as (b & g & ? & ? & ? & _).
    rewrite (ids_inj (olist m) b b0) in * by (done || congruence). congruence. }
  constructor; cbn.
  - by rewrite with_fence_ids.
  - intros j ?. rewrite with_fence_ids. auto.
  - by apply with_fence_chain.
  - by rewrite length_alter.
  - intros k fl Hk. destruct (decide (k = fence_list f)) as [->|Hne].
    + rewrite list_lookup_alter_eq in Hk. destruct (flist m !! _) as [fl0|] eqn:E; [|done].
      injection Hk as <-. apply NoDup_app. split; [eauto|]. split; [|apply NoDup_singleton].
      intros x Hx ->%list_elem_of_singleton. by apply (Hnot _ _ E).
    + rewrite list_lookup_alter_ne in Hk by done. eauto.
  - intros k fl j Hk Hj.
    assert ((j = i /\ k = fence_list f) \/ (exists fl0, flist m !! k = Some fl0 /\ j ∈ fl0))
      as [[-> ->]|(fl0 & Hk0 & Hj0)].
    { destruct (decide (k = fence_list f)) as [->|Hne].
      - rewrite list_lookup_alter_eq in Hk. destruct (flist m !! _) as [fl0|] eqn:E; [|done].
        injection Hk as <-. apply elem_of_app in Hj as [?|?%list_elem_of_singleton]; eauto.
      - rewrite list_lookup_alter_ne in Hk by done. eauto. }
    + exists (with_fence i f b0), f. split; [by apply list_elem_of_fmap_2|].
      unfold with_fence. rewrite decide_True by done. auto.
    + destruct (Hq k fl0 j Hk0 Hj0) as (b & g & Hin & Hid & Hg & Hfk). exists b, g.
      split; [|done]. replace b with (with_fence i f b); [by apply list_elem_of_fmap_2|].
      unfold with_fence. rewrite decide_False; [done|]. intros Ei.
      apply (Hnot _ _ Hk0). by rewrite <- Ei, Hid.
  - intros c g (b & -> & Hin)%list_elem_of_fmap Hg. rewrite with_fence_id.
    unfold with_fence in Hg. destruct (decide (bo_id b = i)) as [Ei|Ei].
    + injection Hg as <-. assert (is_Some (flist m !! fence_list f)) as [fl Hfl]
        by (apply lookup_lt_is_Some; rewrite Hl; apply fence_list_lt).
      exists (fl ++ [i]). rewrite list_lookup_alter_eq, Hfl. split; [done|].
      rewrite elem_of_app, list_elem_of_singleton. auto.
    + destruct (Hw b g Hin Hg) as (fl & Hfl & Hbf).
      destruct (decide (fence_list g = fence_list f)) as [Ef|Ef].
      * exists (fl ++ [i]). rewrite Ef, list_lookup_alter_eq, <- Ef, Hfl. split; [done|].
        rewrite elem_of_app. auto.
      * exists fl. by rewrite list_lookup_alter_ne by done.
  - done.
Qed.

Lemma free_run sig i f m :
  sa_inv m -> live i m ->
  exists m', amdgpu_sa_bo_free sig (Some i) f m = Ok (tt, m') /\ sa_inv m' /\
    sa_size m' = sa_size m /\ sa_align m' = sa_align m.
Proof.
  intros Hm Hi. unfold amdgpu_sa_bo_free.
  assert (i ∈ ids (olist m)) as Hin
    by (destruct Hi as (b & Hb & <- & _); by apply list_elem_of_fmap_2).
  assert (exists m', amdgpu_sa_bo_remove_locked i m = Ok (tt, m') /\ sa_inv m' /\
    sa_size m' = sa_size m /\ sa_align m' = sa_align m) as Hrem.
  { exists (removed i m). split; [done|]. split; [by apply removed_inv|done]. }
  destruct f as [f|]; [|exact Hrem]. destruct (sig f); cbn [negb]; [exact Hrem|].
  eexists. split; [reflexivity|]. split; [exact (queue_inv i f m Hm Hi)|done].
Qed.
