(* ===== verification/SubAllocSpec.v ===== *)
(** * What the ring sub-allocator promises

    The theorems of the allocator against its clients: allocation and release
    as atomic steps (the manager's lock), the fences signaling in between. *)

From stdpp Require Import base numbers list relations.
From S2P Require Import Prelude CMonad SubAlloc SubAllocProps.

(** ** Releasing everything that has signaled *)

Definition all_signaled (sig : fence -> bool) (m : amdgpu_sa_manager) : Prop :=
  forall b, b ∈ olist m -> bo_signaled sig b = true.

Lemma try_free_from_all sig pre post m :
  sa_inv m -> olist m = pre ++ post -> (forall i, hole m = Some i -> i ∈ ids pre) ->
  all_signaled sig m ->
  exists m', try_free_from sig post m = Ok (tt, m') /\ sa_inv m' /\
    olist m' = pre /\ hole m' = hole m /\ sa_size m' = sa_size m /\ sa_align m' = sa_align m.
Proof.
  revert m. induction post as [|b post IH]; intros m Hm E Hh Hall; cbn [try_free_from].
  { exists m. by rewrite app_nil_r in E. }
  assert (b ∈ olist m) as Hb by (rewrite E; apply elem_of_app; right; left).
  rewrite (Hall b Hb), (bind_eval _ _ _ _ _ (remove_locked_run _ _)).
  pose proof (inv_nodup _ Hm) as Hnd. rewrite E in Hnd.
  assert (olist (removed (bo_id b) m) = pre ++ post) as E'
    by (cbn; rewrite E; by apply list_del_split).
  assert (hole (removed (bo_id b) m) = hole m) as Eh.
  { cbn. destruct (decide _) as [Ei|]; [|done]. exfalso. apply Hh in Ei.
    rewrite fmap_app in Hnd. apply NoDup_app in Hnd as (_ & Hd & _).
    apply (Hd _ Ei). by left. }
  destruct (IH (removed (bo_id b) m)) as (m' & Er & ? & ? & ? & ?).
  - apply removed_inv; [done|]. by apply list_elem_of_fmap_2.
  - done.
  - by rewrite Eh.
  - intros c. rewrite E'. intros Hc. apply Hall. rewrite E.
    revert Hc. rewrite !elem_of_app, elem_of_cons. tauto.
  - exists m'. rewrite Eh in *. auto.
Qed.

Lemma try_free_all sig m :
  sa_inv m -> all_signaled sig m ->
  exists m', amdgpu_sa_bo_try_free sig m = Ok (tt, m') /\ sa_inv m' /\
    (forall b, b ∈ olist m' -> b ∈ olist m) /\
    list_after (hole m') (olist m') = [] /\ hole m' = hole m /\
    sa_size m' = sa_size m /\ sa_align m' = sa_align m.
Proof.
  intros Hm Hall. destruct (hole_prefix m Hm) as (pre & post & E & Ha & Hp & Hh).
  destruct (try_free_from_all sig pre post m Hm E Hh Hall) as (m' & Er & Hi & Eo & Eh & ? & ?).
  exists m'. split.
  { unfold amdgpu_sa_bo_try_free. rewrite (bind_eval (gets id) _ m m m eq_refl), Ha.
    by destruct post. }
  split; [done|]. split; [intros b; rewrite Eo, E, elem_of_app; tauto|].
  by rewrite Eo, Eh.
Qed.

Section claims.
Context (sig : fence -> bool).

(** One pass of the allocator's search terminates within [search_fuel]
    turns and either places the buffer or asks to wait.  A placed buffer has
    the requested size and alignment, lies inside the manager's buffer and is
    disjoint from every other buffer; the search keeps every buffer that is
    still in use or whose fence has not signaled, and preserves the
    invariant. *)
Theorem sa_search_correct (m : amdgpu_sa_manager) (i : nat) (size align : Z) :
  sa_inv m -> i ∉ ids (olist m) -> 0 < align <= sa_align m -> 0 <= size <= sa_size m ->
  exists res m',
    sa_search sig (search_fuel m) i size align
      (replicate num_lists None) (replicate num_lists 0) m = Ok (res, m') /\
    sa_inv m' /\
    (forall b, b ∈ olist m -> bo_signaled sig b = false -> b ∈ olist m') /\
    match res with
    | inl _ => exists b, b ∈ olist m' /\ bo_id b = i /\ bo_fence b = None /\
        soffset b mod align = 0 /\ eoffset b = soffset b + size /\
        0 <= soffset b /\ eoffset b <= sa_size m /\
        (forall c, c ∈ olist m' -> c <> b -> eoffset c <= soffset b \/ eoffset b <= soffset c)
    | inr fences => length fences = num_lists /\ forall b, b ∈ olist m' -> b ∈ olist m
    end.
Proof.
  intros Hm Hi Ha Hs.
  destruct (sa_search_run sig i size align (search_fuel m) m
    (replicate num_lists None) (replicate num_lists 0)) as (res & m' & E & Hres);
    [|done..|].
  { unfold search_fuel, sa_measure. destruct (hole m); lia. }
  exists res, m'. split; [done|]. destruct res as [u|fences].
  - destruct Hres as (m0 & b & Hsh & Hp). split; [apply Hp|]. split.
    { intros c Hc Hcs. apply (pl_frame _ _ _ _ _ _ Hp). right.
      by apply (shr_keep _ _ _ Hsh). }
    exists b. pose proof (pl_range _ _ _ _ _ _ Hp) as [H0 H1].
    rewrite (proj1 (pl_same _ _ _ _ _ _ Hp)), (shr_size _ _ _ Hsh) in H1.
    split; [apply Hp|]. split; [apply Hp|]. split; [apply Hp|]. split; [apply Hp|].
    split; [apply Hp|]. split; [done|]. split; [done|].
    intros c Hc Hne. apply (pl_disjoint _ _ _ _ _ _ Hp).
    apply (pl_frame _ _ _ _ _ _ Hp) in Hc as [?|?]; done.
  - destruct Hres as [Hsh Hlen]. split; [apply Hsh|]. split; [apply Hsh|].
    split; [done|]. apply Hsh.
Qed.

(** When every buffer has been released and has signaled, two turns suffice. *)
Lemma sa_idle_search (m : amdgpu_sa_manager) (i : nat) (size align : Z) :
  sa_inv m -> all_signaled sig m ->
  i ∉ ids (olist m) -> 0 < align <= sa_align m -> 0 <= size <= sa_size m ->
  exists m', sa_search sig (search_fuel m) i size align
      (replicate num_lists None) (replicate num_lists 0) m = Ok (inl tt, m').
Proof.
  intros Hm Hall Hi Ha Hs.
  unfold search_fuel. rewrite Nat.add_comm. cbn [Nat.add].
  generalize (2 * length (olist m))%nat. intros fuel. cbn [sa_search].
  destruct (try_free_all sig m Hm Hall) as (m1 & E1 & Hm1 & Hsub1 & Hl1 & Hh1 & Hs1 & Ha1).
  rewrite (bind_eval _ _ _ _ _ E1). rewrite <- Hs1 in Hs. rewrite <- Ha1 in Ha.
  assert (i ∉ ids (olist m1)) as Hi1.
  { intros (b & -> & Hb)%list_elem_of_fmap. destruct Hi. apply list_elem_of_fmap_2. auto. }
  destruct (try_alloc_run i size align m1 Hm1 Hi1 Ha Hs) as (ok & m2 & E2 & H2).
  rewrite (bind_eval _ _ _ _ _ E2). destruct ok; [by exists m2|]. destruct H2 as [-> _].
  assert (amdgpu_sa_bo_next_hole sig (replicate num_lists None) (replicate num_lists 0) m1 =
    Ok ((true, replicate num_lists None, replicate num_lists 0), set_hole None m1)) as E3.
  { unfold amdgpu_sa_bo_next_hole. rewrite (bind_eval (gets id) _ m1 m1 m1 eq_refl).
    by rewrite Hl1. }
  rewrite (bind_eval _ _ _ _ _ E3). cbv beta iota.
  assert (sa_inv (set_hole None m1)) as Hm2 by (apply set_hole_inv; by intros).
  destruct (try_free_all sig (set_hole None m1) Hm2) as (m3 & E4 & Hm3 & Hsub3 & Hl3 & Hh3 & Hs3 & Ha3).
  { intros b Hb. apply Hall. auto. }
  rewrite (bind_eval _ _ _ _ _ E4). rewrite Hh3 in Hl3. cbn in Hl3, Hs3, Ha3.
  destruct (try_alloc_run i size align m3 Hm3) as (ok & m4 & E5 & H5).
  - rewrite Hl3. apply not_elem_of_nil.
  - by rewrite Ha3.
  - by rewrite Hs3.
  - rewrite (bind_eval _ _ _ _ _ E5). destruct ok; [by exists m4|].
    by destruct H5 as [_ []].
Qed.
End claims.

(** ** Interleavings

    Clients allocate and free, each under the lock, while fences signal. *)

Inductive sa_step : amdgpu_sa_manager * (fence -> bool) ->
                    amdgpu_sa_manager * (fence -> bool) -> Prop :=
  | step_alloc m sig i size align res m' :
      i ∉ ids (olist m) -> 0 < align -> 0 <= size -> align <= sa_align m -> size <= sa_size m ->
      sa_search sig (search_fuel m) i size align
        (replicate num_lists None) (replicate num_lists 0) m = Ok (res, m') ->
      sa_step (m, sig) (m', sig)
  | step_free m sig i f m' :
      live i m -> amdgpu_sa_bo_free sig (Some i) f m = Ok (tt, m') ->
      sa_step (m, sig) (m', sig)
  | step_signal m sig sig' :
      (forall f, sig f = true -> sig' f = true) -> sa_step (m, sig) (m, sig').

Lemma init_inv size align :
  0 <= size -> 0 <= align -> size + align < 4294967296 ->
  sa_inv (amdgpu_sa_bo_manager_init size align).
Proof.
  intros. constructor; unfold amdgpu_sa_bo_manager_init; cbn [olist hole flist sa_size sa_align].
  - apply NoDup_nil_2.
  - done.
  - done.
  - apply length_replicate.
  - intros k fl [-> _]%lookup_replicate. apply NoDup_nil_2.
  - intros k fl i [-> _]%lookup_replicate. by intros ?%elem_of_nil.
  - by intros b f ?%elem_of_nil.
  - done.
Qed.

Lemma step_inv m sig m' sig' : sa_step (m, sig) (m', sig') -> sa_inv m -> sa_inv m'.
Proof.
  inversion 1 as [? ? i size align res ? Hi ? ? ? ? E|? ? i f ? Hl E|]; subst; intros Hm; [| |done].
  - destruct (sa_search_run sig' i size align (search_fuel m) m
      (replicate num_lists None) (replicate num_lists 0)) as (res' & m2 & E' & Hres);
      [|done..|].
    { unfold search_fuel, sa_measure. destruct (hole m); lia. }
    rewrite E in E'. injection E' as <- <-. destruct res.
    + destruct Hres as (? & ? & ? & Hp). apply Hp.
    + apply Hres.
  - destruct (free_run sig' i f m Hm Hl) as (m2 & E' & Hi & _). congruence.
Qed.

(** In every state reachable from a fresh manager by any interleaving of
    allocations, releases and signaling fences, the buffers form a chain of
    disjoint intervals inside the managed buffer: any two different ones do
    not overlap. *)
Theorem sa_reachable_disjoint (size align : Z) (sig0 : fence -> bool)
    (m : amdgpu_sa_manager) (sig : fence -> bool) :
  0 <= size -> 0 <= align -> size + align < 4294967296 ->
  rtc sa_step (amdgpu_sa_bo_manager_init size align, sig0) (m, sig) ->
  sa_inv m /\
  forall b c, b ∈ olist m -> c ∈ olist m -> b <> c ->
    eoffset b <= soffset c \/ eoffset c <= soffset b.
Proof.
  intros Hs Ha Hsa Hr.
  assert (sa_inv m) as Hm.
  { pose proof (init_inv size align Hs Ha Hsa) as H0. revert H0.
    generalize dependent (amdgpu_sa_bo_manager_init size align). intros m0 Hr.
    remember (m0, sig0) as x eqn:Ex. remember (m, sig) as y eqn:Ey.
    revert m0 sig0 Ex. induction Hr as [x|x [m1 sig1] y Hst Hr IH]; intros m0 sig0 ->.
    - injection Ey as -> ->. done.
    - intros H0. by apply (IH Ey m1 sig1 eq_refl), (step_inv m0 sig0 m1 sig1). }
  split; [done|]. intros b c Hb Hc Hne.
  apply list_elem_of_split in Hb as (l1 & l2 & E).
  pose proof (inv_chain _ Hm) as Hch. rewrite E in Hch, Hc.
  assert (c ∈ l1 ++ l2) as Hin.
  { revert Hc. rewrite !elem_of_app, elem_of_cons. intros [?|[?|?]]; [by left|congruence|by right]. }
  pose proof (chain_disjoint _ _ _ _ _ _ Hch Hin). tauto.
Qed.

(** ** The whole allocation *)

Section new.
Context (sa_wait : list fence -> amdgpu_sa_manager -> wait_result) (i : nat).

(** While the lock is released the other clients keep the invariant and the
    geometry of the manager, and do not use the address just allocated. *)
Hypothesis wait_ok : forall fences m r m' sig',
  sa_wait fences m = (r, m', sig') -> sa_inv m -> i ∉ ids (olist m) ->
  sa_inv m' /\ i ∉ ids (olist m') /\ sa_size m' = sa_size m /\ sa_align m' = sa_align m.

(** The buffer [i] in [m]. *)
Definition allocated (size align : Z) (m : amdgpu_sa_manager) : Prop :=
  exists b, b ∈ olist m /\ bo_id b = i /\ soffset b mod align = 0 /\
    eoffset b = soffset b + size /\ 0 <= soffset b /\ eoffset b <= sa_size m /\
    forall c, c ∈ olist m -> c <> b -> eoffset c <= soffset b \/ eoffset b <= soffset c.

Lemma new_loop_run size align : 0 < align -> 0 <= size -> forall fuel sig m,
  sa_inv m -> i ∉ ids (olist m) -> align <= sa_align m -> size <= sa_size m ->
  match sa_new_loop sa_wait fuel sig i size align m with
  | Ok (r, m') => sa_inv m' /\ (r = 0 -> allocated size align m')
  | Fault => False
  | NoFuel => True
  end.
Proof.
  intros Ha0 Hs0. induction fuel as [|fuel IH]; intros sig m Hm Hi Ha Hs; [done|].
  cbn [sa_new_loop]. rewrite (bind_eval (gets id) _ m m m eq_refl).
  destruct (sa_search_run sig i size align (search_fuel m) m
    (replicate num_lists None) (replicate num_lists 0)) as (res & m' & E & Hres);
    [|done..|].
  { unfold search_fuel, sa_measure. destruct (hole m); lia. }
  rewrite (bind_eval _ _ _ _ _ E). destruct res as [u|fences]; cbv beta iota.
  - destruct Hres as (m0 & b & Hsh & Hp). unfold mret, M_ret.
    split; [apply Hp|]. intros _. exists b.
    split; [apply Hp|]. split; [apply Hp|]. split; [apply Hp|]. split; [apply Hp|].
    split; [apply Hp|]. split; [apply Hp|].
    intros c Hc Hne. apply (pl_disjoint _ _ _ _ _ _ Hp).
    apply (pl_frame _ _ _ _ _ _ Hp) in Hc as [?|?]; done.
  - destruct Hres as [Hsh _]. rewrite (bind_eval (gets id) _ m' m' m' eq_refl).
    destruct (sa_wait (omap id fences) m') as [[r m2] sig2] eqn:Ew.
    destruct (wait_ok _ _ _ _ _ Ew (shr_inv _ _ _ Hsh)) as (Hm2 & Hi2 & Hs2 & Ha2).
    { intros (b & -> & Hb)%list_elem_of_fmap. destruct Hi. apply list_elem_of_fmap_2.
      by apply (shr_sub _ _ _ Hsh). }
    rewrite (bind_eval _ _ _ _ _ eq_refl).
    destruct (Z.eqb_spec r 0) as [_|Hr].
    + apply IH; [done|done| |].
      * by rewrite Ha2, (shr_align _ _ _ Hsh).
      * by rewrite Hs2, (shr_size _ _ _ Hsh).
    + unfold mret, M_ret. by split.
Qed.

(** C27: [amdgpu_sa_bo_new] is safe however the other clients behave during its
    waits, as long as they keep the invariant: it never touches freed memory,
    it rejects a request larger than the manager or its alignment without
    changing anything, and when it returns success the new buffer is aligned,
    of the requested size, inside the manager and disjoint from all others.
    When all other buffers have signaled it succeeds without waiting. *)
Theorem sa_new_correct (fuel : nat) (sig : fence -> bool) (m : amdgpu_sa_manager) (size align : Z) :
  sa_inv m -> i ∉ ids (olist m) -> 0 < align -> 0 <= size ->
  let run := amdgpu_sa_bo_new sa_wait fuel sig (Some i) size align m in
  run <> Fault /\
  (sa_align m < align \/ sa_size m < size -> run = Ok (- EINVAL, m)) /\
  (forall r m', run = Ok (r, m') -> sa_inv m' /\ (r = 0 -> allocated size align m')) /\
  (align <= sa_align m -> size <= sa_size m -> all_signaled sig m -> (0 < fuel)%nat ->
   exists m', run = Ok (0, m') /\ allocated size align m').
Proof.
  intros Hm Hi Ha Hs run. unfold run, amdgpu_sa_bo_new. clear run.
  rewrite (bind_eval (gets id) _ m m m eq_refl). rewrite !Z.gtb_ltb.
  destruct (Z.ltb_spec (sa_align m) align) as [Hal|Hal].
  { split; [done|]. split; [done|]. split; [|lia]. intros r m' [= <- <-]. by split. }
  destruct (Z.ltb_spec (sa_size m) size) as [Hsz|Hsz].
  { split; [done|]. split; [done|]. split; [|lia]. intros r m' [= <- <-]. by split. }
  pose proof (new_loop_run size align Ha Hs fuel sig m Hm Hi Hal Hsz) as H.
  split; [by intros E; rewrite E in H|]. split; [lia|].
  split; [intros r m' E; by rewrite E in H|]. intros _ _ Hall Hf.
  destruct (sa_idle_search sig m i size align) as [m' E]; [done..|].
  destruct fuel as [|fuel]; [lia|]. cbn [sa_new_loop] in *.
  rewrite (bind_eval (gets id) _ m m m eq_refl), (bind_eval _ _ _ _ _ E) in *.
  exists m'. split; [done|]. by apply H.
Qed.
End new.

(** ** Instances *)

Definition demo_fence : fence := Fence 7 1.
Definition run_state {A} (o : outcome (A * amdgpu_sa_manager)) : amdgpu_sa_manager :=
  match o with Ok (_, m) => m | _ => amdgpu_sa_bo_manager_init 0 0 end.

(** A manager of 4096 bytes with one buffer released under a pending fence. *)
Definition demo_alloc : amdgpu_sa_manager :=
  Eval vm_compute in
  run_state (sa_search (fun _ => false) 2 0 256 64 (replicate num_lists None)
    (replicate num_lists 0) (amdgpu_sa_bo_manager_init 4096 256)).
Definition demo_manager : amdgpu_sa_manager :=
  Eval vm_compute in
  run_state (amdgpu_sa_bo_free (fun _ => false) (Some 0%nat) (Some demo_fence) demo_alloc).

Lemma demo_steps :
  rtc sa_step (amdgpu_sa_bo_manager_init 4096 256, fun _ => false)
    (demo_manager, fun _ => false).
Proof.
  apply (rtc_l _ _ (demo_alloc, fun _ => false)).
  { apply (step_alloc _ _ 0%nat 256 64 (inl tt)); try done. apply not_elem_of_nil. }
  apply rtc_once. apply (step_free _ _ 0%nat (Some demo_fence)); [|reflexivity].
  exists (SaBo 0 0 256 None). split; [by left|done].
Qed.

Lemma demo_manager_inv : sa_inv demo_manager.
Proof.
  apply (step_inv demo_alloc (fun _ => false) _ (fun _ => false)).
  - apply (step_free _ _ 0%nat (Some demo_fence)); [|reflexivity].
    exists (SaBo 0 0 256 None). split; [by left|done].
  - apply (step_inv (amdgpu_sa_bo_manager_init 4096 256) (fun _ => false) _ (fun _ => false)).
    + apply (step_alloc _ _ 0%nat 256 64 (inl tt)); try done. apply not_elem_of_nil.
    + by apply init_inv.
Qed.

Lemma demo_fresh : 1%nat ∉ ids (olist demo_manager).
Proof. cbn. rewrite list_elem_of_singleton. lia. Qed.

(** 512 bytes more, while the fence is pending. *)
Lemma sa_search_correct_witness :
  exists res m',
    sa_search (fun _ => false) (search_fuel demo_manager) 1 512 256
      (replicate num_lists None) (replicate num_lists 0) demo_manager = Ok (res, m') /\
    sa_inv m' /\
    (forall b, b ∈ olist demo_manager -> bo_signaled (fun _ => false) b = false -> b ∈ olist m') /\
    match res with
    | inl _ => exists b, b ∈ olist m' /\ bo_id b = 1%nat /\ bo_fence b = None /\
        soffset b mod 256 = 0 /\ eoffset b = soffset b + 512 /\
        0 <= soffset b /\ eoffset b <= 4096 /\
        (forall c, c ∈ olist m' -> c <> b -> eoffset c <= soffset b \/ eoffset b <= soffset c)
    | inr fences => length fences = num_lists /\
        forall b, b ∈ olist m' -> b ∈ olist demo_manager
    end.
Proof.
  refine (sa_search_correct (fun _ => false) demo_manager 1 512 256 _ _ _ _).
  - exact demo_manager_inv.
  - exact demo_fresh.
  - cbn; lia.
  - cbn; lia.
Defined.

Lemma sa_reachable_disjoint_witness :
  sa_inv demo_manager /\
  forall b c, b ∈ olist demo_manager -> c ∈ olist demo_manager -> b <> c ->
    eoffset b <= soffset c \/ eoffset c <= soffset b.
Proof.
  refine (sa_reachable_disjoint 4096 256 (fun _ => false) demo_manager (fun _ => false) _ _ _ _).
  - lia.
  - lia.
  - lia.
  - exact demo_steps.
Defined.

(** The environment that lets every fence signal and changes nothing else. *)
Definition demo_wait (fences : list fence) (m : amdgpu_sa_manager) : wait_result :=
  (0, m, fun _ => true).

(** The whole buffer, which needs the released one back. *)
Lemma sa_new_correct_witness :
  exists m', amdgpu_sa_bo_new demo_wait 5 (fun _ => true) (Some 1%nat) 4096 64 demo_manager
    = Ok (0, m') /\ allocated 1 4096 64 m'.
Proof.
  destruct (sa_new_correct demo_wait 1) with (fuel := 5%nat) (sig := fun _ : fence => true)
    (m := demo_manager) (size := 4096) (align := 64) as (_ & _ & _ & Hidle).
  - intros fences m r m' sig' [= <- <- <-] Hm Hi. done.
  - exact demo_manager_inv.
  - exact demo_fresh.
  - lia.
  - lia.
  - apply Hidle; [cbn; lia|cbn; lia| |lia].
    intros b Hb. apply list_elem_of_singleton in Hb. by subst b.
Defined.
