(* ===== verification/Sched.v ===== *)
(** * The GPU scheduler (scheduler/gpu_scheduler.c, scheduler/sched_fence.c)

    Clients push jobs into the bounded queue of an entity; the scheduler thread
    picks entities in turn from the run queues of two priorities, waits for the
    job's dependencies, and hands at most [hw_submission_limit] jobs to the
    hardware at a time.  Completion is reported by fences.

    Entities, jobs and fences are identified by addresses ([nat]).  A job record
    holds [struct amd_sched_job] together with its [struct amd_sched_fence]
    (the fence outlives the job: [j_freed]).  The backend is a parameter: the
    fences its [dependency] returns for a job are the list [j_deps], and the
    result of [run_job] is an argument of the step that calls it.  The
    tracepoints and backend calls are recorded in [s_log]. *)

From stdpp Require Import base numbers list gmap.
From S2P Require Import Prelude CMonad.

(** A fence a job may depend on: the two fences of a job of this scheduler, or
    any other fence with its context. *)
Inductive dep_fence :=
  | DepScheduled (j : nat)
  | DepFinished (j : nat)
  | DepOther (context : Z) (n : nat).
#[global] Instance dep_fence_eq_dec : EqDecision dep_fence.
Proof. solve_decision. Defined.

Record amd_sched_entity := Entity {
  e_rq : nat;
  e_capacity : nat;
  e_queue : list nat;
  e_fence_seq : Z;
  e_context : Z;
  e_dependency : option dep_fence }.

Record amd_sched_job := Job {
  j_entity : nat;
  j_all_deps : list dep_fence;
  j_deps : list dep_fence;
  j_context : Z;  (** of [scheduled]; [finished] has the next one *)
  j_seq : Z;
  j_scheduled : bool;
  j_finished : bool;
  j_parent : option nat;
  j_cb : bool;
  j_finish_work : bool;
  j_tdr : bool;
  j_freed : bool }.

Record amd_sched_rq := Rq {
  rq_entities : list nat;
  rq_current : option nat }.

(** Where the scheduler thread is in [amd_sched_main]; it is parked in its wait
    during a reset.  [Recovering] is the loop of [amd_sched_job_recovery], with
    the job that it visits next. *)
Inductive main_pc :=
  | Idle
  | Picked (e j : nat)
  | Submitted (e : nat)
  | Parked
  | Recovering (next : option nat).
#[global] Instance main_pc_eq_dec : EqDecision main_pc.
Proof. solve_decision. Defined.

(** [trace_amd_sched_job], the [run_job] call of the thread,
    [trace_amd_sched_process_job], the start of a recovery, and its [run_job]
    calls. *)
Inductive event := EvPush (j : nat) | EvRun (j : nat) | EvProcess (j : nat) | EvRecovery | EvRerun (j : nat).
#[global] Instance event_eq_dec : EqDecision event.
Proof. solve_decision. Defined.

Definition AMD_SCHED_MAX_PRIORITY : nat := 2.

Record amd_gpu_scheduler := Sched {
  s_limit : Z;
  s_timeout : bool;  (** [timeout != MAX_SCHEDULE_TIMEOUT] *)
  s_rq : list amd_sched_rq;
  s_hw_rq_count : Z;
  s_mirror : list nat;
  s_pc : main_pc;
  s_entities : gmap nat amd_sched_entity;
  s_jobs : gmap nat amd_sched_job;
  s_done : gset nat;  (** signaled fences other than the jobs' own *)
  s_log : list event }.

Notation SM := (M amd_gpu_scheduler).

(** ** Field updates *)

Definition set_rq k (f : amd_sched_rq -> amd_sched_rq) s :=
  Sched (s_limit s) (s_timeout s) (alter f k (s_rq s)) (s_hw_rq_count s) (s_mirror s)
    (s_pc s) (s_entities s) (s_jobs s) (s_done s) (s_log s).
Definition set_count (f : Z -> Z) s :=
  Sched (s_limit s) (s_timeout s) (s_rq s) (f (s_hw_rq_count s)) (s_mirror s)
    (s_pc s) (s_entities s) (s_jobs s) (s_done s) (s_log s).
Definition set_mirror (f : list nat -> list nat) s :=
  Sched (s_limit s) (s_timeout s) (s_rq s) (s_hw_rq_count s) (f (s_mirror s))
    (s_pc s) (s_entities s) (s_jobs s) (s_done s) (s_log s).
Definition set_pc pc s :=
  Sched (s_limit s) (s_timeout s) (s_rq s) (s_hw_rq_count s) (s_mirror s)
    pc (s_entities s) (s_jobs s) (s_done s) (s_log s).
Definition set_entities (f : gmap nat amd_sched_entity -> gmap nat amd_sched_entity) s :=
  Sched (s_limit s) (s_timeout s) (s_rq s) (s_hw_rq_count s) (s_mirror s)
    (s_pc s) (f (s_entities s)) (s_jobs s) (s_done s) (s_log s).
Definition set_jobs (f : gmap nat amd_sched_job -> gmap nat amd_sched_job) s :=
  Sched (s_limit s) (s_timeout s) (s_rq s) (s_hw_rq_count s) (s_mirror s)
    (s_pc s) (s_entities s) (f (s_jobs s)) (s_done s) (s_log s).
Definition set_done (f : gset nat -> gset nat) s :=
  Sched (s_limit s) (s_timeout s) (s_rq s) (s_hw_rq_count s) (s_mirror s)
    (s_pc s) (s_entities s) (s_jobs s) (f (s_done s)) (s_log s).
Definition set_log (f : list event -> list event) s :=
  Sched (s_limit s) (s_timeout s) (s_rq s) (s_hw_rq_count s) (s_mirror s)
    (s_pc s) (s_entities s) (s_jobs s) (s_done s) (f (s_log s)).

Definition put_entity (e : nat) (x : amd_sched_entity) := set_entities <[e := x]>.
Definition put_job (j : nat) (x : amd_sched_job) := set_jobs <[j := x]>.

Definition with_queue (q : list nat) (x : amd_sched_entity) : amd_sched_entity :=
  Entity (e_rq x) (e_capacity x) q (e_fence_seq x) (e_context x) (e_dependency x).
Definition with_dependency (d : option dep_fence) (x : amd_sched_entity) : amd_sched_entity :=
  Entity (e_rq x) (e_capacity x) (e_queue x) (e_fence_seq x) (e_context x) d.

Definition with_deps (ds : list dep_fence) (x : amd_sched_job) : amd_sched_job :=
  Job (j_entity x) (j_all_deps x) ds (j_context x) (j_seq x) (j_scheduled x) (j_finished x) (j_parent x)
    (j_cb x) (j_finish_work x) (j_tdr x) (j_freed x).
Definition with_scheduled (x : amd_sched_job) : amd_sched_job :=
  Job (j_entity x) (j_all_deps x) (j_deps x) (j_context x) (j_seq x) true (j_finished x) (j_parent x)
    (j_cb x) (j_finish_work x) (j_tdr x) (j_freed x).
(** Signaling [finished] runs [amd_sched_job_finish_cb], which queues the
    finish work; a fence that was already signaled runs no callback. *)
Definition with_finished (x : amd_sched_job) : amd_sched_job :=
  Job (j_entity x) (j_all_deps x) (j_deps x) (j_context x) (j_seq x) (j_scheduled x) true (j_parent x)
    (j_cb x) (if j_finished x then j_finish_work x else true) (j_tdr x) (j_freed x).
Definition with_parent (p : option nat) (cb : bool) (x : amd_sched_job) : amd_sched_job :=
  Job (j_entity x) (j_all_deps x) (j_deps x) (j_context x) (j_seq x) (j_scheduled x) (j_finished x) p
    cb (j_finish_work x) (j_tdr x) (j_freed x).
Definition with_tdr (b : bool) (x : amd_sched_job) : amd_sched_job :=
  Job (j_entity x) (j_all_deps x) (j_deps x) (j_context x) (j_seq x) (j_scheduled x) (j_finished x)
    (j_parent x) (j_cb x) (j_finish_work x) b (j_freed x).
Definition with_freed (x : amd_sched_job) : amd_sched_job :=
  Job (j_entity x) (j_all_deps x) (j_deps x) (j_context x) (j_seq x) (j_scheduled x) (j_finished x)
    (j_parent x) (j_cb x) false (j_tdr x) true.

Definition the_entity (e : nat) : SM amd_sched_entity :=
  s ← gets id; deref (s_entities s !! e).
Definition the_job (j : nat) : SM amd_sched_job :=
  s ← gets id; deref (s_jobs s !! j).

(** ** Run queues *)

Definition amd_sched_rq_init : amd_sched_rq := Rq [] None.

(** [!list_empty(&entity->list)]: the entity is linked in some run queue. *)
Definition on_list (e : nat) (s : amd_gpu_scheduler) : bool :=
  existsb (fun rq => bool_decide (e ∈ rq_entities rq)) (s_rq s).

Definition amd_sched_rq_add_entity (k e : nat) : SM unit :=
  modify (fun s =>
    if on_list e s then s
    else set_rq k (fun rq => Rq (rq_entities rq ++ [e]) (rq_current rq)) s).

Definition amd_sched_rq_remove_entity (k e : nat) : SM unit :=
  modify (fun s =>
    if on_list e s then
      set_rq k (fun rq =>
        Rq (filter (fun x => x <> e) (rq_entities rq))
           (if decide (rq_current rq = Some e) then None else rq_current rq)) s
    else s).

Definition amd_sched_entity_is_idle (x : amd_sched_entity) : bool :=
  match e_queue x with [] => true | _ => false end.

Definition amd_sched_entity_is_ready (x : amd_sched_entity) : bool :=
  match e_queue x with
  | [] => false
  | _ => match e_dependency x with Some _ => false | None => true end
  end.

Definition ready (s : amd_gpu_scheduler) (e : nat) : bool :=
  match s_entities s !! e with Some x => amd_sched_entity_is_ready x | None => false end.

(** The entities after [e], as [list_for_each_entry_continue] visits them. *)
Fixpoint after (e : nat) (l : list nat) : list nat :=
  match l with [] => [] | x :: l' => if decide (x = e) then l' else after e l' end.

(** [list_for_each_entry] with the [break] at the current entity. *)
Fixpoint scan_upto (s : amd_gpu_scheduler) (cur : option nat) (l : list nat) : option nat :=
  match l with
  | [] => None
  | e :: l' =>
      if ready s e then Some e
      else if decide (cur = Some e) then None
      else scan_upto s cur l'
  end.

Definition amd_sched_rq_select_entity (k : nat) : SM (option nat) :=
  s ← gets id;
  rq ← deref (s_rq s !! k);
  let first :=
    match rq_current rq with
    | Some cur => find (ready s) (after cur (rq_entities rq))
    | None => None
    end in
  let pick :=
    match first with
    | Some e => Some e
    | None => scan_upto s (rq_current rq) (rq_entities rq)
    end in
  match pick with
  | Some e => _ ← modify (set_rq k (fun rq => Rq (rq_entities rq) (Some e))); mret (Some e)
  | None => mret None
  end.

(** The signed counter is compared with an unsigned limit. *)
Definition amd_sched_ready (s : amd_gpu_scheduler) : bool :=
  u32 (s_hw_rq_count s) <? s_limit s.

(** Kernel run queue first, then the normal one. *)
Fixpoint select_from (k n : nat) : SM (option nat) :=
  match n with
  | O => mret None
  | S n' =>
      r ← amd_sched_rq_select_entity k;
      match r with Some e => mret (Some e) | None => select_from (S k) n' end
  end.

Definition amd_sched_select_entity : SM (option nat) :=
  s ← gets id;
  if amd_sched_ready s then select_from 0 AMD_SCHED_MAX_PRIORITY else mret None.

(** ** Entities *)

(** [ctx] is the first of the two contexts [kcl_fence_context_alloc] returns;
    [r] is the result of [kfifo_alloc] and [capacity] the size it gives the
    queue, in jobs. *)
Definition amd_sched_entity_init (e k capacity : nat) (ctx r : Z) : SM Z :=
  if r =? 0 then
    _ ← modify (put_entity e (Entity k capacity [] 0 ctx None));
    mret 0
  else mret r.

(** Returns [false] while the queue is not idle: the caller keeps waiting. *)
Definition amd_sched_entity_fini (e : nat) : SM bool :=
  x ← the_entity e;
  if amd_sched_entity_is_idle x then
    _ ← amd_sched_rq_remove_entity (e_rq x) e;
    _ ← modify (set_entities (delete e));
    mret true
  else mret false.

(** ** Fences *)

Definition dep_signaled (s : amd_gpu_scheduler) (d : dep_fence) : bool :=
  match d with
  | DepScheduled j => match s_jobs s !! j with Some x => j_scheduled x | None => false end
  | DepFinished j => match s_jobs s !! j with Some x => j_finished x | None => false end
  | DepOther _ n => bool_decide (n ∈ s_done s)
  end.

Definition dep_context (s : amd_gpu_scheduler) (d : dep_fence) : option Z :=
  match d with
  | DepScheduled j => x ← s_jobs s !! j; Some (j_context x)
  | DepFinished j => x ← s_jobs s !! j; Some (u64 (j_context x + 1))
  | DepOther c _ => Some c
  end.

(** The callbacks [amd_sched_entity_clear_dep] and [amd_sched_entity_wakeup],
    run for every entity waiting for the fence that signals. *)
Definition wake_entities (d : dep_fence) : amd_gpu_scheduler -> amd_gpu_scheduler :=
  set_entities (fmap (fun x =>
    if decide (e_dependency x = Some d) then with_dependency None x else x)).

(** Returns the context and sequence number of the new fence pair; [alloc] tells
    whether [kmem_cache_zalloc] succeeds. *)
Definition amd_sched_fence_create (alloc : bool) (e : nat) : SM (option (Z * Z)) :=
  if alloc then
    x ← the_entity e;
    let seq := s32 (e_fence_seq x + 1) in
    _ ← modify (put_entity e (Entity (e_rq x) (e_capacity x) (e_queue x) seq
                                (e_context x) (e_dependency x)));
    mret (Some (e_context x, u32 seq))
  else mret None.

Definition amd_sched_fence_scheduled (j : nat) : SM unit :=
  x ← the_job j;
  _ ← modify (put_job j (with_scheduled x));
  modify (wake_entities (DepScheduled j)).

Definition amd_sched_fence_finished (j : nat) : SM unit :=
  x ← the_job j;
  _ ← modify (put_job j (with_finished x));
  modify (wake_entities (DepFinished j)).

(** ** Jobs *)

(** [j] is the address of the job; [deps] are the fences the backend's
    [dependency] will return for it. *)
Definition amd_sched_job_init (alloc : bool) (j e : nat) (deps : list dep_fence) : SM Z :=
  o ← amd_sched_fence_create alloc e;
  match o with
  | None => mret (- ENOMEM)
  | Some (ctx, seq) =>
      _ ← modify (put_job j
        (Job e deps deps ctx seq false false None false false false false));
      mret 0
  end.

(** [kfifo_in] stores the job when there is room. *)
Definition amd_sched_entity_in (j : nat) : SM bool :=
  x ← the_job j;
  y ← the_entity (j_entity x);
  if (length (e_queue y) <? e_capacity y)%nat then
    let q := e_queue y ++ [j] in
    _ ← modify (put_entity (j_entity x) (with_queue q y));
    _ ← (if (length q =? 1)%nat then amd_sched_rq_add_entity (e_rq y) (j_entity x)
         else mret tt);
    mret true
  else mret false.

(** One attempt of the [wait_event] loop; [true] when the job was queued. *)
Definition amd_sched_entity_push_job (j : nat) : SM bool :=
  added ← amd_sched_entity_in j;
  _ ← (if (added : bool) then modify (set_log (fun l => l ++ [EvPush j])) else mret tt);
  mret added.

(** The fence to wait for: within one scheduler it is enough that the other job
    was scheduled ([to_amd_sched_fence]). *)
Definition wait_target (d : dep_fence) : dep_fence :=
  match d with
  | DepScheduled j | DepFinished j => DepScheduled j
  | DepOther _ _ => d
  end.

Definition amd_sched_entity_add_dependency_cb (e : nat) : SM bool :=
  s ← gets id;
  x ← the_entity e;
  d ← deref (e_dependency x);
  c ← deref (dep_context s d);
  if c =? e_context x then mret false
  else
    let t := wait_target d in
    _ ← modify (put_entity e (with_dependency (Some t) x));
    mret (negb (dep_signaled s t)).

(** [while ((entity->dependency = sched->ops->dependency(sched_job)))] *)
Fixpoint dependency_loop (e j : nat) (deps : list dep_fence) : SM (option nat) :=
  x ← the_entity e;
  job ← the_job j;
  match deps with
  | [] =>
      _ ← modify (put_entity e (with_dependency None x));
      mret (Some j)
  | d :: ds =>
      _ ← modify (put_job j (with_deps ds job));
      _ ← modify (put_entity e (with_dependency (Some d) x));
      waiting ← amd_sched_entity_add_dependency_cb e;
      if (waiting : bool) then mret None else dependency_loop e j ds
  end.

Definition amd_sched_entity_pop_job (e : nat) : SM (option nat) :=
  x ← the_entity e;
  match e_queue x with
  | [] => mret None
  | j :: _ => job ← the_job j; dependency_loop e j (j_deps job)
  end.

Definition amd_sched_job_begin (j : nat) : SM unit :=
  x ← the_job j;
  _ ← modify (set_mirror (fun l => l ++ [j]));
  s ← gets id;
  if s_timeout s && bool_decide (head (s_mirror s) = Some j)
  then modify (put_job j (with_tdr true x)) else mret tt.

Definition amd_sched_process_job (j : nat) : SM unit :=
  _ ← modify (set_count (fun c => s32 (c - 1)));
  _ ← amd_sched_fence_finished j;
  modify (set_log (fun l => l ++ [EvProcess j])).

(** The finish work: unlink the job, arm the timeout of the next one. *)
Definition amd_sched_job_finish (j : nat) : SM unit :=
  x ← the_job j;
  _ ← modify (set_mirror (filter (fun i => i <> j)));
  s ← gets id;
  _ ← (if s_timeout s then
         _ ← modify (put_job j (with_tdr false x));
         match s_mirror s with
         | [] => mret tt
         | i :: _ => y ← the_job i; modify (put_job i (with_tdr true y))
         end
       else mret tt);
  x ← the_job j;
  modify (put_job j (with_freed x)).

(** ** The scheduler thread *)

(** The wait for an entity and the pop of its first job. *)
Definition main_select : SM unit :=
  r ← amd_sched_select_entity;
  match r with
  | None => mret tt
  | Some e =>
      o ← amd_sched_entity_pop_job e;
      match o with
      | None => mret tt
      | Some j => modify (set_pc (Picked e j))
      end
  end.

(** After [run_job] returned [hw]: attach the completion callback, or process
    the job at once when the fence has already signaled or is missing. *)
Definition attach_fence (j : nat) (hw : option nat) : SM unit :=
  match hw with
  | Some f =>
      s ← gets id;
      x ← the_job j;
      if bool_decide (f ∈ s_done s) then
        _ ← modify (put_job j (with_parent (Some f) false x)); amd_sched_process_job j
      else modify (put_job j (with_parent (Some f) true x))
  | None => amd_sched_process_job j
  end.

Definition main_submit (e j : nat) (hw : option nat) : SM unit :=
  _ ← modify (set_count (fun c => s32 (c + 1)));
  _ ← amd_sched_job_begin j;
  _ ← modify (set_log (fun l => l ++ [EvRun j]));
  _ ← amd_sched_fence_scheduled j;
  _ ← attach_fence j hw;
  modify (set_pc (Submitted e)).

Definition main_dequeue (e : nat) : SM unit :=
  x ← the_entity e;
  _ ← modify (put_entity e (with_queue (tail (e_queue x)) x));
  modify (set_pc Idle).

(** ** Reset *)

(** [fence_remove_callback(s_fence->parent, ...)] dereferences the parent. *)
Fixpoint reset_loop (l : list nat) : SM unit :=
  match l with
  | [] => mret tt
  | j :: l' =>
      x ← the_job j;
      _ ← deref (j_parent x);
      _ ← (if j_cb x then modify (put_job j (with_parent None false x)) else mret tt);
      reset_loop l'
  end.

Definition amd_sched_hw_job_reset : SM unit :=
  s ← gets id;
  _ ← reset_loop (reverse (s_mirror s));
  modify (set_count (fun _ => 0)).

(** A turn of the loop of [amd_sched_job_recovery], between the unlocking and
    the locking of the list; [hw] is what [run_job] returns. *)
Definition recover_job (j : nat) (hw : option nat) : SM unit :=
  _ ← modify (set_log (fun l => l ++ [EvRerun j]));
  _ ← modify (set_count (fun c => s32 (c + 1)));
  attach_fence j hw.

(** The timeout of the first job is armed. *)
Definition recovery_begin : SM unit :=
  s ← gets id;
  _ ← modify (set_log (fun l => l ++ [EvRecovery]));
  match s_mirror s with
  | j :: _ => if s_timeout s then x ← the_job j; modify (put_job j (with_tdr true x)) else mret tt
  | [] => mret tt
  end.

(** The loop when nothing else runs; [run] is the backend's [run_job]. *)
Fixpoint recovery_loop (run : nat -> option nat) (l : list nat) : SM unit :=
  match l with
  | [] => mret tt
  | j :: l' => _ ← recover_job j (run j); recovery_loop run l'
  end.

Definition amd_sched_job_recovery (run : nat -> option nat) : SM unit :=
  s ← gets id;
  _ ← recovery_begin;
  recovery_loop run (s_mirror s).

(** The loop with other steps between its turns: [list_for_each_entry_safe]
    takes the next entry before the lock is released.  An entry that its finish
    work has unlinked and freed meanwhile is a fault. *)
Definition recovery_turn (j : nat) (hw : option nat) : SM unit :=
  s ← gets id;
  if bool_decide (j ∈ s_mirror s) then
    _ ← modify (set_pc (Recovering (head (after j (s_mirror s)))));
    recover_job j hw
  else fault.

Definition amd_sched_init (limit : Z) (timeout : bool) : amd_gpu_scheduler :=
  Sched limit timeout (replicate AMD_SCHED_MAX_PRIORITY amd_sched_rq_init) 0 [] Idle ∅ ∅ ∅ [].

(** ** Fences signaling

    [fence_signal] of a fence that is not a job's own: it runs the callbacks of
    the entities that wait for it. *)
Definition fence_signal_other (n : nat) : SM unit :=
  modify (fun s =>
    set_entities (fmap (fun x =>
      match e_dependency x with
      | Some (DepOther _ n') => if decide (n' = n) then with_dependency None x else x
      | _ => x
      end)) (set_done (union {[n]}) s)).

(** The hardware fence of a submitted job signals: the callback is unlinked and
    [amd_sched_process_job] runs. *)
Definition hw_fence_signal (j : nat) : SM unit :=
  x ← the_job j;
  f ← deref (j_parent x);
  _ ← fence_signal_other f;
  _ ← modify (put_job j (with_parent (Some f) false x));
  amd_sched_process_job j.

(** ** Interleavings

    The clients, the scheduler thread, the hardware and the finish work take
    steps in any order; each step runs under the code's locks.  An identifier
    is used for one entity or job only.  [run_step] are the steps of normal
    operation; [sched_step] adds those of [amdgpu_gpu_reset], which parks the
    thread, resets the jobs, recovers them when the reset of the device
    succeeded, and unparks the thread. *)

Definition pushed (s : amd_gpu_scheduler) (j : nat) : Prop := EvPush j ∈ s_log s.

Inductive run_step (s s' : amd_gpu_scheduler) : Prop :=
  | step_entity e k capacity ctx r :
      s_entities s !! e = None -> (forall j x, s_jobs s !! j = Some x -> j_entity x <> e) ->
      (k < AMD_SCHED_MAX_PRIORITY)%nat ->
      amd_sched_entity_init e k capacity ctx 0 s = Ok (r, s') -> run_step s s'
  | step_entity_fini e b :
      amd_sched_entity_fini e s = Ok (b, s') -> run_step s s'
  | step_job alloc j e deps r :
      s_jobs s !! j = None -> amd_sched_job_init alloc j e deps s = Ok (r, s') ->
      run_step s s'
  | step_push j b :
      ~ pushed s j -> amd_sched_entity_push_job j s = Ok (b, s') -> run_step s s'
  | step_select :
      s_pc s = Idle -> main_select s = Ok (tt, s') -> run_step s s'
  | step_submit e j hw :
      s_pc s = Picked e j -> main_submit e j hw s = Ok (tt, s') -> run_step s s'
  | step_dequeue e :
      s_pc s = Submitted e -> main_dequeue e s = Ok (tt, s') -> run_step s s'
  | step_hw j x :
      s_jobs s !! j = Some x -> j_cb x = true -> hw_fence_signal j s = Ok (tt, s') ->
      run_step s s'
  | step_other n :
      (forall j x, s_jobs s !! j = Some x -> j_cb x = true -> j_parent x <> Some n) ->
      fence_signal_other n s = Ok (tt, s') -> run_step s s'
  | step_finish j x :
      s_jobs s !! j = Some x -> j_finish_work x = true ->
      amd_sched_job_finish j s = Ok (tt, s') -> run_step s s'.

Inductive sched_step (s s' : amd_gpu_scheduler) : Prop :=
  | step_run : run_step s s' -> sched_step s s'
  | step_reset t :
      s_pc s = Idle -> amd_sched_hw_job_reset s = Ok (tt, t) -> s' = set_pc Parked t -> sched_step s s'
  | step_recovery t :
      s_pc s = Parked -> recovery_begin s = Ok (tt, t) -> s' = set_pc (Recovering (head (s_mirror s))) t -> sched_step s s'
  | step_recover j hw :
      s_pc s = Recovering (Some j) -> recovery_turn j hw s = Ok (tt, s') -> sched_step s s'
  | step_unpark :
      s_pc s = Parked \/ s_pc s = Recovering None -> s' = set_pc Idle s -> sched_step s s'.
