(* ===== verification/SchedRr.v ===== *)
(** * Entity selection is round robin

    [amd_sched_rq_select_entity] scans the entities after the current one, then
    the list from its start up to the current one.  The two scans are one scan
    of the rotated list, and an entity that stays ready moves strictly closer
    to the front of the rotation each time another one is chosen. *)

From stdpp Require Import base numbers list gmap.
From S2P Require Import Prelude CMonad Sched.

(** The list up to and including [c]. *)
Fixpoint upto (c : nat) (l : list nat) : list nat :=
  match l with [] => [] | x :: l' => x :: (if decide (x = c) then [] else upto c l') end.

(** The order in which the entities of a run queue are visited. *)
Definition rotation (rq : amd_sched_rq) : list nat :=
  match rq_current rq with
  | None => rq_entities rq
  | Some c => after c (rq_entities rq) ++ upto c (rq_entities rq)
  end.

Fixpoint position (e : nat) (l : list nat) : nat :=
  match l with [] => 0 | x :: l' => if decide (x = e) then 0 else S (position e l') end.

Lemma scan_upto_find s c l : scan_upto s (Some c) l = find (ready s) (upto c l).
Proof.
  induction l as [|x l IH]; [done|]. cbn. destruct (ready s x); [done|].
  destruct (decide (Some c = Some x)), (decide (x = c)); congruence || done.
Qed.

Lemma scan_all_find s l : scan_upto s None l = find (ready s) l.
Proof. induction l as [|x l IH]; [done|]. cbn. destruct (ready s x); [done|]. auto. Qed.

Lemma find_app {A} (f : A -> bool) l1 l2 :
  find f (l1 ++ l2) = match find f l1 with Some x => Some x | None => find f l2 end.
Proof. induction l1 as [|x l1 IH]; [done|]. cbn. by destruct (f x). Qed.

Lemma find_split {A} (f : A -> bool) l x :
  find f l = Some x -> exists pre post, l = pre ++ x :: post /\ f x = true /\
    forall y, y ∈ pre -> f y = false.
Proof.
  induction l as [|y l IH]; [done|]. cbn. destruct (f y) eqn:E.
  - intros [= ->]. exists [], l. split; [done|]. split; [done|]. by intros y ?%elem_of_nil.
  - intros (pre & post & -> & Hx & Hpre)%IH. exists (y :: pre), post.
    split; [done|]. split; [done|]. intros z [->|Hz]%elem_of_cons; auto.
Qed.

Lemma find_is_some {A} (f : A -> bool) l x : x ∈ l -> f x = true -> is_Some (find f l).
Proof.
  induction l as [|y l IH]; [by intros ?%elem_of_nil|]. cbn.
  intros [->|Hx]%elem_of_cons Hf; [by rewrite Hf|]. destruct (f y); eauto.
Qed.

Lemma split_unique {A} (x : A) p q p' q' :
  p ++ x :: q = p' ++ x :: q' -> x ∉ p -> x ∉ p' -> p = p' /\ q = q'.
Proof.
  revert p'. induction p as [|y p IH]; intros [|y' p']; cbn; rewrite ?not_elem_of_cons.
  - by intros [= ->].
  - intros [= -> _]. tauto.
  - intros [= -> _]. tauto.
  - intros [= -> E] [_ Hp] [_ Hp']. destruct (IH p' E Hp Hp') as [-> ->]. done.
Qed.

Lemma rotation_at l1 x l2 :
  x ∉ l1 -> rotation (Rq (l1 ++ x :: l2) (Some x)) = l2 ++ l1 ++ [x].
Proof.
  intros Hx. unfold rotation. cbn [rq_current rq_entities].
  assert (after x (l1 ++ x :: l2) = l2 /\ upto x (l1 ++ x :: l2) = l1 ++ [x]) as [-> ->]; [|done].
  induction l1 as [|y l1 IH]; cbn; [by rewrite !decide_True|].
  apply not_elem_of_cons in Hx as [? Hx]. rewrite !decide_False by done.
  destruct (IH Hx) as [-> ->]. done.
Qed.

Lemma rotation_perm rq :
  (forall c, rq_current rq = Some c -> c ∈ rq_entities rq) -> NoDup (rq_entities rq) ->
  rotation rq ≡ₚ rq_entities rq.
Proof.
  destruct rq as [l [c|]]; [|done]. cbn [rq_entities rq_current]. intros Hc Hnd.
  destruct (list_elem_of_split l c) as (l1 & l2 & ->); [auto|].
  rewrite NoDup_app in Hnd. destruct Hnd as (_ & Hd & _).
  rewrite rotation_at by (intros H; by apply (Hd _ H); left).
  rewrite Permutation_app_comm, <- app_assoc. done.
Qed.

(** Choosing [x] rotates the order so that it starts after [x]. *)
Lemma rotation_next l cur x pre post :
  NoDup l -> (forall c, cur = Some c -> c ∈ l) ->
  rotation (Rq l cur) = pre ++ x :: post ->
  rotation (Rq l (Some x)) = post ++ pre ++ [x].
Proof.
  intros Hnd Hcur E. pose proof (rotation_perm (Rq l cur) Hcur Hnd) as HP. rewrite E in HP.
  assert (NoDup (pre ++ x :: post)) as Hnd' by (by rewrite HP).
  assert (x ∉ pre) as Hx.
  { apply NoDup_app in Hnd' as (_ & Hd & _). intros H. apply (Hd _ H). by left. }
  destruct cur as [c|]; [|cbn in E; rewrite E; by apply rotation_at].
  destruct (list_elem_of_split l c) as (A & B & ->); [auto|].
  apply NoDup_app in Hnd as (HA & HAB & HB). apply NoDup_cons in HB as [HcB HB].
  assert (c ∉ A) as HcA by (intros H; by apply (HAB _ H); left).
  rewrite rotation_at in E by done.
  assert (x ∈ B ++ A ++ [c]) as Hin by (rewrite E; apply elem_of_app; right; left).
  apply elem_of_app in Hin as [Hin|Hin].
  - apply list_elem_of_split in Hin as (B1 & B2 & ->).
    apply NoDup_app in HB as (_ & HB & _).
    assert (x ∉ B1) as HxB1 by (intros H; by apply (HB _ H); left).
    rewrite <- app_assoc in E. cbn in E.
    destruct (split_unique x B1 (B2 ++ A ++ [c]) pre post E HxB1 Hx) as [<- <-].
    replace (A ++ c :: B1 ++ x :: B2) with ((A ++ c :: B1) ++ x :: B2) by (by rewrite <- app_assoc).
    rewrite rotation_at; [by rewrite <- !app_assoc|].
    rewrite elem_of_app, elem_of_cons. intros [H|[->|H]]; [|by destruct HcB; apply elem_of_app; right; left|done].
    apply (HAB _ H). right. apply elem_of_app. right. by left.
  - assert (x ∉ B) as HxB.
    { intros H. apply elem_of_app in Hin as [H'|H'%list_elem_of_singleton]; [|by subst].
      apply (HAB _ H'). by right. }
    assert (exists A1 A2, A ++ [c] = A1 ++ x :: A2 /\ x ∉ A1) as (A1 & A2 & EA & HxA1).
    { apply elem_of_app in Hin as [H|H%list_elem_of_singleton]; [|subst; by exists A, []].
      apply list_elem_of_split in H as (A1 & A2 & ->). exists A1, (A2 ++ [c]).
      rewrite <- app_assoc. split; [done|]. apply NoDup_app in HA as (_ & HA & _).
      intros H. by apply (HA _ H); left. }
    rewrite EA, app_assoc in E.
    destruct (split_unique x (B ++ A1) A2 pre post E) as [<- <-];
      [rewrite elem_of_app; tauto|done|].
    replace (A ++ c :: B) with (A1 ++ x :: (A2 ++ B));
      [|change (A ++ c :: B) with (A ++ [c] ++ B); rewrite app_assoc, EA, <- app_assoc; done].
    rewrite rotation_at by done. by rewrite <- !app_assoc.
Qed.

(** A run queue as the scheduler keeps it. *)
Definition rq_wf (rq : amd_sched_rq) : Prop :=
  NoDup (rq_entities rq) /\ forall c, rq_current rq = Some c -> c ∈ rq_entities rq.

(** The state after a selection. *)
Definition selected (k : nat) (o : option nat) (s : amd_gpu_scheduler) : amd_gpu_scheduler :=
  match o with
  | Some e => set_rq k (fun rq => Rq (rq_entities rq) (Some e)) s
  | None => s
  end.

Lemma rq_select_run k s rq :
  s_rq s !! k = Some rq ->
  amd_sched_rq_select_entity k s =
    Ok (find (ready s) (rotation rq), selected k (find (ready s) (rotation rq)) s).
Proof.
  intros Hk. unfold amd_sched_rq_select_entity.
  rewrite (bind_eval (gets id) _ s s s eq_refl), Hk, (bind_eval _ _ _ _ _ eq_refl).
  assert ((match match rq_current rq with
            | Some cur => find (ready s) (after cur (rq_entities rq)) | None => None end with
           | Some e => Some e | None => scan_upto s (rq_current rq) (rq_entities rq) end) =
          find (ready s) (rotation rq)) as ->.
  { unfold rotation. destruct (rq_current rq) as [c|].
    - by rewrite find_app, scan_upto_find.
    - by rewrite scan_all_find. }
  by destruct (find (ready s) (rotation rq)).
Qed.

Lemma position_app_l e l1 l2 : e ∈ l1 -> position e (l1 ++ l2) = position e l1.
Proof.
  induction l1 as [|x l1 IH]; [by intros ?%elem_of_nil|]. cbn.
  destruct (decide (x = e)); [done|]. intros [->|?]%elem_of_cons; [done|]. f_equal. auto.
Qed.
Lemma position_app_r e l1 l2 :
  e ∉ l1 -> position e (l1 ++ l2) = (length l1 + position e l2)%nat.
Proof.
  induction l1 as [|x l1 IH]; [done|]. rewrite not_elem_of_cons. intros [? ?]. cbn.
  rewrite decide_False by done. f_equal. auto.
Qed.

(** C32: [amd_sched_rq_select_entity] is round robin.  It returns the first ready
    entity of the rotation that starts behind the current entity (which visits
    every entity of the run queue exactly once), it finds one whenever some
    entity is ready, and an entity that is ready but not chosen is strictly
    closer to its turn afterwards: it is chosen after at most as many
    selections as the run queue has entities. *)
Theorem select_round_robin (k : nat) (s : amd_gpu_scheduler) (rq : amd_sched_rq) :
  s_rq s !! k = Some rq -> rq_wf rq ->
  exists o s', amd_sched_rq_select_entity k s = Ok (o, s') /\
    rotation rq ≡ₚ rq_entities rq /\ o = find (ready s) (rotation rq) /\
    forall e, e ∈ rq_entities rq -> ready s e = true ->
      exists x rq', o = Some x /\ s_rq s' !! k = Some rq' /\ rq_wf rq' /\
        rq_entities rq' = rq_entities rq /\
        (x = e \/ (position e (rotation rq') < position e (rotation rq))%nat).
Proof.
  intros Hk [Hnd Hcur]. pose proof (rotation_perm rq Hcur Hnd) as HP.
  eexists _, _. split; [by apply rq_select_run|]. split; [done|]. split; [done|].
  intros e He Hr. destruct (find_is_some (ready s) (rotation rq) e) as [x Hx];
    [by rewrite HP|done|]. rewrite Hx.
  destruct (find_split _ _ _ Hx) as (pre & post & E & Hrx & Hpre).
  assert (x ∈ rq_entities rq) as Hxin
    by (rewrite <- HP, E; apply elem_of_app; right; left).
  exists x, (Rq (rq_entities rq) (Some x)). split; [done|]. split.
  { cbn. rewrite list_lookup_alter_eq, Hk. done. }
  split; [split; [done|]; by intros c [= <-]|]. split; [done|].
  destruct (decide (x = e)) as [->|Hne]; [by left|right].
  destruct rq as [l cur]. cbn [rq_entities rq_current] in *. rewrite (rotation_next l cur x pre post Hnd Hcur E), E.
  assert (e ∉ pre) as Hep by (intros H; specialize (Hpre _ H); congruence).
  assert (e ∈ post) as Hepost.
  { rewrite <- HP, E in He. apply elem_of_app in He as [?|[?|?]%elem_of_cons];
      [done|congruence|done]. }
  rewrite position_app_l, position_app_r by done. cbn [position].
  rewrite decide_False by done. lia.
Qed.

(** The kernel run queue has strict priority, and no entity is chosen while
    the hardware queue is full: [amd_sched_select_entity] returns nothing when
    the submission limit is reached, an entity of the kernel run queue when
    one is ready there, and otherwise one of the normal run queue; it returns
    an entity whenever one is ready. *)
Theorem select_priority (s : amd_gpu_scheduler) (rq0 rq1 : amd_sched_rq) :
  s_rq s = [rq0; rq1] -> rq_wf rq0 -> rq_wf rq1 ->
  exists o s', amd_sched_select_entity s = Ok (o, s') /\
    (amd_sched_ready s = false -> o = None /\ s' = s) /\
    (amd_sched_ready s = true ->
     o = match find (ready s) (rotation rq0) with
         | Some e => Some e
         | None => find (ready s) (rotation rq1)
         end /\
     (forall e, e ∈ rq_entities rq0 ++ rq_entities rq1 -> ready s e = true -> is_Some o)).
Proof.
  intros Hrq [Hnd0 Hc0] [Hnd1 Hc1]. unfold amd_sched_select_entity.
  rewrite (bind_eval (gets id) _ s s s eq_refl).
  destruct (amd_sched_ready s); [|by exists None, s].
  cbn [select_from AMD_SCHED_MAX_PRIORITY].
  rewrite (bind_eval _ _ _ _ _ (rq_select_run 0 s rq0 ltac:(by rewrite Hrq))).
  destruct (find (ready s) (rotation rq0)) as [x|] eqn:E0; cbv iota.
  { exists (Some x). eexists. split; [reflexivity|]. split; [done|]. intros _. eauto. }
  cbn [selected].
  rewrite (bind_eval _ _ _ _ _ (rq_select_run 1 s rq1 ltac:(by rewrite Hrq))).
  exists (find (ready s) (rotation rq1)), (selected 1 (find (ready s) (rotation rq1)) s).
  split; [destruct (find _ (rotation rq1)); reflexivity|]. split; [done|].
  intros _. split; [done|]. intros e [He|He]%elem_of_app Hr.
  - destruct (find_is_some (ready s) (rotation rq0) e); [by rewrite rotation_perm|done|congruence].
  - apply (find_is_some _ _ e); [by rewrite rotation_perm|done].
Qed.

(** ** Instances: three entities, the first two with a queued job *)

Definition demo_entity (q : list nat) : amd_sched_entity := Entity 1 4 q 0 0 None.
Definition demo_sched : amd_gpu_scheduler :=
  Sched 2 false [Rq [] None; Rq [1; 2; 3]%nat (Some 1%nat)] 0 [] Idle
    {[ 1%nat := demo_entity [10%nat]; 2%nat := demo_entity []; 3%nat := demo_entity [11%nat] ]}
    ∅ ∅ [].

Lemma demo_rq_wf : rq_wf (Rq [1; 2; 3]%nat (Some 1%nat)).
Proof.
  split; [apply (bool_decide_unpack (NoDup _)); vm_compute; done|].
  intros c [= <-]. by left.
Qed.

Lemma select_round_robin_witness :
  exists o s', amd_sched_rq_select_entity 1 demo_sched = Ok (o, s') /\
    rotation (Rq [1; 2; 3]%nat (Some 1%nat)) ≡ₚ [1; 2; 3]%nat /\
    o = find (ready demo_sched) (rotation (Rq [1; 2; 3]%nat (Some 1%nat))) /\
    forall e, e ∈ [1; 2; 3]%nat -> ready demo_sched e = true ->
      exists x rq', o = Some x /\ s_rq s' !! 1%nat = Some rq' /\ rq_wf rq' /\
        rq_entities rq' = [1; 2; 3]%nat /\
        (x = e \/ (position e (rotation rq') <
                   position e (rotation (Rq [1; 2; 3]%nat (Some 1%nat))))%nat).
Proof.
  refine (select_round_robin 1 demo_sched (Rq [1; 2; 3]%nat (Some 1%nat)) _ _).
  - reflexivity.
  - exact demo_rq_wf.
Defined.

Lemma select_priority_witness :
  exists o s', amd_sched_select_entity demo_sched = Ok (o, s') /\
    (amd_sched_ready demo_sched = false -> o = None /\ s' = demo_sched) /\
    (amd_sched_ready demo_sched = true ->
     o = match find (ready demo_sched) (rotation (Rq [] None)) with
         | Some e => Some e
         | None => find (ready demo_sched) (rotation (Rq [1; 2; 3]%nat (Some 1%nat)))
         end /\
     (forall e, e ∈ [] ++ [1; 2; 3]%nat -> ready demo_sched e = true -> is_Some o)).
Proof.
  refine (select_priority demo_sched (Rq [] None) (Rq [1; 2; 3]%nat (Some 1%nat)) _ _ _).
  - reflexivity.
  - split; [apply NoDup_nil_2|done].
  - exact demo_rq_wf.
Defined.
