(* ===== verification/SchedInv.v ===== *)
(** * Invariants of the GPU scheduler

    [order_inv] is about the order of the jobs; every step of [sched_step]
    preserves it, resets included.  [sched_inv] adds the accounting of the
    hardware queue, which every step of [run_step] preserves.  They read the
    state through a few projections only; [quiet] relates states on which these
    agree, so that the steps that touch other fields are dealt with once. *)

From stdpp Require Import base numbers list gmap relations.
From S2P Require Import Prelude CMonad Sched SchedRr.

(** ** Projections *)

Definition job_entity (s : amd_gpu_scheduler) (j : nat) : option nat :=
  j_entity <$> s_jobs s !! j.
Definition job_cb (s : amd_gpu_scheduler) (j : nat) : bool :=
  match s_jobs s !! j with Some x => j_cb x | None => false end.
Definition job_fw (s : amd_gpu_scheduler) (j : nat) : bool :=
  match s_jobs s !! j with Some x => j_finish_work x | None => false end.
Definition queue (s : amd_gpu_scheduler) (e : nat) : list nat :=
  match s_entities s !! e with Some x => e_queue x | None => [] end.

(** The jobs of entity [e] in the order they were pushed, and run. *)
Definition pushes (s : amd_gpu_scheduler) (e : nat) : list nat :=
  omap (fun ev => match ev with
    | EvPush j => if decide (job_entity s j = Some e) then Some j else None
    | _ => None end) (s_log s).
Definition runs (s : amd_gpu_scheduler) (e : nat) : list nat :=
  omap (fun ev => match ev with
    | EvRun j => if decide (job_entity s j = Some e) then Some j else None
    | _ => None end) (s_log s).

(** The jobs of [e] that are queued and not yet handed to the hardware. *)
Definition pending (s : amd_gpu_scheduler) (e : nat) : list nat :=
  if decide (s_pc s = Submitted e) then tail (queue s e) else queue s e.

Definition event_job (ev : event) : option nat :=
  match ev with EvPush j | EvRun j | EvProcess j | EvRerun j => Some j | EvRecovery => None end.

(** All jobs in the order in which the thread ran them, and the jobs that the
    last recovery has run again, in its order. *)
Definition all_runs (l : list event) : list nat := omap (fun ev => match ev with EvRun j => Some j | _ => None end) l.
Definition last_reruns (l : list event) : list nat :=
  foldl (fun acc ev => match ev with EvRecovery => [] | EvRerun j => acc ++ [j] | _ => acc end) [] l.
(** Only jobs that ran run again. *)
Definition reruns_follow (l : list event) : Prop := forall l1 j l2, l = l1 ++ EvRerun j :: l2 -> EvRun j ∈ l1.
(** The jobs that the loop of a recovery has still to visit. *)
Fixpoint from (e : nat) (l : list nat) : list nat :=
  match l with [] => [] | x :: l' => if decide (x = e) then l else from e l' end.
Definition remaining (s : amd_gpu_scheduler) : list nat :=
  match s_pc s with Recovering (Some j) => from j (s_mirror s) | _ => [] end.

Record order_inv (s : amd_gpu_scheduler) : Prop := {
  oi_fifo : forall e, pushes s e = runs s e ++ pending s e;
  oi_once : forall e, NoDup (pushes s e);
  oi_known : forall ev j, ev ∈ s_log s -> event_job ev = Some j -> is_Some (job_entity s j);
  oi_pc : match s_pc s with
          | Picked e j => head (queue s e) = Some j
          | Submitted e => queue s e <> []
          | _ => True
          end;
  oi_runs : NoDup (all_runs (s_log s));
  oi_mirror : s_mirror s `sublist_of` all_runs (s_log s);
  oi_rerun : reruns_follow (s_log s);
  oi_last : last_reruns (s_log s) ++ remaining s `sublist_of` all_runs (s_log s) }.

Record sched_inv (s : amd_gpu_scheduler) : Prop := {
  si_order : order_inv s;
  si_cb : forall j, job_cb s j = true -> j ∈ s_mirror s;
  si_fw : forall j, job_fw s j = true -> job_cb s j = false /\ EvRun j ∈ s_log s;
  si_count : s_hw_rq_count s =
             Z.of_nat (length (filter (fun j => job_cb s j = true) (s_mirror s)));
  si_limit : s_hw_rq_count s <= s_limit s;
  si_room : forall e j, s_pc s = Picked e j -> s_hw_rq_count s < s_limit s;
  si_width : s_limit s < 2147483648 }.

(** ** States that agree on the projections *)

Record quiet (s s' : amd_gpu_scheduler) : Prop := {
  q_entity : forall j, job_entity s' j = job_entity s j;
  q_cb : forall j, job_cb s' j = job_cb s j;
  q_fw : forall j, job_fw s' j = job_fw s j;
  q_queue : forall e, queue s' e = queue s e;
  q_log : s_log s' = s_log s;
  q_pc : s_pc s' = s_pc s;
  q_mirror : s_mirror s' = s_mirror s;
  q_count : s_hw_rq_count s' = s_hw_rq_count s;
  q_limit : s_limit s' = s_limit s }.

#[global] Instance quiet_preorder : PreOrder quiet.
Proof.
  split; [by constructor|]. intros s1 s2 s3 [] []. constructor; congruence.
Qed.

Lemma omap_ext' {A B} (f g : A -> option B) (l : list A) :
  (forall x, x ∈ l -> f x = g x) -> omap f l = omap g l.
Proof.
  induction l as [|x l IH]; [done|]. intros H. cbn.
  rewrite (H x) by left. rewrite IH; [done|]. intros y Hy. apply H. by right.
Qed.

Lemma pushes_ext s s' e :
  s_log s' = s_log s ->
  (forall ev j, ev ∈ s_log s -> event_job ev = Some j -> job_entity s' j = job_entity s j) ->
  pushes s' e = pushes s e.
Proof.
  intros El H. unfold pushes. rewrite El. apply omap_ext'. intros [j|j|j| |j] Hj; try done. by rewrite (H _ j Hj eq_refl).
Qed.
Lemma runs_ext s s' e :
  s_log s' = s_log s ->
  (forall ev j, ev ∈ s_log s -> event_job ev = Some j -> job_entity s' j = job_entity s j) ->
  runs s' e = runs s e.
Proof.
  intros El H. unfold runs. rewrite El. apply omap_ext'. intros [j|j|j| |j] Hj; try done. by rewrite (H _ j Hj eq_refl).
Qed.

(** *** Logs *)

Lemma all_runs_app l l' : all_runs (l ++ l') = all_runs l ++ all_runs l'.
Proof. apply omap_app. Qed.
Lemma last_reruns_app l l' :
  last_reruns (l ++ l') = foldl (fun acc ev => match ev with EvRecovery => [] | EvRerun j => acc ++ [j] | _ => acc end) (last_reruns l) l'.
Proof. apply foldl_app. Qed.
Lemma elem_of_all_runs j l : j ∈ all_runs l <-> EvRun j ∈ l.
Proof.
  unfold all_runs. rewrite list_elem_of_omap. split; [|intros H; by exists (EvRun j)]. intros ([i|i|i| |i] & Hi & E); try done. by injection E as ->.
Qed.
Lemma reruns_follow_snoc l ev : reruns_follow l -> (forall j, ev = EvRerun j -> EvRun j ∈ l) -> reruns_follow (l ++ [ev]).
Proof.
  intros Hl Hev l1 j l2 E. destruct l2 as [|ev' l2 _] using rev_ind.
  - apply app_inj_tail in E as [-> E]. auto.
  - rewrite app_comm_cons, app_assoc in E. apply app_inj_tail in E as [E _]. by apply (Hl l1 j l2).
Qed.

(** *** The cursor of a recovery *)

Lemma from_sublist e l : from e l `sublist_of` l.
Proof. induction l as [|x l IH]; cbn; [done|]. destruct (decide _); [done|]. by apply sublist_cons. Qed.
Lemma from_filter e j l : from e (filter (fun i => i <> j) l) `sublist_of` from e l.
Proof.
  induction l as [|x l IH]; [done|]. rewrite filter_cons. destruct (decide (x <> j)); cbn; destruct (decide (x = e)); [|done| |done].
  - apply sublist_skip, sublist_filter.
  - apply sublist_cons. etrans; [apply from_sublist|apply sublist_filter].
Qed.
Lemma from_cons j l : j ∈ l -> from j l = j :: after j l.
Proof.
  induction l as [|x l IH]; [by intros ?%elem_of_nil|]. cbn. destruct (decide (x = j)) as [->|]; [done|]. intros [->|H]%elem_of_cons; [done|auto].
Qed.
Lemma after_sublist j l : after j l `sublist_of` l.
Proof. induction l as [|x l IH]; cbn; [done|]. destruct (decide _); by apply sublist_cons. Qed.
Lemma from_after j k l : NoDup l -> head (after j l) = Some k -> from k l = after j l.
Proof.
  induction l as [|x l IH]; [done|]. intros [Hx Hnd]%NoDup_cons. cbn [after from]. destruct (decide (x = j)) as [->|].
  - destruct l as [|y l]; [done|]. intros [= ->]. rewrite decide_False by set_solver. cbn. by rewrite decide_True.
  - intros Hk. rewrite decide_False; [by apply IH|]. intros ->. apply Hx, (elem_of_sublist (after j l)); [|apply after_sublist].
    destruct (after j l); [done|]. injection Hk as ->. by left.
Qed.

Lemma filter_ext' {A} (P Q : A -> Prop) `{!forall x, Decision (P x), !forall x, Decision (Q x)} (l : list A) :
  (forall x, x ∈ l -> P x <-> Q x) -> filter P l = filter Q l.
Proof.
  induction l as [|x l IH]; [done|]. intros HPQ. rewrite !filter_cons.
  rewrite IH by (intros y Hy; apply HPQ; by right).
  pose proof (HPQ x ltac:(left)). destruct (decide (P x)), (decide (Q x)); tauto.
Qed.

(** A step that leaves the order alone: it may log the completion of a job, and
    unlink one. *)
Lemma order_keep s s' :
  (forall j, job_entity s' j = job_entity s j) -> (forall e, queue s' e = queue s e) -> s_pc s' = s_pc s ->
  s_log s' = s_log s \/ (exists j, s_log s' = s_log s ++ [EvProcess j] /\ is_Some (job_entity s j)) ->
  s_mirror s' = s_mirror s \/ (exists j, s_mirror s' = filter (fun i => i <> j) (s_mirror s)) ->
  order_inv s -> order_inv s'.
Proof.
  intros He Hq Hpc Hl Hm [F O K P R M Rr L].
  assert (forall e, pending s' e = pending s e) as Hpend by (intros e; unfold pending; by rewrite Hpc, Hq).
  assert (forall e, pushes s' e = pushes s e) as Hpush.
  { intros e. unfold pushes. destruct Hl as [->|(j & -> & _)]; [|rewrite omap_app; cbn; rewrite app_nil_r]; apply omap_ext'; intros [] _; by rewrite ?He. }
  assert (forall e, runs s' e = runs s e) as Hruns.
  { intros e. unfold runs. destruct Hl as [->|(j & -> & _)]; [|rewrite omap_app; cbn; rewrite app_nil_r]; apply omap_ext'; intros [] _; by rewrite ?He. }
  assert (all_runs (s_log s') = all_runs (s_log s)) as Ea by (destruct Hl as [->|(j & -> & _)]; [done|by rewrite all_runs_app, app_nil_r]).
  assert (last_reruns (s_log s') = last_reruns (s_log s)) as El by (destruct Hl as [->|(j & -> & _)]; [done|by rewrite last_reruns_app]).
  constructor; rewrite ?Ea, ?El.
  - intros e. by rewrite Hpush, Hruns, Hpend.
  - intros e. by rewrite Hpush.
  - intros ev j Hin Hj. rewrite He. destruct Hl as [E|(i & E & Hi)]; rewrite E in Hin; [by apply (K ev)|].
    apply elem_of_app in Hin as [Hin|Hin%list_elem_of_singleton]; [by apply (K ev)|]. subst ev. by injection Hj as <-.
  - rewrite Hpc. destruct (s_pc s); try done; by rewrite Hq.
  - done.
  - destruct Hm as [->|(j & ->)]; [done|]. etrans; [apply sublist_filter|done].
  - destruct Hl as [->|(j & -> & _)]; [done|]. by apply reruns_follow_snoc.
  - etrans; [|exact L]. apply sublist_app; [done|]. unfold remaining. rewrite Hpc. destruct (s_pc s) as [| | | |[k|]]; try done.
    destruct Hm as [->|(j & ->)]; [done|apply from_filter].
Qed.
Lemma quiet_order s s' : quiet s s' -> order_inv s -> order_inv s'.
Proof. intros []. apply order_keep; auto. Qed.

Lemma quiet_inv s s' : quiet s s' -> sched_inv s -> sched_inv s'.
Proof.
  intros Hqu Hinv. pose proof (quiet_order s s' Hqu (si_order _ Hinv)) as Ho. destruct Hqu as [He Hcb Hfw Hq Hl Hpc Hm Hc Hlim], Hinv.
  constructor; [done|..].
  - intros j. rewrite Hcb, Hm. auto.
  - intros j. rewrite Hfw, Hcb, Hl. auto.
  - rewrite Hc, Hm, si_count0. do 2 f_equal. apply filter_ext'. intros j _. by rewrite Hcb.
  - by rewrite Hc, Hlim.
  - intros e j. rewrite Hpc, Hc, Hlim. eauto.
  - by rewrite Hlim.
Qed.

(** ** Updates that are quiet *)

Lemma quiet_put_entity e x x' s :
  s_entities s !! e = Some x -> e_queue x' = e_queue x -> quiet s (put_entity e x' s).
Proof.
  intros Hx Hq. constructor; try done. intros e'. unfold queue, put_entity. cbn.
  destruct (decide (e' = e)) as [->|]; [by rewrite lookup_insert_eq, Hx|].
  by rewrite lookup_insert_ne.
Qed.

Lemma quiet_put_job j x x' s :
  s_jobs s !! j = Some x -> j_entity x' = j_entity x -> j_cb x' = j_cb x ->
  j_finish_work x' = j_finish_work x -> quiet s (put_job j x' s).
Proof.
  intros Hx H1 H2 H3. constructor; try done; intros j';
    unfold job_entity, job_cb, job_fw, put_job; cbn;
    (destruct (decide (j' = j)) as [->|]; [rewrite lookup_insert_eq, Hx; cbn; by rewrite ?H1|
     by rewrite lookup_insert_ne]).
Qed.

Lemma quiet_map_entities (f : amd_sched_entity -> amd_sched_entity) s :
  (forall x, e_queue (f x) = e_queue x) -> quiet s (set_entities (fmap f) s).
Proof.
  intros Hf. constructor; try done. intros e. unfold queue. cbn. rewrite lookup_fmap.
  destruct (s_entities s !! e); cbn; auto.
Qed.

Lemma quiet_wake d s : quiet s (wake_entities d s).
Proof. apply quiet_map_entities. intros x. by destruct (decide _). Qed.

Lemma quiet_rq k f s : quiet s (set_rq k f s).
Proof. by constructor. Qed.
Lemma quiet_done f s : quiet s (set_done f s).
Proof. by constructor. Qed.

Lemma the_entity_Ok e s x s' :
  the_entity e s = Ok (x, s') <-> s_entities s !! e = Some x /\ s' = s.
Proof.
  unfold the_entity. rewrite (bind_eval (gets id) _ s s s eq_refl), deref_Ok.
  split; intros [? ?]; auto.
Qed.
Lemma the_job_Ok j s x s' :
  the_job j s = Ok (x, s') <-> s_jobs s !! j = Some x /\ s' = s.
Proof.
  unfold the_job. rewrite (bind_eval (gets id) _ s s s eq_refl), deref_Ok.
  split; intros [? ?]; auto.
Qed.

(** [sinv] inverts the run of a scheduler operation. *)
Ltac sinv_step :=
  match goal with
  | H : the_entity _ _ = Ok (_, _) |- _ =>
      let E := fresh "He" in apply the_entity_Ok in H; destruct H as [E ?]; subst
  | H : the_job _ _ = Ok (_, _) |- _ =>
      let E := fresh "Hj" in apply the_job_Ok in H; destruct H as [E ?]; subst
  | _ => minv_step
  end.
Ltac sinv := repeat sinv_step; unfold id in *.

Lemma signal_other_quiet n s s' : fence_signal_other n s = Ok (tt, s') -> quiet s s'.
Proof.
  unfold fence_signal_other. intros H. sinv.
  etrans; [apply (quiet_done (union {[n]}))|]. apply quiet_map_entities. intros x.
  destruct (e_dependency x) as [[]|]; [done|done| |done]. by destruct (decide _).
Qed.

Lemma scheduled_quiet j s s' : amd_sched_fence_scheduled j s = Ok (tt, s') -> quiet s s'.
Proof.
  unfold amd_sched_fence_scheduled. intros H. sinv.
  etrans; [by eapply (quiet_put_job j _ (with_scheduled _))|]. apply quiet_wake.
Qed.

Lemma add_dependency_quiet e s b s' :
  amd_sched_entity_add_dependency_cb e s = Ok (b, s') -> quiet s s'.
Proof.
  unfold amd_sched_entity_add_dependency_cb. intros H. sinv.
  destruct (_ =? _); sinv; [done|]. by eapply quiet_put_entity.
Qed.

Lemma dependency_loop_quiet e j deps : forall s o s',
  dependency_loop e j deps s = Ok (o, s') -> quiet s s' /\ (o = None \/ o = Some j).
Proof.
  induction deps as [|d ds IH]; intros s o s' H; cbn [dependency_loop] in H; sinv.
  - split; [|auto]. by eapply quiet_put_entity.
  - assert (quiet s (put_entity e (with_dependency (Some d) v) (put_job j (with_deps ds v0) s))).
    { etrans; [by eapply (quiet_put_job j v0 (with_deps ds v0))|]. by eapply quiet_put_entity. }
    match goal with E : amd_sched_entity_add_dependency_cb _ _ = _ |- _ =>
      apply add_dependency_quiet in E end.
    match goal with H : context [if ?b then _ else _] |- _ => destruct b end.
    + sinv. split; [by etrans|auto].
    + apply IH in H as [Hq Ho]. split; [|done]. etrans; [done|]. by etrans.
Qed.

Lemma pop_job_quiet e s o s' :
  amd_sched_entity_pop_job e s = Ok (o, s') ->
  quiet s s' /\ forall j, o = Some j -> head (queue s e) = Some j.
Proof.
  unfold amd_sched_entity_pop_job. intros H. sinv.
  destruct (e_queue v) as [|j q] eqn:Eq; sinv; [done|].
  apply dependency_loop_quiet in H as [Hq Ho]. split; [done|].
  intros j' ->. destruct Ho as [|[= ->]]; [done|]. unfold queue. by rewrite He, Eq.
Qed.

Lemma rq_select_quiet k s o s' : amd_sched_rq_select_entity k s = Ok (o, s') -> quiet s s'.
Proof.
  unfold amd_sched_rq_select_entity. intros H. sinv.
  match goal with H : context [match ?b with Some _ => _ | None => mret None end] |- _ =>
    destruct b end; sinv; [apply quiet_rq|done].
Qed.

Lemma select_from_quiet n : forall k s o s', select_from k n s = Ok (o, s') -> quiet s s'.
Proof.
  induction n as [|n IH]; intros k s o s' H; cbn [select_from] in H; sinv; [done|].
  match goal with E : amd_sched_rq_select_entity _ _ = _ |- _ => apply rq_select_quiet in E end.
  destruct v; sinv; [done|]. etrans; [done|]. by eapply IH.
Qed.

Lemma select_entity_quiet s o s' :
  amd_sched_select_entity s = Ok (o, s') ->
  quiet s s' /\ (forall e, o = Some e -> amd_sched_ready s = true).
Proof.
  unfold amd_sched_select_entity. intros H. sinv.
  destruct (amd_sched_ready s0) eqn:E; sinv; [|done].
  split; [by eapply select_from_quiet|done].
Qed.

(** ** The steps that change what the invariant reads *)

Lemma pushes_app s l e :
  pushes (set_log (fun l0 => l0 ++ l) s) e =
  pushes s e ++ omap (fun ev => match ev with
    | EvPush j => if decide (job_entity s j = Some e) then Some j else None
    | _ => None end) l.
Proof. unfold pushes. cbn. by rewrite omap_app. Qed.
Lemma runs_app s l e :
  runs (set_log (fun l0 => l0 ++ l) s) e =
  runs s e ++ omap (fun ev => match ev with
    | EvRun j => if decide (job_entity s j = Some e) then Some j else None
    | _ => None end) l.
Proof. unfold runs. cbn. by rewrite omap_app. Qed.

Lemma elem_of_pushes s e j : j ∈ pushes s e <-> EvPush j ∈ s_log s /\ job_entity s j = Some e.
Proof.
  unfold pushes. rewrite list_elem_of_omap. split.
  - intros ([i|i|i| |i] & Hi & Hd); try done. destruct (decide _); [|done].
    by injection Hd as ->.
  - intros [Hin He]. exists (EvPush j). by rewrite decide_True.
Qed.
Lemma elem_of_runs s e j : j ∈ runs s e <-> EvRun j ∈ s_log s /\ job_entity s j = Some e.
Proof.
  unfold runs. rewrite list_elem_of_omap. split.
  - intros ([i|i|i| |i] & Hi & Hd); try done. destruct (decide _); [|done].
    by injection Hd as ->.
  - intros [Hin He]. exists (EvRun j). by rewrite decide_True.
Qed.

Lemma mirror_nodup s : order_inv s -> NoDup (s_mirror s).
Proof. intros Ho. eapply sublist_NoDup; [apply (oi_runs _ Ho)|apply (oi_mirror _ Ho)]. Qed.
Lemma mirror_run s j : order_inv s -> j ∈ s_mirror s -> EvRun j ∈ s_log s.
Proof. intros Ho Hj. apply elem_of_all_runs. eapply elem_of_sublist; [exact Hj|apply (oi_mirror _ Ho)]. Qed.
Lemma mirror_known s j : order_inv s -> j ∈ s_mirror s -> is_Some (job_entity s j).
Proof. intros Ho Hj. by apply (oi_known _ Ho (EvRun j)); [apply mirror_run|]. Qed.

(** A new job: its fields are those of no job before. *)
Lemma job_init_order alloc j e deps r s s' :
  s_jobs s !! j = None -> amd_sched_job_init alloc j e deps s = Ok (r, s') ->
  order_inv s -> order_inv s'.
Proof.
  intros Hnone H Hinv. unfold amd_sched_job_init, amd_sched_fence_create in H.
  destruct alloc; sinv; [|done].
  match goal with |- order_inv (put_job j ?y (put_entity e ?x s)) =>
    set (x' := x); set (y' := y) end.
  assert (quiet s (put_entity e x' s)) as Hq by (by eapply quiet_put_entity).
  apply (quiet_order _ _ Hq) in Hinv. set (s1 := put_entity e x' s) in *.
  assert (s_jobs s1 !! j = None) as Hn1 by done. clearbody s1. clear Hnone Hq.
  assert (forall ev i, ev ∈ s_log s1 -> event_job ev = Some i -> job_entity (put_job j y' s1) i = job_entity s1 i) as Hev.
  { intros ev i Hin Ei. destruct (oi_known _ Hinv ev i Hin Ei) as [x Hx]. unfold job_entity in *. cbn.
    rewrite lookup_insert_ne; [done|]. intros ->. by rewrite Hn1 in Hx. }
  destruct Hinv. constructor; try done.
  - intros e'. rewrite (pushes_ext s1), (runs_ext s1) by done. exact (oi_fifo0 e').
  - intros e'. rewrite (pushes_ext s1) by done. done.
  - intros ev i Hin Ei. rewrite (Hev ev i) by done. by apply (oi_known0 ev).
Qed.

Lemma job_init_inv alloc j e deps r s s' :
  s_jobs s !! j = None -> amd_sched_job_init alloc j e deps s = Ok (r, s') ->
  sched_inv s -> sched_inv s'.
Proof.
  intros Hnone H Hinv. pose proof (job_init_order _ _ _ _ _ _ _ Hnone H (si_order _ Hinv)) as Ho.
  unfold amd_sched_job_init, amd_sched_fence_create in H.
  destruct alloc; sinv; [|done].
  match goal with |- sched_inv (put_job j ?y (put_entity e ?x s)) =>
    set (x' := x) in *; set (y' := y) in * end.
  assert (quiet s (put_entity e x' s)) as Hq by (by eapply quiet_put_entity).
  apply (quiet_inv _ _ Hq) in Hinv. set (s1 := put_entity e x' s) in *.
  assert (s_jobs s1 !! j = None) as Hn1 by done. clearbody s1. clear Hnone Hq.
  assert (forall i, job_cb (put_job j y' s1) i = job_cb s1 i) as Hcb.
  { intros i. unfold job_cb, put_job. cbn. destruct (decide (i = j)) as [->|].
    - by rewrite lookup_insert_eq, Hn1.
    - by rewrite lookup_insert_ne. }
  assert (forall i, job_fw (put_job j y' s1) i = job_fw s1 i) as Hfw.
  { intros i. unfold job_fw, put_job. cbn. destruct (decide (i = j)) as [->|].
    - by rewrite lookup_insert_eq, Hn1.
    - by rewrite lookup_insert_ne. }
  destruct Hinv. constructor; try done.
  - intros i. rewrite Hcb. auto.
  - intros i. rewrite Hcb, Hfw. auto.
  - cbn. rewrite si_count0. do 2 f_equal. apply filter_ext'. intros i _. by rewrite Hcb.
Qed.

Lemma push_order j b s s' :
  ~ pushed s j -> amd_sched_entity_push_job j s = Ok (b, s') -> order_inv s -> order_inv s'.
Proof.
  intros Hnew H Hinv. unfold amd_sched_entity_push_job in H. apply bind_Ok in H.
  destruct H as (added & s1 & Hin & H). unfold amd_sched_entity_in in Hin. sinv.
  destruct (_ <? _)%nat; sinv; [|done].
  set (e := j_entity v0) in *. set (q := e_queue v1 ++ [j]) in *.
  assert (quiet (put_entity e (with_queue q v1) s) s1) as Hq.
  { destruct (_ =? _)%nat; sinv; [|done].
    unfold amd_sched_rq_add_entity in *. sinv. destruct (on_list _ _); [done|apply quiet_rq]. }
  assert (job_entity s j = Some e) as Hje by (unfold job_entity; by rewrite Hj).
  assert (queue s e = e_queue v1) as Hqe by (unfold queue; by rewrite He).
  apply (quiet_order (set_log (fun l => l ++ [EvPush j]) (put_entity e (with_queue q v1) s))).
  { destruct Hq. constructor; try done. cbn in *. congruence. }
  set (s3 := put_entity e (with_queue q v1) s).
  assert (forall e', queue s3 e' = if decide (e' = e) then q else queue s e') as Hqs.
  { intros e'. unfold queue, s3, put_entity. cbn. destruct (decide (e' = e)) as [->|].
    - by rewrite lookup_insert_eq.
    - by rewrite lookup_insert_ne. }
  destruct Hinv. constructor; try done.
  - intros e'. rewrite pushes_app, runs_app. cbn [omap list_omap].
    assert (pushes s3 e' = pushes s e' /\ runs s3 e' = runs s e') as [-> ->] by done.
    rewrite oi_fifo0, app_nil_r, <- app_assoc. f_equal.
    unfold pending. cbn [s_pc set_log]. change (s_pc s3) with (s_pc s).
    change (queue (set_log _ s3) e') with (queue s3 e'). rewrite Hqs.
    change (job_entity s3 j) with (job_entity s j). rewrite Hje.
    destruct (decide (e' = e)) as [->|Hne].
    + rewrite (decide_True (P := Some e = Some e)) by done. rewrite Hqe. unfold q. destruct (decide _) as [E|]; [|done].
      rewrite E in oi_pc0. rewrite Hqe in oi_pc0. by destruct (e_queue v1).
    + rewrite (decide_False (P := Some e = Some e')) by congruence. by rewrite app_nil_r.
  - intros e'. rewrite pushes_app. cbn [omap list_omap].
    change (pushes s3 e') with (pushes s e'). change (job_entity s3 j) with (job_entity s j).
    destruct (decide _); [|by rewrite app_nil_r].
    apply NoDup_app. split; [done|]. split; [|apply NoDup_singleton].
    intros i Hi Hij%list_elem_of_singleton. subst i. apply elem_of_pushes in Hi as [Hi _]. done.
  - intros ev i [Hev|Hev%list_elem_of_singleton]%elem_of_app; [by apply oi_known0|subst ev].
    intros [= <-]. change (job_entity (set_log _ s3) j) with (job_entity s j). by rewrite Hje.
  - change (s_pc (set_log _ s3)) with (s_pc s).
    change (queue (set_log _ s3)) with (queue s3).
    destruct (s_pc s) as [|e' j'|e'| |]; try done; rewrite Hqs;
      (destruct (decide (e' = e)) as [->|]; [|done]); rewrite Hqe in oi_pc0;
      unfold q; by destruct (e_queue v1).
  - cbn. rewrite all_runs_app. cbn. by rewrite app_nil_r.
  - cbn. rewrite all_runs_app. cbn. by rewrite app_nil_r.
  - by apply reruns_follow_snoc.
  - cbn. rewrite all_runs_app, last_reruns_app. cbn. by rewrite app_nil_r.
Qed.

Lemma push_inv j b s s' : amd_sched_entity_push_job j s = Ok (b, s') -> order_inv s' -> sched_inv s -> sched_inv s'.
Proof.
  intros H Ho Hinv. unfold amd_sched_entity_push_job in H. apply bind_Ok in H.
  destruct H as (added & s1 & Hin & H). unfold amd_sched_entity_in in Hin. sinv.
  destruct (_ <? _)%nat; sinv; [|done].
  match goal with H : (if ?b then _ else mret tt) ?s2 = Ok (_, s1) |- _ =>
    assert (quiet s2 s1) as Hq by (destruct b; sinv; [|done]; unfold amd_sched_rq_add_entity in *; sinv; destruct (on_list _ _); [done|apply quiet_rq]) end.
  destruct Hq as [_ Qcb Qfw _ Ql Qpc Qm Qc Qlim]. cbn in Ql, Qpc, Qm, Qc, Qlim.
  assert (forall i, job_cb s1 i = job_cb s i) as Fcb by exact Qcb. assert (forall i, job_fw s1 i = job_fw s i) as Ffw by exact Qfw.
  change (forall i, job_cb (set_log (fun l => l ++ [EvPush j]) s1) i = job_cb s i) in Fcb. change (forall i, job_fw (set_log (fun l => l ++ [EvPush j]) s1) i = job_fw s i) in Ffw.
  destruct Hinv. constructor; cbn [s_log s_mirror s_hw_rq_count s_limit s_pc set_log]; [done|..].
  - intros i. rewrite Fcb, Qm. apply si_cb0.
  - intros i. rewrite Ffw, Fcb, Ql, elem_of_app. intros [A B]%si_fw0. auto.
  - rewrite Qc, Qm, si_count0. do 2 f_equal. apply filter_ext'. intros i _. by rewrite Fcb.
  - by rewrite Qc, Qlim.
  - intros e' i. rewrite Qpc, Qc, Qlim. eauto.
  - by rewrite Qlim.
Qed.

(** Clearing the flag of one element lowers the count by one. *)
Lemma count_clear (f g : nat -> bool) j (l : list nat) :
  NoDup l -> j ∈ l -> f j = true -> g j = false -> (forall i, i <> j -> g i = f i) ->
  length (filter (fun i => f i = true) l) = S (length (filter (fun i => g i = true) l)).
Proof.
  intros Hnd (l1 & l2 & ->)%list_elem_of_split Hf Hg H.
  apply NoDup_app in Hnd as (_ & Hd & Hnd). apply NoDup_cons in Hnd as [Hj _].
  rewrite !filter_app, !filter_cons, (decide_True (P := f j = true)) by done.
  rewrite (decide_False (P := g j = true)) by congruence.
  rewrite !length_app. cbn.
  rewrite (filter_ext' (fun i => f i = true) (fun i => g i = true) l1).
  2: { intros i Hi. rewrite H; [done|]. intros ->. by apply (Hd _ Hi); left. }
  rewrite (filter_ext' (fun i => f i = true) (fun i => g i = true) l2).
  2: { intros i Hi. rewrite H; [done|]. by intros ->. }
  lia.
Qed.

(** A job of the hardware queue completes. *)
Lemma complete_inv j s s' :
  sched_inv s -> order_inv s' -> job_cb s j = true ->
  s_pc s' = s_pc s -> s_mirror s' = s_mirror s -> s_limit s' = s_limit s ->
  s_log s' = s_log s ++ [EvProcess j] -> s_hw_rq_count s' = s_hw_rq_count s - 1 ->
  job_cb s' j = false -> (forall i, i <> j -> job_cb s' i = job_cb s i) ->
  (forall i, i <> j -> job_fw s' i = job_fw s i) ->
  sched_inv s'.
Proof.
  intros Hinv Ho Hcbj Hpc Hm Hlim Hl Hc Hcb' Hcb Hfw.
  pose proof (count_clear (job_cb s) (job_cb s') j (s_mirror s) (mirror_nodup _ (si_order _ Hinv))
    (si_cb _ Hinv j Hcbj) Hcbj Hcb' Hcb) as Hlen.
  destruct Hinv. constructor; [done|..].
  - intros i. rewrite Hm. destruct (decide (i = j)) as [->|]; [congruence|].
    rewrite Hcb by done. auto.
  - intros i. rewrite Hl, elem_of_app. destruct (decide (i = j)) as [->|].
    + intros _. split; [done|]. left. by apply (mirror_run s), si_cb0.
    + rewrite Hcb, Hfw by done. intros [? ?]%si_fw0. auto.
  - rewrite Hc, Hm, si_count0, Hlen. lia.
  - rewrite Hc, Hlim. lia.
  - intros e i. rewrite Hpc, Hc, Hlim. intros E. specialize (si_room0 _ _ E). lia.
  - by rewrite Hlim.
Qed.

Lemma process_run j x s :
  s_jobs s !! j = Some x ->
  amd_sched_process_job j s =
    Ok (tt, set_log (fun l => l ++ [EvProcess j])
              (wake_entities (DepFinished j)
                 (put_job j (with_finished x) (set_count (fun c => s32 (c - 1)) s)))).
Proof.
  intros Hx. unfold amd_sched_process_job, amd_sched_fence_finished.
  rewrite (bind_eval _ _ _ _ _ eq_refl). erewrite bind_eval; [reflexivity|].
  erewrite bind_eval; [reflexivity|]. by apply the_job_Ok.
Qed.

Lemma put_job_ne {A} (f : amd_sched_job -> A) (d : A) j y s i :
  i <> j -> (match s_jobs (put_job j y s) !! i with Some x => f x | None => d end) =
            (match s_jobs s !! i with Some x => f x | None => d end).
Proof. intros. cbn. by rewrite lookup_insert_ne. Qed.

Lemma queue_wake d s e : queue (wake_entities d s) e = queue s e.
Proof. apply quiet_wake. Qed.

(** What processing a job and attaching its fence leave alone. *)
Lemma process_order j s s' : amd_sched_process_job j s = Ok (tt, s') -> order_inv s -> order_inv s'.
Proof.
  intros H Ho. assert (exists x, s_jobs s !! j = Some x) as [x Hx] by (unfold amd_sched_process_job, amd_sched_fence_finished in H; sinv; eauto).
  rewrite (process_run j x s Hx) in H. injection H as <-. apply (order_keep s); try done; [|exact (queue_wake _ _)|right|by left].
  - intros i. unfold job_entity. cbn. destruct (decide (i = j)) as [->|]; [by rewrite lookup_insert_eq, Hx|by rewrite lookup_insert_ne].
  - exists j. split; [done|]. unfold job_entity. by rewrite Hx.
Qed.
Lemma put_job_order j x x' s : s_jobs s !! j = Some x -> j_entity x' = j_entity x -> order_inv s -> order_inv (put_job j x' s).
Proof.
  intros Hx He. apply order_keep; auto. intros i. unfold job_entity. cbn.
  destruct (decide (i = j)) as [->|]; [rewrite lookup_insert_eq, Hx; cbn; by rewrite He|by rewrite lookup_insert_ne].
Qed.
Lemma attach_order j hw s s' : attach_fence j hw s = Ok (tt, s') -> order_inv s -> order_inv s'.
Proof.
  unfold attach_fence. destruct hw as [f|]; [|apply process_order]. intros H Ho. sinv.
  destruct (bool_decide _); sinv; [|by eapply put_job_order].
  match goal with H : amd_sched_process_job _ _ = _ |- _ => apply process_order in H; [done|] end. by eapply put_job_order.
Qed.
Lemma hw_order j s s' : hw_fence_signal j s = Ok (tt, s') -> order_inv s -> order_inv s'.
Proof.
  intros H Ho. unfold hw_fence_signal in H. sinv.
  match goal with E : fence_signal_other _ _ = Ok (?u, ?s1), P : amd_sched_process_job _ _ = _ |- _ =>
    destruct u; pose proof (quiet_order _ _ (signal_other_quiet _ _ _ E) Ho) as Ho1; unfold fence_signal_other in E; apply modify_Ok in E;
    apply process_order in P; [done|]; eapply put_job_order; [subst s1; exact Hj|done|done] end.
Qed.

Lemma hw_inv j x s s' :
  s_jobs s !! j = Some x -> j_cb x = true -> hw_fence_signal j s = Ok (tt, s') ->
  sched_inv s -> sched_inv s'.
Proof.
  intros Hx Hcb H Hinv. pose proof (hw_order _ _ _ H (si_order _ Hinv)) as Ho. unfold hw_fence_signal in H. sinv.
  match goal with E : fence_signal_other _ _ = Ok (?u, ?s1) |- _ =>
    destruct u; pose proof (signal_other_quiet _ _ _ E) as Hq;
    unfold fence_signal_other in E; apply modify_Ok in E;
    assert (s_jobs s1 !! j = Some x) as Hx1 by (by subst s1);
    apply (quiet_inv _ _ Hq) in Hinv; clear E Hq; rename s1 into t end.
  match goal with H : amd_sched_process_job j (put_job j ?y t) = _ |- _ =>
    rewrite (process_run j y) in H by (cbn; apply lookup_insert_eq); set (x' := y) in H end.
  injection H as <-.
  assert (job_cb t j = true) as Hcbt by (unfold job_cb; by rewrite Hx1).
  assert (0 < s_hw_rq_count t) as Hpos.
  { rewrite (si_count _ Hinv).
    assert (j ∈ filter (fun i => job_cb t i = true) (s_mirror t)) as Hin.
    { apply list_elem_of_filter. split; [done|]. by apply (si_cb _ Hinv). }
    destruct (filter _ _); [by apply elem_of_nil in Hin|cbn; lia]. }
  pose proof (si_limit _ Hinv). pose proof (si_width _ Hinv).
  apply (complete_inv j t); try done.
  - cbn. cint.
  - unfold job_cb. cbn. by rewrite lookup_insert_eq.
  - intros i Hi. unfold job_cb. cbn. by rewrite !lookup_insert_ne.
  - intros i Hi. unfold job_fw. cbn. by rewrite !lookup_insert_ne.
Qed.

(** The job picked by the scheduler thread has not run yet. *)
Lemma picked_new e j s :
  order_inv s -> s_pc s = Picked e j -> job_entity s j = Some e /\ EvRun j ∉ s_log s /\ j ∉ s_mirror s.
Proof.
  intros Hinv Hpc. pose proof (oi_pc _ Hinv) as Hhead. rewrite Hpc in Hhead.
  assert (j ∈ pending s e) as Hp.
  { unfold pending. rewrite Hpc, decide_False by done.
    destruct (queue s e); [done|]. injection Hhead as ->. by left. }
  assert (j ∈ pushes s e) as Hin by (rewrite (oi_fifo _ Hinv); apply elem_of_app; by right).
  pose proof Hin as [_ Hje]%elem_of_pushes.
  assert (EvRun j ∉ s_log s) as Hrun.
  { intros Hr. pose proof (oi_once _ Hinv e) as Hnd. rewrite (oi_fifo _ Hinv) in Hnd.
    apply NoDup_app in Hnd as (_ & Hd & _). apply (Hd j); [|done]. by apply elem_of_runs. }
  split; [done|]. split; [done|]. intros Hm. by apply Hrun, mirror_run.
Qed.
Lemma picked_fresh e j s :
  sched_inv s -> s_pc s = Picked e j ->
  job_entity s j = Some e /\ EvRun j ∉ s_log s /\ j ∉ s_mirror s /\ job_cb s j = false.
Proof.
  intros Hinv Hpc. destruct (picked_new e j s (si_order _ Hinv) Hpc) as (H1 & H2 & H3). split; [done|]. split; [done|]. split; [done|].
  destruct (job_cb s j) eqn:E; [|done]. by apply (si_cb _ Hinv) in E.
Qed.

(** The picked job is handed to the hardware; [c] tells whether its fence is
    still pending. *)
(** The log of a submission, with the completion when the job failed. *)
Definition run_events (j : nat) (c : bool) : list event :=
  EvRun j :: (if c then [] else [EvProcess j]).

Lemma submitted_pushes j c s s' e :
  (forall i, job_entity s' i = job_entity s i) -> s_log s' = s_log s ++ run_events j c ->
  pushes s' e = pushes s e.
Proof.
  intros He Hl. unfold pushes. rewrite Hl, omap_app. destruct c; cbn; rewrite app_nil_r;
    apply omap_ext'; intros [] _; by rewrite ?He.
Qed.

Lemma submitted_runs j c s s' e e' :
  (forall i, job_entity s' i = job_entity s i) -> s_log s' = s_log s ++ run_events j c ->
  job_entity s j = Some e ->
  runs s' e' = runs s e' ++ (if decide (e' = e) then [j] else []).
Proof.
  intros He Hl Hje. unfold runs. rewrite Hl, omap_app. f_equal.
  - apply omap_ext'. intros [] _; by rewrite ?He.
  - destruct c; cbn; rewrite He, Hje; destruct (decide (e' = e)) as [->|];
      rewrite ?decide_True, ?decide_False by congruence; done.
Qed.

Lemma submitted_count j c s s' :
  sched_inv s -> j ∉ s_mirror s -> job_cb s' j = c ->
  (forall i, i <> j -> job_cb s' i = job_cb s i) ->
  Z.of_nat (length (filter (fun i => job_cb s' i = true) (s_mirror s ++ [j]))) =
    s_hw_rq_count s + (if c then 1 else 0).
Proof.
  intros Hinv Hnm Hcbj Hcb. rewrite filter_app, length_app, (si_count _ Hinv).
  rewrite (filter_ext' (fun i => job_cb s' i = true) (fun i => job_cb s i = true) (s_mirror s)).
  2: { intros i Hi. rewrite Hcb; [done|]. by intros ->. }
  rewrite filter_cons, filter_nil, Hcbj.
  destruct c; [rewrite decide_True by done|rewrite decide_False by done]; cbn; lia.
Qed.

(** The order when the picked job has run. *)
Lemma submitted_order e j (c : bool) s s' :
  order_inv s -> s_pc s = Picked e j ->
  (forall i, job_entity s' i = job_entity s i) -> (forall e', queue s' e' = queue s e') ->
  s_pc s' = Submitted e -> s_mirror s' = s_mirror s ++ [j] -> s_log s' = s_log s ++ run_events j c -> order_inv s'.
Proof.
  intros Hinv Hpc0 He Hq Hpc Hm Hl. destruct (picked_new e j s Hinv Hpc0) as (Hje & Hrun & Hnm).
  assert (forall e', pushes s' e' = pushes s e') as Hp by (intros e'; by apply (submitted_pushes j c)).
  assert (forall e', runs s' e' = runs s e' ++ (if decide (e' = e) then [j] else [])) as Hr by (intros e'; by apply (submitted_runs j c)).
  assert (all_runs (s_log s') = all_runs (s_log s) ++ [j]) as Ea by (rewrite Hl, all_runs_app; by destruct c).
  assert (last_reruns (s_log s') = last_reruns (s_log s)) as El by (rewrite Hl, last_reruns_app; by destruct c).
  destruct Hinv. rewrite Hpc0 in oi_pc0. constructor; rewrite ?Ea, ?El, ?Hm.
  - intros e'. rewrite Hp, Hr, oi_fifo0, <- app_assoc. f_equal. unfold pending.
    rewrite Hpc0, Hpc, Hq. rewrite decide_False by done.
    destruct (decide (e' = e)) as [->|Hne].
    + rewrite decide_True by done. destruct (queue s e); [done|]. by injection oi_pc0 as ->.
    + rewrite decide_False by congruence. done.
  - intros e'. by rewrite Hp.
  - intros ev i. rewrite Hl, He. intros [Hev|[->|Hev]%elem_of_cons]%elem_of_app; [by apply oi_known0|intros [= <-]; by rewrite Hje|].
    destruct c; [by apply elem_of_nil in Hev|]. apply list_elem_of_singleton in Hev. subst ev. intros [= <-]. by rewrite Hje.
  - rewrite Hpc, Hq. by destruct (queue s e).
  - apply NoDup_app. split; [done|]. split; [|apply NoDup_singleton]. intros i Hi Hij%list_elem_of_singleton. subst i. by apply Hrun, elem_of_all_runs.
  - by apply sublist_app.
  - rewrite Hl. unfold run_events. destruct c; [by apply reruns_follow_snoc|].
    rewrite cons_middle, app_assoc. by apply reruns_follow_snoc; [apply reruns_follow_snoc|].
  - unfold remaining in *. rewrite Hpc. rewrite Hpc0 in oi_last0. rewrite app_nil_r in *. by apply sublist_inserts_r.
Qed.

Lemma submitted_inv e j (c : bool) s s' :
  sched_inv s -> order_inv s' -> s_pc s = Picked e j ->
  s_pc s' = Submitted e -> s_mirror s' = s_mirror s ++ [j] -> s_limit s' = s_limit s ->
  s_log s' = s_log s ++ EvRun j :: (if c then [] else [EvProcess j]) ->
  s_hw_rq_count s' = s_hw_rq_count s + (if c then 1 else 0) ->
  job_cb s' j = c -> (c = true -> job_fw s' j = false) ->
  (forall i, i <> j -> job_cb s' i = job_cb s i) ->
  (forall i, i <> j -> job_fw s' i = job_fw s i) ->
  sched_inv s'.
Proof.
  intros Hinv Ho Hpc0 Hpc Hm Hlim Hl Hc Hcbj Hfwj Hcb Hfw.
  destruct (picked_fresh e j s Hinv Hpc0) as (Hje & Hrun & Hnm & Hcb0).
  pose proof (submitted_count j c s s' Hinv Hnm Hcbj Hcb) as Hcount.
  pose proof (si_room _ Hinv _ _ Hpc0) as Hroom.
  destruct Hinv. constructor; [done|..].
  - intros i. rewrite Hm, elem_of_app. destruct (decide (i = j)) as [->|].
    + intros _. right. by left.
    + rewrite Hcb by done. auto.
  - intros i. destruct (decide (i = j)) as [->|].
    + intros Hf. rewrite Hcbj, Hl, elem_of_app. split; [|right; by left].
      destruct c; [|done]. rewrite Hfwj in Hf; done.
    + rewrite Hcb, Hfw, Hl, elem_of_app by done. intros [? ?]%si_fw0. auto.
  - rewrite Hm, Hc. lia.
  - rewrite Hc, Hlim. destruct c; lia.
  - by rewrite Hpc.
  - by rewrite Hlim.
Qed.

Lemma quiet_log f s s' : quiet s s' -> quiet (set_log f s) (set_log f s').
Proof. intros []. constructor; try done. cbn. congruence. Qed.

Lemma job_begin_quiet j s s' :
  amd_sched_job_begin j s = Ok (tt, s') -> quiet (set_mirror (fun l => l ++ [j]) s) s'.
Proof.
  unfold amd_sched_job_begin. intros H. sinv.
  match goal with H : (if ?b then _ else _) _ = _ |- _ => destruct b end; sinv; [|done].
  by eapply (quiet_put_job j _ (with_tdr true _)).
Qed.

(** The state [t] in which the scheduler thread looks at the hardware fence: the
    job [j] is counted, listed and logged, and its callback is not attached. *)
Record handed (e j : nat) (x : amd_sched_job) (s t : amd_gpu_scheduler) : Prop := {
  h_entity : forall i, job_entity t i = job_entity s i;
  h_cb : forall i, job_cb t i = job_cb s i;
  h_fw : forall i, job_fw t i = job_fw s i;
  h_queue : forall e', queue t e' = queue s e';
  h_log : s_log t = s_log s ++ [EvRun j];
  h_mirror : s_mirror t = s_mirror s ++ [j];
  h_count : s_hw_rq_count t = s_hw_rq_count s + 1;
  h_limit : s_limit t = s_limit s;
  h_job : s_jobs t !! j = Some x;
  h_nocb : j_cb x = false;
  h_nofw : j_finish_work x = false }.

Lemma submit_handed e j hw s s' :
  s_pc s = Picked e j -> main_submit e j hw s = Ok (tt, s') -> sched_inv s ->
  exists x t u, handed e j x s t /\ attach_fence j hw t = Ok (tt, u) /\
    s' = set_pc (Submitted e) u.
Proof.
  intros Hpc H Hinv. unfold main_submit in H.
  apply bind_Ok in H as ([] & s1 & H1 & H). apply bind_Ok in H as ([] & s2 & H2 & H).
  apply bind_Ok in H as ([] & s3 & H3 & H). apply bind_Ok in H as ([] & t & H4 & H).
  apply bind_Ok in H as ([] & u & H5 & H). apply modify_Ok in H1, H3, H. subst s1 s3 s'.
  apply job_begin_quiet in H2. apply scheduled_quiet in H4.
  apply (quiet_log (fun l => l ++ [EvRun j])) in H2.
  assert (quiet (set_log (fun l => l ++ [EvRun j]) (set_mirror (fun l => l ++ [j])
    (set_count (fun c => s32 (c + 1)) s))) t) as [Qe Qcb Qfw Qq Ql Qpc Qm Qc Qlim]
    by (by etrans).
  destruct (picked_fresh e j s Hinv Hpc) as (Hje & Hrun & Hnm & Hcb0).
  assert (0 <= s_hw_rq_count s) by (rewrite (si_count _ Hinv); lia).
  pose proof (si_room _ Hinv _ _ Hpc). pose proof (si_width _ Hinv).
  assert (job_fw s j = false) as Hfw0
    by (destruct (job_fw s j) eqn:E; [by apply (si_fw _ Hinv) in E as [_ ?]|done]).
  assert (exists x, s_jobs t !! j = Some x) as [x Hx].
  { specialize (Qe j). unfold job_entity in Qe, Hje. cbn in Qe.
    destruct (s_jobs s !! j); [|done]. destruct (s_jobs t !! j); [eauto|done]. }
  exists x, t, u. split; [|done]. constructor; try done.
  - cbn in Qc. rewrite Qc. cint.
  - specialize (Qcb j). unfold job_cb in Qcb at 1. rewrite Hx in Qcb. rewrite Qcb. exact Hcb0.
  - specialize (Qfw j). unfold job_fw in Qfw at 1. rewrite Hx in Qfw. rewrite Qfw. exact Hfw0.
Qed.

(** *** The order over the other steps *)

Lemma process_pc pc j s s' : amd_sched_process_job j s = Ok (tt, s') -> amd_sched_process_job j (set_pc pc s) = Ok (tt, set_pc pc s').
Proof.
  intros H. assert (exists x, s_jobs s !! j = Some x) as [x Hx] by (unfold amd_sched_process_job, amd_sched_fence_finished in H; sinv; eauto).
  rewrite (process_run j x s Hx) in H. injection H as <-. by rewrite (process_run j x).
Qed.
Lemma attach_pc pc j hw s s' : attach_fence j hw s = Ok (tt, s') -> attach_fence j hw (set_pc pc s) = Ok (tt, set_pc pc s').
Proof.
  unfold attach_fence. destruct hw as [f|]; [|apply process_pc]. rewrite !(bind_eval (gets id) _ _ _ _ eq_refl). intros H.
  apply bind_Ok in H as (x & s1 & Hx & H). apply the_job_Ok in Hx as [Hx ->]. rewrite (bind_eval _ _ _ x (set_pc pc s)) by by apply the_job_Ok.
  change (s_done (id (set_pc pc s))) with (s_done (id s)). destruct (bool_decide _).
  - rewrite !(bind_eval _ _ _ _ _ eq_refl) in *. by apply (process_pc pc) in H.
  - apply modify_Ok in H. by subst s'.
Qed.

Lemma submit_order e j hw s s' :
  s_pc s = Picked e j -> main_submit e j hw s = Ok (tt, s') -> order_inv s -> order_inv s'.
Proof.
  intros Hpc H Ho. unfold main_submit in H.
  apply bind_Ok in H as ([] & s1 & H1 & H). apply bind_Ok in H as ([] & s2 & H2 & H).
  apply bind_Ok in H as ([] & s3 & H3 & H). apply bind_Ok in H as ([] & t & H4 & H).
  apply bind_Ok in H as ([] & u & H5 & H). apply modify_Ok in H1, H3, H. subst s1 s3 s'.
  apply job_begin_quiet in H2. apply scheduled_quiet in H4. apply (quiet_log (fun l => l ++ [EvRun j])) in H2.
  assert (quiet (set_log (fun l => l ++ [EvRun j]) (set_mirror (fun l => l ++ [j]) (set_count (fun c => s32 (c + 1)) s))) t) as [Qe _ _ Qq Ql _ Qm _ _] by (by etrans).
  assert (order_inv (set_pc (Submitted e) t)) as Ht by by apply (submitted_order e j true s).
  by apply (attach_pc (Submitted e)), attach_order in H5.
Qed.

Lemma dequeue_order e s s' :
  s_pc s = Submitted e -> main_dequeue e s = Ok (tt, s') -> order_inv s -> order_inv s'.
Proof.
  intros Hpc H Hinv. unfold main_dequeue in H. sinv.
  assert (queue s e = e_queue v) as Hqe by (unfold queue; by rewrite He).
  set (s1 := put_entity e (with_queue (tail (e_queue v)) v) s).
  assert (forall e', queue s1 e' = if decide (e' = e) then tail (queue s e) else queue s e') as Hq.
  { intros e'. unfold queue at 1, s1, put_entity. cbn. destruct (decide (e' = e)) as [->|].
    - by rewrite lookup_insert_eq, Hqe.
    - by rewrite lookup_insert_ne. }
  destruct Hinv. unfold remaining in oi_last0. rewrite Hpc in oi_last0. constructor; try done.
  intros e'. change (pushes (set_pc Idle s1) e') with (pushes s e').
  change (runs (set_pc Idle s1) e') with (runs s e'). rewrite oi_fifo0. f_equal.
  unfold pending. rewrite Hpc. cbn [s_pc set_pc]. rewrite (decide_False (P := Idle = _)) by done.
  change (queue (set_pc Idle s1) e') with (queue s1 e'). rewrite Hq.
  destruct (decide (e' = e)) as [->|]; [by rewrite decide_True|by rewrite decide_False by congruence].
Qed.

(** The thread is not in the middle of a submission. *)
Definition resting (pc : main_pc) : Prop := match pc with Picked _ _ | Submitted _ => False | _ => True end.
Lemma pending_resting s e : resting (s_pc s) -> pending s e = queue s e.
Proof. unfold pending. intros H. rewrite decide_False; [done|]. intros E. by rewrite E in H. Qed.
Lemma set_pc_order pc s :
  resting (s_pc s) -> resting pc -> last_reruns (s_log s) ++ remaining (set_pc pc s) `sublist_of` all_runs (s_log s) -> order_inv s -> order_inv (set_pc pc s).
Proof.
  intros H1 H2 Hl []. constructor; try done; [|by destruct pc]. intros e.
  change (pushes s e = runs s e ++ pending (set_pc pc s) e). rewrite (oi_fifo0 e), !pending_resting by done. done.
Qed.

Lemma select_order s s' : s_pc s = Idle -> main_select s = Ok (tt, s') -> order_inv s -> order_inv s'.
Proof.
  intros Hpc H Hinv. unfold main_select in H. apply bind_Ok in H as (o & s1 & H1 & H).
  apply select_entity_quiet in H1 as [Hq1 _].
  destruct o as [e|]; [|sinv; by apply (quiet_order _ _ Hq1)].
  apply bind_Ok in H as (oj & s2 & H2 & H). apply pop_job_quiet in H2 as [Hq2 Hhead].
  assert (quiet s s2) as Hq by (by etrans). pose proof (quiet_order _ _ Hq Hinv) as Hinv2.
  destruct oj as [j|]; [|by sinv]. apply modify_Ok in H. subst s'.
  assert (s_pc s2 = Idle) as Hpc2 by (by rewrite (q_pc _ _ Hq)).
  specialize (Hhead j eq_refl). rewrite <- (q_queue _ _ Hq2) in Hhead.
  destruct Hinv2. unfold remaining in oi_last0. rewrite Hpc2 in oi_last0. constructor; try done.
  intros e'. change (pushes (set_pc _ s2) e') with (pushes s2 e').
  change (runs (set_pc _ s2) e') with (runs s2 e'). rewrite oi_fifo0. f_equal.
  unfold pending. rewrite Hpc2. cbn [s_pc set_pc]. by rewrite !decide_False.
Qed.

Lemma finish_order j s s' : amd_sched_job_finish j s = Ok (tt, s') -> order_inv s -> order_inv s'.
Proof.
  intros H Ho. unfold amd_sched_job_finish in H. apply bind_Ok in H as (x & t & Hx & H). apply the_job_Ok in Hx as [Hx ->].
  rewrite (bind_eval _ _ _ _ _ eq_refl) in H. set (s1 := set_mirror (filter (fun i => i <> j)) s) in *.
  assert (order_inv s1) as Ho1 by (apply (order_keep s); eauto).
  rewrite (bind_eval (gets id) _ s1 s1 s1 eq_refl) in H.
  apply bind_Ok in H as ([] & s2 & H2 & H). apply bind_Ok in H as (y & s3 & H3 & H).
  apply the_job_Ok in H3 as [Hy ->]. apply modify_Ok in H. subst s'. eapply put_job_order; [exact Hy|done|].
  destruct (s_timeout s1); [|by sinv]. apply bind_Ok in H2 as ([] & s4 & H4 & H2). apply modify_Ok in H4. subst s4.
  assert (order_inv (put_job j (with_tdr false x) s1)) as Ho2 by by eapply put_job_order.
  destruct (s_mirror s1); sinv; [done|]. by eapply put_job_order.
Qed.

Lemma reset_loop_order l : forall s s', reset_loop l s = Ok (tt, s') -> order_inv s -> order_inv s' /\ s_pc s' = s_pc s /\ s_log s' = s_log s.
Proof.
  induction l as [|j l IH]; intros s s' H Ho; cbn [reset_loop] in H; [by sinv|].
  apply bind_Ok in H as (x & t & Hx & H). apply the_job_Ok in Hx as [Hx ->]. apply bind_Ok in H as (f & t & Hf & H). apply deref_Ok in Hf as [_ <-].
  apply bind_Ok in H as ([] & s1 & H1 & H). destruct (j_cb x); sinv; [|by apply IH].
  apply IH in H; [done|]. by eapply put_job_order.
Qed.
Lemma reset_order s t : s_pc s = Idle -> amd_sched_hw_job_reset s = Ok (tt, t) -> order_inv s -> order_inv (set_pc Parked t).
Proof.
  intros Hpc H Ho. unfold amd_sched_hw_job_reset in H. rewrite (bind_eval (gets id) _ s s s eq_refl) in H.
  apply bind_Ok in H as ([] & s1 & H1 & H). apply modify_Ok in H. subst t. apply reset_loop_order in H1 as (Ho1 & Ep & _); [|done].
  apply set_pc_order; [cbn; by rewrite Ep, Hpc|done| |by apply (order_keep s1); auto].
  pose proof (oi_last _ Ho1) as Hl. unfold remaining in Hl. by rewrite Ep, Hpc in Hl.
Qed.
Lemma recovery_order s t : s_pc s = Parked -> recovery_begin s = Ok (tt, t) -> order_inv s -> order_inv (set_pc (Recovering (head (s_mirror s))) t).
Proof.
  intros Hpc H Ho. unfold recovery_begin in H. rewrite (bind_eval (gets id) _ s s s eq_refl), (bind_eval _ _ _ _ _ eq_refl) in H.
  set (s1 := set_log (fun l => l ++ [EvRecovery]) s) in *. set (pc := Recovering (head (s_mirror s))).
  assert (order_inv (set_pc pc s1)) as Ho1.
  { assert (all_runs (s_log s ++ [EvRecovery]) = all_runs (s_log s)) as Ea by by rewrite all_runs_app, app_nil_r.
    destruct Ho. constructor; cbn [s_log s_mirror s_pc set_log set_pc]; unfold s1; cbn [s_log s_mirror s_pc set_log set_pc]; rewrite ?Ea; try done.
    - intros e. change (pushes s1 e = runs s1 e ++ pending (set_pc pc s1) e). unfold s1 at 1 2. rewrite pushes_app, runs_app, !app_nil_r, (oi_fifo0 e), !pending_resting; [done|done|by rewrite Hpc].
    - intros e. change (NoDup (pushes s1 e)). unfold s1. by rewrite pushes_app, app_nil_r.
    - intros ev i [Hev|Hev%list_elem_of_singleton]%elem_of_app; [by apply oi_known0|by subst ev].
    - by apply reruns_follow_snoc.
    - rewrite last_reruns_app. cbn. unfold remaining. cbn. destruct (head (s_mirror s)); [|apply sublist_nil_l]. etrans; [apply from_sublist|done]. }
  assert (forall x j, s_jobs s1 !! j = Some x -> order_inv (set_pc pc (put_job j (with_tdr true x) s1))) as Hput
    by (intros x j Hx; by apply (put_job_order j x (with_tdr true x) (set_pc pc s1))).
  destruct (s_mirror s) as [|j l]; [by sinv|]. destruct (s_timeout s); sinv; [by apply Hput|done].
Qed.
Lemma recover_order j hw s s' : s_pc s = Recovering (Some j) -> recovery_turn j hw s = Ok (tt, s') -> order_inv s -> order_inv s'.
Proof.
  intros Hpc H Ho. unfold recovery_turn in H. rewrite (bind_eval (gets id) _ s s s eq_refl) in H. unfold id in H.
  destruct (bool_decide (j ∈ s_mirror s)) eqn:Ej; [|done]. apply bool_decide_eq_true in Ej. unfold recover_job in H. rewrite !(bind_eval _ _ _ _ _ eq_refl) in H.
  apply attach_order in H; [done|]. clear H. set (pc := Recovering (head (after j (s_mirror s)))).
  apply (order_keep (set_log (fun l => l ++ [EvRerun j]) (set_pc pc s))); auto.
  pose proof (mirror_nodup s Ho) as Hnd. pose proof (mirror_run s j Ho Ej) as Hrun. pose proof (mirror_known s j Ho Ej) as Hkn.
  assert (all_runs (s_log s ++ [EvRerun j]) = all_runs (s_log s)) as Ea by by rewrite all_runs_app, app_nil_r.
  destruct Ho. constructor; cbn [s_log s_mirror s_pc set_log set_pc]; rewrite ?Ea; try done.
  - intros e. rewrite pushes_app, runs_app, !app_nil_r. change (pushes s e = runs s e ++ pending (set_log (fun l => l ++ [EvRerun j]) (set_pc pc s)) e).
    rewrite (oi_fifo0 e), !pending_resting; [done|done|by rewrite Hpc].
  - intros e. rewrite pushes_app, app_nil_r. apply (oi_once0 e).
  - intros ev i [Hev|Hev%list_elem_of_singleton]%elem_of_app; [by apply oi_known0|]. subst ev. by intros [= <-].
  - apply reruns_follow_snoc; [done|]. by intros ? [= <-].
  - rewrite last_reruns_app. cbn. unfold remaining in *. rewrite Hpc, from_cons in oi_last0 by done. cbn. rewrite <- app_assoc.
    destruct (head (after j (s_mirror s))) as [k|] eqn:Eh; [by rewrite (from_after j k)|]. etrans; [|exact oi_last0].
    apply sublist_app; [done|]. apply sublist_skip, sublist_nil_l.
Qed.

Section handed.
Context (e j : nat) (x : amd_sched_job) (s t : amd_gpu_scheduler).
Hypotheses (Hinv : sched_inv s) (Hpc : s_pc s = Picked e j) (Ht : handed e j x s t).

Lemma handed_ne y i :
  i <> j -> job_cb (put_job j y t) i = job_cb s i /\ job_fw (put_job j y t) i = job_fw s i.
Proof using Ht.
  intros Hi. rewrite <- (h_cb _ _ _ _ _ Ht i), <- (h_fw _ _ _ _ _ Ht i).
  unfold job_cb, job_fw. by rewrite !put_job_ne.
Qed.

(** The callback is attached: the job stays on the hardware queue. *)
Lemma attached_inv y :
  j_entity y = j_entity x -> j_cb y = true -> j_finish_work y = false ->
  order_inv (set_pc (Submitted e) (put_job j y t)) -> sched_inv (set_pc (Submitted e) (put_job j y t)).
Proof using Hinv Hpc Ht.
  intros Hy Hcby Hfwy Ho. apply (submitted_inv e j true s); try done; try apply Ht.
  - unfold job_cb. cbn. by rewrite lookup_insert_eq.
  - intros _. unfold job_fw. cbn. by rewrite lookup_insert_eq.
  - intros i Hi. exact (proj1 (handed_ne _ i Hi)).
  - intros i Hi. exact (proj2 (handed_ne _ i Hi)).
Qed.

(** The job is processed at once. *)
Lemma processed_inv y p :
  j_entity y = j_entity x -> j_cb y = false ->
  amd_sched_process_job j (put_job j y t) = Ok (tt, p) ->
  order_inv (set_pc (Submitted e) p) -> sched_inv (set_pc (Submitted e) p).
Proof using Hinv Hpc Ht.
  intros Hy Hcby Hp Ho. rewrite (process_run j y) in Hp by (cbn; apply lookup_insert_eq).
  injection Hp as <-.
  assert (0 <= s_hw_rq_count s) by (rewrite (si_count _ Hinv); lia).
  pose proof (si_room _ Hinv _ _ Hpc). pose proof (si_width _ Hinv).
  apply (submitted_inv e j false s); try done; try apply Ht.
  - cbn. rewrite (h_log _ _ _ _ _ Ht). by rewrite <- app_assoc.
  - cbn. rewrite (h_count _ _ _ _ _ Ht). cint.
  - unfold job_cb. cbn. by rewrite lookup_insert_eq.
  - intros i Hi. rewrite <- (proj1 (handed_ne y i Hi)). unfold job_cb. cbn. by rewrite !lookup_insert_ne.
  - intros i Hi. rewrite <- (proj2 (handed_ne y i Hi)). unfold job_fw. cbn. by rewrite !lookup_insert_ne.
Qed.

Lemma attach_inv hw u :
  attach_fence j hw t = Ok (tt, u) -> order_inv (set_pc (Submitted e) u) -> sched_inv (set_pc (Submitted e) u).
Proof using Hinv Hpc Ht.
  intros H Ho. unfold attach_fence in H. pose proof (h_job _ _ _ _ _ Ht) as Hx.
  destruct hw as [f|].
  - rewrite (bind_eval (gets id) _ t t t eq_refl) in H.
    rewrite (bind_eval _ _ _ _ _ (proj2 (the_job_Ok j t x t) (conj Hx eq_refl))) in H.
    destruct (bool_decide _).
    + rewrite (bind_eval _ _ _ _ _ eq_refl) in H. by eapply (processed_inv (with_parent (Some f) false x)).
    + apply modify_Ok in H. subst u. apply attached_inv; [done..|apply Ht|done].
  - assert (put_job j x t = t) as E.
    { unfold put_job, set_jobs. rewrite insert_id by done. by destruct t. }
    apply (processed_inv x); [done|apply Ht|by rewrite E|done].
Qed.
End handed.

Lemma submit_inv e j hw s s' :
  s_pc s = Picked e j -> main_submit e j hw s = Ok (tt, s') -> sched_inv s -> sched_inv s'.
Proof.
  intros Hpc H Hinv. pose proof (submit_order e j hw s s' Hpc H (si_order _ Hinv)) as Ho.
  destruct (submit_handed e j hw s s' Hpc H Hinv) as (x & t & u & Ht & Hu & ->).
  by apply (attach_inv e j x s t Hinv Hpc Ht hw).
Qed.

Lemma dequeue_inv e s s' :
  s_pc s = Submitted e -> main_dequeue e s = Ok (tt, s') -> sched_inv s -> sched_inv s'.
Proof.
  intros Hpc H Hinv. pose proof (dequeue_order e s s' Hpc H (si_order _ Hinv)) as Ho. unfold main_dequeue in H. sinv. destruct Hinv. by constructor.
Qed.

Lemma select_inv s s' :
  s_pc s = Idle -> main_select s = Ok (tt, s') -> sched_inv s -> sched_inv s'.
Proof.
  intros Hpc H Hinv. pose proof (select_order s s' Hpc H (si_order _ Hinv)) as Ho. unfold main_select in H. apply bind_Ok in H as (o & s1 & H1 & H).
  apply select_entity_quiet in H1 as [Hq1 Hready].
  destruct o as [e|]; [|sinv; by apply (quiet_inv _ _ Hq1)].
  apply bind_Ok in H as (oj & s2 & H2 & H). apply pop_job_quiet in H2 as [Hq2 Hhead].
  assert (quiet s s2) as Hq by (by etrans). pose proof (quiet_inv _ _ Hq Hinv) as Hinv2.
  destruct oj as [j|]; [|by sinv]. apply modify_Ok in H. subst s'.
  assert (s_hw_rq_count s2 < s_limit s2) as Hroom.
  { specialize (Hready e eq_refl). unfold amd_sched_ready in Hready. apply Z.ltb_lt in Hready.
    assert (0 <= s_hw_rq_count s) by (rewrite (si_count _ Hinv); lia).
    pose proof (si_limit _ Hinv). pose proof (si_width _ Hinv).
    rewrite (q_count _ _ Hq), (q_limit _ _ Hq). cint. }
  destruct Hinv2. by constructor.
Qed.

(** Unlinking a job whose callback is gone. *)
Lemma unlink_inv j s s' :
  sched_inv s -> order_inv s' -> job_cb s j = false ->
  s_pc s' = s_pc s -> s_log s' = s_log s -> s_limit s' = s_limit s ->
  s_hw_rq_count s' = s_hw_rq_count s -> s_mirror s' = filter (fun i => i <> j) (s_mirror s) ->
  (forall i, job_cb s' i = job_cb s i) ->
  (forall i, job_fw s' i = true -> job_fw s i = true) ->
  sched_inv s'.
Proof.
  intros Hinv Ho Hcbj Hpc Hl Hlim Hc Hm Hcb Hfw.
  assert (length (filter (fun i => job_cb s i = true) (filter (fun i => i <> j) (s_mirror s))) =
          length (filter (fun i => job_cb s i = true) (s_mirror s))) as Hlen.
  { rewrite list_filter_filter. f_equal. apply filter_ext'. intros i _.
    split; [tauto|]. intros Hi. split; [done|]. intros ->. congruence. }
  destruct Hinv. constructor; [done|..].
  - intros i. rewrite Hcb, Hm, list_elem_of_filter. intros Hi. split; [|auto].
    intros ->. congruence.
  - intros i. rewrite Hcb, Hl. auto.
  - rewrite Hc, Hm, si_count0. f_equal. rewrite <- Hlen. f_equal. apply filter_ext'.
    intros i _. by rewrite Hcb.
  - by rewrite Hc, Hlim.
  - intros e i. rewrite Hpc, Hc, Hlim. eauto.
  - by rewrite Hlim.
Qed.

Lemma finish_inv j x s s' :
  s_jobs s !! j = Some x -> j_finish_work x = true ->
  amd_sched_job_finish j s = Ok (tt, s') -> sched_inv s -> sched_inv s'.
Proof.
  intros Hx Hfw H Hinv. pose proof (finish_order j s s' H (si_order _ Hinv)) as Ho. unfold amd_sched_job_finish in H.
  rewrite (bind_eval _ _ _ _ _ (proj2 (the_job_Ok j s x s) (conj Hx eq_refl))) in H.
  rewrite (bind_eval _ _ _ _ _ eq_refl) in H.
  set (s1 := set_mirror (filter (fun i => i <> j)) s) in *.
  rewrite (bind_eval (gets id) _ s1 s1 s1 eq_refl) in H.
  apply bind_Ok in H as ([] & s2 & H2 & H). apply bind_Ok in H as (y & s3 & H3 & H).
  apply the_job_Ok in H3 as [Hy ->]. apply modify_Ok in H. subst s'.
  assert (quiet s1 s2) as Hq.
  { destruct (s_timeout s1); [|by sinv]. apply bind_Ok in H2 as ([] & s4 & H4 & H2).
    apply modify_Ok in H4. subst s4.
    etrans; [by eapply (quiet_put_job j x (with_tdr false x))|].
    destruct (s_mirror s1); sinv; [done|]. by eapply (quiet_put_job _ _ (with_tdr true _)). }
  destruct Hq as [Qe Qcb Qfw Qq Ql Qpc Qm Qc Qlim].
  assert (job_cb s j = false) as Hcb0.
  { apply (si_fw _ Hinv). unfold job_fw. by rewrite Hx. }
  assert (forall i, job_cb (put_job j (with_freed y) s2) i = job_cb s2 i) as Hput.
  { intros i. unfold job_cb. cbn. destruct (decide (i = j)) as [->|].
    - by rewrite lookup_insert_eq, Hy.
    - by rewrite lookup_insert_ne. }
  apply (unlink_inv j s); try done.
  - intros i. rewrite (Hput i). apply Qcb.
  - intros i. unfold job_fw at 1. cbn. destruct (decide (i = j)) as [->|].
    + by rewrite lookup_insert_eq.
    + rewrite lookup_insert_ne by done. intros Hi. change (job_fw s1 i = true).
      rewrite <- (Qfw i). exact Hi.
Qed.

Lemma entity_init_quiet e k capacity ctx r s s' :
  s_entities s !! e = None -> amd_sched_entity_init e k capacity ctx 0 s = Ok (r, s') ->
  quiet s s'.
Proof.
  unfold amd_sched_entity_init. cbn. intros Hn H. sinv. constructor; try done.
  intros e'. unfold queue, put_entity. cbn. destruct (decide (e' = e)) as [->|].
  - by rewrite lookup_insert_eq, Hn.
  - by rewrite lookup_insert_ne.
Qed.

Lemma entity_fini_quiet e b s s' : amd_sched_entity_fini e s = Ok (b, s') -> quiet s s'.
Proof.
  unfold amd_sched_entity_fini. intros H. sinv.
  destruct (amd_sched_entity_is_idle v) eqn:Ei; sinv; [|done].
  assert (quiet s s0 /\ s_entities s0 = s_entities s) as [Hq Ht].
  { unfold amd_sched_rq_remove_entity in *. apply modify_Ok in E. subst s0.
    destruct (on_list e s); [by split; [apply quiet_rq|]|done]. }
  etrans; [exact Hq|]. constructor; try done. intros e'. unfold queue. cbn. rewrite Ht.
  destruct (decide (e' = e)) as [->|]; [|by rewrite lookup_delete_ne].
  rewrite lookup_delete_eq, He. unfold amd_sched_entity_is_idle in Ei. by destruct (e_queue v).
Qed.

Lemma order_preserved s s' : sched_step s s' -> order_inv s -> order_inv s'.
Proof.
  intros Hst Ho. destruct Hst as [Hst|t Hpc H ->|t Hpc H ->|j hw Hpc H|Hpc ->].
  - destruct Hst.
    + by apply (quiet_order s); [eapply entity_init_quiet|].
    + by apply (quiet_order s); [eapply entity_fini_quiet|].
    + by eapply job_init_order.
    + by eapply push_order.
    + by eapply select_order.
    + by eapply submit_order.
    + by eapply dequeue_order.
    + by eapply hw_order.
    + by apply (quiet_order s); [eapply signal_other_quiet|].
    + by eapply finish_order.
  - by eapply reset_order.
  - by eapply recovery_order.
  - by eapply recover_order.
  - apply set_pc_order; [by destruct Hpc as [-> | ->]|done| |done]. pose proof (oi_last _ Ho) as Hl. unfold remaining in Hl. by destruct Hpc as [E|E]; rewrite E in Hl.
Qed.

Lemma step_preserves s s' : run_step s s' -> sched_inv s -> sched_inv s'.
Proof.
  intros Hst Hinv. pose proof (order_preserved s s' (step_run s s' Hst) (si_order _ Hinv)) as Ho. destruct Hst.
  - by apply (quiet_inv s); [eapply entity_init_quiet|].
  - by apply (quiet_inv s); [eapply entity_fini_quiet|].
  - by eapply job_init_inv.
  - by eapply push_inv.
  - by eapply select_inv.
  - by eapply submit_inv.
  - by eapply dequeue_inv.
  - by eapply hw_inv.
  - by apply (quiet_inv s); [eapply signal_other_quiet|].
  - by eapply finish_inv.
Qed.

Lemma sched_init_order limit timeout : order_inv (amd_sched_init limit timeout).
Proof.
  constructor; cbn; try done.
  - intros e. apply NoDup_nil_2.
  - intros ev j ?%elem_of_nil. done.
  - apply NoDup_nil_2.
  - intros [|] j l2 E; done.
Qed.
Lemma sched_init_inv limit timeout :
  0 <= limit < 2147483648 -> sched_inv (amd_sched_init limit timeout).
Proof. intros Hl. constructor; cbn; try done; [apply sched_init_order|lia..]. Qed.

(** Over every interleaving with resets, and over normal operation. *)
Lemma reachable_order limit timeout s : rtc sched_step (amd_sched_init limit timeout) s -> order_inv s.
Proof.
  intros Hr. pose proof (sched_init_order limit timeout) as H0. revert H0.
  induction Hr as [|s1 s2 s3 H12 H23 IH]; [done|]. intros H1. apply IH. by eapply order_preserved.
Qed.
Lemma reachable_inv limit timeout s :
  0 <= limit < 2147483648 -> rtc run_step (amd_sched_init limit timeout) s -> sched_inv s.
Proof.
  intros Hl Hr. pose proof (sched_init_inv limit timeout Hl) as H0. revert H0.
  induction Hr as [|s1 s2 s3 H12 H23 IH]; [done|]. intros H1. apply IH.
  by eapply step_preserves.
Qed.
