(* ===== verification/SchedDeps.v ===== *)
(** * Jobs wait for their dependencies

    The dependencies of a job are consumed one by one by
    [amd_sched_entity_pop_job]; an entity whose job waits for a fence is not
    ready until the fence has signaled.  [dep_inv] tracks the consumed ones;
    [grows] relates states in which fences may only have signaled. *)

From stdpp Require Import base numbers list gmap relations.
From S2P Require Import Prelude CMonad Sched SchedRr SchedInv.

(** A dependency [d] of the job [x] holds: it is a fence of the job's own entity
    (ordered by the queue), or the fence to wait for has signaled.  For a job
    of the same scheduler that is its [scheduled] fence. *)
Definition satisfied (s : amd_gpu_scheduler) (x : amd_sched_job) (d : dep_fence) : Prop :=
  dep_context s d = Some (j_context x) \/ dep_signaled s (wait_target d) = true.

Record dep_inv (s : amd_gpu_scheduler) : Prop := {
  di_context : forall j x y, s_jobs s !! j = Some x -> s_entities s !! j_entity x = Some y ->
    j_context x = e_context y;
  di_consumed : forall j x, s_jobs s !! j = Some x ->
    exists consumed, j_all_deps x = consumed ++ j_deps x /\
      forall d, d ∈ consumed -> satisfied s x d \/
        exists y, s_entities s !! j_entity x = Some y /\ e_dependency y = Some (wait_target d);
  di_waiting : forall e y t, s_entities s !! e = Some y -> e_dependency y = Some t ->
    e_queue y <> [];
  di_queue : forall e y j, s_entities s !! e = Some y -> j ∈ e_queue y ->
    exists x, s_jobs s !! j = Some x /\ j_entity x = e;
  di_pc : match s_pc s with
          | Idle | Parked | Recovering _ => True
          | Picked e j =>
              (forall y, s_entities s !! e = Some y -> e_dependency y = None) /\
              exists x, s_jobs s !! j = Some x /\ j_deps x = [] /\
                forall d, d ∈ j_all_deps x -> satisfied s x d
          | Submitted e => forall y, s_entities s !! e = Some y -> e_dependency y = None
          end }.

(** ** States in which only fences signal and queues grow *)

Definition same_job (x x' : amd_sched_job) : Prop :=
  j_entity x' = j_entity x /\ j_all_deps x' = j_all_deps x /\ j_deps x' = j_deps x /\
  j_context x' = j_context x.

Record grows (s s' : amd_gpu_scheduler) : Prop := {
  g_job : forall j x', s_jobs s' !! j = Some x' ->
    exists x, s_jobs s !! j = Some x /\ same_job x x';
  g_job' : forall j x, s_jobs s !! j = Some x -> exists x', s_jobs s' !! j = Some x';
  g_signaled : forall d, dep_signaled s d = true -> dep_signaled s' d = true;
  g_entity : forall e y', s_entities s' !! e = Some y' ->
    exists y, s_entities s !! e = Some y /\ e_context y' = e_context y /\
      e_queue y' = e_queue y /\
      (e_dependency y' = e_dependency y \/
       e_dependency y' = None /\
       forall t, e_dependency y = Some t -> dep_signaled s' t = true);
  g_entity' : forall e y, s_entities s !! e = Some y -> exists y', s_entities s' !! e = Some y';
  g_pc : s_pc s' = s_pc s }.

Lemma grows_same s s' :
  s_jobs s' = s_jobs s -> s_entities s' = s_entities s -> s_done s' = s_done s ->
  s_pc s' = s_pc s -> grows s s'.
Proof.
  intros Hj He Hd Hp. constructor; try done.
  - intros j x'. rewrite Hj. intros Hx. exists x'. by repeat split.
  - intros j x. rewrite Hj. eauto.
  - intros d. unfold dep_signaled. by rewrite Hj, Hd.
  - intros e y'. rewrite He. intros Hy. exists y'. auto.
  - intros e y. rewrite He. eauto.
Qed.

Lemma grows_refl s : grows s s.
Proof. by apply grows_same. Qed.

Lemma grows_trans s1 s2 s3 : grows s1 s2 -> grows s2 s3 -> grows s1 s3.
Proof.
  intros [Aj Aj' As Ae Ae' Ap] [Bj Bj' Bs Be Be' Bp]. constructor.
  - intros j x3 (x2 & H2 & E2 & F2 & G2 & K2)%Bj. apply Aj in H2 as (x1 & H1 & E1 & F1 & G1 & K1).
    exists x1. split; [done|]. repeat split; congruence.
  - intros j x1 (x2 & H2)%Aj'. eauto.
  - auto.
  - intros e y3 (y2 & H2 & C2 & Q2 & D2)%Be. apply Ae in H2 as (y1 & H1 & C1 & Q1 & D1).
    exists y1. split; [done|]. split; [congruence|]. split; [congruence|].
    destruct D2 as [D2|[D2 W2]]; [rewrite D2|].
    + destruct D1 as [D1|[D1 W1]]; [by left|]. right. split; [done|]. auto.
    + right. split; [done|]. destruct D1 as [D1|[D1 W1]]; [by rewrite <- D1|]. auto.
  - intros e y1 (y2 & H2)%Ae'. eauto.
  - congruence.
Qed.

Lemma grows_context s s' d c : grows s s' -> dep_context s d = Some c -> dep_context s' d = Some c.
Proof.
  intros Hg. destruct d as [j|j|]; cbn; [| |done];
    (destruct (s_jobs s !! j) as [x|] eqn:E; [|done]);
    destruct (g_job' _ _ Hg j x E) as [x' E'];
    destruct (g_job _ _ Hg j x' E') as (x0 & E0 & _ & _ & _ & Hc); rewrite E'; cbn;
    intros H; rewrite Hc; congruence.
Qed.

Lemma grows_satisfied s s' x x' d :
  grows s s' -> j_context x' = j_context x -> satisfied s x d -> satisfied s' x' d.
Proof.
  intros Hg Hc [H|H]; [left|right].
  - rewrite Hc. by apply (grows_context s).
  - by apply (g_signaled _ _ Hg).
Qed.

Lemma grows_inv s s' : grows s s' -> dep_inv s -> dep_inv s'.
Proof.
  intros Hg [Hctx Hcon Hwait Hque Hpc]. constructor.
  - intros j x' y' (x & Hx & E & _ & _ & K)%(g_job _ _ Hg) (y & Hy & Cy & _)%(g_entity _ _ Hg).
    rewrite K, Cy. rewrite E in Hy. eauto.
  - intros j x' (x & Hx & E & F & G & K)%(g_job _ _ Hg).
    destruct (Hcon j x Hx) as (consumed & Ec & Hd). exists consumed. rewrite F, G.
    split; [done|]. intros d Hin. destruct (Hd d Hin) as [Hs|(y & Hy & Hdep)].
    { left. by apply (grows_satisfied s s' x). }
    destruct (g_entity' _ _ Hg _ y Hy) as [y' Hy'].
    destruct (g_entity _ _ Hg _ y' Hy') as (y0 & Hy0 & _ & _ & [D|[D W]]);
      rewrite Hy in Hy0; injection Hy0 as <-.
    + right. exists y'. rewrite E, D. done.
    + left. right. auto.
  - intros e y' t (y & Hy & _ & Q & [D|[D _]])%(g_entity _ _ Hg) Ht; [|congruence].
    rewrite Q. rewrite D in Ht. eauto.
  - intros e y' j (y & Hy & _ & Q & _)%(g_entity _ _ Hg) Hj. rewrite Q in Hj.
    destruct (Hque e y j Hy Hj) as (x & Hx & He). destruct (g_job' _ _ Hg j x Hx) as [x' Hx'].
    exists x'. split; [done|]. destruct (g_job _ _ Hg j x' Hx') as (x0 & Hx0 & E & _). congruence.
  - rewrite (g_pc _ _ Hg).
    assert (forall e, (forall y, s_entities s !! e = Some y -> e_dependency y = None) ->
      forall y', s_entities s' !! e = Some y' -> e_dependency y' = None) as Hnone.
    { intros e H y' (y & Hy & _ & _ & [D|[D _]])%(g_entity _ _ Hg); [|done].
      rewrite D. eauto. }
    destruct (s_pc s) as [|e j|e| |]; [done| |by apply Hnone|done..].
    destruct Hpc as [Hn (x & Hx & Hd & Hs)]. split; [by apply Hnone|].
    destruct (g_job' _ _ Hg j x Hx) as [x' Hx']. exists x'.
    destruct (g_job _ _ Hg j x' Hx') as (x0 & Hx0 & E & F & G & K).
    rewrite Hx in Hx0. injection Hx0 as <-. split; [done|]. split; [congruence|].
    intros d. rewrite F. intros Hin. by apply (grows_satisfied s s' x); [| |apply Hs].
Qed.

(** ** Updates that grow *)

Lemma grows_put_job j x x' s :
  s_jobs s !! j = Some x -> same_job x x' ->
  (j_scheduled x = true -> j_scheduled x' = true) ->
  (j_finished x = true -> j_finished x' = true) -> grows s (put_job j x' s).
Proof.
  intros Hx Hsame Hs Hf. constructor; cbn; try done.
  - intros i y. destruct (decide (i = j)) as [->|].
    + rewrite lookup_insert_eq. intros [= <-]. eauto.
    + rewrite lookup_insert_ne by done. intros Hy. exists y. by repeat split.
  - intros i y Hy. destruct (decide (i = j)) as [->|].
    + rewrite lookup_insert_eq. eauto.
    + rewrite lookup_insert_ne by done. eauto.
  - intros [i|i|c n]; cbn; [| |done]; (destruct (decide (i = j)) as [->|];
      [rewrite lookup_insert_eq, Hx; auto|by rewrite lookup_insert_ne]).
  - intros e y Hy. exists y. auto.
  - eauto.
Qed.

(** An update of a job that keeps what the dependencies read. *)
Ltac grow_job := eapply grows_put_job; [eassumption|by repeat split|done|done].

Lemma grows_map_entities (f : amd_sched_entity -> amd_sched_entity) s :
  (forall y, e_context (f y) = e_context y /\ e_queue (f y) = e_queue y /\
     (e_dependency (f y) = e_dependency y \/
      e_dependency (f y) = None /\ forall t, e_dependency y = Some t -> dep_signaled s t = true)) ->
  grows s (set_entities (fmap f) s).
Proof.
  intros Hf. constructor; cbn; try done.
  - intros j x Hx. exists x. by repeat split.
  - eauto.
  - intros e y'. rewrite lookup_fmap. destruct (s_entities s !! e) as [y|]; [|done].
    intros [= <-]. exists y. destruct (Hf y) as (? & ? & ?). auto.
  - intros e y Hy. rewrite lookup_fmap, Hy. cbn. eauto.
Qed.

Lemma grows_wake d s : dep_signaled s d = true -> grows s (wake_entities d s).
Proof.
  intros Hd. apply grows_map_entities. intros y. destruct (decide _) as [E|]; [|auto].
  split; [done|]. split; [done|]. right. split; [done|]. intros t Ht. congruence.
Qed.

Lemma grows_put_entity e y y' s :
  s_entities s !! e = Some y -> e_context y' = e_context y -> e_queue y' = e_queue y ->
  e_dependency y' = e_dependency y -> grows s (put_entity e y' s).
Proof.
  intros Hy Hc Hq Hd. constructor; cbn; try done.
  - intros j x Hx. exists x. by repeat split.
  - eauto.
  - intros e' z. destruct (decide (e' = e)) as [->|].
    + rewrite lookup_insert_eq. intros [= <-]. eauto 6.
    + rewrite lookup_insert_ne by done. intros Hz. exists z. auto.
  - intros e' z Hz. destruct (decide (e' = e)) as [->|].
    + rewrite lookup_insert_eq. eauto.
    + rewrite lookup_insert_ne by done. eauto.
Qed.

Lemma signal_other_grows n s s' : fence_signal_other n s = Ok (tt, s') -> grows s s'.
Proof.
  unfold fence_signal_other. intros H. apply modify_Ok in H. subst s'.
  apply (grows_trans _ (set_done (union {[n]}) s)).
  - constructor; cbn; try done.
    + intros j x Hx. exists x. by repeat split.
    + eauto.
    + intros [j|j|c m]; cbn; [done|done|]. rewrite !bool_decide_eq_true. set_solver.
    + intros e y Hy. exists y. auto.
    + eauto.
  - apply grows_map_entities. intros y.
    destruct (e_dependency y) as [[j|j|c m]|] eqn:E; auto.
    destruct (decide (m = n)) as [->|]; [|auto]. split; [done|]. split; [done|].
    right. split; [done|]. intros t [= <-]. cbn. rewrite bool_decide_eq_true. set_solver.
Qed.

Lemma scheduled_grows j s s' : amd_sched_fence_scheduled j s = Ok (tt, s') -> grows s s'.
Proof.
  unfold amd_sched_fence_scheduled. intros H. sinv.
  eapply grows_trans; [|apply grows_wake; cbn; by rewrite lookup_insert_eq]. grow_job.
Qed.

Lemma process_grows j s s' : amd_sched_process_job j s = Ok (tt, s') -> grows s s'.
Proof.
  unfold amd_sched_process_job, amd_sched_fence_finished. intros H. sinv.
  match goal with Hj : s_jobs (set_count ?f ?t) !! j = Some ?x |- _ =>
    apply (grows_trans _ (set_count f t)); [by apply grows_same|];
    apply (grows_trans _ (put_job j (with_finished x) (set_count f t)));
      [grow_job|];
    apply (grows_trans _ (wake_entities (DepFinished j) (put_job j (with_finished x) (set_count f t))));
      [apply grows_wake; cbn; by rewrite lookup_insert_eq|by apply grows_same]
  end.
Qed.

Lemma job_begin_grows j s s' : amd_sched_job_begin j s = Ok (tt, s') -> grows s s'.
Proof.
  unfold amd_sched_job_begin. intros H. sinv.
  match goal with H : (if ?b then _ else _) _ = _ |- _ => destruct b end; sinv; [|by apply grows_same].
  match goal with |- grows ?s (put_job j (with_tdr true ?x) (set_mirror ?f ?s)) =>
    apply (grows_trans _ (set_mirror f s)); [by apply grows_same|];
    grow_job end.
Qed.

Lemma attach_grows j hw s s' : attach_fence j hw s = Ok (tt, s') -> grows s s'.
Proof.
  unfold attach_fence. destruct hw as [f|]; [|apply process_grows]. intros H. sinv.
  destruct (bool_decide _); sinv.
  - match goal with H : amd_sched_process_job _ _ = _ |- _ => apply process_grows in H end.
    eapply grows_trans; [|done].
    grow_job.
  - grow_job.
Qed.

Lemma finish_grows j s s' : amd_sched_job_finish j s = Ok (tt, s') -> grows s s'.
Proof.
  unfold amd_sched_job_finish. intros H. apply bind_Ok in H as (x & s1 & Hx & H).
  apply the_job_Ok in Hx as [Hx ->]. apply bind_Ok in H as ([] & s2 & H2 & H).
  apply modify_Ok in H2. subst s2. set (s1 := set_mirror _ s) in *.
  rewrite (bind_eval (gets id) _ s1 s1 s1 eq_refl) in H.
  apply bind_Ok in H as ([] & s2 & H2 & H). apply bind_Ok in H as (y & s3 & H3 & H).
  apply the_job_Ok in H3 as [Hy ->]. apply modify_Ok in H. subst s'.
  assert (grows s1 s2) as Hg.
  { destruct (s_timeout s1); [|sinv; by apply grows_refl].
    apply bind_Ok in H2 as ([] & s4 & H4 & H2). apply modify_Ok in H4. subst s4.
    apply (grows_trans _ (put_job j (with_tdr false x) s1)); [grow_job|].
    destruct (s_mirror s1); sinv; [apply grows_refl|]. grow_job. }
  apply (grows_trans _ s1); [by apply grows_same|]. eapply grows_trans; [exact Hg|].
  grow_job.
Qed.

(** ** The dependency loop *)

Lemma signaled_put_job j x x' s d :
  s_jobs s !! j = Some x -> j_scheduled x' = j_scheduled x -> j_finished x' = j_finished x ->
  dep_signaled (put_job j x' s) d = dep_signaled s d.
Proof.
  intros Hx Hs Hf. destruct d as [i|i|]; cbn; [| |done]; (destruct (decide (i = j)) as [->|];
    [rewrite lookup_insert_eq, Hx; auto|by rewrite lookup_insert_ne]).
Qed.

Lemma context_put_job j x x' s d :
  s_jobs s !! j = Some x -> j_context x' = j_context x ->
  dep_context (put_job j x' s) d = dep_context s d.
Proof.
  intros Hx Hc. destruct d as [i|i|]; cbn; [| |done]; (destruct (decide (i = j)) as [->|];
    [rewrite lookup_insert_eq, Hx; cbn; by rewrite Hc|by rewrite lookup_insert_ne]).
Qed.

Lemma satisfied_put_job j x ds s z z' d :
  s_jobs s !! j = Some x -> j_context z' = j_context z -> satisfied s z d ->
  satisfied (put_job j (with_deps ds x) s) z' d.
Proof.
  intros Hx Hc [H|H]; [left|right].
  - by rewrite (context_put_job j x), Hc.
  - by rewrite (signaled_put_job j x).
Qed.

(** The consumed dependencies of a job other than the one being consumed. *)
Lemma consumed_put e j x y ds dep s w z (consumed : list dep_fence) :
  s_jobs s !! j = Some x -> s_entities s !! e = Some y -> e_dependency y = None ->
  j_context z = j_context w -> j_entity z = j_entity w ->
  (forall d, d ∈ consumed -> satisfied s w d \/ exists y, s_entities s !! j_entity w = Some y /\
    e_dependency y = Some (wait_target d)) ->
  forall d, d ∈ consumed -> satisfied (put_job j (with_deps ds x) s) z d \/
    exists y0, <[e:=with_dependency dep y]> (s_entities s) !! j_entity z = Some y0 /\
      e_dependency y0 = Some (wait_target d).
Proof.
  intros Hx Hy Hnone Hc Hez Hd d Hin. destruct (Hd d Hin) as [Hs|(y0 & Hy0 & Hd0)].
  - left. by apply (satisfied_put_job j x ds s w).
  - destruct (decide (j_entity w = e)) as [Ew|]; [rewrite Ew, Hy in Hy0; congruence|].
    right. exists y0. rewrite Hez, lookup_insert_ne by done. done.
Qed.

(** The first dependency of [j] is taken; it is satisfied, or the entity waits
    for it. *)
Lemma consume_inv e j x y d ds dep s :
  dep_inv s -> s_pc s = Idle -> s_jobs s !! j = Some x -> j_entity x = e -> j_deps x = d :: ds ->
  s_entities s !! e = Some y -> e_dependency y = None -> e_queue y <> [] ->
  (satisfied s x d /\ dep = None \/ dep = Some (wait_target d)) ->
  dep_inv (put_entity e (with_dependency dep y) (put_job j (with_deps ds x) s)).
Proof.
  intros [Hctx Hcon Hwait Hque Hpc0] Hpc Hx He Hdeps Hy Hnone Hq Hsat.
  assert (forall z, satisfied (put_entity e (with_dependency dep y) (put_job j (with_deps ds x) s)) z
            = satisfied (put_job j (with_deps ds x) s) z) as Hput by done.
  constructor; cbn.
  - intros i z y' Hz Hy'. destruct (decide (i = j)) as [->|].
    + rewrite lookup_insert_eq in Hz. injection Hz as <-. cbn in *. rewrite He in Hy'.
      rewrite lookup_insert_eq in Hy'. injection Hy' as <-. cbn. rewrite <- He in Hy. eauto.
    + rewrite lookup_insert_ne in Hz by done. destruct (decide (j_entity z = e)) as [Ez|].
      * rewrite Ez, lookup_insert_eq in Hy'. injection Hy' as <-. cbn. rewrite <- Ez in Hy. eauto.
      * rewrite lookup_insert_ne in Hy' by done. eauto.
  - intros i z Hz. rewrite Hput.
    destruct (decide (i = j)) as [->|].
    + rewrite lookup_insert_eq in Hz. injection Hz as <-. cbn [j_all_deps j_deps with_deps].
      destruct (Hcon j x Hx) as (consumed & Ec & Hd). exists (consumed ++ [d]).
      rewrite Ec, Hdeps, <- app_assoc. split; [done|].
      intros d' [Hin|Hin%list_elem_of_singleton]%elem_of_app; [by eapply consumed_put|].
      subst d'. destruct Hsat as [[Hs ->]| ->]; [left; by apply (satisfied_put_job j x ds s x)|right].
      eexists. cbn. rewrite He, lookup_insert_eq. by split.
    + rewrite lookup_insert_ne in Hz by done. destruct (Hcon i z Hz) as (consumed & Ec & Hd).
      exists consumed. split; [done|]. by eapply consumed_put.
  - intros e' y' t. destruct (decide (e' = e)) as [->|].
    + rewrite lookup_insert_eq. by intros [= <-].
    + rewrite lookup_insert_ne by done. eauto.
  - intros e' y' i Hy' Hi.
    assert (exists y0, s_entities s !! e' = Some y0 /\ i ∈ e_queue y0) as (y0 & Hy0 & Hi0).
    { destruct (decide (e' = e)) as [->|].
      - rewrite lookup_insert_eq in Hy'. injection Hy' as <-. eauto.
      - rewrite lookup_insert_ne in Hy' by done. eauto. }
    destruct (Hque e' y0 i Hy0 Hi0) as (z & Hz & Ez). destruct (decide (i = j)) as [->|].
    + rewrite lookup_insert_eq. eexists. split; [done|]. cbn. congruence.
    + rewrite lookup_insert_ne by done. eauto.
  - by rewrite Hpc.
Qed.

Lemma put_entity_twice e y y' s : put_entity e y' (put_entity e y s) = put_entity e y' s.
Proof. unfold put_entity, set_entities. cbn. by rewrite insert_insert_eq. Qed.
Lemma put_entity_id e y s : s_entities s !! e = Some y -> put_entity e y s = s.
Proof. intros H. unfold put_entity, set_entities. rewrite insert_id by done. by destruct s. Qed.
Lemma put_entity_job e y j x s : put_entity e y (put_job j x s) = put_job j x (put_entity e y s).
Proof. done. Qed.

(** One turn of the loop: the fence is one of the entity's own or has signaled,
    or the entity now waits for it. *)
Lemma add_dependency_run e j d ds x y s b s2 :
  s_jobs s !! j = Some x -> e_context y = j_context x ->
  let next dep := put_entity e (with_dependency dep y) (put_job j (with_deps ds x) s) in
  amd_sched_entity_add_dependency_cb e (next (Some d)) = Ok (b, s2) ->
  if b then s2 = next (Some (wait_target d))
  else (exists dep, s2 = next dep) /\ satisfied s x d.
Proof.
  intros Hx Hctx next H. set (s1 := next (Some d)) in *. unfold amd_sched_entity_add_dependency_cb in H.
  rewrite (bind_eval (gets id) _ s1 s1 s1 eq_refl) in H.
  rewrite (bind_eval _ _ _ _ _ (proj2 (the_entity_Ok e s1 (with_dependency (Some d) y) s1)
    (conj (lookup_insert_eq _ _ _) eq_refl))) in H.
  rewrite (bind_eval _ _ _ _ _ eq_refl) in H.
  apply bind_Ok in H as (c & s3 & Hc & H). apply deref_Ok in Hc as [Hc Es3]. subst s3.
  assert (dep_context s d = Some c) as Hc' by (rewrite <- Hc; symmetry; by apply (context_put_job j x)).
  cbn [e_context with_dependency] in H. destruct (Z.eqb_spec c (e_context y)) as [->|_].
  - apply ret_Ok in H as [<- <-]. split; [by exists (Some d)|]. left. by rewrite Hc', Hctx.
  - rewrite (bind_eval _ _ _ _ _ eq_refl) in H. apply ret_Ok in H as [Eb E2].
    assert (dep_signaled s1 (wait_target d) = dep_signaled s (wait_target d)) as Esig
      by (by apply (signaled_put_job j x)).
    unfold s1, next in E2. rewrite put_entity_twice in E2. destruct b; [done|].
    split; [by eexists|]. right. rewrite <- Esig. by destruct (dep_signaled s1 _).
Qed.

Lemma dependency_loop_inv e j deps : forall s x y o s',
  (let s0 := put_entity e (with_dependency None y) s in
   dep_inv s0 /\ s_pc s = Idle) ->
  s_entities s !! e = Some y -> e_queue y <> [] ->
  s_jobs s !! j = Some x -> j_entity x = e -> j_deps x = deps ->
  dependency_loop e j deps s = Ok (o, s') ->
  dep_inv s' /\ s_pc s' = Idle /\
  (o = Some j -> (forall y', s_entities s' !! e = Some y' -> e_dependency y' = None) /\
     exists x', s_jobs s' !! j = Some x' /\ j_deps x' = [] /\
       forall d, d ∈ j_all_deps x' -> satisfied s' x' d).
Proof.
  induction deps as [|d ds IH]; intros s x y o s' [Hs0 Hpc] Hy Hq Hx He Hdeps H;
    cbn [dependency_loop] in H.
  - rewrite (bind_eval _ _ _ _ _ (proj2 (the_entity_Ok e s y s) (conj Hy eq_refl))) in H.
    rewrite (bind_eval _ _ _ _ _ (proj2 (the_job_Ok j s x s) (conj Hx eq_refl))) in H. sinv.
    split; [done|]. split; [done|]. intros _. split.
    { cbn. intros y'. rewrite lookup_insert_eq. by intros [= <-]. }
    exists x. split; [done|]. split; [done|]. intros d Hd.
    destruct (di_consumed _ Hs0 j x Hx) as (consumed & Ec & Hcon).
    rewrite Hdeps, app_nil_r in Ec. rewrite Ec in Hd.
    destruct (Hcon d Hd) as [?|(y' & Hy' & Hd')]; [done|].
    cbn in Hy'. rewrite lookup_insert_eq in Hy'. by injection Hy' as <-.
  - rewrite (bind_eval _ _ _ _ _ (proj2 (the_entity_Ok e s y s) (conj Hy eq_refl))) in H.
    rewrite (bind_eval _ _ _ _ _ (proj2 (the_job_Ok j s x s) (conj Hx eq_refl))) in H.
    rewrite !(bind_eval _ _ _ _ _ eq_refl) in H.
    set (s1 := put_entity e (with_dependency (Some d) y) (put_job j (with_deps ds x) s)) in H.
    apply bind_Ok in H as (b & s2 & H2 & H).
    assert (e_context y = j_context x) as Hctx.
    { symmetry. apply (di_context _ Hs0 j x (with_dependency None y) Hx).
      rewrite He. apply lookup_insert_eq. }
    apply (add_dependency_run e j d ds x y) in H2; [|done|done].
    assert (forall dep, (satisfied s x d /\ dep = None \/ dep = Some (wait_target d)) ->
      dep_inv (put_entity e (with_dependency dep y) (put_job j (with_deps ds x) s))) as Hnext.
    { intros dep Hsat. pose proof (consume_inv e j x (with_dependency None y) d ds dep
        (put_entity e (with_dependency None y) s) Hs0 Hpc Hx He Hdeps
        (lookup_insert_eq _ _ _) eq_refl Hq Hsat) as HI.
      rewrite <- put_entity_job, put_entity_twice in HI. exact HI. }
    destruct b.
    + apply ret_Ok in H as [<- <-]. subst s2. split; [apply Hnext; by right|]. by split.
    + destruct H2 as [[dep ->] Hsat].
      apply (IH _ (with_deps ds x) (with_dependency dep y)) in H; [done| |apply lookup_insert_eq|
        done|apply lookup_insert_eq|done|done].
      split; [|done]. rewrite put_entity_twice. apply (Hnext None). by left.
Qed.

(** ** Steps *)

(** The chosen entity is ready, and only the run queues change. *)
Lemma rq_select_ready k s o s' :
  amd_sched_rq_select_entity k s = Ok (o, s') ->
  grows s s' /\ (o = None -> s' = s) /\ forall e, o = Some e -> ready s e = true.
Proof.
  intros H. destruct (s_rq s !! k) as [rq|] eqn:E.
  - rewrite (rq_select_run k s rq E) in H. injection H as <- <-. split; [|split].
    + unfold selected. destruct (find _ _); [by apply grows_same|apply grows_refl].
    + by intros ->.
    + intros e (pre & post & _ & Hr & _)%find_split. done.
  - unfold amd_sched_rq_select_entity in H.
    by rewrite (bind_eval (gets id) _ s s s eq_refl), E in H.
Qed.

Lemma select_from_ready n : forall k s o s',
  select_from k n s = Ok (o, s') ->
  grows s s' /\ forall e, o = Some e -> ready s e = true.
Proof.
  induction n as [|n IH]; intros k s o s' H; cbn [select_from] in H.
  { apply ret_Ok in H as [<- <-]. split; [apply grows_refl|done]. }
  apply bind_Ok in H as (r & s1 & H1 & H). apply rq_select_ready in H1 as (Hg & Hn & Hr).
  destruct r as [e|]; [apply ret_Ok in H as [<- <-]; auto|].
  rewrite (Hn eq_refl) in *. by apply (IH (S k)).
Qed.

Lemma select_deps s s' :
  s_pc s = Idle -> main_select s = Ok (tt, s') -> dep_inv s -> dep_inv s'.
Proof.
  intros Hpc H Hinv. unfold main_select in H. apply bind_Ok in H as (o & s1 & H1 & H).
  assert (grows s s1 /\ forall e, o = Some e -> ready s e = true) as [Hg Hr].
  { unfold amd_sched_select_entity in H1. rewrite (bind_eval (gets id) _ s s s eq_refl) in H1.
    destruct (amd_sched_ready s); [by apply select_from_ready in H1|].
    apply ret_Ok in H1 as [<- <-]. split; [apply grows_refl|done]. }
  pose proof (grows_inv _ _ Hg Hinv) as Hinv1.
  destruct o as [e|]; [|apply ret_Ok in H as [_ <-]; done].
  apply bind_Ok in H as (oj & s2 & H2 & H). unfold amd_sched_entity_pop_job in H2.
  apply bind_Ok in H2 as (y & s3 & Hy & H2). apply the_entity_Ok in Hy as [Hy Es3]. subst s3.
  destruct (e_queue y) as [|j q] eqn:Eq.
  { apply ret_Ok in H2 as [<- <-]. by apply ret_Ok in H as [_ <-]. }
  apply bind_Ok in H2 as (x & s3 & Hx & H2). apply the_job_Ok in Hx as [Hx Es3]. subst s3.
  assert (e_dependency y = None) as Hnone.
  { specialize (Hr e eq_refl). unfold ready in Hr.
    destruct (g_entity _ _ Hg e y Hy) as (y0 & Hy0 & _ & _ & D). rewrite Hy0 in Hr.
    unfold amd_sched_entity_is_ready in Hr. destruct (e_queue y0); [done|].
    destruct (e_dependency y0); [done|]. destruct D as [->|[-> _]]; done. }
  assert (j_entity x = e) as Hxe.
  { destruct (di_queue _ Hinv1 e y j Hy) as (x' & Hx' & ?); [rewrite Eq; by left|congruence]. }
  destruct (dependency_loop_inv e j (j_deps x) s1 x y oj s2) as (Hi2 & Hp2 & Hj).
  - split; [|by rewrite (g_pc _ _ Hg)].
    replace (with_dependency None y) with y by (destruct y; cbn in Hnone; by rewrite Hnone).
    by rewrite put_entity_id.
  - done.
  - by rewrite Eq.
  - done.
  - done.
  - done.
  - done.
  - destruct oj as [j'|]; [|by apply ret_Ok in H as [_ <-]].
    apply modify_Ok in H. subst s'. apply dependency_loop_quiet in H2 as [_ [|[= ->]]]; [done|].
    destruct Hi2. constructor; try done. exact (Hj eq_refl).
Qed.

Lemma submit_deps e j hw s s' :
  s_pc s = Picked e j -> main_submit e j hw s = Ok (tt, s') -> dep_inv s -> dep_inv s'.
Proof.
  intros Hpc H Hinv. unfold main_submit in H.
  apply bind_Ok in H as ([] & s1 & H1 & H). apply bind_Ok in H as ([] & s2 & H2 & H).
  apply bind_Ok in H as ([] & s3 & H3 & H). apply bind_Ok in H as ([] & t & H4 & H).
  apply bind_Ok in H as ([] & u & H5 & H). apply modify_Ok in H1, H3, H. subst s1 s3 s'.
  apply job_begin_grows in H2. apply scheduled_grows in H4. apply attach_grows in H5.
  assert (grows s u) as Hg.
  { apply (grows_trans _ (set_count (fun c => s32 (c + 1)) s)); [by apply grows_same|].
    eapply grows_trans; [exact H2|]. apply (grows_trans _ (set_log (fun l => l ++ [EvRun j]) s2));
      [by apply grows_same|]. by eapply grows_trans. }
  pose proof (grows_inv _ _ Hg Hinv) as [Hctx Hcon Hwait Hque Hp].
  rewrite (g_pc _ _ Hg), Hpc in Hp. destruct Hp as [Hp _]. by constructor.
Qed.

Lemma dequeue_deps e s s' :
  s_pc s = Submitted e -> main_dequeue e s = Ok (tt, s') -> dep_inv s -> dep_inv s'.
Proof.
  intros Hpc H [Hctx Hcon Hwait Hque Hp]. rewrite Hpc in Hp. unfold main_dequeue in H.
  apply bind_Ok in H as (y & s1 & Hy & H). apply the_entity_Ok in Hy as [Hy ->].
  apply bind_Ok in H as ([] & s2 & H2 & H). apply modify_Ok in H2, H. subst s2 s'.
  constructor; cbn; try done.
  - intros j x z Hx Hz. destruct (decide (j_entity x = e)) as [E|].
    + rewrite E, lookup_insert_eq in Hz. injection Hz as <-. cbn. rewrite <- E in Hy. eauto.
    + rewrite lookup_insert_ne in Hz by done. eauto.
  - intros j x Hx. destruct (Hcon j x Hx) as (consumed & Ec & Hd). exists consumed.
    split; [done|]. intros d Hin. destruct (Hd d Hin) as [?|(z & Hz & Hdz)]; [by left|].
    destruct (decide (j_entity x = e)) as [E|].
    + rewrite E in Hz. rewrite (Hp z Hz) in Hdz. done.
    + right. exists z. by rewrite lookup_insert_ne.
  - intros e' z t. destruct (decide (e' = e)) as [->|].
    + rewrite lookup_insert_eq. intros [= <-]. cbn. by rewrite (Hp y Hy).
    + rewrite lookup_insert_ne by done. eauto.
  - intros e' z j. destruct (decide (e' = e)) as [->|].
    + rewrite lookup_insert_eq. intros [= <-]. cbn. intros Hj. apply (Hque e y j Hy).
      destruct (e_queue y); [done|by right].
    + rewrite lookup_insert_ne by done. eauto.
Qed.

Lemma push_deps j b s s' :
  amd_sched_entity_push_job j s = Ok (b, s') -> dep_inv s -> dep_inv s'.
Proof.
  intros H Hinv. unfold amd_sched_entity_push_job in H.
  apply bind_Ok in H as (added & s1 & Hin & H). unfold amd_sched_entity_in in Hin. sinv.
  destruct (_ <? _)%nat; sinv; [|done].
  rename v0 into x, v1 into y.
  set (e := j_entity x) in *. set (s2 := put_entity e (with_queue (e_queue y ++ [j]) y) s) in *.
  assert (dep_inv s2) as H2.
  { destruct Hinv as [Hctx Hcon Hwait Hque Hp]. constructor; cbn; try done.
    - intros i z w Hz Hw. destruct (decide (j_entity z = e)) as [E|].
      + rewrite E, lookup_insert_eq in Hw. injection Hw as <-. cbn. apply (Hctx i z); [done|by rewrite E].
      + rewrite lookup_insert_ne in Hw by done. eauto.
    - intros i z Hz. destruct (Hcon i z Hz) as (consumed & Ec & Hd). exists consumed.
      split; [done|]. intros d Hin. destruct (Hd d Hin) as [?|(w & Hw & Hdw)]; [by left|right].
      destruct (decide (j_entity z = e)) as [E|].
      + exists (with_queue (e_queue y ++ [j]) y). rewrite E, lookup_insert_eq. split; [done|].
        cbn. rewrite E in Hw. congruence.
      + exists w. by rewrite lookup_insert_ne.
    - intros e' w t. destruct (decide (e' = e)) as [->|].
      + rewrite lookup_insert_eq. intros [= <-]. cbn. by destruct (e_queue y).
      + rewrite lookup_insert_ne by done. eauto.
    - intros e' w i. destruct (decide (e' = e)) as [->|].
      + rewrite lookup_insert_eq. intros [= <-]. cbn.
        intros [Hi|Hi%list_elem_of_singleton]%elem_of_app; [eauto|subst i; eauto].
      + rewrite lookup_insert_ne by done. eauto.
    - assert (forall e', (forall w, s_entities s !! e' = Some w -> e_dependency w = None) ->
        forall w, <[e:=with_queue (e_queue y ++ [j]) y]> (s_entities s) !! e' = Some w ->
          e_dependency w = None) as Hn.
      { intros e' Hn w. destruct (decide (e' = e)) as [->|].
        - rewrite lookup_insert_eq. intros [= <-]. cbn. eauto.
        - rewrite lookup_insert_ne by done. eauto. }
      destruct (s_pc s) as [|e' j'|e'| |]; [done| |by apply Hn|done..].
      destruct Hp as [Hn' Hex]. split; [by apply Hn|done]. }
  apply (grows_inv s2); [|done].
  match goal with E : (if ?b then _ else _) s2 = Ok (_, s1) |- _ =>
    assert (s1 = s2 \/ exists k f, s1 = set_rq k f s2) as Hs1 end.
  { destruct (_ =? _)%nat; sinv; [|by left]. unfold amd_sched_rq_add_entity in *. sinv.
    destruct (on_list _ _); eauto. }
  by destruct Hs1 as [->|(k & f & ->)]; apply grows_same.
Qed.

Lemma entity_init_deps e k capacity ctx r s s' :
  s_entities s !! e = None -> (forall j x, s_jobs s !! j = Some x -> j_entity x <> e) ->
  amd_sched_entity_init e k capacity ctx 0 s = Ok (r, s') -> dep_inv s -> dep_inv s'.
Proof.
  intros Hn Hno H [Hctx Hcon Hwait Hque Hp]. unfold amd_sched_entity_init in H. cbn in H. sinv.
  constructor; cbn; try done.
  - intros j x y Hx. rewrite lookup_insert_ne by (intros E; by destruct (Hno j x Hx)). eauto.
  - intros j x Hx. rewrite lookup_insert_ne by (intros E; by destruct (Hno j x Hx)). eauto.
  - intros e' y t. destruct (decide (e' = e)) as [->|].
    + rewrite lookup_insert_eq. by intros [= <-].
    + rewrite lookup_insert_ne by done. eauto.
  - intros e' y j. destruct (decide (e' = e)) as [->|].
    + rewrite lookup_insert_eq. intros [= <-]. by intros ?%elem_of_nil.
    + rewrite lookup_insert_ne by done. eauto.
  - assert (forall e', (forall w, s_entities s !! e' = Some w -> e_dependency w = None) ->
      forall w, <[e:=Entity k capacity [] 0 ctx None]> (s_entities s) !! e' = Some w ->
        e_dependency w = None) as Hd.
    { intros e' Hw w. destruct (decide (e' = e)) as [->|].
      - rewrite lookup_insert_eq. by intros [= <-].
      - rewrite lookup_insert_ne by done. eauto. }
    destruct (s_pc s) as [|e' j'|e'| |]; [done| |by apply Hd|done..].
    destruct Hp as [Hn' Hex]. split; [by apply Hd|done].
Qed.

Lemma entity_fini_deps e b s s' :
  amd_sched_entity_fini e s = Ok (b, s') -> dep_inv s -> dep_inv s'.
Proof.
  intros H [Hctx Hcon Hwait Hque Hp]. unfold amd_sched_entity_fini in H.
  apply bind_Ok in H as (y & s1 & Hy & H). apply the_entity_Ok in Hy as [Hy ->].
  destruct (amd_sched_entity_is_idle y) eqn:Ei; [|apply ret_Ok in H as [_ <-]; by constructor].
  apply bind_Ok in H as ([] & s2 & H2 & H). apply bind_Ok in H as ([] & s3 & H3 & H).
  apply ret_Ok in H as [_ <-]. unfold amd_sched_rq_remove_entity in H2.
  apply modify_Ok in H2, H3. subst s3.
  assert (s_jobs s2 = s_jobs s /\ s_entities s2 = s_entities s /\ s_done s2 = s_done s /\
          s_pc s2 = s_pc s) as (Ej & Ee & Ed & Ep) by (subst s2; by destruct (on_list e s)).
  assert (e_queue y = []) as Hq
    by (unfold amd_sched_entity_is_idle in Ei; by destruct (e_queue y)).
  assert (forall e' y', delete e (s_entities s) !! e' = Some y' -> s_entities s !! e' = Some y')
    as Hdel by (intros e' y' [_ ?]%lookup_delete_Some; done).
  assert (forall z, satisfied (set_entities (delete e) s2) z = satisfied s z) as Hsat.
  { intros z. unfold satisfied, dep_context, dep_signaled. cbn. by rewrite Ej, Ed. }
  constructor; cbn; rewrite ?Ej, ?Ee, ?Ep.
  - eauto.
  - intros j x Hx. destruct (Hcon j x Hx) as (consumed & Ec & Hd). exists consumed.
    split; [done|]. rewrite Hsat. intros d Hin.
    destruct (Hd d Hin) as [?|(z & Hz & Hdz)]; [by left|right]. exists z. split; [|done].
    rewrite lookup_delete_ne; [done|]. intros E. apply (Hwait _ z _ Hz Hdz).
    rewrite <- E, Hy in Hz. by injection Hz as <-.
  - eauto.
  - eauto.
  - destruct (s_pc s) as [|e' j'|e'| |]; [done| |eauto|done..].
    destruct Hp as [Hn (x & Hx & Hd & Hs)]. split; [eauto|]. exists x. by rewrite Hsat.
Qed.

Lemma job_init_deps alloc j e deps r s s' :
  s_jobs s !! j = None -> amd_sched_job_init alloc j e deps s = Ok (r, s') ->
  dep_inv s -> dep_inv s'.
Proof.
  intros Hn H Hinv. unfold amd_sched_job_init, amd_sched_fence_create in H.
  destruct alloc; sinv; [|done].
  match goal with Hy : s_entities s !! e = Some ?y |- dep_inv (put_job j ?z (put_entity e ?y' s)) =>
    assert (dep_inv (put_entity e y' s)) as [Hctx Hcon Hwait Hque Hp]
      by (apply (grows_inv s); [by apply (grows_put_entity e y)|done]);
    assert (s_entities (put_entity e y' s) !! e = Some y') as Hy' by apply lookup_insert_eq;
    assert (e_context y' = e_context y) as Hc by done;
    set (x := z) in *; set (t := put_entity e y' s) in * end.
  assert (s_jobs t !! j = None) as Hnt by done. clearbody t. clear Hn.
  assert (forall z d, satisfied t z d -> satisfied (put_job j x t) z d) as Hmono.
  { intros z d [H|H]; [left|right].
    - destruct d as [i|i|]; cbn in *; [| |done]; (destruct (decide (i = j)) as [->|];
        [by rewrite Hnt in H|by rewrite lookup_insert_ne]).
    - destruct d as [i|i|]; cbn in *; [| |done]; (destruct (decide (i = j)) as [->|];
        [by rewrite Hnt in H|by rewrite lookup_insert_ne]). }
  constructor; cbn; try done.
  - intros i z y. destruct (decide (i = j)) as [->|].
    + rewrite lookup_insert_eq. intros [= <-] Hz. cbn in *. rewrite Hy' in Hz. by injection Hz as <-.
    + rewrite lookup_insert_ne by done. eauto.
  - intros i z. destruct (decide (i = j)) as [->|].
    + rewrite lookup_insert_eq. intros [= <-]. exists []. split; [done|]. by intros d ?%elem_of_nil.
    + rewrite lookup_insert_ne by done. intros Hz.
      destruct (Hcon i z Hz) as (consumed & Ec & Hd). exists consumed. split; [done|].
      intros d Hin. destruct (Hd d Hin) as [?|?]; auto.
  - intros e' y i Hy Hi. destruct (Hque e' y i Hy Hi) as (z & Hz & Ez). exists z.
    rewrite lookup_insert_ne by (intros ->; congruence). done.
  - destruct (s_pc t) as [|e' j'|e'| |]; [done| |done..].
    destruct Hp as [Hn' (z & Hz & Hd & Hs)]. split; [done|]. exists z.
    rewrite lookup_insert_ne by (intros ->; congruence). auto.
Qed.

Lemma hw_grows j s s' : hw_fence_signal j s = Ok (tt, s') -> grows s s'.
Proof.
  unfold hw_fence_signal. intros H. apply bind_Ok in H as (x & s1 & Hx & H).
  apply the_job_Ok in Hx as [Hx ->]. apply bind_Ok in H as (f & s1 & Hf & H).
  apply deref_Ok in Hf as [Hf Es]. subst s1.
  apply bind_Ok in H as ([] & t & H1 & H). apply bind_Ok in H as ([] & u & H2 & H).
  apply modify_Ok in H2. subst u.
  assert (s_jobs t !! j = Some x) as Hxt
    by (unfold fence_signal_other in H1; apply modify_Ok in H1; by subst t).
  apply signal_other_grows in H1. apply process_grows in H.
  eapply grows_trans; [exact H1|]. eapply grows_trans; [|exact H]. grow_job.
Qed.

(** *** Resets *)

Lemma set_pc_deps pc s : resting pc -> dep_inv s -> dep_inv (set_pc pc s).
Proof. intros Hp []. constructor; [done..|]. by destruct pc. Qed.
Lemma reset_grows s s' : amd_sched_hw_job_reset s = Ok (tt, s') -> grows s s'.
Proof.
  unfold amd_sched_hw_job_reset. rewrite (bind_eval (gets id) _ s s s eq_refl). intros H.
  apply bind_Ok in H as ([] & s1 & H1 & H). apply modify_Ok in H. subst s'. apply (grows_trans _ s1); [|by apply grows_same].
  unfold id in H1. remember (reverse (s_mirror s)) as l eqn:El. clear El. revert s H1. induction l as [|j l IH]; intros s0 H; cbn [reset_loop] in H; [sinv; apply grows_refl|].
  sinv. match goal with H : (if ?b then _ else _) _ = _ |- _ => destruct b end; sinv; [|by apply IH].
  eapply grows_trans; [|by apply IH]. grow_job.
Qed.
Lemma recovery_begin_grows s s' : recovery_begin s = Ok (tt, s') -> grows s s'.
Proof.
  unfold recovery_begin. rewrite (bind_eval (gets id) _ s s s eq_refl), (bind_eval _ _ _ _ _ eq_refl). intros H.
  apply (grows_trans _ (set_log (fun l => l ++ [EvRecovery]) s)); [by apply grows_same|].
  destruct (s_mirror _); [sinv; apply grows_refl|]. destruct (s_timeout _); sinv; [grow_job|apply grows_refl].
Qed.
Lemma recover_deps j hw s s' : recovery_turn j hw s = Ok (tt, s') -> dep_inv s -> dep_inv s'.
Proof.
  intros H Hinv. unfold recovery_turn, recover_job in H. rewrite (bind_eval (gets id) _ s s s eq_refl) in H. destruct (bool_decide _); [|done].
  rewrite !(bind_eval _ _ _ _ _ eq_refl) in H. apply attach_grows in H. apply (grows_inv _ _ H).
  match goal with |- dep_inv (set_count _ (set_log _ (set_pc ?pc _))) => apply (grows_inv (set_pc pc s)); [by apply grows_same|] end.
  by apply set_pc_deps.
Qed.

Lemma deps_preserved s s' : sched_step s s' -> dep_inv s -> dep_inv s'.
Proof.
  intros Hst Hinv. destruct Hst as [Hst|t Hpc H ->|t Hpc H ->|j hw Hpc H|Hpc ->].
  - destruct Hst.
    + by eapply entity_init_deps.
    + by eapply entity_fini_deps.
    + by eapply job_init_deps.
    + by eapply push_deps.
    + by eapply select_deps.
    + by eapply submit_deps.
    + by eapply dequeue_deps.
    + by apply (grows_inv s); [eapply hw_grows|].
    + by apply (grows_inv s); [eapply signal_other_grows|].
    + by apply (grows_inv s); [eapply finish_grows|].
  - apply set_pc_deps; [done|]. by apply (grows_inv s); [eapply reset_grows|].
  - apply set_pc_deps; [done|]. by apply (grows_inv s); [eapply recovery_begin_grows|].
  - by eapply recover_deps.
  - by apply set_pc_deps.
Qed.

Lemma reachable_deps limit timeout s :
  rtc sched_step (amd_sched_init limit timeout) s -> dep_inv s.
Proof.
  intros Hr. assert (dep_inv (amd_sched_init limit timeout)) as H0 by (by constructor).
  revert H0. induction Hr as [|s1 s2 s3 H12 H23 IH]; [done|]. intros H1. apply IH.
  by eapply deps_preserved.
Qed.
