(* ===== verification/SchedSpec.v ===== *)
(** * What the GPU scheduler promises

    Entities with queued jobs stay on their run queue ([rq_inv]), and the
    theorems about all reachable states: submission order, the hardware limit,
    dependencies, progress; and what a reset does. *)

From stdpp Require Import base numbers list gmap relations.
From S2P Require Import Prelude CMonad Sched SchedRr SchedInv SchedDeps.

(** ** Run queues *)

Record rq_inv (s : amd_gpu_scheduler) : Prop := {
  r_length : length (s_rq s) = AMD_SCHED_MAX_PRIORITY;
  r_wf : forall k rq, s_rq s !! k = Some rq -> rq_wf rq;
  r_listed : forall k rq e, s_rq s !! k = Some rq -> e ∈ rq_entities rq ->
    exists y, s_entities s !! e = Some y /\ e_rq y = k;
  r_queued : forall e y, s_entities s !! e = Some y ->
    (e_rq y < AMD_SCHED_MAX_PRIORITY)%nat /\
    (e_queue y <> [] -> exists rq, s_rq s !! e_rq y = Some rq /\ e ∈ rq_entities rq) }.

(** States with the same run queues, whose job queues may have shrunk. *)
Record same_rq (s s' : amd_gpu_scheduler) : Prop := {
  sr_rq : s_rq s' = s_rq s;
  sr_entity : forall e y', s_entities s' !! e = Some y' ->
    exists y, s_entities s !! e = Some y /\ e_rq y' = e_rq y /\ (e_queue y = [] -> e_queue y' = []);
  sr_entity' : forall e y, s_entities s !! e = Some y ->
    exists y', s_entities s' !! e = Some y' /\ e_rq y' = e_rq y }.

Lemma same_rq_refl s s' : s_rq s' = s_rq s -> s_entities s' = s_entities s -> same_rq s s'.
Proof. intros Hr He. constructor; [done|..]; rewrite He; eauto. Qed.

Lemma same_rq_trans s1 s2 s3 : same_rq s1 s2 -> same_rq s2 s3 -> same_rq s1 s3.
Proof.
  intros [A1 A2 A3] [B1 B2 B3]. constructor; [congruence|..].
  - intros e y3 (y2 & H2 & R2 & Q2)%B2. apply A2 in H2 as (y1 & H1 & R1 & Q1).
    exists y1. split; [done|]. split; [congruence|]. auto.
  - intros e y1 (y2 & H2 & R2)%A3. apply B3 in H2 as (y3 & H3 & R3). exists y3.
    split; [done|congruence].
Qed.

Lemma same_rq_put e y y' s :
  s_entities s !! e = Some y -> e_rq y' = e_rq y -> (e_queue y = [] -> e_queue y' = []) ->
  same_rq s (put_entity e y' s).
Proof.
  intros Hy Hr Hq. constructor; cbn; [done|..]; intros e' z; destruct (decide (e' = e)) as [->|];
    rewrite ?lookup_insert_eq, ?lookup_insert_ne by done; try eauto.
  - intros [= <-]. eauto.
  - intros Hz. rewrite Hy in Hz. injection Hz as <-. eauto.
Qed.

Lemma same_rq_map (f : amd_sched_entity -> amd_sched_entity) s :
  (forall y, e_rq (f y) = e_rq y /\ e_queue (f y) = e_queue y) ->
  same_rq s (set_entities (fmap f) s).
Proof.
  intros Hf. constructor; cbn; [done|..]; intros e y; rewrite lookup_fmap.
  - destruct (s_entities s !! e) as [z|]; [|done]. intros [= <-]. exists z.
    destruct (Hf z) as [-> ->]. auto.
  - intros ->. cbn. exists (f y). split; [done|]. apply Hf.
Qed.

Lemma same_rq_inv s s' : same_rq s s' -> rq_inv s -> rq_inv s'.
Proof.
  intros [Hr He He'] [Hl Hw Hls Hq]. constructor; rewrite ?Hr; [done|done|..].
  - intros k rq e Hk Hin. destruct (Hls k rq e Hk Hin) as (y & Hy & Ek).
    destruct (He' e y Hy) as (y' & Hy' & E). exists y'. split; [done|congruence].
  - intros e y' (y & Hy & Ek & Hq')%He. rewrite Ek. destruct (Hq e y Hy) as [Hk Hne].
    split; [done|]. intros H. apply Hne. tauto.
Qed.

Ltac same_rq_id := by apply same_rq_refl.
Ltac same_rq_wake := apply same_rq_map; intros ?y; by destruct (decide _).

Lemma process_rq j s s' : amd_sched_process_job j s = Ok (tt, s') -> same_rq s s'.
Proof.
  unfold amd_sched_process_job, amd_sched_fence_finished. intros H. sinv.
  match goal with |- same_rq s (set_log ?g (wake_entities ?d ?t)) =>
    apply (same_rq_trans _ t); [same_rq_id|];
    apply (same_rq_trans _ (wake_entities d t)); [same_rq_wake|same_rq_id] end.
Qed.

Lemma attach_rq j hw s s' : attach_fence j hw s = Ok (tt, s') -> same_rq s s'.
Proof.
  unfold attach_fence. destruct hw as [f|]; [|apply process_rq]. intros H. sinv.
  destruct (bool_decide _); sinv; [|same_rq_id].
  match goal with H : amd_sched_process_job _ _ = _ |- _ => apply process_rq in H end.
  eapply same_rq_trans; [|done]. same_rq_id.
Qed.

Lemma submit_rq e j hw s s' : main_submit e j hw s = Ok (tt, s') -> same_rq s s'.
Proof.
  intros H. unfold main_submit in H.
  apply bind_Ok in H as ([] & s1 & H1 & H). apply bind_Ok in H as ([] & s2 & H2 & H).
  apply bind_Ok in H as ([] & s3 & H3 & H). apply bind_Ok in H as ([] & t & H4 & H).
  apply bind_Ok in H as ([] & u & H5 & H). apply modify_Ok in H1, H3, H. subst s1 s3 s'.
  apply attach_rq in H5.
  assert (same_rq s s2) as Hs2.
  { unfold amd_sched_job_begin in H2. sinv.
    match goal with H : (if ?b then _ else _) _ = _ |- _ => destruct b end; sinv; same_rq_id. }
  assert (same_rq (set_log (fun l => l ++ [EvRun j]) s2) t) as Ht.
  { unfold amd_sched_fence_scheduled in H4. sinv.
    match goal with |- same_rq ?a (wake_entities ?d ?b) =>
      apply (same_rq_trans _ b); [same_rq_id|same_rq_wake] end. }
  apply (same_rq_trans _ u); [|same_rq_id].
  eapply same_rq_trans; [exact Hs2|]. eapply same_rq_trans; [|exact H5].
  eapply same_rq_trans; [|exact Ht]. same_rq_id.
Qed.

Lemma add_dependency_rq e s b s' :
  amd_sched_entity_add_dependency_cb e s = Ok (b, s') -> same_rq s s'.
Proof.
  unfold amd_sched_entity_add_dependency_cb. intros H. sinv.
  destruct (_ =? _); sinv; [same_rq_id|]. by eapply same_rq_put.
Qed.

Lemma dependency_loop_rq e j deps : forall s o s',
  dependency_loop e j deps s = Ok (o, s') -> same_rq s s'.
Proof.
  induction deps as [|d ds IH]; intros s o s' H; cbn [dependency_loop] in H; sinv.
  - by eapply same_rq_put.
  - assert (same_rq s (put_entity e (with_dependency (Some d) v) (put_job j (with_deps ds v0) s))).
    { eapply same_rq_trans; [|by eapply same_rq_put]. same_rq_id. }
    match goal with E : amd_sched_entity_add_dependency_cb _ _ = _ |- _ =>
      apply add_dependency_rq in E end.
    match goal with H : context [if ?b then _ else _] |- _ => destruct b end.
    + sinv. by eapply same_rq_trans.
    + apply IH in H. eapply same_rq_trans; [done|]. by eapply same_rq_trans.
Qed.

Lemma rq_select_inv k s o s' :
  amd_sched_rq_select_entity k s = Ok (o, s') -> rq_inv s -> rq_inv s'.
Proof.
  intros H Hinv. destruct (s_rq s !! k) as [rq|] eqn:E.
  2: { unfold amd_sched_rq_select_entity in H.
       by rewrite (bind_eval (gets id) _ s s s eq_refl), E in H. }
  rewrite (rq_select_run k s rq E) in H. injection H as <- <-.
  destruct (find (ready s) (rotation rq)) as [x|] eqn:Ex; [|done].
  destruct (r_wf _ Hinv k rq E) as [Hnd Hcur].
  assert (x ∈ rq_entities rq) as Hx.
  { rewrite <- (rotation_perm rq Hcur Hnd). destruct (find_split _ _ _ Ex) as (p & q & -> & _).
    apply elem_of_app. right. by left. }
  assert (forall i rq', s_rq (selected k (Some x) s) !! i = Some rq' ->
    exists rq0, s_rq s !! i = Some rq0 /\ rq_entities rq' = rq_entities rq0 /\ rq_wf rq') as Hback.
  { intros i rq'. cbn. destruct (decide (i = k)) as [->|].
    - rewrite list_lookup_alter_eq, E. intros [= <-]. exists rq. split; [done|]. split; [done|].
      split; [done|]. by intros c [= <-].
    - rewrite list_lookup_alter_ne by done. intros Hi. exists rq'. split; [done|]. split; [done|].
      by apply (r_wf _ Hinv i). }
  destruct Hinv as [Hl Hw Hls Hq]. constructor.
  - cbn. by rewrite length_alter.
  - intros i rq' (rq0 & _ & _ & ?)%Hback. done.
  - intros i rq' e (rq0 & Hi & Ee & _)%Hback Hin. rewrite Ee in Hin. by apply (Hls i rq0).
  - intros e y Hy. destruct (Hq e y Hy) as [Hk Hne]. split; [done|].
    intros (rq0 & Hi & Hin)%Hne. cbn. destruct (decide (e_rq y = k)) as [Ek|].
    + rewrite Ek in *. rewrite list_lookup_alter_eq, Hi. cbn. eexists. split; [done|]. done.
    + rewrite list_lookup_alter_ne by done. eauto.
Qed.

Lemma select_from_rq n : forall k s o s',
  select_from k n s = Ok (o, s') -> rq_inv s -> rq_inv s'.
Proof.
  induction n as [|n IH]; intros k s o s' H Hinv; cbn [select_from] in H.
  { by apply ret_Ok in H as [_ <-]. }
  apply bind_Ok in H as (r & s1 & H1 & H). pose proof (rq_select_inv _ _ _ _ H1 Hinv) as Hinv1.
  destruct r; [by apply ret_Ok in H as [_ <-]|]. by eapply IH.
Qed.

Lemma main_select_rq s s' : main_select s = Ok (tt, s') -> rq_inv s -> rq_inv s'.
Proof.
  intros H Hinv. unfold main_select in H. apply bind_Ok in H as (o & s1 & H1 & H).
  assert (rq_inv s1) as Hinv1.
  { unfold amd_sched_select_entity in H1. rewrite (bind_eval (gets id) _ s s s eq_refl) in H1.
    destruct (amd_sched_ready s); [by eapply select_from_rq|by apply ret_Ok in H1 as [_ <-]]. }
  destruct o as [e|]; [|by apply ret_Ok in H as [_ <-]].
  apply bind_Ok in H as (oj & s2 & H2 & H).
  assert (same_rq s1 s2) as Hs.
  { unfold amd_sched_entity_pop_job in H2. sinv. destruct (e_queue v); sinv; [same_rq_id|].
    by eapply dependency_loop_rq. }
  destruct oj as [j|]; [apply modify_Ok in H; subst s'|apply ret_Ok in H as [_ <-]].
  - apply (same_rq_inv s1); [|done]. eapply same_rq_trans; [exact Hs|same_rq_id].
  - by apply (same_rq_inv s1).
Qed.

Lemma on_list_spec e s :
  on_list e s = true <-> exists k rq, s_rq s !! k = Some rq /\ e ∈ rq_entities rq.
Proof.
  unfold on_list. rewrite existsb_exists. split.
  - intros (rq & Hin & He). apply bool_decide_eq_true in He.
    apply list_elem_of_In, list_elem_of_lookup in Hin as [k Hk]. eauto.
  - intros (k & rq & Hk & He). exists rq. split; [|by apply bool_decide_eq_true].
    apply list_elem_of_In. by eapply list_elem_of_lookup_2.
Qed.

(** Linking an entity whose queue has become non-empty. *)
Lemma put_entity_cases e x s e' z :
  s_entities (put_entity e x s) !! e' = Some z ->
  e' = e /\ z = x \/ e' <> e /\ s_entities s !! e' = Some z.
Proof.
  cbn. destruct (decide (e' = e)) as [->|].
  - rewrite lookup_insert_eq. intros [= <-]. auto.
  - rewrite lookup_insert_ne by done. auto.
Qed.

(** Changing an entity's queue does not move it to another run queue. *)
Lemma listed_put e y q s k rq e' :
  rq_inv s -> s_entities s !! e = Some y -> s_rq s !! k = Some rq -> e' ∈ rq_entities rq ->
  exists z, s_entities (put_entity e (with_queue q y) s) !! e' = Some z /\ e_rq z = k.
Proof.
  intros Hinv Hy Hk Hin. destruct (r_listed _ Hinv k rq e' Hk Hin) as (z & Hz & Ez).
  cbn. destruct (decide (e' = e)) as [->|].
  - rewrite lookup_insert_eq. exists (with_queue q y). split; [done|]. cbn. congruence.
  - rewrite lookup_insert_ne by done. eauto.
Qed.

Lemma link_inv e y q s :
  rq_inv s -> s_entities s !! e = Some y -> q <> [] ->
  forall s', amd_sched_rq_add_entity (e_rq y) e (put_entity e (with_queue q y) s) = Ok (tt, s') ->
  rq_inv s'.
Proof.
  intros Hinv Hy Hq s' H. unfold amd_sched_rq_add_entity in H. apply modify_Ok in H.
  set (s1 := put_entity e (with_queue q y) s) in *.
  pose proof (put_entity_cases e (with_queue q y) s) as Hent. fold s1 in Hent.
  assert (forall k rq e', s_rq s !! k = Some rq -> e' ∈ rq_entities rq ->
    exists z, s_entities s1 !! e' = Some z /\ e_rq z = k) as Hls
    by (intros k rq e' ??; by eapply listed_put).
  destruct Hinv as [Hl Hw Hls0 Hqs]. destruct (Hqs e y Hy) as [Hk _].
  destruct (on_list e s1) eqn:Eo.
  - subst s'. constructor; [done|done|done|].
    intros e' z [[-> ->]|[_ Hz]]%Hent; [|eauto]. split; [done|]. intros _.
    apply on_list_spec in Eo as (k & rq & Hrq & Hin).
    destruct (Hls0 k rq e Hrq Hin) as (z & Hz & Ez). exists rq. split; [|done].
    cbn. rewrite Hy in Hz. injection Hz as <-. by rewrite Ez.
  - subst s'. assert (forall k rq, s_rq s !! k = Some rq -> e ∉ rq_entities rq) as Hno.
    { intros k rq Hrq Hin. enough (on_list e s1 = true) by congruence.
      apply on_list_spec. eauto. }
    assert (is_Some (s_rq s !! e_rq y)) as [rq0 Hrq0] by (apply lookup_lt_is_Some; by rewrite Hl).
    constructor; cbn; [by rewrite length_alter|..].
    + intros k rq. destruct (decide (k = e_rq y)) as [->|].
      * rewrite list_lookup_alter_eq, Hrq0. intros [= <-]. destruct (Hw _ _ Hrq0) as [Hnd Hc].
        split; cbn.
        -- apply NoDup_app. split; [done|]. split; [|apply NoDup_singleton].
           intros i Hi Hie%list_elem_of_singleton. subst. by apply (Hno _ _ Hrq0).
        -- intros c Hcc. apply elem_of_app. left. auto.
      * rewrite list_lookup_alter_ne by done. eauto.
    + intros k rq e'. destruct (decide (k = e_rq y)) as [->|].
      * rewrite list_lookup_alter_eq, Hrq0. intros [= <-]. cbn.
        intros [Hin|Hin%list_elem_of_singleton]%elem_of_app; [by apply (Hls _ rq0)|].
        subst e'. exists (with_queue q y). split; [apply lookup_insert_eq|done].
      * rewrite list_lookup_alter_ne by done. apply Hls.
    + intros e' z [[-> ->]|[_ Hz]]%Hent.
      * split; [done|]. intros _. exists (Rq (rq_entities rq0 ++ [e]) (rq_current rq0)). cbn.
        rewrite list_lookup_alter_eq, Hrq0. split; [done|]. apply elem_of_app. right. by left.
      * destruct (Hqs e' z Hz) as [Hkz Hne]. split; [done|]. intros (rq & Hrq & Hin)%Hne.
        destruct (decide (e_rq z = e_rq y)) as [Ezy|].
        -- rewrite Ezy, list_lookup_alter_eq, Hrq0. eexists. split; [done|]. cbn.
           rewrite Ezy, Hrq0 in Hrq. injection Hrq as <-. apply elem_of_app. by left.
        -- rewrite list_lookup_alter_ne by done. eauto.
Qed.

Lemma push_rq j b s s' : amd_sched_entity_push_job j s = Ok (b, s') -> rq_inv s -> rq_inv s'.
Proof.
  intros H Hinv. unfold amd_sched_entity_push_job in H.
  apply bind_Ok in H as (added & s1 & Hin & H).
  assert (rq_inv s1) as H1.
  { unfold amd_sched_entity_in in Hin. apply bind_Ok in Hin as (x & t & Hx & Hin).
    apply the_job_Ok in Hx as [_ ->]. apply bind_Ok in Hin as (y & t & Hy & Hin).
    apply the_entity_Ok in Hy as [Hy ->].
    destruct (_ <? _)%nat; [|by apply ret_Ok in Hin as [_ <-]].
    apply bind_Ok in Hin as ([] & t & Ht & Hin). apply modify_Ok in Ht. subst t.
    apply bind_Ok in Hin as ([] & t & Ht & Hin). apply ret_Ok in Hin as [_ <-].
    destruct (Nat.eqb_spec (length (e_queue y ++ [j])) 1) as [_|Hne].
    - eapply (link_inv (j_entity x) y (e_queue y ++ [j]) s Hinv Hy); [|exact Ht].
      by destruct (e_queue y).
    - apply ret_Ok in Ht as [_ <-]. apply (same_rq_inv s); [|done].
      eapply same_rq_put; [done|done|]. intros Hnil. rewrite Hnil in Hne. done. }
  destruct added; sinv; [|done]. apply (same_rq_inv s1); [same_rq_id|done].
Qed.

Lemma fini_rq e b s s' : amd_sched_entity_fini e s = Ok (b, s') -> rq_inv s -> rq_inv s'.
Proof.
  intros H Hinv. unfold amd_sched_entity_fini in H.
  apply bind_Ok in H as (y & s1 & Hy & H). apply the_entity_Ok in Hy as [Hy ->].
  destruct (amd_sched_entity_is_idle y); [|by apply ret_Ok in H as [_ <-]].
  apply bind_Ok in H as ([] & s2 & H2 & H). apply bind_Ok in H as ([] & s3 & H3 & H).
  apply ret_Ok in H as [_ <-]. unfold amd_sched_rq_remove_entity in H2.
  apply modify_Ok in H2, H3. subst s3. destruct Hinv as [Hl Hw Hls Hqs].
  set (f := fun rq => Rq (filter (fun x => x <> e) (rq_entities rq))
    (if decide (rq_current rq = Some e) then None else rq_current rq)) in *.
  assert (s_entities s2 = s_entities s) as Ee by (subst s2; by destruct (on_list e s)).
  (* after the removal, run queue [k] is [f rq] or unchanged, and [e] is nowhere *)
  assert (length (s_rq s2) = length (s_rq s) /\ forall k rq', s_rq s2 !! k = Some rq' ->
    exists rq, s_rq s !! k = Some rq /\ rq_wf rq' /\ e ∉ rq_entities rq' /\
      forall x, x ∈ rq_entities rq' -> x ∈ rq_entities rq) as [El Hback].
  { subst s2. destruct (on_list e s) eqn:Eo.
    - cbn. split; [by rewrite length_alter|]. intros k rq'. destruct (decide (k = e_rq y)) as [->|Hne].
      + rewrite list_lookup_alter_eq. destruct (s_rq s !! e_rq y) as [rq|] eqn:Erq; [|done].
        intros [= <-]. exists rq. destruct (Hw _ _ Erq) as [Hnd Hc]. split; [done|].
        split; [split; cbn|split; cbn].
        * by apply NoDup_filter.
        * intros c. destruct (decide _) as [|Hce]; [done|]. intros Hcc.
          apply list_elem_of_filter. split; [congruence|auto].
        * by intros [? _]%list_elem_of_filter.
        * by intros x [_ ?]%list_elem_of_filter.
      + rewrite list_lookup_alter_ne by done. intros Hk. exists rq'. split; [done|].
        split; [eauto|]. split; [|done]. intros Hin. destruct (Hls k rq' e Hk Hin) as (z & Hz & Ez).
        rewrite Hy in Hz. injection Hz as <-. done.
    - split; [done|]. intros k rq' Hk. exists rq'. split; [done|]. split; [eauto|].
      split; [|done]. intros Hin. enough (on_list e s = true) by congruence.
      apply on_list_spec. eauto. }
  constructor; cbn; rewrite ?Ee.
  - by rewrite El.
  - intros k rq' (rq & _ & ? & _)%Hback. done.
  - intros k rq' x Hk Hin. destruct (Hback k rq' Hk) as (rq & Hrq & _ & Hne & Hsub).
    rewrite lookup_delete_ne by (intros ->; done). eauto.
  - intros x z [Hxe Hz]%lookup_delete_Some. destruct (Hqs x z Hz) as [Hk Hne].
    split; [done|]. intros (rq & Hrq & Hin)%Hne. subst s2.
    destruct (on_list e s); [|eauto]. cbn. destruct (decide (e_rq z = e_rq y)) as [Ezy|].
    + exists (f rq). rewrite Ezy, list_lookup_alter_eq, <- Ezy, Hrq. split; [done|].
      cbn. apply list_elem_of_filter. auto.
    + exists rq. by rewrite list_lookup_alter_ne.
Qed.

Lemma run_step_rq s s' : run_step s s' -> rq_inv s -> rq_inv s'.
Proof.
  intros Hst Hinv.
  destruct Hst as [e k capacity ctx r Hn Hno Hk H|e b H|alloc j e deps r Hn H|j b _ H|_ H|
                   e j hw _ H|e _ H|j x Hx Hcb H|n _ H|j x Hx Hf H].
  - unfold amd_sched_entity_init in H. cbn in H. sinv. destruct Hinv as [Hl Hw Hls Hqs].
    constructor; cbn; [done|done|..].
    + intros i rq x Hi Hin. destruct (Hls i rq x Hi Hin) as (y & Hy & Ey). exists y.
      rewrite lookup_insert_ne by (intros ->; congruence). done.
    + intros x y. destruct (decide (x = e)) as [->|].
      * rewrite lookup_insert_eq. by intros [= <-].
      * rewrite lookup_insert_ne by done. apply Hqs.
  - by eapply fini_rq.
  - unfold amd_sched_job_init, amd_sched_fence_create in H. destruct alloc; sinv; [|done].
    apply (same_rq_inv s); [|done].
    match goal with |- same_rq s (put_job _ _ ?t) => apply (same_rq_trans _ t); [|same_rq_id] end.
    by eapply same_rq_put.
  - by eapply push_rq.
  - by eapply main_select_rq.
  - apply (same_rq_inv s); [by eapply submit_rq|done].
  - unfold main_dequeue in H. sinv. apply (same_rq_inv s); [|done].
    match goal with |- same_rq s (set_pc _ ?t) => apply (same_rq_trans _ t); [|same_rq_id] end.
    eapply same_rq_put; [done|done|]. cbn. by intros ->.
  - unfold hw_fence_signal in H. apply bind_Ok in H as (x' & s1 & Hx' & H).
    apply the_job_Ok in Hx' as [_ ->]. apply bind_Ok in H as (f & s1 & Hp & H).
    apply deref_Ok in Hp as [_ <-]. apply bind_Ok in H as ([] & t & H1 & H).
    apply bind_Ok in H as ([] & u & H2 & H). apply modify_Ok in H2. subst u.
    apply process_rq in H. unfold fence_signal_other in H1. apply modify_Ok in H1.
    apply (same_rq_inv s); [|done]. eapply same_rq_trans; [|exact H].
    apply (same_rq_trans _ t); [subst t|same_rq_id].
    apply (same_rq_trans _ (set_done (union {[f]}) s)); [same_rq_id|]. apply same_rq_map.
    intros y. destruct (e_dependency y) as [[]|]; try done. by destruct (decide _).
  - unfold fence_signal_other in H. apply modify_Ok in H. subst s'.
    apply (same_rq_inv s); [|done].
    apply (same_rq_trans _ (set_done (union {[n]}) s)); [same_rq_id|]. apply same_rq_map.
    intros y. destruct (e_dependency y) as [[]|]; try done. by destruct (decide _).
  - apply (same_rq_inv s); [|done]. unfold amd_sched_job_finish in H. sinv.
    match goal with H : (if ?b then _ else _) _ = _ |- _ => destruct b end; sinv; [|same_rq_id].
    match goal with H : match ?l with [] => _ | _ :: _ => _ end _ = _ |- _ => destruct l end;
      sinv; same_rq_id.
Qed.

Lemma reset_rq s s' : amd_sched_hw_job_reset s = Ok (tt, s') -> same_rq s s'.
Proof.
  unfold amd_sched_hw_job_reset. rewrite (bind_eval (gets id) _ s s s eq_refl). intros H.
  apply bind_Ok in H as ([] & s1 & H1 & H). apply modify_Ok in H. subst s'. apply (same_rq_trans _ s1); [|same_rq_id].
  unfold id in H1. remember (reverse (s_mirror s)) as l eqn:El. clear El. revert s H1. induction l as [|j l IH]; intros s0 H; cbn [reset_loop] in H; [sinv; same_rq_id|].
  sinv. match goal with H : (if ?b then _ else _) _ = _ |- _ => destruct b end; sinv; [|by apply IH].
  eapply same_rq_trans; [|by apply IH]. same_rq_id.
Qed.
Lemma recovery_begin_rq s s' : recovery_begin s = Ok (tt, s') -> same_rq s s'.
Proof.
  unfold recovery_begin. rewrite (bind_eval (gets id) _ s s s eq_refl), (bind_eval _ _ _ _ _ eq_refl). intros H.
  destruct (s_mirror _); [sinv; same_rq_id|]. destruct (s_timeout _); sinv; same_rq_id.
Qed.
Lemma recovery_turn_rq j hw s s' : recovery_turn j hw s = Ok (tt, s') -> same_rq s s'.
Proof.
  intros H. unfold recovery_turn, recover_job in H. rewrite (bind_eval (gets id) _ s s s eq_refl) in H. destruct (bool_decide _); [|done].
  rewrite !(bind_eval _ _ _ _ _ eq_refl) in H. apply attach_rq in H. eapply same_rq_trans; [|exact H]. same_rq_id.
Qed.
Lemma rq_preserved s s' : sched_step s s' -> rq_inv s -> rq_inv s'.
Proof.
  intros Hst Hinv. destruct Hst as [Hst|t Hpc H ->|t Hpc H ->|j hw Hpc H|Hpc ->]; [by eapply run_step_rq|..]; apply (same_rq_inv s); try done.
  - eapply same_rq_trans; [by eapply reset_rq|same_rq_id].
  - eapply same_rq_trans; [by eapply recovery_begin_rq|same_rq_id].
  - by eapply recovery_turn_rq.
  - same_rq_id.
Qed.

Lemma reachable_rq limit timeout s :
  rtc sched_step (amd_sched_init limit timeout) s -> rq_inv s.
Proof.
  intros Hr. assert (rq_inv (amd_sched_init limit timeout)) as H0.
  { constructor; [done|..].
    - intros k rq [-> _]%lookup_replicate. split; [apply NoDup_nil_2|done].
    - intros k rq e [-> _]%lookup_replicate. by intros ?%elem_of_nil.
    - intros e y. cbn. by rewrite lookup_empty. }
  revert H0. induction Hr as [|s1 s2 s3 H12 H23 IH]; [done|]. intros H1. apply IH.
  by eapply rq_preserved.
Qed.

(** ** Theorems about all reachable states *)

(** C2: in every state that the scheduler reaches, under any interleaving of clients, scheduler thread, completions, finish work and device resets with recovery: the thread hands the jobs of an entity to the hardware in the order in which they were pushed, each once, and none is lost, since the jobs pushed to an entity are exactly those that the thread has run, in that order, followed by the ones that wait in its queue.  A job runs a second time only in a recovery after a reset, only if the thread ran it before, and the jobs that a recovery has run again are in the order in which the thread ran them, each at most once per recovery. *)
Theorem sched_fifo_order (limit : Z) (timeout : bool) (s : amd_gpu_scheduler) :
  rtc sched_step (amd_sched_init limit timeout) s ->
  (forall e, pushes s e = runs s e ++ pending s e /\ NoDup (pushes s e)) /\
  NoDup (all_runs (s_log s)) /\ reruns_follow (s_log s) /\ last_reruns (s_log s) `sublist_of` all_runs (s_log s).
Proof.
  intros Hr. pose proof (reachable_order limit timeout s Hr) as Ho.
  split; [intros e; split; [apply (oi_fifo _ Ho)|apply (oi_once _ Ho)]|]. split; [apply (oi_runs _ Ho)|]. split; [apply (oi_rerun _ Ho)|].
  etrans; [|apply (oi_last _ Ho)]. by apply sublist_inserts_r.
Qed.

(** The hardware queue is never overfilled as long as the device is not reset:
    in every state reached by [run_step] the submission counter is between zero and [hw_submission_limit], and it is
    the number of listed jobs whose completion callback is still pending, so
    no completion is lost or counted twice. *)
Theorem sched_hw_limit (limit : Z) (timeout : bool) (s : amd_gpu_scheduler) :
  0 <= limit < 2147483648 -> rtc run_step (amd_sched_init limit timeout) s ->
  0 <= s_hw_rq_count s <= s_limit s /\
  s_hw_rq_count s = Z.of_nat (length (filter (fun j => job_cb s j = true) (s_mirror s))) /\
  forall j, job_cb s j = true -> j ∈ s_mirror s /\ EvRun j ∈ s_log s.
Proof.
  intros Hl Hr. pose proof (reachable_inv limit timeout s Hl Hr) as Hinv.
  split; [split; [rewrite (si_count _ Hinv); lia|apply (si_limit _ Hinv)]|].
  split; [apply (si_count _ Hinv)|]. intros j Hj. apply (si_cb _ Hinv) in Hj.
  split; [done|]. apply mirror_run; [apply (si_order _ Hinv)|done].
Qed.

(** C28: A job runs only after its dependencies: whenever the scheduler thread is
    about to hand a job to the hardware, every fence the backend reported for
    it has signaled, or is a fence of the same entity (ordered by the queue),
    or belongs to a job of the same scheduler that was already scheduled. *)
Theorem sched_dependencies_hold (limit : Z) (timeout : bool) (s : amd_gpu_scheduler)
    (e j : nat) :
  rtc sched_step (amd_sched_init limit timeout) s -> s_pc s = Picked e j ->
  exists x, s_jobs s !! j = Some x /\
    forall d, d ∈ j_all_deps x ->
      dep_context s d = Some (j_context x) \/ dep_signaled s (wait_target d) = true.
Proof.
  intros Hr Hpc. pose proof (di_pc _ (reachable_deps limit timeout s Hr)) as H.
  rewrite Hpc in H. destruct H as [_ (x & Hx & _ & Hs)]. eauto.
Qed.

(** The scheduler is work conserving: in every reachable state, if the
    hardware has room and some entity has a queued job and waits for no
    dependency, then [amd_sched_select_entity] returns an entity that is
    ready.  No queued job is forgotten. *)
Theorem sched_work_conserving (limit : Z) (timeout : bool) (s : amd_gpu_scheduler)
    (e : nat) (y : amd_sched_entity) :
  rtc sched_step (amd_sched_init limit timeout) s -> amd_sched_ready s = true ->
  s_entities s !! e = Some y -> e_queue y <> [] -> e_dependency y = None ->
  exists x s', amd_sched_select_entity s = Ok (Some x, s') /\ ready s x = true.
Proof.
  intros Hr Hready Hy Hq Hd. pose proof (reachable_rq limit timeout s Hr) as Hinv.
  assert (ready s e = true) as He.
  { unfold ready. rewrite Hy. unfold amd_sched_entity_is_ready.
    destruct (e_queue y); [done|]. by rewrite Hd. }
  destruct (r_queued _ Hinv e y Hy) as [Hk Hin]. destruct (Hin Hq) as (rq & Hrq & Hein).
  pose proof (r_length _ Hinv) as Hlen.
  destruct (s_rq s) as [|rq0 [|rq1 [|]]] eqn:Erq; try done.
  pose proof (r_wf _ Hinv 0 rq0 ltac:(by rewrite Erq)) as [Hnd0 Hc0].
  pose proof (r_wf _ Hinv 1 rq1 ltac:(by rewrite Erq)) as [Hnd1 Hc1].
  unfold amd_sched_select_entity. rewrite (bind_eval (gets id) _ s s s eq_refl), Hready.
  cbn [select_from AMD_SCHED_MAX_PRIORITY].
  rewrite (bind_eval _ _ _ _ _ (rq_select_run 0 s rq0 ltac:(by rewrite Erq))).
  destruct (find (ready s) (rotation rq0)) as [x|] eqn:E0; cbv iota.
  { exists x. eexists. split; [reflexivity|]. by destruct (find_split _ _ _ E0) as (? & ? & _ & ? & _). }
  cbn [selected].
  rewrite (bind_eval _ _ _ _ _ (rq_select_run 1 s rq1 ltac:(by rewrite Erq))).
  assert (is_Some (find (ready s) (rotation rq1))) as [x E1].
  { apply (find_is_some _ _ e); [|done]. rewrite rotation_perm by done.
    destruct (e_rq y) as [|[|k]]; cbn in Hrq; [|congruence|done].
    exfalso. injection Hrq as ->.
    destruct (find_is_some (ready s) (rotation rq) e); [by rewrite rotation_perm|done|congruence]. }
  rewrite E1. exists x. eexists. split; [reflexivity|].
  by destruct (find_split _ _ _ E1) as (? & ? & _ & ? & _).
Qed.

(** ** Reset and recovery *)

Lemma reset_loop_run : forall l s,
  NoDup l -> (forall j, j ∈ l -> exists x f, s_jobs s !! j = Some x /\ j_parent x = Some f /\ j_cb x = true) ->
  exists s', reset_loop l s = Ok (tt, s') /\
    (forall j, j ∈ l -> exists x, s_jobs s !! j = Some x /\
       s_jobs s' !! j = Some (with_parent None false x)) /\
    (forall j, j ∉ l -> s_jobs s' !! j = s_jobs s !! j) /\
    s_mirror s' = s_mirror s /\ s_log s' = s_log s /\ s_limit s' = s_limit s /\
    s_done s' = s_done s /\ s_timeout s' = s_timeout s.
Proof.
  induction l as [|j l IH]; intros s Hnd Hl.
  { exists s. split; [done|]. split; [by intros j ?%elem_of_nil|done]. }
  apply NoDup_cons in Hnd as [Hj Hnd]. destruct (Hl j ltac:(left)) as (x & f & Hx & Hp & Hc).
  cbn [reset_loop].
  rewrite (bind_eval _ _ _ _ _ (proj2 (the_job_Ok j s x s) (conj Hx eq_refl))), Hp.
  rewrite (bind_eval _ _ _ _ _ eq_refl), Hc, (bind_eval _ _ _ _ _ eq_refl).
  set (s1 := put_job j (with_parent None false x) s).
  assert (forall i, i <> j -> s_jobs s1 !! i = s_jobs s !! i) as Hne
    by (intros i Hi; cbn; by rewrite lookup_insert_ne).
  destruct (IH s1 Hnd) as (s' & E & H1 & H2 & H3).
  { intros i Hi. rewrite Hne by (by intros ->). apply Hl. by right. }
  exists s'. split; [done|]. split; [|split; [|exact H3]].
  - intros i [->|Hi]%elem_of_cons.
    + exists x. split; [done|]. rewrite H2 by done. apply lookup_insert_eq.
    + destruct (H1 i Hi) as (z & Hz & Hz'). exists z. rewrite Hne in Hz by (by intros ->). done.
  - intros i [? ?]%not_elem_of_cons. rewrite H2 by done. by apply Hne.
Qed.

Lemma recovery_loop_run run : forall l s,
  NoDup l -> (forall j, j ∈ l -> is_Some (s_jobs s !! j) /\
               exists f, run j = Some f /\ f ∉ s_done s) ->
  0 <= s_hw_rq_count s -> s_hw_rq_count s + Z.of_nat (length l) < 2147483648 ->
  exists s', recovery_loop run l s = Ok (tt, s') /\
    s_hw_rq_count s' = s_hw_rq_count s + Z.of_nat (length l) /\
    s_log s' = s_log s ++ (EvRerun <$> l) /\ s_mirror s' = s_mirror s /\
    (forall j, j ∈ l -> exists x, s_jobs s' !! j = Some x /\ j_parent x = run j /\ j_cb x = true) /\
    (forall j, j ∉ l -> s_jobs s' !! j = s_jobs s !! j).
Proof.
  induction l as [|j l IH]; intros s Hnd Hl H0 Hc.
  { exists s. split; [done|]. rewrite app_nil_r. cbn. split; [lia|]. split; [done|].
    split; [done|]. split; [by intros j ?%elem_of_nil|done]. }
  apply NoDup_cons in Hnd as [Hj Hnd]. destruct (Hl j ltac:(left)) as [[x Hx] (f & Hf & Hd)].
  cbn [recovery_loop].
  set (s0 := set_count (fun c => s32 (c + 1)) (set_log (fun l0 => l0 ++ [EvRerun j]) s)).
  set (s1 := put_job j (with_parent (Some f) true x) s0).
  assert (recover_job j (run j) s = Ok (tt, s1)) as E1.
  { unfold recover_job. rewrite !(bind_eval _ _ _ _ _ eq_refl). fold s0. rewrite Hf. unfold attach_fence. rewrite (bind_eval (gets id) _ s0 s0 s0 eq_refl).
    rewrite (bind_eval _ _ _ _ _ (proj2 (the_job_Ok j s0 x s0) (conj Hx eq_refl))).
    by rewrite bool_decide_false. }
  rewrite (bind_eval _ _ _ _ _ E1).
  assert (forall i, i <> j -> s_jobs s1 !! i = s_jobs s !! i) as Hne
    by (intros i Hi; cbn; by rewrite lookup_insert_ne).
  cbn [length] in Hc. rewrite Nat2Z.inj_succ in Hc.
  assert (s_hw_rq_count s1 = s_hw_rq_count s + 1) as Hc1 by (cbn; cint).
  destruct (IH s1 Hnd) as (s' & E & Ec & El & Em & Hin & Hout).
  - intros i Hi. rewrite Hne by (by intros ->). apply Hl. by right.
  - lia.
  - lia.
  - exists s'. split; [done|]. split; [rewrite Ec, Hc1; cbn [length]; lia|].
    split; [rewrite El; cbn; by rewrite <- app_assoc|]. split; [done|]. split.
    + intros i [->|Hi]%elem_of_cons; [|auto]. exists (with_parent (Some f) true x).
      rewrite Hout by done. split; [apply lookup_insert_eq|]. by rewrite Hf.
    + intros i [? ?]%not_elem_of_cons. rewrite Hout by done. by apply Hne.
Qed.

(** After a GPU reset every job that was on the hardware is submitted again,
    once and in the original order: when all listed jobs wait for their
    hardware fence, [amd_sched_hw_job_reset] followed by
    [amd_sched_job_recovery] runs exactly these jobs, attaches their new
    fences, and leaves the submission counter at their number. *)
Theorem reset_recovery_resubmits (s : amd_gpu_scheduler) (run : nat -> option nat) :
  NoDup (s_mirror s) -> Z.of_nat (length (s_mirror s)) < 2147483648 ->
  (forall j, j ∈ s_mirror s ->
     (exists x f, s_jobs s !! j = Some x /\ j_parent x = Some f /\ j_cb x = true) /\
     exists f, run j = Some f /\ f ∉ s_done s) ->
  exists s1 s2, amd_sched_hw_job_reset s = Ok (tt, s1) /\ s_hw_rq_count s1 = 0 /\
    amd_sched_job_recovery run s1 = Ok (tt, s2) /\
    s_log s2 = s_log s ++ EvRecovery :: (EvRerun <$> s_mirror s) /\ s_mirror s2 = s_mirror s /\
    s_hw_rq_count s2 = Z.of_nat (length (s_mirror s)) /\
    forall j, j ∈ s_mirror s ->
      exists x, s_jobs s2 !! j = Some x /\ j_parent x = run j /\ j_cb x = true.
Proof.
  intros Hnd Hlen Hl.
  destruct (reset_loop_run (reverse (s_mirror s)) s) as (t & E & Hin & Hout & Hm & Hlog & _ & Hdone & Hto).
  { by rewrite reverse_Permutation. }
  { intros j Hj. apply Hl. by apply elem_of_reverse. }
  set (s1 := set_count (fun _ => 0) t).
  assert (amd_sched_hw_job_reset s = Ok (tt, s1)) as E1.
  { unfold amd_sched_hw_job_reset. rewrite (bind_eval (gets id) _ s s s eq_refl).
    by rewrite (bind_eval _ _ _ _ _ E). }
  assert (forall j, j ∈ s_mirror s -> is_Some (s_jobs s1 !! j)) as Hjobs.
  { intros j Hj. destruct (Hin j) as (x & _ & Hx); [by apply elem_of_reverse|]. eauto. }
  (* arming the timeout of the first job keeps everything else *)
  assert (exists s1', recovery_begin s1 = Ok (tt, s1') /\
    s_log s1' = s_log s1 ++ [EvRecovery] /\ s_mirror s1' = s_mirror s1 /\ s_done s1' = s_done s1 /\
    s_hw_rq_count s1' = 0 /\ forall j, is_Some (s_jobs s1 !! j) -> is_Some (s_jobs s1' !! j))
    as (s1' & Erec & Fl & Fm & Fd & Fc & Fj).
  { unfold recovery_begin. rewrite (bind_eval (gets id) _ s1 s1 s1 eq_refl), (bind_eval _ _ _ _ _ eq_refl). unfold id. change (s_mirror s1) with (s_mirror t). rewrite Hm.
    set (s3 := set_log (fun l => l ++ [EvRecovery]) s1).
    destruct (s_mirror s) as [|j l]; [exists s3; by repeat split|].
    destruct (s_timeout s1); [|exists s3; by repeat split].
    destruct (Hjobs j ltac:(left)) as [x Hx]. exists (put_job j (with_tdr true x) s3).
    split; [|split; [done|split; [done|split; [done|split; [done|]]]]].
    - by rewrite (bind_eval _ _ _ _ _ (proj2 (the_job_Ok j s3 x s3) (conj Hx eq_refl))).
    - intros i Hi. cbn. destruct (decide (i = j)) as [->|]; [rewrite lookup_insert_eq; eauto|].
      by rewrite lookup_insert_ne. }
  destruct (recovery_loop_run run (s_mirror s) s1') as (s2 & E2 & Ec & El & Em & Hr & _).
  - done.
  - intros j Hj. split; [apply Fj; auto|]. destruct (Hl j Hj) as [_ (f & Hf & Hd)]. exists f.
    rewrite Fd. cbn. by rewrite Hdone.
  - by rewrite Fc.
  - rewrite Fc. lia.
  - exists s1, s2. split; [done|]. split; [done|]. split.
    { unfold amd_sched_job_recovery. rewrite (bind_eval (gets id) _ s1 s1 s1 eq_refl), (bind_eval _ _ _ _ _ Erec).
      unfold id. change (s_mirror s1) with (s_mirror t). by rewrite Hm. }
    split; [rewrite El, Fl; cbn; by rewrite Hlog, <- app_assoc|]. split; [rewrite Em, Fm; exact Hm|].
    split; [rewrite Ec, Fc; lia|done].
Qed.
