(* ===== verification/SchedWitness.v ===== *)
(** * Instances of the scheduler theorems

    A run of the scheduler with one entity: a job that depends on an external
    fence is pushed, waits, is picked when the fence signals, is submitted, and
    runs again after a reset.  Variants of the run show the defects of the reset
    path. *)

From stdpp Require Import base numbers list gmap relations.
From S2P Require Import Prelude CMonad Sched SchedRr SchedInv SchedDeps SchedSpec.

Definition state_of {A} (o : outcome (A * amd_gpu_scheduler)) : amd_gpu_scheduler :=
  match o with Ok (_, s) => s | _ => amd_sched_init 0 false end.

Definition run0 : amd_gpu_scheduler := amd_sched_init 2 true.
Definition run1 := state_of (amd_sched_entity_init 1 1 4 100 0 run0).
Definition run2 := state_of (amd_sched_job_init true 10 1 [DepOther 7 5] run1).
Definition run3 := state_of (amd_sched_entity_push_job 10 run2).
(** The entity waits for fence 5. *)
Definition run4 := state_of (main_select run3).
Definition run5 := state_of (fence_signal_other 5 run4).
(** The job is picked. *)
Definition run6 := state_of (main_select run5).
(** The backend returns hardware fence 50, which is pending. *)
Definition run7 := state_of (main_submit 1 10 (Some 50%nat) run6).
(** The backend fails to run the job. *)
Definition fail7 := state_of (main_submit 1 10 None run6).

Lemma run3_steps : rtc run_step run0 run3.
Proof.
  apply (rtc_l _ _ run1).
  { apply (step_entity _ _ 1%nat 1%nat 4%nat 100 0); [done|by intros j x|unfold AMD_SCHED_MAX_PRIORITY; lia|done]. }
  apply (rtc_l _ _ run2).
  { by apply (step_job _ _ true 10%nat 1%nat [DepOther 7 5] 0). }
  apply rtc_once. apply (step_push _ _ 10%nat true); [|vm_compute; reflexivity].
  unfold pushed. by intros ?%elem_of_nil.
Qed.

Lemma run6_steps : rtc run_step run0 run6.
Proof.
  etrans; [exact run3_steps|].
  apply (rtc_l _ _ run4); [by apply step_select; [|vm_compute; reflexivity]|].
  apply (rtc_l _ _ run5).
  { apply (step_other _ _ 5%nat); [|vm_compute; reflexivity].
    intros j x Hx Hcb.
    assert (map_Forall (fun _ x => j_cb x = false) (s_jobs run4)) as Hall
      by (apply (bool_decide_unpack _); vm_compute; exact I).
    specialize (Hall j x Hx). cbn in Hall. congruence. }
  apply rtc_once. by apply step_select; [|vm_compute; reflexivity].
Qed.

Lemma run7_steps : rtc run_step run0 run7.
Proof.
  eapply rtc_r; [exact run6_steps|].
  by apply (step_submit _ _ 1%nat 10%nat (Some 50%nat)); [vm_compute; reflexivity|vm_compute; reflexivity].
Qed.

Lemma fail7_steps : rtc run_step run0 fail7.
Proof.
  eapply rtc_r; [exact run6_steps|].
  by apply (step_submit _ _ 1%nat 10%nat None); [vm_compute; reflexivity|vm_compute; reflexivity].
Qed.

(** A reset while the job is on the hardware, and its recovery. *)
Definition run8 := state_of (main_dequeue 1 run7).
Definition run9 := state_of (amd_sched_hw_job_reset run8).
Definition run10 := set_pc (Recovering (head (s_mirror run9))) (state_of (recovery_begin (set_pc Parked run9))).
Definition run11 := state_of (recovery_turn 10 (Some 51%nat) run10).

Lemma run_steps s s' : rtc run_step s s' -> rtc sched_step s s'.
Proof. induction 1 as [|x y z H _ IH]; [done|]. eapply rtc_l; [by apply step_run|done]. Qed.
Lemma run8_steps : rtc run_step run0 run8.
Proof. eapply rtc_r; [exact run7_steps|]. by apply (step_dequeue _ _ 1%nat); vm_compute. Qed.
(** Reset and recovery of a state with job 10 on the mirror list. *)
Lemma reset_steps s s1 s2 :
  s_pc s = Idle -> amd_sched_hw_job_reset s = Ok (tt, s1) -> recovery_begin (set_pc Parked s1) = Ok (tt, s2) ->
  rtc sched_step s (set_pc (Recovering (head (s_mirror s1))) s2).
Proof. intros Hpc H1 H2. eapply rtc_l; [by eapply step_reset|]. apply rtc_once. by eapply step_recovery. Qed.
Lemma run11_steps : rtc sched_step run0 run11.
Proof.
  etrans; [apply run_steps, run8_steps|]. eapply rtc_r; [apply (reset_steps run8 run9 (state_of (recovery_begin (set_pc Parked run9)))); vm_compute; reflexivity|].
  apply (step_recover _ _ 10%nat (Some 51%nat)); vm_compute; reflexivity.
Qed.

Lemma sched_fifo_order_witness :
  s_log run11 = [EvPush 10; EvRun 10; EvRecovery; EvRerun 10] /\
  (forall e, pushes run11 e = runs run11 e ++ pending run11 e /\ NoDup (pushes run11 e)) /\
  NoDup (all_runs (s_log run11)) /\ reruns_follow (s_log run11) /\ last_reruns (s_log run11) `sublist_of` all_runs (s_log run11).
Proof. split; [vm_compute; reflexivity|]. exact (sched_fifo_order 2 true run11 run11_steps). Defined.

Lemma sched_hw_limit_witness :
  0 <= s_hw_rq_count run7 <= s_limit run7 /\
  s_hw_rq_count run7 = Z.of_nat (length (filter (fun j => job_cb run7 j = true) (s_mirror run7))) /\
  forall j, job_cb run7 j = true -> j ∈ s_mirror run7 /\ EvRun j ∈ s_log run7.
Proof.
  refine (sched_hw_limit 2 true run7 _ _).
  - lia.
  - exact run7_steps.
Defined.

Lemma sched_dependencies_hold_witness :
  exists x, s_jobs run6 !! 10%nat = Some x /\
    forall d, d ∈ j_all_deps x ->
      dep_context run6 d = Some (j_context x) \/ dep_signaled run6 (wait_target d) = true.
Proof.
  refine (sched_dependencies_hold 2 true run6 1 10 _ _).
  - exact (run_steps _ _ run6_steps).
  - vm_compute; reflexivity.
Defined.

Lemma sched_work_conserving_witness :
  exists x s', amd_sched_select_entity run3 = Ok (Some x, s') /\ ready run3 x = true.
Proof.
  refine (sched_work_conserving 2 true run3 1 (Entity 1 4 [10%nat] 1 100 None) _ _ _ _ _).
  - exact (run_steps _ _ run3_steps).
  - vm_compute; reflexivity.
  - vm_compute; reflexivity.
  - done.
  - reflexivity.
Defined.

Lemma reset_recovery_resubmits_witness :
  exists s1 s2, amd_sched_hw_job_reset run7 = Ok (tt, s1) /\ s_hw_rq_count s1 = 0 /\
    amd_sched_job_recovery (fun _ => Some 51%nat) s1 = Ok (tt, s2) /\
    s_log s2 = s_log run7 ++ EvRecovery :: (EvRerun <$> s_mirror run7) /\ s_mirror s2 = s_mirror run7 /\
    s_hw_rq_count s2 = Z.of_nat (length (s_mirror run7)) /\
    forall j, j ∈ s_mirror run7 ->
      exists x, s_jobs s2 !! j = Some x /\ j_parent x = Some 51%nat /\ j_cb x = true.
Proof.
  refine (reset_recovery_resubmits run7 (fun _ => Some 51%nat) _ _ _).
  - apply (bool_decide_unpack (NoDup (s_mirror run7))). vm_compute. exact I.
  - vm_compute; reflexivity.
  - assert (s_mirror run7 = [10%nat]) as -> by (vm_compute; reflexivity).
    intros j Hj. apply list_elem_of_singleton in Hj. subst j. split.
    + assert (exists x, s_jobs run7 !! 10%nat = Some x /\ j_parent x = Some 50%nat /\ j_cb x = true)
        as (x & ? & ? & ?) by (eexists; split; [vm_compute; reflexivity|by split]).
      exists x, 50%nat. done.
    + exists 51%nat. split; [reflexivity|].
      apply (bool_decide_unpack (51%nat ∉ s_done run7)). vm_compute. exact I.
Defined.

(** The reset path dereferences a null pointer: there is a reachable state, in
    which the backend has failed to run a job ([run_job] returned no fence)
    and the job's finish work is still queued, where [amd_sched_hw_job_reset]
    faults because the listed job has no parent fence. *)
Theorem reset_null_parent :
  exists s, rtc sched_step (amd_sched_init 2 true) s /\
    amd_sched_hw_job_reset s = Fault.
Proof. exists fail7. split; [exact (run_steps _ _ fail7_steps)|vm_compute; reflexivity]. Qed.

(** The job completes before the reset, and its finish work is still queued. *)
Definition done9 := state_of (hw_fence_signal 10 run8).
Lemma done9_steps : rtc run_step run0 done9.
Proof.
  eapply rtc_r; [exact run8_steps|]. assert (exists x, s_jobs run8 !! 10%nat = Some x /\ j_cb x = true) as (x & Hx & Hc) by (eexists; split; [vm_compute; reflexivity|done]).
  apply (step_hw _ _ 10%nat x Hx Hc). vm_compute. reflexivity.
Qed.
Definition done10 := state_of (amd_sched_hw_job_reset done9).
Definition done11 := set_pc (Recovering (head (s_mirror done10))) (state_of (recovery_begin (set_pc Parked done10))).
Lemma done11_steps : rtc sched_step run0 done11.
Proof. etrans; [apply run_steps, done9_steps|]. apply (reset_steps done9 done10); vm_compute; reflexivity. Qed.

(** A recovery runs jobs again that have completed: the mirror list keeps a job
    until its finish work runs. *)
Theorem completed_job_rerun :
  exists s, rtc sched_step (amd_sched_init 2 true) s /\ s_log s = [EvPush 10; EvRun 10; EvProcess 10; EvRecovery; EvRerun 10].
Proof.
  exists (state_of (recovery_turn 10 (Some 51%nat) done11)). split; [|vm_compute; reflexivity].
  eapply rtc_r; [exact done11_steps|]. apply (step_recover _ _ 10%nat (Some 51%nat)); vm_compute; reflexivity.
Qed.

(** The recovery releases the lock of the mirror list for each job: finish work
    that runs then unlinks and frees the job that the recovery is at. *)
Theorem recovery_follows_freed_job :
  exists s, rtc sched_step (amd_sched_init 2 true) s /\ s_pc s = Recovering (Some 10%nat) /\ recovery_turn 10 (Some 51%nat) s = Fault.
Proof.
  exists (state_of (amd_sched_job_finish 10 done11)). split; [|split; vm_compute; reflexivity].
  eapply rtc_r; [exact done11_steps|]. apply step_run.
  assert (exists x, s_jobs done11 !! 10%nat = Some x /\ j_finish_work x = true) as (x & Hx & Hf) by (eexists; split; [vm_compute; reflexivity|done]).
  apply (step_finish _ _ 10%nat x Hx Hf). vm_compute. reflexivity.
Qed.
