(* ===== verification/Vector.v ===== *)
(** * The growable array of the display core (dal/dc/basics/vector.c)

    A vector owns one heap block that holds [count] structures of
    [struct_size] bytes each, with room for [capacity] of them.  All sizes and
    offsets are [uint32_t] and wrap.  The block is modelled byte by byte: a
    copy that leaves its source or its destination object is a [Fault], as is
    an access through a freed or null [container].

    [kzalloc] and [krealloc] are the kernel's; what the code relies on is
    stated in the class [Allocator].  The copied structure [what] is an object
    of its own, given by its bytes. *)

From stdpp Require Import base numbers list.
From S2P Require Import Prelude CMonad DmServices.

(** What the kernel allocator promises: [kzalloc] returns zeroed memory of the
    requested size or NULL; [krealloc] returns a block of the new size that
    starts with the old contents, or NULL and leaves the old block alone. *)
Class Allocator := {
  kzalloc_ok : Z -> bool;
  krealloc : list Z -> Z -> option (list Z);
  krealloc_spec l n l' : krealloc l n = Some l' ->
    length l' = Z.to_nat n /\ take (Z.to_nat n) l = take (length l) l' }.

Inductive block := Null | Live (bytes : list Z) | Freed.

Record vector := Vector {
  container : block;
  struct_size : Z;
  count : Z;
  capacity : Z }.

Definition with_container (b : block) (v : vector) : vector :=
  Vector b (struct_size v) (count v) (capacity v).
Definition with_count (c : Z) (v : vector) : vector :=
  Vector (container v) (struct_size v) c (capacity v).

Definition BREAK_TO_DEBUGGER : W unit := ASSERT false.

(** ** Memory *)

Definition bytes_of (b : block) : W (list Z) :=
  match b with Live l => mret l | _ => fault end.

(** The [n] bytes at offset [off] of an object. *)
Definition mem_read (l : list Z) (off n : Z) : W (list Z) :=
  if off + n <=? Z.of_nat (length l)
  then mret (take (Z.to_nat n) (drop (Z.to_nat off) l)) else fault.

(** Store [src] at offset [off]. *)
Definition mem_write (l : list Z) (off : Z) (src : list Z) : W (list Z) :=
  if off + Z.of_nat (length src) <=? Z.of_nat (length l)
  then mret (take (Z.to_nat off) l ++ src ++ drop (Z.to_nat off + length src) l) else fault.

(** [memmove] inside the container: the source is read before it is
    overwritten. *)
Definition move_within (v : vector) (dst src n : Z) : W vector :=
  l ← bytes_of (container v);
  part ← mem_read l src n;
  l' ← mem_write l dst part;
  mret (with_container (Live l') v).

(** [memmove] of one structure into the container. *)
Definition move_into (v : vector) (dst : Z) (what : list Z) : W vector :=
  l ← bytes_of (container v);
  part ← mem_read what 0 (struct_size v);
  l' ← mem_write l dst part;
  mret (with_container (Live l') v).

(** ** Operations *)

Section allocation.
Context `{Allocator}.

Definition dm_alloc (size : Z) : block :=
  if kzalloc_ok size then Live (replicate (Z.to_nat size) 0) else Null.

Definition dal_vector_construct (cap ssize : Z) : W (option vector) :=
  if (ssize =? 0) || (cap =? 0) then _ ← BREAK_TO_DEBUGGER; mret None
  else match dm_alloc (u32 (ssize * cap)) with
       | Live l => mret (Some (Vector (Live l) ssize 0 cap))
       | _ => mret None
       end.

(** The loop that copies the initial value into the slots [i .. i + n - 1]. *)
Fixpoint presize_loop (n : nat) (i : Z) (initial_value : list Z) (v : vector) : W vector :=
  match n with
  | O => mret v
  | S n' =>
      v ← move_into v (u32 (i * struct_size v)) initial_value;
      presize_loop n' (i + 1) initial_value v
  end.

Definition dal_vector_presized_costruct (cnt : Z) (initial_value : option (list Z)) (ssize : Z) :
    W (option vector) :=
  if (ssize =? 0) || (cnt =? 0) then _ ← BREAK_TO_DEBUGGER; mret None
  else match dm_alloc (u32 (ssize * cnt)) with
       | Live l =>
           let v := Vector (Live l) ssize cnt cnt in
           match initial_value with
           | None => mret (Some v)
           | Some x => v ← presize_loop (Z.to_nat cnt) 0 x v; mret (Some v)
           end
       | _ => mret None
       end.

(** [sizeof(struct vector)] on a 64-bit kernel. *)
Definition sizeof_vector : Z := 32.

Definition create_with (construct : W (option vector)) : W (option vector) :=
  match dm_alloc sizeof_vector with
  | Live _ =>
      o ← construct;
      match o with
      | Some v => mret (Some v)
      | None => _ ← BREAK_TO_DEBUGGER; mret None
      end
  | _ => mret None
  end.

Definition dal_vector_presized_create (size : Z) (initial_value : option (list Z)) (ssize : Z) :=
  create_with (dal_vector_presized_costruct size initial_value ssize).

Definition dal_vector_create (cap ssize : Z) : W (option vector) :=
  create_with (dal_vector_construct cap ssize).

(** [kfree] of a block that was freed before is undefined; the pointer keeps
    its value. *)
Definition dal_vector_destruct (v : vector) : W vector :=
  match container v with
  | Null => mret (Vector Null (struct_size v) 0 0)
  | Live _ => mret (Vector Freed (struct_size v) 0 0)
  | Freed => fault
  end.

Definition dal_vector_destroy (o : option vector) : W (option vector) :=
  match o with
  | None => mret None
  | Some v => _ ← dal_vector_destruct v; mret None
  end.

Definition dal_vector_get_count (v : vector) : Z := count v.
Definition dal_vector_capacity (v : vector) : Z := capacity v.

(** The offset of the element in the container, [None] for NULL. *)
Definition dal_vector_at_index (v : vector) (index : Z) : option Z :=
  match container v with
  | Null => None
  | _ => if index >=? count v then None else Some (u32 (index * struct_size v))
  end.

Definition dal_vector_remove_at_index (v : vector) (index : Z) : W (bool * vector) :=
  if index >=? count v then mret (false, v)
  else
    v ← (if index =? u32 (count v - 1) then mret v
         else move_within v (u32 (index * struct_size v)) (u32 (u32 (index + 1) * struct_size v))
                (u32 (u32 (count v - index - 1) * struct_size v)));
    mret (true, with_count (u32 (count v - 1)) v).

Definition dal_vector_set_at_index (v : vector) (what : list Z) (index : Z) : W vector :=
  match dal_vector_at_index v index with
  | None => _ ← BREAK_TO_DEBUGGER; mret v
  | Some where_ => move_into v where_ what
  end.

Definition calc_increased_capacity (old_capacity : Z) : Z := u32 (old_capacity * 2).

Definition dal_vector_reserve (v : vector) (cap : Z) : W (bool * vector) :=
  if cap <=? capacity v then mret (true, v)
  else
    old ← match container v with Null => mret [] | b => bytes_of b end;
    match krealloc old (u32 (cap * struct_size v)) with
    | Some l => mret (true, Vector (Live l) (struct_size v) (count v) cap)
    | None => mret (false, v)
    end.

(** The second half of the insertion: shift the structures behind [position],
    then copy the new one in. *)
Definition insert_slot (v : vector) (what : list Z) (position : Z) : W (bool * vector) :=
  let insert_address := u32 (struct_size v * position) in
  v ← (if negb (count v =? 0) && (position <? count v)
       then move_within v (insert_address + struct_size v) insert_address
              (u32 (struct_size v * u32 (count v - position)))
       else mret v);
  v ← move_into v insert_address what;
  mret (true, with_count (u32 (count v + 1)) v).

Definition dal_vector_insert_at (v : vector) (what : list Z) (position : Z) : W (bool * vector) :=
  '(room, v) ← (if count v =? capacity v
                then dal_vector_reserve v (calc_increased_capacity (capacity v))
                else mret (true, v));
  if room : bool then insert_slot v what position else mret (false, v).

Definition dal_vector_append (v : vector) (item : list Z) : W (bool * vector) :=
  dal_vector_insert_at v item (count v).

Definition dal_vector_clone (v : vector) : W (option vector) :=
  let cnt := dal_vector_get_count v in
  o ← (if cnt =? 0 then dal_vector_create (capacity v) (struct_size v)
       else dal_vector_presized_create cnt None (struct_size v));
  match o with
  | None => _ ← BREAK_TO_DEBUGGER; mret None
  | Some c =>
      l ← bytes_of (container v);
      part ← mem_read l 0 (u32 (struct_size c * capacity c));
      lc ← bytes_of (container c);
      l' ← mem_write lc 0 part;
      mret (Some (with_container (Live l') c))
  end.

Definition dal_vector_clear (v : vector) : vector := with_count 0 v.
End allocation.
