(* ===== verification/VectorSpec.v ===== *)
(** * The vector implements a list

    [vec_rep v xs]: the vector [v] holds the structures [xs].  Every operation
    of vector.c simulates the list operation it stands for, and a whole
    sequence of operations does, as long as the sizes fit 32 bits. *)

From stdpp Require Import base numbers list.
From S2P Require Import Prelude CMonad DmServices Vector.

(** The vector [v] owns a block of [struct_size * capacity] bytes that starts
    with the structures [xs]. *)
Record vec_rep (v : vector) (xs : list (list Z)) (tail : list Z) : Prop := VecRep {
  rep_live : container v = Live (concat xs ++ tail);
  rep_items : Forall (fun x => Z.of_nat (length x) = struct_size v) xs;
  rep_count : count v = Z.of_nat (length xs);
  rep_length : Z.of_nat (length (concat xs ++ tail)) = struct_size v * capacity v;
  rep_size : 0 < struct_size v;
  rep_capacity : 0 < capacity v;
  rep_fits : struct_size v * capacity v < 2 ^ 32 }.

(** ** Bytes *)

Lemma concat_length (n : Z) (xs : list (list Z)) :
  Forall (fun x => Z.of_nat (length x) = n) xs ->
  Z.of_nat (length (concat xs)) = n * Z.of_nat (length xs).
Proof.
  induction 1 as [|x xs Hx _ IH]; [cbn; lia|].
  cbn [concat length]. rewrite length_app. lia.
Qed.

Lemma mem_read_mid (a b c : list Z) (off n w : Z) :
  off = Z.of_nat (length a) -> n = Z.of_nat (length b) ->
  mem_read (a ++ b ++ c) off n w = Ok (b, w).
Proof.
  intros -> ->. unfold mem_read. rewrite !length_app, (proj2 (Z.leb_le _ _)) by lia.
  rewrite !Nat2Z.id, drop_app_length, take_app_length. done.
Qed.

Lemma mem_write_mid (a b c src : list Z) (off w : Z) :
  off = Z.of_nat (length a) -> length src = length b ->
  mem_write (a ++ b ++ c) off src w = Ok (a ++ src ++ c, w).
Proof.
  intros -> Hs. unfold mem_write. rewrite !length_app, (proj2 (Z.leb_le _ _)) by lia.
  rewrite Nat2Z.id, take_app_length, <-drop_drop, drop_app_length, Hs, drop_app_length. done.
Qed.

Lemma mem_read_prefix (l : list Z) (n w : Z) :
  n <= Z.of_nat (length l) -> mem_read l 0 n w = Ok (take (Z.to_nat n) l, w).
Proof. intros Hn. unfold mem_read. by rewrite (proj2 (Z.leb_le _ _)) by lia. Qed.

Lemma mem_write_all (l src : list Z) (w : Z) :
  length src = length l -> mem_write l 0 src w = Ok (src, w).
Proof.
  intros E. pose proof (mem_write_mid [] l [] src 0 w eq_refl E) as H.
  cbn [app] in H. by rewrite !app_nil_r in H.
Qed.

(** Copy [b] one place to the left, over [x]. *)
Lemma move_within_left v (a x b c : list Z) (dst src n w : Z) :
  container v = Live (a ++ x ++ b ++ c) ->
  dst = Z.of_nat (length a) -> src = Z.of_nat (length (a ++ x)) -> n = Z.of_nat (length b) ->
  exists rest, length rest = length x /\
    move_within v dst src n w = Ok (with_container (Live (a ++ b ++ rest ++ c)) v, w).
Proof.
  intros E -> -> ->. exists (drop (length b) (x ++ b)).
  split; [rewrite length_drop, length_app; lia|].
  unfold move_within, bytes_of. rewrite E, (bind_eval _ _ _ _ w eq_refl).
  rewrite (app_assoc a x), (bind_eval _ _ _ _ _ (mem_read_mid _ _ _ _ _ w eq_refl eq_refl)).
  assert ((a ++ x) ++ b ++ c = a ++ take (length b) (x ++ b) ++ (drop (length b) (x ++ b) ++ c)) as ->.
  { by rewrite (app_assoc (take _ _)), take_drop, <-!app_assoc. }
  erewrite bind_eval; [|apply mem_write_mid; [done|rewrite length_take, length_app; lia]].
  done.
Qed.

(** Open a gap of the length of [gap] in front of [b]. *)
Lemma move_within_right v (a b gap c : list Z) (dst src n w : Z) :
  container v = Live (a ++ b ++ gap ++ c) ->
  dst = Z.of_nat (length a + length gap) -> src = Z.of_nat (length a) ->
  n = Z.of_nat (length b) ->
  exists rest, length rest = length gap /\
    move_within v dst src n w = Ok (with_container (Live (a ++ rest ++ b ++ c)) v, w).
Proof.
  intros E -> -> ->. exists (take (length gap) (b ++ gap)).
  split; [rewrite length_take, length_app; lia|].
  unfold move_within, bytes_of. rewrite E, (bind_eval _ _ _ _ w eq_refl).
  rewrite (bind_eval _ _ _ _ _ (mem_read_mid _ _ _ _ _ w eq_refl eq_refl)).
  assert (a ++ b ++ gap ++ c =
    (a ++ take (length gap) (b ++ gap)) ++ drop (length gap) (b ++ gap) ++ c) as ->.
  { by rewrite <-(app_assoc a), (app_assoc (take _ _)), take_drop, <-!app_assoc. }
  erewrite bind_eval; [|apply mem_write_mid;
    [rewrite !length_app, length_take, length_app; lia|rewrite length_drop, length_app; lia]].
  by rewrite <-app_assoc.
Qed.

Lemma move_into_mid v (a x c what : list Z) (dst w : Z) :
  container v = Live (a ++ x ++ c) -> dst = Z.of_nat (length a) ->
  Z.of_nat (length what) = struct_size v -> length x = length what ->
  move_into v dst what w = Ok (with_container (Live (a ++ what ++ c)) v, w).
Proof.
  intros E -> Hw Hx. unfold move_into, bytes_of. rewrite E, (bind_eval _ _ _ _ w eq_refl).
  pose proof (mem_read_mid [] what [] 0 (struct_size v) w eq_refl (eq_sym Hw)) as Hr.
  rewrite app_nil_r in Hr. cbn [app] in Hr. rewrite (bind_eval _ _ _ _ _ Hr).
  erewrite bind_eval; [|by apply mem_write_mid]. done.
Qed.

(** ** The operations, one by one *)

Section operations.
Context (v : vector) (xs : list (list Z)) (tail : list Z) (w : Z).
Context (Hv : vec_rep v xs tail).

Lemma rep_tail : Z.of_nat (length tail) = struct_size v * (capacity v - count v).
Proof.
  destruct Hv as [_ Hi Hc Hl _ _ _]. rewrite length_app in Hl.
  pose proof (concat_length _ _ Hi). nia.
Qed.

Lemma rep_room : 0 <= count v <= capacity v.
Proof. pose proof rep_tail. destruct Hv as [_ _ Hc _ ? _ _]. nia. Qed.

Lemma rep_small i : 0 <= i <= capacity v -> 0 <= struct_size v * i < 2 ^ 32.
Proof. destruct Hv. nia. Qed.

Lemma rep_capacity_u32 : capacity v < 2 ^ 32.
Proof. destruct Hv. nia. Qed.

(** A vector whose block was rewritten without changing its length. *)
Lemma rep_rebuild v' ys tail' :
  container v' = Live (concat ys ++ tail') -> struct_size v' = struct_size v ->
  capacity v' = capacity v -> count v' = Z.of_nat (length ys) ->
  Forall (fun x => Z.of_nat (length x) = struct_size v) ys ->
  length (concat ys ++ tail') = length (concat xs ++ tail) ->
  vec_rep v' ys tail'.
Proof.
  intros ? Hs Hc ? ? Hb. pose proof Hv as [].
  split; rewrite ?Hs, ?Hc; try done. by rewrite Hb.
Qed.

(** The block around the element [i]. *)
Lemma rep_at i :
  0 <= i < count v ->
  exists l1 x l2, xs = l1 ++ x :: l2 /\ Z.to_nat i = length l1 /\
    container v = Live (concat l1 ++ x ++ concat l2 ++ tail) /\
    Z.of_nat (length (concat l1)) = struct_size v * i /\
    Z.of_nat (length x) = struct_size v /\
    Z.of_nat (length (concat l2)) = struct_size v * (count v - i - 1) /\
    Forall (fun x => Z.of_nat (length x) = struct_size v) l1 /\
    Forall (fun x => Z.of_nat (length x) = struct_size v) l2 /\
    Z.of_nat (length l2) = count v - i - 1.
Proof.
  intros Hi. pose proof Hv as [Hl Hit Hc _ _ _ _].
  destruct (lookup_lt_is_Some_2 xs (Z.to_nat i)) as [x Hx]; [lia|].
  destruct (list_elem_of_split_length _ _ _ Hx) as (l1 & l2 & Exs & El1).
  rewrite Exs, Forall_app, Forall_cons in Hit. destruct Hit as (H1 & Hx1 & H2).
  pose proof (concat_length _ _ H1) as L1. pose proof (concat_length _ _ H2) as L2.
  rewrite Exs, !length_app in Hc. cbn [length] in Hc.
  exists l1, x, l2. split; [done|]. split; [done|]. split.
  { rewrite Hl, Exs, concat_app. cbn [concat]. by rewrite <-!app_assoc. }
  rewrite L1, L2. repeat split; try done; lia.
Qed.

(** Offsets inside the vector do not wrap. *)
Lemma rep_offset i : 0 <= i <= capacity v -> u32 (i * struct_size v) = struct_size v * i.
Proof.
  intros Hi. pose proof (rep_small i Hi). rewrite Z.mul_comm. apply u32_small. unfold is_u32. lia.
Qed.

Lemma at_index_rep i :
  0 <= i ->
  dal_vector_at_index v i = (if i <? count v then Some (struct_size v * i) else None).
Proof.
  intros Hi. unfold dal_vector_at_index. rewrite (rep_live _ _ _ Hv), Z.geb_leb.
  destruct (Z.leb_spec (count v) i), (Z.ltb_spec i (count v)); try lia; [done|].
  pose proof rep_room. by rewrite rep_offset by lia.
Qed.

Lemma remove_rep i :
  0 <= i < count v ->
  exists v' tail', dal_vector_remove_at_index v i w = Ok (true, v', w) /\
    vec_rep v' (delete (Z.to_nat i) xs) tail'.
Proof.
  intros Hi. destruct (rep_at i Hi) as (l1 & x & l2 & Exs & El1 & Hl & L1 & Lx & L2 & H1 & H2 & L3).
  pose proof rep_room. pose proof rep_capacity_u32.
  unfold dal_vector_remove_at_index. rewrite Z.geb_leb, (proj2 (Z.leb_gt _ _)) by lia.
  rewrite (u32_small (count v - 1)), (u32_small (i + 1)), (u32_small (count v - i - 1))
    by (unfold is_u32; lia).
  rewrite !rep_offset by lia.
  assert (exists v1 rest, (if i =? count v - 1 then mret v
      else move_within v (struct_size v * i) (struct_size v * (i + 1))
        (struct_size v * (count v - i - 1))) w = Ok (v1, w) /\ length rest = length x /\
    v1 = with_container (Live (concat l1 ++ concat l2 ++ rest ++ tail)) v)
    as (v1 & rest & E & Hr & ->).
  { destruct (Z.eqb_spec i (count v - 1)) as [Hlast|Hlast].
    - exists v, x. split; [done|]. split; [done|]. destruct l2; [|cbn [length] in *; lia].
      cbn [concat app] in Hl |- *. unfold with_container. rewrite <-Hl. by destruct v.
    - destruct (move_within_left v (concat l1) x (concat l2) tail (struct_size v * i)
        (struct_size v * (i + 1)) (struct_size v * (count v - i - 1)) w Hl) as (rest & Hr & E);
        [lia|rewrite length_app; lia|lia|]. eexists _, rest. split; [exact E|by split]. }
  rewrite (bind_eval _ _ _ _ _ E). eexists _, (rest ++ tail). split; [reflexivity|].
  rewrite El1, Exs, delete_middle. apply rep_rebuild; cbn; try done.
  - by rewrite concat_app, <-!app_assoc.
  - rewrite u32_small, length_app by (unfold is_u32; lia). lia.
  - by apply Forall_app.
  - rewrite Exs, !concat_app. cbn [concat]. rewrite !length_app. lia.
Qed.

Lemma set_rep i what :
  0 <= i < count v -> Z.of_nat (length what) = struct_size v ->
  exists v', dal_vector_set_at_index v what i w = Ok (v', w) /\
    vec_rep v' (<[Z.to_nat i := what]> xs) tail.
Proof.
  intros Hi Hw. destruct (rep_at i Hi) as (l1 & x & l2 & Exs & El1 & Hl & L1 & Lx & L2 & H1 & H2 & L3).
  unfold dal_vector_set_at_index. rewrite at_index_rep, (proj2 (Z.ltb_lt _ _)) by lia.
  eexists. split.
  { apply (move_into_mid v (concat l1) x (concat l2 ++ tail) what); [done|lia|done|lia]. }
  rewrite El1, Exs, insert_app_r_alt, Nat.sub_diag by lia. cbn [list_insert insert].
  apply rep_rebuild; cbn; try done.
  - by rewrite concat_app, <-!app_assoc; cbn; rewrite <-!app_assoc.
  - rewrite length_app. cbn. rewrite (rep_count _ _ _ Hv), Exs, length_app. done.
  - apply Forall_app. split; [done|]. by apply Forall_cons.
  - rewrite Exs, !concat_app. cbn [concat]. rewrite !length_app. lia.
Qed.

(** Reading the structure an index points at. *)
Lemma read_rep i :
  0 <= i < count v ->
  exists x, xs !! Z.to_nat i = Some x /\
    mem_read (concat xs ++ tail) (struct_size v * i) (struct_size v) w = Ok (x, w).
Proof.
  intros Hi. destruct (rep_at i Hi) as (l1 & x & l2 & Exs & El1 & Hl & L1 & Lx & _).
  exists x. split; [by rewrite El1, Exs, list_lookup_middle|].
  rewrite (rep_live _ _ _ Hv) in Hl. injection Hl as ->. apply mem_read_mid; lia.
Qed.

(** The block around a gap in front of the element [p]. *)
Lemma rep_gap p :
  0 <= p <= count v -> count v < capacity v ->
  exists l1 l2 gap tail', xs = l1 ++ l2 /\ Z.to_nat p = length l1 /\
    container v = Live (concat l1 ++ concat l2 ++ gap ++ tail') /\
    Z.of_nat (length (concat l1)) = struct_size v * p /\
    Z.of_nat (length (concat l2)) = struct_size v * (count v - p) /\
    Z.of_nat (length gap) = struct_size v /\ tail = gap ++ tail' /\
    Forall (fun x => Z.of_nat (length x) = struct_size v) l1 /\
    Forall (fun x => Z.of_nat (length x) = struct_size v) l2.
Proof.
  intros Hp Hc. pose proof Hv as [Hl Hit Hn _ Hs _ _]. pose proof rep_tail as Ht.
  assert (Forall (fun x => Z.of_nat (length x) = struct_size v) (take (Z.to_nat p) xs) /\
    Forall (fun x => Z.of_nat (length x) = struct_size v) (drop (Z.to_nat p) xs)) as [H1 H2].
  { split; [by apply Forall_take|by apply Forall_drop]. }
  pose proof (concat_length _ _ H1) as L1. pose proof (concat_length _ _ H2) as L2.
  rewrite length_take in L1. rewrite length_drop in L2.
  exists (take (Z.to_nat p) xs), (drop (Z.to_nat p) xs),
    (take (Z.to_nat (struct_size v)) tail), (drop (Z.to_nat (struct_size v)) tail).
  rewrite !take_drop. split; [done|]. split; [rewrite length_take; lia|].
  split; [by rewrite Hl, app_assoc, <-concat_app, take_drop|].
  split; [nia|]. split; [nia|]. split; [rewrite length_take; nia|]. done.
Qed.

Lemma insert_slot_rep p what :
  0 <= p <= count v -> count v < capacity v -> Z.of_nat (length what) = struct_size v ->
  exists v' tail', insert_slot v what p w = Ok (true, v', w) /\
    vec_rep v' (take (Z.to_nat p) xs ++ what :: drop (Z.to_nat p) xs) tail' /\
    struct_size v' = struct_size v /\ capacity v' = capacity v.
Proof.
  intros Hp Hc Hw.
  destruct (rep_gap p Hp Hc) as (l1 & l2 & gap & tail' & Exs & El1 & Hl & L1 & L2 & Lg & Et & H1 & H2).
  pose proof rep_room. pose proof rep_capacity_u32.
  assert (exists v1 rest, (if negb (count v =? 0) && (p <? count v)
      then move_within v (struct_size v * p + struct_size v) (struct_size v * p)
             (struct_size v * (count v - p)) else mret v) w = Ok (v1, w) /\
    length rest = length gap /\
    v1 = with_container (Live (concat l1 ++ rest ++ concat l2 ++ tail')) v)
    as (v1 & rest & E & Hr & ->).
  { destruct (negb (count v =? 0) && (p <? count v)) eqn:Eb.
    - destruct (move_within_right v (concat l1) (concat l2) gap tail'
        (struct_size v * p + struct_size v) (struct_size v * p) (struct_size v * (count v - p)) w Hl)
        as (rest & Hr & E); [lia..|]. eexists _, rest. split; [exact E|by split].
    - assert (concat l2 = []) as E2 by (apply nil_length_inv; nia).
      exists v, gap. split; [done|]. split; [done|]. rewrite E2 in Hl |- *.
      cbn [app] in Hl |- *. unfold with_container. rewrite <-Hl. by destruct v. }
  unfold insert_slot. rewrite (u32_small (count v - p)) by (unfold is_u32; lia).
  rewrite !(Z.mul_comm (struct_size v)), !rep_offset by lia.
  rewrite (bind_eval _ _ _ _ _ E). erewrite bind_eval; [|
    apply (move_into_mid _ (concat l1) rest (concat l2 ++ tail') what); [done|lia|done|lia]].
  eexists _, tail'. split; [reflexivity|]. split; [|done].
  rewrite El1, Exs, take_app_length, drop_app_length. apply rep_rebuild; cbn; try done.
  - rewrite concat_app. cbn [concat]. by rewrite <-!app_assoc.
  - rewrite u32_small by (unfold is_u32; lia).
    rewrite (rep_count _ _ _ Hv), Exs, !length_app. cbn [length]. lia.
  - apply Forall_app. split; [done|]. by apply Forall_cons.
  - rewrite Exs, Et, !concat_app. cbn [concat]. rewrite !length_app. lia.
Qed.

Lemma reserve_rep `{Allocator} cap :
  0 <= cap -> struct_size v * cap < 2 ^ 32 ->
  exists r v' tail', dal_vector_reserve v cap w = Ok (r, v', w) /\
    vec_rep v' xs tail' /\ struct_size v' = struct_size v /\ capacity v <= capacity v' /\
    if r then cap <= capacity v' else v' = v /\ exists l n, krealloc l n = None.
Proof.
  intros H0 Hfit. pose proof rep_tail as Ht. pose proof Hv as [Hl Hit Hn Hlen Hs Hc Hf].
  unfold dal_vector_reserve. destruct (Z.leb_spec cap (capacity v)) as [Hle|Hgt].
  { exists true, v, tail. split; [done|]. split; [done|]. lia. }
  rewrite Hl, (bind_eval _ _ _ _ w eq_refl).
  rewrite (Z.mul_comm cap), u32_small by (unfold is_u32; nia).
  destruct (krealloc (concat xs ++ tail) (struct_size v * cap)) as [l'|] eqn:E.
  - destruct (krealloc_spec _ _ _ E) as [L' K]. rewrite take_ge in K by nia.
    exists true. eexists _, (drop (length (concat xs)) l'). split; [reflexivity|].
    assert (l' = concat xs ++ drop (length (concat xs)) l') as El.
    { rewrite <-(take_drop (length (concat xs)) l') at 1. f_equal.
      apply (f_equal (take (length (concat xs)))) in K.
      by rewrite take_app_length, take_take, Nat.min_l in K by (rewrite length_app; lia). }
    split; [|cbn; lia]. split; cbn; try done; [by rewrite <-El| |lia].
    rewrite <-El, L'. lia.
  - exists false, v, tail. split; [done|]. split; [done|]. split; [done|]. split; [lia|].
    split; [done|]. by exists (concat xs ++ tail), (struct_size v * cap).
Qed.
End operations.

Lemma insert_rep `{Allocator} v xs tail w p what :
  vec_rep v xs tail -> 0 <= p <= count v -> Z.of_nat (length what) = struct_size v ->
  (count v = capacity v -> struct_size v * (2 * capacity v) < 2 ^ 32) ->
  exists r v' tail', dal_vector_insert_at v what p w = Ok (r, v', w) /\
    vec_rep v' (if r then take (Z.to_nat p) xs ++ what :: drop (Z.to_nat p) xs else xs) tail' /\
    (r = false -> exists l n, krealloc l n = None) /\
    (count v < capacity v -> r = true /\ capacity v' = capacity v) /\
    struct_size v' = struct_size v.
Proof.
  intros Hv Hp Hw Hgrow. unfold dal_vector_insert_at.
  pose proof (rep_room _ _ _ Hv) as Hroom. pose proof (rep_size _ _ _ Hv).
  destruct (Z.eqb_spec (count v) (capacity v)) as [Hfull|Hfree].
  - specialize (Hgrow Hfull). unfold calc_increased_capacity.
    rewrite Z.mul_comm, u32_small by (unfold is_u32; nia).
    destruct (reserve_rep _ _ _ w Hv (2 * capacity v)) as (r & v1 & tail1 & E & Hv1 & Hs & Hc & Hr);
      [lia|done|].
    rewrite (bind_eval _ _ _ _ _ E). cbv beta iota. destruct r.
    + assert (count v1 = count v) as Hn by (rewrite (rep_count _ _ _ Hv1), (rep_count _ _ _ Hv); done).
      pose proof (rep_capacity _ _ _ Hv).
      destruct (insert_slot_rep _ _ _ w Hv1 p what) as (v' & tail' & E' & Hv' & Hs' & Hc'); [lia..|].
      exists true, v', tail'. split; [done|]. split; [done|]. split; [done|]. split; [lia|].
      by rewrite Hs'.
    + destruct Hr as [-> Hr]. exists false, v, tail1. split; [done|]. split; [done|].
      split; [done|]. split; [lia|done].
  - rewrite (bind_eval _ _ _ _ w eq_refl). cbv beta iota.
    destruct (insert_slot_rep _ _ _ w Hv p what) as (v' & tail' & E' & Hv' & Hs' & Hc'); [lia..|].
    exists true, v', tail'. done.
Qed.

(** ** Creation *)

(** A vector in freshly zeroed memory, if the allocator grants it. *)
Definition fresh_vector `{Allocator} (ssize cnt cap : Z) : option vector :=
  if kzalloc_ok (ssize * cap)
  then Some (Vector (Live (replicate (Z.to_nat (ssize * cap)) 0)) ssize cnt cap) else None.

Section creation.
Context `{Allocator} (cap ssize w : Z).
Context (Hcap : 0 < cap) (Hsize : 0 < ssize) (Hfit : ssize * cap < 2 ^ 32).

Lemma construct_fresh : dal_vector_construct cap ssize w = Ok (fresh_vector ssize 0 cap, w).
Proof.
  unfold dal_vector_construct, dm_alloc, fresh_vector.
  rewrite (proj2 (Z.eqb_neq ssize 0)), (proj2 (Z.eqb_neq cap 0)) by lia. cbn [orb].
  rewrite u32_small by (unfold is_u32; nia). by destruct (kzalloc_ok (ssize * cap)).
Qed.

Lemma presized_fresh :
  dal_vector_presized_costruct cap None ssize w = Ok (fresh_vector ssize cap cap, w).
Proof.
  unfold dal_vector_presized_costruct, dm_alloc, fresh_vector.
  rewrite (proj2 (Z.eqb_neq ssize 0)), (proj2 (Z.eqb_neq cap 0)) by lia. cbn [orb].
  rewrite u32_small by (unfold is_u32; nia). by destruct (kzalloc_ok (ssize * cap)).
Qed.

Lemma fresh_rep v : fresh_vector ssize 0 cap = Some v -> exists tail, vec_rep v [] tail.
Proof.
  unfold fresh_vector. destruct (kzalloc_ok _); [|done]. intros [= <-].
  exists (replicate (Z.to_nat (ssize * cap)) 0).
  split; cbn; try done. rewrite length_replicate. nia.
Qed.
End creation.

Lemma create_fresh `{Allocator} (construct : W (option vector)) w ssize cnt cap :
  construct w = Ok (fresh_vector ssize cnt cap, w) ->
  create_with construct w = Ok (Some (Vector (Live (replicate (Z.to_nat (ssize * cap)) 0)) ssize cnt cap), w) \/
  (exists w', create_with construct w = Ok (None, w')) /\ exists n, kzalloc_ok n = false.
Proof.
  intros E. unfold create_with, dm_alloc.
  destruct (kzalloc_ok sizeof_vector) eqn:Ek; [|right; split; eauto].
  rewrite (bind_eval _ _ _ _ _ E). unfold fresh_vector.
  destruct (kzalloc_ok (ssize * cap)) eqn:Ek'; [by left|right; split; [by eexists|by eexists]].
Qed.

(** The clone has the same contents; unless it is empty it has no spare room. *)
Lemma clone_rep `{Allocator} v xs tail w :
  vec_rep v xs tail ->
  (exists c tailc, dal_vector_clone v w = Ok (Some c, w) /\ vec_rep c xs tailc) \/
  (exists w', dal_vector_clone v w = Ok (None, w')) /\ exists n, kzalloc_ok n = false.
Proof.
  intros Hv. unfold dal_vector_clone, dal_vector_get_count, dal_vector_create,
    dal_vector_presized_create.
  pose proof (rep_room _ _ _ Hv) as Hroom. pose proof Hv as [Hl Hit Hc Hlen Hs Hcap Hf].
  pose proof (concat_length _ _ Hit) as Lx. pose proof (rep_tail _ _ _ Hv) as Lt.
  set (n := if count v =? 0 then capacity v else count v).
  set (part := take (Z.to_nat (struct_size v * n)) (concat xs ++ tail)).
  assert (0 < n <= capacity v) as Hn by (subst n; destruct (Z.eqb_spec (count v) 0); lia).
  assert (exists tailc, part = concat xs ++ tailc) as [tailc Ep].
  { subst part n. destruct (Z.eqb_spec (count v) 0).
    - exists tail. by rewrite take_ge by nia.
    - exists []. rewrite app_nil_r, take_app_le, take_ge by nia. done. }
  assert (length part = Z.to_nat (struct_size v * n)) as Lp
    by (subst part; rewrite length_take; nia).
  match goal with |- context [mbind _ ?m w] => assert (
    m w = Ok (Some (Vector (Live (replicate (Z.to_nat (struct_size v * n)) 0))
      (struct_size v) (count v) n), w) \/
    (exists w', m w = Ok (None, w')) /\ exists n, kzalloc_ok n = false)
    as [E|[[w' E] Hk]] end.
  { subst n part. destruct (Z.eqb_spec (count v) 0) as [E0|E0].
    - rewrite E0. apply create_fresh, construct_fresh; lia.
    - apply create_fresh, presized_fresh; nia. }
  - left. rewrite (bind_eval _ _ _ _ _ E), Hl. cbn [container struct_size capacity bytes_of].
    rewrite (bind_eval _ _ _ _ w eq_refl), u32_small by (unfold is_u32; nia).
    assert (struct_size v * n <= Z.of_nat (length (concat xs ++ tail))) as Hle
      by (rewrite Hlen; nia).
    rewrite (bind_eval _ _ _ _ _ (mem_read_prefix _ _ w Hle)).
    fold part. rewrite (bind_eval _ _ _ _ w eq_refl).
    assert (length part = length (replicate (Z.to_nat (struct_size v * n)) 0)) as Lr
      by by rewrite length_replicate.
    rewrite (bind_eval _ _ _ _ _ (mem_write_all _ _ w Lr)). eexists _, tailc. split; [reflexivity|].
    split; cbn; try done; [by rewrite Ep|rewrite <-Ep, Lp; nia|lia|nia].
  - right. split; [|done]. rewrite (bind_eval _ _ _ _ _ E). by eexists.
Qed.

(** ** Simulation *)

(** The calls a client makes on a vector, and what it sees. *)
Inductive vop :=
  | VAppend (x : list Z)
  | VInsert (x : list Z) (p : Z)
  | VRemove (i : Z)
  | VSet (x : list Z) (i : Z)
  | VGet (i : Z)
  | VReserve (c : Z)
  | VClone
  | VClear.
Inductive vres := RUnit | RBool (b : bool) | RItem (o : option (list Z)).

Definition vrun `{Allocator} (op : vop) (v : vector) : W (vres * vector) :=
  match op with
  | VAppend x => '(b, v) ← dal_vector_append v x; mret (RBool b, v)
  | VInsert x p => '(b, v) ← dal_vector_insert_at v x p; mret (RBool b, v)
  | VRemove i => '(b, v) ← dal_vector_remove_at_index v i; mret (RBool b, v)
  | VSet x i => v ← dal_vector_set_at_index v x i; mret (RUnit, v)
  | VGet i =>
      match dal_vector_at_index v i with
      | None => mret (RItem None, v)
      | Some off => l ← bytes_of (container v); x ← mem_read l off (struct_size v);
                    mret (RItem (Some x), v)
      end
  | VReserve c => '(b, v) ← dal_vector_reserve v c; mret (RBool b, v)
  | VClone => o ← dal_vector_clone v;
              mret match o with Some c => (RBool true, c) | None => (RBool false, v) end
  | VClear => mret (RUnit, dal_vector_clear v)
  end.

(** What the client must ensure: structures of the right size, a position
    inside the vector, sizes below 4 GiB. *)
Definition vop_ok (v : vector) (op : vop) : Prop :=
  match op with
  | VAppend x => Z.of_nat (length x) = struct_size v /\
      (count v = capacity v -> struct_size v * (2 * capacity v) < 2 ^ 32)
  | VInsert x p => Z.of_nat (length x) = struct_size v /\ 0 <= p <= count v /\
      (count v = capacity v -> struct_size v * (2 * capacity v) < 2 ^ 32)
  | VRemove i | VGet i => 0 <= i
  | VSet x i => 0 <= i /\ Z.of_nat (length x) = struct_size v
  | VReserve c => 0 <= c /\ struct_size v * c < 2 ^ 32
  | VClone | VClear => True
  end.

Definition refuses `{Allocator} : Prop :=
  (exists l n, krealloc l n = None) \/ exists n, kzalloc_ok n = false.

(** The same calls on a list. *)
Definition vspec `{Allocator} (op : vop) (xs : list (list Z)) (r : vres) (ys : list (list Z)) : Prop :=
  let failed := r = RBool false /\ ys = xs /\ refuses in
  match op with
  | VAppend x => (r = RBool true /\ ys = xs ++ [x]) \/ failed
  | VInsert x p =>
      (r = RBool true /\ ys = take (Z.to_nat p) xs ++ x :: drop (Z.to_nat p) xs) \/ failed
  | VRemove i => r = RBool (i <? Z.of_nat (length xs)) /\ ys = delete (Z.to_nat i) xs
  | VSet x i => r = RUnit /\ ys = <[Z.to_nat i := x]> xs
  | VGet i => r = RItem (xs !! Z.to_nat i) /\ ys = xs
  | VReserve _ | VClone => (r = RBool true /\ ys = xs) \/ failed
  | VClear => r = RUnit /\ ys = []
  end.

Lemma vinsert_spec `{Allocator} v xs tail w x p :
  vec_rep v xs tail -> vop_ok v (VInsert x p) ->
  exists r v' ys tail', dal_vector_insert_at v x p w = Ok (r, v', w) /\
    vec_rep v' ys tail' /\ vspec (VInsert x p) xs (RBool r) ys.
Proof.
  intros Hv (Hx & Hp & Hg).
  destruct (insert_rep v xs tail w p x) as (r & v' & tail' & E & Hv' & Hr & _); [done..|].
  eexists _, v', _, tail'. split; [exact E|]. split; [exact Hv'|]. destruct r; [by left|right].
  split; [done|]. split; [done|]. left. auto.
Qed.

(** C33: The vector implements a list.  From a vector that holds [xs], every
    operation with valid arguments terminates without a memory error, returns
    what the list operation returns, and leaves a vector that holds the
    resulting list; growing and cloning may be refused by the allocator, and
    then nothing changes. *)
Theorem vector_simulates_list `{Allocator} (op : vop) (v : vector) xs tail w :
  vec_rep v xs tail -> vop_ok v op ->
  exists r v' ys tail' w', vrun op v w = Ok (r, v', w') /\
    vec_rep v' ys tail' /\ vspec op xs r ys.
Proof.
  intros Hv Hop. pose proof (rep_count _ _ _ Hv) as Hn. destruct op; cbn [vop_ok vspec vrun] in *.
  - destruct (vinsert_spec v xs tail w x (count v)) as (r & v' & ys & tail' & E & Hv' & Hr);
      [done|cbn; split; [apply Hop|split; [lia|apply Hop]]|].
    unfold dal_vector_append. rewrite (bind_eval _ _ _ _ _ E).
    exists (RBool r), v', ys, tail', w. split; [done|]. split; [done|].
    cbn in Hr. by rewrite Hn, Nat2Z.id, take_ge, drop_ge in Hr by lia.
  - destruct (vinsert_spec v xs tail w x p) as (r & v' & ys & tail' & E & Hv' & Hr); [done..|].
    rewrite (bind_eval _ _ _ _ _ E). by exists (RBool r), v', ys, tail', w.
  - destruct (Z.ltb_spec i (Z.of_nat (length xs))) as [Hi|Hi].
    + destruct (remove_rep v xs tail w Hv i) as (v' & tail' & E & Hv'); [lia|].
      rewrite (bind_eval _ _ _ _ _ E). by eexists _, v', _, tail', w.
    + unfold dal_vector_remove_at_index. rewrite Z.geb_leb, (proj2 (Z.leb_le _ _)) by lia.
      rewrite delete_take_drop, take_ge, drop_ge, app_nil_r by lia. by eexists _, v, xs, tail, w.
  - destruct (Z.lt_ge_cases i (count v)) as [Hi|Hi].
    + destruct (set_rep v xs tail w Hv i x) as (v' & E & Hv'); [lia|apply Hop|].
      rewrite (bind_eval _ _ _ _ _ E). by eexists _, v', _, tail, w.
    + unfold dal_vector_set_at_index. rewrite (at_index_rep _ _ _ Hv), (proj2 (Z.ltb_ge _ _)) by lia.
      rewrite list_insert_ge by lia. by eexists _, v, xs, tail, _.
  - rewrite (at_index_rep _ _ _ Hv) by lia. destruct (Z.ltb_spec i (count v)) as [Hi|Hi].
    + destruct (read_rep v xs tail w Hv i) as (x & Hx & E); [lia|].
      rewrite (rep_live _ _ _ Hv), (bind_eval _ _ _ _ w eq_refl), (bind_eval _ _ _ _ _ E), Hx.
      by eexists _, v, xs, tail, w.
    + rewrite lookup_ge_None_2 by lia. by eexists _, v, xs, tail, w.
  - destruct (reserve_rep v xs tail w Hv c) as (r & v' & tail' & E & Hv' & _ & _ & Hr); [apply Hop..|].
    rewrite (bind_eval _ _ _ _ _ E). eexists _, v', xs, tail', w. split; [reflexivity|].
    split; [done|]. destruct r; [by left|right].
    split; [done|]. split; [done|]. left. apply Hr.
  - destruct (clone_rep v xs tail w Hv) as [(c & tailc & E & Hc)|[[w' E] Hk]];
      rewrite (bind_eval _ _ _ _ _ E).
    + eexists _, c, xs, tailc, w. split; [reflexivity|]. split; [done|by left].
    + eexists _, v, xs, tail, w'. split; [reflexivity|]. split; [done|right].
      split; [done|]. split; [done|by right].
  - eexists _, _, [], (concat xs ++ tail), w. split; [reflexivity|]. split; [|done].
    apply (rep_rebuild v xs tail Hv); cbn; try done. by rewrite (rep_live _ _ _ Hv).
Qed.

(** ** Instances *)

(** An allocator that never fails. *)
#[refine] Definition generous : Allocator := {|
  kzalloc_ok := fun _ => true;
  krealloc := fun l n =>
    Some (take (Z.to_nat n) l ++ replicate (Z.to_nat n - length l) 0) |}.
Proof.
  intros l n l' [= <-]. split.
  - rewrite length_app, length_take, length_replicate. lia.
  - destruct (decide (length l <= Z.to_nat n)%nat) as [Hle|Hgt].
    + rewrite (take_ge l) by lia. by rewrite take_app_length.
    + rewrite (proj2 (Nat.sub_0_le _ _)), app_nil_r, (take_ge (take _ _)) by
        (rewrite ?length_take; lia). done.
Defined.

(** Two structures of two bytes in a full vector; inserting a third in the
    middle makes it grow. *)
Definition demo_vector : vector := Vector (Live [1; 2; 3; 4]) 2 2 2.

Lemma demo_vector_rep : vec_rep demo_vector [[1; 2]; [3; 4]] [].
Proof. split; cbn; try done. repeat constructor. Qed.

Lemma vector_simulates_list_witness :
  exists r v' ys tail' w', vrun (H := generous) (VInsert [8; 9] 1) demo_vector 0 = Ok (r, v', w') /\
    vec_rep v' ys tail' /\ vspec (H := generous) (VInsert [8; 9] 1) [[1; 2]; [3; 4]] r ys.
Proof.
  refine (vector_simulates_list (H := generous) (VInsert [8; 9] 1) demo_vector _ [] 0 _ _).
  - exact demo_vector_rep.
  - cbn. split; [done|]. lia.
Defined.
