(* ===== verification/Ddc.v ===== *)
(** * DDC transactions built on the vector (dal/dc/core/dc_link_ddc.c)

    A DDC query collects the I2C or AUX transfers it needs in a vector of
    payload structures and hands the vector's block to the engine as a C array.
    Structures are laid out as the x86-64 ABI does, so that the stride of the
    vector and the stride of the array can be compared.  The engines
    ([dm_helpers_submit_i2c], [dal_i2caux_submit_aux_command]) are parameters:
    they receive the payloads they read from the array. *)

From stdpp Require Import base numbers list.
From S2P Require Import Prelude CMonad DmServices Vector VectorSpec.

(** ** Structures in memory *)

Fixpoint le_bytes (n : nat) (z : Z) : list Z :=
  match n with O => [] | S n' => z mod 256 :: le_bytes n' (z / 256) end.
Fixpoint of_le (l : list Z) : Z :=
  match l with [] => 0 | b :: l' => b + 256 * of_le l' end.

Lemma length_le_bytes n z : length (le_bytes n z) = n.
Proof. revert z. induction n; intros z; cbn; auto. Qed.

Lemma of_le_bytes n z : 0 <= z < 256 ^ Z.of_nat n -> of_le (le_bytes n z) = z.
Proof.
  revert z. induction n as [|n IH]; intros z Hz; cbn [le_bytes of_le].
  - rewrite Z.pow_0_r in Hz. lia.
  - rewrite Nat2Z.inj_succ, Z.pow_succ_r in Hz by lia.
    rewrite IH; [|split; [apply Z.div_pos; lia|apply Z.div_lt_upper_bound; lia]].
    pose proof (Z.div_mod z 256). lia.
Qed.

(** [struct i2c_payload]: 16 bytes, two of them padding. *)
Record i2c_payload := I2cPayload {
  ip_write : bool;
  ip_address : Z;
  ip_length : Z;
  ip_data : Z }.
Definition sizeof_i2c_payload : Z := 16.

Definition i2c_bytes (p : i2c_payload) : list Z :=
  [Z.b2z (ip_write p); ip_address p; 0; 0] ++ le_bytes 4 (ip_length p) ++ le_bytes 8 (ip_data p).
Definition i2c_of_bytes (l : list Z) : i2c_payload :=
  I2cPayload (negb (nth 0 l 0 =? 0)) (nth 1 l 0) (of_le (take 4 (drop 4 l))) (of_le (take 8 (drop 8 l))).

Definition i2c_payload_wf (p : i2c_payload) : Prop :=
  is_u8 (ip_address p) /\ is_u32 (ip_length p) /\ is_u64 (ip_data p).

Lemma i2c_of_to_bytes p : i2c_payload_wf p -> i2c_of_bytes (i2c_bytes p) = p.
Proof.
  destruct p as [wr a len d]. unfold i2c_payload_wf. cbn [ip_address ip_length ip_data].
  intros (Ha & Hl & Hd). unfold i2c_of_bytes, i2c_bytes. cbn [app nth drop ip_write ip_address ip_length ip_data].
  rewrite drop_0, take_app_length', of_le_bytes by (rewrite ?length_le_bytes; unfold is_u32 in *; cbn; lia).
  rewrite (drop_app_length' (le_bytes 4 len)) by by rewrite length_le_bytes.
  rewrite take_ge, of_le_bytes by (rewrite ?length_le_bytes; unfold is_u64 in *; cbn; lia).
  by destruct wr.
Qed.

Lemma length_i2c_bytes p : Z.of_nat (length (i2c_bytes p)) = sizeof_i2c_payload.
Proof. unfold i2c_bytes. by rewrite !length_app, !length_le_bytes. Qed.

(** [struct aux_payload]: 24 bytes. *)
Record aux_payload := AuxPayload {
  ap_i2c_over_aux : bool;
  ap_write : bool;
  ap_address : Z;
  ap_length : Z;
  ap_data : Z }.

Definition aux_bytes (p : aux_payload) : list Z :=
  [Z.b2z (ap_i2c_over_aux p); Z.b2z (ap_write p); 0; 0] ++ le_bytes 4 (ap_address p) ++
  [ap_length p] ++ replicate 7 0 ++ le_bytes 8 (ap_data p).

(** [struct aux_payloads] holds a [struct vector]. *)
Definition sizeof_aux_payloads : Z := sizeof_vector.

Definition EDID_SEGMENT_SIZE : Z := 256.
Definition DEFAULT_AUX_MAX_DATA_SIZE : Z := 16.
Definition DDC_MIN (a b : Z) : Z := if a <? b then a else b.

Inductive ddc_transaction_type :=
  | DDC_TRANSACTION_TYPE_NONE
  | DDC_TRANSACTION_TYPE_I2C
  | DDC_TRANSACTION_TYPE_I2C_OVER_AUX
  | DDC_TRANSACTION_TYPE_I2C_OVER_AUX_WITH_DEFER
  | DDC_TRANSACTION_TYPE_I2C_OVER_AUX_RETRY_DEFER.

Definition dal_ddc_service_is_in_aux_transaction_mode (t : ddc_transaction_type) : bool :=
  match t with
  | DDC_TRANSACTION_TYPE_I2C_OVER_AUX
  | DDC_TRANSACTION_TYPE_I2C_OVER_AUX_WITH_DEFER
  | DDC_TRANSACTION_TYPE_I2C_OVER_AUX_RETRY_DEFER => true
  | _ => false
  end.

(** ** Operations *)

Section ddc.
Context `{Allocator}.

(** Both payload lists are a structure that embeds the vector. *)
Definition payloads_create (count ssize : Z) : W (option vector) :=
  match dm_alloc sizeof_vector with
  | Live _ => dal_vector_construct count ssize
  | _ => mret None
  end.

Definition dal_ddc_i2c_payloads_create (count : Z) : W (option vector) :=
  payloads_create count sizeof_i2c_payload.
Definition dal_ddc_aux_payloads_create (count : Z) : W (option vector) :=
  payloads_create count sizeof_aux_payloads.

(** The loops that cut a transfer into payloads.  The result of the append is
    ignored by the code. *)
Fixpoint i2c_add_loop (fuel : nat) (pos address len data : Z) (write : bool) (v : vector) : W vector :=
  if pos <? len then
    match fuel with
    | O => nofuel
    | S fuel' =>
        '(_, v) ← dal_vector_append v (i2c_bytes (I2cPayload write (u8 address)
          (DDC_MIN EDID_SEGMENT_SIZE (u32 (len - pos))) (u64 (data + pos))));
        i2c_add_loop fuel' (u32 (pos + EDID_SEGMENT_SIZE)) address len data write v
    end
  else mret v.
Definition dal_ddc_i2c_payloads_add (v : vector) (address len data : Z) (write : bool) : W vector :=
  i2c_add_loop (Z.to_nat len) 0 address len data write v.

Fixpoint aux_add_loop (fuel : nat) (pos address len data : Z) (write : bool) (v : vector) : W vector :=
  if pos <? len then
    match fuel with
    | O => nofuel
    | S fuel' =>
        '(_, v) ← dal_vector_append v (aux_bytes (AuxPayload true write address
          (u8 (DDC_MIN DEFAULT_AUX_MAX_DATA_SIZE (u32 (len - pos)))) (u64 (data + pos))));
        aux_add_loop fuel' (u32 (pos + DEFAULT_AUX_MAX_DATA_SIZE)) address len data write v
    end
  else mret v.
Definition dal_ddc_aux_payloads_add (v : vector) (address len data : Z) (write : bool) : W vector :=
  aux_add_loop (Z.to_nat len) 0 address len data write v.

(** The engine reads [n] structures of type [struct i2c_payload]. *)
Fixpoint i2c_array (n : nat) (off : Z) (l : list Z) : W (list i2c_payload) :=
  match n with
  | O => mret []
  | S n' =>
      x ← mem_read l off sizeof_i2c_payload;
      rest ← i2c_array n' (off + sizeof_i2c_payload) l;
      mret (i2c_of_bytes x :: rest)
  end.

(** [command.payloads] is read from the vector before the payloads are added:
    it is the block of [v], which [v'] still owns unless a reallocation, the
    only change of [capacity], has replaced it. *)
Definition command_block (v v' : vector) : W (list Z) :=
  if capacity v =? capacity v' then bytes_of (container v') else fault.

Definition payloads_num (payload_size write_size read_size : Z) : Z :=
  u32 (u32 (u32 (write_size + payload_size) - 1) / payload_size +
       u32 (u32 (read_size + payload_size) - 1) / payload_size).

Section query.
Context (dm_helpers_submit_i2c : list i2c_payload -> bool).
Context (dal_i2caux_submit_aux_command : list Z -> Z -> bool).

Definition query_i2c (address write_buf write_size read_buf read_size : Z) : W bool :=
  o ← dal_ddc_i2c_payloads_create (payloads_num EDID_SEGMENT_SIZE write_size read_size);
  v ← deref o;
  v' ← dal_ddc_i2c_payloads_add v address write_size write_buf true;
  v' ← dal_ddc_i2c_payloads_add v' address read_size read_buf false;
  l ← command_block v v';
  ps ← i2c_array (Z.to_nat (u8 (count v'))) 0 l;
  let ret := dm_helpers_submit_i2c ps in
  _ ← dal_vector_destruct v';
  mret ret.

Definition query_aux (address write_buf write_size read_buf read_size : Z) : W bool :=
  o ← dal_ddc_aux_payloads_create (payloads_num DEFAULT_AUX_MAX_DATA_SIZE write_size read_size);
  v ← deref o;
  v' ← dal_ddc_aux_payloads_add v address write_size write_buf true;
  v' ← dal_ddc_aux_payloads_add v' address read_size read_buf false;
  l ← command_block v v';
  let ret := dal_i2caux_submit_aux_command l (u8 (count v')) in
  _ ← dal_vector_destruct v';
  mret ret.

Definition dal_ddc_service_query_ddc_data (t : ddc_transaction_type)
    (address write_buf write_size read_buf read_size : Z) : W bool :=
  if (write_size >? EDID_SEGMENT_SIZE) || (read_size >? EDID_SEGMENT_SIZE) then mret false
  else if dal_ddc_service_is_in_aux_transaction_mode t
  then query_aux address write_buf write_size read_buf read_size
  else query_i2c address write_buf write_size read_buf read_size.
End query.
End ddc.

(** ** DDC queries

    Over I2C the engine receives one transfer for the bytes to write and one
    for the bytes to read, and the block it reads them from was not
    reallocated.  Over AUX the vector is created with the size of the wrong
    structure. *)

Section i2c.
Context `{Allocator}.

(** The transfer of [len] bytes at [buf], if there are any. *)
Definition transfer (write : bool) (address buf len : Z) : list i2c_payload :=
  if 0 <? len then [I2cPayload write (u8 address) len buf] else [].

Lemma transfer_wf write address buf len :
  is_u64 buf -> len <= 256 -> Forall i2c_payload_wf (transfer write address buf len).
Proof.
  intros Hb Hl. unfold transfer. destruct (Z.ltb_spec 0 len); [|by apply Forall_nil_2].
  apply Forall_cons. split; [|by apply Forall_nil_2].
  split; [cbn; cint|]. split; [cbn; unfold is_u32; lia|done].
Qed.

Lemma add_transfer v xs tail w address len buf write :
  vec_rep v xs tail -> struct_size v = sizeof_i2c_payload -> is_u64 buf -> 0 <= len <= 256 ->
  (0 < len -> count v < capacity v) ->
  exists v' tail', dal_ddc_i2c_payloads_add v address len buf write w = Ok (v', w) /\
    vec_rep v' (xs ++ (i2c_bytes <$> transfer write address buf len)) tail' /\
    capacity v' = capacity v /\ struct_size v' = struct_size v.
Proof.
  intros Hv Hs Hb Hl Hroom. unfold dal_ddc_i2c_payloads_add, transfer.
  destruct (Z.ltb_spec 0 len) as [Hlen|Hlen]; cycle 1.
  { exists v, tail. rewrite app_nil_r. replace len with 0 by lia. done. }
  destruct (Z.to_nat len) as [|fuel] eqn:Ef; [lia|]. cbn [i2c_add_loop].
  rewrite (proj2 (Z.ltb_lt 0 len) Hlen), Z.sub_0_r, Z.add_0_r, (u32_small len) by (unfold is_u32; lia).
  assert (u64 buf = buf) as -> by (unfold is_u64, u64 in *; apply Z.mod_small; lia).
  assert (DDC_MIN EDID_SEGMENT_SIZE len = len) as ->
    by (unfold DDC_MIN, EDID_SEGMENT_SIZE; destruct (Z.ltb_spec 256 len); lia).
  pose proof (rep_room _ _ _ Hv). pose proof (rep_count _ _ _ Hv) as Hn. specialize (Hroom Hlen).
  destruct (insert_rep v xs tail w (count v) (i2c_bytes (I2cPayload write (u8 address) len buf)))
    as (r & v' & tail' & E & Hv' & _ & Hr & Hs'); [done|lia|by rewrite length_i2c_bytes|lia|].
  destruct (Hr Hroom) as [-> Hc]. unfold dal_vector_append. rewrite (bind_eval _ _ _ _ _ E).
  cbv beta iota. rewrite Hn, Nat2Z.id, take_ge, drop_ge in Hv' by lia.
  exists v', tail'. split; [|done].
  destruct fuel; cbn [i2c_add_loop]; rewrite (proj2 (Z.ltb_ge _ _)); try done;
    unfold EDID_SEGMENT_SIZE; rewrite u32_small; unfold is_u32; lia.
Qed.

Lemma i2c_array_read xs a tail w :
  Forall (fun x => Z.of_nat (length x) = sizeof_i2c_payload) xs ->
  i2c_array (length xs) (Z.of_nat (length a)) (a ++ concat xs ++ tail) w =
    Ok (i2c_of_bytes <$> xs, w).
Proof.
  intros Hxs. revert a. induction Hxs as [|x xs Hx _ IH]; intros a; [done|].
  cbn [length i2c_array concat fmap list_fmap]. rewrite <-(app_assoc x).
  erewrite bind_eval; [|by apply mem_read_mid].
  specialize (IH (a ++ x)). rewrite length_app, Nat2Z.inj_add, Hx, <-app_assoc in IH.
  by rewrite (bind_eval _ _ _ _ _ IH).
Qed.

Lemma decode_payloads ps :
  Forall i2c_payload_wf ps -> i2c_of_bytes <$> (i2c_bytes <$> ps) = ps.
Proof.
  induction 1 as [|p ps Hp _ IH]; [done|]. rewrite !fmap_cons, IH, i2c_of_to_bytes by done. done.
Qed.
End i2c.

(** The number of payload slots the query reserves. *)
Lemma payloads_num_segment ws rs :
  0 <= ws <= 256 -> 0 <= rs <= 256 ->
  payloads_num EDID_SEGMENT_SIZE ws rs = (if 0 <? ws then 1 else 0) + (if 0 <? rs then 1 else 0).
Proof.
  intros Hw Hr. unfold payloads_num, EDID_SEGMENT_SIZE.
  assert (forall x, 0 <= x <= 256 -> u32 (u32 (x + 256) - 1) / 256 = if 0 <? x then 1 else 0) as E.
  { intros x Hx. destruct (Z.ltb_spec 0 x); cint. }
  rewrite !E by done. destruct (0 <? ws), (0 <? rs); reflexivity.
Qed.

Section query.
Context `{Allocator} (submit : list i2c_payload -> bool) (submit_aux : list Z -> Z -> bool).
Context (address write_buf write_size read_buf read_size w : Z).
Context (Hwbuf : is_u64 write_buf) (Hrbuf : is_u64 read_buf).
Context (Hws : 0 <= write_size <= 256) (Hrs : 0 <= read_size <= 256).
Context (Hsome : 0 < write_size + read_size).

Definition transfers : list i2c_payload :=
  transfer true address write_buf write_size ++ transfer false address read_buf read_size.

Lemma length_transfers :
  Z.of_nat (length transfers) = payloads_num EDID_SEGMENT_SIZE write_size read_size.
Proof.
  rewrite payloads_num_segment by done. unfold transfers, transfer. rewrite length_app.
  by destruct (0 <? write_size), (0 <? read_size).
Qed.

Lemma transfers_bound : 0 < payloads_num EDID_SEGMENT_SIZE write_size read_size <= 2.
Proof.
  rewrite payloads_num_segment by done.
  destruct (Z.ltb_spec 0 write_size), (Z.ltb_spec 0 read_size); lia.
Qed.

Lemma transfers_wf : Forall i2c_payload_wf transfers.
Proof. apply Forall_app. split; apply transfer_wf; (done || lia). Qed.

(** Filling a fresh vector of the reserved capacity does not reallocate it. *)
Lemma fill_payloads v tail :
  vec_rep v [] tail -> struct_size v = sizeof_i2c_payload ->
  capacity v = payloads_num EDID_SEGMENT_SIZE write_size read_size ->
  exists v1 v2 tail2,
    dal_ddc_i2c_payloads_add v address write_size write_buf true w = Ok (v1, w) /\
    dal_ddc_i2c_payloads_add v1 address read_size read_buf false w = Ok (v2, w) /\
    vec_rep v2 (i2c_bytes <$> transfers) tail2 /\ capacity v2 = capacity v.
Proof.
  intros Hv Hs Hcap. rewrite payloads_num_segment in Hcap by done.
  pose proof (rep_count _ _ _ Hv) as Hc. cbn in Hc.
  destruct (add_transfer v [] tail w address write_size write_buf true)
    as (v1 & tail1 & E1 & Hv1 & Hc1 & Hs1); [done..| |].
  { rewrite Hc, Hcap. intros ->%Z.ltb_lt. destruct (0 <? read_size); lia. }
  pose proof (rep_count _ _ _ Hv1) as Hn1. cbn [app] in Hv1, Hn1. rewrite length_fmap in Hn1.
  destruct (add_transfer v1 (i2c_bytes <$> transfer true address write_buf write_size) tail1 w
    address read_size read_buf false) as (v2 & tail2 & E2 & Hv2 & Hc2 & _); [done|congruence|done..| |].
  { rewrite Hn1, Hc1, Hcap. intros ->%Z.ltb_lt. unfold transfer. destruct (0 <? write_size); cbn; lia. }
  exists v1, v2, tail2. split; [done|]. split; [done|]. split; [|congruence].
  unfold transfers. by rewrite fmap_app.
Qed.

(** The part of the query behind the creation of the list. *)
Lemma query_with v tail :
  vec_rep v [] tail -> struct_size v = sizeof_i2c_payload ->
  capacity v = payloads_num EDID_SEGMENT_SIZE write_size read_size ->
  (v' ← dal_ddc_i2c_payloads_add v address write_size write_buf true;
   v' ← dal_ddc_i2c_payloads_add v' address read_size read_buf false;
   l ← command_block v v';
   ps ← i2c_array (Z.to_nat (u8 (count v'))) 0 l;
   let ret := submit ps in
   _ ← dal_vector_destruct v';
   mret ret) w = Ok (submit transfers, w).
Proof.
  intros Hv Hs Hcap. destruct (fill_payloads v tail Hv Hs Hcap) as (v1 & v2 & tail2 & E1 & E2 & Hv2 & Hc2).
  rewrite (bind_eval _ _ _ _ _ E1), (bind_eval _ _ _ _ _ E2).
  pose proof Hv2 as [Hl _ Hn _ _ _ _]. rewrite length_fmap in Hn.
  pose proof length_transfers as Ln. pose proof transfers_bound.
  unfold command_block. rewrite Hc2, Z.eqb_refl, Hl. cbn [bytes_of].
  rewrite (bind_eval _ _ _ _ w eq_refl). assert (u8 (count v2) = count v2) as -> by cint.
  rewrite Hn, Nat2Z.id.
  pose proof (i2c_array_read (i2c_bytes <$> transfers) [] tail2 w) as Er.
  rewrite length_fmap in Er. cbn [app length Z.of_nat] in Er.
  rewrite (bind_eval _ _ _ _ _ (Er ltac:(apply Forall_fmap, Forall_true; intros; apply length_i2c_bytes))).
  rewrite decode_payloads by exact transfers_wf.
  unfold dal_vector_destruct. by rewrite Hl.
Qed.

(** A DDC query over I2C hands the engine exactly the requested transfers, the
    write before the read, out of a block that stays in place while it is
    filled, and returns the engine's verdict; the block is freed afterwards.
    If the allocator refuses, the missing null check makes it fault. *)
Theorem i2c_query_transfers t :
  dal_ddc_service_is_in_aux_transaction_mode t = false ->
  dal_ddc_service_query_ddc_data submit submit_aux t address
    write_buf write_size read_buf read_size w =
  if kzalloc_ok sizeof_vector && kzalloc_ok (sizeof_i2c_payload * Z.of_nat (length transfers))
  then Ok (submit transfers, w) else Fault.
Proof using Hwbuf Hrbuf Hws Hrs Hsome.
  intros Ht. unfold dal_ddc_service_query_ddc_data. rewrite Ht, !Z.gtb_ltb.
  rewrite !(proj2 (Z.ltb_ge _ _)) by (unfold EDID_SEGMENT_SIZE; lia). cbn [orb].
  pose proof transfers_bound as Hb. rewrite length_transfers. unfold query_i2c.
  unfold dal_ddc_i2c_payloads_create, payloads_create, dm_alloc at 1.
  destruct (kzalloc_ok sizeof_vector); [cbn [andb]|done].
  erewrite bind_eval by (apply construct_fresh; unfold sizeof_i2c_payload; lia).
  pose proof (fresh_rep (payloads_num EDID_SEGMENT_SIZE write_size read_size) sizeof_i2c_payload) as Hf.
  unfold fresh_vector in *. destruct (kzalloc_ok _); [|done].
  edestruct Hf as [tail Hv]; [lia|unfold sizeof_i2c_payload; lia..|reflexivity|].
  erewrite bind_eval by reflexivity. by eapply query_with.
Qed.

Lemma move_into_short v l dst what :
  container v = Live l -> Z.of_nat (length what) < struct_size v ->
  move_into v dst what w = Fault.
Proof.
  intros E Hs. unfold move_into. rewrite E. cbn [bytes_of].
  rewrite (bind_eval (mret l) _ w l w eq_refl). apply bind_Fault. unfold mem_read.
  by rewrite (proj2 (Z.leb_gt _ _)) by lia.
Qed.

(** Appending an AUX payload reads behind the payload object: the vector was
    created for structures of 32 bytes, the payload has 24. *)
Lemma aux_add_faults v tail len buf write :
  vec_rep v [] tail -> struct_size v = sizeof_aux_payloads -> 0 < len < 2 ^ 32 ->
  dal_ddc_aux_payloads_add v address len buf write w = Fault.
Proof.
  intros Hv Hs Hl. unfold dal_ddc_aux_payloads_add.
  destruct (Z.to_nat len) as [|fuel] eqn:Ef; [lia|]. cbn [aux_add_loop].
  rewrite (proj2 (Z.ltb_lt 0 len)) by lia.
  pose proof (rep_count _ _ _ Hv) as Hc. cbn in Hc. pose proof (rep_capacity _ _ _ Hv).
  apply bind_Fault. unfold dal_vector_append, dal_vector_insert_at.
  rewrite (proj2 (Z.eqb_neq (count v) (capacity v))) by lia.
  rewrite (bind_eval (mret (true, v)) _ w (true, v) w eq_refl). cbv beta iota.
  unfold insert_slot. rewrite Hc.
  erewrite bind_eval by reflexivity. apply bind_Fault, move_into_short with (concat [] ++ tail).
  - apply Hv.
  - unfold aux_bytes. by rewrite !length_app, !length_le_bytes, Hs.
Qed.

(** A DDC query over AUX that has something to transfer never completes: the
    payload list is created with the size of [struct aux_payloads] (32 bytes)
    instead of [struct aux_payload] (24 bytes), so the first append copies
    eight bytes from behind the payload object. *)
Theorem aux_query_overreads t :
  dal_ddc_service_is_in_aux_transaction_mode t = true ->
  dal_ddc_service_query_ddc_data submit submit_aux t address
    write_buf write_size read_buf read_size w = Fault.
Proof using Hws Hrs Hsome.
  clear Hwbuf Hrbuf. intros Ht. unfold dal_ddc_service_query_ddc_data. rewrite Ht, !Z.gtb_ltb.
  rewrite !(proj2 (Z.ltb_ge _ _)) by (unfold EDID_SEGMENT_SIZE; lia). cbn [orb].
  unfold query_aux, dal_ddc_aux_payloads_create, payloads_create, dm_alloc at 1.
  destruct (kzalloc_ok sizeof_vector); [|done].
  set (n := payloads_num _ _ _).
  assert (0 < n <= 32) as Hn by
    (subst n; unfold payloads_num, DEFAULT_AUX_MAX_DATA_SIZE; cint).
  erewrite bind_eval by (apply construct_fresh; unfold sizeof_aux_payloads, sizeof_vector; lia).
  pose proof (fresh_rep n sizeof_aux_payloads) as Hf.
  unfold fresh_vector in *. destruct (kzalloc_ok _); [|done].
  edestruct Hf as [tail Hv]; [lia|unfold sizeof_aux_payloads, sizeof_vector; lia..|reflexivity|].
  erewrite bind_eval by reflexivity.
  destruct (Z.eq_dec write_size 0) as [->|Hne].
  - erewrite bind_eval by reflexivity. apply bind_Fault, (aux_add_faults _ tail); done || lia.
  - apply bind_Fault, (aux_add_faults _ tail); done || lia.
Qed.
End query.

(** ** Instances *)

Definition accept (ps : list i2c_payload) : bool := true.

Lemma i2c_query_transfers_witness :
  dal_ddc_service_query_ddc_data (H := generous) accept (fun _ _ => true) DDC_TRANSACTION_TYPE_I2C
    0x54 4096 1 8192 1 0 = Ok (true, 0).
Proof.
  refine (i2c_query_transfers (H := generous) accept (fun _ _ => true) 0x54 4096 1 8192 1 0
    _ _ _ _ _ DDC_TRANSACTION_TYPE_I2C _); try reflexivity; unfold is_u64; lia.
Defined.

Lemma aux_query_overreads_witness :
  dal_ddc_service_query_ddc_data (H := generous) accept (fun _ _ => true)
    DDC_TRANSACTION_TYPE_I2C_OVER_AUX 0x54 4096 1 8192 1 0 = Fault.
Proof.
  refine (aux_query_overreads (H := generous) accept (fun _ _ => true) 0x54 4096 1 8192 1 0
    _ _ _ DDC_TRANSACTION_TYPE_I2C_OVER_AUX _); try reflexivity; lia.
Defined.
