(* ===== verification/Bitmap.v ===== *)
(** * Kernel bitmaps

    [find_next_zero_bit], [set_bit] and [clear_bit] of the kernel, on a bitmap
    of known length: an access outside the bitmap is a [Fault].  Indices are
    bounded by the size argument, which is an [unsigned int], and do not
    wrap. *)

From stdpp Require Import base numbers list.
From S2P Require Import Prelude CMonad.

Section bitmap.
Context {S : Type}.

(** Look for the bit value [want] in the [k] bits from [i] on. *)
Fixpoint find_from (want : bool) (k i : nat) (bm : list bool) : M S nat :=
  match k with
  | O => mret i
  | Datatypes.S k' =>
      b ← deref (bm !! i);
      if eqb b want then mret i else find_from want k' (Datatypes.S i) bm
  end.

(** The first such bit at or behind [start] among the first [size] bits, or
    [size]. *)
Definition find_next (want : bool) (bm : list bool) (size start : nat) : M S nat :=
  if (size <=? start)%nat then mret size else find_from want (size - start) start bm.

Definition find_next_zero_bit : list bool -> nat -> nat -> M S nat := find_next false.
Definition find_next_bit : list bool -> nat -> nat -> M S nat := find_next true.

Definition assign_bit (b : bool) (i : nat) (bm : list bool) : M S (list bool) :=
  if (i <? length bm)%nat then mret (<[i := b]> bm) else fault.
Definition set_bit : nat -> list bool -> M S (list bool) := assign_bit true.
Definition clear_bit : nat -> list bool -> M S (list bool) := assign_bit false.

(** The loops that set or clear the bits [i .. i + k - 1]. *)
Fixpoint assign_range (b : bool) (k i : nat) (bm : list bool) : M S (list bool) :=
  match k with
  | O => mret bm
  | Datatypes.S k' => bm ← assign_bit b i bm; assign_range b k' (Datatypes.S i) bm
  end.

(** ** What they compute *)

Lemma find_from_spec want k i bm s :
  (i + k <= length bm)%nat ->
  exists j, find_from want k i bm s = Ok (j, s) /\ (i <= j <= i + k)%nat /\
    (forall x, (i <= x < j)%nat -> bm !! x = Some (negb want)) /\
    ((j < i + k)%nat -> bm !! j = Some want).
Proof.
  revert i. induction k as [|k IH]; intros i Hl; cbn [find_from].
  { exists i. split; [done|]. split; [lia|]. split; intros; lia. }
  destruct (lookup_lt_is_Some_2 bm i) as [b Hb]; [lia|].
  rewrite Hb. rewrite (bind_eval (deref (Some b)) _ s b s eq_refl).
  destruct (eqb b want) eqn:E.
  - apply eqb_prop in E as ->. exists i. split; [done|]. split; [lia|]. split; [lia|done].
  - destruct (IH (Datatypes.S i)) as (j & Ej & Hj & Hbefore & Hat); [lia|].
    exists j. split; [done|]. split; [lia|]. split; [|intros; apply Hat; lia].
    intros x Hx. destruct (decide (x = i)) as [->|]; [|apply Hbefore; lia].
    rewrite Hb. f_equal. by destruct b, want.
Qed.

Lemma find_next_spec want bm size start s :
  (size <= length bm)%nat -> (start <= size)%nat ->
  exists j, find_next want bm size start s = Ok (j, s) /\ (start <= j <= size)%nat /\
    (forall x, (start <= x < j)%nat -> bm !! x = Some (negb want)) /\
    ((j < size)%nat -> bm !! j = Some want).
Proof.
  intros Hl Hs. unfold find_next. destruct (Nat.leb_spec size start).
  { exists size. split; [done|]. split; [lia|]. split; intros; lia. }
  destruct (find_from_spec want (size - start) start bm s) as (j & E & Hj & Hb & Ha); [lia|].
  exists j. split; [done|]. split; [lia|]. split; [done|]. intros. apply Ha. lia.
Qed.

Lemma assign_bit_ok b i bm s :
  (i < length bm)%nat -> assign_bit b i bm s = Ok (<[i := b]> bm, s).
Proof. intros Hi. unfold assign_bit. by rewrite (proj2 (Nat.ltb_lt _ _) Hi). Qed.

Lemma assign_range_spec b k i bm s :
  (i + k <= length bm)%nat ->
  exists bm', assign_range b k i bm s = Ok (bm', s) /\ length bm' = length bm /\
    forall x, bm' !! x =
      if decide (i <= x < i + k)%nat then Some b else bm !! x.
Proof.
  revert i bm. induction k as [|k IH]; intros i bm Hl; cbn [assign_range].
  { exists bm. split; [done|]. split; [done|]. intros x. by rewrite decide_False by lia. }
  rewrite (bind_eval _ _ _ _ _ (assign_bit_ok b i bm s ltac:(lia))).
  destruct (IH (Datatypes.S i) (<[i := b]> bm)) as (bm' & E & Hlen & Hx);
    [rewrite length_insert; lia|].
  rewrite length_insert in Hlen. exists bm'. split; [done|]. split; [done|].
  intros x. rewrite Hx. destruct (decide (i = x)) as [<-|Hne].
  - rewrite decide_False by lia. rewrite (decide_True (P := (i <= i < i + Datatypes.S k)%nat)) by lia.
    by rewrite list_lookup_insert_eq by lia.
  - rewrite list_lookup_insert_ne by done. destruct (decide (Datatypes.S i <= x < Datatypes.S i + k)%nat).
    + by rewrite decide_True by lia.
    + by rewrite decide_False by lia.
Qed.
End bitmap.
