(* ===== verification/KfdGtt.v ===== *)
(** * The GTT sub-allocator of the HSA driver (amdkfd/kfd_device.c)

    One GTT buffer is cut into chunks of equal size; a bitmap says which chunks
    are taken.  An allocation takes the first run of free chunks that is long
    enough.  Chunk numbers are below [gtt_sa_num_of_chunks], an [unsigned int],
    and never wrap; sizes are [unsigned int] values.  [BUG_ON] stops the
    kernel and is a [Fault]. *)

From stdpp Require Import base numbers list.
From S2P Require Import Prelude CMonad Bitmap.

Record kfd_dev := KfdDev {
  gtt_sa_chunk_size : Z;
  gtt_sa_num_of_chunks : nat;
  gtt_sa_bitmap : list bool;
  gtt_start_gpu_addr : Z;
  gtt_start_cpu_ptr : Z }.

Record kfd_mem_obj := KfdMemObj {
  range_start : nat;
  range_end : nat;
  gpu_addr : Z;
  cpu_ptr : Z }.

Definition set_bitmap (bm : list bool) (kfd : kfd_dev) : kfd_dev :=
  KfdDev (gtt_sa_chunk_size kfd) (gtt_sa_num_of_chunks kfd) bm
    (gtt_start_gpu_addr kfd) (gtt_start_cpu_ptr kfd).

Notation KM := (M kfd_dev).

(** The bitmap has [num_of_bits] bytes, where [num_of_bits] is the number of
    chunks divided by eight. *)
Definition kfd_gtt_sa_init (alloc : bool) (buf_size chunk_size : Z) : KM Z :=
  if (buf_size <? chunk_size) || (buf_size =? 0) || (chunk_size =? 0) then fault
  else
    let num_of_chunks := buf_size / chunk_size in
    let num_of_bits := num_of_chunks / 8 in
    if num_of_bits =? 0 then fault
    else if alloc then
      _ ← modify (fun kfd => KfdDev chunk_size (Z.to_nat num_of_chunks)
            (replicate (8 * Z.to_nat num_of_bits) false)
            (gtt_start_gpu_addr kfd) (gtt_start_cpu_ptr kfd));
      mret 0
    else
      _ ← modify (fun kfd => KfdDev chunk_size (Z.to_nat num_of_chunks) []
            (gtt_start_gpu_addr kfd) (gtt_start_cpu_ptr kfd));
      mret (- ENOMEM).

Definition kfd_gtt_sa_calc_gpu_addr (start_addr : Z) (bit_num : nat) (chunk_size : Z) : Z :=
  u64 (start_addr + u32 (Z.of_nat bit_num * chunk_size)).
Definition kfd_gtt_sa_calc_cpu_addr (start_addr : Z) (bit_num : nat) (chunk_size : Z) : Z :=
  u64 (start_addr + u32 (Z.of_nat bit_num * chunk_size)).

Section search.
Context (chunk_size : Z) (n : nat) (bm : list bool).

(** How the loop over the following chunks ends: with the last chunk of the
    run, with a chunk in use from which the search restarts, or at the end of
    the buffer. *)
Inductive extend_result := Extended (range_end : nat) | Restart (start_search : nat) | NoFreeChunk.

Fixpoint extend_loop (fuel found : nat) (cur_size : Z) : KM extend_result :=
  match fuel with
  | O => nofuel
  | S fuel' =>
      let found := S found in
      re ← find_next_zero_bit bm n found;
      if negb (re =? found)%nat then mret (Restart found)
      else if (found =? n)%nat then mret NoFreeChunk
      else
        let cur_size := if cur_size <=? chunk_size then 0 else u32 (cur_size - chunk_size) in
        if 0 <? cur_size then extend_loop fuel' found cur_size else mret (Extended found)
  end.

(** The code from [kfd_gtt_restart_search] on: the range of chunks, or [None]
    where it jumps to [kfd_gtt_no_free_chunk]. *)
Fixpoint restart_search (fuel start_search : nat) (size : Z) : KM (option (nat * nat)) :=
  match fuel with
  | O => nofuel
  | S fuel' =>
      found ← find_next_zero_bit bm n start_search;
      if (found =? n)%nat then mret None
      else if size <=? chunk_size then mret (Some (found, found))
      else
        r ← extend_loop (S n) found (u32 (size - chunk_size));
        match r with
        | Extended re => mret (Some (found, re))
        | Restart start => restart_search fuel' start size
        | NoFreeChunk => mret None
        end
  end.
End search.

(** The failure path calls [kfree(mem_obj)] on the address of the caller's
    pointer variable, which is no heap object. *)
Definition kfd_gtt_sa_allocate (alloc : bool) (size : Z) : KM (Z * option kfd_mem_obj) :=
  kfd ← gets id;
  if size =? 0 then mret (- EINVAL, None)
  else if size >? u32 (Z.of_nat (gtt_sa_num_of_chunks kfd) * gtt_sa_chunk_size kfd)
  then mret (- ENOMEM, None)
  else if negb alloc then mret (- ENOMEM, None)
  else
    r ← restart_search (gtt_sa_chunk_size kfd) (gtt_sa_num_of_chunks kfd) (gtt_sa_bitmap kfd)
          (S (gtt_sa_num_of_chunks kfd)) 0 size;
    match r with
    | None => fault
    | Some (rs, re) =>
        bm ← assign_range true (S re - rs) rs (gtt_sa_bitmap kfd);
        _ ← modify (set_bitmap bm);
        mret (0, Some (KfdMemObj rs re
          (kfd_gtt_sa_calc_gpu_addr (gtt_start_gpu_addr kfd) rs (gtt_sa_chunk_size kfd))
          (kfd_gtt_sa_calc_cpu_addr (gtt_start_cpu_ptr kfd) rs (gtt_sa_chunk_size kfd))))
    end.

Definition kfd_gtt_sa_free (mem_obj : option kfd_mem_obj) : KM Z :=
  match mem_obj with
  | None => mret 0
  | Some o =>
      kfd ← gets id;
      bm ← assign_range false (S (range_end o) - range_start o) (range_start o) (gtt_sa_bitmap kfd);
      _ ← modify (set_bitmap bm);
      mret 0
  end.

(** ** Correctness of the GTT sub-allocator: first fit

    An allocation takes the first run of free chunks that is long enough, and
    marks exactly this run; freeing restores the bitmap. *)

Definition free_run (bm : list bool) (n s k : nat) : Prop :=
  (s + k <= n)%nat /\ forall i, (s <= i < s + k)%nat -> bm !! i = Some false.

(** The number of chunks that hold [size] bytes. *)
Definition chunks (cs size : Z) : nat := Z.to_nat ((size + cs - 1) / cs).

Lemma chunks_small cs size : 0 < size <= cs -> chunks cs size = 1%nat.
Proof.
  intros H. unfold chunks. replace (size + cs - 1) with (1 * cs + (size - 1)) by lia.
  rewrite Z.div_add_l, Z.div_small by lia. done.
Qed.

Lemma chunks_more cs size : 0 < cs < size -> chunks cs size = S (chunks cs (size - cs)).
Proof.
  intros H. unfold chunks. replace (size + cs - 1) with (1 * cs + (size - cs + cs - 1)) by lia.
  rewrite Z.div_add_l, Z.add_1_l, Z2Nat.inj_succ; [done|apply Z.div_pos; lia|lia].
Qed.

Section search.
Context (cs : Z) (n : nat) (bm : list bool) (kfd : kfd_dev).
Context (Hcs : 0 < cs) (Hlen : (n <= length bm)%nat).

Lemma find_zero start :
  (start <= n)%nat ->
  exists j, find_next_zero_bit bm n start kfd = Ok (j, kfd) /\ (start <= j <= n)%nat /\
    (forall x, (start <= x < j)%nat -> bm !! x = Some true) /\
    ((j < n)%nat -> bm !! j = Some false).
Proof. intros Hs. by apply find_next_spec. Qed.

(** From a free chunk [found], the loop walks over the free chunks that follow. *)
Lemma extend_loop_spec fuel : forall found cur,
  0 < cur < 2 ^ 32 -> (found < n)%nat -> (n - found < fuel)%nat ->
  exists r, extend_loop cs n bm fuel found cur kfd = Ok (r, kfd) /\
    match r with
    | Extended e => e = (found + chunks cs cur)%nat /\ (e < n)%nat /\
        forall i, (found < i <= e)%nat -> bm !! i = Some false
    | Restart s => (found < s <= found + chunks cs cur)%nat /\ (s < n)%nat /\ bm !! s = Some true
    | NoFreeChunk => (n <= found + chunks cs cur)%nat
    end.
Proof.
  induction fuel as [|fuel IH]; intros found cur Hcur Hf Hfuel; [lia|].
  cbn [extend_loop]. destruct (find_zero (S found)) as (j & E & Hj & Hused & Hfree); [lia|].
  rewrite (bind_eval _ _ _ _ _ E).
  assert (1 <= chunks cs cur)%nat as Hk.
  { destruct (Z.le_gt_cases cur cs); [by rewrite chunks_small by lia|].
    rewrite chunks_more by lia. lia. }
  destruct (Nat.eqb_spec j (S found)) as [->|Hne]; cbn [negb]; cycle 1.
  { exists (Restart (S found)). split; [done|]. split; [lia|].
    assert (S found < n)%nat by lia. split; [done|]. apply Hused. lia. }
  destruct (Nat.eqb_spec (S found) n) as [En|En].
  { exists NoFreeChunk. split; [done|]. lia. }
  destruct (Z.leb_spec cur cs) as [Hle|Hgt]; [change (0 <? 0) with false; cbv iota|].
  { exists (Extended (S found)). rewrite chunks_small by lia. split; [done|]. split; [lia|].
    split; [lia|]. intros i Hi. replace i with (S found) by lia. apply Hfree. lia. }
  rewrite (u32_small (cur - cs)) by (unfold is_u32; lia).
  rewrite (proj2 (Z.ltb_lt 0 (cur - cs))) by lia.
  destruct (IH (S found) (cur - cs)) as (r & Er & Hr); [lia..|]. exists r. split; [done|].
  rewrite (chunks_more cs cur) by lia. destruct r as [e|s|]; [|destruct Hr; split; [lia|done]|lia].
  destruct Hr as (-> & He & Hi). split; [lia|]. split; [done|]. intros i Hr.
  destruct (decide (i = S found)) as [->|]; [apply Hfree; lia|apply Hi; lia].
Qed.

(** A used chunk blocks every run that covers it. *)
Lemma used_blocks s s' k : bm !! s = Some true -> (s' <= s < s' + k)%nat -> ~ free_run bm n s' k.
Proof. intros Hs Hr [_ Hf]. rewrite (Hf s) in Hs by lia. done. Qed.

Lemma restart_search_spec size fuel : forall start,
  0 < size < 2 ^ 32 -> (start <= n)%nat -> (n - start < fuel)%nat ->
  (forall s, (s < start)%nat -> ~ free_run bm n s (chunks cs size)) ->
  exists r, restart_search cs n bm fuel start size kfd = Ok (r, kfd) /\
    match r with
    | Some (rs, re) => (S re = rs + chunks cs size)%nat /\ free_run bm n rs (chunks cs size) /\
        forall s, (s < rs)%nat -> ~ free_run bm n s (chunks cs size)
    | None => forall s, ~ free_run bm n s (chunks cs size)
    end.
Proof.
  induction fuel as [|fuel IH]; intros start Hsz Hst Hfuel Hno; [lia|].
  cbn [restart_search]. destruct (find_zero start Hst) as (j & E & Hj & Hused & Hfree).
  rewrite (bind_eval _ _ _ _ _ E).
  assert (1 <= chunks cs size)%nat as Hk.
  { destruct (Z.le_gt_cases size cs); [by rewrite chunks_small by lia|].
    rewrite chunks_more by lia. lia. }
  assert (forall s, (s < j)%nat -> ~ free_run bm n s (chunks cs size)) as Hno'.
  { intros s Hs. destruct (decide (s < start)%nat); [by apply Hno|].
    apply (used_blocks s); [apply Hused|]; lia. }
  destruct (Nat.eqb_spec j n) as [->|Hjn].
  { exists None. split; [done|]. intros s Hs. destruct (decide (s < n)%nat); [by apply (Hno' s)|].
    destruct Hs as [Hs _]. lia. }
  specialize (Hfree ltac:(lia)).
  destruct (Z.leb_spec size cs) as [Hle|Hgt].
  { exists (Some (j, j)). rewrite chunks_small in * by lia. split; [done|]. split; [lia|].
    split; [|done]. split; [lia|]. intros i Hi. by replace i with j by lia. }
  rewrite u32_small by (unfold is_u32; lia). pose proof (chunks_more cs size ltac:(lia)) as Ek.
  destruct (extend_loop_spec (S n) j (size - cs)) as (r & Er & Hr); [lia..|].
  rewrite (bind_eval _ _ _ _ _ Er). destruct r as [e|s|].
  - destruct Hr as (-> & He & Hi). exists (Some (j, (j + chunks cs (size - cs))%nat)).
    split; [done|]. split; [lia|]. split; [|done]. split; [lia|]. intros i Hir.
    destruct (decide (i = j)) as [->|]; [done|]. apply Hi. lia.
  - destruct Hr as (Hs & Hsn & Hus). destruct (IH s) as (r & Er' & Hr'); [lia..| |by exists r].
    intros s' Hs'. destruct (decide (s' < j)%nat); [by apply Hno'|]. apply (used_blocks s); [done|lia].
  - exists None. split; [done|]. intros s Hs.
    destruct (decide (s < j)%nat); [by apply (Hno' s)|]. destruct Hs as [Hs _]. lia.
Qed.
End search.

(** ** The allocator *)

Record gtt_wf (kfd : kfd_dev) : Prop := {
  gwf_chunk : 0 < gtt_sa_chunk_size kfd;
  gwf_bitmap : length (gtt_sa_bitmap kfd) = gtt_sa_num_of_chunks kfd;
  gwf_fits : Z.of_nat (gtt_sa_num_of_chunks kfd) * gtt_sa_chunk_size kfd < 2 ^ 32 }.

Lemma bitmap_ext (bm bm' : list bool) : (forall i, bm !! i = bm' !! i) -> bm = bm'.
Proof. apply list_eq. Qed.

(** Clearing a run that was free before it was set gives the bitmap back. *)
Lemma free_restores kfd bm' rs re k gpu cpu :
  gtt_wf kfd -> (S re = rs + k)%nat ->
  free_run (gtt_sa_bitmap kfd) (gtt_sa_num_of_chunks kfd) rs k ->
  length bm' = length (gtt_sa_bitmap kfd) ->
  (forall i, bm' !! i = if decide (rs <= i < rs + k)%nat then Some true else gtt_sa_bitmap kfd !! i) ->
  kfd_gtt_sa_free (Some (KfdMemObj rs re gpu cpu)) (set_bitmap bm' kfd) = Ok (0, kfd).
Proof.
  intros Hk Hre [Hfit Hfree] Hl Hbm. unfold kfd_gtt_sa_free.
  rewrite (bind_eval (gets id) _ _ _ _ eq_refl). cbn [range_start range_end id gtt_sa_bitmap set_bitmap].
  destruct (assign_range_spec false (S re - rs) rs bm' (set_bitmap bm' kfd)) as (bm & E & _ & Hx).
  { rewrite Hl, (gwf_bitmap _ Hk). lia. }
  rewrite (bind_eval _ _ _ _ _ E). erewrite bind_eval by reflexivity. unfold mret, M_ret.
  assert (bm = gtt_sa_bitmap kfd) as ->; [|by destruct kfd].
  apply bitmap_ext. intros i. rewrite Hx. replace (rs + (S re - rs))%nat with (rs + k)%nat by lia.
  rewrite Hbm. destruct (decide (rs <= i < rs + k)%nat); [|done]. symmetry. by apply Hfree.
Qed.

(** The GTT sub-allocator is first fit and complete: for a request of [size]
    bytes it finds the first run of free chunks that holds it whenever there is
    one, marks exactly these chunks, returns their address, and a later free
    restores the bitmap; the search always terminates.  Invalid sizes are
    rejected without a change.  When no run is long enough, the error path
    frees the caller's pointer variable, which is undefined. *)
Theorem gtt_allocate_first_fit kfd size :
  gtt_wf kfd -> 0 <= size < 2 ^ 32 ->
  let n := gtt_sa_num_of_chunks kfd in
  let cs := gtt_sa_chunk_size kfd in
  let k := chunks cs size in
  let run := kfd_gtt_sa_allocate true size kfd in
  (size = 0 -> run = Ok (- EINVAL, None, kfd)) /\
  (Z.of_nat n * cs < size -> run = Ok (- ENOMEM, None, kfd)) /\
  (0 < size <= Z.of_nat n * cs ->
   (forall s, ~ free_run (gtt_sa_bitmap kfd) n s k) -> run = Fault) /\
  (0 < size <= Z.of_nat n * cs ->
   forall rs, free_run (gtt_sa_bitmap kfd) n rs k ->
   (forall s, (s < rs)%nat -> ~ free_run (gtt_sa_bitmap kfd) n s k) ->
   exists o kfd', run = Ok (0, Some o, kfd') /\
     range_start o = rs /\ S (range_end o) = (rs + k)%nat /\
     gpu_addr o = u64 (gtt_start_gpu_addr kfd + Z.of_nat rs * cs) /\
     (forall i, gtt_sa_bitmap kfd' !! i =
        if decide (rs <= i < rs + k)%nat then Some true else gtt_sa_bitmap kfd !! i) /\
     kfd_gtt_sa_free (Some o) kfd' = Ok (0, kfd)).
Proof.
  intros Hk Hsz n cs k run. pose proof Hk as [Hcs Hlen Hfit].
  unfold run, kfd_gtt_sa_allocate. rewrite (bind_eval (gets id) _ kfd kfd kfd eq_refl).
  cbn [id negb]. rewrite Z.gtb_ltb, u32_small by (unfold is_u32; lia). fold n cs.
  split; [by intros ->|]. split.
  { intros Hbig. rewrite (proj2 (Z.eqb_neq size 0)), (proj2 (Z.ltb_lt _ _)) by lia. done. }
  destruct (Z.eqb_spec size 0) as [?|Hne]; [split; lia|].
  destruct (Z.ltb_spec (Z.of_nat n * cs) size) as [?|Hle]; [split; lia|].
  destruct (restart_search_spec cs n (gtt_sa_bitmap kfd) kfd Hcs ltac:(unfold n; lia) size (S n) 0)
    as (r & E & Hr); [lia..|].
  rewrite (bind_eval _ _ _ _ _ E). fold k in Hr. destruct r as [[rs re]|]; cycle 1.
  { split; [done|]. intros _ rs Hrs _. by destruct (Hr rs). }
  destruct Hr as (Hre & Hrun & Hfirst). split; [intros _ Hno; by destruct (Hno rs)|].
  intros _ rs' Hrs' Hfirst'. assert (rs' = rs) as ->.
  { destruct (lt_eq_lt_dec rs rs') as [[?|?]|?]; [by destruct (Hfirst' rs)|done|by destruct (Hfirst rs')]. }
  destruct (assign_range_spec true (S re - rs) rs (gtt_sa_bitmap kfd) kfd) as (bm' & Ea & Hl' & Hx).
  { destruct Hrun. rewrite Hlen. unfold n in *. lia. }
  replace (rs + (S re - rs))%nat with (rs + k)%nat in Hx by lia.
  rewrite (bind_eval _ _ _ _ _ Ea). eexists _, (set_bitmap bm' kfd).
  split; [reflexivity|]. split; [done|]. split; [done|]. split.
  { cbn. unfold kfd_gtt_sa_calc_gpu_addr. rewrite u32_small; [done|].
    destruct Hrun. unfold is_u32. fold cs. nia. }
  split; [done|]. by eapply free_restores.
Qed.

(** ** Instance *)

(** Eight chunks of 512 bytes, the first and the third in use: a request of
    600 bytes takes the chunks 3 and 4. *)
Definition demo_kfd : kfd_dev :=
  KfdDev 512 8 [true; false; true; false; false; false; false; false] 4096 65536.

Lemma gtt_allocate_first_fit_witness :
  exists o kfd', kfd_gtt_sa_allocate true 600 demo_kfd = Ok (0, Some o, kfd') /\
    range_start o = 3%nat /\ S (range_end o) = 5%nat /\ gpu_addr o = 5632 /\
    kfd_gtt_sa_free (Some o) kfd' = Ok (0, demo_kfd).
Proof.
  destruct (gtt_allocate_first_fit demo_kfd 600) as (_ & _ & _ & Hfit).
  - split; cbn; lia.
  - lia.
  - destruct (Hfit ltac:(cbn; lia) 3%nat) as (o & kfd' & E & Hs & He & Hg & _ & Hf).
    + change (chunks _ _) with 2%nat. split; [cbn; lia|]. intros i Hi.
      assert (i = 3 \/ i = 4)%nat as [-> | ->] by lia; done.
    + intros s Hs [_ Hf]. change (chunks _ _) with 2%nat in Hf.
      assert (s = 0 \/ s = 1 \/ s = 2)%nat as [-> |[-> | ->]] by lia.
      * by specialize (Hf 0%nat ltac:(lia)).
      * by specialize (Hf 2%nat ltac:(lia)).
      * by specialize (Hf 2%nat ltac:(lia)).
    + by exists o, kfd'.
Defined.
