(* ===== verification/KfdInterrupt.v ===== *)
(** * The interrupt ring of the HSA driver (amdkfd/kfd_interrupt.c)

    The interrupt service routine copies the entries it wants into a software
    ring, from which a work item takes them.  Producer and consumer run
    concurrently without a common lock: each one reads both pointers, copies
    an entry, and then publishes its own pointer; the memory barriers keep
    these three parts in order.  Each part is one operation below; the whole
    functions are their composition, and [ih_step] interleaves the parts of
    the two threads in every way.

    The pointers are byte offsets kept in [unsigned int] variables.  Only the
    producer writes [interrupt_ring_wptr] and only the consumer
    [interrupt_ring_rptr], so that reading both in one step loses nothing. *)

From stdpp Require Import base numbers list relations.
From S2P Require Import Prelude CMonad.

Definition KFD_INTERRUPT_RING_SIZE : Z := 1024.
(** [4 * sizeof(uint32_t)], for both devices of the driver. *)
Definition ih_ring_entry_size : Z := 16.

Record kfd_ring := KfdRing {
  interrupt_ring : list Z;
  interrupt_ring_size : Z;
  interrupt_ring_rptr : Z;
  interrupt_ring_wptr : Z;
  interrupts_active : bool }.

Definition set_ring (l : list Z) (k : kfd_ring) : kfd_ring :=
  KfdRing l (interrupt_ring_size k) (interrupt_ring_rptr k) (interrupt_ring_wptr k) (interrupts_active k).
Definition set_rptr (r : Z) (k : kfd_ring) : kfd_ring :=
  KfdRing (interrupt_ring k) (interrupt_ring_size k) r (interrupt_ring_wptr k) (interrupts_active k).
Definition set_wptr (w : Z) (k : kfd_ring) : kfd_ring :=
  KfdRing (interrupt_ring k) (interrupt_ring_size k) (interrupt_ring_rptr k) w (interrupts_active k).

Notation IM := (M kfd_ring).

(** The ring memory is not initialised; [l] stands for its contents. *)
Definition kfd_interrupt_init (alloc : bool) (l : list Z) : IM Z :=
  if alloc then
    _ ← modify (fun _ => KfdRing (take (Z.to_nat (KFD_INTERRUPT_RING_SIZE * ih_ring_entry_size)) l)
          (KFD_INTERRUPT_RING_SIZE * ih_ring_entry_size) 0 0 true);
    mret 0
  else mret (- ENOMEM).

(** The first half of the exit path, under the interrupt lock. *)
Definition kfd_interrupt_exit : IM unit :=
  modify (fun k => KfdRing (interrupt_ring k) (interrupt_ring_size k)
    (interrupt_ring_rptr k) (interrupt_ring_wptr k) false).

(** ** The producer *)

Definition enqueue_check : IM (option Z) :=
  k ← gets id;
  if u32 (interrupt_ring_rptr k - interrupt_ring_wptr k) mod interrupt_ring_size k =? ih_ring_entry_size
  then mret None else mret (Some (interrupt_ring_wptr k)).

Definition enqueue_copy (wptr : Z) (entry : list Z) : IM unit :=
  k ← gets id;
  if wptr + ih_ring_entry_size <=? Z.of_nat (length (interrupt_ring k))
  then modify (set_ring (list_inserts (Z.to_nat wptr) (take (Z.to_nat ih_ring_entry_size) entry) (interrupt_ring k)))
  else fault.

Definition enqueue_publish (wptr : Z) : IM unit :=
  modify (fun k => set_wptr (u32 ((wptr + ih_ring_entry_size) mod interrupt_ring_size k)) k).

Definition enqueue_ih_ring_entry (entry : list Z) : IM bool :=
  o ← enqueue_check;
  match o with
  | None => mret false
  | Some wptr => _ ← enqueue_copy wptr entry; _ ← enqueue_publish wptr; mret true
  end.

(** ** The consumer *)

Definition dequeue_check : IM (option Z) :=
  k ← gets id;
  if interrupt_ring_rptr k =? interrupt_ring_wptr k then mret None
  else mret (Some (interrupt_ring_rptr k)).

Definition dequeue_copy (rptr : Z) : IM (list Z) :=
  k ← gets id;
  if rptr + ih_ring_entry_size <=? Z.of_nat (length (interrupt_ring k))
  then mret (take (Z.to_nat ih_ring_entry_size) (drop (Z.to_nat rptr) (interrupt_ring k)))
  else fault.

Definition dequeue_publish (rptr : Z) : IM unit :=
  modify (fun k => set_rptr (u32 ((rptr + ih_ring_entry_size) mod interrupt_ring_size k)) k).

Definition dequeue_ih_ring_entry : IM (option (list Z)) :=
  o ← dequeue_check;
  match o with
  | None => mret None
  | Some rptr => x ← dequeue_copy rptr; _ ← dequeue_publish rptr; mret (Some x)
  end.

(** The work item; the result is the sequence of entries passed to the event
    class's [interrupt_wq]. *)
Fixpoint interrupt_wq (fuel : nat) : IM (list (list Z)) :=
  match fuel with
  | O => nofuel
  | S fuel' =>
      o ← dequeue_ih_ring_entry;
      match o with
      | None => mret []
      | Some x => rest ← interrupt_wq fuel'; mret (x :: rest)
      end
  end.

Section isr.
(** The event class's filter. *)
Context (interrupt_isr : list Z -> bool).

Definition interrupt_is_wanted (entry : list Z) : bool := interrupt_isr entry.

(** [kgd2kfd_interrupt]: true when the work item is scheduled. *)
Definition kgd2kfd_interrupt (init_complete : bool) (entry : list Z) : IM bool :=
  if negb init_complete then mret false
  else
    k ← gets id;
    if interrupts_active k && interrupt_is_wanted entry then enqueue_ih_ring_entry entry
    else mret false.
End isr.

(** ** Interleavings *)

Inductive isr_pc := IsrIdle | IsrCopy (wptr : Z) (x : list Z) | IsrPublish (wptr : Z) (x : list Z).
Inductive wq_pc := WqIdle | WqCopy (rptr : Z) | WqPublish (rptr : Z) (x : list Z).

(** The ring, where the two threads are, and the entries that were accepted
    and delivered so far. *)
Record ih_sys := IhSys {
  dev : kfd_ring;
  isr : isr_pc;
  wq : wq_pc;
  accepted : list (list Z);
  delivered : list (list Z) }.

Inductive ih_step : ih_sys -> ih_sys -> Prop :=
  | isr_check k k' c a d x o :
      interrupts_active k = true -> Z.of_nat (length x) = ih_ring_entry_size ->
      enqueue_check k = Ok (o, k') ->
      ih_step (IhSys k IsrIdle c a d)
        (IhSys k' match o with None => IsrIdle | Some w => IsrCopy w x end c a d)
  | isr_copy k k' c a d w x :
      enqueue_copy w x k = Ok (tt, k') ->
      ih_step (IhSys k (IsrCopy w x) c a d) (IhSys k' (IsrPublish w x) c a d)
  | isr_publish k k' c a d w x :
      enqueue_publish w k = Ok (tt, k') ->
      ih_step (IhSys k (IsrPublish w x) c a d) (IhSys k' IsrIdle c (a ++ [x]) d)
  | wq_check k k' p a d o :
      dequeue_check k = Ok (o, k') ->
      ih_step (IhSys k p WqIdle a d)
        (IhSys k' p match o with None => WqIdle | Some r => WqCopy r end a d)
  | wq_copy k k' p a d r x :
      dequeue_copy r k = Ok (x, k') ->
      ih_step (IhSys k p (WqCopy r) a d) (IhSys k' p (WqPublish r x) a d)
  | wq_publish k k' p a d r x :
      dequeue_publish r k = Ok (tt, k') ->
      ih_step (IhSys k p (WqPublish r x) a d) (IhSys k' p WqIdle a (d ++ [x]))
  | ih_exit k k' c a d :
      kfd_interrupt_exit k = Ok (tt, k') ->
      ih_step (IhSys k IsrIdle c a d) (IhSys k' IsrIdle c a d).

(** ** The interrupt ring is a bounded queue under every interleaving

    The ghost sequences [accepted] and [delivered] number the entries; entry
    number [i] lives in slot [i mod 1024].  The invariant relates the ring to
    them, and the steps of the two threads preserve it. *)

Definition slots : nat := 1024.
Definition entry_bytes : nat := 16.

#[local] Arguments slots : simpl never.
#[local] Arguments entry_bytes : simpl never.
#[local] Arguments Nat.modulo : simpl never.
#[local] Arguments Nat.mul : simpl never.

Definition slot (l : list Z) (i : nat) : list Z := take entry_bytes (drop (i * entry_bytes) l).

Lemma slot_lookup l i j : (j < entry_bytes)%nat -> slot l i !! j = l !! (i * entry_bytes + j)%nat.
Proof. intros Hj. unfold slot. by rewrite lookup_take_lt, lookup_drop by done. Qed.

Lemma slot_length l i : length l = (slots * entry_bytes)%nat -> (i < slots)%nat -> length (slot l i) = entry_bytes.
Proof. intros Hl Hi. unfold slot, slots, entry_bytes in *. rewrite length_take, length_drop. lia. Qed.

Lemma slot_written l i x :
  length l = (slots * entry_bytes)%nat -> (i < slots)%nat -> length x = entry_bytes ->
  slot (list_inserts (i * entry_bytes) x l) i = x.
Proof.
  intros Hl Hi Hx. apply list_eq. intros j. destruct (decide (j < entry_bytes)%nat) as [Hj|Hj].
  - rewrite slot_lookup, list_lookup_inserts by (unfold slots, entry_bytes in *; lia). f_equal. lia.
  - rewrite !lookup_ge_None_2; [done|lia|]. rewrite slot_length; [lia| |done]. by rewrite length_inserts.
Qed.

Lemma slot_other l i i' x :
  length l = (slots * entry_bytes)%nat -> (i < slots)%nat -> (i' < slots)%nat -> i <> i' ->
  length x = entry_bytes ->
  slot (list_inserts (i * entry_bytes) x l) i' = slot l i'.
Proof.
  intros Hl Hi Hi' Hne Hx. apply list_eq. intros j. destruct (decide (j < entry_bytes)%nat) as [Hj|Hj].
  - rewrite !slot_lookup by done. destruct (decide (i' < i)%nat).
    + apply list_lookup_inserts_lt. unfold entry_bytes in *. lia.
    + apply list_lookup_inserts_ge. rewrite Hx. unfold entry_bytes in *. lia.
  - rewrite !lookup_ge_None_2; [done|rewrite slot_length by done; lia|].
    rewrite slot_length; [lia|by rewrite length_inserts|done].
Qed.

(** Entries fewer than [slots] apart live in different slots. *)
Lemma slot_apart (i q : nat) :
  (i < q < i + slots)%nat -> (i mod slots)%nat <> (q mod slots)%nat.
Proof.
  intros H E. pose proof (Nat.div_mod_eq i slots). pose proof (Nat.div_mod_eq q slots).
  unfold slots in *. nia.
Qed.

Lemma slot_index (i : nat) : (i mod slots < slots)%nat.
Proof. apply Nat.mod_upper_bound. done. Qed.

(** ** The pointers *)

Definition ptr (i : nat) : Z := 16 * Z.of_nat (i mod slots).

Lemma ptr_succ i : (ptr i + 16) mod 16384 = ptr (S i).
Proof.
  unfold ptr, slots. rewrite !Nat2Z.inj_mod. rewrite Nat2Z.inj_succ.
  Z.div_mod_to_equations. lia.
Qed.

Lemma ptr_range i : 0 <= ptr i < 16384 /\ ptr i + 16 <= 16384.
Proof. unfold ptr. pose proof (slot_index i). unfold slots in *. lia. Qed.

Lemma ptr_full (r q : nat) :
  (r <= q <= r + 1023)%nat -> u32 (ptr r - ptr q) mod 16384 = 16 <-> q = (r + 1023)%nat.
Proof.
  intros H. unfold ptr, slots, u32. rewrite !Nat2Z.inj_mod. Z.div_mod_to_equations. lia.
Qed.

Lemma ptr_empty (r q : nat) : (r <= q <= r + 1023)%nat -> ptr r = ptr q <-> q = r.
Proof.
  intros H. unfold ptr, slots. rewrite !Nat2Z.inj_mod. Z.div_mod_to_equations. lia.
Qed.

(** ** The invariant *)

Record ih_inv (s : ih_sys) : Prop := IhInv {
  ii_size : interrupt_ring_size (dev s) = 16384;
  ii_ring : length (interrupt_ring (dev s)) = (slots * entry_bytes)%nat;
  ii_rptr : interrupt_ring_rptr (dev s) = ptr (length (delivered s));
  ii_wptr : interrupt_ring_wptr (dev s) = ptr (length (accepted s));
  ii_room : (length (delivered s) <= length (accepted s) <= length (delivered s) + 1023)%nat;
  ii_fifo : delivered s `prefix_of` accepted s;
  ii_slots i x : (length (delivered s) <= i)%nat -> accepted s !! i = Some x ->
    slot (interrupt_ring (dev s)) (i mod slots) = x;
  ii_isr : match isr s with
    | IsrIdle => True
    | IsrCopy w x => w = ptr (length (accepted s)) /\ length x = entry_bytes /\
        (length (accepted s) < length (delivered s) + 1023)%nat
    | IsrPublish w x => w = ptr (length (accepted s)) /\ length x = entry_bytes /\
        (length (accepted s) < length (delivered s) + 1023)%nat /\
        slot (interrupt_ring (dev s)) (length (accepted s) mod slots) = x
    end;
  ii_wq : match wq s with
    | WqIdle => True
    | WqCopy r => r = ptr (length (delivered s)) /\ (length (delivered s) < length (accepted s))%nat
    | WqPublish r x => r = ptr (length (delivered s)) /\ accepted s !! length (delivered s) = Some x
    end }.

Lemma copy_ok q x k :
  length (interrupt_ring k) = (slots * entry_bytes)%nat -> length x = entry_bytes ->
  enqueue_copy (ptr q) x k =
    Ok (tt, set_ring (list_inserts (q mod slots * entry_bytes) x (interrupt_ring k)) k).
Proof.
  intros Hl Hx. unfold enqueue_copy. rewrite (bind_eval (gets id) _ k k k eq_refl). cbn [id].
  pose proof (ptr_range q). rewrite Hl, (proj2 (Z.leb_le _ _))
    by (unfold ih_ring_entry_size, slots, entry_bytes; lia).
  replace (Z.to_nat (ptr q)) with (q mod slots * entry_bytes)%nat by (unfold ptr, entry_bytes; lia).
  by rewrite take_ge by (rewrite Hx; done).
Qed.

Lemma read_ok r k :
  length (interrupt_ring k) = (slots * entry_bytes)%nat ->
  dequeue_copy (ptr r) k = Ok (slot (interrupt_ring k) (r mod slots), k).
Proof.
  intros Hl. unfold dequeue_copy. rewrite (bind_eval (gets id) _ k k k eq_refl). cbn [id].
  pose proof (ptr_range r). rewrite Hl, (proj2 (Z.leb_le _ _))
    by (unfold ih_ring_entry_size, slots, entry_bytes; lia).
  replace (Z.to_nat (ptr r)) with (r mod slots * entry_bytes)%nat by (unfold ptr, entry_bytes; lia).
  done.
Qed.

Lemma publish_ptr i : u32 ((ptr i + ih_ring_entry_size) mod 16384) = ptr (S i).
Proof.
  unfold ih_ring_entry_size. rewrite ptr_succ. pose proof (ptr_range (S i)).
  apply u32_small. unfold is_u32. lia.
Qed.

Lemma isr_check_inv k c a d x o k' :
  ih_inv (IhSys k IsrIdle c a d) -> Z.of_nat (length x) = ih_ring_entry_size ->
  enqueue_check k = Ok (o, k') ->
  ih_inv (IhSys k' match o with None => IsrIdle | Some w => IsrCopy w x end c a d) /\
  (o = None <-> length a = (length d + 1023)%nat).
Proof.
  intros Hi Hx E. pose proof Hi as [Hs Hl Hr Hw Hroom Hf Hsl _ Hq]. cbn in *.
  unfold enqueue_check in E. rewrite (bind_eval (gets id) _ k k k eq_refl) in E. cbn [id] in E.
  rewrite Hs, Hr, Hw in E. pose proof (ptr_full _ _ Hroom) as Hfull.
  unfold ih_ring_entry_size in *.
  destruct (Z.eqb_spec (u32 (ptr (length d) - ptr (length a)) mod 16384) 16) as [Ef|Ef];
    injection E as <- <-.
  - split; [done|]. split; [|done]. intros _. by apply Hfull.
  - split; [|split; [done|intros Ha; by destruct Ef; apply Hfull]].
    split; cbn; try done. split; [done|]. split; [unfold entry_bytes; lia|].
    assert (length a <> length d + 1023)%nat by (intros Ha; by apply Ef, Hfull). lia.
Qed.

Lemma isr_copy_inv k c a d w x :
  ih_inv (IhSys k (IsrCopy w x) c a d) ->
  exists k', enqueue_copy w x k = Ok (tt, k') /\ ih_inv (IhSys k' (IsrPublish w x) c a d).
Proof.
  intros [Hs Hl Hr Hw Hroom Hf Hsl (-> & Hx & Hfree) Hq]. cbn in *.
  eexists. split; [by apply copy_ok|]. split; cbn; try done.
  - by rewrite length_inserts.
  - intros i y Hi Hy. rewrite slot_other; [by apply Hsl|done|apply slot_index..| |done].
    intros E. symmetry in E. revert E. apply slot_apart.
    apply lookup_lt_Some in Hy. unfold slots. lia.
  - split; [done|]. split; [done|]. split; [done|]. by apply slot_written; [|apply slot_index|].
Qed.

Lemma isr_publish_inv k c a d w x :
  ih_inv (IhSys k (IsrPublish w x) c a d) ->
  exists k', enqueue_publish w k = Ok (tt, k') /\ ih_inv (IhSys k' IsrIdle c (a ++ [x]) d).
Proof.
  intros [Hs Hl Hr Hw Hroom Hf Hsl (-> & Hx & Hfree & Hslot) Hq]. cbn in *.
  eexists. split; [done|]. split; cbn; try done.
  - by rewrite Hs, publish_ptr, length_app, Nat.add_1_r.
  - rewrite length_app. cbn. lia.
  - by apply prefix_app_r.
  - intros i y Hi Hy. apply lookup_snoc_Some in Hy as [[? Hy]|[-> <-]]; [by apply Hsl|done].
  - destruct c as [|r|r y]; [done|rewrite length_app; cbn; lia|].
    destruct Hq as [-> Hy]. split; [done|]. by apply lookup_app_l_Some.
Qed.

Lemma wq_check_inv k p a d o k' :
  ih_inv (IhSys k p WqIdle a d) -> dequeue_check k = Ok (o, k') ->
  ih_inv (IhSys k' p match o with None => WqIdle | Some r => WqCopy r end a d) /\
  (o = None <-> length a = length d).
Proof.
  intros Hi E. pose proof Hi as [Hs Hl Hr Hw Hroom Hf Hsl Hp _]. cbn in *.
  unfold dequeue_check in E. rewrite (bind_eval (gets id) _ k k k eq_refl) in E. cbn [id] in E.
  rewrite Hr, Hw in E. pose proof (ptr_empty _ _ Hroom) as Hempty.
  destruct (Z.eqb_spec (ptr (length d)) (ptr (length a))) as [Ee|Ee]; injection E as <- <-.
  - split; [done|]. split; [|done]. intros _. by apply Hempty.
  - split; [|split; [done|intros Ha; by destruct Ee; apply Hempty]].
    split; cbn; try done. split; [done|].
    assert (length a <> length d) by (intros Ha; by apply Ee, Hempty). lia.
Qed.

Lemma wq_copy_inv k p a d r :
  ih_inv (IhSys k p (WqCopy r) a d) ->
  exists x, dequeue_copy r k = Ok (x, k) /\ ih_inv (IhSys k p (WqPublish r x) a d).
Proof.
  intros [Hs Hl Hr Hw Hroom Hf Hsl Hp (-> & Hlt)]. cbn in *.
  destruct (lookup_lt_is_Some_2 a (length d) Hlt) as [x Hx].
  exists x. split; [rewrite read_ok by done; by rewrite (Hsl (length d) x)|].
  split; cbn; done.
Qed.

Lemma wq_publish_inv k p a d r x :
  ih_inv (IhSys k p (WqPublish r x) a d) ->
  exists k', dequeue_publish r k = Ok (tt, k') /\ ih_inv (IhSys k' p WqIdle a (d ++ [x])).
Proof.
  intros [Hs Hl Hr Hw Hroom Hf Hsl Hp (-> & Hx)]. cbn in *. pose proof (lookup_lt_Some _ _ _ Hx).
  eexists. split; [done|]. split; cbn; try done.
  - by rewrite Hs, publish_ptr, length_app, Nat.add_1_r.
  - rewrite length_app. cbn. lia.
  - destruct Hf as [l ->]. rewrite lookup_app_r, Nat.sub_diag in Hx by lia.
    destruct l as [|y l]; [done|]. injection Hx as ->. exists l. by rewrite <-app_assoc.
  - intros i y Hi Hy. apply Hsl; [|done]. rewrite length_app in Hi. lia.
  - destruct p; [done|rewrite length_app..]; cbn; intuition lia.
Qed.

Lemma ih_step_inv s s' : ih_step s s' -> ih_inv s -> ih_inv s'.
Proof.
  intros Hst Hi. destruct Hst as [k k' c a d x o _ Hx E|k k' c a d w x E|k k' c a d w x E|
    k k' p a d o E|k k' p a d r x E|k k' p a d r x E|k k' c a d E].
  - by eapply isr_check_inv.
  - apply isr_copy_inv in Hi as (k2 & E2 & Hi). assert (k2 = k') as <- by congruence. done.
  - apply isr_publish_inv in Hi as (k2 & E2 & Hi). assert (k2 = k') as <- by congruence. done.
  - by eapply wq_check_inv.
  - apply wq_copy_inv in Hi as (x2 & E2 & Hi). assert (x2 = x /\ k = k') as [<- <-] by (split; congruence). done.
  - apply wq_publish_inv in Hi as (k2 & E2 & Hi). assert (k2 = k') as <- by congruence. done.
  - injection E as <-. destruct Hi. by split.
Qed.

Definition ih_start (l : list Z) : ih_sys :=
  IhSys (KfdRing l 16384 0 0 true) IsrIdle WqIdle [] [].

Lemma ih_start_inv l : Z.of_nat (length l) = 16384 -> ih_inv (ih_start l).
Proof.
  intros Hl. split; cbn; try done; [unfold slots, entry_bytes; lia|lia].
Qed.

Lemma ih_reach_inv l s : Z.of_nat (length l) = 16384 -> rtc ih_step (ih_start l) s -> ih_inv s.
Proof.
  intros Hl H. assert (ih_inv (ih_start l)) as Hi by by apply ih_start_inv. revert Hi.
  induction H as [|s1 s2 s3 Hst _ IH]; [done|]. intros Hi. apply IH. by eapply ih_step_inv.
Qed.

(** The work item, run while the producer pauses, hands out everything that is
    pending. *)
Lemma interrupt_wq_drains p a fuel : forall k d,
  ih_inv (IhSys k p WqIdle a d) -> (length a - length d < fuel)%nat ->
  exists k', interrupt_wq fuel k = Ok (drop (length d) a, k') /\ ih_inv (IhSys k' p WqIdle a a).
Proof.
  induction fuel as [|fuel IH]; intros k d Hi Hf; [lia|].
  cbn [interrupt_wq].
  assert (exists o, dequeue_check k = Ok (o, k)) as [o Eo].
  { unfold dequeue_check. rewrite (bind_eval (gets id) _ k k k eq_refl).
    by destruct (_ =? _); eexists. }
  destruct (wq_check_inv k p a d o k Hi Eo) as [Hi1 Ho].
  pose proof (ii_fifo _ Hi) as [rest Ha]. cbn in Ha. destruct o as [r|].
  - destruct (wq_copy_inv _ _ _ _ _ Hi1) as (x & Ex & Hi2).
    destruct (wq_publish_inv _ _ _ _ _ _ Hi2) as (k2 & Ep & Hi3).
    assert (a !! length d = Some x) as Hx by apply (ii_wq _ Hi2). pose proof (lookup_lt_Some _ _ _ Hx).
    destruct (IH k2 (d ++ [x]) Hi3) as (k' & E & Hi'); [rewrite length_app; cbn; lia|].
    exists k'. split; [|done].
    assert (dequeue_ih_ring_entry k = Ok (Some x, k2)) as Ed.
    { unfold dequeue_ih_ring_entry. rewrite (bind_eval _ _ _ _ _ Eo).
      by rewrite (bind_eval _ _ _ _ _ Ex), (bind_eval _ _ _ _ _ Ep). }
    rewrite (bind_eval _ _ _ _ _ Ed), (bind_eval _ _ _ _ _ E), length_app, Nat.add_1_r.
    by rewrite (drop_S _ _ _ Hx).
  - assert (d = a) as ->. { destruct Ho as [Ho _]. specialize (Ho eq_refl). subst a.
      rewrite length_app in Ho. destruct rest; [by rewrite app_nil_r|cbn in Ho; lia]. }
    exists k. rewrite drop_ge by lia. split; [|done].
    assert (dequeue_ih_ring_entry k = Ok (None, k)) as Ed
      by by (unfold dequeue_ih_ring_entry; rewrite (bind_eval _ _ _ _ _ Eo)).
    by rewrite (bind_eval _ _ _ _ _ Ed).
Qed.

(** C34: The interrupt ring is a lossless bounded queue under every interleaving
    of the interrupt handler and the work item.  In every reachable state the
    delivered entries are a prefix of the accepted ones (same order, no
    duplicate, no corrupted entry); an entry is dropped only when 1023 are
    pending; the consumer sees an empty ring only when everything was
    delivered; a thread in the middle of an operation never accesses memory
    outside the ring; and the work item alone hands out all pending entries. *)
Theorem ih_ring_fifo (l : list Z) (s : ih_sys) :
  Z.of_nat (length l) = 16384 -> rtc ih_step (ih_start l) s ->
  delivered s `prefix_of` accepted s /\
  (exists o, enqueue_check (dev s) = Ok (o, dev s) /\
     (o = None <-> length (accepted s) = (length (delivered s) + 1023)%nat)) /\
  (exists o, dequeue_check (dev s) = Ok (o, dev s) /\ (o = None <-> delivered s = accepted s)) /\
  (forall w x, isr s = IsrCopy w x -> exists k', enqueue_copy w x (dev s) = Ok (tt, k')) /\
  (forall r, wq s = WqCopy r -> exists x, dequeue_copy r (dev s) = Ok (x, dev s)) /\
  (wq s = WqIdle -> exists k',
     interrupt_wq 1024 (dev s) = Ok (drop (length (delivered s)) (accepted s), k')).
Proof.
  intros Hl Hr. pose proof (ih_reach_inv l s Hl Hr) as Hi. pose proof Hi as [Hs Hlen Hrp Hwp Hroom Hf _ _ _].
  split; [done|]. split.
  { unfold enqueue_check. rewrite (bind_eval (gets id) _ _ _ _ eq_refl). cbn [id].
    rewrite Hs, Hrp, Hwp. pose proof (ptr_full _ _ Hroom). unfold ih_ring_entry_size.
    destruct (Z.eqb_spec (u32 (ptr (length (delivered s)) - ptr (length (accepted s))) mod 16384) 16);
      eexists; (split; [reflexivity|]); split; [tauto|done|done|tauto]. }
  split.
  { unfold dequeue_check. rewrite (bind_eval (gets id) _ _ _ _ eq_refl). cbn [id].
    rewrite Hrp, Hwp. pose proof (ptr_empty _ _ Hroom) as He. destruct Hf as [rest Ha].
    destruct (Z.eqb_spec (ptr (length (delivered s))) (ptr (length (accepted s)))) as [E|E];
      eexists; (split; [reflexivity|]); split; try done.
    - intros _. apply He in E. rewrite Ha, length_app in E. rewrite Ha.
      destruct rest; [by rewrite app_nil_r|cbn in E; lia].
    - intros Hda. destruct E. by rewrite Hda. }
  destruct s as [k p c a d]. cbn in *. split; [|split].
  - intros w x ->. apply isr_copy_inv in Hi as (k' & E & _). by exists k'.
  - intros r ->. apply wq_copy_inv in Hi as (x & E & _). by exists x.
  - intros ->. destruct (interrupt_wq_drains p a 1024 k d Hi) as (k' & E & _); [lia|by exists k'].
Qed.

(** ** Instance *)

Definition ih_demo_ring : list Z := replicate (1024 * 16) 0.
Definition ih_demo_entry : list Z := [1; 0; 0; 0; 2; 0; 0; 0; 3; 0; 0; 0; 4; 0; 0; 0].

(** One entry is accepted, and the work item has found it. *)
Definition ih_demo1 : kfd_ring :=
  set_ring (list_inserts (Z.to_nat 0) (take (Z.to_nat ih_ring_entry_size) ih_demo_entry) ih_demo_ring)
    (dev (ih_start ih_demo_ring)).
Definition ih_demo2 : kfd_ring := set_wptr 16 ih_demo1.
Definition ih_demo : ih_sys := IhSys ih_demo2 IsrIdle (WqCopy 0) [ih_demo_entry] [].

Lemma ih_demo_reached : rtc ih_step (ih_start ih_demo_ring) ih_demo.
Proof.
  apply (rtc_l _ _ (IhSys (dev (ih_start ih_demo_ring)) (IsrCopy 0 ih_demo_entry) WqIdle [] [])).
  { by apply (isr_check _ (dev (ih_start ih_demo_ring)) _ _ _ ih_demo_entry (Some 0)). }
  apply (rtc_l _ _ (IhSys ih_demo1 (IsrPublish 0 ih_demo_entry) WqIdle [] [])); [by apply isr_copy|].
  apply (rtc_l _ _ (IhSys ih_demo2 IsrIdle WqIdle [ih_demo_entry] [])).
  { by apply (isr_publish _ _ _ []). }
  apply rtc_once. by apply (wq_check _ _ _ _ _ (Some 0)).
Qed.

Lemma ih_ring_fifo_witness :
  delivered ih_demo `prefix_of` accepted ih_demo /\
  exists x, dequeue_copy 0 (dev ih_demo) = Ok (x, dev ih_demo).
Proof.
  destruct (ih_ring_fifo ih_demo_ring ih_demo) as (Hp & _ & _ & _ & Hc & _).
  - reflexivity.
  - exact ih_demo_reached.
  - split; [exact Hp|]. by apply Hc.
Defined.
