(* ===== verification/KfdPasid.v ===== *)
(** * Process address space identifiers (amdkfd/kfd_pasid.c)

    A bitmap of the identifiers in use; identifier 0 is reserved and stands for
    failure.  The limit can be lowered as long as no identifier beyond the new
    limit is in use. *)

From stdpp Require Import base numbers list gmap.
From S2P Require Import Prelude CMonad Bitmap.

Definition KFD_MAX_NUM_OF_PROCESSES : nat := 512.

Record pasid_state := Pasid {
  pasid_bitmap : list bool;
  pasid_limit : nat }.

Notation PM := (M pasid_state).

(** [kcalloc(BITS_TO_LONGS(pasid_limit), sizeof(long))]: 512 zero bits. *)
Definition kfd_pasid_init (alloc : bool) : PM Z :=
  if alloc then
    bm ← set_bit 0 (replicate KFD_MAX_NUM_OF_PROCESSES false);
    _ ← modify (fun _ => Pasid bm KFD_MAX_NUM_OF_PROCESSES);
    mret 0
  else _ ← modify (fun _ => Pasid [] KFD_MAX_NUM_OF_PROCESSES); mret (- ENOMEM).

Definition kfd_set_pasid_limit (new_limit : nat) : PM bool :=
  s ← gets id;
  if (new_limit <? pasid_limit s)%nat then
    j ← find_next_bit (pasid_bitmap s) (pasid_limit s) new_limit;
    let ok := (j =? pasid_limit s)%nat in
    _ ← (if ok then modify (fun s => Pasid (pasid_bitmap s) new_limit) else mret tt);
    mret ok
  else mret true.

Definition kfd_get_pasid_limit : PM nat := gets pasid_limit.

Definition kfd_pasid_alloc : PM nat :=
  s ← gets id;
  found ← find_next_zero_bit (pasid_bitmap s) (pasid_limit s) 0;
  if (found =? pasid_limit s)%nat then mret 0%nat
  else
    bm ← set_bit found (pasid_bitmap s);
    _ ← modify (fun s => Pasid bm (pasid_limit s));
    mret found.

(** [BUG_ON] stops the kernel. *)
Definition kfd_pasid_free (pasid : nat) : PM unit :=
  s ← gets id;
  if (pasid =? 0)%nat || (pasid_limit s <=? pasid)%nat then fault
  else
    bm ← clear_bit pasid (pasid_bitmap s);
    modify (fun s => Pasid bm (pasid_limit s)).

(** ** Specification: the set of identifiers in use *)

Record pasid_rep (s : pasid_state) (used : gset nat) : Prop := {
  pr_bits i : (i < KFD_MAX_NUM_OF_PROCESSES)%nat ->
    pasid_bitmap s !! i = Some (bool_decide (i = 0%nat \/ i ∈ used));
  pr_length : length (pasid_bitmap s) = KFD_MAX_NUM_OF_PROCESSES;
  pr_limit : (0 < pasid_limit s <= KFD_MAX_NUM_OF_PROCESSES)%nat;
  pr_used i : i ∈ used -> (0 < i < pasid_limit s)%nat }.

#[local] Arguments KFD_MAX_NUM_OF_PROCESSES : simpl never.

Lemma assign_rep s used b p used' :
  pasid_rep s used -> (0 < p < pasid_limit s)%nat ->
  (forall i, i ∈ used' -> (0 < i < pasid_limit s)%nat) ->
  (forall i, i <> p -> i ∈ used' <-> i ∈ used) -> (p ∈ used' <-> b = true) ->
  pasid_rep (Pasid (<[p := b]> (pasid_bitmap s)) (pasid_limit s)) used'.
Proof.
  intros [Hb Hl Hlim Hu] Hp Hu' Hsame Hp'. split; cbn; [|by rewrite length_insert|done|done].
  intros i Hi. destruct (decide (i = p)) as [->|Hne].
  - rewrite list_lookup_insert_eq by lia. f_equal.
    destruct b; [rewrite bool_decide_true by (right; by apply Hp'); done|].
    rewrite bool_decide_false; [done|]. intros [?|H]; [lia|]. by apply Hp' in H.
  - rewrite list_lookup_insert_ne, Hb by done. f_equal. apply bool_decide_ext. by rewrite Hsame.
Qed.

Lemma pasid_init_rep s :
  exists s', kfd_pasid_init true s = Ok (0, s') /\ pasid_rep s' ∅.
Proof.
  eexists. split; [reflexivity|]. split; cbn; [|done|unfold KFD_MAX_NUM_OF_PROCESSES; lia|by intros i ?%elem_of_empty].
  intros i Hi. destruct (decide (i = 0%nat)) as [->|Hne]; [done|].
  destruct i as [|i]; [done|]. cbn [lookup list_lookup]. rewrite bool_decide_false by (intros [?|?%elem_of_empty]; [lia|done]).
  apply lookup_replicate_2. unfold KFD_MAX_NUM_OF_PROCESSES in Hi. lia.
Qed.

Section operations.
Context (s : pasid_state) (used : gset nat) (Hs : pasid_rep s used).

Lemma alloc_rep : exists p s', kfd_pasid_alloc s = Ok (p, s') /\
  if (p =? 0)%nat
  then s' = s /\ forall i, (0 < i < pasid_limit s)%nat -> i ∈ used
  else (0 < p < pasid_limit s)%nat /\ p ∉ used /\
    (forall i, (0 < i < p)%nat -> i ∈ used) /\ pasid_rep s' ({[ p ]} ∪ used).
Proof.
  pose proof Hs as [Hb Hl Hlim Hu]. unfold kfd_pasid_alloc.
  rewrite (bind_eval (gets id) _ s s s eq_refl). cbn [id].
  destruct (find_next_spec false (pasid_bitmap s) (pasid_limit s) 0 s) as (j & E & Hj & Hbefore & Hat); [lia..|].
  unfold find_next_zero_bit. rewrite (bind_eval _ _ _ _ _ E).
  assert (forall i, (0 < i < j)%nat -> i ∈ used) as Hlow.
  { intros i Hi. specialize (Hbefore i ltac:(lia)). rewrite Hb in Hbefore by lia.
    injection Hbefore as Hbefore. apply bool_decide_eq_true in Hbefore as [?|?]; [lia|done]. }
  destruct (Nat.eqb_spec j (pasid_limit s)) as [->|Hne].
  { exists 0%nat, s. split; [done|]. by split. }
  specialize (Hat ltac:(lia)). rewrite Hb in Hat by lia.
  injection Hat as Hat. apply bool_decide_eq_false in Hat.
  assert (j <> 0%nat) as Hj0 by (intros ->; apply Hat; by left).
  unfold set_bit. rewrite (bind_eval _ _ _ _ _ (assign_bit_ok true j (pasid_bitmap s) s ltac:(lia))).
  eexists j, _. split; [reflexivity|]. rewrite (proj2 (Nat.eqb_neq j 0) Hj0).
  split; [lia|]. split; [intros ?; apply Hat; by right|]. split; [done|].
  apply (assign_rep s used); [done|lia|..]; set_unfold; intros; [|tauto|tauto].
  destruct H as [->|H]; [lia|by apply Hu].
Qed.

Lemma free_rep p :
  p ∈ used -> exists s', kfd_pasid_free p s = Ok (tt, s') /\ pasid_rep s' (used ∖ {[ p ]}).
Proof.
  intros Hp. pose proof Hs as [Hb Hl Hlim Hu]. pose proof (Hu p Hp). unfold kfd_pasid_free.
  rewrite (bind_eval (gets id) _ s s s eq_refl). cbn [id].
  rewrite (proj2 (Nat.eqb_neq p 0)), (proj2 (Nat.leb_gt _ _)) by lia. cbn [orb].
  unfold clear_bit. rewrite (bind_eval _ _ _ _ _ (assign_bit_ok false p (pasid_bitmap s) s ltac:(lia))).
  eexists. split; [reflexivity|].
  apply (assign_rep s used); [done|lia|..].
  - intros i [Hi _]%elem_of_difference. by apply Hu.
  - intros i Hi. rewrite elem_of_difference, elem_of_singleton. tauto.
  - rewrite elem_of_difference, elem_of_singleton. split; [tauto|done].
Qed.

Lemma limit_rep limit :
  (0 < limit)%nat -> exists ok s', kfd_set_pasid_limit limit s = Ok (ok, s') /\
    pasid_rep s' used /\
    (ok = true -> pasid_limit s' = Nat.min limit (pasid_limit s)) /\
    (ok = false -> s' = s /\ exists i, i ∈ used /\ (limit <= i)%nat).
Proof.
  intros Hl0. pose proof Hs as [Hb Hl Hlim Hu]. unfold kfd_set_pasid_limit.
  rewrite (bind_eval (gets id) _ s s s eq_refl). cbn [id].
  destruct (Nat.ltb_spec limit (pasid_limit s)) as [Hlow|Hhigh]; cycle 1.
  { exists true, s. split; [done|]. split; [done|]. split; [lia|done]. }
  destruct (find_next_spec true (pasid_bitmap s) (pasid_limit s) limit s) as (j & E & Hj & Hbefore & Hat); [lia..|].
  unfold find_next_bit. rewrite (bind_eval _ _ _ _ _ E).
  destruct (Nat.eqb_spec j (pasid_limit s)) as [->|Hne].
  - eexists true, _. split; [reflexivity|]. split; [|split; [cbn; lia|done]].
    split; cbn; [done|done|lia|]. intros i Hi. pose proof (Hu i Hi). split; [lia|].
    destruct (decide (i < limit)%nat); [done|]. specialize (Hbefore i ltac:(lia)).
    rewrite Hb, bool_decide_true in Hbefore by (lia || by right). done.
  - exists false, s. split; [done|]. split; [done|]. split; [done|]. intros _. split; [done|].
    exists j. split; [|lia]. specialize (Hat ltac:(lia)). rewrite Hb in Hat by lia.
    injection Hat as Hat. apply bool_decide_eq_true in Hat as [?|?]; [lia|done].
Qed.
End operations.

(** Process identifiers are unique.  Starting from a bitmap that represents
    the set of used identifiers, an allocation returns an unused identifier
    below the limit, the smallest one, and it returns 0 exactly when all of
    them are used; a free makes exactly its identifier available again; and
    the limit is only lowered when no used identifier is cut off. *)
Theorem pasid_unique s used :
  pasid_rep s used ->
  (exists p s', kfd_pasid_alloc s = Ok (p, s') /\
     if (p =? 0)%nat
     then s' = s /\ forall i, (0 < i < pasid_limit s)%nat -> i ∈ used
     else (0 < p < pasid_limit s)%nat /\ p ∉ used /\
       (forall i, (0 < i < p)%nat -> i ∈ used) /\ pasid_rep s' ({[ p ]} ∪ used)) /\
  (forall p, p ∈ used -> exists s', kfd_pasid_free p s = Ok (tt, s') /\ pasid_rep s' (used ∖ {[ p ]})) /\
  (forall limit, (0 < limit)%nat -> exists ok s', kfd_set_pasid_limit limit s = Ok (ok, s') /\
     pasid_rep s' used /\
     (ok = true -> pasid_limit s' = Nat.min limit (pasid_limit s)) /\
     (ok = false -> s' = s /\ exists i, i ∈ used /\ (limit <= i)%nat)).
Proof.
  intros Hs. split; [by apply alloc_rep|]. split; [|by apply limit_rep].
  intros p. by apply free_rep.
Qed.

(** ** Instance *)

Definition pasid_start : pasid_state :=
  Pasid (true :: replicate 511 false) KFD_MAX_NUM_OF_PROCESSES.

Lemma pasid_start_rep : pasid_rep pasid_start ∅.
Proof.
  destruct (pasid_init_rep (Pasid [] 0)) as (s' & E & Hs). injection E as <-. exact Hs.
Qed.

Lemma pasid_unique_witness :
  exists s', kfd_pasid_alloc pasid_start = Ok (1%nat, s') /\ pasid_rep s' ({[ 1%nat ]} ∪ ∅).
Proof.
  destruct (pasid_unique pasid_start ∅ pasid_start_rep) as [(p & s' & E & Hp) _].
  assert (p = 1%nat) as -> by (vm_compute in E; congruence).
  exists s'. split; [exact E|]. apply Hp.
Defined.
