(* ===== verification/Fence.v ===== *)
(** * Fence driver of a ring ([amdgpu/amdgpu_fence.c])

    The GPU reports progress by writing sequence numbers to a word of memory;
    [amdgpu_fence_process] turns them into signaled fences.  It runs in
    interrupt handlers, in the fallback timer and in its callers at the same
    time, without a lock: the handlers are program counters ([process_pc]) over
    the accesses to shared memory, the emitting thread is [emit_pc], and
    [fence_step] interleaves them with the hardware.  The functions themselves
    are the runs of one program counter ([amdgpu_fence_process],
    [amdgpu_fence_emit]).

    A fence object is named by its index in [objs], in the order of emission.
    Reference counts and the names of fences are left out. *)

From stdpp Require Import base numbers list relations.
From S2P Require Import Prelude CMonad.

(** [struct amdgpu_fence_driver]: [cpu_addr] is the word the pointer names,
    [None] for the null pointer; [fences] is the array, [[]] before it is
    allocated and after it is freed. *)
Record amdgpu_fence_driver := FenceDriver {
  gpu_addr : Z;
  cpu_addr : option Z;
  sync_seq : Z;
  last_seq : Z;
  initialized : bool;
  fallback_timer : bool;
  num_fences_mask : Z;
  fences : list (option nat) }.

(** The part of [struct amdgpu_fence] that the driver uses. *)
Record amdgpu_fence := MkFence { seqno : Z; signaled : bool }.

(** Program counters of [amdgpu_fence_process]: [PRead] reads [last_seq],
    [PReadSeq] the word the GPU writes, [PCas] does the compare-and-exchange,
    [PLoad], [PClear] and [PSignal] are the accesses of the loop over the
    slots.  [stamp] is a ghost: the number of fences emitted when [last_seq]
    was read. *)
Inductive process_pc :=
  | PRead
  | PReadSeq (last : Z) (stamp : nat)
  | PCas (last seq : Z) (stamp : nat)
  | PLoad (last seq : Z)
  | PClear (f : nat) (last seq : Z)
  | PSignal (f : nat) (last seq : Z)
  | PDone.

(** Program counters of [amdgpu_fence_emit]. *)
Inductive emit_pc :=
  | EIdle
  | ELoad (f : nat) (slot : Z)
  | EWait (f old : nat) (slot : Z)
  | EStore (f : nat) (slot : Z).

(** The ring as the fence driver sees it: the fence packets written to it, how
    many of them the GPU has been told about and how many it has executed. *)
Record fence_sys := FenceSys {
  drv : amdgpu_fence_driver;
  objs : list amdgpu_fence;
  packets : list Z;
  committed : nat;
  executed : nat;
  emitter : emit_pc;
  handlers : list process_pc }.

Definition set_drv (g : amdgpu_fence_driver -> amdgpu_fence_driver) (s : fence_sys) : fence_sys :=
  FenceSys (g (drv s)) (objs s) (packets s) (committed s) (executed s) (emitter s) (handlers s).
Definition set_objs (o : list amdgpu_fence) (s : fence_sys) : fence_sys :=
  FenceSys (drv s) o (packets s) (committed s) (executed s) (emitter s) (handlers s).
Definition set_packets (p : list Z) (s : fence_sys) : fence_sys :=
  FenceSys (drv s) (objs s) p (committed s) (executed s) (emitter s) (handlers s).
Definition set_committed (n : nat) (s : fence_sys) : fence_sys :=
  FenceSys (drv s) (objs s) (packets s) n (executed s) (emitter s) (handlers s).
Definition set_executed (n : nat) (s : fence_sys) : fence_sys :=
  FenceSys (drv s) (objs s) (packets s) (committed s) n (emitter s) (handlers s).
Definition set_emitter (e : emit_pc) (s : fence_sys) : fence_sys :=
  FenceSys (drv s) (objs s) (packets s) (committed s) (executed s) e (handlers s).
Definition set_handlers (h : list process_pc) (s : fence_sys) : fence_sys :=
  FenceSys (drv s) (objs s) (packets s) (committed s) (executed s) (emitter s) h.

Definition set_cpu_addr (a : option Z) (d : amdgpu_fence_driver) : amdgpu_fence_driver :=
  FenceDriver (gpu_addr d) a (sync_seq d) (last_seq d) (initialized d) (fallback_timer d)
    (num_fences_mask d) (fences d).
Definition set_sync_seq (q : Z) (d : amdgpu_fence_driver) : amdgpu_fence_driver :=
  FenceDriver (gpu_addr d) (cpu_addr d) q (last_seq d) (initialized d) (fallback_timer d)
    (num_fences_mask d) (fences d).
Definition set_last_seq (q : Z) (d : amdgpu_fence_driver) : amdgpu_fence_driver :=
  FenceDriver (gpu_addr d) (cpu_addr d) (sync_seq d) q (initialized d) (fallback_timer d)
    (num_fences_mask d) (fences d).
Definition set_timer (b : bool) (d : amdgpu_fence_driver) : amdgpu_fence_driver :=
  FenceDriver (gpu_addr d) (cpu_addr d) (sync_seq d) (last_seq d) (initialized d) b
    (num_fences_mask d) (fences d).
Definition set_fences (l : list (option nat)) (d : amdgpu_fence_driver) : amdgpu_fence_driver :=
  FenceDriver (gpu_addr d) (cpu_addr d) (sync_seq d) (last_seq d) (initialized d)
    (fallback_timer d) (num_fences_mask d) l.

Definition FM : Type -> Type := M fence_sys.

(** ** Access to the fence word and the slots *)

Definition amdgpu_fence_write (seq : Z) (d : amdgpu_fence_driver) : amdgpu_fence_driver :=
  match cpu_addr d with
  | Some _ => set_cpu_addr (Some (u32 seq)) d
  | None => d
  end.

Definition amdgpu_fence_read (d : amdgpu_fence_driver) : Z :=
  match cpu_addr d with
  | Some v => v
  | None => last_seq d
  end.

(** [fences[i]] read and written. *)
Definition load_slot (i : Z) : FM (option nat) :=
  s ← gets id;
  deref (fences (drv s) !! Z.to_nat i).
Definition store_slot (i : Z) (v : option nat) : FM unit :=
  s ← gets id;
  if i <? Z.of_nat (length (fences (drv s)))
  then modify (set_drv (fun d => set_fences (<[Z.to_nat i := v]> (fences d)) d))
  else fault.

(** [fence_is_signaled]: the driver has no [signaled] operation, so the flag
    decides. *)
Definition fence_is_signaled (f : nat) : FM bool :=
  s ← gets id;
  o ← deref (objs s !! f);
  mret (signaled o).

(** [fence_signal] of the kernel: [-EINVAL] when the fence is signaled. *)
Definition fence_signal (f : nat) : FM Z :=
  s ← gets id;
  o ← deref (objs s !! f);
  if signaled o then mret (- EINVAL)
  else modify (set_objs (<[f := MkFence (seqno o) true]> (objs s)));; mret 0.

Definition amdgpu_fence_schedule_fallback : FM unit :=
  modify (set_drv (set_timer true)).

(** ** Emission *)

(** [amdgpu_fence_emit] up to the access to the slot: [alloc_ok] tells whether
    the allocation of the fence succeeds. *)
Definition emit_begin (alloc_ok : bool) : FM (Z * emit_pc) :=
  if negb alloc_ok then mret (- ENOMEM, EIdle)
  else
    s ← gets id;
    let seq := u32 (sync_seq (drv s) + 1) in
    modify (set_drv (set_sync_seq seq));;
    modify (set_objs (objs s ++ [MkFence seq false]));;
    modify (set_packets (packets s ++ [seq]));;
    mret (0, ELoad (length (objs s)) (Z.land seq (num_fences_mask (drv s)))).

(** The rest, one access at a time; [EWait] is [fence_wait] and stays where it
    is until the old fence is signaled. *)
Definition emit_step (p : emit_pc) : FM emit_pc :=
  match p with
  | EIdle => mret EIdle
  | ELoad f i =>
      old ← load_slot i;
      match old with
      | None => mret (EStore f i)
      | Some o => b ← fence_is_signaled o; mret (if b : bool then EStore f i else EWait f o i)
      end
  | EWait f o i => b ← fence_is_signaled o; mret (if b : bool then EStore f i else EWait f o i)
  | EStore f i => store_slot i (Some f);; mret EIdle
  end.

Fixpoint emit_run (fuel : nat) (p : emit_pc) : FM unit :=
  match p, fuel with
  | EIdle, _ => mret tt
  | _, O => nofuel
  | _, S k => p' ← emit_step p; emit_run k p'
  end.

(** The whole function, when nothing else runs: a busy slot never becomes free
    and uses up the fuel. *)
Definition amdgpu_fence_emit (fuel : nat) (alloc_ok : bool) : FM Z :=
  rp ← emit_begin alloc_ok;
  emit_run fuel rp.2;;
  mret rp.1.

(** ** Processing *)

(** The condition of the loop over the slots. *)
Definition walk_next (last seq : Z) : process_pc :=
  if last =? seq then PDone else PLoad last seq.

Definition process_step (p : process_pc) : FM process_pc :=
  match p with
  | PRead => s ← gets id; mret (PReadSeq (last_seq (drv s)) (length (objs s)))
  | PReadSeq last st => s ← gets id; mret (PCas last (amdgpu_fence_read (drv s)) st)
  | PCas last seq st =>
      s ← gets id;
      if last_seq (drv s) =? last then
        modify (set_drv (set_last_seq seq));;
        (if negb (seq =? sync_seq (drv s)) then amdgpu_fence_schedule_fallback else mret tt);;
        if seq =? last then mret PDone
        else mret (PLoad (Z.land last (num_fences_mask (drv s))) (Z.land seq (num_fences_mask (drv s))))
      else mret PRead
  | PLoad last seq =>
      s ← gets id;
      let last := Z.land (u32 (last + 1)) (num_fences_mask (drv s)) in
      f ← load_slot last;
      match f with
      | Some f => mret (PClear f last seq)
      | None => store_slot last None;; mret (walk_next last seq)
      end
  | PClear f last seq => store_slot last None;; mret (PSignal f last seq)
  | PSignal f last seq =>
      r ← fence_signal f;
      if r =? 0 then mret (walk_next last seq) else fault
  | PDone => mret PDone
  end.

Fixpoint process_run (fuel : nat) (p : process_pc) : FM unit :=
  match p, fuel with
  | PDone, _ => mret tt
  | _, O => nofuel
  | _, S k => p' ← process_step p; process_run k p'
  end.

Definition amdgpu_fence_process (fuel : nat) : FM unit := process_run fuel PRead.

Definition amdgpu_fence_fallback (fuel : nat) : FM unit :=
  modify (set_drv (set_timer false));; amdgpu_fence_process fuel.

(** ** Waiting and counting *)

(** [amdgpu_fence_wait_empty] up to [fence_wait]: [None] when it returns 0
    without waiting, otherwise the fence it waits for. *)
Definition amdgpu_fence_wait_empty : FM (option nat) :=
  s ← gets id;
  let seq := sync_seq (drv s) in
  if seq =? 0 then mret None
  else load_slot (Z.land seq (num_fences_mask (drv s))).

Definition amdgpu_fence_count_emitted (fuel : nat) : FM Z :=
  amdgpu_fence_process fuel;;
  s ← gets id;
  let emitted := u64 (4294967296 - last_seq (drv s)) in
  let emitted := u64 (emitted + sync_seq (drv s)) in
  mret (u32 emitted).

Definition amdgpu_fence_enable_signaling : FM bool :=
  s ← gets id;
  (if negb (fallback_timer (drv s)) then amdgpu_fence_schedule_fallback else mret tt);;
  mret true.

(** ** Set-up *)

(** [fences_ok] is the outcome of [kcalloc], [sched_r] what [amd_sched_init]
    returns. *)
Definition amdgpu_fence_driver_init_ring (num_hw_submission : Z) (fences_ok : bool) (sched_r : Z)
    (d : amdgpu_fence_driver) : Z * amdgpu_fence_driver :=
  if negb (Z.land num_hw_submission (u32 (num_hw_submission - 1)) =? 0) then (- EINVAL, d)
  else
    let slots := u32 (num_hw_submission * 2) in
    let d' := FenceDriver 0 None 0 0 false false (u32 (slots - 1)) [] in
    if negb fences_ok then (- ENOMEM, d')
    else
      (sched_r, set_fences (replicate (Z.to_nat slots) None) d').

(** [amdgpu_fence_driver_start_ring]: [addr] is the GPU address of the fence
    word (in the write-back page, or behind the UVD firmware). *)
Definition amdgpu_fence_driver_start_ring (addr : Z) (word : Z) (d : amdgpu_fence_driver) :
    Z * amdgpu_fence_driver :=
  let d := FenceDriver addr (Some word) (sync_seq d) (last_seq d) (initialized d)
             (fallback_timer d) (num_fences_mask d) (fences d) in
  let d := amdgpu_fence_write (last_seq d) d in
  (0, FenceDriver (gpu_addr d) (cpu_addr d) (sync_seq d) (last_seq d) true
        (fallback_timer d) (num_fences_mask d) (fences d)).

(** [amdgpu_fence_driver_force_completion] for one ring of the device. *)
Definition amdgpu_fence_driver_force_completion_ring (d : amdgpu_fence_driver) : amdgpu_fence_driver :=
  if initialized d then amdgpu_fence_write (sync_seq d) d else d.

(** For all rings of the device: [adev->rings], [None] for a missing ring. *)
Definition amdgpu_fence_driver_force_completion (rings : list (option amdgpu_fence_driver)) :
    list (option amdgpu_fence_driver) :=
  map (option_map amdgpu_fence_driver_force_completion_ring) rings.

(** ** The system *)

(** The GPU executes the next committed fence packet. *)
Definition hw_execute : FM unit :=
  s ← gets id;
  if (executed s <? committed s)%nat then
    q ← deref (packets s !! executed s);
    modify (set_drv (amdgpu_fence_write q));; modify (set_executed (S (executed s)))
  else mret tt.

(** The caller of [amdgpu_fence_emit] tells the GPU about the packets. *)
Definition ring_doorbell : FM unit :=
  s ← gets id; modify (set_committed (length (packets s))).

(** The caller gives up ([amdgpu_ring_undo]): the packets it has not told the
    GPU about are overwritten later, their fences stay. *)
Definition ring_drop : FM unit :=
  s ← gets id; modify (set_packets (take (committed s) (packets s))).

(** The GPU is stopped for good (a failed reset) and its remaining fences are
    completed by the driver. *)
Definition hw_abandon : FM unit :=
  s ← gets id;
  modify (set_drv amdgpu_fence_driver_force_completion_ring);;
  modify (set_executed (length (packets s)));;
  modify (set_committed (length (packets s))).

(** A handler that has read [last_seq] does its exchange before the sequence
    numbers have gone once around their 32 bits. *)
Definition no_aba (p : process_pc) (s : fence_sys) : Prop :=
  match p with
  | PCas _ _ stamp =>
      Z.of_nat (length (objs s)) + Z.of_nat (length (fences (drv s)))
        < Z.of_nat stamp + 4294967295
  | _ => True
  end.

Inductive fence_step (s : fence_sys) : fence_sys -> Prop :=
  | step_handler i p p' s1 :
      handlers s !! i = Some p -> no_aba p s -> process_step p s = Ok (p', s1) ->
      fence_step s (set_handlers (<[i := p']> (handlers s1)) s1)
  | step_interrupt : fence_step s (set_handlers (handlers s ++ [PRead]) s)
  | step_emit_begin ok r p s1 :
      emitter s = EIdle -> emit_begin ok s = Ok ((r, p), s1) -> fence_step s (set_emitter p s1)
  | step_emit p s1 :
      emit_step (emitter s) s = Ok (p, s1) -> fence_step s (set_emitter p s1)
  | step_doorbell s1 :
      emitter s = EIdle -> ring_doorbell s = Ok (tt, s1) -> fence_step s s1
  | step_undo s1 :
      emitter s = EIdle -> ring_drop s = Ok (tt, s1) -> fence_step s s1
  | step_hw s1 : hw_execute s = Ok (tt, s1) -> fence_step s s1
  | step_abandon s1 :
      emitter s = EIdle -> hw_abandon s = Ok (tt, s1) -> fence_step s s1.

(** The state after [amdgpu_fence_driver_init_ring] and
    [amdgpu_fence_driver_start_ring]. *)
Definition fence_start (num_hw_submission addr word : Z) : fence_sys :=
  let d := (amdgpu_fence_driver_init_ring num_hw_submission true 0
              (FenceDriver 0 None 0 0 false false 0 [])).2 in
  FenceSys (amdgpu_fence_driver_start_ring addr word d).2 [] [] 0 0 EIdle [].

Definition fence_reachable (num_hw_submission addr word : Z) (s : fence_sys) : Prop :=
  rtc fence_step (fence_start num_hw_submission addr word) s.
