(* ===== verification/FenceInv.v ===== *)
(** * Invariant of the fence driver

    Fence number [f] has the sequence number [f + 1], modulo 2^32, and lives in
    slot [(f + 1) mod n] of the [n] slots.  [L] is the number of fences the
    handlers have claimed by moving [last_seq], [D] the number the hardware has
    passed.  A handler in its loop owns an interval of fence numbers
    ([own]); the unsignaled fences are those not claimed yet and those in the
    interval of some handler. *)

From stdpp Require Import base numbers list relations functions.
From S2P Require Import Prelude CMonad Fence.

#[local] Arguments Nat.modulo : simpl never.
#[local] Arguments Z.modulo : simpl never.

(** The fences a handler has still to signal, and those still in a slot. *)
Definition span (p : process_pc) (ab : nat * nat) (f : nat) : Prop :=
  match p with
  | PLoad _ _ | PClear _ _ _ | PSignal _ _ _ => (ab.1 <= f < ab.2)%nat
  | _ => False
  end.
Definition slot_span (p : process_pc) (ab : nat * nat) (f : nat) : Prop :=
  match p with
  | PLoad _ _ | PClear _ _ _ => (ab.1 <= f < ab.2)%nat
  | PSignal _ _ _ => (ab.1 < f < ab.2)%nat
  | _ => False
  end.

Definition some_handler (P : process_pc -> nat * nat -> nat -> Prop) (hs : list process_pc)
    (own : nat -> nat * nat) (f : nat) : Prop :=
  exists i p, hs !! i = Some p /\ P p (own i) f.

(** Number of fences that have reached their slot. *)
Definition stored (s : fence_sys) : nat :=
  match emitter s with EIdle => length (objs s) | _ => pred (length (objs s)) end.

Definition unsignaled (L : nat) (own : nat -> nat * nat) (s : fence_sys) (f : nat) : Prop :=
  (L <= f < length (objs s))%nat \/ some_handler span (handlers s) own f.
Definition in_slot (L : nat) (own : nat -> nat * nat) (s : fence_sys) (f : nat) : Prop :=
  (L <= f < stored s)%nat \/ some_handler slot_span (handlers s) own f.

(** The registers of a handler. *)
Definition pc_ok (n L D : nat) (ab : nat * nat) (p : process_pc) : Prop :=
  let '(a, b) := ab in
  let walking := (a < b <= a + n)%nat /\ (b <= L)%nat in
  match p with
  | PRead | PDone => True
  | PReadSeq last st => exists r, last = u32 (Z.of_nat r) /\ (r <= L)%nat /\ (st <= r + n + 1)%nat
  | PCas last seq st => exists r q, last = u32 (Z.of_nat r) /\ (r <= L)%nat /\ (st <= r + n + 1)%nat /\
      seq = u32 (Z.of_nat q) /\ (r <= q <= D)%nat
  | PLoad l q => walking /\ l = Z.of_nat (a mod n) /\ q = Z.of_nat (b mod n)
  | PClear f l q | PSignal f l q => walking /\ f = a /\
      l = Z.of_nat (S a mod n) /\ q = Z.of_nat (b mod n)
  end.

Definition emit_ok (n : nat) (s : fence_sys) : Prop :=
  match emitter s with
  | EIdle => True
  | ELoad f i => S f = length (objs s) /\ i = Z.of_nat (S f mod n)
  | EWait f o i => S f = length (objs s) /\ i = Z.of_nat (S f mod n) /\
      (o < f)%nat /\ (fences (drv s) !! (S f mod n)%nat = Some (Some o) \/
                       fences (drv s) !! (S f mod n)%nat = Some None)
  | EStore f i => S f = length (objs s) /\ i = Z.of_nat (S f mod n) /\
      fences (drv s) !! (S f mod n)%nat = Some None
  end.

Record fence_inv (k : Z) (n L D : nat) (own : nat -> nat * nat) (ids : list nat) (s : fence_sys) : Prop := FenceInv {
  fi_n : 0 < k <= 31 /\ Z.of_nat n = 2 ^ k;
  fi_mask : num_fences_mask (drv s) = Z.of_nat n - 1;
  fi_len : length (fences (drv s)) = n;
  fi_sync : sync_seq (drv s) = u32 (Z.of_nat (length (objs s)));
  fi_last : last_seq (drv s) = u32 (Z.of_nat L);
  fi_word : cpu_addr (drv s) = Some (u32 (Z.of_nat D));
  fi_init : initialized (drv s) = true;
  fi_order : (L <= D <= stored s)%nat;
  fi_seqno f o : objs s !! f = Some o -> seqno o = u32 (Z.of_nat (S f));
  fi_signaled f o : objs s !! f = Some o -> signaled o = false <-> unsignaled L own s f;
  fi_slots i f : fences (drv s) !! i = Some (Some f) <-> in_slot L own s f /\ (S f mod n = i)%nat;
  fi_pcs i p : handlers s !! i = Some p -> pc_ok n L D (own i) p;
  fi_disjoint i j p q f : handlers s !! i = Some p -> handlers s !! j = Some q ->
    span p (own i) f -> span q (own j) f -> i = j;
  fi_emit : emit_ok n s;
  fi_packets : packets s = (fun i => u32 (Z.of_nat i)) <$> ids;
  fi_ids : (executed s <= committed s <= length ids)%nat /\
    (forall x i, ids !! x = Some i -> (i <= length (objs s))%nat /\
       ((x < committed s)%nat -> (i <= stored s)%nat) /\
       ((executed s <= x)%nat -> (D <= i)%nat)) /\
    (forall x y i j, (x <= y)%nat -> ids !! x = Some i -> ids !! y = Some j -> (i <= j)%nat) }.

Section arithmetic.
Context (k : Z) (n : nat) (Hn : 0 < k <= 31 /\ Z.of_nat n = 2 ^ k).

Lemma n_pos : (2 <= n)%nat /\ Z.of_nat n <= 2147483648.
Proof.
  destruct Hn as [Hk E]. assert (2 ^ 1 <= 2 ^ k) by (apply Z.pow_le_mono_r; lia).
  assert (2 ^ k <= 2 ^ 31) by (apply Z.pow_le_mono_r; lia). lia.
Qed.

(** Masking a 32-bit sequence number yields its slot. *)
Lemma land_mask a : Z.land (u32 (Z.of_nat a)) (Z.of_nat n - 1) = Z.of_nat (a mod n).
Proof.
  destruct Hn as [Hk E]. rewrite Nat2Z.inj_mod, E.
  replace (2 ^ k - 1) with (Z.ones k) by (rewrite Z.ones_equiv; lia).
  rewrite Z.land_ones by lia. unfold u32. change 4294967296 with (2 ^ 32).
  replace 32 with (k + (32 - k)) by lia. rewrite Z.pow_add_r by lia.
  rewrite Z.rem_mul_r by lia. rewrite Z.mul_comm, Z_mod_plus_full. apply Z.mod_mod. lia.
Qed.

Lemma land_succ a : Z.land (u32 (Z.of_nat (a mod n) + 1)) (Z.of_nat n - 1) = Z.of_nat (S a mod n).
Proof.
  replace (Z.of_nat (a mod n) + 1) with (Z.of_nat (S (a mod n))) by lia.
  rewrite land_mask. f_equal. pose proof n_pos.
  rewrite <- Nat.add_1_r, Nat.Div0.add_mod_idemp_l, Nat.add_1_r. done.
Qed.

Lemma mod_index a : (a mod n < n)%nat.
Proof. pose proof n_pos. apply Nat.mod_upper_bound. lia. Qed.

(** Numbers less than [n] apart have different residues. *)
Lemma mod_apart a b : (a <= b < a + n)%nat -> (a mod n = b mod n)%nat -> a = b.
Proof.
  intros H E. pose proof n_pos as [Hp _]. clear Hn.
  pose proof (Nat.div_mod_eq a n) as Ha. pose proof (Nat.div_mod_eq b n) as Hb.
  assert (a / n <= b / n)%nat by (apply Nat.Div0.div_le_mono; lia).
  assert (b / n <= a / n)%nat; [|nia]. rewrite E in Ha. nia.
Qed.

Lemma u32_apart a b : (a <= b)%nat -> Z.of_nat b < Z.of_nat a + 4294967296 ->
  u32 (Z.of_nat a) = u32 (Z.of_nat b) -> a = b.
Proof.
  clear Hn. intros H1 H2 E. assert (u32 (Z.of_nat b - Z.of_nat a) = 0); [|cint].
  unfold u32 in *. rewrite Zminus_mod, E, Z.sub_diag. done.
Qed.
End arithmetic.

(** ** Updating one handler *)

Lemma some_handler_insert P hs own i p p' ab f :
  hs !! i = Some p ->
  some_handler P (<[i := p']> hs) (<[i := ab]> own) f <->
  P p' ab f \/ exists j q, j <> i /\ hs !! j = Some q /\ P q (own j) f.
Proof.
  intros Hi. pose proof (lookup_lt_Some _ _ _ Hi) as Hlt. split.
  - intros (j & q & Hj & H). destruct (decide (j = i)) as [->|Hne].
    + rewrite list_lookup_insert_eq in Hj by done. rewrite fn_lookup_insert in H. left. congruence.
    + rewrite list_lookup_insert_ne in Hj by done. rewrite fn_lookup_insert_ne in H by done. eauto 6.
  - intros [H|(j & q & Hne & Hj & H)].
    + exists i, p'. by rewrite list_lookup_insert_eq, fn_lookup_insert by done.
    + exists j, q. by rewrite list_lookup_insert_ne, fn_lookup_insert_ne by done.
Qed.

Lemma some_handler_split P hs own i p f :
  hs !! i = Some p ->
  some_handler P hs own f <-> P p (own i) f \/ exists j q, j <> i /\ hs !! j = Some q /\ P q (own j) f.
Proof.
  intros Hi. split.
  - intros (j & q & Hj & H). destruct (decide (j = i)) as [->|Hne]; [left; congruence|eauto 6].
  - intros [H|(j & q & Hne & Hj & H)]; [by exists i, p|by exists j, q].
Qed.

Lemma slot_span_span p ab f : slot_span p ab f -> span p ab f.
Proof. destruct p; cbn; lia. Qed.
Lemma in_slot_unsignaled L own s f : in_slot L own s f -> unsignaled L own s f.
Proof.
  intros [H|(i & p & Hi & H)].
  - left. unfold stored in H. destruct (emitter s); lia.
  - right. exists i, p. split; [done|]. by apply slot_span_span.
Qed.

Definition others (P : process_pc -> nat * nat -> nat -> Prop) (i : nat) (own : nat -> nat * nat)
    (s : fence_sys) (f : nat) : Prop :=
  exists j q, j <> i /\ handlers s !! j = Some q /\ P q (own j) f.

(** The accesses to the slots, when they are in range. *)
Lemma load_slot_eval s x v : fences (drv s) !! x = Some v -> load_slot (Z.of_nat x) s = Ok (v, s).
Proof.
  intros H. unfold load_slot. rewrite (bind_eval (gets id) _ s s s eq_refl). cbn [id].
  by rewrite Nat2Z.id, H.
Qed.

Lemma store_slot_eval s x v : (x < length (fences (drv s)))%nat ->
  store_slot (Z.of_nat x) v s = Ok (tt, set_drv (fun d => set_fences (<[x := v]> (fences d)) d) s).
Proof.
  intros H. unfold store_slot. rewrite (bind_eval (gets id) _ s s s eq_refl). cbn [id].
  rewrite (proj2 (Z.ltb_lt _ _)) by lia. by rewrite Nat2Z.id.
Qed.

Lemma fence_is_signaled_eval s f o : objs s !! f = Some o -> fence_is_signaled f s = Ok (signaled o, s).
Proof.
  intros H. unfold fence_is_signaled. rewrite (bind_eval (gets id) _ s s s eq_refl). cbn [id]. by rewrite H.
Qed.

Lemma fence_signal_eval s f o : objs s !! f = Some o -> signaled o = false ->
  fence_signal f s = Ok (0, set_objs (<[f := MkFence (seqno o) true]> (objs s)) s).
Proof.
  intros H Hs. unfold fence_signal. rewrite (bind_eval (gets id) _ s s s eq_refl). cbn [id].
  by rewrite H, (bind_eval (deref (Some o)) _ s o s eq_refl), Hs.
Qed.

Section invariant.
Context (k : Z) (n : nat) (D : nat) (ids : list nat).

Section facts.
Context (L : nat) (own : nat -> nat * nat) (s : fence_sys) (I : fence_inv k n L D own ids s).

Lemma stored_le : (stored s <= length (objs s) <= S (stored s))%nat.
Proof. unfold stored. destruct (emitter s); lia. Qed.

(** At most [n] stored fences are not claimed: two more would share a slot. *)
Lemma inv_window : (stored s <= L + n)%nat.
Proof.
  pose proof (n_pos _ _ (fi_n _ _ _ _ _ _ _ I)) as [Hp _].
  destruct (decide (stored s <= L + n)%nat) as [|H]; [done|exfalso].
  assert (S L mod n = S (L + n) mod n)%nat as E.
  { replace (S (L + n)) with (S L + 1 * n)%nat by lia. by rewrite Nat.Div0.mod_add. }
  assert (H1 : fences (drv s) !! (S L mod n)%nat = Some (Some L)).
  { apply (fi_slots _ _ _ _ _ _ _ I). split; [left; lia|done]. }
  assert (H2 : fences (drv s) !! (S L mod n)%nat = Some (Some (L + n)%nat)).
  { apply (fi_slots _ _ _ _ _ _ _ I). split; [left; lia|done]. }
  assert (L = L + n)%nat; [congruence|lia].
Qed.

Lemma span_below j q f : handlers s !! j = Some q -> span q (own j) f -> (f < L)%nat.
Proof.
  intros Hj Hf. pose proof (fi_pcs _ _ _ _ _ _ _ I j q Hj) as H.
  destruct (own j) as [a b], q; cbn in *; try done; lia.
Qed.

Lemma slot_in_range i : (i < n)%nat -> exists o, fences (drv s) !! i = Some o.
Proof. intros H. apply lookup_lt_is_Some. by rewrite (fi_len _ _ _ _ _ _ _ I). Qed.

Lemma obj_exists f : (f < length (objs s))%nat -> exists o, objs s !! f = Some o.
Proof. apply lookup_lt_is_Some. Qed.
End facts.

Lemma pc_ok_mono L L' D' ab p :
  (L <= L')%nat -> (D <= D')%nat -> pc_ok n L D ab p -> pc_ok n L' D' ab p.
Proof.
  intros HL HD. destruct ab as [a b], p; cbn; intros H; try done.
  - destruct H as (r & ? & ? & ?). exists r. split_and!; [done|lia|lia].
  - destruct H as (r & q & ? & ? & ? & ? & ?). exists r, q. split_and!; (done || lia).
  - split_and!; (tauto || lia).
  - split_and!; (tauto || lia).
  - split_and!; (tauto || lia).
Qed.

(** A step of handler [i]: what has to be shown of the new state. *)
Lemma inv_update L own s i p L' ab p' d' objs' :
  fence_inv k n L D own ids s -> handlers s !! i = Some p ->
  (L <= L' <= D)%nat ->
  num_fences_mask d' = num_fences_mask (drv s) -> length (fences d') = n ->
  sync_seq d' = sync_seq (drv s) -> last_seq d' = u32 (Z.of_nat L') ->
  cpu_addr d' = cpu_addr (drv s) -> initialized d' = true ->
  length objs' = length (objs s) ->
  (forall f o, objs' !! f = Some o -> seqno o = u32 (Z.of_nat (S f))) ->
  pc_ok n L' D ab p' ->
  (forall f, span p' ab f -> span p (own i) f \/ (L <= f < L')%nat) ->
  (forall f o, objs' !! f = Some o ->
     signaled o = false <-> (L' <= f < length (objs s))%nat \/ span p' ab f \/ others span i own s f) ->
  (forall x f, fences d' !! x = Some (Some f) <->
     ((L' <= f < stored s)%nat \/ slot_span p' ab f \/ others slot_span i own s f) /\ (S f mod n = x)%nat) ->
  emit_ok n (FenceSys d' objs' (packets s) (committed s) (executed s) (emitter s) []) ->
  fence_inv k n L' D (<[i := ab]> own) ids
    (FenceSys d' objs' (packets s) (committed s) (executed s) (emitter s) (<[i := p']> (handlers s))).
Proof.
  intros I Hi HL Hmask Hlen Hsync Hlast Hcpu Hinit Hobjs Hseq Hpc Hspan Hsig Hslot Hemit.
  destruct I. split; unfold unsignaled, in_slot, stored in *; cbn [drv objs handlers emitter packets committed executed] in *;
    try rewrite Hobjs; try done; try congruence.
  - lia.
  - intros f o Ho. rewrite (some_handler_insert _ _ _ _ _ _ _ _ Hi). by apply Hsig.
  - intros x f. rewrite (some_handler_insert _ _ _ _ _ _ _ _ Hi). apply Hslot.
  - intros j q Hj. destruct (decide (j = i)) as [->|Hne].
    + rewrite list_lookup_insert_eq in Hj by eauto using lookup_lt_Some. rewrite fn_lookup_insert. by simplify_eq.
    + rewrite list_lookup_insert_ne in Hj by done. rewrite fn_lookup_insert_ne by done.
      eapply pc_ok_mono; [| |by apply fi_pcs0]; lia.
  - assert (Hother : forall j q f, j <> i -> handlers s !! j = Some q -> span q (own j) f ->
        span p' ab f -> False).
    { intros j q f Hne Hj Hq Hp. destruct (Hspan f Hp) as [H|H].
      - by apply Hne, (fi_disjoint0 j i q p f).
      - pose proof (fi_pcs0 j q Hj) as Hok. destruct (own j), q; cbn in *; try done; lia. }
    intros j l q r f Hj Hl. destruct (decide (j = i)) as [->|Hne], (decide (l = i)) as [->|Hne'];
      rewrite ?list_lookup_insert_eq in Hj by eauto using lookup_lt_Some;
      rewrite ?list_lookup_insert_eq in Hl by eauto using lookup_lt_Some;
      rewrite ?list_lookup_insert_ne in Hj by done; rewrite ?list_lookup_insert_ne in Hl by done;
      rewrite ?fn_lookup_insert; rewrite ?fn_lookup_insert_ne by done; simplify_eq; intros H1 H2; [done| | |eauto].
    + exfalso. eauto.
    + exfalso. eauto.
Qed.

Lemma emit_ok_frame s d' objs' :
  emit_ok n s -> length objs' = length (objs s) ->
  (forall x v, fences (drv s) !! x = Some v -> fences d' !! x = Some v \/ fences d' !! x = Some None) ->
  emit_ok n (FenceSys d' objs' (packets s) (committed s) (executed s) (emitter s) []).
Proof.
  unfold emit_ok. cbn. intros H -> Hf. destruct (emitter s); try done.
  - destruct H as (? & ? & ? & [H|H]); destruct (Hf _ _ H); auto.
  - destruct H as (? & ? & H). destruct (Hf _ _ H); auto.
Qed.

(** A step that leaves the slots and the fences alone. *)
Lemma inv_claim L own s i p L' ab p' d' :
  fence_inv k n L D own ids s -> handlers s !! i = Some p ->
  (L <= L' <= D)%nat ->
  num_fences_mask d' = num_fences_mask (drv s) -> fences d' = fences (drv s) ->
  sync_seq d' = sync_seq (drv s) -> last_seq d' = u32 (Z.of_nat L') ->
  cpu_addr d' = cpu_addr (drv s) -> initialized d' = initialized (drv s) ->
  pc_ok n L' D ab p' ->
  (forall f, span p (own i) f \/ (L <= f < L')%nat <-> span p' ab f) ->
  (forall f, slot_span p (own i) f \/ (L <= f < L')%nat <-> slot_span p' ab f) ->
  fence_inv k n L' D (<[i := ab]> own) ids
    (FenceSys d' (objs s) (packets s) (committed s) (executed s) (emitter s) (<[i := p']> (handlers s))).
Proof.
  intros I Hi HL Hmask Hf Hsync Hlast Hcpu Hinit Hpc Hspan Hslot. pose proof I as I0. destruct I.
  eapply inv_update; try done; try congruence.
  - intros f. apply Hspan.
  - intros f o Ho. rewrite (fi_signaled0 f o Ho). unfold unsignaled.
    rewrite (some_handler_split _ _ _ _ _ _ Hi), <- Hspan. fold (others span i own s f).
    apply lookup_lt_Some in Ho. split.
    + intros [H|[H|H]]; try tauto. destruct (decide (f < L')%nat); [tauto|left; lia].
    + intros [H|[[H|H]|H]]; try tauto; left; lia.
  - intros x f. rewrite Hf, fi_slots0. unfold in_slot.
    rewrite (some_handler_split _ _ _ _ _ _ Hi), <- Hslot. fold (others slot_span i own s f).
    split; intros [H E]; (split; [|exact E]).
    + destruct H as [H|[H|H]]; try tauto. destruct (decide (f < L')%nat); [tauto|left; lia].
    + destruct H as [H|[[H|H]|H]]; try tauto; left; lia.
  - apply emit_ok_frame; [done|done|]. intros x v. rewrite Hf. auto.
Qed.

Lemma quiet_step L own s i p p' :
  fence_inv k n L D own ids s -> handlers s !! i = Some p ->
  (forall ab f, ~ span p ab f) -> (forall ab f, ~ span p' ab f) ->
  pc_ok n L D (0, 0)%nat p' ->
  fence_inv k n L D (<[i := (0, 0)%nat]> own) ids (set_handlers (<[i := p']> (handlers s)) s).
Proof.
  intros I Hi Hp Hp' Hpc.
  apply (inv_claim L own s i p L (0, 0)%nat p' (drv s)); try done; try by destruct I.
  - pose proof (fi_order _ _ _ _ _ _ _ I). lia.
  - intros f. split; [intros [H|H]; [by apply Hp in H|lia]|intros H; by apply Hp' in H].
  - intros f. split; [intros [H|H]; [by apply slot_span_span, Hp in H|lia]|].
    intros H. by apply slot_span_span, Hp' in H.
Qed.

(** A handler in its loop, or done with it, and the number of its steps left. *)
Definition walking (p : process_pc) : Prop :=
  match p with PLoad _ _ | PClear _ _ _ | PSignal _ _ _ | PDone => True | _ => False end.
Definition steps_left (p : process_pc) (ab : nat * nat) : nat :=
  match p with
  | PLoad _ _ => 3 * (ab.2 - ab.1)
  | PClear _ _ _ => 3 * (ab.2 - ab.1) - 1
  | PSignal _ _ _ => 3 * (ab.2 - ab.1) - 2
  | _ => 0
  end.

(** What a handler's step establishes: the invariant, and progress. *)
Definition progress (p p' : process_pc) (s s1 : fence_sys) (ab ab' : nat * nat) (L L' : nat) : Prop :=
  match p with
  | PLoad _ _ | PClear _ _ _ | PSignal _ _ _ =>
      L' = L /\ walking p' /\ (steps_left p' ab' < steps_left p ab)%nat
  | PCas last seq _ => last_seq (drv s) = last ->
      last_seq (drv s1) = seq /\ walking p' /\ (steps_left p' ab' <= 3 * n)%nat
  | _ => L' = L
  end.
Definition handler_ok (L : nat) (own : nat -> nat * nat) (s : fence_sys) (i : nat) (p : process_pc) : Prop :=
  exists p' s1 L' ab', process_step p s = Ok (p', s1) /\
    fence_inv k n L' D (<[i := ab']> own) ids (set_handlers (<[i := p']> (handlers s1)) s1) /\
    progress p p' s s1 (own i) ab' L L'.

Section steps.
Context (L : nat) (own : nat -> nat * nat) (s : fence_sys) (I : fence_inv k n L D own ids s).
Context (i : nat).

Lemma fence_read_ok : handlers s !! i = Some PRead -> handler_ok L own s i PRead.
Proof.
  intros Hi. eexists _, s, L, _. split; [reflexivity|]. split; [|done].
  apply (quiet_step L own s i PRead); [done|done|by intros ? ? []|by intros ? ? []|].
  cbn. exists L. pose proof (inv_window L own s I). pose proof (stored_le s).
  split_and!; [by destruct I|done|lia].
Qed.

Lemma read_seq_ok last st :
  handlers s !! i = Some (PReadSeq last st) -> handler_ok L own s i (PReadSeq last st).
Proof.
  intros Hi. eexists _, s, L, _. split; [reflexivity|]. split; [|done].
  apply (quiet_step L own s i (PReadSeq last st)); [done|done|by intros ? ? []|by intros ? ? []|].
  pose proof (fi_pcs _ _ _ _ _ _ _ I i _ Hi) as H. destruct (own i) as [a b]. destruct H as (r & -> & Hr & Hst).
  cbn. exists r, D. unfold amdgpu_fence_read. rewrite (fi_word _ _ _ _ _ _ _ I).
  pose proof (fi_order _ _ _ _ _ _ _ I). split_and!; (done || lia).
Qed.

(** The exchange: with sequence numbers compared at 32 bits, it succeeds only
    when no other handler has claimed fences since [last_seq] was read. *)
Lemma cas_ok last seq st :
  handlers s !! i = Some (PCas last seq st) -> no_aba (PCas last seq st) s ->
  handler_ok L own s i (PCas last seq st).
Proof.
  intros Hi Haba. pose proof (fi_pcs _ _ _ _ _ _ _ I i _ Hi) as H. pose proof (fi_n _ _ _ _ _ _ _ I) as Hn.
  destruct (own i) as [a b]. destruct H as (r & q & -> & Hr & Hst & -> & Hq).
  pose proof (fi_order _ _ _ _ _ _ _ I) as Ho. pose proof (stored_le s) as HE.
  pose proof (inv_window L own s I) as Hw. pose proof (n_pos _ _ Hn) as [Hp Hp'].
  cbn in Haba. rewrite (fi_len _ _ _ _ _ _ _ I) in Haba.
  unfold handler_ok. cbn [process_step]. rewrite (bind_eval (gets id) _ s s s eq_refl). cbn [id].
  rewrite (fi_last _ _ _ _ _ _ _ I).
  destruct (Z.eqb_spec (u32 (Z.of_nat L)) (u32 (Z.of_nat r))) as [E|E].
  2:{ eexists _, s, L, _. split; [reflexivity|]. split; [|cbn; rewrite (fi_last _ _ _ _ _ _ _ I); congruence].
      by apply (quiet_step L own s i (PCas (u32 (Z.of_nat r)) (u32 (Z.of_nat q)) st));
        [| |intros ? ? []|intros ? ? []|]. }
  assert (r = L) as -> by (apply u32_apart; [lia|lia|done]).
  set (tm := (fallback_timer (drv s) || negb (u32 (Z.of_nat q) =? sync_seq (drv s)))%bool).
  set (d' := set_timer tm (set_last_seq (u32 (Z.of_nat q)) (drv s))).
  assert (Hrun : forall (X : Type) (m : FM X),
    (modify (set_drv (set_last_seq (u32 (Z.of_nat q))));;
     (if negb (u32 (Z.of_nat q) =? sync_seq (drv s)) then amdgpu_fence_schedule_fallback else mret tt);; m) s
    = m (set_drv (fun _ => d') s)).
  { intros X m. unfold d', tm, amdgpu_fence_schedule_fallback.
    destruct (_ =? sync_seq (drv s)); unfold mbind, M_bind, modify, mret, M_ret; cbn;
      rewrite ?orb_true_r, ?orb_false_r; by destruct s as [[] ? ? ? ? ? ?]. }
  rewrite Hrun. rewrite (fi_mask _ _ _ _ _ _ _ I), !(land_mask _ _ Hn).
  destruct (Z.eqb_spec (u32 (Z.of_nat q)) (u32 (Z.of_nat L))) as [E'|E'].
  - assert (L = q) as <- by (apply u32_apart; [lia|lia|done]).
    eexists _, _, L, (0, 0)%nat. split; [reflexivity|]. split; [|intros _; split; [done|cbn; lia]].
    apply (inv_claim L own s i (PCas (u32 (Z.of_nat L)) (u32 (Z.of_nat L)) st)); try (done || lia).
    + intros f. cbn. lia.
    + intros f. cbn. lia.
  - assert (L <> q) by congruence.
    eexists _, _, q, (L, q). split; [reflexivity|]. split; [|intros _; split; [done|cbn; lia]].
    apply (inv_claim L own s i (PCas (u32 (Z.of_nat L)) (u32 (Z.of_nat q)) st)); try (done || lia).
    + cbn. split_and!; (done || lia).
    + intros f. cbn. lia.
    + intros f. cbn. lia.
Qed.

Lemma load_ok l q : handlers s !! i = Some (PLoad l q) -> handler_ok L own s i (PLoad l q).
Proof.
  intros Hi. pose proof (fi_pcs _ _ _ _ _ _ _ I i _ Hi) as H. pose proof (fi_n _ _ _ _ _ _ _ I) as Hn.
  destruct (own i) as [a b] eqn:Eown. destruct H as ([Hab Hb] & -> & ->).
  exists (PClear a (Z.of_nat (S a mod n)) (Z.of_nat (b mod n))), s, L, (a, b).
  split; [|split; [|rewrite Eown; cbn; lia]].
  - cbn [process_step]. rewrite (bind_eval (gets id) _ s s s eq_refl). cbn [id].
    rewrite (fi_mask _ _ _ _ _ _ _ I), (land_succ _ _ Hn).
    rewrite (bind_eval (load_slot _) _ s (Some a) s); [done|]. apply load_slot_eval.
    apply (fi_slots _ _ _ _ _ _ _ I). split; [|done].
    right. exists i, (PLoad (Z.of_nat (a mod n)) (Z.of_nat (b mod n))). split; [done|]. rewrite Eown. cbn. lia.
  - apply (inv_claim L own s i (PLoad (Z.of_nat (a mod n)) (Z.of_nat (b mod n)))); try done; try by destruct I.
    + pose proof (fi_order _ _ _ _ _ _ _ I). lia.
    + intros f. rewrite Eown. cbn. lia.
    + intros f. rewrite Eown. cbn. lia.
Qed.

Lemma clear_ok f l q : handlers s !! i = Some (PClear f l q) -> handler_ok L own s i (PClear f l q).
Proof.
  intros Hi. pose proof (fi_pcs _ _ _ _ _ _ _ I i _ Hi) as H. pose proof (fi_n _ _ _ _ _ _ _ I) as Hn.
  destruct (own i) as [a b] eqn:Eown. destruct H as ([Hab Hb] & -> & -> & ->).
  pose proof (mod_index _ _ Hn (S a)) as Hx. pose proof (fi_order _ _ _ _ _ _ _ I) as Ho.
  pose proof (fi_len _ _ _ _ _ _ _ I) as Hlen.
  assert (Hdis : forall g, others span i own s g -> g <> a).
  { intros g (j & r & Hne & Hj & Hr) ->. apply Hne.
    apply (fi_disjoint _ _ _ _ _ _ _ I j i r _ a Hj Hi Hr). rewrite Eown. cbn. lia. }
  eexists _, _, L, (a, b). split.
  { cbn [process_step]. 
    rewrite (bind_eval (store_slot _ _) _ s _ _ (store_slot_eval s (S a mod n) None ltac:(lia))). reflexivity. }
  split; [|rewrite Eown; cbn; lia].
  apply (inv_update L own s i (PClear a (Z.of_nat (S a mod n)) (Z.of_nat (b mod n)))); try done; try by destruct I.
  - lia.
  - cbn. by rewrite length_insert.
  - intros g. rewrite Eown. cbn. lia.
  - intros g o Hg. rewrite (fi_signaled _ _ _ _ _ _ _ I g o Hg). unfold unsignaled.
    rewrite (some_handler_split _ _ _ _ _ _ Hi), Eown. done.
  - intros x g. cbn. destruct (decide (x = S a mod n)%nat) as [->|Hne].
    + rewrite list_lookup_insert_eq by lia. split; [done|]. intros [H E]. exfalso.
      assert (g = a) as ->.
      { assert (in_slot L own s g) as Hg.
        { unfold in_slot. rewrite (some_handler_split _ _ _ _ _ _ Hi), Eown. cbn.
          destruct H as [H|[H|H]]; [tauto|right; left; lia|tauto]. }
        pose proof (proj2 (fi_slots _ _ _ _ _ _ _ I _ g) (conj Hg E)).
        assert (in_slot L own s a) as Ha.
        { right. exists i, (PClear a (Z.of_nat (S a mod n)) (Z.of_nat (b mod n))). rewrite Eown. cbn. split; [done|lia]. }
        pose proof (proj2 (fi_slots _ _ _ _ _ _ _ I _ a) (conj Ha eq_refl)). congruence. }
      destruct H as [H|[H|(j & r & H1 & H2 & H3)]]; [lia|lia|].
      apply (Hdis a); [|done]. exists j, r. eauto using slot_span_span.
    + rewrite list_lookup_insert_ne by done. rewrite (fi_slots _ _ _ _ _ _ _ I).
      unfold in_slot. rewrite (some_handler_split _ _ _ _ _ _ Hi), Eown. cbn. fold (others slot_span i own s g).
      split; intros [H E]; (split; [|exact E]); destruct H as [H|[H|H]]; try tauto.
      * right. left. destruct (decide (g = a)) as [->|]; [by rewrite E in Hne|lia].
      * right. left. lia.
  - apply emit_ok_frame; [by destruct I|done|]. intros x v Hx'. cbn.
    destruct (decide (x = S a mod n)%nat) as [->|?]; [right; by rewrite list_lookup_insert_eq by lia|].
    left. by rewrite list_lookup_insert_ne.
Qed.

Lemma walk_next_ok a b : (a < b <= a + n)%nat -> (b <= L)%nat -> 
  pc_ok n L D (S a, b) (walk_next (Z.of_nat (S a mod n)) (Z.of_nat (b mod n))).
Proof.
  intros Hab Hb. unfold walk_next. pose proof (fi_n _ _ _ _ _ _ _ I) as Hn.
  destruct (Z.eqb_spec (Z.of_nat (S a mod n)) (Z.of_nat (b mod n))) as [E|E]; [done|].
  cbn. assert (S a <> b) by congruence. split_and!; (done || lia).
Qed.

Lemma walk_next_span a b P : P = span \/ P = slot_span -> (a < b <= a + n)%nat -> forall f,
  P (walk_next (Z.of_nat (S a mod n)) (Z.of_nat (b mod n))) (S a, b) f <-> (a < f < b)%nat.
Proof.
  intros HP Hab f. unfold walk_next. pose proof (fi_n _ _ _ _ _ _ _ I) as Hn.
  destruct (Z.eqb_spec (Z.of_nat (S a mod n)) (Z.of_nat (b mod n))) as [E|E].
  - assert (S a = b) as <- by (eapply mod_apart; [done|lia|lia]). destruct HP as [-> | ->]; cbn; lia.
  - destruct HP as [-> | ->]; cbn; lia.
Qed.

Lemma walk_next_progress a b x y : (a < b)%nat ->
  L = L /\ walking (walk_next x y) /\ (steps_left (walk_next x y) (S a, b) < 3 * (b - a) - 2)%nat.
Proof. intros. unfold walk_next. destruct (x =? y); cbn; lia. Qed.

Lemma signal_ok f l q : handlers s !! i = Some (PSignal f l q) -> handler_ok L own s i (PSignal f l q).
Proof.
  intros Hi. pose proof (fi_pcs _ _ _ _ _ _ _ I i _ Hi) as H.
  destruct (own i) as [a b] eqn:Eown. destruct H as ([Hab Hb] & -> & -> & ->).
  pose proof (fi_order _ _ _ _ _ _ _ I) as Ho. pose proof (stored_le s) as HE.
  assert (Hdis : forall g, others span i own s g -> g <> a).
  { intros g (j & r & Hne & Hj & Hr) ->. apply Hne.
    apply (fi_disjoint _ _ _ _ _ _ _ I j i r _ a Hj Hi Hr). rewrite Eown. cbn. lia. }
  destruct (lookup_lt_is_Some_2 (objs s) a) as [o Hobj]; [lia|].
  assert (signaled o = false) as Hsig.
  { apply (fi_signaled _ _ _ _ _ _ _ I a o Hobj). right. eexists i, _. split; [done|]. rewrite Eown. cbn. lia. }
  eexists _, _, L, (S a, b). split.
  { cbn [process_step]. 
    rewrite (bind_eval (fence_signal _) _ s _ _ (fence_signal_eval s a o Hobj Hsig)). reflexivity. }
  split; [|rewrite Eown; apply walk_next_progress; lia].
  apply (inv_update L own s i (PSignal a (Z.of_nat (S a mod n)) (Z.of_nat (b mod n)))); try done; try by destruct I.
  - lia.
  - cbn. by rewrite length_insert.
  - cbn. intros g x. rewrite list_lookup_insert_Some. intros [(<- & <- & _)|[_ Hx]]; cbn;
      by eapply (fi_seqno _ _ _ _ _ _ _ I).
  - by apply walk_next_ok.
  - intros g. rewrite walk_next_span by eauto. rewrite Eown. cbn. lia.
  - intros g x. cbn. rewrite walk_next_span by eauto. rewrite list_lookup_insert_Some.
    intros [(<- & <- & _)|[Hne Hx]].
    + cbn. split; [done|]. intros [H|[H|H]]; [lia|lia|by apply Hdis in H].
    + rewrite (fi_signaled _ _ _ _ _ _ _ I g x Hx). unfold unsignaled.
      rewrite (some_handler_split _ _ _ _ _ _ Hi), Eown. cbn. fold (others span i own s g).
      split; (intros [H|[H|H]]; [tauto|right; left; lia|tauto]).
  - intros x g. cbn. rewrite walk_next_span by eauto. rewrite (fi_slots _ _ _ _ _ _ _ I). unfold in_slot.
    by rewrite (some_handler_split _ _ _ _ _ _ Hi), Eown.
  - apply emit_ok_frame; [by destruct I|cbn; by rewrite length_insert|auto].
Qed.
End steps.
End invariant.
