(* ===== verification/FenceSpec.v ===== *)
(** * What the fence driver guarantees

    The steps of the emitting thread, the hardware and the handlers keep the
    invariant of [FenceInv]; from it follow that no handler ever reaches
    [BUG()], that fences signal exactly when the hardware has passed them, and
    what processing, counting and waiting return. *)

From stdpp Require Import base numbers list relations functions.
From S2P Require Import Prelude CMonad Fence FenceInv.

#[local] Arguments Nat.modulo : simpl never.
#[local] Arguments Z.modulo : simpl never.

Definition fence_wf (k : Z) (n : nat) (s : fence_sys) : Prop :=
  exists L D own ids, fence_inv k n L D own ids s.

Section preservation.
Context (k : Z) (n : nat) (L D : nat) (own : nat -> nat * nat) (ids : list nat) (s : fence_sys).
Context (I : fence_inv k n L D own ids s).

Lemma handler_step_ok i p : handlers s !! i = Some p -> no_aba p s -> handler_ok k n D ids L own s i p.
Proof.
  intros Hi Haba. destruct p.
  - by eapply fence_read_ok.
  - by eapply read_seq_ok.
  - by eapply cas_ok.
  - by eapply load_ok.
  - by eapply clear_ok.
  - by eapply signal_ok.
  - eexists _, s, L, _. split; [reflexivity|]. split; [|done].
    by apply (quiet_step _ _ _ _ L own s i PDone); [| |intros ? ? []|intros ? ? []|].
Qed.

(** Steps that change neither the slots nor the fences nor a handler's program. *)
Lemma inv_frame d' pk c e em hs ids' D' :
  (L <= D')%nat -> (D <= D')%nat -> 
  (forall i p, hs !! i = Some p -> handlers s !! i = Some p \/ p = PRead) ->
  (forall i p, handlers s !! i = Some p -> hs !! i = Some p) ->
  num_fences_mask d' = num_fences_mask (drv s) -> fences d' = fences (drv s) ->
  sync_seq d' = sync_seq (drv s) -> last_seq d' = last_seq (drv s) ->
  cpu_addr d' = Some (u32 (Z.of_nat D')) -> initialized d' = initialized (drv s) ->
  (em = EIdle <-> emitter s = EIdle) -> (D' <= stored s)%nat ->
  emit_ok n (FenceSys d' (objs s) pk c e em hs) ->
  pk = (fun i => u32 (Z.of_nat i)) <$> ids' ->
  (e <= c <= length ids')%nat ->
  (forall x i, ids' !! x = Some i -> (i <= length (objs s))%nat /\
     ((x < c)%nat -> (i <= stored s)%nat) /\ ((e <= x)%nat -> (D' <= i)%nat)) ->
  (forall x y i j, (x <= y)%nat -> ids' !! x = Some i -> ids' !! y = Some j -> (i <= j)%nat) ->
  fence_inv k n L D' own ids' (FenceSys d' (objs s) pk c e em hs).
Proof.
  intros HL HD Hhs Hhs' Hm Hf Hs Hl Hc Hi Hem Hst Hemit Hpk He Hids Hmono. destruct I.
  assert (Hstored : stored (FenceSys d' (objs s) pk c e em hs) = stored s).
  { unfold stored. cbn. destruct em, (emitter s); try done; destruct Hem as [H1 H2];
      solve [discriminate (H1 eq_refl)|discriminate (H2 eq_refl)]. }
  assert (Hsome : forall P f, (forall ab, ~ P PRead ab f) ->
     some_handler P hs own f <-> some_handler P (handlers s) own f).
  { intros P f HP. split; intros (i & p & Hip & H); exists i, p; (split; [|done]); [|by apply Hhs'].
    destruct (Hhs i p Hip) as [| ->]; [done|]. by apply HP in H. }
  split; try rewrite Hstored; cbn [drv objs packets committed executed emitter handlers]; try done; try congruence.
  - intros f o Ho. unfold unsignaled. cbn. rewrite Hsome by (intros ? []). by apply fi_signaled.
  - intros i f. unfold in_slot. rewrite Hstored, Hf. cbn. rewrite Hsome by (intros ? []). apply fi_slots.
  - intros i p Hp. destruct (Hhs i p Hp) as [Hp'| ->]; [|by destruct (own i)].
    eapply pc_ok_mono; [| |by apply fi_pcs]; lia.
  - intros i j p q f Hp Hq H1 H2. destruct (Hhs i p Hp) as [Hp'| ->]; [|done].
    destruct (Hhs j q Hq) as [Hq'| ->]; [|done]. eauto.
Qed.

Lemma interrupt_ok : fence_inv k n L D own ids (set_handlers (handlers s ++ [PRead]) s).
Proof.
  pose proof (fi_ids _ _ _ _ _ _ _ I) as (H1 & H2 & H3).
  pose proof (fi_order _ _ _ _ _ _ _ I). apply inv_frame; try done; try lia; try by destruct I.
  - intros i p [H'|(_ & H')]%lookup_app_Some; [auto|]. right.
    destruct (i - length (handlers s))%nat; by simplify_eq/=.
  - intros i p Hp. by apply lookup_app_l_Some.
Qed.

Lemma doorbell_ok s1 : emitter s = EIdle -> ring_doorbell s = Ok (tt, s1) -> fence_inv k n L D own ids s1.
Proof.
  intros He [= <-]. pose proof (fi_ids _ _ _ _ _ _ _ I) as (H1 & H2 & H3).
  pose proof (fi_order _ _ _ _ _ _ _ I). pose proof (fi_packets _ _ _ _ _ _ _ I) as Hp. cbn [id].
  assert (length (packets s) = length ids) as Hlen by (rewrite Hp; apply length_fmap).
  apply inv_frame; try done; try lia; try by destruct I.
  - auto.
  - intros x i Hx. destruct (H2 x i Hx) as (? & ? & ?). split_and!; auto. unfold stored. by rewrite He.
Qed.

Lemma drop_ok s1 : ring_drop s = Ok (tt, s1) -> fence_inv k n L D own (take (committed s) ids) s1.
Proof.
  intros [= <-]. pose proof (fi_ids _ _ _ _ _ _ _ I) as (H1 & H2 & H3).
  pose proof (fi_order _ _ _ _ _ _ _ I). pose proof (fi_packets _ _ _ _ _ _ _ I) as Hp. cbn [id].
  apply inv_frame; try done; try lia; try by destruct I.
  - auto.
  - by rewrite Hp, fmap_take.
  - rewrite length_take. lia.
  - intros x i [Hx _]%lookup_take_Some. by apply H2.
  - intros x y i j Hle [Hx _]%lookup_take_Some [Hy _]%lookup_take_Some. eauto.
Qed.

Lemma u32_u32 z : u32 (u32 z) = u32 z.
Proof. cint. Qed.

Lemma hw_ok s1 : hw_execute s = Ok (tt, s1) -> fence_wf k n s1.
Proof.
  unfold hw_execute. rewrite (bind_eval (gets id) _ s s s eq_refl). cbn [id].
  destruct (Nat.ltb_spec (executed s) (committed s)) as [Hlt|]; [|intros [= <-]; by exists L, D, own, ids].
  pose proof (fi_ids _ _ _ _ _ _ _ I) as (H1 & H2 & H3). pose proof (fi_packets _ _ _ _ _ _ _ I) as Hp.
  pose proof (fi_order _ _ _ _ _ _ _ I) as Ho. pose proof (fi_word _ _ _ _ _ _ _ I) as Hw.
  destruct (lookup_lt_is_Some_2 ids (executed s)) as [e He]; [lia|].
  rewrite Hp, list_lookup_fmap, He. cbn. intros [= <-]. destruct (H2 _ _ He) as (He1 & He2 & He3).
  exists L, e, own, ids. specialize (He2 Hlt). specialize (He3 ltac:(lia)).
  unfold amdgpu_fence_write, set_executed, set_drv; cbn. rewrite Hw. apply inv_frame; try done; try lia; try by destruct I.
  - auto.
  - cbn. by rewrite u32_u32.
  - intros x i Hx. destruct (H2 x i Hx) as (? & ? & ?). split_and!; auto. intros. eapply (H3 (executed s) x); [lia|done|done].
Qed.

Lemma abandon_ok s1 : emitter s = EIdle -> hw_abandon s = Ok (tt, s1) -> fence_wf k n s1.
Proof.
  intros He. unfold hw_abandon. rewrite (bind_eval (gets id) _ s s s eq_refl). cbn. intros [= <-].
  pose proof (fi_ids _ _ _ _ _ _ _ I) as (H1 & H2 & H3). pose proof (fi_packets _ _ _ _ _ _ _ I) as Hp.
  pose proof (fi_order _ _ _ _ _ _ _ I) as Ho. pose proof (fi_word _ _ _ _ _ _ _ I) as Hw.
  assert (length (packets s) = length ids) as Hlen by (rewrite Hp; apply length_fmap).
  assert (stored s = length (objs s)) as Hst by (unfold stored; by rewrite He).
  exists L, (length (objs s)), own, ids.
  unfold set_executed, set_committed, set_drv, amdgpu_fence_driver_force_completion_ring, amdgpu_fence_write; cbn.
  rewrite (fi_init _ _ _ _ _ _ _ I), Hw. apply inv_frame; try done; try lia; try by destruct I.
  - auto.
  - cbn. by rewrite (fi_sync _ _ _ _ _ _ _ I), u32_u32.
  - intros x i Hx. destruct (H2 x i Hx) as (? & ? & ?). apply lookup_lt_Some in Hx. split_and!; lia.
Qed.

Lemma emit_begin_inv r p s1 :
  emitter s = EIdle -> emit_begin true s = Ok ((r, p), s1) ->
  fence_inv k n L D own (ids ++ [S (length (objs s))]) (set_emitter p s1).
Proof.
  intros He. unfold emit_begin. cbn [negb]. rewrite (bind_eval (gets id) _ s s s eq_refl). cbn.
  intros [= <- <- <-]. pose proof (fi_n _ _ _ _ _ _ _ I) as Hn. destruct I.
  assert (stored s = length (objs s)) as Hst by (unfold stored; by rewrite He).
  set (E := length (objs s)) in *.
  assert (u32 (sync_seq (drv s) + 1) = u32 (Z.of_nat (S E))) as Hseq by (rewrite fi_sync; cint).
  rewrite Hseq, fi_mask, (land_mask _ _ Hn).
  destruct fi_ids as (H1 & H2 & H3).
  split; cbn [drv objs packets committed executed emitter handlers set_emitter set_packets set_objs set_drv
    num_fences_mask fences sync_seq last_seq cpu_addr initialized set_sync_seq];
    unfold stored, unsignaled, in_slot; cbn -[Nat.modulo]; rewrite ?length_app; cbn -[Nat.modulo]; fold E;
    rewrite ?Nat.add_1_r; cbn [Nat.pred]; try done.
  - lia.
  - intros f o [Ho|(Hge & Ho)]%lookup_app_Some; [by apply fi_seqno|].
    apply list_lookup_singleton_Some in Ho as [Hf <-]. cbn. fold E in Hf, Hge. do 3 f_equal. lia.
  - intros f o [Ho|(Hge & Ho)]%lookup_app_Some.
    + rewrite (fi_signaled f o Ho). apply lookup_lt_Some in Ho. unfold unsignaled. fold E.
      split; (intros [H|H]; [left; unfold E in *; lia|tauto]).
    + apply list_lookup_singleton_Some in Ho as [Hf <-]. fold E in Hge, Hf. cbn. split; [left; lia|done].
  - intros i f. rewrite fi_slots. unfold in_slot. by rewrite Hst.
  - rewrite fi_packets, fmap_app. done.
  - split_and!; [lia|lia| |].
    + intros x i [Hx|(Hge & Hx)]%lookup_app_Some.
      * destruct (H2 x i Hx) as (? & ? & ?). split_and!; [lia|lia|auto].
      * apply list_lookup_singleton_Some in Hx as [Hx <-]. split_and!; [lia|lia|lia].
    + intros x y i j Hle Hx Hy.
      apply lookup_app_Some in Hy as [Hy|(Hge & Hy)].
      * rewrite lookup_app_l in Hx by (apply lookup_lt_Some in Hy; lia). eauto.
      * apply list_lookup_singleton_Some in Hy as [_ <-].
        apply lookup_app_Some in Hx as [Hx|(_ & Hx)].
        -- destruct (H2 x i Hx). lia.
        -- apply list_lookup_singleton_Some in Hx as [_ <-]. lia.
Qed.

Lemma emit_begin_ok ok r p s1 :
  emitter s = EIdle -> emit_begin ok s = Ok ((r, p), s1) -> fence_wf k n (set_emitter p s1).
Proof.
  intros He H. destruct ok.
  - eexists L, D, own, _. by eapply emit_begin_inv.
  - injection H as <- <- <-. exists L, D, own, ids. destruct s; cbn in *. by subst.
Qed.

(** A pointer in a slot names an older fence that has not been signaled. *)
Lemma slot_content x o : fences (drv s) !! x = Some (Some o) ->
  (o < stored s)%nat /\ exists b, objs s !! o = Some b /\ signaled b = false.
Proof.
  intros H. pose proof (proj1 (fi_slots _ _ _ _ _ _ _ I x o) H) as [Hin _].
  pose proof (stored_le s) as HE. pose proof (fi_order _ _ _ _ _ _ _ I) as Ho.
  assert (o < stored s)%nat as Hlt.
  { destruct Hin as [?|(i & q & Hi & Hq)]; [lia|].
    pose proof (span_below _ _ _ _ _ _ _ I i q o Hi (slot_span_span _ _ _ Hq)). lia. }
  split; [done|]. destruct (lookup_lt_is_Some_2 (objs s) o) as [b Hb]; [lia|]. exists b. split; [done|].
  apply (fi_signaled _ _ _ _ _ _ _ I o b Hb). by apply in_slot_unsignaled.
Qed.

Lemma emit_move p : p <> EIdle -> emitter s <> EIdle ->
  emit_ok n (set_emitter p s) -> fence_inv k n L D own ids (set_emitter p s).
Proof.
  intros Hp He Hok. pose proof (fi_ids _ _ _ _ _ _ _ I) as (H1 & H2 & H3).
  pose proof (fi_order _ _ _ _ _ _ _ I). apply inv_frame; try done; try lia; try by destruct I. auto.
Qed.

Lemma emit_load_ok f i : emitter s = ELoad f i ->
  exists p, emit_step (ELoad f i) s = Ok (p, s) /\ p <> EIdle /\ emit_ok n (set_emitter p s).
Proof.
  intros He. pose proof (fi_emit _ _ _ _ _ _ _ I) as Hok. unfold emit_ok in Hok. rewrite He in Hok.
  destruct Hok as [Hf ->]. pose proof (fi_n _ _ _ _ _ _ _ I) as Hn.
  destruct (slot_in_range _ _ _ _ _ _ _ I (S f mod n)) as [v Hv]; [by eapply mod_index|].
  unfold emit_ok. cbn [emit_step]. rewrite (bind_eval (load_slot _) _ s _ _ (load_slot_eval s _ _ Hv)).
  destruct v as [o|].
  - destruct (slot_content _ _ Hv) as (Ho & b & Hb & Hs).
    rewrite (bind_eval (fence_is_signaled _) _ s _ _ (fence_is_signaled_eval s _ _ Hb)), Hs.
    eexists. split; [reflexivity|]. split; [done|]. cbn. unfold stored in Ho. rewrite He in Ho.
    split_and!; [done|done|lia|auto].
  - eexists. split; [reflexivity|]. by split.
Qed.

Lemma emit_wait_ok f o i : emitter s = EWait f o i ->
  exists p, emit_step (EWait f o i) s = Ok (p, s) /\ p <> EIdle /\ emit_ok n (set_emitter p s).
Proof.
  intros He. pose proof (fi_emit _ _ _ _ _ _ _ I) as Hok. pose proof Hok as Hok'.
  unfold emit_ok in Hok'. rewrite He in Hok'. destruct Hok' as (Hf & -> & Ho & Hs).
  destruct (lookup_lt_is_Some_2 (objs s) o) as [b Hb]; [lia|]. cbn [emit_step].
  rewrite (bind_eval (fence_is_signaled _) _ s _ _ (fence_is_signaled_eval s _ _ Hb)).
  eexists. split; [reflexivity|]. split; [by destruct (signaled b)|].
  destruct (signaled b) eqn:Eb; [|unfold emit_ok in Hok |- *; by rewrite He in Hok].
  destruct Hs as [Hs|Hs]; [|by split].
  destruct (slot_content _ _ Hs) as (_ & b' & ? & ?). congruence.
Qed.

Lemma emit_store_ok f i : emitter s = EStore f i ->
  exists s1, emit_step (EStore f i) s = Ok (EIdle, s1) /\
    fence_inv k n L D own ids (set_emitter EIdle s1) /\
    s1 = set_drv (fun d => set_fences (<[Z.to_nat i := Some f]> (fences d)) d) s.
Proof.
  intros He. pose proof (fi_emit _ _ _ _ _ _ _ I) as Hok. unfold emit_ok in Hok. rewrite He in Hok.
  destruct Hok as (Hf & -> & Hs). pose proof (fi_n _ _ _ _ _ _ _ I) as Hn.
  pose proof (mod_index _ _ Hn (S f)) as Hx. pose proof (fi_len _ _ _ _ _ _ _ I) as Hlen.
  eexists. split.
  { cbn [emit_step]. rewrite (bind_eval (store_slot _ _) _ s _ _ (store_slot_eval s (S f mod n) (Some f) ltac:(lia))).
    reflexivity. }
  assert (stored s = f) as Hst by (unfold stored; rewrite He; lia).
  split; [|by rewrite Nat2Z.id]. destruct I.
  split; cbn [drv objs packets committed executed emitter handlers set_emitter set_drv fences set_fences
    num_fences_mask sync_seq last_seq cpu_addr initialized]; unfold stored, in_slot; cbn -[Nat.modulo]; try done.
  - by rewrite length_insert.
  - lia.
  - intros x g. destruct (decide (x = S f mod n)%nat) as [->|Hne].
    + rewrite list_lookup_insert_eq by lia. split.
      * intros [= <-]. split; [left; lia|done].
      * intros [H E]. destruct (decide (g = f)) as [->|Hg]; [done|exfalso].
        assert (fences (drv s) !! (S f mod n)%nat = Some (Some g)); [|congruence].
        apply fi_slots. split; [|done]. unfold in_slot. rewrite Hst. destruct H as [H|H]; [left; lia|by right].
    + rewrite list_lookup_insert_ne by done. rewrite fi_slots. unfold in_slot. rewrite Hst.
      split; intros [H E]; (split; [|exact E]); (destruct H as [H|H]; [|by right]); left; [lia|].
      destruct (decide (g = f)) as [->|]; [by rewrite E in Hne|lia].
  - destruct fi_ids as (H1 & H2 & H3). split_and!; [lia|lia| |done]. intros x j Hj.
    destruct (H2 x j Hj) as (? & ? & ?). auto.
Qed.
End preservation.

(** ** Every reachable state *)

Lemma step_wf k n s s' : fence_wf k n s -> fence_step s s' -> fence_wf k n s'.
Proof.
  intros (L & D & own & ids & I) H. destruct H as [i p p' s1 Hi Haba Hrun| |ok r p s1 He Hrun|p s1 Hrun|
    s1 He Hrun|s1 He Hrun|s1 Hrun|s1 He Hrun].
  - destruct (handler_step_ok _ _ _ _ _ _ _ I i p Hi Haba) as (p2 & s2 & L' & ab' & Hrun' & I' & _).
    rewrite Hrun in Hrun'. injection Hrun' as <- <-. by exists L', D, (<[i := ab']> own), ids.
  - exists L, D, own, ids. by apply interrupt_ok.
  - by eapply emit_begin_ok.
  - destruct (emitter s) as [|f i|f o i|f i] eqn:He.
    + injection Hrun as <- <-. exists L, D, own, ids. destruct s; cbn in *. by subst.
    + destruct (emit_load_ok _ _ _ _ _ _ _ I f i He) as (q & Hq & Hne & Hok).
      rewrite Hrun in Hq. injection Hq as -> ->. exists L, D, own, ids. apply emit_move; [done|done|congruence|done].
    + destruct (emit_wait_ok _ _ _ _ _ _ _ I f o i He) as (q & Hq & Hne & Hok).
      rewrite Hrun in Hq. injection Hq as -> ->. exists L, D, own, ids. apply emit_move; [done|done|congruence|done].
    + destruct (emit_store_ok _ _ _ _ _ _ _ I f i He) as (s2 & Hq & Hwf & _). rewrite Hrun in Hq.
      injection Hq as -> ->. by exists L, D, own, ids.
  - exists L, D, own, ids. by apply (doorbell_ok _ _ _ _ _ _ s).
  - eexists L, D, own, _. by eapply drop_ok.
  - by eapply hw_ok.
  - by eapply abandon_ok.
Qed.

Section reachable.
Context (m : Z) (Hm : 0 <= m <= 30) (addr word : Z).

Lemma fence_start_inv : fence_inv (m + 1) (Z.to_nat (2 * 2 ^ m)) 0 0 (fun _ => (0, 0)%nat) []
  (fence_start (2 ^ m) addr word).
Proof.
  assert (0 < 2 ^ m <= 2 ^ 30) as Hp by (split; [lia|apply Z.pow_le_mono_r; lia]).
  assert (Z.land (2 ^ m) (u32 (2 ^ m - 1)) = 0) as Hland.
  { rewrite u32_small by cint. replace (2 ^ m - 1) with (Z.ones m) by (rewrite Z.ones_equiv; lia).
    rewrite Z.land_ones by lia. apply Z.mod_same. lia. }
  unfold fence_start, amdgpu_fence_driver_init_ring. rewrite Hland. cbn [Z.eqb negb snd].
  rewrite (u32_small (2 ^ m * 2)), (u32_small (2 ^ m * 2 - 1)) by cint.
  split; cbn -[Nat.modulo Z.pow Z.mul]; try done; try lia.
  - split; [lia|]. rewrite Z.pow_add_r by lia. lia.
  - rewrite length_replicate. lia.
  - intros i f. rewrite lookup_replicate. split; [intros [? _]; done|].
    intros [[H|(j & p & Hj & _)] _]; [cbn in H; lia|done].
Qed.

Lemma reachable_wf s : fence_reachable (2 ^ m) addr word s -> fence_wf (m + 1) (Z.to_nat (2 * 2 ^ m)) s.
Proof.
  intros H. assert (fence_wf (m + 1) (Z.to_nat (2 * 2 ^ m)) (fence_start (2 ^ m) addr word)) as H0
    by (eexists 0%nat, 0%nat, _, []; apply fence_start_inv).
  induction H as [|s1 s2 s3 Hstep _ IH]; [done|]. eauto using step_wf.
Qed.
End reachable.

(** ** Positions

    The numbers of fences the hardware has passed and the handlers have
    claimed, decoded from the 32-bit words. *)

Definition hw_position (s : fence_sys) : Z :=
  Z.of_nat (length (objs s)) - u32 (sync_seq (drv s) - amdgpu_fence_read (drv s)).
Definition claimed_position (s : fence_sys) : Z :=
  Z.of_nat (length (objs s)) - u32 (sync_seq (drv s) - last_seq (drv s)).

Section positions.
Context (k : Z) (n : nat) (L D : nat) (own : nat -> nat * nat) (ids : list nat) (s : fence_sys).
Context (I : fence_inv k n L D own ids s).

Lemma position_decode a : (L <= a <= length (objs s))%nat ->
  Z.of_nat (length (objs s)) - u32 (u32 (Z.of_nat (length (objs s))) - u32 (Z.of_nat a)) = Z.of_nat a.
Proof.
  intros Ha. pose proof (inv_window _ _ _ _ _ _ _ I). pose proof (stored_le s).
  pose proof (n_pos _ _ (fi_n _ _ _ _ _ _ _ I)) as [_ Hn]. clear I.
  assert (0 <= Z.of_nat (length (objs s)) - Z.of_nat a < 4294967296) as Hr by lia.
  replace (u32 (u32 (Z.of_nat (length (objs s))) - u32 (Z.of_nat a)))
    with (u32 (Z.of_nat (length (objs s)) - Z.of_nat a)).
  - rewrite u32_small by (unfold is_u32; lia). lia.
  - unfold u32. by rewrite Zminus_mod.
Qed.

Lemma hw_position_eq : hw_position s = Z.of_nat D.
Proof.
  unfold hw_position, amdgpu_fence_read. rewrite (fi_sync _ _ _ _ _ _ _ I), (fi_word _ _ _ _ _ _ _ I).
  pose proof (fi_order _ _ _ _ _ _ _ I). pose proof (stored_le s). apply position_decode. lia.
Qed.

Lemma claimed_position_eq : claimed_position s = Z.of_nat L.
Proof.
  unfold claimed_position. rewrite (fi_sync _ _ _ _ _ _ _ I), (fi_last _ _ _ _ _ _ _ I).
  pose proof (fi_order _ _ _ _ _ _ _ I). pose proof (stored_le s). apply position_decode. lia.
Qed.

Lemma signaled_passed f o : objs s !! f = Some o -> signaled o = true -> Z.of_nat f < hw_position s.
Proof.
  intros Ho Hs. rewrite hw_position_eq. pose proof (fi_order _ _ _ _ _ _ _ I).
  destruct (decide (f < L)%nat); [lia|]. exfalso.
  assert (signaled o = false); [|congruence]. apply (fi_signaled _ _ _ _ _ _ _ I f o Ho).
  left. apply lookup_lt_Some in Ho. lia.
Qed.

(** Handlers outside their loops own no fences. *)
Lemma quiet_none P f : (forall p ab f, P p ab f -> span p ab f) ->
  Forall (fun p => forall ab f, ~ span p ab f) (handlers s) -> ~ some_handler P (handlers s) own f.
Proof. intros HP Hq (i & p & Hi & Hp). eapply Forall_lookup_1 in Hq; [|done]. by apply HP, Hq in Hp. Qed.

(** They can be forgotten. *)
Lemma inv_forget : Forall (fun p => forall ab f, ~ span p ab f) (handlers s) ->
  fence_inv k n L D own ids (set_handlers [] s).
Proof.
  intros Hq. pose proof (fun f => quiet_none span f (fun _ _ _ H => H) Hq) as H1.
  pose proof (fun f => quiet_none slot_span f slot_span_span Hq) as H2.
  assert (forall P f, ~ some_handler P [] own f) as H0 by (intros P f (i & p & Hi & _); done).
  destruct I. split; try done.
  - intros f o Ho. rewrite (fi_signaled f o Ho). unfold unsignaled. cbn. naive_solver.
  - intros i f. rewrite fi_slots. unfold in_slot. cbn. naive_solver.
Qed.

(** When no handler is in its loop, exactly the claimed fences are signaled. *)
Lemma quiescent_signaled : Forall (fun p => forall ab f, ~ span p ab f) (handlers s) ->
  forall f o, objs s !! f = Some o -> signaled o = true <-> Z.of_nat f < claimed_position s.
Proof.
  intros Hq f o Ho. rewrite claimed_position_eq. rewrite <- (not_false_iff_true (signaled o)).
  rewrite (fi_signaled _ _ _ _ _ _ _ I f o Ho). apply lookup_lt_Some in Ho. unfold unsignaled. split.
  - intros H. destruct (decide (f < L)%nat); [lia|]. exfalso. apply H. left. lia.
  - intros H [H'|H']; [lia|]. by eapply quiet_none.
Qed.
End positions.

(** ** One handler alone *)

(** What processing leaves alone. *)
Definition process_frame (s s1 : fence_sys) : Prop :=
  length (objs s1) = length (objs s) /\ emitter s1 = emitter s /\ handlers s1 = handlers s /\
  sync_seq (drv s1) = sync_seq (drv s) /\ cpu_addr (drv s1) = cpu_addr (drv s).

#[global] Instance process_frame_preorder : PreOrder process_frame.
Proof. split; [by intros s|]. unfold process_frame. intros s1 s2 s3 H1 H2. intuition congruence. Qed.

(** A step does not look at the program counters of the handlers. *)
Lemma process_step_handlers p h s p' s1 :
  process_step p s = Ok (p', s1) ->
  process_frame s s1 /\ process_step p (set_handlers h s) = Ok (p', set_handlers h s1).
Proof.
  destruct p; unfold process_step, load_slot, store_slot, fence_signal, amdgpu_fence_schedule_fallback,
    deref, fault, mbind, M_bind, gets, modify, mret, M_ret, set_handlers, process_frame; cbn;
    repeat (case_match; cbn); intros; simplify_eq/=; rewrite ?length_insert; (done || congruence).
Qed.

(** The loop over the slots ends, whatever slots it has to visit. *)
Lemma walk_run k n L D ids : forall fuel p own s,
  handlers s = [] -> walking p -> (steps_left p (own 0%nat) <= fuel)%nat ->
  fence_inv k n L D own ids (set_handlers [p] s) ->
  exists s' own', process_run fuel p s = Ok (tt, s') /\ process_frame s s' /\
    fence_inv k n L D own' ids (set_handlers [PDone] s').
Proof.
  induction fuel as [|fuel IH]; intros p own s Hh Hw Hf I.
  - destruct p; try done; try by (exists s, own).
    all: pose proof (fi_pcs _ _ _ _ _ _ _ I 0%nat _ eq_refl) as Hok; destruct (own 0%nat);
      destruct Hok as [[? ?] _]; cbn in Hf; lia.
  - assert (p = PDone \/ p <> PDone) as [-> |Hne] by (destruct p; (by left) || by right).
    { by exists s, own. }
    assert (process_run (S fuel) p s = (p' ← process_step p; process_run fuel p') s) as -> by by destruct p.
    destruct (handler_step_ok _ _ _ _ _ _ _ I 0%nat p eq_refl) as (p' & s1 & L' & ab' & Hrun & I' & Hpr);
      [by destruct p|].
    assert (Hhs : handlers s1 = [p]) by (by apply (process_step_handlers _ []) in Hrun as [(_ & _ & ? & _) _]).
    apply (process_step_handlers _ []) in Hrun as [Hfr Hrun].
    assert (set_handlers [] (set_handlers [p] s) = s) as Es by (destruct s; cbn in *; by subst).
    rewrite Es in Hrun. rewrite (bind_eval (process_step p) _ s _ _ Hrun).
    assert (L' = L /\ walking p' /\ (steps_left p' ab' < steps_left p (own 0%nat))%nat) as (-> & Hw' & Hlt)
      by (by destruct p).
    destruct (IH p' (<[0%nat := ab']> own) (set_handlers [] s1)) as (s' & own' & Hr & Hfr' & I2);
      [done|done|rewrite fn_lookup_insert; lia| |].
    { rewrite Hhs in I'. by destruct s1. }
    exists s', own'. split_and!; [done| |done]. destruct Hfr as (? & ? & ? & ? & ?).
    transitivity (set_handlers [] s1); [|done]. by unfold process_frame.
Qed.

(** Processing without other handlers: everything the hardware has passed is
    claimed and signaled. *)
Lemma process_run_inv k n L D own ids s :
  handlers s = [] -> fence_inv k n L D own ids s ->
  exists s' own', amdgpu_fence_process (3 + 3 * n) s = Ok (tt, s') /\ process_frame s s' /\
    fence_inv k n D D own' ids (set_handlers [PDone] s').
Proof.
  intros Hh I. pose proof (interrupt_ok _ _ _ _ _ _ _ I) as I0. rewrite Hh in I0. cbn [app] in I0.
  destruct (handler_step_ok _ _ _ _ _ _ _ I0 0%nat PRead eq_refl Logic.I) as (p1 & s1 & L1 & ab1 & [= <- <-] & I1 & ->).
  cbn in I1.
  destruct (handler_step_ok _ _ _ _ _ _ _ I1 0%nat _ eq_refl Logic.I) as (p2 & s2 & L2 & ab2 & [= <- <-] & I2 & ->).
  cbn in I2. set (w := amdgpu_fence_read _) in I2.
  destruct (handler_step_ok _ _ _ _ _ _ _ I2 0%nat _ eq_refl) as (p3 & s3 & L3 & ab3 & Hrun & I3 & Hpr).
  { cbn. pose proof (n_pos _ _ (fi_n _ _ _ _ _ _ _ I)) as [_ Hn]. rewrite (fi_len _ _ _ _ _ _ _ I). lia. }
  destruct (Hpr eq_refl) as (Hlast & Hw & Hleft).
  assert (Hhs : handlers s3 = [PCas (last_seq (drv s)) w (length (objs s))])
    by (by apply (process_step_handlers _ []) in Hrun as [(_ & _ & ? & _) _]).
  apply (process_step_handlers _ []) in Hrun as [Hfr Hrun].
  assert (L3 = D) as ->.
  { pose proof (fi_last _ _ _ _ _ _ _ I3) as H3. cbn in H3. rewrite Hlast in H3.
    assert (w = u32 (Z.of_nat D)) as Ew by (unfold w, amdgpu_fence_read; cbn; by rewrite (fi_word _ _ _ _ _ _ _ I)).
    pose proof (fi_order _ _ _ _ _ _ _ I3). pose proof (inv_window _ _ _ _ _ _ _ I3).
    pose proof (n_pos _ _ (fi_n _ _ _ _ _ _ _ I)) as [_ Hn].
    eapply u32_apart; [lia|lia|congruence]. }
  rewrite Hhs in I3. cbn in I3.
  destruct (walk_run k n D D ids (3 * n) p3 (<[0%nat := ab3]> (<[0%nat := ab2]> (<[0%nat := ab1]> own)))
    (set_handlers [] s3)) as (s' & own' & Hr & Hfr' & I'); [done|done|by rewrite fn_lookup_insert| |].
  { by destruct s3. }
  exists s', own'. split_and!; [|clear Hr; transitivity (set_handlers [] s3); [|done]|done].
  - change (amdgpu_fence_process (3 + 3 * n) s) with
      (mbind (process_run (3 * n)) (process_step (PCas (last_seq (drv s)) w (length (objs s)))) s).
    assert (set_handlers [] s = s) as Es by (destruct s; cbn in *; by subst).
    rewrite (bind_eval (process_step _) _ s p3 (set_handlers [] s3)); [done|].
    change (process_step (PCas (last_seq (drv s)) w (length (objs s))) (set_handlers [] s)
      = Ok (p3, set_handlers [] s3)) in Hrun.
    by rewrite Es in Hrun.
  - destruct Hfr as (? & ? & ? & ? & ?). unfold process_frame. by rewrite Hh.
Qed.

(** A run does not look at the program counters of the other handlers. *)
Lemma process_run_handlers h : forall fuel p s s1,
  process_run fuel p s = Ok (tt, s1) -> process_run fuel p (set_handlers h s) = Ok (tt, set_handlers h s1).
Proof.
  induction fuel as [|fuel IH]; intros p s s1 H.
  - destruct p; try done. by injection H as <-.
  - assert (p = PDone \/ p <> PDone) as [-> |Hne] by (destruct p; (by left) || by right).
    { by injection H as <-. }
    assert (forall s, process_run (S fuel) p s = (p' ← process_step p; process_run fuel p') s) as E by by destruct p.
    rewrite E in H |- *. apply bind_Ok in H as (p' & s2 & H1 & H2).
    apply (process_step_handlers _ h) in H1 as [_ H1]. rewrite (bind_eval (process_step p) _ _ _ _ H1). by apply IH.
Qed.

(** Handlers that are not in their loops may be about. *)
Lemma process_run_quiet k n L D own ids s :
  Forall (fun p => forall ab f, ~ span p ab f) (handlers s) -> fence_inv k n L D own ids s ->
  exists s' own', amdgpu_fence_process (3 + 3 * n) s = Ok (tt, s') /\ process_frame s s' /\
    fence_inv k n D D own' ids (set_handlers [PDone] s').
Proof.
  intros Hq I. pose proof (inv_forget _ _ _ _ _ _ _ I Hq) as I0.
  destruct (process_run_inv _ _ _ _ _ _ (set_handlers [] s) eq_refl I0) as (s' & own' & Hrun & Hfr & I').
  exists (set_handlers (handlers s) s'), own'. split_and!.
  - apply (process_run_handlers (handlers s)) in Hrun. by destruct s.
  - destruct Hfr as (? & ? & ? & ? & ?). by split_and!.
  - done.
Qed.

(** An emission finds its slot free when fewer than [n] fences are not claimed
    and no handler is at work. *)
Lemma emit_free_slot k n L D own ids s :
  fence_inv k n L D own ids s -> emitter s = EIdle -> Forall (fun p => forall ab f, ~ span p ab f) (handlers s) ->
  (length (objs s) < L + n)%nat -> fences (drv s) !! (S (length (objs s)) mod n)%nat = Some None.
Proof.
  intros I He Hh Hlt. pose proof (fi_n _ _ _ _ _ _ _ I) as Hn.
  destruct (slot_in_range _ _ _ _ _ _ _ I (S (length (objs s)) mod n)) as [[o|] Ho]; [by eapply mod_index| |done].
  apply (fi_slots _ _ _ _ _ _ _ I) in Ho as [[Hin|Hs] E]; [|by apply (quiet_none _ _ _ _ slot_span_span Hh) in Hs].
  unfold stored in Hin. rewrite He in Hin. apply (mod_apart _ _ Hn) in E; lia.
Qed.

Section emission.
Context (k : Z) (n : nat) (L D : nat) (own : nat -> nat * nat) (ids : list nat) (s : fence_sys).
Context (I : fence_inv k n L D own ids s) (He : emitter s = EIdle).
Let f : nat := length (objs s).
Let x : nat := (S f mod n)%nat.
Let s1 : fence_sys := set_packets (packets s ++ [u32 (Z.of_nat (S f))])
  (set_objs (objs s ++ [MkFence (u32 (Z.of_nat (S f))) false]) (set_drv (set_sync_seq (u32 (Z.of_nat (S f)))) s)).
Let s2 : fence_sys := set_drv (fun d => set_fences (<[x := Some f]> (fences d)) d) s1.

Lemma emit_begin_eval : emit_begin true s = Ok ((0, ELoad f (Z.of_nat x)), s1).
Proof.
  unfold emit_begin. cbn [negb]. rewrite (bind_eval (gets id) _ s s s eq_refl). cbn [id].
  assert (u32 (sync_seq (drv s) + 1) = u32 (Z.of_nat (S f))) as ->
    by (rewrite (fi_sync _ _ _ _ _ _ _ I); unfold f; cint).
  by rewrite (fi_mask _ _ _ _ _ _ _ I), (land_mask _ _ (fi_n _ _ _ _ _ _ _ I)).
Qed.

Lemma emit_run_eval : fences (drv s) !! x = Some None ->
  emit_run 2 (ELoad f (Z.of_nat x)) s1 = Ok (tt, s2).
Proof.
  intros Hslot.
  assert (Hx : (x < length (fences (drv s)))%nat)
    by (rewrite (fi_len _ _ _ _ _ _ _ I); eapply mod_index, (fi_n _ _ _ _ _ _ _ I)).
  change (emit_run 2 (ELoad f (Z.of_nat x))) with (p ← emit_step (ELoad f (Z.of_nat x)); emit_run 1 p).
  rewrite (bind_eval (emit_step _) _ s1 (EStore f (Z.of_nat x)) s1).
  - change (emit_run 1 (EStore f (Z.of_nat x))) with (p ← emit_step (EStore f (Z.of_nat x)); emit_run 0 p).
    rewrite (bind_eval (emit_step _) _ s1 EIdle s2); [done|].
    cbn [emit_step]. by rewrite (bind_eval (store_slot _ _) _ s1 _ _ (store_slot_eval s1 x (Some f) Hx)).
  - cbn [emit_step]. by rewrite (bind_eval (load_slot _) _ s1 _ _ (load_slot_eval s1 x None Hslot)).
Qed.

Lemma emit_inv : fences (drv s) !! x = Some None -> fence_inv k n L D own (ids ++ [S f]) s2.
Proof.
  intros Hslot. pose proof (emit_begin_inv _ _ _ _ _ _ _ I _ _ _ He emit_begin_eval) as I1.
  pose proof (emit_move _ _ _ _ _ _ _ I1 (EStore f (Z.of_nat x)) ltac:(done) ltac:(done)) as I2.
  destruct (emit_store_ok _ _ _ _ _ _ _
    (I2 ltac:(cbn; rewrite length_app; cbn; split_and!; (done || unfold f; lia))) f (Z.of_nat x) eq_refl)
    as (s3 & _ & I3 & ->).
  rewrite Nat2Z.id in I3. unfold s2, s1, x, f in *. clear -I3 He. by destruct s; cbn in *; subst.
Qed.

(** The whole emission, with its state and what it returns. *)
Lemma emit_completes : Forall (fun p => forall ab f, ~ span p ab f) (handlers s) -> (f < L + n)%nat ->
  emit_run 2 (ELoad f (Z.of_nat x)) s1 = Ok (tt, s2) /\
  amdgpu_fence_emit 2 true s = Ok (0, s2) /\ fence_inv k n L D own (ids ++ [S f]) s2.
Proof.
  intros Hh Hlt. pose proof (emit_free_slot _ _ _ _ _ _ _ I He Hh Hlt) as Hslot.
  pose proof (emit_run_eval Hslot) as Hr. split_and!; [done| |by apply emit_inv].
  unfold amdgpu_fence_emit. rewrite (bind_eval (emit_begin true) _ s _ _ emit_begin_eval). cbn [fst snd].
  by rewrite (bind_eval (emit_run _ _) _ s1 _ _ Hr).
Qed.
End emission.

(** C3: under every interleaving of interrupt handlers, the fallback timer, the
    emitting thread and the hardware (including packets that are dropped and a
    GPU that is given up), and across the wrap-around of the 32-bit sequence
    numbers, no handler reaches [BUG()] or an access outside the slots, so every
    fence is signaled at most once; a fence is signaled only after the
    hardware has passed it; and when no handler is inside its loop exactly the
    fences up to [last_seq] are signaled.  A handler does its exchange of
    [last_seq] before 2^32 further fences have been emitted since its read (the
    exchange compares 32-bit values and cannot tell a full lap). *)
Theorem fence_signal_safe (m addr word : Z) (s : fence_sys) :
  0 <= m <= 30 -> fence_reachable (2 ^ m) addr word s ->
  (forall i p, handlers s !! i = Some p -> no_aba p s -> exists p' s', process_step p s = Ok (p', s')) /\
  (exists p s', emit_step (emitter s) s = Ok (p, s')) /\
  (forall f o, objs s !! f = Some o -> signaled o = true -> Z.of_nat f < hw_position s) /\
  (Forall (fun p => forall ab f, ~ span p ab f) (handlers s) -> forall f o, objs s !! f = Some o ->
     signaled o = true <-> Z.of_nat f < claimed_position s) /\
  claimed_position s <= hw_position s <= Z.of_nat (length (objs s)).
Proof.
  intros Hm Hr. destruct (reachable_wf m Hm addr word s Hr) as (L & D & own & ids & I).
  split_and!.
  - intros i p Hi Ha. destruct (handler_step_ok _ _ _ _ _ _ _ I i p Hi Ha) as (p' & s1 & _ & _ & H & _). eauto.
  - destruct (emitter s) as [|f i|f o i|f i] eqn:He; [by eexists _, _| | |].
    + destruct (emit_load_ok _ _ _ _ _ _ _ I f i He) as (q & Hq & _). eauto.
    + destruct (emit_wait_ok _ _ _ _ _ _ _ I f o i He) as (q & Hq & _). eauto.
    + destruct (emit_store_ok _ _ _ _ _ _ _ I f i He) as (s2 & Hq & _). eauto.
  - by eapply signaled_passed.
  - by eapply quiescent_signaled.
  - rewrite (claimed_position_eq _ _ _ _ _ _ _ I), (hw_position_eq _ _ _ _ _ _ _ I).
    pose proof (fi_order _ _ _ _ _ _ _ I). lia.
  - rewrite (hw_position_eq _ _ _ _ _ _ _ I). pose proof (fi_order _ _ _ _ _ _ _ I). pose proof (stored_le s). lia.
Qed.

(** C35: from any reachable state in which no other handler is inside its loop
    (any number of earlier ones may have run, and others may be about to start),
    an undisturbed run of [amdgpu_fence_process] terminates (its loop visits at
    most all slots) and leaves signaled exactly the fences the hardware has
    passed; [amdgpu_fence_count_emitted] then returns the number of fences still
    outstanding, across the wrap-around of the sequence numbers. *)
Theorem fence_process_complete (m addr word : Z) (s : fence_sys) :
  0 <= m <= 30 -> fence_reachable (2 ^ m) addr word s ->
  Forall (fun p => forall ab f, ~ span p ab f) (handlers s) ->
  exists s', amdgpu_fence_process (3 + 3 * Z.to_nat (2 * 2 ^ m)) s = Ok (tt, s') /\
    length (objs s') = length (objs s) /\
    (forall f o, objs s' !! f = Some o -> signaled o = true <-> Z.of_nat f < hw_position s) /\
    amdgpu_fence_count_emitted (3 + 3 * Z.to_nat (2 * 2 ^ m)) s
      = Ok (Z.of_nat (length (objs s)) - hw_position s, s').
Proof.
  intros Hm Hr Hh. destruct (reachable_wf m Hm addr word s Hr) as (L & D & own & ids & I).
  destruct (process_run_quiet _ _ _ _ _ _ _ Hh I) as (s' & own' & Hrun & Hfr & I').
  exists s'. destruct Hfr as (Hlen & _). split_and!; [done|done| |].
  - intros f o Ho. rewrite (hw_position_eq _ _ _ _ _ _ _ I).
    rewrite <- (claimed_position_eq _ _ _ _ _ _ _ I').
    apply (quiescent_signaled _ _ _ _ _ _ _ I'); [|done]. by repeat constructor; intros ? ? [].
  - unfold amdgpu_fence_count_emitted. rewrite (bind_eval (amdgpu_fence_process _) _ s _ _ Hrun).
    rewrite (bind_eval (gets id) _ s' s' s' eq_refl). cbn [id]. unfold mret, M_ret. do 2 f_equal.
    pose proof (claimed_position_eq _ _ _ _ _ _ _ I') as Hc. unfold claimed_position in Hc. cbn in Hc.
    rewrite (hw_position_eq _ _ _ _ _ _ _ I), <- Hlen, <- Hc.
    assert (forall a b, u32 (u64 (u64 (4294967296 - a) + b)) = u32 (b - a)) as -> by (intros; cint). lia.
Qed.

(** With fewer fences outstanding than there are slots, an emission does
    not wait, whatever the sequence number: it appends a fence with the next
    sequence number and stores it in its slot.  When the ring is quiescent,
    [amdgpu_fence_wait_empty] returns at once only if the hardware has passed
    every fence (or the sequence number is zero), and otherwise waits for the
    newest fence. *)
Theorem fence_emit_and_drain (m addr word : Z) (s : fence_sys) :
  0 <= m <= 30 -> fence_reachable (2 ^ m) addr word s ->
  Forall (fun p => forall ab f, ~ span p ab f) (handlers s) -> emitter s = EIdle ->
  (Z.of_nat (length (objs s)) - claimed_position s < 2 * 2 ^ m ->
     exists s', amdgpu_fence_emit 2 true s = Ok (0, s') /\
       objs s' = objs s ++ [MkFence (u32 (Z.of_nat (S (length (objs s))))) false] /\
       fences (drv s') = <[(S (length (objs s)) mod Z.to_nat (2 * 2 ^ m))%nat := Some (length (objs s))]>
                           (fences (drv s))) /\
  (exists v, amdgpu_fence_wait_empty s = Ok (v, s) /\
     match v with
     | None => sync_seq (drv s) = 0 \/ hw_position s = Z.of_nat (length (objs s))
     | Some f => S f = length (objs s)
     end).
Proof.
  intros Hm Hr Hh He. destruct (reachable_wf m Hm addr word s Hr) as (L & D & own & ids & I).
  set (n := Z.to_nat (2 * 2 ^ m)) in *. pose proof (fi_n _ _ _ _ _ _ _ I) as Hn.
  rewrite (claimed_position_eq _ _ _ _ _ _ _ I), (hw_position_eq _ _ _ _ _ _ _ I). split.
  - intros Hlt. destruct (emit_completes _ _ _ _ _ _ _ I He Hh ltac:(unfold n; lia)) as (_ & Hrun & _).
    eexists. by split_and!.
  - unfold amdgpu_fence_wait_empty. rewrite (bind_eval (gets id) _ s s s eq_refl). cbn [id].
    destruct (Z.eqb_spec (sync_seq (drv s)) 0) as [E|E]; [exists None; auto|].
    rewrite (fi_sync _ _ _ _ _ _ _ I), (fi_mask _ _ _ _ _ _ _ I), (land_mask _ _ Hn).
    destruct (slot_in_range _ _ _ _ _ _ _ I (length (objs s) mod n)) as [v Hv]; [by eapply mod_index|].
    exists v. split; [by apply load_slot_eval|]. pose proof (fi_order _ _ _ _ _ _ _ I) as Ho.
    pose proof (inv_window _ _ _ _ _ _ _ I) as Hw. unfold stored in Ho, Hw. rewrite He in Ho, Hw.
    assert (length (objs s) <> 0%nat) as H0.
    { intros H0. rewrite (fi_sync _ _ _ _ _ _ _ I), H0 in E. by apply E. }
    destruct (length (objs s)) as [|e] eqn:Elen; [done|]. destruct v as [f|].
    + apply (fi_slots _ _ _ _ _ _ _ I) in Hv as [[Hin|Hs] Emod]; [|by apply (quiet_none _ _ _ _ slot_span_span Hh) in Hs].
      unfold stored in Hin. rewrite He, Elen in Hin. apply (mod_apart _ _ Hn) in Emod; lia.
    + right. destruct (decide (D = S e)) as [->|Hne]; [done|exfalso].
      assert (fences (drv s) !! (S e mod n)%nat = Some (Some e)); [|congruence].
      apply (fi_slots _ _ _ _ _ _ _ I). split; [|done]. left. unfold stored. rewrite He, Elen. lia.
Qed.

(** ** A run: two fences emitted, one executed and being signaled *)

Definition demo_driver (w last : Z) (slots : list (option nat)) : amdgpu_fence_driver :=
  FenceDriver 4096 (Some w) 2 last true false 3 slots.
Definition demo_start : fence_sys :=
  FenceSys (demo_driver 1 0 [None; Some 0%nat; Some 1%nat; None]) [MkFence 1 false; MkFence 2 false] [1; 2] 2 1 EIdle [].
Definition demo_signaling : fence_sys :=
  FenceSys (set_timer true (demo_driver 1 1 [None; None; Some 1%nat; None])) [MkFence 1 false; MkFence 2 false] [1; 2] 2 1 EIdle
    [PSignal 0 1 1].

Ltac fence_go c := eapply rtc_l; [c; first [exact Logic.I|vm_compute; reflexivity]|].

Lemma demo_start_reachable : fence_reachable (2 ^ 1) 4096 7 demo_start.
Proof.
  unfold fence_reachable.
  do 2 (fence_go ltac:(eapply (step_emit_begin _ true)); cbn;
        fence_go ltac:(eapply step_emit); cbn; fence_go ltac:(eapply step_emit); cbn).
  fence_go ltac:(eapply step_doorbell).
  fence_go ltac:(eapply step_hw). vm_compute. reflexivity.
Qed.

Lemma demo_signaling_reachable : fence_reachable (2 ^ 1) 4096 7 demo_signaling.
Proof.
  unfold fence_reachable. etransitivity; [exact demo_start_reachable|]. eapply rtc_l; [apply step_interrupt|]. cbn.
  do 5 (fence_go ltac:(eapply (step_handler _ 0)); cbn). vm_compute. reflexivity.
Qed.

Lemma fence_signal_safe_witness :
  (exists p' s', process_step (PSignal 0 1 1) demo_signaling = Ok (p', s')) /\
  claimed_position demo_signaling <= hw_position demo_signaling <= 2.
Proof.
  destruct (fence_signal_safe 1 4096 7 demo_signaling ltac:(lia) demo_signaling_reachable) as (H1 & _ & _ & _ & H5).
  split; [exact (H1 0%nat _ eq_refl Logic.I)|exact H5].
Defined.

(** The first fence has been processed by an earlier handler, and the hardware
    has passed the second one. *)
Definition demo_second : fence_sys :=
  FenceSys (set_timer true (demo_driver 2 1 [None; None; Some 1%nat; None])) [MkFence 1 true; MkFence 2 false] [1; 2] 2 2 EIdle
    [PDone].

Lemma demo_second_reachable : fence_reachable (2 ^ 1) 4096 7 demo_second.
Proof.
  unfold fence_reachable. etransitivity; [exact demo_signaling_reachable|].
  fence_go ltac:(eapply (step_handler _ 0)); cbn. fence_go ltac:(eapply step_hw). vm_compute. reflexivity.
Qed.

Lemma fence_process_complete_witness :
  exists s', amdgpu_fence_process (3 + 3 * Z.to_nat (2 * 2 ^ 1)) demo_second = Ok (tt, s') /\
    (forall f o, objs s' !! f = Some o -> signaled o = true) /\
    amdgpu_fence_count_emitted (3 + 3 * Z.to_nat (2 * 2 ^ 1)) demo_second = Ok (0, s').
Proof.
  destruct (fence_process_complete 1 4096 7 demo_second ltac:(lia) demo_second_reachable
    ltac:(repeat constructor; intros ? ? [])) as (s' & H1 & Hlen & H3 & H2).
  exists s'. split; [exact H1|split; [|exact H2]]. intros f o Ho. apply (H3 f o Ho).
  apply lookup_lt_Some in Ho. rewrite Hlen in Ho. change (hw_position demo_second) with 2. cbn in Ho. lia.
Defined.

Lemma fence_emit_and_drain_witness :
  exists s', amdgpu_fence_emit 2 true demo_start = Ok (0, s') /\ length (objs s') = 3%nat.
Proof.
  destruct (fence_emit_and_drain 1 4096 7 demo_start ltac:(lia) demo_start_reachable (Forall_nil_2 _) eq_refl) as (H & _).
  destruct (H ltac:(vm_compute; reflexivity)) as (s' & H1 & H2 & _).
  exists s'. split; [exact H1|]. rewrite H2. reflexivity.
Defined.
