(* ===== verification/Ring.v ===== *)
(** * Command rings ([amdgpu/amdgpu_ring.c], [amdgpu_ring_write] of [amdgpu/amdgpu.h])

    A ring is a buffer of 32-bit words that the driver fills and an engine
    drains.  A submission reserves space ([amdgpu_ring_alloc]), writes words and
    tells the engine about them ([amdgpu_ring_commit]) or takes them back
    ([amdgpu_ring_undo]).  The write-back slots of the device
    ([amdgpu_wb_get], [amdgpu_wb_free] of [amdgpu/amdgpu_device.c]) and
    [amdgpu_ring_init] are at the end. *)

From stdpp Require Import base numbers list.
From S2P Require Import Prelude CMonad Bitmap Fence.

(** [enum amdgpu_ring_type] *)
Inductive amdgpu_ring_type := RING_GFX | RING_COMPUTE | RING_SDMA | RING_UVD | RING_VCE.

(** [struct amdgpu_ring]; [ring] is the buffer in words, [hw_wptr] the write
    pointer the engine was told, [in_use] the balance of [begin_use] and
    [end_use], [overrun] whether the message about writing more words than
    expected has been printed. *)
Record amdgpu_ring := Ring {
  ring : list Z;
  wptr : Z;
  wptr_old : Z;
  ring_size : Z;
  max_dw : Z;
  count_dw : Z;
  align_mask : Z;
  ptr_mask : Z;
  ready : bool;
  nop : Z;
  rtype : amdgpu_ring_type;
  me : Z;
  pipe : Z;
  current_ctx : Z;
  hw_wptr : Z;
  in_use : Z;
  overrun : bool }.

Definition set_buffer (b : list Z) (w c : Z) (o : bool) (r : amdgpu_ring) : amdgpu_ring :=
  Ring b w (wptr_old r) (ring_size r) (max_dw r) c (align_mask r) (ptr_mask r) (ready r)
    (nop r) (rtype r) (me r) (pipe r) (current_ctx r) (hw_wptr r) (in_use r) o.
Definition set_reserved (c w : Z) (r : amdgpu_ring) : amdgpu_ring :=
  Ring (ring r) (wptr r) w (ring_size r) (max_dw r) c (align_mask r) (ptr_mask r) (ready r)
    (nop r) (rtype r) (me r) (pipe r) (current_ctx r) (hw_wptr r) (in_use r) (overrun r).
Definition set_wptr (w : Z) (r : amdgpu_ring) : amdgpu_ring :=
  Ring (ring r) w (wptr_old r) (ring_size r) (max_dw r) (count_dw r) (align_mask r) (ptr_mask r)
    (ready r) (nop r) (rtype r) (me r) (pipe r) (current_ctx r) (hw_wptr r) (in_use r) (overrun r).
Definition set_use (n : Z) (r : amdgpu_ring) : amdgpu_ring :=
  Ring (ring r) (wptr r) (wptr_old r) (ring_size r) (max_dw r) (count_dw r) (align_mask r)
    (ptr_mask r) (ready r) (nop r) (rtype r) (me r) (pipe r) (current_ctx r) (hw_wptr r) n (overrun r).
Definition set_hw_wptr (w : Z) (r : amdgpu_ring) : amdgpu_ring :=
  Ring (ring r) (wptr r) (wptr_old r) (ring_size r) (max_dw r) (count_dw r) (align_mask r)
    (ptr_mask r) (ready r) (nop r) (rtype r) (me r) (pipe r) (current_ctx r) w (in_use r) (overrun r).
Definition set_ctx (c : Z) (r : amdgpu_ring) : amdgpu_ring :=
  Ring (ring r) (wptr r) (wptr_old r) (ring_size r) (max_dw r) (count_dw r) (align_mask r)
    (ptr_mask r) (ready r) (nop r) (rtype r) (me r) (pipe r) c (hw_wptr r) (in_use r) (overrun r).

Definition RM : Type -> Type := M amdgpu_ring.

Definition amdgpu_ring_write (v : Z) : RM unit :=
  r ← gets id;
  let over := overrun r || (count_dw r <=? 0) in
  if wptr r <? Z.of_nat (length (ring r)) then
    modify (set_buffer (<[Z.to_nat (wptr r) := u32 v]> (ring r))
              (Z.land (u32 (wptr r + 1)) (ptr_mask r)) (s32 (count_dw r - 1)) over)
  else fault.

(** The calls [amdgpu_ring_write (ring, v)] for the words of a list. *)
Fixpoint ring_writes (l : list Z) : RM unit :=
  match l with
  | [] => mret tt
  | v :: l => amdgpu_ring_write v;; ring_writes l
  end.

Definition amdgpu_ring_alloc (ndw : Z) : RM Z :=
  r ← gets id;
  let ndw := Z.land (u32 (ndw + align_mask r)) (u32 (Z.lnot (align_mask r))) in
  if max_dw r <? ndw then mret (- ENOMEM)
  else
    modify (set_reserved ndw (wptr r));;
    modify (fun r => set_use (in_use r + 1) r);;
    mret 0.

(** The words of [amdgpu_ring_insert_nop]. *)
Definition amdgpu_ring_insert_nop (r : amdgpu_ring) (count : Z) : list Z :=
  replicate (Z.to_nat count) (nop r).

(** [amdgpu_ring_generic_pad_ib] on an indirect buffer of [length_dw] words
    with room for [length ptr]. *)
Fixpoint pad_ib_loop (fuel : nat) (mask nopw : Z) (ptr : list Z) (length_dw : Z) : outcome (list Z * Z) :=
  if Z.land length_dw mask =? 0 then Ok (ptr, length_dw)
  else match fuel with
  | O => NoFuel
  | S k =>
      if length_dw <? Z.of_nat (length ptr)
      then pad_ib_loop k mask nopw (<[Z.to_nat length_dw := nopw]> ptr) (u32 (length_dw + 1))
      else Fault
  end.
Definition amdgpu_ring_generic_pad_ib (r : amdgpu_ring) (ptr : list Z) (length_dw : Z) : outcome (list Z * Z) :=
  pad_ib_loop (Z.to_nat (align_mask r + 1)) (align_mask r) (nop r) ptr length_dw.

(** [insert_nop] is the ring's operation: the words for a count. *)
Definition amdgpu_ring_commit (insert_nop : amdgpu_ring -> Z -> list Z) : RM unit :=
  r ← gets id;
  let count := u32 (u32 (align_mask r + 1) - Z.land (wptr r) (align_mask r)) in
  let count := count mod u32 (align_mask r + 1) in
  ring_writes (insert_nop r count);;
  modify (fun r => set_hw_wptr (wptr r) r);;
  modify (fun r => set_use (in_use r - 1) r).

Definition amdgpu_ring_undo : RM unit :=
  modify (fun r => set_wptr (wptr_old r) r);;
  modify (fun r => set_use (in_use r - 1) r).

(** What the clients of a ring do: reserve, write, commit. *)
Definition ring_submit (insert_nop : amdgpu_ring -> Z -> list Z) (ndw : Z) (ws : list Z) : RM Z :=
  e ← amdgpu_ring_alloc ndw;
  if e =? 0 then ring_writes ws;; amdgpu_ring_commit insert_nop;; mret 0
  else mret e.

(** ** Write-back slots *)

Record amdgpu_wb := Wb { num_wb : Z; used : list bool }.

Definition amdgpu_wb_get : M amdgpu_wb (Z * option Z) :=
  w ← gets id;
  offset ← find_next_zero_bit (used w) (Z.to_nat (num_wb w)) 0;
  if Z.of_nat offset <? num_wb w then
    bm ← set_bit offset (used w);
    modify (fun w => Wb (num_wb w) bm);;
    mret (0, Some (Z.of_nat offset))
  else mret (- EINVAL, None).

Definition amdgpu_wb_free (wb : Z) : M amdgpu_wb unit :=
  w ← gets id;
  if wb <? num_wb w then
    bm ← clear_bit (Z.to_nat wb) (used w);
    modify (fun w => Wb (num_wb w) bm)
  else mret tt.

(** ** Initialisation *)

Definition roundup_pow_of_two (n : Z) : Z := 2 ^ Z.log2_up n.
Definition AMDGPU_MAX_RINGS : Z := 16.

(** The part of [amdgpu_ring_init] that sizes the ring: [hw] is
    [amdgpu_sched_hw_submission]. *)
Definition ring_geometry (max_dw nop align_mask hw : Z) (ty : amdgpu_ring_type) : amdgpu_ring :=
  let size := roundup_pow_of_two (u32 (max_dw * 4 * hw)) in
  Ring (replicate (Z.to_nat (size / 4)) 0) 0 0 size max_dw 0 align_mask (u32 (size / 4 - 1)) false
    nop ty 0 0 0 0 0 false.

(** The state [amdgpu_ring_init] works on: the device's number of rings, its
    write-back slots, and the ring with its fence driver, which belongs to the
    device once [bound]. *)
Record ring_setup := RingSetup {
  num_rings : Z;
  wb : amdgpu_wb;
  bound : bool;
  offsets : list Z;
  fdrv : amdgpu_fence_driver;
  the_ring : option amdgpu_ring }.

Definition with_wb {A} (m : M amdgpu_wb A) : M ring_setup A := fun s =>
  match m (wb s) with
  | Ok (a, w) => Ok (a, RingSetup (num_rings s) w (bound s) (offsets s) (fdrv s) (the_ring s))
  | Fault => Fault
  | NoFuel => NoFuel
  end.

(** One of the four calls of [amdgpu_wb_get] with its error test. *)
Definition wb_slot (k : M ring_setup Z) : M ring_setup Z :=
  ro ← with_wb amdgpu_wb_get;
  match ro with
  | (_, Some o) =>
      modify (fun s => RingSetup (num_rings s) (wb s) (bound s) (offsets s ++ [o]) (fdrv s) (the_ring s));; k
  | (r, None) => mret r
  end.

(** [fences_ok] and [sched_r] are the outcomes of the allocation of the fence
    slots and of [amd_sched_init], [bo_r] that of the allocation of the ring
    buffer, [word] the content of the fence word. *)
Definition amdgpu_ring_init (max_dw nop align_mask hw : Z) (ty : amdgpu_ring_type)
    (fences_ok : bool) (sched_r bo_r wb_addr word : Z) : M ring_setup Z :=
  s ← gets id;
  let start :=
    modify (fun s => RingSetup (num_rings s) (wb s) (bound s) [] (fdrv s) (the_ring s));;
    wb_slot (wb_slot (wb_slot (wb_slot (
      s ← gets id;
      let fd := (amdgpu_fence_driver_start_ring (wb_addr + 4 * nth 2 (offsets s) 0) word (fdrv s)).2 in
      modify (fun s => RingSetup (num_rings s) (wb s) (bound s) (offsets s) fd (the_ring s));;
      let fresh := ring_geometry max_dw nop align_mask hw ty in
      match the_ring s with
      | Some r =>
          modify (fun s => RingSetup (num_rings s) (wb s) (bound s) (offsets s) (fdrv s)
                             (Some (set_buffer (ring r) (wptr r) (count_dw r) (overrun r) fresh)));;
          mret 0
      | None =>
          if negb (bo_r =? 0) then mret bo_r
          else modify (fun s => RingSetup (num_rings s) (wb s) (bound s) (offsets s) (fdrv s) (Some fresh));;
               mret 0
      end)))) in
  if bound s then start
  else if AMDGPU_MAX_RINGS <=? num_rings s then mret (- EINVAL)
  else
    let '(r, fd) := amdgpu_fence_driver_init_ring hw fences_ok sched_r (fdrv s) in
    modify (fun s => RingSetup (num_rings s + 1) (wb s) true (offsets s) fd (the_ring s));;
    if negb (r =? 0) then mret r else start.
