(* ===== verification/RingSpec.v ===== *)
(** * Submissions on a ring

    A submission writes exactly its words, padded to the fetch size, behind the
    previous one; the padding never exceeds what was reserved; and as long as
    no more submissions are in flight than the ring was sized for, the words of
    none of them are overwritten. *)

From stdpp Require Import base numbers list relations.
From S2P Require Import Prelude CMonad Bitmap Fence Ring.

#[local] Arguments Nat.modulo : simpl never.
#[local] Arguments Z.modulo : simpl never.

(** [buf] holds the words [l] from position [w] on, around its end. *)
Definition region (buf : list Z) (w : nat) (l : list Z) : Prop :=
  forall j v, l !! j = Some v -> buf !! ((w + j) mod length buf)%nat = Some (u32 v).

(** [buf'] differs from [buf] at most in the [k] words from [w] on. *)
Definition changed_only (buf buf' : list Z) (w k : nat) : Prop :=
  length buf' = length buf /\
  forall x, (forall j, (j < k)%nat -> x <> ((w + j) mod length buf)%nat) -> buf' !! x = buf !! x.

(** A ring of [2^p] words with a fetch size of [2^a]. *)
Record ring_shape (p a : Z) (r : amdgpu_ring) : Prop := RingShape {
  rs_pa : 0 <= a <= p /\ p <= 30;
  rs_buf : Z.of_nat (length (ring r)) = 2 ^ p;
  rs_ptr : ptr_mask r = 2 ^ p - 1;
  rs_align : align_mask r = 2 ^ a - 1;
  rs_wptr : 0 <= wptr r < 2 ^ p;
  rs_max : 0 <= max_dw r <= 2 ^ p }.

Section writes.
Context (p a : Z).

Lemma mod_pow2_pow2 x : 0 <= a <= p -> (x mod 2 ^ p) mod 2 ^ a = x mod 2 ^ a.
Proof.
  intros H. replace (2 ^ p) with (2 ^ a * 2 ^ (p - a)) by (rewrite <- Z.pow_add_r by lia; f_equal; lia).
  rewrite Z.rem_mul_r by lia. by rewrite Z.mul_comm, Z_mod_plus_full, Z.mod_mod by lia.
Qed.

(** Positions less than the size of the ring apart are different words. *)
Lemma wrap_apart N x y : 0 <= x < y -> y - x < N -> x mod N <> y mod N.
Proof.
  intros H1 H2 E. assert ((y - x) mod N = 0) as E' by (by rewrite Zminus_mod, E, Z.sub_diag, Zmod_0_l).
  rewrite Z.mod_small in E'; lia.
Qed.

(** The fields a write does not touch. *)
Definition same_ring (r r' : amdgpu_ring) : Prop :=
  wptr_old r' = wptr_old r /\ ring_size r' = ring_size r /\ max_dw r' = max_dw r /\
  align_mask r' = align_mask r /\ ptr_mask r' = ptr_mask r /\ ready r' = ready r /\ nop r' = nop r /\
  rtype r' = rtype r /\ me r' = me r /\ pipe r' = pipe r /\ current_ctx r' = current_ctx r /\
  hw_wptr r' = hw_wptr r /\ in_use r' = in_use r.

#[global] Instance same_ring_preorder : PreOrder same_ring.
Proof. split; [by intros r|]. unfold same_ring. intros r1 r2 r3 H1 H2. intuition congruence. Qed.

Lemma write_spec v r : ring_shape p a r -> is_s32 (count_dw r - 1) ->
  exists r', amdgpu_ring_write v r = Ok (tt, r') /\ same_ring r r' /\
    ring r' = <[Z.to_nat (wptr r) := u32 v]> (ring r) /\
    wptr r' = (wptr r + 1) mod 2 ^ p /\ count_dw r' = count_dw r - 1 /\
    overrun r' = overrun r || (count_dw r <=? 0).
Proof.
  intros [Hpa Hbuf Hptr Hal Hw Hmax] Hc. unfold amdgpu_ring_write.
  rewrite (bind_eval (gets id) _ r r r eq_refl). cbn [id].
  rewrite (proj2 (Z.ltb_lt _ _)) by lia. eexists. split; [reflexivity|]. cbn. split_and!; try done.
  - pose proof (pow2_bounds p). rewrite Hptr, u32_small by (unfold is_u32; lia). apply land_pow2. lia.
  - unfold s32, is_s32 in *. rewrite Z.mod_small; lia.
Qed.

Lemma shape_kept r r' : ring_shape p a r -> same_ring r r' -> length (ring r') = length (ring r) ->
  0 <= wptr r' < 2 ^ p -> ring_shape p a r'.
Proof.
  intros [] (_ & _ & Hm & Ha & Hp & _) Hl Hw. split; try done; try congruence; rewrite ?Hm; lia.
Qed.

Lemma writes_spec : forall l r,
  ring_shape p a r -> Z.of_nat (length l) <= 2 ^ p -> is_s32 (count_dw r) -> is_s32 (count_dw r - Z.of_nat (length l)) ->
  exists r', ring_writes l r = Ok (tt, r') /\ same_ring r r' /\ ring_shape p a r' /\
    changed_only (ring r) (ring r') (Z.to_nat (wptr r)) (length l) /\
    region (ring r') (Z.to_nat (wptr r)) l /\
    wptr r' = (wptr r + Z.of_nat (length l)) mod 2 ^ p /\
    count_dw r' = count_dw r - Z.of_nat (length l) /\
    overrun r' = overrun r || ((0 <? Z.of_nat (length l)) && (count_dw r <? Z.of_nat (length l))).
Proof.
  induction l as [|v l IH]; intros r Hs Hlen Hc Hc'.
  - exists r. pose proof Hs as [Hpa Hbuf _ _ Hw _]. split_and!; try done.
    + cbn. rewrite Z.add_0_r, Z.mod_small by lia. done.
    + cbn. lia.
    + by rewrite orb_false_r.
  - cbn [length] in Hlen, Hc'. destruct (write_spec v r Hs) as (r1 & H1 & Hsame & Hb & Hw & Hcd & Ho); [cint|].
    pose proof Hs as [Hpa Hbuf _ _ Hwr _]. set (w := Z.to_nat (wptr r)) in *.
    assert (Hlen1 : length (ring r1) = length (ring r)) by (by rewrite Hb, length_insert).
    assert (Hs1 : ring_shape p a r1).
    { eapply shape_kept; [done|done|done|]. rewrite Hw. apply Z.mod_pos_bound. lia. }
    destruct (IH r1 Hs1) as (r2 & H2 & Hsame2 & Hs2 & [Hl2 Hch2] & Hreg2 & Hw2 & Hcd2 & Ho2); [lia|cint|cint|].
    assert (Hpos : forall j, ((Z.to_nat (wptr r1) + j) mod length (ring r1) = (w + S j) mod length (ring r))%nat).
    { intros j. rewrite Hlen1. rewrite Hw. rewrite <- Hbuf.
      rewrite Z2Nat.inj_mod by lia. rewrite Nat2Z.id. replace (Z.to_nat (wptr r + 1)) with (w + 1)%nat by lia.
      rewrite Nat.Div0.add_mod_idemp_l. f_equal. lia. }
    assert (Hw0 : (w mod length (ring r) = w)%nat) by (apply Nat.mod_small; lia).
    exists r2. split_and!.
    + cbn [ring_writes]. by rewrite (bind_eval (amdgpu_ring_write v) _ r tt r1 H1).
    + by transitivity r1.
    + done.
    + split; [congruence|]. intros x Hx. rewrite Hch2.
      * rewrite Hb, list_lookup_insert_ne; [done|]. specialize (Hx 0%nat). rewrite Nat.add_0_r, Hw0 in Hx.
        intros <-. apply Hx; [cbn; lia|done].
      * intros j Hj. rewrite Hpos. apply Hx. cbn. lia.
    + intros [|j] v' Hv; cbn in Hv.
      * injection Hv as <-. rewrite Nat.add_0_r. replace (length (ring r2)) with (length (ring r)) by congruence.
        rewrite Hw0. rewrite Hch2.
        -- rewrite Hb. apply list_lookup_insert_eq. lia.
        -- intros j Hj. rewrite Hpos. intros E. rewrite <- Hw0 in E at 1.
           apply Nat2Z.inj_iff in E. rewrite !Nat2Z.inj_mod in E. by apply wrap_apart in E; lia.
      * specialize (Hreg2 j v' Hv). rewrite Hl2 in Hreg2 |- *. rewrite Hpos in Hreg2. by rewrite Hlen1.
    + rewrite Hw2, Hw, Zplus_mod_idemp_l. f_equal. cbn [length]. lia.
    + cbn [length]. lia.
    + rewrite Ho2, Ho, Hcd. cbn [length]. destruct (overrun r); [done|]. cbn [orb].
      destruct (Z.leb_spec (count_dw r) 0), (Z.ltb_spec 0 (Z.of_nat (length l))), (Z.ltb_spec 0 (Z.of_nat (S (length l)))),
        (Z.ltb_spec (count_dw r - 1) (Z.of_nat (length l))),
        (Z.ltb_spec (count_dw r) (Z.of_nat (S (length l)))); (done || lia).
Qed.
End writes.

(** ** Rounding to the fetch size *)

(** [n] rounded up to a multiple of [2^a]. *)
Definition roundup (a n : Z) : Z := (n + 2 ^ a - 1) / 2 ^ a * 2 ^ a.

Section rounding.
Context (a : Z) (Ha : 0 <= a <= 30).

Lemma land_lnot x : is_u32 x -> Z.land x (u32 (Z.lnot (2 ^ a - 1))) = x / 2 ^ a * 2 ^ a.
Proof.
  intros Hx. rewrite <- Z.shiftr_div_pow2, <- Z.shiftl_mul_pow2, <- Z.ldiff_ones_r by lia.
  replace (2 ^ a - 1) with (Z.ones a) by (rewrite Z.ones_equiv; lia).
  apply Z.bits_inj'. intros i Hi. rewrite Z.land_spec, Z.ldiff_spec, testbit_u32, Z.lnot_spec by done.
  destruct (Z.ltb_spec i 32); [done|]. rewrite (testbit_high 32 x i); [done|exact Hx|done].
Qed.

Lemma roundup_bounds n : 0 <= n -> n <= roundup a n < n + 2 ^ a /\ roundup a n mod 2 ^ a = 0.
Proof.
  intros Hn. unfold roundup. pose proof (pow2_bounds a Ha). split.
  - pose proof (Z.div_mod (n + 2 ^ a - 1) (2 ^ a)). pose proof (Z.mod_pos_bound (n + 2 ^ a - 1) (2 ^ a)). lia.
  - by apply Z_mod_mult.
Qed.

Lemma roundup_mono m n : 0 <= m <= n -> roundup a m <= roundup a n.
Proof.
  intros H. unfold roundup. pose proof (pow2_bounds a Ha).
  apply Z.mul_le_mono_nonneg_r; [lia|]. apply Z.div_le_mono; lia.
Qed.

(** The padding of [amdgpu_ring_commit] completes the last fetch. *)
Lemma padding n : 0 <= n -> (2 ^ a - n mod 2 ^ a) mod 2 ^ a = roundup a n - n.
Proof.
  intros Hn. pose proof (pow2_bounds a Ha). destruct (roundup_bounds n Hn) as [Hr Hm].
  symmetry. apply (Z.mod_unique _ _ ((2 ^ a - n mod 2 ^ a - (roundup a n - n)) / 2 ^ a)); [lia|].
  assert ((2 ^ a - n mod 2 ^ a - (roundup a n - n)) mod 2 ^ a = 0) as E.
  { replace (2 ^ a - n mod 2 ^ a - (roundup a n - n))
      with (n - n mod 2 ^ a + - roundup a n + 1 * 2 ^ a) by lia.
    rewrite Z_mod_plus_full, Zplus_mod, Z.mod_opp_l_z by lia.
    by rewrite Zminus_mod_idemp_r, Z.sub_diag, !Zmod_0_l. }
  pose proof (Z.div_mod (2 ^ a - n mod 2 ^ a - (roundup a n - n)) (2 ^ a)). lia.
Qed.
End rounding.

Lemma ring_writes_app l1 l2 r r1 :
  ring_writes l1 r = Ok (tt, r1) -> ring_writes (l1 ++ l2) r = ring_writes l2 r1.
Proof.
  revert r. induction l1 as [|v l1 IH]; intros r; cbn [app ring_writes]; [by intros [= ->]|].
  intros H. apply bind_Ok in H as ([] & r' & H1 & H2). rewrite (bind_eval (amdgpu_ring_write v) _ r tt r' H1). auto.
Qed.

(** Between submissions the write pointer is at a fetch boundary. *)
Definition ring_rest (p a : Z) (r : amdgpu_ring) : Prop :=
  ring_shape p a r /\ wptr r mod 2 ^ a = 0.

(** ... and no write has exceeded its reservation. *)
Definition ring_idle (p a : Z) (r : amdgpu_ring) : Prop :=
  ring_shape p a r /\ wptr r mod 2 ^ a = 0 /\ overrun r = false.

(** An [insert_nop] operation writes as many words as it is asked to. *)
Class NopFiller (ins : amdgpu_ring -> Z -> list Z) : Prop :=
  nop_length : forall r c, 0 <= c -> Z.of_nat (length (ins r c)) = c.

#[global] Instance generic_filler : NopFiller amdgpu_ring_insert_nop.
Proof. intros r c Hc. unfold amdgpu_ring_insert_nop. rewrite length_replicate. lia. Qed.

(** Where a submission of the words [ws] is put: [k] words written. *)
Definition placed (p k : Z) (ws : list Z) (r r' : amdgpu_ring) : Prop :=
  wptr r' = (wptr r + k) mod 2 ^ p /\ hw_wptr r' = wptr r' /\ in_use r' = in_use r /\
  max_dw r' = max_dw r /\ k <= max_dw r /\
  region (ring r') (Z.to_nat (wptr r)) ws /\
  changed_only (ring r) (ring r') (Z.to_nat (wptr r)) (Z.to_nat k).

(** What a submission that keeps to its reservation leaves. *)
Definition submitted (p a k : Z) (ws : list Z) (r r' : amdgpu_ring) : Prop :=
  ring_idle p a r' /\ placed p k ws r r'.

Section submission.
Context (p a : Z) (ins : amdgpu_ring -> Z -> list Z) {Hins : NopFiller ins}.

Lemma alloc_ok ndw r : ring_shape p a r -> 0 <= ndw < 2147483648 ->
  amdgpu_ring_alloc ndw r =
    if max_dw r <? roundup a ndw then Ok (- ENOMEM, r)
    else Ok (0, set_use (in_use r + 1) (set_reserved (roundup a ndw) (wptr r) r)).
Proof.
  intros [Hpa _ _ Hal _ _] Hn. unfold amdgpu_ring_alloc. rewrite (bind_eval (gets id) _ r r r eq_refl). cbn [id].
  pose proof (pow2_bounds a). rewrite Hal, land_lnot by (cint || lia).
  rewrite u32_small by (unfold is_u32; lia). unfold roundup.
  replace (ndw + (2 ^ a - 1)) with (ndw + 2 ^ a - 1) by lia. by destruct (max_dw r <? _).
Qed.

(** Committing after [k] of the reserved words have been written. *)
Lemma commit_ok r0 r k : ring_shape p a r -> wptr r = (wptr r0 + k) mod 2 ^ p -> wptr r0 mod 2 ^ a = 0 -> 0 <= k ->
  amdgpu_ring_commit ins r =
    (ring_writes (ins r (roundup a k - k));; modify (fun r => set_hw_wptr (wptr r) r);;
     modify (fun r => set_use (in_use r - 1) r)) r.
Proof.
  intros [Hpa _ _ Hal Hw _] Hwp H0 Hk. unfold amdgpu_ring_commit. rewrite (bind_eval (gets id) _ r r r eq_refl).
  cbn [id]. pose proof (pow2_bounds a ltac:(lia)) as Hp2. rewrite Hal. replace (2 ^ a - 1 + 1) with (2 ^ a) by lia.
  rewrite (u32_small (2 ^ a)) by (unfold is_u32; lia). rewrite land_pow2 by lia.
  assert (wptr r mod 2 ^ a = k mod 2 ^ a) as Hmod.
  { rewrite Hwp, mod_pow2_pow2 by lia. by rewrite Zplus_mod, H0, Z.add_0_l, Z.mod_mod by lia. }
  rewrite Hmod. pose proof (Z.mod_pos_bound k (2 ^ a) ltac:(lia)).
  rewrite u32_small by (unfold is_u32; lia). by rewrite padding by lia.
Qed.

(** Reserving [ndw] words and then writing [ws], which may be more. *)
Lemma submit_any ndw ws r :
  ring_rest p a r -> 0 <= ndw < 2147483648 -> roundup a (Z.of_nat (length ws)) <= max_dw r ->
  if max_dw r <? roundup a ndw then ring_submit ins ndw ws r = Ok (- ENOMEM, r)
  else exists r', ring_submit ins ndw ws r = Ok (0, r') /\ ring_rest p a r' /\
    overrun r' = overrun r || (roundup a ndw <? roundup a (Z.of_nat (length ws))) /\
    placed p (roundup a (Z.of_nat (length ws))) ws r r'.
Proof.
  intros (Hs & Hal) Hn Hlen. pose proof Hs as [Hpa Hbuf Hptr Hmask Hw Hmax]. unfold ring_submit.
  pose proof (alloc_ok ndw r Hs Hn) as Hrun. destruct (Z.ltb_spec (max_dw r) (roundup a ndw)) as [Hlt|Hge].
  { by rewrite (bind_eval (amdgpu_ring_alloc ndw) _ r _ _ Hrun). }
  rewrite (bind_eval (amdgpu_ring_alloc ndw) _ r _ _ Hrun). cbn [Z.eqb].
  set (r1 := set_use (in_use r + 1) (set_reserved (roundup a ndw) (wptr r) r)).
  set (k := Z.of_nat (length ws)) in *.
  pose proof (pow2_bounds p ltac:(lia)) as Hpp. destruct (roundup_bounds a ltac:(lia) ndw ltac:(lia)) as [Hr1 _].
  destruct (roundup_bounds a ltac:(lia) k ltac:(lia)) as [Hr2 Hr2'].
  assert (Hs1 : ring_shape p a r1) by (by destruct Hs).
  destruct (writes_spec p a ws r1) as (r2 & H2 & Hsame2 & Hs2 & _ & _ & Hw2 & _ & _);
    [done|lia|cbn; unfold is_s32; lia|cbn; unfold is_s32; lia|].
  rewrite (bind_eval (ring_writes ws) _ r1 tt r2 H2).
  set (pad := ins r2 (roundup a k - k)).
  assert (Hpad : Z.of_nat (length (ws ++ pad)) = roundup a k).
  { rewrite length_app, Nat2Z.inj_add. unfold pad. rewrite nop_length by lia. unfold k. lia. }
  destruct (writes_spec p a (ws ++ pad) r1) as (r3 & H3 & Hsame3 & Hs3 & Hch3 & Hreg3 & Hw3 & Hc3 & Ho3);
    [done|lia|cbn; unfold is_s32; lia|cbn; unfold is_s32; lia|].
  rewrite (ring_writes_app ws pad r1 r2 H2) in H3. rewrite Hpad in Hw3, Hc3, Ho3.
  eexists. split.
  { rewrite (bind_eval (amdgpu_ring_commit ins) _ r2 tt
      (set_use (in_use (set_hw_wptr (wptr r3) r3) - 1) (set_hw_wptr (wptr r3) r3))); [reflexivity|].
    rewrite (commit_ok r1 r2 k) by (done || lia). by rewrite (bind_eval (ring_writes _) _ r2 tt r3 H3). }
  destruct Hsame3 as (_ & _ & Hm3 & _ & _ & _ & _ & _ & _ & _ & _ & _ & Hu3). cbn in *.
  unfold placed. split_and!; try done; cbn; try lia.
  - split; [by destruct Hs3|]. cbn. rewrite Hw3, mod_pow2_pow2 by lia. by rewrite Zplus_mod, Hal, Hr2', Z.mod_0_l by lia.
  - rewrite Ho3. f_equal. destruct (Z.ltb_spec 0 (roundup a k)); [done|].
    symmetry. apply Z.ltb_ge. lia.
  - intros j v Hv. apply Hreg3. by apply lookup_app_l_Some.
  - by replace (Z.to_nat (roundup a k)) with (length (ws ++ pad)) by lia.
Qed.

Lemma submit_ok ndw ws r :
  ring_idle p a r -> 0 <= ndw < 2147483648 -> Z.of_nat (length ws) <= ndw ->
  if max_dw r <? roundup a ndw then ring_submit ins ndw ws r = Ok (- ENOMEM, r)
  else exists r', ring_submit ins ndw ws r = Ok (0, r') /\
    submitted p a (roundup a (Z.of_nat (length ws))) ws r r'.
Proof.
  intros (Hs & Hal & Hov) Hn Hlen. pose proof (rs_pa _ _ _ Hs).
  pose proof (roundup_mono a ltac:(lia) (Z.of_nat (length ws)) ndw ltac:(lia)) as Hmono.
  destruct (Z.ltb_spec (max_dw r) (roundup a ndw)) as [Hlt|Hge].
  { unfold ring_submit. pose proof (alloc_ok ndw r Hs Hn) as Hrun. rewrite (proj2 (Z.ltb_lt _ _)) in Hrun by done.
    by rewrite (bind_eval (amdgpu_ring_alloc ndw) _ r _ _ Hrun). }
  pose proof (submit_any ndw ws r (conj Hs Hal) Hn ltac:(lia)) as H1. rewrite (proj2 (Z.ltb_ge _ _)) in H1 by done.
  destruct H1 as (r' & H1 & [Hs' Hal'] & Ho & Hp). exists r'. split; [done|]. split; [|done]. split_and!; [done|done|].
  rewrite Ho, Hov. apply Z.ltb_ge. lia.
Qed.

(** Reserving, writing and giving the reservation back. *)
Definition ring_retract (ndw : Z) (ws : list Z) : RM Z :=
  e ← amdgpu_ring_alloc ndw;
  if e =? 0 then ring_writes ws;; amdgpu_ring_undo;; mret (- EINVAL)
  else mret e.

Lemma retract_any ndw ws r :
  ring_rest p a r -> 0 <= ndw < 2147483648 -> Z.of_nat (length ws) <= max_dw r -> roundup a ndw <= max_dw r ->
  exists r', ring_retract ndw ws r = Ok (- EINVAL, r') /\ ring_rest p a r' /\
    overrun r' = overrun r || (roundup a ndw <? Z.of_nat (length ws)) /\
    wptr r' = wptr r /\ hw_wptr r' = hw_wptr r /\ in_use r' = in_use r /\ max_dw r' = max_dw r /\
    changed_only (ring r) (ring r') (Z.to_nat (wptr r)) (length ws).
Proof.
  intros (Hs & Hal) Hn Hlen Hge. pose proof Hs as [Hpa _ _ _ Hw Hmax]. pose proof (pow2_bounds p ltac:(lia)).
  destruct (roundup_bounds a ltac:(lia) ndw ltac:(lia)) as [Hr1 _]. unfold ring_retract.
  pose proof (alloc_ok ndw r Hs Hn) as Hrun. rewrite (proj2 (Z.ltb_ge _ _)) in Hrun by done.
  rewrite (bind_eval (amdgpu_ring_alloc ndw) _ r _ _ Hrun). cbn [Z.eqb].
  destruct (writes_spec p a ws (set_use (in_use r + 1) (set_reserved (roundup a ndw) (wptr r) r)))
    as (r2 & H2 & Hsame & Hs2 & Hch & _ & _ & _ & Ho);
    [by destruct Hs|lia|cbn; unfold is_s32; lia|cbn; unfold is_s32; lia|].
  rewrite (bind_eval (ring_writes ws) _ _ tt r2 H2). eexists. split; [reflexivity|].
  destruct Hsame as (Hwo & _ & Hm & _ & _ & _ & _ & _ & _ & _ & _ & Hhw & Hu). cbn in *. split_and!; try (done || lia).
  - split; cbn; rewrite Hwo; [|done]. destruct Hs2. by split.
  - rewrite Ho. f_equal. destruct (Z.ltb_spec 0 (Z.of_nat (length ws))); [done|]. symmetry. apply Z.ltb_ge. lia.
Qed.
End submission.

(** ** Submissions in flight *)

(** A ring with the submissions the engine has not finished, oldest first:
    where each begins, how many words it takes, and its words; and whether a
    client has written more words than it reserved. *)
Record ring_traffic := Traffic { tr_ring : amdgpu_ring; inflight : list (Z * Z * list Z); exceeded : bool }.

(** Clients submit while fewer than [hw] submissions are in flight (the
    scheduler's limit); a submission may also be refused, or taken back half
    way; the engine finishes them in order.  A client may write more words than
    it reserved, but not more than the [max_dw] the ring was created with. *)
Inductive traffic_step (a hw : Z) (ins : amdgpu_ring -> Z -> list Z) (t : ring_traffic) : ring_traffic -> Prop :=
  | step_submit ndw ws r' :
      Z.of_nat (length (inflight t)) < hw -> 0 <= ndw < 2147483648 ->
      roundup a (Z.of_nat (length ws)) <= max_dw (tr_ring t) ->
      ring_submit ins ndw ws (tr_ring t) = Ok (0, r') ->
      traffic_step a hw ins t (Traffic r'
        (inflight t ++ [(wptr (tr_ring t), roundup a (Z.of_nat (length ws)), ws)])
        (exceeded t || (roundup a ndw <? roundup a (Z.of_nat (length ws)))))
  | step_refused ndw ws r' : 0 <= ndw < 2147483648 ->
      ring_submit ins ndw ws (tr_ring t) = Ok (- ENOMEM, r') ->
      traffic_step a hw ins t (Traffic r' (inflight t) (exceeded t))
  | step_undo ndw ws r' :
      Z.of_nat (length (inflight t)) < hw -> 0 <= ndw < 2147483648 ->
      Z.of_nat (length ws) <= max_dw (tr_ring t) ->
      ring_retract ndw ws (tr_ring t) = Ok (- EINVAL, r') ->
      traffic_step a hw ins t (Traffic r' (inflight t) (exceeded t || (roundup a ndw <? Z.of_nat (length ws))))
  | step_finish x l : inflight t = x :: l -> traffic_step a hw ins t (Traffic (tr_ring t) l (exceeded t)).

(** The submissions in flight follow each other from position [s] to [e],
    counted without wrapping, and [buf] still holds their words. *)
Fixpoint chain (buf : list Z) (mx s e : Z) (l : list (Z * Z * list Z)) : Prop :=
  match l with
  | [] => s = e
  | (w, k, ws) :: l => w = s mod Z.of_nat (length buf) /\ Z.of_nat (length ws) <= k <= mx /\
      region buf (Z.to_nat w) ws /\ chain buf mx (s + k) e l
  end.

Section chains.
Context (mx : Z).

Lemma chain_bounds buf l : forall s e, chain buf mx s e l -> s <= e <= s + Z.of_nat (length l) * mx.
Proof.
  induction l as [|[[w k] ws] l IH]; intros s e; cbn [chain length]; [intros ->; lia|].
  intros (_ & Hk & _ & H). specialize (IH _ _ H). lia.
Qed.

Lemma writes_chain_app buf l w k ws : forall s e, chain buf mx s e l ->
  w = e mod Z.of_nat (length buf) -> Z.of_nat (length ws) <= k <= mx -> region buf (Z.to_nat w) ws ->
  chain buf mx s (e + k) (l ++ [(w, k, ws)]).
Proof.
  induction l as [|[[w' k'] ws'] l IH]; intros s e; cbn [chain app].
  - intros -> -> ? ?. split_and!; (done || lia).
  - intros (? & ? & ? & H) ? ? ?. split_and!; try (done || lia). by apply IH.
Qed.

(** Words written behind position [e] do not reach the chain that ends there. *)
Lemma chain_frame buf buf' k e l : forall s, 0 <= s -> chain buf mx s e l ->
  changed_only buf buf' (Z.to_nat (e mod Z.of_nat (length buf))) (Z.to_nat k) ->
  0 <= k -> e + k - s <= Z.of_nat (length buf) -> chain buf' mx s e l.
Proof.
  induction l as [|[[w' k'] ws'] l IH]; intros s Hs; cbn [chain]; [done|].
  intros (-> & Hk' & Hreg & H) [Hlen Hch] Hk Hfit. pose proof (chain_bounds _ _ _ _ H) as Hb.
  rewrite Hlen. split_and!; [done|lia|lia| |by apply IH; (done || lia)].
  intros j v Hv. rewrite Hlen. pose proof (lookup_lt_Some _ _ _ Hv) as Hj.
  rewrite Hch; [by apply Hreg|]. intros i Hi E. apply Nat2Z.inj_iff in E.
  rewrite !Nat2Z.inj_mod, !Nat2Z.inj_add, !Z2Nat.id, !Zplus_mod_idemp_l in E by (apply Z.mod_pos_bound; lia).
  apply wrap_apart in E; lia.
Qed.
End chains.

(** [roundup_pow_of_two] gives room for [hw] submissions of the largest size. *)
Lemma geometry_idle mx nopw am hw ty a :
  0 < mx -> 0 < hw -> 4 * mx * hw <= 2147483648 -> 0 <= a -> am = 2 ^ a - 1 -> 2 ^ a <= mx ->
  exists p, ring_idle p a (ring_geometry mx nopw am hw ty) /\ mx * hw <= 2 ^ p.
Proof.
  intros Hmx Hhw Hsmall Ha -> Hfetch. unfold ring_geometry, roundup_pow_of_two.
  rewrite (u32_small (mx * 4 * hw)) by (unfold is_u32; nia).
  set (q := Z.log2_up (mx * 4 * hw)). exists (q - 2).
  assert (Hq : mx * 4 * hw <= 2 ^ q) by (apply Z.log2_up_spec; nia).
  assert (Hq2 : 2 <= q).
  { change 2 with (Z.log2_up 4). apply Z.log2_up_le_mono. nia. }
  assert (Hq31 : q <= 31) by (change 31 with (Z.log2_up 2147483648); apply Z.log2_up_le_mono; nia).
  assert (Hpow : 2 ^ q = 2 ^ (q - 2) * 4) by (change 4 with (2 ^ 2); rewrite <- Z.pow_add_r by lia; f_equal; lia).
  rewrite Hpow, Z.div_mul by lia. assert (Hfit : mx * hw <= 2 ^ (q - 2)) by nia. split; [|done].
  assert (a <= q - 2). { apply (Z.pow_le_mono_r_iff 2); [lia|lia|nia]. }
  pose proof (pow2_bounds (q - 2) ltac:(lia)). split_and!; [|by apply Zmod_0_l|done].
  split; cbn; try done; try lia.
  - rewrite length_replicate. lia.
  - rewrite u32_small by (unfold is_u32; lia). done.
  - nia.
Qed.

Record traffic_inv (p a hw : Z) (t : ring_traffic) : Prop := TrafficInv {
  ti_rest : ring_rest p a (tr_ring t);
  ti_over : overrun (tr_ring t) = exceeded t;
  ti_max : 0 < max_dw (tr_ring t) /\ max_dw (tr_ring t) * hw <= 2 ^ p;
  ti_count : Z.of_nat (length (inflight t)) <= hw;
  ti_chain : exists s e, 0 <= s /\ wptr (tr_ring t) = e mod 2 ^ p /\
    chain (ring (tr_ring t)) (max_dw (tr_ring t)) s e (inflight t) }.

(** A refused submission leaves the ring as it was. *)
Lemma refused_same p a ins ndw ws r r' : ring_shape p a r -> 0 <= ndw < 2147483648 ->
  ring_submit ins ndw ws r = Ok (- ENOMEM, r') -> r' = r /\ max_dw r < roundup a ndw.
Proof.
  intros Hs Hn H. unfold ring_submit in H. apply bind_Ok in H as (e & r1 & H1 & H2).
  rewrite (alloc_ok p a) in H1 by done. destruct (Z.ltb_spec (max_dw r) (roundup a ndw)); simplify_eq H1; intros <- <-; cbn [Z.eqb] in H2.
  - by injection H2 as <-.
  - apply bind_Ok in H2 as (? & ? & _ & H2). by apply bind_Ok in H2 as (? & ? & _ & [=]).
Qed.

Lemma retract_admitted p a ndw ws r r' : ring_shape p a r -> 0 <= ndw < 2147483648 ->
  ring_retract ndw ws r = Ok (- EINVAL, r') -> roundup a ndw <= max_dw r.
Proof.
  intros Hs Hn H. unfold ring_retract in H. apply bind_Ok in H as (e & r1 & H1 & H2).
  rewrite (alloc_ok p a) in H1 by done. destruct (Z.ltb_spec (max_dw r) (roundup a ndw)); [|done].
  injection H1 as <- <-. by cbn in H2.
Qed.

Section traffic.
Context (p a hw : Z) (ins : amdgpu_ring -> Z -> list Z) {Hins : NopFiller ins}.

Lemma traffic_submit_inv t ndw ws r' : traffic_inv p a hw t ->
  Z.of_nat (length (inflight t)) < hw -> 0 <= ndw < 2147483648 ->
  roundup a (Z.of_nat (length ws)) <= max_dw (tr_ring t) ->
  ring_submit ins ndw ws (tr_ring t) = Ok (0, r') ->
  traffic_inv p a hw (Traffic r'
    (inflight t ++ [(wptr (tr_ring t), roundup a (Z.of_nat (length ws)), ws)])
    (exceeded t || (roundup a ndw <? roundup a (Z.of_nat (length ws))))).
Proof.
  intros [Hrest Hov [Hmx Hfit] Hcount (s & e & Hs & Hw & Hchain)] Hlt Hn Hlen Hrun.
  pose proof (proj1 Hrest) as Hshape. pose proof (rs_buf _ _ _ Hshape) as Hbuf.
  pose proof (submit_any p a ins ndw ws (tr_ring t) Hrest Hn Hlen) as H.
  destruct (max_dw (tr_ring t) <? roundup a ndw); [by rewrite Hrun in H|].
  destruct H as (r1 & Hr1 & Hrest' & Ho & Hw' & _ & _ & Hm' & Hk & Hreg & Hch).
  assert (r1 = r') as -> by congruence. set (k := roundup a (Z.of_nat (length ws))) in *.
  destruct (roundup_bounds a ltac:(destruct Hshape; lia) (Z.of_nat (length ws)) ltac:(lia)) as [Hkb _].
  fold k in Hkb. pose proof (chain_bounds _ _ _ _ _ Hchain) as Hb.
  assert (Hroom : e + k - s <= Z.of_nat (length (ring (tr_ring t)))) by (rewrite Hbuf; nia).
  split; cbn; rewrite ?Hm'; [done|by rewrite Ho, Hov|lia|rewrite length_app; cbn; lia|].
  exists s, (e + k). destruct Hch as [Hlen' Hch]. split_and!; [done| |].
  - by rewrite Hw', Hw, Zplus_mod_idemp_l.
  - apply writes_chain_app; [| |lia|done].
    + apply (chain_frame _ (ring (tr_ring t)) (ring r') k); [done|done| |lia|done].
      rewrite Hbuf, <- Hw. by split.
    + by rewrite Hlen', Hbuf.
Qed.

Lemma undo_inv t ndw ws r' : traffic_inv p a hw t ->
  Z.of_nat (length (inflight t)) < hw -> 0 <= ndw < 2147483648 ->
  Z.of_nat (length ws) <= max_dw (tr_ring t) ->
  ring_retract ndw ws (tr_ring t) = Ok (- EINVAL, r') ->
  traffic_inv p a hw (Traffic r' (inflight t) (exceeded t || (roundup a ndw <? Z.of_nat (length ws)))).
Proof.
  intros [Hrest Hov [Hmx Hfit] Hcount (s & e & Hs & Hw & Hchain)] Hlt Hn Hlen Hrun.
  pose proof (proj1 Hrest) as Hshape. pose proof (rs_buf _ _ _ Hshape) as Hbuf.
  destruct (retract_any p a ndw ws (tr_ring t) Hrest Hn Hlen (retract_admitted p a _ _ _ _ Hshape Hn Hrun))
    as (r1 & Hr1 & Hrest' & Ho & Hw' & _ & _ & Hm' & Hch).
  assert (r1 = r') as -> by congruence. pose proof (chain_bounds _ _ _ _ _ Hchain) as Hb.
  split; cbn; rewrite ?Hm'; [done|by rewrite Ho, Hov|lia|lia|].
  exists s, e. split_and!; [done|by rewrite Hw'|].
  apply (chain_frame _ (ring (tr_ring t)) (ring r') (Z.of_nat (length ws))); [done|done| |lia|rewrite Hbuf; nia].
  by rewrite Hbuf, <- Hw, Nat2Z.id.
Qed.

Lemma traffic_step_inv t t' : traffic_inv p a hw t -> traffic_step a hw ins t t' -> traffic_inv p a hw t'.
Proof.
  intros Hinv Hstep. destruct Hstep as [ndw ws r' Hlt Hn Hlen Hrun|ndw ws r' Hn Hrun|ndw ws r' Hlt Hn Hlen Hrun|x l Hx].
  - by apply traffic_submit_inv.
  - destruct Hinv as [Hrest Hov Hm Hcount Hc]. apply (refused_same p a) in Hrun as [-> _]; [by split|apply Hrest|done].
  - by apply undo_inv.
  - destruct Hinv as [Hrest Hov Hm Hcount (s & e & Hs & Hw & Hchain)].
    split; cbn; [done|done|lia|rewrite Hx in Hcount; cbn in Hcount; lia|].
    rewrite Hx in Hchain. destruct x as [[w k] ws]. destruct Hchain as (_ & Hk & _ & Hc).
    exists (s + k), e. split_and!; [lia|done|done].
Qed.
End traffic.

(** A submission that reserves [ndw] words and writes no more is either
    refused with -ENOMEM, leaving the ring as it was, or ends with the write
    pointer at a fetch boundary, exactly its words (padded with nops) written
    behind the previous submission, the rest of the buffer untouched, the
    engine told the new write pointer and no complaint about exceeding the
    reservation; padding included, it never takes more than [max_dw] words.
    A submission that is taken back restores the write pointer. *)
Theorem ring_submit_correct (p a ndw : Z) (ins : amdgpu_ring -> Z -> list Z) (ws : list Z) (r : amdgpu_ring) :
  NopFiller ins -> ring_idle p a r -> 0 <= ndw < 2147483648 -> Z.of_nat (length ws) <= ndw ->
  (if max_dw r <? roundup a ndw then ring_submit ins ndw ws r = Ok (- ENOMEM, r)
   else (exists r', ring_submit ins ndw ws r = Ok (0, r') /\
           submitted p a (roundup a (Z.of_nat (length ws))) ws r r') /\
        exists r', ring_retract ndw ws r = Ok (- EINVAL, r') /\
           wptr r' = wptr r /\ hw_wptr r' = hw_wptr r /\ in_use r' = in_use r /\ overrun r' = false).
Proof.
  intros Hins Hidle Hn Hlen. pose proof (submit_ok p a ins ndw ws r Hidle Hn Hlen) as H.
  destruct Hidle as (Hs & Hal & Hov). pose proof (rs_pa _ _ _ Hs).
  destruct (roundup_bounds a ltac:(lia) ndw ltac:(lia)) as [Hr1 _].
  destruct (Z.ltb_spec (max_dw r) (roundup a ndw)) as [|Hge]; [done|]. split; [done|].
  destruct (retract_any p a ndw ws r (conj Hs Hal) Hn ltac:(lia) Hge) as (r' & Hrun & _ & Ho & Hw & Hh & Hu & _).
  exists r'. split_and!; try done. rewrite Ho, Hov. apply Z.ltb_ge. lia.
Qed.

(** C29: on a ring that [amdgpu_ring_init] sized for [hw] submissions of [max_dw]
    words, whatever is reserved, written, committed, refused, taken back with
    [amdgpu_ring_undo] and finished by the engine, the ring still holds the words
    of every unfinished submission, untouched by the later ones, by their padding
    and by those taken back; and a complaint about writing more words than
    reserved has been raised exactly if a client has done so: the padding to the
    fetch size alone never causes one.  The clients keep at most [hw] submissions
    in flight (the scheduler's limit) and never write more than [max_dw] words,
    padding included, in one submission; they may write more than they reserved. *)
Theorem ring_never_overwrites (max_dw nop align_mask hw a : Z) (ty : amdgpu_ring_type)
    (ins : amdgpu_ring -> Z -> list Z) (t : ring_traffic) :
  NopFiller ins -> 0 < max_dw -> 0 < hw -> 4 * max_dw * hw <= 2147483648 ->
  0 <= a -> align_mask = 2 ^ a - 1 -> 2 ^ a <= max_dw ->
  rtc (traffic_step a hw ins) (Traffic (ring_geometry max_dw nop align_mask hw ty) [] false) t ->
  overrun (tr_ring t) = exceeded t /\
  forall w k ws, (w, k, ws) ∈ inflight t -> region (ring (tr_ring t)) (Z.to_nat w) ws.
Proof.
  intros Hins Hmx Hhw Hsmall Ha Ham Hfetch Hrun.
  destruct (geometry_idle max_dw nop align_mask hw ty a) as (p & (Hs & Hal & Hov) & Hfit); try done.
  assert (traffic_inv p a hw (Traffic (ring_geometry max_dw nop align_mask hw ty) [] false)) as H0.
  { split; cbn; [done|done|done|lia|]. exists 0, 0. split_and!; (done || lia). }
  assert (traffic_inv p a hw t) as [_ Hover _ _ (s & e & _ & _ & Hchain)].
  { clear Hov Hs Hal. induction Hrun as [|t1 t2 t3 Hstep _ IH]; [done|]. apply IH. by eapply traffic_step_inv. }
  split; [done|]. clear -Hchain. revert s Hchain.
  induction (inflight t) as [|[[w k] ws] l IH]; intros s Hc w' k' ws' Hin; [by apply not_elem_of_nil in Hin|].
  destruct Hc as (_ & _ & Hreg & Hc). apply elem_of_cons in Hin as [E|Hin]; [by simplify_eq|by eapply IH].
Qed.

(** ** A small ring *)

Definition demo_ring : amdgpu_ring := ring_geometry 16 7 7 2 RING_SDMA.
Definition demo_words : list Z := [11; 12; 13; 14; 15; 16; 17; 18; 19; 20; 21].

Lemma demo_ring_idle : ring_idle 5 3 demo_ring.
Proof. split_and!; [|done|done]. by split; vm_compute. Qed.

Lemma ring_submit_correct_witness :
  exists r', ring_submit amdgpu_ring_insert_nop 12 demo_words demo_ring = Ok (0, r') /\
    submitted 5 3 16 demo_words demo_ring r'.
Proof.
  pose proof (ring_submit_correct 5 3 12 amdgpu_ring_insert_nop demo_words demo_ring generic_filler demo_ring_idle
    ltac:(lia) ltac:(vm_compute; discriminate)) as H.
  destruct H as [H _]. exact H.
Defined.

(** One submission, one taken back, and one that writes more than the eight
    words it reserved. *)
Lemma ring_never_overwrites_witness :
  exists t, inflight t = [(0, 16, demo_words); (16, 16, demo_words)] /\
    overrun (tr_ring t) = true /\ region (ring (tr_ring t)) 0 demo_words.
Proof.
  assert (exists t, inflight t = [(0, 16, demo_words); (16, 16, demo_words)] /\ exceeded t = true /\
    rtc (traffic_step 3 2 amdgpu_ring_insert_nop) (Traffic demo_ring [] false) t) as (t & Hin & Hex & Hrun).
  { eexists. split; [|split; [|
      eapply rtc_l; [eapply (step_submit _ _ _ _ 12 demo_words); [cbn; lia|lia|vm_compute; discriminate|vm_compute; reflexivity]|];
      eapply rtc_l; [eapply (step_undo _ _ _ _ 12 demo_words); [cbn; lia|lia|vm_compute; discriminate|vm_compute; reflexivity]|];
      eapply rtc_l; [eapply (step_submit _ _ _ _ 8 demo_words); [cbn; lia|lia|vm_compute; discriminate|vm_compute; reflexivity]|]; apply rtc_refl]];
    reflexivity. }
  exists t. split; [exact Hin|].
  destruct (ring_never_overwrites 16 7 7 2 3 RING_SDMA amdgpu_ring_insert_nop t) as [Ho H];
    [exact generic_filler|lia|lia|lia|lia|reflexivity|lia|exact Hrun|].
  split; [by rewrite Ho|]. apply (H 0 16). rewrite Hin. by left.
Defined.
