(* ===== verification/IbSchedule.v ===== *)
(** * Scheduling indirect buffers on a ring ([amdgpu/amdgpu_ib.c], [amdgpu_vm_flush] of [amdgpu/amdgpu_vm.c])

    [amdgpu_ib_schedule] writes a whole submission to a ring: cache and TLB
    flushes, the indirect buffers, a fence.  It composes the ring ([Ring]) with
    its fence driver ([Fence]) and the operations of the engine
    ([amdgpu_ring_funcs]).  An operation that emits commands is the list of the
    words it passes to [amdgpu_ring_write], as a function of the ring it starts
    from. *)

From stdpp Require Import base numbers list.
From S2P Require Import Prelude CMonad Fence Ring.

(** Flags: [AMDGPU_FENCE_FLAG_*] of [amdgpu_ring.h], the preamble and context
    switch bits of [amdgpu.h], and the flags of an indirect buffer, which are
    part of the user interface. *)
Definition AMDGPU_FENCE_FLAG_64BIT : Z := 1.
Definition AMDGPU_FENCE_FLAG_INT : Z := 2.
Definition AMDGPU_PREAMBLE_IB_PRESENT : Z := 1.
Definition AMDGPU_PREAMBLE_IB_PRESENT_FIRST : Z := 2.
Definition AMDGPU_HAVE_CTX_SWITCH : Z := 4.
Definition AMDGPU_IB_FLAG_CE : Z := 1.
Definition AMDGPU_IB_FLAG_PREAMBLE : Z := 2.

Definition has_flag (flags f : Z) : bool := negb (Z.land flags f =? 0).

(** [struct amdgpu_ib], without its memory. *)
Record amdgpu_ib := Ib { ib_length_dw : Z; ib_gpu_addr : Z; ib_flags : Z }.

(** The GDS, GWS and OA allocations of a job or a VMID. *)
Record gds_state := Gds {
  gds_base : Z; gds_size : Z; gws_base : Z; gws_size : Z; oa_base : Z; oa_size : Z }.
#[global] Instance gds_state_eq_dec : EqDecision gds_state.
Proof. solve_decision. Defined.
Definition gds_none : gds_state := Gds 0 0 0 0 0 0.

(** What [struct amdgpu_job] carries for a submission. *)
Record amdgpu_job := Job {
  has_vm : bool;
  job_vm_id : Z;
  vm_needs_flush : bool;
  vm_pd_addr : Z;
  job_gds : gds_state;
  fence_ctx : Z;
  preamble_status : Z;
  uf_addr : Z;
  uf_sequence : Z }.

(** The fields of [struct amdgpu_vm_id] that a flush uses; [last_flush] is the
    fence of the last flush. *)
Record amdgpu_vm_id := VmId {
  current_gpu_reset_count : Z; id_gds : gds_state; last_flush : option nat }.

(** [struct amdgpu_ring_funcs]: [None] is a null pointer.  [emit_pipeline_sync]
    reads the sequence number and address of the ring's fence driver. *)
Record amdgpu_ring_funcs := RingFuncs {
  emit_ib : amdgpu_ring -> amdgpu_ib -> Z -> bool -> list Z;
  emit_fence : amdgpu_ring -> Z -> Z -> Z -> list Z;
  emit_pipeline_sync : option (amdgpu_ring -> Z -> Z -> list Z);
  emit_vm_flush : option (amdgpu_ring -> Z -> Z -> list Z);
  emit_hdp_flush : option (amdgpu_ring -> list Z);
  emit_hdp_invalidate : option (amdgpu_ring -> list Z);
  emit_gds_switch : option (amdgpu_ring -> Z -> gds_state -> list Z);
  insert_nop : amdgpu_ring -> Z -> list Z;
  init_cond_exec : option (amdgpu_ring -> list Z * Z);
  patch_cond_exec : option (amdgpu_ring -> Z -> amdgpu_ring);
  emit_switch_buffer : option (amdgpu_ring -> list Z);
  emit_cntxcntl : option (amdgpu_ring -> Z -> list Z);
  get_emit_ib_size : Z;
  get_dma_frame_size : Z }.

(** The state a submission works on; [cond_exe] is the word the engine polls. *)
Record gpu_ctx := GpuCtx {
  rg : amdgpu_ring;
  fs : fence_sys;
  vm_ids : list amdgpu_vm_id;
  gpu_reset_counter : Z;
  cond_exe : Z }.

Notation GM := (M gpu_ctx).

Definition on_ring {A} (m : RM A) : GM A := fun c =>
  match m (rg c) with
  | Ok (a, r) => Ok (a, GpuCtx r (fs c) (vm_ids c) (gpu_reset_counter c) (cond_exe c))
  | Fault => Fault
  | NoFuel => NoFuel
  end.
Definition on_fence {A} (m : FM A) : GM A := fun c =>
  match m (fs c) with
  | Ok (a, f) => Ok (a, GpuCtx (rg c) f (vm_ids c) (gpu_reset_counter c) (cond_exe c))
  | Fault => Fault
  | NoFuel => NoFuel
  end.
Definition set_vm_id (i : Z) (g : amdgpu_vm_id -> amdgpu_vm_id) : GM unit :=
  modify (fun c => GpuCtx (rg c) (fs c) (alter g (Z.to_nat i) (vm_ids c)) (gpu_reset_counter c) (cond_exe c)).

(** The words an operation emits from the current ring. *)
Definition emit (f : amdgpu_ring -> list Z) : GM unit :=
  c ← gets id; on_ring (ring_writes (f (rg c))).
(** An operation that the engine may not have. *)
Definition emit_opt (o : option (amdgpu_ring -> list Z)) : GM unit :=
  match o with Some f => emit f | None => mret tt end.

(** [amdgpu_vm_ring_has_compute_vm_bug]: [gfx] is the major version of the
    graphics block, if the device has one, [mec_fw] the firmware version. *)
Definition amdgpu_vm_ring_has_compute_vm_bug (r : amdgpu_ring) (gfx : option Z) (mec_fw : Z) : bool :=
  match rtype r, gfx with
  | RING_COMPUTE, Some major =>
      if major <=? 7 then true
      else if major =? 8 then negb (673 <=? mec_fw)
      else false
  | _, _ => false
  end.

Section schedule.
Context (F : amdgpu_ring_funcs) (gfx : option Z) (mec_fw : Z).

(** [amdgpu_fence_emit] with the words it writes to the ring.  The fence is
    returned when the allocation succeeds. *)
Definition ring_fence_emit (alloc_ok : bool) : GM (Z * nat) :=
  c ← gets id;
  rp ← on_fence (emit_begin alloc_ok);
  if negb (rp.1 =? 0) then mret (rp.1, 0%nat)
  else
    c' ← gets id;
    emit (fun r => emit_fence F r (gpu_addr (drv (fs c'))) (sync_seq (drv (fs c'))) AMDGPU_FENCE_FLAG_INT);;
    on_fence (emit_run 2 rp.2);;
    mret (0, length (objs (fs c))).

Definition amdgpu_vm_flush (job : amdgpu_job) (fence_ok : bool) : GM Z :=
  c ← gets id;
  i ← deref (vm_ids c !! Z.to_nat (job_vm_id job));
  let gds_switch_needed :=
    match emit_gds_switch F with Some _ => negb (bool_decide (id_gds i = job_gds job)) | None => false end in
  (if vm_needs_flush job || gds_switch_needed || amdgpu_vm_ring_has_compute_vm_bug (rg c) gfx mec_fw then
     match emit_pipeline_sync F with
     | Some f => emit (fun r => f r (sync_seq (drv (fs c))) (gpu_addr (drv (fs c))))
     | None => mret tt
     end
   else mret tt);;
  e ← (match emit_vm_flush F with
       | Some f =>
           if vm_needs_flush job || negb (current_gpu_reset_count i =? gpu_reset_counter c) then
             emit (fun r => f r (job_vm_id job) (vm_pd_addr job));;
             rf ← ring_fence_emit fence_ok;
             if negb (rf.1 =? 0) then mret rf.1
             else set_vm_id (job_vm_id job)
                    (fun i => VmId (current_gpu_reset_count i) (id_gds i) (Some rf.2));; mret 0
           else mret 0
       | None => mret 0
       end);
  if negb (e =? 0) then mret e
  else
    (match emit_gds_switch F with
     | Some f =>
         if gds_switch_needed then
           set_vm_id (job_vm_id job) (fun i => VmId (current_gpu_reset_count i) (job_gds job) (last_flush i));;
           emit (fun r => f r (job_vm_id job) (job_gds job))
         else mret tt
     | None => mret tt
     end);;
    mret 0.

Definition amdgpu_vm_reset_id (vm_id : Z) : GM unit :=
  set_vm_id vm_id (fun i => VmId (current_gpu_reset_count i) gds_none (last_flush i)).

(** The loop over the indirect buffers; [ctx_switch] is [need_ctx_switch]. *)
Fixpoint emit_ibs (ibs : list amdgpu_ib) (vm_id status : Z) (skip_preamble ctx_switch : bool) : GM unit :=
  match ibs with
  | [] => mret tt
  | ib :: ibs =>
      if has_flag (ib_flags ib) AMDGPU_IB_FLAG_PREAMBLE && skip_preamble &&
         negb (has_flag status AMDGPU_PREAMBLE_IB_PRESENT_FIRST)
      then emit_ibs ibs vm_id status skip_preamble ctx_switch
      else
        emit (fun r => emit_ib F r ib vm_id ctx_switch);;
        emit_ibs ibs vm_id status skip_preamble false
  end.

Definition is_gfx (r : amdgpu_ring) : bool := match rtype r with RING_GFX => true | _ => false end.

(** The words a submission reserves, and the nops in front of its buffers. *)
Definition extra_nop (job : option amdgpu_job) (r : amdgpu_ring) : Z :=
  match job with
  | Some j => if negb (vm_needs_flush j) && is_gfx r then 128 else 0
  | None => 0
  end.
Definition alloc_size (ibs : list amdgpu_ib) (job : option amdgpu_job) (r : amdgpu_ring) : Z :=
  u32 (u32 (get_dma_frame_size F + Z.of_nat (length ibs) * get_emit_ib_size F) + extra_nop job r).

(** [amdgpu_ib_schedule] once the space is reserved.  [vm_fence_ok] and
    [fence_ok] are the outcomes of the allocations of the two fences. *)
Definition ib_schedule_body (ibs : list amdgpu_ib) (job : option amdgpu_job) (vm_fence_ok fence_ok : bool)
    (extra : Z) : GM Z :=
  c ← gets id;
  patch_offset ← (match init_cond_exec F with
                  | Some f => if is_gfx (rg c) then on_ring (ring_writes (f (rg c)).1);; mret (f (rg c)).2
                              else mret 4294967295
                  | None => mret 4294967295
                  end);
  e ← (match job with
       | Some j => if has_vm j then emit (fun r => amdgpu_ring_insert_nop r extra);; amdgpu_vm_flush j vm_fence_ok
                   else mret 0
       | None => mret 0
       end);
  if negb (e =? 0) then on_ring amdgpu_ring_undo;; on_fence ring_drop;; mret e
  else
    emit_opt (emit_hdp_flush F);;
    modify (fun c => GpuCtx (rg c) (fs c) (vm_ids c) (gpu_reset_counter c) 1);;
    let ctx := match job with Some j => fence_ctx j | None => 0 end in
    let skip_preamble := current_ctx (rg c) =? ctx in
    let need_ctx_switch := negb (current_ctx (rg c) =? ctx) in
    let status := match job, emit_cntxcntl F with
      | Some j, Some _ => Z.lor (if need_ctx_switch then AMDGPU_HAVE_CTX_SWITCH else 0) (preamble_status j)
      | _, _ => 0
      end in
    (match job, emit_cntxcntl F with
     | Some _, Some f => emit (fun r => f r status)
     | _, _ => mret tt
     end);;
    emit_ibs ibs (match job with Some j => job_vm_id j | None => 0 end) status skip_preamble need_ctx_switch;;
    emit_opt (emit_hdp_invalidate F);;
    rf ← ring_fence_emit fence_ok;
    if negb (rf.1 =? 0) then
      (match job with
       | Some j => if negb (job_vm_id j =? 0) then amdgpu_vm_reset_id (job_vm_id j) else mret tt
       | None => mret tt
       end);;
      on_ring amdgpu_ring_undo;; on_fence ring_drop;; mret rf.1
    else
      (match job with
       | Some j => if negb (uf_addr j =? 0)
                   then emit (fun r => emit_fence F r (uf_addr j) (uf_sequence j) AMDGPU_FENCE_FLAG_64BIT)
                   else mret tt
       | None => mret tt
       end);;
      (match patch_cond_exec F with
       | Some f => if negb (patch_offset =? 4294967295) then on_ring (modify (fun r => f r patch_offset))
                   else mret tt
       | None => mret tt
       end);;
      on_ring (modify (set_ctx ctx));;
      emit_opt (emit_switch_buffer F);;
      on_ring (amdgpu_ring_commit (insert_nop F));;
      on_fence ring_doorbell;;
      mret 0.

Definition amdgpu_ib_schedule (ibs : list amdgpu_ib) (job : option amdgpu_job) (vm_fence_ok fence_ok : bool) : GM Z :=
  c ← gets id;
  match ibs with
  | [] => mret (- EINVAL)
  | _ =>
      if negb (ready (rg c)) then mret (- EINVAL)
      else if (match job with Some j => has_vm j && (job_vm_id j =? 0) | None => false end) then mret (- EINVAL)
      else
        e ← on_ring (amdgpu_ring_alloc (alloc_size ibs job (rg c)));
        if negb (e =? 0) then mret e
        else ib_schedule_body ibs job vm_fence_ok fence_ok (extra_nop job (rg c))
  end.
End schedule.
