(* ===== verification/IbSpec.v ===== *)
(** * Submissions stay within what they reserve

    [FrameBudget] is what an engine promises about the commands it emits: no
    operation writes more words than [get_dma_frame_size] and
    [get_emit_ib_size] account for.  From that promise alone,
    [amdgpu_ib_schedule] never writes beyond its reservation, whatever the job
    and whichever allocations fail. *)

From stdpp Require Import base numbers list relations.
From S2P Require Import Prelude CMonad Bitmap Fence FenceInv FenceSpec Ring RingSpec IbSchedule.

Definition words (l : list Z) : Z := Z.of_nat (length l).

(** The sizes an engine's frame size is the sum of. *)
Record frame_sizes := FrameSizes {
  sz_hdp_flush : Z; sz_hdp_invalidate : Z; sz_pipeline_sync : Z; sz_vm_flush : Z;
  sz_gds_switch : Z; sz_switch_buffer : Z; sz_cntxcntl : Z; sz_fence : Z }.

Definition opt_within {A} (o : option A) (b : Z) (P : A -> Prop) : Prop :=
  0 <= b /\ match o with Some f => P f | None => True end.

(** The promise of an engine whose rings have type [ty]; [uf] tells whether its
    jobs may have a user fence. *)
Class FrameBudget (F : amdgpu_ring_funcs) (ty : amdgpu_ring_type) (uf : bool) : Type := {
  fb_sizes : frame_sizes;
  fb_nop :: NopFiller (insert_nop F);
  fb_ib r ib v c : rtype r = ty -> words (emit_ib F r ib v c) <= get_emit_ib_size F;
  fb_ib_nonneg : 0 <= get_emit_ib_size F;
  fb_fence r a q fl : words (emit_fence F r a q fl) <= sz_fence fb_sizes;
  fb_fence_nonneg : 0 <= sz_fence fb_sizes;
  fb_sync : opt_within (emit_pipeline_sync F) (sz_pipeline_sync fb_sizes)
    (fun f => forall r q a, rtype r = ty -> words (f r q a) <= sz_pipeline_sync fb_sizes);
  fb_vm : opt_within (emit_vm_flush F) (sz_vm_flush fb_sizes)
    (fun f => forall r v a, rtype r = ty -> words (f r v a) <= sz_vm_flush fb_sizes);
  fb_gds : opt_within (emit_gds_switch F) (sz_gds_switch fb_sizes)
    (fun f => forall r v g, words (f r v g) <= sz_gds_switch fb_sizes);
  fb_hdp_flush : opt_within (emit_hdp_flush F) (sz_hdp_flush fb_sizes)
    (fun f => forall r, rtype r = ty -> words (f r) <= sz_hdp_flush fb_sizes);
  fb_hdp_invalidate : opt_within (emit_hdp_invalidate F) (sz_hdp_invalidate fb_sizes)
    (fun f => forall r, words (f r) <= sz_hdp_invalidate fb_sizes);
  fb_switch_buffer : opt_within (emit_switch_buffer F) (sz_switch_buffer fb_sizes)
    (fun f => forall r, words (f r) <= sz_switch_buffer fb_sizes);
  fb_cntxcntl : opt_within (emit_cntxcntl F) (sz_cntxcntl fb_sizes)
    (fun f => forall r s, words (f r s) <= sz_cntxcntl fb_sizes);
  fb_no_cond_exec : init_cond_exec F = None /\ patch_cond_exec F = None;
  fb_frame : sz_hdp_flush fb_sizes + sz_hdp_invalidate fb_sizes + sz_pipeline_sync fb_sizes +
    sz_vm_flush fb_sizes + sz_gds_switch fb_sizes + sz_switch_buffer fb_sizes + sz_cntxcntl fb_sizes +
    sz_fence fb_sizes * (1 + (if emit_vm_flush F then 1 else 0) + (if uf then 1 else 0))
      <= get_dma_frame_size F }.

(** A fence driver with room for [j] more fences and nothing else going on. *)
Definition fence_room (kk : Z) (n j : nat) (s : fence_sys) : Prop :=
  exists L D own ids, fence_inv kk n L D own ids s /\ emitter s = EIdle /\ handlers s = [] /\
    (length (objs s) + j <= L + n)%nat.

(** The middle of a submission: [k] of the [R] reserved words are written. *)
Record live (p a R : Z) (r0 : amdgpu_ring) (k : Z) (r : amdgpu_ring) : Prop := Live {
  lv_shape : ring_shape p a r;
  lv_overrun : overrun r = false;
  lv_wptr : wptr r = (wptr r0 + k) mod 2 ^ p;
  lv_count : count_dw r = R - k;
  lv_k : 0 <= k <= R;
  lv_old : wptr_old r = wptr r0;
  lv_type : rtype r = rtype r0;
  lv_hw : hw_wptr r = hw_wptr r0;
  lv_use : in_use r = in_use r0 + 1;
  lv_max : max_dw r = max_dw r0;
  lv_ready : ready r = ready r0 }.

Section spending.
Context (p a R : Z) (r0 : amdgpu_ring) (kk : Z) (n nv : nat) (HR : R <= max_dw r0).

Record midway (k : Z) (j : nat) (c : gpu_ctx) : Prop := Midway {
  mw_live : live p a R r0 k (rg c);
  mw_room : fence_room kk n j (fs c);
  mw_ids : length (vm_ids c) = nv }.

(** [m] writes at most [K] words and emits at most [J] fences. *)
Definition spends {A} (m : GM A) (K : Z) (J : nat) (Q : A -> Prop) : Prop :=
  forall c k j, midway k (J + j) c -> k + K <= R ->
  exists v c' k', m c = Ok (v, c') /\ midway k' j c' /\ k <= k' <= k + K /\ Q v.

Lemma fence_room_mono i j s : (i <= j)%nat -> fence_room kk n j s -> fence_room kk n i s.
Proof.
  intros H (L & D & own & ids & I & He & Hh & Hr). exists L, D, own, ids. split_and!; try done. lia.
Qed.

Lemma midway_mono k i j c : (i <= j)%nat -> midway k j c -> midway k i c.
Proof. intros H [? ? ?]. split; try done. by eapply fence_room_mono. Qed.

Lemma spends_ret {A} (v : A) (Q : A -> Prop) : Q v -> spends (mret v) 0 0 Q.
Proof. intros HQ c k j Hm Hk. exists v, c, k. split_and!; (done || lia). Qed.

Lemma spends_bind {A B} (m : GM A) (f : A -> GM B) K1 J1 K2 J2 Q Q' :
  0 <= K2 -> spends m K1 J1 Q -> (forall v, Q v -> spends (f v) K2 J2 Q') ->
  spends (mbind f m) (K1 + K2) (J1 + J2) Q'.
Proof.
  intros HK Hm Hf c k j Hmid Hk. destruct (Hm c k (J2 + j)%nat) as (v & c1 & k1 & E & H1 & Hk1 & Hv).
  { by rewrite Nat.add_assoc. } { lia. }
  destruct (Hf v Hv c1 k1 j) as (v2 & c2 & k2 & E2 & H2 & Hk2 & Hv2); [done|lia|].
  exists v2, c2, k2. rewrite (bind_eval m f c v c1 E). split_and!; (done || lia).
Qed.

Lemma spends_weaken {A} (m : GM A) K J K' J' Q : spends m K J Q -> K <= K' -> (J <= J')%nat -> spends m K' J' Q.
Proof.
  intros Hm HK HJ c k j Hmid Hk. destruct (Hm c k (J' - J + j)%nat) as (v & c1 & k1 & E & H1 & Hk1 & Hv); [|lia|].
  { by replace (J + (J' - J + j))%nat with (J' + j)%nat by lia. }
  exists v, c1, k1. split_and!; try done; try lia. eapply midway_mono; [|done]. lia.
Qed.

Lemma spends_skip {A} (v : A) K J (Q : A -> Prop) : 0 <= K -> Q v -> spends (mret v) K J Q.
Proof. intros HK HQ. eapply spends_weaken; [by apply spends_ret|lia|lia]. Qed.

Lemma spends_free {A B} (m : GM A) (f : A -> GM B) K J Q Q' :
  0 <= K -> spends m 0 0 Q -> (forall v, Q v -> spends (f v) K J Q') -> spends (mbind f m) K J Q'.
Proof. intros HK. rewrite <- (Z.add_0_l K). exact (spends_bind m f 0 0 K J Q Q' HK). Qed.

Lemma spends_last {A B} (m : GM A) (f : A -> GM B) K J Q Q' :
  spends m K J Q -> (forall v, Q v -> spends (f v) 0 0 Q') -> spends (mbind f m) K J Q'.
Proof.
  rewrite <- (Z.add_0_r K), <- (Nat.add_0_r J). intros Hm Hf. apply (spends_bind m f K J 0 0 Q Q'); [lia| |done].
  by rewrite Z.add_0_r, Nat.add_0_r in Hm.
Qed.

(** Reading the state: its type and number of VMIDs are known. *)
Lemma spends_gets {A} (f : gpu_ctx -> GM A) K J Q :
  (forall c, rtype (rg c) = rtype r0 -> length (vm_ids c) = nv -> spends (f c) K J Q) ->
  spends (c ← gets id; f c) K J Q.
Proof.
  intros H c k j Hmid Hk. rewrite (bind_eval (gets id) _ c c c eq_refl). cbn [id].
  apply H; [|by destruct Hmid|done|done]. exact (lv_type _ _ _ _ _ _ (mw_live _ _ _ Hmid)).
Qed.

Lemma live_writes r l k : live p a R r0 k r -> k + Z.of_nat (length l) <= R ->
  exists r', ring_writes l r = Ok (tt, r') /\ live p a R r0 (k + Z.of_nat (length l)) r'.
Proof.
  intros [Hs Ho Hw Hc Hkk Hold Ht Hhw Hu Hmx Hrd] Hk.
  pose proof (rs_pa _ _ _ Hs). pose proof (pow2_bounds p ltac:(lia)) as Hp. pose proof (rs_max _ _ _ Hs) as Hm.
  destruct (writes_spec p a l r Hs) as (r' & Hrun & Hsame & Hs' & _ & _ & Hw' & Hc' & Ho');
    [lia|unfold is_s32; lia|unfold is_s32; lia|].
  exists r'. split; [done|]. destruct Hsame as (? & ? & ? & ? & ? & ? & ? & ? & ? & ? & ? & ? & ?).
  split; try congruence; try lia.
  - rewrite Ho', (proj2 (Z.ltb_ge (count_dw r) _)), andb_false_r, orb_false_r by lia. done.
  - by rewrite Hw', Hw, Zplus_mod_idemp_l, Z.add_assoc.
Qed.

Lemma spends_writes f K :
  (forall r, rtype r = rtype r0 -> words (f r) <= K) -> spends (emit f) K 0 (fun _ => True).
Proof.
  intros Hf c k j Hmid Hk. unfold emit. rewrite (bind_eval (gets id) _ c c c eq_refl). cbn [id].
  destruct Hmid as [Hlive Hroom Hids]. pose proof (Hf (rg c) (lv_type _ _ _ _ _ _ Hlive)) as Hlen. unfold words in Hlen.
  destruct (live_writes _ (f (rg c)) k Hlive ltac:(lia)) as (r' & Hrun & Hlive').
  eexists tt, _, _. split; [unfold on_ring; by rewrite Hrun|]. split_and!; [by split|lia|lia|done].
Qed.

Lemma spends_opt o K : opt_within o K (fun f => forall r, rtype r = rtype r0 -> words (f r) <= K) ->
  spends (emit_opt o) K 0 (fun _ => True).
Proof.
  intros [HK Ho]. destruct o as [f|]; [by apply spends_writes|].
  eapply spends_weaken; [by apply spends_ret|lia|lia].
Qed.

Lemma spends_vm_id i g : spends (set_vm_id i g) 0 0 (fun _ => True).
Proof.
  intros c k j [Hlive Hroom Hids] Hk. eexists tt, _, k. split; [reflexivity|]. split_and!; (done || lia || idtac).
  split; [done|done|]. cbn. by rewrite length_alter.
Qed.

(** Emitting a fence on the ring. *)
Lemma spends_fence F ok K : 0 <= K -> (forall r x q fl, words (emit_fence F r x q fl) <= K) ->
  spends (ring_fence_emit F ok) K 1 (fun v => v.1 = 0 \/ v.1 = - ENOMEM /\ ok = false).
Proof.
  intros HK Hlen c k j Hmid Hk. unfold ring_fence_emit. rewrite (bind_eval (gets id) _ c c c eq_refl). cbn [id].
  destruct ok.
  2:{ eexists _, c, k. split; [by destruct c|]. split_and!; [by eapply midway_mono; [|done]; lia|lia|lia|auto]. }
  destruct Hmid as [Hlive (L & D & own & ids & I & He & Hh & Hr) Hids].
  destruct (emit_completes _ _ _ _ _ _ _ I He ltac:(by rewrite Hh) ltac:(lia)) as (Hrun & _ & I').
  pose proof (emit_begin_eval _ _ _ _ _ _ _ I) as Hb.
  set (f := length (objs (fs c))) in *. set (x := (S f mod n)%nat) in *. set (s1 := set_packets _ _) in Hrun, Hb.
  set (s2 := set_drv _ s1) in Hrun, I'.
  destruct (live_writes (rg c) (emit_fence F (rg c) (gpu_addr (drv s1)) (sync_seq (drv s1)) AMDGPU_FENCE_FLAG_INT) k
    Hlive) as (r' & Hw & Hlive'); [specialize (Hlen (rg c) (gpu_addr (drv s1)) (sync_seq (drv s1)) AMDGPU_FENCE_FLAG_INT);
      unfold words in Hlen; lia|].
  eexists _, _, (k + words (emit_fence F (rg c) (gpu_addr (drv s1)) (sync_seq (drv s1)) AMDGPU_FENCE_FLAG_INT)). split.
  { rewrite (bind_eval (on_fence _) _ c (0, ELoad f (Z.of_nat x)) (GpuCtx (rg c) s1 (vm_ids c) (gpu_reset_counter c) (cond_exe c)))
      by (unfold on_fence; by rewrite Hb). cbn [fst snd Z.eqb negb].
    erewrite (bind_eval (gets id)) by reflexivity.
    erewrite (bind_eval (emit _)) by (unfold emit; erewrite (bind_eval (gets id)) by reflexivity; unfold on_ring; cbn [rg id fs]; by rewrite Hw).
    erewrite (bind_eval (on_fence _)) by (unfold on_fence; cbn [fs]; by rewrite Hrun). reflexivity. }
  split_and!; [|unfold words; lia| |auto].
  - split; cbn; [done| |done]. exists L, D, own, (ids ++ [S f]). split_and!; [done|done|done|].
    cbn. rewrite length_app. cbn. fold f. lia.
  - specialize (Hlen (rg c) (gpu_addr (drv s1)) (sync_seq (drv s1)) AMDGPU_FENCE_FLAG_INT). lia.
Qed.

Section engine.
Context (F : amdgpu_ring_funcs) (uf : bool) {B : FrameBudget F (rtype r0) uf} (gfx : option Z) (mec_fw : Z).

Lemma spends_vm_flush job ok : (Z.to_nat (job_vm_id job) < nv)%nat ->
  spends (amdgpu_vm_flush F gfx mec_fw job ok)
    (sz_pipeline_sync fb_sizes + (sz_vm_flush fb_sizes + sz_fence fb_sizes * (if emit_vm_flush F then 1 else 0)) +
     sz_gds_switch fb_sizes) 1 (fun e => e = 0 \/ e = - ENOMEM /\ ok = false).
Proof.
  intros Hid. pose proof fb_sync as [Hps Hsync]. pose proof fb_vm as [Hvf Hvm]. pose proof fb_gds as [Hgs Hgds].
  pose proof fb_fence_nonneg as Hfe. unfold amdgpu_vm_flush. apply spends_gets. intros c Ht Hlen.
  destruct (lookup_lt_is_Some_2 (vm_ids c) (Z.to_nat (job_vm_id job))) as [i Hi]; [by rewrite Hlen|].
  rewrite Hi. cbn [deref]. change (mbind ?g (mret i)) with (g i). cbn beta.
  rewrite <- Z.add_assoc. change 1%nat with (0 + (1 + 0))%nat.
  eapply (spends_bind _ _ _ _ _ _ (fun _ => True)); [destruct (emit_vm_flush F); lia| |intros _ _].
  { destruct (_ || _ || _); [|by apply spends_skip].
    destruct (emit_pipeline_sync F); [|by apply spends_skip].
    apply spends_writes. intros r Hr. by apply Hsync. }
  eapply (spends_bind _ _ _ _ _ _ (fun e => e = 0 \/ e = - ENOMEM /\ ok = false)); [lia| |intros e He].
  { destruct (emit_vm_flush F) as [f|]; [|apply spends_skip; [lia|auto]].
    destruct (_ || _); [|apply spends_skip; [lia|auto]].
    rewrite Z.mul_1_r. change 1%nat with (0 + 1)%nat.
    eapply (spends_bind _ _ _ _ _ _ (fun _ => True)); [lia|apply spends_writes; intros r Hr; by apply Hvm|intros _ _].
    eapply spends_last; [by apply spends_fence; [|intros; apply fb_fence]|intros rf Hrf].
    destruct (negb _); [by apply spends_ret|].
    eapply spends_free; [lia|apply spends_vm_id|intros _ _; apply spends_ret; auto]. }
  destruct (negb _); [by apply spends_skip|].
  eapply (spends_last _ _ _ _ (fun _ => True)); [|intros _ _; apply spends_ret; auto].
  destruct (emit_gds_switch F) as [f|]; [|by apply spends_skip].
  destruct (negb _); [|by apply spends_skip].
  eapply spends_free; [lia|apply spends_vm_id|intros _ _]. apply spends_writes. intros r _. apply Hgds.
Qed.

Lemma spends_ibs vm status skip : forall ibs sw,
  spends (emit_ibs F ibs vm status skip sw) (words (fmap ib_flags ibs) * get_emit_ib_size F) 0 (fun _ => True).
Proof.
  pose proof fb_ib_nonneg as Hnn. induction ibs as [|ib ibs IH]; intros sw; cbn [emit_ibs].
  { by apply spends_skip. }
  assert (words (fmap ib_flags (ib :: ibs)) = 1 + words (fmap ib_flags ibs)) as -> by (unfold words; cbn; lia).
  rewrite Z.mul_add_distr_r, Z.mul_1_l. destruct (_ && _).
  - eapply spends_weaken; [apply IH|lia|lia].
  - change 0%nat with (0 + 0)%nat.
    eapply (spends_bind _ _ _ _ _ _ (fun _ => True)); [unfold words; lia| |intros _ _; apply IH].
    apply spends_writes. intros r Hr. by apply fb_ib.
Qed.

Lemma spends_modify g : (forall c k j, midway k j c -> midway k j (g c)) ->
  spends (modify g) 0 0 (fun _ => True).
Proof. intros Hg c k j Hm Hk. exists tt, (g c), k. split_and!; [done|by apply Hg|lia|lia|done]. Qed.

Lemma spends_set_ctx x : spends (on_ring (modify (set_ctx x))) 0 0 (fun _ => True).
Proof.
  intros c k j [[] Hroom Hids] Hk. eexists tt, _, k. split; [reflexivity|]. split_and!; (done || lia || idtac).
  split; cbn; [|done|done]. split; try done. by destruct lv_shape0.
Qed.

(** The words in front of the buffers: nops and the VM flush. *)
Definition vm_words (x : Z) : Z :=
  x + (sz_pipeline_sync fb_sizes + (sz_vm_flush fb_sizes + sz_fence fb_sizes * (if emit_vm_flush F then 1 else 0)) +
       sz_gds_switch fb_sizes).

Lemma vm_nonneg x : 0 <= x -> 0 <= vm_words x.
Proof.
  unfold vm_words. pose proof fb_sync as [? _]. pose proof fb_vm as [? _]. pose proof fb_gds as [? _].
  pose proof fb_fence_nonneg. destruct (emit_vm_flush F); lia.
Qed.

Lemma spends_vm_part job ok x : 0 <= x -> (forall j, job = Some j -> (Z.to_nat (job_vm_id j) < nv)%nat) ->
  spends (match job with
          | Some j => if has_vm j then emit (fun r => amdgpu_ring_insert_nop r x);; amdgpu_vm_flush F gfx mec_fw j ok
                      else mret 0
          | None => mret 0
          end) (vm_words x) 1 (fun e => e = 0 \/ e = - ENOMEM /\ ok = false).
Proof.
  intros Hx Hid. pose proof fb_sync as [Hps _]. pose proof fb_vm as [Hvf _]. pose proof fb_gds as [Hgs _].
  pose proof fb_fence_nonneg as Hfe.
  pose proof (vm_nonneg x Hx).
  destruct job as [j|]; [|apply spends_skip; auto]. destruct (has_vm j); [|apply spends_skip; auto].
  change 1%nat with (0 + 1)%nat. unfold vm_words.
  eapply (spends_bind _ _ _ _ _ _ (fun _ => True)); [destruct (emit_vm_flush F); lia| |intros _ _].
  - apply spends_writes. intros r _. unfold words, amdgpu_ring_insert_nop. rewrite length_replicate. lia.
  - apply spends_vm_flush. by apply Hid.
Qed.

Lemma spends_user_fence job : (forall j, job = Some j -> uf = false -> uf_addr j = 0) ->
  spends (match job with
          | Some j => if negb (uf_addr j =? 0)
                      then emit (fun r => emit_fence F r (uf_addr j) (uf_sequence j) AMDGPU_FENCE_FLAG_64BIT)
                      else mret tt
          | None => mret tt
          end) (sz_fence fb_sizes * (if uf then 1 else 0)) 0 (fun _ => True).
Proof.
  intros Huf. pose proof fb_fence_nonneg as Hfe.
  assert (0 <= sz_fence fb_sizes * (if uf then 1 else 0)) by (destruct uf; lia).
  destruct job as [j|]; [|by apply spends_skip].
  destruct (Z.eqb_spec (uf_addr j) 0) as [|Hne]; cbn [negb]; [by apply spends_skip|].
  destruct uf; [rewrite Z.mul_1_r|by destruct Hne; apply Huf].
  apply spends_writes. intros r _. apply fb_fence.
Qed.

(** ** The end of a submission *)

(** What a submission leaves behind, with its return value [e]. *)
Definition finished (e : Z) (c' : gpu_ctx) : Prop :=
  ring_idle p a (rg c') /\ fence_room kk n 0 (fs c') /\ in_use (rg c') = in_use r0 /\ max_dw (rg c') = max_dw r0 /\
  (e = 0 /\ hw_wptr (rg c') = wptr (rg c') /\ committed (fs c') = length (packets (fs c')) \/
   e = - ENOMEM /\ wptr (rg c') = wptr r0 /\ hw_wptr (rg c') = hw_wptr r0).

(** [why] is the reason for an error. *)
Context (why : Prop).

Definition finishes (m : GM Z) (K : Z) (J : nat) : Prop :=
  forall c k, midway k J c -> k + K <= R -> exists e c', m c = Ok (e, c') /\ finished e c' /\ (e <> 0 -> why).

Lemma finishes_bind {A} (m : GM A) f K1 J1 K2 J2 Q :
  0 <= K2 -> spends m K1 J1 Q -> (forall v, Q v -> finishes (f v) K2 J2) -> finishes (mbind f m) (K1 + K2) (J1 + J2).
Proof.
  intros HK Hm Hf c k Hmid Hk. destruct (Hm c k J2 Hmid) as (v & c1 & k1 & E & H1 & Hk1 & Hv); [lia|].
  destruct (Hf v Hv c1 k1 H1) as (e & c2 & E2 & H2); [lia|]. exists e, c2.
  by rewrite (bind_eval m f c v c1 E).
Qed.

Context (Hidle0 : ring_idle p a r0) (HRa : R mod 2 ^ a = 0).

Lemma finishes_undo e : e = - ENOMEM /\ why -> finishes (on_ring amdgpu_ring_undo;; on_fence ring_drop;; mret e) 0 0.
Proof.
  intros [-> Hwhy] c k [[] (L & D & own & ids & I & He & Hh & Hr) Hids] _.
  pose proof (drop_ok _ _ _ _ _ _ _ I _ eq_refl) as I'. destruct Hidle0 as (Hs0 & Hal & _).
  eexists _, _. split; [reflexivity|]. split; [|done].
  split; [|split; [|split; [cbn; lia|split; [done|right; by split_and!]]]].
  - split_and!; cbn; [|by rewrite lv_old0|done]. destruct lv_shape0, Hs0. split; cbn; try done. lia.
  - exists L, D, own, (take (committed (fs c)) ids). split_and!; (done || cbn; lia).
Qed.

Lemma live_commit r k : live p a R r0 k r -> exists r', amdgpu_ring_commit (insert_nop F) r = Ok (tt, r') /\
  ring_idle p a r' /\ hw_wptr r' = wptr r' /\ in_use r' = in_use r0 /\ max_dw r' = max_dw r0.
Proof.
  intros Hlive. pose proof Hlive as []. destruct Hidle0 as (Hs0 & Hal & _). pose proof (rs_pa _ _ _ Hs0) as Hpa.
  destruct (roundup_bounds a ltac:(lia) k ltac:(lia)) as [Hrk Hrm].
  assert (roundup a k <= R) as HkR.
  { pose proof (pow2_bounds a ltac:(lia)). pose proof (Z.div_mod R (2 ^ a) ltac:(lia)).
    pose proof (Z.div_mod (roundup a k) (2 ^ a) ltac:(lia)). assert (roundup a k / 2 ^ a < R / 2 ^ a + 1) by nia. nia. }
  set (pad := insert_nop F r (roundup a k - k)).
  assert (Hpad : Z.of_nat (length pad) = roundup a k - k) by (apply nop_length; lia).
  destruct (live_writes r pad k Hlive) as (r1 & H1 & []); [lia|].
  rewrite (commit_ok p a (insert_nop F) r0 r k) by (done || lia).
  rewrite (bind_eval (ring_writes _) _ r tt r1 H1). eexists. split; [reflexivity|].
  split; [|split; [done|split; [cbn; lia|cbn; congruence]]]. split; [by destruct lv_shape1|split; [|done]]. cbn.
  rewrite lv_wptr1. rewrite mod_pow2_pow2 by lia.
  replace (wptr r0 + (k + Z.of_nat (length pad))) with (wptr r0 + roundup a k) by lia.
  by rewrite Zplus_mod, Hal, Hrm, Zmod_0_l.
Qed.

Lemma finishes_commit :
  finishes (on_ring (amdgpu_ring_commit (insert_nop F));; on_fence ring_doorbell;; mret 0) 0 0.
Proof.
  intros c k [Hlive (L & D & own & ids & I & He & Hh & Hr) Hids] _.
  destruct (live_commit (rg c) k Hlive) as (r' & Hrun & Hidle & Hhw & Hu & Hm).
  pose proof (doorbell_ok _ _ _ _ _ _ _ I _ He eq_refl) as I'. eexists 0, _. split.
  { unfold on_ring at 1, mbind at 1, M_bind at 1. rewrite Hrun. reflexivity. }
  split; [|done]. split; [done|split; [|split; [done|split; [done|left; by split_and!]]]].
  exists L, D, own, ids. split_and!; (done || cbn; lia).
Qed.

(** The words of everything behind the VM flush, without the user fence. *)
Definition tail_words (ibs : list amdgpu_ib) : Z :=
  sz_hdp_flush fb_sizes + (sz_cntxcntl fb_sizes + (words (fmap ib_flags ibs) * get_emit_ib_size F +
   (sz_hdp_invalidate fb_sizes + (sz_fence fb_sizes +
   (sz_fence fb_sizes * (if uf then 1 else 0) + (sz_switch_buffer fb_sizes + 0)))))).

Lemma finishes_free {A} (m : GM A) f K J Q :
  0 <= K -> spends m 0 0 Q -> (forall v, Q v -> finishes (f v) K J) -> finishes (mbind f m) K J.
Proof. intros HK. rewrite <- (Z.add_0_l K). exact (finishes_bind m f 0 0 K J Q HK). Qed.

Lemma finishes_gets (f : gpu_ctx -> GM Z) K J : (forall c, finishes (f c) K J) -> finishes (c ← gets id; f c) K J.
Proof. intros H c k Hmid Hk. rewrite (bind_eval (gets id) _ c c c eq_refl). by apply (H c c k). Qed.

Lemma finishes_weaken m K J K' J' : finishes m K J -> K <= K' -> (J <= J')%nat -> finishes m K' J'.
Proof. intros Hm HK HJ c k Hmid Hk. apply (Hm c k); [by eapply midway_mono|lia]. Qed.

Lemma frame_nonneg ibs : 0 <= tail_words ibs.
Proof.
  unfold tail_words. pose proof fb_hdp_flush as [? _]. pose proof fb_hdp_invalidate as [? _].
  pose proof fb_cntxcntl as [? _]. pose proof fb_switch_buffer as [? _]. pose proof fb_fence_nonneg.
  pose proof fb_ib_nonneg. unfold words. destruct uf; nia.
Qed.

Lemma user_nonneg : 0 <= sz_fence fb_sizes * (if uf then 1 else 0).
Proof. pose proof fb_fence_nonneg. destruct uf; lia. Qed.

Lemma finishes_body ibs job vok fok x :
  (vok = false \/ fok = false -> why) -> 0 <= x -> (forall j, job = Some j -> (Z.to_nat (job_vm_id j) < nv)%nat) ->
  (forall j, job = Some j -> uf = false -> uf_addr j = 0) ->
  finishes (ib_schedule_body F gfx mec_fw ibs job vok fok x) (vm_words x + tail_words ibs) 2.
Proof.
  intros Hwhy Hx Hid Huf. pose proof (frame_nonneg ibs) as Hnn. pose proof fb_no_cond_exec as [Hinit Hpatch].
  pose proof fb_hdp_flush as [? _]. pose proof fb_hdp_invalidate as [Hhi Hhi'].
  pose proof fb_cntxcntl as [Hcc Hcc']. pose proof fb_switch_buffer as [Hsb Hsb']. pose proof fb_fence_nonneg as Hfe.
  assert (0 <= words (fmap ib_flags ibs) * get_emit_ib_size F) by (pose proof fb_ib_nonneg; unfold words; nia).
  assert (Huw : 0 <= sz_fence fb_sizes * (if uf then 1 else 0)) by apply user_nonneg.
  unfold ib_schedule_body. rewrite Hinit, Hpatch. apply finishes_gets. intros c.
  eapply finishes_free; [pose proof (vm_nonneg x Hx); lia|by apply (spends_ret _ (fun _ => True))|intros off _].
  change 2%nat with (1 + 1)%nat.
  eapply finishes_bind; [done|by apply spends_vm_part|intros e He].
  destruct (Z.eqb_spec e 0) as [->|Hne]; cbn [negb].
  2:{ eapply finishes_weaken; [apply finishes_undo; destruct He as [|[]]; [done|auto]|done|lia]. }
  unfold tail_words. change 1%nat with (0 + 1)%nat.
  eapply finishes_bind; [lia|apply spends_opt, fb_hdp_flush|intros _ _].
  eapply finishes_free; [lia|apply spends_modify; by intros ? ? ? []|intros _ _].
  change 1%nat with (0 + 1)%nat. eapply (finishes_bind _ _ _ _ _ _ (fun _ => True)); [lia| |intros _ _].
  { destruct job; [|by apply spends_skip]. destruct (emit_cntxcntl F); [|by apply spends_skip].
    apply spends_writes. intros r _. apply Hcc'. }
  change 1%nat with (0 + 1)%nat. eapply finishes_bind; [lia|apply spends_ibs|intros _ _].
  change 1%nat with (0 + 1)%nat. eapply finishes_bind; [lia| |intros _ _].
  { apply spends_opt. split; [done|]. destruct (emit_hdp_invalidate F); [|done]. intros r _. apply Hhi'. }
  change 1%nat with (1 + 0)%nat.
  eapply finishes_bind; [lia|by apply spends_fence; [|intros; apply fb_fence]|intros rf Hrf].
  destruct (Z.eqb_spec rf.1 0) as [->|Hne]; cbn [negb].
  2:{ eapply (finishes_free _ _ _ _ (fun _ => True)); [lia| |intros _ _].
      - destruct job; [|by apply spends_ret]. destruct (negb _); [apply spends_vm_id|by apply spends_ret].
      - eapply finishes_weaken; [apply finishes_undo; destruct Hrf as [|[]]; [done|auto]|lia|lia]. }
  change 0%nat with (0 + 0)%nat. eapply finishes_bind; [lia|by apply spends_user_fence|intros _ _].
  eapply finishes_free; [lia|by apply (spends_ret _ (fun _ => True))|intros _ _].
  eapply finishes_free; [lia|apply spends_set_ctx|intros _ _].
  change 0%nat with (0 + 0)%nat. eapply finishes_bind; [lia| |intros _ _; apply finishes_commit].
  apply spends_opt. split; [done|]. destruct (emit_switch_buffer F); [|done]. intros r _. apply Hsb'.
Qed.
End engine.
End spending.

Lemma alloc_live p a ndw r : ring_idle p a r -> 0 <= ndw < 2147483648 -> roundup a ndw <= max_dw r ->
  live p a (roundup a ndw) r 0 (set_use (in_use r + 1) (set_reserved (roundup a ndw) (wptr r) r)).
Proof.
  intros (Hs & Hal & Ho) Hn Hge. destruct (roundup_bounds a ltac:(destruct Hs; lia) ndw ltac:(lia)) as [Hb _].
  split; cbn; try done; try lia; [by destruct Hs|]. rewrite Z.add_0_r, Z.mod_small; [done|by destruct Hs].
Qed.

(** The requests [amdgpu_ib_schedule] must refuse: no buffers, a stopped ring,
    or an address space without a VMID. *)
Definition must_refuse (ibs : list amdgpu_ib) (job : option amdgpu_job) (r : amdgpu_ring) : bool :=
  bool_decide (ibs = []) || negb (ready r) ||
  match job with Some j => has_vm j && (job_vm_id j =? 0) | None => false end.

(** Every engine that keeps its [FrameBudget]. *)
Lemma ib_schedule_ok (F : amdgpu_ring_funcs) (uf : bool) (gfx : option Z) (mec_fw p a kk : Z)
    (n : nat) (ibs : list amdgpu_ib) (job : option amdgpu_job) (vok fok : bool) (c : gpu_ctx) :
  FrameBudget F (rtype (rg c)) uf -> ring_idle p a (rg c) -> fence_room kk n 2 (fs c) ->
  0 <= get_dma_frame_size F ->
  get_dma_frame_size F + words (fmap ib_flags ibs) * get_emit_ib_size F + 128 < 2147483648 ->
  (forall j, job = Some j -> (Z.to_nat (job_vm_id j) < length (vm_ids c))%nat) ->
  (forall j, job = Some j -> uf = false -> uf_addr j = 0) ->
  if must_refuse ibs job (rg c) then amdgpu_ib_schedule F gfx mec_fw ibs job vok fok c = Ok (- EINVAL, c)
  else exists e c', amdgpu_ib_schedule F gfx mec_fw ibs job vok fok c = Ok (e, c') /\
    finished p a (rg c) kk n e c' /\
    (e <> 0 -> max_dw (rg c) < roundup a (alloc_size F ibs job (rg c)) \/ vok = false \/ fok = false).
Proof.
  intros Hb Hidle Hroom Hf0 Hsmall Hid Huf. unfold amdgpu_ib_schedule.
  rewrite (bind_eval (gets id) _ c c c eq_refl). cbn [id]. unfold must_refuse. destruct ibs as [|ib ibs]; [done|].
  rewrite bool_decide_eq_false_2 by done. cbn [orb].
  destruct (negb (ready (rg c))); [done|]. cbn [orb]. destruct (match job with Some _ => _ | None => _ end); [done|].
  set (l := ib :: ibs) in *. set (x := extra_nop job (rg c)).
  assert (Hx : 0 <= x <= 128) by (unfold x, extra_nop; destruct job; [destruct (_ && _)|]; lia).
  assert (Hw : words (fmap ib_flags l) = Z.of_nat (length l)) by (unfold words; by rewrite length_fmap).
  pose proof fb_ib_nonneg as Hib. set (ndw := alloc_size F l job (rg c)).
  assert (Hn : ndw = get_dma_frame_size F + Z.of_nat (length l) * get_emit_ib_size F + x).
  { unfold ndw, alloc_size. fold x. rewrite Hw in Hsmall. rewrite !u32_small; unfold is_u32; try nia. rewrite u32_small; unfold is_u32; nia. }
  assert (Hnb : 0 <= ndw < 2147483648) by (rewrite Hn; nia).
  pose proof Hidle as (Hs & _ & _). pose proof (alloc_ok p a ndw (rg c) Hs Hnb) as Halloc.
  destruct (Z.ltb_spec (max_dw (rg c)) (roundup a ndw)) as [Hlt|Hge].
  { exists (- ENOMEM), c. split.
    - rewrite (bind_eval (on_ring _) _ c (- ENOMEM) c); [done|]. unfold on_ring. rewrite Halloc. by destruct c.
    - split; [|by left]. split_and!; try done; [by eapply fence_room_mono; [|done]; lia|right; done]. }
  destruct (roundup_bounds a ltac:(destruct Hs; lia) ndw ltac:(lia)) as [Hr Hrm].
  set (c1 := GpuCtx (set_use (in_use (rg c) + 1) (set_reserved (roundup a ndw) (wptr (rg c)) (rg c)))
    (fs c) (vm_ids c) (gpu_reset_counter c) (cond_exe c)).
  rewrite (bind_eval (on_ring _) _ c 0 c1) by (unfold on_ring; by rewrite Halloc). cbn [Z.eqb negb].
  assert (midway p a (roundup a ndw) (rg c) kk n (length (vm_ids c)) 0 2 c1) as Hmid
    by (split; [by apply alloc_live|done|done]).
  destruct (finishes_body p a (roundup a ndw) (rg c) kk n (length (vm_ids c)) Hge F uf gfx mec_fw (vok = false \/ fok = false) Hidle Hrm
    l job vok fok x ltac:(auto) ltac:(lia) Hid Huf c1 0 Hmid) as (e & c' & Hrun & Hfin & Hwhy).
  - pose proof fb_frame as Hframe. unfold vm_words, tail_words. rewrite Hw. cbn [rg] in *. lia.
  - exists e, c'. split_and!; [done|done|]. intros He. right. auto.
Qed.
