(* ===== verification/Engines.v ===== *)
(** * The engines of the Volcanic Islands parts

    The commands that the DMA ([amdgpu/sdma_v3_0.c]), graphics and compute
    ([amdgpu/gfx_v8_0.c]), decode ([amdgpu/uvd_v6_0.c]) and encode
    ([amdgpu/vce_v3_0.c], [amdgpu/amdgpu_vce.c]) engines emit, word by word, and
    the buffers of the older graphics engine ([amdgpu/gfx_v7_0.c]).  Register
    numbers are those of [include/asic_reg]; [amdgpu_ring_write] truncates a
    word to 32 bits. *)

From stdpp Require Import base numbers list.
From S2P Require Import Prelude CMonad Fence Ring IbSchedule.

Definition lower_32_bits (x : Z) : Z := u32 x.
Definition upper_32_bits (x : Z) : Z := u32 (Z.shiftr x 32).
Notation "a .| b" := (Z.lor a b) (at level 50, left associativity).
Notation "a .<< b" := (Z.shiftl a b) (at level 45, left associativity).

Definition PACKET0 (reg n : Z) : Z := Z.land reg 65535 .| (Z.land n 16383 .<< 16).
Definition PACKET3 (op n : Z) : Z := (3 .<< 30) .| (Z.land op 255 .<< 8) .| (Z.land n 16383 .<< 16).

Definition mmGPU_HDP_FLUSH_REQ : Z := 0x1537.
Definition mmGPU_HDP_FLUSH_DONE : Z := 0x1538.
Definition mmHDP_DEBUG0 : Z := 0xbcc.
Definition mmHDP_MEM_COHERENCY_FLUSH_CNTL : Z := 0x1520.
Definition mmVM_CONTEXT0_PAGE_TABLE_BASE_ADDR : Z := 0x54f.
Definition mmVM_CONTEXT8_PAGE_TABLE_BASE_ADDR : Z := 0x50e.
Definition mmVM_INVALIDATE_REQUEST : Z := 0x51e.

(** The page-table base register of a VMID. *)
Definition vm_base_reg (vm_id : Z) : Z :=
  if vm_id <? 8 then mmVM_CONTEXT0_PAGE_TABLE_BASE_ADDR + vm_id
  else mmVM_CONTEXT8_PAGE_TABLE_BASE_ADDR + vm_id - 8.

(** ** SDMA 3.0 *)
Module Sdma.

Definition SDMA_OP_INDIRECT : Z := 4.
Definition SDMA_OP_FENCE : Z := 5.
Definition SDMA_OP_TRAP : Z := 6.
Definition SDMA_OP_POLL_REGMEM : Z := 8.
Definition SDMA_OP_SRBM_WRITE : Z := 14.
Definition header_op (x : Z) : Z := Z.land x 255.
Definition srbm_write : Z := header_op SDMA_OP_SRBM_WRITE .| (Z.land 15 15 .<< 28).
Definition poll_header (hdp_flush func mem : Z) : Z :=
  header_op SDMA_OP_POLL_REGMEM .| (Z.land hdp_flush 1 .<< 26) .| (Z.land func 7 .<< 28) .| (Z.land mem 1 .<< 31).
Definition poll_dw5 (interval : Z) : Z := (Z.land 0xfff 0xfff .<< 16) .| Z.land interval 0xffff.

Section sdma.
Context (instance : Z) (burst_nop : bool).

Definition sdma_v3_0_ring_insert_nop (r : amdgpu_ring) (count : Z) : list Z :=
  map (fun i => if burst_nop && Nat.eqb i 0 then nop r .| (Z.land (u32 (count - 1)) 0x3fff .<< 16) else nop r)
    (seq 0 (Z.to_nat count)).

Definition sdma_v3_0_ring_emit_ib (r : amdgpu_ring) (ib : amdgpu_ib) (vm_id : Z) (ctx_switch : bool) : list Z :=
  let vmid := Z.land vm_id 15 in
  sdma_v3_0_ring_insert_nop r ((10 - Z.land (wptr r) 7) mod 8) ++
  [ header_op SDMA_OP_INDIRECT .| (Z.land vmid 15 .<< 16);
    Z.land (lower_32_bits (ib_gpu_addr ib)) 0xffffffe0;
    upper_32_bits (ib_gpu_addr ib);
    ib_length_dw ib; 0; 0 ].

Definition sdma_v3_0_ring_emit_hdp_flush (r : amdgpu_ring) : list Z :=
  let ref_and_mask := if instance =? 0 then 1 .<< 10 else 1 .<< 11 in
  [ header_op SDMA_OP_POLL_REGMEM .| (1 .<< 26) .| (3 .<< 28);
    mmGPU_HDP_FLUSH_DONE .<< 2; mmGPU_HDP_FLUSH_REQ .<< 2;
    ref_and_mask; ref_and_mask; poll_dw5 10 ].

Definition sdma_v3_0_ring_emit_hdp_invalidate (r : amdgpu_ring) : list Z :=
  [ srbm_write; mmHDP_DEBUG0; 1 ].

Definition sdma_v3_0_ring_emit_fence (r : amdgpu_ring) (addr seq flags : Z) : list Z :=
  [ header_op SDMA_OP_FENCE; lower_32_bits addr; upper_32_bits addr; lower_32_bits seq ] ++
  (if has_flag flags AMDGPU_FENCE_FLAG_64BIT then
     let addr := u64 (addr + 4) in
     [ header_op SDMA_OP_FENCE; lower_32_bits addr; upper_32_bits addr; upper_32_bits seq ]
   else []) ++
  [ header_op SDMA_OP_TRAP; 0 ].

(** The mask the engine applies to the fence word before it compares it. *)
Definition sync_mask : Z := 0xfffffff.

Definition sdma_v3_0_ring_emit_pipeline_sync (r : amdgpu_ring) (seq addr : Z) : list Z :=
  [ poll_header 0 3 1; Z.land addr 0xfffffffc; Z.land (upper_32_bits addr) 0xffffffff;
    seq; sync_mask; poll_dw5 4 ].

Definition sdma_v3_0_ring_emit_vm_flush (r : amdgpu_ring) (vm_id pd_addr : Z) : list Z :=
  [ srbm_write; vm_base_reg vm_id; Z.shiftr pd_addr 12;
    srbm_write; mmVM_INVALIDATE_REQUEST; 1 .<< vm_id;
    poll_header 0 0 0; mmVM_INVALIDATE_REQUEST .<< 2; 0; 0; 0; poll_dw5 10 ].

Definition sdma_v3_0_ring_get_emit_ib_size : Z := 7 + 6.
Definition sdma_v3_0_ring_get_dma_frame_size : Z := 6 + 3 + 6 + 12 + 10 + 10 + 10.

Definition sdma_v3_0_ring_funcs : amdgpu_ring_funcs :=
  RingFuncs sdma_v3_0_ring_emit_ib sdma_v3_0_ring_emit_fence
    (Some sdma_v3_0_ring_emit_pipeline_sync) (Some sdma_v3_0_ring_emit_vm_flush)
    (Some sdma_v3_0_ring_emit_hdp_flush) (Some sdma_v3_0_ring_emit_hdp_invalidate) None
    sdma_v3_0_ring_insert_nop None None None None
    sdma_v3_0_ring_get_emit_ib_size sdma_v3_0_ring_get_dma_frame_size.
End sdma.
End Sdma.

(** ** Graphics and compute 8.0 *)
Module Gfx.

Definition PACKET3_CONTEXT_CONTROL : Z := 0x28.
Definition PACKET3_INDIRECT_BUFFER_CONST : Z := 0x33.
Definition PACKET3_WRITE_DATA : Z := 0x37.
Definition PACKET3_WAIT_REG_MEM : Z := 0x3c.
Definition PACKET3_INDIRECT_BUFFER : Z := 0x3f.
Definition PACKET3_PFP_SYNC_ME : Z := 0x42.
Definition PACKET3_EVENT_WRITE_EOP : Z := 0x47.
Definition PACKET3_RELEASE_MEM : Z := 0x49.
Definition PACKET3_SWITCH_BUFFER : Z := 0x8b.
Definition WR_CONFIRM : Z := 1 .<< 20.
Definition INDIRECT_BUFFER_VALID : Z := 1 .<< 23.
Definition WRITE_DATA_DST_SEL (x : Z) : Z := x .<< 8.
Definition WRITE_DATA_ENGINE_SEL (x : Z) : Z := x .<< 30.
Definition WAIT_REG_MEM_FUNCTION (x : Z) : Z := x.
Definition WAIT_REG_MEM_MEM_SPACE (x : Z) : Z := x .<< 4.
Definition WAIT_REG_MEM_OPERATION (x : Z) : Z := x .<< 6.
Definition WAIT_REG_MEM_ENGINE (x : Z) : Z := x .<< 8.
Definition DATA_SEL (x : Z) : Z := x .<< 29.
Definition INT_SEL (x : Z) : Z := x .<< 24.
(** The cache actions and the event of a fence: TCL1, TC, TC write-back,
    [CACHE_FLUSH_AND_INV_TS_EVENT], event index 5. *)
Definition eop_event : Z := (1 .<< 16) .| (1 .<< 17) .| (1 .<< 15) .| 0x14 .| (5 .<< 8).

Definition usepfp (r : amdgpu_ring) : Z := if is_gfx r then 1 else 0.

(** [amdgpu_gds_reg_offset]: the registers of the 16 VMIDs are laid out
    regularly. *)
Definition gds_mem_base (vmid : Z) : Z := 0x3300 + 2 * vmid.
Definition gds_mem_size (vmid : Z) : Z := 0x3301 + 2 * vmid.
Definition gds_gws (vmid : Z) : Z := 0x3320 + vmid.
Definition gds_oa (vmid : Z) : Z := 0x3330 + vmid.

Definition write_data (reg v : Z) : list Z :=
  [ PACKET3 PACKET3_WRITE_DATA 3; WRITE_DATA_ENGINE_SEL 0 .| WRITE_DATA_DST_SEL 0; reg; 0; v ].

Definition gfx_v8_0_ring_emit_gds_switch (r : amdgpu_ring) (vmid : Z) (g : gds_state) : list Z :=
  let gds_base := Z.shiftr (gds_base g) 2 in
  let gds_size := Z.shiftr (gds_size g) 2 in
  let gws_base := Z.shiftr (gws_base g) 12 in
  let gws_size := Z.shiftr (gws_size g) 12 in
  let oa_base := Z.shiftr (oa_base g) 12 in
  let oa_size := Z.shiftr (oa_size g) 12 in
  write_data (gds_mem_base vmid) gds_base ++
  write_data (gds_mem_size vmid) gds_size ++
  write_data (gds_gws vmid) ((gws_size .<< 16) .| gws_base) ++
  write_data (gds_oa vmid) ((1 .<< (oa_size + oa_base)) - (1 .<< oa_base)).

Definition gfx_v8_0_ring_emit_hdp_flush (r : amdgpu_ring) : list Z :=
  let packet ref_and_mask reg_mem_engine :=
    [ PACKET3 PACKET3_WAIT_REG_MEM 5;
      WAIT_REG_MEM_OPERATION 1 .| WAIT_REG_MEM_FUNCTION 3 .| reg_mem_engine;
      mmGPU_HDP_FLUSH_REQ; mmGPU_HDP_FLUSH_DONE; ref_and_mask; ref_and_mask; 0x20 ] in
  match rtype r with
  | RING_COMPUTE =>
      if me r =? 1 then packet (0x4 .<< pipe r) 0
      else if me r =? 2 then packet (0x40 .<< pipe r) 0
      else []
  | _ => packet 0x1 (WAIT_REG_MEM_ENGINE 1)
  end.

Definition gfx_v8_0_ring_emit_hdp_invalidate (r : amdgpu_ring) : list Z :=
  [ PACKET3 PACKET3_WRITE_DATA 3; WRITE_DATA_ENGINE_SEL 0 .| WRITE_DATA_DST_SEL 0 .| WR_CONFIRM;
    mmHDP_DEBUG0; 0; 1 ].

Definition gfx_v8_0_ring_emit_ib_gfx (r : amdgpu_ring) (ib : amdgpu_ib) (vm_id : Z) (ctx_switch : bool) : list Z :=
  let header := if has_flag (ib_flags ib) AMDGPU_IB_FLAG_CE then PACKET3 PACKET3_INDIRECT_BUFFER_CONST 2
                else PACKET3 PACKET3_INDIRECT_BUFFER 2 in
  let control := ib_length_dw ib .| (vm_id .<< 24) in
  [ header; Z.land (ib_gpu_addr ib) 0xfffffffc; Z.land (upper_32_bits (ib_gpu_addr ib)) 0xffff; control ].

Definition gfx_v8_0_ring_emit_ib_compute (r : amdgpu_ring) (ib : amdgpu_ib) (vm_id : Z) (ctx_switch : bool) : list Z :=
  let control := INDIRECT_BUFFER_VALID .| ib_length_dw ib .| (vm_id .<< 24) in
  [ PACKET3 PACKET3_INDIRECT_BUFFER 2; Z.land (ib_gpu_addr ib) 0xfffffffc;
    Z.land (upper_32_bits (ib_gpu_addr ib)) 0xffff; control ].

Definition fence_sel (flags : Z) : Z :=
  DATA_SEL (if has_flag flags AMDGPU_FENCE_FLAG_64BIT then 2 else 1) .|
  INT_SEL (if has_flag flags AMDGPU_FENCE_FLAG_INT then 2 else 0).

Definition gfx_v8_0_ring_emit_fence_gfx (r : amdgpu_ring) (addr seq flags : Z) : list Z :=
  [ PACKET3 PACKET3_EVENT_WRITE_EOP 4; eop_event; Z.land addr 0xfffffffc;
    Z.land (upper_32_bits addr) 0xffff .| fence_sel flags; lower_32_bits seq; upper_32_bits seq ].

Definition gfx_v8_0_ring_emit_fence_compute (r : amdgpu_ring) (addr seq flags : Z) : list Z :=
  [ PACKET3 PACKET3_RELEASE_MEM 5; eop_event; fence_sel flags; Z.land addr 0xfffffffc; upper_32_bits addr;
    lower_32_bits seq; upper_32_bits seq ].

Definition gfx_v8_0_ring_emit_pipeline_sync (r : amdgpu_ring) (seq addr : Z) : list Z :=
  [ PACKET3 PACKET3_WAIT_REG_MEM 5;
    WAIT_REG_MEM_MEM_SPACE 1 .| WAIT_REG_MEM_FUNCTION 3 .| WAIT_REG_MEM_ENGINE (usepfp r);
    Z.land addr 0xfffffffc; Z.land (upper_32_bits addr) 0xffffffff; seq; 0xffffffff; 4 ].

Definition gfx_v8_0_ring_emit_vm_flush (r : amdgpu_ring) (vm_id pd_addr : Z) : list Z :=
  (if is_gfx r then amdgpu_ring_insert_nop r 128 else []) ++
  [ PACKET3 PACKET3_WRITE_DATA 3; WRITE_DATA_ENGINE_SEL (usepfp r) .| WRITE_DATA_DST_SEL 0 .| WR_CONFIRM;
    vm_base_reg vm_id; 0; Z.shiftr pd_addr 12 ] ++
  write_data mmVM_INVALIDATE_REQUEST (1 .<< vm_id) ++
  [ PACKET3 PACKET3_WAIT_REG_MEM 5;
    WAIT_REG_MEM_OPERATION 0 .| WAIT_REG_MEM_FUNCTION 0 .| WAIT_REG_MEM_ENGINE 0;
    mmVM_INVALIDATE_REQUEST; 0; 0; 0; 0x20 ] ++
  (if is_gfx r then [ PACKET3 PACKET3_PFP_SYNC_ME 0; 0 ] ++ amdgpu_ring_insert_nop r 128 else []).

Definition gfx_v8_ring_emit_sb (r : amdgpu_ring) : list Z := [ PACKET3 PACKET3_SWITCH_BUFFER 0; 0 ].

Definition gfx_v8_ring_emit_cntxcntl (r : amdgpu_ring) (flags : Z) : list Z :=
  let dw2 := 0x80000000 in
  let dw2 :=
    if has_flag flags AMDGPU_HAVE_CTX_SWITCH then
      let dw2 := dw2 .| 0x8001 .| 0x01000000 .| 0x10002 in
      if has_flag flags AMDGPU_PREAMBLE_IB_PRESENT then dw2 .| 0x10000000 else dw2
    else if has_flag flags AMDGPU_PREAMBLE_IB_PRESENT_FIRST then dw2 .| 0x10000000 else dw2 in
  [ PACKET3 PACKET3_CONTEXT_CONTROL 1; dw2; 0 ].

Definition gfx_v8_0_ring_get_emit_ib_size_gfx : Z := 4.
Definition gfx_v8_0_ring_get_dma_frame_size_gfx : Z := 20 + 7 + 5 + 6 + 6 + 6 + 7 + 256 + 19 + 2 + 3.
Definition gfx_v8_0_ring_get_emit_ib_size_compute : Z := 4.
Definition gfx_v8_0_ring_get_dma_frame_size_compute : Z := 20 + 7 + 5 + 7 + 17 + 7 + 7 + 7.

Definition gfx_v8_0_ring_funcs_gfx : amdgpu_ring_funcs :=
  RingFuncs gfx_v8_0_ring_emit_ib_gfx gfx_v8_0_ring_emit_fence_gfx
    (Some gfx_v8_0_ring_emit_pipeline_sync) (Some gfx_v8_0_ring_emit_vm_flush)
    (Some gfx_v8_0_ring_emit_hdp_flush) (Some gfx_v8_0_ring_emit_hdp_invalidate)
    (Some gfx_v8_0_ring_emit_gds_switch) amdgpu_ring_insert_nop None None
    (Some gfx_v8_ring_emit_sb) (Some gfx_v8_ring_emit_cntxcntl)
    gfx_v8_0_ring_get_emit_ib_size_gfx gfx_v8_0_ring_get_dma_frame_size_gfx.

Definition gfx_v8_0_ring_funcs_compute : amdgpu_ring_funcs :=
  RingFuncs gfx_v8_0_ring_emit_ib_compute gfx_v8_0_ring_emit_fence_compute
    (Some gfx_v8_0_ring_emit_pipeline_sync) (Some gfx_v8_0_ring_emit_vm_flush)
    (Some gfx_v8_0_ring_emit_hdp_flush) (Some gfx_v8_0_ring_emit_hdp_invalidate)
    (Some gfx_v8_0_ring_emit_gds_switch) amdgpu_ring_insert_nop None None None None
    gfx_v8_0_ring_get_emit_ib_size_compute gfx_v8_0_ring_get_dma_frame_size_compute.

(** The buffers of the graphics engine 7.0, which begins a frame of another
    context with a SWITCH_BUFFER packet. *)
Definition gfx_v7_0_ring_emit_ib_gfx (r : amdgpu_ring) (ib : amdgpu_ib) (vm_id : Z) (ctx_switch : bool) : list Z :=
  (if ctx_switch then [ PACKET3 PACKET3_SWITCH_BUFFER 0; 0 ] else []) ++
  gfx_v8_0_ring_emit_ib_gfx r ib vm_id ctx_switch.
Definition gfx_v7_0_ring_get_emit_ib_size_gfx : Z := 4.
End Gfx.

(** ** UVD 6.0 and VCE 3.0 *)
Module Video.

Definition mmUVD_CONTEXT_ID : Z := 0x3dbd.
Definition mmUVD_GPCOM_VCPU_DATA0 : Z := 0x3bc4.
Definition mmUVD_GPCOM_VCPU_DATA1 : Z := 0x3bc5.
Definition mmUVD_GPCOM_VCPU_CMD : Z := 0x3bc3.
Definition mmUVD_LMI_RBC_IB_VMID : Z := 0x3da1.
Definition mmUVD_LMI_RBC_IB_64BIT_BAR_LOW : Z := 0x3c67.
Definition mmUVD_LMI_RBC_IB_64BIT_BAR_HIGH : Z := 0x3c66.
Definition mmUVD_RBC_IB_SIZE : Z := 0x3da2.
Definition mmUVD_GP_SCRATCH8 : Z := 0x3c0a.
Definition mmUVD_GP_SCRATCH9 : Z := 0x3c0b.

(** [PACKET0 (reg, 0)] followed by a value. *)
Definition set_reg (reg v : Z) : list Z := [ PACKET0 reg 0; v ].

Definition uvd_v6_0_ring_emit_fence (r : amdgpu_ring) (addr seq flags : Z) : list Z :=
  set_reg mmUVD_CONTEXT_ID seq ++
  set_reg mmUVD_GPCOM_VCPU_DATA0 (Z.land addr 0xffffffff) ++
  set_reg mmUVD_GPCOM_VCPU_DATA1 (Z.land (upper_32_bits addr) 0xff) ++
  set_reg mmUVD_GPCOM_VCPU_CMD 0 ++
  set_reg mmUVD_GPCOM_VCPU_DATA0 0 ++ set_reg mmUVD_GPCOM_VCPU_DATA1 0 ++ set_reg mmUVD_GPCOM_VCPU_CMD 2.

Definition uvd_v6_0_ring_emit_hdp_flush (r : amdgpu_ring) : list Z := set_reg mmHDP_MEM_COHERENCY_FLUSH_CNTL 0.
Definition uvd_v6_0_ring_emit_hdp_invalidate (r : amdgpu_ring) : list Z := set_reg mmHDP_DEBUG0 1.

Definition uvd_v6_0_ring_emit_ib (r : amdgpu_ring) (ib : amdgpu_ib) (vm_id : Z) (ctx_switch : bool) : list Z :=
  set_reg mmUVD_LMI_RBC_IB_VMID vm_id ++
  set_reg mmUVD_LMI_RBC_IB_64BIT_BAR_LOW (lower_32_bits (ib_gpu_addr ib)) ++
  set_reg mmUVD_LMI_RBC_IB_64BIT_BAR_HIGH (upper_32_bits (ib_gpu_addr ib)) ++
  set_reg mmUVD_RBC_IB_SIZE (ib_length_dw ib).

Definition uvd_v6_0_ring_emit_vm_flush (r : amdgpu_ring) (vm_id pd_addr : Z) : list Z :=
  set_reg mmUVD_GPCOM_VCPU_DATA0 (vm_base_reg vm_id .<< 2) ++
  set_reg mmUVD_GPCOM_VCPU_DATA1 (Z.shiftr pd_addr 12) ++ set_reg mmUVD_GPCOM_VCPU_CMD 0x8 ++
  set_reg mmUVD_GPCOM_VCPU_DATA0 (mmVM_INVALIDATE_REQUEST .<< 2) ++
  set_reg mmUVD_GPCOM_VCPU_DATA1 (1 .<< vm_id) ++ set_reg mmUVD_GPCOM_VCPU_CMD 0x8 ++
  set_reg mmUVD_GPCOM_VCPU_DATA0 (mmVM_INVALIDATE_REQUEST .<< 2) ++
  set_reg mmUVD_GPCOM_VCPU_DATA1 0 ++ set_reg mmUVD_GP_SCRATCH8 (1 .<< vm_id) ++
  set_reg mmUVD_GPCOM_VCPU_CMD 0xc.

Definition uvd_v6_0_ring_emit_pipeline_sync (r : amdgpu_ring) (seq addr : Z) : list Z :=
  set_reg mmUVD_GPCOM_VCPU_DATA0 (lower_32_bits addr) ++ set_reg mmUVD_GPCOM_VCPU_DATA1 (upper_32_bits addr) ++
  set_reg mmUVD_GP_SCRATCH8 0xffffffff ++ set_reg mmUVD_GP_SCRATCH9 seq ++ set_reg mmUVD_GPCOM_VCPU_CMD 0xe.

Definition uvd_v6_0_ring_get_emit_ib_size : Z := 8.
Definition uvd_v6_0_ring_get_dma_frame_size : Z := 2 + 2 + 10 + 14.
Definition uvd_v6_0_ring_get_dma_frame_size_vm : Z := 2 + 2 + 10 + 20 + 14 + 14.

Definition uvd_v6_0_ring_phys_funcs : amdgpu_ring_funcs :=
  RingFuncs uvd_v6_0_ring_emit_ib uvd_v6_0_ring_emit_fence None None
    (Some uvd_v6_0_ring_emit_hdp_flush) (Some uvd_v6_0_ring_emit_hdp_invalidate) None
    amdgpu_ring_insert_nop None None None None
    uvd_v6_0_ring_get_emit_ib_size uvd_v6_0_ring_get_dma_frame_size.
Definition uvd_v6_0_ring_vm_funcs : amdgpu_ring_funcs :=
  RingFuncs uvd_v6_0_ring_emit_ib uvd_v6_0_ring_emit_fence
    (Some uvd_v6_0_ring_emit_pipeline_sync) (Some uvd_v6_0_ring_emit_vm_flush)
    (Some uvd_v6_0_ring_emit_hdp_flush) (Some uvd_v6_0_ring_emit_hdp_invalidate) None
    amdgpu_ring_insert_nop None None None None
    uvd_v6_0_ring_get_emit_ib_size uvd_v6_0_ring_get_dma_frame_size_vm.

Definition VCE_CMD_END : Z := 0x1.
Definition VCE_CMD_IB : Z := 0x2.
Definition VCE_CMD_FENCE : Z := 0x3.
Definition VCE_CMD_TRAP : Z := 0x4.
Definition VCE_CMD_IB_VM : Z := 0x102.
Definition VCE_CMD_WAIT_GE : Z := 0x106.
Definition VCE_CMD_UPDATE_PTB : Z := 0x107.
Definition VCE_CMD_FLUSH_TLB : Z := 0x108.

Definition amdgpu_vce_ring_emit_ib (r : amdgpu_ring) (ib : amdgpu_ib) (vm_id : Z) (ctx_switch : bool) : list Z :=
  [ VCE_CMD_IB; lower_32_bits (ib_gpu_addr ib); upper_32_bits (ib_gpu_addr ib); ib_length_dw ib ].
Definition amdgpu_vce_ring_emit_fence (r : amdgpu_ring) (addr seq flags : Z) : list Z :=
  [ VCE_CMD_FENCE; addr; upper_32_bits addr; seq; VCE_CMD_TRAP; VCE_CMD_END ].
Definition vce_v3_0_ring_emit_ib (r : amdgpu_ring) (ib : amdgpu_ib) (vm_id : Z) (ctx_switch : bool) : list Z :=
  [ VCE_CMD_IB_VM; vm_id; lower_32_bits (ib_gpu_addr ib); upper_32_bits (ib_gpu_addr ib); ib_length_dw ib ].
Definition vce_v3_0_emit_vm_flush (r : amdgpu_ring) (vm_id pd_addr : Z) : list Z :=
  [ VCE_CMD_UPDATE_PTB; vm_id; Z.shiftr pd_addr 12; VCE_CMD_FLUSH_TLB; vm_id; VCE_CMD_END ].
Definition vce_v3_0_emit_pipeline_sync (r : amdgpu_ring) (seq addr : Z) : list Z :=
  [ VCE_CMD_WAIT_GE; lower_32_bits addr; upper_32_bits addr; seq ].

Definition vce_v3_0_ring_get_emit_ib_size : Z := 5.
Definition vce_v3_0_ring_get_dma_frame_size : Z := 4 + 6.
Definition vce_v3_0_ring_get_dma_frame_size_vm : Z := 6 + 4 + 6 + 6.

Definition vce_v3_0_ring_phys_funcs : amdgpu_ring_funcs :=
  RingFuncs amdgpu_vce_ring_emit_ib amdgpu_vce_ring_emit_fence None None None None None
    amdgpu_ring_insert_nop None None None None
    vce_v3_0_ring_get_emit_ib_size vce_v3_0_ring_get_dma_frame_size.
Definition vce_v3_0_ring_vm_funcs : amdgpu_ring_funcs :=
  RingFuncs vce_v3_0_ring_emit_ib amdgpu_vce_ring_emit_fence
    (Some vce_v3_0_emit_pipeline_sync) (Some vce_v3_0_emit_vm_flush) None None None
    amdgpu_ring_insert_nop None None None None
    vce_v3_0_ring_get_emit_ib_size vce_v3_0_ring_get_dma_frame_size_vm.
End Video.
