(* ===== verification/EnginesSpec.v ===== *)
(** * The engines keep their frame budgets

    Each engine's operations emit no more words than its frame size accounts
    for, so submissions on every ring of a Volcanic Islands device stay within
    their reservations. *)

From stdpp Require Import base numbers list relations.
From S2P Require Import Prelude CMonad Fence FenceInv FenceSpec Ring RingSpec IbSchedule IbSpec Engines.

(** The rings of a device; UVD and VCE use physical addresses or a VM. *)
Inductive vi_engine :=
  | ESdma (inst : Z) (burst_nop : bool)
  | EGfx
  | ECompute
  | EUvd (vm : bool)
  | EVce (vm : bool).

Definition engine_funcs (e : vi_engine) : amdgpu_ring_funcs :=
  match e with
  | ESdma i b => Sdma.sdma_v3_0_ring_funcs i b
  | EGfx => Gfx.gfx_v8_0_ring_funcs_gfx
  | ECompute => Gfx.gfx_v8_0_ring_funcs_compute
  | EUvd vm => if vm then Video.uvd_v6_0_ring_vm_funcs else Video.uvd_v6_0_ring_phys_funcs
  | EVce vm => if vm then Video.vce_v3_0_ring_vm_funcs else Video.vce_v3_0_ring_phys_funcs
  end.
Definition engine_type (e : vi_engine) : amdgpu_ring_type :=
  match e with
  | ESdma _ _ => RING_SDMA | EGfx => RING_GFX | ECompute => RING_COMPUTE
  | EUvd _ => RING_UVD | EVce _ => RING_VCE
  end.
(** The video engines have no user fences. *)
Definition engine_user_fence (e : vi_engine) : bool :=
  match e with EUvd _ | EVce _ => false | _ => true end.

#[global] Instance sdma_filler b : NopFiller (Sdma.sdma_v3_0_ring_insert_nop b).
Proof. intros r c Hc. unfold Sdma.sdma_v3_0_ring_insert_nop. rewrite length_map, length_seq. lia. Qed.

Ltac frame_size :=
  cbn; intros; unfold words; cbn; unfold Gfx.gfx_v8_0_ring_emit_hdp_flush;
  repeat match goal with
  | |- _ <= ?n => is_const n; let v := eval vm_compute in n in change n with v
  end; cbn;
  repeat (case_match; cbn); rewrite ?length_app, ?length_replicate; cbn; try congruence; lia.

Ltac budget_field := first [solve [split; [done|frame_size]]|solve [frame_size]|solve [split; reflexivity]|match goal with |- _ <= _ => vm_compute; discriminate end].

#[global] Instance sdma_budget i b : FrameBudget (Sdma.sdma_v3_0_ring_funcs i b) RING_SDMA true.
Proof.
  refine {| fb_sizes := FrameSizes 6 3 6 12 0 0 0 10 |}; try budget_field.
  intros r ib v c _. unfold words. cbn. unfold Sdma.sdma_v3_0_ring_emit_ib, Sdma.sdma_v3_0_ring_get_emit_ib_size.
  rewrite length_app, Nat2Z.inj_add, nop_length by (apply Z.mod_pos_bound; lia).
  pose proof (Z.mod_pos_bound (10 - Z.land (wptr r) 7) 8 ltac:(lia)). cbn. lia.
Defined.

(** The graphics engine's flush, with its nops. *)
Lemma gfx_flush_size r v x : words (Gfx.gfx_v8_0_ring_emit_vm_flush r v x) = if is_gfx r then 275 else 17.
Proof. unfold words, Gfx.gfx_v8_0_ring_emit_vm_flush. destruct (is_gfx r); reflexivity. Qed.

#[global] Instance gfx_budget : FrameBudget Gfx.gfx_v8_0_ring_funcs_gfx RING_GFX true.
Proof.
  refine {| fb_sizes := FrameSizes 7 5 7 275 20 2 3 6 |}; try budget_field.
  split; [done|]. intros r v x Ht. change (words (Gfx.gfx_v8_0_ring_emit_vm_flush r v x) <= 275).
  rewrite gfx_flush_size. by destruct (is_gfx r).
Defined.

#[global] Instance compute_budget : FrameBudget Gfx.gfx_v8_0_ring_funcs_compute RING_COMPUTE true.
Proof.
  refine {| fb_sizes := FrameSizes 7 5 7 17 20 0 0 7 |}; try budget_field.
  split; [done|]. intros r v x Ht. change (words (Gfx.gfx_v8_0_ring_emit_vm_flush r v x) <= 17).
  rewrite gfx_flush_size. unfold is_gfx. by rewrite Ht.
Defined.

#[global] Instance uvd_budget vm : FrameBudget (engine_funcs (EUvd vm)) RING_UVD false.
Proof.
  destruct vm.
  - refine {| fb_sizes := FrameSizes 2 2 10 20 0 0 0 14 |}; try budget_field.
  - refine {| fb_sizes := FrameSizes 2 2 0 0 0 0 0 14 |}; try budget_field.
Defined.

#[global] Instance vce_budget vm : FrameBudget (engine_funcs (EVce vm)) RING_VCE false.
Proof.
  destruct vm.
  - refine {| fb_sizes := FrameSizes 0 0 4 6 0 0 0 6 |}; try budget_field.
  - refine {| fb_sizes := FrameSizes 0 0 0 0 0 0 0 6 |}; try budget_field.
Defined.

#[global] Instance engine_budget e : FrameBudget (engine_funcs e) (engine_type e) (engine_user_fence e).
Proof. destruct e; cbn [engine_type engine_user_fence]; apply _. Defined.


(** The DMA engine wants a buffer packet to end on a boundary of eight words:
    the nops in front of it see to that wherever the write pointer is. *)
Lemma sdma_ib_ends_on_boundary b r ib v c : 0 <= wptr r ->
  (wptr r + words (Sdma.sdma_v3_0_ring_emit_ib b r ib v c)) mod 8 = 0.
Proof.
  intros Hw. unfold words, Sdma.sdma_v3_0_ring_emit_ib. rewrite length_app, Nat2Z.inj_add.
  rewrite nop_length by (apply Z.mod_pos_bound; lia). change (Z.land (wptr r) 7) with (Z.land (wptr r) (2 ^ 3 - 1)).
  rewrite land_pow2 by lia. cbn [length Z.of_nat]. Z.div_mod_to_equations. lia.
Qed.

(** The older graphics engine accounts for four words per buffer and emits six
    for the first one of another context. *)
Lemma gfx_v7_ib_undercounted r ib v :
  words (Gfx.gfx_v7_0_ring_emit_ib_gfx r ib v true) = Gfx.gfx_v7_0_ring_get_emit_ib_size_gfx + 2.
Proof. reflexivity. Qed.

(** The mask of the DMA engine's pipeline synchronisation has 28 bits: it
    drops bits of every later sequence number. *)
Lemma sdma_sync_mask_short seq : 268435456 <= seq -> Z.land seq Sdma.sync_mask <> seq.
Proof.
  intros H E. change Sdma.sync_mask with (2 ^ 28 - 1) in E. rewrite land_pow2 in E by lia.
  pose proof (Z.mod_pos_bound seq (2 ^ 28) ltac:(lia)). lia.
Qed.

(** C30: on every ring of a Volcanic Islands device (DMA, graphics, compute,
    decode, encode), [amdgpu_ib_schedule] on an idle ring with room for two
    fences completes, whichever fence allocation fails.  A request without
    buffers, on a stopped ring, or with an address space but no VMID is refused
    with -EINVAL and changes nothing.  Any other request never writes more words
    than it has reserved and leaves the write pointer at a fetch boundary: on
    success the engine has been told about all of it; otherwise it returns
    -ENOMEM with the write pointer where it was, and this only when the
    reservation is larger than the ring's limit or a fence could not be
    allocated.  The job's VMID is one of the table, there are at most 2^24
    buffers, and a job of the decode and encode rings has no user fence (the
    submission ioctl refuses those). *)
Theorem submissions_fit_reservation (e : vi_engine) (gfx : option Z) (mec_fw p a kk : Z) (n : nat)
    (ibs : list amdgpu_ib) (job : option amdgpu_job) (vok fok : bool) (c : gpu_ctx) :
  rtype (rg c) = engine_type e -> ring_idle p a (rg c) -> fence_room kk n 2 (fs c) ->
  Z.of_nat (length ibs) <= 16777216 ->
  (forall j, job = Some j -> (Z.to_nat (job_vm_id j) < length (vm_ids c))%nat) ->
  (forall j, job = Some j -> engine_user_fence e = false -> uf_addr j = 0) ->
  if must_refuse ibs job (rg c)
  then amdgpu_ib_schedule (engine_funcs e) gfx mec_fw ibs job vok fok c = Ok (- EINVAL, c)
  else exists err c', amdgpu_ib_schedule (engine_funcs e) gfx mec_fw ibs job vok fok c = Ok (err, c') /\
    finished p a (rg c) kk n err c' /\
    (err <> 0 -> max_dw (rg c) < roundup a (alloc_size (engine_funcs e) ibs job (rg c)) \/ vok = false \/ fok = false).
Proof.
  intros Ht Hidle Hroom Hlen Hid Huf.
  assert (0 <= get_dma_frame_size (engine_funcs e) <= 512 /\ 0 <= get_emit_ib_size (engine_funcs e) <= 16) as [Hf Hi]
    by (destruct e as [| | |[]|[]]; vm_compute; by repeat split).
  apply (ib_schedule_ok (engine_funcs e) (engine_user_fence e)); try done; try lia.
  - rewrite Ht. apply _.
  - unfold words. rewrite length_fmap. nia.
Qed.

Definition demo_ctx : gpu_ctx :=
  let r := ring_geometry 1024 0xffff1000 255 2 RING_GFX in
  GpuCtx (Ring (ring r) 0 0 (ring_size r) 1024 0 255 (ptr_mask r) true (nop r) RING_GFX 0 0 7 0 0 false)
    (fence_start (2 ^ 1) 4096 0) (replicate 16 (VmId 0 gds_none None)) 0 0.
Definition demo_job : amdgpu_job := Job true 3 true 0x100000 (Gds 4 8 0 0 0 0) 9 1 0x8000 5.

Lemma submissions_fit_reservation_witness :
  exists c', amdgpu_ib_schedule (engine_funcs EGfx) (Some 8) 0 [Ib 16 0x2000 0; Ib 16 0x3000 1] (Some demo_job) true true
      demo_ctx = Ok (0, c') /\ finished 11 8 (rg demo_ctx) 2 4 0 c'.
Proof.
  pose proof (submissions_fit_reservation EGfx (Some 8) 0 11 8 2 4 [Ib 16 0x2000 0; Ib 16 0x3000 1] (Some demo_job) true true
    demo_ctx eq_refl) as H.
  destruct H as (err & c' & Hrun & H & _).
  - split; [by split; vm_compute|by split; vm_compute].
  - exists 0%nat, 0%nat, (fun _ => (0, 0)%nat), []. split; [exact (fence_start_inv 1 ltac:(lia) 4096 0)|split; [reflexivity|split; [reflexivity|vm_compute; lia]]].
  - vm_compute. discriminate.
  - intros j [= <-]. vm_compute. lia.
  - intros j [= <-]. discriminate.
  - assert (err = 0) as -> by (vm_compute in Hrun; congruence). exists c'. split; [exact Hrun|exact H].
Defined.
