(* ===== verification/VmEngine.v ===== *)
(** * Page-table packets of the DMA engine ([amdgpu/sdma_v3_0.c])

    Page tables are written by the DMA engine: the driver fills an indirect
    buffer with packets ([amdgpu_vm_pte_funcs]) and the engine executes them.
    GPU memory is a finite map of 32-bit words.  [PteEngine] is what the page
    table code relies on: the effect the comments of the three functions
    document, and the number of words they emit.  The instance executes the
    packets of SDMA 3.0 word by word, after the packet layout of
    [tonga_sdma_pkt_open.h]. *)

From stdpp Require Import base numbers list gmap option.
From S2P Require Import Prelude CMonad Engines.

(** ** GPU memory *)

(** The key of a word is its byte address divided by four. *)
Notation gpu_mem := (gmap Z Z).

Definition store (m : gpu_mem) (a : Z) (l : list Z) : gpu_mem := map_seqZ (a / 4) l ∪ m.
Definition load (m : gpu_mem) (a n : Z) : option (list Z) :=
  mapM (fun i => m !! (a / 4 + i)) (seqZ 0 n).

(** The two words of a 64-bit entry, and consecutive entries. *)
Definition halves (v : Z) : list Z := [lower_32_bits v; upper_32_bits v].
Definition entries (f : Z -> Z) (n : Z) : list Z := concat (map (fun i => halves (f i)) (seqZ 0 n)).
Definition addr64 (lo hi : Z) : Z := lo + 4294967296 * hi.

Lemma addr64_split v : is_u64 v -> addr64 (lower_32_bits v) (upper_32_bits v) = v.
Proof.
  intros Hv. unfold addr64, lower_32_bits, upper_32_bits.
  rewrite Z.shiftr_div_pow2 by lia. change (2 ^ 32) with 4294967296. cint.
Qed.

Lemma entries_ext f g n : (forall i, 0 <= i < n -> f i = g i) -> entries f n = entries g n.
Proof.
  intros H. unfold entries. f_equal. apply map_ext_in. intros i Hi.
  apply list_elem_of_In, elem_of_seqZ in Hi. by rewrite H by lia.
Qed.

Lemma entries_app f a b :
  0 <= a -> 0 <= b -> entries f (a + b) = entries f a ++ entries (fun i => f (a + i)) b.
Proof.
  intros Ha Hb. unfold entries. rewrite seqZ_app by lia. rewrite map_app, concat_app. f_equal.
  replace (0 + a) with (a + 0) by lia. rewrite <-fmap_add_seqZ. unfold fmap. by rewrite map_map.
Qed.

Lemma entries_cons f n : 0 < n -> entries f n = halves (f 0) ++ entries (fun i => f (i + 1)) (n - 1).
Proof.
  intros Hn. replace n with (1 + (n - 1)) at 1 by lia. rewrite entries_app by lia. f_equal.
  apply entries_ext. intros i _. f_equal. lia.
Qed.

Lemma entries_length f n : 0 <= n -> Z.of_nat (length (entries f n)) = 2 * n.
Proof.
  intros Hn. rewrite <-(Z2Nat.id n Hn). generalize (Z.to_nat n) as k. clear.
  intros k. induction k as [|k IH] in f |- *; [done|].
  rewrite entries_cons, length_app, Nat2Z.inj_add by lia.
  replace (Z.of_nat (S k) - 1) with (Z.of_nat k) by lia. rewrite IH. cbn. lia.
Qed.

Lemma store_nil m a : store m a [] = m.
Proof. unfold store. cbn [map_seqZ]. apply (left_id_L ∅ (∪)). Qed.

Lemma store_app m a l1 l2 :
  a mod 4 = 0 -> store m a (l1 ++ l2) = store (store m a l1) (a + 4 * Z.of_nat (length l1)) l2.
Proof.
  intros Ha. unfold store. rewrite map_seqZ_app.
  rewrite (map_union_comm (map_seqZ _ l1)) by apply map_seqZ_app_disjoint.
  rewrite <-map_union_assoc. f_equal.
  replace ((a + 4 * Z.of_nat (length l1)) / 4) with (a / 4 + Z.of_nat (length l1)); [done|].
  rewrite (Z.mul_comm 4), Z.div_add by lia. lia.
Qed.

(** ** The interface *)

(** [struct amdgpu_vm_pte_funcs] with [pad_ib] of the ring that executes the
    packets; each function is the list of words it appends to the buffer. *)
Record amdgpu_vm_pte_funcs := VmPteFuncs {
  copy_pte : forall (pe src count : Z), list Z;
  write_pte : forall (pe value count incr : Z), list Z;
  set_pte_pde : forall (pe addr count incr flags : Z), list Z;
  pad_ib : forall (length_dw : Z), list Z }.

Definition AMDGPU_VM_MAX_UPDATE_SIZE : Z := 0x3ffff.

Class PteEngine (F : amdgpu_vm_pte_funcs) (exec : list Z -> gpu_mem -> option gpu_mem) := {
  exec_nil m : exec [] m = Some m;
  exec_copy pe src n ws m l :
    is_u64 pe -> pe mod 8 = 0 -> is_u64 src -> src mod 4 = 0 -> 0 < n <= AMDGPU_VM_MAX_UPDATE_SIZE ->
    load m src (2 * n) = Some l ->
    exec (copy_pte F pe src n ++ ws) m = exec ws (store m pe l);
  exec_write pe v n incr ws m :
    is_u64 pe -> pe mod 8 = 0 -> 0 <= v -> 0 <= incr -> v + n * incr < 18446744073709551616 ->
    0 < n <= AMDGPU_VM_MAX_UPDATE_SIZE ->
    exec (write_pte F pe v n incr ++ ws) m = exec ws (store m pe (entries (fun i => v + i * incr) n));
  exec_set pe a n incr flags ws m :
    is_u64 pe -> pe mod 8 = 0 -> 0 <= a -> is_u32 incr -> a + n * incr < 18446744073709551616 ->
    is_u32 flags -> 0 < n <= AMDGPU_VM_MAX_UPDATE_SIZE ->
    exec (set_pte_pde F pe a n incr flags ++ ws) m =
    exec ws (store m pe (entries (fun i => Z.lor (a + i * incr) flags) n));
  exec_pad len m : exec (pad_ib F len) m = Some m;
  copy_length pe src n : Z.of_nat (length (copy_pte F pe src n)) <= 7;
  write_length pe v n incr : 0 <= n < 3 -> Z.of_nat (length (write_pte F pe v n incr)) <= 4 + 2 * n;
  set_length pe a n incr flags : Z.of_nat (length (set_pte_pde F pe a n incr flags)) <= 10;
  pad_length len : Z.of_nat (length (pad_ib F len)) <= 7 }.

(** ** SDMA 3.0 *)

Module SdmaPte.
Import Sdma.

Definition SDMA_OP_NOP : Z := 0.
Definition SDMA_OP_COPY : Z := 1.
Definition SDMA_OP_WRITE : Z := 2.
Definition SDMA_OP_GEN_PTEPDE : Z := 12.
Definition SDMA_SUBOP_COPY_LINEAR : Z := 0.
Definition header_sub_op (x : Z) : Z := Z.land x 255 .<< 8.
Definition nop_header_count (x : Z) : Z := Z.land x 0x3fff .<< 16.

Definition sdma_v3_0_vm_copy_pte (pe src count : Z) : list Z :=
  let bytes := u32 (count * 8) in
  [ header_op SDMA_OP_COPY .| header_sub_op SDMA_SUBOP_COPY_LINEAR; bytes; 0;
    lower_32_bits src; upper_32_bits src; lower_32_bits pe; upper_32_bits pe ].

(** The loop of [sdma_v3_0_vm_write_pte], one turn per entry. *)
Fixpoint write_values (n : nat) (value incr : Z) : list Z :=
  match n with
  | O => []
  | S n => lower_32_bits value :: upper_32_bits value :: write_values n (u64 (value + incr)) incr
  end.

Definition sdma_v3_0_vm_write_pte (pe value count incr : Z) : list Z :=
  let ndw := u32 (count * 2) in
  [ header_op SDMA_OP_WRITE .| header_sub_op SDMA_SUBOP_COPY_LINEAR;
    lower_32_bits pe; upper_32_bits pe; ndw ] ++ write_values (Z.to_nat (ndw / 2)) value incr.

Definition sdma_v3_0_vm_set_pte_pde (pe addr count incr flags : Z) : list Z :=
  [ header_op SDMA_OP_GEN_PTEPDE; lower_32_bits pe; upper_32_bits pe; flags; 0;
    lower_32_bits addr; upper_32_bits addr; incr; 0; count ].

Definition sdma_v3_0_ring_pad_ib (burst_nop : bool) (length_dw : Z) : list Z :=
  let pad_count := (8 - Z.land length_dw 7) mod 8 in
  map (fun i => if burst_nop && (i =? 0) then header_op SDMA_OP_NOP .| nop_header_count (pad_count - 1)
                else header_op SDMA_OP_NOP) (seqZ 0 pad_count).

Definition sdma_v3_0_vm_pte_funcs (burst_nop : bool) : amdgpu_vm_pte_funcs :=
  VmPteFuncs sdma_v3_0_vm_copy_pte sdma_v3_0_vm_write_pte sdma_v3_0_vm_set_pte_pde
    (sdma_v3_0_ring_pad_ib burst_nop).

(** The engine executes the packet with header [h]: the words behind it and
    the memory, [None] for what it cannot execute. *)
Definition sdma_packet (h : Z) (ws : list Z) (m : gpu_mem) : option (list Z * gpu_mem) :=
  let op := Z.land h 255 in
  if op =? SDMA_OP_NOP then Some (drop (Z.to_nat (Z.land (Z.shiftr h 16) 0x3fff)) ws, m)
  else if op =? SDMA_OP_COPY then
    match ws with
    | bytes :: _ :: slo :: shi :: dlo :: dhi :: ws =>
        if (bytes <=? 0x3fffff) && (bytes mod 4 =? 0) then
          l ← load m (addr64 slo shi) (bytes / 4);
          Some (ws, store m (addr64 dlo dhi) l)
        else None
    | _ => None
    end
  else if op =? SDMA_OP_WRITE then
    match ws with
    | dlo :: dhi :: ndw :: ws =>
        Some (drop (Z.to_nat ndw) ws, store m (addr64 dlo dhi) (take (Z.to_nat ndw) ws))
    | _ => None
    end
  else if op =? SDMA_OP_GEN_PTEPDE then
    match ws with
    | dlo :: dhi :: flags :: flags_hi :: alo :: ahi :: incr :: incr_hi :: count :: ws =>
        if count <=? AMDGPU_VM_MAX_UPDATE_SIZE then
          Some (ws, store m (addr64 dlo dhi)
            (entries (fun i => Z.lor (addr64 alo ahi + i * addr64 incr incr_hi) (addr64 flags flags_hi)) count))
        else None
    | _ => None
    end
  else None.

Fixpoint sdma_run (fuel : nat) (ws : list Z) (m : gpu_mem) : option gpu_mem :=
  match ws, fuel with
  | [], _ => Some m
  | _, O => None
  | h :: ws, S k => p ← sdma_packet h ws m; sdma_run k p.1 p.2
  end.

Definition sdma_exec (ws : list Z) (m : gpu_mem) : option gpu_mem := sdma_run (length ws) ws m.

Lemma packet_shrinks h ws m p : sdma_packet h ws m = Some p -> (length p.1 <= length ws)%nat.
Proof.
  unfold sdma_packet.
  destruct (_ =? SDMA_OP_NOP); [intros [= <-]; cbn; rewrite length_drop; lia|].
  destruct (_ =? SDMA_OP_COPY).
  { do 6 (destruct ws as [|? ws]; [done|]). destruct (_ && _); [|done].
    destruct (load _ _ _); [|done]. intros [= <-]; cbn; lia. }
  destruct (_ =? SDMA_OP_WRITE).
  { do 3 (destruct ws as [|? ws]; [done|]). intros [= <-]; cbn; rewrite length_drop; lia. }
  destruct (_ =? SDMA_OP_GEN_PTEPDE); [|done].
  do 9 (destruct ws as [|? ws]; [done|]). destruct (_ <=? _); [|done]. intros [= <-]; cbn; lia.
Qed.

Lemma exec_packet h ws m ws' m' :
  sdma_packet h ws m = Some (ws', m') -> sdma_exec (h :: ws) m = sdma_exec ws' m'.
Proof.
  intros H. pose proof (packet_shrinks _ _ _ _ H) as Hs. unfold sdma_exec.
  cbn [length sdma_run]. rewrite H. cbn [mbind option_bind fst snd] in *.
  enough (forall n f ws m, (length ws <= n)%nat -> (n <= f)%nat -> sdma_run f ws m = sdma_run n ws m) as Hf
    by (by apply Hf).
  clear. induction n as [|n IH]; intros [|f] ws m Hl Hf; [done|destruct ws; cbn in Hl; [done|lia]|lia|].
  destruct ws as [|h ws]; [done|]. cbn in Hl |- *.
  destruct (sdma_packet h ws m) as [p|] eqn:E; [|done]. cbn.
  apply packet_shrinks in E. apply IH; lia.
Qed.

Lemma write_values_entries (n : nat) v incr :
  0 <= v -> 0 <= incr -> v + Z.of_nat n * incr < 18446744073709551616 ->
  write_values n v incr = entries (fun i => v + i * incr) (Z.of_nat n).
Proof.
  revert v. induction n as [|n IH]; intros v Hv Hi Hb; [done|].
  rewrite entries_cons by lia. cbn [write_values halves app].
  replace (v + 0 * incr) with v by lia. f_equal. f_equal.
  assert (incr <= Z.of_nat (S n) * incr) by nia.
  unfold u64. rewrite Z.mod_small by lia. rewrite IH by lia.
  replace (Z.of_nat (S n) - 1) with (Z.of_nat n) by lia.
  apply entries_ext. intros; lia.
Qed.

Lemma pad_range len : 0 <= (8 - Z.land len 7) mod 8 < 8.
Proof. apply Z.mod_pos_bound. lia. Qed.

(** Reads the operation of the next packet. *)
Ltac packet :=
  unfold sdma_v3_0_vm_copy_pte, sdma_v3_0_vm_write_pte, sdma_v3_0_vm_set_pte_pde; cbv zeta;
  cbn [app]; apply exec_packet; unfold sdma_packet; cbv zeta;
  match goal with |- context [Z.land ?h 255] =>
    let v := eval vm_compute in (Z.land h 255) in change (Z.land h 255) with v end;
  cbn -[u32 load store addr64 lower_32_bits upper_32_bits write_values entries app].

Lemma exec_copy_pte pe src n ws m l :
  is_u64 pe -> is_u64 src -> 0 < n <= AMDGPU_VM_MAX_UPDATE_SIZE -> load m src (2 * n) = Some l ->
  sdma_exec (sdma_v3_0_vm_copy_pte pe src n ++ ws) m = sdma_exec ws (store m pe l).
Proof.
  unfold AMDGPU_VM_MAX_UPDATE_SIZE. intros Hp Hs Hn Hl.
  packet.
  unfold u32. rewrite Z.mod_small by lia.
  replace (n * 8 <=? 4194303) with true by (symmetry; apply Z.leb_le; lia).
  replace (n * 8 mod 4) with 0 by (replace (n * 8) with (n * 2 * 4) by lia; by rewrite Z.mod_mul).
  replace (n * 8 / 4) with (2 * n) by (replace (n * 8) with (2 * n * 4) by lia; by rewrite Z.div_mul).
  rewrite !addr64_split by done. cbn [andb Z.eqb]. by rewrite Hl.
Qed.

Lemma exec_write_pte pe v n incr ws m :
  is_u64 pe -> 0 <= v -> 0 <= incr -> v + n * incr < 18446744073709551616 ->
  0 < n <= AMDGPU_VM_MAX_UPDATE_SIZE ->
  sdma_exec (sdma_v3_0_vm_write_pte pe v n incr ++ ws) m =
  sdma_exec ws (store m pe (entries (fun i => v + i * incr) n)).
Proof.
  unfold AMDGPU_VM_MAX_UPDATE_SIZE. intros Hp Hv Hi Hb Hn.
  packet.
  unfold u32. rewrite Z.mod_small by lia. rewrite Z.div_mul by lia.
  rewrite write_values_entries by lia. rewrite Z2Nat.id by lia. rewrite addr64_split by done.
  pose proof (entries_length (fun i => v + i * incr) n ltac:(lia)) as Hl.
  replace (Z.to_nat (n * 2)) with (length (entries (fun i => v + i * incr) n)) by lia.
  by rewrite drop_app_length, take_app_length.
Qed.

Lemma exec_set_pte pe a n incr flags ws m :
  is_u64 pe -> 0 <= a -> is_u32 incr -> a + n * incr < 18446744073709551616 ->
  0 < n <= AMDGPU_VM_MAX_UPDATE_SIZE ->
  sdma_exec (sdma_v3_0_vm_set_pte_pde pe a n incr flags ++ ws) m =
  sdma_exec ws (store m pe (entries (fun i => Z.lor (a + i * incr) flags) n)).
Proof.
  intros Hp Ha Hi Hb Hn. packet.
  destruct (Z.leb_spec n AMDGPU_VM_MAX_UPDATE_SIZE) as [_|]; [|lia].
  rewrite (addr64_split pe) by done. rewrite (addr64_split a) by (cint; nia).
  do 3 f_equal. apply entries_ext. intros i _. unfold addr64. f_equal; lia.
Qed.

Lemma exec_nops n ws m : sdma_exec (replicate n 0 ++ ws) m = sdma_exec ws m.
Proof.
  induction n as [|n IH]; [done|]. rewrite <-IH. cbn [replicate]. packet. by rewrite drop_0.
Qed.

Lemma exec_pad_ib burst len m : sdma_exec (sdma_v3_0_ring_pad_ib burst len) m = Some m.
Proof.
  unfold sdma_v3_0_ring_pad_ib. pose proof (pad_range len) as Hr.
  destruct (decide ((8 - Z.land len 7) mod 8 = 0)) as [->|Hne]; [done|].
  generalize dependent ((8 - Z.land len 7) mod 8). intros c Hr Hne.
  assert (c = 1 \/ c = 2 \/ c = 3 \/ c = 4 \/ c = 5 \/ c = 6 \/ c = 7)
    as [->|[->|[->|[->|[->|[->| ->]]]]]] by lia; destruct burst; reflexivity.
Qed.

#[export] Instance sdma_v3_0_engine burst : PteEngine (sdma_v3_0_vm_pte_funcs burst) sdma_exec.
Proof.
  split; cbn [copy_pte write_pte set_pte_pde pad_ib sdma_v3_0_vm_pte_funcs].
  - done.
  - intros. by apply exec_copy_pte.
  - intros. by apply exec_write_pte.
  - intros. by apply exec_set_pte.
  - apply exec_pad_ib.
  - done.
  - intros pe v n incr Hn. assert (n = 0 \/ n = 1 \/ n = 2) as [->|[->| ->]] by lia; done.
  - done.
  - intros len. unfold sdma_v3_0_ring_pad_ib. rewrite length_map, length_seqZ.
    pose proof (pad_range len). lia.
Qed.
End SdmaPte.
