(* ===== verification/PageTable.v ===== *)
(** * Page-table updates ([amdgpu/amdgpu_vm.c])

    A GPU address space has a page directory and page tables of
    [2 ^ amdgpu_vm_block_size] entries.  [amdgpu_vm_bo_update_mapping] computes
    the size of an indirect buffer, fills it with packets that set a range of
    entries, and submits it.  Consecutive page tables are updated with one
    packet ([amdgpu_vm_update_ptes]) and the middle of a range is marked as
    fragments of 16 pages ([amdgpu_vm_frag_ptes]). *)

From stdpp Require Import base numbers list gmap.
From S2P Require Import Prelude CMonad Engines VmEngine.

Definition AMDGPU_GPU_PAGE_SIZE : Z := 4096.
Definition AMDGPU_LOG2_PAGES_PER_FRAG : Z := 4.
Definition AMDGPU_PTE_VALID : Z := 1.
Definition AMDGPU_PTE_READABLE : Z := 32.
Definition AMDGPU_PTE_WRITEABLE : Z := 64.
Definition AMDGPU_PTE_FRAG (x : Z) : Z := Z.land x 0x1f .<< 7.

(** A buffer object that holds a page table: its GPU address and that of its
    shadow, if it has one. *)
Record pt_object := PtObject { gpu_offset : Z; shadow_offset : option Z }.
(** [struct amdgpu_vm_pt]. *)
Record amdgpu_vm_pt := VmPt { pt_bo : option pt_object; pt_addr : Z }.

(** The indirect buffer that is filled: its memory and [length_dw]. *)
Record pte_ib := PteIb { ib_ptr : list Z; ib_fill : Z }.
Definition IM : Type -> Type := M pte_ib.

(** [ib->ptr[ib->length_dw++] = w], for one word and for several. *)
Definition ib_write (w : Z) : IM unit :=
  b ← gets id;
  if ib_fill b <? Z.of_nat (length (ib_ptr b))
  then modify (fun b => PteIb (<[Z.to_nat (ib_fill b) := w]> (ib_ptr b)) (u32 (ib_fill b + 1)))
  else fault.
Fixpoint ib_writes (l : list Z) : IM unit :=
  match l with
  | [] => mret tt
  | w :: l => ib_write w;; ib_writes l
  end.

(** ** The update functions *)

Section update.
Context (F : amdgpu_vm_pte_funcs) (amdgpu_vm_block_size : Z).

Definition AMDGPU_VM_PTE_COUNT : Z := 1 .<< amdgpu_vm_block_size.

Definition amdgpu_vm_do_set_ptes (src pe addr count incr flags : Z) : list Z :=
  if count <? 3 then write_pte F pe (addr .| flags) count incr
  else set_pte_pde F pe addr count incr flags.

Definition amdgpu_vm_do_copy_ptes (src pe addr count incr flags : Z) : list Z :=
  copy_pte F pe (u64 (src + u64 (Z.shiftr addr 12 * 8))) count.

(** [struct amdgpu_pte_update_params]: [func] takes [src] from it. *)
Record amdgpu_pte_update_params := Params {
  params_src : Z;
  params_func : Z -> Z -> Z -> Z -> Z -> Z -> list Z;
  params_shadow : bool }.

Definition call_func (params : amdgpu_pte_update_params) (pe addr count flags : Z) : IM unit :=
  ib_writes (params_func params (params_src params) pe addr (u32 count) AMDGPU_GPU_PAGE_SIZE flags).

(** The address of the page table with index [pt_idx] or of its shadow; [None]
    when the shadow is wanted and there is none. *)
Definition pt_start (params : amdgpu_pte_update_params) (page_tables : list amdgpu_vm_pt) (pt_idx : Z) : IM (option Z) :=
  e ← deref (page_tables !! Z.to_nat pt_idx);
  pt ← deref (pt_bo e);
  mret (if params_shadow params then shadow_offset pt else Some (gpu_offset pt)).

(** The number of entries from [addr] to the end of its page table or to [end_]. *)
Definition next_nptes (addr end_ : Z) : Z :=
  let mask := AMDGPU_VM_PTE_COUNT - 1 in
  if Z.land addr (u64 (Z.lnot mask)) =? Z.land end_ (u64 (Z.lnot mask)) then u32 (end_ - addr)
  else u32 (AMDGPU_VM_PTE_COUNT - Z.land addr mask).

(** The loop of [amdgpu_vm_update_ptes]: [addr] and [dst] are the next page and
    its target, [cur_*] the update that is still to be written. *)
Fixpoint update_ptes_loop (fuel : nat) (params : amdgpu_pte_update_params) (page_tables : list amdgpu_vm_pt)
    (end_ flags addr dst cur_pe_start cur_nptes cur_dst : Z) : IM unit :=
  if addr <? end_ then
    match fuel with
    | O => nofuel
    | S k =>
        pt ← pt_start params page_tables (Z.shiftr addr amdgpu_vm_block_size);
        match pt with
        | None => mret tt
        | Some pt =>
            let nptes := next_nptes addr end_ in
            let next_pe_start := u64 (pt + u64 (Z.land addr (AMDGPU_VM_PTE_COUNT - 1) * 8)) in
            let addr' := u64 (addr + nptes) in
            let dst' := u64 (dst + u32 (nptes * AMDGPU_GPU_PAGE_SIZE)) in
            if (u64 (cur_pe_start + u64 (8 * cur_nptes)) =? next_pe_start) &&
               (u64 (cur_nptes + nptes) <=? AMDGPU_VM_MAX_UPDATE_SIZE)
            then update_ptes_loop k params page_tables end_ flags addr' dst' cur_pe_start (u64 (cur_nptes + nptes)) cur_dst
            else
              call_func params cur_pe_start cur_dst cur_nptes flags;;
              update_ptes_loop k params page_tables end_ flags addr' dst' next_pe_start nptes dst
        end
    end
  else call_func params cur_pe_start cur_dst cur_nptes flags.

Definition amdgpu_vm_update_ptes (fuel : nat) (params : amdgpu_pte_update_params) (page_tables : list amdgpu_vm_pt)
    (start end_ dst flags : Z) : IM unit :=
  pt ← pt_start params page_tables (Z.shiftr start amdgpu_vm_block_size);
  match pt with
  | None => mret tt
  | Some pt =>
      let nptes := next_nptes start end_ in
      update_ptes_loop fuel params page_tables end_ flags
        (u64 (start + nptes)) (u64 (dst + u32 (nptes * AMDGPU_GPU_PAGE_SIZE)))
        (u64 (pt + u64 (Z.land start (AMDGPU_VM_PTE_COUNT - 1) * 8))) nptes dst
  end.

Definition frag_align : Z := 1 .<< AMDGPU_LOG2_PAGES_PER_FRAG.
(** [ALIGN(start, frag_align)] and [end & ~(frag_align - 1)]. *)
Definition frag_start_of (start : Z) : Z :=
  Z.land (u64 (start + (frag_align - 1))) (u64 (Z.lnot (frag_align - 1))).
Definition frag_end_of (end_ : Z) : Z := Z.land end_ (u64 (Z.lnot (frag_align - 1))).

Definition amdgpu_vm_frag_ptes (fuel : nat) (params : amdgpu_pte_update_params) (page_tables : list amdgpu_vm_pt)
    (start end_ dst flags : Z) : IM unit :=
  let frag_flags := AMDGPU_PTE_FRAG AMDGPU_LOG2_PAGES_PER_FRAG in
  let frag_start := frag_start_of start in
  let frag_end := frag_end_of end_ in
  if negb (params_src params =? 0) || (Z.land flags AMDGPU_PTE_VALID =? 0) || (frag_end <=? frag_start)
  then amdgpu_vm_update_ptes fuel params page_tables start end_ dst flags
  else
    (if negb (start =? frag_start)
     then amdgpu_vm_update_ptes fuel params page_tables start frag_start dst flags
     else mret tt);;
    let dst := if negb (start =? frag_start)
               then u64 (dst + u64 ((frag_start - start) * AMDGPU_GPU_PAGE_SIZE)) else dst in
    amdgpu_vm_update_ptes fuel params page_tables frag_start frag_end dst (flags .| frag_flags);;
    (if negb (frag_end =? end_)
     then amdgpu_vm_update_ptes fuel params page_tables frag_end end_
            (u64 (dst + u64 ((frag_end - frag_start) * AMDGPU_GPU_PAGE_SIZE))) flags
     else mret tt).

(** ** Updating a mapping *)

(** [amdgpu_vm_map_gart]; CPU pages have 4 KiB. *)
Definition amdgpu_vm_map_gart (pages_addr : list Z) (addr : Z) : IM Z :=
  result ← deref (pages_addr !! Z.to_nat (Z.shiftr addr 12));
  let result := result .| Z.land addr 0xfff in
  mret (Z.land result 0xfffffffffffff000).

(** The loop that puts the entries behind the packets: [pte[i]] is the pair of
    words at [idx + 2 * i]. *)
Fixpoint fill_ptes (n : nat) (i : Z) (pages_addr : list Z) (addr flags idx : Z) : IM unit :=
  match n with
  | O => mret tt
  | S n =>
      v ← amdgpu_vm_map_gart pages_addr (u64 (addr + u32 (i * AMDGPU_GPU_PAGE_SIZE)));
      let v := v .| flags in
      b ← gets id;
      if idx + 2 * i + 1 <? Z.of_nat (length (ib_ptr b)) then
        modify (fun b => PteIb (<[Z.to_nat (idx + 2 * i + 1) := upper_32_bits v]>
                                 (<[Z.to_nat (idx + 2 * i) := lower_32_bits v]> (ib_ptr b))) (ib_fill b));;
        fill_ptes n (i + 1) pages_addr addr flags idx
      else fault
  end.

(** The space for the packets of an update of [nptes] entries: [ncmds] and [ndw]. *)
Definition update_ncmds (nptes : Z) : Z :=
  u32 (Z.shiftr nptes (Z.min amdgpu_vm_block_size 11) + 1).
Definition update_ndw (src : Z) (pages_addr : option (list Z)) (nptes : Z) : Z :=
  let ncmds := update_ncmds nptes in
  if negb (src =? 0) then u32 (64 + u32 (ncmds * 7))
  else match pages_addr with
       | Some _ => u32 (u32 (64 + u32 (ncmds * 7)) + u32 (nptes * 2))
       | None => u32 (u32 (64 + u32 (ncmds * 10)) + 2 * 10)
       end.

(** What the calls outside this file return: the allocation of the job, the
    two synchronisations, the reservation and the submission; [ib_addr] and
    [garbage] are the address and the content of the new indirect buffer. *)
Record update_env := UpdateEnv {
  alloc_r : Z; sync_fence_r : Z; sync_resv_r : Z; reserve_r : Z; submit_r : Z;
  ib_addr : Z; garbage : nat -> Z }.

(** [amdgpu_vm_bo_update_mapping]: the result and the indirect buffer that was
    submitted. *)
Definition amdgpu_vm_bo_update_mapping (fuel : nat) (env : update_env) (src : Z) (pages_addr : option (list Z))
    (page_tables : list amdgpu_vm_pt) (start last flags addr : Z) : outcome (Z * option pte_ib) :=
  let nptes := u32 (last - start + 1) in
  let ndw := update_ndw src pages_addr nptes in
  if negb (alloc_r env =? 0) then Ok (alloc_r env, None)
  else
    let ib := PteIb (map (garbage env) (seq 0 (Z.to_nat ndw))) 0 in
    let func := match src =? 0, pages_addr with
                | true, None => amdgpu_vm_do_set_ptes
                | _, _ => amdgpu_vm_do_copy_ptes
                end in
    let in_ib := match src =? 0, pages_addr with true, Some _ => true | _, _ => false end in
    let i := u32 (ndw - u32 (nptes * 2)) in
    let src' := if in_ib then u64 (ib_addr env + u32 (i * 4)) else src in
    let addr' := if in_ib then 0 else addr in
    let body : IM Z :=
      (match in_ib, pages_addr with
       | true, Some pages => fill_ptes (Z.to_nat nptes) 0 pages addr flags i
       | _, _ => mret tt
       end);;
      if negb (sync_fence_r env =? 0) then mret (sync_fence_r env)
      else if negb (sync_resv_r env =? 0) then mret (sync_resv_r env)
      else if negb (reserve_r env =? 0) then mret (reserve_r env)
      else
        amdgpu_vm_frag_ptes fuel (Params src' func true) page_tables start (u64 (last + 1)) addr' flags;;
        amdgpu_vm_frag_ptes fuel (Params src' func false) page_tables start (u64 (last + 1)) addr' flags;;
        b ← gets id;
        ib_writes (pad_ib F (ib_fill b));;
        mret (submit_r env) in
    match body ib with
    | Ok (r, ib') => Ok (r, if r =? 0 then Some ib' else None)
    | Fault => Fault
    | NoFuel => NoFuel
    end.
End update.
