(* ===== verification/PageTableSpec.v ===== *)
(** * Page-table updates write exactly the entries they should

    [set_pages] is the reference: one entry after the other.  An update emits
    words ([emits]) whose execution by any engine ([PteEngine]) has the effect
    of the reference ([has_effect]), and not more words than were reserved. *)

From stdpp Require Import base numbers list gmap option.
From S2P Require Import Prelude CMonad Engines VmEngine PageTable.

(** ** Filling an indirect buffer *)

Definition appended (b : pte_ib) (ws : list Z) : pte_ib :=
  PteIb (take (Z.to_nat (ib_fill b)) (ib_ptr b) ++ ws ++ drop (Z.to_nat (ib_fill b) + length ws) (ib_ptr b))
    (ib_fill b + Z.of_nat (length ws)).

(** [b] has room for [n] more words. *)
Definition room (b : pte_ib) (n : Z) : Prop :=
  0 <= ib_fill b /\ ib_fill b + n <= Z.of_nat (length (ib_ptr b)) < 4294967296.

(** The computation appends the words, wherever there is room for them. *)
Definition emits (c : IM unit) (ws : list Z) : Prop :=
  forall b, room b (Z.of_nat (length ws)) -> c b = Ok (tt, appended b ws).

Lemma appended_nil b : 0 <= ib_fill b -> appended b [] = b.
Proof.
  intros Hb. destruct b as [p n]. unfold appended. cbn in *.
  rewrite Nat.add_0_r, take_drop. f_equal. lia.
Qed.

Lemma appended_room b ws n :
  room b (Z.of_nat (length ws) + n) -> 0 <= n -> room (appended b ws) n.
Proof.
  intros [H0 [H1 H2]] Hn. unfold room, appended. cbn [ib_ptr ib_fill].
  rewrite !length_app, length_take, length_drop. lia.
Qed.

Lemma appended_app b ws ws' :
  room b (Z.of_nat (length (ws ++ ws'))) -> appended (appended b ws) ws' = appended b (ws ++ ws').
Proof.
  intros [H0 [H1 H2]]. rewrite length_app in H1. unfold appended. cbn [ib_ptr ib_fill].
  rewrite length_app. f_equal; [|lia].
  assert (Hl : length (take (Z.to_nat (ib_fill b)) (ib_ptr b)) = Z.to_nat (ib_fill b))
    by (rewrite length_take; lia).
  rewrite Z2Nat.inj_add, Nat2Z.id by lia.
  rewrite !app_assoc, take_app_length' by (rewrite length_app; lia).
  rewrite drop_app_ge by (rewrite length_app; lia).
  rewrite drop_drop, <- !app_assoc. do 4 f_equal. rewrite length_app. lia.
Qed.

Lemma emits_nil : emits (mret tt) [].
Proof. intros b [H0 _]. by rewrite appended_nil. Qed.

Lemma emits_bind c k ws ws' : emits c ws -> emits k ws' -> emits (c;; k) (ws ++ ws').
Proof.
  intros Hc Hk b Hr. pose proof Hr as Hr'. rewrite length_app, Nat2Z.inj_add in Hr.
  rewrite (bind_eval c _ b tt (appended b ws)).
  - rewrite Hk by (apply appended_room; [done|lia]). by rewrite appended_app.
  - apply Hc. destruct Hr as [? [? ?]]. split; [done|split; lia].
Qed.

Lemma emits_pure {A} (c : IM A) (k : A -> IM unit) a ws :
  (forall b, c b = Ok (a, b)) -> emits (k a) ws -> emits (c ≫= k) ws.
Proof. intros Hc Hk b Hr. rewrite (bind_eval c _ b a b (Hc b)). by apply Hk. Qed.

Lemma emits_writes ws : emits (ib_writes ws) ws.
Proof.
  induction ws as [|w ws IH]; [apply emits_nil|].
  refine (emits_bind (ib_write w) (ib_writes ws) [w] ws _ IH).
  intros b [H0 [H1 H2]]. cbn [length] in H1. unfold ib_write.
  rewrite (bind_eval (gets id) _ b b b eq_refl). cbn [id].
  destruct (Z.ltb_spec (ib_fill b) (Z.of_nat (length (ib_ptr b)))) as [_|]; [|lia].
  unfold modify, appended. do 3 f_equal; cbn [length].
  - rewrite Nat.add_1_r. rewrite insert_take_drop by lia. done.
  - unfold u32. rewrite Z.mod_small by lia. lia.
Qed.

(** ** The reference *)

(** Sets the entries of [n] pages from [p] on, one by one: [pe] is the address
    of the entry of a page, [ent] its value. *)
Fixpoint set_pages (pe ent : Z -> Z) (n : nat) (p : Z) (m : gpu_mem) : gpu_mem :=
  match n with
  | O => m
  | S n => set_pages pe ent n (p + 1) (store m (pe p) (halves (ent p)))
  end.

Lemma set_pages_app pe ent a b p m :
  set_pages pe ent (a + b) p m = set_pages pe ent b (p + Z.of_nat a) (set_pages pe ent a p m).
Proof.
  revert p m. induction a as [|a IH]; intros p m; cbn [Nat.add set_pages].
  - f_equal. lia.
  - rewrite IH. f_equal. lia.
Qed.

Lemma set_pages_app' pe ent p q r m :
  p <= q <= r -> set_pages pe ent (Z.to_nat (r - q)) q (set_pages pe ent (Z.to_nat (q - p)) p m) =
                 set_pages pe ent (Z.to_nat (r - p)) p m.
Proof.
  intros H. replace (Z.to_nat (r - p)) with (Z.to_nat (q - p) + Z.to_nat (r - q))%nat by lia.
  rewrite set_pages_app. f_equal. lia.
Qed.

Lemma set_pages_ext pe ent ent' n p m :
  (forall q, p <= q < p + Z.of_nat n -> ent q = ent' q) -> set_pages pe ent n p m = set_pages pe ent' n p m.
Proof.
  revert p m. induction n as [|n IH]; intros p m H; [done|]. cbn [set_pages].
  rewrite (H p) by lia. apply IH. intros q Hq. apply H. lia.
Qed.

(** Entries that lie side by side are one block of memory. *)
Lemma set_pages_run pe ent n p m :
  pe p mod 4 = 0 -> (forall i, 0 <= i < Z.of_nat n -> pe (p + i) = pe p + 8 * i) ->
  set_pages pe ent n p m = store m (pe p) (entries (fun i => ent (p + i)) (Z.of_nat n)).
Proof.
  revert p m. induction n as [|n IH]; intros p m Ha Hc.
  - change (entries (fun i => ent (p + i)) (Z.of_nat 0)) with (@nil Z). by rewrite store_nil.
  - cbn [set_pages]. rewrite entries_cons by lia.
    rewrite store_app by done. replace (p + 0) with p by lia.
    change (4 * Z.of_nat (length (halves (ent p)))) with 8.
    destruct n as [|n].
    { cbn [set_pages]. change (Z.of_nat 1 - 1) with 0. symmetry. apply store_nil. }
    assert (E1 : pe (p + 1) = pe p + 8) by (rewrite (Hc 1) by lia; lia).
    rewrite IH.
    + rewrite E1. f_equal. replace (Z.of_nat (S (S n)) - 1) with (Z.of_nat (S n)) by lia.
      apply entries_ext. intros i _. f_equal. lia.
    + rewrite E1. rewrite <- Z.add_mod_idemp_l by lia. by rewrite Ha.
    + intros i Hi. rewrite E1. rewrite <- Z.add_assoc, (Hc (1 + i)) by lia. lia.
Qed.

(** The 64-bit entry at an address. *)
Definition entry_at (m : gpu_mem) (a : Z) : option Z :=
  lo ← m !! (a / 4); hi ← m !! (a / 4 + 1); Some (addr64 lo hi).

Lemma store_other m a l k : (k < a / 4 \/ a / 4 + Z.of_nat (length l) <= k) -> store m a l !! k = m !! k.
Proof. intros Hk. unfold store. apply lookup_union_r. apply lookup_map_seqZ_None. lia. Qed.

Lemma entry_store m a v : is_u64 v -> entry_at (store m a (halves v)) a = Some v.
Proof.
  intros Hv. unfold entry_at, store, halves. cbn [map_seqZ].
  rewrite !lookup_union, lookup_insert_eq, lookup_insert_ne, lookup_insert_eq by lia.
  destruct (m !! (a / 4)), (m !! (a / 4 + 1)); cbn; by rewrite addr64_split.
Qed.

Lemma entry_other m a v a' :
  a mod 4 = 0 -> a' mod 4 = 0 -> a + 8 <= a' \/ a' + 8 <= a -> entry_at (store m a (halves v)) a' = entry_at m a'.
Proof.
  intros Ha Ha' Hd. apply Z.mod_divide in Ha as [x ->]; [|lia]. apply Z.mod_divide in Ha' as [y ->]; [|lia].
  unfold entry_at. rewrite !store_other; [done|..]; rewrite !Z.div_mul by lia; cbn; lia.
Qed.

(** Entries that do not overlap all have their value in the end, and nothing
    else has changed. *)
Lemma set_pages_other pe ent n p m a :
  a mod 4 = 0 -> (forall q, p <= q < p + Z.of_nat n -> pe q mod 4 = 0 /\ (pe q + 8 <= a \/ a + 8 <= pe q)) ->
  entry_at (set_pages pe ent n p m) a = entry_at m a.
Proof.
  intros Ha. revert p m. induction n as [|n IH]; intros p m H; [done|]. cbn [set_pages].
  rewrite IH by (intros q Hq; apply H; lia). destruct (H p ltac:(lia)). by apply entry_other.
Qed.

Lemma set_pages_entry pe ent n p m q :
  p <= q < p + Z.of_nat n -> is_u64 (ent q) ->
  (forall x, p <= x < p + Z.of_nat n -> pe x mod 4 = 0) ->
  (forall x y, p <= x < p + Z.of_nat n -> p <= y < p + Z.of_nat n -> x <> y -> pe x + 8 <= pe y \/ pe y + 8 <= pe x) ->
  entry_at (set_pages pe ent n p m) (pe q) = Some (ent q).
Proof.
  revert p m. induction n as [|n IH]; intros p m Hq He H4 Hd; [lia|]. cbn [set_pages].
  destruct (decide (q = p)) as [->|].
  - rewrite set_pages_other; [by apply entry_store|apply H4; lia|].
    intros x Hx. split; [apply H4; lia|apply Hd; lia].
  - apply IH; [lia|done| |]; intros; first [apply H4|apply Hd]; lia.
Qed.

(** ** One pass over the page tables *)

Section pass.
Context (F : amdgpu_vm_pte_funcs) (exec : list Z -> gpu_mem -> option gpu_mem) `{!PteEngine F exec}.
Context (bs : Z) (Hbs : 9 <= bs <= 17).

(** The address of the entry of page [p], when page table [i] is at [base i]. *)
Definition pe_of (base : Z -> Z) (p : Z) : Z := base (p / 2 ^ bs) + 8 * (p mod 2 ^ bs).

(** On memories that satisfy [I], the words have effect [f] and keep [I]. *)
Definition has_effect (I : gpu_mem -> Prop) (ws : list Z) (f : gpu_mem -> gpu_mem) : Prop :=
  forall rest m, I m -> exec (ws ++ rest) m = exec rest (f m) /\ I (f m).

Lemma effect_nil I : has_effect I [] (fun m => m).
Proof. by intros rest m Hm. Qed.

Lemma effect_app I ws ws' f g :
  has_effect I ws f -> has_effect I ws' g -> has_effect I (ws ++ ws') (fun m => g (f m)).
Proof.
  intros Hf Hg rest m Hm. rewrite <- app_assoc.
  destruct (Hf (ws' ++ rest) m Hm) as [-> Hm']. by apply Hg.
Qed.

(** What a pass needs: page tables for its range, and an update function that
    sets entries to [ent] with at most [L] words. *)
Record pass_ok (params : amdgpu_pte_update_params) (pts : list amdgpu_vm_pt) (flags lo hi dst : Z)
    (base ent : Z -> Z) (I : gpu_mem -> Prop) (L : Z) : Prop := {
  pass_range : 0 <= lo < hi /\ hi < 1099511627776;
  pass_dst : 0 <= dst /\ dst + (hi - lo) * 4096 < 18446744073709551616;
  pass_table i : lo / 2 ^ bs <= i <= (hi - 1) / 2 ^ bs ->
    (forall b, pt_start params pts i b = Ok (Some (base i), b)) /\
    0 <= base i /\ base i mod 8 = 0 /\ base i + 8 * 2 ^ bs < 18446744073709551616;
  pass_func p n pe ws m : lo <= p -> 0 < n <= AMDGPU_VM_MAX_UPDATE_SIZE -> p + n <= hi ->
    is_u64 pe -> pe mod 8 = 0 -> I m ->
    exec (params_func params (params_src params) pe (dst + (p - lo) * 4096) n 4096 flags ++ ws) m =
    exec ws (store m pe (entries (fun i => ent (p + i)) n));
  pass_length p n pe : 0 < n <= AMDGPU_VM_MAX_UPDATE_SIZE ->
    Z.of_nat (length (params_func params (params_src params) pe (dst + (p - lo) * 4096) n 4096 flags)) <= L;
  pass_keeps p m : lo <= p < hi -> I m -> I (store m (pe_of base p) (halves (ent p))) }.

Section one.
Context (params : amdgpu_pte_update_params) (pts : list amdgpu_vm_pt) (flags lo hi dst : Z)
  (base ent : Z -> Z) (I : gpu_mem -> Prop) (L : Z)
  (OK : pass_ok params pts flags lo hi dst base ent I L).
Notation pe := (pe_of base).
Notation dst_of p := (dst + (p - lo) * 4096).

Lemma B_pos : 512 <= 2 ^ bs <= 131072.
Proof. change 512 with (2 ^ 9). change 131072 with (2 ^ 17). split; apply Z.pow_le_mono_r; lia. Qed.

Lemma set_pages_keeps n p m : lo <= p -> p + Z.of_nat n <= hi -> I m -> I (set_pages pe ent n p m).
Proof.
  revert p m. induction n as [|n IH]; intros p m Hl Hh Hm; [done|]. cbn [set_pages].
  apply IH; [lia|lia|]. apply (pass_keeps _ _ _ _ _ _ _ _ _ _ OK); [lia|done].
Qed.

Lemma pe_range p : lo <= p < hi -> 0 <= pe p /\ pe p mod 8 = 0 /\ pe p + 8 < 18446744073709551616.
Proof.
  intros Hp. pose proof B_pos as HB. unfold pe_of.
  destruct (pass_table _ _ _ _ _ _ _ _ _ _ OK (p / 2 ^ bs)) as (_ & H0 & H8 & Hb).
  { split; apply Z.div_le_mono; lia. }
  pose proof (Z.mod_pos_bound p (2 ^ bs) ltac:(lia)).
  split; [lia|]. split; [|lia]. rewrite Z.mul_comm, Z.mod_add by lia. done.
Qed.

(** A run of entries side by side, written with one call. *)
Lemma call_ok p n :
  lo <= p -> 0 < n <= AMDGPU_VM_MAX_UPDATE_SIZE -> p + n <= hi ->
  (forall i, 0 <= i < n -> pe (p + i) = pe p + 8 * i) ->
  exists ws, emits (call_func params (pe p) (dst_of p) n flags) ws /\
    Z.of_nat (length ws) <= L /\ has_effect I ws (set_pages pe ent (Z.to_nat n) p).
Proof.
  intros Hl Hn Hh Hc. pose proof (pe_range p ltac:(lia)) as (H0 & H8 & Hb).
  eexists. split; [apply emits_writes|].
  assert (E : u32 n = n) by (unfold AMDGPU_VM_MAX_UPDATE_SIZE in Hn; unfold u32; rewrite Z.mod_small; lia).
  rewrite E. unfold AMDGPU_GPU_PAGE_SIZE. split; [by apply (pass_length _ _ _ _ _ _ _ _ _ _ OK)|].
  intros rest m Hm. split; [|apply set_pages_keeps; [done|lia|done]].
  rewrite (pass_func _ _ _ _ _ _ _ _ _ _ OK p n (pe p) rest m) by first [done|lia|split; lia].
  rewrite set_pages_run, Z2Nat.id; [done|lia| |].
  - apply Z.mod_divide in H8; [|lia]. apply Z.mod_divide; [lia|]. destruct H8 as [k ->]. exists (2 * k). lia.
  - intros i Hi. apply Hc. lia.
Qed.

Lemma pte_count : AMDGPU_VM_PTE_COUNT bs = 2 ^ bs.
Proof. unfold AMDGPU_VM_PTE_COUNT. rewrite Z.shiftl_mul_pow2 by lia. lia. Qed.

Lemma next_nptes_spec addr end_ :
  0 <= addr < end_ -> end_ < 1099511627776 ->
  next_nptes bs addr end_ = Z.min (end_ - addr) (2 ^ bs - addr mod 2 ^ bs).
Proof.
  intros Ha He. pose proof B_pos as HB. unfold next_nptes. rewrite pte_count.
  rewrite !land_lnot64, land_pow2 by (unfold is_u64; lia).
  pose proof (Z.div_mod addr (2 ^ bs) ltac:(lia)) as D1. pose proof (Z.div_mod end_ (2 ^ bs) ltac:(lia)) as D2.
  pose proof (Z.mod_pos_bound addr (2 ^ bs) ltac:(lia)). pose proof (Z.mod_pos_bound end_ (2 ^ bs) ltac:(lia)).
  destruct (Z.eqb_spec (addr / 2 ^ bs * 2 ^ bs) (end_ / 2 ^ bs * 2 ^ bs)) as [E|E].
  - unfold u32. rewrite Z.mod_small; lia.
  - assert (addr / 2 ^ bs <= end_ / 2 ^ bs) by (apply Z.div_le_mono; lia).
    unfold u32. rewrite Z.mod_small by lia. rewrite Z.min_r; [done|].
    assert (addr / 2 ^ bs <> end_ / 2 ^ bs) by congruence.
    assert (2 ^ bs * (addr / 2 ^ bs + 1) <= 2 ^ bs * (end_ / 2 ^ bs)) by (apply Z.mul_le_mono_nonneg_l; lia). lia.
Qed.

(** The entries of one page table lie side by side. *)
Lemma pe_block p i : 0 <= i -> p mod 2 ^ bs + i < 2 ^ bs -> pe (p + i) = pe p + 8 * i.
Proof.
  intros Hi Hb. pose proof B_pos as HB. unfold pe_of.
  pose proof (Z.div_mod p (2 ^ bs) ltac:(lia)) as D. pose proof (Z.mod_pos_bound p (2 ^ bs) ltac:(lia)).
  replace ((p + i) / 2 ^ bs) with (p / 2 ^ bs) by (apply (Z.div_unique _ _ _ (p mod 2 ^ bs + i)); lia).
  replace ((p + i) mod 2 ^ bs) with (p mod 2 ^ bs + i) by (apply (Z.mod_unique _ _ (p / 2 ^ bs)); lia).
  lia.
Qed.

(** What the code computes for the page table of page [p]. *)
Lemma table_start p :
  lo <= p < hi ->
  (forall b, pt_start params pts (Z.shiftr p bs) b = Ok (Some (base (p / 2 ^ bs)), b)) /\
  u64 (base (p / 2 ^ bs) + u64 (Z.land p (AMDGPU_VM_PTE_COUNT bs - 1) * 8)) = pe p.
Proof.
  intros Hp. pose proof B_pos as HB. rewrite Z.shiftr_div_pow2 by lia.
  destruct (pass_table _ _ _ _ _ _ _ _ _ _ OK (p / 2 ^ bs)) as (Ht & H0 & _ & Hb).
  { split; apply Z.div_le_mono; lia. }
  split; [done|]. rewrite pte_count, land_pow2 by lia. unfold pe_of.
  pose proof (Z.mod_pos_bound p (2 ^ bs) ltac:(lia)).
  unfold u64. rewrite (Z.mod_small (_ * 8)), Z.mod_small by lia. lia.
Qed.

Lemma next_dst p n :
  lo <= p -> 0 <= n <= 131072 -> p + n <= hi -> u64 (dst_of p + u32 (n * AMDGPU_GPU_PAGE_SIZE)) = dst_of (p + n).
Proof.
  intros Hp Hn Hh. destruct (pass_dst _ _ _ _ _ _ _ _ _ _ OK). unfold AMDGPU_GPU_PAGE_SIZE, u32, u64.
  rewrite (Z.mod_small (n * 4096)), Z.mod_small by lia. lia.
Qed.

Lemma L_nonneg : 0 <= L.
Proof. pose proof (pass_length _ _ _ _ _ _ _ _ _ _ OK lo 1 0 ltac:(done)). lia. Qed.

(** The page tables behind [addr]. *)
Definition tables_left (addr : Z) : Z := (hi - addr + 2 ^ bs - 1) / 2 ^ bs.

Lemma tables_left_step addr n :
  addr < hi -> addr mod 2 ^ bs = 0 -> n = Z.min (hi - addr) (2 ^ bs) ->
  tables_left addr = 1 + tables_left (addr + n).
Proof.
  intros Ha Hm ->. pose proof B_pos as HB. unfold tables_left.
  destruct (Z.min_spec (hi - addr) (2 ^ bs)) as [[H ->]|[H ->]].
  - replace (hi - (addr + (hi - addr)) + 2 ^ bs - 1) with (2 ^ bs - 1) by lia.
    rewrite (Z.div_small (2 ^ bs - 1)) by lia.
    symmetry. apply (Z.div_unique _ _ _ (hi - addr - 1)); lia.
  - replace (hi - addr + 2 ^ bs - 1) with (hi - (addr + 2 ^ bs) + 2 ^ bs - 1 + 1 * 2 ^ bs) by lia.
    rewrite Z.div_add by lia. lia.
Qed.

Lemma tables_left_nonneg addr : addr <= hi -> 0 <= tables_left addr.
Proof. intros. pose proof B_pos. apply Z.div_pos; lia. Qed.

(** [n] entries from page [p] on lie side by side. *)
Definition adjacent (p n : Z) : Prop := forall i, 0 <= i < n -> pe (p + i) = pe p + 8 * i.

Lemma adjacent_table p : p mod 2 ^ bs = 0 -> adjacent p (Z.min (hi - p) (2 ^ bs)).
Proof. intros Hp i Hi. apply pe_block; [lia|]. rewrite Hp. lia. Qed.

Lemma adjacent_join p a b :
  0 <= a -> adjacent p a -> adjacent (p + a) b -> pe (p + a) = pe p + 8 * a -> adjacent p (a + b).
Proof.
  intros Ha H1 H2 Hj i Hi. destruct (Z.lt_ge_cases i a); [apply H1; lia|].
  replace (p + i) with (p + a + (i - a)) by lia. rewrite H2, Hj by lia. lia.
Qed.

(** The end of the run, as the code computes it. *)
Lemma run_end p n :
  lo <= p -> 0 < n <= AMDGPU_VM_MAX_UPDATE_SIZE -> p + n <= hi -> adjacent p n ->
  u64 (pe p + u64 (8 * n)) = pe p + 8 * n.
Proof.
  intros Hp Hn Hh Ha. unfold AMDGPU_VM_MAX_UPDATE_SIZE in Hn.
  pose proof (Ha (n - 1) ltac:(lia)) as E. pose proof (pe_range p ltac:(lia)).
  pose proof (pe_range (p + (n - 1)) ltac:(lia)) as [_ [_ Hb]]. rewrite E in Hb.
  unfold u64. rewrite (Z.mod_small (8 * n)), Z.mod_small by lia. done.
Qed.

(** An update of a run that is followed by the rest of the loop. *)
Definition updates (c : IM unit) (p calls : Z) : Prop :=
  exists ws, emits c ws /\ Z.of_nat (length ws) <= L * calls /\
    has_effect I ws (set_pages pe ent (Z.to_nat (hi - p)) p).

Lemma updates_pure {A} (c : IM A) (k : A -> IM unit) a p calls :
  (forall b, c b = Ok (a, b)) -> updates (k a) p calls -> updates (c ≫= k) p calls.
Proof. intros Hc (ws & E & H). exists ws. split; [by eapply emits_pure|done]. Qed.

Lemma updates_weaken c p calls calls' : calls <= calls' -> updates c p calls -> updates c p calls'.
Proof. intros H (ws & E & Hl & X). exists ws. pose proof L_nonneg. split; [done|split; [nia|done]]. Qed.

Lemma updates_call p n c calls :
  lo <= p -> 0 < n <= AMDGPU_VM_MAX_UPDATE_SIZE -> p + n <= hi -> adjacent p n ->
  updates c (p + n) calls -> updates (call_func params (pe p) (dst_of p) n flags;; c) p (1 + calls).
Proof.
  intros Hp Hn Hh Ha (ws' & E' & L' & X').
  destruct (call_ok p n Hp Hn Hh Ha) as (ws & E & Hl & X).
  exists (ws ++ ws'). split; [by apply emits_bind|]. split; [rewrite length_app; lia|].
  replace (Z.to_nat n) with (Z.to_nat (p + n - p)) in X by lia.
  intros rest m Hm. destruct (effect_app _ _ _ _ _ X X' rest m Hm) as [-> HI].
  rewrite set_pages_app' in * by lia. done.
Qed.

Lemma update_loop_ok k p n addr :
  lo <= p -> 0 < n <= AMDGPU_VM_MAX_UPDATE_SIZE -> addr = p + n -> addr <= hi ->
  (addr = hi \/ addr mod 2 ^ bs = 0) -> tables_left addr <= Z.of_nat k -> adjacent p n ->
  updates (update_ptes_loop bs k params pts hi flags addr (dst_of addr) (pe p) n (dst_of p)) p (1 + tables_left addr).
Proof.
  pose proof B_pos as HB. pose proof L_nonneg as HL. destruct (pass_range _ _ _ _ _ _ _ _ _ _ OK) as [Hr Hr'].
  revert p n addr. induction k as [|k IH]; intros p n addr Hp Hn Haddr Hle Hal Hk Hc.
  all: pose proof (tables_left_nonneg addr Hle) as HT; cbn [update_ptes_loop].
  all: destruct (Z.ltb_spec addr hi) as [Hlt|Hge];
    [destruct Hal as [|Hal]; [lia|]; pose proof (tables_left_step addr _ Hlt Hal eq_refl) as Hs;
     pose proof (tables_left_nonneg (addr + Z.min (hi - addr) (2 ^ bs)) ltac:(lia)); try lia
    |destruct (call_ok p n Hp Hn ltac:(lia) Hc) as (ws & H1 & H2 & H3); exists ws;
     replace (Z.to_nat (hi - p)) with (Z.to_nat n) by lia; split; [done|split; [nia|done]]].
  destruct (table_start addr ltac:(lia)) as [Ht Hpe].
  assert (Hnn : next_nptes bs addr hi = Z.min (hi - addr) (2 ^ bs)) by (rewrite next_nptes_spec, Hal by lia; lia).
  set (n' := Z.min (hi - addr) (2 ^ bs)) in *.
  assert (Hend : addr + n' = hi \/ (addr + n') mod 2 ^ bs = 0).
  { destruct (Z.min_spec (hi - addr) (2 ^ bs)) as [[? E]|[? E]]; subst n'; rewrite E; [left; lia|right].
    rewrite <- Z.add_mod_idemp_l, Hal by lia. apply Z.mod_same. lia. }
  assert (Hstep : u64 (addr + n') = addr + n') by (unfold u64; rewrite Z.mod_small; lia).
  assert (Hd := next_dst addr n' ltac:(lia) ltac:(lia) ltac:(lia)).
  assert (Ha : adjacent addr n') by (by apply adjacent_table).
  eapply updates_pure; [apply Ht|]. rewrite Hnn, Hpe, Hstep, Hd, run_end by (done || lia).
  destruct (Z.eqb_spec (pe p + 8 * n) (pe addr)) as [Ej|]; cbn [andb];
    [destruct (Z.leb_spec (u64 (n + n')) AMDGPU_VM_MAX_UPDATE_SIZE) as [Hm|]|].
  - assert (Hu : u64 (n + n') = n + n') by (unfold u64, AMDGPU_VM_MAX_UPDATE_SIZE in *; rewrite Z.mod_small; lia).
    rewrite Hu in *. apply (updates_weaken _ _ (1 + tables_left (addr + n'))); [lia|].
    apply IH; try done; try lia. by apply adjacent_join; [lia| |rewrite <- Haddr|rewrite <- Haddr].
  - rewrite Hs. apply updates_call; [done|done|lia|done|]. rewrite <- Haddr.
    apply IH; try done; unfold AMDGPU_VM_MAX_UPDATE_SIZE; lia.
  - rewrite Hs. apply updates_call; [done|done|lia|done|]. rewrite <- Haddr.
    apply IH; try done; unfold AMDGPU_VM_MAX_UPDATE_SIZE; lia.
Qed.

Lemma update_pass fuel :
  tables_left (lo / 2 ^ bs * 2 ^ bs) <= Z.of_nat fuel ->
  updates (amdgpu_vm_update_ptes bs fuel params pts lo hi dst flags) lo (tables_left (lo / 2 ^ bs * 2 ^ bs)).
Proof.
  intros Hf. pose proof B_pos as HB. destruct (pass_range _ _ _ _ _ _ _ _ _ _ OK) as [Hr Hr'].
  destruct (table_start lo ltac:(lia)) as [Ht Hpe].
  pose proof (next_nptes_spec lo hi ltac:(lia) ltac:(lia)) as Hn.
  pose proof (Z.div_mod lo (2 ^ bs) ltac:(lia)) as D. pose proof (Z.mod_pos_bound lo (2 ^ bs) ltac:(lia)).
  set (n := Z.min (hi - lo) (2 ^ bs - lo mod 2 ^ bs)) in *.
  assert (Hd := next_dst lo n ltac:(lia) ltac:(lia) ltac:(lia)).
  replace (dst_of lo) with dst in Hd by lia.
  eapply updates_pure; [apply Ht|]. cbv beta iota zeta. rewrite Hn, Hpe, Hd.
  replace (u64 (lo + n)) with (lo + n) by (unfold u64; rewrite Z.mod_small; lia).
  replace dst with (dst_of lo) at 2 by lia.
  assert (n = hi - lo /\ n < 2 ^ bs - lo mod 2 ^ bs \/ n = 2 ^ bs - lo mod 2 ^ bs) as Hcase by lia.
  assert (Hend : lo + n = hi \/ (lo + n) mod 2 ^ bs = 0).
  { destruct Hcase as [[-> _]|E]; [left; lia|right].
    replace (lo + n) with ((lo / 2 ^ bs + 1) * 2 ^ bs) by lia. apply Z.mod_mul. lia. }
  assert (Hl : tables_left (lo / 2 ^ bs * 2 ^ bs) = 1 + tables_left (lo + n)).
  { unfold tables_left. destruct Hcase as [[E Hlt]|E].
    - rewrite (Z.div_small (hi - (lo + n) + 2 ^ bs - 1)) by lia.
      symmetry. apply (Z.div_unique _ _ _ (hi - lo / 2 ^ bs * 2 ^ bs - 1)); lia.
    - replace (hi - lo / 2 ^ bs * 2 ^ bs + 2 ^ bs - 1) with (hi - (lo + n) + 2 ^ bs - 1 + 1 * 2 ^ bs) by lia.
      rewrite Z.div_add by lia. lia. }
  rewrite Hl. apply update_loop_ok; try done; try lia.
  - unfold AMDGPU_VM_MAX_UPDATE_SIZE. lia.
  - intros i Hi. apply pe_block; lia.
Qed.
End one.
End pass.

(** ** The two update functions *)

(** The number of page tables a range touches. *)
Definition tables (bs lo hi : Z) : Z := (hi - 1) / 2 ^ bs - lo / 2 ^ bs + 1.

(** Page tables at [base] for all pages from [lo] to [hi]: they exist, are
    aligned and do not reach the end of the address space. *)
Definition tables_at (bs : Z) (shadow : bool) (pts : list amdgpu_vm_pt) (base : Z -> Z) (lo hi : Z) : Prop :=
  forall i, lo / 2 ^ bs <= i <= (hi - 1) / 2 ^ bs ->
    (exists e o, pts !! Z.to_nat i = Some e /\ pt_bo e = Some o /\
       (if shadow then shadow_offset o else Some (gpu_offset o)) = Some (base i)) /\
    0 <= base i /\ base i mod 8 = 0 /\ base i + 8 * 2 ^ bs < 18446744073709551616.

Lemma tables_at_sub bs shadow pts base lo hi lo' hi' :
  0 <= bs -> lo <= lo' -> hi' <= hi -> tables_at bs shadow pts base lo hi -> tables_at bs shadow pts base lo' hi'.
Proof.
  intros Hbs Hl Hh Ht i Hi. assert (0 < 2 ^ bs) by lia.
  apply Ht. split; [etrans; [|apply Hi]|etrans; [apply Hi|]]; apply Z.div_le_mono; lia.
Qed.

Lemma pt_start_at bs params pts base lo hi i b :
  tables_at bs (params_shadow params) pts base lo hi -> lo / 2 ^ bs <= i <= (hi - 1) / 2 ^ bs ->
  pt_start params pts i b = Ok (Some (base i), b).
Proof.
  intros Ht Hi. destruct (Ht i Hi) as [(e & o & E1 & E2 & E3) _]. unfold pt_start.
  rewrite E1. cbn [deref]. rewrite (bind_eval (mret e) _ b e b eq_refl), E2. cbn [deref].
  rewrite (bind_eval (mret o) _ b o b eq_refl), E3. done.
Qed.

(** [n] 64-bit values [f 0 .. f (n - 1)] are at address [a]. *)
Definition holds (m : gpu_mem) (a n : Z) (f : Z -> Z) : Prop :=
  forall i, 0 <= i < n -> m !! (a / 4 + 2 * i) = Some (lower_32_bits (f i)) /\
                          m !! (a / 4 + 2 * i + 1) = Some (upper_32_bits (f i)).

Lemma load_entries (m : gpu_mem) (g : Z -> Z) (c : nat) b s :
  (forall i, 0 <= i < Z.of_nat c -> m !! (b + (s + 2 * i)) = Some (lower_32_bits (g i)) /\
                                     m !! (b + (s + 2 * i + 1)) = Some (upper_32_bits (g i))) ->
  mapM (fun i => m !! (b + i)) (seqZ s (2 * Z.of_nat c)) = Some (entries g (Z.of_nat c)).
Proof.
  revert g s. induction c as [|c IH]; intros g s H; [done|].
  rewrite entries_cons, !seqZ_cons by lia. destruct (H 0 ltac:(lia)) as [H0 H1].
  replace (s + 2 * 0) with s in H0, H1 by lia. cbn. unfold Z.succ. rewrite H0. cbn. rewrite H1. cbn.
  replace (Z.pred (Z.pred (2 * Z.of_nat (S c)))) with (2 * Z.of_nat c) by lia.
  replace (Z.of_nat (S c) - 1) with (Z.of_nat c) by lia.
  rewrite (IH (fun i => g (i + 1))); [done|].
  intros i Hi. destruct (H (i + 1) ltac:(lia)) as [Ha Hb].
  replace (s + 1 + 1 + 2 * i) with (s + 2 * (i + 1)) by lia. done.
Qed.

Lemma load_holds m a n f k c :
  holds m a n f -> a mod 4 = 0 -> 0 <= k -> 0 <= c -> k + c <= n ->
  load m (a + 8 * k) (2 * c) = Some (entries (fun i => f (k + i)) c).
Proof.
  intros H Ha Hk Hc Hn. unfold load. rewrite <- (Z2Nat.id c) by lia. apply load_entries.
  intros i Hi. replace ((a + 8 * k) / 4) with (a / 4 + 2 * k)
    by (replace (a + 8 * k) with (a + 2 * k * 4) by lia; by rewrite Z.div_add).
  destruct (H (k + i) ltac:(lia)) as [H0 H1].
  replace (a / 4 + 2 * k + (0 + 2 * i)) with (a / 4 + 2 * (k + i)) by lia.
  replace (a / 4 + 2 * k + (0 + 2 * i + 1)) with (a / 4 + 2 * (k + i) + 1) by lia. done.
Qed.

Section modes.
Context (F : amdgpu_vm_pte_funcs) (exec : list Z -> gpu_mem -> option gpu_mem) `{!PteEngine F exec}.
Context (bs : Z) (Hbs : 9 <= bs <= 17).

Lemma lor_disjoint a f : 0 <= f < 4096 -> a mod 4096 = 0 -> Z.lor a f = a + f.
Proof.
  intros Hf Ha. apply Z.mod_divide in Ha; [|lia]. destruct Ha as [k ->].
  rewrite <- Z.add_lor_land. replace (Z.land (k * 4096) f) with 0; [lia|].
  symmetry. apply Z.bits_inj_0. intros i. rewrite Z.land_spec.
  destruct (Z.lt_ge_cases i 12).
  - change 4096 with (2 ^ 12). by rewrite Z.mul_pow2_bits_low.
  - rewrite (testbit_high 12 f i) by (done || lia). apply andb_false_r.
Qed.

(** Setting entries: the addresses with the flags in their low bits, whichever
    of the two packets is used. *)
Lemma exec_set_ptes src pe a n incr flags ws m :
  is_u64 pe -> pe mod 8 = 0 -> 0 <= a -> a mod 4096 = 0 -> is_u32 incr -> incr mod 4096 = 0 ->
  a + n * incr < 18446744073709551616 -> 0 <= flags < 4096 -> 0 < n <= AMDGPU_VM_MAX_UPDATE_SIZE ->
  exec (amdgpu_vm_do_set_ptes F src pe a n incr flags ++ ws) m =
  exec ws (store m pe (entries (fun i => Z.lor (a + i * incr) flags) n)).
Proof.
  intros Hpe Hp8 Ha Ham Hi Him Hb Hf Hn. unfold amdgpu_vm_do_set_ptes.
  pose proof (Z.div_mod a 4096 ltac:(lia)) as Da. pose proof (Z.div_mod incr 4096 ltac:(lia)) as Di.
  assert (Hm : forall i, (a + i * incr) mod 4096 = 0).
  { intros i. rewrite Da, Di, Ham, Him. replace (_ + _) with ((a / 4096 + i * (incr / 4096)) * 4096) by lia. by apply Z.mod_mul. }
  destruct (Z.ltb_spec n 3).
  - rewrite lor_disjoint by done.
    rewrite exec_write; [|done|done|lia|unfold is_u32 in Hi; lia|nia|done]. f_equal. f_equal. apply entries_ext. intros i Hi'.
    rewrite lor_disjoint by done. lia.
  - rewrite exec_set; [done|done|done|done|done|done|unfold is_u32; lia|done].
Qed.

Lemma set_ptes_length src pe a n incr flags :
  0 < n -> Z.of_nat (length (amdgpu_vm_do_set_ptes F src pe a n incr flags)) <= Z.min 10 (6 * n).
Proof.
  intros Hn. unfold amdgpu_vm_do_set_ptes. destruct (Z.ltb_spec n 3).
  - pose proof (write_length (exec:=exec) pe (Z.lor a flags) n incr). lia.
  - pose proof (set_length (exec:=exec) pe a n incr flags). lia.
Qed.

Lemma set_pass src shadow pts base lo hi dst flags :
  0 <= lo < hi -> hi < 1099511627776 -> 0 <= dst -> dst mod 4096 = 0 ->
  dst + (hi - lo) * 4096 < 18446744073709551616 -> 0 <= flags < 4096 ->
  tables_at bs shadow pts base lo hi ->
  pass_ok exec bs (Params src (amdgpu_vm_do_set_ptes F) shadow) pts flags lo hi dst base
    (fun p => Z.lor (dst + (p - lo) * 4096) flags) (fun _ => True) 10.
Proof.
  intros Hr Hh Hd Hda Hdb Hf Ht. split; cbn [params_func params_src].
  - done.
  - done.
  - intros i Hi. split; [intros b; by eapply pt_start_at|]. by destruct (Ht i Hi).
  - intros p n pe ws m Hp Hn Hph Hpe Hpa _.
    rewrite exec_set_ptes by (done || lia || by rewrite Z.mod_add).
    f_equal. f_equal. apply entries_ext. intros i Hi. f_equal. lia.
  - intros p n pe Hn. pose proof (set_ptes_length src pe (dst + (p - lo) * 4096) n 4096 flags). lia.
  - done.
Qed.

(** Copying entries from [src + 8 * (dst / 4096)] on, as long as the source is
    not one of the entries that are written. *)
Definition apart (base : Z -> Z) (lo hi s n : Z) : Prop :=
  forall p, lo <= p < hi -> pe_of bs base p + 8 <= s \/ s + 8 * n <= pe_of bs base p.

Lemma holds_store m s n f a v :
  s mod 4 = 0 -> a mod 4 = 0 -> a + 8 <= s \/ s + 8 * n <= a -> holds m s n f -> holds (store m a (halves v)) s n f.
Proof.
  intros Hs Ha Hd H i Hi. apply Z.mod_divide in Hs as [x ->]; [|lia]. apply Z.mod_divide in Ha as [y ->]; [|lia].
  rewrite Z.div_mul in * by lia. destruct (H i Hi) as [H0 H1]. rewrite Z.div_mul in H0, H1 by lia.
  rewrite !store_other by (rewrite Z.div_mul by lia; cbn [length halves]; lia). done.
Qed.

Lemma copy_pass src shadow pts base lo hi dst flags g :
  0 <= lo < hi -> hi < 1099511627776 -> 0 <= dst -> dst mod 4096 = 0 ->
  dst + (hi - lo) * 4096 < 18446744073709551616 ->
  0 <= src -> src mod 4 = 0 -> src + 8 * (dst / 4096 + (hi - lo)) < 18446744073709551616 ->
  tables_at bs shadow pts base lo hi -> apart base lo hi (src + 8 * (dst / 4096)) (hi - lo) ->
  pass_ok exec bs (Params src (amdgpu_vm_do_copy_ptes F) shadow) pts flags lo hi dst base g
    (fun m => holds m (src + 8 * (dst / 4096)) (hi - lo) (fun i => g (lo + i))) 7.
Proof.
  intros Hr Hh Hd Hda Hdb Hs Hsa Hsb Ht Hap.
  assert (0 <= dst / 4096) by (apply Z.div_pos; lia).
  assert (Hs4 : (src + 8 * (dst / 4096)) mod 4 = 0).
  { replace (src + 8 * (dst / 4096)) with (src + 2 * (dst / 4096) * 4) by lia. by rewrite Z.mod_add. }
  split; cbn [params_func params_src].
  - done.
  - done.
  - intros i Hi. split; [intros b; by eapply pt_start_at|]. by destruct (Ht i Hi).
  - intros p n pe ws m Hp Hn Hph Hpe Hpa Hm. unfold amdgpu_vm_do_copy_ptes.
    rewrite Z.shiftr_div_pow2 by lia. change (2 ^ 12) with 4096. rewrite Z.div_add by lia.
    assert (E : u64 (src + u64 ((dst / 4096 + (p - lo)) * 8)) = src + 8 * (dst / 4096) + 8 * (p - lo)).
    { unfold u64. rewrite (Z.mod_small (_ * 8)), Z.mod_small by lia. lia. }
    rewrite E. rewrite (exec_copy _ _ _ _ _ (entries (fun i => g (p + i)) n)); [done|done|done| | |done|].
    + split; lia.
    + replace (src + 8 * (dst / 4096) + 8 * (p - lo)) with (src + 8 * (dst / 4096) + 2 * (p - lo) * 4) by lia.
      by rewrite Z.mod_add.
    + rewrite (load_holds _ _ _ _ _ _ Hm) by (done || lia). f_equal. apply entries_ext. intros i _. f_equal. lia.
  - intros p n pe _. apply (copy_length (exec:=exec)).
  - intros p m Hp Hm. apply holds_store; [done| |by apply Hap|done].
    destruct (Ht (p / 2 ^ bs)) as (_ & _ & H8 & _). { assert (0 < 2 ^ bs) by lia. split; apply Z.div_le_mono; lia. }
    unfold pe_of. apply Z.mod_divide in H8 as [k ->]; [|lia].
    replace (k * 8 + 8 * (p mod 2 ^ bs)) with ((2 * k + 2 * (p mod 2 ^ bs)) * 4) by lia. by apply Z.mod_mul.
Qed.

(** ** Fragments *)

Lemma frag_bounds start end_ :
  0 <= start < end_ -> end_ < 1099511627776 ->
  exists j k, frag_start_of start = 16 * j /\ frag_end_of end_ = 16 * k /\
    start <= 16 * j < start + 16 /\ end_ - 16 < 16 * k <= end_.
Proof.
  intros Hs He. unfold frag_start_of, frag_end_of, frag_align, AMDGPU_LOG2_PAGES_PER_FRAG.
  change (1 .<< 4 - 1) with (2 ^ 4 - 1). rewrite !land_lnot64 by (cint || lia).
  change (2 ^ 4) with 16. unfold u64. rewrite Z.mod_small by lia.
  exists ((start + (16 - 1)) / 16), (end_ / 16).
  pose proof (Z.div_mod (start + (16 - 1)) 16 ltac:(lia)). pose proof (Z.mod_pos_bound (start + (16 - 1)) 16 ltac:(lia)).
  pose proof (Z.div_mod end_ 16 ltac:(lia)). pose proof (Z.mod_pos_bound end_ 16 ltac:(lia)). lia.
Qed.

(** The entry of page [p]: its address and the flags, with the fragment size in
    the middle of a valid range. *)
Definition pte_value (flags start end_ dst p : Z) : Z :=
  Z.lor (dst + (p - start) * 4096)
    (if negb (Z.land flags AMDGPU_PTE_VALID =? 0) && (frag_start_of start <=? p) && (p <? frag_end_of end_)
     then Z.lor flags (AMDGPU_PTE_FRAG AMDGPU_LOG2_PAGES_PER_FRAG) else flags).

(** A range inside 16 aligned pages is inside one page table. *)
Lemma tables_frag lo hi k : 16 * k <= lo -> lo < hi <= 16 * k + 16 -> tables bs lo hi = 1.
Proof.
  intros Hk Hl. unfold tables. assert (2 ^ bs = 16 * 2 ^ (bs - 4)) as ->
    by (change 16 with (2 ^ 4); rewrite <- Z.pow_add_r by lia; f_equal; lia).
  assert (0 < 2 ^ (bs - 4)) by lia. rewrite <- !Z.div_div by lia.
  replace ((hi - 1) / 16) with k by (apply (Z.div_unique _ _ _ (hi - 1 - 16 * k)); lia).
  replace (lo / 16) with k by (apply (Z.div_unique _ _ _ (lo - 16 * k)); lia). lia.
Qed.

Lemma tables_sub lo hi lo' hi' : lo <= lo' -> hi' <= hi -> tables bs lo' hi' <= tables bs lo hi.
Proof.
  intros Hl Hh. unfold tables. assert (0 < 2 ^ bs) by lia.
  pose proof (Z.div_le_mono lo lo' (2 ^ bs)). pose proof (Z.div_le_mono (hi' - 1) (hi - 1) (2 ^ bs)). lia.
Qed.

(** A pass, with its page tables counted. *)
Lemma pass_updates params pts flags lo hi dst base ent I L fuel :
  pass_ok exec bs params pts flags lo hi dst base ent I L -> tables bs lo hi <= Z.of_nat fuel ->
  updates exec bs hi base ent I L (amdgpu_vm_update_ptes bs fuel params pts lo hi dst flags) lo (tables bs lo hi).
Proof.
  intros OK Hf. assert (Ht : tables_left bs hi (lo / 2 ^ bs * 2 ^ bs) = tables bs lo hi).
  { unfold tables_left, tables. assert (0 < 2 ^ bs) by lia.
    replace (hi - lo / 2 ^ bs * 2 ^ bs + 2 ^ bs - 1) with (hi - 1 + (1 - lo / 2 ^ bs) * 2 ^ bs) by lia.
    rewrite Z.div_add by lia. lia. }
  rewrite <- Ht in *. by eapply update_pass.
Qed.

Lemma updates_seq mid hi base ent I L c k p calls calls' :
  p <= mid <= hi ->
  updates exec bs mid base ent I L c p calls -> updates exec bs hi base ent I L k mid calls' ->
  updates exec bs hi base ent I L (c;; k) p (calls + calls').
Proof.
  intros Hm (ws & E & Hl & X) (ws' & E' & Hl' & X').
  exists (ws ++ ws'). split; [by apply emits_bind|]. split; [rewrite length_app; lia|].
  intros rest m Hm'. destruct (effect_app _ _ _ _ _ _ X X' rest m Hm') as [-> HI].
  rewrite set_pages_app' in * by lia. done.
Qed.

Lemma updates_ext hi base ent ent' I L c p calls :
  (forall q, p <= q < hi -> ent q = ent' q) ->
  updates exec bs hi base ent I L c p calls -> updates exec bs hi base ent' I L c p calls.
Proof.
  intros He (ws & E & Hl & X). exists ws. split; [done|split; [done|]].
  intros rest m Hm. destruct (X rest m Hm) as [E1 E2].
  rewrite <- (set_pages_ext _ ent ent') by (intros; apply He; lia). done.
Qed.

Lemma updates_none base ent I L p calls :
  0 <= L * calls -> updates exec bs p base ent I L (mret tt) p calls.
Proof.
  intros. exists []. split; [apply emits_nil|]. split; [cbn; lia|]. rewrite Z.sub_diag. apply effect_nil.
Qed.

(** A part of a range with its own flags. *)
Lemma set_part fuel shadow pts base start end_ dst lo hi flags calls :
  0 <= start -> start <= lo < hi -> hi <= end_ < 1099511627776 -> 0 <= dst -> dst mod 4096 = 0 ->
  dst + (end_ - start) * 4096 < 18446744073709551616 -> 0 <= flags < 4096 ->
  tables_at bs shadow pts base start end_ -> tables bs start end_ <= Z.of_nat fuel -> tables bs lo hi <= calls ->
  updates exec bs hi base (fun p => Z.lor (dst + (p - start) * 4096) flags) (fun _ => True) 10
    (amdgpu_vm_update_ptes bs fuel (Params 0 (amdgpu_vm_do_set_ptes F) shadow) pts lo hi (dst + (lo - start) * 4096) flags)
    lo calls.
Proof.
  intros H0 Hl Hh Hd Hda Hdb Hf Ht Hfuel Hc. pose proof (tables_sub start end_ lo hi ltac:(lia) ltac:(lia)).
  apply (updates_ext _ _ (fun p => Z.lor (dst + (lo - start) * 4096 + (p - lo) * 4096) flags)).
  { intros q _. f_equal. lia. }
  assert (OK : pass_ok exec bs (Params 0 (amdgpu_vm_do_set_ptes F) shadow) pts flags lo hi
    (dst + (lo - start) * 4096) base
    (fun p => Z.lor (dst + (lo - start) * 4096 + (p - lo) * 4096) flags) (fun _ => True) 10).
  { apply set_pass; try lia; [by rewrite Z.mod_add|]. by eapply tables_at_sub; [| | |apply Ht]; lia. }
  destruct (pass_updates _ _ _ _ _ _ _ _ _ _ fuel OK ltac:(lia)) as (ws & E & Hw & X).
  exists ws. split; [done|split; [lia|done]].
Qed.

Lemma set_first fuel shadow pts base start end_ dst hi flags calls :
  0 <= start < hi -> hi <= end_ < 1099511627776 -> 0 <= dst -> dst mod 4096 = 0 ->
  dst + (end_ - start) * 4096 < 18446744073709551616 -> 0 <= flags < 4096 ->
  tables_at bs shadow pts base start end_ -> tables bs start end_ <= Z.of_nat fuel -> tables bs start hi <= calls ->
  updates exec bs hi base (fun p => Z.lor (dst + (p - start) * 4096) flags) (fun _ => True) 10
    (amdgpu_vm_update_ptes bs fuel (Params 0 (amdgpu_vm_do_set_ptes F) shadow) pts start hi dst flags) start calls.
Proof.
  intros. pose proof (set_part fuel shadow pts base start end_ dst start hi flags calls) as H'.
  replace (dst + (start - start) * 4096) with dst in H' by lia. apply H'; done || lia.
Qed.

Lemma frag_set fuel shadow pts base start end_ dst flags :
  0 <= start < end_ -> end_ < 1099511627776 -> 0 <= dst -> dst mod 4096 = 0 ->
  dst + (end_ - start) * 4096 < 18446744073709551616 -> 0 <= flags < 4096 ->
  tables_at bs shadow pts base start end_ -> tables bs start end_ <= Z.of_nat fuel ->
  updates exec bs end_ base (pte_value flags start end_ dst) (fun _ => True) 10
    (amdgpu_vm_frag_ptes bs fuel (Params 0 (amdgpu_vm_do_set_ptes F) shadow) pts start end_ dst flags)
    start (1 + (tables bs start end_ + 1)).
Proof.
  intros Hs He Hd Hda Hdb Hf Ht Hfuel.
  destruct (frag_bounds start end_ Hs He) as (j & k & Ej & Ek & Hj & Hk).
  unfold amdgpu_vm_frag_ptes, pte_value, AMDGPU_GPU_PAGE_SIZE. cbn [params_src negb Z.eqb orb]. rewrite Ej, Ek.
  assert (Hwhole : updates exec bs end_ base (fun p => Z.lor (dst + (p - start) * 4096) flags) (fun _ => True) 10
    (amdgpu_vm_update_ptes bs fuel (Params 0 (amdgpu_vm_do_set_ptes F) shadow) pts start end_ dst flags)
    start (1 + (tables bs start end_ + 1))).
  { apply (set_first _ _ _ _ _ end_); done || lia. }
  destruct (Z.eqb_spec (Z.land flags AMDGPU_PTE_VALID) 0) as [Ev|Ev]; cbn [orb negb andb]; [done|].
  destruct (Z.leb_spec (16 * k) (16 * j)) as [Hjk|Hjk].
  { eapply updates_ext; [|exact Hwhole].
    intros q _. cbn beta. destruct (Z.leb_spec (16 * j) q), (Z.ltb_spec q (16 * k)); cbn [andb]; f_equal; lia. }
  assert (Hff : 0 <= Z.lor flags (AMDGPU_PTE_FRAG AMDGPU_LOG2_PAGES_PER_FRAG) < 4096)
    by (apply (lor_bound 12); [lia|done|vm_compute; split; congruence]).
  assert (E1 : (if negb (start =? 16 * j) then u64 (dst + u64 ((16 * j - start) * 4096)) else dst) =
               dst + (16 * j - start) * 4096).
  { destruct (Z.eqb_spec start (16 * j)); cbn [negb]; [lia|]. unfold u64. rewrite (Z.mod_small (_ * 4096)), Z.mod_small by lia. done. }
  rewrite E1.
  replace (u64 (dst + (16 * j - start) * 4096 + u64 ((16 * k - 16 * j) * 4096))) with (dst + (16 * k - start) * 4096)
    by (unfold u64; rewrite (Z.mod_small (_ * 4096)), Z.mod_small by lia; lia).
  apply (updates_seq (16 * j)); [lia| |apply (updates_seq (16 * k)); [lia| |]].
  - destruct (Z.eqb_spec start (16 * j)) as [<-|]; cbn [negb].
    { by apply updates_none. }
    eapply updates_ext; [|apply (set_first _ _ _ _ _ end_); try done; try lia;
      rewrite (tables_frag start (16 * j) (j - 1)); lia].
    intros q Hq. cbn beta. destruct (Z.leb_spec (16 * j) q); [lia|done].
  - eapply updates_ext; [|apply (set_part _ _ _ _ start end_); try done; try lia; apply tables_sub; lia].
    intros q Hq. cbn beta. destruct (Z.leb_spec (16 * j) q), (Z.ltb_spec q (16 * k)); try lia. done.
  - destruct (Z.eqb_spec (16 * k) end_) as [<-|]; cbn [negb].
    { by apply updates_none. }
    eapply updates_ext; [|apply (set_part _ _ _ _ start end_ dst (16 * k) end_ flags); try done; try lia;
      rewrite (tables_frag (16 * k) end_ k); lia].
    intros q Hq. cbn beta. destruct (Z.ltb_spec q (16 * k)); [lia|]. by rewrite andb_false_r.
Qed.
End modes.
