(* ===== verification/PageUpdate.v ===== *)
(** * Updating a mapping: the buffer is large enough and sets every entry

    [amdgpu_vm_bo_update_mapping] as a whole: the packets of both passes (over
    the shadows of the page tables and over the page tables) fit into the
    buffer that was sized for them, and their execution leaves exactly the new
    entries in memory. *)

From stdpp Require Import base numbers list gmap option.
From S2P Require Import Prelude CMonad Engines VmEngine PageTable PageTableSpec.

(** The shadows of the page tables of a range: at [base], or none. *)
Definition shadows_at (bs : Z) (pts : list amdgpu_vm_pt) (sh : option (Z -> Z)) (lo hi : Z) : Prop :=
  match sh with
  | Some base => tables_at bs true pts base lo hi
  | None => forall i, lo / 2 ^ bs <= i <= (hi - 1) / 2 ^ bs ->
      exists e o, pts !! Z.to_nat i = Some e /\ pt_bo e = Some o /\ shadow_offset o = None
  end.

(** The effect of a pass over the shadows, if there are any. *)
Definition shadow_pages (bs : Z) (sh : option (Z -> Z)) (ent : Z -> Z) (n : nat) (p : Z) (m : gpu_mem) : gpu_mem :=
  match sh with
  | Some base => set_pages (pe_of bs base) ent n p m
  | None => m
  end.

(** The buffer is sized for one pass: with shadows the second one fits when the
    page tables are large enough for the estimate to be generous, or when the
    range is smaller than a page table. *)
Definition fits (bs : Z) (sh : option (Z -> Z)) (n : Z) : Prop :=
  sh = None \/ 12 <= bs \/ n < 2 ^ bs.

Definition env_ok (env : update_env) : Prop :=
  alloc_r env = 0 /\ sync_fence_r env = 0 /\ sync_resv_r env = 0 /\ reserve_r env = 0 /\ submit_r env = 0.

Section mapping.
Context (F : amdgpu_vm_pte_funcs) (exec : list Z -> gpu_mem -> option gpu_mem) `{!PteEngine F exec}.
Context (bs : Z) (Hbs : 9 <= bs <= 17).

Lemma no_shadow_update fuel src func pts lo hi dst flags :
  shadows_at bs pts None lo hi -> 0 <= lo < hi ->
  emits (amdgpu_vm_update_ptes bs fuel (Params src func true) pts lo hi dst flags) [].
Proof.
  intros H Hr. assert (0 < 2 ^ bs) by lia.
  destruct (H (lo / 2 ^ bs)) as (e & o & E1 & E2 & E3); [split; [lia|apply Z.div_le_mono; lia]|].
  unfold amdgpu_vm_update_ptes, pt_start. rewrite Z.shiftr_div_pow2, E1 by lia. cbn [deref].
  apply (emits_pure _ _ None); [|apply emits_nil].
  intros b. rewrite (bind_eval (mret e) _ b e b eq_refl), E2. cbn [deref].
  by rewrite (bind_eval (mret o) _ b o b eq_refl), E3.
Qed.

Lemma shadows_none_sub pts lo hi lo' hi' :
  shadows_at bs pts None lo hi -> lo <= lo' -> hi' <= hi -> shadows_at bs pts None lo' hi'.
Proof.
  intros H Hl Hh i Hi. assert (0 < 2 ^ bs) by lia.
  apply H. split; [etrans; [|apply Hi]|etrans; [apply Hi|]]; apply Z.div_le_mono; lia.
Qed.

Lemma no_shadow_frag fuel src func pts start end_ dst flags :
  shadows_at bs pts None start end_ -> 0 <= start < end_ -> end_ < 1099511627776 ->
  emits (amdgpu_vm_frag_ptes bs fuel (Params src func true) pts start end_ dst flags) [].
Proof.
  intros H Hr He. destruct (frag_bounds start end_ Hr He) as (j & k & Ej & Ek & Hj & Hk).
  unfold amdgpu_vm_frag_ptes. rewrite Ej, Ek. destruct (_ || _ || _) eqn:Eo; [by apply no_shadow_update|].
  apply orb_false_elim in Eo as [_ Ejk]. apply Z.leb_gt in Ejk.
  apply (emits_bind _ _ [] []); [|apply (emits_bind _ _ [] [])].
  - destruct (Z.eqb_spec start (16 * j)); [apply emits_nil|].
    apply no_shadow_update; [eapply shadows_none_sub; [exact H| |]|]; lia.
  - apply no_shadow_update; [eapply shadows_none_sub; [exact H| |]|]; lia.
  - destruct (Z.eqb_spec (16 * k) end_); [apply emits_nil|].
    apply no_shadow_update; [eapply shadows_none_sub; [exact H| |]|]; lia.
Qed.

(** Number of packets against the estimate. *)
Lemma tables_estimate start n :
  0 < n -> 0 <= start -> tables bs start (start + n) <= n / 2 ^ bs + 2.
Proof.
  intros Hn Hs. unfold tables. assert (0 < 2 ^ bs) by lia.
  pose proof (Z.div_mod start (2 ^ bs) ltac:(lia)). pose proof (Z.mod_pos_bound start (2 ^ bs) ltac:(lia)).
  pose proof (Z.div_mod n (2 ^ bs) ltac:(lia)). pose proof (Z.mod_pos_bound n (2 ^ bs) ltac:(lia)).
  enough ((start + n - 1) / 2 ^ bs < start / 2 ^ bs + n / 2 ^ bs + 2) by lia.
  apply Z.div_lt_upper_bound; [lia|]. lia.
Qed.

Lemma ncmds_estimate n :
  0 < n < 134217728 ->
  n / 2 ^ bs + 1 <= update_ncmds bs n <= 262145 /\ (12 <= bs -> 2 * (n / 2 ^ bs) + 1 <= update_ncmds bs n).
Proof.
  intros Hn. unfold update_ncmds. rewrite Z.shiftr_div_pow2 by lia.
  set (k := Z.min bs 11). assert (Hk : 9 <= k <= 11) by lia.
  assert (H9 : n / 2 ^ k <= n / 512).
  { change 512 with (2 ^ 9). apply Z.div_le_compat_l; [lia|]. split; [lia|apply Z.pow_le_mono_r; lia]. }
  assert (n / 512 <= 262144) by (apply Z.div_le_upper_bound; lia).
  assert (0 <= n / 2 ^ k) by (apply Z.div_pos; lia).
  unfold u32. rewrite Z.mod_small by lia.
  assert (Hd : n / 2 ^ bs <= n / 2 ^ k).
  { apply Z.div_le_compat_l; [lia|]. split; [lia|apply Z.pow_le_mono_r; lia]. }
  split; [lia|]. intros H12. replace k with 11 by lia.
  assert (2 * (n / 2 ^ bs) <= n / 2 ^ 11); [|lia].
  apply Z.div_le_lower_bound; [lia|].
  assert (2 ^ 12 <= 2 ^ bs) by (apply Z.pow_le_mono_r; lia).
  pose proof (Z.mul_div_le n (2 ^ bs) ltac:(lia)). assert (0 <= n / 2 ^ bs) by (apply Z.div_pos; lia). nia.
Qed.

(** Both passes and the padding. *)
Lemma two_passes sh base ent I L calls start end_ (c1 c2 : IM unit) r cap b :
  match sh with
  | Some base' => updates exec bs end_ base' ent I L c1 start calls
  | None => emits c1 []
  end ->
  updates exec bs end_ base ent I L c2 start calls ->
  (match sh with Some _ => 2 | None => 1 end) * (L * calls) + 7 <= cap -> room b cap ->
  exists ws, Z.of_nat (length ws) <= cap /\
    (c1;; c2;; b' ← gets id; ib_writes (pad_ib F (ib_fill b'));; mret r : IM Z) b = Ok (r, appended b ws) /\
    forall m, I m -> exec ws m =
      Some (set_pages (pe_of bs base) ent (Z.to_nat (end_ - start)) start
              (shadow_pages bs sh ent (Z.to_nat (end_ - start)) start m)).
Proof.
  intros H1 (ws2 & E2 & L2 & X2) Hcap Hroom.
  assert (exists ws1, emits c1 ws1 /\ Z.of_nat (length ws1) + L * calls + 7 <= cap /\
    has_effect exec I ws1 (shadow_pages bs sh ent (Z.to_nat (end_ - start)) start)) as (ws1 & E1 & L1 & X1).
  { destruct sh as [base'|].
    - destruct H1 as (ws1 & E1 & L1 & X1). exists ws1. split; [done|split; [lia|done]].
    - exists []. split; [done|split; [cbn; lia|apply effect_nil]]. }
  set (pad := pad_ib F (ib_fill (appended b (ws1 ++ ws2)))).
  pose proof (pad_length (exec:=exec) (ib_fill (appended b (ws1 ++ ws2)))) as Lp. fold pad in Lp.
  exists ((ws1 ++ ws2) ++ pad). split; [rewrite !length_app; lia|].
  assert (Hr : room b (Z.of_nat (length ((ws1 ++ ws2) ++ pad)))).
  { destruct Hroom as [? [? ?]]. rewrite !length_app. split; [done|split; lia]. }
  split.
  - assert (Hr2 : room b (Z.of_nat (length (ws1 ++ ws2)))).
    { destruct Hr as [? [Hr ?]]. rewrite length_app in Hr. split; [done|split; lia]. }
    pose proof (emits_bind _ _ _ _ E1 E2 b Hr2) as Hb.
    assert (Hr1 : room b (Z.of_nat (length ws1))).
    { destruct Hr2 as [? [Hr2 ?]]. rewrite length_app in Hr2. split; [done|split; lia]. }
    rewrite (bind_eval c1 _ b tt _ (E1 b Hr1)) in Hb. rewrite (bind_eval c1 _ b tt _ (E1 b Hr1)).
    rewrite (bind_eval c2 _ _ tt _ Hb).
    rewrite (bind_eval (gets id) _ (appended b (ws1 ++ ws2)) _ _ eq_refl). cbn [id]. fold pad.
    rewrite (bind_eval (ib_writes pad) _ _ tt (appended b ((ws1 ++ ws2) ++ pad))); [done|].
    rewrite emits_writes by (apply appended_room; [by rewrite <- Nat2Z.inj_add, <- length_app|lia]).
    by rewrite appended_app.
  - intros m Hm. rewrite <- app_assoc. destruct (X1 (ws2 ++ pad) m Hm) as [-> Hm1].
    destruct (X2 pad _ Hm1) as [-> _]. apply exec_pad.
Qed.

Lemma fresh_room g ndw : 0 <= ndw < 4294967296 -> room (PteIb (map g (seq 0 (Z.to_nat ndw))) 0) ndw.
Proof. intros H. unfold room. cbn [ib_ptr ib_fill]. rewrite length_map, length_seq. lia. Qed.

Lemma fresh_words b ws : ib_fill b = 0 -> take (length ws) (ib_ptr (appended b ws)) = ws.
Proof. intros E. unfold appended. rewrite E. cbn [ib_ptr]. rewrite Z2Nat.inj_0, take_0, app_nil_l.
  by rewrite take_app_length. Qed.

Lemma ndw_range src pages n : 0 <= update_ndw bs src pages n < 4294967296.
Proof. unfold update_ndw. destruct (negb _); [apply u32_range|]. destruct pages; apply u32_range. Qed.

(** The space a set update reserves. *)
Lemma set_space sh n calls :
  0 < n < 134217728 -> fits bs sh n -> calls <= n / 2 ^ bs + 4 ->
  (match sh with Some _ => 2 | None => 1 end) * (10 * calls) + 7 <= update_ndw bs 0 None n < 4294967296.
Proof.
  intros Hn Hf Hc. destruct (ncmds_estimate n Hn) as [He He']. unfold update_ndw. cbn [negb Z.eqb].
  assert (0 <= n / 2 ^ bs) by (apply Z.div_pos; lia).
  unfold u32. rewrite (Z.mod_small (_ * 10)), (Z.mod_small (64 + _)), Z.mod_small by lia.
  destruct sh as [base|]; [|lia]. destruct Hf as [|[Hf|Hf]]; [done|specialize (He' Hf); lia|].
  rewrite Z.div_small in * by lia. lia.
Qed.
End mapping.

(** Every page table of a range is in a place of its own. *)
Definition separate (bs : Z) (base : Z -> Z) (lo hi : Z) : Prop :=
  forall i j, lo / 2 ^ bs <= i <= (hi - 1) / 2 ^ bs -> lo / 2 ^ bs <= j <= (hi - 1) / 2 ^ bs -> i <> j ->
    base i + 8 * 2 ^ bs <= base j \/ base j + 8 * 2 ^ bs <= base i.

Section layout.
Context (bs : Z) (Hbs : 9 <= bs <= 17) (pts : list amdgpu_vm_pt) (base : Z -> Z) (start end_ : Z)
  (Ht : tables_at bs false pts base start end_).

Lemma pe_aligned p : start <= p < end_ -> pe_of bs base p mod 4 = 0.
Proof.
  intros Hp. assert (0 < 2 ^ bs) by lia.
  destruct (Ht (p / 2 ^ bs)) as (_ & _ & H8 & _); [split; apply Z.div_le_mono; lia|].
  apply Z.mod_divide in H8 as [k E]; [|lia]. unfold pe_of. rewrite E.
  replace (k * 8 + 8 * (p mod 2 ^ bs)) with ((2 * k + 2 * (p mod 2 ^ bs)) * 4) by lia. by apply Z.mod_mul.
Qed.

Lemma pe_separate p q :
  separate bs base start end_ -> start <= p < end_ -> start <= q < end_ -> p <> q ->
  pe_of bs base p + 8 <= pe_of bs base q \/ pe_of bs base q + 8 <= pe_of bs base p.
Proof.
  intros Hs Hp Hq Hne. assert (0 < 2 ^ bs) by lia. unfold pe_of.
  pose proof (Z.div_mod p (2 ^ bs) ltac:(lia)). pose proof (Z.mod_pos_bound p (2 ^ bs) ltac:(lia)).
  pose proof (Z.div_mod q (2 ^ bs) ltac:(lia)). pose proof (Z.mod_pos_bound q (2 ^ bs) ltac:(lia)).
  destruct (decide (p / 2 ^ bs = q / 2 ^ bs)) as [E|E]; [rewrite E; rewrite E in *; lia|].
  destruct (Hs (p / 2 ^ bs) (q / 2 ^ bs)); [split; apply Z.div_le_mono; lia..|done|lia|lia].
Qed.

(** Page tables apart from each other: every page has its entry. *)
Lemma set_pages_all ent m p :
  separate bs base start end_ -> start <= p < end_ -> is_u64 (ent p) ->
  entry_at (set_pages (pe_of bs base) ent (Z.to_nat (end_ - start)) start m) (pe_of bs base p) = Some (ent p).
Proof.
  intros Hs Hp He. apply set_pages_entry; [lia|done| |].
  - intros x Hx. apply pe_aligned. lia.
  - intros x y Hx Hy Hne. apply pe_separate; [done|lia|lia|done].
Qed.
End layout.

Lemma pte_value_u64 flags start end_ dst p :
  0 <= flags < 4096 -> 0 <= dst -> dst mod 4096 = 0 -> dst + (end_ - start) * 4096 < 18446744073709551616 ->
  start <= p < end_ -> is_u64 (pte_value flags start end_ dst p).
Proof.
  intros Hf Hd Hda Hb Hp. unfold pte_value.
  set (f := if _ && _ && _ then _ else _).
  assert (0 <= f < 4096) by (subst f; destruct (_ && _); [|done]; apply (lor_bound 12); [lia|done|vm_compute; split; congruence]).
  rewrite lor_disjoint; [|done|by rewrite Z.mod_add]. pose proof (Z.div_mod dst 4096 ltac:(lia)). unfold is_u64. lia.
Qed.

(** C7: an update with one contiguous destination (video memory, or clearing) of
    page tables without shadows fits into the indirect buffer that
    [amdgpu_vm_bo_update_mapping] sizes for it; of page tables with shadows it
    fits when a table has at least 4096 entries or the range is smaller than a
    table ([fits]; otherwise the buffer can be too small, see
    [shadow_update_overruns]).  It then succeeds, with one packet for
    neighbouring page tables and with two kinds of packets, and executing the
    buffer has exactly the effect of writing the entries one by one: for every
    page the destination address and the flags, with the fragment size on the
    aligned blocks of 16 pages of a valid range, in the shadows of the page
    tables and in the page tables.  When the page tables do not overlap, a walk
    finds every page's entry.  The buffer can be allocated and submitted
    ([env_ok]), and the range has less than 2^27 pages. *)
Theorem update_mapping_sets_pages (F : amdgpu_vm_pte_funcs) (exec : list Z -> gpu_mem -> option gpu_mem)
    (bs : Z) (env : update_env) (pts : list amdgpu_vm_pt) (base : Z -> Z) (sh : option (Z -> Z))
    (start last flags addr : Z) (fuel : nat) :
  PteEngine F exec -> 9 <= bs <= 17 -> env_ok env ->
  0 <= start <= last -> last < 549755813888 -> last - start < 134217727 ->
  0 <= addr -> addr mod 4096 = 0 -> addr + (last + 1 - start) * 4096 < 18446744073709551616 -> 0 <= flags < 4096 ->
  tables_at bs false pts base start (last + 1) -> shadows_at bs pts sh start (last + 1) ->
  fits bs sh (last + 1 - start) -> tables bs start (last + 1) <= Z.of_nat fuel ->
  exists ib, amdgpu_vm_bo_update_mapping F bs fuel env 0 None pts start last flags addr = Ok (0, Some ib) /\
    forall m, exists m', exec (take (Z.to_nat (ib_fill ib)) (ib_ptr ib)) m = Some m' /\
      m' = set_pages (pe_of bs base) (pte_value flags start (last + 1) addr) (Z.to_nat (last + 1 - start)) start
             (shadow_pages bs sh (pte_value flags start (last + 1) addr) (Z.to_nat (last + 1 - start)) start m) /\
      (separate bs base start (last + 1) -> forall p, start <= p <= last ->
         entry_at m' (pe_of bs base p) = Some (pte_value flags start (last + 1) addr p)).
Proof.
  intros HE Hbs (Ha & Hs1 & Hs2 & Hs3 & Hs4) Hr Hl Hn Hd Hda Hdb Hf Ht Hsh Hfit Hfuel.
  set (n := last + 1 - start).
  pose proof (tables_estimate bs Hbs start n ltac:(lia) ltac:(lia)) as Hest.
  replace (start + n) with (last + 1) in Hest by lia.
  destruct (set_space bs Hbs sh n (1 + (tables bs start (last + 1) + 1)) ltac:(lia) Hfit ltac:(lia)) as [Hsp Hsp'].
  unfold amdgpu_vm_bo_update_mapping.
  replace (u32 (last - start + 1)) with n by (unfold u32; rewrite Z.mod_small; lia).
  replace (u64 (last + 1)) with (last + 1) by (unfold u64; rewrite Z.mod_small; lia).
  rewrite Ha, Hs1, Hs2, Hs3, Hs4. cbn [Z.eqb negb].
  set (b0 := PteIb _ 0).
  destruct (two_passes F exec bs sh base (pte_value flags start (last + 1) addr) (fun _ => True) 10
    (1 + (tables bs start (last + 1) + 1)) start (last + 1)
    (amdgpu_vm_frag_ptes bs fuel (Params 0 (amdgpu_vm_do_set_ptes F) true) pts start (last + 1) addr flags)
    (amdgpu_vm_frag_ptes bs fuel (Params 0 (amdgpu_vm_do_set_ptes F) false) pts start (last + 1) addr flags)
    0 (update_ndw bs 0 None n) b0) as (ws & Hlw & Hrun & Hex).
  - destruct sh as [base'|]; [apply (frag_set F exec bs Hbs); done || lia|].
    apply (no_shadow_frag bs Hbs); done || lia.
  - apply (frag_set F exec bs Hbs); done || lia.
  - done.
  - apply fresh_room, ndw_range.
  - rewrite (bind_eval (mret tt) _ b0 tt b0 eq_refl). rewrite Hrun. eexists. split; [done|].
    intros m. unfold appended at 1. cbn [ib_fill]. change (ib_fill b0) with 0.
    rewrite Z.add_0_l, Nat2Z.id, fresh_words by done. eexists. split; [by apply Hex|]. split; [done|].
    intros Hsep p Hp. eapply set_pages_all; [done|done|done|lia|]. apply pte_value_u64; done || lia.
Qed.

(** ** Copying entries *)

Lemma entries_lookup f n i :
  0 <= i < n -> entries f n !! Z.to_nat (2 * i) = Some (lower_32_bits (f i)) /\
                entries f n !! Z.to_nat (2 * i + 1) = Some (upper_32_bits (f i)).
Proof.
  intros Hi. replace n with (i + (n - i)) by lia. rewrite entries_app by lia.
  pose proof (entries_length f i ltac:(lia)) as Hl.
  rewrite !lookup_app_r by lia. rewrite (entries_cons _ (n - i)) by lia.
  replace (Z.to_nat (2 * i) - length (entries f i))%nat with 0%nat by lia.
  replace (Z.to_nat (2 * i + 1) - length (entries f i))%nat with 1%nat by lia.
  replace (i + 0) with i by lia. done.
Qed.

(** Entries inside a block of memory. *)
Lemma holds_stored m a pre post f n :
  a mod 4 = 0 -> 0 <= n ->
  holds (store m a (pre ++ entries f n ++ post)) (a + 4 * Z.of_nat (length pre)) n f.
Proof.
  intros Ha Hn i Hi. apply Z.mod_divide in Ha as [x ->]; [|lia].
  replace (x * 4 + 4 * Z.of_nat (length pre)) with ((x + Z.of_nat (length pre)) * 4) by lia.
  unfold store. rewrite !Z.div_mul by lia. destruct (entries_lookup f n i Hi) as [H0 H1].
  pose proof (entries_length f n Hn) as Hl.
  split; apply lookup_union_Some_l, lookup_map_seqZ_Some; (split; [lia|]).
  - replace (Z.to_nat _) with (length pre + Z.to_nat (2 * i))%nat by lia.
    rewrite lookup_app_r by lia. rewrite Nat.add_comm, Nat.add_sub. by rewrite lookup_app_l by lia.
  - replace (Z.to_nat _) with (length pre + Z.to_nat (2 * i + 1))%nat by lia.
    rewrite lookup_app_r by lia. rewrite Nat.add_comm, Nat.add_sub. by rewrite lookup_app_l by lia.
Qed.

Lemma insert_pair (l : list Z) k a b :
  (S k < length l)%nat -> <[S k := b]> (<[k := a]> l) = take k l ++ [a; b] ++ drop (S (S k)) l.
Proof.
  intros Hk. rewrite (insert_take_drop l k a) by lia.
  assert (length (take k l) = k) as Ht by (rewrite length_take; lia).
  replace (S k) with (length (take k l) + 1)%nat at 1 by lia. rewrite insert_app_r. f_equal. cbn. f_equal.
  destruct (drop (S k) l) as [|x r] eqn:E.
  - apply (f_equal length) in E. rewrite length_drop in E. cbn in E. lia.
  - cbn. f_equal. replace (S (S k)) with (S k + 1)%nat by lia. by rewrite <- drop_drop, E.
Qed.

(** The value [amdgpu_vm_map_gart] finds for the [i]-th page behind [addr]. *)
Definition gart_value (pages : list Z) (addr flags i : Z) : Z :=
  Z.lor (Z.land (nth (Z.to_nat (addr / 4096 + i)) pages 0) 0xfffffffffffff000) flags.

Lemma fill_ptes_ok pages addr flags idx n i b :
  0 <= idx -> 0 <= i -> 0 <= addr -> addr mod 4096 = 0 -> i + Z.of_nat n <= 1048576 ->
  addr / 4096 + i + Z.of_nat n <= Z.of_nat (length pages) -> addr < 9223372036854775808 ->
  idx + 2 * (i + Z.of_nat n) <= Z.of_nat (length (ib_ptr b)) ->
  fill_ptes n i pages addr flags idx b =
  Ok (tt, PteIb (take (Z.to_nat (idx + 2 * i)) (ib_ptr b) ++
                 entries (fun j => gart_value pages addr flags (i + j)) (Z.of_nat n) ++
                 drop (Z.to_nat (idx + 2 * (i + Z.of_nat n))) (ib_ptr b)) (ib_fill b)).
Proof.
  intros Hidx Hi Ha Ham. revert i b Hi. induction n as [|n IH]; intros i b Hi Hn Hp Hab Hl.
  { cbn [fill_ptes]. change (entries _ (Z.of_nat 0)) with (@nil Z). rewrite app_nil_l, Z.add_0_r, take_drop. by destruct b. }
  cbn [fill_ptes]. unfold amdgpu_vm_map_gart at 1.
  assert (Ea : u64 (addr + u32 (i * AMDGPU_GPU_PAGE_SIZE)) = (addr / 4096 + i) * 4096).
  { unfold AMDGPU_GPU_PAGE_SIZE, u32, u64. rewrite (Z.mod_small (i * 4096)), Z.mod_small by lia.
    pose proof (Z.div_mod addr 4096). lia. }
  assert (0 <= addr / 4096) by (apply Z.div_pos; lia).
  rewrite Ea, Z.shiftr_div_pow2 by lia. change (2 ^ 12) with 4096. rewrite Z.div_mul by lia.
  destruct (lookup_lt_is_Some_2 pages (Z.to_nat (addr / 4096 + i)) ltac:(lia)) as [v Hv].
  assert (Hm : Z.land ((addr / 4096 + i) * 4096) 0xfff = 0)
    by (change 0xfff with (2 ^ 12 - 1); rewrite land_pow2 by lia; by apply Z.mod_mul).
  rewrite (bind_eval _ _ b (Z.land v 0xfffffffffffff000) b) by (rewrite Hv, Hm; cbn [deref];
    rewrite (bind_eval (mret v) _ b v b eq_refl), Z.lor_0_r; done).
  rewrite (bind_eval (gets id) _ b b b eq_refl). cbn [id].
  destruct (Z.ltb_spec (idx + 2 * i + 1) (Z.of_nat (length (ib_ptr b)))); [|lia].
  assert (Hg : Z.lor (Z.land v 0xfffffffffffff000) flags = gart_value pages addr flags i)
    by (unfold gart_value; by rewrite (nth_lookup_Some _ _ _ _ Hv)).
  rewrite Hg. replace (Z.to_nat (idx + 2 * i + 1)) with (S (Z.to_nat (idx + 2 * i))) by lia.
  rewrite (bind_eval (modify _) _ b tt _ eq_refl), insert_pair by lia.
  set (k := Z.to_nat (idx + 2 * i)).
  assert (Hk : length (take k (ib_ptr b)) = k) by (rewrite length_take; lia).
  rewrite IH; cbn [ib_ptr ib_fill]; [|lia..|rewrite !length_app, length_drop, Hk; cbn [length]; lia].
  do 3 f_equal. replace (Z.to_nat (idx + 2 * (i + 1))) with (k + 2)%nat by lia.
  rewrite (entries_cons _ (Z.of_nat (S n))) by lia. rewrite <- !app_assoc.
  rewrite take_app_ge by lia. rewrite Hk. replace (k + 2 - k)%nat with 2%nat by lia. cbn [take app halves].
  replace (i + 0) with i by lia. rewrite <- app_assoc. f_equal. cbn [app]. do 2 f_equal.
  rewrite take_0, app_nil_l. replace (Z.of_nat (S n) - 1) with (Z.of_nat n) by lia. f_equal.
  - apply entries_ext. intros j _. f_equal. lia.
  - rewrite drop_app_ge, Hk by lia.
    replace (Z.to_nat (idx + 2 * (i + 1 + Z.of_nat n)) - k)%nat with (2 + 2 * n)%nat by lia. cbn [drop app Nat.add].
    rewrite drop_drop. f_equal. lia.
Qed.

(** The space a copy reserves in front of its entries. *)
Lemma copy_space bs sh n calls :
  9 <= bs <= 17 -> 0 < n < 134217728 -> fits bs sh n -> calls <= n / 2 ^ bs + 2 ->
  (match sh with Some _ => 2 | None => 1 end) * (7 * calls) + 7 <= 64 + update_ncmds bs n * 7 /\
  64 + update_ncmds bs n * 7 < 1900000.
Proof.
  intros Hbs Hn Hf Hc. destruct (ncmds_estimate bs Hbs n Hn) as [He He'].
  assert (0 <= n / 2 ^ bs) by (apply Z.div_pos; lia).
  destruct sh as [base|]; [|lia]. destruct Hf as [|[Hf|Hf]]; [done|specialize (He' Hf); lia|].
  rewrite Z.div_small in * by lia. lia.
Qed.

(** A pass that copies never marks fragments. *)
Lemma frag_copy F exec bs fuel src shadow pts base start end_ dst flags g :
  PteEngine F exec -> 9 <= bs <= 17 -> src <> 0 ->
  0 <= start < end_ -> end_ < 1099511627776 -> 0 <= dst -> dst mod 4096 = 0 ->
  dst + (end_ - start) * 4096 < 18446744073709551616 ->
  0 <= src -> src mod 4 = 0 -> src + 8 * (dst / 4096 + (end_ - start)) < 18446744073709551616 ->
  tables_at bs shadow pts base start end_ -> apart bs base start end_ (src + 8 * (dst / 4096)) (end_ - start) ->
  tables bs start end_ <= Z.of_nat fuel ->
  updates exec bs end_ base g (fun m => holds m (src + 8 * (dst / 4096)) (end_ - start) (fun i => g (start + i))) 7
    (amdgpu_vm_frag_ptes bs fuel (Params src (amdgpu_vm_do_copy_ptes F) shadow) pts start end_ dst flags)
    start (tables bs start end_).
Proof.
  intros HE Hbs Hnz. intros. unfold amdgpu_vm_frag_ptes. cbn [params_src].
  destruct (Z.eqb_spec src 0) as [|_]; [done|]. cbn [negb orb].
  eapply pass_updates; [done| |done]. by apply copy_pass.
Qed.

(** The first word of the entries that a copy puts into its own buffer. *)
Definition entries_index (bs n : Z) : Z := 64 + update_ncmds bs n * 7.

(** Both passes, on a buffer with the entries in place. *)
Lemma copy_passes F exec bs fuel pts base sh start n flags g a pre :
  PteEngine F exec -> 9 <= bs <= 17 -> 0 <= start -> 0 < n < 134217728 -> start + n < 1099511627776 ->
  0 <= a -> a mod 4 = 0 -> a + 4 * Z.of_nat (length pre) + 8 * n < 18446744073709551616 ->
  (match sh with Some _ => 2 | None => 1 end) * (7 * tables bs start (start + n)) + 7 <= Z.of_nat (length pre) < 1900000 ->
  tables_at bs false pts base start (start + n) -> shadows_at bs pts sh start (start + n) ->
  tables bs start (start + n) <= Z.of_nat fuel ->
  (forall base', base' = base \/ sh = Some base' ->
     apart bs base' start (start + n) (a + 4 * Z.of_nat (length pre)) n) ->
  exists ib,
    (amdgpu_vm_frag_ptes bs fuel (Params (a + 4 * Z.of_nat (length pre)) (amdgpu_vm_do_copy_ptes F) true) pts start (start + n) 0 flags;;
     amdgpu_vm_frag_ptes bs fuel (Params (a + 4 * Z.of_nat (length pre)) (amdgpu_vm_do_copy_ptes F) false) pts start (start + n) 0 flags;;
     b ← gets id; ib_writes (pad_ib F (ib_fill b));; mret 0 : IM Z)
      (PteIb (pre ++ entries (fun j => g (start + j)) n) 0) = Ok (0, ib) /\
    forall m, exec (take (Z.to_nat (ib_fill ib)) (ib_ptr ib)) (store m a (ib_ptr ib)) =
      Some (set_pages (pe_of bs base) g (Z.to_nat n) start
              (shadow_pages bs sh g (Z.to_nat n) start (store m a (ib_ptr ib)))).
Proof.
  intros HE Hbs Hs Hn Hb Ha Ha4 Hab Hsp Ht Hsh Hfuel Hap.
  assert (0 <= tables bs start (start + n))
    by (unfold tables; pose proof (Z.div_le_mono start (start + n - 1) (2 ^ bs) ltac:(lia) ltac:(lia)); lia).
  set (k := length pre) in *. assert (7 <= Z.of_nat k) by (destruct sh; lia). set (s := a + 4 * Z.of_nat k) in *.
  assert (Hs4 : s mod 4 = 0) by (subst s; replace (a + 4 * Z.of_nat k) with (a + Z.of_nat k * 4) by lia; by rewrite Z.mod_add).
  assert (Hp : forall shadow base', tables_at bs shadow pts base' start (start + n) -> (base' = base \/ sh = Some base') ->
    updates exec bs (start + n) base' g (fun m => holds m s n (fun i => g (start + i))) 7
      (amdgpu_vm_frag_ptes bs fuel (Params s (amdgpu_vm_do_copy_ptes F) shadow) pts start (start + n) 0 flags)
      start (tables bs start (start + n))).
  { intros shadow base' Ht' Hb'. specialize (Hap base' Hb').
    pose proof (frag_copy F exec bs fuel s shadow pts base' start (start + n) 0 flags g HE Hbs) as Hfc.
    rewrite Z.div_0_l, Z.add_0_r in Hfc by lia. replace (start + n - start) with n in Hfc by lia.
    apply Hfc; done || lia. }
  set (b := PteIb _ 0). pose proof (entries_length (fun j => g (start + j)) n ltac:(lia)) as Hle.
  assert (Hlb : Z.of_nat (length (ib_ptr b)) = Z.of_nat k + 2 * n) by (subst b; cbn [ib_ptr]; rewrite length_app; lia).
  assert (H1 : match sh with
    | Some base' => updates exec bs (start + n) base' g (fun m => holds m s n (fun i => g (start + i))) 7
        (amdgpu_vm_frag_ptes bs fuel (Params s (amdgpu_vm_do_copy_ptes F) true) pts start (start + n) 0 flags)
        start (tables bs start (start + n))
    | None => emits (amdgpu_vm_frag_ptes bs fuel (Params s (amdgpu_vm_do_copy_ptes F) true) pts start (start + n) 0 flags) []
    end).
  { destruct sh as [base'|]; [apply (Hp true base'); [done|by right]|]. apply (no_shadow_frag bs Hbs); [done|lia|lia]. }
  destruct (two_passes F exec bs sh base g _ 7 (tables bs start (start + n)) start (start + n) _ _ 0 (Z.of_nat k) b
    H1 (Hp false base Ht (or_introl eq_refl))) as (ws & Hlw & Hrun & Hex).
  { lia. }
  { split; [done|]. rewrite Hlb. cbn [ib_fill b]. lia. }
  exists (appended b ws). split; [done|]. intros m.
  replace (start + n - start) with n in Hex by lia.
  assert (Hfl : ib_fill (appended b ws) = Z.of_nat (length ws)) by (unfold appended; cbn [ib_fill b]; lia).
  rewrite Hfl, Nat2Z.id, fresh_words by done. apply Hex.
  assert (Hptr : ib_ptr (appended b ws) = (ws ++ drop (length ws) pre) ++ entries (fun j => g (start + j)) n ++ []).
  { unfold appended. cbn [ib_ptr ib_fill b]. rewrite Z2Nat.inj_0, take_0, app_nil_l, Nat.add_0_l, app_nil_r.
    rewrite drop_app_le by lia. by rewrite app_assoc. }
  rewrite Hptr. replace s with (a + 4 * Z.of_nat (length (ws ++ drop (length ws) pre)))
    by (rewrite length_app, length_drop; lia).
  apply holds_stored; [done|lia].
Qed.

(** An update of scattered system pages puts their entries behind the
    packets of the same indirect buffer; the packets of both passes never
    reach them, and executing the buffer has exactly the effect of writing the
    entries one by one: the DMA address of every page with the flags, in the
    shadows of the page tables and in the page tables. *)
Theorem update_mapping_copies_pages (F : amdgpu_vm_pte_funcs) (exec : list Z -> gpu_mem -> option gpu_mem)
    (bs : Z) (env : update_env) (pages : list Z) (pts : list amdgpu_vm_pt) (base : Z -> Z) (sh : option (Z -> Z))
    (start last flags addr : Z) (fuel : nat) :
  PteEngine F exec -> 9 <= bs <= 17 -> env_ok env ->
  0 <= start <= last -> last < 549755813888 -> last - start < 1048576 ->
  0 <= addr < 9223372036854775808 -> addr mod 4096 = 0 -> addr / 4096 + (last + 1 - start) <= Z.of_nat (length pages) ->
  0 <= ib_addr env < 9223372036854775808 -> ib_addr env mod 4 = 0 ->
  tables_at bs false pts base start (last + 1) -> shadows_at bs pts sh start (last + 1) ->
  fits bs sh (last + 1 - start) -> tables bs start (last + 1) <= Z.of_nat fuel ->
  (forall base', base' = base \/ sh = Some base' ->
     apart bs base' start (last + 1) (ib_addr env + 4 * entries_index bs (last + 1 - start)) (last + 1 - start)) ->
  exists ib, amdgpu_vm_bo_update_mapping F bs fuel env 0 (Some pages) pts start last flags addr = Ok (0, Some ib) /\
    forall m, exec (take (Z.to_nat (ib_fill ib)) (ib_ptr ib)) (store m (ib_addr env) (ib_ptr ib)) =
      Some (set_pages (pe_of bs base) (fun p => gart_value pages addr flags (p - start)) (Z.to_nat (last + 1 - start)) start
              (shadow_pages bs sh (fun p => gart_value pages addr flags (p - start)) (Z.to_nat (last + 1 - start)) start
                 (store m (ib_addr env) (ib_ptr ib)))).
Proof.
  intros HE Hbs (Ha & Hs1 & Hs2 & Hs3 & Hs4) Hr Hl Hn Hd Hda Hpg Hib Hiba Ht Hsh Hfit Hfuel Hap.
  set (n := last + 1 - start) in *. set (g := fun p => gart_value pages addr flags (p - start)).
  pose proof (tables_estimate bs Hbs start n ltac:(lia) ltac:(lia)) as Hest.
  replace (start + n) with (last + 1) in Hest by lia.
  destruct (copy_space bs sh n (tables bs start (last + 1)) Hbs ltac:(lia) Hfit ltac:(lia)) as [Hsp Hsp'].
  destruct (ncmds_estimate bs Hbs n ltac:(lia)) as [Hnc _]. assert (0 <= n / 2 ^ bs) by (apply Z.div_pos; lia).
  unfold amdgpu_vm_bo_update_mapping, entries_index in *.
  replace (u32 (last - start + 1)) with n by (unfold u32; rewrite Z.mod_small; lia).
  replace (u64 (last + 1)) with (last + 1) by (unfold u64; rewrite Z.mod_small; lia).
  assert (Hndw : update_ndw bs 0 (Some pages) n = 64 + update_ncmds bs n * 7 + 2 * n).
  { unfold update_ndw, u32. cbn [negb Z.eqb]. rewrite (Z.mod_small (_ * 7)), (Z.mod_small (64 + _)), (Z.mod_small (n * 2)), Z.mod_small by lia. lia. }
  rewrite Hndw, Ha, Hs1, Hs2, Hs3, Hs4. cbn [Z.eqb negb].
  set (i := 64 + update_ncmds bs n * 7) in *.
  replace (u32 (i + 2 * n - u32 (n * 2))) with i by (unfold u32; rewrite (Z.mod_small (n * 2)), Z.mod_small by lia; lia).
  replace (u64 (ib_addr env + u32 (i * 4))) with (ib_addr env + 4 * i)
    by (unfold u64, u32; rewrite (Z.mod_small (i * 4)), Z.mod_small by lia; lia).
  set (b0 := PteIb _ 0).
  assert (Hb0 : Z.of_nat (length (ib_ptr b0)) = i + 2 * n) by (subst b0; cbn [ib_ptr]; rewrite length_map, length_seq; lia).
  rewrite (bind_eval (fill_ptes (Z.to_nat n) 0 pages addr flags i) _ b0 tt _
    (fill_ptes_ok pages addr flags i (Z.to_nat n) 0 b0 ltac:(lia) ltac:(lia) ltac:(lia) Hda ltac:(lia) ltac:(lia) ltac:(lia) ltac:(lia))).
  change (ib_fill b0) with 0.
  rewrite (drop_ge (ib_ptr b0)) by lia. rewrite app_nil_r, Z2Nat.id by lia.
  rewrite (entries_ext _ (fun j => g (start + j))) by (intros; subst g; cbn beta; f_equal; lia).
  set (pre := take _ (ib_ptr b0)). assert (Hpre : Z.of_nat (length pre) = i) by (subst pre; rewrite length_take; lia).
  replace (last + 1) with (start + n) in * by lia. rewrite <- Hpre in *.
  destruct (copy_passes F exec bs fuel pts base sh start n flags g (ib_addr env) pre) as (ib & Hrun & Hex);
    try done; try lia.
  rewrite Hrun. by exists ib.
Qed.

(** ** A layout *)

Import SdmaPte.

(** Page tables of 512 entries, two of them side by side, with shadows. *)
Definition demo_base (i : Z) : Z := if i <? 2 then 0x100000 + 0x1000 * i else 0x400000.
Definition demo_shadow (i : Z) : Z := 0x800000 + 0x2000 * i.
Definition demo_tables (shadows : bool) : list amdgpu_vm_pt :=
  map (fun i => VmPt (Some (PtObject (demo_base i) (if shadows then Some (demo_shadow i) else None))) 0) [0; 1; 2].
Definition demo_env : update_env := UpdateEnv 0 0 0 0 0 0x10000000 (fun _ => 0).

Lemma demo_tables_at shadows : tables_at 9 false (demo_tables shadows) demo_base 500 1030.
Proof.
  intros i Hi. change (2 ^ 9) with 512 in *. change (500 / 512) with 0 in Hi. change ((1030 - 1) / 512) with 2 in Hi.
  assert (i = 0 \/ i = 1 \/ i = 2) as [->|[->| ->]] by lia;
    (split; [by eexists _, _|]); vm_compute; intuition congruence.
Qed.

Lemma demo_shadows_at : shadows_at 9 (demo_tables true) (Some demo_shadow) 500 1030.
Proof.
  intros i Hi. change (2 ^ 9) with 512 in *. change (500 / 512) with 0 in Hi. change ((1030 - 1) / 512) with 2 in Hi.
  assert (i = 0 \/ i = 1 \/ i = 2) as [->|[->| ->]] by lia;
    (split; [by eexists _, _|]); vm_compute; intuition congruence.
Qed.

Lemma demo_no_shadows_at : shadows_at 9 (demo_tables false) None 500 1030.
Proof.
  intros i Hi. change (2 ^ 9) with 512 in *. change (500 / 512) with 0 in Hi. change ((1030 - 1) / 512) with 2 in Hi.
  assert (i = 0 \/ i = 1 \/ i = 2) as [->|[->| ->]] by lia; by eexists _, _.
Qed.

Lemma update_mapping_sets_pages_witness :
  exists ib m', amdgpu_vm_bo_update_mapping (sdma_v3_0_vm_pte_funcs true) 9 3 demo_env 0 None (demo_tables false)
                  500 1029 0x61 0x2000000 = Ok (0, Some ib) /\
    sdma_exec (take (Z.to_nat (ib_fill ib)) (ib_ptr ib)) ∅ = Some m' /\
    entry_at m' (pe_of 9 demo_base 1029) = Some (pte_value 0x61 500 1030 0x2000000 1029).
Proof.
  destruct (update_mapping_sets_pages (sdma_v3_0_vm_pte_funcs true) sdma_exec 9 demo_env (demo_tables false)
    demo_base None 500 1029 0x61 0x2000000 3) as (ib & E & H).
  - apply _.
  - lia.
  - repeat split.
  - lia.
  - lia.
  - lia.
  - lia.
  - done.
  - lia.
  - lia.
  - apply demo_tables_at.
  - apply demo_no_shadows_at.
  - by left.
  - by vm_compute.
  - destruct (H ∅) as (m' & Hx & _ & Hw). exists ib, m'. split; [done|]. split; [done|].
    apply Hw; [|lia].
    intros i j Hi Hj Hne. change (2 ^ 9) with 512 in *.
    change (500 / 512) with 0 in *. change ((1029 + 1 - 1) / 512) with 2 in *.
    unfold demo_base. destruct (Z.ltb_spec i 2), (Z.ltb_spec j 2); lia.
Defined.

Lemma demo_apart base :
  (base = demo_base \/ Some demo_shadow = Some base) -> apart 9 base 500 1001 (0x10000000 + 4 * entries_index 9 501) 501.
Proof.
  intros Hb p Hp. left. change (entries_index 9 501) with 71. unfold pe_of. change (2 ^ 9) with 512.
  pose proof (Z.mod_pos_bound p 512 ltac:(lia)). pose proof (Z.div_mod p 512 ltac:(lia)).
  destruct Hb as [->|[= <-]]; unfold demo_base, demo_shadow; [destruct (Z.ltb_spec (p / 512) 2)|]; lia.
Qed.

Lemma update_mapping_copies_pages_witness :
  exists ib, amdgpu_vm_bo_update_mapping (sdma_v3_0_vm_pte_funcs true) 9 3 demo_env 0
      (Some (map (fun i => 0x3000 * i) (seqZ 0 501))) (demo_tables true) 500 1000 0x67 0 = Ok (0, Some ib).
Proof.
  destruct (update_mapping_copies_pages (sdma_v3_0_vm_pte_funcs true) sdma_exec 9 demo_env
    (map (fun i => 0x3000 * i) (seqZ 0 501)) (demo_tables true)
    demo_base (Some demo_shadow) 500 1000 0x67 0 3) as (ib & E & H).
  - apply _.
  - lia.
  - repeat split.
  - lia.
  - lia.
  - lia.
  - lia.
  - done.
  - by rewrite length_map, length_seqZ.
  - cbn [ib_addr demo_env]. lia.
  - done.
  - eapply tables_at_sub; [| | |apply demo_tables_at]; lia.
  - cbn [shadows_at]. eapply tables_at_sub; [| | |apply demo_shadows_at]; lia.
  - right. right. by vm_compute.
  - by vm_compute.
  - apply demo_apart.
  - by exists ib.
Defined.

(** With small page tables the estimate of the buffer counts one pass, but
    page tables with shadows take two: for sixteen page tables of 512 entries
    that do not lie side by side, the packets do not fit into the buffer and are
    written behind its end, while the same update without shadows succeeds. *)
Theorem shadow_update_overruns :
  let pts shadows := map (fun i => VmPt (Some (PtObject (0x2000 * i) (if shadows : bool then Some (demo_shadow i) else None))) 0)
                       (seqZ 0 16) in
  let update shadows := amdgpu_vm_bo_update_mapping (sdma_v3_0_vm_pte_funcs true) 9 16 demo_env 0 None (pts shadows)
                          0 8191 0x61 0 in
  update true = Fault /\ exists ib, update false = Ok (0, Some ib).
Proof. split; [reflexivity|]. eexists. vm_compute. reflexivity. Qed.
