(* ===== verification/PageDir.v ===== *)
(** * The page directory ([amdgpu_vm_update_page_directory] of [amdgpu/amdgpu_vm.c])

    The directory holds the addresses of the page tables.  When a page table
    has moved, its entry is rewritten; [addr] of [struct amdgpu_vm_pt] remembers
    the address that was written last.  Entries of page tables that lie side by
    side are written with one packet. *)

From stdpp Require Import base numbers list gmap option.
From S2P Require Import Prelude CMonad Engines VmEngine PageTable PageTableSpec PageUpdate.

Definition amdgpu_vm_num_pdes (max_pfn amdgpu_vm_block_size : Z) : Z := Z.shiftr max_pfn amdgpu_vm_block_size.
(** [AMDGPU_GPU_PAGE_ALIGN] rounds up to the GPU's page size. *)
Definition amdgpu_vm_directory_size (max_pfn amdgpu_vm_block_size : Z) : Z :=
  Z.land (u32 (u32 (amdgpu_vm_num_pdes max_pfn amdgpu_vm_block_size * 8) + 4095)) (u32 (Z.lnot 4095)).

(** What the loop carries: the run that is still to be written. *)
Record pd_run := PdRun { run_count : Z; last_pde : Z; last_pt : Z; last_shadow : Z }.
Definition no_run : pd_run := PdRun 0 18446744073709551615 18446744073709551615 18446744073709551615.

(** The page tables and the indirect buffer. *)
Record pd_state := PdState { pd_tables : list amdgpu_vm_pt; pd_ib : pte_ib }.
Definition DM : Type -> Type := M pd_state.

Definition on_ib {A} (c : IM A) : DM A := fun s =>
  match c (pd_ib s) with
  | Ok (a, b) => Ok (a, PdState (pd_tables s) b)
  | Fault => Fault
  | NoFuel => NoFuel
  end.

Section directory.
Context (F : amdgpu_vm_pte_funcs) (amdgpu_vm_block_size : Z).
(** The addresses of the directory and of its shadow, and what binding the
    shadow of a page table returns. *)
Context (pd_addr : Z) (shadow : option Z) (bind_r : nat -> Z).

Definition incr : Z := u32 (AMDGPU_VM_PTE_COUNT amdgpu_vm_block_size * 8).

(** Writes the run to the shadow and to the directory. *)
Definition flush_run (r : pd_run) : DM unit :=
  if run_count r =? 0 then mret tt
  else
    (match shadow with
     | Some _ => on_ib (ib_writes (amdgpu_vm_do_set_ptes F 0 (last_shadow r) (last_pt r) (run_count r) incr AMDGPU_PTE_VALID))
     | None => mret tt
     end);;
    on_ib (ib_writes (amdgpu_vm_do_set_ptes F 0 (last_pde r) (last_pt r) (run_count r) incr AMDGPU_PTE_VALID)).

(** The entry does not continue the run. *)
Definition run_broken (r : pd_run) (pde pt : Z) : bool :=
  negb (u64 (last_pde r + u32 (8 * run_count r)) =? pde) ||
  negb (u64 (last_pt r + u32 (incr * run_count r)) =? pt) ||
  (run_count r =? AMDGPU_VM_MAX_UPDATE_SIZE).

(** [n] page tables from [pt_idx] on; the error of a binding, or the last run. *)
Fixpoint pd_loop (n : nat) (pt_idx : nat) (r : pd_run) : DM (Z + pd_run) :=
  match n with
  | O => mret (inr r)
  | S n =>
      s ← gets id;
      e ← deref (pd_tables s !! pt_idx);
      match pt_bo e with
      | None => pd_loop n (S pt_idx) r
      | Some bo =>
          let e_r := match shadow_offset bo with Some _ => bind_r pt_idx | None => 0 end in
          if negb (e_r =? 0) then mret (inl e_r)
          else
            let pt := gpu_offset bo in
            if pt_addr e =? pt then pd_loop n (S pt_idx) r
            else
              modify (fun s => PdState (<[pt_idx := VmPt (pt_bo e) pt]> (pd_tables s)) (pd_ib s));;
              let pde := u64 (pd_addr + u32 (Z.of_nat pt_idx * 8)) in
              if run_broken r pde pt then
                flush_run r;;
                pd_loop n (S pt_idx)
                  (PdRun 1 pde pt (u64 (default 0 shadow + u32 (Z.of_nat pt_idx * 8))))
              else pd_loop n (S pt_idx) (PdRun (u32 (run_count r + 1)) (last_pde r) (last_pt r) (last_shadow r))
      end
  end.

Definition pd_ndw (max_pde_used : Z) : Z :=
  let ndw := u32 (64 + u32 (max_pde_used * 6)) in
  match shadow with Some _ => u32 (ndw * 2) | None => ndw end.

(** [amdgpu_vm_update_page_directory]: the result, the page tables and the
    buffer that was submitted.  [shadow_r] is the outcome of binding the shadow
    of the directory. *)
Definition amdgpu_vm_update_page_directory (env : update_env) (shadow_r max_pde_used : Z) (pts : list amdgpu_vm_pt) :
    outcome (Z * list amdgpu_vm_pt * option pte_ib) :=
  if (match shadow with Some _ => negb (shadow_r =? 0) | None => false end) then Ok (shadow_r, pts, None)
  else if negb (alloc_r env =? 0) then Ok (alloc_r env, pts, None)
  else
    let body : DM (Z * bool) :=
      x ← pd_loop (Z.to_nat max_pde_used + 1) 0 no_run;
      match x with
      | inl e => mret (e, false)
      | inr r =>
          flush_run r;;
          s ← gets id;
          if ib_fill (pd_ib s) =? 0 then mret (0, false)
          else
            on_ib (ib_writes (pad_ib F (ib_fill (pd_ib s))));;
            mret (submit_r env, submit_r env =? 0)
      end in
    match body (PdState pts (PteIb (map (garbage env) (seq 0 (Z.to_nat (pd_ndw max_pde_used)))) 0)) with
    | Ok ((e, submitted), s) => Ok (e, pd_tables s, if submitted : bool then Some (pd_ib s) else None)
    | Fault => Fault
    | NoFuel => NoFuel
    end.
End directory.

(** ** The page directory names every page table after an update

    [good] says that an entry of the directory (and of its shadow) is right.
    The loop keeps: every page table whose recorded address is current has a
    good entry or is in the run that is still to be written ([synced]). *)

(** A block of entries in memory. *)
Lemma block_entry m a f c i :
  a mod 4 = 0 -> 0 <= i < c -> is_u64 (f i) -> entry_at (store m a (entries f c)) (a + 8 * i) = Some (f i).
Proof.
  intros Ha Hi Hf.
  assert (E : store m a (entries f c) = set_pages (fun i => a + 8 * i) f (Z.to_nat c) 0 m).
  { rewrite (set_pages_run (fun i => a + 8 * i)); [| |intros; lia].
    - rewrite Z2Nat.id by lia. f_equal. lia.
    - by replace (a + 8 * 0) with a by lia. }
  rewrite E. apply (set_pages_entry (fun i => a + 8 * i)); [lia|done| |intros; lia].
  intros x _. replace (a + 8 * x) with (a + 2 * x * 4) by lia. by rewrite Z.mod_add.
Qed.

Lemma block_other m a f c a' :
  a mod 4 = 0 -> a' mod 4 = 0 -> 0 <= c -> a + 8 * c <= a' \/ a' + 8 <= a ->
  entry_at (store m a (entries f c)) a' = entry_at m a'.
Proof.
  intros Ha Ha' Hc Hd. apply Z.mod_divide in Ha as [x ->]; [|lia]. apply Z.mod_divide in Ha' as [y ->]; [|lia].
  pose proof (entries_length f c Hc).
  unfold entry_at. rewrite !store_other; [done|..]; rewrite !Z.div_mul by lia; lia.
Qed.

Section directory_spec.
Context (F : amdgpu_vm_pte_funcs) (exec : list Z -> gpu_mem -> option gpu_mem) `{!PteEngine F exec}.
Context (bs pd : Z) (sh : option Z) (N : Z).
Context (Hbs : 9 <= bs <= 17).

(** The directory has [N] entries in use; it and its shadow lie apart. *)
Record layout : Prop := {
  lay_n : 0 < N /\ N * (8 * 2 ^ bs) < 4294967296;
  lay_pd : 0 <= pd /\ pd mod 8 = 0 /\ pd + 8 * N < 18446744073709551616;
  lay_sh s : sh = Some s -> 0 <= s /\ s mod 8 = 0 /\ s + 8 * N < 18446744073709551616 /\
    (s + 8 * N <= pd \/ pd + 8 * N <= s) }.
Context (LAY : layout).

(** The addresses of page tables. *)
Definition offsets_ok (pts : list amdgpu_vm_pt) : Prop :=
  forall i e o, pts !! i = Some e -> pt_bo e = Some o ->
    0 <= gpu_offset o < 9223372036854775808 /\ gpu_offset o mod 4096 = 0.

Definition good (m : gpu_mem) (i v : Z) : Prop :=
  entry_at m (pd + 8 * i) = Some (Z.lor v AMDGPU_PTE_VALID) /\
  forall s, sh = Some s -> entry_at m (s + 8 * i) = Some (Z.lor v AMDGPU_PTE_VALID).

(** The run covers the entries [j] to [j + count - 1]. *)
Definition in_run (r : pd_run) (i : Z) : Prop :=
  0 < run_count r /\ last_pde r <= pd + 8 * i < last_pde r + 8 * run_count r.

Definition synced (r : pd_run) (pts : list amdgpu_vm_pt) (m : gpu_mem) : Prop :=
  forall i e o, Z.of_nat i < N -> pts !! i = Some e -> pt_bo e = Some o -> pt_addr e = gpu_offset o ->
    in_run r (Z.of_nat i) \/ good m (Z.of_nat i) (gpu_offset o).

(** The run is empty, or its page tables lie side by side, in front of [idx]. *)
Definition run_ok (r : pd_run) (pts : list amdgpu_vm_pt) (idx : nat) : Prop :=
  r = no_run \/
  exists j, 0 < run_count r <= AMDGPU_VM_MAX_UPDATE_SIZE /\ 0 <= j /\ j + run_count r <= Z.of_nat idx /\
    last_pde r = pd + 8 * j /\ (forall s, sh = Some s -> last_shadow r = s + 8 * j) /\
    0 <= last_pt r < 9223372036854775808 /\ last_pt r mod 4096 = 0 /\
    forall k, 0 <= k < run_count r -> exists e o, pts !! Z.to_nat (j + k) = Some e /\ pt_bo e = Some o /\
      gpu_offset o = last_pt r + k * (8 * 2 ^ bs).

Definition current (pts : list amdgpu_vm_pt) (idx : nat) : Prop :=
  forall i e o, (i < idx)%nat -> pts !! i = Some e -> pt_bo e = Some o -> pt_addr e = gpu_offset o.

Lemma incr_eq : incr bs = 8 * 2 ^ bs /\ 4096 <= 8 * 2 ^ bs <= 1048576 /\ (8 * 2 ^ bs) mod 4096 = 0.
Proof.
  pose proof (B_pos bs Hbs). unfold incr. rewrite pte_count by done.
  unfold u32. rewrite Z.mod_small by lia. split; [lia|]. split; [lia|].
  replace (8 * 2 ^ bs) with (2 ^ (bs - 9) * 4096); [by apply Z.mod_mul|].
  change 4096 with (8 * 2 ^ 9). replace bs with (bs - 9 + 9) at 2 by lia. rewrite Z.pow_add_r by lia. lia.
Qed.

(** Number of copies of the directory. *)
Definition copies : Z := match sh with Some _ => 2 | None => 1 end.

Definition run_entries (r : pd_run) : list Z :=
  entries (fun k => Z.lor (last_pt r + k * (8 * 2 ^ bs)) AMDGPU_PTE_VALID) (run_count r).

(** The memory after the run has been written. *)
Definition flushed (r : pd_run) (m : gpu_mem) : gpu_mem :=
  store (match sh with Some _ => store m (last_shadow r) (run_entries r) | None => m end) (last_pde r) (run_entries r).

Lemma mod8_4 x i : x mod 8 = 0 -> (x + 8 * i) mod 8 = 0 /\ (x + 8 * i) mod 4 = 0.
Proof.
  intros H. apply Z.mod_divide in H as [k ->]; [|lia].
  split; [replace (k * 8 + 8 * i) with ((k + i) * 8) by lia|replace (k * 8 + 8 * i) with ((2 * k + 2 * i) * 4) by lia];
    by apply Z.mod_mul.
Qed.

Lemma run_small c : 0 <= c <= N -> c * (8 * 2 ^ bs) < 4294967296.
Proof. intros Hc. destruct (lay_n LAY). pose proof (B_pos bs Hbs). nia. Qed.

Lemma flushed_synced r pts m idx :
  run_ok r pts idx -> Z.of_nat idx <= N -> r <> no_run -> synced r pts m -> synced no_run pts (flushed r m).
Proof.
  intros [->|(j & Hc & Hj & Hjc & Hpde & Hsd & Hpt & Hpm & Hrun)] Hidx Hne Hs; [done|].
  intros i e o Hi Hp Ho Ha. right. destruct (lay_pd LAY) as (Hp0 & Hp8 & Hpb).
  pose proof (run_small (run_count r) ltac:(lia)). pose proof (B_pos bs Hbs).
  set (f := fun k => Z.lor (last_pt r + k * (8 * 2 ^ bs)) AMDGPU_PTE_VALID).
  assert (Hf : forall k, 0 <= k < run_count r -> is_u64 (f k)).
  { intros k Hk. unfold f. rewrite lor_disjoint; [unfold is_u64, AMDGPU_PTE_VALID; nia|done|].
    destruct incr_eq as (_ & _ & E). apply Z.mod_divide in Hpm as [x ->]; [|lia]. apply Z.mod_divide in E as [y ->]; [|lia].
    replace (x * 4096 + k * (y * 4096)) with ((x + k * y) * 4096) by lia. by apply Z.mod_mul. }
  unfold flushed, run_entries. fold f. rewrite Hpde.
  destruct (decide (j <= Z.of_nat i < j + run_count r)) as [Hin|Hout].
  - set (k := Z.of_nat i - j).
    destruct (Hrun k ltac:(lia)) as (e' & o' & Hp' & Ho' & Hoff).
    replace (Z.to_nat (j + k)) with i in Hp' by lia. assert (o' = o) as -> by congruence.
    assert (Hfk : Z.lor (gpu_offset o) AMDGPU_PTE_VALID = f k) by (unfold f; by rewrite Hoff).
    split; [|intros s Es].
    + replace (pd + 8 * Z.of_nat i) with (pd + 8 * j + 8 * k) by lia. rewrite Hfk.
      apply block_entry; [by apply mod8_4|lia|apply Hf; lia].
    + destruct (lay_sh LAY s Es) as (Hs0 & Hs8 & Hsb & Hdj). rewrite Es, (Hsd s Es), Hfk.
      rewrite block_other by (try apply mod8_4; done || lia).
      replace (s + 8 * Z.of_nat i) with (s + 8 * j + 8 * k) by lia.
      apply block_entry; [by apply mod8_4|lia|apply Hf; lia].
  - destruct (Hs i e o Hi Hp Ho Ha) as [[_ Hin]|[Hg1 Hg2]]; [rewrite Hpde in Hin; lia|].
    split; [|intros s Es]; [|destruct (lay_sh LAY s Es) as (Hs0 & Hs8 & Hsb & Hdj)];
      rewrite block_other by (try apply mod8_4; done || lia).
    + destruct sh as [s|] eqn:Es; [|done]. destruct (lay_sh LAY s Es) as (Hs0 & Hs8 & Hsb & Hdj).
      rewrite (Hsd s eq_refl). rewrite block_other by (try apply mod8_4; done || lia). done.
    + rewrite Es, (Hsd s Es). rewrite block_other by (try apply mod8_4; done || lia). by apply Hg2.
Qed.

(** The words that write a run. *)
Definition run_words (r : pd_run) : list Z :=
  if run_count r =? 0 then []
  else (match sh with
        | Some _ => amdgpu_vm_do_set_ptes F 0 (last_shadow r) (last_pt r) (run_count r) (incr bs) AMDGPU_PTE_VALID
        | None => []
        end) ++ amdgpu_vm_do_set_ptes F 0 (last_pde r) (last_pt r) (run_count r) (incr bs) AMDGPU_PTE_VALID.

Lemma on_ib_writes ws pts b :
  room b (Z.of_nat (length ws)) -> on_ib (ib_writes ws) (PdState pts b) = Ok (tt, PdState pts (appended b ws)).
Proof. intros Hr. unfold on_ib. cbn [pd_ib pd_tables]. by rewrite (emits_writes ws b Hr). Qed.

Lemma flush_run_emits r pts b :
  room b (Z.of_nat (length (run_words r))) ->
  flush_run F bs sh r (PdState pts b) = Ok (tt, PdState pts (appended b (run_words r))).
Proof.
  unfold flush_run, run_words. destruct (run_count r =? 0).
  { intros [H0 _]. by rewrite appended_nil. }
  intros Hr. destruct sh as [s|].
  - set (w1 := amdgpu_vm_do_set_ptes F 0 (last_shadow r) _ _ _ _) in *. set (w2 := amdgpu_vm_do_set_ptes F 0 (last_pde r) _ _ _ _) in *.
    assert (Hr1 : room b (Z.of_nat (length w1))) by (destruct Hr as [? [? ?]]; rewrite length_app in *; split; [done|split; lia]).
    rewrite (bind_eval (on_ib (ib_writes w1)) _ (PdState pts b) tt _ (on_ib_writes w1 pts b Hr1)).
    rewrite on_ib_writes by (apply appended_room; [by rewrite <- Nat2Z.inj_add, <- length_app|lia]).
    by rewrite appended_app.
  - rewrite (bind_eval (mret tt) _ (PdState pts b) tt (PdState pts b) eq_refl). by apply on_ib_writes.
Qed.

Lemma run_words_length r : 0 <= run_count r -> Z.of_nat (length (run_words r)) <= copies * (6 * run_count r).
Proof.
  intros Hc. unfold run_words, copies. destruct (Z.eqb_spec (run_count r) 0) as [->|Hne]; [destruct sh; done|].
  pose proof (set_ptes_length F exec 0 (last_pde r) (last_pt r) (run_count r) (incr bs) AMDGPU_PTE_VALID ltac:(lia)).
  rewrite length_app. destruct sh as [s|]; [|cbn [length]; lia].
  pose proof (set_ptes_length F exec 0 (last_shadow r) (last_pt r) (run_count r) (incr bs) AMDGPU_PTE_VALID ltac:(lia)). lia.
Qed.

Lemma run_words_effect r pts idx rest m :
  run_ok r pts idx -> Z.of_nat idx <= N -> r <> no_run ->
  exec (run_words r ++ rest) m = exec rest (flushed r m).
Proof.
  intros [->|(j & Hc & Hj & Hjc & Hpde & Hsd & Hpt & Hpm & _)] Hidx Hne; [done|].
  destruct (lay_pd LAY) as (Hp0 & Hp8 & Hpb). pose proof (run_small (run_count r) ltac:(lia)).
  destruct incr_eq as (Ei & Eb & Em). unfold run_words, flushed, run_entries.
  destruct (Z.eqb_spec (run_count r) 0); [lia|]. rewrite Ei, <- app_assoc.
  assert (Hlast : forall x ws m', is_u64 x -> x mod 8 = 0 ->
    exec (amdgpu_vm_do_set_ptes F 0 x (last_pt r) (run_count r) (8 * 2 ^ bs) AMDGPU_PTE_VALID ++ ws) m' =
    exec ws (store m' x (entries (fun k => Z.lor (last_pt r + k * (8 * 2 ^ bs)) AMDGPU_PTE_VALID) (run_count r)))).
  { intros x ws m' Hx Hx8. apply exec_set_ptes; done || (unfold is_u32; lia). }
  destruct sh as [s|] eqn:Es.
  - destruct (lay_sh LAY s Es) as (Hs0 & Hs8 & Hsb & _). rewrite (Hsd s eq_refl), Hpde.
    rewrite !Hlast; try (apply mod8_4; done); try (unfold is_u64; lia). done.
  - rewrite app_nil_l, Hpde, Hlast; [done|unfold is_u64; lia|by apply mod8_4].
Qed.

Lemma flush_effect r pts idx m :
  run_ok r pts idx -> Z.of_nat idx <= N -> synced r pts m ->
  exists m', (forall rest, exec (run_words r ++ rest) m = exec rest m') /\ synced no_run pts m'.
Proof.
  intros Hr Hi Hs. destruct (decide (run_count r = 0)) as [E|E].
  - exists m. destruct Hr as [->|(j & Hc & _)]; [|lia]. by split.
  - assert (r <> no_run) by (intros ->; by apply E). exists (flushed r m). split.
    + intros rest. by eapply run_words_effect.
    + by eapply flushed_synced.
Qed.

(** The loop records the address of the page table with index [idx]. *)
Definition recorded (pts : list amdgpu_vm_pt) (idx : nat) (e : amdgpu_vm_pt) (o : pt_object) : list amdgpu_vm_pt :=
  <[idx := VmPt (pt_bo e) (gpu_offset o)]> pts.

Lemma recorded_lookup pts idx e o i e' :
  pts !! idx = Some e -> recorded pts idx e o !! i = Some e' ->
  (i = idx /\ e' = VmPt (pt_bo e) (gpu_offset o)) \/ (i <> idx /\ pts !! i = Some e').
Proof.
  intros He H. unfold recorded in H. destruct (decide (i = idx)) as [->|Hne].
  - rewrite list_lookup_insert_eq in H by (by eapply lookup_lt_Some). left. naive_solver.
  - rewrite list_lookup_insert_ne in H by done. by right.
Qed.

Lemma recorded_offsets pts idx e o : pts !! idx = Some e -> offsets_ok pts -> offsets_ok (recorded pts idx e o).
Proof.
  intros He Ho i e' o' Hi Hb. destruct (recorded_lookup _ _ _ _ _ _ He Hi) as [[-> ->]|[_ Hi']]; [|by eapply Ho].
  by apply (Ho idx e o').
Qed.

Lemma recorded_current pts idx e o :
  pts !! idx = Some e -> pt_bo e = Some o -> current pts idx -> current (recorded pts idx e o) (S idx).
Proof.
  intros He Hb Hc i e' o' Hi Hp Hb'. destruct (recorded_lookup _ _ _ _ _ _ He Hp) as [[-> ->]|[Hne Hp']].
  - cbn in *. congruence.
  - by apply (Hc i e' o'); [lia| |].
Qed.

Lemma current_next pts idx :
  (forall e o, pts !! idx = Some e -> pt_bo e = Some o -> pt_addr e = gpu_offset o) -> current pts idx -> current pts (S idx).
Proof.
  intros H Hc i e o Hi Hp Hb. destruct (decide (i = idx)) as [->|]; [by eapply H|]. by apply (Hc i e o); [lia| |].
Qed.

Lemma run_ok_next r pts idx : run_ok r pts idx -> run_ok r pts (S idx).
Proof. intros [->|(j & H1 & H2 & H3 & H)]; [by left|right]. exists j. split; [done|split; [done|split; [lia|done]]]. Qed.

Lemma new_run_ok pts idx e o s :
  pts !! idx = Some e -> pt_bo e = Some o -> offsets_ok pts -> (forall x, sh = Some x -> s = x + 8 * Z.of_nat idx) ->
  run_ok (PdRun 1 (pd + 8 * Z.of_nat idx) (gpu_offset o) s) (recorded pts idx e o) (S idx).
Proof.
  intros He Hb Ho Hs. right. exists (Z.of_nat idx). destruct (Ho idx e o He Hb). cbn [run_count last_pde last_pt last_shadow].
  split; [done|]. split; [lia|]. split; [lia|]. split; [done|]. split; [done|]. split; [done|]. split; [done|].
  intros k Hk. exists (VmPt (pt_bo e) (gpu_offset o)), o. split; [|split; [done|lia]].
  replace (Z.to_nat (Z.of_nat idx + k)) with idx by lia.
  unfold recorded. apply list_lookup_insert_eq. by eapply lookup_lt_Some.
Qed.

Lemma new_run_synced pts idx e o m s :
  pts !! idx = Some e -> synced no_run pts m ->
  synced (PdRun 1 (pd + 8 * Z.of_nat idx) (gpu_offset o) s) (recorded pts idx e o) m.
Proof.
  intros He Hs i e' o' Hi Hp Hb Ha. destruct (recorded_lookup _ _ _ _ _ _ He Hp) as [[-> ->]|[Hne Hp']].
  - left. unfold in_run. cbn. lia.
  - right. destruct (Hs i e' o' Hi Hp' Hb Ha) as [[H _]|H]; [cbn in H; lia|done].
Qed.

(** A page table that continues the run. *)
Lemma more_run_ok r pts idx e o :
  pts !! idx = Some e -> pt_bo e = Some o -> run_ok r pts idx -> Z.of_nat idx < N ->
  run_broken bs r (pd + 8 * Z.of_nat idx) (gpu_offset o) = false ->
  run_ok (PdRun (u32 (run_count r + 1)) (last_pde r) (last_pt r) (last_shadow r)) (recorded pts idx e o) (S idx) /\
  u32 (run_count r + 1) = run_count r + 1 /\ last_pde r + 8 * run_count r = pd + 8 * Z.of_nat idx.
Proof.
  intros He Hb Hr Hi Hbr. apply orb_false_elim in Hbr as [Hbr Hm]. apply orb_false_elim in Hbr as [Hd Ht].
  apply negb_false_iff, Z.eqb_eq in Hd, Ht. apply Z.eqb_neq in Hm. destruct (lay_pd LAY) as (Hp0 & Hp8 & Hpb).
  destruct Hr as [->|(j & Hc & Hj & Hjc & Hpde & Hsd & Hpt & Hpm & Hrun)].
  { exfalso. cbn in Hd. change (u64 (18446744073709551615 + u32 (8 * 0))) with 18446744073709551615 in Hd.
    pose proof (Z.div_mod pd 8). lia. }
  unfold AMDGPU_VM_MAX_UPDATE_SIZE in *. pose proof (run_small (run_count r) ltac:(lia)). destruct incr_eq as (Ei & Eb & _).
  rewrite Ei in Ht. unfold u64, u32 in Hd, Ht. rewrite (Z.mod_small (8 * run_count r)), Z.mod_small in Hd by lia.
  rewrite (Z.mod_small (8 * 2 ^ bs * run_count r)), Z.mod_small in Ht by lia.
  assert (Eu : u32 (run_count r + 1) = run_count r + 1) by (unfold u32; rewrite Z.mod_small; lia).
  split; [|done]. right. exists j. cbn [run_count last_pde last_pt last_shadow]. rewrite Eu.
  split; [unfold AMDGPU_VM_MAX_UPDATE_SIZE; lia|]. split; [done|]. split; [lia|]. split; [done|]. split; [done|]. split; [done|]. split; [done|].
  intros k Hk. destruct (decide (k = run_count r)) as [->|].
  - exists (VmPt (pt_bo e) (gpu_offset o)), o. split; [|split; [done|lia]].
    replace (Z.to_nat (j + run_count r)) with idx by lia. apply list_lookup_insert_eq. by eapply lookup_lt_Some.
  - destruct (Hrun k ltac:(lia)) as (e' & o' & Hp' & Hb' & Ho'). exists e', o'.
    split; [|done]. unfold recorded. rewrite list_lookup_insert_ne; [done|lia].
Qed.

Lemma more_run_synced r pts idx e o m :
  pts !! idx = Some e -> 0 <= run_count r -> last_pde r + 8 * run_count r = pd + 8 * Z.of_nat idx -> synced r pts m ->
  synced (PdRun (run_count r + 1) (last_pde r) (last_pt r) (last_shadow r)) (recorded pts idx e o) m.
Proof.
  intros He Hc Hd Hs i e' o' Hi Hp Hb Ha. unfold in_run. cbn.
  destruct (recorded_lookup _ _ _ _ _ _ He Hp) as [[-> ->]|[Hne Hp']]; [left; lia|].
  destruct (Hs i e' o' Hi Hp' Hb Ha) as [[H1 H2]|H]; [left; lia|by right].
Qed.

Context (bind_r : nat -> Z) (Hbind : forall i, bind_r i = 0).

(** What the loop leaves behind. *)
Definition loop_result (n idx : nat) (r : pd_run) (pts : list amdgpu_vm_pt) (b : pte_ib) : Prop :=
  exists ws r' pts', pd_loop F bs pd sh bind_r n idx r (PdState pts b) = Ok (inr r', PdState pts' (appended b ws)) /\
    0 <= run_count r' /\
    Z.of_nat (length ws) + copies * (6 * run_count r') <= copies * (6 * (Z.of_nat n + run_count r)) /\
    run_ok r' pts' (idx + n) /\ current pts' (idx + n) /\ map pt_bo pts' = map pt_bo pts /\
    forall m, synced r pts m ->
      exists m', (forall rest, exec (ws ++ rest) m = exec rest m') /\ synced r' pts' m'.

Lemma run_count_nonneg r pts idx : run_ok r pts idx -> 0 <= run_count r.
Proof. intros [->|(j & H & _)]; [done|lia]. Qed.

Lemma recorded_bos pts idx e o : pts !! idx = Some e -> map pt_bo (recorded pts idx e o) = map pt_bo pts.
Proof.
  intros He. unfold recorded. rewrite <- (list_insert_id pts idx e He) at 2.
  change (map pt_bo) with (fmap (M:=list) pt_bo). by rewrite !list_fmap_insert.
Qed.

Lemma pd_index idx : Z.of_nat idx < N -> u64 (pd + u32 (Z.of_nat idx * 8)) = pd + 8 * Z.of_nat idx /\
  forall s, sh = Some s -> u64 (default 0 sh + u32 (Z.of_nat idx * 8)) = s + 8 * Z.of_nat idx.
Proof.
  intros Hi. destruct (lay_pd LAY) as (Hp0 & Hp8 & Hpb). destruct (lay_n LAY). pose proof (B_pos bs Hbs).
  assert (N * 4096 < 4294967296) by nia.
  unfold u64, u32. rewrite (Z.mod_small (Z.of_nat idx * 8)) by lia. split; [rewrite Z.mod_small; lia|].
  intros s Es. destruct (lay_sh LAY s Es) as (Hs0 & Hs8 & Hsb & _). rewrite Es. change (default 0 (Some s)) with s.
  rewrite Z.mod_small; lia.
Qed.

(** A turn that changes nothing but the index. *)
Lemma loop_skip n idx r pts b : loop_result n (S idx) r pts b ->
  pd_loop F bs pd sh bind_r (S n) idx r (PdState pts b) = pd_loop F bs pd sh bind_r n (S idx) r (PdState pts b) ->
  loop_result (S n) idx r pts b.
Proof.
  intros (ws & r' & pts' & Hl & H0 & Hw & Hr & Hc & Hb & Hm) E. exists ws, r', pts'.
  rewrite E. replace (idx + S n)%nat with (S idx + n)%nat by lia. unfold copies in *.
  split; [done|]. split; [done|]. split; [destruct sh; lia|]. done.
Qed.

(** A turn that records an address, writes the words [ws] and goes on with the
    run [r1]. *)
Lemma loop_change n idx r r1 pts b e o ws :
  pts !! idx = Some e -> pt_bo e = Some o ->
  Z.of_nat (length ws) + copies * (6 * run_count r1) <= copies * (6 * (run_count r + 1)) ->
  (forall m, synced r pts m ->
     exists m', (forall rest, exec (ws ++ rest) m = exec rest m') /\ synced r1 (recorded pts idx e o) m') ->
  room b (copies * (6 * (Z.of_nat (S n) + run_count r))) ->
  pd_loop F bs pd sh bind_r (S n) idx r (PdState pts b) =
    pd_loop F bs pd sh bind_r n (S idx) r1 (PdState (recorded pts idx e o) (appended b ws)) ->
  (room (appended b ws) (copies * (6 * (Z.of_nat n + run_count r1))) ->
   loop_result n (S idx) r1 (recorded pts idx e o) (appended b ws)) ->
  0 <= run_count r1 ->
  loop_result (S n) idx r pts b.
Proof.
  intros He Hb Hw Hm Hroom E Hrest H1. assert (Hk : 1 <= copies <= 2) by (unfold copies; destruct sh; lia).
  destruct Hrest as (ws' & r' & pts' & Hl & H0 & Hw' & Hr & Hc & Hbo & Hm').
  { apply appended_room; [|nia]. destruct Hroom as [? [? ?]]. split; [done|]. nia. }
  exists (ws ++ ws'), r', pts'. rewrite E, Hl. replace (idx + S n)%nat with (S idx + n)%nat by lia.
  split; [rewrite appended_app; [done|]|].
  { destruct Hroom as [? [? ?]]. rewrite length_app. split; [done|split; [|done]]. nia. }
  split; [done|]. split; [rewrite length_app; nia|]. split; [done|]. split; [done|].
  split; [rewrite Hbo; by apply recorded_bos|].
  intros m Hs. destruct (Hm m Hs) as (m1 & X1 & Hs1). destruct (Hm' m1 Hs1) as (m2 & X2 & Hs2).
  exists m2. split; [|done]. intros rest. by rewrite <- app_assoc, X1, X2.
Qed.

(** The turn for a page table, with the addresses computed. *)
Lemma pd_loop_turn n idx r pts b e o :
  pts !! idx = Some e -> pt_bo e = Some o -> Z.of_nat idx < N ->
  pd_loop F bs pd sh bind_r (S n) idx r (PdState pts b) =
    if pt_addr e =? gpu_offset o then pd_loop F bs pd sh bind_r n (S idx) r (PdState pts b)
    else if run_broken bs r (pd + 8 * Z.of_nat idx) (gpu_offset o) then
      (flush_run F bs sh r;;
       pd_loop F bs pd sh bind_r n (S idx) (PdRun 1 (pd + 8 * Z.of_nat idx) (gpu_offset o)
         (u64 (default 0 sh + u32 (Z.of_nat idx * 8))))) (PdState (recorded pts idx e o) b)
    else pd_loop F bs pd sh bind_r n (S idx) (PdRun (u32 (run_count r + 1)) (last_pde r) (last_pt r) (last_shadow r))
           (PdState (recorded pts idx e o) b).
Proof.
  intros He Eb Hi. cbn [pd_loop]. rewrite (bind_eval (gets id) _ (PdState pts b) _ _ eq_refl). cbn [id pd_tables].
  rewrite He. cbn [deref].
  rewrite (bind_eval (mret e) _ (PdState pts b) _ _ eq_refl), Eb. rewrite (proj1 (pd_index idx Hi)).
  replace (match shadow_offset o with Some _ => bind_r idx | None => 0 end) with 0 by (destruct (shadow_offset o); auto).
  cbn [Z.eqb negb]. destruct (pt_addr e =? gpu_offset o); [done|].
  rewrite (bind_eval (modify _) _ (PdState pts b) tt _ eq_refl). cbn [pd_tables pd_ib]. rewrite <- Eb.
  by destruct (run_broken _ _ _ _).
Qed.

Lemma pd_loop_ok n idx r pts b :
  offsets_ok pts -> run_ok r pts idx -> current pts idx -> Z.of_nat (idx + n) = N -> N <= Z.of_nat (length pts) ->
  room b (copies * (6 * (Z.of_nat n + run_count r))) -> loop_result n idx r pts b.
Proof.
  revert idx r pts b. induction n as [|n IH]; intros idx r pts b Ho Hr Hc Hn Hlen Hroom.
  { exists [], r, pts. rewrite Nat.add_0_r, appended_nil by apply Hroom. pose proof (run_count_nonneg _ _ _ Hr).
    split; [done|]. split; [done|]. split; [cbn; lia|]. split; [done|]. split; [done|]. split; [done|].
    intros m Hm. by exists m. }
  pose proof (run_count_nonneg _ _ _ Hr) as Hrc. assert (Hk : 1 <= copies <= 2) by (unfold copies; destruct sh; lia).
  assert (Hroom' : room b (copies * (6 * (Z.of_nat n + run_count r)))) by (destruct Hroom as [? [? ?]]; split; [done|]; nia).
  destruct (lookup_lt_is_Some_2 pts idx ltac:(lia)) as [e He].
  destruct (pt_bo e) as [o|] eqn:Eb.
  2: { apply loop_skip; [apply IH; try done; [by apply run_ok_next|apply current_next; [|done]; congruence|lia]|].
       cbn [pd_loop]. by rewrite (bind_eval (gets id) _ (PdState pts b) _ _ eq_refl); cbn [id pd_tables];
         rewrite He; cbn [deref]; rewrite (bind_eval (mret e) _ (PdState pts b) _ _ eq_refl), Eb. }
  pose proof (pd_loop_turn n idx r pts b e o He Eb ltac:(lia)) as Hloop.
  destruct (Z.eqb_spec (pt_addr e) (gpu_offset o)) as [Ha|Ha].
  { apply loop_skip; [|done]. apply IH; try done; [by apply run_ok_next|apply current_next; [congruence|done]|lia]. }
  assert (Hl1 : N <= Z.of_nat (length (recorded pts idx e o))) by (unfold recorded; by rewrite length_insert).
  pose proof (recorded_offsets pts idx e o He Ho). pose proof (recorded_current pts idx e o He Eb Hc).
  destruct (run_broken _ _ _ _) eqn:Ebr.
  - pose proof (run_words_length r Hrc) as Hwl.
    assert (Hrw : room b (Z.of_nat (length (run_words r)))) by (destruct Hroom as [? [? ?]]; split; [done|]; nia).
    rewrite (bind_eval (flush_run F bs sh r) _ _ tt _ (flush_run_emits r _ b Hrw)) in Hloop.
    eapply loop_change; [exact He|exact Eb| | |exact Hroom|exact Hloop| |done]; cbn [run_count].
    + lia.
    + intros m Hs. destruct (flush_effect r pts idx m Hr ltac:(lia) Hs) as (m' & X & Hs').
      exists m'. split; [done|]. by apply new_run_synced.
    + intros Hroom1. apply IH; try done; [|lia]. apply new_run_ok; [done|done|done|].
      apply (proj2 (pd_index idx ltac:(lia))).
  - destruct (more_run_ok r pts idx e o He Eb Hr ltac:(lia) Ebr) as (Hr1 & Eu & Hd).
    rewrite <- (appended_nil b) in Hloop at 2 by apply Hroom. rewrite Eu in *.
    eapply loop_change; [exact He|exact Eb| | |exact Hroom|exact Hloop| |]; cbn [run_count].
    + cbn. lia.
    + intros m Hs. exists m. split; [done|]. by apply more_run_synced.
    + intros Hroom1. apply IH; done || lia.
    + lia.
Qed.
End directory_spec.

(** Executing what was submitted. *)
Definition run_submitted (exec : list Z -> gpu_mem -> option gpu_mem) (ib : option pte_ib) (m : gpu_mem) : option gpu_mem :=
  match ib with
  | Some b => exec (take (Z.to_nat (ib_fill b)) (ib_ptr b)) m
  | None => Some m
  end.

Lemma pd_space bs pd sh N :
  9 <= bs <= 17 -> layout bs pd sh N -> copies sh * (6 * N) + 7 <= pd_ndw sh (N - 1) < 4294967296.
Proof.
  intros Hbs LAY. destruct (lay_n _ _ _ _ LAY) as [H0 H1]. pose proof (B_pos bs Hbs).
  assert (N * 4096 < 4294967296) by nia. unfold pd_ndw, copies, u32.
  rewrite (Z.mod_small ((N - 1) * 6)), (Z.mod_small (64 + _)) by lia.
  destruct sh; [rewrite Z.mod_small|]; lia.
Qed.

(** The end of the function, when the loop has emitted [ws] and left the run
    [r]: what is submitted, and that executing it is executing these words. *)
Lemma directory_end F exec bs pd sh bind_r env max_pde_used pts pts' r ws :
  PteEngine F exec -> env_ok env ->
  let b0 := PteIb (map (garbage env) (seq 0 (Z.to_nat (pd_ndw sh max_pde_used)))) 0 in
  pd_loop F bs pd sh bind_r (Z.to_nat max_pde_used + 1) 0 no_run (PdState pts b0) =
    Ok (inr r, PdState pts' (appended b0 ws)) ->
  room b0 (Z.of_nat (length (ws ++ run_words F bs sh r)) + 7) ->
  exists ib, amdgpu_vm_update_page_directory F bs pd sh bind_r env 0 max_pde_used pts = Ok (0, pts', ib) /\
    forall m m', (forall rest, exec ((ws ++ run_words F bs sh r) ++ rest) m = exec rest m') ->
      run_submitted exec ib m = Some m'.
Proof.
  intros HE (Ha & _ & _ & _ & Hsub) b0 Hl Hroom. set (rw := run_words F bs sh r) in *.
  unfold amdgpu_vm_update_page_directory. rewrite Ha. fold b0.
  replace (match sh with Some _ => negb (0 =? 0) | None => false end) with false by (by destruct sh).
  cbn [Z.eqb negb]. rewrite (bind_eval (pd_loop _ _ _ _ _ _ _ _) _ _ _ _ Hl).
  assert (Hrw : room b0 (Z.of_nat (length (ws ++ rw)))) by (destruct Hroom as [? [? ?]]; split; [done|split; lia]).
  rewrite (bind_eval (flush_run F bs sh r) _ _ tt (PdState pts' (appended b0 (ws ++ rw)))).
  2: { rewrite flush_run_emits; fold rw; [by rewrite appended_app|].
       apply appended_room; [by rewrite <- Nat2Z.inj_add, <- length_app|lia]. }
  rewrite (bind_eval (gets id) _ (PdState pts' (appended b0 (ws ++ rw))) _ _ eq_refl). cbn [id pd_ib].
  assert (Hfill : ib_fill (appended b0 (ws ++ rw)) = Z.of_nat (length (ws ++ rw))) by done.
  destruct (Z.eqb_spec (ib_fill (appended b0 (ws ++ rw))) 0) as [E|E].
  - exists None. split; [done|]. intros m m' X. rewrite Hfill in E.
    assert (Hnil : ws ++ rw = []) by (apply length_zero_iff_nil; lia). rewrite Hnil in X.
    specialize (X []). cbn [app] in X. rewrite !exec_nil in X. done.
  - set (pad := pad_ib F _). pose proof (pad_length (exec:=exec) (F:=F) (ib_fill (appended b0 (ws ++ rw)))) as Lp. fold pad in Lp.
    assert (Hrp : room (appended b0 (ws ++ rw)) (Z.of_nat (length pad))).
    { apply appended_room; [|lia]. destruct Hroom as [? [? ?]]. split; [done|split; lia]. }
    rewrite (bind_eval (on_ib (ib_writes pad)) _ _ tt _ (on_ib_writes pad pts' _ Hrp)). rewrite Hsub.
    eexists. split; [done|]. intros m m' X. cbn [run_submitted pd_ib Z.eqb].
    rewrite appended_app by (destruct Hroom as [? [? ?]]; rewrite length_app; split; [done|split; lia]).
    change (ib_fill (appended b0 ((ws ++ rw) ++ pad))) with (Z.of_nat (length ((ws ++ rw) ++ pad))).
    rewrite Nat2Z.id, fresh_words by done. rewrite X. apply exec_pad.
Qed.

(** No page table in use has moved. *)
Definition unmoved (max_pde_used : Z) (pts : list amdgpu_vm_pt) : Prop :=
  forall i e o, Z.of_nat i <= max_pde_used -> pts !! i = Some e -> pt_bo e = Some o -> pt_addr e = gpu_offset o.

Lemma pd_loop_unmoved F bs pd sh bind_r max_pde_used pts b r : (forall i, bind_r i = 0) -> unmoved max_pde_used pts ->
  max_pde_used < Z.of_nat (length pts) -> forall n idx, Z.of_nat (idx + n) <= max_pde_used + 1 ->
  pd_loop F bs pd sh bind_r n idx r (PdState pts b) = Ok (inr r, PdState pts b).
Proof.
  intros Hbind Hu Hlen n. induction n as [|n IH]; intros idx Hi; cbn [pd_loop]; [done|].
  rewrite (bind_eval (gets id) _ (PdState pts b) _ _ eq_refl). cbn [id pd_tables].
  destruct (lookup_lt_is_Some_2 pts idx) as [e He]; [lia|]. rewrite He.
  rewrite (bind_eval (deref (Some e)) _ (PdState pts b) e (PdState pts b) eq_refl).
  destruct (pt_bo e) as [o|] eqn:Eb; [|apply IH; lia].
  replace (match shadow_offset o with Some _ => bind_r idx | None => 0 end) with 0 by (by destruct (shadow_offset o)).
  cbn [Z.eqb negb]. rewrite (Hu idx e o) by (done || lia). rewrite Z.eqb_refl. apply IH. lia.
Qed.

(** Then nothing is submitted. *)
Lemma unmoved_idle F bs pd sh bind_r env max_pde_used pts : env_ok env -> (forall i, bind_r i = 0) ->
  0 <= max_pde_used < Z.of_nat (length pts) -> unmoved max_pde_used pts ->
  amdgpu_vm_update_page_directory F bs pd sh bind_r env 0 max_pde_used pts = Ok (0, pts, None).
Proof.
  intros (Ha & _) Hbind Hm Hu. unfold amdgpu_vm_update_page_directory. rewrite Ha.
  replace (match sh with Some _ => negb (0 =? 0) | None => false end) with false by (by destruct sh). cbn [Z.eqb negb].
  by rewrite (bind_eval (pd_loop _ _ _ _ _ _ _ _) _ _ _ _ (pd_loop_unmoved F bs pd sh bind_r max_pde_used pts _ no_run Hbind Hu ltac:(lia) (Z.to_nat max_pde_used + 1)%nat 0%nat ltac:(lia))).
Qed.

(** C8: when the buffer can be allocated and submitted and the shadows can be
    bound, [amdgpu_vm_update_page_directory] leaves every page table in use with
    its current address recorded and, once the submitted buffer has been
    executed, with a valid entry of that address in the directory and in the
    directory's shadow; the packets fit into the buffer.  When no page table has
    moved nothing is submitted and nothing changes.  The directory and its
    shadow lie apart at multiples of 8, the tables at multiples of a page below
    2^63, and the entries of the page tables that have not moved were right
    before (after a failed submission they are not, see
    [page_directory_lost]). *)
Theorem page_directory_updated (F : amdgpu_vm_pte_funcs) (exec : list Z -> gpu_mem -> option gpu_mem)
    (bs pd : Z) (sh : option Z) (env : update_env) (bind_r : nat -> Z) (max_pde_used : Z) (pts : list amdgpu_vm_pt) :
  PteEngine F exec -> 9 <= bs <= 17 -> layout bs pd sh (max_pde_used + 1) -> offsets_ok pts ->
  max_pde_used < Z.of_nat (length pts) -> env_ok env -> (forall i, bind_r i = 0) ->
  exists pts' ib, amdgpu_vm_update_page_directory F bs pd sh bind_r env 0 max_pde_used pts = Ok (0, pts', ib) /\
    map pt_bo pts' = map pt_bo pts /\ (unmoved max_pde_used pts -> pts' = pts /\ ib = None) /\
    forall m, synced pd sh (max_pde_used + 1) no_run pts m ->
      exists m', run_submitted exec ib m = Some m' /\
        forall i e o, Z.of_nat i <= max_pde_used -> pts' !! i = Some e -> pt_bo e = Some o ->
          pt_addr e = gpu_offset o /\ good pd sh m' (Z.of_nat i) (gpu_offset o).
Proof.
  intros HE Hbs LAY Ho Hlen Henv Hbind. set (N := max_pde_used + 1) in *.
  destruct (pd_space bs pd sh N Hbs LAY) as [Hsp Hsp']. destruct (lay_n _ _ _ _ LAY) as [HN _].
  replace (N - 1) with max_pde_used in * by lia.
  assert (Hk : 1 <= copies sh <= 2) by (unfold copies; destruct sh; lia).
  set (b0 := PteIb (map (garbage env) (seq 0 (Z.to_nat (pd_ndw sh max_pde_used)))) 0).
  assert (Hroom : room b0 (pd_ndw sh max_pde_used)) by (apply fresh_room; lia).
  destruct (pd_loop_ok F exec bs pd sh N Hbs LAY bind_r Hbind (Z.to_nat max_pde_used + 1) 0 no_run pts b0)
    as (ws & r & pts' & Hl & H0 & Hw & Hr & Hc & Hbo & Hm).
  { done. } { by left. } { intros i e o Hi. lia. } { lia. } { lia. }
  { destruct Hroom as [? [? ?]]. split; [done|]. cbn [run_count no_run]. nia. }
  pose proof (run_words_length F exec bs sh r H0) as Hwl. cbn [run_count no_run] in Hw.
  set (all := ws ++ run_words F bs sh r).
  assert (Hall : Z.of_nat (length all) + 7 <= pd_ndw sh max_pde_used) by (subst all; rewrite length_app; nia).
  assert (Hra : room b0 (Z.of_nat (length all) + 7)) by (destruct Hroom as [? [? ?]]; split; [done|split; lia]).
  assert (Hmem : forall m, synced pd sh N no_run pts m -> exists m', (forall rest, exec (all ++ rest) m = exec rest m') /\
      synced pd sh N no_run pts' m').
  { intros m Hs. destruct (Hm m Hs) as (m1 & X1 & Hs1).
    destruct (flush_effect F exec bs pd sh N Hbs LAY r pts' _ m1 Hr ltac:(lia) Hs1) as (m2 & X2 & Hs2).
    exists m2. split; [|done]. intros rest. subst all. by rewrite <- app_assoc, X1, X2. }
  destruct (directory_end F exec bs pd sh bind_r env max_pde_used pts pts' r ws HE Henv Hl Hra) as (ib & Hrun & Hib).
  exists pts', ib. split; [done|]. split; [done|]. split.
  { intros Hu. rewrite (unmoved_idle F bs pd sh bind_r env max_pde_used pts Henv Hbind ltac:(lia) Hu) in Hrun. by injection Hrun. }
  intros m Hs. destruct (Hmem m Hs) as (m' & X & Hs').
  exists m'. split; [by apply Hib|]. intros i e o Hi He Hb.
  assert (Hcur : pt_addr e = gpu_offset o) by (apply (Hc i e o); [lia|done|done]). split; [done|].
  destruct (Hs' i e o ltac:(lia) He Hb Hcur) as [[Hin _]|Hg]; [cbn in Hin; lia|done].
Qed.

(** ** A directory *)

Import SdmaPte.

(** Four page tables of 512 entries: two side by side, one that has not moved. *)
Definition demo_pts : list amdgpu_vm_pt :=
  [ VmPt (Some (PtObject 0x100000 None)) 0; VmPt (Some (PtObject 0x101000 None)) 0; VmPt None 0;
    VmPt (Some (PtObject 0x200000 None)) 0x200000 ].
Definition demo_mem : gpu_mem := store (store ∅ (0x10000 + 24) (halves 0x200001)) (0x20000 + 24) (halves 0x200001).

Lemma demo_layout : layout 9 0x10000 (Some 0x20000) 4.
Proof. split; [done|done|]. intros s [= <-]. split; [done|split; [done|split; [done|right; done]]]. Qed.

Lemma page_directory_updated_witness :
  exists pts' ib m', amdgpu_vm_update_page_directory (sdma_v3_0_vm_pte_funcs true) 9 0x10000 (Some 0x20000) (fun _ => 0)
      demo_env 0 3 demo_pts = Ok (0, pts', ib) /\
    run_submitted sdma_exec ib demo_mem = Some m' /\ good 0x10000 (Some 0x20000) m' 1 0x101000.
Proof.
  destruct (page_directory_updated (sdma_v3_0_vm_pte_funcs true) sdma_exec 9 0x10000 (Some 0x20000) demo_env
    (fun _ => 0) 3 demo_pts) as (pts' & ib & E & Hbo & _ & H).
  - apply _.
  - lia.
  - apply demo_layout.
  - intros i e o Hi Hb. do 4 (destruct i as [|i]; [cbn in Hi; injection Hi as <-; cbn in Hb; simplify_eq; vm_compute; intuition congruence|]). done.
  - cbn. lia.
  - repeat split.
  - done.
  - destruct (H demo_mem) as (m' & Hm & Hg).
    { intros i e o Hi He Hb Ha. do 3 (destruct i as [|i]; [cbn in He; injection He as <-; cbn in Hb, Ha; simplify_eq|]).
      destruct i as [|i]; [|cbn in Hi; lia]. cbn in He. injection He as <-. cbn in Hb. simplify_eq. right.
      split; [by vm_compute|]. intros s [= <-]. by vm_compute. }
    exists pts', ib, m'. split; [done|]. split; [done|].
    assert (Hl : length pts' = 4%nat) by (rewrite <- (length_map pt_bo), Hbo; done).
    destruct (lookup_lt_is_Some_2 pts' 1 ltac:(lia)) as [e He].
    assert (Hb : pt_bo e = Some (PtObject 0x101000 None)).
    { assert (X : map pt_bo pts' !! 1%nat = Some (pt_bo e)) by (change (map pt_bo) with (fmap (M:=list) pt_bo); by rewrite list_lookup_fmap, He).
      rewrite Hbo in X. cbn in X. congruence. }
    apply (Hg 1%nat e (PtObject 0x101000 None)); [lia|done|done].
Defined.

(** The address of a page table is recorded before the buffer that writes
    it has been submitted: when the submission fails, the caller gets the
    error, but the next call finds nothing to do and the entry of the directory
    is never written. *)
Theorem page_directory_lost :
  let pts := [VmPt (Some (PtObject 0x100000 None)) 0] in
  let failing := UpdateEnv 0 0 0 0 (- ENOMEM) 0x10000000 (fun _ => 0) in
  let update env := amdgpu_vm_update_page_directory (sdma_v3_0_vm_pte_funcs true) 9 0x10000 None (fun _ => 0) env 0 0 in
  exists pts', update failing pts = Ok (- ENOMEM, pts', None) /\ update demo_env pts' = Ok (0, pts', None) /\
    forall m, entry_at m 0x10000 <> Some (0x100000 + AMDGPU_PTE_VALID) ->
      run_submitted sdma_exec None m = Some m /\ ~ good 0x10000 None m 0 0x100000.
Proof.
  eexists. split; [vm_compute; reflexivity|]. split; [vm_compute; reflexivity|].
  intros m Hm. split; [done|]. intros [Hg _]. by apply Hm.
Qed.
