(* ===== verification/SplitMapping.v ===== *)
(** * Splitting a mapping into updates ([amdgpu_vm_bo_split_mapping] of [amdgpu/amdgpu_vm.c])

    The memory of a buffer object consists of nodes, ranges of pages.  An update
    has one destination address, so a mapping is split where nodes end, and
    every 16 Ki entries when the addresses come from an array.  The reference is
    the list of the object's pages ([pages_of]); [expand] lists the pages that
    updates set.  [chunk_entry] is the entry that an update leaves for a page
    ([PageUpdate] proves this of [amdgpu_vm_bo_update_mapping]); the chunks of a
    split lie next to each other ([tiled]). *)

From stdpp Require Import base numbers list.
From S2P Require Import Prelude CMonad Engines VmEngine PageTable.

(** [struct amdgpu_bo_va_mapping]. *)
Record va_mapping := VaMapping { mid : nat; it_start : Z; it_last : Z; map_offset : Z; map_flags : Z }.
#[global] Instance va_mapping_eq_dec : EqDecision va_mapping.
Proof. solve_decision. Defined.

Record drm_mm_node := MmNode { node_start : Z; node_size : Z }.
(** [OtherMemory] stands for the types that take the default branch and are not
    system memory. *)
Inductive mem_type := OtherMemory | TTM_PL_SYSTEM | TTM_PL_TT | TTM_PL_VRAM | AMDGPU_PL_DGMA | AMDGPU_PL_DGMA_IMPORT.

(** What is read of the device: base of video memory, the GART's table, and the
    offsets of the memory managers. *)
Record split_device := SplitDevice {
  vram_base_offset : Z; table_addr : Z; gpu_offset_tt : Z; gpu_offset_vram : Z; gpu_offset_dgma : Z; gpu_offset_import : Z }.

(** A call of [amdgpu_vm_bo_update_mapping]; [c_pages] names the array of
    addresses it is given: none, the caller's, or the one of [mem->bus.base]. *)
Inductive page_array := NoPages | CallerPages | BusPages.
#[global] Instance page_array_eq_dec : EqDecision page_array.
Proof. solve_decision. Defined.
Record chunk := Chunk { c_src : Z; c_pages : page_array; c_start : Z; c_last : Z; c_flags : Z; c_addr : Z }.

Definition S64_MAX : Z := 9223372036854775807.
Definition PAGE_SHIFT : Z := 12.

(** [while (pfn >= nodes->size)]: the nodes from the one that holds the page on,
    or nothing when the object has no such page. *)
Fixpoint skip_nodes (nodes : list drm_mm_node) (pfn : Z) : option (list drm_mm_node * Z) :=
  match nodes with
  | [] => None
  | n :: l => if node_size n <=? pfn then skip_nodes l (pfn - node_size n) else Some (nodes, pfn)
  end.

Section split.
Context (dev : split_device) (mtype : mem_type) (flags it_last : Z) (update_r : nat -> Z).

Record split_state := SplitState {
  sp_nodes : option (list drm_mm_node); sp_pfn : Z; sp_src : Z; sp_start : Z; sp_gtt_flags : Z; sp_pages : page_array }.

(** One turn up to the update: source, array, flags of the GART, the address
    and the number of entries of a turn. *)
Definition split_turn (s : split_state) : outcome (Z * page_array * Z * Z * Z) :=
  match sp_nodes s with
  | None => Ok (sp_src s, sp_pages s, sp_gtt_flags s, 0, S64_MAX)
  | Some [] => Fault
  | Some (n :: _) =>
      let addr := u64 (Z.shiftl (node_start n) PAGE_SHIFT) in
      let max_entries := u64 (node_size n - sp_pfn s) in
      let tt_case (pages : page_array) (gtt_flags addr : Z) :=
        if flags =? gtt_flags
        then Ok (u64 (table_addr dev + Z.shiftr addr 12 * 8), pages, gtt_flags, 0, max_entries)
        else Ok (sp_src s, pages, gtt_flags, 0, Z.min max_entries (16 * 1024)) in
      match mtype with
      | AMDGPU_PL_DGMA_IMPORT => tt_case BusPages flags (u64 (addr + gpu_offset_import dev - gpu_offset_tt dev))
      | TTM_PL_TT => tt_case (sp_pages s) (sp_gtt_flags s) addr
      | AMDGPU_PL_DGMA =>
          Ok (sp_src s, sp_pages s, sp_gtt_flags s,
              u64 (addr + (vram_base_offset dev + gpu_offset_dgma dev - gpu_offset_vram dev)), max_entries)
      | TTM_PL_VRAM => Ok (sp_src s, sp_pages s, sp_gtt_flags s, u64 (addr + vram_base_offset dev), max_entries)
      | OtherMemory | TTM_PL_SYSTEM => Ok (sp_src s, sp_pages s, sp_gtt_flags s, addr, max_entries)
      end
  end.

(** The loop; [done_] are the updates made so far. *)
Fixpoint split_loop (fuel : nat) (s : split_state) (done_ : list chunk) : outcome (Z * list chunk) :=
  match fuel with
  | O => NoFuel
  | S k =>
      match split_turn s with
      | Ok (src, pages, gtt_flags, addr, max_entries) =>
          let addr := u64 (addr + Z.shiftl (sp_pfn s) PAGE_SHIFT) in
          let last := Z.min it_last (u64 (sp_start s + max_entries - 1)) in
          let done' := done_ ++ [Chunk src pages (sp_start s) last flags addr] in
          let r := update_r (length done_) in
          if negb (r =? 0) then Ok (r, done')
          else
            let pfn := u64 (sp_pfn s + (last - sp_start s + 1)) in
            let '(nodes, pfn) :=
              match sp_nodes s with
              | Some (n :: l) => if node_size n =? pfn then (Some l, 0) else (sp_nodes s, pfn)
              | _ => (sp_nodes s, pfn)
              end in
            if last + 1 =? it_last + 1 then Ok (0, done')
            else split_loop k (SplitState nodes pfn src (last + 1) gtt_flags pages) done'
      | Fault => Fault
      | NoFuel => NoFuel
      end
  end.
End split.

Definition filtered_flags (m : va_mapping) (flags : Z) : Z :=
  let flags := if Z.land (map_flags m) AMDGPU_PTE_READABLE =? 0
               then Z.land flags (u32 (Z.lnot AMDGPU_PTE_READABLE)) else flags in
  if Z.land (map_flags m) AMDGPU_PTE_WRITEABLE =? 0
  then Z.land flags (u32 (Z.lnot AMDGPU_PTE_WRITEABLE)) else flags.

(** [mem] is null when entries are cleared. *)
Definition amdgpu_vm_bo_split_mapping (dev : split_device) (fuel : nat) (gtt_flags : Z) (pages_addr : page_array)
    (mapping : va_mapping) (flags : Z) (mem : option (mem_type * option (list drm_mm_node))) (update_r : nat -> Z) :
    outcome (Z * list chunk) :=
  let flags := filtered_flags mapping flags in
  let pfn := Z.shiftr (map_offset mapping) PAGE_SHIFT in
  let mtype := match mem with Some (t, _) => t | None => OtherMemory end in
  let loop nodes pfn :=
    split_loop dev mtype flags (it_last mapping) update_r fuel
      (SplitState nodes pfn 0 (it_start mapping) gtt_flags pages_addr) [] in
  match mem with
  | Some (_, Some nodes) =>
      match skip_nodes nodes pfn with
      | None => Fault
      | Some (nodes, pfn) => loop (Some nodes) pfn
      end
  | _ => loop None pfn
  end.

(** The entry of page [p] after the update [c]: nothing without the valid bit, a
    copy of an entry of the GART's table, an element of the array of addresses,
    or an address. *)
Inductive pte := PteAddress (addr flags : Z) | PteGart (slot : Z) | PtePages (pages : page_array) (index flags : Z).
#[global] Instance pte_eq_dec : EqDecision pte.
Proof. solve_decision. Defined.
Definition chunk_entry (c : chunk) (p : Z) : option pte :=
  let i := p - c_start c in
  if Z.land (c_flags c) AMDGPU_PTE_VALID =? 0 then None
  else if negb (c_src c =? 0) then Some (PteGart (u64 (c_src c + (Z.shiftr (c_addr c) 12 + i) * 8)))
  else match c_pages c with
       | NoPages => Some (PteAddress (u64 (c_addr c + i * AMDGPU_GPU_PAGE_SIZE)) (c_flags c))
       | pages => Some (PtePages pages (Z.shiftr (c_addr c) 12 + i) (c_flags c))
       end.
(** The turns that a split can need: one for each node and for each page. *)
Definition split_fuel (m : va_mapping) (mem : option (mem_type * option (list drm_mm_node))) : nat :=
  S (length (match mem with Some (_, Some nodes) => nodes | _ => [] end) + Z.to_nat (it_last m - it_start m + 1)).
(** What a split leaves for page [p] when all its updates succeed. *)
Definition in_chunk (p : Z) (c : chunk) : bool := (c_start c <=? p) && (p <=? c_last c).
Definition split_entry (dev : split_device) (gtt_flags : Z) (pages_addr : page_array) (m : va_mapping) (flags : Z)
    (mem : option (mem_type * option (list drm_mm_node))) (p : Z) : option pte :=
  match amdgpu_vm_bo_split_mapping dev (split_fuel m mem) gtt_flags pages_addr m flags mem (fun _ => 0) with
  | Ok (_, cs) => c ← find (in_chunk p) cs; chunk_entry c p
  | _ => None
  end.

(** ** The chunks of a split *)

(** Next to each other, from [a] up to [b]. *)
Fixpoint tiled (a : Z) (cs : list chunk) (b : Z) : Prop :=
  match cs with
  | [] => a = b
  | c :: cs => c_start c = a /\ a <= c_last c + 1 /\ tiled (c_last c + 1) cs b
  end.
(** Nodes are not empty, and their bytes fit in 64 bits. *)
Definition node_sane (n : drm_mm_node) : Prop := 0 < node_size n < 4503599627370496.
Definition sane (s : split_state) : Prop :=
  match sp_nodes s with
  | None => True
  | Some [] => True
  | Some (n :: l) => Forall node_sane (n :: l) /\ 0 <= sp_pfn s < node_size n
  end.

Section chunks.
Context (dev : split_device) (mtype : mem_type) (flags last_page : Z).

Lemma split_turn_entries s src pages gtt addr n :
  sane s -> split_turn dev mtype flags s = Ok (src, pages, gtt, addr, n) ->
  0 < n < 9223372036854775808 /\ forall x l, sp_nodes s = Some (x :: l) -> n <= node_size x - sp_pfn s.
Proof.
  unfold sane, split_turn. destruct (sp_nodes s) as [[|x l]|]; [done| |].
  - intros (Hx & Hp) H. apply Forall_cons in Hx as [Hx _]. unfold node_sane in Hx.
    assert (E : u64 (node_size x - sp_pfn s) = node_size x - sp_pfn s) by (unfold u64; rewrite Z.mod_small; lia). rewrite E in H.
    assert (Hn : n = node_size x - sp_pfn s \/ n = Z.min (node_size x - sp_pfn s) (16 * 1024)).
    { revert H. destruct mtype; cbn; try (by intros [= _ _ _ _ <-]; left); destruct (_ =? _); intros [= _ _ _ _ <-]; auto. }
    split; [lia|]. intros ? ? [= <- <-]. lia.
  - intros _ [= _ _ _ _ <-]. unfold S64_MAX. split; [lia|done].
Qed.

(** A run of the loop, whatever its updates return: the chunks are next to each
    other, and a run that succeeds makes the same chunks as one in which all
    updates do. *)
Lemma split_loop_tiled update_r fuel : forall s done_ r out,
  sane s -> 0 <= sp_start s <= last_page -> last_page < 4503599627370496 ->
  split_loop dev mtype flags last_page update_r fuel s done_ = Ok (r, out) ->
  exists cs b, out = done_ ++ cs /\ cs <> [] /\ tiled (sp_start s) cs b /\ b <= last_page + 1 /\ Forall (fun c => c_flags c = flags) cs /\
    (r = 0 -> b = last_page + 1 /\ forall d, split_loop dev mtype flags last_page (fun _ => 0) fuel s d = Ok (0, d ++ cs)).
Proof.
  induction fuel as [|fuel IH]; intros s done_ r out Hs Hst Hl H; [done|]. cbn [split_loop] in H |- *.
  destruct (split_turn dev mtype flags s) as [[[[[src pages] gtt] addr] n]| |] eqn:Et; [|done|done].
  destruct (split_turn_entries s src pages gtt addr n Hs Et) as [Hn Hnode].
  assert (E1 : u64 (sp_start s + n - 1) = sp_start s + n - 1) by (unfold u64; rewrite Z.mod_small; lia). rewrite E1 in *.
  set (last := Z.min last_page (sp_start s + n - 1)) in *. set (c := Chunk src pages (sp_start s) last flags _) in *.
  destruct (Z.eqb_spec (update_r (length done_)) 0) as [Eu|Hu]; cbn [negb] in H.
  2:{ injection H as <- <-. exists [c], (last + 1). split; [done|]. split; [done|]. split; [cbn; lia|]. split; [lia|]. split; [by apply Forall_singleton|]. intros E. congruence. }
  set (next := match sp_nodes s with Some (x :: l) => _ | _ => _ end) in *. destruct next as [nodes pfn] eqn:En.
  destruct (Z.eqb_spec (last + 1) (last_page + 1)) as [Ee|Hne].
  - injection H as <- <-. exists [c], (last + 1). split; [done|]. split; [done|]. split; [cbn; lia|]. split; [lia|]. split; [by apply Forall_singleton|].
    intros _. split; [lia|done].
  - apply IH in H as (cs & b & -> & Hcs & Ht & Hb & Hf & H0); cbn [sp_start] in *; [|clear IH|lia|done].
    + exists (c :: cs), b. split; [by rewrite <- app_assoc|]. split; [done|]. split; [cbn; split; [done|]; split; [lia|done]|]. split; [done|]. split; [by constructor|].
      intros E. destruct (H0 E) as [-> Hz]. split; [done|]. intros d. cbn [Z.eqb negb]. rewrite Hz, <- app_assoc. done.
    + unfold sane in *. cbn [sp_nodes sp_pfn]. subst next. destruct (sp_nodes s) as [[|x l]|] eqn:Es; [by injection En as <- <-| |by injection En as <- <-].
      destruct Hs as [Hx Hp]. specialize (Hnode x l eq_refl). pose proof Hx as [Hx1 Hx2]%Forall_cons. unfold node_sane in Hx1.
      assert (Ep : u64 (sp_pfn s + (last - sp_start s + 1)) = sp_pfn s + (last - sp_start s + 1)) by (unfold u64; rewrite Z.mod_small; lia). rewrite Ep in En.
      destruct (Z.eqb_spec (node_size x) (sp_pfn s + (last - sp_start s + 1))) as [E|E]; injection En as <- <-.
      * destruct l as [|y l]; [done|]. split; [done|]. apply Forall_cons in Hx2 as [Hy _]. unfold node_sane in Hy. lia.
      * split; [done|]. lia.
Qed.
End chunks.

Definition places_fit (mem : option (mem_type * option (list drm_mm_node))) : Prop :=
  match mem with Some (_, Some nodes) => Forall node_sane nodes | _ => True end.
Lemma filtered_invalid m flags : Z.land flags AMDGPU_PTE_VALID = 0 -> Z.land (filtered_flags m flags) AMDGPU_PTE_VALID = 0.
Proof.
  intros H. unfold filtered_flags. repeat case_match; try done;
    apply Z.bits_inj'; intros i Hi; apply (f_equal (fun z => Z.testbit z i)) in H; rewrite !Z.land_spec, Z.bits_0 in *;
    (destruct (Z.testbit flags i); [cbn [andb] in *; rewrite H; by rewrite ?andb_false_r|done]).
Qed.
Lemma skip_nodes_sane nodes : forall pfn nodes' q,
  Forall node_sane nodes -> 0 <= pfn -> skip_nodes nodes pfn = Some (nodes', q) -> exists n l, nodes' = n :: l /\ Forall node_sane (n :: l) /\ 0 <= q < node_size n.
Proof.
  induction nodes as [|n l IH]; intros pfn nodes' q Hs Hp H; [done|]. cbn [skip_nodes] in H. pose proof Hs as [Hn Hl]%Forall_cons.
  destruct (Z.leb_spec (node_size n) pfn); [apply (IH (pfn - node_size n)); [done|lia|done]|]. injection H as <- <-. by exists n, l.
Qed.

(** The chunks of a mapping. *)
Lemma split_tiled dev fuel gtt_flags pages m flags mem update_r r cs :
  places_fit mem -> 0 <= it_start m <= it_last m -> it_last m < 4503599627370496 -> 0 <= map_offset m ->
  amdgpu_vm_bo_split_mapping dev fuel gtt_flags pages m flags mem update_r = Ok (r, cs) ->
  exists b, tiled (it_start m) cs b /\ b <= it_last m + 1 /\ Forall (fun c => c_flags c = filtered_flags m flags) cs /\
    (r = 0 -> b = it_last m + 1 /\ amdgpu_vm_bo_split_mapping dev fuel gtt_flags pages m flags mem (fun _ => 0) = Ok (0, cs)).
Proof.
  intros Hm Hr Hl Ho H. unfold amdgpu_vm_bo_split_mapping in *. set (mt := match mem with Some (t, _) => t | None => _ end) in *.
  assert (Hgen : forall nodes pfn, sane (SplitState nodes pfn 0 (it_start m) gtt_flags pages) ->
    split_loop dev mt (filtered_flags m flags) (it_last m) update_r fuel (SplitState nodes pfn 0 (it_start m) gtt_flags pages) [] = Ok (r, cs) ->
    exists b, tiled (it_start m) cs b /\ b <= it_last m + 1 /\ Forall (fun c => c_flags c = filtered_flags m flags) cs /\
      (r = 0 -> b = it_last m + 1 /\
        split_loop dev mt (filtered_flags m flags) (it_last m) (fun _ => 0) fuel (SplitState nodes pfn 0 (it_start m) gtt_flags pages) [] = Ok (0, cs))).
  { intros nodes pfn Hs E. apply split_loop_tiled in E as (cs' & b & E & _ & Ht & Hb & Hf & H0); [|done|done|done]. cbn in E, H0. subst cs'.
    exists b. split; [done|]. split; [done|]. split; [done|]. intros Er. destruct (H0 Er) as [-> Hz]. split; [done|apply (Hz [])]. }
  destruct mem as [[mt' [nodes|]]|]; [|by apply Hgen in H|by apply Hgen in H].
  destruct (skip_nodes nodes (Z.shiftr (map_offset m) PAGE_SHIFT)) as [[nodes' q]|] eqn:Esk; [|done].
  apply Hgen in H; [done|]. destruct (skip_nodes_sane _ _ _ _ Hm (proj2 (Z.shiftr_nonneg _ _) Ho) Esk) as (n & l & -> & Hs). exact Hs.
Qed.

(** Only an update that fails makes the split fail. *)
Lemma split_loop_result dev mtype flags last_page update_r fuel : forall s done_ r out,
  (forall i, update_r i = 0) -> split_loop dev mtype flags last_page update_r fuel s done_ = Ok (r, out) -> r = 0.
Proof.
  induction fuel as [|fuel IH]; intros s done_ r out Hu H; [done|]. cbn [split_loop] in H.
  destruct (split_turn dev mtype flags s) as [[[[[src pages] gtt] addr] n]| |]; [|done|done]. rewrite Hu in H. cbn [Z.eqb negb] in H.
  destruct (match sp_nodes s with Some (x :: l) => _ | _ => _ end) as [nodes pfn]. destruct (_ =? _); [by injection H as <- _|by apply IH in H].
Qed.
Lemma split_result dev fuel gtt_flags pages m flags mem update_r r cs :
  (forall i, update_r i = 0) -> amdgpu_vm_bo_split_mapping dev fuel gtt_flags pages m flags mem update_r = Ok (r, cs) -> r = 0.
Proof.
  intros Hu. unfold amdgpu_vm_bo_split_mapping. destruct mem as [[mt [nodes|]]|]; [|by apply split_loop_result|by apply split_loop_result].
  destruct (skip_nodes _ _) as [[nodes' q]|]; [by apply split_loop_result|done].
Qed.

(** *** Enough memory and enough turns *)

Definition node_pages (nodes : list drm_mm_node) : Z := foldr (fun n k => node_size n + k) 0 nodes.
(** The pages of the mapping are pages of the object. *)
Definition mapped_inside (m : va_mapping) (mem : option (mem_type * option (list drm_mm_node))) : Prop :=
  match mem with Some (_, Some nodes) => Z.shiftr (map_offset m) 12 + (it_last m - it_start m + 1) <= node_pages nodes | _ => True end.
Definition enough (last_page : Z) (s : split_state) : Prop :=
  match sp_nodes s with Some nodes => 0 <= sp_pfn s /\ last_page - sp_start s + 1 <= node_pages nodes - sp_pfn s | None => True end.

Lemma split_turn_total dev mtype flags last_page s :
  enough last_page s -> sp_start s <= last_page -> exists x, split_turn dev mtype flags s = Ok x.
Proof.
  unfold enough, split_turn. destruct (sp_nodes s) as [[|x l]|]; [cbn; lia| |by eexists].
  intros _ _. destruct mtype; cbn; try by eexists. all: destruct (_ =? _); by eexists.
Qed.
Lemma split_loop_total dev mtype flags last_page update_r fuel : forall s done_,
  sane s -> 0 <= sp_start s <= last_page -> last_page < 4503599627370496 -> enough last_page s ->
  (Z.to_nat (last_page - sp_start s + 1) <= fuel)%nat ->
  exists r out, split_loop dev mtype flags last_page update_r fuel s done_ = Ok (r, out) /\ ((forall i, update_r i = 0) -> r = 0).
Proof.
  induction fuel as [|fuel IH]; intros s done_ Hs Hst Hl Hav Hfu; [lia|]. cbn [split_loop].
  destruct (split_turn_total dev mtype flags last_page s Hav ltac:(lia)) as ([[[[src pages] gtt] addr] n] & Et). rewrite Et.
  destruct (split_turn_entries dev mtype flags s src pages gtt addr n Hs Et) as [Hn Hnode].
  assert (E1 : u64 (sp_start s + n - 1) = sp_start s + n - 1) by (unfold u64; rewrite Z.mod_small; lia). rewrite E1.
  set (last := Z.min last_page (sp_start s + n - 1)).
  destruct (Z.eqb_spec (update_r (length done_)) 0) as [Eu|Hu]; cbn [negb]; [|eexists _, _; split; [done|]; intros H; by rewrite H in Hu].
  set (next := match sp_nodes s with Some (x :: l) => _ | _ => _ end). destruct next as [nodes pfn] eqn:En.
  destruct (Z.eqb_spec (last + 1) (last_page + 1)) as [Ee|Hne]; [by eexists _, _|].
  assert (Hstate : exists x l, sp_nodes s = Some (x :: l) /\ Forall node_sane (x :: l) /\ 0 <= sp_pfn s < node_size x).
  { unfold sane, enough in *. destruct (sp_nodes s) as [[|x l]|] eqn:Es; [cbn in Hav; lia|by exists x, l|].
    unfold split_turn in Et. rewrite Es in Et. injection Et as _ _ _ _ <-. exfalso. unfold S64_MAX in *. lia. }
  destruct Hstate as (x & l & Es & Hx & Hp). subst next. rewrite Es in En. specialize (Hnode x l Es). pose proof Hx as [Hx1 Hx2]%Forall_cons. unfold node_sane in Hx1.
  assert (Ep : u64 (sp_pfn s + (last - sp_start s + 1)) = sp_pfn s + (last - sp_start s + 1)) by (unfold u64; rewrite Z.mod_small; lia). rewrite Ep in En.
  unfold enough in Hav. rewrite Es in Hav. cbn in Hav.
  apply IH; cbn [sp_start]; [|lia|done| |lia]; unfold sane, enough; cbn [sp_nodes sp_pfn sp_start];
    (destruct (Z.eqb_spec (node_size x) (sp_pfn s + (last - sp_start s + 1))) as [E|E]; injection En as <- <-).
  - destruct l as [|y l]; [done|]. split; [done|]. apply Forall_cons in Hx2 as [Hy _]. unfold node_sane in Hy. lia.
  - split; [done|lia].
  - unfold node_pages. lia.
  - unfold node_pages. cbn. lia.
Qed.

Lemma skip_nodes_total nodes : forall pfn,
  0 <= pfn < node_pages nodes -> exists n l q, skip_nodes nodes pfn = Some (n :: l, q) /\ node_pages (n :: l) - q = node_pages nodes - pfn.
Proof.
  induction nodes as [|n l IH]; intros pfn H; cbn [node_pages foldr] in H; [lia|]. cbn [skip_nodes].
  destruct (Z.leb_spec (node_size n) pfn); [|by exists n, l, pfn].
  destruct (IH (pfn - node_size n)) as (n' & l' & q & E & Eq); [unfold node_pages; lia|]. exists n', l', q. split; [done|]. rewrite Eq. unfold node_pages. cbn. lia.
Qed.
Lemma split_total dev gtt_flags pages m flags mem update_r :
  places_fit mem -> mapped_inside m mem -> 0 <= it_start m <= it_last m -> it_last m < 4503599627370496 -> 0 <= map_offset m ->
  exists r cs, amdgpu_vm_bo_split_mapping dev (split_fuel m mem) gtt_flags pages m flags mem update_r = Ok (r, cs) /\ ((forall i, update_r i = 0) -> r = 0).
Proof.
  intros Hm Hin Hr Hl Ho. unfold amdgpu_vm_bo_split_mapping. destruct mem as [[mt [nodes|]]|].
  2,3: apply split_loop_total; [done|done|done|done|unfold split_fuel; cbn; lia].
  unfold PAGE_SHIFT. set (pfn := Z.shiftr (map_offset m) 12) in *. assert (0 <= pfn) by (by apply Z.shiftr_nonneg). cbn in Hin. fold pfn in Hin.
  destruct (skip_nodes_total nodes pfn ltac:(lia)) as (n & l & q & E & Eq). rewrite E.
  destruct (skip_nodes_sane nodes pfn _ _ Hm ltac:(done) E) as (? & ? & [= <- <-] & Hs & Hq).
  apply split_loop_total; [done|done|done| |unfold split_fuel; cbn; lia]. unfold enough. cbn [sp_nodes sp_pfn sp_start]. lia.
Qed.

(** Every page between the ends has its chunk, and no other. *)
Lemma tiled_find a b cs p : tiled a cs b -> a <= p < b -> exists c, find (in_chunk p) cs = Some c /\ c ∈ cs /\ c_start c <= p <= c_last c.
Proof.
  revert a. induction cs as [|c cs IH]; intros a Ht Hp; cbn in Ht; [lia|]. destruct Ht as (Hs & Hl & Ht). cbn [find]. unfold in_chunk at 1.
  destruct (Z.leb_spec (c_start c) p), (Z.leb_spec p (c_last c)); cbn [andb]; try lia.
  - exists c. split; [done|]. split; [by left|lia].
  - destruct (IH _ Ht ltac:(lia)) as (c' & E & Hin & Hc). exists c'. split; [done|]. split; [by right|done].
Qed.
Lemma tiled_bounds a b cs c : tiled a cs b -> c ∈ cs -> a <= c_start c /\ c_last c + 1 <= b.
Proof.
  revert a. induction cs as [|x cs IH]; intros a Ht Hin; [by apply elem_of_nil in Hin|]. cbn in Ht. destruct Ht as (Hs & Hl & Ht).
  assert (Hab : forall a' cs', tiled a' cs' b -> a' <= b).
  { intros a' cs'. revert a'. induction cs' as [|y cs' IH']; intros a' H; cbn in H; [lia|]. destruct H as (? & ? & H). apply IH' in H. lia. }
  apply elem_of_cons in Hin as [->|Hin]; [apply Hab in Ht; lia|]. destruct (IH _ Ht Hin). lia.
Qed.
Lemma tiled_unique a b cs c c' p : tiled a cs b -> c ∈ cs -> c' ∈ cs -> c_start c <= p <= c_last c -> c_start c' <= p <= c_last c' -> c = c'.
Proof.
  revert a. induction cs as [|x cs IH]; intros a Ht Hc Hc' Hp Hp'; [by apply elem_of_nil in Hc|]. cbn in Ht. destruct Ht as (Hs & Hl & Ht).
  apply elem_of_cons in Hc as [->|Hc]; apply elem_of_cons in Hc' as [->|Hc']; [done| | |by apply (IH _ Ht)].
  - pose proof (tiled_bounds _ _ _ _ Ht Hc'). lia.
  - pose proof (tiled_bounds _ _ _ _ Ht Hc). lia.
Qed.

(** ** The pages that updates set *)

Definition pages_of (nodes : list drm_mm_node) : list Z := concat (map (fun n => seqZ (node_start n) (node_size n)) nodes).
Definition expand (c : chunk) : list (Z * Z) :=
  map (fun i => (c_start c + i, c_addr c + i * 4096)) (seqZ 0 (c_last c - c_start c + 1)).
Definition placed (start base : Z) (ps : list Z) : list (Z * Z) := imap (fun i ph => (start + Z.of_nat i, base + ph * 4096)) ps.

Lemma take_drop_seqZ a n i k : 0 <= i -> 0 <= k -> i + k <= n -> take (Z.to_nat k) (drop (Z.to_nat i) (seqZ a n)) = seqZ (a + i) k.
Proof.
  intros Hi Hk Hn. replace n with (i + (k + (n - i - k))) by lia. rewrite !seqZ_app by lia.
  rewrite drop_app_length' by (rewrite length_seqZ; done). by rewrite take_app_length' by (rewrite length_seqZ; done).
Qed.

Lemma placed_app start base l l' : placed start base (l ++ l') = placed start base l ++ placed (start + Z.of_nat (length l)) base l'.
Proof.
  unfold placed. rewrite imap_app. f_equal. apply imap_ext. intros i x _. cbn. f_equal. lia.
Qed.

Lemma expand_seqZ c base ph :
  c_addr c = base + ph * 4096 -> expand c = placed (c_start c) base (seqZ ph (c_last c - c_start c + 1)).
Proof.
  intros E. unfold expand, placed. apply list_eq. intros i. rewrite list_lookup_fmap, list_lookup_imap.
  destruct (decide (Z.of_nat i < c_last c - c_start c + 1)) as [Hi|Hi].
  - rewrite !lookup_seqZ_lt by lia. cbn. rewrite E. do 2 f_equal; lia.
  - rewrite !lookup_seqZ_ge by lia. done.
Qed.

Section vram.
Context (dev : split_device) (flags it_last : Z) (update_r : nat -> Z).
Context (Hu : forall i, update_r i = 0) (Hlast : it_last < 4503599627370496).

(** The node lies in the memory the device can address. *)
Definition node_ok (n : drm_mm_node) : Prop :=
  0 <= node_start n /\ 0 < node_size n < 4503599627370496 /\
  0 <= vram_base_offset dev /\ vram_base_offset dev + (node_start n + node_size n) * 4096 < 18446744073709551616.

Definition vram_chunk (n : drm_mm_node) (pfn start : Z) (pages : page_array) : chunk :=
  Chunk 0 pages start (Z.min it_last (start + (node_size n - pfn) - 1)) flags (vram_base_offset dev + (node_start n + pfn) * 4096).

Lemma split_vram_turn k n l pfn start gtt pages done_ :
  node_ok n -> 0 <= pfn < node_size n -> 0 <= start <= it_last ->
  split_loop dev TTM_PL_VRAM flags it_last update_r (S k) (SplitState (Some (n :: l)) pfn 0 start gtt pages) done_ =
  if it_last - start + 1 <=? node_size n - pfn then Ok (0, done_ ++ [vram_chunk n pfn start pages])
  else split_loop dev TTM_PL_VRAM flags it_last update_r k (SplitState (Some l) 0 0 (start + (node_size n - pfn)) gtt pages)
         (done_ ++ [vram_chunk n pfn start pages]).
Proof.
  intros (Hs & Hz & Hb & Ha) Hpfn Hst.
  cbn [split_loop split_turn sp_nodes sp_pfn sp_src sp_start sp_gtt_flags sp_pages]. rewrite Hu. cbn [Z.eqb negb].
  unfold PAGE_SHIFT. rewrite !Z.shiftl_mul_pow2 by lia. change (2 ^ 12) with 4096.
  assert (E1 : u64 (node_size n - pfn) = node_size n - pfn) by (unfold u64; rewrite Z.mod_small; lia).
  assert (E2 : u64 (u64 (u64 (node_start n * 4096) + vram_base_offset dev) + pfn * 4096) =
    vram_base_offset dev + (node_start n + pfn) * 4096) by cint.
  rewrite E1, E2. replace (u64 (start + (node_size n - pfn) - 1)) with (start + (node_size n - pfn) - 1) by (unfold u64; rewrite Z.mod_small; lia).
  fold (vram_chunk n pfn start pages). destruct (Z.leb_spec (it_last - start + 1) (node_size n - pfn)) as [Hle|Hgt].
  - rewrite Z.min_l by lia. rewrite Z.eqb_refl. by destruct (node_size n =? _).
  - rewrite Z.min_r by lia. replace (u64 _) with (node_size n) by (unfold u64; rewrite Z.mod_small; lia).
    rewrite Z.eqb_refl. destruct (Z.eqb_spec (start + (node_size n - pfn) - 1 + 1) (it_last + 1)); [lia|].
    do 2 f_equal. lia.
Qed.

Lemma split_loop_vram l n pfn start gtt pages done_ fuel :
  Forall node_ok (n :: l) -> 0 <= pfn < node_size n -> 0 <= start <= it_last ->
  pfn + (it_last - start + 1) <= Z.of_nat (length (pages_of (n :: l))) -> (length (n :: l) <= fuel)%nat ->
  exists cs, split_loop dev TTM_PL_VRAM flags it_last update_r fuel (SplitState (Some (n :: l)) pfn 0 start gtt pages) done_ = Ok (0, done_ ++ cs) /\
    concat (map expand cs) = placed start (vram_base_offset dev)
      (take (Z.to_nat (it_last - start + 1)) (drop (Z.to_nat pfn) (pages_of (n :: l)))) /\
    Forall (fun c => c_src c = 0 /\ c_pages c = pages /\ c_flags c = flags) cs.
Proof.
  revert n pfn start done_ fuel. induction l as [|n' l IH]; intros n pfn start done_ fuel Hok Hpfn Hst Hlen Hfuel;
    (destruct fuel as [|fuel]; [cbn in Hfuel; lia|]); apply Forall_cons in Hok as [Hn Hok];
    rewrite split_vram_turn by done; pose proof (proj1 (proj2 Hn)) as Hz;
    unfold pages_of in *; cbn [map concat] in *; rewrite length_app, length_seqZ in Hlen;
    rewrite drop_app_le by (rewrite length_seqZ; lia);
    destruct (Z.leb_spec (it_last - start + 1) (node_size n - pfn)) as [Hle|Hgt].
  1,3: exists [vram_chunk n pfn start pages]; split; [done|]; split; [|by apply Forall_singleton];
    rewrite take_app_le by (rewrite length_drop, length_seqZ; lia); rewrite take_drop_seqZ by lia;
    cbn [map concat]; rewrite app_nil_r, (expand_seqZ (vram_chunk n pfn start pages) (vram_base_offset dev) (node_start n + pfn) eq_refl);
    cbn [vram_chunk c_start c_last]; by rewrite Z.min_l by lia.
  - cbn in Hlen. lia.
  - destruct (IH n' 0 (start + (node_size n - pfn)) (done_ ++ [vram_chunk n pfn start pages]) fuel) as (cs & E & Hex & Hall).
    { done. }
    { apply Forall_cons in Hok as [(_ & ? & _) _]. lia. }
    { lia. }
    { cbn [map concat] in *. lia. }
    { cbn in Hfuel |- *. lia. }
    exists (vram_chunk n pfn start pages :: cs). split; [by rewrite E, <- app_assoc|]. split; [|by constructor].
    cbn [map concat]. rewrite Hex. unfold pages_of.
    rewrite take_app_ge by (rewrite length_drop, length_seqZ; lia). rewrite placed_app, drop_0.
    rewrite length_drop, length_seqZ.
    assert (Ed : drop (Z.to_nat pfn) (seqZ (node_start n) (node_size n)) = seqZ (node_start n + pfn) (node_size n - pfn)).
    { rewrite <- (take_drop_seqZ (node_start n) (node_size n) pfn) by lia. rewrite take_ge; [done|]. rewrite length_drop, length_seqZ. lia. }
    rewrite Ed, (expand_seqZ (vram_chunk n pfn start pages) (vram_base_offset dev) (node_start n + pfn) eq_refl).
    cbn [vram_chunk c_start c_last]. rewrite Z.min_r by lia. f_equal; [do 2 f_equal; lia|]. cbn [map concat]. f_equal; [lia|]. f_equal. lia.
Qed.
End vram.

Lemma skip_nodes_pages nodes pfn :
  Forall (fun n => 0 < node_size n) nodes -> 0 <= pfn < Z.of_nat (length (pages_of nodes)) ->
  exists n l q, skip_nodes nodes pfn = Some (n :: l, q) /\ 0 <= q < node_size n /\ (length (n :: l) <= length nodes)%nat /\
    drop (Z.to_nat pfn) (pages_of nodes) = drop (Z.to_nat q) (pages_of (n :: l)) /\
    (forall P : drm_mm_node -> Prop, Forall P nodes -> Forall P (n :: l)).
Proof.
  revert pfn. induction nodes as [|n l IH]; intros pfn Hpos Hp; [cbn in Hp; lia|].
  apply Forall_cons in Hpos as [Hn Hpos]. cbn [skip_nodes]. destruct (Z.leb_spec (node_size n) pfn) as [Hle|Hlt].
  - unfold pages_of in Hp. cbn [map concat] in Hp. rewrite length_app, length_seqZ in Hp.
    destruct (IH (pfn - node_size n) Hpos) as (n' & l' & q & E & Hq & Hlen & Hd & HP).
    { unfold pages_of. lia. }
    exists n', l', q. split; [done|]. split; [done|]. split; [cbn [length] in *; lia|]. split.
    + rewrite <- Hd. unfold pages_of. cbn [map concat]. rewrite drop_app_ge by (rewrite length_seqZ; lia).
      rewrite length_seqZ. f_equal. lia.
    + intros P HPl. apply Forall_cons in HPl as [_ HPl]. by apply HP.
  - exists n, l, pfn. split; [done|]. split; [lia|]. by split.
Qed.

(** For an object in video memory the updates of a mapping set exactly its
    pages, in order, each to the address of the object's page at the mapping's
    offset, wherever the memory manager's nodes begin and end; and the loop
    needs no more turns than there are nodes. *)
Theorem split_vram_exact dev gtt_flags pages m flags nodes update_r fuel :
  (forall i, update_r i = 0) -> Forall (node_ok dev) nodes -> 0 <= it_start m <= it_last m -> it_last m < 4503599627370496 ->
  0 <= map_offset m -> Z.shiftr (map_offset m) 12 + (it_last m - it_start m + 1) <= Z.of_nat (length (pages_of nodes)) ->
  (length nodes <= fuel)%nat ->
  exists cs, amdgpu_vm_bo_split_mapping dev fuel gtt_flags pages m flags (Some (TTM_PL_VRAM, Some nodes)) update_r = Ok (0, cs) /\
    concat (map expand cs) = placed (it_start m) (vram_base_offset dev)
      (take (Z.to_nat (it_last m - it_start m + 1)) (drop (Z.to_nat (Z.shiftr (map_offset m) 12)) (pages_of nodes))) /\
    Forall (fun c => c_src c = 0 /\ c_pages c = pages /\ c_flags c = filtered_flags m flags) cs.
Proof.
  intros Hu Hok Hr Hl Ho Hlen Hfuel. set (pfn := Z.shiftr (map_offset m) 12) in *.
  assert (Hp0 : 0 <= pfn) by (apply Z.shiftr_nonneg; lia).
  destruct (skip_nodes_pages nodes pfn) as (n & l & q & E & Hq & Hln & Hd & HP).
  { eapply Forall_impl; [exact Hok|]. intros n (_ & ? & _). lia. }
  { lia. }
  unfold amdgpu_vm_bo_split_mapping. fold pfn. unfold PAGE_SHIFT. fold pfn. rewrite E.
  destruct (split_loop_vram dev (filtered_flags m flags) (it_last m) update_r Hu Hl l n q (it_start m) gtt_flags pages [] fuel)
    as (cs & Ec & Hex & Hall); [by apply HP|done|done| |lia|].
  - assert (Hdl := f_equal length Hd). rewrite !length_drop in Hdl. lia.
  - exists cs. split; [done|]. by rewrite Hd.
Qed.

Lemma pages_of_bound dev nodes i ph :
  Forall (node_ok dev) nodes -> pages_of nodes !! i = Some ph -> 0 <= vram_base_offset dev + ph * 4096 < 18446744073709551616.
Proof.
  intros Hok Hi. apply list_elem_of_lookup_2, list_elem_of_In, in_concat in Hi as (l & Hl & Hph).
  apply in_map_iff in Hl as (n & <- & Hn). apply list_elem_of_In, elem_of_seqZ in Hph.
  destruct (proj1 (Forall_forall _ _) Hok n) as (? & ? & ? & ?); [by apply list_elem_of_In|]. lia.
Qed.
(** The entry a split leaves for a page of an object in video memory. *)
Lemma split_vram_entry dev gtt_flags m flags nodes p :
  Forall (node_ok dev) nodes -> 0 <= it_start m <= it_last m -> it_last m < 4503599627370496 -> 0 <= map_offset m ->
  Z.shiftr (map_offset m) 12 + (it_last m - it_start m + 1) <= Z.of_nat (length (pages_of nodes)) ->
  Z.land (filtered_flags m flags) AMDGPU_PTE_VALID <> 0 -> it_start m <= p <= it_last m ->
  exists ph, pages_of nodes !! Z.to_nat (Z.shiftr (map_offset m) 12 + (p - it_start m)) = Some ph /\
    split_entry dev gtt_flags NoPages m flags (Some (TTM_PL_VRAM, Some nodes)) p =
      Some (PteAddress (vram_base_offset dev + ph * 4096) (filtered_flags m flags)).
Proof.
  intros Hok Hr Hl Ho Hlen Hv Hp. unfold split_entry. set (mem := Some (TTM_PL_VRAM, Some nodes)).
  destruct (split_vram_exact dev gtt_flags NoPages m flags nodes (fun _ => 0) (split_fuel m mem)) as (cs & E & Hex & Hall); try done; [unfold split_fuel, mem; lia|].
  fold mem in E. rewrite E. set (off := Z.shiftr (map_offset m) 12) in *. assert (0 <= off) by (by apply Z.shiftr_nonneg).
  assert (Hfit : places_fit mem) by (eapply Forall_impl; [exact Hok|]; by intros n (_ & ? & _)).
  destruct (split_tiled _ _ _ _ _ _ _ _ _ _ Hfit Hr Hl Ho E) as (b & Ht & _ & _ & H0).
  destruct (H0 eq_refl) as [-> _]. destruct (tiled_find _ _ cs p Ht ltac:(lia)) as (c & -> & Hc & Hcp). cbn [mbind option_bind].
  destruct (proj1 (Forall_forall _ _) Hall c Hc) as (Es & Eg & Ef).
  assert (Hin : (p, c_addr c + (p - c_start c) * 4096) ∈ placed (it_start m) (vram_base_offset dev)
    (take (Z.to_nat (it_last m - it_start m + 1)) (drop (Z.to_nat off) (pages_of nodes)))).
  { rewrite <- Hex. apply list_elem_of_In, in_concat. exists (expand c). split; [apply in_map; by apply list_elem_of_In|].
    unfold expand. apply in_map_iff. exists (p - c_start c). split; [f_equal; lia|]. apply list_elem_of_In, elem_of_seqZ. lia. }
  unfold placed in Hin. apply elem_of_lookup_imap in Hin as (i & ph & [= Ep Ea] & Hi).
  apply lookup_take_Some in Hi as [Hi _]. rewrite lookup_drop in Hi.
  exists ph. replace (Z.to_nat (off + (p - it_start m))) with (Z.to_nat off + i)%nat by lia. split; [done|].
  unfold chunk_entry. rewrite Ef, (proj2 (Z.eqb_neq _ _) Hv), Es, Eg. cbn [Z.eqb negb]. do 2 f_equal. unfold AMDGPU_GPU_PAGE_SIZE. rewrite Ea.
  pose proof (pages_of_bound dev nodes _ ph Hok Hi). unfold u64. rewrite Z.mod_small; lia.
Qed.

Lemma split_vram_exact_witness :
  exists cs, amdgpu_vm_bo_split_mapping (SplitDevice 4096 0 0 0 0 0) 2 0 NoPages (VaMapping 0 16 18 4096 96) 97
    (Some (TTM_PL_VRAM, Some [MmNode 5 2; MmNode 9 2])) (fun _ => 0) = Ok (0, cs) /\
    concat (map expand cs) = [(16, 28672); (17, 40960); (18, 45056)].
Proof.
  destruct (split_vram_exact (SplitDevice 4096 0 0 0 0 0) 0 NoPages (VaMapping 0 16 18 4096 96) 97 [MmNode 5 2; MmNode 9 2] (fun _ => 0) 2)
    as (cs & E & H & _).
  - done.
  - repeat constructor; cbn; lia.
  - cbn. lia.
  - cbn. lia.
  - cbn. lia.
  - vm_compute. congruence.
  - cbn. lia.
  - exists cs. split; [exact E|]. rewrite H. reflexivity.
Defined.
