(* ===== verification/VaSpace.v ===== *)
(** * Address spaces: mappings and their page-table entries ([amdgpu/amdgpu_vm.c], [amdgpu/amdgpu_gem.c])

    A buffer object is mapped into an address space by [amdgpu_vm_bo_map] and
    unmapped by [amdgpu_vm_bo_unmap]; the entries of the page tables follow
    later ([amdgpu_vm_clear_freed], [amdgpu_vm_bo_update]), by the updates that
    [amdgpu_vm_bo_split_mapping] makes of a mapping.  [pt] is what the page
    tables say: for a page, the entry that the last update of it left.  An
    object has a place, with its memory and its state in TTM ([bo_place]), and
    another one after it moved ([epoch] counts).  The environment knows the
    places and the result of each call of [amdgpu_vm_bo_update_mapping]; a call
    that fails submits nothing.  Mappings have an identity ([mid]), as the nodes
    of the interval tree and of the lists have in C. *)

From stdpp Require Import base numbers list gmap.
From S2P Require Import Prelude CMonad Engines VmEngine PageTable PageDir SplitMapping.

(** [struct amdgpu_bo_va] with the size of its buffer object. *)
Record amdgpu_bo_va := BoVa { valids : list va_mapping; invalids : list va_mapping; ref_count : Z; bo_size : Z; epoch : nat }.

(** What is read of an object's memory and of its [ttm_tt]: whether its pages are
    cached, whether they are user pages that may not be written, whether it is
    bound to the GART, and whether that is the GART of this device. *)
Record bo_place := BoPlace {
  pl_type : mem_type; pl_nodes : option (list drm_mm_node); pl_cached : bool; pl_readonly : bool; pl_bound : bool; pl_same_adev : bool }.
(** [env_place k n] is the place of object [k] after [n] moves; [env_tonga] says
    that the chip is Tonga or later. *)
Record vm_env := VmEnv { env_dev : split_device; env_place : Z -> nat -> bo_place; env_tonga : bool; env_result : nat -> Z }.

(** [struct amdgpu_vm]: [va] is the interval tree; [vm_status] of an object is
    its place in [invalidated] or [cleared]. *)
Record amdgpu_vm := Vm {
  va : list va_mapping;
  bos : gmap Z amdgpu_bo_va;
  freed : list va_mapping;
  invalidated : list Z;
  cleared : list Z;
  page_tables : list amdgpu_vm_pt;
  max_pde_used : Z;
  pt : gmap Z pte;
  next_mid : nat;
  calls : nat }.

Definition VM : Type -> Type := M amdgpu_vm.

Definition set_va (l : list va_mapping) (s : amdgpu_vm) : amdgpu_vm :=
  Vm l (bos s) (freed s) (invalidated s) (cleared s) (page_tables s) (max_pde_used s) (pt s) (next_mid s) (calls s).
Definition set_bos (b : gmap Z amdgpu_bo_va) (s : amdgpu_vm) : amdgpu_vm :=
  Vm (va s) b (freed s) (invalidated s) (cleared s) (page_tables s) (max_pde_used s) (pt s) (next_mid s) (calls s).
Definition set_freed (l : list va_mapping) (s : amdgpu_vm) : amdgpu_vm :=
  Vm (va s) (bos s) l (invalidated s) (cleared s) (page_tables s) (max_pde_used s) (pt s) (next_mid s) (calls s).
Definition set_status (i c : list Z) (s : amdgpu_vm) : amdgpu_vm :=
  Vm (va s) (bos s) (freed s) i c (page_tables s) (max_pde_used s) (pt s) (next_mid s) (calls s).
Definition set_tables (l : list amdgpu_vm_pt) (n : Z) (s : amdgpu_vm) : amdgpu_vm :=
  Vm (va s) (bos s) (freed s) (invalidated s) (cleared s) l n (pt s) (next_mid s) (calls s).
Definition set_pt (m : gmap Z pte) (s : amdgpu_vm) : amdgpu_vm :=
  Vm (va s) (bos s) (freed s) (invalidated s) (cleared s) (page_tables s) (max_pde_used s) m (next_mid s) (calls s).
Definition set_counters (n c : nat) (s : amdgpu_vm) : amdgpu_vm :=
  Vm (va s) (bos s) (freed s) (invalidated s) (cleared s) (page_tables s) (max_pde_used s) (pt s) n c.

(** [interval_tree_iter_first] and [interval_tree_remove] of the kernel. *)
Definition overlaps (m : va_mapping) (start last : Z) : bool := (it_start m <=? last) && (start <=? it_last m).
Definition interval_tree_iter_first (l : list va_mapping) (start last : Z) : option va_mapping :=
  find (fun m => overlaps m start last) l.
Definition remove_mapping (m : va_mapping) (l : list va_mapping) : list va_mapping :=
  filter (fun m' => mid m' <> mid m) l.

(** The entries of [n] pages from [start] on become [v]. *)
Definition set_range (m : gmap Z pte) (start n : Z) (v : Z -> option pte) : gmap Z pte :=
  foldr (fun p m => partial_alter (fun _ => v p) p m) m (seqZ start n).

(** The entries after the updates [cs]. *)
Definition apply_chunks (cs : list chunk) (m : gmap Z pte) : gmap Z pte :=
  foldl (fun m c => set_range m (c_start c) (c_last c - c_start c + 1) (chunk_entry c)) m cs.

Definition AMDGPU_PTE_SYSTEM : Z := Z.shiftl 1 1.
Definition AMDGPU_PTE_SNOOPED : Z := Z.shiftl 1 2.
Definition AMDGPU_PTE_EXECUTABLE : Z := Z.shiftl 1 4.
(** [mem] is null when entries are cleared. *)
Definition amdgpu_ttm_tt_pte_flags (tonga : bool) (pl : bo_place) (mem : option mem_type) : Z :=
  let flags := match mem with None | Some TTM_PL_SYSTEM => 0 | Some _ => AMDGPU_PTE_VALID end in
  let flags := match mem with
               | Some TTM_PL_TT => Z.lor (Z.lor flags AMDGPU_PTE_SYSTEM) (if pl_cached pl then AMDGPU_PTE_SNOOPED else 0)
               | Some AMDGPU_PL_DGMA_IMPORT => Z.lor flags AMDGPU_PTE_SYSTEM
               | _ => flags
               end in
  let flags := if tonga then Z.lor flags AMDGPU_PTE_EXECUTABLE else flags in
  let flags := Z.lor flags AMDGPU_PTE_READABLE in
  if negb (pl_readonly pl) then Z.lor flags AMDGPU_PTE_WRITEABLE else flags.

Section space.
Context (max_pfn amdgpu_vm_block_size : Z) (env : vm_env).

(** A call of [amdgpu_vm_bo_split_mapping]: the updates before the first one
    that fails reach the page tables. *)
Definition split_update (gtt_flags : Z) (pages_addr : page_array) (m : va_mapping) (flags : Z)
    (mem : option (mem_type * option (list drm_mm_node))) : VM Z :=
  s ← gets id;
  match amdgpu_vm_bo_split_mapping (env_dev env) (split_fuel m mem) gtt_flags pages_addr m flags mem (fun i => env_result env (calls s + i)) with
  | Ok (r, cs) =>
      modify (set_counters (next_mid s) (calls s + length cs));;
      modify (fun s => set_pt (apply_chunks (if r =? 0 then cs else removelast cs) (pt s)) s);;
      mret r
  | Fault => fault
  | NoFuel => nofuel
  end.

Definition put_bo (key : Z) (b : amdgpu_bo_va) : VM unit := modify (fun s => set_bos (<[key := b]> (bos s)) s).
Definition the_bo (key : Z) : VM amdgpu_bo_va := s ← gets id; deref (bos s !! key).

(** ** Mapping *)

(** What creating a page table returns and the object it gives; and what
    clearing it and its shadow returns. *)
Record pt_outcome := PtOutcome { create_r : Z; created : pt_object; clear_r : Z; clear_shadow_r : Z }.

(** The loop that allocates page tables, [n] of them from [pt_idx] on. *)
Fixpoint alloc_tables (n : nat) (pt_idx : Z) (mk : Z -> pt_outcome) : VM Z :=
  match n with
  | O => mret 0
  | S n =>
      s ← gets id;
      e ← deref (page_tables s !! Z.to_nat pt_idx);
      match pt_bo e with
      | Some _ => alloc_tables n (pt_idx + 1) mk
      | None =>
          let o := mk pt_idx in
          if negb (create_r o =? 0) then mret (create_r o)
          else if negb (clear_r o =? 0) then mret (clear_r o)
          else if match shadow_offset (created o) with Some _ => negb (clear_shadow_r o =? 0) | None => false end
          then mret (clear_shadow_r o)
          else
            modify (fun s => set_tables (<[Z.to_nat pt_idx := VmPt (Some (created o)) 0]> (page_tables s)) (max_pde_used s) s);;
            alloc_tables n (pt_idx + 1) mk
      end
  end.

Definition AMDGPU_GPU_PAGE_MASK : Z := AMDGPU_GPU_PAGE_SIZE - 1.

(** The label [error_free]. *)
Definition error_free (key : Z) (mapping : va_mapping) (r : Z) : VM Z :=
  b ← the_bo key;
  put_bo key (BoVa (valids b) (remove_mapping mapping (invalids b)) (ref_count b) (bo_size b) (epoch b));;
  modify (fun s => set_va (remove_mapping mapping (va s)) s);;
  mret r.

Definition amdgpu_vm_bo_map (key saddr offset size flags : Z) (kmalloc_ok : bool) (mk : Z -> pt_outcome) : VM Z :=
  b ← the_bo key;
  if negb (Z.land saddr AMDGPU_GPU_PAGE_MASK =? 0) || negb (Z.land offset AMDGPU_GPU_PAGE_MASK =? 0) ||
     (size =? 0) || negb (Z.land size AMDGPU_GPU_PAGE_MASK =? 0)
  then mret (- EINVAL)
  else
    let eaddr := u64 (u64 (saddr + size) - 1) in
    if (eaddr <=? saddr) || (bo_size b <? u64 (offset + size)) then mret (- EINVAL)
    else
      let last_pfn := u32 (eaddr / AMDGPU_GPU_PAGE_SIZE) in
      if max_pfn <=? last_pfn then mret (- EINVAL)
      else
        let saddr := saddr / AMDGPU_GPU_PAGE_SIZE in
        let eaddr := eaddr / AMDGPU_GPU_PAGE_SIZE in
        s ← gets id;
        match interval_tree_iter_first (va s) saddr eaddr with
        | Some _ => mret (- EINVAL)
        | None =>
            if negb kmalloc_ok then mret (- ENOMEM)
            else
              let mapping := VaMapping (next_mid s) saddr eaddr offset flags in
              modify (set_counters (S (next_mid s)) (calls s));;
              put_bo key (BoVa (valids b) (mapping :: invalids b) (ref_count b) (bo_size b) (epoch b));;
              modify (fun s => set_va (mapping :: va s) s);;
              let first := Z.shiftr saddr amdgpu_vm_block_size in
              let last := Z.shiftr eaddr amdgpu_vm_block_size in
              if amdgpu_vm_num_pdes max_pfn amdgpu_vm_block_size <=? last then fault
              else
                (if max_pde_used s <? last then modify (fun s => set_tables (page_tables s) (u32 last) s) else mret tt);;
                r ← alloc_tables (Z.to_nat (last - first + 1)) first mk;
                if r =? 0 then mret 0
                else error_free key mapping r
        end.

(** ** Unmapping *)

Definition find_start (saddr : Z) (l : list va_mapping) : option va_mapping := find (fun m => it_start m =? saddr) l.

Definition amdgpu_vm_bo_unmap (key saddr : Z) : VM Z :=
  b ← the_bo key;
  let saddr := saddr / AMDGPU_GPU_PAGE_SIZE in
  match find_start saddr (valids b) with
  | Some m =>
      put_bo key (BoVa (remove_mapping m (valids b)) (invalids b) (ref_count b) (bo_size b) (epoch b));;
      modify (fun s => set_va (remove_mapping m (va s)) s);;
      modify (fun s => set_freed (m :: freed s) s);;
      mret 0
  | None =>
      match find_start saddr (invalids b) with
      | Some m =>
          put_bo key (BoVa (valids b) (remove_mapping m (invalids b)) (ref_count b) (bo_size b) (epoch b));;
          modify (fun s => set_va (remove_mapping m (va s)) s);;
          mret 0
      | None => mret (- ENOENT)
      end
  end.

(** [amdgpu_vm_bo_rmv]: the mappings that reached the page tables wait in
    [freed]. *)
Definition amdgpu_vm_bo_rmv (key : Z) : VM unit :=
  b ← the_bo key;
  modify (fun s => set_status (filter (fun k => k <> key) (invalidated s)) (filter (fun k => k <> key) (cleared s)) s);;
  modify (fun s => set_va (fold_left (fun l m => remove_mapping m l) (valids b ++ invalids b) (va s)) s);;
  modify (fun s => set_freed (rev (valids b) ++ freed s) s);;
  modify (fun s => set_bos (delete key (bos s)) s).

(** [amdgpu_vm_bo_add]: [size] and [place] are the object's. *)
Definition amdgpu_vm_bo_add (key size : Z) (place : nat) (kzalloc_ok : bool) : VM bool :=
  if kzalloc_ok then put_bo key (BoVa [] [] 1 size place);; mret true else mret false.

(** [amdgpu_vm_bo_find]. *)
Definition amdgpu_vm_bo_find (key : Z) : VM (option amdgpu_bo_va) := gets (fun s => bos s !! key).

(** ** Updating *)

(** [list_empty(&bo_va->vm_status)] is false. *)
Definition has_status (key : Z) (s : amdgpu_vm) : bool :=
  bool_decide (key ∈ invalidated s) || bool_decide (key ∈ cleared s).

(** What [amdgpu_vm_bo_update] passes on: the memory, the array of addresses, and
    the flags of the entries and of the GART's entries. *)
Definition update_mem (pl : bo_place) (clear : bool) : option (mem_type * option (list drm_mm_node)) :=
  if clear then None else Some (pl_type pl, pl_nodes pl).
Definition update_pages (pl : bo_place) (clear : bool) : page_array :=
  if clear then NoPages
  else match pl_type pl with TTM_PL_TT => CallerPages | AMDGPU_PL_DGMA_IMPORT => BusPages | _ => NoPages end.
Definition update_flags (pl : bo_place) (clear : bool) : Z := amdgpu_ttm_tt_pte_flags (env_tonga env) pl (if clear then None else Some (pl_type pl)).
Definition update_gtt_flags (pl : bo_place) (clear : bool) : Z :=
  if pl_bound pl && pl_same_adev pl then update_flags pl clear else 0.

Fixpoint update_all (pl : bo_place) (clear : bool) (l : list va_mapping) : VM Z :=
  match l with
  | [] => mret 0
  | m :: l =>
      r ← split_update (update_gtt_flags pl clear) (update_pages pl clear) m (update_flags pl clear) (update_mem pl clear);
      if negb (r =? 0) then mret r else update_all pl clear l
  end.

Definition amdgpu_vm_bo_update (key : Z) (clear : bool) : VM Z :=
  b ← the_bo key;
  s ← gets id;
  (if has_status key s then put_bo key (BoVa [] (valids b ++ invalids b) (ref_count b) (bo_size b) (epoch b)) else mret tt);;
  b ← the_bo key;
  r ← update_all (env_place env key (epoch b)) clear (invalids b);
  if negb (r =? 0) then mret r
  else
    put_bo key (BoVa (invalids b ++ valids b) [] (ref_count b) (bo_size b) (epoch b));;
    modify (fun s => set_status (filter (fun k => k <> key) (invalidated s))
                       ((if clear then [key] else []) ++ filter (fun k => k <> key) (cleared s)) s);;
    mret 0.

Fixpoint clear_freed_loop (fuel : nat) : VM Z :=
  s ← gets id;
  match freed s, fuel with
  | [], _ => mret 0
  | _, O => nofuel
  | m :: l, S k =>
      modify (set_freed l);;
      r ← split_update 0 NoPages m 0 None;
      if negb (r =? 0) then mret r else clear_freed_loop k
  end.
Definition amdgpu_vm_clear_freed : VM Z := s ← gets id; clear_freed_loop (length (freed s)).

Fixpoint clear_invalids_loop (fuel : nat) : VM Z :=
  s ← gets id;
  match invalidated s, fuel with
  | [], _ => mret 0
  | _, O => nofuel
  | key :: _, S k =>
      r ← amdgpu_vm_bo_update key true;
      if negb (r =? 0) then mret r else clear_invalids_loop k
  end.

(** [sync_r] is the result of [amdgpu_sync_fence], called when there was an
    object to clear. *)
Definition amdgpu_vm_clear_invalids (sync_r : Z) : VM Z :=
  s ← gets id;
  r ← clear_invalids_loop (length (invalidated s));
  if negb (r =? 0) then mret r
  else match invalidated s with [] => mret r | _ => mret sync_r end.

(** [amdgpu_vm_bo_invalidate], for the element of [bo->va] that is of this
    address space. *)
Definition amdgpu_vm_bo_invalidate (key : Z) : VM unit :=
  f ← amdgpu_vm_bo_find key;
  match f with
  | None => mret tt
  | Some _ =>
      s ← gets id;
      if has_status key s then mret tt
      else modify (fun s => set_status (key :: invalidated s) (cleared s) s)
  end.

(** [amdgpu_bo_move_notify], and the move that follows it. *)
Definition amdgpu_bo_move_notify (key : Z) : VM unit := amdgpu_vm_bo_invalidate key.
Definition bo_move (key : Z) : VM unit :=
  amdgpu_bo_move_notify key;;
  f ← amdgpu_vm_bo_find key;
  match f with
  | None => mret tt
  | Some b => put_bo key (BoVa (valids b) (invalids b) (ref_count b) (bo_size b) (S (epoch b)))
  end.

(** ** Handles ([amdgpu_gem.c]) *)

Definition amdgpu_gem_object_open (key size : Z) (place : nat) (reserve_r : Z) (kzalloc_ok : bool) : VM Z :=
  if negb (reserve_r =? 0) then mret reserve_r
  else
    f ← amdgpu_vm_bo_find key;
    match f with
    | None => amdgpu_vm_bo_add key size place kzalloc_ok;; mret 0
    | Some b => put_bo key (BoVa (valids b) (invalids b) (u32 (ref_count b + 1)) (bo_size b) (epoch b));; mret 0
    end.

Definition amdgpu_gem_object_close (key : Z) (reserve_r : Z) : VM unit :=
  if negb (reserve_r =? 0) then mret tt
  else
    f ← amdgpu_vm_bo_find key;
    match f with
    | None => mret tt
    | Some b =>
        let n := u32 (ref_count b - 1) in
        put_bo key (BoVa (valids b) (invalids b) n (bo_size b) (epoch b));;
        if n =? 0 then amdgpu_vm_bo_rmv key else mret tt
    end.

(** ** Mapping from user space ([amdgpu_gem.c]) *)

(** What the kernel answers while the page tables are updated: the results of
    reserving the buffers, of validating the page tables and of updating the
    page directory; [swapped_out] when an object of the list is in system
    memory. *)
Record update_answers := UpdateAnswers { reserve_r : Z; swapped_out : bool; validate_r : Z; directory_r : Z }.

Definition ENOTTY : Z := 25.
Definition AMDGPU_VA_OP_MAP : Z := 1.
Definition AMDGPU_VA_OP_UNMAP : Z := 2.

Definition amdgpu_gem_va_update_vm (key operation : Z) (a : update_answers) : VM unit :=
  if negb (reserve_r a =? 0) || swapped_out a || negb (validate_r a =? 0) || negb (directory_r a =? 0) then mret tt
  else
    r ← amdgpu_vm_clear_freed;
    if negb (r =? 0) then mret tt
    else if operation =? AMDGPU_VA_OP_MAP then amdgpu_vm_bo_update key false;; mret tt else mret tt.

(** [struct drm_amdgpu_gem_va]; [gem_object] is what its handle stands for. *)
Record drm_amdgpu_gem_va := GemVa {
  gem_object : option Z;
  operation : Z;
  gem_flags : Z;
  va_address : Z;
  offset_in_bo : Z;
  map_size : Z }.

Record va_answers := VaAnswers { va_reserve_r : Z; kmalloc_ok : bool; page_table : Z -> pt_outcome; update : update_answers }.

Definition AMDGPU_VA_RESERVED_SIZE : Z := Z.shiftl 8 20.
Definition AMDGPU_VM_DELAY_UPDATE : Z := Z.shiftl 1 0.
Definition AMDGPU_VM_PAGE_READABLE : Z := Z.shiftl 1 1.
Definition AMDGPU_VM_PAGE_WRITEABLE : Z := Z.shiftl 1 2.
Definition AMDGPU_VM_PAGE_EXECUTABLE : Z := Z.shiftl 1 3.

Definition invalid_flags : Z :=
  u32 (Z.lnot (Z.lor (Z.lor AMDGPU_VM_DELAY_UPDATE AMDGPU_VM_PAGE_READABLE)
                 (Z.lor AMDGPU_VM_PAGE_WRITEABLE AMDGPU_VM_PAGE_EXECUTABLE))).
Definition flag_if (flags f v : Z) : Z := if Z.land flags f =? 0 then 0 else v.
Definition va_flags (flags : Z) : Z :=
  Z.lor (flag_if flags AMDGPU_VM_PAGE_READABLE AMDGPU_PTE_READABLE)
    (Z.lor (flag_if flags AMDGPU_VM_PAGE_WRITEABLE AMDGPU_PTE_WRITEABLE)
       (flag_if flags AMDGPU_VM_PAGE_EXECUTABLE AMDGPU_PTE_EXECUTABLE)).

Definition va_operation (key : Z) (args : drm_amdgpu_gem_va) (a : va_answers) : VM Z :=
  if operation args =? AMDGPU_VA_OP_MAP
  then amdgpu_vm_bo_map key (va_address args) (offset_in_bo args) (map_size args)
         (va_flags (gem_flags args)) (kmalloc_ok a) (page_table a)
  else amdgpu_vm_bo_unmap key (va_address args).

Definition amdgpu_gem_va_ioctl (enabled amdgpu_vm_debug : bool) (args : drm_amdgpu_gem_va) (a : va_answers) : VM Z :=
  if negb enabled then mret (- ENOTTY)
  else if va_address args <? AMDGPU_VA_RESERVED_SIZE then mret (- EINVAL)
  else if negb (Z.land (gem_flags args) invalid_flags =? 0) then mret (- EINVAL)
  else if negb ((operation args =? AMDGPU_VA_OP_MAP) || (operation args =? AMDGPU_VA_OP_UNMAP)) then mret (- EINVAL)
  else
    match gem_object args with
    | None => mret (- ENOENT)
    | Some key =>
        if negb (va_reserve_r a =? 0) then mret (va_reserve_r a)
        else
          f ← amdgpu_vm_bo_find key;
          match f with
          | None => mret (- ENOENT)
          | Some _ =>
              r ← va_operation key args a;
              (if (r =? 0) && (Z.land (gem_flags args) AMDGPU_VM_DELAY_UPDATE =? 0) && negb amdgpu_vm_debug
               then amdgpu_gem_va_update_vm key (operation args) (update a) else mret tt);;
              mret r
          end
    end.

(** ** Command submission ([amdgpu_cs.c]) *)

(** The objects of the submission, as [amdgpu_cs_parser_bos] left them: no
    object for a duplicate, [bo_va] when the object is in this address space;
    with each the result of [amdgpu_sync_fence]. *)
Record cs_entry := CsEntry { robj : option Z; entry_bo_va : option Z; entry_sync_r : Z }.

Fixpoint update_entries (l : list cs_entry) : VM Z :=
  match l with
  | [] => mret 0
  | e :: l =>
      match robj e, entry_bo_va e with
      | Some _, Some key =>
          r ← amdgpu_vm_bo_update key false;
          if negb (r =? 0) then mret r
          else if negb (entry_sync_r e =? 0) then mret (entry_sync_r e)
          else update_entries l
      | _, _ => update_entries l
      end
  end.

Fixpoint invalidate_entries (l : list cs_entry) : VM unit :=
  match l with
  | [] => mret tt
  | e :: l => (match robj e with Some key => amdgpu_vm_bo_invalidate key | None => mret tt end);; invalidate_entries l
  end.

(** [bo_list] is null when the submission names no list; [clear_sync_r] is the
    result of the last [amdgpu_sync_fence] of [amdgpu_vm_clear_invalids]. *)
Definition amdgpu_bo_vm_update_pte (amdgpu_vm_debug : bool) (bo_list : option (list cs_entry))
    (directory_r sync_r clear_sync_r : Z) : VM Z :=
  if negb (directory_r =? 0) then mret directory_r
  else if negb (sync_r =? 0) then mret sync_r
  else
    r ← amdgpu_vm_clear_freed;
    if negb (r =? 0) then mret r
    else
      r ← update_entries (default [] bo_list);
      if negb (r =? 0) then mret r
      else
        r ← amdgpu_vm_clear_invalids clear_sync_r;
        (if amdgpu_vm_debug then invalidate_entries (default [] bo_list) else mret tt);;
        mret r.
End space.
