(* ===== verification/VaInv.v ===== *)
(** * Address spaces: what every operation keeps

    [wf] is the structure: the interval tree holds the mappings of the objects,
    their pages are disjoint and have page tables.  [coherent] relates it to
    the page tables: the pages of valid mappings have the entries of the place
    where the object is ([entry_of]), or none when the object was cleared.
    Neither depends on whether updates fail.  [tracked], which does, says that
    every translation belongs to a valid mapping or to one that waits in
    [freed]. *)

From stdpp Require Import base numbers list gmap.
From S2P Require Import Prelude CMonad Engines VmEngine PageTable PageDir SplitMapping VaSpace.

Definition mappings (b : amdgpu_bo_va) : list va_mapping := valids b ++ invalids b.
Definition inside (m : va_mapping) (p : Z) : Prop := it_start m <= p <= it_last m.
Definition maps (s : amdgpu_vm) (key : Z) (m : va_mapping) : Prop :=
  exists b, bos s !! key = Some b /\ m ∈ mappings b.
Definition translates (s : amdgpu_vm) (key : Z) (m : va_mapping) : Prop :=
  exists b, bos s !! key = Some b /\ m ∈ valids b.
Definition has_table (s : amdgpu_vm) (bs p : Z) : Prop :=
  exists o a, page_tables s !! Z.to_nat (Z.shiftr p bs) = Some (VmPt (Some o) a).

(** Page numbers of 52 bits, and an offset that is not negative. *)
Definition range_ok (m : va_mapping) : Prop := 0 <= it_start m <= it_last m /\ it_last m < 4503599627370496 /\ 0 <= map_offset m.

(** The entry of page [p] of the mapping [m] of object [k]: what the updates of
    the mapping leave for the place where the object is. *)
Definition entry_at_place (env : vm_env) (pl : bo_place) (clear : bool) (m : va_mapping) (p : Z) : option pte :=
  split_entry (env_dev env) (update_gtt_flags env pl clear) (update_pages pl clear) m (update_flags env pl clear) (update_mem pl clear) p.
Definition entry_of (env : vm_env) (key : Z) (b : amdgpu_bo_va) (m : va_mapping) (p : Z) : option pte :=
  entry_at_place env (env_place env key (epoch b)) false m p.

Section inv.
Context (max_pfn bs : Z).

Record wf (s : amdgpu_vm) : Prop := Wf {
  wf_va : forall m, m ∈ va s <-> exists k, maps s k m;
  wf_owner : forall k k' m, maps s k m -> maps s k' m -> k = k';
  wf_split : forall k b m, bos s !! k = Some b -> m ∈ valids b -> m ∈ invalids b -> False;
  wf_mid : forall m m', m ∈ va s -> m' ∈ va s -> mid m = mid m' -> m = m';
  wf_next : forall m, m ∈ va s -> (mid m < next_mid s)%nat;
  wf_disjoint : forall m m' p, m ∈ va s -> m' ∈ va s -> inside m p -> inside m' p -> m = m';
  wf_range : forall m, m ∈ va s -> range_ok m;
  wf_tables : forall m p, m ∈ va s -> inside m p -> has_table s bs p;
  wf_used : forall m p, m ∈ va s -> inside m p -> Z.shiftr p bs <= max_pde_used s;
  wf_length : Z.of_nat (length (page_tables s)) = amdgpu_vm_num_pdes max_pfn bs }.
End inv.

Record coherent (env : vm_env) (s : amdgpu_vm) : Prop := Coherent {
  co_range : forall f, f ∈ freed s -> range_ok f;
  co_freed : forall f k m p, f ∈ freed s -> translates s k m -> inside f p -> inside m p -> False;
  co_current : forall k b m p, bos s !! k = Some b -> has_status k s = false -> m ∈ valids b -> inside m p ->
    pt s !! p = entry_of env k b m p;
  co_cleared : forall k b m p, bos s !! k = Some b -> k ∈ cleared s -> m ∈ valids b -> inside m p -> pt s !! p = None }.

Definition tracked (s : amdgpu_vm) : Prop :=
  forall p t, pt s !! p = Some t ->
    (exists k m, translates s k m /\ inside m p) \/ exists f, f ∈ freed s /\ inside f p.

(** ** Changing the state *)

Section rules.
Context {max_pfn bs : Z}.
Local Notation wf := (wf max_pfn bs).

(** A change that keeps which object maps what. *)
Lemma wf_same s s' :
  wf s -> va s' = va s -> page_tables s' = page_tables s -> max_pde_used s' = max_pde_used s ->
  next_mid s' = next_mid s -> (forall k m, maps s' k m <-> maps s k m) ->
  (forall k b m, bos s' !! k = Some b -> m ∈ valids b -> m ∈ invalids b -> False) -> wf s'.
Proof.
  intros [] Ev Et Eu En Hm Hs. unfold has_table in *.
  split; unfold has_table; rewrite ?Ev, ?Et, ?Eu, ?En; try done; setoid_rewrite Hm; done.
Qed.

Lemma elem_of_removed x dead l :
  x ∈ fold_left (fun l m => remove_mapping m l) dead l <-> x ∈ l /\ forall d, d ∈ dead -> mid x <> mid d.
Proof.
  revert l. induction dead as [|d dead IH]; intros l; cbn [fold_left].
  - split; [|by intros []]. intros H. split; [done|]. intros d Hd. by apply elem_of_nil in Hd.
  - rewrite IH. unfold remove_mapping. rewrite list_elem_of_filter. setoid_rewrite elem_of_cons. naive_solver.
Qed.

(** A change that removes the mappings [dead] of one object from the tree. *)
Lemma wf_remove s s' key dead :
  wf s -> (forall m, m ∈ dead -> maps s key m) ->
  va s' = fold_left (fun l m => remove_mapping m l) dead (va s) -> page_tables s' = page_tables s ->
  max_pde_used s' = max_pde_used s -> next_mid s' = next_mid s ->
  (forall k m, maps s' k m <-> maps s k m /\ m ∉ dead) ->
  (forall k b m, bos s' !! k = Some b -> m ∈ valids b -> m ∈ invalids b -> False) -> wf s'.
Proof.
  intros W Hd Ev Et Eu En Hm Hs.
  assert (Hva : forall m, m ∈ va s' <-> m ∈ va s /\ m ∉ dead).
  { intros m. rewrite Ev, elem_of_removed. split; intros [Hin H]; (split; [done|]).
    - intros Hdm. by apply (H m Hdm).
    - intros d Hdd E. apply H. rewrite (wf_mid _ _ _ W m d Hin); [done| |done]. apply (wf_va _ _ _ W). eauto. }
  destruct W as [Wv Wo Ws Wm Wn Wd Wr Wt Wu Wl]. unfold has_table in *.
  split; unfold has_table; rewrite ?Et, ?Eu, ?En; try done;
    intros; repeat match goal with H : _ ∈ va s' |- _ => apply Hva in H as [??] end; eauto.
  - rewrite Hva, Wv. setoid_rewrite Hm. naive_solver.
  - apply Hm in H as [? _]. apply Hm in H0 as [? _]. eauto.
Qed.
End rules.

(** ** Updating ranges *)

Lemma lookup_set_range m a n v p :
  set_range m a n v !! p = if decide (a <= p < a + n) then v p else m !! p.
Proof.
  assert (H : forall l, foldr (fun q m => partial_alter (fun _ => v q) q m) m l !! p = if decide (p ∈ l) then v p else m !! p).
  { induction l as [|q l IH]; cbn [foldr]; [done|]. destruct (decide (q = p)) as [->|Hne].
    - rewrite lookup_partial_alter_eq. rewrite decide_True; [done|by left].
    - rewrite lookup_partial_alter_ne by done. rewrite IH. destruct (decide (p ∈ l)).
      + rewrite decide_True; [done|by right].
      + rewrite decide_False; [done|]. rewrite elem_of_cons. naive_solver. }
  unfold set_range. rewrite H. destruct (decide (a <= p < a + n)) as [Hp|Hp].
  - rewrite decide_True; [done|]. by apply elem_of_seqZ.
  - rewrite decide_False; [done|]. by rewrite elem_of_seqZ.
Qed.

Section update.
Context (env : vm_env).

Definition never_fails : Prop := forall i, env_result env i = 0.
(** The nodes of all places are sane. *)
Definition places_ok : Prop := forall k n clear, places_fit (update_mem (env_place env k n) clear).

(** [m'] is [m] where pages of [P] may have changed, and are [v] when [r] is
    0. *)
Definition painted (r : Z) (m m' : gmap Z pte) (P : Z -> Prop) (v : Z -> option pte) : Prop :=
  (forall p, m' !! p = m !! p \/ P p) /\ (r = 0 -> forall p, P p -> m' !! p = v p).

Definition in_chunks (cs : list chunk) (p : Z) : Prop := exists c, c ∈ cs /\ c_start c <= p <= c_last c.
Lemma lookup_apply_chunks cs m p :
  (exists c, c ∈ cs /\ c_start c <= p <= c_last c /\ apply_chunks cs m !! p = chunk_entry c p) \/ ~ in_chunks cs p /\ apply_chunks cs m !! p = m !! p.
Proof.
  induction cs as [|c cs IH] using rev_ind; [right; split; [by intros (c & ?%elem_of_nil & _)|done]|].
  unfold apply_chunks in *. rewrite foldl_app. cbn [foldl]. rewrite lookup_set_range. destruct (decide _) as [Hp|Hp].
  - left. exists c. split; [set_solver|]. split; [lia|done].
  - destruct IH as [(c' & Hc & Hin & E)|[Hn E]]; [left; exists c'; split; [set_solver|done]|right]. split; [|done].
    intros (c' & [Hc|Hc%list_elem_of_singleton]%elem_of_app & Hin); [apply Hn; by exists c'|subst; lia].
Qed.

Lemma split_update_run gtt pages m flags mem s r s' :
  split_update env gtt pages m flags mem s = Ok (r, s') ->
  exists t c, s' = set_pt t (set_counters (next_mid s) c s) /\ (never_fails -> r = 0) /\
    (places_fit mem -> range_ok m -> painted r (pt s) t (inside m) (split_entry (env_dev env) gtt pages m flags mem)).
Proof.
  unfold split_update. rewrite (bind_eval (gets id) _ s s s eq_refl). cbn [id].
  destruct (amdgpu_vm_bo_split_mapping _ _ _ _ _ _ _ _) as [[r' cs]| |] eqn:E; [|done|done]. intros H. injection H as <- <-.
  eexists _, _. split; [reflexivity|]. split; [intros Hnf; eapply split_result; [|exact E]; intros i; apply Hnf|]. intros Hm (Hr & Hl & Ho).
  destruct (split_tiled _ _ _ _ _ _ _ _ _ _ Hm Hr Hl Ho E) as (b & Ht & Hb & _ & H0). cbn [pt set_counters]. split.
  - intros p. destruct (lookup_apply_chunks (if r' =? 0 then cs else removelast cs) (pt s) p) as [(c & Hc & Hp & _)|[_ ->]]; [right|by left].
    assert (Hin : c ∈ cs).
    { destruct (r' =? 0); [done|]. destruct cs as [|x l]; [by apply elem_of_nil in Hc|]. rewrite (app_removelast_last x (l := x :: l)) by done. set_solver. }
    destruct (tiled_bounds _ _ _ _ Ht Hin). unfold inside. lia.
  - intros -> p Hp. cbn [Z.eqb]. destruct (H0 eq_refl) as [-> E0]. unfold split_entry. rewrite E0. unfold inside in Hp.
    destruct (tiled_find _ _ cs p Ht ltac:(lia)) as (c & -> & Hc & Hcp). cbn [mbind option_bind].
    destruct (lookup_apply_chunks cs (pt s) p) as [(c' & Hc' & Hp' & Ep)|[Hn _]]; [|destruct Hn; by exists c].
    rewrite Ep. by rewrite (tiled_unique _ _ cs c' c p Ht).
Qed.

(** Entries without the valid bit translate nothing. *)
Lemma invalid_entry gtt pages m flags mem p :
  places_fit mem -> range_ok m -> Z.land flags AMDGPU_PTE_VALID = 0 -> split_entry (env_dev env) gtt pages m flags mem p = None.
Proof.
  intros Hm (Hr & Hl & Ho) Hf. unfold split_entry. destruct (amdgpu_vm_bo_split_mapping _ _ _ _ _ _ _ _) as [[r cs]| |] eqn:E; [|done|done].
  destruct (split_tiled _ _ _ _ _ _ _ _ _ _ Hm Hr Hl Ho E) as (b & _ & _ & Hfl & _). destruct (find (in_chunk p) cs) as [c|] eqn:Ec; [|done].
  apply find_some in Ec as [Ec _]. cbn [mbind option_bind]. unfold chunk_entry. apply list_elem_of_In in Ec.
  rewrite (proj1 (Forall_forall _ _) Hfl c Ec), filtered_invalid by done. done.
Qed.
Lemma cleared_entry pl m p : range_ok m -> entry_at_place env pl true m p = None.
Proof.
  intros Hm. apply invalid_entry; [done|done|]. unfold update_flags, amdgpu_ttm_tt_pte_flags. destruct (env_tonga env), (pl_readonly pl); reflexivity.
Qed.

Definition covers (l : list va_mapping) (p : Z) : Prop := exists m, m ∈ l /\ inside m p.
Definition separate (l : list va_mapping) : Prop :=
  forall m m' p, m ∈ l -> m' ∈ l -> inside m p -> inside m' p -> m = m'.

(** What [update_all] does to the pages. *)
Definition all_painted (pl : bo_place) (clear : bool) (l : list va_mapping) (r : Z) (m m' : gmap Z pte) : Prop :=
  (forall p, m' !! p = m !! p \/ covers l p) /\ (r = 0 -> forall x p, x ∈ l -> inside x p -> m' !! p = entry_at_place env pl clear x p).

Lemma update_all_run pl clear l : forall s r s',
  update_all env pl clear l s = Ok (r, s') ->
  exists t c, s' = set_pt t (set_counters (next_mid s) c s) /\ (never_fails -> r = 0) /\
    (places_fit (update_mem pl clear) -> Forall range_ok l -> separate l -> all_painted pl clear l r (pt s) t).
Proof.
  induction l as [|x l IH]; intros s r s' H; cbn [update_all] in H.
  - injection H as <- <-. exists (pt s), (calls s). split; [by destruct s|]. split; [done|]. intros _ _ _. split; [by left|]. intros _ y p Hy. by apply elem_of_nil in Hy.
  - apply bind_Ok in H as (r1 & s1 & H1 & H). apply split_update_run in H1 as (t & c & -> & Hn & HP). destruct (Z.eqb_spec r1 0) as [->|Hr]; cbn [negb] in H.
    + apply IH in H as (t' & c' & -> & Hn' & HP'). exists t', c'. split; [done|]. split; [done|]. intros Hm [Hx Hl]%Forall_cons Hsep.
      destruct (HP Hm Hx) as [Hp H0]. destruct (HP' Hm Hl) as [Hp' H0']; [intros y y' p Hy Hy'; apply Hsep; by right|]. cbn [pt set_pt set_counters] in *. split.
      * intros p. destruct (Hp' p) as [->|(y & Hy & Hin)]; [|right; exists y; split; [by right|done]]. destruct (Hp p) as [->|Hin]; [by left|].
        right. exists x. split; [by left|done].
      * intros E0 y p Hy Hin. apply elem_of_cons in Hy as [->|Hy]; [|by apply H0'].
        destruct (Hp' p) as [->|(y & Hy & Hin')]; [by apply H0|].
        assert (x = y) as -> by (apply (Hsep x y p); [by left|by right|done|done]). by apply H0'.
    + injection H as <- <-. exists t, c. split; [done|]. split; [intros Hnf; by destruct Hr; apply Hn|]. intros Hm [Hx Hl]%Forall_cons _. destruct (HP Hm Hx) as [Hp _]. split; [|done].
      intros p. destruct (Hp p) as [->|Hin]; [by left|]. right. exists x. split; [by left|done].
Qed.

(** The object while it is updated: with a status, all its mappings are
    written again. *)
Definition spliced (key : Z) (b : amdgpu_bo_va) (s : amdgpu_vm) : amdgpu_bo_va :=
  if has_status key s then BoVa [] (mappings b) (ref_count b) (bo_size b) (epoch b) else b.

Definition after_update (key : Z) (clear : bool) (b : amdgpu_bo_va) (r : Z) (m : gmap Z pte) (c : nat) (s : amdgpu_vm) : amdgpu_vm :=
  let b0 := spliced key b s in
  let b' := if r =? 0 then BoVa (invalids b0 ++ valids b0) [] (ref_count b) (bo_size b) (epoch b) else b0 in
  let others := filter (fun k => k <> key) in
  Vm (va s) (<[key := b']> (bos s)) (freed s)
    (if r =? 0 then others (invalidated s) else invalidated s)
    (if r =? 0 then (if clear then [key] else []) ++ others (cleared s) else cleared s)
    (page_tables s) (max_pde_used s) m (next_mid s) c.

Lemma bo_update_run key clear b s r s' :
  bos s !! key = Some b -> amdgpu_vm_bo_update env key clear s = Ok (r, s') ->
  exists m c, s' = after_update key clear b r m c s /\ (never_fails -> r = 0) /\
    (places_ok -> Forall range_ok (mappings b) -> separate (mappings b) ->
     all_painted (env_place env key (epoch b)) clear (invalids (spliced key b s)) r (pt s) m).
Proof.
  intros Hb H. unfold amdgpu_vm_bo_update, the_bo in H.
  set (s0 := set_bos (<[key := spliced key b s]> (bos s)) s).
  rewrite (bind_eval _ _ s b s) in H by (unfold mbind, M_bind; cbn; by rewrite Hb).
  rewrite (bind_eval (gets id) _ s s s eq_refl), (bind_eval _ _ s tt s0) in H.
  2:{ unfold s0, spliced. destruct (has_status key s); [done|]. unfold mret, M_ret. do 2 f_equal.
      rewrite insert_id by done. by destruct s. }
  rewrite (bind_eval _ _ s0 (spliced key b s) s0) in H.
  2:{ unfold mbind, M_bind. cbn. by rewrite lookup_insert_eq. }
  assert (Hep : epoch (spliced key b s) = epoch b) by (unfold spliced; by destruct (has_status key s)). rewrite Hep in H.
  assert (Hsub : forall x, x ∈ invalids (spliced key b s) -> x ∈ mappings b) by (intros x; unfold spliced, mappings; destruct (has_status key s); cbn; set_solver).
  apply bind_Ok in H as (r1 & s1 & H1 & H). apply update_all_run in H1 as (m & c & -> & Hn & HP). exists m, c.
  assert (Hpost : r = r1 /\ s' = after_update key clear b r m c s).
  { unfold after_update. destruct (Z.eqb_spec r1 0) as [->|Hr]; cbn [negb] in H.
    - injection H as <- <-. split; [done|]. unfold set_status, set_bos, set_pt, set_counters, s0. cbn. rewrite insert_insert_eq. f_equal. f_equal. f_equal; unfold spliced; by destruct (has_status key s).
    - injection H as <- <-. split; [done|]. by rewrite (proj2 (Z.eqb_neq r1 0) Hr). }
  destruct Hpost as [-> ->]. split; [done|]. split; [done|]. intros Hpl Hr Hsep. apply HP; [apply Hpl| |].
  - apply Forall_forall. intros x Hx%Hsub. by apply (proj1 (Forall_forall _ _) Hr).
  - intros x y p Hx Hy. apply Hsep; auto.
Qed.
End update.
