(* ===== verification/VaUpdate.v ===== *)
(** * Address spaces: updates keep the invariant

    [amdgpu_vm_bo_update], [amdgpu_vm_clear_freed] and
    [amdgpu_vm_clear_invalids] against [wf], [coherent] and [tracked]. *)

From stdpp Require Import base numbers list gmap.
From S2P Require Import Prelude CMonad Engines VmEngine PageTable PageDir SplitMapping VaSpace VaInv.

Lemma elem_of_mappings x b : x ∈ mappings b <-> x ∈ valids b \/ x ∈ invalids b.
Proof. apply elem_of_app. Qed.

Lemma has_status_false k s : has_status k s = false <-> k ∉ invalidated s /\ k ∉ cleared s.
Proof. unfold has_status. rewrite orb_false_iff, !bool_decide_eq_false. done. Qed.
Lemma has_status_cleared k s : k ∈ cleared s -> has_status k s = true.
Proof. intros H. unfold has_status. rewrite (bool_decide_eq_true_2 _ H). apply orb_true_r. Qed.
Lemma has_status_invalidated k s : k ∈ invalidated s -> has_status k s = true.
Proof. intros H. unfold has_status. by rewrite (bool_decide_eq_true_2 _ H). Qed.

Lemma spliced_cases key b s :
  has_status key s = true /\ valids (spliced key b s) = [] /\ invalids (spliced key b s) = mappings b \/
  has_status key s = false /\ spliced key b s = b.
Proof. unfold spliced. destruct (has_status key s); auto. Qed.

Lemma elem_of_spliced key b s x :
  x ∈ valids (spliced key b s) \/ x ∈ invalids (spliced key b s) <-> x ∈ valids b \/ x ∈ invalids b.
Proof.
  destruct (spliced_cases key b s) as [(_ & -> & ->)|[_ ->]]; [|done]. rewrite elem_of_mappings.
  split; [|by right]. intros [H|H]; [by apply elem_of_nil in H|done].
Qed.

Section update_inv.
Context {max_pfn bs : Z}.
Local Notation wf := (wf max_pfn bs).

Lemma wf_mapped_range s k b : wf s -> bos s !! k = Some b -> Forall range_ok (mappings b).
Proof. intros W Hb. apply Forall_forall. intros x Hx. apply (wf_range _ _ _ W), (wf_va _ _ _ W). by exists k, b. Qed.
Lemma wf_separate s k b : wf s -> bos s !! k = Some b -> separate (mappings b).
Proof.
  intros W Hb x y p Hx Hy. apply (wf_disjoint _ _ _ W); apply (wf_va _ _ _ W); exists k, b; done.
Qed.

(** A page of one object's mapping is no page of another's. *)
Lemma wf_page_owner s k k' x y p : wf s -> maps s k x -> maps s k' y -> inside x p -> inside y p -> k = k' /\ x = y.
Proof.
  intros W Hx Hy Hpx Hpy. assert (x = y) as <-.
  { apply (wf_disjoint _ _ _ W x y p); [| |done|done]; apply (wf_va _ _ _ W); eauto. }
  split; [by apply (wf_owner _ _ _ W k k' x)|done].
Qed.

Lemma after_update_maps key clear b r m c s k x :
  bos s !! key = Some b -> maps (after_update key clear b r m c s) k x <-> maps s k x.
Proof.
  intros Hb. unfold maps, after_update. cbn. destruct (decide (k = key)) as [->|Hne].
  - rewrite Hb. rewrite lookup_insert_eq. split; intros (b' & [= <-] & H); (eexists; split; [done|]);
      rewrite elem_of_mappings in *; destruct (r =? 0); cbn in *; rewrite ?elem_of_app in *.
    + apply (elem_of_spliced key b s x). apply elem_of_nil in H || destruct H as [[]|H%elem_of_nil]; tauto.
    + by apply (elem_of_spliced key b s x).
    + left. apply (elem_of_spliced key b s x) in H. tauto.
    + by apply (elem_of_spliced key b s x).
  - by rewrite lookup_insert_ne.
Qed.

Lemma after_update_wf key clear b r m c s : bos s !! key = Some b -> wf s -> wf (after_update key clear b r m c s).
Proof.
  intros Hb W. apply (wf_same s); [done|done|done|done|done| |].
  { intros k x. by apply after_update_maps. }
  intros k b' x Hk. cbn in Hk. destruct (decide (k = key)) as [->|Hne].
  - rewrite lookup_insert_eq in Hk. injection Hk as <-. destruct (r =? 0); cbn; [intros _ H; by apply elem_of_nil in H|].
    destruct (spliced_cases key b s) as [(_ & -> & _)|[_ ->]]; [intros H; by apply elem_of_nil in H|].
    by apply (wf_split _ _ _ W key).
  - rewrite lookup_insert_ne in Hk by done. by apply (wf_split _ _ _ W k).
Qed.

Lemma has_status_other key clear b r m c s k : k <> key -> has_status k (after_update key clear b r m c s) = has_status k s.
Proof.
  intros Hne. unfold has_status, after_update. cbn. destruct (r =? 0); [|done].
  f_equal; apply bool_decide_ext; rewrite ?elem_of_app, list_elem_of_filter; [tauto|].
  destruct clear; cbn; set_solver.
Qed.

Section one.
Context (key : Z) (clear : bool) (b : amdgpu_bo_va) (r : Z) (m : gmap Z pte) (c : nat) (s : amdgpu_vm).
Context (Hb : bos s !! key = Some b) (W : wf s) (Hcl : clear = true -> has_status key s = true).
Context (env : vm_env) (HP : all_painted env (env_place env key (epoch b)) clear (invalids (spliced key b s)) r (pt s) m).
Local Notation s' := (after_update key clear b r m c s).

Lemma invalid_maps x : x ∈ invalids (spliced key b s) -> maps s key x.
Proof.
  intros H. exists b. split; [done|]. apply elem_of_mappings, (elem_of_spliced key b s x). by right.
Qed.

(** Pages of other objects keep their translation, and so do the object's valid
    pages when it has no status. *)
Lemma other_page k x p : maps s k x -> inside x p -> k <> key -> m !! p = pt s !! p.
Proof.
  intros Hx Hin Hne. destruct (proj1 HP p) as [->|(y & Hy & Hin')]; [done|].
  destruct Hne. by apply (wf_page_owner s k key x y p W Hx (invalid_maps y Hy)).
Qed.

Lemma valid_page x p : has_status key s = false -> x ∈ valids b -> inside x p -> m !! p = pt s !! p.
Proof.
  intros Hs Hx Hin. destruct (proj1 HP p) as [->|(y & Hy & Hin')]; [done|]. exfalso.
  assert (Hmx : maps s key x) by (exists b; split; [done|]; apply elem_of_mappings; by left).
  destruct (wf_page_owner s key key x y p W Hmx (invalid_maps y Hy) Hin Hin') as [_ <-].
  destruct (spliced_cases key b s) as [(Hs' & _)|[_ E]]; [congruence|]. rewrite E in Hy. by apply (wf_split _ _ _ W key b x).
Qed.

Lemma entry_after k r0 : entry_of env k (if r0 =? 0 then BoVa (invalids (spliced key b s) ++ valids (spliced key b s)) [] (ref_count b) (bo_size b) (epoch b) else spliced key b s) = entry_of env k b.
Proof. unfold entry_of. destruct (r0 =? 0); [done|]. unfold spliced. by destruct (has_status key s). Qed.
Lemma after_update_coherent : freed s = [] -> coherent env s -> coherent env s'.
Proof.
  intros Hf C. split.
  - intros f Hin. cbn in Hin. rewrite Hf in Hin. by apply elem_of_nil in Hin.
  - intros f k x p Hin. cbn in Hin. rewrite Hf in Hin. by apply elem_of_nil in Hin.
  - intros k b' x p Hk Hs Hx Hin. cbn [after_update pt]. destruct (decide (k = key)) as [->|Hne].
    + cbn in Hk. rewrite lookup_insert_eq in Hk. injection Hk as <-. rewrite entry_after.
      destruct (Z.eqb_spec r 0) as [E0|Hr]; cbn in Hx.
      * assert (clear = false) as Ec.
        { apply has_status_false in Hs as [_ Hs]. cbn in Hs. rewrite (proj2 (Z.eqb_eq r 0) E0) in Hs.
          destruct clear; [|done]. destruct Hs. by left. }
        apply elem_of_app in Hx as [Hx|Hx].
        { rewrite (proj2 HP E0 x p Hx Hin). by rewrite Ec. }
        destruct (spliced_cases key b s) as [(_ & E & _)|[Hst E]]; rewrite E in Hx; [by apply elem_of_nil in Hx|].
        rewrite (valid_page x p Hst Hx Hin). by apply (co_current _ _ C).
      * destruct (spliced_cases key b s) as [(_ & E & _)|[Hst E]]; rewrite E in Hx; [by apply elem_of_nil in Hx|].
        rewrite (valid_page x p Hst Hx Hin). by apply (co_current _ _ C).
    + cbn in Hk. rewrite lookup_insert_ne in Hk by done. rewrite has_status_other in Hs by done.
      rewrite (other_page k x p); [by apply (co_current _ _ C)| |done|done].
      exists b'. split; [done|]. apply elem_of_mappings. by left.
  - intros k b' x p Hk Hs Hx Hin. cbn [after_update pt]. destruct (decide (k = key)) as [->|Hne].
    + cbn in Hk, Hs. rewrite lookup_insert_eq in Hk. injection Hk as <-.
      destruct (Z.eqb_spec r 0) as [E0|Hr]; cbn in Hx.
      * apply elem_of_app in Hs as [Hs|Hs]; [|by apply list_elem_of_filter in Hs as [? _]].
        assert (Ec : clear = true) by (destruct clear; [done|by apply elem_of_nil in Hs]).
        destruct (spliced_cases key b s) as [(_ & E & _)|[Hst E]]; [|by rewrite Hcl in Hst].
        rewrite E, app_nil_r in Hx. rewrite (proj2 HP E0 x p Hx Hin), Ec. apply cleared_entry.
        apply (wf_range _ _ _ W), (wf_va _ _ _ W). exists key. by apply invalid_maps.
      * destruct (spliced_cases key b s) as [(_ & E & _)|[Hst E]]; [rewrite E in Hx; by apply elem_of_nil in Hx|].
        by rewrite has_status_cleared in Hst.
    + cbn in Hk, Hs. rewrite lookup_insert_ne in Hk by done.
      assert (Hs' : k ∈ cleared s).
      { destruct (r =? 0); [|done]. apply elem_of_app in Hs as [Hs|Hs]; [destruct clear; set_solver|].
        by apply list_elem_of_filter in Hs as [_ ?]. }
      rewrite (other_page k x p); [by eapply (co_cleared _ _ C k b')| |done|done].
      exists b'. split; [done|]. apply elem_of_mappings. by left.
Qed.

Lemma after_update_tracked : r = 0 -> freed s = [] -> tracked s -> tracked s'.
Proof.
  intros E0 Hf T p t Ht. left. cbn in Ht. unfold translates. cbn.
  rewrite (proj2 (Z.eqb_eq r 0) E0). destruct (proj1 HP p) as [E|(x & Hx & Hin)].
  - rewrite E in Ht. destruct (T p t Ht) as [(k & x & (b' & Hk & Hx) & Hin)|(f & Hff & _)]; [|by rewrite Hf in Hff; apply elem_of_nil in Hff].
    exists k, x. split; [|done]. destruct (decide (k = key)) as [->|Hne].
    + rewrite lookup_insert_eq. eexists. split; [done|]. cbn. rewrite Hb in Hk. injection Hk as <-.
      apply elem_of_app. apply or_comm, (elem_of_spliced key b s x). by left.
    + rewrite lookup_insert_ne by done. eauto.
  - exists key, x. split; [|done].
    rewrite lookup_insert_eq. eexists. split; [done|]. cbn. apply elem_of_app. by left.
Qed.
End one.
End update_inv.

(** ** The freed mappings *)

Section clear.
Context (env : vm_env).

Definition with_freed (l : list va_mapping) (m : gmap Z pte) (c : nat) (s : amdgpu_vm) : amdgpu_vm :=
  set_pt m (set_counters (next_mid s) c (set_freed l s)).

Lemma clear_freed_loop_run n : forall s r s',
  clear_freed_loop env n s = Ok (r, s') ->
  exists l m c, s' = with_freed l m c s /\ (forall f, f ∈ l -> f ∈ freed s) /\ (r = 0 -> l = []) /\ (never_fails env -> r = 0) /\
    (Forall range_ok (freed s) -> painted r (pt s) m (covers (freed s)) (fun _ => None)).
Proof.
  induction n as [|n IH]; intros s r s' H; cbn [clear_freed_loop] in H;
    rewrite (bind_eval (gets id) _ s s s eq_refl) in H; cbn [id] in H; destruct (freed s) as [|f l] eqn:Ef; try done.
  1,2: injection H as <- <-; exists [], (pt s), (calls s); split; [unfold with_freed, set_pt, set_counters, set_freed; cbn; rewrite <- Ef; by destruct s|];
    split; [done|]; split; [done|]; split; [done|]; intros _; split; [by left|]; intros _ p (x & Hx & _); by apply elem_of_nil in Hx.
  rewrite (bind_eval (modify _) _ s tt _ eq_refl) in H. apply bind_Ok in H as (r1 & s1 & H1 & H).
  apply split_update_run in H1 as (m & c & -> & Hn & HP). cbn [pt set_freed next_mid] in *.
  assert (HP' : range_ok f -> painted r1 (pt s) m (inside f) (fun _ => None)).
  { intros Hf. destruct (HP I Hf) as [Hp H0]. split; [done|]. intros E p Hin. rewrite (H0 E p Hin). by apply (invalid_entry env). }
  clear HP. destruct (Z.eqb_spec r1 0) as [->|Hr]; cbn [negb] in H.
  - apply IH in H as (l' & m' & c' & -> & Hl & Hnil & Hn' & HP2). exists l', m', c'. split; [done|]. cbn in Hl, HP2.
    split; [intros x Hx; right; by apply Hl|]. split; [done|]. split; [done|]. intros [Hf Hfl]%Forall_cons.
    destruct (HP' Hf) as [Hp H0]. destruct (HP2 Hfl) as [Hp' H0']. split.
    + intros p. destruct (Hp' p) as [->|(x & Hx & Hin)]; [|right; exists x; split; [by right|done]].
      destruct (Hp p) as [->|Hin]; [by left|]. right. exists f. split; [by left|done].
    + intros E0 p (x & Hx & Hin). destruct (decide (m' !! p = m !! p)) as [E|E]; [|destruct (Hp' p) as [|Hc]; [done|by apply H0']].
      apply elem_of_cons in Hx as [->|Hx]; [by rewrite E; apply H0|]. apply H0'; [done|by exists x].
  - injection H as <- <-. exists l, m, c. split; [done|]. split; [intros x Hx; by right|]. split; [done|]. split; [intros Hnf; by destruct Hr; apply Hn|].
    intros [Hf Hfl]%Forall_cons. destruct (HP' Hf) as [Hp H0]. split; [|done]. intros p. destruct (Hp p) as [->|Hin]; [by left|]. right. exists f. split; [by left|done].
Qed.

Context {max_pfn bs : Z}.
Local Notation wf := (wf max_pfn bs).

Lemma clear_freed_ok s r s' :
  wf s -> amdgpu_vm_clear_freed env s = Ok (r, s') ->
  exists l m c, s' = with_freed l m c s /\ wf s' /\ (r = 0 -> l = []) /\ (never_fails env -> r = 0) /\
    (coherent env s -> coherent env s' /\ (never_fails env -> tracked s -> tracked s')).
Proof.
  intros W H. unfold amdgpu_vm_clear_freed in H. rewrite (bind_eval (gets id) _ s s s eq_refl) in H. cbn [id] in H.
  apply clear_freed_loop_run in H as (l & m & c & -> & Hl & Hnil & Hn & HP). exists l, m, c. split; [done|].
  split; [by apply (wf_same s); [..|apply (wf_split _ _ _ W)]|]. split; [done|]. split; [done|]. intros C.
  destruct HP as [Hp H0]; [apply Forall_forall; apply (co_range _ _ C)|].
  assert (Hv : forall k x p, translates s k x -> inside x p -> m !! p = pt s !! p).
  { intros k x p Hx Hin. destruct (Hp p) as [->|(f & Hf & Hin')]; [done|].
    destruct (co_freed _ _ C f k x p Hf Hx Hin' Hin). }
  split.
  - split; cbn.
    + intros f Hf. apply (co_range _ _ C f (Hl f Hf)).
    + intros f k x p Hf. apply (co_freed _ _ C f k x p (Hl f Hf)).
    + intros k b x p Hk Hs Hx Hin. rewrite (Hv k x p); [by apply (co_current _ _ C)|by exists b|done].
    + intros k b x p Hk Hs Hx Hin. rewrite (Hv k x p); [by eapply (co_cleared _ _ C)|by exists b|done].
  - intros Hnf T p t Ht. cbn in Ht. pose proof (Hn Hnf) as E0.
    destruct (decide (m !! p = pt s !! p)) as [E|E]; [|destruct (Hp p) as [|Hc]; [done|by rewrite (H0 E0 p Hc) in Ht]].
    rewrite E in Ht. destruct (T p t Ht) as [H|(f & Hf & Hin)]; [by left|].
    assert (m !! p = None) as Hm by (apply H0; [done|by exists f]). congruence.
Qed.

(** ** One object *)

Lemma bo_update_ok key clear b s r s' :
  wf s -> freed s = [] -> bos s !! key = Some b -> (clear = true -> has_status key s = true) ->
  amdgpu_vm_bo_update env key clear s = Ok (r, s') ->
  exists m c, s' = after_update key clear b r m c s /\ wf s' /\ (never_fails env -> r = 0) /\
    (places_ok env -> coherent env s -> coherent env s' /\ (never_fails env -> tracked s -> tracked s')).
Proof.
  intros W Hf Hb Hcl H. apply (bo_update_run env key clear b) in H as (m & c & -> & Hn & HP); [|done].
  exists m, c. split; [done|]. split; [by apply after_update_wf|]. split; [done|]. intros Hpl C.
  specialize (HP Hpl (wf_mapped_range s key b W Hb) (wf_separate s key b W Hb)).
  split; [by apply (after_update_coherent (max_pfn := max_pfn) (bs := bs))|]. intros Hnf. apply (after_update_tracked key clear b r m c s Hb env HP); auto.
Qed.
End clear.
