(* ===== verification/VaSubmit.v ===== *)
(** * Address spaces: what a submission leaves behind

    [amdgpu_bo_vm_update_pte] clears freed mappings, updates the objects of the
    submission and clears the objects that moved.  [advances] collects what each
    of its steps keeps. *)

From stdpp Require Import base numbers list gmap.
From S2P Require Import Prelude CMonad Engines VmEngine PageTable PageDir SplitMapping VaSpace VaInv VaUpdate.

Definition status_ok (s : amdgpu_vm) : Prop := forall k, has_status k s = true -> is_Some (bos s !! k).

(** All mappings of the object are valid. *)
Definition settled (s : amdgpu_vm) (k : Z) : Prop :=
  has_status k s = false /\ exists b, bos s !! k = Some b /\ invalids b = [].

Section submit.
Context (max_pfn bs : Z) (env : vm_env).

(** No update fails, and the nodes of the places are sane. *)
Definition calm : Prop := never_fails env /\ places_ok env.

Record good (s : amdgpu_vm) : Prop := Good {
  good_wf : wf max_pfn bs s;
  good_coherent : places_ok env -> coherent env s;
  good_status : status_ok s }.

Record advances (s s' : amdgpu_vm) : Prop := Advances {
  ad_good : good s';
  ad_freed : freed s' = [];
  ad_dom : forall k, is_Some (bos s' !! k) <-> is_Some (bos s !! k);
  ad_maps : forall k x, maps s' k x <-> maps s k x;
  ad_epoch : forall k b', bos s' !! k = Some b' -> exists b, bos s !! k = Some b /\ epoch b' = epoch b;
  ad_settled : forall k, settled s k -> settled s' k;
  ad_tracked : calm -> tracked s -> tracked s' }.

Lemma advances_refl s : good s -> freed s = [] -> advances s s.
Proof. split; eauto. Qed.
Lemma advances_trans s1 s2 s3 : advances s1 s2 -> advances s2 s3 -> advances s1 s3.
Proof.
  intros A B. split; [apply B|apply B| | | |intros k H; by apply B, A|intros Hc T; apply B; [done|by apply A]].
  - intros k. by rewrite (ad_dom _ _ B), (ad_dom _ _ A).
  - intros k x. by rewrite (ad_maps _ _ B), (ad_maps _ _ A).
  - intros k b3 (b2 & H2 & E2)%(ad_epoch _ _ B). apply (ad_epoch _ _ A) in H2 as (b1 & H1 & E1). exists b1. split; [done|congruence].
Qed.

Lemma bo_update_advances key clear s r s' :
  good s -> freed s = [] -> is_Some (bos s !! key) -> (clear = true -> has_status key s = true) ->
  amdgpu_vm_bo_update env key clear s = Ok (r, s') ->
  advances s s' /\ (r = 0 -> invalidated s' = filter (fun k => k <> key) (invalidated s) /\ (clear = false -> settled s' key)) /\
  (never_fails env -> r = 0).
Proof.
  intros [W C St] Hf [b Hb] Hcl E.
  destruct (bo_update_ok env key clear b s r s' W Hf Hb Hcl E) as (m & c & Es' & W' & Hn & HC). subst s'.
  pose proof (has_status_other key clear b r m c s) as Hoth.
  set (s' := after_update key clear b r m c s) in *.
  assert (Hdom : forall k, is_Some (bos s' !! k) <-> is_Some (bos s !! k)).
  { intros k. cbn. destruct (decide (k = key)) as [->|Hne]; [rewrite lookup_insert_eq, Hb; split; by eexists|].
    by rewrite lookup_insert_ne. }
  split; [split|split].
  - split; [done|intros Hpl; by apply HC; auto|]. intros k Hk. apply Hdom. destruct (decide (k = key)) as [->|Hne]; [by exists b|].
    apply St. by rewrite <- (Hoth k Hne).
  - done.
  - exact Hdom.
  - intros k x. by apply after_update_maps.
  - intros k b'. cbn. destruct (decide (k = key)) as [->|Hne]; [|rewrite lookup_insert_ne by done; eauto].
    rewrite lookup_insert_eq. intros [= <-]. exists b. split; [done|]. destruct (r =? 0); [done|]. unfold spliced. by destruct (has_status key s).
  - intros k [Hs (b' & Hk & Hi)]. destruct (decide (k = key)) as [->|Hne].
    + rewrite Hb in Hk. injection Hk as <-. assert (clear = false) as -> by (destruct clear; [by rewrite Hcl in Hs|done]).
      split.
      * apply has_status_false in Hs as [H1 H2]. apply has_status_false. cbn. destruct (r =? 0); [|done].
        rewrite !list_elem_of_filter. naive_solver.
      * cbn. rewrite lookup_insert_eq. eexists. split; [done|]. destruct (r =? 0); [done|]. unfold spliced. by rewrite Hs.
    + split; [by rewrite (Hoth k Hne)|]. exists b'. cbn. by rewrite lookup_insert_ne.
  - intros [Hnf Hpl] T. by apply HC; auto.
  - intros ->. split; [done|]. intros ->. split.
    + apply has_status_false. cbn. rewrite !list_elem_of_filter. naive_solver.
    + cbn. rewrite lookup_insert_eq. by eexists.
  - done.
Qed.

Lemma update_entries_advances l : forall s r s',
  good s -> freed s = [] -> (forall e k, e ∈ l -> entry_bo_va e = Some k -> is_Some (bos s !! k)) ->
  update_entries env l s = Ok (r, s') ->
  advances s s' /\ (r = 0 -> forall e k o, e ∈ l -> robj e = Some o -> entry_bo_va e = Some k -> settled s' k) /\
  (never_fails env -> (forall e, e ∈ l -> entry_sync_r e = 0) -> r = 0).
Proof.
  induction l as [|e l IH]; intros s r s' G Hf Hl H; cbn [update_entries] in H.
  - injection H as <- <-. split; [by apply advances_refl|]. split; [|done]. intros _ e k o He. by apply elem_of_nil in He.
  - assert (Hskip : robj e = None \/ entry_bo_va e = None -> update_entries env l s = Ok (r, s') ->
      advances s s' /\ (r = 0 -> forall e0 k o, e0 ∈ e :: l -> robj e0 = Some o -> entry_bo_va e0 = Some k -> settled s' k) /\
      (never_fails env -> (forall e0, e0 ∈ e :: l -> entry_sync_r e0 = 0) -> r = 0)).
    { intros Hnone E. destruct (IH s r s' G Hf) as (A & H0 & Hn); [intros e' k He'; apply Hl; by right|done|].
      split; [done|]. split.
      - intros Hr e0 k o He0 Ho Hk. apply elem_of_cons in He0 as [->|He0]; [destruct Hnone; congruence|]. by eapply H0.
      - intros Hnf Hs. apply Hn; [done|]. intros e0 He0. apply Hs. by right. }
    destruct (robj e) as [o|] eqn:Eo; [|by auto]. destruct (entry_bo_va e) as [key|] eqn:Ek; [|by auto].
    apply bind_Ok in H as (r1 & s1 & E1 & H).
    destruct (bo_update_advances key false s r1 s1 G Hf) as (A1 & H1 & Hn1); [by apply (Hl e); [left|]|done|done|].
    destruct (Z.eqb_spec r1 0) as [->|Hr]; cbn [negb] in H.
    2:{ injection H as <- <-. split; [done|]. split; [done|]. intros Hnf _. by apply Hn1. }
    destruct (Z.eqb_spec (entry_sync_r e) 0) as [Es|Hs]; cbn [negb] in H.
    2:{ injection H as <- <-. split; [done|]. split; [done|]. intros _ H. destruct Hs. apply H. by left. }
    destruct (IH s1 r s' (ad_good _ _ A1) (ad_freed _ _ A1)) as (A2 & H2 & Hn2); [|done|].
    { intros e' k He' Hk. apply (ad_dom _ _ A1). apply (Hl e' k); [by right|done]. }
    split; [by apply (advances_trans s s1)|]. split.
    + intros -> e0 k o0 He0 Ho0 Hk0. apply elem_of_cons in He0 as [->|He0]; [|by eapply H2].
      apply (ad_settled _ _ A2). rewrite Ek in Hk0. injection Hk0 as <-. by apply H1.
    + intros Hnf Hsy. apply Hn2; [done|]. intros e0 He0. apply Hsy. by right.
Qed.

Lemma clear_invalids_loop_advances n : forall s r s',
  good s -> freed s = [] -> clear_invalids_loop env n s = Ok (r, s') ->
  advances s s' /\ (r = 0 -> invalidated s' = []) /\ (never_fails env -> r = 0).
Proof.
  induction n as [|n IH]; intros s r s' G Hf H; cbn [clear_invalids_loop] in H;
    rewrite (bind_eval (gets id) _ s s s eq_refl) in H; cbn [id] in H; destruct (invalidated s) as [|key l] eqn:Ei; try done.
  1,2: injection H as <- <-; split; [by apply advances_refl|]; done.
  assert (Hst : has_status key s = true) by (apply has_status_invalidated; rewrite Ei; by left).
  apply bind_Ok in H as (r1 & s1 & E1 & H).
  destruct (bo_update_advances key true s r1 s1 G Hf (good_status _ G key Hst)) as (A1 & H1 & Hn1); [done|done|].
  destruct (Z.eqb_spec r1 0) as [->|Hr]; cbn [negb] in H.
  2:{ injection H as <- <-. split; [done|]. split; [done|]. intros Hnf. by apply Hn1. }
  destruct (IH s1 r s' (ad_good _ _ A1) (ad_freed _ _ A1) H) as (A2 & H2 & Hn2).
  split; [by apply (advances_trans s s1)|done].
Qed.

Lemma clear_invalids_advances sync_r s r s' :
  good s -> freed s = [] -> amdgpu_vm_clear_invalids env sync_r s = Ok (r, s') ->
  advances s s' /\ (r = 0 -> invalidated s' = []) /\ (never_fails env -> sync_r = 0 -> r = 0).
Proof.
  intros G Hf H. unfold amdgpu_vm_clear_invalids in H. rewrite (bind_eval (gets id) _ s s s eq_refl) in H. cbn [id] in H.
  apply bind_Ok in H as (r1 & s1 & E & H). destruct (clear_invalids_loop_advances _ s r1 s1 G Hf E) as (A & H0 & Hn).
  destruct (Z.eqb_spec r1 0) as [->|Hr]; cbn [negb] in H.
  - destruct (invalidated s) as [|k l]; injection H as <- <-; auto.
  - injection H as <- <-. split; [done|]. split; [done|]. auto.
Qed.

Lemma clear_freed_good s r s' :
  good s -> amdgpu_vm_clear_freed env s = Ok (r, s') -> good s' /\ (r = 0 -> advances s s') /\ (never_fails env -> r = 0) /\
    (calm -> tracked s -> tracked s') /\ bos s' = bos s.
Proof.
  intros [W C St] E. destruct (clear_freed_ok env s r s' W E) as (l & m & c & -> & W' & Hl & Hn & HC).
  assert (G' : good (with_freed l m c s)) by (split; [done|intros Hpl; by apply HC; auto|done]).
  assert (HT : calm -> tracked s -> tracked (with_freed l m c s)) by (intros [Hnf Hpl]; by apply HC; auto).
  split; [done|]. split; [|done]. intros E0. split; [done|by apply Hl|done|done|eauto|done|done].
Qed.

(** The whole submission step, without the debugging option. *)
Lemma update_pte_advances l dr sr cr s r s' :
  good s -> (forall e k, e ∈ default [] l -> entry_bo_va e = Some k -> is_Some (bos s !! k)) ->
  amdgpu_bo_vm_update_pte env false l dr sr cr s = Ok (r, s') ->
  good s' /\ (calm -> tracked s -> tracked s') /\
  (r = 0 -> advances s s' /\ invalidated s' = [] /\
     forall e k o, e ∈ default [] l -> robj e = Some o -> entry_bo_va e = Some k -> settled s' k) /\
  (never_fails env -> dr = 0 -> sr = 0 -> cr = 0 -> (forall e, e ∈ default [] l -> entry_sync_r e = 0) -> r = 0).
Proof.
  intros G Hl H. unfold amdgpu_bo_vm_update_pte in H.
  destruct (Z.eqb_spec dr 0) as [Ed|Hd]; cbn [negb] in H; [|by injection H as <- <-].
  destruct (Z.eqb_spec sr 0) as [Es|Hs]; cbn [negb] in H; [|by injection H as <- <-].
  apply bind_Ok in H as (r1 & s1 & E1 & H). destruct (clear_freed_good s r1 s1 G E1) as (G1 & A1 & Hn1 & T1 & Eb).
  destruct (Z.eqb_spec r1 0) as [E0|Hr]; cbn [negb] in H.
  2:{ injection H as <- <-. split; [done|]. split; [done|]. split; [done|]. intros Hnf. by rewrite Hn1 in Hr. }
  specialize (A1 E0). apply bind_Ok in H as (r2 & s2 & E2 & H).
  destruct (update_entries_advances (default [] l) s1 r2 s2 G1 (ad_freed _ _ A1)) as (A2 & H2 & Hn2); [by rewrite Eb|done|].
  destruct (Z.eqb_spec r2 0) as [E02|Hr2]; cbn [negb] in H.
  2:{ injection H as <- <-. split; [apply A2|]. split; [intros Hc T; apply A2; auto|]. split; [done|]. auto. }
  apply bind_Ok in H as (r3 & s3 & E3 & H). rewrite (bind_eval (mret tt) _ s3 tt s3 eq_refl) in H. injection H as <- <-.
  destruct (clear_invalids_advances cr s2 r3 s3 (ad_good _ _ A2) (ad_freed _ _ A2) E3) as (A3 & H3 & Hn3).
  assert (A : advances s s3) by (by apply (advances_trans s s1); [|apply (advances_trans s1 s2)]).
  split; [apply A3|]. split; [apply A|]. split.
  - intros E03. split; [done|]. split; [by apply H3|].
    intros e k o He Ho Hk. apply (ad_settled _ _ A3). by apply (H2 E02 e k o).
  - auto.
Qed.

(** ** The step returns

    When the pages of all mappings are pages of their objects, no update reads
    past the nodes of an object's memory. *)

Definition fits (s : amdgpu_vm) : Prop :=
  forall k b m, bos s !! k = Some b -> m ∈ mappings b -> mapped_inside m (update_mem (env_place env k (epoch b)) false).

Lemma advances_fits s s' : advances s s' -> fits s -> fits s'.
Proof.
  intros A F k b' m Hk Hm. destruct (ad_epoch _ _ A k b' Hk) as (b & Hb & ->).
  assert (maps s k m) as (b0 & Hb0 & Hm0) by (apply (ad_maps _ _ A); by exists b'). rewrite Hb in Hb0. injection Hb0 as <-. by apply (F k b m).
Qed.

Context (Hplaces : places_ok env).

Lemma split_update_total gtt pages m flags mem s :
  places_fit mem -> mapped_inside m mem -> range_ok m -> exists r s', split_update env gtt pages m flags mem s = Ok (r, s').
Proof.
  intros Hm Hin (Hr & Hl & Ho). unfold split_update. rewrite (bind_eval (gets id) _ s s s eq_refl). cbn [id].
  destruct (split_total (env_dev env) gtt pages m flags mem (fun i => env_result env (calls s + i)) Hm Hin Hr Hl Ho) as (r & cs & E & _). rewrite E.
  eexists _, _. reflexivity.
Qed.
Lemma update_all_total pl clear l : forall s,
  places_fit (update_mem pl clear) -> Forall (fun m => range_ok m /\ mapped_inside m (update_mem pl clear)) l ->
  exists r s', update_all env pl clear l s = Ok (r, s').
Proof.
  induction l as [|m l IH]; intros s Hp Hl; cbn [update_all]; [by eexists _, _|]. apply Forall_cons in Hl as [[Hm Hin] Hl].
  destruct (split_update_total (update_gtt_flags env pl clear) (update_pages pl clear) m (update_flags env pl clear) (update_mem pl clear) s Hp Hin Hm) as (r & s1 & E).
  rewrite (bind_eval _ _ s r s1 E). destruct (r =? 0); cbn [negb]; [by apply IH|by eexists _, _].
Qed.
Lemma bo_update_total key clear s : good s -> fits s -> is_Some (bos s !! key) -> exists r s', amdgpu_vm_bo_update env key clear s = Ok (r, s').
Proof.
  intros G F [b Hb]. unfold amdgpu_vm_bo_update, the_bo. set (s0 := set_bos (<[key := spliced key b s]> (bos s)) s).
  rewrite (bind_eval _ _ s b s) by (unfold mbind, M_bind; cbn; by rewrite Hb).
  rewrite (bind_eval (gets id) _ s s s eq_refl), (bind_eval _ _ s tt s0).
  2:{ unfold s0, spliced. destruct (has_status key s); [done|]. unfold mret, M_ret. do 2 f_equal. rewrite insert_id by done. by destruct s. }
  rewrite (bind_eval _ _ s0 (spliced key b s) s0).
  2:{ unfold mbind, M_bind. cbn. by rewrite lookup_insert_eq. }
  assert (Hep : epoch (spliced key b s) = epoch b) by (unfold spliced; by destruct (has_status key s)). rewrite Hep.
  assert (Hsub : forall x, x ∈ invalids (spliced key b s) -> x ∈ mappings b) by (intros x; unfold spliced, mappings; destruct (has_status key s); cbn; set_solver).
  destruct (update_all_total (env_place env key (epoch b)) clear (invalids (spliced key b s)) s0) as (r & s1 & E); [apply Hplaces| |].
  { apply Forall_forall. intros x Hx%Hsub. split; [exact (proj1 (Forall_forall _ _) (wf_mapped_range s key b (good_wf _ G) Hb) x Hx)|].
    destruct clear; [done|]. by apply (F key b x). }
  rewrite (bind_eval _ _ s0 r s1 E). destruct (r =? 0); cbn [negb]; by eexists _, _.
Qed.
Lemma clear_freed_total n : forall s, (length (freed s) <= n)%nat -> Forall range_ok (freed s) -> exists r s', clear_freed_loop env n s = Ok (r, s').
Proof.
  induction n as [|n IH]; intros s Hn Hr; cbn [clear_freed_loop]; rewrite (bind_eval (gets id) _ s s s eq_refl); cbn [id];
    destruct (freed s) as [|f l] eqn:Ef; cbn [length] in Hn; try lia; try by eexists _, _.
  apply Forall_cons in Hr as [Hf Hr]. rewrite (bind_eval (modify _) _ s tt _ eq_refl).
  destruct (split_update_total 0 NoPages f 0 None (set_freed l s) I I Hf) as (r & s1 & E). rewrite (bind_eval _ _ _ r s1 E).
  destruct (Z.eqb_spec r 0); cbn [negb]; [|by eexists _, _]. apply split_update_run in E as (t & c & -> & _). apply IH; cbn; [lia|done].
Qed.
Lemma update_entries_total l : forall s,
  good s -> fits s -> freed s = [] -> (forall e k, e ∈ l -> entry_bo_va e = Some k -> is_Some (bos s !! k)) -> exists r s', update_entries env l s = Ok (r, s').
Proof.
  induction l as [|e l IH]; intros s G F Hf Hl; cbn [update_entries]; [by eexists _, _|].
  assert (Hl' : forall e0 k, e0 ∈ l -> entry_bo_va e0 = Some k -> is_Some (bos s !! k)) by (intros e0 k He; apply Hl; by right).
  destruct (robj e); [|by apply IH]. destruct (entry_bo_va e) as [key|] eqn:Ek; [|by apply IH].
  assert (Hk : is_Some (bos s !! key)) by (by apply (Hl e); [left|]). destruct (bo_update_total key false s G F Hk) as (r & s1 & E). rewrite (bind_eval _ _ s r s1 E).
  destruct (r =? 0); cbn [negb]; [|by eexists _, _]. destruct (entry_sync_r e =? 0); cbn [negb]; [|by eexists _, _].
  destruct (bo_update_advances key false s r s1 G Hf Hk ltac:(done) E) as (A & _). apply IH; [apply A|by apply (advances_fits s)|apply A|].
  intros e0 k He0 Ek0. apply (ad_dom _ _ A). by apply (Hl' e0).
Qed.
Lemma clear_invalids_total n : forall s, good s -> fits s -> freed s = [] -> (length (invalidated s) <= n)%nat -> exists r s', clear_invalids_loop env n s = Ok (r, s').
Proof.
  induction n as [|n IH]; intros s G F Hf Hn; cbn [clear_invalids_loop]; rewrite (bind_eval (gets id) _ s s s eq_refl); cbn [id];
    destruct (invalidated s) as [|key l] eqn:Ei; cbn [length] in Hn; try lia; try by eexists _, _.
  assert (Hst : has_status key s = true) by (apply has_status_invalidated; rewrite Ei; by left).
  destruct (bo_update_total key true s G F (good_status _ G key Hst)) as (r & s1 & E). rewrite (bind_eval _ _ s r s1 E).
  destruct (Z.eqb_spec r 0) as [->|]; cbn [negb]; [|by eexists _, _].
  destruct (bo_update_advances key true s 0 s1 G Hf (good_status _ G key Hst) ltac:(done) E) as (A & H1 & _). apply IH; [apply A|by apply (advances_fits s)|apply A|].
  destruct (H1 eq_refl) as [-> _]. rewrite Ei, filter_cons, decide_False by naive_solver. pose proof (length_filter (fun k => k <> key) l). lia.
Qed.
Lemma update_pte_total l dr sr cr s :
  good s -> fits s -> (forall e k, e ∈ default [] l -> entry_bo_va e = Some k -> is_Some (bos s !! k)) ->
  exists r s', amdgpu_bo_vm_update_pte env false l dr sr cr s = Ok (r, s').
Proof.
  intros G F Hl. unfold amdgpu_bo_vm_update_pte. destruct (negb (dr =? 0)); [by eexists _, _|]. destruct (negb (sr =? 0)); [by eexists _, _|].
  destruct (clear_freed_total (length (freed s)) s) as (r1 & s1 & E1); [lia|apply Forall_forall, (co_range _ _ (good_coherent _ G Hplaces))|].
  assert (E1' : amdgpu_vm_clear_freed env s = Ok (r1, s1)) by (unfold amdgpu_vm_clear_freed; by rewrite (bind_eval (gets id) _ s s s eq_refl)).
  rewrite (bind_eval _ _ s r1 s1 E1'). destruct (clear_freed_good s r1 s1 G E1') as (G1 & A1 & _ & _ & Eb). destruct (Z.eqb_spec r1 0) as [->|]; cbn [negb]; [|by eexists _, _].
  specialize (A1 eq_refl). pose proof (advances_fits s s1 A1 F) as F1.
  destruct (update_entries_total (default [] l) s1 G1 F1 (ad_freed _ _ A1)) as (r2 & s2 & E2); [by rewrite Eb|].
  rewrite (bind_eval _ _ s1 r2 s2 E2). destruct (Z.eqb_spec r2 0) as [->|]; cbn [negb]; [|by eexists _, _].
  destruct (update_entries_advances (default [] l) s1 0 s2 G1 (ad_freed _ _ A1) ltac:(by rewrite Eb) E2) as (A2 & _).
  destruct (clear_invalids_total (length (invalidated s2)) s2 (ad_good _ _ A2) (advances_fits s1 s2 A2 F1) (ad_freed _ _ A2)) as (r3 & s3 & E3); [lia|].
  assert (exists r4, amdgpu_vm_clear_invalids env cr s2 = Ok (r4, s3)) as [r4 E4].
  { unfold amdgpu_vm_clear_invalids. rewrite (bind_eval (gets id) _ s2 s2 s2 eq_refl). cbn [id]. rewrite (bind_eval _ _ s2 r3 s3 E3).
    destruct (r3 =? 0); cbn [negb]; [|by eexists]. destruct (invalidated s2); by eexists. }
  rewrite (bind_eval _ _ s2 r4 s3 E4). by eexists _, _.
Qed.
End submit.
