(* ===== verification/VaMap.v ===== *)
(** * Address spaces: mapping, unmapping and the life of objects

    What [amdgpu_vm_bo_map], [amdgpu_vm_bo_unmap], [amdgpu_vm_bo_rmv] and the
    handlers of handles and moves do to the invariant of [VaInv].  None of them
    touches the page tables' entries. *)

From stdpp Require Import base numbers list gmap.
From S2P Require Import Prelude CMonad Engines VmEngine PageTable PageDir SplitMapping VaSpace VaInv VaUpdate VaSubmit.

Lemma coherent_shrink max_pfn bs env s s' :
  wf max_pfn bs s -> coherent env s -> pt s' = pt s ->
  (forall k b' x, bos s' !! k = Some b' -> x ∈ valids b' -> exists b, bos s !! k = Some b /\ x ∈ valids b /\
     (has_status k s' = false -> epoch b' = epoch b /\ has_status k s = false)) ->
  (forall k, k ∈ cleared s' -> k ∈ cleared s) ->
  (forall f, f ∈ freed s' -> f ∈ freed s \/ exists k, translates s k f /\ forall k', ~ translates s' k' f) -> coherent env s'.
Proof.
  intros W C Ep Hb Hc Hf.
  assert (Hm : forall k x, translates s k x -> maps s k x).
  { intros k x (b & Hk & Hx). exists b. split; [done|]. apply elem_of_mappings. by left. }
  split.
  - intros f Hff. destruct (Hf f Hff) as [Hf0|(k' & Hk' & _)]; [by apply (co_range _ _ C)|]. apply (wf_range _ _ _ W), (wf_va _ _ _ W). exists k'. by apply Hm.
  - intros f k x p Hff (b' & Hk & Hx) Hin Hin'. destruct (Hb k b' x Hk Hx) as (b & Hk0 & Hx0 & _).
    destruct (Hf f Hff) as [Hf0|(k' & Hk' & Hn)]; [by apply (co_freed _ _ C f k x p); [|exists b| |]|].
    destruct (wf_page_owner s k' k f x p W) as [-> ->]; [by apply Hm|by apply Hm; exists b|done|done|].
    apply (Hn k). by exists b'.
  - intros k b' x p Hk Hs Hx Hin. rewrite Ep. destruct (Hb k b' x Hk Hx) as (b & Hk0 & Hx0 & [Ee Hs0]); [done|].
    rewrite (co_current _ _ C k b x p Hk0 Hs0 Hx0 Hin). unfold entry_of. by rewrite Ee.
  - intros k b' x p Hk Hs Hx Hin. rewrite Ep. destruct (Hb k b' x Hk Hx) as (b & Hk0 & Hx0 & _).
    apply (co_cleared _ _ C k b x p); auto.
Qed.

Lemma tracked_shrink s s' :
  tracked s -> pt s' = pt s -> (forall f, f ∈ freed s -> f ∈ freed s') ->
  (forall k x, translates s k x -> translates s' k x \/ x ∈ freed s') -> tracked s'.
Proof.
  intros T Ep Hf Hx p t Ht. rewrite Ep in Ht. destruct (T p t Ht) as [(k & x & Hx0 & Hin)|(f & Hf0 & Hin)].
  - destruct (Hx _ _ Hx0); [left|right]; eauto.
  - right. eauto.
Qed.

Lemma the_bo_run key s b : bos s !! key = Some b -> the_bo key s = Ok (b, s).
Proof. intros Hb. unfold the_bo, mbind, M_bind. cbn. by rewrite Hb. Qed.

Lemma find_start_elem a l m : find_start a l = Some m -> m ∈ l.
Proof. intros E. apply find_some in E as [E _]. by apply list_elem_of_In. Qed.

Lemma elem_of_remove_mapping x m l : x ∈ remove_mapping m l <-> x ∈ l /\ mid x <> mid m.
Proof. unfold remove_mapping. rewrite list_elem_of_filter. tauto. Qed.

Section map.
Context {max_pfn bs : Z} {env : vm_env}.
Local Notation wf := (wf max_pfn bs).
Local Notation good := (good max_pfn bs env).

(** [b'] is [b] without the mappings [dead]. *)
Definition drops (dead : list va_mapping) (b b' : amdgpu_bo_va) : Prop :=
  (forall x, x ∈ valids b' <-> x ∈ valids b /\ x ∉ dead) /\ (forall x, x ∈ invalids b' <-> x ∈ invalids b /\ x ∉ dead) /\
  epoch b' = epoch b.

Lemma drops_maps s s' key b b' dead k x :
  wf s -> bos s !! key = Some b -> bos s' = <[key := b']> (bos s) -> drops dead b b' ->
  (forall x, x ∈ dead -> x ∈ mappings b) -> maps s' k x <-> maps s k x /\ x ∉ dead.
Proof.
  intros W Hb Eb (Hv & Hi & _) Hd. unfold maps. rewrite Eb. destruct (decide (k = key)) as [->|Hne].
  - rewrite lookup_insert_eq, Hb. setoid_rewrite elem_of_mappings. split.
    + intros (c & [= <-] & [H|H]); [apply Hv in H as [??]|apply Hi in H as [??]]; eauto.
    + intros [(c & [= <-] & [H|H]) Hn]; exists b'; (split; [done|]); [left; by apply Hv|right; by apply Hi].
  - rewrite lookup_insert_ne by done. split; [|by intros [? _]]. intros H. split; [done|]. intros Hx.
    destruct Hne. apply (wf_owner _ _ _ W k key x); [done|]. exists b. auto.
Qed.

Definition dropped (key : Z) (b' : amdgpu_bo_va) (dead fr : list va_mapping) (s : amdgpu_vm) : amdgpu_vm :=
  Vm (fold_left (fun l m => remove_mapping m l) dead (va s)) (<[key := b']> (bos s)) (fr ++ freed s)
    (invalidated s) (cleared s) (page_tables s) (max_pde_used s) (pt s) (next_mid s) (calls s).

(** Mappings of an object go; those that reached the page tables wait. *)
Lemma good_dropped key b b' dead fr s :
  good s -> bos s !! key = Some b -> drops dead b b' -> (forall x, x ∈ dead -> x ∈ mappings b) ->
  (forall f, f ∈ fr -> f ∈ valids b /\ f ∈ dead) -> good (dropped key b' dead fr s).
Proof.
  intros [W C St] Hb HD Hd Hfr.
  pose proof (fun k x => drops_maps s (dropped key b' dead fr s) key b b' dead k x W Hb eq_refl HD Hd) as Hm.
  destruct HD as (Hv & Hi & He). split.
  - apply (wf_remove s _ key dead); [done| |done|done|done|done|exact Hm|].
    { intros x Hx. exists b. auto. }
    intros k c x Hk. cbn in Hk. destruct (decide (k = key)) as [->|Hne].
    + rewrite lookup_insert_eq in Hk. injection Hk as <-. rewrite Hv, Hi. intros [? _] [? _]. by apply (wf_split _ _ _ W key b x).
    + rewrite lookup_insert_ne in Hk by done. by apply (wf_split _ _ _ W k).
  - intros Hpl. apply (coherent_shrink max_pfn bs env s); [done|by apply C|done| |done|]; cbn.
    + intros k c x Hk Hx. destruct (decide (k = key)) as [->|Hne].
      * rewrite lookup_insert_eq in Hk. injection Hk as <-. exists b. apply Hv in Hx as [? _]. auto.
      * rewrite lookup_insert_ne in Hk by done. exists c. auto.
    + intros f Hf. apply elem_of_app in Hf as [Hf|Hf]; [right|by left]. destruct (Hfr f Hf) as [Hfv Hfd].
      exists key. split; [by exists b|]. intros k' (c & Hk & Hx).
      assert (maps (dropped key b' dead fr s) k' f) as Hmf by (exists c; split; [done|]; apply elem_of_mappings; by left).
      by apply Hm in Hmf as [_ ?].
  - intros k Hk. cbn. destruct (decide (k = key)) as [->|Hne]; [rewrite lookup_insert_eq; by eexists|].
    rewrite lookup_insert_ne by done. by apply St.
Qed.

Lemma tracked_dropped key b b' dead fr s :
  bos s !! key = Some b -> drops dead b b' -> (forall x, x ∈ valids b -> x ∈ dead -> x ∈ fr) ->
  tracked s -> tracked (dropped key b' dead fr s).
Proof.
  intros Hb (Hv & _ & _) Hfr T. apply (tracked_shrink s); [done|done| |].
  - intros f Hf. cbn. apply elem_of_app. by right.
  - intros k x (c & Hk & Hx). destruct (decide (k = key)) as [->|Hne].
    + rewrite Hb in Hk. injection Hk as <-. destruct (decide (x ∈ dead)) as [Hd|Hd].
      * right. cbn. apply elem_of_app. left. auto.
      * left. exists b'. cbn. rewrite lookup_insert_eq. split; [done|]. by apply Hv.
    + left. exists c. cbn. by rewrite lookup_insert_ne.
Qed.

(** ** [amdgpu_vm_bo_unmap] *)

Lemma remove_drops s k b m l :
  wf s -> bos s !! k = Some b -> m ∈ mappings b -> (forall x, x ∈ l -> x ∈ mappings b) ->
  forall x, x ∈ remove_mapping m l <-> x ∈ l /\ x ∉ [m].
Proof.
  intros W Hk Hm Hl x. rewrite elem_of_remove_mapping, list_elem_of_singleton. split; intros [Hx H]; (split; [done|]).
  - by intros ->.
  - intros E. apply H. apply (wf_mid _ _ _ W); [| |done]; apply (wf_va _ _ _ W); exists k, b; auto.
Qed.

Lemma unmap_run key saddr s b :
  bos s !! key = Some b -> good s ->
  exists r s', amdgpu_vm_bo_unmap key saddr s = Ok (r, s') /\
    (s' = s /\ r = - ENOENT \/
     r = 0 /\ exists m b' fr, m ∈ mappings b /\ it_start m = saddr / AMDGPU_GPU_PAGE_SIZE /\
       s' = dropped key b' [m] fr s /\ drops [m] b b' /\
       (m ∈ valids b -> fr = [m]) /\ (m ∉ valids b -> fr = [])).
Proof.
  intros Hb [W _ _]. unfold amdgpu_vm_bo_unmap.
  rewrite (bind_eval (the_bo key) _ s b s (the_bo_run key s b Hb)). cbv zeta.
  destruct (find_start _ (valids b)) as [m|] eqn:E1.
  - assert (Hm : m ∈ valids b) by by eapply find_start_elem.
    exists 0. eexists. split; [reflexivity|]. right. split; [done|].
    exists m, (BoVa (remove_mapping m (valids b)) (invalids b) (ref_count b) (bo_size b) (epoch b)), [m].
    split; [apply elem_of_mappings; by left|]. split; [by apply find_some in E1 as [_ E1%Z.eqb_eq]|].
    split; [done|]. split; [|by split]. split; [|split; [|done]]; cbn.
    + apply (remove_drops s key b m _ W Hb); [apply elem_of_mappings; by left|]. intros x Hx. apply elem_of_mappings. by left.
    + intros x. rewrite list_elem_of_singleton. split; [|by intros []]. intros Hx. split; [done|]. intros ->.
      by apply (wf_split _ _ _ W key b m).
  - destruct (find_start _ (invalids b)) as [m|] eqn:E2; [|by exists (- ENOENT), s; split; [|left]].
    assert (Hm : m ∈ invalids b) by by eapply find_start_elem.
    assert (Hnv : m ∉ valids b) by (intros Hv; by apply (wf_split _ _ _ W key b m)).
    exists 0. eexists. split; [reflexivity|]. right. split; [done|].
    exists m, (BoVa (valids b) (remove_mapping m (invalids b)) (ref_count b) (bo_size b) (epoch b)), [].
    split; [apply elem_of_mappings; by right|]. split; [by apply find_some in E2 as [_ E2%Z.eqb_eq]|].
    split; [done|]. split; [|by split]. split; [|split; [|done]]; cbn.
    + intros x. rewrite list_elem_of_singleton. split; [|by intros []]. intros Hx. split; [done|]. by intros ->.
    + apply (remove_drops s key b m _ W Hb); [apply elem_of_mappings; by right|]. intros x Hx. apply elem_of_mappings. by right.
Qed.

Lemma unmap_good key saddr s :
  good s -> is_Some (bos s !! key) ->
  exists r s', amdgpu_vm_bo_unmap key saddr s = Ok (r, s') /\ good s' /\ (tracked s -> tracked s') /\
    is_Some (bos s' !! key).
Proof.
  intros G [b Hb]. destruct (unmap_run key saddr s b Hb G) as (r & s' & E & [[-> _]|(_ & m & b' & fr & Hm & _ & -> & HD & H1 & H2)]).
  { exists r, s. rewrite Hb. eauto. }
  exists r. eexists. split; [exact E|]. split; [|split].
  - apply (good_dropped key b); [done|done|done| |].
    + intros x Hx%list_elem_of_singleton. by subst.
    + intros f Hf. destruct (decide (m ∈ valids b)) as [Hv|Hv]; [rewrite H1 in Hf by done|rewrite H2 in Hf by done; by apply elem_of_nil in Hf].
      split; [|done]. apply list_elem_of_singleton in Hf. by subst.
  - apply (tracked_dropped key b); [done|done|]. intros x Hx Hxm%list_elem_of_singleton. subst x. rewrite H1 by done. by left.
  - cbn. rewrite lookup_insert_eq. by eexists.
Qed.

(** ** [amdgpu_vm_bo_map] *)

(** [T] has the page tables of [T0] and perhaps more. *)
Definition extends (T0 T : list amdgpu_vm_pt) : Prop :=
  length T = length T0 /\ forall j o a, T0 !! j = Some (VmPt (Some o) a) -> T !! j = Some (VmPt (Some o) a).

Lemma alloc_tables_run n i mk s :
  0 <= i -> i + Z.of_nat n <= Z.of_nat (length (page_tables s)) ->
  exists r T, alloc_tables n i mk s = Ok (r, set_tables T (max_pde_used s) s) /\ extends (page_tables s) T /\
    (r = 0 -> forall j, i <= j < i + Z.of_nat n -> exists o a, T !! Z.to_nat j = Some (VmPt (Some o) a)).
Proof.
  revert i s. induction n as [|n IH]; intros i s Hi Hlen; cbn [alloc_tables].
  { exists 0, (page_tables s). split; [by destruct s|]. split; [done|]. intros _ j Hj. lia. }
  destruct (lookup_lt_is_Some_2 (page_tables s) (Z.to_nat i)) as [e He]; [lia|].
  rewrite (bind_eval (gets id) _ s s s eq_refl). cbn [id].
  rewrite (bind_eval (deref _) _ s e s) by (by rewrite He). destruct (pt_bo e) as [o|] eqn:Eo.
  - destruct (IH (i + 1) s) as (r & T & E & [HL HX] & H0); [lia|lia|]. exists r, T. split; [done|]. split; [done|].
    intros E0 j Hj. destruct (decide (j = i)) as [->|Hne]; [|apply H0; [done|lia]].
    exists o, (pt_addr e). apply HX. rewrite He. destruct e. cbn in Eo. by rewrite Eo.
  - cbv zeta.
    assert (Hfail : forall r, r <> 0 -> exists r0 T, mret (M := M amdgpu_vm) r s = Ok (r0, set_tables T (max_pde_used s) s) /\ extends (page_tables s) T /\
      (r0 = 0 -> forall j, i <= j < i + Z.of_nat (S n) -> exists o a, T !! Z.to_nat j = Some (VmPt (Some o) a))).
    { intros r Hr. exists r, (page_tables s). split; [by destruct s|]. by split. }
    destruct (Z.eqb_spec (create_r (mk i)) 0) as [_|Hr]; cbn [negb]; [|by apply Hfail].
    destruct (Z.eqb_spec (clear_r (mk i)) 0) as [_|Hr]; cbn [negb]; [|by apply Hfail].
    destruct (match shadow_offset (created (mk i)) with Some _ => _ | None => _ end) eqn:Esh.
    { apply Hfail. destruct (shadow_offset _); [|done]. apply negb_true_iff, Z.eqb_neq in Esh. done. }
    rewrite (bind_eval (modify _) _ s tt _ eq_refl).
    destruct (IH (i + 1) (set_tables (<[Z.to_nat i := VmPt (Some (created (mk i))) 0]> (page_tables s)) (max_pde_used s) s))
      as (r & T & E & [HL HX] & H0); [lia|cbn; rewrite length_insert; lia|].
    exists r, T. split; [by rewrite E|]. cbn in HL, HX. rewrite length_insert in HL. split; [split; [done|]|].
    + intros j o a Hj. apply HX. rewrite list_lookup_insert_ne; [done|]. intros <-. rewrite He in Hj. injection Hj as ->. done.
    + intros E0 j Hj. destruct (decide (j = i)) as [->|Hne]; [|apply H0; [done|lia]].
      eexists _, _. apply HX. apply list_lookup_insert_eq. lia.
Qed.

Definition grown (T : list amdgpu_vm_pt) (used : Z) (s : amdgpu_vm) : amdgpu_vm :=
  Vm (va s) (bos s) (freed s) (invalidated s) (cleared s) T used (pt s) (S (next_mid s)) (calls s).
Definition mapped (key : Z) (b : amdgpu_bo_va) (m : va_mapping) (T : list amdgpu_vm_pt) (used : Z) (s : amdgpu_vm) : amdgpu_vm :=
  Vm (m :: va s) (<[key := BoVa (valids b) (m :: invalids b) (ref_count b) (bo_size b) (epoch b)]> (bos s)) (freed s)
    (invalidated s) (cleared s) T used (pt s) (S (next_mid s)) (calls s).

Lemma grown_good T used s : good s -> extends (page_tables s) T -> max_pde_used s <= used -> good (grown T used s).
Proof.
  intros [W C St] [HL HX] Hu. split; [|intros Hpl; apply (coherent_shrink max_pfn bs env s); [done|by apply C|done| |done|by left]; eauto|done].
  destruct W as [Wv Wo Ws Wm Wn Wd Wr Wt Wu Wl]. split; try done; cbn.
  - intros m Hm. specialize (Wn m Hm). lia.
  - intros m p Hm Hin. destruct (Wt m p Hm Hin) as (o & a & H). exists o, a. by apply HX.
  - intros m p Hm Hin. specialize (Wu m p Hm Hin). lia.
  - by rewrite HL.
Qed.

Lemma mapped_good key b m T used s :
  good s -> bos s !! key = Some b -> extends (page_tables s) T -> max_pde_used s <= used ->
  mid m = next_mid s -> range_ok m ->
  (forall p, inside m p -> (exists o a, T !! Z.to_nat (Z.shiftr p bs) = Some (VmPt (Some o) a)) /\ Z.shiftr p bs <= used) ->
  (forall x p, x ∈ va s -> inside x p -> ~ inside m p) -> good (mapped key b m T used s).
Proof.
  intros [W C St] Hb [HL HX] Hu Hm Hr Hp Hdis.
  assert (Hnew : m ∉ va s) by (intros H; pose proof (wf_next _ _ _ W m H); lia).
  assert (Hmaps : forall k x, maps (mapped key b m T used s) k x <-> maps s k x \/ k = key /\ x = m).
  { intros k x. unfold maps, mapped. cbn. destruct (decide (k = key)) as [->|Hne].
    - rewrite lookup_insert_eq, Hb. setoid_rewrite elem_of_mappings. cbn. split.
      + intros (c & [= <-] & [H|H]); cbn in H; [by left; exists b; auto|]. apply elem_of_cons in H as [->|H]; eauto.
      + intros [(c & [= <-] & [H|H])|[_ ->]]; (eexists; split; [done|]); cbn; rewrite ?elem_of_cons; auto.
    - rewrite lookup_insert_ne by done. naive_solver. }
  split.
  - destruct W as [Wv Wo Ws Wm Wn Wd Wr Wt Wu Wl].
    assert (Hnm : forall k, ~ maps s k m) by (intros k H; apply Hnew, Wv; eauto).
    split; cbn [mapped va next_mid page_tables max_pde_used]; try setoid_rewrite elem_of_cons.
    + intros x. setoid_rewrite Hmaps. rewrite Wv. naive_solver.
    + intros k k' x H1%Hmaps H2%Hmaps. destruct H1 as [H1|[-> ->]], H2 as [H2|[-> H2]]; subst; eauto; by edestruct Hnm.
    + intros k c x Hk. cbn in Hk. destruct (decide (k = key)) as [->|Hne].
      * rewrite lookup_insert_eq in Hk. injection Hk as <-. cbn. rewrite elem_of_cons. intros Hx [->|Hx']; [|by eapply Ws].
        apply (Hnm key). exists b. split; [done|]. apply elem_of_mappings. by left.
      * rewrite lookup_insert_ne in Hk by done. by apply (Ws k).
    + intros x y [->|Hx] [->|Hy] E; [done| | |by apply Wm]; [apply Wn in Hy|apply Wn in Hx]; lia.
    + intros x [->|Hx]; [lia|]. apply Wn in Hx. lia.
    + intros x y p [->|Hx] [->|Hy] H1 H2; [done|by destruct (Hdis y p)|by destruct (Hdis x p)|by eapply Wd].
    + intros x [->|Hx]; auto.
    + intros x p [->|Hx] Hin; [by apply Hp|]. destruct (Wt x p Hx Hin) as (o & a & H). exists o, a. by apply HX.
    + intros x p [->|Hx] Hin; [by apply Hp|]. specialize (Wu x p Hx Hin). lia.
    + by rewrite HL.
  - intros Hpl. apply (coherent_shrink max_pfn bs env s); [done|by apply C|done| |done|by left]. intros k c x Hk Hx. cbn in Hk.
    destruct (decide (k = key)) as [->|Hne].
    + rewrite lookup_insert_eq in Hk. injection Hk as <-. exists b. auto.
    + rewrite lookup_insert_ne in Hk by done. exists c. auto.
  - intros k Hk. cbn. destruct (decide (k = key)) as [->|Hne]; [rewrite lookup_insert_eq; by eexists|].
    rewrite lookup_insert_ne by done. by apply St.
Qed.

Lemma remove_fresh m l : (forall x, x ∈ l -> (mid x < mid m)%nat) -> remove_mapping m (m :: l) = l.
Proof.
  intros H. unfold remove_mapping. rewrite filter_cons, decide_False by naive_solver.
  induction l as [|x l IH]; [done|]. rewrite filter_cons, decide_True.
  - f_equal. apply IH. intros y Hy. apply H. by right.
  - specialize (H x (list_elem_of_here _ _)). lia.
Qed.

Lemma error_free_run key b m r T used s :
  good s -> bos s !! key = Some b -> mid m = next_mid s ->
  error_free key m r (mapped key b m T used s) = Ok (r, grown T used s).
Proof.
  intros G Hb Hm. pose proof (good_wf _ _ _ _ G) as W. unfold error_free.
  assert (Hnew : forall x, x ∈ va s -> (mid x < mid m)%nat) by (intros x Hx; rewrite Hm; by apply (wf_next _ _ _ W)).
  rewrite (bind_eval (the_bo key) _ _ _ _ (the_bo_run key _ _ (lookup_insert_eq _ _ _))).
  cbn [valids invalids ref_count bo_size epoch]. rewrite remove_fresh.
  - unfold mbind, M_bind, mret, M_ret, put_bo, modify. do 2 f_equal. unfold set_va, set_bos, mapped, grown.
    cbn [va bos freed invalidated cleared page_tables max_pde_used pt next_mid calls].
    rewrite insert_insert_eq, (remove_fresh m (va s) Hnew). f_equal.
    rewrite <- (insert_id (bos s) key b) at 2 by done. f_equal. by destruct b.
  - intros x Hx. apply Hnew, (wf_va _ _ _ W). exists key, b. split; [done|]. apply elem_of_mappings. by right.
Qed.

Lemma iter_first_none l a b p :
  interval_tree_iter_first l a b = None -> a <= p <= b -> forall x, x ∈ l -> ~ inside x p.
Proof.
  intros H Hp x Hx Hin. assert (overlaps x a b = false) as Ho.
  { apply (find_none _ _ H). by apply list_elem_of_In. }
  unfold overlaps in Ho. unfold inside in Hin. lia.
Qed.

(** The last page a call would map. *)
Definition last_page (saddr size : Z) : Z := u64 (u64 (saddr + size) - 1) / AMDGPU_GPU_PAGE_SIZE.

Lemma bo_map_run key saddr offset size flags km mk b s :
  good s -> bos s !! key = Some b -> is_u64 saddr -> is_u64 offset -> 0 <= bs -> is_u32 max_pfn ->
  let m := VaMapping (next_mid s) (saddr / AMDGPU_GPU_PAGE_SIZE) (last_page saddr size) offset flags in
  match amdgpu_vm_bo_map max_pfn bs key saddr offset size flags km mk s with
  | Ok (r, s') =>
      r <> 0 /\ s' = s \/
      exists T used, extends (page_tables s) T /\ max_pde_used s <= used /\
        (r <> 0 /\ s' = grown T used s \/
         r = 0 /\ s' = mapped key b m T used s /\ good s' /\ Z.land saddr 4095 = 0 /\ u64 (offset + size) <= bo_size b)
  | Fault => amdgpu_vm_num_pdes max_pfn bs <= Z.shiftr (last_page saddr size) bs /\ u32 (last_page saddr size) < max_pfn
  | NoFuel => False
  end.
Proof.
  intros G Hb Hsa Hof Hbs Hmax m. unfold amdgpu_vm_bo_map.
  rewrite (bind_eval (the_bo key) _ s b s (the_bo_run key s b Hb)). cbv zeta.
  destruct (_ || _ || _ || _) eqn:Eal; [unfold mret, M_ret; by left|]. destruct ((_ <=? saddr) || _) eqn:Efit; [unfold mret, M_ret; by left|].
  fold (last_page saddr size). destruct (Z.leb_spec max_pfn (u32 (last_page saddr size))) as [Hlim|Hlim]; [unfold mret, M_ret; by left|].
  rewrite (bind_eval (gets id) _ s s s eq_refl). cbn [id].
  destruct (interval_tree_iter_first _ _ _) eqn:Eit; [unfold mret, M_ret; by left|]. destruct km; cbn [negb]; [|unfold mret, M_ret; by left].
  fold m. rewrite (bind_eval (modify _) _ s tt _ eq_refl).
  rewrite (bind_eval (put_bo _ _) _ _ tt _ eq_refl), (bind_eval (modify _) _ _ tt _ eq_refl).
  destruct (Z.leb_spec (amdgpu_vm_num_pdes max_pfn bs) (Z.shiftr (last_page saddr size) bs)) as [Hpde|Hpde]; [done|].
  set (last := Z.shiftr (last_page saddr size) bs) in *.
  set (used := if max_pde_used s <? last then u32 last else max_pde_used s).
  rewrite (bind_eval _ _ _ tt (mapped key b m (page_tables s) used s)).
  2:{ unfold used. destruct (max_pde_used s <? last); [done|]. unfold mret, M_ret. by destruct s. }
  assert (Hpage : saddr / AMDGPU_GPU_PAGE_SIZE <= last_page saddr size < 4503599627370496 /\ 0 <= saddr / AMDGPU_GPU_PAGE_SIZE).
  { unfold last_page, AMDGPU_GPU_PAGE_SIZE in *. clear -Efit Hsa. cint. }
  assert (Hlast : 0 <= Z.shiftr (saddr / AMDGPU_GPU_PAGE_SIZE) bs <= last).
  { unfold last. rewrite !Z.shiftr_div_pow2 by done. pose proof (Z.pow_pos_nonneg 2 bs).
    split; [apply Z.div_pos|apply Z.div_le_mono]; lia. }
  assert (Hused : max_pde_used s <= used /\ last <= used).
  { unfold used. assert (amdgpu_vm_num_pdes max_pfn bs <= max_pfn).
    { unfold amdgpu_vm_num_pdes. rewrite Z.shiftr_div_pow2 by done. unfold is_u32 in Hmax.
      apply Z.div_le_upper_bound; [|nia]. lia. }
    destruct (Z.ltb_spec (max_pde_used s) last); [|lia]. rewrite u32_small by (unfold is_u32 in *; lia). lia. }
  destruct (alloc_tables_run (Z.to_nat (last - Z.shiftr (saddr / AMDGPU_GPU_PAGE_SIZE) bs + 1))
    (Z.shiftr (saddr / AMDGPU_GPU_PAGE_SIZE) bs) mk (mapped key b m (page_tables s) used s)) as (r & T & E & HX & H0).
  { lia. }
  { cbn. rewrite (wf_length _ _ _ (good_wf _ _ _ _ G)). lia. }
  rewrite (bind_eval _ _ _ _ _ E). destruct (Z.eqb_spec r 0) as [->|Hr].
  - right. exists T, used. split; [done|]. split; [lia|]. right. split; [done|]. split; [done|].
    split; [|split; [|lia]].
    + apply (mapped_good key b m T used s); [done|done|done|lia|done|unfold range_ok, is_u64 in *; cbn; lia| |].
      * intros p Hp. unfold inside in Hp. cbn in Hp.
        assert (Z.shiftr (saddr / AMDGPU_GPU_PAGE_SIZE) bs <= Z.shiftr p bs <= last).
        { unfold last. rewrite !Z.shiftr_div_pow2 by done. pose proof (Z.pow_pos_nonneg 2 bs). split; apply Z.div_le_mono; lia. }
        split; [|lia]. apply H0; [done|]. lia.
      * intros x p Hx Hin Hp. unfold inside in Hp. cbn in Hp. by apply (iter_first_none _ _ _ p Eit Hp x Hx).
    + change AMDGPU_GPU_PAGE_MASK with 4095 in Eal. lia.
  - change (set_tables T _ _) with (mapped key b m T used s).
    rewrite (error_free_run key b m r T used s G Hb eq_refl).
    right. exists T, used. split; [done|]. split; [lia|]. by left.
Qed.
End map.
