(* ===== verification/VaSpec.v ===== *)
(** * Address spaces: what user space and command submission can rely on

    [vm_step] interleaves the entry points: opening and closing handles, the
    ioctl that maps and unmaps, command submission, and moves of objects. *)

From stdpp Require Import base numbers list gmap relations.
From S2P Require Import Prelude CMonad Engines VmEngine PageTable PageDir SplitMapping VaSpace VaInv VaUpdate VaSubmit VaMap.

Section steps.
Context (max_pfn bs : Z) (env : vm_env).

(** The space [amdgpu_vm_init] leaves. *)
Definition init_vm : amdgpu_vm :=
  Vm [] ∅ [] [] [] (replicate (Z.to_nat (amdgpu_vm_num_pdes max_pfn bs)) (VmPt None 0)) 0 ∅ 0 0.

Inductive vm_step : amdgpu_vm -> amdgpu_vm -> Prop :=
  | step_open key size place r ok v s s' :
      amdgpu_gem_object_open key size place r ok s = Ok (v, s') -> vm_step s s'
  | step_close key r v s s' : amdgpu_gem_object_close key r s = Ok (v, s') -> vm_step s s'
  | step_va enabled debug args a v s s' :
      is_u64 (va_address args) -> is_u64 (offset_in_bo args) ->
      amdgpu_gem_va_ioctl max_pfn bs env enabled debug args a s = Ok (v, s') -> vm_step s s'
  | step_cs debug l dr sr cr v s s' :
      (forall e k, e ∈ default [] l -> entry_bo_va e = Some k -> is_Some (bos s !! k)) ->
      amdgpu_bo_vm_update_pte env debug l dr sr cr s = Ok (v, s') -> vm_step s s'
  | step_move key v s s' : bo_move key s = Ok (v, s') -> vm_step s s'.
End steps.

Section spec.
Context {max_pfn bs : Z} {env : vm_env}.
Context (Hbs : 0 <= bs) (Hmax : is_u32 max_pfn).
Local Notation good := (good max_pfn bs env).

(** What every entry point keeps. *)
Definition keeps_space (s s' : amdgpu_vm) : Prop := good s' /\ (calm env -> tracked s -> tracked s').

Lemma keeps_space_refl s : good s -> keeps_space s s.
Proof. by split. Qed.
Lemma keeps_space_trans s1 s2 s3 : keeps_space s1 s2 -> keeps_space s2 s3 -> keeps_space s1 s3.
Proof. intros [_ H1] [G H2]. split; auto. Qed.

(** ** Objects come, move and go *)

Lemma keeps_put key b b' s :
  good s -> bos s !! key = Some b -> valids b' = valids b -> invalids b' = invalids b ->
  (has_status key s = true \/ epoch b' = epoch b) -> keeps_space s (set_bos (<[key := b']> (bos s)) s).
Proof.
  intros [W C St] Hb Ev Ei He.
  assert (Hl : forall k c, <[key := b']> (bos s) !! k = Some c -> exists c0, bos s !! k = Some c0 /\
    valids c = valids c0 /\ invalids c = invalids c0 /\ (has_status k s = false -> epoch c = epoch c0)).
  { intros k c Hk. destruct (decide (k = key)) as [->|Hne].
    - rewrite lookup_insert_eq in Hk. injection Hk as <-. exists b. repeat split; auto. intros Hs. destruct He; congruence.
    - rewrite lookup_insert_ne in Hk by done. by exists c. }
  assert (Hr : forall k c, bos s !! k = Some c -> exists c', <[key := b']> (bos s) !! k = Some c' /\ valids c' = valids c /\ invalids c' = invalids c).
  { intros k c Hk. destruct (decide (k = key)) as [->|Hne].
    - rewrite lookup_insert_eq. exists b'. rewrite Hb in Hk. by injection Hk as <-.
    - rewrite lookup_insert_ne by done. by exists c. }
  split; [split|].
  - apply (wf_same s); try done.
    + intros k x. unfold maps. cbn. setoid_rewrite elem_of_mappings. split.
      * intros (c & Hk & Hx). destruct (Hl k c Hk) as (c0 & Hk0 & E1 & E2 & _). exists c0. by rewrite <- E1, <- E2.
      * intros (c & Hk & Hx). destruct (Hr k c Hk) as (c0 & Hk0 & E1 & E2). exists c0. by rewrite E1, E2.
    + intros k c x Hk Hx. destruct (Hl k c Hk) as (c0 & Hk0 & E1 & E2 & _). rewrite E1 in Hx. rewrite E2. by apply (wf_split _ _ _ W k c0).
  - intros Hpl. apply (coherent_shrink max_pfn bs env s); [done|by apply C|done| |done|by left]. intros k c x Hk Hx.
    destruct (Hl k c Hk) as (c0 & Hk0 & E1 & _ & E3). exists c0. rewrite <- E1. eauto.
  - intros k Hk. destruct (St k Hk) as [c Hc]. destruct (Hr k c Hc) as (c' & Hc' & _). by exists c'.
  - intros _ T. apply (tracked_shrink s); [done|done|done|]. intros k x (c & Hk & Hx). left.
    destruct (Hr k c Hk) as (c' & Hc' & E & _). exists c'. by rewrite E.
Qed.

Lemma keeps_added key size place s :
  good s -> bos s !! key = None -> keeps_space s (set_bos (<[key := BoVa [] [] 1 size place]> (bos s)) s).
Proof.
  intros [W C St] Hb.
  assert (Hm : forall k c, <[key := BoVa [] [] 1 size place]> (bos s) !! k = Some c ->
    bos s !! k = Some c \/ valids c = [] /\ invalids c = []).
  { intros k c Hk. destruct (decide (k = key)) as [->|Hne].
    - rewrite lookup_insert_eq in Hk. injection Hk as <-. by right.
    - rewrite lookup_insert_ne in Hk by done. by left. }
  assert (Hr : forall k c, bos s !! k = Some c -> <[key := BoVa [] [] 1 size place]> (bos s) !! k = Some c).
  { intros k c Hk. rewrite lookup_insert_ne; [done|congruence]. }
  split; [split|].
  - apply (wf_same s); try done.
    + intros k x. unfold maps. cbn. split; intros (c & Hk & Hx); [|by exists c; auto].
      destruct (Hm k c Hk) as [?|[E1 E2]]; [by exists c|]. unfold mappings in Hx. rewrite E1, E2 in Hx. by apply elem_of_nil in Hx.
    + intros k c x Hk Hx. destruct (Hm k c Hk) as [?|[E1 E2]]; [by apply (wf_split _ _ _ W k c)|].
      rewrite E1 in Hx. by apply elem_of_nil in Hx.
  - intros Hpl. apply (coherent_shrink max_pfn bs env s); [done|by apply C|done| |done|by left]. intros k c x Hk Hx.
    destruct (Hm k c Hk) as [?|[E1 E2]]; [by exists c|]. rewrite E1 in Hx. by apply elem_of_nil in Hx.
  - intros k Hk. destruct (St k Hk) as [c Hc]. exists c. by apply Hr.
  - intros _ T. apply (tracked_shrink s); [done|done|done|]. intros k x (c & Hk & Hx). left. exists c. auto.
Qed.

Definition deleted (key : Z) (s : amdgpu_vm) : amdgpu_vm :=
  set_bos (delete key (bos s)) (set_status (filter (fun k => k <> key) (invalidated s)) (filter (fun k => k <> key) (cleared s)) s).

Lemma has_status_deleted key k s : k <> key -> has_status k (deleted key s) = has_status k s.
Proof.
  intros Hne. unfold has_status, deleted. cbn. f_equal; apply bool_decide_ext; rewrite list_elem_of_filter; tauto.
Qed.

Lemma keeps_deleted key b s : good s -> bos s !! key = Some b -> mappings b = [] -> keeps_space s (deleted key s).
Proof.
  intros [W C St] Hb Hnil.
  assert (Hl : forall k c, delete key (bos s) !! k = Some c -> k <> key /\ bos s !! k = Some c).
  { intros k c Hk. by apply lookup_delete_Some in Hk as [? ?]. }
  assert (Hr : forall k x, maps s k x -> k <> key).
  { intros k x (c & Hk & Hx) ->. rewrite Hb in Hk. injection Hk as <-. rewrite Hnil in Hx. by apply elem_of_nil in Hx. }
  split; [split|].
  - apply (wf_same s); try done.
    + intros k x. split.
      * intros (c & Hk & Hx). destruct (Hl k c Hk) as [_ ?]. by exists c.
      * intros Hx. pose proof (Hr k x Hx). destruct Hx as (c & Hk & Hx). exists c. cbn. by rewrite lookup_delete_ne.
    + intros k c x Hk. destruct (Hl k c Hk) as [_ ?]. by apply (wf_split _ _ _ W k).
  - intros Hpl. apply (coherent_shrink max_pfn bs env s); [done|by apply C|done| | |by left].
    + intros k c x Hk Hx. destruct (Hl k c Hk) as [Hne ?]. exists c. rewrite (has_status_deleted key k s Hne). auto.
    + intros k. cbn. rewrite list_elem_of_filter. by intros [_ ?].
  - intros k Hk. destruct (decide (k = key)) as [->|Hne].
    + exfalso. assert (has_status key (deleted key s) = false); [|congruence]. apply has_status_false. cbn.
      rewrite !list_elem_of_filter. naive_solver.
    + rewrite (has_status_deleted key k s Hne) in Hk. cbn. rewrite lookup_delete_ne by done. by apply St.
  - intros _ T. apply (tracked_shrink s); [done|done|done|]. intros k x (c & Hk & Hx). left. exists c. cbn.
    rewrite lookup_delete_ne; [done|]. intros <-. apply (Hr key x); [|done]. exists c. split; [done|]. apply elem_of_mappings. by left.
Qed.

Lemma rmv_keeps key b s :
  good s -> bos s !! key = Some b -> exists s', amdgpu_vm_bo_rmv key s = Ok (tt, s') /\ keeps_space s s'.
Proof.
  intros G Hb. set (b' := BoVa [] [] (ref_count b) (bo_size b) (epoch b)).
  set (s1 := dropped key b' (mappings b) (rev (valids b)) s).
  assert (HD : drops (mappings b) b b').
  { split; [|split; [|done]]; intros x; rewrite elem_of_mappings; cbn; split; try (intros H; by apply elem_of_nil in H); tauto. }
  assert (K1 : keeps_space s s1).
  { split; [apply (good_dropped key b); try done|intros _; apply (tracked_dropped key b); try done].
    - intros f. rewrite elem_of_mappings, list_elem_of_In, <- in_rev, <- list_elem_of_In. auto.
    - intros x Hx _. rewrite list_elem_of_In, <- in_rev, <- list_elem_of_In. done. }
  exists (deleted key s1). split.
  - unfold amdgpu_vm_bo_rmv. rewrite (bind_eval (the_bo key) _ s b s (the_bo_run key s b Hb)).
    unfold mbind, M_bind, modify, deleted, s1, dropped, set_bos, set_status, set_va, set_freed. cbn.
    do 2 f_equal. by rewrite delete_insert_eq.
  - apply (keeps_space_trans s s1); [done|]. apply (keeps_deleted key b'); [apply K1|apply lookup_insert_eq|done].
Qed.

Lemma invalidate_keeps key s :
  good s -> exists s', amdgpu_vm_bo_invalidate key s = Ok (tt, s') /\ keeps_space s s' /\ bos s' = bos s /\
    (is_Some (bos s !! key) -> has_status key s' = true).
Proof.
  intros G. unfold amdgpu_vm_bo_invalidate. rewrite (bind_eval (amdgpu_vm_bo_find key) _ s _ s eq_refl).
  destruct (bos s !! key) as [b|] eqn:Hb.
  2:{ exists s. split; [done|]. split; [by apply keeps_space_refl|]. split; [done|]. by intros []. }
  rewrite (bind_eval (gets id) _ s s s eq_refl). cbn [id]. destruct (has_status key s) eqn:Hs.
  { exists s. split; [done|]. split; [by apply keeps_space_refl|]. done. }
  eexists. split; [reflexivity|]. destruct G as [W C St].
  assert (Hk : forall k, has_status k (set_status (key :: invalidated s) (cleared s) s) = false -> has_status k s = false).
  { intros k. rewrite !has_status_false. cbn. rewrite elem_of_cons. tauto. }
  split; [split; [split|]|split; [done|]].
  - apply (wf_same s); try done. apply (wf_split _ _ _ W).
  - intros Hpl. apply (coherent_shrink max_pfn bs env s); [done|by apply C|done| |done|by left]. intros k c x Hkc Hx. exists c. auto.
  - intros k Hst. destruct (has_status k s) eqn:E; [by apply St|]. destruct (decide (k = key)) as [->|Hne]; [by exists b|].
    exfalso. assert (has_status k (set_status (key :: invalidated s) (cleared s) s) = false); [|congruence].
    apply has_status_false in E. apply has_status_false. cbn. rewrite elem_of_cons. tauto.
  - intros _ T. apply (tracked_shrink s); try done. intros k x (c & ? & ?). left. by exists c.
  - intros _. apply has_status_invalidated. by left.
Qed.

Lemma move_keeps key s : good s -> exists s', bo_move key s = Ok (tt, s') /\ keeps_space s s'.
Proof.
  intros G. unfold bo_move, amdgpu_bo_move_notify. destruct (invalidate_keeps key s G) as (s1 & E & K & Eb & Hs).
  rewrite (bind_eval _ _ s _ _ E), (bind_eval (amdgpu_vm_bo_find key) _ s1 _ s1 eq_refl), Eb.
  destruct (bos s !! key) as [b|] eqn:Hb; [|by exists s1].
  eexists. split; [reflexivity|]. apply (keeps_space_trans s s1); [done|].
  apply (keeps_put key b); [apply K|by rewrite Eb|done|done|]. left. apply Hs. by exists b.
Qed.

Lemma open_keeps key size place r ok s :
  good s -> exists v s', amdgpu_gem_object_open key size place r ok s = Ok (v, s') /\ keeps_space s s'.
Proof.
  intros G. unfold amdgpu_gem_object_open. destruct (r =? 0); cbn [negb]; [|exists r, s; by split; [|apply keeps_space_refl]].
  rewrite (bind_eval (amdgpu_vm_bo_find key) _ s _ s eq_refl). destruct (bos s !! key) as [b|] eqn:Hb.
  - do 2 eexists. split; [reflexivity|]. by apply (keeps_put key b); [..|right].
  - unfold amdgpu_vm_bo_add. destruct ok.
    + do 2 eexists. split; [reflexivity|]. by apply keeps_added.
    + exists 0, s. split; [done|]. by apply keeps_space_refl.
Qed.

Lemma close_keeps key r s : good s -> exists s', amdgpu_gem_object_close key r s = Ok (tt, s') /\ keeps_space s s'.
Proof.
  intros G. unfold amdgpu_gem_object_close. destruct (r =? 0); cbn [negb]; [|exists s; by split; [|apply keeps_space_refl]].
  rewrite (bind_eval (amdgpu_vm_bo_find key) _ s _ s eq_refl). destruct (bos s !! key) as [b|] eqn:Hb.
  2:{ exists s. split; [done|]. by apply keeps_space_refl. }
  cbv zeta. set (n := u32 (ref_count b - 1)). set (b' := BoVa (valids b) (invalids b) n (bo_size b) (epoch b)).
  assert (K : keeps_space s (set_bos (<[key := b']> (bos s)) s)) by by apply (keeps_put key b); [..|right].
  rewrite (bind_eval (put_bo _ _) _ s tt _ eq_refl). destruct (n =? 0); [|by eexists].
  destruct (rmv_keeps key b' (set_bos (<[key := b']> (bos s)) s)) as (s' & E & K'); [apply K|apply lookup_insert_eq|].
  exists s'. split; [done|]. by eapply keeps_space_trans.
Qed.

(** ** The ioctl *)

Lemma update_vm_keeps key op a s s' :
  good s -> is_Some (bos s !! key) -> amdgpu_gem_va_update_vm env key op a s = Ok (tt, s') ->
  keeps_space s s' /\ (forall k x, maps s' k x <-> maps s k x).
Proof.
  intros G Hk H. unfold amdgpu_gem_va_update_vm in H. destruct (_ || _); [injection H as <-; split; [by apply keeps_space_refl|done]|].
  apply bind_Ok in H as (r & s1 & E & H). destruct (clear_freed_good max_pfn bs env s r s1 G E) as (G1 & A & _ & T1 & Eb).
  assert (K1 : keeps_space s s1) by by split. assert (Hm1 : forall k x, maps s1 k x <-> maps s k x) by (intros k x; unfold maps; by rewrite Eb).
  destruct (Z.eqb_spec r 0) as [->|Hr]; cbn [negb] in H; [|by injection H as <-].
  destruct (op =? AMDGPU_VA_OP_MAP); [|by injection H as <-]. specialize (A eq_refl).
  apply bind_Ok in H as (r2 & s2 & E2 & H). injection H as <-.
  destruct (bo_update_advances max_pfn bs env key false s1 r2 s2 G1 (ad_freed _ _ _ _ _ A)) as (A2 & _); [by rewrite Eb|done|done|].
  split; [apply (keeps_space_trans s s1); [done|]; split; apply A2|]. intros k x. by rewrite (ad_maps _ _ _ _ _ A2).
Qed.

Definition above_limit (args : drm_amdgpu_gem_va) : Prop :=
  amdgpu_vm_num_pdes max_pfn bs <= Z.shiftr (last_page (va_address args) (map_size args)) bs /\
  u32 (last_page (va_address args) (map_size args)) < max_pfn.

(** The mapping the ioctl was asked for. *)
Definition asked (args : drm_amdgpu_gem_va) (b : amdgpu_bo_va) (m : va_mapping) : Prop :=
  it_start m * AMDGPU_GPU_PAGE_SIZE = va_address args /\ it_last m = last_page (va_address args) (map_size args) /\
  map_offset m = offset_in_bo args /\ map_flags m = va_flags (gem_flags args) /\
  u64 (offset_in_bo args + map_size args) <= bo_size b.

Lemma va_op_keeps key b args a s :
  good s -> bos s !! key = Some b -> is_u64 (va_address args) -> is_u64 (offset_in_bo args) ->
  match va_operation max_pfn bs key args a s with
  | Ok (r, s') => keeps_space s s' /\ is_Some (bos s' !! key) /\
      (r = 0 -> operation args = AMDGPU_VA_OP_MAP -> exists m, maps s' key m /\ asked args b m)
  | Fault => above_limit args
  | NoFuel => False
  end.
Proof.
  intros G Hb Hva Hof. unfold va_operation. destruct (Z.eqb_spec (operation args) AMDGPU_VA_OP_MAP) as [Eo|Ho].
  - pose proof (bo_map_run key (va_address args) (offset_in_bo args) (map_size args) (va_flags (gem_flags args))
      (kmalloc_ok a) (page_table a) b s G Hb Hva Hof Hbs Hmax) as H. cbv zeta in H.
    destruct (amdgpu_vm_bo_map _ _ _ _ _ _ _ _ _ s) as [[r s']| |]; [|done|done].
    destruct H as [[Hr ->]|(T & used & HX & Hu & [[Hr ->]|(-> & Es & G' & Hal & Hfit)])].
    + split; [by apply keeps_space_refl|]. split; [by exists b|done].
    + split; [|split; [by exists b|done]]. split; [by apply grown_good|].
      intros _ T'. apply (tracked_shrink s); try done. intros k x (c & ? & ?). left. by exists c.
    + split; [split; [done|]|split].
      * intros _ T'. subst s'. apply (tracked_shrink s); try done. intros k x (c & Hk & Hx). left. unfold translates. cbn.
        destruct (decide (k = key)) as [->|Hne]; [|rewrite lookup_insert_ne by done; by exists c].
        rewrite lookup_insert_eq. rewrite Hb in Hk. injection Hk as <-. by eexists.
      * subst s'. cbn. rewrite lookup_insert_eq. by eexists.
      * intros _ _. subst s'. eexists. split; [eexists; split; [apply lookup_insert_eq|]; apply elem_of_mappings; right; by left|].
        split; [|by repeat split]. cbn. rewrite (land_pow2 _ 12 ltac:(lia)) in Hal.
        unfold AMDGPU_GPU_PAGE_SIZE. change (2 ^ 12) with 4096 in Hal. clear -Hal. cint.
  - destruct (unmap_good key (va_address args) s G) as (r & s' & -> & G' & T' & Hk); [by exists b|].
    split; [by split; [|intros _]|]. split; [done|]. by intros _ ?.
Qed.

Lemma va_ioctl_keeps enabled debug args a s r s' :
  good s -> is_u64 (va_address args) -> is_u64 (offset_in_bo args) ->
  amdgpu_gem_va_ioctl max_pfn bs env enabled debug args a s = Ok (r, s') ->
  keeps_space s s' /\
  (r = 0 -> operation args = AMDGPU_VA_OP_MAP -> exists key b m, gem_object args = Some key /\ bos s !! key = Some b /\ maps s' key m /\ asked args b m).
Proof.
  intros G Hva Hof H. unfold amdgpu_gem_va_ioctl in H.
  assert (Hfail : forall r0 (P : Prop), r0 <> 0 -> mret (M := M amdgpu_vm) r0 s = Ok (r, s') -> keeps_space s s' /\ (r = 0 -> P)).
  { intros r0 P Hr E. injection E as <- <-. by split; [apply keeps_space_refl|]. }
  destruct enabled; cbn [negb] in H; [|by eapply Hfail in H]. destruct (_ <? _); [by eapply Hfail in H|].
  destruct (negb (Z.land _ _ =? 0)); [by eapply Hfail in H|]. destruct (negb (_ || _)); [by eapply Hfail in H|].
  destruct (gem_object args) as [key|] eqn:Eg; [|by eapply Hfail in H].
  destruct (Z.eqb_spec (va_reserve_r a) 0) as [_|Hr]; cbn [negb] in H; [|by eapply Hfail in H].
  rewrite (bind_eval (amdgpu_vm_bo_find key) _ s _ s eq_refl) in H. destruct (bos s !! key) as [b|] eqn:Hb; [|by eapply Hfail in H].
  clear Hfail. apply bind_Ok in H as (r1 & s1 & E & H). pose proof (va_op_keeps key b args a s G Hb Hva Hof) as Hop. rewrite E in Hop. destruct Hop as (K1 & Hk & Hm).
  apply bind_Ok in H as ([] & s2 & E2 & H). injection H as <- <-.
  assert (K2 : keeps_space s1 s2 /\ forall k x, maps s2 k x <-> maps s1 k x).
  { destruct (_ && _ && _); [by eapply update_vm_keeps; [apply K1|done|done]|]. injection E2 as <-. split; [apply keeps_space_refl, K1|done]. }
  destruct K2 as [K2 Hmm]. split; [by apply (keeps_space_trans s s1)|]. intros Hr Ho. destruct (Hm Hr Ho) as (m & Hmap & Ha). exists key, b, m. by rewrite Hmm.
Qed.

(** ** Every reachable state *)

Lemma invalidate_entries_keeps l s : good s -> exists s', invalidate_entries l s = Ok (tt, s') /\ keeps_space s s'.
Proof.
  revert s. induction l as [|e l IH]; intros s G; cbn [invalidate_entries]; [exists s; by split; [|apply keeps_space_refl]|].
  destruct (robj e) as [key|].
  - destruct (invalidate_keeps key s G) as (s1 & E & K & _). rewrite (bind_eval _ _ s _ _ E).
    destruct (IH s1 (proj1 K)) as (s2 & E2 & K2). exists s2. split; [done|]. by apply (keeps_space_trans s s1).
  - rewrite (bind_eval (mret tt) _ s tt s eq_refl). by apply IH.
Qed.

Lemma update_pte_debug l dr sr cr s r s' :
  amdgpu_bo_vm_update_pte env true l dr sr cr s = Ok (r, s') ->
  exists s1, amdgpu_bo_vm_update_pte env false l dr sr cr s = Ok (r, s1) /\ (s' = s1 \/ invalidate_entries (default [] l) s1 = Ok (tt, s')).
Proof.
  unfold amdgpu_bo_vm_update_pte. destruct (negb (dr =? 0)); [intros H; by exists s'; split; [|left]|]. destruct (negb (sr =? 0)); [intros H; by exists s'; split; [|left]|].
  intros H. apply bind_Ok in H as (r1 & s2 & E1 & H). rewrite (bind_eval _ _ s r1 s2 E1).
  destruct (negb (r1 =? 0)); [by exists s'; split; [|left]|]. apply bind_Ok in H as (r2 & s3 & E2 & H). rewrite (bind_eval _ _ s2 r2 s3 E2).
  destruct (negb (r2 =? 0)); [by exists s'; split; [|left]|]. apply bind_Ok in H as (r3 & s4 & E3 & H). rewrite (bind_eval _ _ s3 r3 s4 E3).
  apply bind_Ok in H as ([] & s5 & E5 & H). injection H as <- <-. exists s4. split; [done|]. by right.
Qed.

Lemma cs_keeps debug l dr sr cr s r s' :
  good s -> (forall e k, e ∈ default [] l -> entry_bo_va e = Some k -> is_Some (bos s !! k)) ->
  amdgpu_bo_vm_update_pte env debug l dr sr cr s = Ok (r, s') -> keeps_space s s'.
Proof.
  intros G Hl H.
  assert (K : forall s1, amdgpu_bo_vm_update_pte env false l dr sr cr s = Ok (r, s1) -> keeps_space s s1).
  { intros s1 E. by destruct (update_pte_advances max_pfn bs env l dr sr cr s r s1 G Hl E) as (G1 & HT & _). }
  destruct debug; [|by apply K]. apply update_pte_debug in H as (s1 & E & [->|E2]); [by apply K|]. pose proof (K s1 E) as K1.
  destruct (invalidate_entries_keeps (default [] l) s1 (proj1 K1)) as (s2 & E2' & K2). rewrite E2' in E2. injection E2 as <-. by apply (keeps_space_trans s s1).
Qed.

Lemma step_keeps s s' : good s -> vm_step max_pfn bs env s s' -> keeps_space s s'.
Proof.
  intros G Hst. destruct Hst as [key size place r ok v s s' E|key r v s s' E|en dbg args a v s s' Hva Hof E|dbg l dr sr cr v s s' Hl E|key v s s' E].
  - destruct (open_keeps key size place r ok s G) as (v' & s1 & E1 & K). rewrite E1 in E. by injection E as <- <-.
  - destruct (close_keeps key r s G) as (s1 & E1 & K). rewrite E1 in E. by injection E as <- <-.
  - by destruct (va_ioctl_keeps en dbg args a s v s' G Hva Hof E).
  - by eapply cs_keeps.
  - destruct (move_keeps key s G) as (s1 & E1 & K). rewrite E1 in E. by injection E as <- <-.
Qed.

Lemma init_good : good (init_vm max_pfn bs).
Proof.
  assert (Hno : forall k m, ~ maps (init_vm max_pfn bs) k m) by (intros k m (b & Hk & _); cbn in Hk; by rewrite lookup_empty in Hk).
  split; [split|split|]; cbn; try (intros; exfalso; by (eapply elem_of_nil; eassumption) || by (eapply Hno; eassumption)); try done.
  - intros m. split; [intros H; by apply elem_of_nil in H|]. intros [k H]. by apply Hno in H.
  - rewrite length_replicate. rewrite Z2Nat.id; [done|]. unfold amdgpu_vm_num_pdes. apply Z.shiftr_nonneg.
    unfold is_u32 in Hmax. lia.
Qed.

Lemma reachable_good s : rtc (vm_step max_pfn bs env) (init_vm max_pfn bs) s -> good s /\ (calm env -> tracked s).
Proof.
  intros H. assert (forall s0, rtc (vm_step max_pfn bs env) s0 s -> good s0 -> keeps_space s0 s) as Hk.
  { clear H. intros s0 H. induction H as [s0|s0 s1 s2 H1 _ IH]; intros G; [by apply keeps_space_refl|].
    pose proof (step_keeps s0 s1 G H1) as K. apply (keeps_space_trans s0 s1); [done|]. apply IH, K. }
  destruct (Hk _ H init_good) as [G T]. split; [done|]. intros Hnf. apply (T Hnf). intros p t Ht. cbn in Ht. by rewrite lookup_empty in Ht.
Qed.
End spec.
