(* ===== verification/VaClaims.v ===== *)
(** * Address spaces: the theorems

    The claims about reachable address spaces, and runs that show where the
    code's checks and error paths fall short of them. *)

From stdpp Require Import base numbers list gmap relations.
From S2P Require Import Prelude CMonad Engines VmEngine PageTable PageDir SplitMapping VaSpace VaInv VaUpdate VaSubmit VaMap VaSpec.

(** A page of an object in video memory gets the address of the object's page. *)
Lemma vram_entry env k b m p nodes :
  range_ok m -> inside m p -> pl_type (env_place env k (epoch b)) = TTM_PL_VRAM -> pl_nodes (env_place env k (epoch b)) = Some nodes ->
  Forall (node_ok (env_dev env)) nodes ->
  Z.shiftr (map_offset m) 12 + (it_last m - it_start m + 1) <= Z.of_nat (length (pages_of nodes)) ->
  exists ph, pages_of nodes !! Z.to_nat (Z.shiftr (map_offset m) 12 + (p - it_start m)) = Some ph /\
    entry_of env k b m p = Some (PteAddress (vram_base_offset (env_dev env) + ph * 4096)
      (filtered_flags m (update_flags env (env_place env k (epoch b)) false))).
Proof.
  intros (Hr & Hl & Ho) Hp Ht Hn Hok Hlen. unfold entry_of, entry_at_place, update_mem, update_pages. set (pl := env_place env k (epoch b)) in *.
  rewrite Ht, Hn. apply split_vram_entry; try done. unfold update_flags, amdgpu_ttm_tt_pte_flags, filtered_flags. rewrite Ht.
  destruct (env_tonga env), (pl_readonly pl), (Z.land _ AMDGPU_PTE_READABLE =? 0), (Z.land _ AMDGPU_PTE_WRITEABLE =? 0); by vm_compute.
Qed.
Lemma valid_range {max_pfn bs s k b m} : wf max_pfn bs s -> bos s !! k = Some b -> m ∈ valids b -> range_ok m.
Proof. intros W Hk Hm. apply (wf_range _ _ _ W), (wf_va _ _ _ W). exists k, b. split; [done|]. apply elem_of_mappings. by left. Qed.

(** C6: In every reachable address space, whatever updates fail: no page is
    mapped twice, the interval tree holds exactly the mappings of the objects,
    and every mapped page has a page table that the directory update visits. *)
Theorem mappings_disjoint max_pfn bs env s :
  0 <= bs -> is_u32 max_pfn -> rtc (vm_step max_pfn bs env) (init_vm max_pfn bs) s ->
  (forall m, m ∈ va s <-> exists k, maps s k m) /\
  (forall k k' m m' p, maps s k m -> maps s k' m' -> inside m p -> inside m' p -> k = k' /\ m = m') /\
  (forall k m p, maps s k m -> inside m p -> has_table s bs p /\ Z.shiftr p bs <= max_pde_used s).
Proof.
  intros Hbs Hmax H. destruct (reachable_good Hbs Hmax s H) as [[W _ _] _].
  split; [apply W|]. split; [intros k k' m m' p; by apply (wf_page_owner s k k' m m' p W)|].
  intros k m p Hm Hin. assert (m ∈ va s) by (apply (wf_va _ _ _ W); by exists k).
  split; [by apply (wf_tables _ _ _ W m)|by apply (wf_used _ _ _ W m)].
Qed.

(** C5: In every reachable address space, whatever updates fail in between,
    also half-way through a split mapping: the entry of each page of a valid
    mapping is the one that the mapping's updates give for the place where the
    object is now, unless the object is marked as moved or cleared; the pages
    of a cleared object have no valid entry; and when the object is in video
    memory the entry holds the address of the object's page at the mapping's
    offset, wherever its memory's nodes begin and end, with the flags of the
    memory that the mapping allows.  The memory's nodes are taken to be non-empty
    and of less than 2^52 pages, and for the last part to lie in the memory the
    device addresses, with the mapping inside the object. *)
Theorem valid_pages_current max_pfn bs env s :
  0 <= bs -> is_u32 max_pfn -> places_ok env -> rtc (vm_step max_pfn bs env) (init_vm max_pfn bs) s ->
  forall k b m p, bos s !! k = Some b -> m ∈ valids b -> inside m p ->
    (has_status k s = false -> pt s !! p = entry_of env k b m p) /\
    (k ∈ cleared s -> pt s !! p = None) /\
    (forall nodes, has_status k s = false -> pl_type (env_place env k (epoch b)) = TTM_PL_VRAM ->
      pl_nodes (env_place env k (epoch b)) = Some nodes -> Forall (node_ok (env_dev env)) nodes ->
      Z.shiftr (map_offset m) 12 + (it_last m - it_start m + 1) <= Z.of_nat (length (pages_of nodes)) ->
      exists ph, pages_of nodes !! Z.to_nat (Z.shiftr (map_offset m) 12 + (p - it_start m)) = Some ph /\
        pt s !! p = Some (PteAddress (vram_base_offset (env_dev env) + ph * 4096)
          (filtered_flags m (update_flags env (env_place env k (epoch b)) false)))).
Proof.
  intros Hbs Hmax Hpl H k b m p Hk Hm Hin. destruct (reachable_good Hbs Hmax s H) as [[W C _] _]. specialize (C Hpl).
  split; [intros Hs; by apply (co_current _ _ C k b m p)|]. split; [intros Hc; by apply (co_cleared _ _ C k b m p)|].
  intros nodes Hs Ht Hn Hok Hlen. rewrite (co_current _ _ C k b m p Hk Hs Hm Hin). apply vram_entry; try done. by apply (valid_range W Hk).
Qed.

(** C4: When no update fails, the nodes of the objects' memory are sane and the
    pages of all mappings are pages of their objects, the page-table step of a
    submission succeeds.  It changes neither which mappings there are nor where
    the objects are, and leaves exactly the current mappings reachable: a page
    has a valid entry if and only if it belongs to a valid mapping of an object
    that is not cleared, and it is the entry that the mapping's updates give for
    the place where the object is; and all pages of the submission's own objects
    have that entry. *)
Theorem submission_exact max_pfn bs env s l :
  0 <= bs -> is_u32 max_pfn -> never_fails env -> places_ok env -> rtc (vm_step max_pfn bs env) (init_vm max_pfn bs) s -> fits env s ->
  (forall e k, e ∈ default [] l -> entry_bo_va e = Some k -> is_Some (bos s !! k)) ->
  (forall e, e ∈ default [] l -> entry_sync_r e = 0) ->
  exists s', amdgpu_bo_vm_update_pte env false l 0 0 0 s = Ok (0, s') /\
    (forall k m, maps s' k m <-> maps s k m) /\
    (forall k b', bos s' !! k = Some b' -> exists b, bos s !! k = Some b /\ epoch b' = epoch b) /\
    (forall p t, pt s' !! p = Some t <->
      exists k b m, bos s' !! k = Some b /\ m ∈ valids b /\ inside m p /\ k ∉ cleared s' /\ entry_of env k b m p = Some t) /\
    (forall e k o b m p, e ∈ default [] l -> robj e = Some o -> entry_bo_va e = Some k -> bos s' !! k = Some b -> m ∈ mappings b -> inside m p ->
      pt s' !! p = entry_of env k b m p).
Proof.
  intros Hbs Hmax Hnf Hpl Hreach F Hl Hsync.
  destruct (reachable_good Hbs Hmax s Hreach) as [G T].
  destruct (update_pte_total max_pfn bs env Hpl l 0 0 0 s G F Hl) as (r & s' & E).
  destruct (update_pte_advances max_pfn bs env l 0 0 0 s r s' G Hl E) as ([W C St] & HT & H0 & Hr).
  rewrite (Hr Hnf eq_refl eq_refl eq_refl Hsync) in *. destruct (H0 eq_refl) as (A & Hinv & Hset). specialize (C Hpl).
  assert (Hs : forall k, k ∉ cleared s' -> has_status k s' = false) by (intros k Hc; apply has_status_false; rewrite Hinv; split; [apply not_elem_of_nil|done]).
  exists s'. split; [done|]. split; [apply A|]. split; [apply A|]. split; [intros p t; split|].
  - intros Ht. destruct (HT (conj Hnf Hpl) (T (conj Hnf Hpl)) p t Ht) as [(k & m & (b & Hk & Hm) & Hin)|(f & Hf & _)].
    2:{ rewrite (ad_freed _ _ _ _ _ A) in Hf. by apply elem_of_nil in Hf. }
    assert (Hc : k ∉ cleared s') by (intros Hc; rewrite (co_cleared _ _ C k b m p Hk Hc Hm Hin) in Ht; done).
    exists k, b, m. do 4 (split; [done|]). by rewrite <- (co_current _ _ C k b m p Hk (Hs k Hc) Hm Hin).
  - intros (k & b & m & Hk & Hm & Hin & Hc & Et). by rewrite (co_current _ _ C k b m p Hk (Hs k Hc) Hm Hin).
  - intros e k o b m p He Ho Hk Hb Hm Hin. destruct (Hset e k o He Ho Hk) as [Hst (b' & Hb' & Hi)].
    rewrite Hb in Hb'. injection Hb' as <-. apply elem_of_mappings in Hm as [Hm|Hm]; [|by rewrite Hi in Hm; apply elem_of_nil in Hm].
    by apply (co_current _ _ C k b m p).
Qed.

(** ** The operations of the ioctl *)

(** A request that succeeds asks for whole pages. *)
Lemma map_aligned max_pfn bs key args a s s' :
  operation args = AMDGPU_VA_OP_MAP -> va_operation max_pfn bs key args a s = Ok (0, s') -> (4096 | map_size args) /\ map_size args <> 0.
Proof.
  intros Ho. unfold va_operation. rewrite Ho, Z.eqb_refl. unfold amdgpu_vm_bo_map. intros (b & s1 & _ & H)%bind_Ok.
  destruct (_ || _ || _ || _) eqn:Eal; [by injection H|]. apply orb_false_iff in Eal as [[[_ _]%orb_false_iff Hz]%orb_false_iff Hal].
  apply negb_false_iff, Z.eqb_eq in Hal. rewrite (land_pow2 _ 12 ltac:(lia)) in Hal. split; [|by apply Z.eqb_neq]. by apply Z.mod_divide.
Qed.

(** The allocations of the ioctl succeed. *)
Definition resources_ok (a : va_answers) : Prop :=
  kmalloc_ok a = true /\ forall i, create_r (page_table a i) = 0 /\ clear_r (page_table a i) = 0 /\ clear_shadow_r (page_table a i) = 0.
(** Whole pages, inside the object, below the limit, none of them mapped. *)
Definition acceptable (max_pfn : Z) (args : drm_amdgpu_gem_va) (b : amdgpu_bo_va) (s : amdgpu_vm) : Prop :=
  (4096 | va_address args) /\ (4096 | offset_in_bo args) /\ (4096 | map_size args) /\ 0 < map_size args /\
  offset_in_bo args + map_size args <= bo_size b < 2 ^ 64 /\ (va_address args + map_size args) / 4096 <= max_pfn /\
  forall k m p, maps s k m -> inside m p -> ~ va_address args / 4096 <= p < (va_address args + map_size args) / 4096.

Lemma alloc_tables_succeeds a n : resources_ok a -> forall i s r s', alloc_tables n i (page_table a) s = Ok (r, s') -> r = 0.
Proof.
  intros [_ Ha]. induction n as [|n IH]; intros i s r s' H; cbn [alloc_tables] in H; [by injection H|].
  apply bind_Ok in H as (s0 & s1 & _ & H). apply bind_Ok in H as (e & s2 & _ & H). destruct (pt_bo e); [by eapply IH|].
  destruct (Ha i) as (E1 & E2 & E3). rewrite E1, E2, E3 in H. cbn [Z.eqb negb] in H.
  destruct (shadow_offset _); apply bind_Ok in H as (u & s3 & _ & H); by eapply IH.
Qed.

Lemma map_accepts max_pfn bs key args a b s r s' :
  wf max_pfn bs s -> bos s !! key = Some b -> operation args = AMDGPU_VA_OP_MAP -> is_u32 max_pfn -> is_u64 (va_address args) ->
  0 <= offset_in_bo args -> va_address args + map_size args <= 2 ^ 44 -> acceptable max_pfn args b s -> resources_ok a ->
  va_operation max_pfn bs key args a s = Ok (r, s') -> r = 0.
Proof.
  intros W Hb Ho Hmax Hva Hof Hend (H1 & H2 & H3 & Hpos & Hin & Hlim & Hfree) Ha. unfold va_operation. rewrite Ho, Z.eqb_refl.
  unfold amdgpu_vm_bo_map. rewrite (bind_eval (the_bo key) _ s b s (the_bo_run key s b Hb)). cbv zeta.
  change AMDGPU_GPU_PAGE_MASK with (2 ^ 12 - 1). rewrite !land_pow2 by lia. change (2 ^ 12) with 4096.
  apply Z.mod_divide in H1, H2, H3; [|lia..]. rewrite H1, H2, H3. rewrite (proj2 (Z.eqb_neq (map_size args) 0)) by lia. cbn [Z.eqb negb orb].
  unfold is_u64, is_u32 in *. change (2 ^ 44) with 17592186044416 in *. change (2 ^ 64) with 18446744073709551616 in *.
  set (va := va_address args) in *. set (size := map_size args) in *.
  assert (Ee : u64 (u64 (va + size) - 1) = va + size - 1) by (unfold u64; rewrite (Z.mod_small (va + size)) by lia; rewrite Z.mod_small; lia). rewrite Ee.
  assert (Es : u64 (offset_in_bo args + size) = offset_in_bo args + size) by (unfold u64; rewrite Z.mod_small; lia). rewrite Es.
  unfold AMDGPU_GPU_PAGE_SIZE. assert (El : (va + size - 1) / 4096 = (va + size) / 4096 - 1) by (clear -H1 H3 Hpos Hva; Z.div_mod_to_equations; lia). rewrite El.
  assert (Hq : 0 <= (va + size) / 4096 - 1 < 4294967296) by (clear -H1 H3 Hpos Hva Hlim Hmax; Z.div_mod_to_equations; lia).
  assert (E0 : (va + size - 1 <=? va) || (bo_size b <? offset_in_bo args + size) = false) by (apply orb_false_iff; split; [apply Z.leb_gt|apply Z.ltb_ge]; clear -H3 Hpos Hin; Z.div_mod_to_equations; lia). rewrite E0.
  rewrite u32_small by done. rewrite (proj2 (Z.leb_gt _ _)) by lia. rewrite (bind_eval (gets id) _ s s s eq_refl). cbn [id].
  destruct (interval_tree_iter_first _ _ _) as [x|] eqn:Ex.
  { exfalso. apply find_some in Ex as [Hx Hov]. apply list_elem_of_In in Hx. pose proof (wf_range _ _ _ W x Hx) as (Hr & _).
    apply (wf_va _ _ _ W) in Hx as [k Hk]. unfold overlaps in Hov. apply (Hfree k x (Z.max (it_start x) (va / 4096)) Hk); [|]; unfold inside; clear -Hov Hr El H1 H3 Hpos; Z.div_mod_to_equations; lia. }
  rewrite (proj1 Ha). cbn [negb]. intros (u1 & s1 & _ & H)%bind_Ok. apply bind_Ok in H as (u2 & s2 & _ & H). apply bind_Ok in H as (u3 & s3 & _ & H).
  destruct (_ <=? _) in H; [done|]. apply bind_Ok in H as (u4 & s4 & _ & H). apply bind_Ok in H as (r1 & s5 & E & H).
  apply alloc_tables_succeeds in E as ->; [|done]. by injection H.
Qed.

(** What an unmap request does to the mappings. *)
Lemma unmap_exact max_pfn bs env key b saddr s r s' :
  good max_pfn bs env s -> bos s !! key = Some b -> amdgpu_vm_bo_unmap key saddr s = Ok (r, s') ->
  let here k x := k = key /\ it_start x = saddr / AMDGPU_GPU_PAGE_SIZE in
  (forall k x, maps s' k x <-> maps s k x /\ ~ here k x) /\
  r = if bool_decide (Exists (fun x => it_start x = saddr / AMDGPU_GPU_PAGE_SIZE) (mappings b)) then 0 else - ENOENT.
Proof.
  intros G Hb E here. destruct (unmap_run (max_pfn := max_pfn) (bs := bs) (env := env) key saddr s b Hb G) as (r0 & s0 & E0 & Hcase). rewrite E in E0. injection E0 as <- <-.
  assert (Hkey : forall x, maps s key x <-> x ∈ mappings b) by (intros x; split; [intros (c & Hc & Hx); rewrite Hb in Hc; by injection Hc as <-|by exists b]).
  pose proof (good_wf _ _ _ _ G) as W. destruct Hcase as [[-> Er]|(Er & m & b' & fr & Hm & Hst & -> & HD & _)].
  - assert (Hno : forall x, x ∈ mappings b -> it_start x <> saddr / AMDGPU_GPU_PAGE_SIZE).
    { intros x Hx. revert E. unfold amdgpu_vm_bo_unmap. rewrite (bind_eval (the_bo key) _ s b s (the_bo_run key s b Hb)). cbv zeta.
      destruct (find_start _ (valids b)) eqn:E1; [by intros [= <-]|]. destruct (find_start _ (invalids b)) eqn:E2; [by intros [= <-]|]. intros _ Heq.
      apply elem_of_mappings in Hx as [Hx|Hx]; apply list_elem_of_In in Hx; [pose proof (find_none _ _ E1 x Hx)|pose proof (find_none _ _ E2 x Hx)]; cbn in *; lia. }
    split; [|rewrite bool_decide_false; [done|]; rewrite Exists_exists; intros (x & Hx & ?); by apply (Hno x)].
    intros k x. split; [|by intros [? _]]. intros Hk. split; [done|]. intros [-> Hx]. apply (Hno x); [by apply Hkey|done].
  - split; [|rewrite bool_decide_true; [done|]; apply Exists_exists; by exists m].
    intros k x. rewrite (drops_maps s (dropped key b' [m] fr s) key b b' [m] k x W Hb eq_refl HD) by (intros y Hy%list_elem_of_singleton; by subst).
    rewrite list_elem_of_singleton. split; intros [Hk Hn]; (split; [done|]).
    + intros [-> Hx]. apply Hn. apply (wf_page_owner s key key x m (saddr / AMDGPU_GPU_PAGE_SIZE) W); [done|by apply Hkey| |].
      * pose proof (wf_range _ _ _ W x ltac:(apply (wf_va _ _ _ W); by exists key)) as (? & _). unfold inside. lia.
      * pose proof (wf_range _ _ _ W m ltac:(apply (wf_va _ _ _ W); exists key; by apply Hkey)) as (? & _). unfold inside. lia.
    + intros ->. apply Hn. split; [|done]. apply (wf_owner _ _ _ W k key m Hk). by apply Hkey.
Qed.

(** What a map request does to the mappings. *)
Lemma map_exact max_pfn bs env key b args a s r s' :
  0 <= bs -> is_u32 max_pfn -> good max_pfn bs env s -> bos s !! key = Some b -> is_u64 (va_address args) -> is_u64 (offset_in_bo args) ->
  operation args = AMDGPU_VA_OP_MAP -> va_operation max_pfn bs key args a s = Ok (r, s') ->
  r <> 0 /\ (forall k x, maps s' k x <-> maps s k x) \/
  r = 0 /\ exists m, asked args b m /\ forall k x, maps s' k x <-> maps s k x \/ k = key /\ x = m.
Proof.
  intros Hbs Hmax G Hb Hva Hof Ho. unfold va_operation. rewrite Ho, Z.eqb_refl. intros E.
  pose proof (bo_map_run (max_pfn := max_pfn) (bs := bs) (env := env) key (va_address args) (offset_in_bo args) (map_size args) (va_flags (gem_flags args))
    (kmalloc_ok a) (page_table a) b s G Hb Hva Hof Hbs Hmax) as H. cbv zeta in H. rewrite E in H.
  destruct H as [[Hr ->]|(T & used & _ & _ & [[Hr ->]|(-> & -> & _ & Hal & Hfit)])]; [by left|by left|right].
  split; [done|]. exists (VaMapping (next_mid s) (va_address args / AMDGPU_GPU_PAGE_SIZE) (last_page (va_address args) (map_size args)) (offset_in_bo args) (va_flags (gem_flags args))).
  split; [split; [|by repeat split]|].
  - cbn. rewrite (land_pow2 _ 12 ltac:(lia)) in Hal. unfold AMDGPU_GPU_PAGE_SIZE. change (2 ^ 12) with 4096 in Hal. clear -Hal. cint.
  - intros k x. unfold maps. cbn. destruct (decide (k = key)) as [->|Hne].
    + rewrite lookup_insert_eq, Hb. setoid_rewrite elem_of_mappings. split.
      * intros (c & [= <-] & Hx). cbn in Hx. rewrite elem_of_cons in Hx. destruct Hx as [Hx|[->|Hx]]; [left; eauto|by right|left; eauto].
      * intros [(c & [= <-] & Hx)|[_ ->]]; (eexists; split; [done|]); cbn; rewrite elem_of_cons; tauto.
    + rewrite lookup_insert_ne by done. split; [by left|]. intros [H|[H _]]; [done|congruence].
Qed.

(** C40: The operations of the mapping ioctl, in every reachable address space,
    whatever updates failed, when the address range ends below 2^44 and the
    limit of the space is a multiple of a page table's reach: they return, so
    neither [BUG_ON] nor an entry outside the page table array is reached.
    Mapping adds exactly the mapping that was asked for, from the address to
    the last byte, with the offset and the flags of the request, and within the
    object if offset plus size does not wrap; or it fails and the mappings are
    the same.  It succeeds when whole pages are asked for that lie inside the
    object and below the limit and are not mapped yet, and the allocations
    succeed.  Unmapping removes exactly the mapping of the object that starts at
    the address; without one it returns -ENOENT. *)
Theorem va_ioctl_safe max_pfn bs env key b args a s :
  0 <= bs -> is_u32 max_pfn -> rtc (vm_step max_pfn bs env) (init_vm max_pfn bs) s -> bos s !! key = Some b ->
  (2 ^ bs | max_pfn) -> is_u64 (va_address args) -> is_u64 (map_size args) -> is_u64 (offset_in_bo args) ->
  va_address args + map_size args <= 2 ^ 44 ->
  exists r s', va_operation max_pfn bs key args a s = Ok (r, s') /\
    if operation args =? AMDGPU_VA_OP_MAP
    then
      (r <> 0 /\ (forall k x, maps s' k x <-> maps s k x) \/
       r = 0 /\ exists m, (forall k x, maps s' k x <-> maps s k x \/ k = key /\ x = m) /\
         it_start m * 4096 = va_address args /\ (it_last m + 1) * 4096 = va_address args + map_size args /\
         map_offset m = offset_in_bo args /\ map_flags m = va_flags (gem_flags args) /\
         (offset_in_bo args + map_size args < 2 ^ 64 -> offset_in_bo args + map_size args <= bo_size b)) /\
      (acceptable max_pfn args b s -> resources_ok a -> r = 0)
    else
      (forall k x, maps s' k x <-> maps s k x /\ ~ (k = key /\ it_start x = va_address args / 4096)) /\
      r = if bool_decide (Exists (fun x => it_start x = va_address args / 4096) (mappings b)) then 0 else - ENOENT.
Proof.
  intros Hbs Hmax Hreach Hb Hdiv Hva Hsz Hoff Hend. destruct (reachable_good Hbs Hmax s Hreach) as [G _].
  pose proof (va_op_keeps Hbs Hmax key b args a s G Hb Hva Hoff) as H.
  destruct (va_operation _ _ _ _ _ s) as [[r s']| |] eqn:E; [clear H|exfalso|done].
  - exists r, s'. split; [done|]. destruct (Z.eqb_spec (operation args) AMDGPU_VA_OP_MAP) as [Ho|Ho].
    + split; [|intros Hacc Ha; eapply map_accepts; try done; [apply G|apply Hoff]].
      destruct (map_exact max_pfn bs env key b args a s r s' Hbs Hmax G Hb Hva Hoff Ho E) as [H|(-> & m & (H1 & H2 & H3 & H4 & H5) & Hm)]; [by left|right].
      split; [done|]. exists m. split; [done|]. split; [done|]. destruct (map_aligned _ _ _ _ _ _ _ Ho E) as [[q Hq] Hpos].
      split; [|split; [done|split; [done|intros Hw; unfold is_u64, u64 in *; rewrite Z.mod_small in H5 by lia; done]]].
      rewrite H2. unfold last_page, is_u64, AMDGPU_GPU_PAGE_SIZE in *. change (2 ^ 44) with 17592186044416 in Hend. cint.
    + unfold va_operation in E. rewrite (proj2 (Z.eqb_neq _ _) Ho) in E. by apply (unmap_exact max_pfn bs env key b _ s).
  - destruct H as [H1 H2]. destruct Hdiv as [q ->]. unfold amdgpu_vm_num_pdes in H1. rewrite !Z.shiftr_div_pow2, Z.div_mul in H1 by lia.
    assert (Hlp : 0 <= last_page (va_address args) (map_size args) < 2 ^ 32).
    { destruct (decide (va_address args + map_size args = 0)) as [Hz|Hz].
      - unfold last_page in H2. rewrite Hz in H2. unfold is_u32 in Hmax. change (u32 _) with 4294967295 in H2. lia.
      - unfold last_page, AMDGPU_GPU_PAGE_SIZE. unfold is_u64 in *. change (2 ^ 44) with 17592186044416 in Hend. cint. }
    rewrite u32_small in H2 by done. apply Z.le_ngt in H1. apply H1. apply Z.div_lt_upper_bound; [|lia]. lia.
Qed.

(** ** Runs *)

Definition page_table_outcome : pt_outcome := PtOutcome 0 (PtObject 0 None) 0 0.
Definition no_errors : va_answers := VaAnswers 0 true (fun _ => page_table_outcome) (UpdateAnswers 0 false 0 0).
Definition request (op va off size : Z) : drm_amdgpu_gem_va := GemVa (Some 1) op 6 va off size.
Definition entry1 : cs_entry := CsEntry (Some 1) (Some 1) 0.

(** Objects of one page of video memory, which is another one after a move. *)
Definition run_env (result : nat -> Z) : vm_env :=
  VmEnv (SplitDevice 1048576 0 0 0 0 0) (fun k n => BoPlace TTM_PL_VRAM (Some [MmNode (16 * k + Z.of_nat n) 1]) false false false true) true result.

(** The state a run reaches; the initial one if it does not end. *)
Definition after {A} (m : VM A) (s : amdgpu_vm) : amdgpu_vm := match m s with Ok (_, s') => s' | _ => s end.

Section run.
Context (result : nat -> Z).
Definition run_open : amdgpu_vm := after (amdgpu_gem_object_open 1 4096 0 0 true) (init_vm 4096 9).
Definition run_map : amdgpu_vm :=
  after (amdgpu_gem_va_ioctl 4096 9 (run_env result) true false (request AMDGPU_VA_OP_MAP 8388608 0 4096) no_errors) run_open.
Definition run_move : amdgpu_vm := after (bo_move 1) run_map.
Definition run_cs : amdgpu_vm := after (amdgpu_bo_vm_update_pte (run_env result) false (Some [entry1]) 0 0 0) run_move.
Definition run_close : amdgpu_vm := after (amdgpu_gem_object_close 1 0) run_cs.

Lemma after_step {A} (m : VM A) s : (exists v, m s = Ok (v, after m s)) \/ after m s = s.
Proof. unfold after. destruct (m s) as [[v s']| |]; eauto. Qed.

Lemma run_open_reachable env : rtc (vm_step 4096 9 env) (init_vm 4096 9) run_open.
Proof. eapply rtc_l; [by apply (step_open _ _ _ 1 4096 0%nat 0 true 0)|done]. Qed.
Lemma run_map_reachable : rtc (vm_step 4096 9 (run_env result)) (init_vm 4096 9) run_map.
Proof.
  destruct (after_step (amdgpu_gem_va_ioctl 4096 9 (run_env result) true false (request AMDGPU_VA_OP_MAP 8388608 0 4096) no_errors) run_open) as [[v E]|E].
  - eapply rtc_r; [apply run_open_reachable|]. eapply step_va; [..|exact E]; unfold is_u64; cbn; lia.
  - unfold run_map. rewrite E. apply run_open_reachable.
Qed.
Lemma run_move_reachable : rtc (vm_step 4096 9 (run_env result)) (init_vm 4096 9) run_move.
Proof.
  destruct (after_step (bo_move 1) run_map) as [[v E]|E]; [|unfold run_move; rewrite E; apply run_map_reachable].
  eapply rtc_r; [apply run_map_reachable|]. by eapply step_move.
Qed.
Lemma run_places_ok : places_ok (run_env result).
Proof. intros k n clear. destruct clear; [done|]. apply Forall_singleton. unfold node_sane. cbn. lia. Qed.
End run.

Definition never (n : nat) : Z := 0.

Lemma mappings_disjoint_witness :
  maps (run_move never) 1 (VaMapping 0 2048 2048 0 96) /\ has_table (run_move never) 9 2048.
Proof.
  assert (Hm : maps (run_move never) 1 (VaMapping 0 2048 2048 0 96)).
  { eexists. split; [vm_compute; reflexivity|]. apply elem_of_mappings. left. cbn. by left. }
  split; [done|].
  destruct (mappings_disjoint 4096 9 (run_env never) (run_move never)) as (_ & _ & H).
  - lia.
  - unfold is_u32. lia.
  - apply run_move_reachable.
  - apply (H 1 (VaMapping 0 2048 2048 0 96) 2048); [done|]. unfold inside. cbn. lia.
Defined.

Lemma valid_pages_current_witness : pt (run_map never) !! 2048 = Some (PteAddress 1114112 113).
Proof.
  destruct (valid_pages_current 4096 9 (run_env never) (run_map never)) with (k := 1) (b := BoVa [VaMapping 0 2048 2048 0 96] [] 1 4096 0)
    (m := VaMapping 0 2048 2048 0 96) (p := 2048) as (_ & _ & H).
  - lia.
  - unfold is_u32. lia.
  - apply run_places_ok.
  - apply run_map_reachable.
  - vm_compute. reflexivity.
  - by left.
  - unfold inside. cbn. lia.
  - destruct (H [MmNode 16 1]) as (ph & Eph & ->).
    + vm_compute. reflexivity.
    + reflexivity.
    + reflexivity.
    + apply Forall_singleton. unfold node_ok. cbn. lia.
    + vm_compute. congruence.
    + vm_compute in Eph. injection Eph as <-. vm_compute. reflexivity.
Defined.

Lemma submission_exact_witness :
  exists s', amdgpu_bo_vm_update_pte (run_env never) false (Some [entry1]) 0 0 0 (run_move never) = Ok (0, s') /\
    pt s' !! 2048 = Some (PteAddress 1118208 113).
Proof.
  destruct (submission_exact 4096 9 (run_env never) (run_move never) (Some [entry1])) as (s' & E & _ & _ & H & _).
  - lia.
  - unfold is_u32. lia.
  - done.
  - apply run_places_ok.
  - apply run_move_reachable.
  - intros k b m Hk Hm. vm_compute in Hk. destruct k as [|[| |]|]; try done. injection Hk as <-.
    apply elem_of_mappings in Hm as [->%list_elem_of_singleton|Hm%elem_of_nil]; [|done]. vm_compute. congruence.
  - cbn. intros e k He%list_elem_of_singleton Hk. subst e. injection Hk as <-. vm_compute. by eexists.
  - cbn. intros e He%list_elem_of_singleton. by subst e.
  - exists s'. split; [done|]. apply H. vm_compute in E. injection E as <-.
    exists 1, (BoVa [VaMapping 0 2048 2048 0 96] [] 1 4096 1), (VaMapping 0 2048 2048 0 96).
    split; [reflexivity|]. split; [by left|]. split; [unfold inside; cbn; lia|]. split; [apply not_elem_of_nil|vm_compute; reflexivity].
Defined.

Lemma va_ioctl_safe_witness :
  exists s', va_operation 4096 9 1 (request AMDGPU_VA_OP_MAP 8388608 0 4096) no_errors run_open = Ok (0, s').
Proof.
  destruct (va_ioctl_safe 4096 9 (run_env never) 1 (BoVa [] [] 1 4096 0) (request AMDGPU_VA_OP_MAP 8388608 0 4096) no_errors run_open) as (r & s' & E & _ & H).
  - lia.
  - unfold is_u32. lia.
  - apply run_open_reachable.
  - reflexivity.
  - by exists 8.
  - unfold is_u64. cbn. lia.
  - unfold is_u64. cbn. lia.
  - unfold is_u64. cbn. lia.
  - cbn. lia.
  - exists s'. rewrite E, H; [done| |done]. split; [by exists 2048|]. split; [by exists 0|]. split; [by exists 1|]. split; [done|]. split; [cbn; lia|].
    split; [vm_compute; congruence|]. intros k m p (b & Hk & Hm). vm_compute in Hk. destruct k as [|[| |]|]; try done. injection Hk as <-. by apply elem_of_nil in Hm.
Defined.

(** The second update fails. *)
Definition second_fails (n : nat) : Z := if (n =? 1)%nat then - ENOMEM else 0.

(** A failed update can leave translations behind that nothing clears: the
    object moves, its update during a submission fails after its valid
    mappings were put back among the invalid ones, its handle is closed, and a
    further submission succeeds; the old place of the object, which is no longer
    part of the address space, still translates. *)
Theorem failed_update_leaves_translation :
  rtc (vm_step 4096 9 (run_env second_fails)) (init_vm 4096 9) (run_close second_fails) /\
  exists s', amdgpu_bo_vm_update_pte (run_env second_fails) false None 0 0 0 (run_close second_fails) = Ok (0, s') /\
    pt s' !! 2048 = Some (PteAddress 1114112 113) /\ bos s' !! 1 = None /\ va s' = [] /\ freed s' = [].
Proof.
  split.
  - eapply rtc_r; [eapply rtc_r; [apply run_move_reachable|]|].
    + eapply (step_cs _ _ _ false (Some [entry1]) 0 0 0 (- ENOMEM)); [|vm_compute; reflexivity].
      cbn. intros e k He%list_elem_of_singleton Hk. subst e. injection Hk as <-. vm_compute. by eexists.
    + eapply (step_close _ _ _ 1 0 tt). vm_compute. reflexivity.
  - eexists. split; [vm_compute; reflexivity|]. vm_compute. auto.
Qed.

(** The checks of [amdgpu_vm_bo_map] compare truncated values: an address
    above 2^44 passes the limit and reaches [BUG_ON]; and an offset whose sum
    with the size wraps is accepted although it lies outside the object, so that
    the update runs past the nodes of the object's memory. *)
Theorem map_checks_truncate :
  amdgpu_gem_va_ioctl 4096 9 (run_env never) true false (request AMDGPU_VA_OP_MAP (17592186044416 + 8388608) 0 4096) no_errors run_open = Fault /\
  let wrapped := request AMDGPU_VA_OP_MAP 8388608 18446744073709547520 8192 in
  (exists s', va_operation 4096 9 1 wrapped no_errors run_open = Ok (0, s') /\ maps s' 1 (VaMapping 0 2048 2049 18446744073709547520 96)) /\
  amdgpu_gem_va_ioctl 4096 9 (run_env never) true false wrapped no_errors run_open = Fault.
Proof.
  split; [vm_compute; reflexivity|]. cbv zeta. split; [|vm_compute; reflexivity]. eexists. split; [vm_compute; reflexivity|].
  eexists. split; [vm_compute; reflexivity|]. apply elem_of_mappings. right. by left.
Qed.
