(* ===== verification/Sync.v ===== *)
(** * Sync objects ([amdgpu/amdgpu_sync.c])

    A sync object collects the fences a job must wait for, one for each fence
    context, in a hash table of 16 buckets.  Fences are signaled by others:
    operations that ask whether a fence is signaled take the present answers as
    [signaled].  A fence has a sequence number of 32 bits; [number] is the
    number before it is cut, which the code does not see. *)

From stdpp Require Import base numbers list relations.
From S2P Require Import Prelude.

(** What [struct amd_sched_fence] adds: the device and scheduler it belongs to
    and who created it; [finished] tells its two fences apart. *)
Record amd_sched_fence := SchedFence { sf_adev : Z; sf_sched : Z; sf_owner : Z; finished : bool }.
Record fence := Fence { context : Z; number : Z; sched_fence : option amd_sched_fence }.
#[global] Instance amd_sched_fence_eq_dec : EqDecision amd_sched_fence.
Proof. solve_decision. Defined.
#[global] Instance fence_eq_dec : EqDecision fence.
Proof. solve_decision. Defined.

Definition seqno (f : fence) : Z := u32 (number f).
Definition fence_is_later (f1 f2 : fence) : bool :=
  if negb (context f1 =? context f2) then false else 0 <? s32 (seqno f1 - seqno f2).

(** [&s_fence->scheduled]: the fence of the entity's first context. *)
Definition scheduled (f : fence) : fence :=
  match sched_fence f with
  | Some s => if finished s then Fence (context f - 1) (number f) (Some (SchedFence (sf_adev s) (sf_sched s) (sf_owner s) false)) else f
  | None => f
  end.

Record amdgpu_sync := Sync { fences : list (list fence); last_vm_update : option fence }.

Definition AMDGPU_FENCE_OWNER_UNDEFINED : Z := 0.
Definition AMDGPU_FENCE_OWNER_VM : Z := 1.

Definition amdgpu_sync_create : amdgpu_sync := Sync (replicate 16 []) None.

Definition amdgpu_sync_same_dev (adev : Z) (f : fence) : bool :=
  match sched_fence f with Some s => sf_adev s =? adev | None => false end.
Definition amdgpu_sync_get_owner (f : fence) : Z :=
  match sched_fence f with Some s => sf_owner s | None => AMDGPU_FENCE_OWNER_UNDEFINED end.

Definition amdgpu_sync_keep_later (keep : option fence) (f : fence) : option fence :=
  match keep with
  | Some k => if fence_is_later k f then Some k else Some f
  | None => Some f
  end.

(** The entries of one bucket, the first of the fence's context replaced. *)
Fixpoint bucket_add_later (b : list fence) (f : fence) : option (list fence) :=
  match b with
  | [] => None
  | e :: b =>
      if negb (context e =? context f) then cons e <$> bucket_add_later b f
      else Some ((if fence_is_later e f then e else f) :: b)
  end.

Section sync.
(** The hash function of the kernel, and the device. *)
Context (hash : Z -> nat) (adev : Z).

Definition amdgpu_sync_add_later (sync : amdgpu_sync) (f : fence) : option amdgpu_sync :=
  b ← fences sync !! hash (context f);
  b' ← bucket_add_later b f;
  Some (Sync (<[hash (context f) := b']> (fences sync)) (last_vm_update sync)).

Definition hash_add (sync : amdgpu_sync) (f : fence) : amdgpu_sync :=
  let i := hash (context f) in
  match fences sync !! i with
  | Some b => Sync (<[i := f :: b]> (fences sync)) (last_vm_update sync)
  | None => sync
  end.

Definition amdgpu_sync_fence (sync : amdgpu_sync) (f : option fence) (alloc_ok : bool) : Z * amdgpu_sync :=
  match f with
  | None => (0, sync)
  | Some f =>
      let sync :=
        if amdgpu_sync_same_dev adev f && (amdgpu_sync_get_owner f =? AMDGPU_FENCE_OWNER_VM)
        then Sync (fences sync) (amdgpu_sync_keep_later (last_vm_update sync) f) else sync in
      match amdgpu_sync_add_later sync f with
      | Some sync => (0, sync)
      | None => if alloc_ok then (0, hash_add sync f) else (- ENOMEM, sync)
      end
  end.

(** A reservation object: its exclusive fence and its shared ones, if it has a
    list of them. *)
Record reservation_object := Resv { excl : option fence; shared : option (list fence) }.

(** [continue] in the loop of [amdgpu_sync_resv]. *)
Definition skip_shared (owner : Z) (f : fence) : bool :=
  amdgpu_sync_same_dev adev f &&
  (let fence_owner := amdgpu_sync_get_owner f in
   negb (owner =? AMDGPU_FENCE_OWNER_UNDEFINED) && negb (fence_owner =? AMDGPU_FENCE_OWNER_UNDEFINED) &&
   negb (Bool.eqb (owner =? AMDGPU_FENCE_OWNER_VM) (fence_owner =? AMDGPU_FENCE_OWNER_VM)) ||
   negb (owner =? AMDGPU_FENCE_OWNER_UNDEFINED) && (fence_owner =? owner)).

Fixpoint sync_shared (sync : amdgpu_sync) (owner : Z) (l : list fence) (alloc_ok : nat -> bool) : Z * amdgpu_sync :=
  match l with
  | [] => (0, sync)
  | f :: l =>
      if skip_shared owner f then sync_shared sync owner l (fun i => alloc_ok (S i))
      else
        let '(r, sync) := amdgpu_sync_fence sync (Some f) (alloc_ok 0%nat) in
        if negb (r =? 0) then (r, sync) else sync_shared sync owner l (fun i => alloc_ok (S i))
  end.

Definition amdgpu_sync_resv (sync : amdgpu_sync) (resv : option reservation_object) (owner : Z) (alloc_ok : nat -> bool) : Z * amdgpu_sync :=
  match resv with
  | None => (- EINVAL, sync)
  | Some resv =>
      let '(r, sync) := amdgpu_sync_fence sync (excl resv) (alloc_ok 0%nat) in
      match shared resv with
      | None => (r, sync)
      | Some l => if negb (r =? 0) then (r, sync) else sync_shared sync owner l (fun i => alloc_ok (S i))
      end
  end.
End sync.

(** ** Taking fences out *)

(** An iteration over the table: [visit] decides for each entry to keep it, to
    drop it, or to stop with a result, keeping or dropping it. *)
Inductive visit (A : Type) := VKeep | VDrop | VStop (keep : bool) (a : A).
Arguments VKeep {A}.
Arguments VDrop {A}.
Arguments VStop {A} keep a.

Fixpoint each_entry {A} (v : fence -> visit A) (b : list fence) : option A * list fence :=
  match b with
  | [] => (None, [])
  | e :: b =>
      match v e with
      | VKeep => let '(r, b) := each_entry v b in (r, e :: b)
      | VDrop => each_entry v b
      | VStop keep a => (Some a, if keep then e :: b else b)
      end
  end.
Fixpoint each_bucket {A} (v : fence -> visit A) (l : list (list fence)) : option A * list (list fence) :=
  match l with
  | [] => (None, [])
  | b :: l =>
      match each_entry v b with
      | (Some a, b) => (Some a, b :: l)
      | (None, b) => let '(r, l) := each_bucket v l in (r, b :: l)
      end
  end.
Definition hash_for_each_safe {A} (v : fence -> visit A) (sync : amdgpu_sync) : option A * amdgpu_sync :=
  let '(r, l) := each_bucket v (fences sync) in (r, Sync l (last_vm_update sync)).

Section take.
Context (signaled : fence -> bool).

(** [ring]: the scheduler of the optional ring. *)
Definition peek_visit (ring : option Z) (f : fence) : visit fence :=
  match ring, sched_fence f with
  | Some ring, Some s =>
      if sf_sched s =? ring then (if signaled (scheduled f) then VKeep else VStop true (scheduled f))
      else if signaled f then VDrop else VStop true f
  | _, _ => if signaled f then VDrop else VStop true f
  end.
Definition amdgpu_sync_peek_fence (sync : amdgpu_sync) (ring : option Z) : option fence * amdgpu_sync :=
  hash_for_each_safe (peek_visit ring) sync.

Definition amdgpu_sync_get_fence (sync : amdgpu_sync) : option fence * amdgpu_sync :=
  hash_for_each_safe (fun f => if signaled f then VDrop else VStop false f) sync.

(** [wait_r] is the result of [fence_wait], after which the fence is signaled. *)
Definition amdgpu_sync_wait (wait_r : fence -> Z) (sync : amdgpu_sync) : Z * amdgpu_sync :=
  let '(r, sync) := hash_for_each_safe (fun f => if negb (wait_r f =? 0) then VStop true (wait_r f) else VDrop) sync in
  (default 0 r, sync).

Definition amdgpu_sync_free (sync : amdgpu_sync) : amdgpu_sync :=
  (hash_for_each_safe (fun _ => VDrop (A := unit)) sync).2.
End take.

(** ** Sync objects lose no fence

    A fence of a context signals before the later ones of that context, so an
    object that keeps the latest fence of each context stands for all fences
    that were added.  [sync_step] interleaves the operations with fences that
    signal; the ghost lists say what was added and what was handed out. *)

Definition entries (s : amdgpu_sync) : list fence := concat (fences s).

(** Waiting for [e] is waiting for [f]. *)
Definition after (f e : fence) : Prop := context f = context e /\ number f <= number e.
Definition covered (l : list fence) (f : fence) : Prop := exists e, e ∈ l /\ after f e.
(** Sequence numbers that are compared lie within half their range. *)
Definition close (l : list fence) : Prop :=
  forall f g, f ∈ l -> g ∈ l -> context f = context g -> number f - number g < 2147483648.
Definition in_order (sig : fence -> bool) : Prop := forall f e, after f e -> sig e = true -> sig f = true.

Lemma after_refl f : after f f.
Proof. by split. Qed.
Lemma after_trans f g h : after f g -> after g h -> after f h.
Proof. intros [? ?] [? ?]. split; [congruence|lia]. Qed.
Lemma covered_mono l l' f : (forall e, e ∈ l -> e ∈ l') -> covered l f -> covered l' f.
Proof. intros H (e & He & ?). exists e. auto. Qed.

Lemma fence_is_later_spec f g :
  context f = context g -> number f - number g < 2147483648 -> number g - number f < 2147483648 ->
  fence_is_later f g = true <-> number g < number f.
Proof.
  intros Hc H1 H2. unfold fence_is_later. rewrite (proj2 (Z.eqb_eq _ _) Hc). cbn [negb].
  replace (s32 (seqno f - seqno g)) with (number f - number g) by (unfold seqno; cint). rewrite Z.ltb_lt. lia.
Qed.

(** The later of two fences stands for both. *)
Lemma keep_later_after e f : context e = context f -> close [e; f] ->
  let k := if fence_is_later e f then e else f in after e k /\ after f k /\ (k = e \/ k = f).
Proof.
  intros Hc Hcl. pose proof (Hcl e f ltac:(set_solver) ltac:(set_solver) Hc) as H1.
  pose proof (Hcl f e ltac:(set_solver) ltac:(set_solver) ltac:(done)) as H2.
  pose proof (fence_is_later_spec e f Hc H1 H2) as Hl. unfold after. destruct (fence_is_later e f).
  - assert (number f < number e) by by apply Hl. auto with lia.
  - assert (~ number f < number e) by (intros H; by apply Hl in H). auto with lia.
Qed.

Section spec.
Context (hash : Z -> nat) (adev : Z) (Hhash : forall c, (hash c < 16)%nat).

Record wf (s : amdgpu_sync) : Prop := Wf {
  wf_length : length (fences s) = 16%nat;
  wf_bucket : forall i b f, fences s !! i = Some b -> f ∈ b -> hash (context f) = i;
  wf_context : NoDup (context <$> entries s) }.

Lemma elem_of_entries f s : f ∈ entries s <-> exists i b, fences s !! i = Some b /\ f ∈ b.
Proof.
  unfold entries. rewrite list_elem_of_In, in_concat. setoid_rewrite <- list_elem_of_In.
  setoid_rewrite list_elem_of_lookup at 1. naive_solver.
Qed.

(** ** Adding *)

Lemma bucket_add_later_spec b f b' :
  bucket_add_later b f = Some b' ->
  exists e b1 b2, b = b1 ++ e :: b2 /\ context e = context f /\ b' = b1 ++ (if fence_is_later e f then e else f) :: b2.
Proof.
  revert b'. induction b as [|e b IH]; intros b' H; cbn in H; [done|].
  destruct (Z.eqb_spec (context e) (context f)) as [Hc|Hc]; cbn in H.
  - injection H as <-. by exists e, [], b.
  - destruct (bucket_add_later b f) as [b0|] eqn:E; [|done]. cbn in H. injection H as <-.
    destruct (IH b0 eq_refl) as (e' & b1 & b2 & -> & Hc' & ->). by exists e', (e :: b1), b2.
Qed.
Lemma bucket_add_later_none b f : bucket_add_later b f = None -> forall e, e ∈ b -> context e <> context f.
Proof.
  induction b as [|e b IH]; intros H g Hg; cbn in H; [by apply elem_of_nil in Hg|].
  destruct (Z.eqb_spec (context e) (context f)) as [Hc|Hc]; cbn in H; [done|].
  destruct (bucket_add_later b f); [done|]. apply elem_of_cons in Hg as [->|Hg]; [done|]. by apply IH.
Qed.

Lemma entries_insert s i b b' :
  fences s !! i = Some b ->
  exists l1 l2, entries s = l1 ++ b ++ l2 /\ entries (Sync (<[i := b']> (fences s)) (last_vm_update s)) = l1 ++ b' ++ l2.
Proof.
  intros Hi. exists (concat (take i (fences s))), (concat (drop (S i) (fences s))). unfold entries. cbn.
  split.
  - rewrite <- (take_drop_middle _ _ _ Hi) at 1. by rewrite concat_app.
  - rewrite insert_take_drop by (by eapply lookup_lt_Some). by rewrite concat_app.
Qed.

(** What adding [f] does to the entries: the entry of its context becomes the
    later of the two, or there was none and it is added. *)
Lemma sync_fence_entries s f ok r s' :
  wf s -> amdgpu_sync_fence hash adev s (Some f) ok = (r, s') ->
  (r = - ENOMEM /\ ok = false /\ fences s' = fences s) \/
  r = 0 /\ ((exists e l1 l2, context e = context f /\ entries s = l1 ++ e :: l2 /\
              entries s' = l1 ++ (if fence_is_later e f then e else f) :: l2) \/
            (forall e, e ∈ entries s -> context e <> context f) /\ entries s' ≡ₚ f :: entries s) /\
  length (fences s') = 16%nat /\ (forall i b g, fences s' !! i = Some b -> g ∈ b -> hash (context g) = i).
Proof.
  intros W. unfold amdgpu_sync_fence. set (s0 := if amdgpu_sync_same_dev adev f && _ then _ else s).
  assert (Ef : fences s0 = fences s) by (subst s0; by destruct (_ && _)). clearbody s0.
  unfold amdgpu_sync_add_later. rewrite Ef. set (i := hash (context f)).
  destruct (lookup_lt_is_Some_2 (fences s) i) as [b Hb]; [rewrite (wf_length _ W); apply Hhash|]. rewrite Hb. cbn.
  destruct (bucket_add_later b f) as [b'|] eqn:E; cbn.
  - intros [= <- <-]. right. split; [done|]. destruct (bucket_add_later_spec b f b' E) as (e & b1 & b2 & -> & Hc & ->).
    split; [left|split].
    + destruct (entries_insert s i _ (b1 ++ (if fence_is_later e f then e else f) :: b2) Hb) as (l1 & l2 & E1 & E2).
      exists e, (l1 ++ b1), (b2 ++ l2). split; [done|]. rewrite E1. 
      unfold entries in *. cbn [fences] in *. rewrite E2. by rewrite <- !app_assoc.
    + cbn. by rewrite length_insert, (wf_length _ W).
    + cbn. intros j c g Hj Hg. apply list_lookup_insert_Some in Hj as [(<- & <- & _)|[_ Hj]]; [|by apply (wf_bucket _ W j c)].
      apply elem_of_app in Hg as [Hg|Hg]; [apply (wf_bucket _ W i (b1 ++ e :: b2)); [done|set_solver]|].
      apply elem_of_cons in Hg as [->|Hg]; [|apply (wf_bucket _ W i (b1 ++ e :: b2)); [done|set_solver]].
      destruct (fence_is_later e f); [apply (wf_bucket _ W i (b1 ++ e :: b2)); [done|set_solver]|done].
  - destruct ok; intros [= <- <-]; [|left; by rewrite Ef]. right. split; [done|]. unfold hash_add. cbn zeta. rewrite Ef. fold i. rewrite Hb. cbn [fences].
    split; [right|split].
    + split.
      * intros e (j & c & Hj & He)%elem_of_entries Hc. pose proof (wf_bucket _ W j c e Hj He) as Hh.
        rewrite Hc in Hh. fold i in Hh. subst j. rewrite Hb in Hj. injection Hj as <-. by apply (bucket_add_later_none b f E e He).
      * destruct (entries_insert s i b (f :: b) Hb) as (l1 & l2 & E1 & E2). unfold entries in *. cbn in *.
        rewrite E2, E1. symmetry. apply Permutation_middle.
    + by rewrite length_insert, (wf_length _ W).
    + intros j c g Hj Hg. apply list_lookup_insert_Some in Hj as [(<- & <- & _)|[_ Hj]]; [|by apply (wf_bucket _ W j c)].
      apply elem_of_cons in Hg as [->|Hg]; [done|]. by apply (wf_bucket _ W i b).
Qed.

Lemma sync_fence_wf s f ok r s' :
  wf s -> amdgpu_sync_fence hash adev s (Some f) ok = (r, s') -> wf s'.
Proof.
  intros W E. destruct (sync_fence_entries s f ok r s' W E) as [(_ & _ & Ef)|(_ & He & Hl & Hb)].
  - destruct W as [W1 W2 W3]. split; unfold entries in *; by rewrite Ef.
  - split; [done|done|]. pose proof (wf_context _ W) as Hn. destruct He as [(e & l1 & l2 & Hc & E1 & E2)|[Hno Hp]].
    + rewrite E2. rewrite E1 in Hn. rewrite fmap_app in *. cbn in *. by destruct (fence_is_later e f); [|rewrite <- Hc].
    + rewrite Hp. cbn. constructor; [|done]. intros (g & Hg & Hin)%list_elem_of_fmap. by apply (Hno g Hin).
Qed.

(** Nothing that was covered is lost, and the new fence is covered. *)
Lemma sync_fence_covers s f ok s' out :
  wf s -> close (f :: entries s) -> amdgpu_sync_fence hash adev s (Some f) ok = (0, s') ->
  covered (entries s' ++ out) f /\ (forall g, covered (entries s ++ out) g -> covered (entries s' ++ out) g) /\
  (forall e, e ∈ entries s' -> e = f \/ e ∈ entries s).
Proof.
  intros W Hcl E. destruct (sync_fence_entries s f ok 0 s' W E) as [(Hr & _)|(_ & He & _)]; [done|].
  destruct He as [(e & l1 & l2 & Hc & E1 & E2)|[Hno Hp]].
  - destruct (keep_later_after e f Hc) as (He & Hf & Hk).
    { intros x y Hx Hy. apply Hcl; rewrite E1; set_solver. }
    set (k := if fence_is_later e f then e else f) in *. rewrite E1, E2. split; [|split].
    + exists k. split; [set_solver|done].
    + intros g (x & Hx & Hg). destruct (decide (x = e)) as [->|Hne]; [exists k; split; [set_solver|by apply (after_trans g e k)]|].
      exists x. split; [set_solver|done].
    + intros x Hx. destruct Hk as [Hk|Hk]; rewrite Hk in Hx; set_solver.
  - split; [|split].
    + exists f. split; [rewrite Hp; set_solver|apply after_refl].
    + intros g. apply covered_mono. intros e. rewrite !elem_of_app, Hp. set_solver.
    + intros e. rewrite Hp. set_solver.
Qed.

(** ** Iterating *)

Lemma each_entry_spec {A} (v : fence -> visit A) b r b' :
  each_entry v b = (r, b') ->
  sublist b' b /\ (forall e, e ∈ b -> e ∈ b' \/ v e = VDrop \/ exists a, v e = VStop false a /\ r = Some a) /\
  (r = None -> forall e, e ∈ b -> v e = VKeep \/ v e = VDrop).
Proof.
  revert r b'. induction b as [|e b IH]; intros r b' H; cbn in H.
  { injection H as <- <-. split; [done|]. split; [set_solver|set_solver]. }
  destruct (v e) as [| |keep a] eqn:Ev.
  - destruct (each_entry v b) as [r0 b0]. injection H as <- <-. destruct (IH r0 b0 eq_refl) as (Hs & Hd & Hn).
    split; [by constructor|]. split; [|set_solver]. intros x Hx. apply elem_of_cons in Hx as [->|Hx]; [by left; left|].
    destruct (Hd x Hx) as [?|?]; [by left; right|by right].
  - destruct (IH r b' H) as (Hs & Hd & Hn). split; [by constructor|]. split; [|set_solver].
    intros x Hx. apply elem_of_cons in Hx as [->|Hx]; [auto|by apply Hd].
  - injection H as <- <-. destruct keep.
    + split; [done|]. split; [set_solver|done].
    + split; [by constructor|]. split; [|done]. intros x Hx. apply elem_of_cons in Hx as [->|Hx]; [|by left].
      right. right. by exists a.
Qed.

Lemma each_bucket_spec {A} (v : fence -> visit A) l r l' :
  each_bucket v l = (r, l') ->
  Forall2 sublist l' l /\ (forall e, e ∈ concat l -> e ∈ concat l' \/ v e = VDrop \/ exists a, v e = VStop false a /\ r = Some a) /\
  (r = None -> forall e, e ∈ concat l -> v e = VKeep \/ v e = VDrop).
Proof.
  revert r l'. induction l as [|b l IH]; intros r l' H; cbn in H.
  { injection H as <- <-. split; [constructor|]. split; [set_solver|set_solver]. }
  destruct (each_entry v b) as [r0 b0] eqn:Eb. destruct (each_entry_spec v b r0 b0 Eb) as (Hs & Hd & Hn). destruct r0 as [a|].
  - injection H as <- <-. split; [constructor; [done|]|split; [|done]].
    + clear. induction l; constructor; done.
    + intros e. cbn. rewrite !elem_of_app. intros [He|He]; [|by left; right]. destruct (Hd e He) as [?|?]; [by left; left|by right].
  - destruct (each_bucket v l) as [r1 l1]. injection H as <- <-. destruct (IH r1 l1 eq_refl) as (Hs1 & Hd1 & Hn1).
    split; [by constructor|]. cbn. setoid_rewrite elem_of_app. split.
    + intros e [He|He].
      * destruct (Hd e He) as [?|[?|(a & _ & ?)]]; [by left; left|by right; left|done].
      * destruct (Hd1 e He) as [?|?]; [by left; right|by right].
    + intros -> e [He|He]; [by apply Hn|by apply Hn1].
Qed.

(** The result comes from an entry. *)
Lemma each_entry_result {A} (v : fence -> visit A) b a b' :
  each_entry v b = (Some a, b') -> exists e keep, e ∈ b /\ v e = VStop keep a.
Proof.
  revert b'. induction b as [|e b IH]; intros b' H; cbn in H; [done|]. destruct (v e) as [| |keep x] eqn:Ev.
  - destruct (each_entry v b) as [r0 b0]. injection H as -> <-. destruct (IH b0 eq_refl) as (g & k & Hg & Hv). exists g, k. set_solver.
  - destruct (IH b' H) as (g & k & Hg & Hv). exists g, k. set_solver.
  - injection H as <- _. exists e, keep. set_solver.
Qed.
Lemma for_each_result {A} (v : fence -> visit A) s a s' :
  hash_for_each_safe v s = (Some a, s') -> exists e keep, e ∈ entries s /\ v e = VStop keep a.
Proof.
  unfold hash_for_each_safe, entries. destruct (each_bucket v (fences s)) as [r l'] eqn:E. intros [= -> _].
  revert l' E. induction (fences s) as [|b l IH]; intros l' E; cbn in E; [done|].
  destruct (each_entry v b) as [r0 b0] eqn:Eb. destruct r0 as [x|].
  - injection E as -> _. destruct (each_entry_result v b a b0 Eb) as (e & k & He & Hv). exists e, k. split; [|done]. cbn. set_solver.
  - destruct (each_bucket v l) as [r1 l1]. injection E as -> _. destruct (IH l1 eq_refl) as (e & k & He & Hv). exists e, k. split; [|done]. cbn. set_solver.
Qed.

Lemma sublist_concat (l' l : list (list fence)) : Forall2 sublist l' l -> sublist (concat l') (concat l).
Proof. induction 1 as [|b' b l' l Hb _ IH]; cbn; [done|]. by apply sublist_app. Qed.

Lemma for_each_spec {A} (v : fence -> visit A) s r s' :
  wf s -> hash_for_each_safe v s = (r, s') ->
  wf s' /\ (forall e, e ∈ entries s' -> e ∈ entries s) /\
  (forall e, e ∈ entries s -> e ∈ entries s' \/ v e = VDrop \/ exists a, v e = VStop false a /\ r = Some a) /\
  (r = None -> forall e, e ∈ entries s -> v e = VKeep \/ v e = VDrop).
Proof.
  intros W H. unfold hash_for_each_safe in H. destruct (each_bucket v (fences s)) as [r0 l'] eqn:E. injection H as <- <-.
  destruct (each_bucket_spec v _ _ _ E) as (Hs & Hd & Hn). pose proof (sublist_concat _ _ Hs) as Hsub.
  unfold entries. cbn. split; [|split; [|by split]].
  - split; cbn.
    + by rewrite (Forall2_length _ _ _ Hs), (wf_length _ W).
    + intros i b f Hi Hf. destruct (Forall2_lookup_l _ _ _ _ _ Hs Hi) as (b0 & Hi0 & Hb0).
      apply (wf_bucket _ W i b0 f Hi0). by apply (elem_of_sublist b b0 f).
    + apply (sublist_NoDup (context <$> concat l') (context <$> concat (fences s))); [apply W|]. by apply fmap_sublist.
  - intros e He. by apply (elem_of_sublist (concat l') _ e).
Qed.

(** ** The object over time *)

Record sync_state := SyncState {
  obj : amdgpu_sync; added : list fence; out : list fence; sig : fence -> bool }.

(** The fences of a reservation object that a job of [owner] has to wait for:
    the exclusive one, and the shared ones of other devices, of unknown owners
    and of other owners, except that page-table updates and other work do not
    wait for each other. *)
Definition must_wait (owner : Z) (f : fence) : Prop :=
  match sched_fence f with
  | None => True
  | Some s => sf_adev s <> adev \/ owner = AMDGPU_FENCE_OWNER_UNDEFINED \/
      sf_owner s <> owner /\ (sf_owner s = AMDGPU_FENCE_OWNER_UNDEFINED \/
                              (owner = AMDGPU_FENCE_OWNER_VM <-> sf_owner s = AMDGPU_FENCE_OWNER_VM))
  end.
#[global] Instance must_wait_dec owner f : Decision (must_wait owner f).
Proof. unfold must_wait. destruct (sched_fence f); apply _. Defined.
Definition waits_for (owner : Z) (resv : reservation_object) : list fence :=
  option_list (excl resv) ++ filter (must_wait owner) (default [] (shared resv)).

Inductive sync_step : sync_state -> sync_state -> Prop :=
  | step_add s f ok r o' :
      close (f :: added s) -> amdgpu_sync_fence hash adev (obj s) (Some f) ok = (r, o') ->
      sync_step s (SyncState o' (if r =? 0 then f :: added s else added s) (out s) (sig s))
  | step_resv s resv owner ok o' :
      close (waits_for owner resv ++ added s) -> amdgpu_sync_resv hash adev (obj s) (Some resv) owner ok = (0, o') ->
      sync_step s (SyncState o' (waits_for owner resv ++ added s) (out s) (sig s))
  | step_peek s ring f o' :
      amdgpu_sync_peek_fence (sig s) (obj s) ring = (f, o') -> sync_step s (SyncState o' (added s) (out s) (sig s))
  | step_get s f o' :
      amdgpu_sync_get_fence (sig s) (obj s) = (f, o') ->
      sync_step s (SyncState o' (added s) (option_list f ++ out s) (sig s))
  | step_signal s sig' :
      (forall f, sig s f = true -> sig' f = true) -> in_order sig' -> sync_step s (SyncState (obj s) (added s) (out s) sig').

Definition init_sync (sig0 : fence -> bool) : sync_state := SyncState amdgpu_sync_create [] [] sig0.

Record sync_inv (s : sync_state) : Prop := SyncInv {
  si_wf : wf (obj s);
  si_order : in_order (sig s);
  si_covered : forall f, f ∈ added s -> sig s f = true \/ covered (entries (obj s) ++ out s) f;
  si_added : forall e, e ∈ entries (obj s) ++ out s -> e ∈ added s }.

Lemma skip_shared_spec owner f : skip_shared adev owner f = true <-> ~ must_wait owner f.
Proof.
  unfold skip_shared, must_wait, amdgpu_sync_same_dev, amdgpu_sync_get_owner, AMDGPU_FENCE_OWNER_UNDEFINED, AMDGPU_FENCE_OWNER_VM.
  destruct (sched_fence f) as [s|]; cbn; [|naive_solver].
  destruct (Z.eqb_spec (sf_adev s) adev), (Z.eqb_spec owner 0), (Z.eqb_spec (sf_owner s) 0), (Z.eqb_spec owner 1), (Z.eqb_spec (sf_owner s) 1),
    (Z.eqb_spec (sf_owner s) owner); cbn; split; intros; try done; try lia; try (intros H'; lia); try tauto.
Qed.

Lemma inv_added_ext o a a' ou sg :
  (forall x, x ∈ a <-> x ∈ a') -> sync_inv (SyncState o a ou sg) -> sync_inv (SyncState o a' ou sg).
Proof. intros H [W O C A]. split; cbn in *; [done|done|intros f Hf; apply C; by apply H|intros e He; apply H; by apply A]. Qed.

Lemma add_inv o a ou sg f ok o' :
  sync_inv (SyncState o a ou sg) -> close (f :: a) -> amdgpu_sync_fence hash adev o (Some f) ok = (0, o') ->
  sync_inv (SyncState o' (f :: a) ou sg).
Proof.
  intros [W O C A] Hcl E. cbn in *.
  destruct (sync_fence_covers o f ok o' ou W) as (Hf & Hm & He); [|done|].
  { intros x y Hx Hy. apply Hcl; set_solver. }
  split; cbn; [by apply (sync_fence_wf o f ok 0)|done| |].
  - intros g Hg. apply elem_of_cons in Hg as [->|Hg]; [by right|]. destruct (C g Hg); auto.
  - intros e Hx. apply elem_of_app in Hx as [Hx|Hx]; [|set_solver]. destruct (He e Hx) as [->|Hx']; set_solver.
Qed.

Lemma add_failed_inv o a ou sg f ok r o' :
  sync_inv (SyncState o a ou sg) -> r <> 0 -> amdgpu_sync_fence hash adev o (Some f) ok = (r, o') ->
  sync_inv (SyncState o' a ou sg).
Proof.
  intros [W O C A] Hr E. cbn in *.
  destruct (sync_fence_entries o f ok r o' W E) as [(_ & _ & Ef)|[? _]]; [|done].
  assert (Ee : entries o' = entries o) by (unfold entries; by rewrite Ef).
  split; cbn; [by apply (sync_fence_wf o f ok r)|done| |]; by rewrite Ee.
Qed.

Lemma shared_inv owner l o a ou sg ok o' :
  sync_inv (SyncState o a ou sg) -> close (filter (must_wait owner) l ++ a) -> sync_shared hash adev o owner l ok = (0, o') ->
  sync_inv (SyncState o' (filter (must_wait owner) l ++ a) ou sg).
Proof.
  revert o a ok. induction l as [|f l IH]; intros o a ok I Hcl E; cbn [sync_shared] in E; [by injection E as <-|].
  rewrite filter_cons in Hcl |- *. destruct (skip_shared adev owner f) eqn:Hs.
  - apply skip_shared_spec in Hs. rewrite decide_False in * by done. by apply (IH o a (fun i => ok (S i))).
  - assert (Hm : must_wait owner f).
    { destruct (decide (must_wait owner f)) as [?|Hn]; [done|]. apply skip_shared_spec in Hn. congruence. }
    rewrite decide_True in Hcl |- * by done. destruct (amdgpu_sync_fence hash adev o (Some f) (ok 0%nat)) as [r o1] eqn:E1.
    destruct (Z.eqb_spec r 0) as [->|Hr]; cbn [negb] in E; [|congruence].
    apply (inv_added_ext o' (filter (must_wait owner) l ++ f :: a)); [set_solver|].
    apply (IH o1 (f :: a) (fun i => ok (S i))); [|intros x y Hx Hy; apply Hcl; set_solver|done].
    apply (add_inv o a ou sg f (ok 0%nat)); [done|intros x y Hx Hy; apply Hcl; set_solver|done].
Qed.

Lemma resv_inv owner resv o a ou sg ok o' :
  sync_inv (SyncState o a ou sg) -> close (waits_for owner resv ++ a) -> amdgpu_sync_resv hash adev o (Some resv) owner ok = (0, o') ->
  sync_inv (SyncState o' (waits_for owner resv ++ a) ou sg).
Proof.
  intros I Hcl E. cbn [amdgpu_sync_resv] in E. unfold waits_for in *.
  destruct (amdgpu_sync_fence hash adev o (excl resv) (ok 0%nat)) as [r o1] eqn:E1.
  assert (r = 0) as -> by (destruct (shared resv); [destruct (Z.eqb_spec r 0); cbn in E|]; congruence).
  assert (I1 : sync_inv (SyncState o1 (option_list (excl resv) ++ a) ou sg)).
  { destruct (excl resv) as [f|]; cbn in *; [|by injection E1 as <-].
    apply (add_inv o a ou sg f (ok 0%nat)); [done|intros x y Hx Hy; apply Hcl; set_solver|done]. }
  destruct (shared resv) as [l|]; cbn in *.
  - apply (inv_added_ext o' (filter (must_wait owner) l ++ option_list (excl resv) ++ a)); [set_solver|].
    apply (shared_inv owner l o1 _ ou sg (fun i => ok (S i))); [done|intros x y Hx Hy; apply Hcl; set_solver|done].
  - injection E as <-. by rewrite app_nil_r.
Qed.

(** Visiting the table keeps every fence that is not signaled, in the table or
    as the result. *)
Lemma visit_inv {A} (v : fence -> visit A) o a ou ou' sg r o' :
  sync_inv (SyncState o a ou sg) -> hash_for_each_safe v o = (r, o') ->
  (forall e, v e = VDrop -> sg e = true) ->
  (forall e f, e ∈ entries o -> v e = VStop false f -> r = Some f -> e ∈ ou') ->
  (forall e, e ∈ ou -> e ∈ ou') -> (forall e, e ∈ ou' -> e ∈ a) -> sync_inv (SyncState o' a ou' sg).
Proof.
  intros [W O C A'] E Hd Hs H1 H2. cbn in *. destruct (for_each_spec v o r o' W E) as (W' & Hsub & Hk & _).
  split; cbn; [done|done| |].
  - intros f Hf. destruct (C f Hf) as [?|(e & He & Ha)]; [by left|]. apply elem_of_app in He as [He|He].
    + destruct (Hk e He) as [He'|[Hdrop|(x & Hv & Hr)]].
      * right. exists e. split; [set_solver|done].
      * left. apply (O f e Ha). by apply Hd.
      * right. exists e. split; [|done]. apply elem_of_app. right. by apply (Hs e x).
    + right. exists e. split; [|done]. apply elem_of_app. right. by apply H1.
  - intros e He. apply elem_of_app in He as [He|He]; [|by apply H2]. apply A'. apply elem_of_app. left. by apply Hsub.
Qed.

Lemma peek_drops sg ring e : peek_visit sg ring e = VDrop -> sg e = true.
Proof.
  unfold peek_visit. destruct ring as [g|], (sched_fence e) as [sf|]; try destruct (sf_sched sf =? g);
    try destruct (sg (scheduled e)); by destruct (sg e).
Qed.
Lemma peek_keeps sg ring e f : peek_visit sg ring e <> VStop false f.
Proof.
  unfold peek_visit. destruct ring as [g|], (sched_fence e) as [sf|]; try destruct (sf_sched sf =? g);
    try destruct (sg (scheduled e)); by destruct (sg e).
Qed.

Lemma sync_step_inv s s' : sync_inv s -> sync_step s s' -> sync_inv s'.
Proof.
  intros I Hst. destruct Hst as [s f ok r o' Hcl E|s resv owner ok o' Hcl E|s ring f o' E|s f o' E|s sig' Hm Ho]; destruct s as [o a ou sg]; cbn in *.
  - destruct (Z.eqb_spec r 0) as [->|Hr]; [by apply (add_inv o a ou sg f ok)|by apply (add_failed_inv o a ou sg f ok r)].
  - by apply (resv_inv owner resv o a ou sg ok).
  - apply (visit_inv (peek_visit sg ring) o a ou ou sg f o' I E); [by apply peek_drops| |done|].
    + intros e g _ Hv. by apply peek_keeps in Hv.
    + intros e He. apply (si_added _ I). set_solver.
  - apply (visit_inv _ o a ou (option_list f ++ ou) sg f o' I E).
    + intros e. by destruct (sg e).
    + intros e g _. destruct (sg e); [done|]. intros [= ->] ->. set_solver.
    + set_solver.
    + intros e He. apply elem_of_app in He as [He|He]; [|apply (si_added _ I); set_solver].
      destruct f as [f|]; cbn in He; [|by apply elem_of_nil in He]. apply list_elem_of_singleton in He as ->.
      destruct (for_each_result _ _ _ _ E) as (e & k & He & Hv). destruct (sg e); [done|]. injection Hv as _ <-.
      apply (si_added _ I). set_solver.
  - destruct I as [W O C A]. split; cbn in *; [done|done| |done]. intros f Hf. destruct (C f Hf); auto.
Qed.

Lemma sync_init_inv sig0 : in_order sig0 -> sync_inv (init_sync sig0).
Proof.
  intros Ho. split; cbn; [|done|set_solver|].
  - split; cbn; [done| |constructor]. intros i b f Hi Hf.
    apply (lookup_replicate_1 16) in Hi as [-> _]. by apply elem_of_nil in Hf.
  - intros e He. by apply elem_of_nil in He.
Qed.

Lemma sync_reachable_inv sig0 s : in_order sig0 -> rtc sync_step (init_sync sig0) s -> sync_inv s.
Proof.
  intros Ho H. remember (init_sync sig0) as s0. assert (I : sync_inv s0) by (subst; by apply sync_init_inv). clear Heqs0.
  induction H as [s0|s0 s1 s2 H1 _ IH]; [done|]. by apply IH, (sync_step_inv s0).
Qed.

(** When a visit finds nothing, every fence is signaled or was handed out. *)
Lemma visited_all {A} (v : fence -> visit A) s o' sig' :
  sync_inv s -> hash_for_each_safe v (obj s) = (None, o') -> in_order sig' ->
  (forall f, sig s f = true -> sig' f = true) -> (forall e, v e = VKeep \/ v e = VDrop -> sig' e = true) ->
  forall f, f ∈ added s -> sig' f = true \/ covered (out s) f.
Proof.
  intros I E Ho Hm Hv f Hf. destruct (for_each_spec _ _ _ _ (si_wf _ I) E) as (_ & _ & _ & Hn).
  destruct (si_covered _ I f Hf) as [Hs|(e & He & Ha)]; [left; by apply Hm|].
  apply elem_of_app in He as [He|He]; [|right; by exists e]. left. apply (Ho f e Ha). apply Hv. by apply Hn.
Qed.
End spec.

(** C12: whatever is added to a sync object, from fences or reservation objects,
    and whatever signals or is taken out meanwhile: the object has at most one
    fence for a context, and every fence that was added is signaled or an equal
    or later fence of its context is in the object or was handed out.  So when
    the object is found empty (taking, peeking without a ring, waiting), every
    fence that was added is signaled or a later one was handed out. *)
Theorem sync_tracks_fences (hash : Z -> nat) (adev : Z) (sig0 : fence -> bool) (s : sync_state) :
  (forall c, (hash c < 16)%nat) -> in_order sig0 -> rtc (sync_step hash adev) (init_sync sig0) s ->
  NoDup (context <$> entries (obj s)) /\
  (forall f, f ∈ added s -> sig s f = true \/ covered (entries (obj s) ++ out s) f) /\
  (forall o', amdgpu_sync_get_fence (sig s) (obj s) = (None, o') \/ amdgpu_sync_peek_fence (sig s) (obj s) None = (None, o') ->
     forall f, f ∈ added s -> sig s f = true \/ covered (out s) f) /\
  (forall wait_r o' sig', amdgpu_sync_wait wait_r (obj s) = (0, o') -> in_order sig' ->
     (forall f, sig s f = true -> sig' f = true) -> (forall f, wait_r f = 0 -> sig' f = true) ->
     forall f, f ∈ added s -> sig' f = true \/ covered (out s) f).
Proof.
  intros Hh Ho H. pose proof (sync_reachable_inv hash adev Hh sig0 s Ho H) as I.
  split; [apply (si_wf _ _ I)|]. split; [apply I|]. split.
  - intros o' [E|E]; (eapply visited_all; [exact Hh|exact I|exact E|apply I|done|]).
    + intros e. cbn beta. destruct (sig s e); [done|]. by intros [?|?].
    + intros e. unfold peek_visit. destruct (sig s e); [done|]. by intros [?|?].
  - intros wait_r o' sig' E Ho' Hm Hw. unfold amdgpu_sync_wait in E.
    destruct (hash_for_each_safe _ (obj s)) as [r o1] eqn:E1. injection E as Er <-. destruct r as [r|]; cbn in Er.
    + destruct (for_each_result hash Hh _ _ _ _ E1) as (e & k & _ & Hv). destruct (Z.eqb_spec (wait_r e) 0); cbn in Hv; congruence.
    + eapply visited_all; [exact Hh|exact I|exact E1|done|done|]. intros e. cbn beta. destruct (Z.eqb_spec (wait_r e) 0) as [Hz|Hz]; cbn [negb]; [auto|]. by intros [?|?].
Qed.

Lemma sync_tracks_fences_witness :
  let f := Fence 3 7 (Some (SchedFence 0 1 5 true)) in
  covered (entries (amdgpu_sync_fence (fun _ => 2%nat) 0 amdgpu_sync_create (Some f) true).2 ++ []) f.
Proof.
  intros f. set (s := SyncState (amdgpu_sync_fence (fun _ => 2%nat) 0 amdgpu_sync_create (Some f) true).2 [f] [] (fun _ => false)).
  destruct (sync_tracks_fences (fun _ => 2%nat) 0 (fun _ => false) s) as (_ & H & _).
  - intros c. lia.
  - intros a b _ Hb. done.
  - apply rtc_once. apply (step_add (fun _ => 2%nat) 0 (init_sync (fun _ => false)) f true 0); [|reflexivity].
    intros x y Hx Hy _. apply list_elem_of_singleton in Hx, Hy. subst. lia.
  - destruct (H f) as [Hs|Hc]; [by left|done|exact Hc].
Defined.
