(* ===== verification/VmId.v ===== *)
(** * VMIDs ([amdgpu_vm_grab_id] and [amdgpu_vm_manager_init] of [amdgpu/amdgpu_vm.c])

    The hardware has a few page-directory registers, the VMIDs.  A job gets one
    before it runs: one that already belongs to its address space and needs no
    flush, or the least recently used one that is idle for the job's ring.  The
    jobs that use a VMID are remembered in the sync object [active]. *)

From stdpp Require Import base numbers list gmap relations.
From S2P Require Import Prelude Sync.

Definition AMDGPU_MAX_RINGS : nat := 16.
Definition AMDGPU_NUM_VM : nat := 16.

(** [struct amdgpu_vm_id], without the GDS fields that [amdgpu_vm_flush] uses. *)
Record vm_id := VmIdRec {
  id_first : option fence;
  active : amdgpu_sync;
  id_last_flush : option fence;
  owner : Z;
  pd_gpu_addr : Z;
  flushed_updates : option fence;
  id_reset_count : Z }.

(** The part of [struct amdgpu_vm_manager] that handles VMIDs; [vm_seqno] are
    the sequence numbers before they are cut to 32 bits. *)
Record vm_manager := VmManager {
  ids : list vm_id; ids_lru : list nat; vm_fence_context : Z; vm_seqno : list Z; client_counter : Z }.

(** [ids] and [client_id] of [struct amdgpu_vm]. *)
Record vm_client := VmClient { vm_ids : list (option nat); client_id : Z }.

(** The fields of [struct amdgpu_job] that are used. *)
Record vm_job := VmJob { job_vm_id : Z; job_pd_addr : Z; job_needs_flush : bool; job_sync : amdgpu_sync }.

Definition zero_id : vm_id := VmIdRec None amdgpu_sync_create None 0 0 None 0.

Definition amdgpu_vm_manager_init (num_ids : nat) (context0 : Z) : vm_manager :=
  VmManager (replicate AMDGPU_NUM_VM zero_id) (seq 1 (num_ids - 1)) context0 (replicate AMDGPU_MAX_RINGS 0) 0.

Section grab.
(** The kernel's hash function, the device and its first fence context, the
    number of resets, and which fences are signaled now. *)
Context (hash : Z -> nat) (adev fence_context gpu_reset_counter : Z) (signaled : fence -> bool).

Definition set_id (i : nat) (g : vm_id -> vm_id) (m : vm_manager) : vm_manager :=
  VmManager (alter g i (ids m)) (ids_lru m) (vm_fence_context m) (vm_seqno m) (client_counter m).
Definition set_active (a : amdgpu_sync) (d : vm_id) : vm_id :=
  VmIdRec (id_first d) a (id_last_flush d) (owner d) (pd_gpu_addr d) (flushed_updates d) (id_reset_count d).
Definition move_tail (i : nat) (m : vm_manager) : vm_manager :=
  VmManager (ids m) (filter (fun j => j <> i) (ids_lru m) ++ [i]) (vm_fence_context m) (vm_seqno m) (client_counter m).

Definition amdgpu_vm_is_gpu_reset (d : vm_id) : bool := negb (id_reset_count d =? gpu_reset_counter).

(** The walk over the LRU list: the idle VMID, or the fences that the VMIDs wait
    for. *)
Fixpoint find_idle (ring : Z) (lru : list nat) (m : vm_manager) (blocking : list fence) : option nat * list fence * vm_manager :=
  match lru with
  | [] => (None, blocking, m)
  | i :: l =>
      match ids m !! i with
      | None => find_idle ring l m blocking
      | Some d =>
          let '(f, a) := amdgpu_sync_peek_fence signaled (active d) (Some ring) in
          let m := set_id i (set_active a) m in
          match f with
          | None => (Some i, blocking, m)
          | Some f => find_idle ring l m (blocking ++ [f])
          end
      end
  end.

(** The prerequisites to using a VMID without a flush. *)
Definition usable (ring_context client pd : Z) (updates : option fence) (d : vm_id) : bool :=
  negb (amdgpu_vm_is_gpu_reset d) && (owner d =? client) && (pd =? pd_gpu_addr d) &&
  match id_last_flush d with
  | None => false
  | Some lf =>
      negb (negb (context lf =? ring_context) && negb (signaled lf)) &&
      match updates with
      | None => true
      | Some u => match flushed_updates d with None => false | Some fl => negb (fence_is_later u fl) end
      end
  end.

(** The loop over the VMIDs the address space has on the rings, from the job's
    ring on. *)
Fixpoint find_assigned (turns i : nat) (m : vm_manager) (vm : vm_client) (ring_context pd : Z) (updates : option fence) : option nat :=
  match turns with
  | O => None
  | S k =>
      let next := if (S i =? AMDGPU_MAX_RINGS)%nat then O else S i in
      match vm_ids vm !! i with
      | Some (Some j) =>
          match ids m !! j with
          | Some d => if usable ring_context (client_id vm) pd updates d then Some j
                      else find_assigned k next m vm ring_context pd updates
          | None => find_assigned k next m vm ring_context pd updates
          end
      | _ => find_assigned k next m vm ring_context pd updates
      end
  end.

Record grabbed := Grabbed { g_r : Z; g_manager : vm_manager; g_vm : vm_client; g_job : vm_job }.

(** What can fail: the array of fences, the fence array, and the entries of the
    sync objects. *)
Record grab_answers := GrabAnswers { kmalloc_ok : bool; array_ok : bool; sync_ok : bool }.

Definition use_id (ring_idx j : nat) (flush : bool) (vm : vm_client) (job : vm_job) : vm_client * vm_job :=
  (VmClient (<[ring_idx := Some j]> (vm_ids vm)) (client_id vm),
   VmJob (Z.of_nat j) (job_pd_addr job) flush (job_sync job)).

(** [ring]: the ring's scheduler; [f]: the job's fence.  The fence array has a
    context of its own for each ring. *)
Definition amdgpu_vm_grab_id (vm : vm_client) (ring_idx : nat) (ring : Z) (f : fence) (job : vm_job) (a : grab_answers) (m : vm_manager) : grabbed :=
  if negb (kmalloc_ok a) then Grabbed (- ENOMEM) m vm job
  else
    let updates := last_vm_update (job_sync job) in
    let '(idle, blocking, m) := find_idle ring (ids_lru m) m [] in
    match idle with
    | None =>
        let seq := default 0 (vm_seqno m !! ring_idx) + 1 in
        let m := VmManager (ids m) (ids_lru m) (vm_fence_context m) (<[ring_idx := seq]> (vm_seqno m)) (client_counter m) in
        if negb (array_ok a) then Grabbed (- ENOMEM) m vm job
        else
          let array := Fence (vm_fence_context m + Z.of_nat ring_idx) seq None in
          let '(r, s) := amdgpu_sync_fence hash adev (job_sync job) (Some array) (sync_ok a) in
          Grabbed r m vm (VmJob (job_vm_id job) (job_pd_addr job) (job_needs_flush job) s)
    | Some idle =>
        let job := VmJob (job_vm_id job) (job_pd_addr job) true (job_sync job) in
        match find_assigned AMDGPU_MAX_RINGS ring_idx m vm (fence_context + Z.of_nat ring_idx) (job_pd_addr job) updates with
        | Some j =>
            let '(r, s) := amdgpu_sync_fence hash adev (default amdgpu_sync_create (active <$> ids m !! j)) (Some f) (sync_ok a) in
            let m := set_id j (set_active s) m in
            if negb (r =? 0) then Grabbed r m vm job
            else
              let m := set_id j (fun d => VmIdRec (id_first d) (active d) (id_last_flush d) (owner d) (pd_gpu_addr d) (flushed_updates d) gpu_reset_counter) m in
              let '(vm, job) := use_id ring_idx j false vm job in
              Grabbed 0 (move_tail j m) vm job
        | None =>
            let '(r, s) := amdgpu_sync_fence hash adev (default amdgpu_sync_create (active <$> ids m !! idle)) (Some f) (sync_ok a) in
            let m := set_id idle (set_active s) m in
            if negb (r =? 0) then Grabbed r m vm job
            else
              let m := set_id idle (fun d => VmIdRec (Some f) (active d) None (client_id vm) (job_pd_addr job) updates gpu_reset_counter) m in
              let '(vm, job) := use_id ring_idx idle true vm job in
              Grabbed 0 (move_tail idle m) vm job
        end
    end.

(** [amdgpu_vm_flush] remembers the fence of the flush it emits. *)
Definition flush_emitted (j : nat) (f : fence) (m : vm_manager) : vm_manager :=
  set_id j (fun d => VmIdRec (id_first d) (active d) (Some f) (owner d) (pd_gpu_addr d) (flushed_updates d) (id_reset_count d)) m.
End grab.

(** [amdgpu_job_dependency]: the next fence to wait for; a job of an address
    space whose fences are all signaled gets its VMID. *)
Definition amdgpu_job_dependency (hash : Z -> nat) (adev fence_context gpu_reset_counter : Z) (signaled : fence -> bool)
    (vm : option vm_client) (ring_idx : nat) (ring : Z) (f : fence) (a : grab_answers) (m : vm_manager) (job : vm_job) :
    option fence * vm_manager * option vm_client * vm_job :=
  let '(d, s) := amdgpu_sync_get_fence signaled (job_sync job) in
  let job := VmJob (job_vm_id job) (job_pd_addr job) (job_needs_flush job) s in
  match d, vm with
  | None, Some v =>
      if job_vm_id job =? 0 then
        let g := amdgpu_vm_grab_id hash adev fence_context gpu_reset_counter signaled v ring_idx ring f job a m in
        let '(d, s) := amdgpu_sync_get_fence signaled (job_sync (g_job g)) in
        (d, g_manager g, Some (g_vm g), VmJob (job_vm_id (g_job g)) (job_pd_addr (g_job g)) (job_needs_flush (g_job g)) s)
      else (d, m, vm, job)
  | _, _ => (d, m, vm, job)
  end.

(** ** VMIDs are not taken away from jobs that still need them

    [vm_step] interleaves grants for any clients and rings with flushes, resets
    and fences that signal; the ghost list [grants] records who got which VMID. *)

Record grant := Grant { gr_id : nat; gr_fence : fence; gr_ring : Z; gr_client : Z; gr_pd : Z }.
Record vm_sys := VmSys { mgr : vm_manager; clients : gmap Z vm_client; grants : list grant; vsig : fence -> bool; resets : Z }.

Definition fences_of (i : nat) (l : list grant) : list fence := gr_fence <$> filter (fun g => gr_id g = i) l.

Lemma elem_of_fences_of f i l : f ∈ fences_of i l <-> exists g, g ∈ l /\ gr_id g = i /\ gr_fence g = f.
Proof. unfold fences_of. rewrite list_elem_of_fmap. setoid_rewrite list_elem_of_filter. naive_solver. Qed.

Lemma fences_of_cons i g l : fences_of i (g :: l) = (if decide (gr_id g = i) then [gr_fence g] else []) ++ fences_of i l.
Proof. unfold fences_of. rewrite filter_cons. by destruct (decide (gr_id g = i)). Qed.

Section spec.
Context (hash : Z -> nat) (adev fence_context : Z) (num_ids : nat).
Context (Hhash : forall c, (hash c < 16)%nat) (Hnum : (num_ids <= 16)%nat).
(** The scheduler an entity's context belongs to. *)
Context (sched_of : Z -> Z).

(** The fence of a job: the second fence of a scheduler fence of its entity. *)
Definition job_fence (ring : Z) (f : fence) : Prop :=
  exists own, sched_fence f = Some (SchedFence adev ring own true) /\ sched_of (context f) = ring.

Inductive vm_step : vm_sys -> vm_sys -> Prop :=
  | step_grab s vm ring_idx ring f job a g :
      clients s !! client_id vm = Some vm -> (ring_idx < AMDGPU_MAX_RINGS)%nat -> job_fence ring f ->
      close (f :: (gr_fence <$> grants s)) -> job_vm_id job = 0 ->
      g = amdgpu_vm_grab_id hash adev fence_context (resets s) (vsig s) vm ring_idx ring f job a (mgr s) ->
      vm_step s (VmSys (g_manager g) (<[client_id vm := g_vm g]> (clients s))
                   (if job_vm_id (g_job g) =? 0 then grants s
                    else Grant (Z.to_nat (job_vm_id (g_job g))) f ring (client_id vm) (job_pd_addr job) :: grants s) (vsig s) (resets s))
  | step_client s c :
      clients s !! c = None ->
      vm_step s (VmSys (mgr s) (<[c := VmClient (replicate AMDGPU_MAX_RINGS None) c]> (clients s)) (grants s) (vsig s) (resets s))
  | step_flush s j f : vm_step s (VmSys (flush_emitted j f (mgr s)) (clients s) (grants s) (vsig s) (resets s))
  | step_signal s sig' :
      (forall f, vsig s f = true -> sig' f = true) -> in_order sig' ->
      vm_step s (VmSys (mgr s) (clients s) (grants s) sig' (resets s))
  | step_reset s : vm_step s (VmSys (mgr s) (clients s) (grants s) (vsig s) (u32 (resets s + 1))).

Definition init_sys (context0 : Z) (sig0 : fence -> bool) : vm_sys :=
  VmSys (amdgpu_vm_manager_init num_ids context0) ∅ [] sig0 0.

(** The job's VMID still has its owner and page directory. *)
Definition still_owned (m : vm_manager) (g : grant) : Prop :=
  exists d, ids m !! gr_id g = Some d /\ owner d = gr_client g /\ pd_gpu_addr d = gr_pd g.

(** What is kept of the manager, the grants and the signaled fences. *)
Record vm_inv (m : vm_manager) (gs : list grant) (sig : fence -> bool) : Prop := VmInv {
  vi_length : length (ids m) = AMDGPU_NUM_VM;
  vi_lru : ids_lru m ≡ₚ seq 1 (num_ids - 1);
  vi_order : in_order sig;
  vi_active : forall i d, ids m !! i = Some d -> sync_inv hash (SyncState (active d) (fences_of i gs) [] sig);
  vi_grant : forall g, g ∈ gs -> job_fence (gr_ring g) (gr_fence g);
  vi_owned : forall g, g ∈ gs -> sig (gr_fence g) = true \/ sig (scheduled (gr_fence g)) = true \/ still_owned m g }.

(** Changing the sync object of a VMID only. *)
Lemma set_active_inv i a m gs sig :
  vm_inv m gs sig -> (forall d, ids m !! i = Some d -> sync_inv hash (SyncState a (fences_of i gs) [] sig)) ->
  vm_inv (set_id i (set_active a) m) gs sig.
Proof.
  intros [Hl Hlru Ho Ha Hg Hw] Hn. split; cbn; [by rewrite length_alter|done|done| |done|].
  - intros j d Hj. destruct (decide (i = j)) as [<-|Hne].
    + rewrite list_lookup_alter_eq in Hj. destruct (ids m !! i) as [d0|] eqn:E; [|done]. injection Hj as <-. by apply (Hn d0).
    + rewrite list_lookup_alter_ne in Hj by done. by apply Ha.
  - intros g Hgs. destruct (Hw g Hgs) as [?|[?|(d & Hd & H1 & H2)]]; [by left|by right; left|]. right. right.
    unfold still_owned. cbn. destruct (decide (i = gr_id g)) as [->|Hne].
    + rewrite list_lookup_alter_eq, Hd. by exists (set_active a d).
    + rewrite list_lookup_alter_ne by done. by exists d.
Qed.

(** Peeking at a VMID's jobs keeps the invariant. *)
Lemma peek_inv i ring d f a m gs sig :
  vm_inv m gs sig -> ids m !! i = Some d -> amdgpu_sync_peek_fence sig (active d) (Some ring) = (f, a) ->
  vm_inv (set_id i (set_active a) m) gs sig.
Proof.
  intros I Hd E. apply set_active_inv; [done|]. intros d' Hd'. rewrite Hd in Hd'. injection Hd' as <-.
  pose proof (vi_active _ _ _ I i d Hd) as Is.
  apply (visit_inv hash Hhash (peek_visit sig (Some ring)) (active d) _ [] [] sig f a Is E).
  - apply peek_drops.
  - intros e x _ Hv. by apply peek_keeps in Hv.
  - done.
  - intros e He. by apply elem_of_nil in He.
Qed.

(** A VMID that is found idle for a ring: its jobs are done, or they belong to
    the ring and were given to it. *)
Lemma idle_jobs i ring d a m gs sig :
  vm_inv m gs sig -> ids m !! i = Some d -> amdgpu_sync_peek_fence sig (active d) (Some ring) = (None, a) ->
  forall g, g ∈ gs -> gr_id g = i -> sig (gr_fence g) = true \/ gr_ring g = ring /\ sig (scheduled (gr_fence g)) = true.
Proof.
  intros I Hd E g Hg Hi. pose proof (vi_active _ _ _ I i d Hd) as Is.
  destruct (for_each_spec hash Hhash _ _ _ _ (si_wf _ _ Is) E) as (_ & _ & _ & Hn).
  destruct (si_covered _ _ Is (gr_fence g)) as [Hs|(e & He & Hae)]; [apply elem_of_fences_of; by exists g|by left|].
  cbn in He. rewrite app_nil_r in He.
  assert (Hje : exists g', g' ∈ gs /\ gr_fence g' = e).
  { assert (e ∈ fences_of i gs) as (g' & ? & _ & ?)%elem_of_fences_of by (apply (si_added _ _ Is); cbn; by rewrite app_nil_r). eauto. }
  destruct Hje as (g' & Hg' & <-). destruct (vi_grant _ _ _ I g Hg) as (o1 & E1 & S1). destruct (vi_grant _ _ _ I g' Hg') as (o2 & E2 & S2).
  destruct (Hn eq_refl _ He) as [Hv|Hv]; unfold peek_visit in Hv; rewrite E2 in Hv; cbn in Hv.
  - destruct (Z.eqb_spec (gr_ring g') ring) as [Er|Er]; [|destruct (sig (gr_fence g')); done].
    destruct (sig (scheduled (gr_fence g'))) eqn:Es; [|done]. right. split.
    + rewrite <- Er, <- S1, <- S2. by rewrite (proj1 Hae).
    + apply (vi_order _ _ _ I _ (scheduled (gr_fence g'))); [|done]. unfold scheduled. rewrite E1, E2. cbn.
      destruct Hae as [Hc Hle]. split; cbn; [lia|done].
  - left. apply (vi_order _ _ _ I _ (gr_fence g') Hae). destruct (_ =? ring); destruct (sig (gr_fence g')); try done.
    by destruct (sig (scheduled (gr_fence g'))).
Qed.

(** The fields of a VMID other than its jobs. *)
Definition id_view (d : vm_id) := (owner d, pd_gpu_addr d, id_last_flush d, flushed_updates d, id_reset_count d).

(** What the walk over the LRU list keeps and finds. *)
Lemma find_idle_spec ring lru m bl gs sig idle bl' m' :
  vm_inv m gs sig -> (forall i, i ∈ lru -> (i < AMDGPU_NUM_VM)%nat) -> find_idle sig ring lru m bl = (idle, bl', m') ->
  vm_inv m' gs sig /\ ids_lru m' = ids_lru m /\ vm_seqno m' = vm_seqno m /\
  (forall j, id_view <$> ids m' !! j =
             id_view <$> ids m !! j) /\
  match idle with
  | Some i => i ∈ lru /\ forall g, g ∈ gs -> gr_id g = i -> sig (gr_fence g) = true \/ gr_ring g = ring /\ sig (scheduled (gr_fence g)) = true
  | None => length bl' = (length bl + length lru)%nat
  end.
Proof.
  revert m bl. induction lru as [|i l IH]; intros m bl I Hr E; cbn [find_idle] in E.
  { injection E as <- <- <-. split; [done|]. split; [done|]. split; [done|]. split; [done|]. cbn. lia. }
  destruct (lookup_lt_is_Some_2 (ids m) i) as [d Hd]; [rewrite (vi_length _ _ _ I); apply Hr; by left|].
  rewrite Hd in E. destruct (amdgpu_sync_peek_fence sig (active d) (Some ring)) as [f a] eqn:Ep.
  pose proof (peek_inv i ring d f a m gs sig I Hd Ep) as I'.
  assert (Hsame : forall j, id_view <$> ids (set_id i (set_active a) m) !! j =
    id_view <$> ids m !! j).
  { intros j. cbn. destruct (decide (i = j)) as [<-|Hne]; [rewrite list_lookup_alter_eq, Hd; done|by rewrite list_lookup_alter_ne]. }
  destruct f as [f|].
  - destruct (IH (set_id i (set_active a) m) (bl ++ [f]) I') as (I2 & E1 & E2 & E3 & E4); [intros j Hj; apply Hr; by right|done|].
    split; [done|]. split; [done|]. split; [done|]. split; [intros j; by rewrite E3|]. destruct idle as [k|].
    + destruct E4 as [Hk E4]. split; [by right|done].
    + rewrite E4, length_app. cbn. lia.
  - injection E as <- <- <-. split; [done|]. split; [done|]. split; [done|]. split; [done|]. split; [by left|].
    exact (idle_jobs i ring d a m gs sig I Hd Ep).
Qed.

(** The search among the client's VMIDs. *)
Lemma find_assigned_spec turns i m vm ctx pd updates sig reset j :
  find_assigned reset sig turns i m vm ctx pd updates = Some j ->
  exists d k, vm_ids vm !! k = Some (Some j) /\ ids m !! j = Some d /\ usable reset sig ctx (client_id vm) pd updates d = true.
Proof.
  revert i. induction turns as [|n IH]; intros i H; cbn [find_assigned] in H; [done|].
  destruct (vm_ids vm !! i) as [[k|]|] eqn:Ei; [|by eapply IH|by eapply IH].
  destruct (ids m !! k) as [d|] eqn:Ek; [|by eapply IH]. destruct (usable reset sig ctx (client_id vm) pd updates d) eqn:Eu; [|by eapply IH].
  injection H as <-. by exists d, i.
Qed.

Lemma move_tail_perm (j : nat) l : NoDup l -> j ∈ l -> filter (fun i => i <> j) l ++ [j] ≡ₚ l.
Proof.
  intros Hn Hj. apply list_elem_of_split in Hj as (l1 & l2 & ->).
  apply NoDup_app in Hn as (_ & H1 & H2). apply NoDup_cons in H2 as [H2 _].
  rewrite filter_app, filter_cons, decide_False by naive_solver.
  assert (Hf : forall l : list nat, j ∉ l -> filter (fun i => i <> j) l = l).
  { clear. induction l as [|x l IH]; intros Hn; [done|]. rewrite filter_cons, decide_True by set_solver. f_equal. apply IH. set_solver. }
  rewrite !Hf by (done || (intros Hx; apply (H1 j Hx); by left)). rewrite <- app_assoc. f_equiv. apply Permutation_app_comm.
Qed.

(** A grant: the VMID [j] gets the job, its record becomes [d']. *)
Lemma granted_inv j f ring client pd ok m m2 gs sig d d' :
  vm_inv m gs sig -> j ∈ ids_lru m -> ids m !! j = Some d ->
  amdgpu_sync_fence hash adev (active d) (Some f) ok = (0, active d') -> close (f :: (gr_fence <$> gs)) -> job_fence ring f ->
  owner d' = client -> pd_gpu_addr d' = pd ->
  (forall g, g ∈ gs -> gr_id g = j -> sig (gr_fence g) = true \/ sig (scheduled (gr_fence g)) = true \/ client = gr_client g /\ pd = gr_pd g) ->
  length (ids m2) = length (ids m) -> ids m2 !! j = Some d' -> (forall k, k <> j -> ids m2 !! k = ids m !! k) -> ids_lru m2 = ids_lru m ->
  vm_inv (move_tail j m2) (Grant j f ring client pd :: gs) sig.
Proof.
  intros [Hl Hlru Ho Ha Hg Hw] Hj Hd Hs Hcl Hf Eo Ep Hprev El Ej Ek Elru. split; cbn [move_tail ids ids_lru].
  - by rewrite El.
  - rewrite Elru. rewrite move_tail_perm; [done| |done]. rewrite Hlru. apply NoDup_seq.
  - done.
  - intros i e Hi. destruct (decide (i = j)) as [->|Hne].
    + rewrite Ej in Hi. injection Hi as <-. rewrite fences_of_cons, decide_True by done. cbn [app gr_fence].
      apply (add_inv hash adev Hhash (active d) _ [] sig f ok); [by apply Ha| |done].
      intros x y Hx Hy. apply Hcl; [clear Hy; rename Hx into Hz; rename x into z|clear Hx; rename Hy into Hz; rename y into z];
        (apply elem_of_cons in Hz as [->|Hz]; [by left|]; right; apply elem_of_fences_of in Hz as (g & Hgs & _ & <-);
         apply list_elem_of_fmap; by exists g).
    + rewrite Ek in Hi by done. rewrite fences_of_cons, decide_False by (cbn; congruence). by apply Ha.
  - intros g Hgs. apply elem_of_cons in Hgs as [->|Hgs]; [done|by apply Hg].
  - intros g Hgs. apply elem_of_cons in Hgs as [->|Hgs].
    + right. right. exists d'. done.
    + destruct (decide (gr_id g = j)) as [Eg|Hne].
      * destruct (Hprev g Hgs Eg) as [?|[?|[H1 H2]]]; [by left|by right; left|]. right. right. exists d'. cbn. rewrite Eg. split; [done|]. split; congruence.
      * destruct (Hw g Hgs) as [?|[?|(e & He & H1 & H2)]]; [by left|by right; left|]. right. right. exists e. cbn. by rewrite Ek.
Qed.

(** The job could not be entered. *)
Lemma not_entered_inv j f ok r s' m gs sig d :
  vm_inv m gs sig -> ids m !! j = Some d -> amdgpu_sync_fence hash adev (active d) (Some f) ok = (r, s') -> r <> 0 ->
  vm_inv (set_id j (set_active s') m) gs sig.
Proof.
  intros I Hd E Hr. apply set_active_inv; [done|]. intros d' Hd'. rewrite Hd in Hd'. injection Hd' as <-.
  apply (add_failed_inv hash adev Hhash (active d) _ [] sig f ok r); [by apply (vi_active _ _ _ I)|done|done].
Qed.

Lemma set_id_twice j g h m k : ids (set_id j h (set_id j g m)) !! k = (if decide (k = j) then (h ∘ g) <$> ids m !! k else ids m !! k).
Proof.
  cbn. destruct (decide (k = j)) as [->|Hne]; [|by rewrite !list_lookup_alter_ne by done].
  rewrite !list_lookup_alter_eq. by destruct (ids m !! j).
Qed.

(** What a grab does: it fails or waits and grants nothing, or it grants a VMID
    in one of the two ways. *)
Definition grab_result (s : vm_sys) (vm : vm_client) (ring_idx : nat) (ring : Z) (f : fence) (job : vm_job) (g : grabbed) : Prop :=
  vm_inv (g_manager g) (grants s) (vsig s) /\ g_vm g = vm /\ job_vm_id (g_job g) = 0 \/
  exists j d, job_vm_id (g_job g) = Z.of_nat j /\ j ∈ seq 1 (num_ids - 1) /\ ids (mgr s) !! j = Some d /\ g_r g = 0 /\
    g_vm g = VmClient (<[ring_idx := Some j]> (vm_ids vm)) (client_id vm) /\
    vm_inv (g_manager g) (Grant j f ring (client_id vm) (job_pd_addr job) :: grants s) (vsig s) /\
    if job_needs_flush (g_job g)
    then forall e, e ∈ grants s -> gr_id e = j -> vsig s (gr_fence e) = true \/ gr_ring e = ring /\ vsig s (scheduled (gr_fence e)) = true
    else usable (resets s) (vsig s) (fence_context + Z.of_nat ring_idx) (client_id vm) (job_pd_addr job) (last_vm_update (job_sync job)) d = true.

Definition client_ok (c : Z) (vm : vm_client) : Prop :=
  client_id vm = c /\ forall k j, vm_ids vm !! k = Some (Some j) -> j ∈ seq 1 (num_ids - 1).

Lemma usable_view reset sig ctx c pd u d d' : id_view d = id_view d' -> usable reset sig ctx c pd u d = usable reset sig ctx c pd u d'.
Proof. unfold id_view, usable, amdgpu_vm_is_gpu_reset. intros [= -> -> -> -> ->]. done. Qed.

Lemma usable_owner reset sig ctx c pd u d : usable reset sig ctx c pd u d = true -> owner d = c /\ pd_gpu_addr d = pd.
Proof. unfold usable. intros H. repeat (apply andb_true_iff in H as [H ?]). lia. Qed.

Lemma grab_spec s vm ring_idx ring f job a :
  vm_inv (mgr s) (grants s) (vsig s) -> client_ok (client_id vm) vm -> job_fence ring f ->
  close (f :: (gr_fence <$> grants s)) -> job_vm_id job = 0 ->
  grab_result s vm ring_idx ring f job (amdgpu_vm_grab_id hash adev fence_context (resets s) (vsig s) vm ring_idx ring f job a (mgr s)).
Proof.
  intros I [_ Hc] Hf Hcl Hj0. unfold amdgpu_vm_grab_id, use_id. destruct (kmalloc_ok a); cbn [negb]; [|left; done].
  destruct (find_idle (vsig s) ring (ids_lru (mgr s)) (mgr s) []) as [[idle bl] m1] eqn:Ei.
  assert (Hrange : forall i, i ∈ seq 1 (num_ids - 1) -> (i < AMDGPU_NUM_VM)%nat).
  { intros i Hi%elem_of_seq. unfold AMDGPU_NUM_VM. lia. }
  destruct (find_idle_spec ring _ _ _ _ _ _ _ _ I ltac:(intros i Hi; apply Hrange; by rewrite <- (vi_lru _ _ _ I)) Ei) as (I1 & Elru & Eseq & Ev & Hidle).
  destruct idle as [idle|].
  - destruct Hidle as [Hin Hdone]. cbn [job_pd_addr].
    assert (Hids : forall j, j ∈ seq 1 (num_ids - 1) -> exists d d1, ids (mgr s) !! j = Some d /\ ids m1 !! j = Some d1 /\ id_view d1 = id_view d /\ j ∈ ids_lru m1).
    { intros j Hj. destruct (lookup_lt_is_Some_2 (ids m1) j) as [d1 Hd1]; [rewrite (vi_length _ _ _ I1); by apply Hrange|].
      specialize (Ev j). rewrite Hd1 in Ev. destruct (ids (mgr s) !! j) as [d|] eqn:Hd; [|done]. exists d, d1. cbn in Ev. apply (inj Some) in Ev.
      split; [done|]. split; [done|]. split; [done|]. by rewrite Elru, (vi_lru _ _ _ I). }
    destruct (find_assigned _ _ _ _ m1 vm _ _ _) as [j|] eqn:Ea.
    + destruct (find_assigned_spec _ _ _ _ _ _ _ _ _ _ Ea) as (d1 & k & Hk & Hd1 & Hu). pose proof (Hc k j Hk) as Hj.
      destruct (Hids j Hj) as (d & d1' & Hd & Hd1' & Evw & Hlru). rewrite Hd1 in Hd1'. injection Hd1' as <-. rewrite Hd1. cbn [fmap option_fmap option_map from_option id].
      destruct (amdgpu_sync_fence hash adev (active d1) (Some f) (sync_ok a)) as [r s'] eqn:Es. cbv beta iota zeta.
      destruct (Z.eqb_spec r 0) as [->|Hr]; cbn [negb]; [|left; cbn [g_manager g_vm g_job job_vm_id]; split; [by apply (not_entered_inv _ f (sync_ok a) r _ _ _ _ d1)|done]].
      destruct (usable_owner _ _ _ _ _ _ _ Hu) as [Eo Ep]. right. exists j, d. cbn [g_job g_r g_vm g_manager job_vm_id job_needs_flush].
      split; [done|]. split; [done|]. split; [done|]. split; [done|]. split; [done|]. split; [|by rewrite <- (usable_view _ _ _ _ _ _ _ _ Evw)].
      eapply (granted_inv j f ring _ _ (sync_ok a) m1 _ _ _ d1 (VmIdRec (id_first d1) s' (id_last_flush d1) (owner d1) (pd_gpu_addr d1) (flushed_updates d1) (resets s)));
        [done|done|done|exact Es|done|done|done|done| |by cbn; rewrite !length_alter| | |done].
      * intros g Hg Eg. destruct (vi_owned _ _ _ I1 g Hg) as [?|[?|(e & He & H1 & H2)]]; [by left|by right; left|]. right. right.
        rewrite Eg, Hd1 in He. injection He as <-. split; congruence.
      * rewrite set_id_twice, decide_True, Hd1 by done. done.
      * intros i Hi. by rewrite set_id_twice, decide_False.
    + assert (Hi1 : idle ∈ seq 1 (num_ids - 1)) by by rewrite <- (vi_lru _ _ _ I).
      destruct (Hids idle Hi1) as (d & d1 & Hd & Hd1 & Evw & Hlru). rewrite Hd1. cbn [fmap option_fmap option_map from_option id].
      destruct (amdgpu_sync_fence hash adev (active d1) (Some f) (sync_ok a)) as [r s'] eqn:Es. cbv beta iota zeta.
      destruct (Z.eqb_spec r 0) as [->|Hr]; cbn [negb]; [|left; cbn [g_manager g_vm g_job job_vm_id]; split; [by apply (not_entered_inv _ f (sync_ok a) r _ _ _ _ d1)|done]].
      right. exists idle, d. cbn [g_job g_r g_vm g_manager job_vm_id job_needs_flush].
      split; [done|]. split; [done|]. split; [done|]. split; [done|]. split; [done|]. split; [|done].
      eapply (granted_inv idle f ring _ _ (sync_ok a) m1 _ _ _ d1 (VmIdRec (Some f) s' None (client_id vm) (job_pd_addr job) (last_vm_update (job_sync job)) (resets s)));
        [done|done|done|exact Es|done|done|done|done| |by cbn; rewrite !length_alter| | |done].
      * intros g Hg Eg. destruct (Hdone g Hg Eg) as [?|[_ ?]]; [by left|by right; left].
      * rewrite set_id_twice, decide_True, Hd1 by done. done.
      * intros i Hi. by rewrite set_id_twice, decide_False.
  - left. assert (I2 : forall q, vm_inv (VmManager (ids m1) (ids_lru m1) (vm_fence_context m1) q (client_counter m1)) (grants s) (vsig s)).
    { intros q. destruct I1. by split. }
    destruct (array_ok a); cbn [negb]; [|split; [apply I2|done]].
    destruct (amdgpu_sync_fence hash adev (job_sync job) _ _) as [r s']. split; [apply I2|done].
Qed.

Record sys_inv (s : vm_sys) : Prop := SysInv {
  ss_vm : vm_inv (mgr s) (grants s) (vsig s);
  ss_clients : forall c vm, clients s !! c = Some vm -> client_ok c vm }.

Lemma clients_insert (l : gmap Z vm_client) c vm :
  (forall c vm, l !! c = Some vm -> client_ok c vm) -> client_ok c vm -> forall c' vm', <[c := vm]> l !! c' = Some vm' -> client_ok c' vm'.
Proof.
  intros H Hc c' vm' H'. destruct (decide (c' = c)) as [->|Hne].
  - rewrite lookup_insert_eq in H'. by injection H' as <-.
  - rewrite lookup_insert_ne in H' by done. by apply H.
Qed.

Lemma vmid_step_inv s s' : sys_inv s -> vm_step s s' -> sys_inv s'.
Proof.
  intros [I C] Hst. destruct Hst as [s vm ring_idx ring f job a g Hvm Hr Hf Hcl Hj Eg|s c Hc|s j f|s sig' Hm Ho|s].
  - pose proof (C _ _ Hvm) as Hok. pose proof (grab_spec s vm ring_idx ring f job a I Hok Hf Hcl Hj) as H. rewrite <- Eg in H.
    destruct H as [(I' & Ev & Ej)|(j & d & Ej & Hjr & _ & _ & Ev & I' & _)].
    + rewrite Ej. split; cbn; [done|]. rewrite Ev. by apply clients_insert.
    + rewrite Ej. apply elem_of_seq in Hjr as Hjr'. destruct (Z.eqb_spec (Z.of_nat j) 0) as [?|_]; [lia|]. rewrite Nat2Z.id.
      split; cbn; [done|]. rewrite Ev. apply clients_insert; [done|]. split; [done|]. cbn. intros k i Hk.
      apply list_lookup_insert_Some in Hk as [(_ & [= ->] & _)|[_ Hk]]; [done|by apply (proj2 Hok k)].
  - split; cbn; [done|]. apply clients_insert; [done|]. split; [done|]. cbn. intros k j Hk. apply (lookup_replicate_1 AMDGPU_MAX_RINGS) in Hk as [? _]. done.
  - split; cbn; [|done]. destruct I as [Hl Hlru Ho Ha Hg Hw]. split; cbn; [by rewrite length_alter|done|done| |done|].
    + intros i d Hi. destruct (decide (j = i)) as [<-|Hne]; [|rewrite list_lookup_alter_ne in Hi by done; by apply Ha].
      rewrite list_lookup_alter_eq in Hi. destruct (ids (mgr s) !! j) as [d0|] eqn:E; [|done]. injection Hi as <-. by apply (Ha j d0).
    + intros g Hgs. destruct (Hw g Hgs) as [?|[?|(d & Hd & H1 & H2)]]; [by left|by right; left|]. right. right.
      unfold still_owned. cbn. destruct (decide (j = gr_id g)) as [->|Hne].
      * rewrite list_lookup_alter_eq, Hd. by eexists.
      * rewrite list_lookup_alter_ne by done. by exists d.
  - split; cbn; [|done]. destruct I as [Hl Hlru Ho' Ha Hg Hw]. split; try done.
    + intros i d Hi. destruct (Ha i d Hi) as [W O C' A]. split; cbn in *; [done|done| |done]. intros f Hff. destruct (C' f Hff); auto.
    + intros g Hgs. destruct (Hw g Hgs) as [?|[?|?]]; auto.
  - done.
Qed.

Lemma vmid_init_inv context0 sig0 : in_order sig0 -> sys_inv (init_sys context0 sig0).
Proof.
  intros Ho. split; cbn; [|intros c vm Hc; by rewrite lookup_empty in Hc]. split; cbn; [done|done|done| |set_solver|set_solver].
  intros i d Hi. apply (lookup_replicate_1 AMDGPU_NUM_VM) in Hi as [-> _]. exact (sync_init_inv hash Hhash sig0 Ho).
Qed.

Lemma vmid_reachable_inv context0 sig0 s : in_order sig0 -> rtc vm_step (init_sys context0 sig0) s -> sys_inv s.
Proof.
  intros Ho H. remember (init_sys context0 sig0) as s0. assert (I : sys_inv s0) by (subst; by apply vmid_init_inv). clear Heqs0.
  induction H as [s0|s0 s1 s2 H1 _ IH]; [done|]. by apply IH, (vmid_step_inv s0).
Qed.
End spec.

(** C10: in every reachable state the LRU list holds every VMID but 0 exactly
    once, and a job that got a VMID keeps it, with its address space and page
    directory, until it is finished or was given to its ring. *)
Theorem vmid_kept_until_scheduled (hash : Z -> nat) (adev fence_context : Z) (num_ids : nat) (sched_of : Z -> Z) (context0 : Z) (sig0 : fence -> bool) (s : vm_sys) :
  (forall c, (hash c < 16)%nat) -> (num_ids <= 16)%nat -> in_order sig0 ->
  rtc (vm_step hash adev fence_context sched_of) (init_sys num_ids context0 sig0) s ->
  ids_lru (mgr s) ≡ₚ seq 1 (num_ids - 1) /\
  forall g, g ∈ grants s -> vsig s (gr_fence g) = true \/ vsig s (scheduled (gr_fence g)) = true \/ still_owned (mgr s) g.
Proof.
  intros Hh Hn Ho H. destruct (vmid_reachable_inv hash adev fence_context num_ids Hh Hn sched_of context0 sig0 s Ho H) as [I _].
  split; [apply (vi_lru _ _ _ _ _ _ _ I)|apply (vi_owned _ _ _ _ _ _ _ I)].
Qed.

(** C11: a grant is safe.  With a flush, every job that had the VMID before is
    finished, or runs on the same ring and was given to it.  Without a flush, the
    VMID belongs to the address space with this page directory since the last
    reset, its last flush is finished or was emitted on this ring, and it flushed
    every page-table update the job depends on. *)
Theorem vmid_grant_safe (hash : Z -> nat) (adev fence_context : Z) (num_ids : nat) (sched_of : Z -> Z) (context0 : Z) (sig0 : fence -> bool) (s : vm_sys)
    (vm : vm_client) (ring_idx : nat) (ring : Z) (f : fence) (job : vm_job) (a : grab_answers) :
  (forall c, (hash c < 16)%nat) -> (num_ids <= 16)%nat -> in_order sig0 ->
  rtc (vm_step hash adev fence_context sched_of) (init_sys num_ids context0 sig0) s ->
  clients s !! client_id vm = Some vm -> job_fence adev sched_of ring f -> close (f :: (gr_fence <$> grants s)) -> job_vm_id job = 0 ->
  let g := amdgpu_vm_grab_id hash adev fence_context (resets s) (vsig s) vm ring_idx ring f job a (mgr s) in
  job_vm_id (g_job g) <> 0 ->
  exists j d, job_vm_id (g_job g) = Z.of_nat j /\ (1 <= j < num_ids)%nat /\ g_r g = 0 /\ ids (mgr s) !! j = Some d /\
    if job_needs_flush (g_job g)
    then forall e, e ∈ grants s -> gr_id e = j -> vsig s (gr_fence e) = true \/ gr_ring e = ring /\ vsig s (scheduled (gr_fence e)) = true
    else owner d = client_id vm /\ pd_gpu_addr d = job_pd_addr job /\ id_reset_count d = resets s /\
      (exists lf, id_last_flush d = Some lf /\ (context lf = fence_context + Z.of_nat ring_idx \/ vsig s lf = true)) /\
      (forall u, last_vm_update (job_sync job) = Some u -> exists fl, flushed_updates d = Some fl /\ fence_is_later u fl = false).
Proof.
  intros Hh Hn Ho H Hvm Hf Hcl Hj g Hg. destruct (vmid_reachable_inv hash adev fence_context num_ids Hh Hn sched_of context0 sig0 s Ho H) as [I C].
  destruct (grab_spec hash adev fence_context num_ids Hh Hn sched_of s vm ring_idx ring f job a I (C _ _ Hvm) Hf Hcl Hj) as [(_ & _ & E)|(j & d & Ej & Hjr & Hd & Er & _ & _ & Hs)]; [done|].
  fold g in Ej, Er, Hs. exists j, d. apply elem_of_seq in Hjr. split; [done|]. split; [lia|]. split; [done|]. split; [done|].
  destruct (job_needs_flush (g_job g)); [done|]. unfold usable, amdgpu_vm_is_gpu_reset in Hs.
  apply andb_true_iff in Hs as [Hs1 Hs2]. split; [lia|]. split; [lia|]. split; [lia|].
  destruct (id_last_flush d) as [lf|]; [|done]. apply andb_true_iff in Hs2 as [Hlf Hup]. split.
  - exists lf. split; [done|]. destruct (Z.eqb_spec (context lf) (fence_context + Z.of_nat ring_idx)); [by left|]. right. by destruct (vsig s lf).
  - intros u Eu. rewrite Eu in Hup. destruct (flushed_updates d) as [fl|]; [|done]. exists fl. split; [done|]. by apply negb_true_iff.
Qed.

(** ** A run: a client gets a VMID with a flush, flushes, and gets it again *)

Definition no_sig (f : fence) : bool := false.
Definition hash0 (c : Z) : nat := 3.
Definition wfence (n : Z) : fence := Fence 5 n (Some (SchedFence 0 9 0 true)).
Definition wjob : vm_job := VmJob 0 4096 false amdgpu_sync_create.
Definition wvm : vm_client := VmClient (replicate AMDGPU_MAX_RINGS None) 7.
Definition all_ok : grab_answers := GrabAnswers true true true.
Definition wsched (c : Z) : Z := 9.

Definition run0 : vm_sys := VmSys (amdgpu_vm_manager_init 3 100) (<[7 := wvm]> ∅) [] no_sig 0.
Definition grab1 : grabbed := amdgpu_vm_grab_id hash0 0 50 0 no_sig wvm 2 9 (wfence 1) wjob all_ok (mgr run0).
Definition run1 : vm_sys :=
  VmSys (flush_emitted 1 (Fence 52 1 None) (g_manager grab1)) (<[7 := g_vm grab1]> (clients run0)) [Grant 1 (wfence 1) 9 7 4096] no_sig 0.
Definition grab2 : grabbed := amdgpu_vm_grab_id hash0 0 50 0 no_sig (g_vm grab1) 2 9 (wfence 2) wjob all_ok (mgr run1).

Lemma run1_reachable : rtc (vm_step hash0 0 50 wsched) (init_sys 3 100 no_sig) run1.
Proof.
  eapply rtc_l; [by apply (step_client hash0 0 50 wsched (init_sys 3 100 no_sig) 7)|].
  eapply rtc_l.
  - eapply (step_grab hash0 0 50 wsched _ wvm 2 9 (wfence 1) wjob all_ok); [reflexivity|unfold AMDGPU_MAX_RINGS; lia|by exists 0| |reflexivity|reflexivity].
    intros x y Hx Hy _. cbn in *. apply list_elem_of_singleton in Hx, Hy. subst. lia.
  - eapply rtc_l; [apply (step_flush hash0 0 50 wsched _ 1 (Fence 52 1 None))|]. done.
Qed.

Lemma vmid_kept_until_scheduled_witness : still_owned (mgr run1) (Grant 1 (wfence 1) 9 7 4096).
Proof.
  destruct (vmid_kept_until_scheduled hash0 0 50 3 wsched 100 no_sig run1) as [_ H].
  - intros c. unfold hash0. lia.
  - lia.
  - intros f e _ He. done.
  - apply run1_reachable.
  - destruct (H (Grant 1 (wfence 1) 9 7 4096)) as [Hs|[Hs|Ho]]; [by left|done|done|exact Ho].
Defined.

Lemma vmid_grant_safe_witness : job_vm_id (g_job grab2) = 1 /\ job_needs_flush (g_job grab2) = false.
Proof.
  destruct (vmid_grant_safe hash0 0 50 3 wsched 100 no_sig run1 (g_vm grab1) 2 9 (wfence 2) wjob all_ok) as (j & d & Ej & _).
  - intros c. unfold hash0. lia.
  - lia.
  - intros f e _ He. done.
  - apply run1_reachable.
  - vm_compute. reflexivity.
  - by exists 0.
  - intros x y Hx Hy _. cbn in *. apply elem_of_cons in Hx as [->|Hx], Hy as [->|Hy]; try apply list_elem_of_singleton in Hx; try apply list_elem_of_singleton in Hy; subst; cbn; lia.
  - reflexivity.
  - vm_compute. congruence.
  - split; vm_compute; reflexivity.
Defined.
