(* ===== verification/Ih.v ===== *)
(** * The interrupt ring ([amdgpu/amdgpu_ih.c], [amdgpu/tonga_ih.c], [amdgpu/amdgpu_irq.c])

    The interrupt controller writes vectors of four words into a ring in memory
    and its write pointer into a word of memory; [amdgpu_ih_process] walks the
    ring and dispatches.  The handler is a program counter over its accesses to
    what it shares with the controller and with other handlers ([lock]).
    Pointers are byte offsets. *)

From stdpp Require Import base numbers list relations.
From S2P Require Import Prelude CMonad.

(** [struct amdgpu_ih_ring] and the controller: [wptr_shadow] is the word at
    [wptr_offs], [hw_wptr], [hw_overflow] and [hw_rptr] are its registers. *)
Record ih_ring := IhRing {
  ring : list Z;
  ring_size : Z;
  ptr_mask : Z;
  rptr : Z;
  lock : bool;
  enabled : bool;
  wptr_shadow : Z;
  hw_wptr : Z;
  hw_overflow : bool;
  hw_rptr : Z }.
Notation HM := (M ih_ring).

Definition set_rptr (r : Z) (s : ih_ring) : ih_ring :=
  IhRing (ring s) (ring_size s) (ptr_mask s) r (lock s) (enabled s) (wptr_shadow s) (hw_wptr s) (hw_overflow s) (hw_rptr s).
Definition set_lock (b : bool) (s : ih_ring) : ih_ring :=
  IhRing (ring s) (ring_size s) (ptr_mask s) (rptr s) b (enabled s) (wptr_shadow s) (hw_wptr s) (hw_overflow s) (hw_rptr s).
Definition set_hw_rptr (r : Z) (s : ih_ring) : ih_ring :=
  IhRing (ring s) (ring_size s) (ptr_mask s) (rptr s) (lock s) (enabled s) (wptr_shadow s) (hw_wptr s) (hw_overflow s) r.
Definition clear_overflow (s : ih_ring) : ih_ring :=
  IhRing (ring s) (ring_size s) (ptr_mask s) (rptr s) (lock s) (enabled s) (wptr_shadow s) (hw_wptr s) false (hw_rptr s).

(** [order_base_2] of the kernel: the logarithm, rounded up. *)
Definition order_base_2 (n : Z) : Z := Z.log2_up n.

(** [amdgpu_ih_ring_init] with the memory it gets; [memory] is what the
    allocation contains. *)
Definition amdgpu_ih_ring_init (size : Z) (memory : list Z) : ih_ring :=
  let rb_bufsz := order_base_2 (size / 4) in
  let size := u32 (u32 (Z.shiftl 1 rb_bufsz) * 4) in
  IhRing (take (Z.to_nat (size / 4)) memory) size (u32 (size - 1)) 0 false false 0 0 false 0.

(** The controller is switched on ([tonga_ih_enable_interrupts]). *)
Definition set_enabled (s : ih_ring) : ih_ring :=
  IhRing (ring s) (ring_size s) (ptr_mask s) (rptr s) (lock s) true (wptr_shadow s) (hw_wptr s) (hw_overflow s) (hw_rptr s).

(** ** The controller's operations ([tonga_ih.c]) *)

(** Field [RB_OVERFLOW] of the write pointer is bit 0. *)
Definition RB_OVERFLOW_MASK : Z := 1.

Definition tonga_ih_get_wptr : HM Z :=
  s ← gets id;
  let wptr := wptr_shadow s in
  if negb (Z.land wptr RB_OVERFLOW_MASK =? 0) then
    let wptr := Z.land wptr (u32 (Z.lnot RB_OVERFLOW_MASK)) in
    modify (set_rptr (Z.land (u32 (wptr + 16)) (ptr_mask s)));;
    modify clear_overflow;;
    mret (Z.land wptr (ptr_mask s))
  else mret (Z.land wptr (ptr_mask s)).

(** [struct amdgpu_iv_entry]. *)
Record amdgpu_iv_entry := IvEntry { src_id : Z; src_data : Z; ring_id : Z; vm_id : Z; pas_id : Z }.
#[global] Instance amdgpu_iv_entry_eq_dec : EqDecision amdgpu_iv_entry.
Proof. solve_decision. Defined.

Definition decode (dw : list Z) : amdgpu_iv_entry :=
  let w i := nth i dw 0 in
  IvEntry (Z.land (w 0%nat) 0xff) (Z.land (w 1%nat) 0xfffffff) (Z.land (w 2%nat) 0xff)
    (Z.land (Z.shiftr (w 2%nat) 8) 0xff) (Z.land (Z.shiftr (w 2%nat) 16) 0xffff).

(** The words at an index of the ring. *)
Definition ring_words (i : Z) : HM (list Z) :=
  s ← gets id;
  if (0 <=? i) && (i + 4 <=? Z.of_nat (length (ring s))) then mret (take 4 (drop (Z.to_nat i) (ring s))) else fault.

Definition tonga_ih_decode_iv : HM amdgpu_iv_entry :=
  s ← gets id;
  dw ← ring_words (Z.shiftr (rptr s) 2);
  modify (set_rptr (u32 (rptr s + 16)));;
  mret (decode dw).

Definition tonga_ih_set_rptr : HM unit := s ← gets id; modify (set_hw_rptr (rptr s)).

(** ** The handler ([amdgpu_ih.c]) *)

(** One turn of the loop: the words that go to the HSA driver and the vector
    that is dispatched. *)
Definition ih_turn : HM (list Z * amdgpu_iv_entry) :=
  s ← gets id;
  raw ← ring_words (Z.shiftr (rptr s) 2);
  e ← tonga_ih_decode_iv;
  modify (fun s => set_rptr (Z.land (rptr s) (ptr_mask s)) s);;
  mret (raw, e).

(** Where a handler is: it has read a write pointer and wants the lock; it holds
    the lock; it has released it and reads the write pointer again. *)
Inductive ih_pc := IhIdle | IhWptr (w : Z) | IhLoop (w : Z) | IhCheck.

(** One step of [amdgpu_ih_process]; the vector it dispatched, if any. *)
Definition ih_process_step (shutdown : bool) (pc : ih_pc) : HM (ih_pc * option amdgpu_iv_entry) :=
  s ← gets id;
  match pc with
  | IhIdle =>
      if negb (enabled s) || shutdown then mret (IhIdle, None)
      else w ← tonga_ih_get_wptr; mret (IhWptr w, None)
  | IhWptr w => if lock s then mret (IhIdle, None) else modify (set_lock true);; mret (IhLoop w, None)
  | IhLoop w =>
      if negb (rptr s =? w) then e ← ih_turn; mret (IhLoop w, Some e.2)
      else tonga_ih_set_rptr;; modify (set_lock false);; mret (IhCheck, None)
  | IhCheck =>
      w ← tonga_ih_get_wptr;
      s ← gets id;
      if negb (w =? rptr s) then mret (IhWptr w, None) else mret (IhIdle, None)
  end.

(** The handler without interference, from [pc] on: what it dispatched. *)
Fixpoint ih_run (fuel : nat) (pc : ih_pc) : HM (list amdgpu_iv_entry) :=
  match fuel with
  | O => nofuel
  | S k =>
      x ← ih_process_step false pc;
      match x.1 with
      | IhIdle => mret (option_list x.2)
      | pc' => l ← ih_run k pc'; mret (option_list x.2 ++ l)
      end
  end.
Definition amdgpu_ih_process (fuel : nat) : HM (list amdgpu_iv_entry) := ih_run fuel IhIdle.

(** ** The controller writes a vector *)

(** The slot behind the write pointer is the one the driver reads next: the
    ring is full. *)
Definition ih_full (s : ih_ring) : bool := Z.land (u32 (hw_wptr s + 16)) (ptr_mask s) =? hw_rptr s.
Definition hw_write (v : list Z) (s : ih_ring) : ih_ring :=
  let w := Z.land (u32 (hw_wptr s + 16)) (ptr_mask s) in
  let o := hw_overflow s || ih_full s in
  IhRing (list_inserts (Z.to_nat (Z.shiftr (hw_wptr s) 2)) v (ring s)) (ring_size s) (ptr_mask s) (rptr s) (lock s) (enabled s)
    (Z.lor w (if o then RB_OVERFLOW_MASK else 0)) w o (hw_rptr s).

(** ** Dispatch ([amdgpu_irq.c]) *)

Definition AMDGPU_MAX_IRQ_SRC_ID : Z := 0x100.
(** Where a vector goes: to a mapped interrupt, to the source's handler, or
    nowhere. *)
Inductive irq_target := ToVirq (src : Z) | ToSource (src : Z) | Unhandled | InvalidSource.
Definition amdgpu_irq_dispatch (virq has_source : Z -> bool) (e : amdgpu_iv_entry) : irq_target :=
  if AMDGPU_MAX_IRQ_SRC_ID <=? src_id e then InvalidSource
  else if virq (src_id e) then ToVirq (src_id e)
  else if has_source (src_id e) then ToSource (src_id e) else Unhandled.

(** ** Interrupt vectors are dispatched once and in order

    Vector number [i] lives in slot [i mod N] of the ring.  The controller
    writes vectors while the handler runs; [ih_step] interleaves its writes with
    the steps of one handler. *)

Section ring.
Context (k : nat) (Hk : (k <= 26)%nat).
Local Notation N := (2 ^ k)%nat.

Definition vec_slot (l : list Z) (i : nat) : list Z := take 4 (drop (4 * (i mod N)) l).
Definition vptr (i : nat) : Z := 16 * Z.of_nat (i mod N).
Definition size_of : Z := 16 * 2 ^ Z.of_nat k.

Lemma slots_pos : (0 < N)%nat.
Proof. apply Nat.neq_0_lt_0, Nat.pow_nonzero. lia. Qed.
Lemma slots_Z : Z.of_nat N = 2 ^ Z.of_nat k.
Proof. by rewrite Nat2Z.inj_pow. Qed.
Lemma slots_bound : 0 < 2 ^ Z.of_nat k <= 67108864.
Proof. split; [lia|]. change 67108864 with (2 ^ 26). apply Z.pow_le_mono_r; lia. Qed.
Lemma vec_index i : (i mod N < N)%nat.
Proof. apply Nat.mod_upper_bound. pose proof slots_pos. lia. Qed.

Lemma size_mask x : Z.land x (size_of - 1) = x mod size_of.
Proof.
  unfold size_of. replace (16 * 2 ^ Z.of_nat k) with (2 ^ (Z.of_nat k + 4)) by (rewrite Z.pow_add_r by lia; lia).
  apply land_pow2. lia.
Qed.

Lemma vptr_range i : 0 <= vptr i < size_of.
Proof. unfold vptr, size_of. pose proof (vec_index i). rewrite <- slots_Z. lia. Qed.
Lemma vptr_mod i : vptr i = (16 * Z.of_nat i) mod size_of.
Proof.
  unfold vptr, size_of. rewrite Z.mul_mod_distr_l by (pose proof slots_bound; lia). rewrite <- slots_Z, Nat2Z.inj_mod. done.
Qed.
Lemma vptr_next i : Z.land (u32 (vptr i + 16)) (size_of - 1) = vptr (S i).
Proof.
  pose proof (vptr_range i). pose proof slots_bound. unfold size_of in H.
  rewrite u32_small by (unfold is_u32; lia). rewrite size_mask, !vptr_mod.
  rewrite Z.add_mod_idemp_l by (unfold size_of; lia). f_equal. lia.
Qed.
Lemma vptr_word i : Z.shiftr (vptr i) 2 = Z.of_nat (4 * (i mod N)).
Proof. unfold vptr. generalize (i mod N)%nat. intros m. rewrite Z.shiftr_div_pow2 by lia. change (2 ^ 2) with 4. Z.div_mod_to_equations. lia. Qed.

Lemma vec_apart (i j : nat) : (i <= j < i + N)%nat -> (i mod N)%nat = (j mod N)%nat -> i = j.
Proof.
  pose proof slots_pos as Hp. revert Hp. generalize N. intros n Hp H E.
  pose proof (Nat.div_mod_eq i n) as Ei. pose proof (Nat.div_mod_eq j n) as Ej. rewrite E in Ei.
  assert (i / n = j / n)%nat by nia. congruence.
Qed.
Lemma vptr_period i : vptr (i + N) = vptr i.
Proof. unfold vptr. do 2 f_equal. generalize N. intros n. rewrite <- (Nat.mul_1_l n) at 1. apply Nat.Div0.mod_add. Qed.
Lemma vptr_inj i j : (i <= j < i + N)%nat -> vptr i = vptr j -> i = j.
Proof. intros H E. apply vec_apart; [done|]. unfold vptr in E. lia. Qed.

Lemma vec_slot_length l i : length l = (4 * N)%nat -> length (vec_slot l i) = 4%nat.
Proof. intros Hl. pose proof (vec_index i). unfold vec_slot. rewrite length_take, length_drop. lia. Qed.
Lemma vec_slot_lookup l i j : (j < 4)%nat -> vec_slot l i !! j = l !! (4 * (i mod N) + j)%nat.
Proof. intros Hj. unfold vec_slot. by rewrite lookup_take_lt, lookup_drop by done. Qed.

Lemma vec_written l i v : length l = (4 * N)%nat -> length v = 4%nat -> vec_slot (list_inserts (4 * (i mod N)) v l) i = v.
Proof.
  intros Hl Hv. apply list_eq. intros j. destruct (decide (j < 4)%nat) as [Hj|Hj].
  - rewrite vec_slot_lookup by done. pose proof (vec_index i). rewrite list_lookup_inserts by lia. f_equal. lia.
  - rewrite !lookup_ge_None_2; [done|lia|]. rewrite vec_slot_length; [lia|by rewrite length_inserts].
Qed.
Lemma vec_other l i j v :
  length l = (4 * N)%nat -> length v = 4%nat -> (i mod N)%nat <> (j mod N)%nat -> vec_slot (list_inserts (4 * (i mod N)) v l) j = vec_slot l j.
Proof.
  intros Hl Hv Hne. apply list_eq. intros q. destruct (decide (q < 4)%nat) as [Hq|Hq].
  - rewrite !vec_slot_lookup by done. destruct (decide (j mod N < i mod N)%nat).
    + apply list_lookup_inserts_lt. lia.
    + apply list_lookup_inserts_ge. lia.
  - rewrite !lookup_ge_None_2; [done|rewrite vec_slot_length by done; lia|]. rewrite vec_slot_length; [lia|by rewrite length_inserts].
Qed.

(** ** One handler and the controller *)

Record ih_sys := IhSys { ih : ih_ring; pc : ih_pc; written : list (list Z); dispatched : list amdgpu_iv_entry }.

Inductive ih_step : ih_sys -> ih_sys -> Prop :=
  | step_handler s pc' e s' :
      ih_process_step false (pc s) (ih s) = Ok ((pc', e), s') ->
      ih_step s (IhSys s' pc' (written s) (dispatched s ++ option_list e))
  | step_write s v :
      length v = 4%nat -> ih_full (ih s) = false ->
      ih_step s (IhSys (hw_write v (ih s)) (pc s) (written s ++ [v]) (dispatched s)).

Definition ih_start (memory : list Z) : ih_sys :=
  IhSys (IhRing memory size_of (size_of - 1) 0 false true 0 0 false 0) IhIdle [] [].

(** A handler that runs has read the pointer behind vector [n]. *)
Definition pc_ok (s : ih_sys) : Prop :=
  match pc s with
  | IhWptr w => lock (ih s) = false /\ exists n, (length (dispatched s) <= n <= length (written s))%nat /\ w = vptr n
  | IhLoop w => lock (ih s) = true /\ exists n, (length (dispatched s) <= n <= length (written s))%nat /\ w = vptr n
  | _ => lock (ih s) = false
  end.

Record ih_inv (s : ih_sys) : Prop := IhInv {
  hi_mask : ptr_mask (ih s) = size_of - 1;
  hi_enabled : enabled (ih s) = true;
  hi_length : length (ring (ih s)) = (4 * N)%nat;
  hi_wptr : hw_wptr (ih s) = vptr (length (written s));
  hi_shadow : wptr_shadow (ih s) = vptr (length (written s));
  hi_overflow : hw_overflow (ih s) = false;
  hi_rptr : rptr (ih s) = vptr (length (dispatched s));
  hi_hw_rptr : exists r, hw_rptr (ih s) = vptr r /\ (r <= length (dispatched s) <= length (written s))%nat /\ (length (written s) < r + N)%nat;
  hi_slots : forall i v, (length (dispatched s) <= i)%nat -> written s !! i = Some v -> vec_slot (ring (ih s)) i = v;
  hi_vectors : Forall (fun v => length v = 4%nat) (written s);
  hi_log : dispatched s = decode <$> take (length (dispatched s)) (written s);
  hi_pc : pc_ok s }.

Lemma vptr_land_mask i : Z.land (vptr i) (size_of - 1) = vptr i.
Proof. rewrite size_mask. apply Z.mod_small, vptr_range. Qed.
Lemma vptr_land_1 i : Z.land (vptr i) 1 = 0.
Proof. change 1 with (2 ^ 1 - 1). rewrite land_pow2 by lia. unfold vptr. generalize (i mod N)%nat. intros m. change (2 ^ 1) with 2. Z.div_mod_to_equations. lia. Qed.

Lemma get_wptr_run s : ih_inv s -> tonga_ih_get_wptr (ih s) = Ok (vptr (length (written s)), ih s).
Proof.
  intros I. unfold tonga_ih_get_wptr. rewrite (bind_eval (gets id) _ (ih s) (ih s) (ih s) eq_refl). cbv zeta. cbn [id].
  rewrite (hi_shadow _ I). unfold RB_OVERFLOW_MASK. rewrite vptr_land_1. cbn [Z.eqb negb].
  by rewrite (hi_mask _ I), vptr_land_mask.
Qed.

Lemma ring_words_run l i s : ring s = l -> length l = (4 * N)%nat -> ring_words (Z.shiftr (vptr i) 2) s = Ok (vec_slot l i, s).
Proof.
  intros Er Hl. unfold ring_words. rewrite (bind_eval (gets id) _ s s s eq_refl). cbn [id]. rewrite vptr_word, Er, Nat2Z.id.
  pose proof (vec_index i). rewrite (proj2 (Z.leb_le 0 _)) by lia. rewrite (proj2 (Z.leb_le _ _)) by lia. done.
Qed.

Lemma ih_turn_run s v :
  ih_inv s -> written s !! length (dispatched s) = Some v ->
  ih_turn (ih s) = Ok ((v, decode v), set_rptr (vptr (S (length (dispatched s)))) (ih s)).
Proof.
  intros I Hv. unfold ih_turn. rewrite (bind_eval (gets id) _ (ih s) (ih s) (ih s) eq_refl). cbn [id].
  pose proof (hi_slots _ I _ v (Nat.le_refl _) Hv) as Hs.
  pose proof (ring_words_run (ring (ih s)) (length (dispatched s)) (ih s) eq_refl (hi_length _ I)) as Hw. rewrite Hs in Hw.
  rewrite (hi_rptr _ I). rewrite (bind_eval _ _ _ _ _ Hw).
  rewrite (bind_eval tonga_ih_decode_iv _ (ih s) (decode v) (set_rptr (u32 (vptr (length (dispatched s)) + 16)) (ih s))).
  - cbn. unfold mbind, M_bind, modify, mret, M_ret. cbn. rewrite (hi_mask _ I), vptr_next. done.
  - unfold tonga_ih_decode_iv. rewrite (bind_eval (gets id) _ (ih s) (ih s) (ih s) eq_refl). cbn [id].
    rewrite (hi_rptr _ I), (bind_eval _ _ _ _ _ Hw). done.
Qed.

Lemma write_keeps_inv s v :
  ih_inv s -> length v = 4%nat -> ih_full (ih s) = false ->
  ih_inv (IhSys (hw_write v (ih s)) (pc s) (written s ++ [v]) (dispatched s)).
Proof.
  intros [Hm He Hl Hw Hsh Ho Hr (r & Hhr & Hrd & Hrw) Hs Hv Hlog Hpc] Hlen Hf. unfold ih_full in Hf. rewrite Hw, Hhr, Hm, vptr_next in Hf.
  assert (Hroom : (S (length (written s)) < r + N)%nat).
  { destruct (decide (S (length (written s)) = r + N)%nat) as [E|]; [|lia]. exfalso. apply Z.eqb_neq in Hf. apply Hf.
    by rewrite E, vptr_period. }
  assert (Hidx : Z.to_nat (Z.shiftr (hw_wptr (ih s)) 2) = (4 * (length (written s) mod N))%nat) by (rewrite Hw, vptr_word; lia).
  split; cbn [ih hw_write ptr_mask enabled ring hw_wptr wptr_shadow hw_overflow rptr hw_rptr written dispatched]; try done.
  - by rewrite length_inserts.
  - rewrite length_app, Nat.add_comm. cbn. by rewrite Hw, Hm, vptr_next.
  - unfold ih_full. rewrite Ho, Hw, Hhr, Hm, vptr_next, Hf. cbn. rewrite Z.lor_0_r, length_app, Nat.add_comm. done.
  - unfold ih_full. by rewrite Ho, Hw, Hhr, Hm, vptr_next, Hf.
  - exists r. rewrite length_app. cbn. split; [done|lia].
  - intros i x Hi Hx. rewrite Hidx. apply lookup_app_Some in Hx as [Hx|[Hge Hx]].
    + pose proof (lookup_lt_Some _ _ _ Hx). rewrite vec_other; [by apply Hs|done|done|]. intros E. symmetry in E.
      apply vec_apart in E; lia.
    + apply list_lookup_singleton_Some in Hx as [Hx <-]. assert (i = length (written s)) as -> by lia. by apply vec_written.
  - apply Forall_app. split; [done|]. by apply Forall_singleton.
  - rewrite take_app_le by lia. done.
  - unfold pc_ok in *. cbn in *. destruct (pc s); try done; destruct Hpc as [? (n & Hn & ->)]; (split; [done|]); exists n; rewrite length_app; cbn; split; [lia|done|lia|done].
Qed.

(** Steps of the handler that dispatch nothing and keep the pointers. *)
Lemma handler_quiet s pc' :
  ih_inv s -> pc_ok (IhSys (ih s) pc' (written s) (dispatched s)) ->
  ih_inv (IhSys (ih s) pc' (written s) (dispatched s ++ [])).
Proof. intros I Hpc. rewrite app_nil_r. destruct I. by split. Qed.

Lemma handler_keeps_inv s pc' e s' :
  ih_inv s -> ih_process_step false (pc s) (ih s) = Ok ((pc', e), s') ->
  ih_inv (IhSys s' pc' (written s) (dispatched s ++ option_list e)).
Proof.
  intros I. unfold ih_process_step. rewrite (bind_eval (gets id) _ (ih s) (ih s) (ih s) eq_refl). cbn [id].
  pose proof (hi_pc _ I) as Hpc. unfold pc_ok in Hpc. destruct (hi_hw_rptr _ I) as (r & Hhr & Hrd & Hrw).
  destruct (pc s) as [|w|w|] eqn:Epc.
  - rewrite (hi_enabled _ I). cbn [negb orb]. rewrite (bind_eval _ _ _ _ _ (get_wptr_run s I)). intros [= <- <- <-].
    apply handler_quiet; [done|]. split; [done|]. exists (length (written s)). split; [cbn; lia|done].
  - destruct Hpc as [Hlk (n & Hn & ->)]. rewrite Hlk. intros [= <- <- <-]. rewrite app_nil_r. destruct I. split; try done. split; [done|]. by exists n.
  - destruct Hpc as [Hlk (n & Hn & ->)]. rewrite (hi_rptr _ I). destruct (Z.eqb_spec (vptr (length (dispatched s))) (vptr n)) as [Ew|Ew]; cbn [negb].
    + apply vptr_inj in Ew; [|lia]. intros [= <- <- <-]. rewrite app_nil_r. destruct I. split; try done.
      cbn. exists (length (dispatched s)). split; [done|]. lia.
    + assert (length (dispatched s) <> n) by (intros <-; done).
      assert (Hlt : (length (dispatched s) < length (written s))%nat) by lia.
      destruct (lookup_lt_is_Some_2 (written s) _ Hlt) as [v Hv]. rewrite (bind_eval _ _ _ _ _ (ih_turn_run s v I Hv)). intros [= <- <- <-].
      destruct I as [Hm He Hl Hw Hsh Ho Hr _ Hs Hvs Hlog _].
      assert (EL : length (dispatched s ++ [decode v]) = S (length (dispatched s))) by (rewrite length_app; cbn; lia).
      change (option_list _) with [decode v].
      split; cbn [ih pc written dispatched set_rptr ptr_mask enabled ring hw_wptr wptr_shadow hw_overflow rptr hw_rptr lock]; rewrite ?EL; try done.
      * exists r. split; [done|]. lia.
      * intros i x Hi. apply Hs. lia.
      * rewrite (take_S_r _ _ v Hv), fmap_app, <- Hlog. done.
      * unfold pc_ok. cbn. split; [done|]. exists n. rewrite EL. split; [lia|done].
  - rewrite (bind_eval _ _ _ _ _ (get_wptr_run s I)), (bind_eval (gets id) _ (ih s) (ih s) (ih s) eq_refl). cbn [id].
    destruct (negb _); intros [= <- <- <-]; (apply handler_quiet; [done|]); [|done].
    split; [done|]. exists (length (written s)). split; [cbn; lia|done].
Qed.

(** The handler is never stuck, and it leaves only when nothing is pending. *)
Lemma handler_runs s : ih_inv s -> exists x, ih_process_step false (pc s) (ih s) = Ok x.
Proof.
  intros I. unfold ih_process_step. rewrite (bind_eval (gets id) _ (ih s) (ih s) (ih s) eq_refl). cbn [id].
  pose proof (hi_pc _ I) as Hpc. unfold pc_ok in Hpc. destruct (hi_hw_rptr _ I) as (r & _ & Hrd & Hrw). destruct (pc s) as [|w|w|].
  - rewrite (hi_enabled _ I). cbn [negb orb]. rewrite (bind_eval _ _ _ _ _ (get_wptr_run s I)). by eexists.
  - destruct Hpc as [-> _]. by eexists.
  - destruct Hpc as [_ (n & Hn & ->)]. rewrite (hi_rptr _ I). destruct (Z.eqb_spec (vptr (length (dispatched s))) (vptr n)) as [Ew|Ew]; [by eexists|].
    assert (length (dispatched s) <> n) by (intros <-; done).
    destruct (lookup_lt_is_Some_2 (written s) (length (dispatched s)) ltac:(lia)) as [v Hv].
    cbn [negb]. rewrite (bind_eval _ _ _ _ _ (ih_turn_run s v I Hv)). by eexists.
  - rewrite (bind_eval _ _ _ _ _ (get_wptr_run s I)), (bind_eval (gets id) _ (ih s) (ih s) (ih s) eq_refl).
    destruct (negb _); by eexists.
Qed.
Lemma handler_leaves s e s' :
  ih_inv s -> pc s = IhCheck -> ih_process_step false (pc s) (ih s) = Ok ((IhIdle, e), s') -> dispatched s = decode <$> written s.
Proof.
  intros I ->. unfold ih_process_step. rewrite (bind_eval (gets id) _ (ih s) (ih s) (ih s) eq_refl). cbn [id].
  rewrite (bind_eval _ _ _ _ _ (get_wptr_run s I)), (bind_eval (gets id) _ (ih s) (ih s) (ih s) eq_refl). cbn [id].
  rewrite (hi_rptr _ I). destruct (Z.eqb_spec (vptr (length (written s))) (vptr (length (dispatched s)))) as [E|]; [|done].
  intros _. destruct (hi_hw_rptr _ I) as (r & _ & Hrd & Hrw). symmetry in E. apply vptr_inj in E; [|lia].
  rewrite (hi_log _ I), E. by rewrite take_ge.
Qed.

Lemma start_inv memory : length memory = (4 * N)%nat -> ih_inv (ih_start memory).
Proof.
  intros Hl. pose proof slots_pos. assert (E0 : vptr 0 = 0) by (unfold vptr; by rewrite Nat.Div0.mod_0_l).
  split; cbn [ih_start ih written dispatched length ptr_mask enabled ring hw_wptr wptr_shadow hw_overflow rptr hw_rptr]; try done.
  - exists 0%nat. split; [done|]. lia.
Qed.

Lemma ih_reachable memory s : length memory = (4 * N)%nat -> rtc ih_step (ih_start memory) s -> ih_inv s.
Proof.
  intros Hl H. remember (ih_start memory) as s0. assert (I : ih_inv s0) by (subst; by apply start_inv). clear Heqs0.
  induction H as [s0|s0 s1 s2 H1 _ IH]; [done|]. apply IH. destruct H1 as [s0 pc' e s' E|s0 v Hv Hf].
  - by apply handler_keeps_inv.
  - by apply write_keeps_inv.
Qed.
End ring.

(** ** The ring as it is set up *)

Definition ih_init (size : Z) (memory : list Z) : ih_sys :=
  IhSys (set_enabled (amdgpu_ih_ring_init size memory)) IhIdle [] [].
(** The number of slots is a power of two. *)
Definition slot_bits (size : Z) : nat := Z.to_nat (order_base_2 (size / 4) - 2).

Lemma init_bits size : 16 <= size <= 2 ^ 30 -> 2 <= order_base_2 (size / 4) <= 28.
Proof.
  intros Hs. unfold order_base_2. pose proof (Z.div_le_mono 16 size 4 ltac:(lia) ltac:(lia)) as H1.
  pose proof (Z.div_le_mono size (2 ^ 30) 4 ltac:(lia) ltac:(lia)) as H2. split.
  - etransitivity; [|apply Z.log2_up_le_mono, H1]. done.
  - etransitivity; [apply Z.log2_up_le_mono, H2|]. done.
Qed.
Lemma init_size size memory : 16 <= size <= 2 ^ 30 -> ring_size (amdgpu_ih_ring_init size memory) = size_of (slot_bits size).
Proof.
  intros Hs. pose proof (init_bits size Hs) as Hb. unfold size_of, slot_bits. cbn [amdgpu_ih_ring_init ring_size].
  rewrite Z2Nat.id by lia. generalize dependent (order_base_2 (size / 4)). intros b Hb.
  rewrite Z.shiftl_1_l. assert (H : 0 < 2 ^ b <= 2 ^ 28) by (split; [lia|apply Z.pow_le_mono_r; lia]).
  rewrite (u32_small (2 ^ b)) by (unfold is_u32; lia). rewrite u32_small by (unfold is_u32; lia).
  replace b with ((b - 2) + 2) at 1 by lia. rewrite Z.pow_add_r by lia. lia.
Qed.
Lemma init_start size memory :
  16 <= size <= 2 ^ 30 -> ih_init size memory = ih_start (slot_bits size) (take (4 * 2 ^ slot_bits size) memory).
Proof.
  intros Hs. pose proof (init_size size memory Hs) as E. cbn [amdgpu_ih_ring_init ring_size] in E.
  unfold ih_init, set_enabled, amdgpu_ih_ring_init. cbn [ring ring_size ptr_mask rptr lock enabled wptr_shadow hw_wptr hw_overflow hw_rptr].
  rewrite E. unfold ih_start. pose proof (init_bits size Hs). assert (Hk : (slot_bits size <= 26)%nat) by (unfold slot_bits; lia).
  pose proof (slots_bound _ Hk) as Hb. rewrite u32_small by (unfold is_u32, size_of; lia). do 3 f_equal.
  unfold size_of. rewrite <- slots_Z.
  replace (16 * Z.of_nat (2 ^ slot_bits size)) with (Z.of_nat (4 * 2 ^ slot_bits size) * 4) by lia. rewrite Z.div_mul by lia. lia.
Qed.

Lemma init_reachable size memory s :
  16 <= size <= 2 ^ 30 -> ring_size (amdgpu_ih_ring_init size memory) <= 4 * Z.of_nat (length memory) ->
  rtc ih_step (ih_init size memory) s -> ih_inv (slot_bits size) s.
Proof.
  intros Hs Hm Hr. rewrite init_start in Hr by done. rewrite init_size in Hm by done. pose proof (init_bits size Hs).
  assert (Hk : (slot_bits size <= 26)%nat) by (unfold slot_bits; lia). eapply (ih_reachable _ Hk); [|done].
  rewrite length_take. unfold size_of in Hm. rewrite <- slots_Z in Hm. lia.
Qed.

(** C9: while the controller adds vectors to a ring that is not full, at any
    moment and between any two accesses of the handler, the handler never reads
    outside the ring, what it has dispatched is the decoded beginning of what
    was written, each vector once and in order, and when it returns after its
    last look at the write pointer every vector written has been dispatched. *)
Theorem ih_exactly_once size memory s :
  16 <= size <= 2 ^ 30 -> ring_size (amdgpu_ih_ring_init size memory) <= 4 * Z.of_nat (length memory) ->
  rtc ih_step (ih_init size memory) s ->
  (exists x, ih_process_step false (pc s) (ih s) = Ok x) /\
  dispatched s = decode <$> take (length (dispatched s)) (written s) /\
  (forall e s', pc s = IhCheck -> ih_process_step false (pc s) (ih s) = Ok ((IhIdle, e), s') -> dispatched s = decode <$> written s).
Proof.
  intros Hs Hm Hr. pose proof (init_reachable _ _ _ Hs Hm Hr) as I. pose proof (init_bits size Hs).
  assert (Hk : (slot_bits size <= 26)%nat) by (unfold slot_bits; lia). split; [by eapply handler_runs|]. split; [apply (hi_log _ _ I)|].
  intros e s'. by eapply handler_leaves.
Qed.

(** A vector, and runs of the system by a list of moves: [None] is a step of
    the handler, [Some v] a write. *)
Definition sample_vector (x : Z) : list Z := [x; x + 1; 0x30201; 0].
Definition ih_move (m : option (list Z)) (s : ih_sys) : option ih_sys :=
  match m with
  | None =>
      match ih_process_step false (pc s) (ih s) with
      | Ok ((pc', e), s') => Some (IhSys s' pc' (written s) (dispatched s ++ option_list e))
      | _ => None
      end
  | Some v =>
      if (length v =? 4)%nat && negb (ih_full (ih s)) then Some (IhSys (hw_write v (ih s)) (pc s) (written s ++ [v]) (dispatched s)) else None
  end.
Fixpoint ih_moves (l : list (option (list Z))) (s : ih_sys) : option ih_sys :=
  match l with [] => Some s | m :: l => s ← ih_move m s; ih_moves l s end.
Lemma ih_moves_run l s s' : ih_moves l s = Some s' -> rtc ih_step s s'.
Proof.
  revert s. induction l as [|m l IH]; intros s; cbn; [by intros [= ->]; apply rtc_refl|].
  destruct (ih_move m s) as [s1|] eqn:E; [|done]. cbn. intros H. eapply rtc_l; [|by apply IH]. destruct m as [v|]; cbn in E.
  - destruct (length v =? 4)%nat eqn:El; [|done]. destruct (ih_full (ih s)) eqn:Ef; [done|]. injection E as <-. apply step_write; [|done].
    by apply Nat.eqb_eq.
  - destruct (ih_process_step _ _ _) as [[[pc' e] s2]| |] eqn:Ep; try done. injection E as <-. by apply step_handler.
Qed.

(** Four slots; a vector arrives while the first is handled. *)
Lemma ih_exactly_once_witness :
  exists s, pc s = IhCheck /\ length (written s) = 2%nat /\ dispatched s = decode <$> take (length (dispatched s)) (written s).
Proof.
  set (l := [Some (sample_vector 1); None; Some (sample_vector 2); None; None; None; None; None; None; None]).
  destruct (ih_moves l (ih_init 64 (replicate 16 0))) as [s|] eqn:E; [|vm_compute in E; discriminate].
  exists s. pose proof E as E'. vm_compute in E'. injection E' as <-. split; [reflexivity|]. split; [reflexivity|].
  apply (ih_exactly_once 64 (replicate 16 0) _ ltac:(vm_compute; split; discriminate) ltac:(vm_compute; discriminate)).
  apply (ih_moves_run l). exact E.
Defined.

(** Two handlers: the first has read the write pointer, [wait] happens, then it
    goes on. *)
Definition stale_handler (wait : HM (list amdgpu_iv_entry)) (fuel : nat) : HM (list amdgpu_iv_entry) :=
  x ← ih_process_step false IhIdle;
  l ← wait;
  l' ← ih_run fuel x.1;
  mret (l ++ l').
(** A second handler takes the vector, and another one that arrives then. *)
Definition second_handler (v : list Z) (fuel : nat) : HM (list amdgpu_iv_entry) :=
  l ← amdgpu_ih_process fuel;
  modify (hw_write v);;
  l' ← amdgpu_ih_process fuel;
  mret (l ++ l').

(** The write pointer is read before the lock is taken.  A handler that
    waits in between while another one handles two vectors goes on with the
    old pointer, walks the whole ring and dispatches slots nothing was written
    to and the vectors that were already dispatched. *)
Theorem stale_write_pointer :
  let v0 := sample_vector 1 in
  let v1 := sample_vector 2 in
  let s := hw_write v0 (set_enabled (amdgpu_ih_ring_init 64 (replicate 16 0))) in
  let empty := decode [0; 0; 0; 0] in
  match stale_handler (second_handler v1 10) 20 s with
  | Ok (l, _) => l = [decode v0; decode v1; empty; empty; decode v0; decode v1]
  | _ => False
  end.
Proof. vm_compute. reflexivity. Qed.
