(* ===== verification/Irq.v ===== *)
(** * Interrupt sources ([amdgpu/amdgpu_irq.c])

    Every source counts, per type, the users of its interrupt; the first user
    switches it on in the hardware and the last one off.  The count is an atomic
    operation and the hardware is set under a lock afterwards, so that other
    users may come in between: [amdgpu_irq_get] and [amdgpu_irq_put] are split
    there. *)

From stdpp Require Import base numbers list relations.
From S2P Require Import Prelude CMonad Ih.

(** [struct amdgpu_irq_src]; [funcs] is [Some b] if there are functions, [b] if
    they have [set]; [hw] is what [set] has written to the hardware. *)
Record amdgpu_irq_src := IrqSrc {
  num_types : nat; enabled_types : option (list Z); funcs : option bool; data : bool; hw : list bool }.
(** The source objects and the table of pointers to them. *)
Record amdgpu_irq := Irq { irq_enabled : bool; objects : list amdgpu_irq_src; sources : list (option nat) }.
Notation QM := (M amdgpu_irq).

Definition has_set (src : amdgpu_irq_src) : bool := default false (funcs src).
Definition set_objects (l : list amdgpu_irq_src) (d : amdgpu_irq) : amdgpu_irq := Irq (irq_enabled d) l (sources d).
Definition set_sources (l : list (option nat)) (d : amdgpu_irq) : amdgpu_irq := Irq (irq_enabled d) (objects d) l.
Definition set_types (t : option (list Z)) (src : amdgpu_irq_src) : amdgpu_irq_src :=
  IrqSrc (num_types src) t (funcs src) (data src) (hw src).
Definition set_hw (h : list bool) (src : amdgpu_irq_src) : amdgpu_irq_src :=
  IrqSrc (num_types src) (enabled_types src) (funcs src) (data src) h.

Definition irq_src (o : nat) : QM amdgpu_irq_src := d ← gets id; deref (objects d !! o).
Definition put_src (o : nat) (src : amdgpu_irq_src) : QM unit := modify (fun d => set_objects (<[o := src]> (objects d)) d).

Section irq.
(** What [funcs->set] returns; it writes the state when it returns 0. *)
Context (set_result : nat -> nat -> Z).

(** The call through the pointer [funcs->set]. *)
Definition call_set (o type : nat) (state : bool) : QM Z :=
  src ← irq_src o;
  if negb (has_set src) then fault
  else
    (if set_result o type =? 0 then put_src o (set_hw (<[type := state]> (hw src)) src) else mret ());;
    mret (set_result o type).

(** [atomic_add_return] on a counter. *)
Definition atomic_add (o type : nat) (n : Z) : QM Z :=
  src ← irq_src o;
  match enabled_types src with
  | None => fault
  | Some l =>
      c ← deref (l !! type);
      put_src o (set_types (Some (<[type := s32 (c + n)]> l)) src);;
      mret (s32 (c + n))
  end.

Definition amdgpu_irq_enabled (o type : nat) : QM bool :=
  d ← gets id;
  src ← irq_src o;
  if negb (irq_enabled d) then mret false
  else if (num_types src <=? type)%nat then mret false
  else match enabled_types src with
       | None => mret false
       | Some l => if negb (has_set src) then mret false else c ← deref (l !! type); mret (negb (c =? 0))
       end.

Definition amdgpu_irq_update (o type : nat) : QM Z :=
  b ← amdgpu_irq_enabled o type;
  call_set o type b.

(** The guards of [amdgpu_irq_get] and [amdgpu_irq_put]. *)
Definition irq_guard (o type : nat) : QM Z :=
  d ← gets id;
  src ← irq_src o;
  mret (if negb (irq_enabled d) then - ENOENT
        else if (num_types src <=? type)%nat then - EINVAL
        else match enabled_types src with
             | None => - EINVAL
             | Some _ => if negb (has_set src) then - EINVAL else 0
             end).

(** Up to the call of [amdgpu_irq_update]: [None] if it follows, the return
    value otherwise. *)
Definition irq_get_begin (o type : nat) : QM (option Z) :=
  r ← irq_guard o type;
  if negb (r =? 0) then mret (Some r)
  else c ← atomic_add o type 1; mret (if c =? 1 then None else Some 0).
Definition irq_put_begin (o type : nat) : QM (option Z) :=
  r ← irq_guard o type;
  if negb (r =? 0) then mret (Some r)
  else c ← atomic_add o type (-1); mret (if c =? 0 then None else Some 0).

Definition amdgpu_irq_get (o type : nat) : QM Z :=
  x ← irq_get_begin o type;
  match x with Some r => mret r | None => amdgpu_irq_update o type end.
Definition amdgpu_irq_put (o type : nat) : QM Z :=
  x ← irq_put_begin o type;
  match x with Some r => mret r | None => amdgpu_irq_update o type end.

Definition amdgpu_irq_get_delayed (o type : nat) : QM bool :=
  src ← irq_src o;
  if (num_types src <=? type)%nat || bool_decide (enabled_types src = None) then mret false
  else c ← atomic_add o type 1; mret (c =? 1).

(** ** All sources *)

Fixpoint for_types (f : nat -> QM unit) (j n : nat) : QM unit :=
  match n with O => mret () | S n => f j;; for_types f (S j) n end.
Fixpoint for_sources (f : nat -> QM unit) (l : list (option nat)) : QM unit :=
  match l with
  | [] => mret ()
  | None :: l => for_sources f l
  | Some o :: l => f o;; for_sources f l
  end.

Definition amdgpu_irq_disable_all : QM unit :=
  d ← gets id;
  for_sources (fun o =>
    src ← irq_src o;
    if negb (has_set src) || (num_types src =? 0)%nat then mret ()
    else for_types (fun j =>
      src ← irq_src o;
      match enabled_types src with
      | None => fault
      | Some l => _ ← deref (l !! j); put_src o (set_types (Some (<[j := 0]> l)) src)
      end;;
      call_set o j false;; mret ()) 0 (num_types src)) (sources d).

Definition amdgpu_irq_gpu_reset_resume_helper : QM unit :=
  d ← gets id;
  for_sources (fun o =>
    src ← irq_src o;
    for_types (fun j => amdgpu_irq_update o j;; mret ()) 0 (num_types src)) (sources d).

(** [amdgpu_irq_add_id]; [alloc_ok] says whether the counters get memory. *)
Definition amdgpu_irq_add_id (alloc_ok : bool) (src_id : nat) (o : nat) : QM Z :=
  d ← gets id;
  if AMDGPU_MAX_IRQ_SRC_ID <=? Z.of_nat src_id then mret (- EINVAL)
  else
    p ← deref (sources d !! src_id);
    match p with
    | Some _ => mret (- EINVAL)
    | None =>
        src ← irq_src o;
        if bool_decide (funcs src = None) then mret (- EINVAL)
        else if negb (num_types src =? 0)%nat && bool_decide (enabled_types src = None) then
          if alloc_ok then
            put_src o (set_types (Some (replicate (num_types src) 0)) src);;
            modify (fun d => set_sources (<[src_id := Some o]> (sources d)) d);; mret 0
          else mret (- ENOMEM)
        else modify (fun d => set_sources (<[src_id := Some o]> (sources d)) d);; mret 0
    end.
End irq.

(** ** The hardware follows the users of an interrupt

    [irq_step] interleaves the halves of [amdgpu_irq_get], [amdgpu_irq_put] and
    [amdgpu_irq_update] of any number of threads.  [held] lists the references
    that were taken, [pending] the threads that still have to call
    [amdgpu_irq_update]. *)

Record irq_sys := IrqSys { irq_dev : amdgpu_irq; held : list (nat * nat); pending : list (nat * nat) }.

(** The two counter operations that may succeed, or fail with a code. *)
Definition irq_begun (x : option Z) : bool := match x with Some r => r =? 0 | None => true end.

Lemma begun_if (b : bool) : irq_begun (if b then None else Some 0) = true.
Proof. by destruct b. Qed.

Section system.
Context (set_result : nat -> nat -> Z).

Inductive irq_step : irq_sys -> irq_sys -> Prop :=
  | step_get s o t x d :
      Z.of_nat (length (held s)) < 2 ^ 31 - 1 -> irq_get_begin o t (irq_dev s) = Ok (x, d) ->
      irq_step s (IrqSys d (if irq_begun x then (o, t) :: held s else held s) (pending s ++ if x then [] else [(o, t)]))
  | step_put s o t x d h :
      held s ≡ₚ (o, t) :: h -> irq_put_begin o t (irq_dev s) = Ok (x, d) ->
      irq_step s (IrqSys d (if irq_begun x then h else held s) (pending s ++ if x then [] else [(o, t)]))
  | step_update s o t r d p :
      pending s ≡ₚ (o, t) :: p -> amdgpu_irq_update set_result o t (irq_dev s) = Ok (r, d) ->
      irq_step s (IrqSys d (held s) p).

(** An interrupt that can be switched: its counter is the number of references,
    and the hardware agrees unless somebody is about to update it. *)
Definition type_ok (held pending : list (nat * nat)) (o : nat) (src : amdgpu_irq_src) (t : nat) : Prop :=
  exists l b, enabled_types src = Some l /\ l !! t = Some (occ (o, t) held) /\ hw src !! t = Some b /\
    (b = negb (occ (o, t) held =? 0) \/ (o, t) ∈ pending).
Definition src_ok (held pending : list (nat * nat)) (o : nat) (src : amdgpu_irq_src) : Prop :=
  has_set src = true -> forall t, (t < num_types src)%nat -> type_ok held pending o src t.
Definition irq_inv (s : irq_sys) : Prop :=
  irq_enabled (irq_dev s) = true /\ Z.of_nat (length (held s)) < 2 ^ 31 /\
  forall o src, objects (irq_dev s) !! o = Some src -> src_ok (held s) (pending s) o src.

Lemma irq_src_inv o d src d' : irq_src o d = Ok (src, d') -> objects d !! o = Some src /\ d' = d.
Proof. unfold irq_src, mbind, M_bind, gets, deref, id. destruct (objects d !! o); [|done]. by intros [= <- <-]. Qed.
Lemma irq_src_run o d src : objects d !! o = Some src -> irq_src o d = Ok (src, d).
Proof. intros E. unfold irq_src, mbind, M_bind, gets, deref, id. by rewrite E. Qed.

(** What the guards establish. *)
Lemma irq_guard_inv o t d r d' :
  irq_guard o t d = Ok (r, d') ->
  d' = d /\ r <= 0 /\
  (r = 0 -> exists src, objects d !! o = Some src /\ has_set src = true /\ (t < num_types src)%nat).
Proof.
  unfold irq_guard. rewrite (bind_eval (gets id) _ d d d eq_refl). cbn [id]. destruct (objects d !! o) as [src|] eqn:Eo.
  2:{ unfold mbind, M_bind, irq_src, gets, deref, id. unfold mbind, M_bind. rewrite Eo. done. }
  rewrite (bind_eval _ _ _ _ _ (irq_src_run o d src Eo)). intros [= <- <-]. split; [done|].
  destruct (irq_enabled d); cbn [negb]; [|by split]. destruct (Nat.leb_spec (num_types src) t); [by split|].
  destruct (enabled_types src); [|by split]. destruct (has_set src) eqn:Es; cbn [negb]; [|by split]. split; [done|]. intros _. by exists src.
Qed.

Lemma atomic_add_run o t n d src l c :
  objects d !! o = Some src -> enabled_types src = Some l -> l !! t = Some c ->
  atomic_add o t n d = Ok (s32 (c + n), set_objects (<[o := set_types (Some (<[t := s32 (c + n)]> l)) src]> (objects d)) d).
Proof.
  intros Eo El Ec. unfold atomic_add. rewrite (bind_eval _ _ _ _ _ (irq_src_run o d src Eo)), El. cbn.
  unfold mbind, M_bind, deref. by rewrite Ec.
Qed.

(** A counter moves by [n] with the references, and the threads that have to
    update are added. *)
Lemma count_keeps_inv s o t n src l c v h p :
  irq_inv s -> objects (irq_dev s) !! o = Some src -> has_set src = true -> (t < num_types src)%nat ->
  enabled_types src = Some l -> l !! t = Some c -> v = c + n -> Z.of_nat (length h) < 2 ^ 31 ->
  (forall x, occ x h = occ x (held s) + if decide (x = (o, t)) then n else 0) ->
  (negb (occ (o, t) h =? 0) = negb (occ (o, t) (held s) =? 0) \/ (o, t) ∈ p) ->
  irq_inv (IrqSys (set_objects (<[o := set_types (Some (<[t := v]> l)) src]> (objects (irq_dev s))) (irq_dev s)) h (pending s ++ p)).
Proof.
  intros (He & Hb & Hall) Eo Hset Ht El Ec -> Hh Hr Hz. split; [done|]. split; [done|]. cbn [irq_dev set_objects objects held pending].
  pose proof (Hall o src Eo Hset t Ht) as (l0 & b0 & El0 & Ec0 & Eb0 & Hb0). rewrite El in El0. injection El0 as <-. rewrite Ec in Ec0. injection Ec0 as ->.
  assert (Hs : occ (o, t) (held s) + n = occ (o, t) h) by (by rewrite (Hr (o, t)), decide_True).
  rewrite Hs. intros o' src' Eo' Hset' t' Ht'. destruct (decide (o = o')) as [<-|Hne].
  - rewrite list_lookup_insert_eq in Eo' by (by eapply lookup_lt_Some). injection Eo' as <-. destruct (decide (t = t')) as [<-|Hnt].
    + exists (<[t := occ (o, t) h]> l), b0. split; [done|]. split; [apply list_lookup_insert_eq; by eapply lookup_lt_Some|]. split; [done|].
      rewrite elem_of_app. destruct Hz as [->|]; [|by right; right]. destruct Hb0 as [->|]; [by left|by right; left].
    + destruct (Hall o src Eo Hset' t' Ht') as (l1 & b1 & El1 & Ec1 & Eb1 & Hb1). rewrite El in El1. injection El1 as <-.
      exists (<[t := occ (o, t) h]> l), b1. split; [done|]. rewrite list_lookup_insert_ne by done.
      rewrite (Hr (o, t')), decide_False, Z.add_0_r by congruence. split; [done|]. split; [done|]. rewrite elem_of_app. tauto.
  - rewrite list_lookup_insert_ne in Eo' by done. destruct (Hall o' src' Eo' Hset' t' Ht') as (l1 & b1 & El1 & Ec1 & Eb1 & Hb1).
    exists l1, b1. split; [done|]. rewrite (Hr (o', t')), decide_False, Z.add_0_r by congruence. split; [done|]. split; [done|]. rewrite elem_of_app. tauto.
Qed.

Lemma irq_enabled_inv o t d b d' : amdgpu_irq_enabled o t d = Ok (b, d') -> d' = d.
Proof.
  unfold amdgpu_irq_enabled, mbind, M_bind, gets, id. destruct (irq_src o d) as [[src d0]| |] eqn:E; [|done..].
  apply irq_src_inv in E as [_ ->]. destruct (negb (irq_enabled d)); [by intros [= <- <-]|].
  destruct (num_types src <=? t)%nat; [by intros [= <- <-]|]. destruct (enabled_types src) as [l|]; [|by intros [= <- <-]].
  destruct (negb (has_set src)); [by intros [= <- <-]|]. unfold deref. destruct (l !! t); [|done]. by intros [= <- <-].
Qed.
Lemma irq_enabled_run o t d src l c :
  irq_enabled d = true -> objects d !! o = Some src -> has_set src = true -> (t < num_types src)%nat ->
  enabled_types src = Some l -> l !! t = Some c -> amdgpu_irq_enabled o t d = Ok (negb (c =? 0), d).
Proof.
  intros He Eo Hs Ht El Ec. unfold amdgpu_irq_enabled. rewrite (bind_eval (gets id) _ d d d eq_refl), (bind_eval _ _ _ _ _ (irq_src_run o d src Eo)).
  cbn [id]. rewrite He, El, Hs. cbn [negb]. destruct (Nat.leb_spec (num_types src) t); [lia|]. unfold mbind, M_bind, deref. by rewrite Ec.
Qed.
Lemma call_set_inv o t b d r d' :
  set_result o t = 0 -> call_set set_result o t b d = Ok (r, d') ->
  exists src, objects d !! o = Some src /\ has_set src = true /\
    d' = set_objects (<[o := set_hw (<[t := b]> (hw src)) src]> (objects d)) d.
Proof.
  intros H0. unfold call_set. unfold mbind at 1, M_bind at 1. destruct (irq_src o d) as [[src d0]| |] eqn:E; [|done..].
  apply irq_src_inv in E as [Eo ->]. destruct (has_set src) eqn:Hs; cbn [negb]; [|done]. rewrite H0. cbn.
  intros [= <- <-]. by exists src.
Qed.

Lemma update_keeps_inv s o t r d p :
  (forall o t, set_result o t = 0) -> irq_inv s -> pending s ≡ₚ (o, t) :: p -> amdgpu_irq_update set_result o t (irq_dev s) = Ok (r, d) ->
  irq_inv (IrqSys d (held s) p).
Proof.
  intros Hset0 (He & Hb & Hall) Hp. unfold amdgpu_irq_update, mbind, M_bind.
  destruct (amdgpu_irq_enabled o t (irq_dev s)) as [[b d0]| |] eqn:Een; [|done..]. pose proof (irq_enabled_inv _ _ _ _ _ Een) as ->.
  intros Ecs. apply call_set_inv in Ecs as (src & Eo & Hs & ->); [|done]. split; [done|]. split; [done|].
  intros o' src' Eo' Hset' t' Ht'. cbn [irq_dev objects set_objects held pending] in *. destruct (decide (o = o')) as [<-|Hne].
  - rewrite list_lookup_insert_eq in Eo' by (by eapply lookup_lt_Some). injection Eo' as <-. cbn in Hset', Ht'.
    destruct (Hall o src Eo Hs t' Ht') as (l & b1 & El & Ec & Eb & Hb1). destruct (decide (t = t')) as [<-|Hnt].
    + rewrite (irq_enabled_run o t _ src l _ He Eo Hs Ht' El Ec) in Een. injection Een as <-.
      exists l. eexists. split; [done|]. split; [done|]. split; [apply list_lookup_insert_eq; by eapply lookup_lt_Some|]. by left.
    + exists l, b1. split; [done|]. split; [done|]. split; [cbn [hw set_hw]; by rewrite list_lookup_insert_ne|]. destruct Hb1 as [Hb1|Hb1]; [by left|right].
      rewrite Hp in Hb1. apply elem_of_cons in Hb1 as [[=]|]; [congruence|done].
  - rewrite list_lookup_insert_ne in Eo' by done. destruct (Hall o' src' Eo' Hset' t' Ht') as (l & b1 & El & Ec & Eb & Hb1).
    exists l, b1. split; [done|]. split; [done|]. split; [done|]. destruct Hb1 as [Hb1|Hb1]; [by left|right].
    rewrite Hp in Hb1. apply elem_of_cons in Hb1 as [[=]|]; [congruence|done].
Qed.

Lemma irq_idle_inv s p : irq_inv s -> irq_inv (IrqSys (irq_dev s) (held s) (pending s ++ p)).
Proof.
  intros (He & Hb & Hall). split; [done|]. split; [done|]. intros o src Eo Hs t Ht.
  destruct (Hall o src Eo Hs t Ht) as (l & b & El & Ec & Eb & Hor). exists l, b. cbn. rewrite elem_of_app. tauto.
Qed.

(** The two counting steps start alike. *)
Lemma irq_begin_inv o t n d (k : Z -> option Z) x d' s :
  irq_inv s -> irq_dev s = d ->
  (r ← irq_guard o t; if negb (r =? 0) then mret (Some r) else c ← atomic_add o t n; mret (k c)) d = Ok (x, d') ->
  (d' = d /\ exists r, x = Some r /\ r < 0) \/
  exists src l, objects d !! o = Some src /\ has_set src = true /\ (t < num_types src)%nat /\ enabled_types src = Some l /\
    l !! t = Some (occ (o, t) (held s)) /\ x = k (s32 (occ (o, t) (held s) + n)) /\
    d' = set_objects (<[o := set_types (Some (<[t := s32 (occ (o, t) (held s) + n)]> l)) src]> (objects d)) d.
Proof.
  intros (He & Hb & Hall) Ed. unfold mbind at 1, M_bind at 1. destruct (irq_guard o t d) as [[r d0]| |] eqn:Eg; [|done..].
  apply irq_guard_inv in Eg as (-> & Hr & Hok). destruct (Z.eqb_spec r 0) as [->|Hne]; cbn [negb].
  - destruct (Hok eq_refl) as (src & Eo & Hs & Ht). subst d. destruct (Hall o src Eo Hs t Ht) as (l & b & El & Ec & _).
    rewrite (bind_eval _ _ _ _ _ (atomic_add_run o t n _ src l _ Eo El Ec)). intros [= <- <-]. right. by exists src, l.
  - intros [= <- <-]. left. split; [done|]. exists r. split; [done|]. lia.
Qed.

Lemma irq_step_inv s s' : (forall o t, set_result o t = 0) -> irq_inv s -> irq_step s s' -> irq_inv s'.
Proof.
  intros H0 I H. destruct H as [s o t x d Hlt E|s o t x d h Hp E|s o t r d p Hp E]; [| |by eapply update_keeps_inv].
  - destruct (irq_begin_inv o t 1 _ (fun c => if c =? 1 then None else Some 0) x d s I eq_refl E) as [[-> (r & -> & Hr)]|(src & l & Eo & Hs & Ht & El & Ec & -> & ->)].
    + cbn [irq_begun]. destruct (Z.eqb_spec r 0); [lia|]. by apply irq_idle_inv.
    + pose proof (occ_range (o, t) (held s)). rewrite s32_small by (unfold is_s32; lia).
      rewrite begun_if.
      eapply (count_keeps_inv s o t 1 src l); try done; [cbn; lia| |].
      * intros y. apply occ_cons.
      * rewrite occ_cons, decide_True by done. destruct (Z.eqb_spec (occ (o, t) (held s)) 0) as [->|]; [right; set_solver|left].
        destruct (Z.eqb_spec (occ (o, t) (held s) + 1) 0); [lia|done].
  - destruct (irq_begin_inv o t (-1) _ (fun c => if c =? 0 then None else Some 0) x d s I eq_refl E) as [[-> (r & -> & Hr)]|(src & l & Eo & Hs & Ht & El & Ec & -> & ->)].
    + cbn [irq_begun]. destruct (Z.eqb_spec r 0); [lia|]. by apply irq_idle_inv.
    + pose proof (occ_perm (o, t) _ _ Hp) as Er. rewrite occ_cons, decide_True in Er by done. pose proof (occ_range (o, t) h).
      destruct I as (He & Hb & Hall). apply Permutation_length in Hp as Hlen. cbn in Hlen. rewrite s32_small by (unfold is_s32; lia).
      rewrite begun_if.
      eapply (count_keeps_inv s o t (-1) src l); try done; [lia| |].
      * intros y. rewrite (occ_perm y _ _ Hp), occ_cons. destruct (decide _); lia.
      * rewrite Er. destruct (Z.eqb_spec (occ (o, t) h) 0) as [E2|]; [right; rewrite E2; set_solver|left].
        destruct (Z.eqb_spec (occ (o, t) h + 1) 0); [lia|done].
Qed.

(** Sources nobody uses. *)
Definition irq_fresh (d : amdgpu_irq) : Prop :=
  irq_enabled d = true /\
  Forall (fun src => enabled_types src = Some (replicate (num_types src) 0) /\ hw src = replicate (num_types src) false) (objects d).

Lemma fresh_inv d : irq_fresh d -> irq_inv (IrqSys d [] []).
Proof.
  intros [He Hall]. split; [done|]. split; [done|]. intros o src Eo _ t Ht.
  destruct (Forall_lookup_1 _ _ _ _ Hall Eo) as [Et Eh]. exists (replicate (num_types src) 0), false. split; [done|].
  split; [by apply lookup_replicate_2|]. split; [rewrite Eh; by apply lookup_replicate_2|]. by left.
Qed.

Lemma irq_reachable d s :
  (forall o t, set_result o t = 0) -> irq_fresh d -> rtc irq_step (IrqSys d [] []) s -> irq_inv s.
Proof.
  intros H0 Hf H. remember (IrqSys d [] []) as s0 eqn:E. assert (I : irq_inv s0) by (subst; by apply fresh_inv). clear E.
  induction H as [s0|s0 s1 s2 H1 _ IH]; [done|]. apply IH. by eapply irq_step_inv.
Qed.

(** C13: whatever the order in which threads take and drop references to
    interrupts and set the hardware, once no thread is in between an interrupt
    is on in the hardware if and only if somebody holds a reference to it.  The
    functions that set the hardware succeed, and at first all is off. *)
Theorem irq_hw_follows_users d s o src t :
  (forall o t, set_result o t = 0) -> irq_fresh d -> rtc irq_step (IrqSys d [] []) s -> pending s = [] ->
  objects (irq_dev s) !! o = Some src -> has_set src = true -> (t < num_types src)%nat ->
  hw src !! t = Some (bool_decide ((o, t) ∈ held s)).
Proof.
  intros H0 Hf Hr Hp Eo Hs Ht. destruct (irq_reachable d s H0 Hf Hr) as (_ & _ & Hall).
  destruct (Hall o src Eo Hs t Ht) as (l & b & _ & _ & Eb & [Hb|Hb]); [|rewrite Hp in Hb; by apply not_elem_of_nil in Hb].
  rewrite Eb, Hb. f_equal. pose proof (occ_range (o, t) (held s)). case_bool_decide as Hin; rewrite <- occ_pos in Hin;
    destruct (Z.eqb_spec (occ (o, t) (held s)) 0); cbn [negb]; lia || done.
Qed.

(** ** After a reset of the GPU *)

(** The hardware state that the counters ask for. *)
Definition resumed (src : amdgpu_irq_src) : amdgpu_irq_src :=
  set_hw ((fun c => negb (c =? 0)) <$> default [] (enabled_types src)) src.
Definition src_complete (src : amdgpu_irq_src) : Prop :=
  has_set src = true /\ length (hw src) = num_types src /\ exists l, enabled_types src = Some l /\ length l = num_types src.

Lemma update_run o t d src l c :
  set_result o t = 0 -> irq_enabled d = true -> objects d !! o = Some src -> has_set src = true -> (t < num_types src)%nat ->
  enabled_types src = Some l -> l !! t = Some c ->
  amdgpu_irq_update set_result o t d = Ok (0, set_objects (<[o := set_hw (<[t := negb (c =? 0)]> (hw src)) src]> (objects d)) d).
Proof.
  intros H0 He Eo Hs Ht El Ec. unfold amdgpu_irq_update. rewrite (bind_eval _ _ _ _ _ (irq_enabled_run o t d src l c He Eo Hs Ht El Ec)).
  unfold call_set. rewrite (bind_eval _ _ _ _ _ (irq_src_run o d src Eo)), Hs, H0. done.
Qed.

(** The first [j] types are done, [n] are left. *)
Lemma resume_types o n j d src l h :
  (forall t, set_result o t = 0) -> irq_enabled d = true -> has_set src = true -> enabled_types src = Some l ->
  length l = num_types src -> length h = n -> (j + n = num_types src)%nat ->
  objects d !! o = Some (set_hw (((fun c => negb (c =? 0)) <$> take j l) ++ h) src) ->
  for_types (fun j => amdgpu_irq_update set_result o j;; mret ()) j n d = Ok (tt, set_objects (<[o := resumed src]> (objects d)) d).
Proof.
  intros H0. revert j d h. induction n as [|n IH]; intros j d h He Hs El Hl Hh Hj Eo; cbn [for_types].
  - apply nil_length_inv in Hh as ->. rewrite app_nil_r, take_ge in Eo by lia. unfold mret, M_ret.
    assert (E : resumed src = set_hw ((fun c => negb (c =? 0)) <$> l) src) by (unfold resumed; by rewrite El).
    rewrite E, list_insert_id by done. by destruct d.
  - destruct h as [|b h]; [done|]. destruct (lookup_lt_is_Some_2 l j ltac:(lia)) as [c Ec].
    set (src' := set_hw _ src) in Eo. pose proof (update_run o j d src' l c (H0 j) He Eo Hs ltac:(cbn; lia) El Ec) as Eu.
    rewrite (bind_eval _ _ d tt _ (bind_eval _ _ _ _ _ Eu)). set (d' := set_objects _ d).
    assert (Hlen : length ((fun c => negb (c =? 0)) <$> take j l) = j) by (rewrite length_fmap, length_take; lia).
    rewrite (IH (S j) d' h); try done; [|cbn in Hh; lia|lia|].
    + subst d'. cbn [set_objects objects]. by rewrite list_insert_insert_eq.
    + subst d'. cbn [set_objects objects]. rewrite list_lookup_insert_eq by (by eapply lookup_lt_Some). subst src'. cbn [hw set_hw]. unfold set_hw. do 2 f_equal.
      rewrite insert_app_r_alt by lia. rewrite Hlen, Nat.sub_diag. cbn. rewrite (take_S_r _ _ _ Ec), fmap_app, <- app_assoc. done.
Qed.

Lemma resumed_complete src : src_complete src -> src_complete (resumed src) /\ resumed (resumed src) = resumed src.
Proof.
  intros (Hs & Hh & l & El & Hl). unfold resumed. rewrite El. split; [|cbn; by rewrite El].
  split; [done|]. split; [cbn; by rewrite length_fmap|]. by exists l.
Qed.

Lemma resume_source o d src :
  (forall o t, set_result o t = 0) -> irq_enabled d = true -> objects d !! o = Some src -> src_complete src ->
  (src ← irq_src o; for_types (fun j => amdgpu_irq_update set_result o j;; mret ()) 0 (num_types src)) d =
  Ok (tt, set_objects (<[o := resumed src]> (objects d)) d).
Proof.
  intros H0 He Eo (Hs & Hh & l & El & Hl). rewrite (bind_eval _ _ _ _ _ (irq_src_run o d src Eo)).
  apply (resume_types o (num_types src) 0 d src l (hw src)); try done. rewrite take_0. cbn. rewrite Eo. by destruct src.
Qed.

Lemma resume_all tab d :
  (forall o t, set_result o t = 0) -> irq_enabled d = true ->
  (forall o, Some o ∈ tab -> exists src, objects d !! o = Some src /\ src_complete src) ->
  exists d', for_sources (fun o => src ← irq_src o; for_types (fun j => amdgpu_irq_update set_result o j;; mret ()) 0 (num_types src)) tab d = Ok (tt, d') /\
    forall o src, objects d !! o = Some src -> objects d' !! o = Some (if decide (Some o ∈ tab) then resumed src else src).
Proof.
  intros H0. revert d. induction tab as [|[o|] tab IH]; intros d He Hc; cbn [for_sources].
  - exists d. split; [done|]. intros o src E. by rewrite decide_False by apply not_elem_of_nil.
  - destruct (Hc o ltac:(set_solver)) as (src & Eo & Hs). rewrite (bind_eval _ _ _ _ _ (resume_source o d src H0 He Eo Hs)).
    set (d1 := set_objects _ d). destruct (IH d1) as (d' & E & Hd'); [done| |].
    { intros o' Ho'. subst d1. cbn [objects set_objects]. destruct (decide (o = o')) as [<-|Hne].
      - rewrite list_lookup_insert_eq by (by eapply lookup_lt_Some). eexists. split; [done|]. by apply resumed_complete.
      - rewrite list_lookup_insert_ne by done. apply Hc. set_solver. }
    exists d'. split; [done|]. intros o' src' Eo'. destruct (decide (o = o')) as [<-|Hne].
    + rewrite Eo in Eo'. injection Eo' as <-. rewrite (decide_True (P := Some o ∈ Some o :: tab)) by set_solver.
      rewrite (Hd' o (resumed src)) by (subst d1; cbn [objects set_objects]; apply list_lookup_insert_eq; by eapply lookup_lt_Some).
      destruct (resumed_complete src Hs) as [_ E2]. destruct (decide _); by rewrite ?E2.
    + rewrite (Hd' o' src') by (subst d1; cbn [objects set_objects]; by rewrite list_lookup_insert_ne).
      destruct (decide (Some o' ∈ tab)), (decide (Some o' ∈ Some o :: tab)); set_solver.
  - destruct (IH d He) as (d' & E & Hd'); [intros o Ho; apply Hc; set_solver|]. exists d'. split; [done|]. intros o src Eo. rewrite (Hd' o src Eo).
    destruct (decide (Some o ∈ tab)), (decide (Some o ∈ None :: tab)); set_solver.
Qed.

(** After a GPU reset has lost the interrupt state of the hardware, the
    resume helper sets every interrupt of every registered source to what its
    users asked for, and touches nothing else; it does not fail when every
    registered source has counters and a [set] function. *)
Theorem irq_resume_restores d :
  (forall o t, set_result o t = 0) -> irq_enabled d = true ->
  (forall o, Some o ∈ sources d -> exists src, objects d !! o = Some src /\ src_complete src) ->
  exists d', amdgpu_irq_gpu_reset_resume_helper set_result d = Ok (tt, d') /\
    forall o src, objects d !! o = Some src ->
      objects d' !! o = Some (if decide (Some o ∈ sources d) then resumed src else src).
Proof. intros H0 He Hc. unfold amdgpu_irq_gpu_reset_resume_helper. rewrite (bind_eval (gets id) _ d d d eq_refl). by apply resume_all. Qed.
End system.

(** ** Witnesses *)

(** One source with two types. *)
Definition irq_sample : amdgpu_irq := Irq true [IrqSrc 2 (Some [0; 0]) (Some true) false [false; false]] [Some 0%nat].
Lemma irq_sample_fresh : irq_fresh irq_sample.
Proof. split; [done|]. by apply Forall_singleton. Qed.

(** The last user leaves, and a new one comes before the hardware is switched
    off; both threads set the hardware, the one that left comes last. *)
Lemma irq_hw_follows_users_witness :
  exists s src, held s = [(0, 1)]%nat /\ objects (irq_dev s) !! 0%nat = Some src /\ hw src !! 1%nat = Some true.
Proof.
  pose (f := fun _ _ : nat => 0).
  assert (H : exists s, rtc (irq_step f) (IrqSys irq_sample [] []) s /\ held s = [(0, 1)]%nat /\ pending s = [] /\
      objects (irq_dev s) = [IrqSrc 2 (Some [0; 1]) (Some true) false [false; true]]).
  { eexists. split; [|repeat split].
    - eapply rtc_l; [by eapply (step_get f _ 0 1)|].
      eapply rtc_l; [eapply (step_update f _ 0 1 _ _ []); vm_compute; reflexivity|].
      eapply rtc_l; [eapply (step_put f _ 0 1 _ _ []); vm_compute; reflexivity|].
      eapply rtc_l; [by eapply (step_get f _ 0 1)|].
      eapply rtc_l; [eapply (step_update f _ 0 1 _ _ [(0, 1)]%nat); vm_compute; reflexivity|].
      eapply rtc_l; [eapply (step_update f _ 0 1 _ _ []); vm_compute; reflexivity|]. apply rtc_refl.
    - reflexivity.
    - reflexivity.
    - vm_compute. reflexivity. }
  destruct H as (s & Hr & Hh & Hp & Ho). eexists s, _. split; [exact Hh|]. rewrite Ho. split; [reflexivity|].
  rewrite (irq_hw_follows_users f irq_sample s 0 _ 1 (fun _ _ => eq_refl) irq_sample_fresh Hr Hp ltac:(rewrite Ho; reflexivity) eq_refl ltac:(cbn; lia)).
  rewrite Hh. reflexivity.
Defined.

Lemma irq_resume_restores_witness :
  exists d', amdgpu_irq_gpu_reset_resume_helper (fun _ _ => 0)
      (Irq true [IrqSrc 2 (Some [0; 3]) (Some true) false [true; false]] [None; Some 0%nat]) = Ok (tt, d') /\
    objects d' !! 0%nat = Some (IrqSrc 2 (Some [0; 3]) (Some true) false [false; true]).
Proof.
  set (src := IrqSrc 2 (Some [0; 3]) (Some true) false [true; false]).
  destruct (irq_resume_restores (fun _ _ => 0) (Irq true [src] [None; Some 0%nat]) (fun _ _ => eq_refl) eq_refl) as (d' & E & H).
  - intros o Ho. assert (o = 0%nat) as -> by set_solver. exists src. split; [reflexivity|]. split; [reflexivity|]. split; [reflexivity|]. by exists [0; 3].
  - exists d'. split; [exact E|]. apply (H 0%nat src). reflexivity.
Defined.
