(* ===== verification/CheckArgs.v ===== *)
(** * Module parameters ([amdgpu_check_arguments] of [amdgpu/amdgpu_device.c])

    The parameters are given by the administrator; other components rely on what
    this check makes of them. *)

From stdpp Require Import base numbers list.
From S2P Require Import Prelude.

(** The [int] variables of [amdgpu_drv.c] that are checked. *)
Record module_params := ModuleParams {
  amdgpu_sched_jobs : Z; amdgpu_gart_size : Z; amdgpu_vm_size : Z; amdgpu_vm_block_size : Z; amdgpu_vram_page_split : Z }.

Definition amdgpu_check_pot_argument (arg : Z) : bool := Z.land arg (s32 (arg - 1)) =? 0.

(** [roundup_pow_of_two] of the kernel. *)
Definition roundup_pow_of_two (n : Z) : Z := 2 ^ Z.log2_up n.

Definition check_sched_jobs (j : Z) : Z :=
  if j <? 4 then 4 else if negb (amdgpu_check_pot_argument j) then s32 (roundup_pow_of_two j) else j.
Definition check_gart_size (g : Z) : Z := if negb (g =? -1) then if g <? 32 then -1 else g else g.
Definition check_vm_size (v : Z) : Z :=
  let v := if negb (amdgpu_check_pot_argument v) then 8 else v in
  let v := if v <? 1 then 8 else v in
  if v >? 1024 then 8 else v.
Definition check_block_size (v b : Z) : Z :=
  let b :=
    if b =? -1 then
      let bits := Z.log2 v + 18 in
      if v <=? 8 then bits - 9 else (bits + 3) / 2
    else if b <? 9 then 9 else b in
  if (b >? 24) || (v * 1024 <? Z.shiftl 1 b) then 9 else b.
Definition check_page_split (p : Z) : Z :=
  if negb (p =? -1) && ((p <? 16) || negb (amdgpu_check_pot_argument p)) then 1024 else p.

Definition amdgpu_check_arguments (p : module_params) : module_params :=
  let v := check_vm_size (amdgpu_vm_size p) in
  ModuleParams (check_sched_jobs (amdgpu_sched_jobs p)) (check_gart_size (amdgpu_gart_size p)) v
    (check_block_size v (amdgpu_vm_block_size p)) (check_page_split (amdgpu_vram_page_split p)).

(** ** Powers of two *)

Lemma pot_argument arg : 0 < arg < 2 ^ 31 -> amdgpu_check_pot_argument arg = true <-> exists k, 0 <= k <= 30 /\ arg = 2 ^ k.
Proof.
  intros Ha. unfold amdgpu_check_pot_argument. rewrite s32_small by (unfold is_s32; lia). rewrite Z.eqb_eq. split.
  - intros H. pose proof (Z.log2_spec arg ltac:(lia)) as Hl. pose proof (Z.log2_nonneg arg) as H0. set (k := Z.log2 arg) in *. exists k.
    assert (k < 31) by (apply Z.log2_lt_pow2; lia). split; [lia|]. destruct (decide (arg = 2 ^ k)) as [|Hne]; [done|]. exfalso.
    assert (Hb : Z.testbit (Z.land arg (arg - 1)) k = true).
    { rewrite Z.land_spec. subst k. rewrite Z.bit_log2 by lia. cbn. rewrite <- (Z.log2_unique (arg - 1) (Z.log2 arg)) by lia.
      apply Z.bit_log2. pose proof (Z.pow_pos_nonneg 2 (Z.log2 arg)). lia. }
    by rewrite H, Z.bits_0 in Hb.
  - intros (k & Hk & ->). rewrite land_pow2 by lia. apply Z.mod_same. pose proof (Z.pow_pos_nonneg 2 k). lia.
Qed.

Lemma sched_jobs_pow2 j : is_s32 j -> j <= 2 ^ 30 -> exists k, 2 <= k <= 30 /\ check_sched_jobs j = 2 ^ k.
Proof.
  intros Hj Hb. unfold check_sched_jobs. destruct (Z.ltb_spec j 4); [by exists 2|].
  destruct (amdgpu_check_pot_argument j) eqn:E; cbn [negb].
  - apply pot_argument in E as (k & Hk & ->); [|lia]. exists k. split; [|done]. split; [|lia]. change 4 with (2 ^ 2) in *. apply (Z.pow_le_mono_r_iff 2); lia.
  - exists (Z.log2_up j). assert (2 <= Z.log2_up j <= 30).
    { split; [|by apply Z.log2_up_le_pow2; lia]. change 2 with (Z.log2_up 4). by apply Z.log2_up_le_mono. }
    split; [done|]. unfold roundup_pow_of_two. apply s32_small. pose proof (pow2_bounds (Z.log2_up j) ltac:(lia)). unfold is_s32. lia.
Qed.

Lemma vm_size_pow2 v : is_s32 v -> exists k, 0 <= k <= 10 /\ check_vm_size v = 2 ^ k.
Proof.
  intros Hv. unfold check_vm_size. destruct (amdgpu_check_pot_argument v) eqn:E; cbn [negb]; cbv zeta; [|by exists 3].
  destruct (Z.ltb_spec v 1) as [|H1]; [by exists 3|]. rewrite Z.gtb_ltb. destruct (Z.ltb_spec 1024 v) as [|H2]; [by exists 3|].
  apply pot_argument in E as (k & Hk & ->); [|lia]. exists k. split; [|done]. split; [lia|]. change 1024 with (2 ^ 10) in H2.
  apply (Z.pow_le_mono_r_iff 2); lia.
Qed.

Lemma block_size_bounds k b : 0 <= k <= 10 -> 9 <= check_block_size (2 ^ k) b <= k + 10.
Proof.
  intros Hk. unfold check_block_size. rewrite Z.log2_pow2 by lia. cbv zeta.
  set (b' := if b =? -1 then _ else _). assert (Hb : 9 <= b').
  { subst b'. destruct (b =? -1); [destruct (2 ^ k <=? 8); Z.div_mod_to_equations; lia|]. destruct (Z.ltb_spec b 9); lia. }
  rewrite Z.gtb_ltb. destruct (Z.ltb_spec 24 b') as [|Hb2]; cbn [orb]; [lia|]. destruct (Z.ltb_spec (2 ^ k * 1024) (Z.shiftl 1 b')) as [|H]; [lia|].
  split; [done|]. rewrite Z.shiftl_1_l in H. apply (Z.pow_le_mono_r_iff 2); [lia|lia|]. rewrite Z.pow_add_r by lia. change (2 ^ 10) with 1024. lia.
Qed.

(** The checks leave their own results alone. *)
Lemma sched_jobs_fixed k : 2 <= k <= 30 -> check_sched_jobs (2 ^ k) = 2 ^ k.
Proof.
  intros Hk. unfold check_sched_jobs. pose proof (pow2_bounds k ltac:(lia)). assert (2 ^ 2 <= 2 ^ k) by (apply Z.pow_le_mono_r; lia).
  destruct (Z.ltb_spec (2 ^ k) 4); [lia|]. rewrite (proj2 (pot_argument (2 ^ k) ltac:(lia))); [done|]. by exists k; split; [lia|].
Qed.
Lemma vm_size_fixed k : 0 <= k <= 10 -> check_vm_size (2 ^ k) = 2 ^ k.
Proof.
  intros Hk. unfold check_vm_size. pose proof (pow2_bounds k ltac:(lia)). assert (2 ^ k <= 2 ^ 10) by (apply Z.pow_le_mono_r; lia).
  rewrite (proj2 (pot_argument (2 ^ k) ltac:(lia))) by (by exists k; split; [lia|]). cbn [negb]. cbv zeta.
  destruct (Z.ltb_spec (2 ^ k) 1); [lia|]. rewrite Z.gtb_ltb. destruct (Z.ltb_spec 1024 (2 ^ k)); [lia|done].
Qed.
Lemma block_size_fixed k b : 0 <= k <= 10 -> 9 <= b <= k + 10 -> check_block_size (2 ^ k) b = b.
Proof.
  intros Hk Hb. unfold check_block_size. destruct (Z.eqb_spec b (-1)); [lia|]. destruct (Z.ltb_spec b 9); [lia|]. rewrite Z.gtb_ltb.
  destruct (Z.ltb_spec 24 b); [lia|]. cbn [orb]. destruct (Z.ltb_spec (2 ^ k * 1024) (Z.shiftl 1 b)) as [Hlt|]; [|done]. exfalso.
  rewrite Z.shiftl_1_l in Hlt. assert (2 ^ b <= 2 ^ (k + 10)) by (apply Z.pow_le_mono_r; lia). rewrite Z.pow_add_r in * by lia. lia.
Qed.
Lemma gart_size_fixed g : let h := check_gart_size g in (h = -1 \/ 32 <= h) /\ check_gart_size h = h.
Proof.
  cbv zeta. assert (E : forall h, h = -1 \/ 32 <= h -> check_gart_size h = h).
  { intros h Hh. unfold check_gart_size. destruct (Z.eqb_spec h (-1)); [done|]. destruct (Z.ltb_spec h 32); [lia|done]. }
  assert (H : check_gart_size g = -1 \/ 32 <= check_gart_size g); [|by split; [|apply E]].
  unfold check_gart_size. destruct (Z.eqb_spec g (-1)); [by left|]. cbn [negb]. destruct (Z.ltb_spec g 32); [by left|by right].
Qed.
Lemma page_split_fixed p : is_s32 p -> let q := check_page_split p in (q = -1 \/ exists k, 4 <= k <= 30 /\ q = 2 ^ k) /\ check_page_split q = q.
Proof.
  intros Hp. cbv zeta. unfold check_page_split. destruct (Z.eqb_spec p (-1)) as [->|Hne]; cbn [negb andb]; [by split; [left|]|].
  destruct (Z.ltb_spec p 16) as [|H16]; cbn [orb]; [by split; [right; exists 10|]|].
  destruct (amdgpu_check_pot_argument p) eqn:E; cbn [negb]; [|by split; [right; exists 10|]]. split; [right|].
  - unfold is_s32 in Hp. apply pot_argument in E as (k & Hk & ->); [|lia]. exists k. split; [|done]. split; [|lia]. change 16 with (2 ^ 4) in H16. apply (Z.pow_le_mono_r_iff 2); lia.
  - rewrite E. destruct (Z.eqb_spec p (-1)); [done|]. destruct (Z.ltb_spec p 16); [lia|done].
Qed.

(** Whatever is given, after the check the number of scheduler jobs is a
    power of two of at least 4, the address space has a power of two between 1
    GB and 1 TB, the page tables have between 2^9 entries and a GPU page table
    for the whole space, the GART is left to the driver or has at least 32 MB,
    and a VRAM split is off or a power of two of at least 16 pages; checking
    again changes nothing. *)
Theorem arguments_sane (p : module_params) :
  is_s32 (amdgpu_sched_jobs p) -> amdgpu_sched_jobs p <= 2 ^ 30 -> is_s32 (amdgpu_vm_size p) -> is_s32 (amdgpu_vram_page_split p) ->
  let q := amdgpu_check_arguments p in
  (exists j v, 2 <= j <= 30 /\ 0 <= v <= 10 /\ amdgpu_sched_jobs q = 2 ^ j /\ amdgpu_vm_size q = 2 ^ v /\ 9 <= amdgpu_vm_block_size q <= v + 10) /\
  (amdgpu_gart_size q = -1 \/ 32 <= amdgpu_gart_size q) /\
  (amdgpu_vram_page_split q = -1 \/ exists s, 4 <= s <= 30 /\ amdgpu_vram_page_split q = 2 ^ s) /\
  amdgpu_check_arguments q = q.
Proof.
  intros Hj Hjb Hv Hs q. destruct (sched_jobs_pow2 _ Hj Hjb) as (j & Hjr & Ej). destruct (vm_size_pow2 _ Hv) as (v & Hvr & Ev).
  destruct (page_split_fixed _ Hs) as [Hp Hpf]. pose proof (block_size_bounds v (amdgpu_vm_block_size p) Hvr) as Hb.
  unfold q, amdgpu_check_arguments. cbn [amdgpu_sched_jobs amdgpu_vm_size amdgpu_vm_block_size amdgpu_gart_size amdgpu_vram_page_split].
  rewrite Ej, Ev. split; [|split; [|split]].
  - by exists j, v.
  - apply gart_size_fixed.
  - exact Hp.
  - rewrite sched_jobs_fixed, vm_size_fixed, block_size_fixed, Hpf by done. f_equal. apply gart_size_fixed.
Qed.
Lemma arguments_sane_witness : amdgpu_check_arguments (amdgpu_check_arguments (ModuleParams 33 16 5 (-1) 20)) = ModuleParams 64 (-1) 8 12 1024.
Proof.
  pose proof (arguments_sane (ModuleParams 33 16 5 (-1) 20) ltac:(unfold is_s32; cbn; lia) ltac:(cbn; lia) ltac:(unfold is_s32; cbn; lia) ltac:(unfold is_s32; cbn; lia)) as (_ & _ & _ & H).
  rewrite H. vm_compute. reflexivity.
Defined.

(** Above 2^30 the rounded number does not fit the [int] variable. *)
Lemma sched_jobs_overflow : check_sched_jobs (2 ^ 30 + 1) = - 2 ^ 31.
Proof. vm_compute. reflexivity. Qed.
