(* ===== verification/Ctx.v ===== *)
(** * Contexts ([amdgpu/amdgpu_ctx.c])

    A file has contexts under handles.  A context is reference counted: its
    handle has one reference and every submission in progress another one.  For
    every ring it keeps the fences of its last submissions, so that a submission
    is known by its sequence number.  Contexts live in a heap; access to one that
    was released is a fault. *)

From stdpp Require Import base numbers list gmap relations.
From S2P Require Import Prelude CMonad CheckArgs.

Definition AMDGPU_CTX_NO_RESET : Z := 0.
Definition AMDGPU_CTX_UNKNOWN_RESET : Z := 3.

(** [struct amdgpu_ctx_ring] without the scheduler entity: a fence is a number,
    [None] the null pointer. *)
Record amdgpu_ctx_ring := CtxRing { sequence : Z; ring_fences : list (option Z) }.
Record amdgpu_ctx := Ctx { refcount : Z; ctx_reset_counter : Z; ctx_rings : list amdgpu_ctx_ring }.
(** The handles of a file, the heap of contexts, and the number of resets. *)
Record ctx_world := CtxWorld { ctx_handles : gmap Z nat; heap : gmap nat amdgpu_ctx; gpu_reset_counter : Z }.
Notation CM := (M ctx_world).

Definition set_handles (h : gmap Z nat) (w : ctx_world) : ctx_world := CtxWorld h (heap w) (gpu_reset_counter w).
Definition set_heap (h : gmap nat amdgpu_ctx) (w : ctx_world) : ctx_world := CtxWorld (ctx_handles w) h (gpu_reset_counter w).
Definition the_ctx (p : nat) : CM amdgpu_ctx := w ← gets id; deref (heap w !! p).
Definition put_ctx (p : nat) (c : amdgpu_ctx) : CM unit := modify (fun w => set_heap (<[p := c]> (heap w)) w).

(** ** The fences of a ring *)

Section fences.
(** [amdgpu_sched_jobs]. *)
Context (jobs : Z).

Definition slot (seq : Z) : nat := Z.to_nat (Z.land seq (jobs - 1)).

(** [amdgpu_ctx_add_fence] on the ring: the sequence number, and the fence it
    waits for. *)
Definition ring_add_fence (f : Z) (r : amdgpu_ctx_ring) : outcome (Z * option Z * amdgpu_ctx_ring) :=
  match ring_fences r !! slot (sequence r) with
  | None => Fault
  | Some other => Ok (sequence r, other, CtxRing (u64 (sequence r + 1)) (<[slot (sequence r) := Some f]> (ring_fences r)))
  end.

Inductive found := FoundError (e : Z) | FoundFence (f : option Z).
Definition ring_get_fence (seq : Z) (r : amdgpu_ctx_ring) : outcome found :=
  if sequence r <=? seq then Ok (FoundError (- EINVAL))
  else if u64 (seq + jobs) <? sequence r then Ok (FoundFence None)
  else match ring_fences r !! slot seq with None => Fault | Some f => Ok (FoundFence f) end.

Definition amdgpu_ctx_add_fence (p idx : nat) (f : Z) : CM (Z * option Z) :=
  c ← the_ctx p;
  r ← deref (ctx_rings c !! idx);
  match ring_add_fence f r with
  | Ok (seq, other, r') => put_ctx p (Ctx (refcount c) (ctx_reset_counter c) (<[idx := r']> (ctx_rings c)));; mret (seq, other)
  | _ => fault
  end.
Definition amdgpu_ctx_get_fence (p idx : nat) (seq : Z) : CM found :=
  c ← the_ctx p;
  r ← deref (ctx_rings c !! idx);
  match ring_get_fence seq r with Ok x => mret x | _ => fault end.

(** ** Set-up and release *)

(** [entity_r] are the results of [amd_sched_entity_init] for the device's
    rings, [fences_ok] says whether the array gets memory.  The initialised
    context, or the error. *)
Definition amdgpu_ctx_init (fences_ok : bool) (entity_r : list Z) (reset_counter : Z) : Z * amdgpu_ctx :=
  let c := Ctx 1 reset_counter (replicate 16 (CtxRing 1 (replicate (Z.to_nat jobs) None))) in
  if negb fences_ok then (- ENOMEM, c)
  else match list_find (fun r => r <> 0) entity_r with
       | Some (_, r) => (r, c)
       | None => (0, c)
       end.

(** [idr] is what [idr_alloc] returns, [p] the new block of memory, if any; the
    result and what is left in [id]. *)
Definition amdgpu_ctx_alloc (p : option nat) (idr : Z) (fences_ok : bool) (entity_r : list Z) (ctx_id : Z) : CM (Z * Z) :=
  match p with
  | None => mret (- ENOMEM, ctx_id)
  | Some p =>
      if idr <? 0 then mret (idr, ctx_id)
      else
        w ← gets id;
        modify (fun w => set_handles (<[idr := p]> (ctx_handles w)) w);;
        let '(r, c) := amdgpu_ctx_init fences_ok entity_r (gpu_reset_counter w) in
        if negb (r =? 0) then modify (fun w => set_handles (delete idr (ctx_handles w)) w);; mret (r, 0)
        else put_ctx p c;; mret (0, idr)
  end.

(** [kref_put] with [amdgpu_ctx_do_release]: whether the context was released. *)
Definition ctx_kref_put (p : nat) : CM bool :=
  c ← the_ctx p;
  if refcount c - 1 =? 0 then modify (fun w => set_heap (delete p (heap w)) w);; mret true
  else put_ctx p (Ctx (s32 (refcount c - 1)) (ctx_reset_counter c) (ctx_rings c));; mret false.

Definition amdgpu_ctx_free (i : Z) : CM Z :=
  w ← gets id;
  match ctx_handles w !! i with
  | Some p => modify (fun w => set_handles (delete i (ctx_handles w)) w);; ctx_kref_put p;; mret 0
  | None => mret (- EINVAL)
  end.

(** The error code and the reset status. *)
Definition amdgpu_ctx_query (i : Z) : CM (Z * Z) :=
  w ← gets id;
  match ctx_handles w !! i with
  | None => mret (- EINVAL, 0)
  | Some p =>
      c ← the_ctx p;
      put_ctx p (Ctx (refcount c) (gpu_reset_counter w) (ctx_rings c));;
      mret (0, if ctx_reset_counter c =? gpu_reset_counter w then AMDGPU_CTX_NO_RESET else AMDGPU_CTX_UNKNOWN_RESET)
  end.

Definition amdgpu_ctx_get (i : Z) : CM (option nat) :=
  w ← gets id;
  match ctx_handles w !! i with
  | None => mret None
  | Some p => c ← the_ctx p; put_ctx p (Ctx (s32 (refcount c + 1)) (ctx_reset_counter c) (ctx_rings c));; mret (Some p)
  end.
Definition amdgpu_ctx_put (p : option nat) : CM Z :=
  match p with None => mret (- EINVAL) | Some p => ctx_kref_put p;; mret 0 end.

(** The loop of [amdgpu_ctx_mgr_fini] over the handles: the contexts that are
    still alive. *)
Fixpoint fini_loop (l : list (Z * nat)) : CM (list nat) :=
  match l with
  | [] => mret []
  | (_, p) :: l => b ← ctx_kref_put p; rest ← fini_loop l; mret ((if (b : bool) then [] else [p]) ++ rest)
  end.
Definition amdgpu_ctx_mgr_fini : CM (list nat) :=
  w ← gets id;
  l ← fini_loop (map_to_list (ctx_handles w));
  modify (set_handles (∅ : gmap Z nat));;
  mret l.

(** ** The ioctl *)

Inductive ctx_op := OpAlloc (p : option nat) (idr : Z) (fences_ok : bool) (entity_r : list Z) | OpFree | OpQuery | OpOther.
(** The result, and the field of the output union the operation writes. *)
Definition amdgpu_ctx_ioctl (op : ctx_op) (ctx_id : Z) : CM (Z * Z) :=
  match op with
  | OpAlloc p idr ok er => amdgpu_ctx_alloc p idr ok er ctx_id
  | OpFree => r ← amdgpu_ctx_free ctx_id; mret (r, ctx_id)
  | OpQuery => amdgpu_ctx_query ctx_id
  | OpOther => mret (- EINVAL, ctx_id)
  end.
End fences.

(** ** Contexts: the window of fences, and lifetime *)

(** ** The window of fences *)

(** Adding fences one after the other: the numbers they got, and the fences
    that were waited for. *)
Fixpoint ring_adds (jobs : Z) (fs : list Z) (r : amdgpu_ctx_ring) : outcome (list Z * list Z * amdgpu_ctx_ring) :=
  match fs with
  | [] => Ok ([], [], r)
  | f :: fs =>
      match ring_add_fence jobs f r with
      | Ok (seq, other, r1) =>
          match ring_adds jobs fs r1 with Ok (ns, w, r2) => Ok (seq :: ns, option_list other ++ w, r2) | o => o end
      | Fault => Fault
      | NoFuel => NoFuel
      end
  end.

Section window.
Context (k : Z) (Hk : 0 <= k <= 30).
Local Notation J := (2 ^ k).

Definition ring_start : amdgpu_ctx_ring := CtxRing 1 (replicate (Z.to_nat J) None).

(** What the slot of sequence number [seq] holds after the fences [h]. *)
Definition window_entry (h : list Z) (seq : Z) : option Z := if seq <=? 0 then None else h !! Z.to_nat (seq - 1).
Definition window (h : list Z) (r : amdgpu_ctx_ring) : Prop :=
  let n := Z.of_nat (length h) in
  sequence r = n + 1 /\ Z.of_nat (length (ring_fences r)) = J /\
  forall seq, n - J < seq <= n -> ring_fences r !! Z.to_nat (seq mod J) = Some (window_entry h seq).

Lemma slot_mod seq : slot J seq = Z.to_nat (seq mod J).
Proof. unfold slot. by rewrite land_pow2 by lia. Qed.
Lemma jobs_bounds : 1 <= J <= 1073741824.
Proof. by apply pow2_bounds. Qed.
Lemma slot_lt seq : (Z.to_nat (seq mod J) < Z.to_nat J)%nat.
Proof. pose proof jobs_bounds. pose proof (Z.mod_pos_bound seq J). lia. Qed.

Lemma start_window : window [] ring_start.
Proof.
  pose proof jobs_bounds. split; [done|]. split; [cbn; rewrite length_replicate; lia|]. intros seq [_ Hs]. cbn in Hs.
  unfold window_entry. rewrite (proj2 (Z.leb_le seq 0) Hs). apply lookup_replicate_2, slot_lt.
Qed.

Lemma slots_apart a b : a < b < a + J -> Z.to_nat (a mod J) <> Z.to_nat (b mod J).
Proof.
  pose proof jobs_bounds as HJ. intros H E. pose proof (Z.mod_pos_bound a J ltac:(lia)). pose proof (Z.mod_pos_bound b J ltac:(lia)).
  apply Z2Nat.inj in E; [|lia..]. pose proof (Z.div_mod a J ltac:(lia)) as Ea. pose proof (Z.div_mod b J ltac:(lia)) as Eb. rewrite E in Ea.
  assert (a / J < b / J) by nia. nia.
Qed.

Lemma add_window h r f :
  window h r -> Z.of_nat (length h) + 2 < 2 ^ 64 ->
  exists r', ring_add_fence J f r = Ok (Z.of_nat (length h) + 1, window_entry h (Z.of_nat (length h) + 1 - J), r') /\ window (h ++ [f]) r'.
Proof.
  intros (Hs & Hl & Hw) Hn. pose proof jobs_bounds as HJ. set (n := Z.of_nat (length h)) in *. unfold ring_add_fence. rewrite slot_mod, Hs.
  assert (E : (n + 1 - J) mod J = (n + 1) mod J).
  { replace (n + 1 - J) with (n + 1 + (-1) * J) by lia. apply Z.mod_add. lia. }
  pose proof (Hw (n + 1 - J) ltac:(lia)) as Ho. rewrite E in Ho. rewrite Ho. eexists. split; [done|].
  rewrite u64_small by (unfold is_u64; subst n; lia). unfold window. rewrite length_app. cbn [length sequence ring_fences]. split; [lia|].
  split; [by rewrite length_insert|]. intros seq Hseq. replace (Z.of_nat (length h + 1)) with (n + 1) in Hseq by lia.
  destruct (decide (seq = n + 1)) as [->|Hne].
  - rewrite list_lookup_insert_eq by (pose proof (slot_lt (n + 1)); lia). unfold window_entry. destruct (Z.leb_spec (n + 1) 0); [lia|].
    rewrite lookup_app_r by lia. by replace (Z.to_nat (n + 1 - 1) - length h)%nat with 0%nat by lia.
  - rewrite list_lookup_insert_ne by (apply not_eq_sym, slots_apart; lia). rewrite Hw by lia. f_equal. unfold window_entry.
    destruct (Z.leb_spec seq 0); [done|]. rewrite lookup_app_l by lia. done.
Qed.

Lemma adds_window fs h r :
  window h r -> Z.of_nat (length h + length fs) + 2 < 2 ^ 64 ->
  exists w r', ring_adds J fs r = Ok (seqZ (Z.of_nat (length h) + 1) (Z.of_nat (length fs)), w, r') /\ window (h ++ fs) r' /\
    take (length h - Z.to_nat J) h ++ w = take (length h + length fs - Z.to_nat J) (h ++ fs).
Proof.
  revert h r. induction fs as [|f fs IH]; intros h r W Hn; cbn [ring_adds].
  - exists [], r. cbn [length]. rewrite !app_nil_r, Nat.add_0_r. done.
  - cbn [length] in Hn. destruct (add_window h r f W ltac:(lia)) as (r1 & -> & W1).
    destruct (IH (h ++ [f]) r1 W1) as (w & r2 & -> & W2 & Ew); [rewrite length_app; cbn; lia|].
    rewrite <- app_assoc in W2, Ew. exists (option_list (window_entry h (Z.of_nat (length h) + 1 - J)) ++ w), r2.
    split; [do 3 f_equal; rewrite length_app; cbn [length]; rewrite (seqZ_cons (Z.of_nat (length h) + 1)) by lia; f_equal; f_equal; lia|].
    split; [done|]. rewrite length_app in Ew. cbn [length] in Ew. replace (length h + length (f :: fs))%nat with (length h + 1 + length fs)%nat by (cbn; lia).
    change (f :: fs) with ([f] ++ fs). rewrite <- Ew, app_assoc. f_equal. pose proof jobs_bounds. unfold window_entry. destruct (Z.leb_spec (Z.of_nat (length h) + 1 - J) 0).
    + cbn. replace (length h + 1 - Z.to_nat J)%nat with 0%nat by lia. replace (length h - Z.to_nat J)%nat with 0%nat by lia. done.
    + destruct (lookup_lt_is_Some_2 h (length h - Z.to_nat J)) as [x Hx]; [lia|].
      replace (Z.to_nat (Z.of_nat (length h) + 1 - J - 1)) with (length h - Z.to_nat J)%nat by lia. rewrite Hx. cbn.
      replace (length h + 1 - Z.to_nat J)%nat with (S (length h - Z.to_nat J)) by lia. rewrite take_app_le by lia. by rewrite (take_S_r _ _ _ Hx).
Qed.

Lemma get_window h r seq :
  window h r -> 0 <= seq -> Z.of_nat (length h) + J < 2 ^ 64 ->
  ring_get_fence J seq r =
  Ok (if Z.of_nat (length h) <? seq then FoundError (- EINVAL)
      else if seq + J <=? Z.of_nat (length h) then FoundFence None else FoundFence (window_entry h seq)).
Proof.
  intros (Hs & Hl & Hw) H0 Hn. pose proof jobs_bounds. unfold ring_get_fence. rewrite Hs, slot_mod.
  destruct (Z.leb_spec (Z.of_nat (length h) + 1) seq), (Z.ltb_spec (Z.of_nat (length h)) seq); try lia; [done|].
  rewrite u64_small by (unfold is_u64; lia).
  destruct (Z.ltb_spec (seq + J) (Z.of_nat (length h) + 1)), (Z.leb_spec (seq + J) (Z.of_nat (length h))); try lia; [done|].
  rewrite Hw by lia. done.
Qed.
End window.

(** C26: with the number of jobs that the parameter check leaves of a
    parameter of at most 2^30 (it makes a larger one negative), and a ring of a
    context as it is created: the submissions get the numbers 1, 2, ..., n (there
    are fewer than 2^63 of them); the fence of a
    submission that is still in the window is found under its number, a number
    that was not given out yet is an error, and a number behind the window
    gives the null pointer, which callers take as signaled: exactly the
    fences of those submissions have been waited for. *)
Theorem ctx_fence_window (p : module_params) (h : list Z) :
  is_s32 (amdgpu_sched_jobs p) -> amdgpu_sched_jobs p <= 2 ^ 30 -> Z.of_nat (length h) < 2 ^ 63 ->
  let jobs := amdgpu_sched_jobs (amdgpu_check_arguments p) in
  forall r0, r0 ∈ ctx_rings (amdgpu_ctx_init jobs true [] 0).2 ->
  exists r, ring_adds jobs h r0 = Ok (seqZ 1 (Z.of_nat (length h)), take (length h - Z.to_nat jobs) h, r) /\
    forall seq, 0 <= seq ->
      ring_get_fence jobs seq r =
      Ok (if Z.of_nat (length h) <? seq then FoundError (- EINVAL)
          else if (seq =? 0) || (seq + jobs <=? Z.of_nat (length h)) then FoundFence None
          else FoundFence (h !! Z.to_nat (seq - 1))).
Proof.
  intros Hj Hb Hh jobs r0 Hr. destruct (sched_jobs_pow2 _ Hj Hb) as (k & Hk & Ek).
  assert (jobs = 2 ^ k) as -> by exact Ek. clear Ek. apply elem_of_replicate in Hr as [-> _].
  assert (H0 : 0 <= k <= 30) by lia. pose proof (jobs_bounds k H0) as HJ.
  destruct (adds_window k H0 h [] (ring_start k) (start_window k H0)) as (w & r & E & W & Ew); [cbn; lia|].
  cbn in Ew. rewrite <- Ew. exists r. split; [exact E|]. intros seq Hs. rewrite (get_window k H0 h r seq W Hs) by lia. f_equal. cbn [app].
  unfold window_entry. destruct (Z.ltb_spec (Z.of_nat (length h)) seq); [done|]. destruct (Z.eqb_spec seq 0) as [->|]; cbn [orb].
  - by destruct (0 + 2 ^ k <=? Z.of_nat (length h)).
  - destruct (seq + 2 ^ k <=? Z.of_nat (length h)); [done|]. destruct (Z.leb_spec seq 0); [lia|done].
Qed.
Lemma ctx_fence_window_witness :
  let jobs := amdgpu_sched_jobs (amdgpu_check_arguments (ModuleParams 1 (-1) 8 (-1) 1024)) in
  jobs = 4 /\ exists r, ring_adds jobs [11; 12; 13; 14; 15] (CtxRing 1 (replicate 4 None)) = Ok ([1; 2; 3; 4; 5], [11], r) /\
    ring_get_fence jobs 5 r = Ok (FoundFence (Some 15)) /\ ring_get_fence jobs 1 r = Ok (FoundFence None).
Proof.
  intros jobs. split; [reflexivity|].
  destruct (ctx_fence_window (ModuleParams 1 (-1) 8 (-1) 1024) [11; 12; 13; 14; 15] ltac:(unfold is_s32; cbn; lia) ltac:(cbn; lia) ltac:(cbn; lia) (CtxRing 1 (replicate 4 None))) as (r & E & H).
  - vm_compute. left.
  - exists r. split; [exact E|]. split; [exact (H 5 ltac:(lia))|exact (H 1 ltac:(lia))].
Defined.
