(* ===== verification/CtxLife.v ===== *)
(** * Contexts: lifetime

    Submissions take references with [amdgpu_ctx_get] and drop them with
    [amdgpu_ctx_put] while other threads create, query and free handles.
    [ctx_exec] is one call; [refs] lists the references that submissions
    hold.  The proofs follow one quantity, the number of references to a context
    among the handles and [refs]. *)

From stdpp Require Import base numbers list gmap relations.
From S2P Require Import Prelude CMonad CheckArgs Ctx.

Record ctx_sys := CtxSys { world : ctx_world; refs : list nat }.

Inductive ctx_request :=
  | ReqIoctl (op : ctx_op) (ctx_id : Z)
  | ReqGet (ctx_id : Z)
  | ReqPut (p : nat) (rest : list nat)
  | ReqAddFence (p idx : nat) (f : Z)
  | ReqGetFence (p idx : nat) (seq : Z)
  | ReqReset.

Definition lift_ctx {A} (s : ctx_sys) (m : CM A) (k : A -> list nat) : outcome ctx_sys :=
  match m (world s) with Ok (a, w) => Ok (CtxSys w (k a)) | Fault => Fault | NoFuel => NoFuel end.

Section life.
Context (k : Z) (Hk : 0 <= k <= 30).
Local Notation J := (2 ^ k).

Definition ctx_exec (q : ctx_request) (s : ctx_sys) : outcome ctx_sys :=
  match q with
  | ReqIoctl op i => lift_ctx s (amdgpu_ctx_ioctl J op i) (fun _ => refs s)
  | ReqGet i => lift_ctx s (amdgpu_ctx_get i) (fun p => option_list p ++ refs s)
  | ReqPut p rest => lift_ctx s (amdgpu_ctx_put (Some p)) (fun _ => rest)
  | ReqAddFence p idx f => lift_ctx s (amdgpu_ctx_add_fence J p idx f) (fun _ => refs s)
  | ReqGetFence p idx seq => lift_ctx s (amdgpu_ctx_get_fence J p idx seq) (fun _ => refs s)
  | ReqReset => lift_ctx s (modify (fun w => CtxWorld (ctx_handles w) (heap w) (gpu_reset_counter w + 1))) (fun _ => refs s)
  end.

(** All references: one for every handle, and those of the submissions. *)
Definition pointers (w : ctx_world) : list nat := (map_to_list (ctx_handles w)).*2.
Definition references (s : ctx_sys) : list nat := pointers (world s) ++ refs s.

(** What callers and the kernel's allocators guarantee. *)
Definition allowed (q : ctx_request) (s : ctx_sys) : Prop :=
  match q with
  | ReqIoctl (OpAlloc p idr _ _) _ =>
      (forall p', p = Some p' -> heap (world s) !! p' = None) /\ (0 <= idr -> ctx_handles (world s) !! idr = None) /\
      Z.of_nat (length (references s)) < 2 ^ 31 - 1
  | ReqGet _ => Z.of_nat (length (references s)) < 2 ^ 31 - 1
  | ReqPut p rest => refs s ≡ₚ p :: rest
  | ReqAddFence p idx _ => p ∈ refs s /\ (idx < 16)%nat
  | ReqGetFence p idx seq => p ∈ refs s /\ (idx < 16)%nat /\ 0 <= seq
  | _ => True
  end.
Definition ctx_step (s s' : ctx_sys) : Prop := exists q, allowed q s /\ ctx_exec q s = Ok s'.

Definition ctx_wf (c : amdgpu_ctx) : Prop :=
  length (ctx_rings c) = 16%nat /\ Forall (fun r => 0 <= sequence r /\ Z.of_nat (length (ring_fences r)) = J) (ctx_rings c).
(** The heap has exactly the contexts of [l], each with its count. *)
Definition counts (h : gmap nat amdgpu_ctx) (l : list nat) : Prop :=
  forall p, match h !! p with Some c => refcount c = occ p l /\ p ∈ l /\ ctx_wf c | None => p ∉ l end.
Definition ctx_inv (s : ctx_sys) : Prop :=
  Z.of_nat (length (references s)) < 2 ^ 31 /\ counts (heap (world s)) (references s).

Lemma counts_perm h l l' : l ≡ₚ l' -> counts h l -> counts h l'.
Proof. intros Hp H p. specialize (H p). by destruct (h !! p); rewrite <- Hp. Qed.
Lemma counts_member h l p : counts h l -> p ∈ l -> exists c, h !! p = Some c /\ refcount c = occ p l /\ ctx_wf c.
Proof. intros H Hp. specialize (H p). destruct (h !! p) as [c|]; [|done]. exists c. tauto. Qed.
Lemma counts_update h l p c c' :
  counts h l -> h !! p = Some c -> refcount c' = refcount c -> ctx_wf c' -> counts (<[p := c']> h) l.
Proof.
  intros H E Hr Hw q. destruct (decide (p = q)) as [<-|Hne].
  - specialize (H p). rewrite E in H. rewrite lookup_insert_eq. rewrite Hr. tauto.
  - rewrite lookup_insert_ne by done. apply H.
Qed.
Lemma counts_new h l p c : counts h l -> h !! p = None -> refcount c = 1 -> ctx_wf c -> counts (<[p := c]> h) (p :: l).
Proof.
  intros H E Hr Hw q. destruct (decide (p = q)) as [<-|Hne].
  - rewrite lookup_insert_eq, Hr, occ_cons, decide_True by done. specialize (H p). rewrite E in H.
    assert (occ p l = 0) as -> by (pose proof (occ_range p l); pose proof (occ_pos p l); destruct (decide (0 < occ p l)); [tauto|lia]).
    split; [done|]. split; [left|done].
  - rewrite lookup_insert_ne by done. specialize (H q). destruct (h !! q); rewrite ?occ_cons, ?decide_False, ?Z.add_0_r by congruence; set_solver.
Qed.
Lemma counts_get h l p c :
  counts h l -> h !! p = Some c -> Z.of_nat (length l) < 2 ^ 31 - 1 ->
  counts (<[p := Ctx (s32 (refcount c + 1)) (ctx_reset_counter c) (ctx_rings c)]> h) (p :: l).
Proof.
  intros H E Hl q. pose proof (H p) as Hp. rewrite E in Hp. destruct Hp as (Hr & Hin & Hw). destruct (decide (p = q)) as [<-|Hne].
  - rewrite lookup_insert_eq, occ_cons, decide_True by done. cbn [refcount]. pose proof (occ_range p l). rewrite s32_small by (unfold is_s32; lia).
    split; [lia|]. split; [left|done].
  - rewrite lookup_insert_ne by done. specialize (H q). destruct (h !! q); rewrite ?occ_cons, ?decide_False, ?Z.add_0_r by congruence; set_solver.
Qed.

Lemma the_ctx_run w p c : heap w !! p = Some c -> the_ctx p w = Ok (c, w).
Proof. intros E. unfold the_ctx, mbind, M_bind, gets, deref, id. by rewrite E. Qed.

(** Dropping one reference. *)
Lemma kref_put_run w p l :
  counts (heap w) (p :: l) -> Z.of_nat (length l) < 2 ^ 31 - 1 ->
  exists h, ctx_kref_put p w = Ok (bool_decide (p ∉ l), set_heap h w) /\ counts h l.
Proof.
  intros H Hl. destruct (counts_member _ _ p H ltac:(left)) as (c & E & Hr & Hw). rewrite occ_cons, decide_True in Hr by done.
  pose proof (occ_range p l) as Hrg. pose proof (occ_pos p l) as Hpos. unfold ctx_kref_put.
  rewrite (bind_eval _ _ _ _ _ (the_ctx_run w p c E)). replace (refcount c - 1) with (occ p l) by lia.
  destruct (Z.eqb_spec (occ p l) 0) as [Hz|Hnz].
  - exists (delete p (heap w)). split; [rewrite bool_decide_true by (rewrite <- Hpos; lia); done|].
    intros q. destruct (decide (p = q)) as [<-|Hne]; [rewrite lookup_delete_eq, <- Hpos; lia|].
    rewrite lookup_delete_ne by done. specialize (H q). destruct (heap w !! q); rewrite ?occ_cons, ?decide_False, ?Z.add_0_r in H by congruence; set_solver.
  - assert (p ∈ l) as Hin by (apply Hpos; lia). eexists. split; [by rewrite bool_decide_false by tauto|].
    intros q. destruct (decide (p = q)) as [<-|Hne].
    + rewrite lookup_insert_eq. cbn [refcount]. by rewrite s32_small by (unfold is_s32; lia).
    + rewrite lookup_insert_ne by done. specialize (H q). destruct (heap w !! q); rewrite ?occ_cons, ?decide_False, ?Z.add_0_r in H by congruence; set_solver.
Qed.

(** *** The calls *)

Lemma pointers_insert w i p : ctx_handles w !! i = None -> pointers (set_handles (<[i := p]> (ctx_handles w)) w) ≡ₚ p :: pointers w.
Proof. intros E. unfold pointers. cbn. by rewrite map_to_list_insert. Qed.
Lemma pointers_delete w i p : ctx_handles w !! i = Some p -> pointers w ≡ₚ p :: pointers (set_handles (delete i (ctx_handles w)) w).
Proof. intros E. unfold pointers. cbn. by rewrite <- (map_to_list_delete _ _ _ E). Qed.
Lemma pointer_member w i p : ctx_handles w !! i = Some p -> p ∈ pointers w.
Proof. intros E. rewrite (pointers_delete w i p E). left. Qed.

Lemma inv_perm w l r h :
  Z.of_nat (length l) < 2 ^ 31 -> l ≡ₚ pointers w ++ r -> counts h l -> heap w = h -> ctx_inv (CtxSys w r).
Proof. intros Hl Hp Hc <-. unfold ctx_inv, references. cbn. split; [by rewrite <- Hp|]. by eapply counts_perm. Qed.

Lemma init_wf ok er rc : ctx_wf (amdgpu_ctx_init J ok er rc).2 /\ refcount (amdgpu_ctx_init J ok er rc).2 = 1.
Proof.
  pose proof (jobs_bounds k Hk). assert (E : (amdgpu_ctx_init J ok er rc).2 = Ctx 1 rc (replicate 16 (CtxRing 1 (replicate (Z.to_nat J) None)))).
  { unfold amdgpu_ctx_init. destruct ok; cbn [negb]; [|done]. by destruct (list_find _ er) as [[? ?]|]. }
  rewrite E. split; [|done]. split; [done|]. apply Forall_replicate. split; [cbn; lia|]. cbn. rewrite length_replicate. lia.
Qed.

Lemma ctx_alloc_ok s p idr ok er i :
  ctx_inv s -> allowed (ReqIoctl (OpAlloc p idr ok er) i) s ->
  exists s', ctx_exec (ReqIoctl (OpAlloc p idr ok er) i) s = Ok s' /\ ctx_inv s'.
Proof.
  intros [Hl Hc] (Hp & Hi & Hb). unfold ctx_exec, lift_ctx. cbn [amdgpu_ctx_ioctl]. unfold amdgpu_ctx_alloc.
  destruct p as [p|]; [|by eexists]. destruct (Z.ltb_spec idr 0) as [|H0]; [by eexists|]. specialize (Hp p eq_refl). specialize (Hi H0).
  destruct s as [w r]. cbn [world refs] in *. rewrite (bind_eval (gets id) _ w w w eq_refl). cbn [id].
  rewrite (bind_eval (modify _) _ w tt _ eq_refl). destruct (init_wf ok er (gpu_reset_counter w)) as [Hwf Hrc].
  destruct (amdgpu_ctx_init J ok er (gpu_reset_counter w)) as [e c]. cbn [snd] in *. destruct (negb (e =? 0)).
  - eexists. split; [done|]. apply (inv_perm _ (references (CtxSys w r)) _ (heap w)); try done. unfold references, pointers. cbn. by rewrite delete_insert_id.
  - eexists. split; [done|]. apply (inv_perm _ (p :: references (CtxSys w r)) _ (<[p := c]> (heap w))); try done.
    + cbn [length]. lia.
    + unfold references. cbn [world refs]. by rewrite app_comm_cons, <- (pointers_insert w idr p Hi).
    + by apply counts_new.
Qed.

Lemma free_ok s i : ctx_inv s -> exists s', ctx_exec (ReqIoctl OpFree i) s = Ok s' /\ ctx_inv s'.
Proof.
  intros [Hl Hc]. destruct s as [w r]. unfold ctx_exec, lift_ctx. cbn [amdgpu_ctx_ioctl world refs] in *. unfold amdgpu_ctx_free.
  destruct (ctx_handles w !! i) as [p|] eqn:E; [|unfold mbind, M_bind, gets, id; rewrite E; by eexists].
  pose proof (pointers_delete w i p E) as Hp. set (w1 := set_handles (delete i (ctx_handles w)) w) in *.
  assert (Hperm : references (CtxSys w r) ≡ₚ p :: references (CtxSys w1 r)) by (unfold references; cbn; by rewrite Hp).
  destruct (kref_put_run w1 p (references (CtxSys w1 r))) as (h & Eh & Hh).
  - eapply counts_perm; [exact Hperm|exact Hc].
  - apply Permutation_length in Hperm. cbn [length] in Hperm. lia.
  - unfold mbind, M_bind, gets, modify, id. rewrite E. fold w1. rewrite Eh. eexists. split; [done|].
    apply (inv_perm _ (references (CtxSys w1 r)) _ h); try done. apply Permutation_length in Hperm. cbn [length] in Hperm. lia.
Qed.

(** A call that changes one context and keeps its count. *)
Lemma touch_inv w r p c c' :
  ctx_inv (CtxSys w r) -> heap w !! p = Some c -> refcount c' = refcount c -> ctx_wf c' -> ctx_inv (CtxSys (set_heap (<[p := c']> (heap w)) w) r).
Proof. intros [Hl Hc] E Hr Hw. split; [done|]. by apply (counts_update _ _ p c c' Hc). Qed.

Lemma handle_ctx w r i p : ctx_inv (CtxSys w r) -> ctx_handles w !! i = Some p -> exists c, heap w !! p = Some c /\ ctx_wf c.
Proof.
  intros [_ Hc] E. destruct (counts_member _ _ p Hc) as (c & Ec & _ & Hw); [|by exists c].
  unfold references. cbn. apply elem_of_app. left. by eapply pointer_member.
Qed.
Lemma held_ctx w r p : ctx_inv (CtxSys w r) -> p ∈ r -> exists c, heap w !! p = Some c /\ ctx_wf c.
Proof.
  intros [_ Hc] Hp. destruct (counts_member _ _ p Hc) as (c & Ec & _ & Hw); [|by exists c]. unfold references. cbn. apply elem_of_app. by right.
Qed.

Lemma query_ok s i : ctx_inv s -> exists s', ctx_exec (ReqIoctl OpQuery i) s = Ok s' /\ ctx_inv s'.
Proof.
  destruct s as [w r]. intros I. unfold ctx_exec, lift_ctx. cbn [amdgpu_ctx_ioctl world refs]. unfold amdgpu_ctx_query, mbind, M_bind, gets, id.
  destruct (ctx_handles w !! i) as [p|] eqn:E; [|by eexists]. destruct (handle_ctx w r i p I E) as (c & Ec & Hw).
  rewrite (the_ctx_run w p c Ec). eexists. split; [done|]. by apply (touch_inv w r p c).
Qed.

Lemma get_ok s i : ctx_inv s -> allowed (ReqGet i) s -> exists s', ctx_exec (ReqGet i) s = Ok s' /\ ctx_inv s'.
Proof.
  destruct s as [w r]. intros I Hb. unfold ctx_exec, lift_ctx, amdgpu_ctx_get, mbind, M_bind, gets, id. cbn [world refs].
  destruct (ctx_handles w !! i) as [p|] eqn:E; [|by eexists]. destruct (handle_ctx w r i p I E) as (c & Ec & Hw).
  rewrite (the_ctx_run w p c Ec). eexists. split; [done|]. destruct I as [Hl Hc].
  apply (inv_perm _ (p :: references (CtxSys w r)) _ (<[p := Ctx (s32 (refcount c + 1)) (ctx_reset_counter c) (ctx_rings c)]> (heap w))).
  - cbn [length allowed] in *. lia.
  - unfold references. cbn. by rewrite Permutation_middle.
  - by apply counts_get.
  - done.
Qed.

Lemma put_ok s p rest : ctx_inv s -> allowed (ReqPut p rest) s -> exists s', ctx_exec (ReqPut p rest) s = Ok s' /\ ctx_inv s'.
Proof.
  destruct s as [w r]. intros [Hl Hc] Hp. unfold ctx_exec, lift_ctx, amdgpu_ctx_put. cbn [world refs allowed] in *.
  assert (Hperm : references (CtxSys w r) ≡ₚ p :: references (CtxSys w rest)) by (unfold references; cbn; by rewrite Hp, Permutation_middle).
  assert (Hlen : Z.of_nat (length (references (CtxSys w rest))) < 2 ^ 31 - 1) by (apply Permutation_length in Hperm; cbn [length] in Hperm; lia).
  destruct (kref_put_run w p (references (CtxSys w rest))) as (h & Eh & Hh); [by eapply counts_perm|done|].
  unfold mbind, M_bind. rewrite Eh. eexists. split; [done|]. by apply (inv_perm _ (references (CtxSys w rest)) _ h); [lia|..].
Qed.

Lemma ring_of c idx : ctx_wf c -> (idx < 16)%nat -> exists r, ctx_rings c !! idx = Some r /\ 0 <= sequence r /\ Z.of_nat (length (ring_fences r)) = J.
Proof.
  intros [Hl Hf] Hi. destruct (lookup_lt_is_Some_2 (ctx_rings c) idx ltac:(lia)) as [r E]. exists r. split; [done|]. exact (Forall_lookup_1 _ _ _ _ Hf E).
Qed.
Lemma slot_found r seq : Z.of_nat (length (ring_fences r)) = J -> exists f, ring_fences r !! slot J seq = Some f.
Proof. intros Hl. apply lookup_lt_is_Some_2. rewrite (slot_mod k Hk). pose proof (slot_lt k Hk seq). lia. Qed.

Lemma add_fence_ok s p idx f : ctx_inv s -> allowed (ReqAddFence p idx f) s -> exists s', ctx_exec (ReqAddFence p idx f) s = Ok s' /\ ctx_inv s'.
Proof.
  destruct s as [w r]. intros I [Hp Hi]. cbn [refs] in Hp. destruct (held_ctx w r p I Hp) as (c & Ec & Hw). destruct (ring_of c idx Hw Hi) as (rg & Er & Hs & Hl).
  unfold ctx_exec, lift_ctx, amdgpu_ctx_add_fence. cbn [world refs]. rewrite (bind_eval _ _ _ _ _ (the_ctx_run w p c Ec)).
  rewrite (bind_eval (deref (ctx_rings c !! idx)) _ w rg w) by (by rewrite Er). unfold ring_add_fence.
  destruct (slot_found rg (sequence rg) Hl) as [o ->]. eexists. split; [done|]. apply (touch_inv w r p c); try done.
  destruct Hw as [Hw1 Hw2]. split; [cbn; by rewrite length_insert|]. apply Forall_insert; [done|]. cbn. rewrite length_insert. pose proof (u64_range (sequence rg + 1)) as Hu. unfold is_u64 in Hu. lia.
Qed.

Lemma get_fence_ok s p idx seq : ctx_inv s -> allowed (ReqGetFence p idx seq) s -> exists s', ctx_exec (ReqGetFence p idx seq) s = Ok s' /\ ctx_inv s'.
Proof.
  destruct s as [w r]. intros I (Hp & Hi & Hseq). cbn [refs] in Hp. destruct (held_ctx w r p I Hp) as (c & Ec & Hw). destruct (ring_of c idx Hw Hi) as (rg & Er & Hs & Hl).
  unfold ctx_exec, lift_ctx, amdgpu_ctx_get_fence. cbn [world refs]. rewrite (bind_eval _ _ _ _ _ (the_ctx_run w p c Ec)).
  rewrite (bind_eval (deref (ctx_rings c !! idx)) _ w rg w) by (by rewrite Er). unfold ring_get_fence. destruct (slot_found rg seq Hl) as [o ->].
  destruct (sequence rg <=? seq); [by eexists|]. destruct (u64 (seq + J) <? sequence rg); by eexists.
Qed.

Lemma exec_ok q s : ctx_inv s -> allowed q s -> exists s', ctx_exec q s = Ok s' /\ ctx_inv s'.
Proof.
  intros I Ha. destruct q as [op i|i|p rest|p idx f|p idx seq|].
  - destruct op as [p idr ok er| | |]; [by apply ctx_alloc_ok|by apply free_ok|by apply query_ok|]. exists s. by destruct s.
  - by apply get_ok.
  - by apply put_ok.
  - by apply add_fence_ok.
  - by apply get_fence_ok.
  - eexists. by split.
Qed.

Lemma life_reachable n s : rtc ctx_step (CtxSys (CtxWorld ∅ ∅ n) []) s -> ctx_inv s.
Proof.
  intros H. remember (CtxSys (CtxWorld ∅ ∅ n) []) as s0 eqn:E. assert (I : ctx_inv s0).
  { subst. split; [done|]. intros p. cbn. rewrite lookup_empty. apply not_elem_of_nil. }
  clear E. induction H as [s|s0 s1 s2 (q & Ha & Eq) _ IH]; [done|]. apply IH. destruct (exec_ok q s0 I Ha) as (s' & E' & I'). congruence.
Qed.

Lemma fini_run l r w :
  counts (heap w) (l.*2 ++ r) -> Z.of_nat (length (l.*2 ++ r)) < 2 ^ 31 ->
  exists b h, fini_loop l w = Ok (b, set_heap h w) /\ counts h r.
Proof.
  revert w. induction l as [|[i p] l IH]; intros w Hc Hl; cbn [fini_loop].
  - exists [], (heap w). split; [by destruct w|done].
  - rewrite fmap_cons in Hc, Hl. cbn [snd app length] in Hc, Hl. destruct (kref_put_run w p (l.*2 ++ r) Hc) as (h & Eh & Hh); [lia|].
    rewrite (bind_eval _ _ _ _ _ Eh). destruct (IH (set_heap h w)) as (b & h' & E' & Hh'); [exact Hh|lia|].
    rewrite (bind_eval _ _ _ _ _ E'). eexists _, h'. by split.
Qed.
Lemma fini_ok s : ctx_inv s -> exists l w, amdgpu_ctx_mgr_fini (world s) = Ok (l, w) /\ counts (heap w) (refs s).
Proof.
  intros [Hl Hc]. unfold amdgpu_ctx_mgr_fini. rewrite (bind_eval (gets id) _ (world s) (world s) (world s) eq_refl). cbn [id].
  destruct (fini_run (map_to_list (ctx_handles (world s))) (refs s) (world s) Hc Hl) as (b & h & E & Hh).
  rewrite (bind_eval _ _ _ _ _ E). eexists _, _. split; [done|]. exact Hh.
Qed.
Lemma counts_domain h l p : counts h l -> is_Some (h !! p) <-> p ∈ l.
Proof. intros H. specialize (H p). destruct (h !! p); [by split; [tauto|eauto]|]. split; [by intros [? ?]|done]. Qed.
End life.

(** Whatever threads do with handles and references, no call touches a
    context that was released, and a context exists as long as, and no longer
    than, it has a handle or somebody holds a reference to it; when the file is
    closed, exactly the contexts that submissions still hold are left. *)
Theorem ctx_lifetime (m : module_params) (n : Z) (s : ctx_sys) :
  is_s32 (amdgpu_sched_jobs m) -> amdgpu_sched_jobs m <= 2 ^ 30 ->
  forall bits, amdgpu_sched_jobs (amdgpu_check_arguments m) = 2 ^ bits ->
  rtc (ctx_step bits) (CtxSys (CtxWorld ∅ ∅ n) []) s ->
  (forall q, allowed q s -> exists s', ctx_exec bits q s = Ok s') /\
  (forall p, is_Some (heap (world s) !! p) <-> p ∈ references s) /\
  (exists l w, amdgpu_ctx_mgr_fini (world s) = Ok (l, w) /\ forall p, is_Some (heap w !! p) <-> p ∈ refs s).
Proof.
  intros Hj Hb bits Eb Hr. assert (Hk : 0 <= bits <= 30).
  { destruct (sched_jobs_pow2 _ Hj Hb) as (k & Hk & Ek). cbn in Eb. rewrite Ek in Eb.
    destruct (Z.neg_nonneg_cases bits); [rewrite (Z.pow_neg_r 2 bits) in Eb by lia; pose proof (pow2_bounds k ltac:(lia)); lia|].
    apply Z.pow_inj_r in Eb; lia. }
  pose proof (life_reachable bits Hk n s Hr) as I. split; [|split].
  - intros q Ha. destruct (exec_ok bits Hk q s I Ha) as (s' & E & _). by exists s'.
  - intros p. apply (counts_domain bits Hk), I.
  - destruct (fini_ok bits Hk s I) as (l & w & E & Hc). exists l, w. split; [done|]. intros p. by apply (counts_domain bits Hk).
Qed.

(** The handle is freed while a submission holds the context. *)
Lemma ctx_lifetime_witness :
  exists s, refs s = [7%nat] /\ ctx_handles (world s) = ∅ /\ is_Some (heap (world s) !! 7%nat).
Proof.
  pose (m := ModuleParams 4 (-1) 8 (-1) 1024).
  destruct (ctx_exec 2 (ReqIoctl (OpAlloc (Some 7%nat) 1 true [0; 0]) 0) (CtxSys (CtxWorld ∅ ∅ 0) [])) as [s1| |] eqn:E1; [|vm_compute in E1; discriminate..].
  destruct (ctx_exec 2 (ReqGet 1) s1) as [s2| |] eqn:E2; [|vm_compute in E1; injection E1 as <-; vm_compute in E2; discriminate..].
  destruct (ctx_exec 2 (ReqIoctl OpFree 1) s2) as [s3| |] eqn:E3; [|vm_compute in E1; injection E1 as <-; vm_compute in E2; injection E2 as <-; vm_compute in E3; discriminate..].
  assert (A1 : allowed (ReqIoctl (OpAlloc (Some 7%nat) 1 true [0; 0]) 0) (CtxSys (CtxWorld ∅ ∅ 0) [])) by (repeat split; vm_compute; done).
  assert (A2 : allowed (ReqGet 1) s1) by (vm_compute in E1; injection E1 as <-; vm_compute; done).
  assert (Hr : rtc (ctx_step 2) (CtxSys (CtxWorld ∅ ∅ 0) []) s3).
  { eapply rtc_l; [by exists (ReqIoctl (OpAlloc (Some 7%nat) 1 true [0; 0]) 0)|]. eapply rtc_l; [by exists (ReqGet 1)|]. apply rtc_once. by exists (ReqIoctl OpFree 1). }
  exists s3. vm_compute in E1. injection E1 as <-. vm_compute in E2. injection E2 as <-. vm_compute in E3. injection E3 as <-.
  split; [reflexivity|]. split; [reflexivity|].
  apply (ctx_lifetime m 0 _ ltac:(unfold is_s32; cbn; lia) ltac:(cbn; lia) 2 eq_refl Hr). vm_compute. left.
Defined.
