(* ===== verification/Pll.v ===== *)
(** * Pixel clock dividers ([amdgpu/amdgpu_pll.c])

    [amdgpu_pll_compute] looks for a feedback divider, a reference divider and a
    post divider whose clock is as close as possible to the one asked for.
    Everything is 32-bit unsigned; [None] is a division by zero. *)

From stdpp Require Import base numbers list.
From S2P Require Import Prelude.

(** The fields of [struct amdgpu_pll] that are read. *)
Record amdgpu_pll := Pll {
  reference_freq : Z; reference_div : Z; pll_post_div : Z;
  pll_out_min : Z; pll_out_max : Z; lcd_pll_out_min : Z; lcd_pll_out_max : Z;
  min_ref_div : Z; max_ref_div : Z; min_post_div : Z; max_post_div : Z; min_feedback_div : Z; max_feedback_div : Z;
  pll_flags : Z }.

Definition AMDGPU_PLL_USE_REF_DIV : Z := Z.shiftl 1 2.
Definition AMDGPU_PLL_USE_FRAC_FB_DIV : Z := Z.shiftl 1 10.
Definition AMDGPU_PLL_USE_POST_DIV : Z := Z.shiftl 1 12.
Definition AMDGPU_PLL_IS_LCD : Z := Z.shiftl 1 13.
Definition AMDGPU_PLL_PREFER_MINM_OVER_MAXP : Z := Z.shiftl 1 14.
Definition has_flag (pll : amdgpu_pll) (f : Z) : bool := negb (Z.land (pll_flags pll) f =? 0).

Definition div (a b : Z) : option Z := if b =? 0 then None else Some (a / b).
Definition DIV_ROUND_UP (n d : Z) : option Z := div (u32 (u32 (n + d) - 1)) d.
Definition DIV_ROUND_CLOSEST (x d : Z) : option Z := div (u32 (x + d / 2)) d.
(** [abs] of the kernel, on an unsigned argument. *)
Definition abs (x : Z) : Z := u32 (Z.abs (s32 x)).

(** ** Reduction of a ratio *)

(** Multiplies both numbers until the first reaches its minimum. *)
Definition scale_up (a b a_min : Z) : option (Z * Z) :=
  if a <? a_min then tmp ← DIV_ROUND_UP a_min a; Some (u32 (a * tmp), u32 (b * tmp)) else Some (a, b).

Definition amdgpu_pll_reduce_ratio (nom den nom_min den_min : Z) : option (Z * Z) :=
  let tmp := Z.gcd nom den in
  nom ← div nom tmp;
  den ← div den tmp;
  '(nom, den) ← scale_up nom den nom_min;
  '(den, nom) ← scale_up den nom den_min;
  Some (nom, den).

(** ** The dividers for a post divider *)

Definition amdgpu_pll_get_fb_ref_div (nom den post_div fb_div_max ref_div_max : Z) : option (Z * Z) :=
  lim ← div 128 post_div;
  let ref_div_max := Z.min lim ref_div_max in
  closest ← DIV_ROUND_CLOSEST den post_div;
  let ref_div := Z.min (Z.max closest 1) ref_div_max in
  fb_div ← DIV_ROUND_CLOSEST (u32 (u32 (nom * ref_div) * post_div)) den;
  if fb_div >? fb_div_max then
    ref_div ← DIV_ROUND_CLOSEST (u32 (ref_div * fb_div_max)) fb_div;
    Some (fb_div_max, ref_div)
  else Some (fb_div, ref_div).

(** ** The search *)

Record pll_limits := PllLimits {
  target_clock : Z; fb_div_min : Z; fb_div_max : Z; ref_div_min : Z; ref_div_max : Z; post_div_min : Z; post_div_max : Z }.

(** The first half of [amdgpu_pll_compute]: the allowed ranges. *)
Definition pll_ranges (pll : amdgpu_pll) (freq : Z) : option pll_limits :=
  let frac := has_flag pll AMDGPU_PLL_USE_FRAC_FB_DIV in
  let ten x := if frac then u32 (x * 10) else x in
  let target := if frac then freq else freq / 10 in
  let ref_min := if has_flag pll AMDGPU_PLL_USE_REF_DIV then reference_div pll else min_ref_div pll in
  let ref_max := if frac && has_flag pll AMDGPU_PLL_USE_REF_DIV then reference_div pll else max_ref_div pll in
  '(post_min, post_max) ←
    (if has_flag pll AMDGPU_PLL_USE_POST_DIV then Some (pll_post_div pll, pll_post_div pll)
     else
       let lcd := has_flag pll AMDGPU_PLL_IS_LCD in
       let vco_min := ten (if lcd then lcd_pll_out_min pll else pll_out_min pll) in
       let vco_max := ten (if lcd then lcd_pll_out_max pll else pll_out_max pll) in
       lo ← div vco_min target;
       let lo := if u32 (target * lo) <? vco_min then u32 (lo + 1) else lo in
       let lo := if lo <? min_post_div pll then min_post_div pll else lo in
       hi ← div vco_max target;
       let hi := if u32 (target * hi) >? vco_max then u32 (hi - 1) else hi in
       let hi := if hi >? max_post_div pll then max_post_div pll else hi in
       Some (lo, hi));
  Some (PllLimits target (ten (min_feedback_div pll)) (ten (max_feedback_div pll)) ref_min ref_max post_min post_max).

(** How far the best dividers for a post divider are from the target. *)
Definition post_div_diff (ref_freq nom den : Z) (l : pll_limits) (post_div : Z) : option Z :=
  '(fb_div, ref_div) ← amdgpu_pll_get_fb_ref_div nom den post_div (fb_div_max l) (ref_div_max l);
  clock ← div (u32 (ref_freq * fb_div)) (u32 (ref_div * post_div));
  Some (abs (u32 (target_clock l - clock))).

(** The loop over the post dividers, [turns] left. *)
Fixpoint post_div_loop (turns : nat) (prefer_min : bool) (ref_freq nom den : Z) (l : pll_limits) (post_div post_div_best diff_best : Z) : option Z :=
  match turns with
  | O => Some post_div_best
  | S k =>
      diff ← post_div_diff ref_freq nom den l post_div;
      if (diff <? diff_best) || ((diff =? diff_best) && negb prefer_min)
      then post_div_loop k prefer_min ref_freq nom den l (post_div + 1) post_div diff
      else post_div_loop k prefer_min ref_freq nom den l (post_div + 1) post_div_best diff_best
  end.

(** Larger feedback dividers where the fraction would be coarse. *)
Definition avoid_jitter (frac : bool) (fb_min fb_div ref_div : Z) : option (Z * Z) :=
  if frac && negb (fb_div mod 10 =? 0) then
    let fb_min := Z.max fb_min ((9 - fb_div mod 10) * 20 + 60) in
    scale_up fb_div ref_div fb_min
  else Some (fb_div, ref_div).

Record pll_result := PllResult { dot_clock : Z; res_fb_div : Z; res_frac_fb_div : Z; res_ref_div : Z; res_post_div : Z }.

Definition pll_save (frac : bool) (ref_freq fb_div ref_div post_div : Z) : option pll_result :=
  let fb := if frac then fb_div / 10 else fb_div in
  let fr := if frac then fb_div mod 10 else 0 in
  dot ← div (u32 (u32 (u32 (ref_freq * fb) * 10) + u32 (ref_freq * fr))) (u32 (u32 (ref_div * post_div) * 10));
  Some (PllResult dot fb fr ref_div post_div).

Definition amdgpu_pll_compute (pll : amdgpu_pll) (freq : Z) : option pll_result :=
  l ← pll_ranges pll freq;
  let frac := has_flag pll AMDGPU_PLL_USE_FRAC_FB_DIV in
  let prefer_min := has_flag pll AMDGPU_PLL_PREFER_MINM_OVER_MAXP in
  let rf := reference_freq pll in
  '(nom, den) ← amdgpu_pll_reduce_ratio (target_clock l) rf (fb_div_min l) (post_div_min l);
  let turns := Z.to_nat (post_div_max l - post_div_min l + 1) in
  post_div ← post_div_loop turns prefer_min rf nom den l (post_div_min l) (if prefer_min then post_div_min l else post_div_max l) (u32 (-1));
  '(fb_div, ref_div) ← amdgpu_pll_get_fb_ref_div nom den post_div (fb_div_max l) (ref_div_max l);
  '(fb_div, ref_div) ← amdgpu_pll_reduce_ratio fb_div ref_div (fb_div_min l) (ref_div_min l);
  '(fb_div, ref_div) ← avoid_jitter frac (fb_div_min l) fb_div ref_div;
  pll_save frac rf fb_div ref_div post_div.

(** ** The dividers are the best ones

    No product wraps, no division is by zero, and the clock that comes out is at
    least as close to the target as that of any other post divider in range. *)

Lemma div_pos a b : b <> 0 -> div a b = Some (a / b).
Proof. intros H. unfold div. by destruct (Z.eqb_spec b 0). Qed.
Lemma div_round_up n d : 0 < d -> 0 < n -> n + d < 2 ^ 32 -> DIV_ROUND_UP n d = Some ((n + d - 1) / d).
Proof. intros. unfold DIV_ROUND_UP. rewrite (u32_small (n + d)) by (unfold is_u32; lia). rewrite u32_small by (unfold is_u32; lia). apply div_pos. lia. Qed.
Lemma div_round_closest x d : 0 < d -> 0 <= x -> x + d < 2 ^ 32 -> DIV_ROUND_CLOSEST x d = Some ((x + d / 2) / d).
Proof. intros. unfold DIV_ROUND_CLOSEST. rewrite u32_small by (unfold is_u32; Z.div_mod_to_equations; lia). apply div_pos. lia. Qed.

Lemma le_scaled a t : 0 < a -> 1 <= t -> a <= a * t.
Proof. intros Ha Ht. rewrite <- (Z.mul_1_r a) at 1. apply Z.mul_le_mono_nonneg_l; lia. Qed.

Lemma le_scaled_0 a t : 0 <= a -> 1 <= t -> a <= a * t.
Proof. intros Ha Ht. rewrite <- (Z.mul_1_r a) at 1. apply Z.mul_le_mono_nonneg_l; lia. Qed.

(** Scaling keeps the ratio. *)
Lemma scale_up_spec a b m :
  0 < a -> 0 < b -> 0 <= m -> m + a < 2 ^ 32 -> (a < m -> b * (2 * m) < 2 ^ 32 * a) ->
  exists a' b' t, scale_up a b m = Some (a', b') /\ a' = a * t /\ b' = b * t /\ 1 <= t /\ m <= a' /\ (t = 1 \/ a' < 2 * m).
Proof.
  intros Ha Hb Hm Hs Hw. unfold scale_up. destruct (Z.ltb_spec a m) as [Hlt|]; [|exists a, b, 1; repeat split; lia].
  rewrite div_round_up by lia. cbn [mbind option_bind]. set (t := (m + a - 1) / a).
  assert (Ht : m <= a * t < m + a) by (subst t; Z.div_mod_to_equations; nia).
  assert (1 <= t) by nia. specialize (Hw Hlt). assert (b * t < 2 ^ 32) by nia.
  exists (a * t), (b * t), t. rewrite !u32_small by (unfold is_u32; nia). repeat split; lia.
Qed.

Lemma gcd_split nom den :
  0 < nom -> 0 < den -> exists g a b, Z.gcd nom den = g /\ 0 < g /\ nom = a * g /\ den = b * g /\ 0 < a /\ 0 < b /\ a <= nom /\ b <= den.
Proof.
  intros Hn Hd. destruct (Z.gcd_divide_l nom den) as [a Ea]. destruct (Z.gcd_divide_r nom den) as [b Eb]. pose proof (Z.gcd_nonneg nom den) as Hg.
  exists (Z.gcd nom den), a, b. generalize dependent (Z.gcd nom den). intros g Ea Eb Hg. assert (0 < g) by (destruct (decide (g = 0)) as [->|]; lia).
  split; [done|]. split; [done|]. split; [done|]. split; [done|]. repeat split; nia.
Qed.

(** The reduced ratio is the same ratio, both numbers reach their minimum, and
    they stay small. *)
Lemma reduce_ratio_spec nom den nmin dmin :
  0 < nom -> 0 < den -> 0 <= nmin -> 0 <= dmin -> nom + nmin < 2 ^ 32 -> den * Z.max 1 (2 * nmin) + dmin < 2 ^ 32 -> 2 * dmin * nom < 2 ^ 32 * den ->
  exists n d, amdgpu_pll_reduce_ratio nom den nmin dmin = Some (n, d) /\ n * den = d * nom /\ nmin <= n /\ dmin <= d /\ 0 < n /\ 0 < d /\
    (n <= Z.max nom (2 * nmin) \/ d < 2 * dmin) /\ (d <= den * Z.max 1 (2 * nmin) \/ d < 2 * dmin).
Proof.
  intros Hn Hd Hnm Hdm Hb1 Hb2 Hb3. unfold amdgpu_pll_reduce_ratio.
  destruct (gcd_split nom den Hn Hd) as (g & a & b & Eg & Hg & Ea & Eb & Ha & Hb & Han & Hbd). rewrite Eg.
  rewrite !div_pos by lia. rewrite Ea, Eb, !Z.div_mul by lia. cbn [mbind option_bind]. rewrite <- Ea, <- Eb.
  destruct (scale_up_spec a b nmin Ha Hb Hnm) as (a1 & b1 & t1 & -> & Ea1 & Eb1 & Ht1 & Hm1 & Hor1); [lia| |].
  { intros _. assert (b * (2 * nmin) <= den * Z.max 1 (2 * nmin)) by (apply Z.mul_le_mono_nonneg; lia). lia. }
  cbn [mbind option_bind]. assert (Hr1 : a1 * den = b1 * nom) by (rewrite Ea1, Eb1, Ea, Eb; ring). pose proof (le_scaled a t1 Ha Ht1). pose proof (le_scaled b t1 Hb Ht1).
  assert (Ha1 : 0 < a1) by lia. assert (Hb1' : 0 < b1) by lia.
  assert (Hsz : a1 <= Z.max nom (2 * nmin)) by (destruct Hor1; [subst t1|]; lia).
  assert (Hsb : b1 <= den * Z.max 1 (2 * nmin)).
  { rewrite Eb1. apply Z.mul_le_mono_nonneg; [lia|lia|lia|]. destruct Hor1 as [->|Hlt]; [lia|]. pose proof (le_scaled t1 a ltac:(lia) ltac:(lia)). lia. }
  destruct (scale_up_spec b1 a1 dmin) as (b2 & a2 & t2 & -> & Eb2 & Ea2 & Ht2 & Hm2 & Hor2); [done|done|done|lia| |].
  { intros Hlt. apply (Z.mul_lt_mono_pos_r den); [done|].
    replace (a1 * (2 * dmin) * den) with (b1 * (2 * dmin * nom)) by (transitivity (2 * dmin * (a1 * den)); [rewrite Hr1; ring|ring]).
    replace (2 ^ 32 * b1 * den) with (b1 * (2 ^ 32 * den)) by ring. by apply Z.mul_lt_mono_pos_l. }
  cbn [mbind option_bind]. exists a2, b2. split; [done|]. pose proof (le_scaled a1 t2 Ha1 Ht2). pose proof (le_scaled b1 t2 Hb1' Ht2).
  split; [rewrite Ea2, Eb2; transitivity (a1 * den * t2); [ring|rewrite Hr1; ring]|]. repeat split; try lia; destruct Hor2 as [->|Hlt]; lia.
Qed.

(** ** Rounding to the closest *)

Definition closest (x d : Z) : Z := (x + d / 2) / d.

Lemma closest_bounds x d : 0 < d -> 0 <= x -> 2 * d * closest x d <= 2 * x + d /\ 2 * x < 2 * d * closest x d + d + 1.
Proof. intros Hd Hx. unfold closest. Z.div_mod_to_equations. lia. Qed.
Lemma closest_pos x d : 0 < d -> d <= x -> 1 <= closest x d.
Proof. intros Hd Hx. unfold closest. apply Z.div_le_lower_bound; [lia|]. Z.div_mod_to_equations. lia. Qed.
Lemma closest_le x d m : 0 < d -> 0 <= x -> x <= m * d -> closest x d <= m.
Proof.
  intros Hd H0 Hx. pose proof (closest_bounds x d Hd H0) as [H _]. assert (2 * d * closest x d < 2 * d * (m + 1)) by lia.
  apply Z.mul_lt_mono_pos_l in H1; lia.
Qed.
Lemma closest_nonneg x d : 0 < d -> 0 <= x -> 0 <= closest x d.
Proof. intros Hd Hx. apply Z.div_pos; [|done]. Z.div_mod_to_equations. lia. Qed.

Section dividers.
Context (nom den fbmax refmax : Z).
Context (Hnom : 0 < nom) (Hden : 0 < den) (Hfb : 1 <= fbmax <= 2 ^ 20) (Href : 1 <= refmax).
Context (Hsmall : 128 * nom + den < 2 ^ 31).

(** The reference divider that is tried first. *)
Definition first_ref (post : Z) : Z := Z.min (Z.max (closest den post) 1) (Z.min (128 / post) refmax).

Lemma first_ref_bounds post : 1 <= post <= 128 -> 1 <= first_ref post /\ first_ref post * post <= 128 /\ first_ref post <= refmax.
Proof.
  intros Hp. unfold first_ref. assert (H1 : 1 <= 128 / post) by (apply Z.div_le_lower_bound; lia).
  assert (H2 : post * (128 / post) <= 128) by (apply Z.mul_div_le; lia). split; [lia|]. split; [|lia].
  transitivity (128 / post * post); [apply Z.mul_le_mono_nonneg_r; lia|lia].
Qed.

Lemma fb_ref_run post :
  1 <= post <= 128 -> den <= nom * post -> nom * post <= den * fbmax ->
  let ref1 := first_ref post in let fb1 := closest (nom * ref1 * post) den in
  amdgpu_pll_get_fb_ref_div nom den post fbmax refmax = Some (if fb1 >? fbmax then (fbmax, closest (ref1 * fbmax) fb1) else (fb1, ref1)) /\
  1 <= fb1 <= ref1 * fbmax.
Proof.
  intros Hp Hlo Hhi. cbv zeta. destruct (first_ref_bounds post Hp) as (Hr1 & Hr2 & Hr3). unfold amdgpu_pll_get_fb_ref_div.
  rewrite div_pos by lia. cbn [mbind option_bind]. rewrite div_round_closest by lia. cbn [mbind option_bind].
  change (Z.min (Z.max ((den + post / 2) / post) 1) (Z.min (128 / post) refmax)) with (first_ref post). set (r := first_ref post) in *.
  assert (Hrp : nom * r * post = nom * (r * post)) by ring. assert (Hm : nom * (r * post) <= nom * 128) by (apply Z.mul_le_mono_nonneg_l; lia).
  assert (Hr128 : r <= 128) by (pose proof (le_scaled r post ltac:(lia) ltac:(lia)); lia).
  assert (Hnr : nom * r <= nom * 128) by (apply Z.mul_le_mono_nonneg_l; lia). assert (0 <= nom * r) by (apply Z.mul_nonneg_nonneg; lia).
  assert (0 <= r * post) by (apply Z.mul_nonneg_nonneg; lia). assert (0 <= nom * (r * post)) by (apply Z.mul_nonneg_nonneg; lia).
  rewrite (u32_small (nom * r)) by (unfold is_u32; lia). rewrite (u32_small (nom * r * post)) by (unfold is_u32; lia).
  rewrite div_round_closest by lia. cbn [mbind option_bind]. fold (closest (nom * r * post) den).
  assert (Hge : 1 <= closest (nom * r * post) den).
  { apply closest_pos; [done|]. rewrite Hrp. transitivity (nom * post); [done|]. apply Z.mul_le_mono_nonneg_l; [lia|]. pose proof (le_scaled post r ltac:(lia) Hr1). lia. }
  assert (Hle : closest (nom * r * post) den <= r * fbmax).
  { apply closest_le; [done|lia|]. replace (nom * r * post) with (r * (nom * post)) by ring. replace (r * fbmax * den) with (r * (den * fbmax)) by ring. apply Z.mul_le_mono_nonneg_l; lia. }
  set (fb1 := closest (nom * r * post) den) in *. assert (r * fbmax <= 128 * 2 ^ 20) by (apply Z.mul_le_mono_nonneg; lia). split; [|done].
  rewrite Z.gtb_ltb. destruct (Z.ltb_spec fbmax fb1); [|done]. rewrite u32_small by (unfold is_u32; lia). rewrite div_round_closest by lia. done.
Qed.

Lemma fb_ref_spec post :
  1 <= post <= 128 -> den <= nom * post -> nom * post <= den * fbmax ->
  exists fb ref, amdgpu_pll_get_fb_ref_div nom den post fbmax refmax = Some (fb, ref) /\ 1 <= fb <= fbmax /\ 1 <= ref <= refmax /\ ref * post <= 128.
Proof.
  intros Hp Hlo Hhi. destruct (fb_ref_run post Hp Hlo Hhi) as (-> & Hfb1). destruct (first_ref_bounds post Hp) as (Hr1 & Hr2 & Hr3).
  set (r := first_ref post) in *. set (fb1 := closest _ den) in *. rewrite Z.gtb_ltb. destruct (Z.ltb_spec fbmax fb1) as [Hgt|Hle].
  - eexists _, _. split; [done|]. split; [lia|]. assert (1 <= closest (r * fbmax) fb1) by (apply closest_pos; lia).
    assert (closest (r * fbmax) fb1 <= r) by (apply closest_le; [lia|apply Z.mul_nonneg_nonneg; lia|apply Z.mul_le_mono_nonneg_l; lia]).
    split; [lia|]. transitivity (r * post); [apply Z.mul_le_mono_nonneg_r; lia|done].
  - eexists _, _. split; [done|]. split; [lia|]. by split; [lia|].
Qed.
End dividers.

(** ** The loop finds a minimum *)

Section search.
Context (prefer_min : bool) (rf nom den : Z) (l : pll_limits).
Local Notation diff := (post_div_diff rf nom den l).

Lemma loop_min turns post best db :
  diff best = Some db -> (forall q, post <= q < post + Z.of_nat turns -> exists d, diff q = Some d) ->
  exists b d, post_div_loop turns prefer_min rf nom den l post best db = Some b /\ diff b = Some d /\
    (b = best \/ post <= b < post + Z.of_nat turns) /\ d <= db /\
    (forall q dq, post <= q < post + Z.of_nat turns -> diff q = Some dq -> d <= dq).
Proof.
  revert post best db. induction turns as [|k IH]; intros post best db Hb Hd; cbn [post_div_loop].
  - exists best, db. split; [done|]. split; [done|]. split; [by left|]. split; [done|]. intros. lia.
  - destruct (Hd post ltac:(lia)) as [dp Hp]. rewrite Hp. cbn [mbind option_bind].
    assert (Hd' : forall q, post + 1 <= q < post + 1 + Z.of_nat k -> exists d, diff q = Some d) by (intros; apply Hd; lia).
    destruct ((dp <? db) || ((dp =? db) && negb prefer_min)) eqn:Ec.
    + assert (dp <= db) by (apply orb_prop in Ec as [Ec|Ec]; [apply Z.ltb_lt in Ec; lia|apply andb_prop in Ec as [Ec _]; apply Z.eqb_eq in Ec; lia]).
      destruct (IH (post + 1) post dp Hp Hd') as (b & d & E & Eb & Hr & Hle & Hmin). exists b, d. split; [done|]. split; [done|].
      split; [right; lia|]. split; [lia|]. intros q dq Hq Eq. destruct (decide (q = post)) as [->|]; [congruence|]. apply (Hmin q dq); [lia|done].
    + assert (db <= dp) by (apply orb_false_iff in Ec as [Ec _]; apply Z.ltb_ge in Ec; lia).
      destruct (IH (post + 1) best db Hb Hd') as (b & d & E & Eb & Hr & Hle & Hmin). exists b, d. split; [done|]. split; [done|].
      split; [destruct Hr; [by left|right; lia]|]. split; [lia|]. intros q dq Hq Eq. destruct (decide (q = post)) as [->|]; [rewrite Hp in Eq; injection Eq as <-; lia|]. apply (Hmin q dq); [lia|done].
Qed.

(** From the initial difference [~0] the first candidate is always taken. *)
Lemma loop_start turns post best :
  (forall q, post <= q < post + Z.of_nat (S turns) -> exists d, diff q = Some d /\ d < u32 (-1)) ->
  exists b d, post_div_loop (S turns) prefer_min rf nom den l post best (u32 (-1)) = Some b /\ diff b = Some d /\
    post <= b < post + Z.of_nat (S turns) /\ (forall q dq, post <= q < post + Z.of_nat (S turns) -> diff q = Some dq -> d <= dq).
Proof.
  intros Hd. cbn [post_div_loop]. destruct (Hd post ltac:(lia)) as (dp & Hp & Hlt). rewrite Hp. cbn [mbind option_bind].
  rewrite (proj2 (Z.ltb_lt _ _) Hlt). cbn [orb].
  destruct (loop_min turns (post + 1) post dp Hp) as (b & d & E & Eb & Hr & Hle & Hmin).
  { intros q Hq. destruct (Hd q ltac:(lia)) as (d & Ed & _). by exists d. }
  exists b, d. split; [done|]. split; [done|]. split; [lia|]. intros q dq Hq Eq.
  destruct (decide (q = post)) as [->|]; [rewrite Hp in Eq; injection Eq as <-; lia|]. apply (Hmin q dq); [lia|done].
Qed.
End search.

(** ** The whole computation *)

(** The clock that a post divider gives. *)
Definition post_div_clock (pll : amdgpu_pll) (l : pll_limits) (post c : Z) : Prop :=
  exists nom den fb ref,
    amdgpu_pll_reduce_ratio (target_clock l) (reference_freq pll) (fb_div_min l) (post_div_min l) = Some (nom, den) /\
    amdgpu_pll_get_fb_ref_div nom den post (fb_div_max l) (ref_div_max l) = Some (fb, ref) /\
    c = reference_freq pll * fb / (ref * post).

(** Limits as the BIOS gives them: the VCO range is above the reference and in
    reach of the feedback divider. *)
Record pll_sane (pll : amdgpu_pll) (l : pll_limits) : Prop := PllSane {
  ps_ref : 1000 <= reference_freq pll <= 20000;
  ps_target : 1 <= target_clock l <= 10000000;
  ps_post : 1 <= post_div_min l <= post_div_max l /\ post_div_max l <= 128;
  ps_low : reference_freq pll <= target_clock l * post_div_min l;
  ps_high : target_clock l * post_div_max l <= reference_freq pll * fb_div_max l;
  ps_fb : 1 <= fb_div_min l <= 40 /\ 80 <= fb_div_max l <= 40950;
  ps_refdiv : 0 <= ref_div_min l <= 1023 /\ 1 <= ref_div_max l;
  ps_product : reference_freq pll * (Z.max 1 (2 * ref_div_min l) * fb_div_max l) *
                 (if has_flag pll AMDGPU_PLL_USE_FRAC_FB_DIV then 1 else 10) < 2 ^ 32 }.

Section compute.
Context (pll : amdgpu_pll) (l : pll_limits) (S : pll_sane pll l).
Local Notation rf := (reference_freq pll).
Local Notation target := (target_clock l).

Lemma ratio_bounds n d :
  n * rf = d * target -> 0 < n -> 0 < d ->
  n <= Z.max target (2 * fb_div_min l) \/ d < 2 * post_div_min l -> d <= rf * Z.max 1 (2 * fb_div_min l) \/ d < 2 * post_div_min l ->
  128 * n + d < 2 ^ 31 /\ forall post, post_div_min l <= post <= post_div_max l -> d <= n * post /\ n * post <= d * fb_div_max l.
Proof.
  intros E Hn Hd H1 H2. destruct S as [Hr Ht Hp Hlo Hhi Hfb _ _]. split.
  - assert (n <= 10000000).
    { destruct H1 as [|H1]; [lia|]. assert (d * target <= 256 * 10000000) by (apply Z.mul_le_mono_nonneg; lia).
      assert (n * 1000 <= n * rf) by (apply Z.mul_le_mono_nonneg_l; lia). lia. }
    assert (d <= 20000 * 80) by (destruct H2 as [H2|H2]; [transitivity (rf * Z.max 1 (2 * fb_div_min l)); [done|apply Z.mul_le_mono_nonneg; lia]|lia]). lia.
  - intros post Hpo. split.
    + apply (Z.mul_le_mono_pos_r _ _ rf); [lia|]. replace (n * post * rf) with (d * (target * post)) by (transitivity (n * rf * post); [rewrite E; ring|ring]).
      apply Z.mul_le_mono_nonneg_l; [lia|]. transitivity (target * post_div_min l); [done|]. apply Z.mul_le_mono_nonneg_l; lia.
    + apply (Z.mul_le_mono_pos_r _ _ rf); [lia|]. replace (n * post * rf) with (d * (target * post)) by (transitivity (n * rf * post); [rewrite E; ring|ring]).
      replace (d * fb_div_max l * rf) with (d * (rf * fb_div_max l)) by ring. apply Z.mul_le_mono_nonneg_l; [lia|].
      transitivity (target * post_div_max l); [apply Z.mul_le_mono_nonneg_l; lia|done].
Qed.

Lemma first_reduce :
  exists n d, amdgpu_pll_reduce_ratio target rf (fb_div_min l) (post_div_min l) = Some (n, d) /\ 0 < n /\ 0 < d /\
    128 * n + d < 2 ^ 31 /\ forall post, post_div_min l <= post <= post_div_max l -> d <= n * post /\ n * post <= d * fb_div_max l.
Proof.
  destruct S as [Hr Ht Hp Hlo Hhi Hfb _ _].
  destruct (reduce_ratio_spec target rf (fb_div_min l) (post_div_min l)) as (n & d & E & Er & _ & _ & Hn & Hd & H1 & H2); try lia.
  - assert (rf * Z.max 1 (2 * fb_div_min l) <= 20000 * 80) by (apply Z.mul_le_mono_nonneg; lia). lia.
  - assert (2 * post_div_min l * target <= 256 * 10000000) by (apply Z.mul_le_mono_nonneg; lia). lia.
  - exists n, d. split; [done|]. split; [done|]. split; [done|]. by apply ratio_bounds.
Qed.

Lemma diff_run n d post :
  0 < n -> 0 < d -> 128 * n + d < 2 ^ 31 -> post_div_min l <= post <= post_div_max l -> d <= n * post -> n * post <= d * fb_div_max l ->
  exists fb ref, amdgpu_pll_get_fb_ref_div n d post (fb_div_max l) (ref_div_max l) = Some (fb, ref) /\
    1 <= fb <= fb_div_max l /\ 1 <= ref /\ ref * post <= 128 /\ 1 <= ref * post /\
    post_div_diff rf n d l post = Some (Z.abs (target - rf * fb / (ref * post))) /\ Z.abs (target - rf * fb / (ref * post)) < u32 (-1).
Proof.
  intros Hn Hd Hs Hp Hlo Hhi. destruct S as [Hr Ht Hpo _ _ Hfb Hrd _].
  destruct (fb_ref_spec n d (fb_div_max l) (ref_div_max l) Hn Hd ltac:(lia) ltac:(lia) Hs post ltac:(lia) Hlo Hhi) as (fb & ref & E & Hf & Hrf & Hrp).
  assert (H1 : 1 <= ref * post) by (pose proof (le_scaled ref post ltac:(lia) ltac:(lia)); lia).
  assert (Hc : 0 <= rf * fb <= 20000 * 40950) by (split; [apply Z.mul_nonneg_nonneg; lia|apply Z.mul_le_mono_nonneg; lia]).
  assert (Hcl : 0 <= rf * fb / (ref * post) <= 20000 * 40950).
  { split; [apply Z.div_pos; lia|]. transitivity (rf * fb); [|lia]. apply Z.div_le_upper_bound; [lia|]. rewrite (Z.mul_comm (ref * post)). apply le_scaled_0; lia. }
  exists fb, ref. split; [done|]. split; [done|]. split; [lia|]. split; [done|]. split; [done|].
  unfold post_div_diff. rewrite E. cbn [mbind option_bind]. rewrite !u32_small by (unfold is_u32; lia). rewrite div_pos by lia. cbn [mbind option_bind].
  set (c := rf * fb / (ref * post)) in *. assert (Ha : abs (u32 (target - c)) = Z.abs (target - c)).
  { unfold abs. assert (s32 (u32 (target - c)) = target - c) as -> by cint. apply u32_small. unfold is_u32. lia. }
  rewrite Ha. split; [done|]. change (u32 (-1)) with 4294967295. lia.
Qed.

Local Notation frac := (has_flag pll AMDGPU_PLL_USE_FRAC_FB_DIV).

(** The second reduction and the scaling against jitter keep the ratio, and the
    numbers stay small enough for the products that follow. *)
Lemma second_reduce fb ref post :
  1 <= fb <= fb_div_max l -> 1 <= ref -> 1 <= post <= 128 -> ref * post <= 128 ->
  exists F R t, (amdgpu_pll_reduce_ratio fb ref (fb_div_min l) (ref_div_min l) ≫= fun x => avoid_jitter frac (fb_div_min l) x.1 x.2) = Some (F, R) /\
    F * ref = R * fb /\ fb_div_min l <= F /\ ref_div_min l <= R /\ 0 < F /\ 0 < R /\
    F <= t * (Z.max 1 (2 * ref_div_min l) * fb_div_max l) /\ (t = 1 \/ F < 480) /\ R * post <= 261888 * t /\ 1 <= t <= 480.
Proof.
  intros Hfb Href Hpost Hrp. destruct S as [_ _ _ _ _ Hf Hrd _].
  assert (Hr128 : ref <= 128) by (pose proof (le_scaled ref post ltac:(lia) ltac:(lia)); lia).
  assert (Hm80 : ref * Z.max 1 (2 * fb_div_min l) <= 128 * 80) by (apply Z.mul_le_mono_nonneg; lia).
  destruct (reduce_ratio_spec fb ref (fb_div_min l) (ref_div_min l)) as (F & R & E & Er & HF & HR & HF0 & HR0 & H1 & H2); try lia.
  { assert (2 * ref_div_min l * fb <= 2046 * 40950) by (apply Z.mul_le_mono_nonneg; lia). lia. }
  assert (HFs : F <= Z.max 1 (2 * ref_div_min l) * fb_div_max l).
  { assert (fb_div_max l <= Z.max 1 (2 * ref_div_min l) * fb_div_max l) by (rewrite Z.mul_comm; apply le_scaled; lia). destruct H1 as [H1|H1]; [lia|].
    transitivity (F * ref); [by apply le_scaled|]. rewrite Er. apply Z.mul_le_mono_nonneg; lia. }
  assert (HRs : R * post <= 261888).
  { destruct H2 as [H2|H2].
    - transitivity (ref * Z.max 1 (2 * fb_div_min l) * post); [apply Z.mul_le_mono_nonneg_r; lia|].
      replace (ref * Z.max 1 (2 * fb_div_min l) * post) with (ref * post * Z.max 1 (2 * fb_div_min l)) by ring.
      transitivity (128 * 80); [apply Z.mul_le_mono_nonneg; lia|lia].
    - transitivity (2046 * 128); [apply Z.mul_le_mono_nonneg; lia|lia]. }
  rewrite E. cbn [mbind option_bind fst snd]. unfold avoid_jitter. destruct (frac && negb (F mod 10 =? 0)).
  2:{ exists F, R, 1. rewrite !Z.mul_1_l. repeat split; try lia. }
  pose proof (Z.mod_pos_bound F 10 ltac:(lia)). set (m := Z.max (fb_div_min l) ((9 - F mod 10) * 20 + 60)). assert (Hm : 60 <= m <= 240) by lia.
  assert (HFbig : F < 2 ^ 31). { assert (Z.max 1 (2 * ref_div_min l) * fb_div_max l <= 2046 * 40950) by (apply Z.mul_le_mono_nonneg; lia). lia. }
  assert (HR2 : R <= 261888) by (pose proof (le_scaled R post HR0 ltac:(lia)); lia).
  destruct (scale_up_spec F R m HF0 HR0 ltac:(lia) ltac:(lia)) as (F' & R' & t & -> & EF & ER & Ht & HmF & Hor).
  { intros _. assert (R * (2 * m) <= 261888 * 480) by (apply Z.mul_le_mono_nonneg; lia). lia. }
  pose proof (le_scaled F t HF0 Ht). pose proof (le_scaled R t HR0 Ht). pose proof (le_scaled t F ltac:(lia) ltac:(lia)).
  exists F', R', t. split; [done|]. split; [rewrite EF, ER; transitivity (F * ref * t); [ring|rewrite Er; ring]|].
  repeat split; try lia.
  - rewrite EF, Z.mul_comm. apply Z.mul_le_mono_nonneg_l; lia.
  - rewrite ER. replace (R * t * post) with (R * post * t) by ring. apply Z.mul_le_mono_nonneg_r; lia.
Qed.

Lemma floor_same a b c d : 0 < b -> 0 < d -> a * d = c * b -> a / b = c / d.
Proof. intros Hb Hd E. rewrite <- (Z.div_mul_cancel_r a b d), <- (Z.div_mul_cancel_r c d b) by lia. rewrite E. f_equal. ring. Qed.

(** The feedback divider with its fraction, in the unit of the search. *)
Definition res_feedback (r : pll_result) : Z := if frac then 10 * res_fb_div r + res_frac_fb_div r else res_fb_div r.

Lemma save_run F R post :
  0 < F -> 0 < R -> 1 <= post -> R * post <= 2 ^ 27 -> rf * F * (if frac then 1 else 10) < 2 ^ 32 ->
  exists r, pll_save frac rf F R post = Some r /\ res_feedback r = F /\ res_ref_div r = R /\ res_post_div r = post /\
    dot_clock r = if frac then rf * F / (R * post) / 10 else rf * F / (R * post).
Proof.
  intros HF HR Hp HRp Hprod. destruct S as [Hr _ _ _ _ _ _ _]. unfold pll_save, res_feedback. pose proof (le_scaled R post HR Hp).
  assert (0 <= rf * F) by (apply Z.mul_nonneg_nonneg; lia). rewrite (u32_small (R * post)) by (unfold is_u32; lia).
  rewrite (u32_small (R * post * 10)) by (unfold is_u32; lia). rewrite div_pos by lia. cbn [mbind option_bind]. destruct frac.
  - pose proof (Z.div_mod F 10 ltac:(lia)) as Ed. pose proof (Z.mod_pos_bound F 10 ltac:(lia)). pose proof (Z.div_pos F 10 ltac:(lia) ltac:(lia)).
    assert (E : rf * F = rf * (F / 10) * 10 + rf * (F mod 10)) by (rewrite Ed at 1; ring).
    assert (0 <= rf * (F / 10)) by (apply Z.mul_nonneg_nonneg; lia). assert (0 <= rf * (F mod 10)) by (apply Z.mul_nonneg_nonneg; lia).
    rewrite (u32_small (rf * (F / 10))) by (unfold is_u32; lia). rewrite (u32_small (rf * (F / 10) * 10)) by (unfold is_u32; lia).
    rewrite (u32_small (rf * (F mod 10))) by (unfold is_u32; lia). rewrite u32_small by (unfold is_u32; lia). rewrite <- E.
    eexists. split; [done|]. cbn. repeat split; [lia|]. by rewrite Z.div_div by lia.
  - rewrite Z.mul_0_r. change (u32 0) with 0. rewrite Z.add_0_r. rewrite (u32_small (rf * F)) by (unfold is_u32; lia).
    rewrite !(u32_small (rf * F * 10)) by (unfold is_u32; lia). eexists. split; [done|]. cbn. repeat split. by rewrite Z.div_mul_cancel_r by lia.
Qed.

Lemma finish_run fb ref post :
  1 <= fb <= fb_div_max l -> 1 <= ref -> 1 <= post <= 128 -> ref * post <= 128 ->
  exists r, ('(fb, ref) ← amdgpu_pll_reduce_ratio fb ref (fb_div_min l) (ref_div_min l);
             '(fb, ref) ← avoid_jitter frac (fb_div_min l) fb ref; pll_save frac rf fb ref post) = Some r /\
    let c := rf * fb / (ref * post) in
    c = rf * res_feedback r / (res_ref_div r * res_post_div r) /\ res_post_div r = post /\ ref_div_min l <= res_ref_div r /\
    fb_div_min l <= res_feedback r /\ dot_clock r = if frac then c / 10 else c.
Proof.
  intros Hfb Href Hpost Hrp. destruct (second_reduce fb ref post Hfb Href Hpost Hrp) as (F & R & t & E & Er & HFm & HRm & HF & HR & HFs & Ht1 & HRs & Ht).
  destruct S as [Hr _ _ _ _ Hf Hrd Hprod]. destruct (amdgpu_pll_reduce_ratio fb ref (fb_div_min l) (ref_div_min l)) as [[F0 R0]|]; [|done].
  cbn [mbind option_bind fst snd] in *. rewrite E. cbn [mbind option_bind]. destruct (save_run F R post HF HR ltac:(lia) ltac:(lia)) as (r & -> & E1 & E2 & E3 & E4).
  { destruct Ht1 as [->|Ht1]; [|destruct frac; assert (rf * F <= 20000 * 480) by (apply Z.mul_le_mono_nonneg; lia); lia].
    eapply Z.le_lt_trans; [|exact Hprod]. apply Z.mul_le_mono_nonneg_r; [by destruct frac|]. apply Z.mul_le_mono_nonneg_l; lia. }
  assert (Ec : rf * fb / (ref * post) = rf * F / (R * post)).
  { apply floor_same; [apply Z.mul_pos_pos; lia|apply Z.mul_pos_pos; lia|]. transitivity (rf * post * (R * fb)); [ring|]. rewrite <- Er. ring. }
  exists r. split; [done|]. cbv zeta. rewrite E1, E2, E3, E4, Ec. done.
Qed.
End compute.

(** For a PLL whose VCO range lies above the reference and within reach of
    the feedback divider, the computation divides by nothing that is zero and
    no product wraps; the post divider is in range and the reference divider
    reaches its minimum; the clock it reports is the one its dividers give, and
    no other post divider in range gets closer to the target. *)
Theorem pll_closest (pll : amdgpu_pll) (freq : Z) (l : pll_limits) :
  pll_ranges pll freq = Some l -> pll_sane pll l ->
  exists r c, amdgpu_pll_compute pll freq = Some r /\
    post_div_min l <= res_post_div r <= post_div_max l /\ ref_div_min l <= res_ref_div r /\ fb_div_min l <= res_feedback pll r /\
    c = reference_freq pll * res_feedback pll r / (res_ref_div r * res_post_div r) /\
    dot_clock r = (if has_flag pll AMDGPU_PLL_USE_FRAC_FB_DIV then c / 10 else c) /\
    forall post, post_div_min l <= post <= post_div_max l ->
      exists c', post_div_clock pll l post c' /\ Z.abs (target_clock l - c) <= Z.abs (target_clock l - c').
Proof.
  intros El Sane. unfold amdgpu_pll_compute. rewrite El. cbn [mbind option_bind].
  destruct (first_reduce pll l Sane) as (n & d & E1 & Hn & Hd & Hs & Hpost). rewrite E1. cbn [mbind option_bind].
  assert (Hdiff : forall q, post_div_min l <= q <= post_div_max l -> _) by (intros q Hq; exact (diff_run pll l Sane n d q Hn Hd Hs Hq (proj1 (Hpost q Hq)) (proj2 (Hpost q Hq)))).
  destruct (ps_post _ _ Sane) as [Hp1 Hp2]. destruct (Z.to_nat (post_div_max l - post_div_min l + 1)) as [|turns] eqn:Et; [lia|].
  assert (Hr : forall q, post_div_min l <= q < post_div_min l + Z.of_nat (S turns) <-> post_div_min l <= q <= post_div_max l) by (intros; lia).
  destruct (loop_start (has_flag pll AMDGPU_PLL_PREFER_MINM_OVER_MAXP) (reference_freq pll) n d l turns (post_div_min l)
    (if has_flag pll AMDGPU_PLL_PREFER_MINM_OVER_MAXP then post_div_min l else post_div_max l)) as (b & db & -> & Eb & Hb & Hmin).
  { intros q Hq. apply Hr in Hq. destruct (Hdiff q Hq) as (fb & ref & _ & _ & _ & _ & _ & Ed & Hlt). by eexists. }
  apply Hr in Hb. destruct (Hdiff b Hb) as (fb & ref & Eg & Hfb & Href & Hrp & _ & Ed & _). rewrite Ed in Eb. injection Eb as <-.
  cbn [mbind option_bind]. rewrite Eg. cbn [mbind option_bind].
  destruct (finish_run pll l Sane fb ref b Hfb Href ltac:(lia) Hrp) as (r & -> & Hc & Hpo & Hrm & Hfm & Hdot).
  exists r, (reference_freq pll * fb / (ref * b)). split; [done|]. rewrite <- Hpo in Hb. split; [done|]. split; [done|]. split; [done|]. split; [done|]. split; [done|].
  intros post Hq. destruct (Hdiff post Hq) as (fb' & ref' & Eg' & _ & _ & _ & _ & Ed' & _). eexists. split; [by exists n, d, fb', ref'|].
  apply (Hmin post); [by apply Hr|done].
Qed.

(** The values [amdgpu_atombios_get_clock_info] sets, with a 27 MHz reference
    and a VCO between 648 and 1200 MHz. *)
Definition sample_pll (flags : Z) : amdgpu_pll := Pll 2700 0 0 64800 120000 64800 120000 2 0x3ff 2 0x7f 4 0xfff flags.

(** 148.5 MHz. *)
Lemma pll_closest_witness :
  exists r, amdgpu_pll_compute (sample_pll AMDGPU_PLL_USE_FRAC_FB_DIV) 148500 = Some r /\ 5 <= res_post_div r <= 8.
Proof.
  destruct (pll_closest (sample_pll AMDGPU_PLL_USE_FRAC_FB_DIV) 148500 (PllLimits 148500 40 40950 2 1023 5 8)) as (r & c & E & H & _).
  - vm_compute. reflexivity.
  - split; vm_compute; repeat split; discriminate || reflexivity.
  - exists r. split; [exact E|exact H].
Defined.

(** A clock above the range of the VCO leaves no post divider: the search ends
    with 0 and divides by it. *)
Lemma pll_clock_too_high : amdgpu_pll_compute (sample_pll AMDGPU_PLL_USE_FRAC_FB_DIV) 1300000 = None.
Proof. vm_compute. reflexivity. Qed.
