(* ===== verification/PickPll.v ===== *)
(** * Sharing of pixel PLLs ([amdgpu/amdgpu_pll.c], [pick_pll] of [amdgpu/dce_v*_0.c])

    There are fewer PLLs than display controllers.  All DisplayPort outputs may
    use one PLL, and outputs with the same clock may share one; every other
    output needs a PLL of its own.  A mode set gives a controller its encoder,
    connector and clocks and picks the PLL; disabling it gives them up. *)

From stdpp Require Import base numbers list relations.
From S2P Require Import Prelude.

Definition ATOM_PPLL1 : Z := 0.
Definition ATOM_PPLL2 : Z := 1.
Definition ATOM_PPLL0 : Z := 2.
Definition ATOM_DP_DTO : Z := 11.
Definition ATOM_COMBOPHY_PLL0 : Z := 20.
Definition ATOM_PPLL_INVALID : Z := 0xff.

(** The encoder of a controller: whether its mode is DisplayPort, and its
    transmitter and link for the chips that have a PLL per link. *)
Record encoder := Encoder { is_dp : bool; uniphy : option Z; linkb : bool }.
(** The fields of [struct amdgpu_crtc] that are used, with [crtc->mode.clock]. *)
Record amdgpu_crtc := Crtc {
  pll_id : Z; crtc_encoder : option encoder; connector : option Z; mode_clock : Z; adjusted_clock : Z; ss_enabled : bool }.

(** Does the controller have an encoder in DisplayPort mode, or another one? *)
Definition has_dp (c : amdgpu_crtc) : bool := match crtc_encoder c with Some e => is_dp e | None => false end.
Definition has_nondp (c : amdgpu_crtc) : bool := match crtc_encoder c with Some e => negb (is_dp e) | None => false end.

(** The functions look at the other controllers, [others]. *)
Fixpoint amdgpu_pll_get_use_mask (others : list amdgpu_crtc) : Z :=
  match others with
  | [] => 0
  | t :: l => if negb (pll_id t =? ATOM_PPLL_INVALID) then Z.lor (Z.shiftl 1 (pll_id t)) (amdgpu_pll_get_use_mask l) else amdgpu_pll_get_use_mask l
  end.

Fixpoint amdgpu_pll_get_shared_dp_ppll (others : list amdgpu_crtc) : Z :=
  match others with
  | [] => ATOM_PPLL_INVALID
  | t :: l => if has_dp t && negb (pll_id t =? ATOM_PPLL_INVALID) then pll_id t else amdgpu_pll_get_shared_dp_ppll l
  end.

Definition same_clock (c t : amdgpu_crtc) : bool :=
  (mode_clock c =? mode_clock t) && (adjusted_clock c =? adjusted_clock t) && Bool.eqb (ss_enabled c) (ss_enabled t).
Definition amdgpu_pll_get_shared_nondp_ppll (c : amdgpu_crtc) (others : list amdgpu_crtc) : Z :=
  if adjusted_clock c =? 0 then ATOM_PPLL_INVALID
  else
    (fix go l :=
      match l with
      | [] => ATOM_PPLL_INVALID
      | t :: l =>
          if has_nondp t && negb (pll_id t =? ATOM_PPLL_INVALID) && (bool_decide (connector t = connector c) || same_clock c t)
          then pll_id t else go l
      end) others.

(** The first PLL of a list that is not in use. *)
Fixpoint first_free (mask : Z) (l : list Z) : Z :=
  match l with
  | [] => ATOM_PPLL_INVALID
  | p :: l => if Z.land mask (Z.shiftl 1 p) =? 0 then p else first_free mask l
  end.

Inductive amd_asic_type := CHIP_KABINI | CHIP_MULLINS | CHIP_CARRIZO | CHIP_STONEY | CHIP_POLARIS10 | CHIP_POLARIS11 | CHIP_OTHER.
#[global] Instance amd_asic_type_eq_dec : EqDecision amd_asic_type.
Proof. solve_decision. Defined.

Section pick.
Context (dp_extclk : bool) (asic_type : amd_asic_type).

Definition dce_v6_0_pick_pll (c : amdgpu_crtc) (others : list amdgpu_crtc) : Z :=
  if has_dp c then if dp_extclk then ATOM_PPLL_INVALID else ATOM_PPLL0
  else
    let pll := amdgpu_pll_get_shared_nondp_ppll c others in
    if negb (pll =? ATOM_PPLL_INVALID) then pll else first_free (amdgpu_pll_get_use_mask others) [ATOM_PPLL2; ATOM_PPLL1].

(** The common part of the later versions; [plls] are the PLLs in the order in
    which they are tried. *)
Definition share_or_pick (plls : list Z) (c : amdgpu_crtc) (others : list amdgpu_crtc) : Z :=
  if has_dp c && dp_extclk then ATOM_PPLL_INVALID
  else
    let pll := if has_dp c then amdgpu_pll_get_shared_dp_ppll others else amdgpu_pll_get_shared_nondp_ppll c others in
    if negb (pll =? ATOM_PPLL_INVALID) then pll else first_free (amdgpu_pll_get_use_mask others) plls.

Definition dce_v8_0_pick_pll : amdgpu_crtc -> list amdgpu_crtc -> Z :=
  share_or_pick (if bool_decide (asic_type = CHIP_KABINI) || bool_decide (asic_type = CHIP_MULLINS)
                 then [ATOM_PPLL2; ATOM_PPLL1] else [ATOM_PPLL2; ATOM_PPLL1; ATOM_PPLL0]).
Definition dce_v10_0_pick_pll : amdgpu_crtc -> list amdgpu_crtc -> Z := share_or_pick [ATOM_PPLL2; ATOM_PPLL1; ATOM_PPLL0].
Definition dce_v11_0_pick_pll (c : amdgpu_crtc) (others : list amdgpu_crtc) : Z :=
  if bool_decide (asic_type = CHIP_POLARIS10) || bool_decide (asic_type = CHIP_POLARIS11) then
    if has_dp c then ATOM_DP_DTO
    else match crtc_encoder c ≫= uniphy with
         | Some n => if (0 <=? n) && (n <=? 2) then ATOM_COMBOPHY_PLL0 + 2 * n + (if default false (linkb <$> crtc_encoder c) then 1 else 0) else ATOM_PPLL_INVALID
         | None => ATOM_PPLL_INVALID
         end
  else share_or_pick (if bool_decide (asic_type = CHIP_CARRIZO) || bool_decide (asic_type = CHIP_STONEY)
                      then [ATOM_PPLL1; ATOM_PPLL0] else [ATOM_PPLL2; ATOM_PPLL1; ATOM_PPLL0]) c others.
End pick.

(** The end of [crtc_disable]. *)
Definition crtc_disabled (c : amdgpu_crtc) : amdgpu_crtc := Crtc ATOM_PPLL_INVALID None None (mode_clock c) 0 (ss_enabled c).
(** Whether [crtc_disable] turns the PLL off; [enabled] says which of the other
    controllers are. *)
Definition turns_pll_off (enabled : amdgpu_crtc -> bool) (c : amdgpu_crtc) (others : list amdgpu_crtc) : bool :=
  negb (existsb (fun t => enabled t && (pll_id c =? pll_id t)) others) &&
  ((pll_id c =? ATOM_PPLL0) || (pll_id c =? ATOM_PPLL1) || (pll_id c =? ATOM_PPLL2)).

(** ** Controllers that share a PLL need the same clock

    [PickSound] is what mode setting relies on; every version of [pick_pll]
    provides it. *)

(** One PLL can drive both controllers. *)
Definition compatible (a b : amdgpu_crtc) : bool := (has_dp a && has_dp b) || (has_nondp a && has_nondp b && same_clock a b).
Definition shares (a b : amdgpu_crtc) : Prop := pll_id a = pll_id b -> pll_id a <> ATOM_PPLL_INVALID -> compatible a b = true.
(** A controller with a PLL has an encoder, and the PLL has a bit in the mask. *)
Definition pll_wf (c : amdgpu_crtc) : Prop := pll_id c <> ATOM_PPLL_INVALID -> crtc_encoder c <> None /\ 0 <= pll_id c < 32.

(** Every two controllers of the list. *)
Definition all_share (l : list amdgpu_crtc) : Prop :=
  Forall pll_wf l /\ forall i j a b, i <> j -> l !! i = Some a -> l !! j = Some b -> shares a b.

Definition set_pll (p : Z) (c : amdgpu_crtc) : amdgpu_crtc :=
  Crtc p (crtc_encoder c) (connector c) (mode_clock c) (adjusted_clock c) (ss_enabled c).

(** [only c] restricts the PLLs of a version further. *)
Class PickSound (pick : amdgpu_crtc -> list amdgpu_crtc -> Z) (only : amdgpu_crtc -> Prop) := {
  pick_sound c others :
    crtc_encoder c <> None -> all_share others -> Forall only others -> (forall t, t ∈ others -> connector t <> connector c) ->
    let p := pick c others in
    p <> ATOM_PPLL_INVALID -> 0 <= p < 32 /\ forall t, t ∈ others -> pll_id t = p -> compatible c t = true;
  pick_only c others : Forall only others -> only (set_pll (pick c others) c);
  only_disabled c : only (crtc_disabled c) }.

(** ** The shared functions *)

Lemma dp_or_nondp c : crtc_encoder c <> None -> has_nondp c = negb (has_dp c).
Proof. unfold has_nondp, has_dp. by destruct (crtc_encoder c). Qed.
Lemma dp_excludes c : has_dp c = true -> has_nondp c = false.
Proof. unfold has_nondp, has_dp. destruct (crtc_encoder c); [|done]. by intros ->. Qed.
Lemma compatible_sym a b : compatible a b = compatible b a.
Proof.
  unfold compatible, same_clock. rewrite (Z.eqb_sym (mode_clock a)), (Z.eqb_sym (adjusted_clock a)), (Bool.andb_comm (has_dp a)), (Bool.andb_comm (has_nondp a)).
  do 3 f_equal. by destruct (ss_enabled a), (ss_enabled b).
Qed.
Lemma same_clock_trans a b c : same_clock a b = true -> same_clock b c = true -> same_clock a c = true.
Proof.
  unfold same_clock. rewrite !andb_true_iff, !Z.eqb_eq, !Bool.eqb_true_iff. intros [[-> ->] ->] [[-> ->] ->]. done.
Qed.

Lemma use_mask_bit others p :
  Forall pll_wf others -> 0 <= p < 32 -> Z.testbit (amdgpu_pll_get_use_mask others) p = true <-> exists t, t ∈ others /\ pll_id t = p.
Proof.
  intros Hw Hp. induction Hw as [|t l Ht Hw IH]; cbn [amdgpu_pll_get_use_mask].
  - rewrite Z.bits_0. split; [done|]. intros (t & Hin & _). by apply not_elem_of_nil in Hin.
  - assert (Hc : (exists x, x ∈ t :: l /\ pll_id x = p) <-> pll_id t = p \/ exists x, x ∈ l /\ pll_id x = p).
    { split; [intros (x & Hx & Ex); apply elem_of_cons in Hx as [->|Hx]; [by left|right; by exists x]|].
      intros [E|(x & Hx & Ex)]; [exists t; by split; [left|]|exists x; by split; [right|]]. }
    rewrite Hc, <- IH. destruct (Z.eqb_spec (pll_id t) ATOM_PPLL_INVALID) as [E|Hne]; cbn [negb].
    + unfold ATOM_PPLL_INVALID in E. split; [by right|]. intros [?|?]; [lia|done].
    + destruct (Ht Hne) as [_ Hr]. rewrite Z.lor_spec, Z.shiftl_spec, orb_true_iff by lia.
      destruct (decide (p = pll_id t)) as [->|Hd]; [rewrite Z.sub_diag; by split; [left|intros _; left]|].
      assert (Z.testbit 1 (p - pll_id t) = false) as ->; [|by split; [intros [?|?]; [done|by right]|intros [?|?]; [lia|by right]]].
      destruct (Z.lt_ge_cases p (pll_id t)); [by apply Z.testbit_neg_r; lia|]. apply (testbit_high 1); lia.
Qed.

Lemma first_free_spec mask l p :
  Forall (fun q => 0 <= q < 32) l -> first_free mask l = p -> p <> ATOM_PPLL_INVALID -> p ∈ l /\ 0 <= p < 32 /\ Z.testbit mask p = false.
Proof.
  intros Hl. induction Hl as [|q l Hq Hl IH]; cbn [first_free]; [by intros <-|].
  destruct (Z.eqb_spec (Z.land mask (Z.shiftl 1 q)) 0) as [E|]; intros Ep Hne.
  - subst q. split; [left|]. split; [done|]. assert (Z.testbit (Z.land mask (Z.shiftl 1 p)) p = false) as Hb by (rewrite E; apply Z.bits_0).
    rewrite Z.land_spec, Z.shiftl_spec, Z.sub_diag, andb_true_r in Hb by lia. done.
  - destruct (IH Ep Hne) as (Hin & H). by split; [right|].
Qed.

Lemma shared_dp_spec others p :
  amdgpu_pll_get_shared_dp_ppll others = p -> p <> ATOM_PPLL_INVALID -> exists t, t ∈ others /\ has_dp t = true /\ pll_id t = p.
Proof.
  induction others as [|t l IH]; cbn; [by intros <-|]. destruct (has_dp t) eqn:Ed; cbn [andb].
  - destruct (Z.eqb_spec (pll_id t) ATOM_PPLL_INVALID); cbn [negb]; intros E Hne; [destruct (IH E Hne) as (x & Hx & H); exists x; by split; [right|]|].
    exists t. by split; [left|].
  - intros E Hne. destruct (IH E Hne) as (x & Hx & H). exists x. by split; [right|].
Qed.
Lemma shared_nondp_found c others p :
  amdgpu_pll_get_shared_nondp_ppll c others = p -> p <> ATOM_PPLL_INVALID ->
  exists t, t ∈ others /\ has_nondp t = true /\ pll_id t = p /\ (connector t = connector c \/ same_clock c t = true).
Proof.
  unfold amdgpu_pll_get_shared_nondp_ppll. destruct (adjusted_clock c =? 0); [by intros <-|]. induction others as [|t l IH]; [by intros <-|].
  intros E Hne. destruct (has_nondp t && negb (pll_id t =? ATOM_PPLL_INVALID) && (bool_decide (connector t = connector c) || same_clock c t)) eqn:Eb.
  - apply andb_prop in Eb as [Eb Es]. apply andb_prop in Eb as [En _]. apply orb_prop in Es as [Es|Es]; [apply bool_decide_eq_true in Es|]; exists t; (split; [left|auto]).
  - destruct (IH E Hne) as (x & Hx & H). exists x. by split; [right|].
Qed.
Lemma shared_nondp_spec c others p :
  amdgpu_pll_get_shared_nondp_ppll c others = p -> p <> ATOM_PPLL_INVALID -> (forall t, t ∈ others -> connector t <> connector c) ->
  exists t, t ∈ others /\ has_nondp t = true /\ pll_id t = p /\ same_clock c t = true.
Proof. intros E Hne Hc. destruct (shared_nondp_found c others p E Hne) as (t & Ht & Hd & Hp & [H|H]); [by apply Hc in H|by exists t]. Qed.

(** A controller compatible with one user of a PLL is compatible with all. *)
Lemma share_all c others t p :
  all_share others -> t ∈ others -> pll_id t = p -> p <> ATOM_PPLL_INVALID -> compatible c t = true ->
  0 <= p < 32 /\ forall u, u ∈ others -> pll_id u = p -> compatible c u = true.
Proof.
  intros [Hw Hs] Ht Hp Hne Hc. split; [rewrite <- Hp; apply (proj1 (Forall_forall _ _) Hw t Ht); by rewrite Hp|]. intros u Hu Hpu.
  apply list_elem_of_lookup in Ht as [i Hi]. apply list_elem_of_lookup in Hu as [j Hj]. destruct (decide (i = j)) as [->|Hij]; [congruence|].
  assert (Htu : compatible t u = true) by (apply (Hs i j t u Hij Hi Hj); congruence). revert Hc Htu. unfold compatible. rewrite !orb_true_iff, !andb_true_iff.
  intros [[Hc Ht]|[[Hc Ht] Hcl]] [[Ht' Hu]|[[Ht' Hu] Hcl']].
  - by left.
  - rewrite (dp_excludes t Ht) in Ht'. done.
  - rewrite (dp_excludes t Ht') in Ht. done.
  - right. split; [done|]. by eapply same_clock_trans.
Qed.
Lemma free_for_all others plls p c :
  all_share others -> Forall (fun q => 0 <= q < 32) plls -> first_free (amdgpu_pll_get_use_mask others) plls = p -> p <> ATOM_PPLL_INVALID ->
  0 <= p < 32 /\ forall t, t ∈ others -> pll_id t = p -> compatible c t = true.
Proof.
  intros [Hw _] Hl E Hne. destruct (first_free_spec _ _ _ Hl E Hne) as (_ & Hr & Hb). split; [done|]. intros t Ht Hp. exfalso.
  assert (Z.testbit (amdgpu_pll_get_use_mask others) p = true) by (apply use_mask_bit; eauto). congruence.
Qed.

(** ** The versions *)

Lemma share_or_pick_sound dp_extclk plls c others :
  Forall (fun q => 0 <= q < 32) plls -> crtc_encoder c <> None -> all_share others -> (forall t, t ∈ others -> connector t <> connector c) ->
  let p := share_or_pick dp_extclk plls c others in
  p <> ATOM_PPLL_INVALID -> 0 <= p < 32 /\ forall t, t ∈ others -> pll_id t = p -> compatible c t = true.
Proof.
  intros Hl He Ha Hc. cbv zeta. unfold share_or_pick. destruct (has_dp c && dp_extclk); [done|]. pose proof (dp_or_nondp c He) as Hnd.
  destruct (has_dp c) eqn:Ed; cbn [negb] in *.
  - destruct (Z.eqb_spec (amdgpu_pll_get_shared_dp_ppll others) ATOM_PPLL_INVALID) as [E|E]; cbn [negb]; intros Hne; [by eapply free_for_all|].
    destruct (shared_dp_spec _ _ eq_refl E) as (t & Ht & Hd & Hp). eapply share_all; [done|exact Ht|done|done|]. unfold compatible. by rewrite Ed, Hd.
  - destruct (Z.eqb_spec (amdgpu_pll_get_shared_nondp_ppll c others) ATOM_PPLL_INVALID) as [E|E]; cbn [negb]; intros Hne; [by eapply free_for_all|].
    destruct (shared_nondp_spec _ _ _ eq_refl E Hc) as (t & Ht & Hd & Hp & Hsc). eapply share_all; [done|exact Ht|done|done|]. unfold compatible.
    rewrite Hnd, Hd, Hsc. by rewrite orb_true_r.
Qed.

Ltac pll_list := repeat (constructor; [vm_compute; split; congruence|]); constructor.
#[global] Instance dce_v10_0_sound dp_extclk : PickSound (dce_v10_0_pick_pll dp_extclk) (fun _ => True).
Proof. split; [|done|done]. intros c others He Ha _ Hc. apply share_or_pick_sound; [pll_list|done..]. Qed.
#[global] Instance dce_v8_0_sound dp_extclk asic : PickSound (dce_v8_0_pick_pll dp_extclk asic) (fun _ => True).
Proof. split; [|done|done]. intros c others He Ha _ Hc. apply share_or_pick_sound; [|done..]. destruct (_ || _); pll_list. Qed.
(** Polaris has a PLL for every link; the other chips pick. *)
Lemma dce_v11_0_sound dp_extclk asic :
  asic <> CHIP_POLARIS10 -> asic <> CHIP_POLARIS11 -> PickSound (dce_v11_0_pick_pll dp_extclk asic) (fun _ => True).
Proof.
  intros H0 H1. split; [|done|done]. intros c others He Ha _ Hc. unfold dce_v11_0_pick_pll. rewrite !bool_decide_false by done. cbn [orb].
  apply share_or_pick_sound; [|done..]. destruct (bool_decide (asic = CHIP_CARRIZO) || bool_decide (asic = CHIP_STONEY)); pll_list.
Qed.

(** The oldest version gives PPLL0 to all DisplayPort outputs and to nobody
    else. *)
Definition ppll0_is_dp (c : amdgpu_crtc) : Prop := pll_id c = ATOM_PPLL0 -> has_dp c = true.
#[global] Instance dce_v6_0_sound dp_extclk : PickSound (dce_v6_0_pick_pll dp_extclk) ppll0_is_dp.
Proof.
  assert (Hl : Forall (fun q => 0 <= q < 32) [ATOM_PPLL2; ATOM_PPLL1]) by pll_list. split.
  - intros c others He Ha Ho Hc. cbv zeta. unfold dce_v6_0_pick_pll. pose proof (dp_or_nondp c He) as Hnd. destruct (has_dp c) eqn:Ed; cbn [negb] in *.
    + destruct dp_extclk; [done|]. intros _. split; [done|]. intros t Ht Hp. unfold compatible. by rewrite Ed, (proj1 (Forall_forall _ _) Ho t Ht Hp).
    + destruct (Z.eqb_spec (amdgpu_pll_get_shared_nondp_ppll c others) ATOM_PPLL_INVALID) as [E|E]; cbn [negb]; intros Hne; [by eapply free_for_all|].
      destruct (shared_nondp_spec _ _ _ eq_refl E Hc) as (t & Ht & Hd & Hp & Hsc). eapply share_all; [done|exact Ht|done|done|]. unfold compatible.
      rewrite Hnd, Hd, Hsc. by rewrite orb_true_r.
  - intros c others Ho Hp. cbn [set_pll pll_id] in Hp. unfold dce_v6_0_pick_pll in Hp. destruct (has_dp c) eqn:Ed; [done|]. exfalso.
    destruct (Z.eqb_spec (amdgpu_pll_get_shared_nondp_ppll c others) ATOM_PPLL_INVALID) as [E|E]; cbn [negb] in Hp.
    + destruct (first_free_spec _ _ _ Hl Hp ltac:(done)) as [Hin _]. set_solver.
    + destruct (shared_nondp_found _ _ _ eq_refl E) as (t & Ht & Hd & Ht2 & _). rewrite Hp in Ht2.
      pose proof (proj1 (Forall_forall _ _) Ho t Ht Ht2) as Hdp. by rewrite (dp_excludes t Hdp) in Hd.
  - done.
Qed.

(** ** Mode setting *)

Section modeset.
Context (pick : amdgpu_crtc -> list amdgpu_crtc -> Z) (only : amdgpu_crtc -> Prop) `{Hpick : !PickSound pick only}.

Definition others (i : nat) (l : list amdgpu_crtc) : list amdgpu_crtc := take i l ++ drop (S i) l.

(** A mode set on controller [i] and its end; every connector is driven by one
    controller. *)
Inductive crtc_step (l : list amdgpu_crtc) : list amdgpu_crtc -> Prop :=
  | step_mode_set i c :
      (i < length l)%nat -> crtc_encoder c <> None -> (forall t, t ∈ others i l -> connector t <> connector c) ->
      crtc_step l (<[i := set_pll (pick c (others i l)) c]> l)
  | step_disable i c : l !! i = Some c -> crtc_step l (<[i := crtc_disabled c]> l).

Lemma others_lookup i j l t : i <> j -> l !! j = Some t -> exists k, others i l !! k = Some t.
Proof.
  intros Hne Hj. pose proof (lookup_lt_Some _ _ _ Hj). unfold others. destruct (decide (j < i)%nat).
  - exists j. rewrite lookup_app_l by (rewrite length_take; lia). by rewrite lookup_take_lt.
  - exists (j - 1)%nat. rewrite lookup_app_r by (rewrite length_take; lia). rewrite length_take, lookup_drop, <- Hj. f_equal. lia.
Qed.
Lemma others_origin i k l t : others i l !! k = Some t -> l !! (if decide (k < i)%nat then k else S k) = Some t.
Proof.
  unfold others. intros H. apply lookup_app_Some in H as [H|[Hge H]].
  - apply lookup_take_Some in H as [H Hlt]. by rewrite decide_True.
  - rewrite lookup_drop in H. rewrite length_take in *. pose proof (lookup_lt_Some _ _ _ H). rewrite decide_False by lia. rewrite <- H. f_equal. lia.
Qed.
Lemma others_share i l : all_share l -> all_share (others i l).
Proof.
  intros [Hw Hs]. split; [apply Forall_app; split; [by apply Forall_take|by apply Forall_drop]|]. intros a b x y Hab Hx Hy.
  apply others_origin in Hx, Hy. refine (Hs _ _ x y _ Hx Hy). destruct (decide (a < i)%nat), (decide (b < i)%nat); lia.
Qed.

Definition crtc_inv (l : list amdgpu_crtc) : Prop := all_share l /\ Forall only l.

Lemma insert_share i c l :
  all_share l -> pll_wf c -> (forall j t, j <> i -> l !! j = Some t -> shares c t) -> all_share (<[i := c]> l).
Proof.
  intros [Hw Hs] Hc Hsh. split; [by apply Forall_insert|]. intros a b x y Hab Hx Hy.
  assert (Hsym : forall t, shares c t -> shares t c) by (intros t Ht E Hne; rewrite compatible_sym; apply Ht; congruence).
  apply list_lookup_insert_Some in Hx as [(-> & -> & _)|[Ha Hx]], Hy as Hy'; apply list_lookup_insert_Some in Hy as [(-> & -> & _)|[Hb Hy]]; try done; eauto.
Qed.
Lemma crtc_step_inv l l' : crtc_inv l -> crtc_step l l' -> crtc_inv l'.
Proof.
  intros [Ha Ho] H. destruct H as [i c Hi He Hc|i c Hi].
  - assert (Hoo : Forall only (others i l)) by (apply Forall_app; split; [by apply Forall_take|by apply Forall_drop]).
    pose proof (pick_sound c (others i l) He (others_share i l Ha) Hoo Hc) as Hp. cbv zeta in Hp. set (p := pick c (others i l)) in *. split.
    + apply insert_share; [done|intros Hne; by split; [|apply Hp]|]. intros j t Hj Ht E Hne. destruct (others_lookup i j l t (not_eq_sym Hj) Ht) as [k Hk].
      apply (proj2 (Hp Hne) t); [by eapply list_elem_of_lookup_2|done].
    + apply Forall_insert; [done|]. by apply pick_only.
  - split; [|by apply Forall_insert; [|apply only_disabled]]. apply insert_share; [done|done|]. by intros j t _ _ E Hne.
Qed.
Lemma crtc_reachable l0 l : crtc_inv l0 -> rtc crtc_step l0 l -> crtc_inv l.
Proof. intros I H. induction H as [l|l0 l1 l2 H1 _ IH]; [done|]. apply IH. by eapply crtc_step_inv. Qed.
End modeset.

(** Controllers after reset. *)
Definition crtcs_off (n : nat) : list amdgpu_crtc := replicate n (Crtc ATOM_PPLL_INVALID None None 0 0 false).


(** The generations; Polaris has a PLL for every link instead. *)
Inductive dce_version := Dce6 | Dce8 (t : amd_asic_type) | Dce10 | Dce11 (t : amd_asic_type).
Definition pick_pll (e : bool) (v : dce_version) : amdgpu_crtc -> list amdgpu_crtc -> Z :=
  match v with Dce6 => dce_v6_0_pick_pll e | Dce8 t => dce_v8_0_pick_pll e t | Dce10 => dce_v10_0_pick_pll e | Dce11 t => dce_v11_0_pick_pll e t end.
Definition pll_per_link (v : dce_version) : bool :=
  match v with Dce11 CHIP_POLARIS10 | Dce11 CHIP_POLARIS11 => true | _ => false end.
Definition only_of (v : dce_version) : amdgpu_crtc -> Prop := match v with Dce6 => ppll0_is_dp | _ => fun _ => True end.
Lemma pick_pll_sound e v : pll_per_link v = false -> PickSound (pick_pll e v) (only_of v).
Proof. destruct v as [|t| |t]; intros H; try apply _. apply dce_v11_0_sound; by intros ->. Qed.

Lemma off_inv n v : crtc_inv (only_of v) (crtcs_off n).
Proof.
  split; [split; [by apply Forall_replicate|]|apply Forall_replicate; by destruct v].
  intros i j a b _ Ha _ _ Hne. apply lookup_replicate_1 in Ha as [-> _]. done.
Qed.

(** On every generation that picks its PLLs, through any sequence of mode
    sets and disables, two controllers that have the same PLL are both
    DisplayPort, or neither is and their clocks and spread-spectrum settings
    are the same. *)
Theorem pll_sharing_sound (e : bool) (v : dce_version) n l i j a b :
  pll_per_link v = false -> rtc (crtc_step (pick_pll e v)) (crtcs_off n) l -> i <> j -> l !! i = Some a -> l !! j = Some b ->
  pll_id a = pll_id b -> pll_id a <> ATOM_PPLL_INVALID ->
  (has_dp a = true /\ has_dp b = true) \/
  (has_nondp a = true /\ has_nondp b = true /\ mode_clock a = mode_clock b /\ adjusted_clock a = adjusted_clock b /\ ss_enabled a = ss_enabled b).
Proof.
  intros Hv Hr Hij Ha Hb E Hne. pose proof (pick_pll_sound e v Hv) as Hp.
  destruct (crtc_reachable (pick_pll e v) (only_of v) _ l (off_inv n v) Hr) as [[_ Hs] _].
  pose proof (Hs i j a b Hij Ha Hb E Hne) as Hc. unfold compatible, same_clock in Hc.
  rewrite orb_true_iff, !andb_true_iff, !Z.eqb_eq, Bool.eqb_true_iff in Hc. tauto.
Qed.

(** Two monitors with the same clock on one PLL. *)
Lemma pll_sharing_sound_witness :
  let c k := Crtc ATOM_PPLL_INVALID (Some (Encoder false None false)) (Some k) 148500 148500 false in
  exists (l : list amdgpu_crtc) a b, l !! 0%nat = Some a /\ l !! 1%nat = Some b /\ pll_id a = ATOM_PPLL2 /\ pll_id b = ATOM_PPLL2 /\
    ((has_dp a = true /\ has_dp b = true) \/
     (has_nondp a = true /\ has_nondp b = true /\ mode_clock a = mode_clock b /\ adjusted_clock a = adjusted_clock b /\ ss_enabled a = ss_enabled b)).
Proof.
  intros c. set (pick := pick_pll false Dce10). set (l0 := crtcs_off 2).
  set (l1 := <[0%nat := set_pll (pick (c 1) (others 0 l0)) (c 1)]> l0). set (l2 := <[1%nat := set_pll (pick (c 2) (others 1 l1)) (c 2)]> l1).
  assert (Hr : rtc (crtc_step pick) l0 l2).
  { eapply rtc_l; [apply (step_mode_set pick l0 0 (c 1))|apply rtc_once; apply (step_mode_set pick l1 1 (c 2))]; try (cbn; lia); try done.
    - intros t Ht. vm_compute in Ht. apply list_elem_of_singleton in Ht as ->. discriminate.
    - intros t Ht. vm_compute in Ht. apply list_elem_of_singleton in Ht as ->. discriminate. }
  exists l2, (set_pll ATOM_PPLL2 (c 1)), (set_pll ATOM_PPLL2 (c 2)). split; [reflexivity|]. split; [reflexivity|]. split; [reflexivity|]. split; [reflexivity|].
  apply (pll_sharing_sound false Dce10 2 l2 0 1 _ _ eq_refl Hr); (reflexivity || discriminate).
Defined.
