(* ===== verification/Uvd.v ===== *)
(** * The decoder's command-stream parser ([amdgpu/amdgpu_uvd.c])

    The decoder has no page tables: the parser walks the command stream of a
    submission twice, checks every buffer command and replaces virtual addresses
    by physical ones.  Streams and messages come from user space.  Sessions are
    kept in a table of handles with the file that opened them. *)

From stdpp Require Import base numbers list.
From S2P Require Import Prelude CMonad.

Definition ENOSPC : Z := 28.
Definition AMDGPU_GPU_PAGE_SIZE : Z := 4096.
Definition mmUVD_GPCOM_VCPU_CMD : Z := 0x3bc3.
Definition mmUVD_GPCOM_VCPU_DATA0 : Z := 0x3bc4.
Definition mmUVD_GPCOM_VCPU_DATA1 : Z := 0x3bc5.
Definition mmUVD_ENGINE_CNTL : Z := 0x3bc6.
Definition mmUVD_NO_OP : Z := 0x3bff.
Definition CP_PACKET_GET_TYPE (h : Z) : Z := Z.land (Z.shiftr h 30) 3.
Definition CP_PACKET_GET_COUNT (h : Z) : Z := Z.land (Z.shiftr h 16) 0x3fff.
Definition CP_PACKET0_GET_REG (h : Z) : Z := Z.land h 0xffff.

(** ** Mappings ([amdgpu_cs_find_mapping]) *)

Record mapping := Mapping { it_start : Z; it_last : Z }.
(** An entry of the buffer list with a virtual address. *)
Record bo_list_entry := BoListEntry { valids : list mapping; invalids : list mapping; bo : Z }.

Definition covers (addr : Z) (m : mapping) : bool := negb ((it_start m >? addr) || (addr >? it_last m)).
Fixpoint find_entry (addr : Z) (l : list (option bo_list_entry)) : option (mapping * Z) :=
  match l with
  | [] => None
  | None :: l => find_entry addr l
  | Some e :: l =>
      match filter (fun m => covers addr m = true) (valids e ++ invalids e) with
      | m :: _ => Some (m, bo e)
      | [] => find_entry addr l
      end
  end.
Definition amdgpu_cs_find_mapping (bo_list : option (list (option bo_list_entry))) (addr : Z) : option (mapping * Z) :=
  match bo_list with None => None | Some l => find_entry (addr / AMDGPU_GPU_PAGE_SIZE) l end.

(** ** State *)

(** [struct amdgpu_uvd_cs_ctx] with the stream, and the session table of
    [struct amdgpu_uvd] (a null file is 0). *)
Record uvd_ctx := UvdCtx {
  ib : list Z; reg : Z; count : Z; data0 : Z; data1 : Z; idx : Z; has_msg_cmd : bool; buf_sizes : list Z;
  handles : list Z; filps : list Z }.
Notation UM := (M uvd_ctx).

Definition set_packet (r c : Z) (s : uvd_ctx) := UvdCtx (ib s) r c (data0 s) (data1 s) (idx s) (has_msg_cmd s) (buf_sizes s) (handles s) (filps s).
Definition set_data0 (d : Z) (s : uvd_ctx) := UvdCtx (ib s) (reg s) (count s) d (data1 s) (idx s) (has_msg_cmd s) (buf_sizes s) (handles s) (filps s).
Definition set_data1 (d : Z) (s : uvd_ctx) := UvdCtx (ib s) (reg s) (count s) (data0 s) d (idx s) (has_msg_cmd s) (buf_sizes s) (handles s) (filps s).
Definition set_idx (i : Z) (s : uvd_ctx) := UvdCtx (ib s) (reg s) (count s) (data0 s) (data1 s) i (has_msg_cmd s) (buf_sizes s) (handles s) (filps s).
Definition set_msg (s : uvd_ctx) := UvdCtx (ib s) (reg s) (count s) (data0 s) (data1 s) (idx s) true (buf_sizes s) (handles s) (filps s).
Definition set_sizes (b : list Z) (s : uvd_ctx) := UvdCtx (ib s) (reg s) (count s) (data0 s) (data1 s) (idx s) (has_msg_cmd s) b (handles s) (filps s).
Definition set_sessions (h f : list Z) (s : uvd_ctx) := UvdCtx (ib s) (reg s) (count s) (data0 s) (data1 s) (idx s) (has_msg_cmd s) (buf_sizes s) h f.
Definition set_ib (l : list Z) (s : uvd_ctx) := UvdCtx l (reg s) (count s) (data0 s) (data1 s) (idx s) (has_msg_cmd s) (buf_sizes s) (handles s) (filps s).

Definition length_dw (s : uvd_ctx) : Z := Z.of_nat (length (ib s)).
Definition amdgpu_get_ib_value (i : Z) : UM Z := s ← gets id; if i <? 0 then fault else deref (ib s !! Z.to_nat i).
Definition amdgpu_set_ib_value (i v : Z) : UM unit :=
  s ← gets id; if (i <? 0) || (length_dw s <=? i) then fault else modify (set_ib (<[Z.to_nat i := v]> (ib s))).

(** ** Decode messages *)

Definition ALIGN (x a : Z) : Z := Z.land (u32 (x + (a - 1))) (u32 (Z.lnot (a - 1))).
Definition h264_mbs (level : Z) : Z :=
  if level =? 30 then 8100 else if level =? 31 then 18000 else if level =? 32 then 20480 else if level =? 41 then 32768
  else if level =? 42 then 34816 else if level =? 50 then 110400 else if level =? 51 then 184320 else 184320.
(** The division; [None] is a trap. *)
Definition h264_buffers (level fs_in_mb : Z) : option Z :=
  if fs_in_mb =? 0 then None else let n := u32 (h264_mbs level / fs_in_mb + 1) in Some (if n >? 17 then 17 else n).

Record decode_sizes := DecodeSizes { min_dpb_size : Z; image_size : Z; min_ctx_size : Z }.
Inductive decoded := DecodeTrap | DecodeInvalid | Decoded (d : decode_sizes).

(** The switch over the codecs. *)
Definition codec_sizes (use_ctx_buf : bool) (msg : Z -> Z) : decoded :=
  let width := msg 6 in
  let height := msg 7 in
  let level := msg 57 in
  let width_in_mb := width / 16 in
  let height_in_mb := ALIGN (height / 16) 2 in
  let fs_in_mb := u32 (width_in_mb * height_in_mb) in
  let image := u32 (width * height) in
  let image := u32 (image + image / 2) in
  let image := ALIGN image 1024 in
  let mb := u32 (width_in_mb * height_in_mb) in
  let st := msg 4 in
  if st =? 0 then
    match h264_buffers level fs_in_mb with
    | None => DecodeTrap
    | Some n => Decoded (DecodeSizes (u32 (u32 (u32 (image * n) + u32 (u32 (mb * n) * 192)) + u32 (mb * 32))) image (u32 (-1)))
    end
  else if st =? 1 then
    let d := u32 (image * 3) in
    let d := u32 (d + u32 (mb * 128)) in
    let d := u32 (d + u32 (width_in_mb * 64)) in
    let d := u32 (d + u32 (width_in_mb * 128)) in
    let tmp := Z.max width_in_mb height_in_mb in
    Decoded (DecodeSizes (u32 (d + ALIGN (u32 (u32 (tmp * 7) * 16)) 64)) image (u32 (-1)))
  else if st =? 3 then Decoded (DecodeSizes (u32 (image * 3)) image (u32 (-1)))
  else if st =? 4 then
    Decoded (DecodeSizes (u32 (u32 (u32 (image * 3) + u32 (mb * 64)) + ALIGN (u32 (mb * 32)) 64)) image (u32 (-1)))
  else if st =? 7 then
    match h264_buffers level fs_in_mb with
    | None => DecodeTrap
    | Some n =>
        if negb use_ctx_buf
        then Decoded (DecodeSizes (u32 (u32 (u32 (image * n) + u32 (u32 (mb * n) * 192)) + u32 (mb * 32))) image (u32 (-1)))
        else Decoded (DecodeSizes (u32 (image * n)) image (u32 (u32 (mb * n) * 192)))
    end
  else if st =? 16 then
    let image := u32 (u32 (ALIGN width 16 * ALIGN height 16) * 3) / 2 in
    let image := ALIGN image 256 in
    let n := Z.land (msg 59) 0xff + 2 in
    Decoded (DecodeSizes (u32 (image * n)) image
      (u32 (u32 (u32 (u32 ((u32 (width + 255) / 16) * (u32 (height + 255) / 16)) * 16) * n) + 52 * 1024)))
  else DecodeInvalid.

Section uvd.
(** The buffer list, where objects are after validation, what validation and
    mapping return, the words of an object in user memory, and the device. *)
Context (bo_list : option (list (option bo_list_entry))) (gpu_offset : Z -> Z) (validate kmap : Z -> Z) (bo_word : Z -> Z -> Z).
Context (address_64_bit use_ctx_buf : bool) (uvd_gpu_addr filp : Z).

Definition amdgpu_uvd_cs_msg_decode (msg : Z -> Z) : UM Z :=
  match codec_sizes use_ctx_buf msg with
  | DecodeTrap => fault
  | DecodeInvalid => mret (- EINVAL)
  | Decoded d =>
      if msg 6 >? msg 28 then mret (- EINVAL)
      else if msg 9 <? min_dpb_size d then mret (- EINVAL)
      else modify (fun s => set_sizes (<[4%nat := min_ctx_size d]> (<[2%nat := image_size d]> (<[1%nat := msg 9]> (buf_sizes s)))) s);; mret 0
  end.

(** The loop of a create message: a slot, or the error. *)
Inductive slot_found := InUse | FreeSlot (i : nat) | NoSlot.
Fixpoint find_slot (handle : Z) (l : list Z) (i : nat) : slot_found :=
  match l with
  | [] => NoSlot
  | x :: l => if x =? handle then InUse else if x =? 0 then FreeSlot i else find_slot handle l (S i)
  end.

Definition amdgpu_uvd_cs_msg (b : Z) (addr : Z) : UM Z :=
  let offset := u32 addr in
  if negb (Z.land offset 0x3f =? 0) then mret (- EINVAL)
  else if negb (kmap b =? 0) then mret (kmap b)
  else
    let msg i := bo_word b (offset + 4 * i) in
    let handle := msg 2 in
    if handle =? 0 then mret (- EINVAL)
    else
      s ← gets id;
      if msg 1 =? 0 then
        match find_slot handle (handles s) 0 with
        | InUse => mret (- EINVAL)
        | FreeSlot i => modify (set_sessions (<[i := handle]> (handles s)) (<[i := filp]> (filps s)));; mret 0
        | NoSlot => mret (- ENOSPC)
        end
      else if msg 1 =? 1 then
        r ← amdgpu_uvd_cs_msg_decode msg;
        if negb (r =? 0) then mret r
        else
          match list_find (fun h => h = handle) (handles s) with
          | Some (i, _) => f ← deref (filps s !! i); mret (if negb (f =? filp) then - EINVAL else 0)
          | None => mret (- ENOENT)
          end
      else if msg 1 =? 2 then
        modify (fun s => set_sessions ((fun h => if h =? handle then 0 else h) <$> handles s) (filps s) s);; mret 0
      else mret (- EINVAL).

(** The address of a command: the words the parser has seen last in the DATA
    registers. *)
Definition data_addr : UM Z :=
  s ← gets id;
  lo ← amdgpu_get_ib_value (data0 s);
  hi ← amdgpu_get_ib_value (data1 s);
  mret (Z.lor lo (Z.shiftl hi 32)).

Definition amdgpu_uvd_cs_pass1 : UM Z :=
  addr ← data_addr;
  match amdgpu_cs_find_mapping bo_list addr with
  | None => mret (- EINVAL)
  | Some (_, b) => mret (if negb address_64_bit then validate b else 0)
  end.

(** The end of the buffer that a mapping covers, and the physical address. *)
Definition buf_end (m : mapping) (b : Z) : Z := u64 (u64 (u64 (it_last m + 1 - it_start m) * AMDGPU_GPU_PAGE_SIZE) + gpu_offset b).
Definition buf_offset (m : mapping) (addr : Z) : Z := u64 (addr - u64 (it_start m * AMDGPU_GPU_PAGE_SIZE)).

(** The size test of a command. *)
Definition size_check (cmd room : Z) (sizes : list Z) : Z :=
  if cmd <? 4 then if room <? nth (Z.to_nat cmd) sizes 0 then - EINVAL else 0
  else if cmd =? 0x206 then if room <? nth 4 sizes 0 then - EINVAL else 0
  else if negb (cmd =? 0x100) && negb (cmd =? 0x204) then - EINVAL else 0.
Definition segment_check (cmd start end_ : Z) : Z :=
  if negb address_64_bit then
    if negb (Z.shiftr start 28 =? Z.shiftr (u64 (end_ - 1)) 28) then - EINVAL
    else if ((cmd =? 0) || (cmd =? 3)) && negb (Z.shiftr start 28 =? Z.shiftr uvd_gpu_addr 28) then - EINVAL
    else 0
  else 0.

Definition amdgpu_uvd_cs_pass2 : UM Z :=
  addr ← data_addr;
  match amdgpu_cs_find_mapping bo_list addr with
  | None => mret (- EINVAL)
  | Some (m, b) =>
      let end_ := buf_end m b in
      let addr := buf_offset m addr in
      let start := u64 (gpu_offset b + addr) in
      s ← gets id;
      amdgpu_set_ib_value (data0 s) (u32 start);;
      amdgpu_set_ib_value (data1 s) (Z.shiftr start 32);;
      word ← amdgpu_get_ib_value (idx s);
      let cmd := Z.shiftr word 1 in
      let r := size_check cmd (u64 (end_ - start)) (buf_sizes s) in
      if negb (r =? 0) then mret r
      else
        let r := segment_check cmd start end_ in
        if negb (r =? 0) then mret r
        else if cmd =? 0 then
          modify set_msg;;
          amdgpu_uvd_cs_msg b addr
        else mret (if negb (has_msg_cmd s) then - EINVAL else 0)
  end.

(** ** The walk over the stream *)

(** The switch over the register that is written. *)
Definition cs_reg_switch (cb : UM Z) (r : Z) : UM Z :=
  if r =? mmUVD_GPCOM_VCPU_DATA0 then modify (fun s => set_data0 (idx s) s);; mret 0
  else if r =? mmUVD_GPCOM_VCPU_DATA1 then modify (fun s => set_data1 (idx s) s);; mret 0
  else if r =? mmUVD_GPCOM_VCPU_CMD then cb
  else if (r =? mmUVD_ENGINE_CNTL) || (r =? mmUVD_NO_OP) then mret 0
  else mret (- EINVAL).
(** The loop of [amdgpu_uvd_cs_reg]: [n] registers from [r] on. *)
Fixpoint cs_reg_loop (cb : UM Z) (r : Z) (n : nat) : UM Z :=
  match n with
  | O => mret 0
  | S k =>
      s ← gets id;
      if length_dw s <=? idx s then mret (- EINVAL)
      else
        e ← cs_reg_switch cb r;
        if negb (e =? 0) then mret e
        else modify (fun s => set_idx (idx s + 1) s);; cs_reg_loop cb (r + 1) k
  end.
Definition amdgpu_uvd_cs_reg (cb : UM Z) : UM Z :=
  modify (fun s => set_idx (idx s + 1) s);;
  s ← gets id;
  cs_reg_loop cb (reg s) (Z.to_nat (count s + 1)).

Fixpoint cs_packets_loop (cb : UM Z) (fuel : nat) : UM Z :=
  match fuel with
  | O => nofuel
  | S k =>
      s ← gets id;
      if length_dw s <=? idx s then mret 0
      else
        cmd ← amdgpu_get_ib_value (idx s);
        let type := CP_PACKET_GET_TYPE cmd in
        if type =? 0 then
          modify (set_packet (CP_PACKET0_GET_REG cmd) (CP_PACKET_GET_COUNT cmd));;
          r ← amdgpu_uvd_cs_reg cb;
          if negb (r =? 0) then mret r else cs_packets_loop cb k
        else if type =? 2 then modify (fun s => set_idx (idx s + 1) s);; cs_packets_loop cb k
        else mret (- EINVAL)
  end.
(** Every turn consumes a word. *)
Definition amdgpu_uvd_cs_packets (cb : UM Z) : UM Z :=
  modify (set_idx 0);;
  s ← gets id;
  cs_packets_loop cb (S (length (ib s))).

Definition initial_sizes : list Z := [2048; 0xffffffff; 0xffffffff; 2048; 0xffffffff].
(** [amdgpu_uvd_ring_parse_cs]; [access] is the result of
    [amdgpu_cs_sysvm_access_required]. *)
Definition amdgpu_uvd_ring_parse_cs (access : Z) (stream : list Z) (h f : list Z) : outcome (Z * uvd_ctx) :=
  let s := UvdCtx stream 0 0 0 0 0 false initial_sizes h f in
  (s ← gets id;
   if negb (length_dw s mod 16 =? 0) then mret (- EINVAL)
   else if negb (access =? 0) then mret access
   else
     r ← amdgpu_uvd_cs_packets amdgpu_uvd_cs_pass1;
     if negb (r =? 0) then mret r
     else
       r ← amdgpu_uvd_cs_packets amdgpu_uvd_cs_pass2;
       if negb (r =? 0) then mret r
       else s ← gets id; mret (if negb (has_msg_cmd s) then - EINVAL else 0)) s.

(** [amdgpu_uvd_free_handles]: the table after a file is closed; [destroy] is
    the result of the destroy message for a handle. *)
Definition amdgpu_uvd_free_handles (destroy : Z -> Z) (h f : list Z) : list Z * list Z :=
  let gone x y := negb (x =? 0) && (y =? filp) && (destroy x =? 0) in
  (zip_with (fun x y => if gone x y then 0 else x) h f, zip_with (fun x y => if gone x y then 0 else y) h f).
End uvd.
