(* ===== verification/UvdSpec.v ===== *)
(** * What the decoder's parser lets through

    [stream_writes] is the sequence of register writes a stream makes;
    [packets_rule] reduces a walk of the parser to it.  [checked] is what holds
    of the commands of an accepted stream, in order, with the buffer sizes that
    the stream's own decode messages put in force. *)

From stdpp Require Import base numbers list sets.
From S2P Require Import Prelude CMonad Uvd.

(** ** The writes of a stream *)

Fixpoint reg_writes (r i : Z) (n : nat) : list (Z * Z) :=
  match n with O => [] | S k => (r, i) :: reg_writes (r + 1) (i + 1) k end.
(** From word [i] on; [None] if the stream ends inside a packet or has an
    unknown packet. *)
Fixpoint stream_writes (fuel : nat) (l : list Z) (i : Z) : option (list (Z * Z)) :=
  match fuel with
  | O => None
  | S k =>
      if Z.of_nat (length l) <=? i then Some []
      else
        h ← l !! Z.to_nat i;
        if CP_PACKET_GET_TYPE h =? 0 then
          let n := CP_PACKET_GET_COUNT h + 1 in
          if Z.of_nat (length l) <? i + 1 + n then None
          else rest ← stream_writes k l (i + 1 + n); Some (reg_writes (CP_PACKET0_GET_REG h) (i + 1) (Z.to_nat n) ++ rest)
        else if CP_PACKET_GET_TYPE h =? 2 then stream_writes k l (i + 1)
        else None
  end.
Definition the_writes (l : list Z) : option (list (Z * Z)) := stream_writes (S (length l)) l 0.

(** The commands: the word of the command and the words of its address. *)
Fixpoint commands (ws : list (Z * Z)) (d0 d1 : Z) : list (Z * Z * Z) :=
  match ws with
  | [] => []
  | (r, i) :: ws =>
      if r =? mmUVD_GPCOM_VCPU_DATA0 then commands ws i d1
      else if r =? mmUVD_GPCOM_VCPU_DATA1 then commands ws d0 i
      else if r =? mmUVD_GPCOM_VCPU_CMD then (i, d0, d1) :: commands ws d0 d1
      else commands ws d0 d1
  end.
Definition command_words (c : Z * Z * Z) : list Z := [c.1.1; c.1.2; c.2].
(** Every command has address words of its own. *)
Definition own_addresses (ws : list (Z * Z)) : Prop :=
  Forall (fun c => 1 <= c.1.2 < c.1.1 /\ 1 <= c.2 < c.1.1) (commands ws 0 0) /\ NoDup (commands ws 0 0 ≫= command_words).

(** ** A rule for the walk *)

Section rule.
Context (cb : UM Z) (stream : list Z) (P : list (Z * Z) -> uvd_ctx -> Prop).

(** The words from [i] on have not been touched. *)
Definition untouched (i : Z) (s : uvd_ctx) : Prop :=
  length (ib s) = length stream /\ forall j, (Z.to_nat i <= j)%nat -> ib s !! j = stream !! j.

Context (P_packet : forall ws s r c, P ws s -> P ws (set_packet r c s)) (P_idx : forall ws s i, P ws s -> P ws (set_idx i s)).
Context (P_data0 : forall ws s i, 0 <= i -> idx s = i -> P ((mmUVD_GPCOM_VCPU_DATA0, i) :: ws) s -> P ws (set_data0 i s)).
Context (P_data1 : forall ws s i, 0 <= i -> idx s = i -> P ((mmUVD_GPCOM_VCPU_DATA1, i) :: ws) s -> P ws (set_data1 i s)).
Context (P_other : forall ws s r i, r <> mmUVD_GPCOM_VCPU_DATA0 -> r <> mmUVD_GPCOM_VCPU_DATA1 -> r <> mmUVD_GPCOM_VCPU_CMD -> P ((r, i) :: ws) s -> P ws s).
Context (P_cmd : forall ws s i s1, 0 <= i -> idx s = i -> untouched i s -> P ((mmUVD_GPCOM_VCPU_CMD, i) :: ws) s -> cb s = Ok (0, s1) ->
  P ws s1 /\ idx s1 = i /\ untouched i s1).

Lemma untouched_mono i j s : i <= j -> untouched i s -> untouched j s.
Proof. intros Hij [Hl H]. split; [done|]. intros k Hk. apply H. lia. Qed.

Lemma switch_rule r i ws s s1 :
  0 <= i -> idx s = i -> untouched i s -> P ((r, i) :: ws) s -> cs_reg_switch cb r s = Ok (0, s1) -> P ws s1 /\ idx s1 = i /\ untouched i s1.
Proof.
  intros Hi Ei Hu HP. unfold cs_reg_switch.
  destruct (Z.eqb_spec r mmUVD_GPCOM_VCPU_DATA0) as [->|H0]; [intros [= <-]; rewrite Ei; split; [by apply P_data0|by split]|].
  destruct (Z.eqb_spec r mmUVD_GPCOM_VCPU_DATA1) as [->|H1]; [intros [= <-]; rewrite Ei; split; [by apply P_data1|by split]|].
  destruct (Z.eqb_spec r mmUVD_GPCOM_VCPU_CMD) as [->|Hc]; [by apply P_cmd|].
  destruct (_ || _); [|by intros [= ?]]. intros [= <-]. split; [by eapply P_other|by split].
Qed.

Lemma reg_rule n r i ws s s' :
  0 <= i -> idx s = i -> untouched i s -> P (reg_writes r i n ++ ws) s -> cs_reg_loop cb r n s = Ok (0, s') ->
  P ws s' /\ idx s' = i + Z.of_nat n /\ untouched (i + Z.of_nat n) s' /\ (n = O \/ i + Z.of_nat n <= Z.of_nat (length stream)).
Proof.
  revert r i s. induction n as [|n IH]; intros r i s Hi Ei Hu HP; cbn [cs_reg_loop reg_writes app] in *.
  - intros [= <-]. rewrite Z.add_0_r. split; [done|]. split; [done|]. split; [done|]. by left.
  - rewrite (bind_eval (gets id) _ s s s eq_refl). cbn [id]. unfold length_dw. rewrite (proj1 Hu), Ei.
    destruct (Z.leb_spec (Z.of_nat (length stream)) i) as [|Hlt]; [by intros [= ?]|]. intros H. apply bind_Ok in H as (e & s1 & Es & H).
    destruct (Z.eqb_spec e 0) as [->|Hne]; cbn [negb] in H; [|injection H as He _; congruence].
    destruct (switch_rule _ _ _ _ _ Hi Ei Hu HP Es) as (HP1 & Ei1 & Hu1). rewrite (bind_eval (modify _) _ s1 tt (set_idx (i + 1) s1)) in H by (by rewrite <- Ei1).
    destruct (IH (r + 1) (i + 1) (set_idx (i + 1) s1)) as (HPn & Ein & Hun & Hor); [lia|done|by apply (untouched_mono i); [lia|]|by apply P_idx|exact H|].
    split; [done|]. rewrite Nat2Z.inj_succ. replace (i + Z.succ (Z.of_nat n)) with (i + 1 + Z.of_nat n) by lia. split; [done|]. split; [done|]. right. lia.
Qed.

Lemma loop_rule fuel i ws s s' :
  0 <= i -> idx s = i -> untouched i s -> stream_writes fuel stream i = Some ws -> P ws s -> cs_packets_loop cb fuel s = Ok (0, s') -> P [] s'.
Proof.
  revert i ws s. induction fuel as [|fuel IH]; intros i ws s Hi Ei Hu Hw HP; [done|]. cbn [cs_packets_loop stream_writes] in *.
  rewrite (bind_eval (gets id) _ s s s eq_refl). cbn [id]. unfold length_dw. rewrite (proj1 Hu), Ei.
  destruct (Z.leb_spec (Z.of_nat (length stream)) i) as [|Hlt]; [intros [= <-]; injection Hw as <-; done|].
  destruct (stream !! Z.to_nat i) as [h|] eqn:Eh; [|done]. cbn [mbind option_bind] in Hw.
  rewrite (bind_eval (amdgpu_get_ib_value i) _ s h s).
  2:{ unfold amdgpu_get_ib_value, mbind, M_bind, gets, id, deref. destruct (Z.ltb_spec i 0); [lia|]. by rewrite (proj2 Hu), Eh by lia. }
  cbv zeta. destruct (CP_PACKET_GET_TYPE h =? 0).
  - destruct (Z.ltb_spec (Z.of_nat (length stream)) (i + 1 + (CP_PACKET_GET_COUNT h + 1))) as [|Hfit]; [done|].
    destruct (stream_writes fuel stream (i + 1 + (CP_PACKET_GET_COUNT h + 1))) as [rest|] eqn:Er; [|done]. cbn [mbind option_bind] in Hw. apply (inj Some) in Hw as <-.
    rewrite (bind_eval (modify _) _ s tt _ eq_refl). intros H. apply bind_Ok in H as (r & s1 & Er1 & H).
    destruct (Z.eqb_spec r 0) as [->|Hne]; cbn [negb] in H; [|injection H as He _; congruence].
    unfold amdgpu_uvd_cs_reg in Er1. rewrite (bind_eval (modify _) _ _ tt _ eq_refl), (bind_eval (gets id) _ _ _ _ eq_refl) in Er1. cbn [id set_idx set_packet reg count idx] in Er1. rewrite Ei in Er1.
    assert (Hc : 0 <= CP_PACKET_GET_COUNT h) by (apply Z.land_nonneg; right; lia).
    destruct (reg_rule _ _ (i + 1) rest (set_idx (i + 1) (set_packet (CP_PACKET0_GET_REG h) (CP_PACKET_GET_COUNT h) s)) s1 ltac:(lia) eq_refl (untouched_mono i (i + 1) s ltac:(lia) Hu) (P_idx _ _ (i + 1) (P_packet _ _ (CP_PACKET0_GET_REG h) (CP_PACKET_GET_COUNT h) HP)) Er1)
      as (HP1 & Ei1 & Hu1 & _).
    rewrite Z2Nat.id in Ei1, Hu1 by lia. by apply (IH (i + 1 + (CP_PACKET_GET_COUNT h + 1)) rest s1 ltac:(lia) Ei1 Hu1 Er HP1).
  - destruct (CP_PACKET_GET_TYPE h =? 2); [|by intros [= ?]]. rewrite (bind_eval (modify _) _ s tt (set_idx (i + 1) s)) by (by rewrite <- Ei).
    apply (IH (i + 1) ws); [lia|done|by apply (untouched_mono i); [lia|]|done|by apply P_idx].
Qed.

Lemma packets_rule ws s s' :
  ib s = stream -> the_writes stream = Some ws -> P ws s -> amdgpu_uvd_cs_packets cb s = Ok (0, s') -> P [] s'.
Proof.
  intros Eib Hw HP. unfold amdgpu_uvd_cs_packets. rewrite (bind_eval (modify _) _ s tt _ eq_refl), (bind_eval (gets id) _ _ _ _ eq_refl). cbn [id set_idx ib].
  rewrite Eib. apply (loop_rule _ 0 ws); [lia|done| |done|by apply P_idx]. split; [cbn; by rewrite Eib|]. intros j _. cbn. by rewrite Eib.
Qed.
End rule.

(** ** The commands of an accepted stream *)

Section accepted.
Context (bo_list : option (list (option bo_list_entry))) (gpu_offset : Z -> Z) (validate kmap : Z -> Z) (bo_word : Z -> Z -> Z).
Context (address_64_bit use_ctx_buf : bool) (uvd_gpu_addr filp : Z).
Local Notation pass2 := (amdgpu_uvd_cs_pass2 bo_list gpu_offset kmap bo_word address_64_bit use_ctx_buf uvd_gpu_addr filp).
Local Notation pass1 := (amdgpu_uvd_cs_pass1 bo_list validate address_64_bit).

(** Mappings are ranges of pages, and objects lie below 2^63. *)
Definition maps_wf : Prop :=
  forall addr m b, amdgpu_cs_find_mapping bo_list addr = Some (m, b) ->
    0 <= it_start m <= addr / AMDGPU_GPU_PAGE_SIZE /\ addr / AMDGPU_GPU_PAGE_SIZE <= it_last m < 2 ^ 52 /\
    0 <= gpu_offset b /\ gpu_offset b + (it_last m + 1 - it_start m) * AMDGPU_GPU_PAGE_SIZE <= 2 ^ 63.

(** The bytes a command needs. *)
Definition needed (cmd : Z) (sizes : list Z) : Z :=
  if cmd <? 4 then nth (Z.to_nat cmd) sizes 0 else if cmd =? 0x206 then nth 4 sizes 0 else 0.
Definition known_command (cmd : Z) : Prop := 0 <= cmd < 4 \/ cmd = 0x206 \/ cmd = 0x100 \/ cmd = 0x204.

(** What a command of a stream asks for: the mapping and the object its address
    words lie in. *)
Record target := Target { t_cmd : Z; t_addr : Z; t_map : mapping; t_bo : Z }.
Definition target_of (l : list Z) (c : Z * Z * Z) : option target :=
  w ← l !! Z.to_nat c.1.1; lo ← l !! Z.to_nat c.1.2; hi ← l !! Z.to_nat c.2;
  mb ← amdgpu_cs_find_mapping bo_list (Z.lor lo (Z.shiftl hi 32));
  Some (Target (Z.shiftr w 1) (Z.lor lo (Z.shiftl hi 32)) mb.1 mb.2).
Definition t_offset (t : target) : Z := t_addr t - it_start (t_map t) * AMDGPU_GPU_PAGE_SIZE.
Definition t_start (t : target) : Z := gpu_offset (t_bo t) + t_offset t.
Definition t_end (t : target) : Z := gpu_offset (t_bo t) + (it_last (t_map t) + 1 - it_start (t_map t)) * AMDGPU_GPU_PAGE_SIZE.
(** The words of a message. *)
Definition t_message (t : target) (i : Z) : Z := bo_word (t_bo t) (u32 (t_offset t) + 4 * i).

(** The sizes in force after a command: those of its decode message. *)
Definition decode_updates (msg : Z -> Z) (sizes : list Z) : list Z :=
  match codec_sizes use_ctx_buf msg with
  | Decoded d => <[4%nat := min_ctx_size d]> (<[2%nat := image_size d]> (<[1%nat := msg 9]> sizes))
  | _ => sizes
  end.
Definition message_sizes (msg : Z -> Z) (sizes : list Z) : list Z := if msg 1 =? 1 then decode_updates msg sizes else sizes.
Definition sizes_after (sizes : list Z) (t : target) : list Z := if t_cmd t =? 0 then message_sizes (t_message t) sizes else sizes.

(** The checks of a message. *)
Definition decode_ok (msg : Z -> Z) : Prop := exists d, codec_sizes use_ctx_buf msg = Decoded d /\ msg 6 <= msg 28 /\ min_dpb_size d <= msg 9.
Definition message_ok (t : target) : Prop :=
  u32 (t_offset t) mod 64 = 0 /\ t_message t 2 <> 0 /\ 0 <= t_message t 1 <= 2 /\ (t_message t 1 = 1 -> decode_ok (t_message t)).

(** The address words of the command in [l] are those of its target, which has
    room for the bytes the command needs. *)
Definition command_ok (l : list Z) (sizes : list Z) (c : Z * Z * Z) (t : target) : Prop :=
  l !! Z.to_nat c.1.2 = Some (u32 (t_start t)) /\ l !! Z.to_nat c.2 = Some (t_start t / 2 ^ 32) /\
  known_command (t_cmd t) /\ gpu_offset (t_bo t) <= t_start t < t_end t /\ t_start t + needed (t_cmd t) sizes <= t_end t /\
  (t_cmd t = 0 -> message_ok t) /\
  (address_64_bit = false -> t_start t / 2 ^ 28 = (t_end t - 1) / 2 ^ 28 /\ (t_cmd t = 0 \/ t_cmd t = 3 -> t_start t / 2 ^ 28 = uvd_gpu_addr / 2 ^ 28)).

(** The commands [cs] of [stream], with [sizes] in force before them. *)
Fixpoint checked (stream l : list Z) (sizes : list Z) (cs : list (Z * Z * Z)) : Prop :=
  match cs with
  | [] => True
  | c :: cs => exists t, target_of stream c = Some t /\ command_ok l sizes c t /\ checked stream l (sizes_after sizes t) cs
  end.
Definition sizes_at (stream : list Z) (sizes : list Z) (cs : list (Z * Z * Z)) : list Z :=
  fold_left (fun sz c => match target_of stream c with Some t => sizes_after sz t | None => sz end) cs sizes.

Lemma checked_snoc stream l cs c t : forall sizes,
  checked stream l sizes cs -> target_of stream c = Some t -> command_ok l (sizes_at stream sizes cs) c t -> checked stream l sizes (cs ++ [c]).
Proof.
  induction cs as [|c' cs IH]; intros sizes H Ht Hc; cbn [app checked] in *; [by exists t|]. destruct H as (t' & Et & Hc' & H). exists t'. split; [done|]. split; [done|].
  apply IH; [done|done|]. unfold sizes_at in Hc. cbn [fold_left] in Hc. by rewrite Et in Hc.
Qed.
Lemma sizes_snoc stream sizes cs c t : target_of stream c = Some t -> sizes_at stream sizes (cs ++ [c]) = sizes_after (sizes_at stream sizes cs) t.
Proof. intros Ht. unfold sizes_at. rewrite fold_left_app. cbn [fold_left]. by rewrite Ht. Qed.
Lemma checked_ext stream l l' cs : forall sizes,
  (forall c j, c ∈ cs -> j ∈ command_words c -> l' !! Z.to_nat j = l !! Z.to_nat j) -> checked stream l sizes cs -> checked stream l' sizes cs.
Proof.
  induction cs as [|c cs IH]; intros sizes H; cbn [checked]; [done|]. intros (t & Et & (H1 & H2 & H3) & Hc). exists t. split; [done|].
  split; [|apply IH; [|done]; intros c' j Hc'; apply H; by right]. split; [rewrite (H c); [done|left|unfold command_words; set_solver]|]. split; [|done]. rewrite (H c); [done|left|unfold command_words; set_solver].
Qed.
Lemma target_ext l l' c : (forall j, j ∈ command_words c -> l' !! Z.to_nat j = l !! Z.to_nat j) -> target_of l' c = target_of l c.
Proof. intros H. unfold target_of. unfold command_words in H. by rewrite !H by set_solver. Qed.

Lemma page_split addr m :
  0 <= addr < 2 ^ 64 -> 0 <= it_start m <= addr / AMDGPU_GPU_PAGE_SIZE -> addr / AMDGPU_GPU_PAGE_SIZE <= it_last m < 2 ^ 52 ->
  buf_offset m addr = addr - it_start m * AMDGPU_GPU_PAGE_SIZE /\ 0 <= addr - it_start m * AMDGPU_GPU_PAGE_SIZE < (it_last m + 1 - it_start m) * AMDGPU_GPU_PAGE_SIZE.
Proof.
  unfold AMDGPU_GPU_PAGE_SIZE. intros Ha H1 H2. pose proof (Z.div_mod addr 4096 ltac:(lia)). pose proof (Z.mod_pos_bound addr 4096 ltac:(lia)).
  unfold buf_offset, AMDGPU_GPU_PAGE_SIZE. rewrite (u64_small (it_start m * 4096)) by (unfold is_u64; lia). rewrite u64_small by (unfold is_u64; lia). lia.
Qed.

Lemma lo_hi start : 0 <= start < 2 ^ 64 -> u32 start + 2 ^ 32 * Z.shiftr start 32 = start.
Proof. intros H. rewrite Z.shiftr_div_pow2 by lia. unfold u32. pose proof (Z.div_mod start 4294967296 ltac:(lia)). change (2 ^ 32) with 4294967296. lia. Qed.
Lemma addr_range lo hi : is_u32 lo -> is_u32 hi -> 0 <= Z.lor lo (Z.shiftl hi 32) < 2 ^ 64.
Proof.
  intros Hlo Hhi. unfold is_u32 in *. apply (lor_bound 64); [lia|lia|]. rewrite Z.shiftl_mul_pow2 by lia. change (2 ^ 32) with 4294967296. change (2 ^ 64) with 18446744073709551616. lia.
Qed.

(** The checks, as propositions. *)
Lemma size_check_ok cmd room sizes : 0 <= cmd -> size_check cmd room sizes = 0 -> known_command cmd /\ needed cmd sizes <= room \/ (cmd = 0x100 \/ cmd = 0x204).
Proof.
  intros H0. unfold size_check, needed, known_command. destruct (Z.ltb_spec cmd 4).
  - destruct (Z.ltb_spec room (nth (Z.to_nat cmd) sizes 0)); [done|]. intros _. left. split; [left; lia|lia].
  - destruct (Z.eqb_spec cmd 0x206) as [->|]; [destruct (Z.ltb_spec room (nth 4 sizes 0)); [done|]; intros _; left; split; [lia|lia]|].
    destruct (Z.eqb_spec cmd 0x100); [by right; left|]. destruct (Z.eqb_spec cmd 0x204); [by right; right|]. done.
Qed.
Lemma segment_check_ok cmd start end_ :
  0 <= start -> 0 < end_ <= 2 ^ 63 -> segment_check address_64_bit uvd_gpu_addr cmd start end_ = 0 -> address_64_bit = false ->
  start / 2 ^ 28 = (end_ - 1) / 2 ^ 28 /\ (cmd = 0 \/ cmd = 3 -> start / 2 ^ 28 = uvd_gpu_addr / 2 ^ 28).
Proof.
  intros Hs He. unfold segment_check. intros H ->. cbn [negb] in H. rewrite u64_small in H by (unfold is_u64; lia). rewrite !Z.shiftr_div_pow2 in H by lia.
  destruct (Z.eqb_spec (start / 2 ^ 28) ((end_ - 1) / 2 ^ 28)) as [E|]; cbn [negb] in H; [|done]. split; [done|]. intros Hc.
  destruct (Z.eqb_spec (start / 2 ^ 28) (uvd_gpu_addr / 2 ^ 28)) as [E2|]; [done|]. cbn [negb] in H.
  assert ((cmd =? 0) || (cmd =? 3) = true) as Hb by (apply orb_true_iff; rewrite !Z.eqb_eq; tauto). by rewrite Hb in H.
Qed.

Lemma get_ib_inv i s v s' : amdgpu_get_ib_value i s = Ok (v, s') -> 0 <= i /\ ib s !! Z.to_nat i = Some v /\ s' = s.
Proof.
  unfold amdgpu_get_ib_value, mbind, M_bind, gets, id, deref. destruct (Z.ltb_spec i 0); [done|]. destruct (ib s !! Z.to_nat i); [|done]. by intros [= <- <-].
Qed.
Lemma set_ib_inv i v s u s' : amdgpu_set_ib_value i v s = Ok (u, s') -> 0 <= i < length_dw s /\ s' = set_ib (<[Z.to_nat i := v]> (ib s)) s.
Proof.
  unfold amdgpu_set_ib_value, mbind, M_bind, gets, id. destruct (Z.ltb_spec i 0); [done|]. destruct (Z.leb_spec (length_dw s) i); [done|]. by intros [= <- <-].
Qed.
Lemma data_addr_inv s a s' :
  data_addr s = Ok (a, s') -> s' = s /\ exists lo hi, 0 <= data0 s /\ 0 <= data1 s /\ ib s !! Z.to_nat (data0 s) = Some lo /\ ib s !! Z.to_nat (data1 s) = Some hi /\ a = Z.lor lo (Z.shiftl hi 32).
Proof.
  unfold data_addr. rewrite (bind_eval (gets id) _ s s s eq_refl). cbn [id]. intros H. apply bind_Ok in H as (lo & s1 & H1 & H). apply get_ib_inv in H1 as (H0 & H1 & ->).
  apply bind_Ok in H as (hi & s2 & H2 & H). apply get_ib_inv in H2 as (H0' & H2 & ->). injection H as <- <-. split; [done|]. by exists lo, hi.
Qed.

(** A message changes the sizes and the sessions only. *)
Definition same_walk (s s1 : uvd_ctx) : Prop := ib s1 = ib s /\ idx s1 = idx s /\ data0 s1 = data0 s /\ data1 s1 = data1 s.
Lemma decode_frame msg s s1 :
  amdgpu_uvd_cs_msg_decode use_ctx_buf msg s = Ok (0, s1) -> same_walk s s1 /\ decode_ok msg /\ buf_sizes s1 = decode_updates msg (buf_sizes s).
Proof.
  unfold amdgpu_uvd_cs_msg_decode, decode_ok, decode_updates. destruct (codec_sizes use_ctx_buf msg) as [| |d]; [done|by intros [= ?]|].
  rewrite Z.gtb_ltb. destruct (Z.ltb_spec (msg 28) (msg 6)); [by intros [= ?]|]. destruct (Z.ltb_spec (msg 9) (min_dpb_size d)); [by intros [= ?]|].
  intros [= <-]. split; [done|]. split; [by exists d|done].
Qed.
Lemma msg_frame b addr s s1 (msg := fun i => bo_word b (u32 addr + 4 * i)) :
  amdgpu_uvd_cs_msg kmap bo_word use_ctx_buf filp b addr s = Ok (0, s1) ->
  same_walk s s1 /\ buf_sizes s1 = message_sizes msg (buf_sizes s) /\
  u32 addr mod 64 = 0 /\ msg 2 <> 0 /\ 0 <= msg 1 <= 2 /\ (msg 1 = 1 -> decode_ok msg).
Proof.
  unfold amdgpu_uvd_cs_msg, message_sizes. cbv zeta. fold msg. intros H.
  change 0x3f with (2 ^ 6 - 1) in H. rewrite land_pow2 in H by lia. change (2 ^ 6) with 64 in H.
  destruct (Z.eqb_spec (u32 addr mod 64) 0) as [Hal|]; cbn [negb] in H; [|by injection H as ? _].
  destruct (Z.eqb_spec (kmap b) 0) as [Hk|Hk]; cbn [negb] in H; [|injection H as ? _; congruence].
  change (bo_word b (u32 addr + 4 * 2)) with (msg 2) in H. change (bo_word b (u32 addr + 4 * 1)) with (msg 1) in H.
  destruct (Z.eqb_spec (msg 2) 0) as [|Hh]; [by injection H as ? _|].
  rewrite (bind_eval (gets id) _ s s s eq_refl) in H. cbn [id] in H. destruct (Z.eqb_spec (msg 1) 0) as [E0|_].
  - rewrite E0. destruct (find_slot _ _ _) as [|j|]; [by injection H as ? _| |by injection H as ? _].
    rewrite (bind_eval (modify _) _ s tt _ eq_refl) in H. injection H as <-. repeat split; (done || lia).
  - destruct (Z.eqb_spec (msg 1) 1) as [E1|_].
    + apply bind_Ok in H as (r1 & s2 & Hd & H). destruct (Z.eqb_spec r1 0) as [->|]; cbn [negb] in H; [|injection H as ? _; congruence].
      apply decode_frame in Hd as (Hf & Hok & Hs). rewrite E1.
      destruct (list_find _ (handles s)) as [[j x]|]; [|by injection H as ? _]. apply bind_Ok in H as (f & s3 & Hf3 & H). unfold deref in Hf3.
      destruct (filps s !! j); [|done]. injection Hf3 as <- <-. injection H as _ <-. repeat split; try (done || lia); apply Hf.
    + destruct (Z.eqb_spec (msg 1) 2) as [E2|_]; [|by injection H as ? _]. rewrite E2. rewrite (bind_eval (modify _) _ s tt _ eq_refl) in H. injection H as <-. repeat split; (done || lia).
Qed.

(** The address arithmetic of a target. *)
Lemma target_range l c t : maps_wf -> Forall is_u32 l -> target_of l c = Some t ->
  amdgpu_cs_find_mapping bo_list (t_addr t) = Some (t_map t, t_bo t) /\
  buf_offset (t_map t) (t_addr t) = t_offset t /\ u64 (gpu_offset (t_bo t) + t_offset t) = t_start t /\ buf_end gpu_offset (t_map t) (t_bo t) = t_end t /\
  0 <= gpu_offset (t_bo t) <= t_start t /\ t_start t < t_end t /\ t_end t <= 2 ^ 63.
Proof.
  intros Hwf Hu32 H. unfold target_of in H. apply bind_Some in H as (w & Ew & H). apply bind_Some in H as (lo & Elo & H). apply bind_Some in H as (hi & Ehi & H).
  apply bind_Some in H as ([m b] & Em & H). apply (inj Some) in H as <-. cbn [t_addr t_map t_bo fst snd]. split; [done|].
  assert (Har : 0 <= Z.lor lo (Z.shiftl hi 32) < 2 ^ 64) by (apply addr_range; eapply Forall_lookup_1; eauto).
  destruct (Hwf _ m b Em) as (Hm1 & Hm2 & Hg0 & Hg1). destruct (page_split _ m Har Hm1 Hm2) as [Eoff Hoff].
  unfold t_offset, t_start, t_end, t_offset. cbn [t_addr t_map t_bo fst snd]. set (off := _ - it_start m * AMDGPU_GPU_PAGE_SIZE) in *. set (size := (it_last m + 1 - it_start m) * AMDGPU_GPU_PAGE_SIZE) in *.
  assert (Hd64 : it_last m + 1 - it_start m < 2 ^ 64) by lia. split; [done|]. split; [apply u64_small; unfold is_u64; lia|]. split; [|lia].
  unfold buf_end. rewrite (u64_small (it_last m + 1 - it_start m)) by (unfold is_u64; lia). fold size. rewrite (u64_small size) by (unfold is_u64; lia). rewrite u64_small by (unfold is_u64; lia). lia.
Qed.

Lemma pass2_inv s s1 :
  maps_wf -> Forall is_u32 (ib s) -> Z.to_nat (data0 s) <> Z.to_nat (data1 s) -> Z.to_nat (idx s) <> Z.to_nat (data0 s) -> Z.to_nat (idx s) <> Z.to_nat (data1 s) ->
  pass2 s = Ok (0, s1) ->
  exists t, target_of (ib s) (idx s, data0 s, data1 s) = Some t /\ is_u32 (t_start t / 2 ^ 32) /\
    ib s1 = <[Z.to_nat (data1 s) := t_start t / 2 ^ 32]> (<[Z.to_nat (data0 s) := u32 (t_start t)]> (ib s)) /\
    idx s1 = idx s /\ data0 s1 = data0 s /\ data1 s1 = data1 s /\ buf_sizes s1 = sizes_after (buf_sizes s) t /\
    command_ok (ib s1) (buf_sizes s) (idx s, data0 s, data1 s) t.
Proof.
  intros Hwf Hu32 Hd01 Hi0 Hi1 H. unfold amdgpu_uvd_cs_pass2 in H. apply bind_Ok in H as (addr & s0 & Ha & H).
  apply data_addr_inv in Ha as (-> & lo & hi & Hd0 & Hd1 & Elo & Ehi & ->).
  destruct (amdgpu_cs_find_mapping bo_list (Z.lor lo (Z.shiftl hi 32))) as [[m b]|] eqn:Em; [|done]. cbv zeta in H.
  rewrite (bind_eval (gets id) _ s s s eq_refl) in H. cbn [id] in H.
  apply bind_Ok in H as (u0 & s2 & H0 & H). apply set_ib_inv in H0 as [Hr0 ->]. apply bind_Ok in H as (u1 & s3 & H1 & H). apply set_ib_inv in H1 as [Hr1 ->].
  apply bind_Ok in H as (w & s4 & Hw & H). apply get_ib_inv in Hw as (Hi & Hw & ->). cbn [ib set_ib idx has_msg_cmd buf_sizes data0 data1] in *.
  rewrite list_lookup_insert_ne, list_lookup_insert_ne in Hw by congruence. unfold length_dw in Hr0, Hr1. cbn [ib set_ib] in Hr1. rewrite length_insert in Hr1.
  set (t := Target (Z.shiftr w 1) (Z.lor lo (Z.shiftl hi 32)) m b).
  assert (Ht : target_of (ib s) (idx s, data0 s, data1 s) = Some t) by (unfold target_of; cbn [fst snd]; rewrite Hw, Elo, Ehi; cbn [mbind option_bind]; by rewrite Em).
  destruct (target_range _ _ _ Hwf Hu32 Ht) as (_ & Eoff & Est & Eend & Hg & Hse & He63). cbn [t t_map t_bo t_addr] in Eoff, Est, Eend.
  rewrite Eoff, Eend, Est in H. exists t. split; [done|].
  assert (Hw32 : is_u32 w) by (eapply Forall_lookup_1; [exact Hu32|exact Hw]).
  assert (Hcmd : 0 <= t_cmd t) by (apply Z.shiftr_nonneg; unfold is_u32 in Hw32; lia).
  rewrite (u64_small (t_end t - t_start t)) in H by (unfold is_u64; lia). change (Z.shiftr w 1) with (t_cmd t) in H. rewrite (Z.shiftr_div_pow2 (t_start t)) in H by lia.
  change b with (t_bo t) in H. clearbody t.
  destruct (Z.eqb_spec (size_check (t_cmd t) (t_end t - t_start t) (buf_sizes s)) 0) as [Hsz|]; cbn [negb] in H; [|injection H as H _; congruence].
  destruct (Z.eqb_spec (segment_check address_64_bit uvd_gpu_addr (t_cmd t) (t_start t) (t_end t)) 0) as [Hsg|]; cbn [negb] in H; [|injection H as H _; congruence].
  set (l' := <[Z.to_nat (data1 s) := t_start t / 2 ^ 32]> (<[Z.to_nat (data0 s) := u32 (t_start t)]> (ib s))) in *.
  assert (Hok : (t_cmd t = 0 -> message_ok t) -> command_ok l' (buf_sizes s) (idx s, data0 s, data1 s) t).
  { intros Hmsg. unfold command_ok. cbn [fst snd]. subst l'. split; [rewrite list_lookup_insert_ne by congruence; apply list_lookup_insert_eq; lia|].
    split; [apply list_lookup_insert_eq; rewrite length_insert; lia|]. split; [apply size_check_ok in Hsz; [unfold known_command in *; tauto|done]|]. split; [lia|].
    split; [|split; [done|apply segment_check_ok; [lia|lia|done]]].
    apply size_check_ok in Hsz as [[_ Hn]|Hc]; [lia| |done]. assert (needed (t_cmd t) (buf_sizes s) = 0) as -> by (unfold needed; by destruct Hc as [->| ->]). lia. }
  split; [unfold is_u32; change (2 ^ 32) with 4294967296 in *; change (2 ^ 63) with 9223372036854775808 in *; Z.div_mod_to_equations; lia|].
  unfold sizes_after. destruct (Z.eqb_spec (t_cmd t) 0) as [E0|E0].
  - rewrite (bind_eval (modify set_msg) _ _ tt _ eq_refl) in H. apply msg_frame in H as ((E1 & E2 & E3 & E4) & Hs1 & Hmok). cbn [ib idx data0 data1 set_msg set_ib buf_sizes] in *. rewrite E1. repeat split; try done; by apply Hok.
  - injection H as _ <-. repeat split; try done; by apply Hok.
Qed.

(** *** The first walk changes nothing *)
Lemma pass1_frame s r s1 : pass1 s = Ok (r, s1) -> s1 = s.
Proof.
  unfold amdgpu_uvd_cs_pass1. intros H. apply bind_Ok in H as (a & s0 & Ha & H). apply data_addr_inv in Ha as [-> _].
  destruct (amdgpu_cs_find_mapping bo_list a) as [[m b]|]; by injection H as _ <-.
Qed.
Lemma first_walk stream ws s s' :
  ib s = stream -> the_writes stream = Some ws -> buf_sizes s = initial_sizes -> amdgpu_uvd_cs_packets pass1 s = Ok (0, s') ->
  ib s' = stream /\ buf_sizes s' = initial_sizes.
Proof.
  intros Es Hw Hl. apply (packets_rule pass1 stream (fun _ s => ib s = stream /\ buf_sizes s = initial_sizes)) with (ws := ws); try done.
  intros ws' s0 i s1 _ Hi Hu HP H. apply pass1_frame in H as ->. done.
Qed.

(** *** The second walk *)

Section second.
Context (stream : list Z) (ws : list (Z * Z)) (Hmaps : maps_wf) (Hown : own_addresses ws).
Local Notation cs := (commands ws 0 0).

(** The commands so far are checked, and only their words have changed; [x0] and
    [x1] are the address words of the next one, if they have been seen. *)
Definition walk_inv (rest : list (Z * Z)) (s : uvd_ctx) : Prop :=
  length (ib s) = length stream /\ Forall is_u32 (ib s) /\
  exists done x0 x1, cs = done ++ commands rest x0 x1 /\ (x0 = 0 \/ x0 = data0 s) /\ (x1 = 0 \/ x1 = data1 s) /\
    (forall j, j ∉ (Z.to_nat <$> (done ≫= command_words)) -> ib s !! j = stream !! j) /\
    buf_sizes s = sizes_at stream initial_sizes done /\ checked stream (ib s) initial_sizes done.

Lemma own_command done c rest :
  cs = done ++ c :: rest ->
  (1 <= c.1.2 < c.1.1 /\ 1 <= c.2 < c.1.1) /\ c.1.2 <> c.2 /\
  forall c' j, c' ∈ done -> j ∈ command_words c' -> 0 <= j /\ j ∉ command_words c.
Proof.
  intros E. destruct Hown as [Hf Hn]. rewrite E in Hf, Hn. apply Forall_app in Hf as [Hfd Hf]. apply Forall_cons in Hf as [Hc _].
  rewrite bind_app, bind_cons in Hn. apply NoDup_app in Hn as (_ & Hdisj & Hn). apply NoDup_app in Hn as (Hn & _ & _). split; [done|].
  unfold command_words in Hn. split; [intros Ec; rewrite Ec in Hn; by apply NoDup_cons in Hn as [_ Hn]; apply NoDup_cons in Hn as [Hn _]; set_solver|].
  intros c' j Hc' Hj. assert (Hin : j ∈ done ≫= command_words) by (apply list_elem_of_bind; eauto).
  specialize (Hdisj j Hin). split; [|set_solver].
  apply (proj1 (Forall_forall _ _) Hfd) in Hc'. unfold command_words in Hj. set_solver by lia.
Qed.

Lemma walk_cmd rest s i s1 :
  0 <= i -> idx s = i -> untouched stream i s -> walk_inv ((mmUVD_GPCOM_VCPU_CMD, i) :: rest) s -> pass2 s = Ok (0, s1) ->
  walk_inv rest s1 /\ idx s1 = i /\ untouched stream i s1.
Proof.
  intros Hi Ei Hu (Hlen & H32 & dn & x0 & x1 & Ecs & Hx0 & Hx1 & Hsame & Hsz & Hok) Hp. cbn [commands] in Ecs.
  change (mmUVD_GPCOM_VCPU_CMD =? mmUVD_GPCOM_VCPU_DATA0) with false in Ecs. change (mmUVD_GPCOM_VCPU_CMD =? mmUVD_GPCOM_VCPU_DATA1) with false in Ecs.
  change (mmUVD_GPCOM_VCPU_CMD =? mmUVD_GPCOM_VCPU_CMD) with true in Ecs. cbv iota in Ecs.
  destruct (own_command dn (i, x0, x1) (commands rest x0 x1) Ecs) as ((Hr0 & Hr1) & Hne & Hold). cbn [fst snd] in *.
  destruct Hx0 as [?|Hx0]; [lia|]. destruct Hx1 as [?|Hx1]; [lia|].
  destruct (pass2_inv s s1 Hmaps H32) as (t & Ht & Hhi & Eib & Eidx & Ed0 & Ed1 & Es1 & Hbo); [lia|lia|lia|done|].
  rewrite <- Hx0, <- Hx1, Ei in *.
  assert (Hst : target_of stream (i, x0, x1) = Some t).
  { rewrite <- Ht. apply target_ext. intros j Hj. symmetry. apply Hsame. intros (y & Ey & Hy)%list_elem_of_fmap. apply list_elem_of_bind in Hy as (c' & Hyc & Hc').
    destruct (Hold c' y Hc' Hyc) as [Hy0 Hyn]. apply Hyn. assert (0 <= j) by (unfold command_words in Hj; cbn [fst snd] in Hj; set_solver by lia). by replace y with j by lia. }
  split; [|split; [done|]].
  - split; [rewrite Eib, !length_insert; done|]. split; [rewrite Eib; apply Forall_insert; [apply Forall_insert; [done|apply u32_range]|done]|].
    exists (dn ++ [(i, x0, x1)]), x0, x1. split; [by rewrite <- app_assoc|]. split; [right; congruence|]. split; [right; congruence|]. split; [|split].
    + intros j Hj. rewrite bind_app, fmap_app in Hj. apply not_elem_of_app in Hj as [Hj1 Hj2]. cbn in Hj2. rewrite Eib.
      rewrite !list_lookup_insert_ne by set_solver. by apply Hsame.
    + by rewrite Es1, Hsz, (sizes_snoc _ _ _ _ t).
    + apply (checked_snoc _ _ _ _ t); [|done|by rewrite <- Hsz]. apply (checked_ext _ (ib s)); [|done]. intros c' j Hc' Hj. destruct (Hold c' j Hc' Hj) as [Hj0 Hjn].
      unfold command_words in Hjn. cbn [fst snd] in Hjn. rewrite Eib, !list_lookup_insert_ne by set_solver by lia. done.
  - destruct Hu as [_ Hu]. split; [by rewrite Eib, !length_insert|]. intros j Hj. rewrite Eib, !list_lookup_insert_ne by lia. by apply Hu.
Qed.

Lemma second_walk s s' :
  ib s = stream -> Forall is_u32 stream -> the_writes stream = Some ws -> buf_sizes s = initial_sizes ->
  amdgpu_uvd_cs_packets pass2 s = Ok (0, s') -> walk_inv [] s'.
Proof.
  intros Es H32 Hw Hl. apply (packets_rule pass2 stream walk_inv) with (ws := ws); try done.
  - intros rest s0 i Hi Ei (H1 & H2 & dn & x0 & x1 & E & Hx0 & Hx1 & Hok). split; [done|]. split; [done|]. exists dn, i, x1. by split; [|split; [right|]].
  - intros rest s0 i Hi Ei (H1 & H2 & dn & x0 & x1 & E & Hx0 & Hx1 & Hok). split; [done|]. split; [done|]. exists dn, x0, i. by split; [|split; [|split; [right|]]].
  - intros rest s0 r i Hn0 Hn1 Hnc (H1 & H2 & dn & x0 & x1 & E & Hx). split; [done|]. split; [done|]. exists dn, x0, x1.
    split; [|done]. rewrite E. cbn [commands]. by rewrite (proj2 (Z.eqb_neq _ _) Hn0), (proj2 (Z.eqb_neq _ _) Hn1), (proj2 (Z.eqb_neq _ _) Hnc).
  - apply walk_cmd.
  - unfold walk_inv. rewrite Es. split; [done|]. split; [done|]. exists [], 0, 0. split; [done|]. split; [by left|]. split; [by left|]. split; [done|]. by split.
Qed.
End second.
End accepted.

(** *** The engine sees the same commands *)

Lemma reg_writes_indices r i n j : j ∈ (reg_writes r i n).*2 -> i <= j < i + Z.of_nat n.
Proof.
  revert r i. induction n as [|n IH]; intros r i; cbn [reg_writes fmap list_fmap]; [intros H; by apply not_elem_of_nil in H|].
  intros H. apply elem_of_cons in H as [->|H]; [cbn; lia|]. apply IH in H. lia.
Qed.
Lemma stream_writes_ext fuel l l' i ws :
  0 <= i -> length l' = length l -> stream_writes fuel l i = Some ws ->
  (forall j, i <= j -> j ∉ ws.*2 -> l' !! Z.to_nat j = l !! Z.to_nat j) -> stream_writes fuel l' i = Some ws /\ (forall j, j ∈ ws.*2 -> i < j).
Proof.
  intros Hi Hl. revert i ws Hi. induction fuel as [|fuel IH]; intros i ws Hi; cbn [stream_writes]; [done|]. rewrite Hl.
  destruct (Z.leb_spec (Z.of_nat (length l)) i) as [|Hlt]; [intros Hw _; apply (inj Some) in Hw as <-; split; [done|]; intros j Hj; by apply not_elem_of_nil in Hj|].
  destruct (l !! Z.to_nat i) as [h|] eqn:Eh; [|done]. cbn [mbind option_bind].
  assert (Hc : 0 <= CP_PACKET_GET_COUNT h) by (apply Z.land_nonneg; right; lia). intros H Hsame.
  assert (Hrec : forall i' rest, i < i' -> stream_writes fuel l i' = Some rest -> (forall j, i' <= j -> j ∈ ws.*2 -> j ∈ rest.*2) -> stream_writes fuel l' i' = Some rest /\ forall j, j ∈ rest.*2 -> i' < j).
  { intros i' rest Hi' Er Hsub. apply (IH i' rest ltac:(lia) Er). intros j Hj Hn. apply Hsame; [lia|]. intros Hin. by apply Hn, Hsub. }
  assert (Hout : (forall j, j ∈ ws.*2 -> i < j) -> l' !! Z.to_nat i = Some h) by (intros Hgt; rewrite Hsame; [done|lia|]; intros Hin; apply Hgt in Hin; lia).
  destruct (CP_PACKET_GET_TYPE h =? 0) eqn:Et.
  - destruct (Z.ltb_spec (Z.of_nat (length l)) (i + 1 + (CP_PACKET_GET_COUNT h + 1))) as [|Hfit]; [done|].
    destruct (stream_writes fuel l (i + 1 + (CP_PACKET_GET_COUNT h + 1))) as [rest|] eqn:Er; [|done]. cbn [mbind option_bind] in H. apply (inj Some) in H.
    destruct (Hrec (i + 1 + (CP_PACKET_GET_COUNT h + 1)) rest ltac:(lia) Er) as [E' Hgt].
    { intros j Hj Hin. rewrite <- H, fmap_app in Hin. apply elem_of_app in Hin as [Hin|]; [|done]. apply reg_writes_indices in Hin. lia. }
    assert (Hgt' : forall j, j ∈ ws.*2 -> i < j).
    { intros j Hin. rewrite <- H, fmap_app in Hin. apply elem_of_app in Hin as [Hin|Hin]; [apply reg_writes_indices in Hin; lia|apply Hgt in Hin; lia]. }
    rewrite (Hout Hgt'). cbn [mbind option_bind]. rewrite Et. destruct (Z.ltb_spec (Z.of_nat (length l)) (i + 1 + (CP_PACKET_GET_COUNT h + 1))); [lia|]. rewrite E'. cbn [mbind option_bind]. by rewrite H.
  - destruct (CP_PACKET_GET_TYPE h =? 2) eqn:E2; [|done]. destruct (Hrec (i + 1) ws ltac:(lia) H) as [E' Hgt]; [done|].
    assert (Hgt' : forall j, j ∈ ws.*2 -> i < j) by (intros j Hin; apply Hgt in Hin; lia). rewrite (Hout Hgt'). cbn [mbind option_bind]. by rewrite Et, E2.
Qed.

Lemma command_indices ws x0 x1 j : j ∈ commands ws x0 x1 ≫= command_words -> j ∈ ws.*2 \/ j = x0 \/ j = x1.
Proof.
  revert x0 x1. induction ws as [|[r i] ws IH]; intros x0 x1; cbn [commands]; [intros H; by apply not_elem_of_nil in H|]. rewrite fmap_cons. cbn [snd].
  destruct (r =? mmUVD_GPCOM_VCPU_DATA0); [intros H; apply IH in H; set_solver|]. destruct (r =? mmUVD_GPCOM_VCPU_DATA1); [intros H; apply IH in H; set_solver|].
  destruct (r =? mmUVD_GPCOM_VCPU_CMD); [|intros H; apply IH in H; set_solver]. rewrite bind_cons, elem_of_app. unfold command_words at 1. intros [H|H]; [set_solver|apply IH in H; set_solver].
Qed.


(** ** A stream *)

Definition PACKET0 (r : Z) : Z := r.
(** A decode message at page 16 of the address space, in an object at 1 MB, a
    picture buffer a page behind it, then padding. *)
Definition sample_stream : list Z :=
  [PACKET0 mmUVD_GPCOM_VCPU_DATA0; 0x10000; PACKET0 mmUVD_GPCOM_VCPU_DATA1; 0; PACKET0 mmUVD_GPCOM_VCPU_CMD; 0;
   PACKET0 mmUVD_GPCOM_VCPU_DATA0; 0x11000; PACKET0 mmUVD_GPCOM_VCPU_DATA1; 0; PACKET0 mmUVD_GPCOM_VCPU_CMD; 2] ++
  concat (replicate 2 [PACKET0 mmUVD_NO_OP; 0]).
Definition sample_list : option (list (option bo_list_entry)) := Some [None; Some (BoListEntry [Mapping 16 18] [] 5)].
(** The message: MPEG-2, 32 by 32 pixels, for session 7, with 6144 bytes of
    decoded pictures. *)
Definition sample_word (b o : Z) : Z :=
  if o =? 4 then 1 else if o =? 8 then 7 else if o =? 16 then 3 else if (o =? 24) || (o =? 28) then 32
  else if o =? 36 then 6144 else if o =? 112 then 32 else 0.
Lemma sample_maps_wf : maps_wf sample_list (fun _ => 0x100000).
Proof.
  intros addr m b. unfold amdgpu_cs_find_mapping, sample_list. cbn [find_entry valids invalids app bo]. unfold AMDGPU_GPU_PAGE_SIZE.
  rewrite filter_cons. destruct (decide (covers (addr / 4096) (Mapping 16 18) = true)) as [Hc|]; [|done]. intros [= <- <-]. unfold covers in Hc. cbn in *.
  rewrite !Z.gtb_ltb in Hc. destruct (Z.ltb_spec (addr / 4096) 16), (Z.ltb_spec 18 (addr / 4096)); try done; cbn; lia.
Qed.


(** ** What a message can do *)

(** The number of H.264 reference frames divides by the size of a frame in
    macroblocks, which is zero for a picture less than 16 pixels wide. *)
Lemma narrow_h264_traps use_ctx_buf msg : msg 4 = 0 -> 0 <= msg 6 < 16 -> codec_sizes use_ctx_buf msg = DecodeTrap.
Proof. intros E4 Hw. unfold codec_sizes. rewrite E4, (Z.div_small (msg 6) 16) by lia. reflexivity. Qed.

(** The sizes are 32-bit products: a picture of 65536 by 65536 needs no room. *)
Lemma huge_picture_needs_nothing :
  codec_sizes false (fun i => if i =? 4 then 3 else if (i =? 6) || (i =? 7) then 65536 else 0) = Decoded (DecodeSizes 0 0 0xffffffff).
Proof. reflexivity. Qed.

(** A create message stops at the first free slot: a session that is open in a
    later slot is opened again. *)
Lemma session_opened_twice h : 0 < h -> find_slot h [0; h] 0 = FreeSlot 0.
Proof. intros Hh. unfold find_slot. by rewrite (proj2 (Z.eqb_neq 0 h)) by lia. Qed.

(** A destroy message ends the session of any file. *)
Lemma foreign_session_destroyed use_ctx_buf s :
  handles s = [7] -> filps s = [2] ->
  exists s', amdgpu_uvd_cs_msg (fun _ => 0) (fun _ o => if o =? 4 then 2 else if o =? 8 then 7 else 0) use_ctx_buf 1 5 0 s = Ok (0, s') /\ handles s' = [0].
Proof.
  intros Eh Ef. exists (set_sessions [0] (filps s) s). split; [|done]. destruct s. cbn in Eh. by subst.
Qed.

(** ** The decoder's parser returns on every stream

    Whatever the words of a stream, the parser reads and writes inside it, and
    ends: the only way out is the division of a decode message.  [attempts] is
    [returns] up to that case: [T] says that there is such a message. *)

Definition attempts {S A} (T : Prop) (m : M S A) (s : S) (Q : A -> S -> Prop) : Prop := returns m s Q \/ m s = Fault /\ T.
Section attempts_rules.
Context {S : Type} (T : Prop).
Implicit Types s : S.
Lemma attempts_returns {A} (m : M S A) s Q : returns m s Q -> attempts T m s Q.
Proof. by left. Qed.
Lemma attempts_ret {A} (a : A) s (Q : A -> S -> Prop) : Q a s -> attempts T (mret a) s Q.
Proof. intros H. left. by apply returns_ret. Qed.
Lemma attempts_bind {A B} (m : M S A) (k : A -> M S B) s R (Q : B -> S -> Prop) :
  attempts T m s R -> (forall a s', R a s' -> attempts T (k a) s' Q) -> attempts T (mbind k m) s Q.
Proof.
  intros [(a & s' & E & HR)|[E HT]] H; [|right; split; [by unfold mbind, M_bind; rewrite E|done]].
  unfold attempts, returns. rewrite (bind_eval m k s a s' E). by apply H.
Qed.
Lemma attempts_gets {A B} (f : S -> A) (k : A -> M S B) s (Q : B -> S -> Prop) : attempts T (k (f s)) s Q -> attempts T (mbind k (gets f)) s Q.
Proof. done. Qed.
Lemma attempts_modify {B} (f : S -> S) (k : unit -> M S B) s (Q : B -> S -> Prop) : attempts T (k tt) (f s) Q -> attempts T (mbind k (modify f)) s Q.
Proof. done. Qed.
Lemma attempts_weaken {A} (m : M S A) s (Q Q' : A -> S -> Prop) : attempts T m s Q -> (forall a s', Q a s' -> Q' a s') -> attempts T m s Q'.
Proof. intros [H|H] HQ; [left; by eapply returns_weaken|by right]. Qed.
Lemma attempts_implies {A} (U : Prop) (m : M S A) s Q : attempts U m s Q -> (U -> T) -> attempts T m s Q.
Proof. intros [H|[E H]] HU; [by left|right; auto]. Qed.
End attempts_rules.

(** The address words lie in the stream, and every session has a file. *)
Definition walk_ok (n : nat) (s : uvd_ctx) : Prop :=
  length (ib s) = n /\ 0 <= data0 s < Z.of_nat n /\ 0 <= data1 s < Z.of_nat n /\ length (filps s) = length (handles s).
(** What a callback guarantees. *)
Definition stays (n : nat) (i : Z) (r : Z) (s : uvd_ctx) : Prop := walk_ok n s /\ idx s = i.

Lemma get_ib_returns i s (Q : Z -> uvd_ctx -> Prop) :
  0 <= i < length_dw s -> (forall v, ib s !! Z.to_nat i = Some v -> Q v s) -> returns (amdgpu_get_ib_value i) s Q.
Proof.
  intros Hi H. apply returns_gets. destruct (Z.ltb_spec i 0); [lia|]. unfold id. destruct (lookup_lt_is_Some_2 (ib s) (Z.to_nat i)) as [v E]; [unfold length_dw in Hi; lia|].
  exists v, s. rewrite E. auto.
Qed.
Lemma set_ib_returns (T : Prop) {B} i v (k : unit -> UM B) s (Q : B -> uvd_ctx -> Prop) :
  0 <= i < length_dw s -> attempts T (k tt) (set_ib (<[Z.to_nat i := v]> (ib s)) s) Q -> attempts T (mbind k (amdgpu_set_ib_value i v)) s Q.
Proof.
  intros Hi H. apply (attempts_bind T _ _ _ (fun _ s' => s' = set_ib (<[Z.to_nat i := v]> (ib s)) s)); [|by intros [] ? ->].
  apply attempts_returns. exists tt, (set_ib (<[Z.to_nat i := v]> (ib s)) s). split; [|done]. unfold amdgpu_set_ib_value. rewrite (bind_eval (gets id) _ s s s eq_refl). unfold id.
  destruct (Z.ltb_spec i 0); [lia|]. destruct (Z.leb_spec (length_dw s) i); [lia|]. done.
Qed.
Lemma data_addr_returns n s : walk_ok n s -> returns data_addr s (fun _ s' => s' = s).
Proof.
  intros (Hl & H0 & H1 & _). apply returns_gets. unfold id.
  apply (returns_bind _ _ _ (fun _ s' => s' = s)); [apply get_ib_returns; [unfold length_dw; lia|done]|]. intros lo ? ->.
  apply (returns_bind _ _ _ (fun _ s' => s' = s)); [apply get_ib_returns; [unfold length_dw; lia|done]|]. intros hi ? ->. by apply returns_ret.
Qed.

Section callbacks.
Context (bo_list : option (list (option bo_list_entry))) (gpu_offset : Z -> Z) (validate kmap : Z -> Z) (bo_word : Z -> Z -> Z).
Context (address_64_bit use_ctx_buf : bool) (uvd_gpu_addr filp : Z) (n : nat).
(** An object of the submission holds, aligned as the parser wants it, the
    decode message of a session whose sizes divide by zero. *)
Definition trap_message : Prop :=
  exists addr m b, amdgpu_cs_find_mapping bo_list addr = Some (m, b) /\
    let o := u32 (buf_offset m addr) in
    Z.land o 0x3f = 0 /\ kmap b = 0 /\ bo_word b (o + 4 * 1) = 1 /\ bo_word b (o + 4 * 2) <> 0 /\
    codec_sizes use_ctx_buf (fun i => bo_word b (o + 4 * i)) = DecodeTrap.
Notation T := trap_message.

Lemma pass1_returns s : walk_ok n s -> attempts T (amdgpu_uvd_cs_pass1 bo_list validate address_64_bit) s (stays n (idx s)).
Proof.
  intros H. eapply attempts_bind; [by apply attempts_returns, (data_addr_returns n)|]. intros addr ? ->. destruct (amdgpu_cs_find_mapping bo_list addr) as [[m b]|]; by apply attempts_ret.
Qed.

Lemma decode_returns msg s :
  walk_ok n s -> attempts (codec_sizes use_ctx_buf msg = DecodeTrap) (amdgpu_uvd_cs_msg_decode use_ctx_buf msg) s
    (fun _ s' => stays n (idx s) 0 s' /\ handles s' = handles s /\ filps s' = filps s).
Proof.
  intros H. unfold amdgpu_uvd_cs_msg_decode. destruct (codec_sizes use_ctx_buf msg) as [| |d] eqn:Ed; [by right|by apply attempts_ret|].
  destruct (msg 6 >? msg 28); [by apply attempts_ret|]. destruct (msg 9 <? min_dpb_size d); [by apply attempts_ret|]. apply attempts_modify. by apply attempts_ret.
Qed.

Lemma msg_returns m b addr s :
  amdgpu_cs_find_mapping bo_list addr = Some (m, b) -> walk_ok n s ->
  attempts T (amdgpu_uvd_cs_msg kmap bo_word use_ctx_buf filp b (buf_offset m addr)) s (stays n (idx s)).
Proof.
  intros Em H. unfold amdgpu_uvd_cs_msg. cbv zeta.
  destruct (Z.eqb_spec (Z.land (u32 (buf_offset m addr)) 0x3f) 0) as [Ea|]; [|by apply attempts_ret]. cbn [negb].
  destruct (Z.eqb_spec (kmap b) 0) as [Ek|]; [|by apply attempts_ret]. cbn [negb].
  destruct (Z.eqb_spec (bo_word b (u32 (buf_offset m addr) + 4 * 2)) 0) as [|Eh]; [by apply attempts_ret|]. apply attempts_gets. unfold id. destruct (_ =? 0).
  - destruct (find_slot _ _ _) as [|j|]; [by apply attempts_ret| |by apply attempts_ret]. apply attempts_modify. apply attempts_ret. split; [|done].
    destruct H as (Hl & H0 & H1 & Hf). split; [done|]. split; [done|]. split; [done|]. cbn. by rewrite !length_insert.
  - destruct (Z.eqb_spec (bo_word b (u32 (buf_offset m addr) + 4 * 1)) 1) as [E1|].
    + eapply attempts_bind; [eapply attempts_implies; [by apply decode_returns|by exists addr, m, b]|].
      intros r s' ([Hw Hi] & Eh' & Ef). destruct (negb _); [by apply attempts_ret|].
      destruct (list_find _ (handles s)) as [[j x]|] eqn:El; [|by apply attempts_ret]. apply list_find_Some in El as (El & _). apply lookup_lt_Some in El.
      destruct (lookup_lt_is_Some_2 (filps s) j) as [f E]; [destruct H as (_ & _ & _ & ->); done|]. rewrite E.
      by apply (attempts_bind _ _ _ _ (stays n (idx s))); [apply attempts_ret|intros ?? ?; apply attempts_ret].
    + destruct (_ =? 2); [|by apply attempts_ret]. apply attempts_modify. apply attempts_ret. destruct H as (Hl & H0 & H1 & Hf).
      split; [|done]. split; [done|]. split; [done|]. split; [done|]. cbn. by rewrite length_fmap.
Qed.

Lemma patch_ok i v s : walk_ok n s -> walk_ok n (set_ib (<[i := v]> (ib s)) s).
Proof. intros (Hl & H). split; [cbn; by rewrite length_insert|done]. Qed.

Lemma pass2_returns s :
  walk_ok n s -> 0 <= idx s < Z.of_nat n ->
  attempts T (amdgpu_uvd_cs_pass2 bo_list gpu_offset kmap bo_word address_64_bit use_ctx_buf uvd_gpu_addr filp) s (stays n (idx s)).
Proof.
  intros H Hi. eapply attempts_bind; [by apply attempts_returns, (data_addr_returns n)|]. intros addr ? ->. destruct (amdgpu_cs_find_mapping bo_list addr) as [[m b]|] eqn:Em; [|by apply attempts_ret].
  apply attempts_gets. cbv zeta. unfold id. pose proof H as (Hl & H0 & H1 & _).
  apply set_ib_returns; [unfold length_dw; lia|].
  pose proof (patch_ok (Z.to_nat (data0 s)) (u32 (u64 (gpu_offset b + buf_offset m addr))) s H) as Hp1. set (s1 := set_ib _ s) in *.
  apply set_ib_returns; [unfold length_dw; rewrite (proj1 Hp1); lia|].
  pose proof (patch_ok (Z.to_nat (data1 s)) (Z.shiftr (u64 (gpu_offset b + buf_offset m addr)) 32) s1 Hp1) as Hp2. set (s2 := set_ib _ s1) in *.
  eapply (attempts_bind _ _ _ _ (fun _ s' => s' = s2)); [apply attempts_returns, get_ib_returns; [unfold length_dw; rewrite (proj1 Hp2); lia|done]|]. intros w ? ->.
  destruct (negb _); [by apply attempts_ret|]. destruct (negb _); [by apply attempts_ret|]. destruct (_ =? 0); [|by apply attempts_ret].
  apply attempts_modify. by apply (msg_returns m b addr (set_msg s2)).
Qed.
End callbacks.

(** ** The walk *)

Section walk.
Context (T : Prop) (cb : UM Z) (n : nat) (Hcb : forall s, walk_ok n s -> 0 <= idx s < Z.of_nat n -> attempts T cb s (stays n (idx s))).

Lemma switch_returns r s : walk_ok n s -> 0 <= idx s < Z.of_nat n -> attempts T (cs_reg_switch cb r) s (stays n (idx s)).
Proof.
  intros H Hi. pose proof H as (Hl & H0 & H1 & Hf). unfold cs_reg_switch.
  destruct (r =? mmUVD_GPCOM_VCPU_DATA0); [apply attempts_modify; apply attempts_ret; split; [split; [done|split; [done|split; done]]|done]|].
  destruct (r =? mmUVD_GPCOM_VCPU_DATA1); [apply attempts_modify; apply attempts_ret; split; [split; [done|split; [done|split; done]]|done]|].
  destruct (r =? mmUVD_GPCOM_VCPU_CMD); [by apply Hcb|]. destruct (_ || _); by apply attempts_ret.
Qed.

Lemma reg_loop_returns k r s : walk_ok n s -> 0 <= idx s -> attempts T (cs_reg_loop cb r k) s (fun _ s' => walk_ok n s' /\ idx s <= idx s').
Proof.
  revert r s. induction k as [|k IH]; intros r s H Hi; cbn [cs_reg_loop]; [by apply attempts_ret|]. apply attempts_gets. unfold id, length_dw. rewrite (proj1 H).
  destruct (Z.leb_spec (Z.of_nat n) (idx s)); [by apply attempts_ret|]. eapply attempts_bind; [by apply switch_returns|]. intros e s1 [H1 E1].
  destruct (negb _); [apply attempts_ret; split; [done|lia]|]. apply attempts_modify. eapply attempts_weaken; [apply IH; [done|cbn; lia]|]. cbn. intros _ s2 [H2 Hle]. split; [done|lia].
Qed.

(** The walk has a turn for every word that is left, and one more. *)
Lemma packets_loop_returns fuel s :
  walk_ok n s -> 0 <= idx s -> (0 < fuel)%nat -> Z.of_nat n < Z.of_nat fuel + idx s -> attempts T (cs_packets_loop cb fuel) s (fun _ => walk_ok n).
Proof.
  revert s. induction fuel as [|fuel IH]; intros s H Hi Hp Hf; [lia|]. cbn [cs_packets_loop]. apply attempts_gets. unfold id, length_dw. rewrite (proj1 H).
  destruct (Z.leb_spec (Z.of_nat n) (idx s)); [by apply attempts_ret|].
  eapply (attempts_bind _ _ _ _ (fun _ s' => s' = s)); [apply attempts_returns, get_ib_returns; [unfold length_dw; rewrite (proj1 H); lia|done]|]. intros w ? ->. cbv zeta.
  destruct (_ =? 0).
  - apply attempts_modify. eapply (attempts_bind _ _ _ _ (fun _ s' => walk_ok n s' /\ idx s + 1 <= idx s')).
    + apply attempts_modify, attempts_gets. by apply (reg_loop_returns _ _ (set_idx (idx s + 1) (set_packet _ _ s))); [|cbn; lia].
    + intros r s1 [H1 Hi1]. destruct (negb _); [by apply attempts_ret|]. apply IH; [done|lia..].
  - destruct (_ =? 2); [|by apply attempts_ret]. apply attempts_modify. apply IH; [done|cbn; lia..].
Qed.

Lemma packets_returns s : walk_ok n s -> attempts T (amdgpu_uvd_cs_packets cb) s (fun _ => walk_ok n).
Proof. intros H. apply attempts_modify, attempts_gets. unfold id. cbn [set_idx ib]. rewrite (proj1 H). apply packets_loop_returns; [done|cbn; lia..]. Qed.
End walk.

(** C22: the decoder's parser ends on every command stream that user space submits, of any length and content and over any memory: it walks the stream in both passes without reading or writing outside of it, without following a session slot that does not exist and without running out of turns, and returns a result code with a stream of the same length.  The only other outcome is the division by zero of a decode message: then an object of the submission holds, at an offset aligned to 64 bytes, a message of type decode with a session handle whose codec sizes divide by zero.  The hypothesis says that the session table has a file for every handle, as it is declared. *)
Theorem uvd_parser_returns bo_list gpu_offset validate kmap bo_word (address_64_bit use_ctx_buf : bool) uvd_gpu_addr filp access stream h f :
  length f = length h ->
  let run := amdgpu_uvd_ring_parse_cs bo_list gpu_offset validate kmap bo_word address_64_bit use_ctx_buf uvd_gpu_addr filp access stream h f in
  (exists r s, run = Ok (r, s) /\ length (ib s) = length stream) \/
  run = Fault /\ trap_message bo_list kmap bo_word use_ctx_buf.
Proof.
  intros Hf. unfold amdgpu_uvd_ring_parse_cs. set (s0 := UvdCtx stream 0 0 0 0 0 false initial_sizes h f).
  apply (attempts_gets (S := uvd_ctx) _ id _ s0 (fun _ s => length (ib s) = length stream)). unfold id.
  destruct (negb (length_dw s0 mod 16 =? 0)); [by apply attempts_ret|]. destruct (negb (access =? 0)); [by apply attempts_ret|].
  destruct stream as [|w l]; [left; by eexists _, _|]. assert (H0 : walk_ok (length (w :: l)) s0) by (split; [done|]; split; [cbn; lia|split; [cbn; lia|done]]).
  eapply attempts_bind; [apply packets_returns; [|exact H0]; intros; by apply pass1_returns|]. intros r s1 H1. destruct (negb _); [by apply attempts_ret; apply H1|].
  eapply attempts_bind; [apply packets_returns; [|exact H1]; intros; by apply pass2_returns|]. intros r2 s2 H2. destruct (negb _); [by apply attempts_ret; apply H2|].
  apply attempts_gets. apply attempts_ret. apply H2.
Qed.

(** The objects of the sample hold no such message, so the parser returns. *)
Lemma uvd_parser_returns_witness :
  exists r s, amdgpu_uvd_ring_parse_cs sample_list (fun _ => 0x100000) (fun _ => 0) (fun _ => 0) sample_word false false 0 1 0 sample_stream [7; 0] [1; 0] = Ok (r, s) /\
    length (ib s) = 16%nat.
Proof.
  destruct (uvd_parser_returns sample_list (fun _ => 0x100000) (fun _ => 0) (fun _ => 0) sample_word false false 0 1 0 sample_stream [7; 0] [1; 0] eq_refl) as [H|[_ H]]; [exact H|].
  destruct H as (addr & m & b & _ & Ha & _ & E1 & _ & E). revert Ha E1 E. generalize (u32 (buf_offset m addr)). intros o Ha E1 E.
  assert (o = 0) as ->; [|vm_compute in E; discriminate].
  unfold sample_word in E1. destruct (Z.eqb_spec (o + 4 * 1) 4); [lia|].
  destruct (_ =? 8); [discriminate|]. destruct (_ =? 16); [discriminate|]. destruct (_ || _); [discriminate|]. destruct (_ =? 36); [discriminate|]. destruct (_ =? 112); discriminate.
Defined.
