(* ===== verification/Vce.v ===== *)
(** * The encoder's command-stream parser ([amdgpu/amdgpu_vce.c])

    A stream is a sequence of commands, each with its length in bytes, an
    operation code and operands.  The parser follows sessions in a table of
    sixteen slots, checks that sessions are created before they are kept, and
    replaces the virtual addresses of buffers by physical ones.  A reading
    outside the stream is a fault, as is a shift by a negative count. *)

From stdpp Require Import base numbers list.
From S2P Require Import Prelude CMonad Uvd.

Definition AMDGPU_MAX_VCE_HANDLES : nat := 16.
Definition CHIP_KAVERI : Z := 6.
Definition CHIP_MULLINS : Z := 9.
Definition CHIP_CARRIZO : Z := 13.

(** The session table of [struct amdgpu_vce]. *)
Record amdgpu_vce := Vce { vce_handles : list Z; vce_filp : list Z; vce_img_size : list Z }.
(** The variables of the parser: [size] points to [tmp] or to the image size of
    a session. *)
Inductive size_ptr := SizeTmp | SizeOf (session : nat).
Record vce_ctx := VceCtx {
  stream : list Z; table : amdgpu_vce; fb_idx : Z; bs_idx : Z; session_idx : Z;
  destroyed : Z; created : Z; allocated : Z; tmp : Z; size : size_ptr; pos : Z }.
Notation EM := (M vce_ctx).

Definition set_stream (l : list Z) (s : vce_ctx) := VceCtx l (table s) (fb_idx s) (bs_idx s) (session_idx s) (destroyed s) (created s) (allocated s) (tmp s) (size s) (pos s).
Definition set_table (t : amdgpu_vce) (s : vce_ctx) := VceCtx (stream s) t (fb_idx s) (bs_idx s) (session_idx s) (destroyed s) (created s) (allocated s) (tmp s) (size s) (pos s).
Definition set_task (f b : Z) (s : vce_ctx) := VceCtx (stream s) (table s) f b (session_idx s) (destroyed s) (created s) (allocated s) (tmp s) (size s) (pos s).
Definition set_session (i : Z) (s : vce_ctx) := VceCtx (stream s) (table s) (fb_idx s) (bs_idx s) i (destroyed s) (created s) (allocated s) (tmp s) (size s) (pos s).
Definition set_destroyed (d : Z) (s : vce_ctx) := VceCtx (stream s) (table s) (fb_idx s) (bs_idx s) (session_idx s) d (created s) (allocated s) (tmp s) (size s) (pos s).
Definition set_created (c : Z) (s : vce_ctx) := VceCtx (stream s) (table s) (fb_idx s) (bs_idx s) (session_idx s) (destroyed s) c (allocated s) (tmp s) (size s) (pos s).
Definition set_allocated (a : Z) (s : vce_ctx) := VceCtx (stream s) (table s) (fb_idx s) (bs_idx s) (session_idx s) (destroyed s) (created s) a (tmp s) (size s) (pos s).
Definition set_tmp (t : Z) (s : vce_ctx) := VceCtx (stream s) (table s) (fb_idx s) (bs_idx s) (session_idx s) (destroyed s) (created s) (allocated s) t (size s) (pos s).
Definition set_size (p : size_ptr) (s : vce_ctx) := VceCtx (stream s) (table s) (fb_idx s) (bs_idx s) (session_idx s) (destroyed s) (created s) (allocated s) (tmp s) p (pos s).
Definition set_pos (i : Z) (s : vce_ctx) := VceCtx (stream s) (table s) (fb_idx s) (bs_idx s) (session_idx s) (destroyed s) (created s) (allocated s) (tmp s) (size s) i.

Definition ib_words (s : vce_ctx) : Z := Z.of_nat (length (stream s)).
Definition ib_value (i : Z) : EM Z := s ← gets id; if i <? 0 then fault else deref (stream s !! Z.to_nat i).
Definition ib_store (i v : Z) : EM unit :=
  s ← gets id; if (i <? 0) || (ib_words s <=? i) then fault else modify (set_stream (<[Z.to_nat i := v]> (stream s))).

(** [*size]. *)
Definition size_value : EM Z :=
  s ← gets id; match size s with SizeTmp => mret (tmp s) | SizeOf i => deref (vce_img_size (table s) !! i) end.
Definition size_store (v : Z) : EM unit :=
  s ← gets id;
  match size s with
  | SizeTmp => modify (set_tmp v)
  | SizeOf i =>
      if Nat.ltb i (length (vce_img_size (table s)))
      then modify (set_table (Vce (vce_handles (table s)) (vce_filp (table s)) (<[i := v]> (vce_img_size (table s)))))
      else fault
  end.
(** [1 << session_idx]. *)
Definition session_bit (i : Z) : EM Z := if (i <? 0) || (32 <=? i) then fault else mret (u32 (Z.shiftl 1 i)).

Section vce.
(** The buffer list, where its objects are, the file, and the device. *)
Context (bo_list : option (list (option bo_list_entry))) (gpu_offset : Z -> Z) (filp : Z) (config_cik : bool) (asic_type : Z).

Definition amdgpu_vce_cs_reloc (lo hi sz index : Z) : EM Z :=
  let index := if index =? 0xffffffff then 0 else index in
  l ← ib_value lo;
  h ← ib_value hi;
  let addr := Z.lor l (Z.shiftl h 32) in
  let addr := u64 (addr + u64 (sz * index)) in
  match amdgpu_cs_find_mapping bo_list addr with
  | None => mret (- EINVAL)
  | Some (m, b) =>
      if u64 (addr + sz) >? u64 (u64 (it_last m + 1) * AMDGPU_GPU_PAGE_SIZE) then mret (- EINVAL)
      else
        let addr := u64 (addr - u64 (it_start m * AMDGPU_GPU_PAGE_SIZE)) in
        let addr := u64 (addr + gpu_offset b) in
        let addr := u64 (addr - u64 (sz * index)) in
        ib_store lo (u32 addr);;
        ib_store hi (Z.shiftr addr 32);;
        mret 0
  end.

(** The slot of a session, an empty slot taken for it, or the error. *)
Definition amdgpu_vce_validate_handle (handle : Z) : EM Z :=
  s ← gets id;
  let t := table s in
  match list_find (fun h => h = handle) (vce_handles t) with
  | Some (i, _) => f ← deref (vce_filp t !! i); mret (if negb (f =? filp) then - EINVAL else Z.of_nat i)
  | None =>
      match list_find (fun h => h = 0) (vce_handles t) with
      | Some (i, _) =>
          modify (set_table (Vce (<[i := handle]> (vce_handles t)) (<[i := filp]> (vce_filp t)) (<[i := 0]> (vce_img_size t))));;
          modify (fun s => set_allocated (Z.lor (allocated s) (u32 (Z.shiftl 1 (Z.of_nat i)))) s);;
          mret (Z.of_nat i)
      | None => mret (- EINVAL)
      end
  end.

Definition cmd_session (idx : Z) : EM Z :=
  handle ← ib_value (idx + 2);
  r ← amdgpu_vce_validate_handle handle;
  modify (set_session r);;
  if r <? 0 then mret r else modify (set_size (SizeOf (Z.to_nat r)));; mret 0.
Definition cmd_task_info (idx : Z) : EM Z :=
  f ← ib_value (idx + 6);
  b ← ib_value (idx + 7);
  modify (set_task f b);; mret 0.
Definition cmd_create (idx : Z) : EM Z :=
  s ← gets id;
  bit ← session_bit (session_idx s);
  modify (fun s => set_created (Z.lor (created s) bit) s);;
  if negb (Z.land (destroyed s) bit =? 0) || negb (Z.land (allocated s) bit =? 0) then
    (if negb (Z.land (destroyed s) bit =? 0) then
       modify (fun s => set_allocated (Z.lor (allocated s) bit) (set_destroyed (Z.land (destroyed s) (u32 (Z.lnot bit))) s))
     else mret tt);;
    w ← ib_value (idx + 8);
    h ← ib_value (idx + 10);
    size_store (u32 (u32 (u32 (w * h) * 8) * 3) / 2);;
    mret 0
  else mret (- EINVAL).
Definition cmd_hw_config : EM Z :=
  mret (if (config_cik && ((asic_type =? CHIP_KAVERI) || (asic_type =? CHIP_MULLINS))) || (asic_type =? CHIP_CARRIZO) then 0 else - EINVAL).
Definition cmd_encode (idx : Z) : EM Z :=
  sz ← size_value;
  r ← amdgpu_vce_cs_reloc (idx + 10) (idx + 9) sz 0;
  if negb (r =? 0) then mret r
  else
    sz ← size_value;
    amdgpu_vce_cs_reloc (idx + 12) (idx + 11) (sz / 3) 0.
Definition cmd_destroy : EM Z :=
  s ← gets id;
  bit ← session_bit (session_idx s);
  modify (set_destroyed (Z.lor (destroyed s) bit));; mret 0.
Definition cmd_context (idx : Z) : EM Z := sz ← size_value; amdgpu_vce_cs_reloc (idx + 3) (idx + 2) (u32 (sz * 2)) 0.
Definition cmd_bitstream (idx : Z) : EM Z :=
  t ← ib_value (idx + 4);
  modify (set_tmp t);;
  s ← gets id;
  amdgpu_vce_cs_reloc (idx + 3) (idx + 2) t (bs_idx s).
Definition cmd_feedback (idx : Z) : EM Z := s ← gets id; amdgpu_vce_cs_reloc (idx + 3) (idx + 2) 4096 (fb_idx s).

(** The operations that the parser passes on. *)
Definition passed_on (cmd : Z) : bool :=
  bool_decide (cmd ∈ [0x04000001; 0x04000002; 0x04000005; 0x04000007; 0x04000008; 0x04000009; 0x05000002; 0x05000009]).
(** The switch over the operations. *)
Definition vce_command (cmd idx : Z) : EM Z :=
  if cmd =? 1 then cmd_session idx
  else if cmd =? 2 then cmd_task_info idx
  else if cmd =? 0x01000001 then cmd_create idx
  else if passed_on cmd then mret 0
  else if cmd =? 0x0500000c then cmd_hw_config
  else if cmd =? 0x03000001 then cmd_encode idx
  else if cmd =? 0x02000001 then cmd_destroy
  else if cmd =? 0x05000001 then cmd_context idx
  else if cmd =? 0x05000004 then cmd_bitstream idx
  else if cmd =? 0x05000005 then cmd_feedback idx
  else mret (- EINVAL).

(** One turn of the loop. *)
Definition vce_turn : EM Z :=
  s ← gets id;
  let idx := pos s in
  len ← ib_value idx;
  cmd ← ib_value (idx + 1);
  if (len <? 8) || negb (Z.land len 3 =? 0) then mret (- EINVAL)
  else
    r ← vce_command cmd idx;
    if negb (r =? 0) then mret r
    else
      s ← gets id;
      if session_idx s =? -1 then mret (- EINVAL)
      else modify (set_pos (s32 (idx + len / 4)));; mret 0.
Fixpoint vce_loop (fuel : nat) : EM Z :=
  match fuel with
  | O => nofuel
  | S k =>
      s ← gets id;
      if u32 (pos s) <? ib_words s then
        r ← vce_turn;
        if negb (r =? 0) then mret r else vce_loop k
      else mret (if negb (Z.land (allocated s) (u32 (Z.lnot (created s))) =? 0) then - ENOENT else 0)
  end.

(** [out]: the slots of a mask become free. *)
Definition free_slots (mask : Z) (l : list Z) : list Z := imap (fun i h => if Z.testbit mask (Z.of_nat i) then 0 else h) l.
(** A turn consumes two words or more.  [tmp] is not initialised in C: [t0] is
    what it holds; [access] is the result of [amdgpu_cs_sysvm_access_required]. *)
Definition amdgpu_vce_ring_parse_cs (access t0 : Z) (l : list Z) (t : amdgpu_vce) : outcome (Z * vce_ctx) :=
  let s := VceCtx l t 0 0 (-1) 0 0 0 t0 SizeTmp 0 in
  (if negb (access =? 0) then mret access
   else
     r ← vce_loop (S (length l));
     modify (fun s => set_table (Vce (free_slots (if r =? 0 then destroyed s else allocated s) (vce_handles (table s))) (vce_filp (table s)) (vce_img_size (table s))) s);;
     mret r) s.

(** [amdgpu_vce_free_handles]: the table after a file is closed. *)
Definition amdgpu_vce_free_handles (t : amdgpu_vce) : amdgpu_vce :=
  let gone h f := negb (h =? 0) && (f =? filp) in
  Vce (zip_with (fun h f => if gone h f then 0 else h) (vce_handles t) (vce_filp t))
    (zip_with (fun h f => if gone h f then 0 else f) (vce_handles t) (vce_filp t)) (vce_img_size t).
End vce.
