(* ===== verification/VceSpec.v ===== *)
(** * The sessions of the encoder

    What the parser does to the table of sessions, on every stream: the slots of
    other files stay as they are, a stream that is refused leaves no session
    behind, and a handle has one slot. *)

From stdpp Require Import base numbers list.
From S2P Require Import Prelude CMonad Uvd Vce.

(** ** Masks *)

Lemma bit_spec i j : 0 <= i < 32 -> Z.testbit (u32 (Z.shiftl 1 i)) (Z.of_nat j) = bool_decide (Z.of_nat j = i).
Proof.
  intros Hi. unfold u32. change 4294967296 with (2 ^ 32). rewrite Z.shiftl_mul_pow2, Z.mul_1_l by lia. rewrite Z.mod_small by (split; [lia|apply Z.pow_lt_mono_r; lia]).
  rewrite Z.pow2_bits_eqb by lia. apply eq_true_iff_eq. rewrite bool_decide_eq_true, Z.eqb_eq. lia.
Qed.
Lemma lnot_bit m i : (i < 32)%nat -> Z.testbit (u32 (Z.lnot m)) (Z.of_nat i) = negb (Z.testbit m (Z.of_nat i)).
Proof. intros Hi. unfold u32. change 4294967296 with (2 ^ 32). rewrite Z.mod_pow2_bits_low by lia. apply Z.lnot_spec. lia. Qed.
Lemma mask_covered a c i : Z.land a (u32 (Z.lnot c)) = 0 -> (i < 32)%nat -> Z.testbit a (Z.of_nat i) = true -> Z.testbit c (Z.of_nat i) = true.
Proof.
  intros H Hi Ha. apply (f_equal (fun z => Z.testbit z (Z.of_nat i))) in H. rewrite Z.land_spec, lnot_bit, Ha, Z.bits_0 in H by done. by destruct (Z.testbit c (Z.of_nat i)).
Qed.

(** ** The invariant of a walk *)

(** A handle has one slot. *)
Definition unique_handles (t : amdgpu_vce) : Prop :=
  forall i j h, h <> 0 -> vce_handles t !! i = Some h -> vce_handles t !! j = Some h -> i = j.
Definition table_wf (t : amdgpu_vce) : Prop :=
  length (vce_handles t) = AMDGPU_MAX_VCE_HANDLES /\ length (vce_filp t) = AMDGPU_MAX_VCE_HANDLES /\ length (vce_img_size t) = AMDGPU_MAX_VCE_HANDLES /\ unique_handles t.

Section sessions.
Context (bo_list : option (list (option bo_list_entry))) (gpu_offset : Z -> Z) (filp : Z) (config_cik : bool) (asic_type : Z).
(** The table before the walk. *)
Context (t0 : amdgpu_vce).

(** A slot that the stream may use: free, or of the same file. *)
Definition mine (i : nat) : Prop := vce_handles t0 !! i = Some 0 \/ vce_filp t0 !! i = Some filp.
(** The slots a walk refers to. *)
Definition referred (s : vce_ctx) (i : nat) : Prop :=
  Z.testbit (allocated s) (Z.of_nat i) = true \/ Z.testbit (destroyed s) (Z.of_nat i) = true \/ size s = SizeOf i \/ session_idx s = Z.of_nat i.
Record walk_inv (s : vce_ctx) : Prop := WalkInv {
  inv_wf : table_wf (table s);
  inv_mine : forall i, referred s i -> mine i /\ vce_filp (table s) !! i = Some filp;
  inv_kept : forall i, Z.testbit (allocated s) (Z.of_nat i) = false ->
    vce_handles (table s) !! i = vce_handles t0 !! i /\ vce_filp (table s) !! i = vce_filp t0 !! i;
  inv_size : forall i, ~ mine i -> vce_img_size (table s) !! i = vce_img_size t0 !! i }.

(** What the invariant looks at. *)
Definition view (s : vce_ctx) := (table s, session_idx s, allocated s, destroyed s, size s).
Lemma inv_view s s' : view s' = view s -> walk_inv s -> walk_inv s'.
Proof.
  unfold view. intros [= Et Es Ea Ed Ez] [H1 H3 H4 H5]. constructor; rewrite ?Et; [done| |rewrite Ea; done|done].
  intros i. unfold referred. rewrite Ea, Ed, Ez, Es. apply H3.
Qed.

Local Notation keep m := (triple walk_inv m (fun _ => walk_inv)).
(** Every step that leaves the view alone keeps the invariant. *)
Definition quiet {A} (m : EM A) : Prop := forall s a s', m s = Ok (a, s') -> view s' = view s.
Lemma quiet_keep {A} (m : EM A) : quiet m -> keep m.
Proof. intros Hq s Hs. destruct (m s) as [[a s']| |] eqn:E; [|done|done]. eapply inv_view; [by eapply Hq|done]. Qed.
Lemma quiet_bind {A B} (m : EM A) (k : A -> EM B) : quiet m -> (forall a, quiet (k a)) -> quiet (mbind k m).
Proof. intros Hm Hk s b s' H. apply bind_Ok in H as (a & s1 & H1 & H2). rewrite (Hk a s1 b s' H2). by eapply Hm. Qed.
Lemma quiet_ret {A} (a : A) : quiet (mret a).
Proof. by intros s b s' [= <- <-]. Qed.
Lemma quiet_gets {A} (f : vce_ctx -> A) : quiet (gets f).
Proof. by intros s b s' [= <- <-]. Qed.
Lemma quiet_modify f : (forall s, view (f s) = view s) -> quiet (modify f).
Proof. intros H s b s' [= <- <-]. apply H. Qed.
Lemma quiet_value i : quiet (ib_value i).
Proof. apply quiet_bind; [apply quiet_gets|]. intros s0. destruct (i <? 0); [by intros s a s'|]. intros s a s'. unfold deref. destruct (stream s0 !! _); [|done]. by intros [= <- <-]. Qed.
Lemma quiet_store i v : quiet (ib_store i v).
Proof. apply quiet_bind; [apply quiet_gets|]. intros s0. destruct (_ || _); [by intros s a s'|]. by apply quiet_modify. Qed.
Lemma quiet_size : quiet size_value.
Proof.
  apply quiet_bind; [apply quiet_gets|]. intros s0. destruct (size s0); [apply quiet_ret|]. intros s a s'. unfold deref. destruct (_ !! _); [|done]. by intros [= <- <-].
Qed.
Lemma quiet_reloc lo hi sz index : quiet (amdgpu_vce_cs_reloc bo_list gpu_offset lo hi sz index).
Proof.
  unfold amdgpu_vce_cs_reloc. apply quiet_bind; [apply quiet_value|]. intros l. apply quiet_bind; [apply quiet_value|]. intros h.
  destruct (amdgpu_cs_find_mapping _ _) as [[m b]|]; [|apply quiet_ret]. destruct (_ >? _); [apply quiet_ret|].
  apply quiet_bind; [apply quiet_store|]. intros _. apply quiet_bind; [apply quiet_store|]. intros _. apply quiet_ret.
Qed.

(** Steps that change what is referred to, not the table. *)
Lemma inv_refer s s' :
  table s' = table s -> (forall i, referred s' i -> mine i /\ vce_filp (table s) !! i = Some filp) ->
  (forall i, Z.testbit (allocated s') (Z.of_nat i) = false -> Z.testbit (allocated s) (Z.of_nat i) = false) -> walk_inv s -> walk_inv s'.
Proof. intros Et Hr Ha [H1 H3 H4 H5]. constructor; rewrite Et; auto. Qed.

Lemma session_bit_inv i s bit s' : session_bit i s = Ok (bit, s') -> s' = s /\ 0 <= i < 32 /\ bit = u32 (Z.shiftl 1 i).
Proof. unfold session_bit. destruct (Z.ltb_spec i 0), (Z.leb_spec 32 i); try done. cbn. intros [= <- <-]. repeat split; lia. Qed.

Lemma keep_destroy : keep cmd_destroy.
Proof.
  intros s H. unfold cmd_destroy. rewrite (bind_eval (gets id) _ s s s eq_refl). unfold id. destruct (session_bit (session_idx s) s) as [[bit s1]| |] eqn:E; [|by rewrite bind_Fault by exact E|].
  - apply session_bit_inv in E as E'. destruct E' as (-> & Hi & ->). rewrite (bind_eval _ _ _ _ _ E). apply (inv_refer s); [done| |done|done]. intros i Hr. apply H.
    unfold referred in *. cbn in Hr. rewrite Z.lor_spec, bit_spec, orb_true_iff, bool_decide_eq_true in Hr by done. naive_solver.
  - unfold session_bit in E. by destruct (_ || _).
Qed.

(** The size of the image of the session. *)
Lemma keep_size v : keep (size_store v).
Proof.
  intros s H. unfold size_store. rewrite (bind_eval (gets id) _ s s s eq_refl). unfold id. destruct (size s) as [|i] eqn:Ez; [by eapply inv_view; [|exact H]|].
  destruct (Nat.ltb_spec i (length (vce_img_size (table s)))); [|done]. destruct (inv_mine s H i) as [Hm _]; [by right; right; left|]. destruct H as [(W1 & W2 & W3 & W4) H3 H4 H5].
  constructor; [|exact H3|exact H4|].
  - split; [done|]. split; [done|]. split; [cbn; by rewrite length_insert|exact W4].
  - intros j Hj. cbn. rewrite list_lookup_insert_ne by congruence. by apply H5.
Qed.

Lemma keep_create_size idx : keep (w ← ib_value (idx + 8); h ← ib_value (idx + 10); size_store (u32 (u32 (u32 (w * h) * 8) * 3) / 2);; mret 0).
Proof.
  apply (triple_bind _ _ _ (fun _ => walk_inv)); [apply quiet_keep, quiet_value|]. intros w. apply (triple_bind _ _ _ (fun _ => walk_inv)); [apply quiet_keep, quiet_value|]. intros h.
  apply (triple_bind _ _ _ (fun _ => walk_inv)); [apply keep_size|]. intros _. by apply triple_ret.
Qed.
Lemma keep_create idx : keep (cmd_create idx).
Proof.
  intros s H. unfold cmd_create. rewrite (bind_eval (gets id) _ s s s eq_refl). unfold id. destruct (session_bit (session_idx s) s) as [[bit s1]| |] eqn:E; [|by rewrite bind_Fault by exact E|].
  2:{ unfold session_bit in E. by destruct (_ || _). }
  apply session_bit_inv in E as E'. destruct E' as (-> & Hi & ->). rewrite (bind_eval _ _ _ _ _ E). set (bit := u32 (Z.shiftl 1 (session_idx s))).
  rewrite (bind_eval (modify _) _ s tt _ eq_refl). set (s1 := set_created _ s). assert (H1 : walk_inv s1) by (by eapply inv_view; [|exact H]).
  destruct (_ || _); [|done]. destruct (negb (Z.land (destroyed s) bit =? 0)); [|by apply keep_create_size].
  rewrite (bind_eval (modify _) _ s1 tt _ eq_refl). apply keep_create_size. apply (inv_refer s1); [done| | |done].
  - intros i Hr. apply (inv_mine s H). unfold referred in *. cbn in Hr. subst bit. rewrite Z.lor_spec, Z.land_spec, bit_spec, orb_true_iff, andb_true_iff, bool_decide_eq_true in Hr by done. naive_solver.
  - cbn. intros i. rewrite Z.lor_spec, orb_false_iff. by intros [? _].
Qed.

(** ** Sessions *)

(** An empty slot is taken. *)
Definition alloc_slot (i : nat) (handle : Z) (s : vce_ctx) : vce_ctx :=
  let t := table s in
  set_allocated (Z.lor (allocated s) (u32 (Z.shiftl 1 (Z.of_nat i))))
    (set_table (Vce (<[i := handle]> (vce_handles t)) (<[i := filp]> (vce_filp t)) (<[i := 0]> (vce_img_size t))) s).
Lemma alloc_keeps i handle s :
  walk_inv s -> (i < 16)%nat -> mine i -> vce_handles (table s) !! i = Some 0 -> Forall (fun h => h <> handle) (vce_handles (table s)) -> walk_inv (alloc_slot i handle s).
Proof.
  intros [(W1 & W2 & W3 & W4) H3 H4 H5] Hi Hm E0 Hnew. unfold AMDGPU_MAX_VCE_HANDLES in *. constructor.
  - split; [cbn; by rewrite length_insert|]. split; [cbn; by rewrite length_insert|]. split; [cbn; by rewrite length_insert|].
    rewrite Forall_lookup in Hnew. intros j k h Hh. cbn. rewrite !list_lookup_insert_Some. intros [(Hj & Ej & _)|(Hj & Ej)] [(Hk & Ek & _)|(Hk & Ek)]; [congruence| | |by eapply W4].
    + exfalso. by apply (Hnew k h Ek).
    + exfalso. by apply (Hnew j h Ej).
  - intros j Hr. cbn. destruct (decide (j = i)) as [->|Hne]; [split; [done|]; apply list_lookup_insert_eq; lia|]. rewrite list_lookup_insert_ne by done. apply H3.
    unfold referred in *. cbn in Hr. rewrite Z.lor_spec, bit_spec, orb_true_iff, bool_decide_eq_true in Hr by lia. destruct Hr as [[?|?]|?]; [by left|lia|by right].
  - intros j. cbn. rewrite Z.lor_spec, bit_spec, orb_false_iff, bool_decide_eq_false by lia. intros [Ha Hj]. rewrite !list_lookup_insert_ne by lia. by apply H4.
  - intros j Hj. cbn. rewrite list_lookup_insert_ne by congruence. by apply H5.
Qed.

Lemma keep_validate handle :
  triple walk_inv (amdgpu_vce_validate_handle filp handle)
    (fun r s => walk_inv s /\ (0 <= r -> mine (Z.to_nat r) /\ vce_filp (table s) !! Z.to_nat r = Some filp)).
Proof.
  intros s H. pose proof H as [(W1 & W2 & W3 & W4) H3 H4 H5]. unfold amdgpu_vce_validate_handle. rewrite (bind_eval (gets id) _ s s s eq_refl). unfold id.
  destruct (list_find (fun h => h = handle) (vce_handles (table s))) as [[i h]|] eqn:E1.
  - apply list_find_Some in E1 as (E1 & -> & _). destruct (vce_filp (table s) !! i) as [f|] eqn:Ef; [|done]. cbn. split; [done|].
    destruct (Z.eqb_spec f filp) as [->|]; cbn; [|by intros ?]. intros _. rewrite Nat2Z.id. split; [|done].
    destruct (Z.testbit (allocated s) (Z.of_nat i)) eqn:Ea; [apply H3; by left|]. destruct (H4 i Ea) as [_ E]. right. by rewrite <- E.
  - destruct (list_find (fun h => h = 0) (vce_handles (table s))) as [[i h]|] eqn:E2; [|by split; [|intros ?]].
    apply list_find_Some in E2 as (E2 & -> & _). apply list_find_None in E1. assert (Hi : (i < 16)%nat) by (by apply lookup_lt_Some in E2; rewrite W1 in E2).
    assert (Hm : mine i). { destruct (Z.testbit (allocated s) (Z.of_nat i)) eqn:Ea; [apply H3; by left|]. left. by rewrite <- (proj1 (H4 i Ea)). }
    change (walk_inv (alloc_slot i handle s) /\ (0 <= Z.of_nat i -> mine (Z.to_nat (Z.of_nat i)) /\ vce_filp (table (alloc_slot i handle s)) !! Z.to_nat (Z.of_nat i) = Some filp)).
    rewrite Nat2Z.id. split; [by apply alloc_keeps|]. intros _. split; [done|]. apply list_lookup_insert_eq. unfold AMDGPU_MAX_VCE_HANDLES in *. lia.
Qed.

Lemma keep_session idx : keep (cmd_session filp idx).
Proof.
  unfold cmd_session. apply (triple_bind _ _ _ (fun _ => walk_inv)); [apply quiet_keep, quiet_value|]. intros handle. eapply triple_bind; [apply keep_validate|].
  intros r s [H Hr]. cbn. assert (H1 : forall i, session_idx (set_session r s) = Z.of_nat i -> 0 <= r /\ i = Z.to_nat r) by (cbn; intros i ->; split; lia).
  assert (H2 : walk_inv (set_session r s)).
  { apply (inv_refer s); [done| |done|done]. intros i [?|[?|[?|E]]]; [apply H; by left|apply H; by right; left|apply H; by right; right; left|]. destruct (H1 i E) as [Hp ->]. by apply Hr. }
  destruct (Z.ltb_spec r 0); [done|]. apply (inv_refer (set_session r s)); [done| |done|done].
  intros i [?|[?|[[= <-]|E]]]; [apply H; by left|apply H; by right; left|by apply Hr|]. destruct (H1 i E) as [Hp ->]. by apply Hr.
Qed.

Lemma quiet_task idx : quiet (cmd_task_info idx).
Proof. apply quiet_bind; [apply quiet_value|]. intros f. apply quiet_bind; [apply quiet_value|]. intros b. apply quiet_bind; [by apply quiet_modify|]. intros _. apply quiet_ret. Qed.
Lemma quiet_encode idx : quiet (cmd_encode bo_list gpu_offset idx).
Proof.
  apply quiet_bind; [apply quiet_size|]. intros sz. apply quiet_bind; [apply quiet_reloc|]. intros r. destruct (negb _); [apply quiet_ret|].
  apply quiet_bind; [apply quiet_size|]. intros sz2. apply quiet_reloc.
Qed.
Lemma quiet_bitstream idx : quiet (cmd_bitstream bo_list gpu_offset idx).
Proof.
  apply quiet_bind; [apply quiet_value|]. intros t. apply quiet_bind; [by apply quiet_modify|]. intros _. apply quiet_bind; [apply quiet_gets|]. intros s. apply quiet_reloc.
Qed.

Lemma keep_command cmd idx : keep (vce_command bo_list gpu_offset filp config_cik asic_type cmd idx).
Proof.
  unfold vce_command. destruct (cmd =? 1); [apply keep_session|]. destruct (cmd =? 2); [apply quiet_keep, quiet_task|]. destruct (cmd =? 0x01000001); [apply keep_create|].
  destruct (passed_on cmd); [by apply triple_ret|]. destruct (cmd =? 0x0500000c); [by apply triple_ret|]. destruct (cmd =? 0x03000001); [apply quiet_keep, quiet_encode|].
  destruct (cmd =? 0x02000001); [apply keep_destroy|]. destruct (cmd =? 0x05000001); [apply quiet_keep, quiet_bind; [apply quiet_size|intros sz; apply quiet_reloc]|].
  destruct (cmd =? 0x05000004); [apply quiet_keep, quiet_bitstream|]. destruct (cmd =? 0x05000005); [|by apply triple_ret].
  apply quiet_keep, quiet_bind; [apply quiet_gets|]. intros s. apply quiet_reloc.
Qed.

Lemma keep_turn : keep (vce_turn bo_list gpu_offset filp config_cik asic_type).
Proof.
  unfold vce_turn. apply (triple_bind _ _ _ (fun _ => walk_inv)); [by apply triple_gets|]. intros s. apply (triple_bind _ _ _ (fun _ => walk_inv)); [apply quiet_keep, quiet_value|]. intros len.
  apply (triple_bind _ _ _ (fun _ => walk_inv)); [apply quiet_keep, quiet_value|]. intros cmd. destruct (_ || _); [by apply triple_ret|].
  apply (triple_bind _ _ _ (fun _ => walk_inv)); [apply keep_command|]. intros r. destruct (negb _); [by apply triple_ret|].
  apply (triple_bind _ _ _ (fun _ => walk_inv)); [by apply triple_gets|]. intros s1. destruct (_ =? -1); [by apply triple_ret|].
  apply (triple_bind _ _ _ (fun _ => walk_inv)); [|intros _; by apply triple_ret]. apply triple_modify. intros s2 H. by eapply inv_view; [|exact H].
Qed.

(** A walk without error ends with every new session created. *)
Lemma keep_loop fuel :
  triple walk_inv (vce_loop bo_list gpu_offset filp config_cik asic_type fuel)
    (fun r s => walk_inv s /\ (r = 0 -> Z.land (allocated s) (u32 (Z.lnot (created s))) = 0)).
Proof.
  induction fuel as [|fuel IH]; cbn [vce_loop]; [apply triple_nofuel|]. intros s H. rewrite (bind_eval (gets id) _ s s s eq_refl). unfold id. destruct (_ <? _).
  - revert s H. eapply (triple_bind _ _ _ (fun _ => walk_inv)); [apply keep_turn|]. intros r. destruct (Z.eqb_spec r 0) as [->|Hne]; cbn [negb]; [exact IH|].
    apply triple_ret. intros s H. by split.
  - split; [done|]. destruct (Z.eqb_spec (Z.land (allocated s) (u32 (Z.lnot (created s)))) 0); [done|]. cbn. done.
Qed.
End sessions.

Lemma free_slots_lookup mask l i : free_slots mask l !! i = (fun h => if Z.testbit mask (Z.of_nat i) then 0 else h) <$> l !! i.
Proof. unfold free_slots. by rewrite list_lookup_imap. Qed.
Lemma free_slots_unique mask t : unique_handles t -> unique_handles (Vce (free_slots mask (vce_handles t)) (vce_filp t) (vce_img_size t)).
Proof.
  intros H i j h Hh. cbn. rewrite !free_slots_lookup, !fmap_Some. intros (x & Ex & Hx) (y & Ey & Hy).
  destruct (Z.testbit mask (Z.of_nat i)); [done|]. destruct (Z.testbit mask (Z.of_nat j)); [done|]. subst. by eapply H.
Qed.
Lemma start_walk filp t l t0 : table_wf t -> walk_inv filp t (VceCtx l t 0 0 (-1) 0 0 0 t0 SizeTmp 0).
Proof.
  intros H. constructor; [done| |done|done]. intros i. unfold referred. cbn [allocated destroyed size session_idx]. rewrite Z.bits_0. intros [?|[?|[?|?]]]; [done|done|done|lia].
Qed.

(** C20: whatever stream a file submits to the encoder, and whether it is accepted or not, the parser keeps the sessions apart: a session of another file keeps its slot, its owner and its image size; a handle never has two slots; a stream that is refused adds no session to the table; and after a stream that is accepted every slot that has changed its handle to another one belongs to the file and had a create command in the stream. The parser is taken to return ([vce_parser_correct] shows when it does). *)
Theorem vce_sessions_isolated bo_list gpu_offset filp config_cik asic_type access u l t r s :
  table_wf t -> amdgpu_vce_ring_parse_cs bo_list gpu_offset filp config_cik asic_type access u l t = Ok (r, s) ->
  table_wf (table s) /\
  (forall i h f, vce_handles t !! i = Some h -> h <> 0 -> vce_filp t !! i = Some f -> f <> filp ->
     vce_handles (table s) !! i = Some h /\ vce_filp (table s) !! i = Some f /\ vce_img_size (table s) !! i = vce_img_size t !! i) /\
  (r <> 0 -> forall i, vce_handles (table s) !! i = vce_handles t !! i \/ vce_handles (table s) !! i = Some 0) /\
  (r = 0 -> forall i h, vce_handles (table s) !! i = Some h -> h <> 0 -> vce_handles t !! i <> Some h ->
     vce_filp (table s) !! i = Some filp /\ Z.testbit (created s) (Z.of_nat i) = true).
Proof.
  intros Hwf. unfold amdgpu_vce_ring_parse_cs. set (s0 := VceCtx l t 0 0 (-1) 0 0 0 u SizeTmp 0). destruct (Z.eqb_spec access 0) as [->|Hac]; cbn [negb].
  2:{ intros [= <- <-]. split; [done|]. split; [done|]. split; [by left|done]. }
  intros H. apply bind_Ok in H as (r1 & s1 & H1 & H). rewrite (bind_eval (modify _) _ s1 tt _ eq_refl) in H. injection H as <- <-.
  destruct (triple_Ok _ _ _ s0 r1 s1 (keep_loop bo_list gpu_offset filp config_cik asic_type t _) (start_walk filp t l u Hwf) H1) as [HI Hc].
  pose proof HI as [(W1 & W2 & W3 & W4) H3 H4 H5]. cbn [table vce_handles vce_filp vce_img_size set_table created]. set (mask := if r1 =? 0 then destroyed s1 else allocated s1).
  assert (Hmask : forall i, Z.testbit mask (Z.of_nat i) = true -> referred s1 i) by (subst mask; intros i; destruct (r1 =? 0); [by right; left|by left]).
  split; [|split; [|split]].
  - split; [cbn; unfold free_slots; by rewrite length_imap|]. split; [done|]. split; [done|]. by apply free_slots_unique.
  - intros i h f Eh Hh Ef Hf. assert (Hn : ~ mine filp t i) by (intros [E|E]; congruence). assert (Ha : Z.testbit (allocated s1) (Z.of_nat i) = false).
    { apply not_true_is_false. intros E. apply Hn, H3. by left. }
    destruct (H4 i Ha) as [Ek Efk]. split; [|split; [congruence|by apply H5]]. rewrite free_slots_lookup, Ek, Eh. cbn.
    destruct (Z.testbit mask (Z.of_nat i)) eqn:Em; [|done]. exfalso. by apply Hn, H3, Hmask.
  - intros Hr i. subst mask. rewrite (proj2 (Z.eqb_neq r1 0) Hr), free_slots_lookup. destruct (Z.testbit (allocated s1) (Z.of_nat i)) eqn:Ea.
    + destruct (vce_handles (table s1) !! i) eqn:E; [by right|]. left. apply lookup_ge_None in E. rewrite (proj2 (lookup_ge_None (vce_handles t) i)); [done|]. destruct Hwf as (-> & _). by rewrite W1 in E.
    + left. rewrite (proj1 (H4 i Ea)). by destruct (vce_handles t !! i).
  - intros Hr i h. rewrite free_slots_lookup, fmap_Some. intros (x & Ex & Hx) Hh Hn. destruct (Z.testbit mask (Z.of_nat i)); [done|]. subst x.
    destruct (Z.testbit (allocated s1) (Z.of_nat i)) eqn:Ea; [|exfalso; apply Hn; by rewrite <- (proj1 (H4 i Ea))].
    split; [apply H3; by left|]. apply (mask_covered (allocated s1)); [by apply Hc| |done]. apply lookup_lt_Some in Ex. rewrite W1 in Ex. unfold AMDGPU_MAX_VCE_HANDLES in Ex. lia.
Qed.

(** A stream of file 1 that opens session 7 while session 5 of file 2 is open. *)
Definition create_stream : list Z := [12; 1; 7] ++ [48; 0x01000001; 0; 0; 0; 0; 0; 0; 16; 0; 16; 0].
Definition busy_table : amdgpu_vce := Vce (5 :: replicate 15 0) (2 :: replicate 15 0) (640 :: replicate 15 0).
Lemma busy_table_wf : table_wf busy_table.
Proof.
  split; [reflexivity|]. split; [reflexivity|]. split; [reflexivity|]. intros i j h Hh.
  assert (H0 : forall k, replicate 15 0 !! k = Some h -> False) by (intros k E; by apply lookup_replicate in E as [-> _]).
  destruct i as [|i], j as [|j]; unfold busy_table; intros E1 E2; [done|exfalso; by apply (H0 j)|exfalso; by apply (H0 i)|exfalso; by apply (H0 i)].
Qed.
Lemma vce_sessions_isolated_witness :
  exists s, amdgpu_vce_ring_parse_cs None (fun _ => 0) 1 false CHIP_CARRIZO 0 0 create_stream busy_table = Ok (0, s) /\
    take 3 (vce_handles (table s)) = [5; 7; 0] /\ take 3 (vce_img_size (table s)) = [640; 3072; 0] /\ vce_filp (table s) !! 1%nat = Some 1.
Proof.
  destruct (amdgpu_vce_ring_parse_cs None (fun _ => 0) 1 false CHIP_CARRIZO 0 0 create_stream busy_table) as [[r s]| |] eqn:E; [|vm_compute in E; discriminate..].
  assert (r = 0) as -> by (vm_compute in E; injection E as <- _; reflexivity). exists s. split; [reflexivity|].
  assert (Hh : vce_handles (table s) !! 1%nat = Some 7) by (vm_compute in E; injection E as <-; reflexivity).
  pose proof E as Er. apply (vce_sessions_isolated _ _ _ _ _ _ _ _ _ _ _ busy_table_wf) in Er as (_ & _ & _ & Hn).
  split; [vm_compute in E; injection E as <-; reflexivity|]. split; [vm_compute in E; injection E as <-; reflexivity|].
  apply (Hn eq_refl 1%nat 7 Hh); discriminate.
Defined.
