(* ===== verification/VceReloc.v ===== *)
(** * The relocations of the encoder's parser

    On a stream whose commands have room for their operands ([layout]) the
    parser returns, and when it accepts the stream every buffer address in it
    points into an object with room for the buffer ([command_ok]), at the
    element and for the size that the commands before it select ([plan]). *)

From stdpp Require Import base numbers list sets.
From S2P Require Import Prelude CMonad Uvd UvdSpec Vce VceSpec.

(** ** Streams *)

(** The words of a command that the parser reads. *)
Definition operands (cmd : Z) : Z :=
  if cmd =? 1 then 3 else if cmd =? 2 then 8 else if cmd =? 0x01000001 then 11 else if cmd =? 0x03000001 then 13
  else if cmd =? 0x05000001 then 4 else if cmd =? 0x05000004 then 5 else if cmd =? 0x05000005 then 4 else 2.
(** The commands from word [i] on, with their places; [None] if one is not well
    formed. *)
Fixpoint layout (fuel : nat) (l : list Z) (i : Z) : option (list (Z * Z)) :=
  match fuel with
  | O => None
  | S k =>
      if Z.of_nat (length l) <=? i then Some []
      else
        len ← l !! Z.to_nat i;
        cmd ← l !! Z.to_nat (i + 1);
        if (len <? 8) || negb (Z.land len 3 =? 0) || (len / 4 <? operands cmd) || (Z.of_nat (length l) <? i + operands cmd) then None
        else rest ← layout k l (i + len / 4); Some ((i, cmd) :: rest)
  end.
Definition the_layout (l : list Z) : option (list (Z * Z)) := layout (S (length l)) l 0.

(** ** Relocations *)

Section reloc.
Context (bo_list : option (list (option bo_list_entry))) (gpu_offset : Z -> Z) (l0 : list Z).

(** The buffer at words [lo] and [hi]: element [index] of an array of buffers of
    [sz] bytes.  Its address in the stream [l0] that was submitted is in a
    mapping that has room for it, and the address in [l] is where the mapping's
    object has it. *)
Definition reloc_ok (l : list Z) (lo hi sz index : Z) : Prop :=
  exists v0 v1 w0 w1 m b,
    l0 !! Z.to_nat lo = Some v0 /\ l0 !! Z.to_nat hi = Some v1 /\ l !! Z.to_nat lo = Some w0 /\ l !! Z.to_nat hi = Some w1 /\
    let skip := sz * (if index =? 0xffffffff then 0 else index) in
    let va := u64 (Z.lor v0 (Z.shiftl v1 32) + skip) in
    amdgpu_cs_find_mapping bo_list va = Some (m, b) /\
    it_start m * AMDGPU_GPU_PAGE_SIZE <= va /\ va + sz <= (it_last m + 1) * AMDGPU_GPU_PAGE_SIZE /\
    u64 (w0 + 2 ^ 32 * w1 + skip) = gpu_offset b + (va - it_start m * AMDGPU_GPU_PAGE_SIZE).

(** Addresses are below 2^63. *)
Definition vce_maps_wf : Prop :=
  maps_wf bo_list gpu_offset /\ forall addr m b, amdgpu_cs_find_mapping bo_list addr = Some (m, b) -> it_last m < 2 ^ 51.

(** The address that is stored. *)
Lemma reloc_arith addr m b sz T :
  0 <= addr < 2 ^ 64 -> 0 <= sz < 2 ^ 32 ->
  0 <= it_start m <= addr / AMDGPU_GPU_PAGE_SIZE -> addr / AMDGPU_GPU_PAGE_SIZE <= it_last m < 2 ^ 51 ->
  0 <= gpu_offset b -> gpu_offset b + (it_last m + 1 - it_start m) * AMDGPU_GPU_PAGE_SIZE <= 2 ^ 63 ->
  (u64 (addr + sz) >? u64 (u64 (it_last m + 1) * AMDGPU_GPU_PAGE_SIZE)) = false ->
  let off := u64 (addr - u64 (it_start m * AMDGPU_GPU_PAGE_SIZE)) in
  let p := u64 (off + gpu_offset b) in
  it_start m * AMDGPU_GPU_PAGE_SIZE <= addr /\ addr + sz <= (it_last m + 1) * AMDGPU_GPU_PAGE_SIZE /\ p = gpu_offset b + (addr - it_start m * AMDGPU_GPU_PAGE_SIZE) /\
  u64 (u64 (p - T) + T) = p.
Proof.
  intros Ha Hsz H1 H2 Hg0 Hg1. unfold AMDGPU_GPU_PAGE_SIZE in *. change (2 ^ 64) with 18446744073709551616 in *. change (2 ^ 32) with 4294967296 in *.
  change (2 ^ 51) with 2251799813685248 in *. change (2 ^ 63) with 9223372036854775808 in *.
  pose proof (Z.div_mod addr 4096 ltac:(lia)). pose proof (Z.mod_pos_bound addr 4096 ltac:(lia)).
  rewrite (u64_small (it_last m + 1)) by (unfold is_u64; lia). rewrite (u64_small ((it_last m + 1) * 4096)) by (unfold is_u64; lia).
  rewrite (u64_small (addr + sz)) by (unfold is_u64; lia). rewrite Z.gtb_ltb, Z.ltb_ge. intros Hfit.
  rewrite (u64_small (it_start m * 4096)) by (unfold is_u64; lia). rewrite (u64_small (addr - _)) by (unfold is_u64; lia).
  cbv zeta. rewrite (u64_small (_ + gpu_offset b)) by (unfold is_u64; lia). split; [lia|]. split; [lia|]. split; [lia|].
  unfold u64. rewrite Zplus_mod_idemp_l. rewrite Z.sub_add. apply Z.mod_small. lia.
Qed.

Lemma ib_value_returns i s (Q : Z -> vce_ctx -> Prop) : 0 <= i < ib_words s -> (forall v, stream s !! Z.to_nat i = Some v -> Q v s) -> returns (ib_value i) s Q.
Proof.
  intros Hi H. apply returns_gets. unfold id. destruct (Z.ltb_spec i 0); [lia|]. destruct (lookup_lt_is_Some_2 (stream s) (Z.to_nat i)) as [v E]; [unfold ib_words in Hi; lia|].
  exists v, s. rewrite E. auto.
Qed.
Lemma ib_store_returns {B} i v (k : unit -> EM B) s (Q : B -> vce_ctx -> Prop) :
  0 <= i < ib_words s -> returns (k tt) (set_stream (<[Z.to_nat i := v]> (stream s)) s) Q -> returns (mbind k (ib_store i v)) s Q.
Proof.
  intros Hi (a & s' & E & H). exists a, s'. split; [|done]. rewrite <- E. apply bind_eval. unfold ib_store. rewrite (bind_eval (gets id) _ s s s eq_refl). unfold id.
  destruct (Z.ltb_spec i 0); [lia|]. destruct (Z.leb_spec (ib_words s) i); [lia|]. done.
Qed.

Lemma reloc_returns lo hi sz index s :
  vce_maps_wf -> 0 <= sz < 2 ^ 32 -> 0 <= lo < ib_words s -> 0 <= hi < ib_words s -> lo <> hi ->
  stream s !! Z.to_nat lo = l0 !! Z.to_nat lo -> stream s !! Z.to_nat hi = l0 !! Z.to_nat hi ->
  returns (amdgpu_vce_cs_reloc bo_list gpu_offset lo hi sz index) s
    (fun r s' => r = 0 -> exists a h, s' = set_stream (<[Z.to_nat hi := h]> (<[Z.to_nat lo := a]> (stream s))) s /\ reloc_ok (stream s') lo hi sz index).
Proof.
  intros [Hm1 Hm2] Hsz Hlo Hhi Hne El Eh. unfold amdgpu_vce_cs_reloc. set (ix := if index =? 0xffffffff then 0 else index).
  apply (returns_bind _ _ _ (fun v s' => s' = s /\ stream s !! Z.to_nat lo = Some v)); [by apply ib_value_returns|]. intros vl ? [-> Ev0].
  apply (returns_bind _ _ _ (fun v s' => s' = s /\ stream s !! Z.to_nat hi = Some v)); [by apply ib_value_returns|]. intros vh ? [-> Ev1].
  rewrite El in Ev0. rewrite Eh in Ev1. cbv zeta. set (addr := u64 (Z.lor vl (Z.shiftl vh 32) + u64 (sz * ix))).
  assert (Eaddr : addr = u64 (Z.lor vl (Z.shiftl vh 32) + sz * ix)) by (unfold addr, u64; by rewrite Zplus_mod_idemp_r).
  destruct (amdgpu_cs_find_mapping bo_list addr) as [[m b]|] eqn:Em; [|by apply returns_ret]. destruct (Hm1 addr m b Em) as (A1 & A2 & A3 & A4). pose proof (Hm2 addr m b Em) as A5.
  destruct (_ >? _) eqn:Eg; [by apply returns_ret|].
  assert (Ha : 0 <= addr < 2 ^ 64) by (unfold addr, u64; apply Z.mod_pos_bound; lia).
  destruct (reloc_arith addr m b sz (u64 (sz * ix)) Ha Hsz A1 ltac:(lia) A3 A4 Eg) as (B1 & B2 & Bp & B3). cbv zeta in *.
  set (p := u64 (u64 (addr - u64 (it_start m * AMDGPU_GPU_PAGE_SIZE)) + gpu_offset b)) in *. set (A := u64 (p - u64 (sz * ix))) in *.
  apply ib_store_returns; [done|]. apply ib_store_returns; [unfold ib_words in *; cbn; by rewrite length_insert|]. apply returns_ret. intros _.
  exists (u32 A), (Z.shiftr A 32). split; [done|]. exists vl, vh, (u32 A), (Z.shiftr A 32), m, b. cbn [stream set_stream].
  unfold ib_words in *. rewrite list_lookup_insert_ne, list_lookup_insert_eq by lia. rewrite list_lookup_insert_eq by (rewrite length_insert; lia).
  split; [done|]. split; [done|]. split; [done|]. split; [done|]. fold ix. cbv zeta. rewrite lo_hi by (unfold A, u64; apply Z.mod_pos_bound; lia). rewrite <- Eaddr.
  split; [done|]. split; [done|]. split; [done|]. rewrite <- Bp, <- B3. unfold u64. by rewrite Zplus_mod_idemp_r.
Qed.
End reloc.

(** ** Commands *)

Section commands.
Context (bo_list : option (list (option bo_list_entry))) (gpu_offset : Z -> Z) (filp : Z) (config_cik : bool) (asic_type : Z).
(** The stream that is submitted. *)
Context (l0 : list Z).

(** What the commands of the stream select: the handles and the image sizes of
    the slots, the slot of the current session, and the elements of the feedback
    and of the bitstream array. *)
Record plan := Plan { p_handles : list Z; p_sizes : list Z; p_slot : nat; p_fb : Z; p_bs : Z }.
Definition p_size (p : plan) : Z := p_sizes p !!! p_slot p.
(** A session command selects the slot of its handle, or takes the first free
    slot for it, without an image size. *)
Definition plan_session (h : Z) (p : plan) : plan :=
  match list_find (fun x => x = h) (p_handles p) with
  | Some (j, _) => Plan (p_handles p) (p_sizes p) j (p_fb p) (p_bs p)
  | None =>
      match list_find (fun x => x = 0) (p_handles p) with
      | Some (j, _) => Plan (<[j := h]> (p_handles p)) (<[j := 0]> (p_sizes p)) j (p_fb p) (p_bs p)
      | None => p
      end
  end.
Definition image_size (w h : Z) : Z := u32 (u32 (u32 (w * h) * 8) * 3) / 2.
Definition plan_step (p : plan) (c : Z * Z) : plan :=
  let word k := l0 !!! Z.to_nat (c.1 + k) in
  if c.2 =? 1 then plan_session (word 2) p
  else if c.2 =? 2 then Plan (p_handles p) (p_sizes p) (p_slot p) (word 6) (word 7)
  else if c.2 =? 0x01000001 then Plan (p_handles p) (<[p_slot p := image_size (word 8) (word 10)]> (p_sizes p)) (p_slot p) (p_fb p) (p_bs p)
  else p.
Definition first_plan (t : amdgpu_vce) : plan := Plan (vce_handles t) (vce_img_size t) 0 0 0.

(** The words of a command that hold addresses. *)
Definition address_words (c : Z * Z) : list Z :=
  if c.2 =? 0x03000001 then [c.1 + 9; c.1 + 10; c.1 + 11; c.1 + 12]
  else if (c.2 =? 0x05000001) || (c.2 =? 0x05000004) || (c.2 =? 0x05000005) then [c.1 + 2; c.1 + 3]
  else [].
(** The addresses of a command in [l], under the plan of the commands before. *)
Definition command_ok (p : plan) (l : list Z) (c : Z * Z) : Prop :=
  let i := c.1 in let cmd := c.2 in
  (cmd = 0x03000001 -> reloc_ok bo_list gpu_offset l0 l (i + 10) (i + 9) (p_size p) 0 /\ reloc_ok bo_list gpu_offset l0 l (i + 12) (i + 11) (p_size p / 3) 0) /\
  (cmd = 0x05000001 -> reloc_ok bo_list gpu_offset l0 l (i + 3) (i + 2) (u32 (p_size p * 2)) 0) /\
  (cmd = 0x05000004 -> reloc_ok bo_list gpu_offset l0 l (i + 3) (i + 2) (l0 !!! Z.to_nat (i + 4)) (p_bs p)) /\
  (cmd = 0x05000005 -> reloc_ok bo_list gpu_offset l0 l (i + 3) (i + 2) 4096 (p_fb p)).
(** Every command of a stream, each under the plan that it finds. *)
Fixpoint commands_ok (p : plan) (l : list Z) (cs : list (Z * Z)) : Prop :=
  match cs with
  | [] => True
  | c :: rest => command_ok p l c /\ commands_ok (plan_step p c) l rest
  end.

Lemma commands_ok_app p l cs cs' : commands_ok p l (cs ++ cs') <-> commands_ok p l cs /\ commands_ok (foldl plan_step p cs) l cs'.
Proof. revert p. induction cs as [|c cs IH]; intros p; cbn; [tauto|]. rewrite IH. tauto. Qed.
Lemma reloc_ok_ext l l' lo hi sz index :
  l' !! Z.to_nat lo = l !! Z.to_nat lo -> l' !! Z.to_nat hi = l !! Z.to_nat hi -> reloc_ok bo_list gpu_offset l0 l lo hi sz index -> reloc_ok bo_list gpu_offset l0 l' lo hi sz index.
Proof. intros E1 E2 (v0 & v1 & w0 & w1 & m & b & H). exists v0, v1, w0, w1, m, b. by rewrite E1, E2. Qed.
Lemma operands_pos cmd : 2 <= operands cmd.
Proof. unfold operands. repeat case_match; lia. Qed.
Lemma command_ok_ext p l l' c :
  (forall j, c.1 <= j < c.1 + operands c.2 -> l' !! Z.to_nat j = l !! Z.to_nat j) -> command_ok p l c -> command_ok p l' c.
Proof.
  destruct c as [i cmd]. cbn [fst snd]. intros Hl (H1 & H2 & H3 & H4). unfold command_ok in *; cbn [fst snd] in *; cbv zeta.
  split; [|split; [|split]]; intros ->; [destruct (H1 eq_refl); split|specialize (H2 eq_refl)|specialize (H3 eq_refl)|specialize (H4 eq_refl)];
    (eapply reloc_ok_ext; [apply Hl|apply Hl|eassumption]); unfold operands; cbn [Z.eqb Pos.eqb]; lia.
Qed.
Lemma commands_ok_ext p l l' i cs :
  Forall (fun c => 0 <= c.1 /\ c.1 + operands c.2 <= i) cs -> (forall j, 0 <= j < i -> l' !! Z.to_nat j = l !! Z.to_nat j) -> commands_ok p l cs -> commands_ok p l' cs.
Proof.
  intros Hcs Hl. revert p. induction Hcs as [|c cs Hc _ IH]; intros p; cbn; [done|]. intros [H1 H2]. split; [|by apply IH].
  eapply command_ok_ext; [|exact H1]. intros j Hj. apply Hl. lia.
Qed.
Lemma address_words_inside c j : j ∈ address_words c -> c.1 + 2 <= j < c.1 + operands c.2.
Proof.
  unfold address_words, operands. destruct (Z.eqb_spec (c.2) 0x03000001) as [->|]; [cbn [Z.eqb Pos.eqb]; set_solver by lia|].
  destruct (_ || _) eqn:E; [|by intros ?%elem_of_nil]. rewrite !orb_true_iff, !Z.eqb_eq in E. intros Hj.
  destruct E as [[-> | ->]| ->]; cbn [Z.eqb Pos.eqb]; set_solver by lia.
Qed.

(** The state between commands. *)
Record ready (p : plan) (s : vce_ctx) : Prop := Ready {
  rd_len : length (stream s) = length l0;
  rd_handles : length (vce_handles (table s)) = AMDGPU_MAX_VCE_HANDLES;
  rd_filp : length (vce_filp (table s)) = AMDGPU_MAX_VCE_HANDLES;
  rd_img : length (vce_img_size (table s)) = AMDGPU_MAX_VCE_HANDLES;
  rd_sizes : Forall is_u32 (vce_img_size (table s));
  rd_plan : Plan (vce_handles (table s)) (vce_img_size (table s)) (p_slot p) (fb_idx s) (bs_idx s) = p }.
(** After the first command there is a session. *)
Definition in_session (p : plan) (s : vce_ctx) : Prop := session_idx s = Z.of_nat (p_slot p) /\ (p_slot p < 16)%nat /\ size s = SizeOf (p_slot p).
(** Words of the stream from [i] on that are as submitted. *)
Definition as_submitted (i : Z) (s : vce_ctx) : Prop := forall j, i <= j -> stream s !! Z.to_nat j = l0 !! Z.to_nat j.
(** A command at [i] that went well. *)
Definition went_well (p : plan) (c : Z * Z) (s s' : vce_ctx) : Prop :=
  ready (plan_step p c) s' /\ in_session (plan_step p c) s' /\ pos s' = pos s /\ command_ok p (stream s') c /\
  forall j, 0 <= j -> j ∉ address_words c -> stream s' !! Z.to_nat j = stream s !! Z.to_nat j.

Context (Hmaps : vce_maps_wf bo_list gpu_offset) (Hl32 : Forall is_u32 l0).

Lemma image_size_u32 w h : is_u32 (image_size w h).
Proof.
  unfold image_size, is_u32. change (2 ^ 32) with 4294967296. set (x := u32 (u32 (w * h) * 8) * 3). pose proof (Z.mod_pos_bound x 4294967296 ltac:(lia)) as Hx. fold (u32 x) in Hx.
  split; [apply Z.div_pos; lia|]. apply Z.div_lt_upper_bound; lia.
Qed.
Lemma size_value_run p s :
  ready p s -> in_session p s -> 0 <= p_size p < 2 ^ 32 /\ size_value s = Ok (p_size p, s) /\ forall l, size_value (set_stream l s) = Ok (p_size p, set_stream l s).
Proof.
  intros H (_ & Hj & Ej). destruct (lookup_lt_is_Some_2 (vce_img_size (table s)) (p_slot p)) as [v E]; [rewrite (rd_img p s H); done|].
  assert (Es : p_sizes p = vce_img_size (table s)) by by rewrite <- (rd_plan p s H).
  assert (Ev : p_size p = v) by (unfold p_size; rewrite Es; by apply list_lookup_total_correct).
  split; [rewrite Ev; exact (proj1 (Forall_lookup _ _) (rd_sizes p s H) _ _ E)|]. unfold size_value.
  split; [|intros l]; rewrite (bind_eval (gets id) _ _ _ _ eq_refl); unfold id; cbn [size set_stream table]; by rewrite Ej, E, Ev.
Qed.
Lemma ready_stream p l s : length l = length l0 -> ready p s -> ready p (set_stream l s).
Proof. intros Hl [H1 H2 H3 H4 H5 H6]. by constructor. Qed.

(** Commands without addresses. *)
Definition has_address (cmd : Z) : bool := (cmd =? 0x03000001) || (cmd =? 0x05000001) || (cmd =? 0x05000004) || (cmd =? 0x05000005).
Lemma plain_well p c s s' :
  has_address (c.2) = false -> ready (plan_step p c) s' -> in_session (plan_step p c) s' -> pos s' = pos s -> stream s' = stream s -> went_well p c s s'.
Proof.
  unfold has_address. rewrite !orb_false_iff, !Z.eqb_neq. intros (((N1 & N2) & N3) & N4) Hr Hs Hp E. split; [done|]. split; [done|]. split; [done|].
  split; [|by rewrite E]. done.
Qed.
Lemma word_submitted p i j s v : ready p s -> as_submitted i s -> i <= j -> stream s !! Z.to_nat j = Some v -> l0 !!! Z.to_nat j = v.
Proof. intros H Hsub Hj. rewrite Hsub by done. apply list_lookup_total_correct. Qed.

(** What leaves the stream and its position alone. *)
Definition same_place (s s' : vce_ctx) : Prop := stream s' = stream s /\ pos s' = pos s.

Lemma validate_returns p handle s :
  ready p s -> returns (amdgpu_vce_validate_handle filp handle) s
    (fun r s' => same_place s s' /\ (0 <= r -> ready (plan_session handle p) s' /\ r = Z.of_nat (p_slot (plan_session handle p)) /\ (p_slot (plan_session handle p) < 16)%nat)).
Proof.
  intros H. pose proof H as [H1 H2 H3 H4 H5 H6]. unfold AMDGPU_MAX_VCE_HANDLES in *. apply returns_gets. unfold id. cbv zeta.
  assert (Ep : p_handles p = vce_handles (table s)) by by rewrite <- H6. assert (Es : p_sizes p = vce_img_size (table s)) by by rewrite <- H6.
  assert (Ef : p_fb p = fb_idx s) by by rewrite <- H6. assert (Eb : p_bs p = bs_idx s) by by rewrite <- H6. unfold plan_session. rewrite Ep, Es, Ef, Eb.
  destruct (list_find (fun h => h = handle) (vce_handles (table s))) as [[i h]|] eqn:E1.
  - apply list_find_Some in E1 as (E1 & _ & _). apply lookup_lt_Some in E1. destruct (lookup_lt_is_Some_2 (vce_filp (table s)) i) as [f Efi]; [lia|]. rewrite Efi.
    eexists _, s. split; [reflexivity|]. split; [done|]. destruct (negb _); [done|]. intros _. split; [by constructor|]. cbn. split; [done|lia].
  - destruct (list_find (fun h => h = 0) (vce_handles (table s))) as [[i h]|] eqn:E2; [|by apply returns_ret].
    apply list_find_Some in E2 as (E2 & _ & _). apply lookup_lt_Some in E2. apply returns_modify, returns_modify, returns_ret. split; [done|]. intros _.
    split; [|cbn; split; [done|lia]]. constructor; cbn; rewrite ?length_insert; [done..| |done]. apply Forall_insert; [done|]. unfold is_u32. lia.
Qed.

Lemma session_returns p i s :
  ready p s -> as_submitted i s -> 0 <= i -> i + 3 <= Z.of_nat (length l0) -> returns (cmd_session filp i) s (fun r s' => r = 0 -> went_well p (i, 1) s s').
Proof.
  intros H Hsub Hi Hfit. apply (returns_bind _ _ _ (fun v s' => s' = s /\ stream s !! Z.to_nat (i + 2) = Some v)); [apply ib_value_returns; [unfold ib_words; rewrite (rd_len p s H); lia|done]|].
  intros handle ? [-> Eh]. apply (word_submitted p i) in Eh; [|done|done|lia].
  eapply returns_bind; [by apply (validate_returns p)|]. cbn beta. intros r s1 ([Es Ep] & Hr). apply returns_modify. destruct (Z.ltb_spec r 0); [apply returns_ret; lia|].
  destruct (Hr ltac:(lia)) as (H1 & -> & Hlt). apply returns_modify, returns_ret. intros _.
  apply plain_well; [done| | |done|done]; unfold plan_step; cbn [fst snd Z.eqb Pos.eqb]; rewrite Eh; [by destruct H1; constructor|]. split; [done|]. split; [done|]. cbn. by rewrite Nat2Z.id.
Qed.

Lemma session_bit_returns {B} p s0 (k : Z -> EM B) s (Q : B -> vce_ctx -> Prop) :
  in_session p s0 -> returns (k (u32 (Z.shiftl 1 (session_idx s0)))) s Q -> returns (mbind k (session_bit (session_idx s0))) s Q.
Proof.
  intros (Hi & Hlt & _) (a & s' & E & HQ). exists a, s'. split; [|done]. rewrite <- E. apply bind_eval. unfold session_bit. destruct (Z.ltb_spec (session_idx s0) 0); [lia|].
  by destruct (Z.leb_spec 32 (session_idx s0)); [lia|].
Qed.

Lemma destroy_returns p i s : ready p s -> in_session p s -> returns cmd_destroy s (fun r s' => r = 0 -> went_well p (i, 0x02000001) s s').
Proof.
  intros H Hs. apply returns_gets. unfold id. apply (session_bit_returns p); [done|]. apply returns_modify, returns_ret. intros _.
  apply plain_well; [done|by destruct H; constructor|done..].
Qed.

Lemma task_returns p i s :
  ready p s -> in_session p s -> as_submitted i s -> 0 <= i -> i + 8 <= Z.of_nat (length l0) -> returns (cmd_task_info i) s (fun r s' => r = 0 -> went_well p (i, 2) s s').
Proof.
  intros H Hs Hsub Hi Hfit. assert (Hw : ib_words s = Z.of_nat (length l0)) by (unfold ib_words; by rewrite (rd_len p s H)).
  apply (returns_bind _ _ _ (fun v s' => s' = s /\ stream s !! Z.to_nat (i + 6) = Some v)); [apply ib_value_returns; [lia|done]|]. intros f ? [-> Ef].
  apply (returns_bind _ _ _ (fun v s' => s' = s /\ stream s !! Z.to_nat (i + 7) = Some v)); [apply ib_value_returns; [lia|done]|]. intros b ? [-> Eb].
  apply (word_submitted p i) in Ef, Eb; [|done|done|lia..|done|done|lia].
  apply returns_modify, returns_ret. intros _. apply plain_well; [done| | |done|done]; unfold plan_step; cbn [fst snd Z.eqb Pos.eqb]; rewrite Ef, Eb; [|done].
  destruct H as [H1 H2 H3 H4 H5 H6]. constructor; [done..|]. cbn. by rewrite <- H6.
Qed.

Lemma size_store_returns p v s :
  ready p s -> in_session p s -> is_u32 v ->
  let p' := Plan (p_handles p) (<[p_slot p := v]> (p_sizes p)) (p_slot p) (p_fb p) (p_bs p) in
  returns (size_store v) s (fun _ s' => ready p' s' /\ in_session p' s' /\ same_place s s').
Proof.
  intros H Hs Hv p'. pose proof Hs as (_ & Hj & Ej). apply returns_gets. unfold id. rewrite Ej. destruct H as [H1 H2 H3 H4 H5 H6]. unfold AMDGPU_MAX_VCE_HANDLES in *.
  destruct (Nat.ltb_spec (p_slot p) (length (vce_img_size (table s)))); [|lia]. eexists tt, _. split; [reflexivity|]. split; [|done].
  constructor; cbn; rewrite ?length_insert; [done..|by apply Forall_insert|]. subst p'. by rewrite <- H6.
Qed.

Lemma create_size_returns p i s :
  ready p s -> in_session p s -> as_submitted i s -> 0 <= i -> i + 11 <= Z.of_nat (length l0) ->
  returns (w ← ib_value (i + 8); h ← ib_value (i + 10); size_store (u32 (u32 (u32 (w * h) * 8) * 3) / 2);; mret 0) s
    (fun r s' => ready (plan_step p (i, 0x01000001)) s' /\ in_session (plan_step p (i, 0x01000001)) s' /\ same_place s s').
Proof.
  intros H Hs Hsub Hi Hfit. assert (Hw : ib_words s = Z.of_nat (length l0)) by (unfold ib_words; by rewrite (rd_len p s H)).
  eapply (returns_bind _ _ _ (fun v s' => s' = s /\ stream s !! Z.to_nat (i + 8) = Some v)); [apply ib_value_returns; [lia|done]|]. intros w ? [-> Ew].
  eapply (returns_bind _ _ _ (fun v s' => s' = s /\ stream s !! Z.to_nat (i + 10) = Some v)); [apply ib_value_returns; [lia|done]|]. intros h ? [-> Eh].
  apply (word_submitted p i) in Ew, Eh; [|done|done|lia..|done|done|lia]. unfold plan_step. cbn [fst snd Z.eqb Pos.eqb]. rewrite Ew, Eh.
  eapply returns_bind; [apply (size_store_returns p (image_size w h)); [done|done|apply image_size_u32]|intros u s1 H1; by apply returns_ret].
Qed.
Lemma create_returns p i s :
  ready p s -> in_session p s -> as_submitted i s -> 0 <= i -> i + 11 <= Z.of_nat (length l0) -> returns (cmd_create i) s (fun r s' => r = 0 -> went_well p (i, 0x01000001) s s').
Proof.
  intros H Hs Hsub Hi Hfit. apply returns_gets. unfold id. apply (session_bit_returns p); [done|]. apply returns_modify. destruct (_ || _); [|by apply returns_ret].
  assert (Hrest : forall s', ready p s' -> in_session p s' -> same_place s s' ->
    returns (w ← ib_value (i + 8); h ← ib_value (i + 10); size_store (u32 (u32 (u32 (w * h) * 8) * 3) / 2);; mret 0) s' (fun r s'' => r = 0 -> went_well p (i, 0x01000001) s s'')).
  { intros s' R1 R2 [R3 R4]. eapply returns_weaken; [apply (create_size_returns p); [done|done| |done|done]|]; [intros j Hj; rewrite R3; by apply Hsub|].
    cbn beta. intros r s2 (R5 & R6 & R7 & R8) _. apply plain_well; [done|done|done|congruence|congruence]. }
  destruct (negb _); [apply returns_modify|]; apply Hrest; (by destruct H; constructor) || done.
Qed.

(** One address in words [i + 2] and [i + 3]. *)
Lemma patch_frame (l : list Z) lo hi a h j :
  0 <= lo -> 0 <= hi -> 0 <= j -> j <> lo -> j <> hi -> <[Z.to_nat hi := h]> (<[Z.to_nat lo := a]> l) !! Z.to_nat j = l !! Z.to_nat j.
Proof. intros ?????. by rewrite !list_lookup_insert_ne by lia. Qed.
Lemma one_address_returns p cmd sz index i s :
  ready p s -> in_session p s -> as_submitted i s -> 0 <= i -> i + 4 <= i + operands cmd <= Z.of_nat (length l0) -> 0 <= sz < 2 ^ 32 ->
  plan_step p (i, cmd) = p -> address_words (i, cmd) = [i + 2; i + 3] ->
  (forall l, reloc_ok bo_list gpu_offset l0 l (i + 3) (i + 2) sz index -> command_ok p l (i, cmd)) ->
  returns (amdgpu_vce_cs_reloc bo_list gpu_offset (i + 3) (i + 2) sz index) s (fun r s' => r = 0 -> went_well p (i, cmd) s s').
Proof.
  intros H Hs Hsub Hi Hfit Hsz Hp Haw Hok. assert (Hw : ib_words s = Z.of_nat (length l0)) by (unfold ib_words; by rewrite (rd_len p s H)).
  eapply returns_weaken; [apply (reloc_returns _ _ l0); [done|done|lia|lia|lia|apply Hsub; lia|apply Hsub; lia]|]. cbn beta. intros r s' Hr Er.
  destruct (Hr Er) as (a & h & -> & Hrel). cbn [stream set_stream] in *. unfold went_well. rewrite Hp, Haw.
  split; [apply ready_stream; [by rewrite !length_insert; apply (rd_len p s H)|done]|]. split; [done|]. split; [done|]. split; [by apply Hok|].
  cbn [stream set_stream]. intros j Hj Hout. apply patch_frame; [lia..|set_solver|set_solver].
Qed.

Lemma encode_returns p i s :
  ready p s -> in_session p s -> as_submitted i s -> 0 <= i -> i + 13 <= Z.of_nat (length l0) ->
  returns (cmd_encode bo_list gpu_offset i) s (fun r s' => r = 0 -> went_well p (i, 0x03000001) s s').
Proof.
  intros H Hs Hsub Hi Hfit. assert (Hw : ib_words s = Z.of_nat (length l0)) by (unfold ib_words; by rewrite (rd_len p s H)).
  destruct (size_value_run p s H Hs) as (Hsz & Er & Er'). set (sz := p_size p) in *.
  apply (returns_bind _ _ _ (fun v s' => s' = s /\ v = sz)); [by exists sz, s|]. intros ? ? [-> ->].
  eapply returns_bind; [apply (reloc_returns _ _ l0); [done|done|lia|lia|lia|apply Hsub; lia|apply Hsub; lia]|]. cbn beta. intros r s1 H1.
  destruct (Z.eqb_spec r 0) as [->|Hne]; cbn [negb]; [|by apply returns_ret].
  destruct (H1 eq_refl) as (a1 & h1 & -> & Hrel1). set (l1 := <[Z.to_nat (i + 9) := h1]> (<[Z.to_nat (i + 10) := a1]> (stream s))) in *.
  assert (Hlen1 : length l1 = length l0) by (subst l1; rewrite !length_insert; apply (rd_len p s H)).
  assert (Hsz3 : 0 <= sz / 3 < 2 ^ 32) by (split; [apply Z.div_pos; lia|apply Z.div_lt_upper_bound; lia]).
  assert (Hsub1 : forall j, i + 11 <= j -> l1 !! Z.to_nat j = l0 !! Z.to_nat j) by (intros j Hj; subst l1; rewrite patch_frame by lia; apply Hsub; lia).
  apply (returns_bind _ _ _ (fun v s' => s' = set_stream l1 s /\ v = sz)); [by exists sz, (set_stream l1 s)|].
  intros ? ? [-> ->]. eapply returns_weaken; [apply (reloc_returns _ _ l0); [done|done|unfold ib_words; cbn; lia..|lia|apply Hsub1; lia|apply Hsub1; lia]|]. cbn beta. intros r s2 H2 Hr.
  destruct (H2 Hr) as (a2 & h2 & -> & Hrel2). cbn [stream set_stream] in *.
  assert (Hfr : forall j, 0 <= j -> j <> i + 12 -> j <> i + 11 -> <[Z.to_nat (i + 11) := h2]> (<[Z.to_nat (i + 12) := a2]> l1) !! Z.to_nat j = l1 !! Z.to_nat j) by (intros j Hj Hout; apply patch_frame; lia).
  split; [apply ready_stream; [by rewrite !length_insert|]; by apply ready_stream|]. split; [done|]. split; [done|]. split.
  - unfold command_ok. cbn [fst snd stream set_stream]. cbv zeta. split; [|done]. intros _. split; [|done].
    apply (reloc_ok_ext l1); [apply Hfr; lia|apply Hfr; lia|done].
  - intros j Hj Hout. cbn [stream set_stream]. change (address_words (i, 0x03000001)) with [i + 9; i + 10; i + 11; i + 12] in Hout. rewrite Hfr by set_solver by lia.
    subst l1. apply patch_frame; [lia..|set_solver|set_solver].
Qed.

Lemma same_plan p cmd i : cmd <> 1 -> cmd <> 2 -> cmd <> 0x01000001 -> plan_step p (i, cmd) = p.
Proof. intros N1 N2 N3. unfold plan_step. cbn [fst snd]. by rewrite !(proj2 (Z.eqb_neq _ _)) by done. Qed.
Lemma command_returns p cmd i s :
  ready p s -> in_session p s \/ cmd = 1 -> as_submitted i s -> 0 <= i -> i + operands cmd <= Z.of_nat (length l0) ->
  returns (vce_command bo_list gpu_offset filp config_cik asic_type cmd i) s (fun r s' => r = 0 -> went_well p (i, cmd) s s').
Proof.
  intros H Hs Hsub Hi Hfit. unfold vce_command. destruct (Z.eqb_spec cmd 1) as [->|N1]; [by apply session_returns|]. destruct Hs as [Hs|]; [|done].
  assert (Hw : ib_words s = Z.of_nat (length l0)) by (unfold ib_words; by rewrite (rd_len p s H)).
  destruct (Z.eqb_spec cmd 2) as [->|N2]; [by apply task_returns|]. destruct (Z.eqb_spec cmd 0x01000001) as [->|N3]; [by apply create_returns|].
  pose proof (same_plan p cmd i N1 N2 N3) as Hp.
  destruct (passed_on cmd) eqn:Ep; [apply returns_ret; intros _; apply plain_well; rewrite ?Hp; [|done..]|].
  { unfold passed_on in Ep. apply bool_decide_eq_true in Ep. rewrite !elem_of_cons in Ep. unfold has_address. cbn [snd]. rewrite !orb_false_iff, !Z.eqb_neq. set_solver by lia. }
  destruct (Z.eqb_spec cmd 0x0500000c) as [->|N4]; [apply returns_ret; intros _; by apply plain_well|]. destruct (Z.eqb_spec cmd 0x03000001) as [->|N5]; [by apply encode_returns|].
  destruct (Z.eqb_spec cmd 0x02000001) as [->|N6]; [by apply destroy_returns|].
  destruct (Z.eqb_spec cmd 0x05000001) as [->|N7].
  { destruct (size_value_run p s H Hs) as (_ & Er & _). apply (returns_bind _ _ _ (fun v s' => s' = s /\ v = p_size p)); [by exists (p_size p), s|]. intros ? ? [-> ->].
    by apply one_address_returns; [..|unfold u32; apply Z.mod_pos_bound; lia| | |]. }
  destruct (Z.eqb_spec cmd 0x05000004) as [->|N8].
  { apply (returns_bind _ _ _ (fun v s' => s' = s /\ stream s !! Z.to_nat (i + 4) = Some v)); [apply ib_value_returns; [cbn in Hfit; lia|done]|]. intros sz ? [-> Esz].
    apply returns_modify, returns_gets. unfold id. cbn [bs_idx set_tmp]. assert (Eb : p_bs p = bs_idx s) by by rewrite <- (rd_plan p s H).
    apply (one_address_returns p 0x05000004 sz _ i (set_tmp sz s)); [by destruct H; constructor|done|done|done|cbn in Hfit |- *; lia| |done|done|].
    - rewrite Hsub in Esz by lia. exact (proj1 (Forall_lookup _ _) Hl32 _ _ Esz).
    - intros l Hr. split; [done|]. split; [done|]. split; [|done]. cbn [fst snd]. intros _. by rewrite (word_submitted p i (i + 4) s sz), Eb by (done || lia). }
  destruct (Z.eqb_spec cmd 0x05000005) as [->|N9]; [|by apply returns_ret].
  apply returns_gets. unfold id. assert (Ef : p_fb p = fb_idx s) by by rewrite <- (rd_plan p s H). rewrite <- Ef. by apply one_address_returns.
Qed.
(** ** The walk *)

Lemma layout_cons k i cs :
  layout (S k) l0 i = Some cs -> i < Z.of_nat (length l0) ->
  exists len cmd rest, l0 !! Z.to_nat i = Some len /\ l0 !! Z.to_nat (i + 1) = Some cmd /\ (len <? 8) || negb (Z.land len 3 =? 0) = false /\
    operands cmd <= len / 4 /\ i + operands cmd <= Z.of_nat (length l0) /\ layout k l0 (i + len / 4) = Some rest /\ cs = (i, cmd) :: rest.
Proof.
  cbn [layout]. intros H Hi. destruct (Z.leb_spec (Z.of_nat (length l0)) i); [lia|]. destruct (l0 !! Z.to_nat i) as [len|]; [|done]. cbn [mbind option_bind] in H.
  destruct (l0 !! Z.to_nat (i + 1)) as [cmd|]; [|done]. cbn [mbind option_bind] in H. exists len, cmd. destruct ((len <? 8) || negb (Z.land len 3 =? 0)); [done|]. cbn [orb] in H.
  destruct (Z.ltb_spec (len / 4) (operands cmd)); [done|]. destruct (Z.ltb_spec (Z.of_nat (length l0)) (i + operands cmd)); [done|]. cbn [orb] in H.
  destruct (layout k l0 (i + len / 4)) as [rest|]; [|done]. cbn [mbind option_bind] in H. apply (inj Some) in H as <-. by exists rest.
Qed.

Context (Hshort : Z.of_nat (length l0) <= 2 ^ 30).

Lemma turn_returns p i len cmd s :
  ready p s -> in_session p s \/ cmd = 1 -> as_submitted i s -> pos s = i -> 0 <= i < Z.of_nat (length l0) ->
  l0 !! Z.to_nat i = Some len -> l0 !! Z.to_nat (i + 1) = Some cmd -> (len <? 8) || negb (Z.land len 3 =? 0) = false -> operands cmd <= len / 4 -> i + operands cmd <= Z.of_nat (length l0) ->
  returns (vce_turn bo_list gpu_offset filp config_cik asic_type) s
    (fun r s' => r = 0 -> exists s1, went_well p (i, cmd) s s1 /\ s' = set_pos (i + len / 4) s1).
Proof.
  intros H Hs Hsub Ep Hi El Ec Hlen Hop Hfit. pose proof (operands_pos cmd). assert (Hw : ib_words s = Z.of_nat (length l0)) by (unfold ib_words; by rewrite (rd_len p s H)).
  apply returns_gets. unfold id. cbv zeta. rewrite Ep.
  apply (returns_bind _ _ _ (fun v s' => s' = s /\ v = len)); [apply ib_value_returns; [lia|]; rewrite Hsub by lia; intros v Ev; split; congruence|]. intros ? ? [-> ->].
  apply (returns_bind _ _ _ (fun v s' => s' = s /\ v = cmd)); [apply ib_value_returns; [lia|]; rewrite Hsub by lia; intros v Ev; split; congruence|]. intros ? ? [-> ->]. rewrite Hlen.
  eapply returns_bind; [apply (command_returns p); [done|done|done|lia|done]|]. cbn beta. intros r s1 Hr. destruct (Z.eqb_spec r 0) as [->|Hne]; cbn [negb]; [|by apply returns_ret].
  specialize (Hr eq_refl). apply returns_gets. unfold id. pose proof Hr as (_ & (Hsi & _) & _). destruct (Z.eqb_spec (session_idx s1) (-1)); [lia|]. apply returns_modify, returns_ret. intros _.
  exists s1. split; [done|]. f_equal. assert (H32 : is_u32 len) by exact (proj1 (Forall_lookup _ _) Hl32 _ _ El). unfold is_u32 in H32. pose proof (Z.div_lt_upper_bound len 4 (2 ^ 30) ltac:(lia) ltac:(lia)).
  apply s32_small. unfold is_s32. lia.
Qed.

Lemma vce_loop_returns p0 k i cs dn s :
  layout k l0 i = Some cs -> ready (foldl plan_step p0 dn) s -> in_session (foldl plan_step p0 dn) s \/ (forall c, head cs = Some c -> c.2 = 1) -> as_submitted i s ->
  pos s = i -> 0 <= i < 2 ^ 31 -> Forall (fun c => 0 <= c.1 /\ c.1 + operands c.2 <= i) dn -> commands_ok p0 (stream s) dn ->
  (forall j, 0 <= j -> (forall c, c ∈ dn -> j ∉ address_words c) -> stream s !! Z.to_nat j = l0 !! Z.to_nat j) ->
  returns (vce_loop bo_list gpu_offset filp config_cik asic_type k) s (fun r s' => r = 0 -> commands_ok p0 (stream s') (dn ++ cs) /\
    forall j, 0 <= j -> (forall c, c ∈ dn ++ cs -> j ∉ address_words c) -> stream s' !! Z.to_nat j = l0 !! Z.to_nat j).
Proof.
  revert i cs dn s. induction k as [|k IH]; intros i cs dn s Hlay H Hs Hsub Ep Hi Hdn Hok Hrest; [done|]. cbn [vce_loop]. apply returns_gets. unfold id, ib_words.
  rewrite (rd_len _ s H), Ep, u32_small by (unfold is_u32; lia). destruct (Z.ltb_spec i (Z.of_nat (length l0))) as [Hlt|Hge].
  - destruct (layout_cons k i cs Hlay Hlt) as (len & cmd & rest & El & Ec & Hlen & Hop & Hfit & Hlay' & ->).
    eapply returns_bind; [apply (turn_returns (foldl plan_step p0 dn) i len cmd); try done; [destruct Hs as [?|Hs]; [by left|right; by apply (Hs (i, cmd))]|lia]|]. cbn beta.
    intros r s' Hr. destruct (Z.eqb_spec r 0) as [->|Hne]; cbn [negb]; [|by apply returns_ret]. destruct (Hr eq_refl) as (s1 & (R1 & R2 & R3 & R4 & R5) & ->).
    assert (H32 : is_u32 len) by exact (proj1 (Forall_lookup _ _) Hl32 _ _ El). unfold is_u32 in H32. pose proof (Z.div_lt_upper_bound len 4 (2 ^ 30) ltac:(lia) ltac:(lia)). pose proof (operands_pos cmd).
    assert (Hout : forall j, j < i \/ i + operands cmd <= j -> j ∉ address_words (i, cmd)) by (intros j Hj Hin; apply address_words_inside in Hin; cbn in Hin; lia).
    rewrite cons_middle, app_assoc. apply (IH (i + len / 4)); rewrite ?foldl_app; [done|by destruct R1; constructor|by left| |done|lia|..].
    + intros j Hj. cbn [stream set_pos]. rewrite R5 by (lia || (apply Hout; lia)). apply Hsub. lia.
    + apply Forall_app. split; [|apply Forall_singleton; cbn; lia]. eapply Forall_impl; [exact Hdn|]. cbn beta. lia.
    + apply commands_ok_app. split; [|cbn; split; [exact R4|done]]. apply (commands_ok_ext _ (stream s) _ i); [done| |done]. intros j Hj. cbn [stream set_pos]. apply R5; [lia|apply Hout; lia].
    + intros j Hj Haw. cbn [stream set_pos]. rewrite R5; [|done|apply Haw; set_solver]. apply Hrest; [done|]. intros c Hc. apply Haw. set_solver.
  - cbn [layout] in Hlay. destruct (Z.leb_spec (Z.of_nat (length l0)) i); [|lia]. apply (inj Some) in Hlay as <-. apply returns_ret. intros _. by rewrite app_nil_r.
Qed.
End commands.


(** ** Streams *)

Lemma sample_vce_maps : vce_maps_wf sample_list (fun _ => 0x100000).
Proof.
  split; [exact sample_maps_wf|]. intros addr m b. unfold amdgpu_cs_find_mapping, sample_list. cbn [find_entry valids invalids app bo].
  rewrite filter_cons. destruct (decide _); [|done]. by intros [= <- <-].
Qed.
(** Session 7 is created with an image of 3072 bytes and encodes into the
    object at page 16. *)
Definition encode_cmd : list Z := [52; 0x03000001; 0; 0; 0; 0; 0; 0; 0; 0; 0x10000; 0; 0x11000].
Definition encode_stream : list Z := create_stream ++ encode_cmd ++ [16; 0x05000001; 0; 0x10000].


(** A fresh session has no image size: an encode command before the create
    command is accepted with an address at the last byte of the object. *)
Lemma encode_before_create :
  exists s, amdgpu_vce_ring_parse_cs sample_list (fun _ => 0x100000) 1 false CHIP_CARRIZO 0 0
    ([12; 1; 7] ++ [52; 0x03000001; 0; 0; 0; 0; 0; 0; 0; 0; 0x11fff; 0; 0x11fff] ++ drop 3 create_stream) busy_table = Ok (0, s) /\
    vce_img_size (table s) !! 1%nat = Some 3072 /\ stream s !! 13%nat = Some 0x101fff.
Proof.
  destruct (amdgpu_vce_ring_parse_cs sample_list (fun _ => 0x100000) 1 false CHIP_CARRIZO 0 0
    ([12; 1; 7] ++ [52; 0x03000001; 0; 0; 0; 0; 0; 0; 0; 0; 0x11fff; 0; 0x11fff] ++ drop 3 create_stream) busy_table) as [[r s]| |] eqn:E; [|vm_compute in E; discriminate..].
  vm_compute in E. injection E as <- <-. eexists. split; [reflexivity|]. by split.
Qed.
(** Operands are read without a test that they lie in the stream, and the bit
    of a session is computed before there is one. *)
Lemma operands_not_checked : amdgpu_vce_ring_parse_cs None (fun _ => 0) 1 false CHIP_CARRIZO 0 0 [8; 1] busy_table = Fault.
Proof. reflexivity. Qed.
Lemma destroy_without_session : amdgpu_vce_ring_parse_cs None (fun _ => 0) 1 false CHIP_CARRIZO 0 0 [8; 0x02000001] busy_table = Fault.
Proof. reflexivity. Qed.
