(* ===== verification/BoList.v ===== *)
(** * Buffer lists ([amdgpu/amdgpu_bo_list.c])

    A buffer list names the objects of a submission.  The array of a list holds
    a reference to every object, objects in user memory at its end; a submission
    reserves the objects in the order of their priorities. *)

From stdpp Require Import base numbers list gmap.
From S2P Require Import Prelude CMonad.

Definition EFAULT : Z := 14.
Definition AMDGPU_BO_LIST_MAX_PRIORITY : Z := 32.
Definition AMDGPU_BO_LIST_NUM_BUCKETS : nat := 33.
Definition AMDGPU_GEM_DOMAIN_GDS : Z := 0x8.
Definition AMDGPU_GEM_DOMAIN_GWS : Z := 0x10.
Definition AMDGPU_GEM_DOMAIN_OA : Z := 0x20.

Record list_entry := ListEntry { robj : option Z; priority : Z }.
(** [struct amdgpu_bo_list]; [num_entries] is the length of the array. *)
Record amdgpu_bo_list := BoList { gds_obj : Z; gws_obj : Z; oa_obj : Z; first_userptr : Z; array : list list_entry }.
(** The reference counts of objects, and the lists of a file. *)
Record bo_world := BoWorld { bo_refs : Z -> Z; bo_lists : gmap Z amdgpu_bo_list }.
Notation BM := (M bo_world).

Definition set_refs (r : Z -> Z) (w : bo_world) : bo_world := BoWorld r (bo_lists w).
Definition set_lists (l : gmap Z amdgpu_bo_list) (w : bo_world) : bo_world := BoWorld (bo_refs w) l.
(** An object without references has been freed. *)
Definition amdgpu_bo_ref (b : Z) : BM unit :=
  w ← gets id; if bo_refs w b <=? 0 then fault else modify (set_refs (fun x => if x =? b then bo_refs w b + 1 else bo_refs w x)).
Definition amdgpu_bo_unref (o : option Z) : BM unit :=
  match o with
  | None => mret tt
  | Some b => w ← gets id; if bo_refs w b <=? 0 then fault else modify (set_refs (fun x => if x =? b then bo_refs w b - 1 else bo_refs w x))
  end.
Fixpoint unref_all (l : list list_entry) : BM unit :=
  match l with [] => mret tt | e :: l => amdgpu_bo_unref (robj e);; unref_all l end.

Section set.
(** Handles of the file, the address space an object's pages belong to (0 if
    none), and its domains; the caller's address space; the device's objects. *)
Context (gem_lookup : Z -> option Z) (usermm : Z -> Z) (prefered_domains : Z -> Z) (current_mm : Z) (gds0 gws0 oa0 : Z).

(** The variables of the loop. *)
Record set_state := SetState { arr : list list_entry; last_entry : Z; user_first : Z; gds : Z; gws : Z; oa : Z }.
(** [error_free]: the first [i] entries are released, from the last to the first. *)
Definition error_free (i : nat) (a : list list_entry) : BM unit := unref_all (rev (take i a)).

(** The entry of an object, and the objects of the special domains. *)
Definition place_entry (b prio : Z) (st : set_state) : option set_state :=
  let user := negb (usermm b =? 0) in
  let at_ := if user then u32 (user_first st - 1) else last_entry st in
  if (0 <=? at_) && (at_ <? Z.of_nat (length (arr st))) then
    Some (SetState (<[Z.to_nat at_ := ListEntry (Some b) (Z.min prio AMDGPU_BO_LIST_MAX_PRIORITY)]> (arr st))
      (if user then last_entry st else u32 (last_entry st + 1)) (if user then at_ else user_first st)
      (if prefered_domains b =? AMDGPU_GEM_DOMAIN_GDS then b else gds st)
      (if prefered_domains b =? AMDGPU_GEM_DOMAIN_GWS then b else gws st)
      (if prefered_domains b =? AMDGPU_GEM_DOMAIN_OA then b else oa st))
  else None.

Fixpoint set_loop (info : list (Z * Z)) (i : nat) (st : set_state) : BM (Z + set_state) :=
  match info with
  | [] => mret (inr st)
  | (handle, prio) :: info =>
      match gem_lookup handle with
      | None => error_free i (arr st);; mret (inl (- ENOENT))
      | Some b =>
          amdgpu_bo_ref b;;
          if negb (usermm b =? 0) && negb (usermm b =? current_mm) then
            amdgpu_bo_unref (Some b);; error_free i (arr st);; mret (inl (- EPERM))
          else st' ← deref (place_entry b prio st); set_loop info (S i) st'
      end
  end.

Definition amdgpu_bo_list_set (malloc : bool) (id : Z) (info : list (Z * Z)) : BM Z :=
  if negb malloc then mret (- ENOMEM)
  else
    let n := length info in
    x ← set_loop info 0 (SetState (replicate n (ListEntry None 0)) 0 (Z.of_nat n) gds0 gws0 oa0);
    match x with
    | inl e => mret e
    | inr st =>
        w ← gets Datatypes.id;
        l ← deref (bo_lists w !! id);
        unref_all (array l);;
        modify (fun w => set_lists (<[id := BoList (gds st) (gws st) (oa st) (user_first st) (arr st)]> (bo_lists w)) w);;
        mret 0
    end.

(** The new list, under the identifier that the allocator gives, or its error. *)
Definition amdgpu_bo_list_create (malloc : bool) (idr : Z) : BM Z :=
  if negb malloc then mret (- ENOMEM)
  else if idr <? 0 then mret idr
  else modify (fun w => set_lists (<[idr := BoList 0 0 0 0 []]> (bo_lists w)) w);; mret 0.

Definition amdgpu_bo_list_free (l : amdgpu_bo_list) : BM unit := unref_all (array l).
Definition amdgpu_bo_list_destroy (id : Z) : BM unit :=
  w ← gets Datatypes.id;
  match bo_lists w !! id with
  | Some l => modify (set_lists (delete id (bo_lists w)));; amdgpu_bo_list_free l
  | None => mret tt
  end.

(** The operations of the ioctl; [info] is the array copied from user space, if
    that succeeds. *)
Inductive list_op := OpCreate (malloc : bool) (idr : Z) | OpDestroy | OpUpdate | OpOther.
Definition amdgpu_bo_list_ioctl (op : list_op) (handle : Z) (info_malloc set_malloc : bool) (info : option (list (Z * Z))) : BM (Z * Z) :=
  if negb info_malloc then mret (- ENOMEM, 0)
  else
    match info with
    | None => mret (- EFAULT, 0)
    | Some info =>
        match op with
        | OpCreate malloc idr =>
            r ← amdgpu_bo_list_create malloc idr;
            if negb (r =? 0) then mret (r, 0)
            else r ← amdgpu_bo_list_set set_malloc idr info; mret (if negb (r =? 0) then (r, 0) else (0, idr))
        | OpDestroy => amdgpu_bo_list_destroy handle;; mret (0, 0)
        | OpUpdate =>
            w ← gets Datatypes.id;
            match bo_lists w !! handle with
            | None => mret (- ENOENT, 0)
            | Some _ => r ← amdgpu_bo_list_set set_malloc handle info; mret (if negb (r =? 0) then (r, 0) else (0, handle))
            end
        | OpOther => mret (- EINVAL, 0)
        end
    end.
End set.

(** ** The order of a submission *)

(** [list_add_tail] to the bucket of the priority. *)
Fixpoint fill_buckets (l : list list_entry) (buckets : list (list list_entry)) : option (list (list list_entry)) :=
  match l with
  | [] => Some buckets
  | e :: l => b ← buckets !! Z.to_nat (priority e); fill_buckets l (<[Z.to_nat (priority e) := (b ++ [e])]> buckets)
  end.
(** [list_splice] puts a bucket in front. *)
Definition splice_buckets (buckets : list (list list_entry)) (validated : list list_entry) : list list_entry :=
  foldl (fun v b => b ++ v) validated buckets.
Definition amdgpu_bo_list_get_list (l : amdgpu_bo_list) (validated : list list_entry) : option (list list_entry) :=
  buckets ← fill_buckets (array l) (replicate AMDGPU_BO_LIST_NUM_BUCKETS []);
  Some (splice_buckets buckets validated).
