(* ===== verification/BoListSpec.v ===== *)
(** * Buffer lists: references and order

    [accounted] is the invariant of the reference counts: an object has a
    reference for every entry of a list, on top of what its handles hold. *)

From stdpp Require Import base numbers list gmap sorting.
From S2P Require Import Prelude CMonad BoList.

(** ** References *)

Definition objs (l : list list_entry) : list Z := omap robj l.
Lemma objs_app l k : objs (l ++ k) = objs l ++ objs k.
Proof. apply omap_app. Qed.
Lemma objs_rev l : objs (rev l) ≡ₚ objs l.
Proof. unfold objs. by rewrite <- (Permutation_rev l). Qed.
Lemma objs_insert l i e b p : l !! i = Some e -> robj e = None -> objs (<[i := ListEntry (Some b) p]> l) ≡ₚ b :: objs l.
Proof.
  intros E He. pose proof (lookup_lt_Some _ _ _ E). rewrite insert_take_drop by done. rewrite <- (take_drop_middle l i e E) at 3. rewrite !objs_app. cbn. rewrite He. by rewrite Permutation_middle.
Qed.

Lemma unref_run b w : 0 < bo_refs w b -> exists r, amdgpu_bo_unref (Some b) w = Ok (tt, set_refs r w) /\ forall x, r x = bo_refs w x - occ x [b].
Proof.
  intros H. cbn [amdgpu_bo_unref]. rewrite (bind_eval (gets id) _ w w w eq_refl). unfold id. destruct (Z.leb_spec (bo_refs w b) 0); [lia|]. eexists. split; [reflexivity|].
  intros x. cbn beta. rewrite occ_cons, occ_nil. destruct (Z.eqb_spec x b) as [->|Hne]; [rewrite decide_True by done; lia|rewrite decide_False by done; lia].
Qed.
Lemma ref_run b w : 0 < bo_refs w b -> exists r, amdgpu_bo_ref b w = Ok (tt, set_refs r w) /\ forall x, r x = bo_refs w x + occ x [b].
Proof.
  intros H. unfold amdgpu_bo_ref. rewrite (bind_eval (gets id) _ w w w eq_refl). unfold id. destruct (Z.leb_spec (bo_refs w b) 0); [lia|]. eexists. split; [reflexivity|].
  intros x. cbn beta. rewrite occ_cons, occ_nil. destruct (Z.eqb_spec x b) as [->|Hne]; [rewrite decide_True by done; lia|rewrite decide_False by done; lia].
Qed.
Lemma unref_all_run l w :
  (forall x, occ x (objs l) <= bo_refs w x) -> exists r, unref_all l w = Ok (tt, set_refs r w) /\ forall x, r x = bo_refs w x - occ x (objs l).
Proof.
  revert w. induction l as [|e l IH]; intros w H; cbn [unref_all].
  - exists (bo_refs w). split; [by destruct w|]. intros x. change (objs []) with (@nil Z). rewrite occ_nil. lia.
  - destruct (robj e) as [b|] eqn:Eb.
    + assert (Hc : objs (e :: l) = b :: objs l) by (unfold objs; cbn; by rewrite Eb). rewrite Hc in *.
      destruct (unref_run b w) as (r & E & Hr). { specialize (H b). rewrite occ_cons, decide_True in H by done. pose proof (occ_range b (objs l)). lia. }
      rewrite (bind_eval _ _ _ _ _ E). destruct (IH (set_refs r w)) as (r' & E' & Hr').
      { intros x. cbn [bo_refs set_refs]. rewrite Hr, occ_cons, occ_nil. specialize (H x). rewrite occ_cons in H. lia. }
      exists r'. split; [exact E'|]. intros x. rewrite Hr'. cbn [bo_refs set_refs]. rewrite Hr, !occ_cons, occ_nil. lia.
    + assert (Hc : objs (e :: l) = objs l) by (unfold objs; cbn; by rewrite Eb). rewrite Hc in *. cbn [amdgpu_bo_unref]. exact (IH w H).
Qed.

(** ** The loop that fills the array *)

Section set_loop.
Context (gem_lookup : Z -> option Z) (usermm : Z -> Z) (prefered_domains : Z -> Z) (current_mm : Z).
(** The counts before, which hold a reference for every handle. *)
Context (n : nat) (r0 : Z -> Z) (Hr0 : forall h b, gem_lookup h = Some b -> 0 < r0 b) (Hn : Z.of_nat n < 2 ^ 32).

(** The array after [i] objects: a hole between the two ends. *)
Record filling (i : nat) (st : set_state) : Prop := Filling {
  fl_len : length (arr st) = n;
  fl_range : 0 <= last_entry st <= user_first st /\ user_first st <= Z.of_nat n;
  fl_count : Z.of_nat i = last_entry st + (Z.of_nat n - user_first st);
  fl_hole : forall j, last_entry st <= Z.of_nat j < user_first st -> arr st !! j = Some (ListEntry None 0);
  fl_user : (forall b, usermm b = 0) -> user_first st = Z.of_nat n }.
Definition holds (w : bo_world) (l : list Z) : Prop := forall x, bo_refs w x = r0 x + occ x l.

Lemma place_ok i st b prio :
  filling i st -> (i < n)%nat -> exists st', place_entry usermm prefered_domains b prio st = Some st' /\ filling (S i) st' /\ objs (arr st') ≡ₚ b :: objs (arr st).
Proof.
  intros [H1 H2 H3 H4 H5] Hi. unfold place_entry. cbv zeta. destruct (Z.eqb_spec (usermm b) 0) as [Eu|Nu]; cbn [negb].
  - destruct (Z.leb_spec 0 (last_entry st)); [|lia]. destruct (Z.ltb_spec (last_entry st) (Z.of_nat (length (arr st)))); [|lia]. cbn [andb]. eexists. split; [reflexivity|].
    rewrite u32_small by (unfold is_u32; lia). split; [|cbn; by eapply objs_insert; [apply H4; lia|]]. constructor; cbn; [by rewrite length_insert|lia|lia| |done].
    intros j Hj. rewrite list_lookup_insert_ne by lia. apply H4. lia.
  - rewrite u32_small by (unfold is_u32; lia). destruct (Z.leb_spec 0 (user_first st - 1)); [|lia]. destruct (Z.ltb_spec (user_first st - 1) (Z.of_nat (length (arr st)))); [|lia]. cbn [andb].
    eexists. split; [reflexivity|]. split; [|cbn; by eapply objs_insert; [apply H4; lia|]]. constructor; cbn; [by rewrite length_insert|lia|lia| |].
    + intros j Hj. rewrite list_lookup_insert_ne by lia. apply H4. lia.
    + intros Hall. by rewrite Hall in Nu.
Qed.

(** Without objects in user memory, nothing is left behind the released part. *)
Lemma no_leak i st : filling i st -> (forall b, usermm b = 0) -> objs (drop i (arr st)) = [].
Proof.
  intros [H1 H2 H3 H4 H5] Hall. specialize (H5 Hall). unfold objs. apply elem_of_nil_inv. intros x Hx. apply list_elem_of_omap in Hx as (e & He & Ex).
  apply list_elem_of_lookup in He as [j Ej]. rewrite lookup_drop in Ej. pose proof (lookup_lt_Some _ _ _ Ej). rewrite H4 in Ej by lia. apply (inj Some) in Ej as <-. done.
Qed.

Lemma release_run i st w :
  filling i st -> holds w (objs (arr st)) -> (forall x, 0 <= r0 x) ->
  exists r, error_free i (arr st) w = Ok (tt, set_refs r w) /\ forall x, r x = r0 x + occ x (objs (drop i (arr st))).
Proof.
  intros Hf Hw Hp. assert (Hs : forall x, occ x (objs (arr st)) = occ x (objs (take i (arr st))) + occ x (objs (drop i (arr st)))).
  { intros x. by rewrite <- occ_app, <- objs_app, take_drop. }
  destruct (unref_all_run (rev (take i (arr st))) w) as (r & E & Hr).
  - intros x. rewrite objs_rev, Hw, Hs. specialize (Hp x). pose proof (occ_range x (objs (drop i (arr st)))). lia.
  - exists r. split; [exact E|]. intros x. rewrite Hr, objs_rev, Hw, Hs. lia.
Qed.

(** The loop either fills the array, or releases it, up to a leak. *)
Lemma set_loop_run info i st w :
  filling i st -> (i + length info)%nat = n -> holds w (objs (arr st)) -> (forall x, 0 <= r0 x) ->
  exists x r, set_loop gem_lookup usermm prefered_domains current_mm info i st w = Ok (x, set_refs r w) /\
    match x with
    | inr st' => filling n st' /\ holds (set_refs r w) (objs (arr st'))
    | inl e => e <> 0 /\ exists leak, holds (set_refs r w) leak /\ ((forall b, usermm b = 0) -> leak = [])
    end.
Proof.
  revert i st w. induction info as [|[h prio] info IH]; intros i st w Hf Hi Hw Hp; cbn [set_loop length] in *.
  - exists (inr st), (bo_refs w). split; [by destruct w|]. rewrite Nat.add_0_r in Hi. by subst i.
  - assert (Herr : forall e w', holds w' (objs (arr st)) -> bo_lists w' = bo_lists w -> e <> 0 ->
      exists x r, (error_free i (arr st);; mret (inl e)) w' = Ok (x, set_refs r w) /\
        match x with inr st' => filling n st' /\ holds (set_refs r w) (objs (arr st')) | inl e => e <> 0 /\ exists leak, holds (set_refs r w) leak /\ ((forall b, usermm b = 0) -> leak = []) end).
    { intros e w' Hw' El He. destruct (release_run i st w' Hf Hw' Hp) as (r & E & Hr). exists (inl e), r. rewrite (bind_eval _ _ _ _ _ E). unfold set_refs. rewrite El.
      split; [done|]. split; [done|]. exists (objs (drop i (arr st))). split; [exact Hr|]. by apply no_leak. }
    destruct (gem_lookup h) as [b|] eqn:Eb; [|by apply Herr].
    assert (Hb : 0 < bo_refs w b) by (rewrite Hw; specialize (Hr0 h b Eb); pose proof (occ_range b (objs (arr st))); lia).
    destruct (ref_run b w Hb) as (r1 & E1 & Hr1). rewrite (bind_eval _ _ _ _ _ E1). destruct (_ && _).
    + destruct (unref_run b (set_refs r1 w)) as (r2 & E2 & Hr2). { cbn. rewrite Hr1. pose proof (occ_range b [b]). lia. }
      rewrite (bind_eval _ _ _ _ _ E2). apply Herr; [|done|done]. intros x. cbn. rewrite Hr2. cbn. rewrite Hr1, Hw. lia.
    + destruct (place_ok i st b prio Hf ltac:(lia)) as (st' & Ep & Hf' & Ho). rewrite Ep. rewrite (bind_eval (deref (Some st')) _ _ st' _ eq_refl).
      destruct (IH (S i) st' (set_refs r1 w) Hf' ltac:(lia)) as (x & r & E & H); [|done|].
      * intros x. cbn. rewrite Hr1, Hw, Ho, !occ_cons, occ_nil. lia.
      * exists x, r. split; [exact E|exact H].
Qed.
End set_loop.

(** ** All lists of a file *)

Definition listed_in (m : gmap Z amdgpu_bo_list) : list Z := map_to_list m ≫= fun p => objs (array p.2).
Lemma listed_insert m id l : m !! id = None -> listed_in (<[id := l]> m) ≡ₚ objs (array l) ++ listed_in m.
Proof. intros E. unfold listed_in. by rewrite map_to_list_insert. Qed.
Lemma listed_delete m id l : m !! id = Some l -> listed_in m ≡ₚ objs (array l) ++ listed_in (delete id m).
Proof. intros E. rewrite <- listed_insert by apply lookup_delete_eq. by rewrite insert_delete_id. Qed.
Lemma listed_update m id l l' : m !! id = Some l -> listed_in (<[id := l']> m) ≡ₚ objs (array l') ++ listed_in (delete id m).
Proof. intros E. rewrite <- (insert_delete_eq m id l'). apply listed_insert, lookup_delete_eq. Qed.

Section references.
(** The references that the handles hold. *)
Context (ext : Z -> Z) (Hext : forall x, 0 <= ext x).
Definition accounted (w : bo_world) : Prop := forall x, ext x + occ x (listed_in (bo_lists w)) <= bo_refs w x.
Definition exact (w : bo_world) : Prop := forall x, bo_refs w x = ext x + occ x (listed_in (bo_lists w)).

Lemma exact_accounted w : exact w -> accounted w.
Proof. intros H x. rewrite H. lia. Qed.
Lemma refs_nonneg w : accounted w -> forall x, 0 <= bo_refs w x.
Proof. intros H x. specialize (H x). specialize (Hext x). pose proof (occ_range x (listed_in (bo_lists w))). lia. Qed.

(** A request of the ioctl, with what the kernel knows of the objects. *)
Record request := Request {
  rq_lookup : Z -> option Z; rq_usermm : Z -> Z; rq_domains : Z -> Z; rq_mm : Z; rq_gds : Z; rq_gws : Z; rq_oa : Z;
  rq_op : list_op; rq_handle : Z; rq_info_malloc : bool; rq_set_malloc : bool; rq_info : option (list (Z * Z)) }.
Definition execute (q : request) : BM (Z * Z) :=
  amdgpu_bo_list_ioctl (rq_lookup q) (rq_usermm q) (rq_domains q) (rq_mm q) (rq_gds q) (rq_gws q) (rq_oa q) (rq_op q) (rq_handle q) (rq_info_malloc q) (rq_set_malloc q) (rq_info q).
(** A handle holds a reference; the allocator gives fresh identifiers; the
    number of entries is a 32-bit number. *)
Definition allowed (q : request) (w : bo_world) : Prop :=
  (forall h b, rq_lookup q h = Some b -> 0 < ext b) /\ (forall info, rq_info q = Some info -> Z.of_nat (length info) < 2 ^ 32) /\
  match rq_op q with OpCreate _ idr => 0 <= idr -> bo_lists w !! idr = None | _ => True end.
(** No object of the request is in user memory. *)
Definition no_user_memory (q : request) : Prop := forall b, rq_usermm q b = 0.

(** What every operation does. *)
Definition sound (q : request) {A} (m : BM A) (w : bo_world) : Prop :=
  returns m w (fun _ w' => accounted w' /\ (no_user_memory q -> exact w -> exact w')).

Lemma set_sound q malloc id l info w :
  (forall h b, rq_lookup q h = Some b -> 0 < ext b) -> Z.of_nat (length info) < 2 ^ 32 -> bo_lists w !! id = Some l -> accounted w ->
  sound q (amdgpu_bo_list_set (rq_lookup q) (rq_usermm q) (rq_domains q) (rq_mm q) (rq_gds q) (rq_gws q) (rq_oa q) malloc id info) w.
Proof.
  intros Hq Hinfo El Hw. unfold amdgpu_bo_list_set. destruct malloc; cbn [negb]; [|by apply returns_ret].
  set (st0 := SetState _ _ _ _ _ _). pose proof (listed_delete (bo_lists w) id l El) as Hd.
  destruct (set_loop_run (rq_lookup q) (rq_usermm q) (rq_domains q) (rq_mm q) (length info) (bo_refs w)) with (info := info) (i := 0%nat) (st := st0) (w := w) as (x & r & E & H).
  - intros h b Eb. specialize (Hq h b Eb). specialize (Hw b). pose proof (occ_range b (listed_in (bo_lists w))). lia.
  - done.
  - subst st0. constructor; cbn; [apply length_replicate|lia|lia| |done]. intros j Hj. apply lookup_replicate. split; [done|lia].
  - done.
  - intros x. subst st0. cbn [arr]. assert (objs (replicate (length info) (ListEntry None 0)) = []) as -> by (generalize (length info); intros k; induction k; done). rewrite occ_nil. lia.
  - by apply refs_nonneg.
  - apply (returns_run _ _ _ _ _ _ E). destruct x as [e|st].
    + destruct H as (_ & leak & Hl & Hu). apply returns_ret. split.
      * intros x. cbn [bo_refs bo_lists set_refs]. specialize (Hl x). cbn [bo_refs set_refs] in Hl. specialize (Hw x). pose proof (occ_range x leak). lia.
      * intros Hn Hx x. cbn [bo_refs bo_lists set_refs]. specialize (Hl x). cbn [bo_refs set_refs] in Hl. rewrite Hl, Hx, (Hu Hn), occ_nil. lia.
    + destruct H as [_ Hh]. apply returns_gets. cbn [Datatypes.id bo_lists set_refs]. rewrite El.
      apply (returns_bind _ _ _ (fun l' w' => l' = l /\ w' = set_refs r w)); [by apply returns_ret|]. intros ? ? [-> ->].
      assert (Hb : forall x, bo_refs w x >= ext x + occ x (objs (array l)) + occ x (listed_in (delete id (bo_lists w)))).
      { intros x. specialize (Hw x). rewrite Hd, occ_app in Hw. lia. }
      destruct (unref_all_run (array l) (set_refs r w)) as (r2 & E2 & Hr2).
      { intros x. rewrite (Hh x). specialize (Hb x). specialize (Hext x). pose proof (occ_range x (objs (arr st))). pose proof (occ_range x (listed_in (delete id (bo_lists w)))). lia. }
      apply (returns_run _ _ _ _ _ _ E2).
      apply returns_modify, returns_ret. split.
      * intros x. cbn [bo_refs bo_lists set_refs set_lists]. rewrite (listed_update _ _ l _ El), occ_app. cbn [array]. rewrite Hr2, (Hh x). specialize (Hb x). lia.
      * intros Hn Hx x. cbn [bo_refs bo_lists set_refs set_lists]. rewrite (listed_update _ _ l _ El), occ_app. cbn [array]. rewrite Hr2, (Hh x), Hx, Hd, occ_app. lia.
Qed.

Lemma destroy_sound q id w : accounted w -> sound q (amdgpu_bo_list_destroy id) w.
Proof.
  intros Hw. apply returns_gets. cbn [Datatypes.id]. destruct (bo_lists w !! id) as [l|] eqn:El; [|by apply returns_ret]. apply returns_modify.
  pose proof (listed_delete (bo_lists w) id l El) as Hd. destruct (unref_all_run (array l) (set_lists (delete id (bo_lists w)) w)) as (r & E & Hr).
  - intros x. cbn [bo_refs set_lists]. specialize (Hw x). rewrite Hd, occ_app in Hw. specialize (Hext x). pose proof (occ_range x (listed_in (delete id (bo_lists w)))). lia.
  - eexists _, _. split; [exact E|]. split; [intros x|intros _ Hx x]; cbn [bo_refs bo_lists set_refs set_lists] in *; rewrite Hr.
    + specialize (Hw x). rewrite Hd, occ_app in Hw. lia.
    + rewrite Hx, Hd, occ_app. lia.
Qed.

Lemma execute_sound q w : accounted w -> allowed q w -> sound q (execute q) w.
Proof.
  intros Hw (Hq & Hinfo & Hop). unfold execute, amdgpu_bo_list_ioctl. destruct (negb (rq_info_malloc q)); [by apply returns_ret|].
  destruct (rq_info q) as [info|]; [|by apply returns_ret]. specialize (Hinfo info eq_refl). destruct (rq_op q) as [malloc idr| | |]; [| | |by apply returns_ret].
  - unfold amdgpu_bo_list_create. destruct malloc; cbn [negb]; [|by apply returns_ret]. destruct (Z.ltb_spec idr 0) as [|H0].
    { apply (returns_run _ _ _ idr w); [done|]. destruct (Z.eqb_spec idr 0); [lia|]. by apply returns_ret. }
    set (w1 := set_lists (<[idr := BoList 0 0 0 0 []]> (bo_lists w)) w). apply (returns_run _ _ _ 0 w1); [done|]. cbn [Z.eqb negb].
    assert (Hl : listed_in (bo_lists w1) ≡ₚ listed_in (bo_lists w)) by (subst w1; cbn [bo_lists set_lists]; by rewrite listed_insert by (by apply Hop)).
    assert (Hw1 : accounted w1) by (intros x; rewrite Hl; apply Hw).
    eapply returns_bind; [apply (set_sound q _ idr (BoList 0 0 0 0 []) info w1); [done|done|apply lookup_insert_eq|done]|].
    cbn beta. intros r w2 [H1 H2]. apply returns_ret. split; [done|]. intros Hn Hx. apply H2; [done|]. intros x. rewrite Hl. apply Hx.
  - eapply returns_bind; [by apply (destroy_sound q)|]. cbn beta. intros ? w2 H2. by apply returns_ret.
  - apply returns_gets. cbn [Datatypes.id]. destruct (bo_lists w !! rq_handle q) as [l|] eqn:El; [|by apply returns_ret].
    eapply returns_bind; [by apply (set_sound q _ _ l)|]. cbn beta. intros r w2 H2. by apply returns_ret.
Qed.

(** A request is carried out. *)
Inductive list_step (w w' : bo_world) : Prop :=
  | list_step_intro q res : allowed q w -> execute q w = Ok (res, w') -> list_step w w'.
Inductive plain_step (w w' : bo_world) : Prop :=
  | plain_step_intro q res : allowed q w -> no_user_memory q -> execute q w = Ok (res, w') -> plain_step w w'.

Lemma steps_accounted w w' : rtc list_step w w' -> accounted w -> accounted w'.
Proof. induction 1 as [|w w1 w2 [q res Ha E] _ IH]; [done|]. intros Hw. apply IH. destruct (execute_sound q w Hw Ha) as (r & w3 & E3 & H & _). congruence. Qed.
Lemma plain_exact w w' : rtc plain_step w w' -> exact w -> exact w'.
Proof.
  induction 1 as [|w w1 w2 [q res Ha Hn E] _ IH]; [done|]. intros Hw. apply IH. destruct (execute_sound q w (exact_accounted w Hw) Ha) as (r & w3 & E3 & _ & H).
  rewrite E in E3. injection E3 as _ <-. by apply H.
Qed.
End references.

(** C24: the references of buffer lists are sound: after any sequence of ioctls (creations, updates and destructions that succeed or fail at any point, on a file that starts without lists), every object in a list still has a reference, so it has not been freed, and its count is at least the references of its handles plus its entries in all lists; the next request, whatever it is, returns, never touching a freed object or an entry outside the array; and as long as no object in user memory takes part, the counts are exact, so nothing leaks. *)
Theorem bo_list_references ext w0 w :
  (forall x, 0 <= ext x) -> bo_lists w0 = ∅ -> (forall x, bo_refs w0 x = ext x) -> rtc (list_step ext) w0 w ->
  (forall id l b, bo_lists w !! id = Some l -> b ∈ objs (array l) -> 0 < bo_refs w b) /\
  (forall x, ext x + occ x (listed_in (bo_lists w)) <= bo_refs w x) /\
  (forall q, allowed ext q w -> exists res w', execute q w = Ok (res, w')) /\
  (rtc (plain_step ext) w0 w -> forall x, bo_refs w x = ext x + occ x (listed_in (bo_lists w))).
Proof.
  intros Hext El Er Hs. assert (H0 : exact ext w0) by (intros x; rewrite El, Er; unfold listed_in; rewrite map_to_list_empty; cbn; rewrite occ_nil; lia).
  pose proof (steps_accounted ext Hext w0 w Hs (exact_accounted ext w0 H0)) as Hw. split; [|split; [exact Hw|split]].
  - intros id l b E Hb. specialize (Hw b). rewrite (listed_delete _ _ _ E), occ_app in Hw. apply occ_pos in Hb. pose proof (occ_range b (listed_in (delete id (bo_lists w)))). specialize (Hext b). lia.
  - intros q Ha. destruct (execute_sound ext Hext q w Hw Ha) as (res & w' & E & _). by exists res, w'.
  - intros Hp. by apply (plain_exact ext Hext w0).
Qed.

(** Handles 1 and 2 name objects 11 and 12; a list of both is created, then
    updated to the second. *)
Definition two_handles (h : Z) : option Z := if h =? 1 then Some 11 else if h =? 2 then Some 12 else None.
Definition sample_refs (x : Z) : Z := if (x =? 11) || (x =? 12) then 1 else 0.
Definition sample_request (mm : Z -> Z) (op : list_op) (info : list (Z * Z)) : request :=
  Request two_handles mm (fun _ => 4) 1 0 0 0 op 1 true true (Some info).
Lemma sample_allowed mm op info w :
  Z.of_nat (length info) < 2 ^ 32 -> match op with OpCreate _ idr => bo_lists w !! idr = None | _ => True end -> allowed sample_refs (sample_request mm op info) w.
Proof.
  intros Hi Hop. split; [|split; [by intros ? [= <-]|]].
  - intros h b. cbn [rq_lookup sample_request]. unfold two_handles. destruct (h =? 1); [by intros [= <-]|]. destruct (h =? 2); [by intros [= <-]|done].
  - cbn [rq_op sample_request]. by destruct op.
Qed.
Lemma bo_list_references_witness :
  exists w, rtc (list_step sample_refs) (BoWorld sample_refs ∅) w /\ bo_refs w 11 = 1 /\ bo_refs w 12 = 2 /\ (exists l, bo_lists w !! 1 = Some l /\ objs (array l) = [12]) /\
    (forall q, allowed sample_refs q w -> exists res w', execute q w = Ok (res, w')).
Proof.
  destruct (execute (sample_request (fun _ => 0) (OpCreate true 1) [(1, 0); (2, 5)]) (BoWorld sample_refs ∅)) as [[r1 w1]| |] eqn:E1; [|vm_compute in E1; discriminate..].
  destruct (execute (sample_request (fun _ => 0) OpUpdate [(2, 5)]) w1) as [[r2 w2]| |] eqn:E2; [|vm_compute in E1; injection E1 as <- <-; vm_compute in E2; discriminate..].
  assert (Hs : rtc (list_step sample_refs) (BoWorld sample_refs ∅) w2).
  { eapply rtc_l; [exact (list_step_intro _ _ _ _ _ (sample_allowed (fun _ => 0) (OpCreate true 1) [(1, 0); (2, 5)] (BoWorld sample_refs ∅) eq_refl eq_refl) E1)|]. eapply rtc_l; [exact (list_step_intro _ _ _ _ _ (sample_allowed (fun _ => 0) OpUpdate [(2, 5)] w1 eq_refl I) E2)|]. apply rtc_refl. }
  exists w2. split; [exact Hs|].
  assert (H0 : forall x, 0 <= sample_refs x) by (intros x; unfold sample_refs; destruct (_ || _); lia).
  destruct (bo_list_references sample_refs (BoWorld sample_refs ∅) w2 H0 eq_refl (fun _ => eq_refl) Hs) as (_ & _ & Hn & _).
  vm_compute in E1. injection E1 as <- <-. vm_compute in E2. injection E2 as <- <-. split; [reflexivity|]. split; [reflexivity|]. split; [|exact Hn]. eexists. split; reflexivity.
Defined.

(** An object in user memory sits at the end of the array, where the error path
    does not look: its reference is lost. *)
Lemma user_memory_leaks :
  exists w, execute (sample_request (fun b => if b =? 11 then 1 else 0) (OpCreate true 1) [(1, 0); (9, 0)]) (BoWorld sample_refs ∅) = Ok ((- ENOENT, 0), w) /\
    bo_refs w 11 = 2 /\ listed_in (bo_lists w) = [].
Proof.
  destruct (execute (sample_request (fun b => if b =? 11 then 1 else 0) (OpCreate true 1) [(1, 0); (9, 0)]) (BoWorld sample_refs ∅)) as [[r w]| |] eqn:E; [|vm_compute in E; discriminate..].
  vm_compute in E. injection E as <- <-. eexists. split; [reflexivity|]. by split.
Qed.

(** ** The order in which a submission reserves its objects

    The bucket sort of [amdgpu_bo_list_get_list] against what its comments
    promise: descending priorities, and stable. *)

(** The entries of a priority. *)
Definition at_priority (p : nat) (l : list list_entry) : list list_entry := filter (fun e => Z.to_nat (priority e) = p) l.
(** Every bucket holds entries of its priority. *)
Definition buckets_ok (bs : list (list list_entry)) : Prop := forall p b e, bs !! p = Some b -> e ∈ b -> Z.to_nat (priority e) = p.

Lemma concat_insert (bs : list (list list_entry)) p b e : bs !! p = Some b -> concat (<[p := b ++ [e]]> bs) ≡ₚ concat bs ++ [e].
Proof.
  intros E. pose proof (lookup_lt_Some _ _ _ E). rewrite insert_take_drop by done. rewrite <- (take_drop_middle bs p b E) at 3. rewrite !concat_app. cbn [concat]. solve_Permutation.
Qed.
Lemma splice_concat bs v : splice_buckets bs v = concat (rev bs) ++ v.
Proof.
  unfold splice_buckets. revert v. induction bs as [|b bs IH]; intros v; [done|]. cbn [foldl rev]. rewrite IH, concat_app. cbn [concat]. by rewrite app_nil_r, <- app_assoc.
Qed.

Lemma fill_run l bs :
  length bs = AMDGPU_BO_LIST_NUM_BUCKETS -> Forall (fun e => 0 <= priority e <= AMDGPU_BO_LIST_MAX_PRIORITY) l -> buckets_ok bs ->
  exists bs', fill_buckets l bs = Some bs' /\ length bs' = AMDGPU_BO_LIST_NUM_BUCKETS /\ buckets_ok bs' /\ concat bs' ≡ₚ concat bs ++ l /\
    forall p b, bs !! p = Some b -> bs' !! p = Some (b ++ at_priority p l).
Proof.
  revert bs. induction l as [|e l IH]; intros bs Hl Hp Hb; cbn [fill_buckets].
  - exists bs. rewrite app_nil_r. split; [done|]. split; [done|]. split; [done|]. split; [done|]. intros p b E. by rewrite app_nil_r.
  - inversion Hp as [|? ? He Hp']; subst. unfold AMDGPU_BO_LIST_NUM_BUCKETS, AMDGPU_BO_LIST_MAX_PRIORITY in *. set (q := Z.to_nat (priority e)).
    destruct (lookup_lt_is_Some_2 bs q) as [b E]; [lia|]. rewrite E. cbn [mbind option_bind].
    destruct (IH (<[q := b ++ [e]]> bs)) as (bs' & E' & Hl' & Hb' & Hc & Hs); [by rewrite length_insert|done| |].
    + intros p b' x. rewrite list_lookup_insert_Some. intros [(<- & <- & _)|(_ & E1)]; [|by apply Hb]. rewrite elem_of_app, list_elem_of_singleton. intros [Hx| ->]; [by apply (Hb q b)|done].
    + exists bs'. split; [done|]. split; [done|]. split; [done|]. split; [rewrite Hc, (concat_insert bs q b e E), <- app_assoc; done|].
      intros p b' E1. destruct (decide (q = p)) as [<-|Hne].
      * rewrite (Hs q (b ++ [e])) by (apply list_lookup_insert_eq; lia). unfold at_priority. rewrite filter_cons_True by done. rewrite <- app_assoc. cbn. congruence.
      * rewrite (Hs p b') by (by rewrite list_lookup_insert_ne). unfold at_priority. by rewrite filter_cons_False by done.
Qed.

(** Concatenated from the last, the buckets are sorted and keep their order. *)
Definition before (a b : list_entry) : Prop := (Z.to_nat (priority b) <= Z.to_nat (priority a))%nat.
Lemma buckets_ok_snoc bs b : buckets_ok (bs ++ [b]) -> buckets_ok bs /\ forall e, e ∈ b -> Z.to_nat (priority e) = length bs.
Proof.
  intros H. split.
  - intros p b' e E. apply (H p). by apply lookup_app_l_Some.
  - intros e. apply (H (length bs)). by rewrite lookup_app_r, Nat.sub_diag.
Qed.
Lemma concat_bound bs e : buckets_ok bs -> e ∈ concat (rev bs) -> (Z.to_nat (priority e) < length bs)%nat.
Proof.
  intros H He. apply list_elem_of_In, in_concat in He as (b & Hb & He). apply in_rev, list_elem_of_In, list_elem_of_lookup in Hb as [p Ep].
  rewrite (H p b e Ep) by (by apply list_elem_of_In). by eapply lookup_lt_Some.
Qed.
Lemma filter_out (P : list_entry -> Prop) `{!forall e, Decision (P e)} (l : list list_entry) : (forall e, e ∈ l -> ~ P e) -> filter P l = [].
Proof. intros Hn. apply elem_of_nil_inv. intros e He. apply list_elem_of_filter in He as [HP He]. by apply (Hn e). Qed.
Lemma filter_all (P : list_entry -> Prop) `{!forall e, Decision (P e)} (l : list list_entry) : (forall e, e ∈ l -> P e) -> filter P l = l.
Proof.
  induction l as [|e l IH]; intros Ha; [done|]. rewrite filter_cons_True by (apply Ha; left). f_equal. apply IH. intros x Hx. apply Ha. by right.
Qed.
Lemma concat_sorted bs : buckets_ok bs -> StronglySorted before (concat (rev bs)).
Proof.
  induction bs as [|b bs IH] using rev_ind; [constructor|]. intros H. apply buckets_ok_snoc in H as [H1 H2]. rewrite rev_app_distr. cbn [rev app concat].
  assert (Hrest : forall e x, Z.to_nat (priority e) = length bs -> x ∈ concat (rev bs) -> before e x) by (intros e x He Hx; apply (concat_bound bs x H1) in Hx; unfold before; lia).
  specialize (IH H1). clear H1. induction b as [|e b IHb]; [done|]. cbn [app]. constructor; [apply IHb; intros x Hx; apply H2; by right|].
  apply Forall_forall. intros x Hx. apply elem_of_app in Hx as [Hx|Hx]; [|apply Hrest; [apply H2; left|done]]. unfold before. rewrite (H2 x), (H2 e); [done|left|by right].
Qed.
Lemma concat_stable bs p b : buckets_ok bs -> bs !! p = Some b -> at_priority p (concat (rev bs)) = b.
Proof.
  induction bs as [|c bs IH] using rev_ind; [done|]. intros H. apply buckets_ok_snoc in H as [H1 H2]. rewrite rev_app_distr. cbn [rev app concat]. unfold at_priority in *. rewrite filter_app.
  intros [E|(Hp & E)]%lookup_app_Some.
  - pose proof (lookup_lt_Some _ _ _ E). rewrite (IH H1 E), filter_out; [done|]. intros e He. rewrite (H2 e He). lia.
  - destruct (p - length bs)%nat as [|k] eqn:Ek; [|done]. injection E as ->. rewrite (filter_out _ (concat (rev bs))).
    + rewrite app_nil_r. apply filter_all. intros e He. rewrite (H2 e He). lia.
    + intros e He. apply (concat_bound bs e H1) in He. lia.
Qed.

(** The objects of a buffer list are put in front of the submission's list in the order of the bucket sort: the result is a permutation of the array, its priorities descend, and the entries of one priority keep the order they have in the array; what was on the list stays behind them.  It is defined for every array whose priorities are within the bounds that the ioctl enforces. *)
Theorem bo_list_order l validated :
  Forall (fun e => 0 <= priority e <= AMDGPU_BO_LIST_MAX_PRIORITY) (array l) ->
  exists sorted, amdgpu_bo_list_get_list l validated = Some (sorted ++ validated) /\ sorted ≡ₚ array l /\
    StronglySorted (fun a b => priority b <= priority a) sorted /\
    forall p, filter (fun e => priority e = p) sorted = filter (fun e => priority e = p) (array l).
Proof.
  intros Hp. unfold amdgpu_bo_list_get_list. destruct (fill_run (array l) (replicate AMDGPU_BO_LIST_NUM_BUCKETS [])) as (bs & E & Hl & Hb & Hc & Hs); [done|done| |].
  { intros p b e [-> _]%lookup_replicate He. by apply not_elem_of_nil in He. }
  assert (Hperm : concat (rev bs) ≡ₚ array l) by (rewrite <- (Permutation_rev bs); rewrite Hc; done).
  assert (Hin : Forall (fun e => 0 <= priority e <= AMDGPU_BO_LIST_MAX_PRIORITY) (concat (rev bs))) by (by rewrite Hperm).
  rewrite E. cbn [mbind option_bind]. exists (concat (rev bs)). split; [by rewrite splice_concat|]. split; [done|]. split.
  - pose proof (concat_sorted bs Hb) as Hsort. clear -Hsort Hin. induction Hsort as [|e k Hs IH Hf]; [constructor|]. inversion Hin as [|? ? He Hk]; subst. constructor; [by apply IH|].
    rewrite Forall_forall in Hf, Hk |- *. intros x Hx. specialize (Hf x Hx). specialize (Hk x Hx). unfold before in Hf. lia.
  - intros p. destruct (decide (0 <= p <= AMDGPU_BO_LIST_MAX_PRIORITY)) as [Hr|Hr].
    + assert (Hsel : forall k, Forall (fun e => 0 <= priority e <= AMDGPU_BO_LIST_MAX_PRIORITY) k -> filter (fun e => priority e = p) k = at_priority (Z.to_nat p) k).
      { intros k. unfold at_priority. induction 1 as [|e k He _ IH]; [done|]. rewrite !filter_cons, IH. by do 2 destruct (decide _); [|lia|lia|]. }
      rewrite !Hsel by done. apply concat_stable; [done|]. rewrite (Hs (Z.to_nat p) []); [done|]. apply lookup_replicate. split; [done|]. unfold AMDGPU_BO_LIST_NUM_BUCKETS, AMDGPU_BO_LIST_MAX_PRIORITY in *. lia.
    + rewrite !filter_out; [done| |]; intros e He <-; apply Hr; [exact (proj1 (Forall_forall _ _) Hp e He)|exact (proj1 (Forall_forall _ _) Hin e He)].
Qed.

Lemma bo_list_order_witness :
  exists sorted, amdgpu_bo_list_get_list (BoList 0 0 0 4 [ListEntry (Some 1) 3; ListEntry (Some 2) 32; ListEntry (Some 3) 3; ListEntry (Some 4) 0]) [ListEntry (Some 9) 7] = Some (sorted ++ [ListEntry (Some 9) 7]) /\
    omap robj sorted = [2; 1; 3; 4].
Proof.
  destruct (bo_list_order (BoList 0 0 0 4 [ListEntry (Some 1) 3; ListEntry (Some 2) 32; ListEntry (Some 3) 3; ListEntry (Some 4) 0]) [ListEntry (Some 9) 7]) as (sorted & E & _).
  { repeat constructor; vm_compute; discriminate. }
  exists sorted. split; [exact E|]. vm_compute in E. apply (inj Some) in E. apply (app_inj_2 [_; _; _; _] _ [_]) in E; [|reflexivity]. by destruct E as [<- _].
Defined.
