(* ===== verification/Gart.v ===== *)
(** * The GART ([amdgpu/amdgpu_gart.c], [gmc_v7_0.c], [gmc_v8_0.c])

    The table that translates the GPU's aperture into system memory: pages of
    the CPU are bound and unbound, each as several entries when the CPU's pages
    are larger than the GPU's.  Unbound entries point to the dummy page.
    [None] is a write outside the table or a read outside the array of
    addresses. *)

From stdpp Require Import base numbers list.
From S2P Require Import Prelude.

Definition GPU_PAGE_SIZE : Z := 4096.
Definition AMDGPU_PTE_SYSTEM : Z := Z.shiftl 1 1.

(** [struct amdgpu_gart] with the dummy page; [ptr] is the mapped table. *)
Record amdgpu_gart := Gart { gart_ptr : option (list Z); num_gpu_pages : Z; num_cpu_pages : Z; gart_ready : bool; dummy_page : option Z }.
Definition set_ptr (t : list Z) (g : amdgpu_gart) : amdgpu_gart := Gart (Some t) (num_gpu_pages g) (num_cpu_pages g) (gart_ready g) (dummy_page g).

(** The value of an entry, which depends on the memory controller. *)
Definition gmc_v7_0_pte (addr flags : Z) : Z := Z.lor (Z.land addr 0xFFFFFFFFFFFFF000) flags.
Definition gmc_v8_0_pte (addr flags : Z) : Z := Z.lor (Z.land addr 0x000000FFFFFFF000) flags.

Section gart.
(** The controller, and the size of the CPU's pages. *)
Context (pte : Z -> Z -> Z) (PAGE_SIZE : Z).

(** [gart_set_pte_pde]: the offset in bytes is a 32-bit number. *)
Definition gart_set_pte_pde (t : list Z) (gpu_page_idx addr flags : Z) : option (list Z) :=
  let i := Z.to_nat (u32 (gpu_page_idx * 8) / 8) in
  if Nat.ltb i (length t) then Some (<[i := pte addr flags]> t) else None.

(** The entries of one page of the CPU. *)
Fixpoint set_page (n : nat) (t : list Z) (idx page_base flags : Z) : option (list Z) :=
  match n with
  | O => Some t
  | S k => t' ← gart_set_pte_pde t idx page_base flags; set_page k t' (u32 (idx + 1)) (u64 (page_base + GPU_PAGE_SIZE)) flags
  end.
Definition ratio : nat := Z.to_nat (PAGE_SIZE / GPU_PAGE_SIZE).
(** The loop over [pages], whose addresses are [base 0], [base 1] and so on. *)
Fixpoint set_pages (pages : nat) (base : nat -> option Z) (i : nat) (t : list Z) (idx flags : Z) : option (list Z) :=
  match pages with
  | O => Some t
  | S k =>
      addr ← base i;
      t' ← set_page ratio t idx addr flags;
      set_pages k base (S i) t' (u32 (idx + Z.of_nat ratio)) flags
  end.

Definition amdgpu_gart_unbind (offset pages : Z) (g : amdgpu_gart) : option amdgpu_gart :=
  if negb (gart_ready g) then Some g
  else
    match gart_ptr g with
    | None => Some g
    | Some t => t' ← set_pages (Z.to_nat pages) (fun _ => dummy_page g) 0 t (u32 (offset / GPU_PAGE_SIZE)) AMDGPU_PTE_SYSTEM; Some (set_ptr t' g)
    end.
Definition amdgpu_gart_bind (offset pages : Z) (dma_addr : list Z) (flags : Z) (g : amdgpu_gart) : option (Z * amdgpu_gart) :=
  if negb (gart_ready g) then Some (- EINVAL, g)
  else
    match gart_ptr g with
    | None => Some (0, g)
    | Some t => t' ← set_pages (Z.to_nat pages) (fun i => dma_addr !! i) 0 t (u32 (offset / GPU_PAGE_SIZE)) flags; Some (0, set_ptr t' g)
    end.

(** [dummy] is the page that is allocated, or the error. *)
Definition amdgpu_gart_init (gtt_size : Z) (dummy : Z + Z) (g : amdgpu_gart) : Z * amdgpu_gart :=
  match dummy_page g with
  | Some _ => (0, g)
  | None =>
      if PAGE_SIZE <? GPU_PAGE_SIZE then (- EINVAL, g)
      else
        match dummy with
        | inl e => (e, g)
        | inr a => (0, Gart (gart_ptr g) (u32 (gtt_size / GPU_PAGE_SIZE)) (u32 (gtt_size / PAGE_SIZE)) (gart_ready g) (Some a))
        end
  end.
Definition amdgpu_gart_fini (g : amdgpu_gart) : option amdgpu_gart :=
  g ← (if gart_ready g then amdgpu_gart_unbind 0 (s32 (num_cpu_pages g)) g else Some g);
  Some (Gart (gart_ptr g) (num_gpu_pages g) (num_cpu_pages g) false None).

(** ** Reference *)

(** The entries of a page, and of a list of pages. *)
Definition page_entries (flags addr : Z) : list Z := (fun j => pte (u64 (addr + Z.of_nat j * GPU_PAGE_SIZE)) flags) <$> seq 0 ratio.
Definition range_entries (flags : Z) (addrs : list Z) : list Z := addrs ≫= page_entries flags.
(** The table with entries replaced from [i] on. *)
Definition overwrite (t : list Z) (i : nat) (e : list Z) : list Z := take i t ++ e ++ drop (i + length e) t.

Lemma overwrite_lookup t i e k :
  (i + length e <= length t)%nat ->
  overwrite t i e !! k = if decide (i <= k < i + length e)%nat then e !! (k - i)%nat else t !! k.
Proof.
  intros H. unfold overwrite. assert (Hl : length (take i t) = i) by (rewrite length_take; lia). destruct (decide (k < i)%nat) as [Hk|Hk].
  - rewrite lookup_app_l by lia. rewrite lookup_take_lt by done. rewrite decide_False by lia. done.
  - rewrite lookup_app_r by lia. rewrite Hl. destruct (decide (i <= k < i + length e)%nat) as [Hr|Hr]; [rewrite lookup_app_l by lia; done|].
    rewrite lookup_app_r by lia. rewrite lookup_drop. f_equal. lia.
Qed.
Lemma overwrite_nil t i : (i <= length t)%nat -> overwrite t i [] = t.
Proof. intros H. unfold overwrite. cbn. by rewrite Nat.add_0_r, take_drop. Qed.
Lemma overwrite_app t i e1 e2 :
  (i + length e1 + length e2 <= length t)%nat -> overwrite (overwrite t i e1) (i + length e1) e2 = overwrite t i (e1 ++ e2).
Proof.
  intros H. unfold overwrite at 1 3. rewrite length_app. assert (E1 : take (i + length e1) (overwrite t i e1) = take i t ++ e1).
  { unfold overwrite. rewrite app_assoc. apply take_app_length'. rewrite length_app, length_take. lia. }
  assert (E2 : drop (i + length e1 + length e2) (overwrite t i e1) = drop (i + (length e1 + length e2)) t).
  { unfold overwrite. rewrite app_assoc, drop_app_ge by (rewrite length_app, length_take; lia). rewrite drop_drop. f_equal. rewrite length_app, length_take. lia. }
  rewrite E1, E2. by rewrite <- !app_assoc.
Qed.
Lemma overwrite_length t i e : (i + length e <= length t)%nat -> length (overwrite t i e) = length t.
Proof. intros H. unfold overwrite. rewrite !length_app, length_take, length_drop. lia. Qed.

(** ** The loops *)

Lemma set_pte_run t i addr flags :
  (i < length t)%nat -> Z.of_nat (length t) <= 2 ^ 29 -> gart_set_pte_pde t (Z.of_nat i) addr flags = Some (overwrite t i [pte addr flags]).
Proof.
  intros Hi Hl. unfold gart_set_pte_pde. rewrite u32_small by (unfold is_u32; lia). rewrite Z.div_mul, Nat2Z.id by lia. destruct (Nat.ltb_spec i (length t)); [|lia]. f_equal.
  unfold overwrite. rewrite insert_take_drop by done. cbn [length app]. by rewrite Nat.add_1_r.
Qed.
Lemma set_page_run n t i addr flags :
  (i + n <= length t)%nat -> Z.of_nat (length t) <= 2 ^ 29 -> is_u64 addr ->
  set_page n t (Z.of_nat i) addr flags = Some (overwrite t i ((fun j => pte (u64 (addr + Z.of_nat j * GPU_PAGE_SIZE)) flags) <$> seq 0 n)).
Proof.
  revert t i addr. induction n as [|n IH]; intros t i addr Hi Hl Ha; cbn [set_page seq fmap list_fmap]; [by rewrite overwrite_nil by lia|].
  rewrite set_pte_run by lia. cbn [mbind option_bind]. rewrite u32_small by (unfold is_u32; lia). replace (Z.of_nat i + 1) with (Z.of_nat (i + 1)) by lia.
  assert (Hlen : length (overwrite t i [pte addr flags]) = length t) by (apply overwrite_length; cbn; lia). rewrite IH; [|lia|lia|apply Z.mod_pos_bound; lia]. f_equal.
  assert (E : (fun j => pte (u64 (u64 (addr + GPU_PAGE_SIZE) + Z.of_nat j * GPU_PAGE_SIZE)) flags) <$> seq 0 n = (fun j => pte (u64 (addr + Z.of_nat j * GPU_PAGE_SIZE)) flags) <$> seq 1 n).
  { rewrite <- (fmap_S_seq 0 n), <- list_fmap_compose. apply list_fmap_ext. intros _ j _. cbn. f_equal. unfold u64. rewrite Zplus_mod_idemp_l. f_equal. lia. }
  rewrite E, (overwrite_app t i [pte addr flags]) by (rewrite length_fmap, length_seq; cbn; lia). do 2 f_equal. cbn [Z.of_nat]. by rewrite Z.add_0_r, (u64_small addr).
Qed.
Lemma gart_pages_run addrs base m t i flags :
  (forall j a, addrs !! j = Some a -> base (m + j)%nat = Some a /\ is_u64 a) -> (i + length addrs * ratio <= length t)%nat -> Z.of_nat (length t) <= 2 ^ 29 ->
  set_pages (length addrs) base m t (Z.of_nat i) flags = Some (overwrite t i (range_entries flags addrs)).
Proof.
  revert m t i. induction addrs as [|a addrs IH]; intros m t i Hb Hi Hl; cbn [length set_pages]; [by rewrite overwrite_nil by (cbn in Hi; lia)|].
  destruct (Hb 0%nat a eq_refl) as [E Ha]. rewrite Nat.add_0_r in E. rewrite E. cbn [mbind option_bind length] in *. rewrite set_page_run by (done || lia). cbn [mbind option_bind].
  assert (Hpl : length (page_entries flags a) = ratio) by (unfold page_entries; by rewrite length_fmap, length_seq). fold (page_entries flags a).
  rewrite u32_small by (unfold is_u32; lia). rewrite <- Nat2Z.inj_add. rewrite IH.
  - f_equal. unfold range_entries. cbn [mbind list_bind]. replace (i + ratio)%nat with (i + length (page_entries flags a))%nat by lia. apply overwrite_app. rewrite Hpl.
    assert (Hr : length (addrs ≫= page_entries flags) = (length addrs * ratio)%nat).
    { clear. induction addrs as [|b l IH]; [done|]. cbn [mbind list_bind length]. rewrite length_app, IH. unfold page_entries. rewrite length_fmap, length_seq. lia. } rewrite Hr. lia.
  - intros j b Ej. replace (S m + j)%nat with (m + S j)%nat by lia. by apply Hb.
  - rewrite overwrite_length by lia. lia.
  - rewrite overwrite_length by lia. lia.
Qed.
End gart.

Section binding.
Context (pte : Z -> Z -> Z) (PAGE_SIZE : Z).

(** What the aperture means after a binding: page [p] of the binding, entry [j]
    of the page. *)
Lemma range_lookup flags addrs p j a :
  addrs !! p = Some a -> (j < ratio PAGE_SIZE)%nat ->
  range_entries pte PAGE_SIZE flags addrs !! (p * ratio PAGE_SIZE + j)%nat = Some (pte (u64 (a + Z.of_nat j * GPU_PAGE_SIZE)) flags).
Proof.
  revert p. unfold range_entries. assert (Hpl : forall b, length (page_entries pte PAGE_SIZE flags b) = ratio PAGE_SIZE) by (intros b; unfold page_entries; by rewrite length_fmap, length_seq).
  induction addrs as [|b addrs IH]; intros [|p] E Hj; [done|done| |]; cbn [mbind list_bind].
  - injection E as ->. rewrite lookup_app_l by (rewrite Hpl; lia). unfold page_entries. rewrite list_lookup_fmap, lookup_seq_lt by done. done.
  - rewrite lookup_app_r by (rewrite Hpl; lia). rewrite Hpl. replace (S p * ratio PAGE_SIZE + j - ratio PAGE_SIZE)%nat with (p * ratio PAGE_SIZE + j)%nat by lia. by apply IH.
Qed.
Lemma range_length flags addrs : length (range_entries pte PAGE_SIZE flags addrs) = (length addrs * ratio PAGE_SIZE)%nat.
Proof.
  unfold range_entries. induction addrs as [|b l IH]; [done|]. cbn [mbind list_bind length]. rewrite length_app, IH. unfold page_entries. rewrite length_fmap, length_seq. lia.
Qed.
End binding.

(** C25: binding pages into the aperture sets exactly their entries: for a table that is mapped and ready, a range that lies in it and pages with 64-bit bus addresses, the bind returns 0, entry [j] of page [p] holds the address of that part of the page with the flags, on a CPU with pages of any multiple of 4096 bytes, and every other entry stays; unbinding the same range then points all of its entries to the dummy page and leaves every other entry as it was before the binding.  The format of an entry is the memory controller's ([gmc_v7_0_pte] or [gmc_v8_0_pte], which keeps the address bits 39 to 12), and the table has at most 2^29 entries. *)
Theorem gart_bind_unbind pte PAGE_SIZE offset dma flags g t d :
  gart_ready g = true -> gart_ptr g = Some t -> dummy_page g = Some d -> is_u64 d -> Forall is_u64 dma ->
  0 <= offset / GPU_PAGE_SIZE -> offset / GPU_PAGE_SIZE + Z.of_nat (length dma * ratio PAGE_SIZE) <= Z.of_nat (length t) -> Z.of_nat (length t) <= 2 ^ 29 ->
  let first := Z.to_nat (offset / GPU_PAGE_SIZE) in
  let inside k := (first <= k < first + length dma * ratio PAGE_SIZE)%nat in
  exists g1 t1 g2 t2,
    amdgpu_gart_bind pte PAGE_SIZE offset (Z.of_nat (length dma)) dma flags g = Some (0, g1) /\ gart_ptr g1 = Some t1 /\
    (forall p j a, dma !! p = Some a -> (j < ratio PAGE_SIZE)%nat ->
       t1 !! (first + (p * ratio PAGE_SIZE + j))%nat = Some (pte (u64 (a + Z.of_nat j * GPU_PAGE_SIZE)) flags)) /\
    (forall k, ~ inside k -> t1 !! k = t !! k) /\
    amdgpu_gart_unbind pte PAGE_SIZE offset (Z.of_nat (length dma)) g1 = Some g2 /\ gart_ptr g2 = Some t2 /\
    (forall p j, (p < length dma)%nat -> (j < ratio PAGE_SIZE)%nat ->
       t2 !! (first + (p * ratio PAGE_SIZE + j))%nat = Some (pte (u64 (d + Z.of_nat j * GPU_PAGE_SIZE)) AMDGPU_PTE_SYSTEM)) /\
    (forall k, ~ inside k -> t2 !! k = t !! k).
Proof.
  intros Hr Ht Hd Hd64 Hdma Ho Hfit Hlen first inside. assert (Ei : u32 (offset / GPU_PAGE_SIZE) = Z.of_nat first) by (subst first; rewrite u32_small by (unfold is_u32; lia); lia).
  assert (Hf : (first + length dma * ratio PAGE_SIZE <= length t)%nat) by (subst first; lia).
  set (e1 := range_entries pte PAGE_SIZE flags dma). set (ds := replicate (length dma) d). set (e2 := range_entries pte PAGE_SIZE AMDGPU_PTE_SYSTEM ds).
  assert (L1 : length e1 = (length dma * ratio PAGE_SIZE)%nat) by apply range_length.
  assert (L2 : length e2 = (length dma * ratio PAGE_SIZE)%nat) by (subst e2 ds; by rewrite range_length, length_replicate).
  assert (LO : length (overwrite t first e1) = length t) by (apply overwrite_length; lia).
  exists (set_ptr (overwrite t first e1) g), (overwrite t first e1), (set_ptr (overwrite (overwrite t first e1) first e2) g), (overwrite (overwrite t first e1) first e2).
  split; [|split; [done|split; [|split; [|split; [|split; [done|split]]]]]].
  - unfold amdgpu_gart_bind. rewrite Hr, Ht, Ei, Nat2Z.id. cbn [negb]. rewrite gart_pages_run; [done| |done|done].
    intros j a Ej. split; [done|]. by eapply Forall_lookup_1.
  - intros p j a Ep Hj. pose proof (lookup_lt_Some _ _ _ Ep). rewrite overwrite_lookup by lia. rewrite decide_True by (rewrite L1; nia). rewrite Nat.add_sub_swap, Nat.sub_diag, Nat.add_0_l by lia. by apply range_lookup.
  - intros k Hk. rewrite overwrite_lookup by lia. rewrite decide_False; [done|]. rewrite L1. exact Hk.
  - unfold amdgpu_gart_unbind. cbn [gart_ready gart_ptr set_ptr dummy_page]. rewrite Hr, Ei, Nat2Z.id, Hd. cbn [negb]. rewrite <- (length_replicate (length dma) d) at 1. fold ds.
    rewrite gart_pages_run; [done| |rewrite LO; subst ds; rewrite length_replicate; lia|by rewrite LO].
    intros j a [-> _]%lookup_replicate. done.
  - intros p j Hp Hj. rewrite overwrite_lookup by lia. rewrite decide_True by (rewrite L2; nia). rewrite Nat.add_sub_swap, Nat.sub_diag, Nat.add_0_l by lia. apply range_lookup; [|done]. by apply lookup_replicate.
  - intros k Hk. rewrite overwrite_lookup by lia. rewrite decide_False by (rewrite L2; exact Hk). rewrite overwrite_lookup by lia. rewrite decide_False; [done|]. rewrite L1. exact Hk.
Qed.

(** Pages of 8192 bytes: two entries each. *)
Lemma gart_bind_unbind_witness :
  exists g1 t1, amdgpu_gart_bind gmc_v8_0_pte 8192 8192 1 [0x40000000] 0x67 (Gart (Some (replicate 6 7)) 6 3 true (Some 0x9000)) = Some (0, g1) /\
    gart_ptr g1 = Some t1 /\ t1 !! 3%nat = Some 0x40001067.
Proof.
  destruct (gart_bind_unbind gmc_v8_0_pte 8192 8192 [0x40000000] 0x67 (Gart (Some (replicate 6 7)) 6 3 true (Some 0x9000)) (replicate 6 7) 0x9000)
    as (g1 & t1 & g2 & t2 & E & Et & Hin & _); try reflexivity.
  - split; [discriminate|reflexivity].
  - constructor; [split; [discriminate|reflexivity]|constructor].
  - discriminate.
  - discriminate.
  - discriminate.
  - exists g1, t1. split; [exact E|]. split; [exact Et|]. exact (Hin 0%nat 1%nat 0x40000000 eq_refl ltac:(vm_compute; lia)).
Defined.
