(* ===== verification/Dqm.v ===== *)
(** * Queues of the compute driver ([amdkfd/kfd_device_queue_manager.c])

    Without the hardware scheduler the driver gives every queue of user space a
    hardware slot: compute queues a slot of a pipe, DMA queues one of four; and
    every process with queues one of the eight VMIDs, whose mapping to the
    process it writes into the device.  Bit masks hold what is free.  What the
    queue-descriptor managers return is a parameter of the operations; [None] is
    an access outside the array of pipes. *)

From stdpp Require Import base numbers list gmap.
From S2P Require Import Prelude.

Definition QUEUES_PER_PIPE : nat := 8.
Definition CIK_VMID_NUM : nat := 8.
Definition KFD_VMID_START_OFFSET : Z := 8.
Definition CIK_SDMA_QUEUES : nat := 4.
Definition CIK_SDMA_QUEUES_PER_ENGINE : nat := 2.
Definition CIK_SDMA_ENGINE_NUM : nat := 2.
Definition ATC_VMID_PASID_MAPPING_VALID : Z := Z.shiftl 1 31.

Inductive kfd_queue_type := KFD_QUEUE_TYPE_COMPUTE | KFD_QUEUE_TYPE_SDMA.
#[global] Instance kfd_queue_type_eq_dec : EqDecision kfd_queue_type.
Proof. solve_decision. Defined.
(** [struct queue]: the queue, its process (by PASID), and its slot. *)
Record queue := Queue { q_id : Z; q_process : Z; q_type : kfd_queue_type; is_active : bool; q_pipe : nat; q_queue : nat; sdma_id : nat; q_vmid : Z }.
(** [struct device_queue_manager], with the VMIDs of processes, all queues
    (the list of a process is the part with its number), and the mapping from
    VMIDs to processes in the device. *)
Record device_queue_manager := Dqm {
  allocated_queues : list Z; next_pipe_to_allocate : nat; sdma_bitmap : Z; vmid_bitmap : Z;
  queue_count : Z; sdma_queue_count : Z; total_queue_count : Z;
  qpd_vmid : Z -> Z; queues : list queue; pasid_mapping : Z -> Z }.

Definition set_hqds (l : list Z) (n : nat) (d : device_queue_manager) : device_queue_manager :=
  Dqm l n (sdma_bitmap d) (vmid_bitmap d) (queue_count d) (sdma_queue_count d) (total_queue_count d) (qpd_vmid d) (queues d) (pasid_mapping d).
Definition set_sdma (m : Z) (d : device_queue_manager) : device_queue_manager :=
  Dqm (allocated_queues d) (next_pipe_to_allocate d) m (vmid_bitmap d) (queue_count d) (sdma_queue_count d) (total_queue_count d) (qpd_vmid d) (queues d) (pasid_mapping d).
Definition set_vmids (m : Z) (v : Z -> Z) (p : Z -> Z) (d : device_queue_manager) : device_queue_manager :=
  Dqm (allocated_queues d) (next_pipe_to_allocate d) (sdma_bitmap d) m (queue_count d) (sdma_queue_count d) (total_queue_count d) v (queues d) p.
Definition set_queues (l : list queue) (a s t : Z) (d : device_queue_manager) : device_queue_manager :=
  Dqm (allocated_queues d) (next_pipe_to_allocate d) (sdma_bitmap d) (vmid_bitmap d) a s t (qpd_vmid d) l (pasid_mapping d).

(** ** Bits *)

Fixpoint first_bit_from (m : Z) (i n : nat) : nat :=
  match n with O => i | S k => if Z.testbit m (Z.of_nat i) then i else first_bit_from m (S i) k end.
Definition find_first_bit (m : Z) (size : nat) : nat := first_bit_from m 0 size.

(** ** VMIDs *)

Definition mapping_of (pasid : Z) : Z := if pasid =? 0 then 0 else Z.lor pasid ATC_VMID_PASID_MAPPING_VALID.
Definition set_pasid_vmid_mapping (pasid vmid : Z) (m : Z -> Z) : Z -> Z := fun v => if v =? vmid then mapping_of pasid else m v.

Definition allocate_vmid (pasid : Z) (d : device_queue_manager) : Z * device_queue_manager :=
  if vmid_bitmap d =? 0 then (- ENOMEM, d)
  else
    let bit := Z.of_nat (find_first_bit (vmid_bitmap d) CIK_VMID_NUM) in
    let vmid := bit + KFD_VMID_START_OFFSET in
    (0, set_vmids (Z.clearbit (vmid_bitmap d) bit) (fun p => if p =? pasid then vmid else qpd_vmid d p) (set_pasid_vmid_mapping pasid vmid (pasid_mapping d)) d).
Definition deallocate_vmid (pasid : Z) (d : device_queue_manager) : device_queue_manager :=
  let vmid := qpd_vmid d pasid in
  set_vmids (Z.setbit (vmid_bitmap d) (vmid - KFD_VMID_START_OFFSET)) (fun p => if p =? pasid then 0 else qpd_vmid d p) (set_pasid_vmid_mapping 0 vmid (pasid_mapping d)) d.

(** ** Hardware slots *)

Section dqm.
(** The number of pipes, and the limit of queues. *)
Context (pipes_num : nat) (max_num_of_queues_per_device : Z).

(** The search for a pipe with a free slot: [n] pipes from [pipe] on. *)
Fixpoint find_pipe (n : nat) (pipe : nat) (l : list Z) : option (option nat) :=
  match n with
  | O => Some None
  | S k => m ← l !! pipe; if negb (m =? 0) then Some (Some pipe) else find_pipe k ((pipe + 1) mod pipes_num)%nat l
  end.
Definition allocate_hqd (d : device_queue_manager) : option (Z * (nat * nat) * device_queue_manager) :=
  found ← find_pipe pipes_num (next_pipe_to_allocate d) (allocated_queues d);
  match found with
  | None => Some (- EBUSY, (0, 0)%nat, d)
  | Some pipe =>
      m ← allocated_queues d !! pipe;
      let bit := find_first_bit m QUEUES_PER_PIPE in
      Some (0, (pipe, bit), set_hqds (<[pipe := Z.clearbit m (Z.of_nat bit)]> (allocated_queues d)) ((pipe + 1) mod pipes_num)%nat d)
  end.
Definition deallocate_hqd (pipe slot : nat) (d : device_queue_manager) : option device_queue_manager :=
  m ← allocated_queues d !! pipe; Some (set_hqds (<[pipe := Z.setbit m (Z.of_nat slot)]> (allocated_queues d)) (next_pipe_to_allocate d) d).

Definition allocate_sdma_queue (d : device_queue_manager) : Z * nat * device_queue_manager :=
  if sdma_bitmap d =? 0 then (- ENOMEM, 0%nat, d)
  else let bit := find_first_bit (sdma_bitmap d) CIK_SDMA_QUEUES in (0, bit, set_sdma (Z.clearbit (sdma_bitmap d) (Z.of_nat bit)) d).
Definition deallocate_sdma_queue (id : nat) (d : device_queue_manager) : device_queue_manager :=
  if Nat.leb CIK_SDMA_QUEUES id then d else set_sdma (Z.setbit (sdma_bitmap d) (Z.of_nat id)) d.
(** The engine and its queue. *)
Definition sdma_queue_id (id : nat) : nat := (id mod CIK_SDMA_QUEUES_PER_ENGINE)%nat.
Definition sdma_engine_id (id : nat) : nat := (id / CIK_SDMA_ENGINE_NUM)%nat.

(** What the manager of queue descriptors answers: whether there is one, and
    the results of [init_mqd] (with the activity it computes), [load_mqd],
    [destroy_mqd] and [update_mqd]. *)
Record mqd_env := MqdEnv { mqd_ok : bool; init_mqd : Z; load_mqd : Z; destroy_mqd : Z; update_mqd : Z; mqd_active : bool }.

(** The slot of a queue, by its type. *)
Definition create_compute_queue_nocpsch (e : mqd_env) (d : device_queue_manager) : option (Z * (nat * nat) * device_queue_manager) :=
  if negb (mqd_ok e) then Some (- ENOMEM, (0, 0)%nat, d)
  else
    '(r, (pipe, slot), d) ← allocate_hqd d;
    if negb (r =? 0) then Some (r, (0, 0)%nat, d)
    else if negb (init_mqd e =? 0) then d ← deallocate_hqd pipe slot d; Some (init_mqd e, (0, 0)%nat, d)
    else if negb (load_mqd e =? 0) then d ← deallocate_hqd pipe slot d; Some (load_mqd e, (0, 0)%nat, d)
    else Some (0, (pipe, slot), d).
Definition create_sdma_queue_nocpsch (e : mqd_env) (d : device_queue_manager) : Z * nat * device_queue_manager :=
  if negb (mqd_ok e) then (- ENOMEM, 0%nat, d)
  else
    let '(r, id, d) := allocate_sdma_queue d in
    if negb (r =? 0) then (r, 0%nat, d)
    else if negb (init_mqd e =? 0) then (init_mqd e, 0%nat, deallocate_sdma_queue id d)
    else if negb (load_mqd e =? 0) then (load_mqd e, 0%nat, deallocate_sdma_queue id d)
    else (0, id, d).
Definition create_slot (e : mqd_env) (type : kfd_queue_type) (d : device_queue_manager) : option (Z * (nat * nat * nat) * device_queue_manager) :=
  match type with
  | KFD_QUEUE_TYPE_COMPUTE => '(r, (pipe, slot), d) ← create_compute_queue_nocpsch e d; Some (r, (pipe, slot, 0%nat), d)
  | KFD_QUEUE_TYPE_SDMA => let '(r, id, d) := create_sdma_queue_nocpsch e d in Some (r, (0%nat, 0%nat, id), d)
  end.

(** [qpd->queues_list]. *)
Definition queues_list (pasid : Z) (l : list queue) : list queue := filter (fun q => q_process q = pasid) l.

Definition create_queue_nocpsch (e : mqd_env) (id pasid : Z) (type : kfd_queue_type) (d : device_queue_manager) : option (Z * device_queue_manager) :=
  if max_num_of_queues_per_device <=? total_queue_count d then Some (- EPERM, d)
  else
    let '(r, d) := match queues_list pasid (queues d) with [] => allocate_vmid pasid d | _ => (0, d) end in
    if negb (r =? 0) then Some (r, d)
    else
      '(r, (pipe, slot, sdma), d) ← create_slot e type d;
      if negb (r =? 0) then Some (r, match queues_list pasid (queues d) with [] => deallocate_vmid pasid d | _ => d end)
      else
        let q := Queue id pasid type (mqd_active e) pipe slot sdma (qpd_vmid d pasid) in
        Some (0, set_queues (q :: queues d) (if mqd_active e then u32 (queue_count d + 1) else queue_count d)
          (if decide (type = KFD_QUEUE_TYPE_SDMA) then u32 (sdma_queue_count d + 1) else sdma_queue_count d) (u32 (total_queue_count d + 1)) d).

(** The queue [q] of the list is destroyed. *)
Definition destroy_queue_nocpsch (e : mqd_env) (q : queue) (d : device_queue_manager) : option (Z * device_queue_manager) :=
  if negb (mqd_ok e) then Some (- ENOMEM, d)
  else
    d ← match q_type q with
        | KFD_QUEUE_TYPE_COMPUTE => deallocate_hqd (q_pipe q) (q_queue q) d
        | KFD_QUEUE_TYPE_SDMA =>
            Some (deallocate_sdma_queue (sdma_id q) (set_queues (queues d) (queue_count d) (u32 (sdma_queue_count d - 1)) (total_queue_count d) d))
        end;
    if negb (destroy_mqd e =? 0) then Some (destroy_mqd e, d)
    else
      let rest := filter (fun x => q_id x <> q_id q) (queues d) in
      let d := set_queues rest (queue_count d) (sdma_queue_count d) (total_queue_count d) d in
      let d := match queues_list (q_process q) rest with [] => deallocate_vmid (q_process q) d | _ => d end in
      Some (0, set_queues rest (if is_active q then u32 (queue_count d - 1) else queue_count d) (sdma_queue_count d) (u32 (total_queue_count d - 1)) d).

(** [update_queue] without the hardware scheduler. *)
Definition update_queue (e : mqd_env) (q : queue) (d : device_queue_manager) : Z * device_queue_manager :=
  if negb (mqd_ok e) then (- ENOMEM, d)
  else
    let a := mqd_active e in
    let l := (fun x => if q_id x =? q_id q then Queue (q_id x) (q_process x) (q_type x) a (q_pipe x) (q_queue x) (sdma_id x) (q_vmid x) else x) <$> queues d in
    let c := if a && negb (is_active q) then u32 (queue_count d + 1) else if negb a && is_active q then u32 (queue_count d - 1) else queue_count d in
    (update_mqd e, set_queues l c (sdma_queue_count d) (total_queue_count d) d).

Definition initialize_nocpsch : device_queue_manager :=
  Dqm (replicate pipes_num (Z.shiftl 1 (Z.of_nat QUEUES_PER_PIPE) - 1)) 0 (Z.shiftl 1 (Z.of_nat CIK_SDMA_QUEUES) - 1) (Z.shiftl 1 (Z.of_nat CIK_VMID_NUM) - 1)
    0 0 0 (fun _ => 0) [] (fun _ => 0).
End dqm.
