(* ===== verification/DqmSpec.v ===== *)
(** * Queues of the compute driver: slots, VMIDs and counts

    [bits_owned] ties a mask of free bits to the list of owners; [dqm_inv] is
    the invariant of the manager: no two queues share a hardware slot, no two
    processes a VMID, nothing is lost, and the counters count. *)

From stdpp Require Import base numbers list gmap.
From S2P Require Import Prelude Dqm.

(** ** Masks of free bits *)

Record bits_owned (m : Z) (n : nat) (owned : list nat) : Prop := BitsOwned {
  bo_nodup : NoDup owned;
  bo_range : forall i, i ∈ owned -> (i < n)%nat;
  bo_free : forall i, Z.testbit m (Z.of_nat i) = true <-> (i < n)%nat /\ i ∉ owned }.

Lemma bits_owned_perm m n l k : l ≡ₚ k -> bits_owned m n l -> bits_owned m n k.
Proof.
  intros E [H1 H2 H3]. constructor; [by rewrite <- E|intros i; rewrite <- E; apply H2|intros i; by rewrite H3, E].
Qed.
Lemma first_bit_spec m i n : forall b, b = first_bit_from m i n -> (i <= b <= i + n)%nat /\ ((b < i + n)%nat -> Z.testbit m (Z.of_nat b) = true) /\ forall x, (i <= x < b)%nat -> Z.testbit m (Z.of_nat x) = false.
Proof.
  revert i. induction n as [|n IH]; intros i b ->; cbn [first_bit_from]; [split; [lia|split; intros; lia]|]. destruct (Z.testbit m (Z.of_nat i)) eqn:E; [split; [lia|split; [done|intros; lia]]|].
  destruct (IH (S i) _ eq_refl) as (H1 & H2 & H3). split; [lia|]. split; [intros; apply H2; lia|]. intros x Hx. destruct (decide (x = i)) as [->|]; [done|]. apply H3. lia.
Qed.
(** A mask that is not zero has a first bit, which nobody owns. *)
Lemma first_free_bit m n owned : bits_owned m n owned -> m <> 0 -> (find_first_bit m n < n)%nat /\ find_first_bit m n ∉ owned.
Proof.
  intros [H1 H2 H3] Hm. destruct (first_bit_spec m 0 n _ eq_refl) as (Hr & Ht & Hf). fold (find_first_bit m n) in *. destruct (decide (find_first_bit m n < n)%nat) as [Hlt|Hge].
  - split; [done|]. by apply H3, Ht.
  - exfalso. apply Hm. apply Z.bits_inj'. intros i Hi. rewrite Z.bits_0. destruct (Z.testbit m i) eqn:E; [|done]. rewrite <- (Z2Nat.id i) in E by done. pose proof (proj1 (H3 _) E) as [Hn _].
    rewrite Hf in E by lia. done.
Qed.
Lemma no_bits n owned i : bits_owned 0 n owned -> (i < n)%nat -> i ∈ owned.
Proof. intros [H1 H2 H3] Hi. destruct (decide (i ∈ owned)) as [|Hn]; [done|]. specialize (proj2 (H3 i) (conj Hi Hn)). by rewrite Z.bits_0. Qed.
Lemma own_bit m n owned b : bits_owned m n owned -> (b < n)%nat -> b ∉ owned -> bits_owned (Z.clearbit m (Z.of_nat b)) n (b :: owned).
Proof.
  intros [H1 H2 H3] Hb Hn. constructor; [by constructor|intros i [->|Hi]%elem_of_cons; [done|by apply H2]|]. intros i. rewrite Z.clearbit_eqb, andb_true_iff, H3, negb_true_iff, Z.eqb_neq, not_elem_of_cons by lia.
  intuition lia.
Qed.
Lemma disown_bit m n owned b : bits_owned m n (b :: owned) -> bits_owned (Z.setbit m (Z.of_nat b)) n owned.
Proof.
  intros [H1 H2 H3]. apply NoDup_cons in H1 as [Hn H1]. pose proof (H2 b (list_elem_of_here _ _)) as Hb. constructor; [done|intros i Hi; apply H2; by right|].
  intros i. rewrite Z.setbit_eqb, orb_true_iff, H3, Z.eqb_eq, not_elem_of_cons by lia. destruct (decide (i = b)) as [->|]; [intuition lia|]. intuition lia.
Qed.
Lemma full_mask n : bits_owned (Z.shiftl 1 (Z.of_nat n) - 1) n [].
Proof.
  constructor; [constructor|by intros i Hi%not_elem_of_nil|]. intros i. rewrite Z.shiftl_1_l, Z.sub_1_r, <- Z.ones_equiv, testbit_ones_nonneg by lia. rewrite Z.ltb_lt. split; [intros Hi; split; [lia|apply not_elem_of_nil]|lia].
Qed.

(** ** VMIDs *)

(** [has p]: process [p] has queues. *)
Record vm_inv (has : Z -> Prop) (bitmap : Z) (vmid mapping : Z -> Z) : Prop := VmInv {
  vm_range : forall p, has p -> KFD_VMID_START_OFFSET <= vmid p < KFD_VMID_START_OFFSET + Z.of_nat CIK_VMID_NUM;
  vm_apart : forall p p', has p -> has p' -> vmid p = vmid p' -> p = p';
  vm_none : forall p, ~ has p -> vmid p = 0;
  vm_free : forall i, Z.testbit bitmap (Z.of_nat i) = true <-> (i < CIK_VMID_NUM)%nat /\ forall p, has p -> vmid p <> KFD_VMID_START_OFFSET + Z.of_nat i;
  vm_mapped : forall p, has p -> mapping (vmid p) = mapping_of p;
  vm_unmapped : forall v, (forall p, has p -> vmid p <> v) -> mapping v = 0 }.

Lemma vm_inv_ext has has' b v m : (forall p, has p <-> has' p) -> vm_inv has b v m -> vm_inv has' b v m.
Proof.
  intros E [H1 H2 H3 H4 H5 H6]. constructor; intros *; rewrite <- ?E; [apply H1|apply H2|apply H3| |apply H5|].
  - rewrite H4. by setoid_rewrite E.
  - intros H. apply H6. intros p. rewrite E. apply H.
Qed.

Lemma vm_alloc has b v m p :
  vm_inv has b v m -> ~ has p -> p <> 0 -> b <> 0 ->
  let i := Z.of_nat (find_first_bit b CIK_VMID_NUM) in
  vm_inv (fun x => has x \/ x = p) (Z.clearbit b i) (fun x => if x =? p then i + KFD_VMID_START_OFFSET else v x) (set_pasid_vmid_mapping p (i + KFD_VMID_START_OFFSET) m).
Proof.
  intros H Hp Hp0 Hb. destruct (first_bit_spec b 0 CIK_VMID_NUM _ eq_refl) as (Hr & Ht & Hf). fold (find_first_bit b CIK_VMID_NUM) in *. set (n := find_first_bit b CIK_VMID_NUM) in *. cbv zeta.
  assert (Hn : (n < CIK_VMID_NUM)%nat).
  { destruct (decide (n < CIK_VMID_NUM)%nat) as [|Hge]; [done|]. exfalso. apply Hb, Z.bits_inj'. intros i Hi. rewrite Z.bits_0. destruct (Z.testbit b i) eqn:E; [|done].
    rewrite <- (Z2Nat.id i) in E by done. pose proof (proj1 (vm_free _ _ _ _ H _) E) as [Hlt _]. rewrite Hf in E by lia. done. }
  assert (Hfree : forall x, has x -> v x <> KFD_VMID_START_OFFSET + Z.of_nat n) by (apply (vm_free _ _ _ _ H n), Ht; lia).
  destruct H as [H1 H2 H3 H4 H5 H6]. unfold CIK_VMID_NUM, KFD_VMID_START_OFFSET in *. assert (Hne : forall x, has x -> x <> p) by (intros x Hx ->; done). unfold set_pasid_vmid_mapping. constructor; unfold CIK_VMID_NUM, KFD_VMID_START_OFFSET in *.
  - intros x Hx. destruct (Z.eqb_spec x p) as [->|Hxp]; [lia|]. apply H1. tauto.
  - intros x y Hx Hy. destruct (Z.eqb_spec x p) as [->|Hxp], (Z.eqb_spec y p) as [->|Hyp]; [done| | |apply H2; tauto].
    + intros E. destruct Hy as [Hy|]; [|done]. specialize (Hfree y Hy). lia.
    + intros E. destruct Hx as [Hx|]; [|done]. specialize (Hfree x Hx). lia.
  - intros x Hx. destruct (Z.eqb_spec x p) as [->|Hxp]; [tauto|]. apply H3. tauto.
  - intros i. rewrite Z.clearbit_eqb, andb_true_iff, H4, negb_true_iff, Z.eqb_neq by lia. split.
    + intros [[Hi Hi'] Hin]. split; [done|]. intros x Hx. destruct (Z.eqb_spec x p) as [->|Hxp]; [lia|]. apply Hi'. tauto.
    + intros [Hi Hi']. split; [split; [done|]|].
      * intros x Hx. specialize (Hi' x (or_introl Hx)). by rewrite (proj2 (Z.eqb_neq x p) (Hne x Hx)) in Hi'.
      * specialize (Hi' p (or_intror eq_refl)). rewrite Z.eqb_refl in Hi'. lia.
  - intros x Hx. destruct (Z.eqb_spec x p) as [->|Hxp]; [by rewrite Z.eqb_refl|]. destruct Hx as [Hx|]; [|done]. rewrite (proj2 (Z.eqb_neq _ _)); [by apply H5|]. specialize (Hfree x Hx). lia.
  - intros w Hw. pose proof (Hw p (or_intror eq_refl)) as Hwp. rewrite Z.eqb_refl in Hwp. rewrite (proj2 (Z.eqb_neq w (Z.of_nat n + 8))) by lia. apply H6. intros x Hx.
    specialize (Hw x (or_introl Hx)). by rewrite (proj2 (Z.eqb_neq x p) (Hne x Hx)) in Hw.
Qed.

Lemma vm_dealloc has b v m p :
  vm_inv has b v m -> has p -> vm_inv (fun x => has x /\ x <> p) (Z.setbit b (v p - KFD_VMID_START_OFFSET)) (fun x => if x =? p then 0 else v x) (set_pasid_vmid_mapping 0 (v p) m).
Proof.
  intros [H1 H2 H3 H4 H5 H6] Hp. pose proof (H1 p Hp) as Hvp. unfold CIK_VMID_NUM, KFD_VMID_START_OFFSET in *. unfold set_pasid_vmid_mapping.
  assert (Hother : forall x, has x -> x <> p -> v x <> v p) by (intros x Hx Hne E; by apply Hne, H2). constructor; unfold CIK_VMID_NUM, KFD_VMID_START_OFFSET in *.
  - intros x [Hx Hne]. rewrite (proj2 (Z.eqb_neq x p) Hne). by apply H1.
  - intros x y [Hx Hxp] [Hy Hyp]. rewrite (proj2 (Z.eqb_neq x p) Hxp), (proj2 (Z.eqb_neq y p) Hyp). by apply H2.
  - intros x Hx. destruct (Z.eqb_spec x p) as [->|Hne]; [done|]. apply H3. tauto.
  - intros i. rewrite Z.setbit_eqb, orb_true_iff, H4, Z.eqb_eq by lia. split.
    + intros [Hi|[Hi Hi']].
      * split; [lia|]. intros x [Hx Hne]. rewrite (proj2 (Z.eqb_neq x p) Hne). specialize (Hother x Hx Hne). lia.
      * split; [done|]. intros x [Hx Hne]. rewrite (proj2 (Z.eqb_neq x p) Hne). by apply Hi'.
    + intros [Hi Hi']. destruct (decide (v p = 8 + Z.of_nat i)) as [E|E]; [left; lia|right]. split; [done|]. intros x Hx. destruct (decide (x = p)) as [->|Hne]; [done|].
      specialize (Hi' x (conj Hx Hne)). by rewrite (proj2 (Z.eqb_neq x p) Hne) in Hi'.
  - intros x [Hx Hne]. rewrite (proj2 (Z.eqb_neq x p) Hne), (proj2 (Z.eqb_neq (v x) (v p)) (Hother x Hx Hne)). by apply H5.
  - intros w Hw. destruct (Z.eqb_spec w (v p)) as [->|Hne]; [done|]. apply H6. intros x Hx E. destruct (decide (x = p)) as [->|Hxp]; [done|].
    specialize (Hw x (conj Hx Hxp)). by rewrite (proj2 (Z.eqb_neq x p) Hxp) in Hw.
Qed.

(** ** Hardware slots *)

Definition compute_slots (pipe : nat) (l : list queue) : list nat := q_queue <$> filter (fun q => q_type q = KFD_QUEUE_TYPE_COMPUTE /\ q_pipe q = pipe) l.
Definition sdma_slots (l : list queue) : list nat := sdma_id <$> filter (fun q => q_type q = KFD_QUEUE_TYPE_SDMA) l.

Section hqd.
Context (pipes_num : nat).

Record hqd_inv (l : list queue) (alloc : list Z) (next : nat) : Prop := HqdInv {
  hq_len : length alloc = pipes_num;
  hq_next : (next < pipes_num)%nat;
  hq_bits : forall pipe m, alloc !! pipe = Some m -> bits_owned m QUEUES_PER_PIPE (compute_slots pipe l);
  hq_pipes : forall q, q ∈ l -> q_type q = KFD_QUEUE_TYPE_COMPUTE -> (q_pipe q < pipes_num)%nat }.

Lemma hqd_inv_perm l k alloc next : l ≡ₚ k -> hqd_inv l alloc next -> hqd_inv k alloc next.
Proof.
  intros E [H1 H2 H3 H4]. constructor; [done|done| |intros q; rewrite <- E; apply H4].
  intros pipe m Em. eapply bits_owned_perm; [|by apply H3]. unfold compute_slots. by rewrite E.
Qed.
Lemma compute_slots_cons q l pipe :
  compute_slots pipe (q :: l) = if decide (q_type q = KFD_QUEUE_TYPE_COMPUTE /\ q_pipe q = pipe) then q_queue q :: compute_slots pipe l else compute_slots pipe l.
Proof. unfold compute_slots. rewrite filter_cons. by destruct (decide _). Qed.
(** A queue of the other kind changes nothing. *)
Lemma hqd_inv_other q l alloc next : q_type q = KFD_QUEUE_TYPE_SDMA -> hqd_inv (q :: l) alloc next <-> hqd_inv l alloc next.
Proof.
  intros Hq. assert (E : forall pipe, compute_slots pipe (q :: l) = compute_slots pipe l) by (intros pipe; rewrite compute_slots_cons, decide_False; [done|intros [? _]; congruence]).
  split; intros [H1 H2 H3 H4]; constructor; try done.
  - intros pipe m Em. rewrite <- E. by apply H3.
  - intros x Hx. apply H4. by right.
  - intros pipe m Em. rewrite E. by apply H3.
  - intros x [->|Hx]%elem_of_cons Ht; [congruence|by apply H4].
Qed.

(** The search goes round all pipes. *)
Lemma find_pipe_spec n pipe alloc :
  length alloc = pipes_num -> (pipe < pipes_num)%nat ->
  exists found, find_pipe pipes_num n pipe alloc = Some found /\
    match found with
    | Some p => exists m, alloc !! p = Some m /\ m <> 0
    | None => forall k, (k < n)%nat -> alloc !! ((pipe + k) mod pipes_num)%nat = Some 0
    end.
Proof.
  intros Hl. revert pipe. induction n as [|n IH]; intros pipe Hp; cbn [find_pipe]; [exists None; split; [done|lia]|].
  destruct (lookup_lt_is_Some_2 alloc pipe) as [m Em]; [lia|]. rewrite Em. cbn [mbind option_bind]. destruct (Z.eqb_spec m 0) as [->|Hm]; cbn [negb]; [|exists (Some pipe); split; [done|by exists m]].
  destruct (IH ((pipe + 1) mod pipes_num)%nat) as (found & E & H); [apply Nat.mod_upper_bound; lia|]. exists found. split; [exact E|]. destruct found as [p|]; [done|].
  intros [|k] Hk; [rewrite Nat.add_0_r, Nat.mod_small by done; done|]. specialize (H k ltac:(lia)). rewrite Nat.Div0.add_mod_idemp_l in H. by replace (pipe + S k)%nat with (pipe + 1 + k)%nat by lia.
Qed.
Lemma all_pipes (alloc : list Z) pipe : (forall k, (k < pipes_num)%nat -> alloc !! ((pipe + k) mod pipes_num)%nat = Some 0) -> (pipe < pipes_num)%nat -> forall p, (p < pipes_num)%nat -> alloc !! p = Some 0.
Proof.
  intros H Hp p Hlt. destruct (decide (pipe <= p)%nat).
  - specialize (H (p - pipe)%nat ltac:(lia)). replace (pipe + (p - pipe))%nat with p in H by lia. by rewrite Nat.mod_small in H.
  - specialize (H (p + pipes_num - pipe)%nat ltac:(lia)). replace (pipe + (p + pipes_num - pipe))%nat with (p + 1 * pipes_num)%nat in H by lia. by rewrite Nat.Div0.mod_add, Nat.mod_small in H.
Qed.

Lemma allocate_hqd_spec l d :
  hqd_inv l (allocated_queues d) (next_pipe_to_allocate d) ->
  (allocate_hqd pipes_num d = Some (- EBUSY, (0, 0)%nat, d) /\ forall pipe slot, (pipe < pipes_num)%nat -> (slot < QUEUES_PER_PIPE)%nat -> slot ∈ compute_slots pipe l) \/
  exists pipe slot a n, allocate_hqd pipes_num d = Some (0, (pipe, slot), set_hqds a n d) /\
    forall q, q_type q = KFD_QUEUE_TYPE_COMPUTE -> q_pipe q = pipe -> q_queue q = slot -> hqd_inv (q :: l) a n.
Proof.
  intros [H1 H2 H3 H4]. unfold allocate_hqd. destruct (find_pipe_spec pipes_num (next_pipe_to_allocate d) (allocated_queues d) H1 H2) as (found & E & H). rewrite E. cbn [mbind option_bind].
  destruct found as [pipe|].
  - right. destruct H as (m & Em & Hm). rewrite Em. cbn [mbind option_bind]. destruct (first_free_bit m _ _ (H3 pipe m Em) Hm) as [Hb Hn]. eexists _, _, _, _. split; [reflexivity|].
    intros q Q1 Q2 Q3. pose proof (lookup_lt_Some _ _ _ Em) as Hlt. constructor; [by rewrite length_insert|apply Nat.mod_upper_bound; lia| |].
    + intros p m'. rewrite list_lookup_insert_Some. rewrite compute_slots_cons. intros [(<- & <- & _)|(Hne & Ep)].
      * rewrite decide_True by done. rewrite Q3. by apply own_bit; [apply H3|..].
      * rewrite decide_False by (intros [_ ?]; congruence). by apply H3.
    + intros x [->|Hx]%elem_of_cons Ht; [lia|by apply H4].
  - left. split; [done|]. intros pipe slot Hp Hs. pose proof (all_pipes _ _ H H2 pipe Hp) as E0. by eapply no_bits; [apply H3|].
Qed.

Lemma deallocate_hqd_spec q l d :
  hqd_inv (q :: l) (allocated_queues d) (next_pipe_to_allocate d) -> q_type q = KFD_QUEUE_TYPE_COMPUTE ->
  exists a, deallocate_hqd (q_pipe q) (q_queue q) d = Some (set_hqds a (next_pipe_to_allocate d) d) /\ hqd_inv l a (next_pipe_to_allocate d).
Proof.
  intros [H1 H2 H3 H4] Hq. unfold deallocate_hqd. pose proof (H4 q (list_elem_of_here _ _) Hq) as Hp. destruct (lookup_lt_is_Some_2 (allocated_queues d) (q_pipe q)) as [m Em]; [lia|].
  rewrite Em. cbn [mbind option_bind]. eexists. split; [reflexivity|]. constructor; [by rewrite length_insert|done| |intros x Hx; apply H4; by right].
  intros p m'. rewrite list_lookup_insert_Some. intros [(<- & <- & _)|(Hne & Ep)].
  - specialize (H3 _ _ Em). rewrite compute_slots_cons, decide_True in H3 by done. by apply disown_bit.
  - specialize (H3 _ _ Ep). rewrite compute_slots_cons, decide_False in H3 by (intros [_ ?]; congruence). done.
Qed.
End hqd.

Lemma sdma_slots_cons q l : sdma_slots (q :: l) = if decide (q_type q = KFD_QUEUE_TYPE_SDMA) then sdma_id q :: sdma_slots l else sdma_slots l.
Proof. unfold sdma_slots. rewrite filter_cons. by destruct (decide _). Qed.

(** ** Queues of the compute driver: the manager over time *)

Definition has_queues (l : list queue) (p : Z) : Prop := p ∈ q_process <$> l.
#[global] Instance has_queues_dec l p : Decision (has_queues l p).
Proof. unfold has_queues. apply _. Defined.
Lemma no_queues l p : queues_list p l = [] <-> ~ has_queues l p.
Proof.
  unfold has_queues, queues_list. split.
  - intros E (q & -> & Hq)%list_elem_of_fmap. assert (Hin : q ∈ filter (fun x => q_process x = q_process q) l) by (by apply list_elem_of_filter). rewrite E in Hin. by apply not_elem_of_nil in Hin.
  - intros Hn. apply elem_of_nil_inv. intros q (Hp & Hq)%list_elem_of_filter. apply Hn. apply list_elem_of_fmap. by exists q.
Qed.

Section manager.
Context (pipes_num : nat) (max : Z) (Hpipes : (0 < pipes_num)%nat) (Hmax : 0 <= max < 2 ^ 32).

Definition slots_inv (l : list queue) (d : device_queue_manager) : Prop :=
  hqd_inv pipes_num l (allocated_queues d) (next_pipe_to_allocate d) /\ bits_owned (sdma_bitmap d) CIK_SDMA_QUEUES (sdma_slots l).
Definition active (l : list queue) : Z := Z.of_nat (length (filter (fun q => is_active q = true) l)).
Definition sdmas (l : list queue) : Z := Z.of_nat (length (filter (fun q => q_type q = KFD_QUEUE_TYPE_SDMA) l)).
Record dqm_inv (d : device_queue_manager) : Prop := DqmInv {
  di_slots : slots_inv (queues d) d;
  di_vm : vm_inv (has_queues (queues d)) (vmid_bitmap d) (qpd_vmid d) (pasid_mapping d);
  di_total : total_queue_count d = Z.of_nat (length (queues d)) /\ total_queue_count d <= max;
  di_active : queue_count d = active (queues d);
  di_sdma : sdma_queue_count d = sdmas (queues d);
  di_ids : NoDup (q_id <$> queues d);
  di_vmids : forall q, q ∈ queues d -> q_process q <> 0 /\ q_vmid q = qpd_vmid d (q_process q) }.

(** What the slots of a queue leave alone. *)
Definition rest_same (d d' : device_queue_manager) : Prop :=
  vmid_bitmap d' = vmid_bitmap d /\ queue_count d' = queue_count d /\ sdma_queue_count d' = sdma_queue_count d /\ total_queue_count d' = total_queue_count d /\
  qpd_vmid d' = qpd_vmid d /\ queues d' = queues d /\ pasid_mapping d' = pasid_mapping d.
Lemma rest_same_hqds a n d : rest_same d (set_hqds a n d).
Proof. done. Qed.
Lemma rest_same_sdma m d : rest_same d (set_sdma m d).
Proof. done. Qed.
Lemma slots_perm l k d : l ≡ₚ k -> slots_inv l d -> slots_inv k d.
Proof. intros E [H1 H2]. split; [by eapply hqd_inv_perm|]. eapply bits_owned_perm; [|exact H2]. unfold sdma_slots. by rewrite E. Qed.

(** ** Slots *)

(** The slot of a queue is returned. *)
Lemma compute_release q l d :
  slots_inv (q :: l) d -> q_type q = KFD_QUEUE_TYPE_COMPUTE -> exists a, deallocate_hqd (q_pipe q) (q_queue q) d = Some (set_hqds a (next_pipe_to_allocate d) d) /\ slots_inv l (set_hqds a (next_pipe_to_allocate d) d).
Proof.
  intros [H1 H2] Hq. destruct (deallocate_hqd_spec _ q l d H1 Hq) as (a & E & Ha). exists a. split; [exact E|]. split; [done|]. cbn [set_hqds sdma_bitmap].
  rewrite sdma_slots_cons, decide_False in H2 by congruence. done.
Qed.
Lemma sdma_release q l d : slots_inv (q :: l) d -> q_type q = KFD_QUEUE_TYPE_SDMA -> exists m, deallocate_sdma_queue (sdma_id q) d = set_sdma m d /\ slots_inv l (set_sdma m d).
Proof.
  intros [H1 H2] Hq. rewrite sdma_slots_cons, decide_True in H2 by done. pose proof (bo_range _ _ _ H2 _ (list_elem_of_here _ _)) as Hr. unfold deallocate_sdma_queue.
  destruct (Nat.leb_spec CIK_SDMA_QUEUES (sdma_id q)); [lia|]. eexists. split; [reflexivity|]. split; [by apply (hqd_inv_other _ q)|]. by apply disown_bit.
Qed.

Definition slot_result (l : list queue) (type : kfd_queue_type) (d : device_queue_manager) (x : Z * (nat * nat * nat) * device_queue_manager) : Prop :=
  let '(r, (pipe, slot, sd), d') := x in
  rest_same d d' /\ (r <> 0 -> slots_inv l d') /\
  (r = 0 -> forall q, q_type q = type -> q_pipe q = pipe -> q_queue q = slot -> sdma_id q = sd -> slots_inv (q :: l) d').

Lemma compute_slot e l d : slots_inv l d -> exists x, create_slot pipes_num e KFD_QUEUE_TYPE_COMPUTE d = Some x /\ slot_result l KFD_QUEUE_TYPE_COMPUTE d x.
Proof.
  intros H. pose proof H as [Hh Hs]. unfold create_slot, create_compute_queue_nocpsch. destruct (mqd_ok e); cbn [negb]; [|by eexists].
  destruct (allocate_hqd_spec _ _ d Hh) as [[E Hfull]|(pipe & slot & a & n & E & Hq)]; rewrite E; cbn [mbind option_bind Z.eqb negb].
  { eexists. split; [reflexivity|]. by split. }
  set (q0 := Queue 0 0 KFD_QUEUE_TYPE_COMPUTE false pipe slot 0 0).
  assert (Hall : forall q, q_type q = KFD_QUEUE_TYPE_COMPUTE -> q_pipe q = pipe -> q_queue q = slot -> slots_inv (q :: l) (set_hqds a n d)).
  { intros q Q1 Q2 Q3. split; [by apply Hq|]. rewrite sdma_slots_cons, decide_False by congruence. done. }
  destruct (compute_release q0 l (set_hqds a n d) (Hall q0 eq_refl eq_refl eq_refl) eq_refl) as (a' & E' & Hback). cbn [q0 q_pipe q_queue] in E'.
  destruct (Z.eqb_spec (init_mqd e) 0) as [Ei|Ni]; cbn [negb]; [|rewrite E'; eexists; split; [reflexivity|]; by split; [done|split; [done|intros ?; done]]].
  destruct (Z.eqb_spec (load_mqd e) 0) as [El|Nl]; cbn [negb]; [|rewrite E'; eexists; split; [reflexivity|]; by split; [done|split; [done|intros ?; done]]].
  eexists. split; [reflexivity|]. split; [done|]. split; [done|]. intros _ q Q1 Q2 Q3 _. by apply Hall.
Qed.
Lemma sdma_slot e l d : slots_inv l d -> exists x, create_slot pipes_num e KFD_QUEUE_TYPE_SDMA d = Some x /\ slot_result l KFD_QUEUE_TYPE_SDMA d x.
Proof.
  intros H. pose proof H as [Hh Hs]. unfold create_slot, create_sdma_queue_nocpsch, allocate_sdma_queue. destruct (mqd_ok e); cbn [negb]; [|by eexists].
  destruct (Z.eqb_spec (sdma_bitmap d) 0) as [E0|N0]; cbn [Z.eqb negb]; [by eexists|].
  destruct (first_free_bit _ _ _ Hs N0) as [Hb Hn]. set (bit := find_first_bit (sdma_bitmap d) CIK_SDMA_QUEUES) in *. set (d1 := set_sdma (Z.clearbit (sdma_bitmap d) (Z.of_nat bit)) d).
  assert (Hall : forall q, q_type q = KFD_QUEUE_TYPE_SDMA -> sdma_id q = bit -> slots_inv (q :: l) d1).
  { intros q Q1 Q2. split; [by apply hqd_inv_other|]. rewrite sdma_slots_cons, decide_True by done. rewrite Q2. by apply own_bit. }
  set (q0 := Queue 0 0 KFD_QUEUE_TYPE_SDMA false 0 0 bit 0). destruct (sdma_release q0 l d1 (Hall q0 eq_refl eq_refl) eq_refl) as (m & E' & Hback). cbn [q0 sdma_id] in E'.
  destruct (Z.eqb_spec (init_mqd e) 0) as [Ei|Ni]; cbn [negb]; [|rewrite E'; eexists; split; [reflexivity|]; by split; [done|split; [done|intros ?; done]]].
  destruct (Z.eqb_spec (load_mqd e) 0) as [El|Nl]; cbn [negb]; [|rewrite E'; eexists; split; [reflexivity|]; by split; [done|split; [done|intros ?; done]]].
  eexists. split; [reflexivity|]. split; [done|]. split; [done|]. intros _ q Q1 _ _ Q2. by apply Hall.
Qed.
Lemma slot_ok e type l d : slots_inv l d -> exists x, create_slot pipes_num e type d = Some x /\ slot_result l type d x.
Proof. destruct type; [apply compute_slot|apply sdma_slot]. Qed.

(** ** Creating a queue *)

Lemma has_cons q l p : has_queues (q :: l) p <-> has_queues l p \/ p = q_process q.
Proof. unfold has_queues. rewrite fmap_cons, elem_of_cons. tauto. Qed.
Lemma active_cons q l : active (q :: l) = active l + (if is_active q then 1 else 0).
Proof. unfold active. rewrite filter_cons. destruct (is_active q) eqn:E; [rewrite decide_True by done; cbn; lia|rewrite decide_False by done; lia]. Qed.
Lemma sdmas_cons q l : sdmas (q :: l) = sdmas l + (if decide (q_type q = KFD_QUEUE_TYPE_SDMA) then 1 else 0).
Proof. unfold sdmas. rewrite filter_cons. destruct (decide _); cbn; lia. Qed.
Lemma active_range l : 0 <= active l <= Z.of_nat (length l).
Proof. unfold active. pose proof (length_filter (fun q => is_active q = true) l). lia. Qed.
Lemma sdmas_range l : 0 <= sdmas l <= Z.of_nat (length l).
Proof. unfold sdmas. pose proof (length_filter (fun q => q_type q = KFD_QUEUE_TYPE_SDMA) l). lia. Qed.

(** A queue is entered: its slot is owned, its process has a VMID. *)
Lemma enter_inv q d d' :
  dqm_inv d -> total_queue_count d < max -> queues d' = queues d -> queue_count d' = queue_count d -> sdma_queue_count d' = sdma_queue_count d -> total_queue_count d' = total_queue_count d ->
  slots_inv (q :: queues d) d' -> vm_inv (fun p => has_queues (queues d) p \/ p = q_process q) (vmid_bitmap d') (qpd_vmid d') (pasid_mapping d') ->
  (forall p, has_queues (queues d) p -> qpd_vmid d' p = qpd_vmid d p) -> q_id q ∉ q_id <$> queues d -> q_process q <> 0 -> q_vmid q = qpd_vmid d' (q_process q) ->
  dqm_inv (set_queues (q :: queues d') (if is_active q then u32 (queue_count d' + 1) else queue_count d')
    (if decide (q_type q = KFD_QUEUE_TYPE_SDMA) then u32 (sdma_queue_count d' + 1) else sdma_queue_count d') (u32 (total_queue_count d' + 1)) d').
Proof.
  intros [I1 I2 [I3 I3'] I4 I5 I6 I7] Hlt Eq Ec Es Et Hs Hv Hsame Hid Hp Hvq. pose proof (active_range (queues d)). pose proof (sdmas_range (queues d)).
  rewrite Eq, Ec, Es, Et. constructor; cbn [queues vmid_bitmap qpd_vmid pasid_mapping total_queue_count queue_count sdma_queue_count set_queues].
  - exact Hs.
  - eapply vm_inv_ext; [|exact Hv]. intros p. by rewrite has_cons.
  - rewrite u32_small by (unfold is_u32; lia). cbn [length]. lia.
  - rewrite active_cons, <- I4. destruct (is_active q); [|lia]. apply u32_small. unfold is_u32. lia.
  - rewrite sdmas_cons, <- I5. destruct (decide _); [|lia]. apply u32_small. unfold is_u32. lia.
  - rewrite fmap_cons. by constructor.
  - intros x [->|Hx]%elem_of_cons; [done|]. destruct (I7 x Hx) as [Hx0 Hxv]. split; [done|]. rewrite Hsame; [done|]. apply list_elem_of_fmap. by exists x.
Qed.

Lemma create_inv e id pasid type d :
  dqm_inv d -> pasid <> 0 -> id ∉ q_id <$> queues d -> exists r d', create_queue_nocpsch pipes_num max e id pasid type d = Some (r, d') /\ dqm_inv d'.
Proof.
  intros I Hp Hid. pose proof I as [I1 I2 [I3 I3'] I4 I5 I6 I7]. unfold create_queue_nocpsch. destruct (Z.leb_spec max (total_queue_count d)) as [|Hlt]; [by eexists _, d|].
  destruct (queues_list pasid (queues d)) as [|q0 ql] eqn:El.
  - apply no_queues in El as Hno. unfold allocate_vmid. destruct (Z.eqb_spec (vmid_bitmap d) 0) as [E0|N0]; [by eexists _, d|]. cbn [Z.eqb negb].
    pose proof (vm_alloc _ _ _ _ pasid I2 Hno Hp N0) as Hv. cbv zeta in Hv. set (d1 := set_vmids _ _ _ d) in *.
    destruct (slot_ok e type (queues d) d1 I1) as ([[r [[pipe slot] sd]] d2] & E & Hrest & Hbad & Hgood). rewrite E. cbn [mbind option_bind]. destruct Hrest as (R1 & R2 & R3 & R4 & R5 & R6 & R7).
    assert (Hv2 : vm_inv (fun p => has_queues (queues d) p \/ p = pasid) (vmid_bitmap d2) (qpd_vmid d2) (pasid_mapping d2)) by (rewrite R1, R5, R7; exact Hv).
    assert (Hother : forall p, has_queues (queues d) p -> qpd_vmid d2 p = qpd_vmid d p) by (intros p Hh; rewrite R5; cbn; by destruct (Z.eqb_spec p pasid) as [->|]).
    destruct (Z.eqb_spec r 0) as [->|Hr]; cbn [negb].
    + eexists _, _. split; [reflexivity|]. apply (enter_inv (Queue id pasid type (mqd_active e) pipe slot sd (qpd_vmid d2 pasid)) d d2); try done. by apply Hgood.
    + change (queues d1) with (queues d) in R6. rewrite R6, El. eexists _, _. split; [reflexivity|]. specialize (Hbad Hr). pose proof (vm_dealloc _ _ _ _ pasid Hv2 (or_intror eq_refl)) as Hv3.
      constructor; cbn [queues vmid_bitmap qpd_vmid pasid_mapping total_queue_count queue_count sdma_queue_count set_vmids deallocate_vmid]; rewrite R6.
      * exact Hbad.
      * eapply vm_inv_ext; [|exact Hv3]. intros p. cbn beta. split; [intros [[?|?] ?]; done|]. intros Hh. split; [by left|]. by intros ->.
      * rewrite R4. done.
      * rewrite R2. done.
      * rewrite R3. done.
      * done.
      * intros x Hx. destruct (I7 x Hx) as [Hx0 Hxv]. split; [done|]. assert (Hh : has_queues (queues d) (q_process x)) by (apply list_elem_of_fmap; by exists x).
        rewrite (Hother _ Hh). destruct (Z.eqb_spec (q_process x) pasid) as [E1|]; [|done]. by rewrite E1 in Hh.
  - assert (Hhas : has_queues (queues d) pasid) by (destruct (decide (has_queues (queues d) pasid)) as [|Hn]; [done|apply no_queues in Hn; congruence]). cbn [Z.eqb negb].
    destruct (slot_ok e type (queues d) d I1) as ([[r [[pipe slot] sd]] d2] & E & Hrest & Hbad & Hgood). rewrite E. cbn [mbind option_bind]. destruct Hrest as (R1 & R2 & R3 & R4 & R5 & R6 & R7).
    destruct (Z.eqb_spec r 0) as [->|Hr]; cbn [negb].
    + eexists _, _. split; [reflexivity|]. apply (enter_inv (Queue id pasid type (mqd_active e) pipe slot sd (qpd_vmid d2 pasid)) d d2); try done; [by apply Hgood| |by rewrite R5].
      rewrite R1, R5, R7. eapply vm_inv_ext; [|exact I2]. intros p. cbn. split; [by left|]. intros [?| ->]; done.
    + rewrite R6, El. eexists _, d2. split; [reflexivity|]. constructor; rewrite ?R1, ?R2, ?R3, ?R4, ?R5, ?R6, ?R7; try done. by apply Hbad.
Qed.

(** ** Destroying and updating a queue *)

(** The list without a queue. *)
Lemma queue_rest q l : NoDup (q_id <$> l) -> q ∈ l -> l ≡ₚ q :: filter (fun x => q_id x <> q_id q) l.
Proof.
  intros Hnd Hin. induction l as [|x l IH]; [by apply not_elem_of_nil in Hin|]. rewrite fmap_cons in Hnd. apply NoDup_cons in Hnd as [Hx Hnd]. rewrite filter_cons. apply elem_of_cons in Hin as [->|Hin].
  - rewrite decide_False by (intros H; by apply H). apply perm_skip. clear IH Hnd. induction l as [|y l IH]; [done|]. rewrite fmap_cons in Hx. apply not_elem_of_cons in Hx as [Hy Hx].
    rewrite filter_cons, decide_True by (intros E; by apply Hy). apply perm_skip. by apply IH.
  - rewrite decide_True; [|intros E; apply Hx; rewrite E; apply list_elem_of_fmap; by exists q]. rewrite (IH Hnd Hin) at 1. apply perm_swap.
Qed.
Lemma active_perm l k : l ≡ₚ k -> active l = active k.
Proof. intros E. unfold active. by rewrite E. Qed.
Lemma sdmas_perm l k : l ≡ₚ k -> sdmas l = sdmas k.
Proof. intros E. unfold sdmas. by rewrite E. Qed.
Lemma has_perm l k p : l ≡ₚ k -> has_queues l p <-> has_queues k p.
Proof. intros E. unfold has_queues. by rewrite E. Qed.

Lemma destroy_inv e q d :
  dqm_inv d -> q ∈ queues d -> destroy_mqd e = 0 -> exists r d', destroy_queue_nocpsch e q d = Some (r, d') /\ dqm_inv d'.
Proof.
  intros I Hq He. pose proof I as [I1 I2 [I3 I3'] I4 I5 I6 I7]. unfold destroy_queue_nocpsch. destruct (mqd_ok e); cbn [negb]; [|by eexists _, d].
  pose proof (queue_rest q (queues d) I6 Hq) as Hperm. set (rest := filter (fun x => q_id x <> q_id q) (queues d)) in *.
  assert (Hs : slots_inv (q :: rest) d) by (by eapply slots_perm). pose proof (active_perm _ _ Hperm) as Ha. rewrite active_cons in Ha. pose proof (sdmas_perm _ _ Hperm) as Hsd. rewrite sdmas_cons in Hsd.
  pose proof (Permutation_length Hperm) as Hlen. cbn [length] in Hlen. pose proof (active_range rest). pose proof (sdmas_range rest).
  assert (Hslot : exists d1, match q_type q with
      | KFD_QUEUE_TYPE_COMPUTE => deallocate_hqd (q_pipe q) (q_queue q) d
      | KFD_QUEUE_TYPE_SDMA => Some (deallocate_sdma_queue (sdma_id q) (set_queues (queues d) (queue_count d) (u32 (sdma_queue_count d - 1)) (total_queue_count d) d))
      end = Some d1 /\ slots_inv rest d1 /\ vmid_bitmap d1 = vmid_bitmap d /\ qpd_vmid d1 = qpd_vmid d /\ pasid_mapping d1 = pasid_mapping d /\ queues d1 = queues d /\
      queue_count d1 = queue_count d /\ total_queue_count d1 = total_queue_count d /\ sdma_queue_count d1 = sdmas rest).
  { destruct (q_type q) eqn:Et.
    - destruct (compute_release q rest d Hs Et) as (a & E & Ha1). eexists. split; [exact E|]. split; [exact Ha1|]. repeat (split; [done|]). cbn. rewrite decide_False in Hsd by done. lia.
    - rewrite decide_True in Hsd by done. destruct (sdma_release q rest (set_queues (queues d) (queue_count d) (u32 (sdma_queue_count d - 1)) (total_queue_count d) d)) as (m & E & Hm); [exact Hs|done|].
      rewrite E. eexists. split; [reflexivity|]. split; [exact Hm|]. repeat (split; [done|]). cbn. rewrite u32_small by (unfold is_u32; lia). lia. }
  destruct Hslot as (d1 & E & Hs1 & R1 & R2 & R3 & R4 & R5 & R6 & R7). rewrite E. cbn [mbind option_bind]. rewrite He. cbn [Z.eqb negb]. rewrite R4. fold rest. eexists _, _. split; [reflexivity|].
  assert (Hids : NoDup (q_id <$> rest)) by (rewrite Hperm, fmap_cons in I6; by apply NoDup_cons in I6 as [_ ?]).
  assert (Hin : forall x, x ∈ rest -> x ∈ queues d) by (intros x Hx; rewrite Hperm; by right).
  assert (Hcount : (if is_active q then u32 (queue_count d - 1) else queue_count d) = active rest) by (destruct (is_active q); [rewrite u32_small by (unfold is_u32; lia)|]; lia).
  assert (Htot : u32 (total_queue_count d - 1) = Z.of_nat (length rest) /\ u32 (total_queue_count d - 1) <= max) by (rewrite u32_small by (unfold is_u32; lia); lia).
  destruct (queues_list (q_process q) rest) as [|q1 ql] eqn:El.
  - apply no_queues in El. constructor; cbn [queues vmid_bitmap qpd_vmid pasid_mapping total_queue_count queue_count sdma_queue_count set_queues set_vmids deallocate_vmid]; rewrite ?R1, ?R2, ?R3, ?R5, ?R6, ?R7; try done.
    + eapply vm_inv_ext; [|apply (vm_dealloc _ _ _ _ (q_process q) I2)]; [|apply list_elem_of_fmap; by exists q]. intros p. cbn beta. rewrite (has_perm _ _ p Hperm), has_cons. split; [intros [[?|?] ?]; done|].
      intros Hp. split; [by left|]. by intros ->.
    + intros x Hx. destruct (I7 x (Hin x Hx)) as [Hx0 Hxv]. split; [done|]. destruct (Z.eqb_spec (q_process x) (q_process q)) as [Eq|]; [|done]. exfalso. apply El. rewrite <- Eq. apply list_elem_of_fmap. by exists x.
  - assert (Hhas : has_queues rest (q_process q)) by (destruct (decide (has_queues rest (q_process q))) as [|Hn]; [done|apply no_queues in Hn; congruence]).
    constructor; cbn [queues vmid_bitmap qpd_vmid pasid_mapping total_queue_count queue_count sdma_queue_count set_queues]; rewrite ?R1, ?R2, ?R3, ?R5, ?R6, ?R7; try done.
    + eapply vm_inv_ext; [|exact I2]. intros p. rewrite (has_perm _ _ p Hperm), has_cons. split; [|by left]. intros [?| ->]; done.
    + intros x Hx. by apply I7, Hin.
Qed.

Definition with_active (a : bool) (q : queue) : queue := Queue (q_id q) (q_process q) (q_type q) a (q_pipe q) (q_queue q) (sdma_id q) (q_vmid q).
Lemma slots_active a q l d : slots_inv (q :: l) d -> slots_inv (with_active a q :: l) d.
Proof.
  intros [[H1 H2 H3 H4] H5]. split; [|by rewrite sdma_slots_cons in *]. constructor; [done|done| |].
  - intros pipe m Em. specialize (H3 pipe m Em). by rewrite compute_slots_cons in *.
  - intros x [->|Hx]%elem_of_cons; [apply (H4 q); left|apply H4; by right].
Qed.
Lemma update_inv e q d : dqm_inv d -> q ∈ queues d -> dqm_inv (update_queue e q d).2.
Proof.
  intros I Hq. pose proof I as [I1 I2 [I3 I3'] I4 I5 I6 I7]. unfold update_queue. destruct (mqd_ok e); cbn [negb snd]; [|done]. set (a := mqd_active e).
  set (f := fun x => if q_id x =? q_id q then Queue (q_id x) (q_process x) (q_type x) a (q_pipe x) (q_queue x) (sdma_id x) (q_vmid x) else x).
  pose proof (queue_rest q (queues d) I6 Hq) as Hperm. set (rest := filter (fun x => q_id x <> q_id q) (queues d)) in *.
  assert (Hf : f <$> queues d ≡ₚ with_active a q :: rest).
  { rewrite Hperm at 1. rewrite fmap_cons. unfold f at 1. rewrite Z.eqb_refl. apply perm_skip. assert (Er : f <$> rest = rest); [|by rewrite Er]. rewrite <- (list_fmap_id rest) at 2. apply list_fmap_ext. intros i x Ex.
    apply list_elem_of_lookup_2, list_elem_of_filter in Ex as [Hne _]. unfold f. by rewrite (proj2 (Z.eqb_neq _ _) Hne). }
  assert (Hproc : q_process <$> (f <$> queues d) = q_process <$> queues d) by (rewrite <- list_fmap_compose; apply list_fmap_ext; intros i x _; cbn; unfold f; by destruct (q_id x =? q_id q)).
  assert (Hid : q_id <$> (f <$> queues d) = q_id <$> queues d) by (rewrite <- list_fmap_compose; apply list_fmap_ext; intros i x _; cbn; unfold f; by destruct (q_id x =? q_id q)).
  pose proof (active_perm _ _ Hperm) as Ha. rewrite active_cons in Ha. pose proof (active_range rest). pose proof (Permutation_length Hperm) as Hlen. cbn [length] in Hlen.
  constructor; cbn [queues vmid_bitmap qpd_vmid pasid_mapping total_queue_count queue_count sdma_queue_count set_queues].
  - eapply slots_perm; [symmetry; exact Hf|]. apply slots_active. by eapply slots_perm.
  - unfold has_queues. by rewrite Hproc.
  - by rewrite length_fmap.
  - rewrite (active_perm _ _ Hf), active_cons. cbn [with_active is_active]. destruct a, (is_active q); cbn [negb andb]; rewrite ?u32_small by (unfold is_u32; lia); lia.
  - rewrite (sdmas_perm _ _ Hf), sdmas_cons, I5, (sdmas_perm _ _ Hperm), sdmas_cons. done.
  - by rewrite Hid.
  - intros x (y & -> & Hy)%list_elem_of_fmap. destruct (I7 y Hy) as [H0 H1]. unfold f. by destruct (q_id y =? q_id q).
Qed.

Lemma initialize_inv : dqm_inv (initialize_nocpsch pipes_num).
Proof.
  constructor; cbn; try done.
  - split; [constructor; cbn; [apply length_replicate|done| |by intros q Hq%not_elem_of_nil]|apply full_mask]. intros pipe m [-> _]%lookup_replicate. apply full_mask.
  - assert (Hno : forall p, ~ has_queues [] p) by (intros p Hp; by apply not_elem_of_nil in Hp). constructor; try (intros p Hp; by destruct (Hno p)); [intros p p' Hp; by destruct (Hno p)|done| |done].
    intros i. pose proof (full_mask CIK_VMID_NUM) as [_ _ H]. rewrite (H i). split; [intros [? _]; split; [done|intros p Hp; by destruct (Hno p)]|]. intros [? _]. split; [done|apply not_elem_of_nil].
  - lia.
  - constructor.
  - by intros q Hq%not_elem_of_nil.
Qed.

(** A request: a queue that is not destroyed by the hardware is not part of
    these steps. *)
Inductive dqm_step (d d' : device_queue_manager) : Prop :=
  | step_create e id pasid type r : pasid <> 0 -> id ∉ q_id <$> queues d -> create_queue_nocpsch pipes_num max e id pasid type d = Some (r, d') -> dqm_step d d'
  | step_destroy e q r : q ∈ queues d -> destroy_mqd e = 0 -> destroy_queue_nocpsch e q d = Some (r, d') -> dqm_step d d'
  | step_update e q : q ∈ queues d -> d' = (update_queue e q d).2 -> dqm_step d d'.
Lemma manager_inv d d' : rtc dqm_step d d' -> dqm_inv d -> dqm_inv d'.
Proof.
  induction 1 as [|d d1 d2 Hs _ IH]; [done|]. intros I. apply IH. destruct Hs as [e id pasid type r Hp Hid E|e q r Hq He E|e q Hq ->].
  - destruct (create_inv e id pasid type d I Hp Hid) as (r' & d' & E' & I'). congruence.
  - destruct (destroy_inv e q d I Hq He) as (r' & d' & E' & I'). congruence.
  - by apply update_inv.
Qed.
End manager.

Lemma owned_apart {A} `{!EqDecision A} (f : queue -> A) (P : queue -> Prop) `{!forall q, Decision (P q)} l q q' :
  NoDup (f <$> filter P l) -> q ∈ l -> q' ∈ l -> P q -> P q' -> f q = f q' -> q = q'.
Proof.
  intros Hnd Hq Hq' HP HP' E. assert (H1 : q ∈ filter P l) by (by apply list_elem_of_filter). assert (H2 : q' ∈ filter P l) by (by apply list_elem_of_filter).
  apply list_elem_of_lookup in H1 as [i Ei]. apply list_elem_of_lookup in H2 as [j Ej]. assert (i = j) as ->; [|congruence].
  eapply NoDup_lookup; [exact Hnd|rewrite list_lookup_fmap, Ei; reflexivity|rewrite list_lookup_fmap, Ej; cbn; by rewrite E].
Qed.

(** C23: after any sequence of queue creations (that succeed or fail at any point), destructions that the hardware carries out, and updates, by any number of processes, the resources of the device are kept apart and none is lost: two compute queues never share a slot of a pipe, and two DMA queues never share a queue of an engine; every process with queues has a VMID between 8 and 15 of its own, which the device maps to that process, all of its queues use it, and a VMID of no process is mapped to none.  A slot, a DMA queue and a VMID are marked free exactly when no queue uses them.  The counters equal the number of queues, of active queues and of DMA queues, and the limit holds.  Every further creation with a new id, and every further destruction of a queue that the hardware carries out, is done without an access outside the table of pipes, and an allocation is refused as busy only when all slots of all pipes are in use. *)
Theorem dqm_resources_apart pipes_num max d :
  (0 < pipes_num)%nat -> 0 <= max < 2 ^ 32 -> rtc (dqm_step pipes_num max) (initialize_nocpsch pipes_num) d ->
  (forall q q', q ∈ queues d -> q' ∈ queues d -> q_type q = KFD_QUEUE_TYPE_COMPUTE -> q_type q' = KFD_QUEUE_TYPE_COMPUTE ->
     q_pipe q = q_pipe q' -> q_queue q = q_queue q' -> q = q') /\
  (forall q q', q ∈ queues d -> q' ∈ queues d -> q_type q = KFD_QUEUE_TYPE_SDMA -> q_type q' = KFD_QUEUE_TYPE_SDMA ->
     sdma_engine_id (sdma_id q) = sdma_engine_id (sdma_id q') -> sdma_queue_id (sdma_id q) = sdma_queue_id (sdma_id q') -> q = q') /\
  (forall q, q ∈ queues d -> 8 <= q_vmid q <= 15 /\ pasid_mapping d (q_vmid q) = mapping_of (q_process q)) /\
  (forall q q', q ∈ queues d -> q' ∈ queues d -> q_vmid q = q_vmid q' <-> q_process q = q_process q') /\
  (forall v, (forall q, q ∈ queues d -> q_vmid q <> v) -> pasid_mapping d v = 0) /\
  (forall pipe slot, (pipe < pipes_num)%nat -> (slot < QUEUES_PER_PIPE)%nat -> exists m, allocated_queues d !! pipe = Some m /\
     (Z.testbit m (Z.of_nat slot) = true <-> slot ∉ compute_slots pipe (queues d))) /\
  (forall i, (i < CIK_SDMA_QUEUES)%nat -> Z.testbit (sdma_bitmap d) (Z.of_nat i) = true <-> forall q, q ∈ queues d -> q_type q = KFD_QUEUE_TYPE_SDMA -> sdma_id q <> i) /\
  (forall i, (i < CIK_VMID_NUM)%nat -> Z.testbit (vmid_bitmap d) (Z.of_nat i) = true <-> forall q, q ∈ queues d -> q_vmid q <> 8 + Z.of_nat i) /\
  total_queue_count d = Z.of_nat (length (queues d)) /\ total_queue_count d <= max /\ queue_count d = active (queues d) /\ sdma_queue_count d = sdmas (queues d) /\
  (forall e id pasid type, pasid <> 0 -> id ∉ q_id <$> queues d -> exists r d', create_queue_nocpsch pipes_num max e id pasid type d = Some (r, d')) /\
  (forall e q, q ∈ queues d -> destroy_mqd e = 0 -> exists r d', destroy_queue_nocpsch e q d = Some (r, d')) /\
  (allocate_hqd pipes_num d = Some (- EBUSY, (0, 0)%nat, d) -> forall pipe slot, (pipe < pipes_num)%nat -> (slot < QUEUES_PER_PIPE)%nat -> slot ∈ compute_slots pipe (queues d)).
Proof.
  intros Hp Hm Hr. pose proof (manager_inv pipes_num max Hp Hm _ d Hr (initialize_inv pipes_num max Hp Hm)) as I. pose proof I as [[Hh Hs] V [T1 T2] A S N W].
  assert (Hhas : forall q, q ∈ queues d -> has_queues (queues d) (q_process q)) by (intros q Hq; apply list_elem_of_fmap; by exists q).
  split; [|split; [|split; [|split; [|split; [|split; [|split; [|split; [|split; [done|split; [done|split; [done|split; [done|split; [|split]]]]]]]]]]]]].
  - intros q q' Hq Hq' Tq Tq' Ep Eq. destruct (lookup_lt_is_Some_2 (allocated_queues d) (q_pipe q)) as [m Em]; [rewrite (hq_len _ _ _ _ Hh); by apply (hq_pipes _ _ _ _ Hh)|].
    eapply (owned_apart q_queue); [exact (bo_nodup _ _ _ (hq_bits _ _ _ _ Hh _ _ Em))|done|done|done|done|done].
  - intros q q' Hq Hq' Tq Tq' E1 E2. eapply (owned_apart sdma_id); [exact (bo_nodup _ _ _ Hs)|done|done|done|done|]. unfold sdma_engine_id, sdma_queue_id, CIK_SDMA_ENGINE_NUM, CIK_SDMA_QUEUES_PER_ENGINE in *.
    rewrite (Nat.div_mod_eq (sdma_id q) 2), (Nat.div_mod_eq (sdma_id q') 2). lia.
  - intros q Hq. destruct (W q Hq) as [_ ->]. pose proof (vm_range _ _ _ _ V _ (Hhas q Hq)) as Hv. unfold KFD_VMID_START_OFFSET, CIK_VMID_NUM in Hv. split; [lia|]. apply (vm_mapped _ _ _ _ V), Hhas, Hq.
  - intros q q' Hq Hq'. destruct (W q Hq) as [_ ->], (W q' Hq') as [_ ->]. split; [|by intros ->]. apply (vm_apart _ _ _ _ V); by apply Hhas.
  - intros v Hv. apply (vm_unmapped _ _ _ _ V). intros p (q & -> & Hq)%list_elem_of_fmap. rewrite <- (proj2 (W q Hq)). by apply Hv.
  - intros pipe slot Hpi Hsl. destruct (lookup_lt_is_Some_2 (allocated_queues d) pipe) as [m Em]; [by rewrite (hq_len _ _ _ _ Hh)|]. exists m. split; [done|].
    rewrite (bo_free _ _ _ (hq_bits _ _ _ _ Hh _ _ Em)). tauto.
  - intros i Hi. rewrite (bo_free _ _ _ Hs). unfold sdma_slots. rewrite list_elem_of_fmap. split.
    + intros [_ Hn] q Hq Tq E. apply Hn. exists q. split; [done|]. by apply list_elem_of_filter.
    + intros H. split; [done|]. intros (q & -> & [Tq Hq]%list_elem_of_filter). by apply (H q Hq Tq).
  - intros i Hi. rewrite (vm_free _ _ _ _ V). unfold KFD_VMID_START_OFFSET. split.
    + intros [_ H] q Hq. destruct (W q Hq) as [_ ->]. apply H. by apply Hhas.
    + intros H. split; [done|]. intros p (q & -> & Hq)%list_elem_of_fmap. rewrite <- (proj2 (W q Hq)). by apply H.
  - intros e id pasid type H0 Hid. destruct (create_inv pipes_num max Hp Hm e id pasid type d I H0 Hid) as (r & d' & E & _). by exists r, d'.
  - intros e q Hq He. destruct (destroy_inv pipes_num max Hp Hm e q d I Hq He) as (r & d' & E & _). by exists r, d'.
  - intros E. destruct (allocate_hqd_spec pipes_num (queues d) d Hh) as [[_ H]|(pipe & slot & a & n & E' & _)]; [done|]. rewrite E' in E. discriminate.
Qed.

(** Process 5 creates a compute queue and a DMA queue. *)
Definition good_mqd : mqd_env := MqdEnv true 0 0 0 0 true.
Lemma dqm_resources_apart_witness :
  exists d, rtc (dqm_step 4 64) (initialize_nocpsch 4) d /\ (fun q => (q_id q, q_pipe q, q_queue q, sdma_id q, q_vmid q)) <$> queues d = [(2, 0%nat, 0%nat, 0%nat, 8); (1, 0%nat, 0%nat, 0%nat, 8)] /\
    total_queue_count d = 2 /\ forall v, (forall q, q ∈ queues d -> q_vmid q <> v) -> pasid_mapping d v = 0.
Proof.
  destruct (create_queue_nocpsch 4 64 good_mqd 1 5 KFD_QUEUE_TYPE_COMPUTE (initialize_nocpsch 4)) as [[r1 d1]|] eqn:E1; [|vm_compute in E1; discriminate].
  destruct (create_queue_nocpsch 4 64 good_mqd 2 5 KFD_QUEUE_TYPE_SDMA d1) as [[r2 d2]|] eqn:E2; [|vm_compute in E1; injection E1 as <- <-; vm_compute in E2; discriminate].
  assert (Hs : rtc (dqm_step 4 64) (initialize_nocpsch 4) d2).
  { eapply rtc_l; [eapply (step_create _ _ _ _ good_mqd 1 5 KFD_QUEUE_TYPE_COMPUTE r1); [lia|apply not_elem_of_nil|exact E1]|].
    eapply rtc_l; [eapply (step_create _ _ _ _ good_mqd 2 5 KFD_QUEUE_TYPE_SDMA r2); [lia| |exact E2]|apply rtc_refl].
    vm_compute in E1. injection E1 as _ <-. cbn. apply not_elem_of_cons. split; [done|apply not_elem_of_nil]. }
  exists d2. split; [exact Hs|]. destruct (dqm_resources_apart 4 64 d2 ltac:(lia) ltac:(lia) Hs) as (_ & _ & _ & _ & Hun & _).
  split; [vm_compute in E1; injection E1 as <- <-; vm_compute in E2; injection E2 as <- <-; reflexivity|]. split; [|exact Hun].
  vm_compute in E1. injection E1 as <- <-. vm_compute in E2. injection E2 as <- <-. reflexivity.
Defined.

(** When the hardware does not give up a queue, its slot has been returned all
    the same: the next queue gets the slot of one that is still listed. *)
Lemma failed_destroy_shares_slot :
  exists d1 r2 d2 d3, create_queue_nocpsch 1 64 good_mqd 1 5 KFD_QUEUE_TYPE_COMPUTE (initialize_nocpsch 1) = Some (0, d1) /\
    (exists q, q ∈ queues d1 /\ destroy_queue_nocpsch (MqdEnv true 0 0 (-62) 0 true) q d1 = Some (r2, d2)) /\ r2 = -62 /\
    create_queue_nocpsch 1 64 good_mqd 2 5 KFD_QUEUE_TYPE_COMPUTE d2 = Some (0, d3) /\ (fun q => (q_id q, q_pipe q, q_queue q)) <$> queues d3 = [(2, 0%nat, 0%nat); (1, 0%nat, 0%nat)].
Proof. do 4 eexists. split; [reflexivity|]. split; [eexists; split; [left|reflexivity]|]. split; [reflexivity|]. split; reflexivity. Qed.
