(* ===== verification/Aux.v ===== *)
(** * The AUX channel of DisplayPort links ([dal/dc/i2caux])

    [aux_engine.c] carries reads and writes of the display's registers and of
    the I2C devices behind it over the AUX channel: it sends a request, looks
    at the answer and retries within the limits of the standard.  It uses the
    channel through the function table [aux_engine_funcs]; the table of the
    DCE 11 hardware is [dce110] below, whose registers are an arbitrary
    function of the accesses made so far.  [i2caux.c] sends the payloads of a
    command one after the other.  Delays have no effect on the state and are
    left out, as are the debugger traps. *)

From stdpp Require Import base numbers list.
From S2P Require Import Prelude CMonad.

(** ** Data of the interface *)

Definition AUX_INVALID_REPLY_RETRY_COUNTER : Z := 1.
Definition AUX_TIMED_OUT_RETRY_COUNTER : Z := 2.
Definition AUX_DEFER_RETRY_COUNTER : Z := 6.
Definition DEFAULT_AUX_MAX_DATA_SIZE : Z := 16.

Inductive aux_transaction_type := AUX_TRANSACTION_TYPE_DP | AUX_TRANSACTION_TYPE_I2C.
#[global] Instance aux_transaction_type_eq_dec : EqDecision aux_transaction_type.
Proof. solve_decision. Defined.

(** [enum i2caux_transaction_action]: the command of the request. *)
Definition ACTION_I2C_WRITE : Z := 0x00.
Definition ACTION_I2C_READ : Z := 0x10.
Definition ACTION_I2C_STATUS_REQUEST : Z := 0x20.
Definition ACTION_I2C_WRITE_MOT : Z := 0x40.
Definition ACTION_I2C_READ_MOT : Z := 0x50.
Definition ACTION_I2C_STATUS_REQUEST_MOT : Z := 0x60.
Definition ACTION_DP_WRITE : Z := 0x80.
Definition ACTION_DP_READ : Z := 0x90.

(** [enum aux_transaction_reply]; the I2C acknowledge has the value of the AUX one. *)
Definition REPLY_AUX_ACK : Z := 0x00.
Definition REPLY_AUX_NACK : Z := 0x01.
Definition REPLY_AUX_DEFER : Z := 0x02.
Definition REPLY_I2C_NACK : Z := 0x10.
Definition REPLY_I2C_DEFER : Z := 0x20.
Definition REPLY_INVALID : Z := 0xFF.

Inductive aux_channel_operation_result :=
  | AUX_CHANNEL_OPERATION_SUCCEEDED
  | AUX_CHANNEL_OPERATION_FAILED_REASON_UNKNOWN
  | AUX_CHANNEL_OPERATION_FAILED_INVALID_REPLY
  | AUX_CHANNEL_OPERATION_FAILED_TIMEOUT.

Inductive i2caux_transaction_status :=
  | STATUS_UNKNOWN
  | STATUS_SUCCEEDED
  | STATUS_FAILED_TIMEOUT
  | STATUS_FAILED_PROTOCOL_ERROR
  | STATUS_FAILED_NACK.

(** [req_data] is the object behind the pointer, from the pointer on. *)
Record aux_request_transaction_data := AuxRequest {
  req_type : aux_transaction_type;
  req_action : Z;
  req_address : Z;
  req_delay : Z;
  req_length : Z;
  req_data : list Z }.

(** [reply_status] is [None] while it is not initialised. *)
Record aux_reply_transaction_data := AuxReply {
  reply_status : option Z;
  reply_length : Z;
  reply_data : list Z }.

(** [struct aux_engine_funcs], over the state of the channel. *)
Record aux_engine_funcs (S : Type) := AuxFuncs {
  submit_channel_request : aux_request_transaction_data -> M S unit;
  process_channel_reply : aux_reply_transaction_data -> M S aux_reply_transaction_data;
  get_channel_status : M S (aux_channel_operation_result * Z) }.
Arguments submit_channel_request {S}.
Arguments process_channel_reply {S}.
Arguments get_channel_status {S}.

(** The operations, the address spaces and the payload of a request. *)
Definition I2CAUX_TRANSACTION_READ : Z := 0.
Definition I2CAUX_TRANSACTION_WRITE : Z := 1.
Definition ADDRESS_SPACE_I2C : Z := 1.
Definition ADDRESS_SPACE_DPCD : Z := 2.

Record i2caux_transaction_request := I2cauxRequest {
  operation : Z;
  address_space : Z;
  address : Z;
  payload_length : Z;
  payload_data : list Z }.

(** ** The engine *)

(** The retry counters of a transaction; [ack_retry] is
    [invalid_reply_retry_aux_on_ack] of a read and [ack_m_retry] of a write. *)
Record retry_counters := Counters {
  timed_out_retry_aux : Z;
  invalid_reply_retry_aux : Z;
  defer_retry_aux : Z;
  defer_retry_i2c : Z;
  ack_retry : Z }.

(** How the transaction stands; the status is not initialised at first. *)
Record verdict := Verdict {
  status : option i2caux_transaction_status;
  transaction_complete : bool;
  operation_succeeded : bool }.
Definition failed (st : i2caux_transaction_status) (v : verdict) : verdict := Verdict (Some st) (transaction_complete v) false.
Definition done_ok (v : verdict) : verdict := Verdict (Some STATUS_SUCCEEDED) true true.
(** The condition of both loops. *)
Definition again (v : verdict) : bool := operation_succeeded v && negb (transaction_complete v).

Record read_command_context := ReadCtx {
  rc_buffer : list Z;
  current_read_length : Z;
  offset : Z;
  rc_request : aux_request_transaction_data;
  rc_reply_status : option Z;
  rc_returned_byte : Z;
  rc_retry : retry_counters;
  rc_verdict : verdict }.

Record write_command_context := WriteCtx {
  mot : bool;
  wc_buffer : list Z;
  current_write_length : Z;
  wc_request : aux_request_transaction_data;
  wc_reply_status : option Z;
  wc_returned_byte : Z;
  wc_retry : retry_counters;
  max_defer_retry : Z;
  wc_reply_data : list Z;
  wc_verdict : verdict }.

(** [memset (buf + off, 0, n)]. *)
Definition memset_zero {S} (off n : Z) (buf : list Z) : M S (list Z) :=
  if (Z.to_nat off + Z.to_nat n <=? length buf)%nat
  then mret (take (Z.to_nat off) buf ++ replicate (Z.to_nat n) 0 ++ drop (Z.to_nat off + Z.to_nat n) buf)
  else fault.

(** What the channel reports for a request that got no reply, in both directions. *)
Definition channel_failure (op : aux_channel_operation_result) (k : retry_counters) (v : verdict) : retry_counters * verdict :=
  let 'Counters t i da di a := k in
  match op with
  | AUX_CHANNEL_OPERATION_FAILED_INVALID_REPLY =>
      let i := u32 (i + 1) in
      (Counters t i da di a, if AUX_INVALID_REPLY_RETRY_COUNTER <? i then failed STATUS_FAILED_PROTOCOL_ERROR v else v)
  | AUX_CHANNEL_OPERATION_FAILED_TIMEOUT =>
      let t := u32 (t + 1) in
      (Counters t i da di a, if AUX_TIMED_OUT_RETRY_COUNTER <? t then failed STATUS_FAILED_TIMEOUT v else v)
  | _ => (k, failed STATUS_UNKNOWN v)
  end.

Section engine.
Context {S : Type} (funcs : aux_engine_funcs S).

Definition process_read_reply (reply : aux_reply_transaction_data) (ctx : read_command_context) : M S read_command_context :=
  reply ← process_channel_reply funcs reply;
  let 'ReadCtx _ len off req _ rb k v := ctx in
  let 'Counters t i da di a := k in
  let buf := reply_data reply in
  match reply_status reply with
  | None => fault
  | Some st =>
      let ctx len off k v := mret (ReadCtx buf len off req (Some st) rb k v) in
      if st =? REPLY_AUX_ACK then
        if len <? rb then ctx len off (Counters t i 0 di a) (failed STATUS_FAILED_PROTOCOL_ERROR v)
        else if rb <? len then
          let a := u32 (a + 1) in
          ctx (u32 (len - rb)) (u32 (off + rb)) (Counters t i 0 di a)
            (if AUX_INVALID_REPLY_RETRY_COUNTER <? a then failed STATUS_FAILED_PROTOCOL_ERROR v else v)
        else ctx len off (Counters t i 0 di a) (done_ok v)
      else if st =? REPLY_AUX_NACK then ctx len off k (failed STATUS_FAILED_NACK v)
      else if st =? REPLY_AUX_DEFER then
        let da := u32 (da + 1) in
        ctx len off (Counters t i da di a) (if AUX_DEFER_RETRY_COUNTER <? da then failed STATUS_FAILED_TIMEOUT v else v)
      else if st =? REPLY_I2C_DEFER then
        let di := u32 (di + 1) in
        ctx len off (Counters t i 0 di a) (if AUX_DEFER_RETRY_COUNTER <? di then failed STATUS_FAILED_TIMEOUT v else v)
      else ctx len off k (failed STATUS_UNKNOWN v)
  end.

(** The reply is stored from the start of the buffer, whatever the offset. *)
Definition process_read_request (ctx : read_command_context) : M S read_command_context :=
  submit_channel_request funcs (rc_request ctx);;
  '(op, rb) ← get_channel_status funcs;
  let 'ReadCtx buf len off req rst _ k v := ctx in
  match op with
  | AUX_CHANNEL_OPERATION_SUCCEEDED =>
      if len <? rb then mret (ReadCtx buf len off req rst rb k (failed STATUS_FAILED_PROTOCOL_ERROR v))
      else
        let k := Counters 0 0 (defer_retry_aux k) (defer_retry_i2c k) (ack_retry k) in
        process_read_reply (AuxReply rst rb buf) (ReadCtx buf len off req rst rb k v)
  | _ => let '(k, v) := channel_failure op k v in mret (ReadCtx buf len off req rst rb k v)
  end.

(** The [do] loop. *)
Fixpoint read_loop (fuel : nat) (ctx : read_command_context) : M S read_command_context :=
  match fuel with
  | O => nofuel
  | Datatypes.S n =>
      let 'ReadCtx buf len off req rst rb k v := ctx in
      buf ← memset_zero off len buf;
      let req := AuxRequest (req_type req) (req_action req) (req_address req) (req_delay req) len (drop (Z.to_nat off) buf) in
      ctx ← process_read_request (ReadCtx buf len off req rst rb k v);
      if again (rc_verdict ctx) then read_loop n ctx else mret ctx
  end.

Definition start_retry : retry_counters := Counters 0 0 0 0 0.
Definition start_verdict : verdict := Verdict None false true.

(** The result with the buffer and the request's status. *)
Definition read_command (fuel : nat) (request : i2caux_transaction_request) (middle_of_transaction : bool) :
    M S (bool * list Z * option i2caux_transaction_status) :=
  let go type action addr :=
    ctx ← read_loop fuel
      (ReadCtx (payload_data request) (payload_length request) 0
         (AuxRequest type action addr 0 (payload_length request) (payload_data request)) None 0 start_retry start_verdict);
    mret (operation_succeeded (rc_verdict ctx), rc_buffer ctx, status (rc_verdict ctx)) in
  if address_space request =? ADDRESS_SPACE_DPCD then go AUX_TRANSACTION_TYPE_DP ACTION_DP_READ (address request)
  else if address_space request =? ADDRESS_SPACE_I2C then
    go AUX_TRANSACTION_TYPE_I2C (if middle_of_transaction then ACTION_I2C_READ_MOT else ACTION_I2C_READ) (Z.shiftr (address request) 1)
  else mret (false, payload_data request, None).

(** The request becomes a query of the status of the write. *)
Definition status_request (mot : bool) (req : aux_request_transaction_data) : aux_request_transaction_data :=
  AuxRequest (req_type req) (if mot then ACTION_I2C_STATUS_REQUEST_MOT else ACTION_I2C_STATUS_REQUEST)
    (req_address req) (req_delay req) (req_length req) (req_data req).

Definition process_write_reply (reply : aux_reply_transaction_data) (ctx : write_command_context) : M S write_command_context :=
  reply ← process_channel_reply funcs reply;
  let 'WriteCtx mot buf len req _ rb k maxd _ v := ctx in
  let 'Counters t i da di a := k in
  match reply_status reply with
  | None => fault
  | Some st =>
      let ctx len req k v := mret (WriteCtx mot buf len req (Some st) rb k maxd (reply_data reply) v) in
      if st =? REPLY_AUX_ACK then
        let v := Verdict (status v) (transaction_complete v) true in
        if negb (rb =? 0) then
          let a := u32 (a + 1) in
          ctx 0 (status_request mot req) (Counters t i da di a)
            (if AUX_DEFER_RETRY_COUNTER <? a then failed STATUS_FAILED_TIMEOUT v else v)
        else ctx len req (Counters t i 0 di 0) (done_ok v)
      else if st =? REPLY_AUX_NACK then ctx len req k (failed STATUS_FAILED_NACK v)
      else if st =? REPLY_AUX_DEFER then
        let da := u32 (da + 1) in
        ctx len req (Counters t i da di a) (if maxd <? da then failed STATUS_FAILED_TIMEOUT v else v)
      else if st =? REPLY_I2C_DEFER then
        let di := u32 (di + 1) in
        ctx 0 (status_request mot req) (Counters t i 0 di a) (if maxd <? di then failed STATUS_FAILED_TIMEOUT v else v)
      else ctx len req k (failed STATUS_UNKNOWN v)
  end.

Definition process_write_request (ctx : write_command_context) : M S write_command_context :=
  submit_channel_request funcs (wc_request ctx);;
  '(op, rb) ← get_channel_status funcs;
  let 'WriteCtx mot buf len req rst _ k maxd rdata v := ctx in
  match op with
  | AUX_CHANNEL_OPERATION_SUCCEEDED =>
      let k := Counters 0 0 (defer_retry_aux k) (defer_retry_i2c k) (ack_retry k) in
      process_write_reply (AuxReply rst rb rdata) (WriteCtx mot buf len req rst rb k maxd rdata v)
  | _ => let '(k, v) := channel_failure op k v in mret (WriteCtx mot buf len req rst rb k maxd rdata v)
  end.

Fixpoint write_loop (fuel : nat) (ctx : write_command_context) : M S write_command_context :=
  match fuel with
  | O => nofuel
  | Datatypes.S n =>
      let 'WriteCtx mot buf len req rst rb k maxd rdata v := ctx in
      let req := AuxRequest (req_type req) (req_action req) (req_address req) (req_delay req) len buf in
      ctx ← process_write_request (WriteCtx mot buf len req rst rb k maxd rdata v);
      if again (wc_verdict ctx) then write_loop n ctx else mret ctx
  end.

(** [reply_data] is an array of the function, not initialised; its contents are never read. *)
Definition write_command (fuel : nat) (max_defer_write_retry : Z) (request : i2caux_transaction_request) (middle_of_transaction : bool) :
    M S (bool * option i2caux_transaction_status) :=
  let maxd := if AUX_DEFER_RETRY_COUNTER <? max_defer_write_retry then max_defer_write_retry else AUX_DEFER_RETRY_COUNTER in
  let go type action addr :=
    ctx ← write_loop fuel
      (WriteCtx middle_of_transaction (payload_data request) (payload_length request)
         (AuxRequest type action addr 0 (payload_length request) (payload_data request)) None 0 start_retry maxd
         (replicate (Z.to_nat DEFAULT_AUX_MAX_DATA_SIZE) 0) start_verdict);
    mret (operation_succeeded (wc_verdict ctx), status (wc_verdict ctx)) in
  if address_space request =? ADDRESS_SPACE_DPCD then go AUX_TRANSACTION_TYPE_DP ACTION_DP_WRITE (address request)
  else if address_space request =? ADDRESS_SPACE_I2C then
    go AUX_TRANSACTION_TYPE_I2C (if middle_of_transaction then ACTION_I2C_WRITE_MOT else ACTION_I2C_WRITE) (Z.shiftr (address request) 1)
  else mret (false, None).

(** The stop condition for I2C devices; the dummy request has a byte of its own. *)
Definition end_of_transaction_command (fuel : nat) (max_defer_write_retry : Z) (request : i2caux_transaction_request) : M S bool :=
  if negb (address_space request =? ADDRESS_SPACE_I2C) then mret false
  else
    let dummy_request := I2cauxRequest (operation request) (address_space request) (address request) 0 [0] in
    if operation request =? I2CAUX_TRANSACTION_READ then
      '(ok, _, _) ← read_command fuel dummy_request false; mret ok
    else '(ok, _) ← write_command fuel max_defer_write_retry dummy_request false; mret ok.

(** The result with the buffer of the payload. *)
Definition dal_aux_engine_submit_request (fuel : nat) (max_defer_write_retry : Z) (request : i2caux_transaction_request) (middle_of_transaction : bool) :
    M S (bool * list Z) :=
  '(result, buf) ←
    (if operation request =? I2CAUX_TRANSACTION_READ then
       '(ok, buf, _) ← read_command fuel request true; mret (ok, buf)
     else if operation request =? I2CAUX_TRANSACTION_WRITE then
       '(ok, _) ← write_command fuel max_defer_write_retry request true; mret (ok, payload_data request)
     else mret (false, payload_data request));
  (if negb middle_of_transaction || negb result
   then end_of_transaction_command fuel max_defer_write_retry request;; mret tt
   else mret tt);;
  mret (result, buf).
End engine.

(** ** Registers ([dm_services.h], [dc_helper.c]) *)

(** [FD (reg__field)]: shift and mask of a field. *)
Definition field : Type := Z * Z.
Definition get_reg_field_value_ex (reg_value mask shift : Z) : Z := Z.shiftr (Z.land mask reg_value) shift.
Definition set_reg_field_value_ex (reg_value value mask shift : Z) : Z :=
  Z.lor (Z.land reg_value (u32 (Z.lnot mask))) (Z.land mask (u32 (Z.shiftl value shift))).
Definition get_field (f : field) (v : Z) : Z := get_reg_field_value_ex v (snd f) (fst f).
Definition set_field (f : field) (x v : Z) : Z := set_reg_field_value_ex v x (snd f) (fst f).

Inductive aux_reg :=
  | AUX_CONTROL | AUX_ARB_CONTROL | AUX_INTERRUPT_CONTROL | AUX_SW_CONTROL | AUX_SW_STATUS | AUX_SW_DATA | AUXN_IMPCAL | AUXP_IMPCAL.
#[global] Instance aux_reg_eq_dec : EqDecision aux_reg.
Proof. solve_decision. Defined.

(** The accesses made, the last one first. *)
Inductive access := Rd (r : aux_reg) (v : Z) | Wr (r : aux_reg) (v : Z).
Notation trace := (list access).

Definition AUX_EN : field := (0, 0x1).
Definition AUX_RESET : field := (4, 0x10).
Definition AUX_RESET_DONE : field := (5, 0x20).
Definition AUX_IGNORE_HPD_DISCON : field := (0x10, 0x10000).
Definition AUX_SW_USE_AUX_REG_REQ : field := (0x10, 0x10000).
Definition AUX_SW_DONE_USING_AUX_REG : field := (0x11, 0x20000).
Definition AUX_REG_RW_CNTL_STATUS : field := (2, 0xc).
Definition AUX_CALOUT_ERROR_AK : field := (0xa, 0x400).
Definition AUX_IMPCAL_ENABLE : field := (0, 0x1).
Definition AUX_IMPCAL_OVERRIDE_ENABLE : field := (0x1c, 0x10000000).
Definition AUX_SW_START_DELAY : field := (4, 0xf0).
Definition AUX_SW_WR_BYTES : field := (0x10, 0x1f0000).
Definition AUX_SW_GO : field := (0, 0x1).
Definition AUX_SW_DONE_ACK : field := (1, 0x2).
Definition AUX_SW_INDEX : field := (0x10, 0x1f0000).
Definition AUX_SW_DATA_RW : field := (0, 0x1).
Definition AUX_SW_AUTOINCREMENT_DISABLE : field := (0x1f, 0x80000000).
Definition AUX_SW_DATA_DATA : field := (8, 0xff00).
Definition AUX_SW_DONE : field := (0, 0x1).
Definition AUX_SW_REPLY_BYTE_COUNT : field := (0x18, 0x1f000000).
Definition AUX_SW_DONE_MASK : Z := 0x1.
Definition AUX_SW_RX_TIMEOUT_STATE_MASK : Z := 0x70.
Definition AUX_SW_RX_TIMEOUT_MASK : Z := 0x80.
Definition AUX_SW_RX_INVALID_STOP_MASK : Z := 0x4000.

(** ** The channel of the hardware ([dce110/aux_engine_dce110.c]) *)
Module dce110.
Section hardware.
(** What a register reads after the accesses made so far, and [timeout_period]. *)
Context (hw : trace -> aux_reg -> Z) (timeout_period : Z).

Definition REG_READ (r : aux_reg) : M trace Z := fun tr => let v := u32 (hw tr r) in Ok (v, Rd r v :: tr).
Definition REG_WRITE (r : aux_reg) (v : Z) : M trace unit := fun tr => Ok (tt, Wr r v :: tr).

(** [generic_reg_update_ex] on a value, and on the value read ([REG_SET], [REG_UPDATE]). *)
Definition REG_SET (r : aux_reg) (initial_val : Z) (fs : list (field * Z)) : M trace Z :=
  let v := fold_left (fun v '(f, x) => set_field f x v) fs initial_val in
  REG_WRITE r v;; mret v.
Definition REG_UPDATE (r : aux_reg) (fs : list (field * Z)) : M trace Z := v ← REG_READ r; REG_SET r v fs.
Definition REG_UPDATE_SEQ (r : aux_reg) (f : field) (x y : Z) : M trace unit :=
  v ← REG_UPDATE r [(f, x)]; REG_SET r v [(f, y)];; mret tt.
Definition REG_GET (r : aux_reg) (f : field) : M trace (Z * Z) := v ← REG_READ r; mret (v, get_field f v).

(** [generic_reg_wait]: [tries] polls after the first one. *)
Fixpoint REG_WAIT (r : aux_reg) (f : field) (x : Z) (tries : nat) : M trace Z :=
  v ← REG_READ r;
  if get_field f v =? x then mret v
  else match tries with O => mret v | S n => REG_WAIT r f x n end.

Definition release_engine : M trace unit := REG_UPDATE AUX_ARB_CONTROL [(AUX_SW_DONE_USING_AUX_REG, 1)];; mret tt.

(** [reset_mask] is [AUX_RESET_MASK] of the register list. *)
Definition acquire_engine (reset_mask : Z) : M trace bool :=
  value ← REG_READ AUX_CONTROL;
  (if get_field AUX_EN value =? 0 then
     let value := set_field AUX_EN 1 value in
     let value := if negb (reset_mask =? 0) then set_field AUX_RESET 1 value else value in
     REG_WRITE AUX_CONTROL value;;
     if negb (reset_mask =? 0) then
       REG_WAIT AUX_CONTROL AUX_RESET_DONE 1 11;;
       REG_WRITE AUX_CONTROL (set_field AUX_RESET 0 value);;
       REG_WAIT AUX_CONTROL AUX_RESET_DONE 0 11;; mret tt
     else mret tt
   else mret tt);;
  REG_UPDATE AUX_ARB_CONTROL [(AUX_SW_USE_AUX_REG_REQ, 1)];;
  value ← REG_READ AUX_ARB_CONTROL;
  mret (get_field AUX_REG_RW_CNTL_STATUS value =? 1).

Definition configure (allow_aux_when_hpd_low : Z) : M trace unit :=
  REG_UPDATE AUX_CONTROL [(AUX_IGNORE_HPD_DISCON, if negb (allow_aux_when_hpd_low =? 0) then 1 else 0)];; mret tt.

Definition COMPOSE_AUX_SW_DATA_16_20 (command address : Z) : Z := Z.lor command (Z.shiftr (Z.land 0xF0000 address) 16).
Definition COMPOSE_AUX_SW_DATA_8_15 (address : Z) : Z := Z.shiftr (Z.land 0xFF00 address) 8.
Definition COMPOSE_AUX_SW_DATA_0_7 (address : Z) : Z := Z.land 0xFF address.

Definition is_write (request : aux_request_transaction_data) : bool :=
  (bool_decide (req_type request = AUX_TRANSACTION_TYPE_DP) && (req_action request =? ACTION_DP_WRITE))
  || (bool_decide (req_type request = AUX_TRANSACTION_TYPE_I2C)
      && ((req_action request =? ACTION_I2C_WRITE) || (req_action request =? ACTION_I2C_WRITE_MOT))).

(** The [while] loop: the bytes from [i] on, [n] of them. *)
Fixpoint load_data (n : nat) (i : nat) (data : list Z) (value : Z) : M trace Z :=
  match n with
  | O => mret value
  | S n =>
      b ← deref (data !! i);
      value ← REG_SET AUX_SW_DATA value [(AUX_SW_DATA_DATA, b)];
      load_data n (S i) data value
  end.

Definition submit_channel_request (request : aux_request_transaction_data) : M trace unit :=
  REG_UPDATE_SEQ AUXN_IMPCAL AUX_CALOUT_ERROR_AK 1 0;;
  REG_UPDATE_SEQ AUXP_IMPCAL AUX_CALOUT_ERROR_AK 1 0;;
  value ← REG_UPDATE AUXN_IMPCAL [(AUX_IMPCAL_ENABLE, 1)];
  REG_SET AUXN_IMPCAL value [(AUX_IMPCAL_OVERRIDE_ENABLE, 0)];;
  REG_UPDATE_SEQ AUXP_IMPCAL AUX_IMPCAL_OVERRIDE_ENABLE 1 0;;
  let length := if negb (req_length request =? 0) then 4 else 3 in
  let length := if is_write request then u32 (length + req_length request) else length in
  REG_UPDATE AUX_SW_CONTROL [(AUX_SW_START_DELAY, req_delay request); (AUX_SW_WR_BYTES, length)];;
  value ← REG_UPDATE AUX_SW_DATA
    [(AUX_SW_INDEX, 0); (AUX_SW_DATA_RW, 0); (AUX_SW_AUTOINCREMENT_DISABLE, 1);
     (AUX_SW_DATA_DATA, COMPOSE_AUX_SW_DATA_16_20 (req_action request) (req_address request))];
  value ← REG_SET AUX_SW_DATA value
    [(AUX_SW_AUTOINCREMENT_DISABLE, 0); (AUX_SW_DATA_DATA, COMPOSE_AUX_SW_DATA_8_15 (req_address request))];
  value ← REG_SET AUX_SW_DATA value [(AUX_SW_DATA_DATA, COMPOSE_AUX_SW_DATA_0_7 (req_address request))];
  value ← (if negb (req_length request =? 0)
           then REG_SET AUX_SW_DATA value [(AUX_SW_DATA_DATA, u32 (req_length request - 1))] else mret value);
  (if is_write request then load_data (Z.to_nat (req_length request)) 0 (req_data request) value else mret value);;
  REG_UPDATE AUX_INTERRUPT_CONTROL [(AUX_SW_DONE_ACK, 1)];;
  REG_UPDATE AUX_SW_CONTROL [(AUX_SW_GO, 1)];;
  mret tt.

(** The [while] loop of an acknowledge: [n] bytes from [i] on. *)
Fixpoint store_data (n : nat) (i : nat) (data : list Z) : M trace (list Z) :=
  match n with
  | O => mret data
  | S n =>
      '(_, b) ← REG_GET AUX_SW_DATA AUX_SW_DATA_DATA;
      if (i <? length data)%nat then store_data n (S i) (<[i := u8 b]> data) else fault
  end.

Definition process_channel_reply (reply : aux_reply_transaction_data) : M trace aux_reply_transaction_data :=
  '(value, bytes_replied) ← REG_GET AUX_SW_STATUS AUX_SW_REPLY_BYTE_COUNT;
  let with_status st := mret (AuxReply (Some st) (reply_length reply) (reply_data reply)) in
  if negb (bytes_replied =? 0) then
    value ← REG_UPDATE AUX_SW_DATA [(AUX_SW_INDEX, 0)];
    value ← REG_SET AUX_SW_DATA value [(AUX_SW_AUTOINCREMENT_DISABLE, 1)];
    REG_SET AUX_SW_DATA value [(AUX_SW_DATA_RW, 1)];;
    '(_, reply_result) ← REG_GET AUX_SW_DATA AUX_SW_DATA_DATA;
    let reply_result := Z.shiftr reply_result 4 in
    if reply_result =? 0 then
      data ← store_data (Z.to_nat (bytes_replied - 1)) 0 (reply_data reply);
      mret (AuxReply (Some REPLY_AUX_ACK) (reply_length reply) data)
    else if reply_result =? 1 then with_status REPLY_AUX_NACK
    else if reply_result =? 2 then with_status REPLY_AUX_DEFER
    else if reply_result =? 4 then with_status REPLY_I2C_NACK
    else if reply_result =? 8 then with_status REPLY_I2C_DEFER
    else with_status REPLY_INVALID
  else mret reply.

(** The result with [returned_bytes], which is not a null pointer. *)
Definition get_channel_status : M trace (aux_channel_operation_result * Z) :=
  value ← REG_WAIT AUX_SW_STATUS AUX_SW_DONE 1 (Z.to_nat (timeout_period / 10));
  if negb (Z.land value AUX_SW_DONE_MASK =? 0) then
    if negb (Z.land value AUX_SW_RX_TIMEOUT_STATE_MASK =? 0) || negb (Z.land value AUX_SW_RX_TIMEOUT_MASK =? 0)
    then mret (AUX_CHANNEL_OPERATION_FAILED_TIMEOUT, 0)
    else if negb (Z.land value AUX_SW_RX_INVALID_STOP_MASK =? 0)
    then mret (AUX_CHANNEL_OPERATION_FAILED_INVALID_REPLY, 0)
    else
      let returned_bytes := u8 (get_field AUX_SW_REPLY_BYTE_COUNT value) in
      if returned_bytes =? 0 then mret (AUX_CHANNEL_OPERATION_FAILED_INVALID_REPLY, 0)
      else mret (AUX_CHANNEL_OPERATION_SUCCEEDED, u8 (returned_bytes - 1))
  else mret (AUX_CHANNEL_OPERATION_FAILED_TIMEOUT, 0).

Definition aux_engine_funcs : aux_engine_funcs trace := AuxFuncs trace submit_channel_request process_channel_reply get_channel_status.
End hardware.
End dce110.

(** ** Commands ([i2caux.c]) *)

Record aux_payload := AuxPayload {
  i2c_over_aux : bool;
  write : bool;
  ap_address : Z;
  ap_length : Z;
  ap_data : list Z }.

Record aux_command := AuxCommand { payloads : list aux_payload; defer_delay : Z; max_defer_write_retry : Z }.

Definition payload_request (p : aux_payload) : i2caux_transaction_request :=
  I2cauxRequest (if write p then I2CAUX_TRANSACTION_WRITE else I2CAUX_TRANSACTION_READ)
    (if i2c_over_aux p then ADDRESS_SPACE_I2C else ADDRESS_SPACE_DPCD)
    (if i2c_over_aux p then Z.lor (u32 (Z.shiftl (ap_address p) 1)) (if write p then 0 else 1) else ap_address p)
    (ap_length p) (ap_data p).

Section commands.
Context {S : Type} (funcs : aux_engine_funcs S).

(** The loop over the payloads, with the buffers as they are left. *)
Fixpoint submit_payloads (fuel : nat) (max_defer : Z) (ps : list aux_payload) : M S (bool * list (list Z)) :=
  match ps with
  | [] => mret (true, [])
  | p :: ps =>
      '(ok, buf) ← dal_aux_engine_submit_request funcs fuel max_defer (payload_request p) (negb (Nat.eqb (length ps) 0));
      if negb ok then mret (false, buf :: (ap_data <$> ps))
      else
        '(ok, bufs) ← submit_payloads fuel max_defer ps;
        mret (ok, buf :: bufs)
  end.

(** Taking the engine: the pins first, then the block; the pins are given back when the block is busy. *)
Definition dal_aux_engine_acquire (ddc_open : M S bool) (ddc_close : M S unit) (acquire_engine : M S bool) : M S bool :=
  opened ← ddc_open;
  if negb opened then mret false
  else
    got ← acquire_engine;
    if negb got then ddc_close;; mret false else mret true.
Definition dal_i2caux_release_engine (release_engine : M S unit) (ddc_close : M S unit) : M S unit := release_engine;; ddc_close.

(** [acquire] and [release] are the engine's, for the line of the pins. *)
Definition dal_i2caux_submit_aux_command (acquire : M S bool) (release : M S unit) (fuel : nat) (cmd : aux_command) : M S (bool * list (list Z)) :=
  got ← acquire;
  if negb got then mret (false, ap_data <$> payloads cmd)
  else
    r ← submit_payloads fuel (max_defer_write_retry cmd) (payloads cmd);
    release;; mret r.
End commands.
