(* ===== verification/AuxSpec.v ===== *)
(** * AUX transactions: what they deliver, and that they end

    [AuxChannel] is what the engine relies on from a channel; [dce110_channel]
    is the hardware's.  [exchange] is one request with the display's answer,
    [exchanges] a sequence of them.  A read that succeeds has been answered by
    an acknowledge with the bytes that were still wanted; the loops of every
    transaction end within the retry limits whatever the block and the display
    do; and the bytes put on the wire are a faithful encoding of the request.
    That a transaction also returns needs the channel to deliver the reply it
    has announced: a block that forgets it in between (a hot plug) or that
    announces more than sixteen bytes makes the code use an uninitialised
    status or write outside its buffer ([hot_plug_reads_garbage],
    [long_write_reply_overflows]). *)

From stdpp Require Import base numbers list.
From S2P Require Import Prelude CMonad Aux.

(** ** Exchanges *)

(** What came back for a request: no reply, a reply that is longer than what
    was asked for, or a reply with its number of data bytes and the buffer it
    was stored in. *)
Inductive answer :=
  | NoReply (op : aux_channel_operation_result) (n : Z)
  | TooLong (n : Z)
  | Reply (st : Z) (n : Z) (buf : list Z).

Section exchanges.
Context {S : Type} (funcs : aux_engine_funcs S).

(** [room] is the number of bytes a reply may have, if there is a limit. *)
Inductive exchange (room : option Z) (req : aux_request_transaction_data) (rep : Z -> aux_reply_transaction_data) : S -> answer -> S -> Prop :=
  | exchange_none s s1 s2 op n :
      submit_channel_request funcs req s = Ok (tt, s1) -> get_channel_status funcs s1 = Ok ((op, n), s2) ->
      op <> AUX_CHANNEL_OPERATION_SUCCEEDED -> exchange room req rep s (NoReply op n) s2
  | exchange_long s s1 s2 n r :
      submit_channel_request funcs req s = Ok (tt, s1) ->
      get_channel_status funcs s1 = Ok ((AUX_CHANNEL_OPERATION_SUCCEEDED, n), s2) ->
      room = Some r -> r < n -> exchange room req rep s (TooLong n) s2
  | exchange_reply s s1 s2 s3 n st rep' :
      submit_channel_request funcs req s = Ok (tt, s1) ->
      get_channel_status funcs s1 = Ok ((AUX_CHANNEL_OPERATION_SUCCEEDED, n), s2) ->
      (forall r, room = Some r -> n <= r) ->
      process_channel_reply funcs (rep n) s2 = Ok (rep', s3) -> reply_status rep' = Some st ->
      exchange room req rep s (Reply st n (reply_data rep')) s3.
End exchanges.

(** The effect of an answer on the context of a read. *)
Definition apply_reply (st n : Z) (len off : Z) (k : retry_counters) (v : verdict) : Z * Z * retry_counters * verdict :=
  let 'Counters t i da di a := k in
  if st =? REPLY_AUX_ACK then
    if len <? n then (len, off, Counters 0 0 0 di a, failed STATUS_FAILED_PROTOCOL_ERROR v)
    else if n <? len then
      (u32 (len - n), u32 (off + n), Counters 0 0 0 di (u32 (a + 1)),
       if AUX_INVALID_REPLY_RETRY_COUNTER <? u32 (a + 1) then failed STATUS_FAILED_PROTOCOL_ERROR v else v)
    else (len, off, Counters 0 0 0 di a, done_ok v)
  else if st =? REPLY_AUX_NACK then (len, off, Counters 0 0 da di a, failed STATUS_FAILED_NACK v)
  else if st =? REPLY_AUX_DEFER then
    (len, off, Counters 0 0 (u32 (da + 1)) di a,
     if AUX_DEFER_RETRY_COUNTER <? u32 (da + 1) then failed STATUS_FAILED_TIMEOUT v else v)
  else if st =? REPLY_I2C_DEFER then
    (len, off, Counters 0 0 0 (u32 (di + 1)) a,
     if AUX_DEFER_RETRY_COUNTER <? u32 (di + 1) then failed STATUS_FAILED_TIMEOUT v else v)
  else (len, off, Counters 0 0 da di a, failed STATUS_UNKNOWN v).
Definition apply_read (ans : answer) (c : read_command_context) : read_command_context :=
  let 'ReadCtx buf len off req rst _ k v := c in
  match ans with
  | NoReply op n => let '(k, v) := channel_failure op k v in ReadCtx buf len off req rst n k v
  | TooLong n => ReadCtx buf len off req rst n k (failed STATUS_FAILED_PROTOCOL_ERROR v)
  | Reply st n buf' => let '(len, off, k, v) := apply_reply st n len off k v in ReadCtx buf' len off req (Some st) n k v
  end.

Ltac no_reply :=
  match goal with
  | H : get_channel_status _ _ = Ok ((?op, ?n), _), K : context [channel_failure ?op ?k ?v] |- _ =>
      exists (NoReply op n); destruct (channel_failure op k v) as [? ?] eqn:Ek; minv;
      split; [eapply exchange_none; [eassumption..|done]|cbn [apply_read]; by rewrite Ek]
  end.

Section reads.
Context {S : Type} (funcs : aux_engine_funcs S).

Notation read_exchange c := (exchange funcs (Some (current_read_length c)) (rc_request c) (fun n => AuxReply (rc_reply_status c) n (rc_buffer c))).

Lemma process_read_request_inv c s c' s' :
  process_read_request funcs c s = Ok (c', s') -> exists ans, read_exchange c s ans s' /\ c' = apply_read ans c.
Proof.
  destruct c as [buf len off req rst rb k v]. unfold process_read_request. intros H. minv. cbn [rc_request] in *. match goal with u : () |- _ => destruct u end.
  destruct a; cbn [current_read_length rc_reply_status rc_buffer].
  - destruct (Z.ltb_spec len z) as [Hl|Hl]; minv; [exists (TooLong z); split; [eapply exchange_long; eauto|done]|].
    unfold process_read_reply in H. apply bind_Ok in H as (rep & s3 & E3 & H). destruct k as [t i da di a]. cbn [defer_retry_aux defer_retry_i2c ack_retry] in H.
    destruct (reply_status rep) as [st|] eqn:Est; [|done]. exists (Reply st z (reply_data rep)).
    split; [|unfold apply_read, apply_reply; repeat (case_match; minv; try congruence)].
    assert (s' = s3) as ->; [repeat (case_match; minv; try done)|]. eapply exchange_reply; eauto. by intros r [= <-].
  - no_reply.
  - no_reply.
  - no_reply.
Qed.
End reads.

(** What the engine relies on: requests are sent, the channel reports a result
    with at most sixteen bytes, and a reply that is there can be fetched into a
    buffer with room for it, of which nothing else is changed. *)
Class AuxChannel {S : Type} (funcs : aux_engine_funcs S) := {
  channel_inv : S -> Prop;
  channel_pending : Z -> S -> Prop;
  channel_submit req s :
    channel_inv s -> (Z.to_nat (req_length req) <= length (req_data req))%nat ->
    returns (submit_channel_request funcs req) s (fun _ s' => channel_inv s');
  channel_status s :
    channel_inv s ->
    returns (get_channel_status funcs) s (fun r s' =>
      channel_inv s' /\ 0 <= snd r <= DEFAULT_AUX_MAX_DATA_SIZE /\
      (fst r = AUX_CHANNEL_OPERATION_SUCCEEDED -> channel_pending (snd r) s'));
  channel_reply n rep s :
    channel_inv s -> channel_pending n s -> (Z.to_nat n <= length (reply_data rep))%nat ->
    returns (process_channel_reply funcs rep) s (fun rep' s' =>
      channel_inv s' /\ length (reply_data rep') = length (reply_data rep) /\
      drop (Z.to_nat n) (reply_data rep') = drop (Z.to_nat n) (reply_data rep) /\ is_Some (reply_status rep')) }.

(** ** The retry limits *)

Definition counters_ok (maxd maxa : Z) (k : retry_counters) : Prop :=
  0 <= timed_out_retry_aux k <= AUX_TIMED_OUT_RETRY_COUNTER /\ 0 <= invalid_reply_retry_aux k <= AUX_INVALID_REPLY_RETRY_COUNTER /\
  0 <= defer_retry_aux k <= maxd /\ 0 <= defer_retry_i2c k <= maxd /\ 0 <= ack_retry k <= maxa.
(** The rounds that are left: an I2C defer restarts the AUX defers, and every
    reply restarts the timeouts and the invalid replies.  In a read, an
    acknowledge restarts the AUX defers too. *)
Definition read_left (k : retry_counters) : Z :=
  ((AUX_DEFER_RETRY_COUNTER - defer_retry_i2c k + (AUX_INVALID_REPLY_RETRY_COUNTER - ack_retry k)) * (AUX_DEFER_RETRY_COUNTER + 1)
   + (AUX_DEFER_RETRY_COUNTER - defer_retry_aux k)) * 4
  + (AUX_TIMED_OUT_RETRY_COUNTER - timed_out_retry_aux k) + (AUX_INVALID_REPLY_RETRY_COUNTER - invalid_reply_retry_aux k).
Definition write_left (maxd : Z) (k : retry_counters) : Z :=
  ((maxd - defer_retry_i2c k) * (maxd + 1) + (maxd - defer_retry_aux k) + (AUX_DEFER_RETRY_COUNTER - ack_retry k)) * 4
  + (AUX_TIMED_OUT_RETRY_COUNTER - timed_out_retry_aux k) + (AUX_INVALID_REPLY_RETRY_COUNTER - invalid_reply_retry_aux k).

(** A verdict while the transaction goes on. *)
Definition open_verdict (v : verdict) : Prop := again v = true.
Lemma again_failed st v : again (failed st v) = false.
Proof. done. Qed.
Lemma again_done v : again (done_ok v) = false.
Proof. done. Qed.

Ltac limits := unfold counters_ok, read_left, write_left, AUX_TIMED_OUT_RETRY_COUNTER, AUX_INVALID_REPLY_RETRY_COUNTER, AUX_DEFER_RETRY_COUNTER in *; cbn [timed_out_retry_aux invalid_reply_retry_aux defer_retry_aux defer_retry_i2c ack_retry] in *.
(** [bump] evaluates an increment that stays within 32 bits. *)
Ltac bump := repeat match goal with |- context [u32 (?x + 1)] => rewrite (u32_small (x + 1)) in * by (unfold is_u32; lia) | H : context [u32 (?x + 1)] |- _ => rewrite (u32_small (x + 1)) in H by (unfold is_u32; lia) end.

Lemma failure_progress op k v k' v' maxd maxa :
  counters_ok maxd maxa k -> channel_failure op k v = (k', v') -> again v' = true ->
  counters_ok maxd maxa k' /\ v' = v /\
  defer_retry_aux k' = defer_retry_aux k /\ defer_retry_i2c k' = defer_retry_i2c k /\ ack_retry k' = ack_retry k /\
  timed_out_retry_aux k + invalid_reply_retry_aux k < timed_out_retry_aux k' + invalid_reply_retry_aux k'.
Proof.
  destruct k as [t i da di a]. intros Hk E Ha. destruct op; cbn in E; injection E as <- <-; try done; limits; bump;
    match goal with H : again (if ?a <? ?b then _ else _) = true |- _ => destruct (Z.ltb_spec a b); [done|] end; repeat split; lia.
Qed.

(** [split_tests E] splits on the tests in [E] and drops the branches in which the transaction is over. *)
Ltac split_tests E Ha :=
  repeat match type of E with context [if ?b then _ else _] => destruct b eqn:? end;
  injection E; intros; subst; try (by rewrite ?again_failed, ?again_done in Ha); rewrite ?Z.ltb_ge, ?Z.ltb_lt, ?Z.eqb_eq, ?Z.eqb_neq in *.

Lemma reply_progress st n len off k v len' off' k' v' :
  counters_ok AUX_DEFER_RETRY_COUNTER AUX_INVALID_REPLY_RETRY_COUNTER k -> apply_reply st n len off k v = (len', off', k', v') -> again v' = true ->
  counters_ok AUX_DEFER_RETRY_COUNTER AUX_INVALID_REPLY_RETRY_COUNTER k' /\ v' = v /\ 0 <= read_left k' < read_left k.
Proof.
  destruct k as [t i da di a]. intros Hk E Ha. unfold apply_reply in E. limits. bump.
  split_tests E Ha; limits; bump; repeat split; lia.
Qed.
Lemma read_progress ans c :
  counters_ok AUX_DEFER_RETRY_COUNTER AUX_INVALID_REPLY_RETRY_COUNTER (rc_retry c) -> again (rc_verdict (apply_read ans c)) = true ->
  counters_ok AUX_DEFER_RETRY_COUNTER AUX_INVALID_REPLY_RETRY_COUNTER (rc_retry (apply_read ans c)) /\
  rc_verdict (apply_read ans c) = rc_verdict c /\ 0 <= read_left (rc_retry (apply_read ans c)) < read_left (rc_retry c).
Proof.
  destruct c as [buf len off req rst rb k v], ans as [op n|n|st n b]; cbn [apply_read rc_retry rc_verdict]; intros Hk Ha; [|done|].
  - destruct (channel_failure op k v) as [k' v'] eqn:E. cbn [rc_retry rc_verdict] in *.
    destruct (failure_progress _ _ _ _ _ _ _ Hk E Ha) as (H1 & H2 & H3 & H4 & H5 & H6). split; [done|]. split; [done|]. limits. lia.
  - destruct (apply_reply st n len off k v) as [[[len' off'] k'] v'] eqn:E. cbn [rc_retry rc_verdict] in *. exact (reply_progress _ _ _ _ _ _ _ _ _ _ Hk E Ha).
Qed.

(** ** Reads *)

(** The bytes acknowledged, and the answers after which a read goes on. *)
Definition acked (ans : answer) : Z := match ans with Reply st n _ => if st =? REPLY_AUX_ACK then n else 0 | _ => 0 end.
Definition acked_all (l : list (aux_request_transaction_data * answer)) : Z := foldr (fun x z => acked (snd x) + z) 0 l.
Definition retryable (ans : answer) : Prop :=
  match ans with
  | NoReply op _ => op = AUX_CHANNEL_OPERATION_FAILED_INVALID_REPLY \/ op = AUX_CHANNEL_OPERATION_FAILED_TIMEOUT
  | TooLong _ => False
  | Reply st _ _ => st = REPLY_AUX_ACK \/ st = REPLY_AUX_DEFER \/ st = REPLY_I2C_DEFER
  end.

(** The exchanges of a transaction, each request with its answer. *)
Notation exch := (aux_request_transaction_data * answer)%type.
Inductive transaction {S} (funcs : aux_engine_funcs S) : S -> list exch -> S -> Prop :=
  | transaction_nil s : transaction funcs s [] s
  | transaction_cons s room req rep a s1 l s2 :
      exchange funcs room req rep s a s1 -> transaction funcs s1 l s2 -> transaction funcs s ((req, a) :: l) s2.

(** The context at the start of a round. *)
Definition read_ready (c : read_command_context) : read_command_context :=
  let 'ReadCtx buf len off req rst rb k v := c in
  let buf := take (Z.to_nat off) buf ++ replicate (Z.to_nat len) 0 ++ drop (Z.to_nat off + Z.to_nat len) buf in
  ReadCtx buf len off (AuxRequest (req_type req) (req_action req) (req_address req) (req_delay req) len (drop (Z.to_nat off) buf)) rst rb k v.

Record read_inv (len0 : Z) (c : read_command_context) : Prop := {
  ri_split : current_read_length c + offset c = len0;
  ri_len : 0 <= current_read_length c;
  ri_off : 0 <= offset c;
  ri_small : is_u32 len0;
  ri_buf : (Z.to_nat len0 <= length (rc_buffer c))%nat;
  ri_retry : counters_ok AUX_DEFER_RETRY_COUNTER AUX_INVALID_REPLY_RETRY_COUNTER (rc_retry c);
  ri_verdict : rc_verdict c = start_verdict }.

(** The part of a request that does not change. *)
Definition asks (ty : aux_transaction_type) (ac ad : Z) (req : aux_request_transaction_data) : Prop :=
  req_type req = ty /\ req_action req = ac /\ req_address req = ad.
Definition asks_like (r : aux_request_transaction_data) : aux_request_transaction_data -> Prop := asks (req_type r) (req_action r) (req_address r).

Section read_loop.
Context {S : Type} (funcs : aux_engine_funcs S) {channel : AuxChannel funcs}.

Notation read_exchange c := (exchange funcs (Some (current_read_length c)) (rc_request c) (fun n => AuxReply (rc_reply_status c) n (rc_buffer c))).

Lemma ready_inv len0 c : read_inv len0 c -> read_inv len0 (read_ready c) /\ length (rc_buffer (read_ready c)) = length (rc_buffer c) /\ drop (Z.to_nat len0) (rc_buffer (read_ready c)) = drop (Z.to_nat len0) (rc_buffer c).
Proof.
  destruct c as [buf len off req rst rb k v]. intros [Hs Hl Ho Hsm Hb Hk Hv]. cbn [read_ready rc_buffer current_read_length offset rc_retry rc_verdict] in *.
  assert (Hn : (Z.to_nat off + Z.to_nat len = Z.to_nat len0)%nat) by lia.
  assert (El : length (take (Z.to_nat off) buf ++ replicate (Z.to_nat len) 0 ++ drop (Z.to_nat off + Z.to_nat len) buf) = length buf) by (rewrite !length_app, length_take, length_replicate, length_drop; lia).
  split; [constructor; cbn; try done; by rewrite El|]. split; [done|].
  rewrite app_assoc, drop_app_ge by (rewrite length_app, length_take, length_replicate; lia).
  rewrite drop_drop. f_equal. rewrite length_app, length_take, length_replicate. lia.
Qed.
Lemma ready_same c : asks_like (rc_request c) (rc_request (read_ready c)) /\ rc_retry (read_ready c) = rc_retry c /\ current_read_length (read_ready c) = current_read_length c /\ offset (read_ready c) = offset c.
Proof. by destruct c. Qed.
Lemma apply_same a c : rc_request (apply_read a c) = rc_request c.
Proof. destruct c as [buf len off req rst rb k v], a; cbn [apply_read]; repeat case_match; done. Qed.

Lemma ready_fits len0 c : read_inv len0 c -> (Z.to_nat (req_length (rc_request (read_ready c))) <= length (req_data (rc_request (read_ready c))))%nat.
Proof.
  intros Hc. destruct (ready_inv len0 c Hc) as (_ & Hl & _). destruct c as [buf len off req rst rb k v], Hc as [H1 H2 H3 H4 H5 H6 H7]. cbn [read_ready rc_request req_length req_data rc_buffer current_read_length offset] in *.
  rewrite length_drop, Hl. lia.
Qed.

(** A round: what it leaves, and the exchange it made. *)
Lemma process_read_returns len0 r s :
  channel_inv s -> read_inv len0 r -> (Z.to_nat (req_length (rc_request r)) <= length (req_data (rc_request r)))%nat ->
  returns (process_read_request funcs r) s (fun c' s' =>
    channel_inv s' /\ length (rc_buffer c') = length (rc_buffer r) /\ drop (Z.to_nat len0) (rc_buffer c') = drop (Z.to_nat len0) (rc_buffer r) /\ 0 <= rc_returned_byte c').
Proof.
  destruct r as [buf len off req rst rb k v]. intros Hs [H1 H2 H3 H4 H5 H6 H7] Hf. cbn [current_read_length offset rc_buffer rc_retry rc_verdict rc_request] in *. unfold process_read_request.
  eapply returns_bind; [by apply channel_submit|]. intros [] s1 Hs1. eapply returns_bind; [by apply channel_status|]. intros [op n] s2 (Hs2 & Hn & Hp). cbn [fst snd] in *.
  destruct op; [|destruct (channel_failure _ k v); apply returns_ret; cbn; tauto..].
  destruct (Z.ltb_spec len n) as [Hl|Hl]; [apply returns_ret; cbn; tauto|]. unfold process_read_reply.
  eapply returns_bind; [apply (channel_reply n); [done|by apply Hp|cbn; lia]|]. intros rep s3 (Hs3 & Hl3 & Hd3 & [st Est]). cbn [reply_data] in *.
  assert (Hd : drop (Z.to_nat len0) (reply_data rep) = drop (Z.to_nat len0) buf).
  { replace (Z.to_nat len0) with (Z.to_nat n + (Z.to_nat len0 - Z.to_nat n))%nat by lia. by rewrite <- !drop_drop, Hd3. }
  rewrite Est. destruct k as [t i da di a]. repeat case_match; apply returns_ret; cbn [rc_buffer rc_returned_byte]; tauto.
Qed.
Lemma apply_returned a c : rc_returned_byte (apply_read a c) = match a with NoReply _ n | TooLong n | Reply _ n _ => n end.
Proof. destruct c as [buf len off req rst rb k v], a; cbn [apply_read]; repeat case_match; done. Qed.
Lemma read_step_returns len0 c s :
  channel_inv s -> read_inv len0 c ->
  returns (process_read_request funcs (read_ready c)) s (fun c' s' =>
    channel_inv s' /\ exists ans, read_exchange (read_ready c) s ans s' /\ c' = apply_read ans (read_ready c) /\ 0 <= acked ans /\
    length (rc_buffer c') = length (rc_buffer c) /\ drop (Z.to_nat len0) (rc_buffer c') = drop (Z.to_nat len0) (rc_buffer c)).
Proof.
  intros Hs Hc. destruct (ready_inv len0 c Hc) as (Hr & Hl & Hd). rewrite <- Hl, <- Hd.
  destruct (process_read_returns len0 (read_ready c) s Hs Hr (ready_fits len0 c Hc)) as (c' & s' & E & Hs' & Hl' & Hd' & Hn). exists c', s'.
  destruct (process_read_request_inv funcs _ _ _ _ E) as (ans & Hx & Ec). split; [done|]. split; [done|]. exists ans. split; [done|]. split; [done|]. split; [|done].
  subst c'. rewrite apply_returned in Hn. destruct ans; cbn [acked]; try done. by case_match.
Qed.

(** A round after which the read goes on, and one that ends it. *)
Lemma apply_goes_on len0 r a :
  read_inv len0 r -> 0 <= acked a -> length (rc_buffer (apply_read a r)) = length (rc_buffer r) -> again (rc_verdict (apply_read a r)) = true ->
  read_inv len0 (apply_read a r) /\ current_read_length (apply_read a r) = current_read_length r - acked a /\ retryable a.
Proof.
  intros Hr Ha Hb Hg. destruct (read_progress a r (ri_retry _ _ Hr) Hg) as (Hk & Hv & _). destruct Hr as [H1 H2 H3 H4 H5 H6 H7]. rewrite H7 in Hv. rewrite <- Hb in H5.
  assert (Hc : current_read_length (apply_read a r) = current_read_length r - acked a /\ 0 <= current_read_length (apply_read a r) /\
               offset (apply_read a r) = offset r + acked a /\ retryable a); [|destruct Hc as (Hc & Hc0 & Ho & Hre); split; [constructor; (done || lia)|done]].
  clear Hb H5 Hk Hv. destruct r as [buf len off req rst rb k v]. cbn [current_read_length offset rc_retry rc_verdict] in *. destruct a as [op n|n|st n b]; cbn [apply_read acked retryable] in *.
  - destruct op; cbn in *; destruct k; cbn in Hg |- *; try done; repeat split; (lia || tauto).
  - done.
  - destruct k as [t i da di a]. unfold apply_reply in *. destruct (st =? REPLY_AUX_ACK) eqn:E0.
    + destruct (Z.ltb_spec len n); [done|]. destruct (Z.ltb_spec n len); [|done]. cbn [current_read_length offset] in *. rewrite !u32_small by (unfold is_u32 in *; lia).
      apply Z.eqb_eq in E0. repeat split; (lia || tauto).
    + destruct (st =? REPLY_AUX_NACK) eqn:E1; [done|]. destruct (st =? REPLY_AUX_DEFER) eqn:E2; [|destruct (st =? REPLY_I2C_DEFER) eqn:E3; [|done]];
        cbn [current_read_length offset]; rewrite ?Z.eqb_eq in *; repeat split; (lia || tauto).
Qed.
Lemma apply_ends len0 r a :
  read_inv len0 r -> again (rc_verdict (apply_read a r)) = false ->
  (operation_succeeded (rc_verdict (apply_read a r)) = true <-> exists b, a = Reply REPLY_AUX_ACK (current_read_length r) b) /\
  (status (rc_verdict (apply_read a r)) = Some STATUS_SUCCEEDED <-> operation_succeeded (rc_verdict (apply_read a r)) = true) /\
  (forall st n b, a = Reply st n b -> rc_buffer (apply_read a r) = b).
Proof.
  intros [H1 H2 H3 H4 H5 H6 H7] Hg. destruct r as [buf len off req rst rb k v]. cbn [current_read_length rc_verdict] in *. subst v. destruct a as [op n|n|st n b]; cbn [apply_read] in *.
  - destruct op, k; cbn in *; repeat case_match; try done; (split; [split; [done|by intros [? ?]]|split; [split; done|done]]).
  - cbn. split; [split; [done|by intros [? ?]]|split; [split; done|done]].
  - destruct k as [t i da di a]. unfold apply_reply in *. destruct (st =? REPLY_AUX_ACK) eqn:E0; [apply Z.eqb_eq in E0 as ->|].
    + destruct (Z.ltb_spec len n); [|destruct (Z.ltb_spec n len)]; cbn [rc_verdict rc_buffer] in *.
      * split; [split; [done|intros [b' [= ? ?]]; lia]|split; [split; done|intros ? ? ? Hab; by injection Hab]].
      * destruct (Z.ltb_spec AUX_INVALID_REPLY_RETRY_COUNTER (u32 (a + 1))); [|done]. split; [split; [done|intros [b' [= ? ?]]; lia]|split; [split; done|intros ? ? ? Hab; by injection Hab]].
      * assert (n = len) as -> by lia. split; [split; [by exists b|done]|split; [split; done|intros ? ? ? Hab; by injection Hab]].
    + apply Z.eqb_neq in E0. repeat case_match; cbn [rc_verdict rc_buffer] in *; try done; simplify_eq;
        (split; [split; [done|intros [b' [= ? ? ?]]; lia]|split; [split; done|intros ? ? ? Hab; by injection Hab]]).
Qed.

(** What a read leaves: from [c], with [l] and then [a] as the answers. *)
Record read_done (len0 : Z) (c : read_command_context) (s : S) (c' : read_command_context) (s' : S) (l : list exch) (x : exch) : Prop := {
  rd_sent : transaction funcs s (l ++ [x]) s';
  rd_asks : Forall (fun x => asks_like (rc_request c) (fst x)) (l ++ [x]);
  rd_few : Z.of_nat (length l) <= read_left (rc_retry c);
  rd_retry : Forall (fun x => retryable (snd x)) l;
  rd_acked : 0 <= acked_all l;
  rd_ok : operation_succeeded (rc_verdict c') = true <-> exists b, snd x = Reply REPLY_AUX_ACK (current_read_length c - acked_all l) b;
  rd_status : status (rc_verdict c') = Some STATUS_SUCCEEDED <-> operation_succeeded (rc_verdict c') = true;
  rd_buffer : forall st n b, snd x = Reply st n b -> rc_buffer c' = b;
  rd_length : length (rc_buffer c') = length (rc_buffer c);
  rd_rest : drop (Z.to_nat len0) (rc_buffer c') = drop (Z.to_nat len0) (rc_buffer c) }.

Lemma read_round len0 fuel c s Q :
  channel_inv s -> read_inv len0 c ->
  (forall a s1, channel_inv s1 -> read_exchange (read_ready c) s a s1 -> 0 <= acked a ->
     length (rc_buffer (apply_read a (read_ready c))) = length (rc_buffer c) ->
     drop (Z.to_nat len0) (rc_buffer (apply_read a (read_ready c))) = drop (Z.to_nat len0) (rc_buffer c) ->
     returns (if again (rc_verdict (apply_read a (read_ready c))) then read_loop funcs fuel (apply_read a (read_ready c)) else mret (apply_read a (read_ready c))) s1 Q) ->
  returns (read_loop funcs (Datatypes.S fuel) c) s Q.
Proof.
  intros Hs Hc H. pose proof (ri_buf _ _ Hc) as Hb. pose proof (read_step_returns len0 c s Hs Hc) as Hr. cbn [read_loop]. destruct Hc as [H1 H2 H3 _ _ _ _].
  destruct c as [buf len off req rst rb k v]. cbn [read_ready current_read_length offset rc_buffer] in *. unfold memset_zero.
  destruct (Nat.leb_spec (Z.to_nat off + Z.to_nat len) (length buf)); [|lia].
  eapply returns_run; [done|]. eapply returns_bind; [exact Hr|]. intros c' s1 (Hs1 & a & Hx & -> & Ha & Hl & Hd). by apply H.
Qed.

Lemma read_loop_returns len0 fuel c s :
  channel_inv s -> read_inv len0 c -> read_left (rc_retry c) < Z.of_nat fuel ->
  returns (read_loop funcs fuel c) s (fun c' s' => channel_inv s' /\ exists l x, read_done len0 c s c' s' l x).
Proof.
  revert c s. induction fuel as [|fuel IH]; intros c s Hs Hc Hf.
  { destruct (ri_retry _ _ Hc) as (? & ? & ? & ? & ?). limits. lia. }
  apply (read_round len0); [done|done|]. intros a s1 Hs1 Hx Ha Hl Hd. destruct (ready_inv len0 c Hc) as (Hr & Hlr & _). destruct (ready_same c) as (Hlike & Ek & El & Eo).
  pose proof (ri_retry _ _ Hc) as Hk. destruct (again _) eqn:Hg.
  - destruct (apply_goes_on len0 _ a Hr Ha ltac:(congruence) Hg) as (Hc' & El' & Hre). rewrite <- Ek in Hk. destruct (read_progress a _ Hk Hg) as (_ & _ & Hp). rewrite Ek in Hp.
    eapply returns_weaken; [apply IH; [done|exact Hc'|lia]|]. intros c' s' [Hs' (l & x & Hdone)]. split; [done|]. exists ((rc_request (read_ready c), a) :: l), x. destruct Hdone as [D1 D0 D2 D3 D4 D5 D6 D7 D8 D9].
    constructor; cbn [app length acked_all foldr snd]; fold (acked_all l); [| |lia|by constructor|lia| |done|done|congruence|congruence].
    + by eapply transaction_cons.
    + constructor; [exact Hlike|]. rewrite apply_same in D0. destruct Hlike as (E1 & E2 & E3). unfold asks_like in *. by rewrite E1, E2, E3 in D0.
    + replace (current_read_length c - (acked a + acked_all l)) with (current_read_length (apply_read a (read_ready c)) - acked_all l) by lia. done.
  - apply returns_ret. split; [done|]. exists [], (rc_request (read_ready c), a). destruct (apply_ends len0 _ a Hr Hg) as (D5 & D6 & D7).
    constructor; cbn [app length acked_all foldr snd]; try done.
    + eapply transaction_cons; [exact Hx|constructor].
    + by constructor.
    + destruct Hk as (? & ? & ? & ? & ?). limits. lia.
    + by rewrite Z.sub_0_r, <- El.
Qed.
End read_loop.

(** ** Writes *)

Definition apply_write_reply (st n : Z) (c : write_command_context) (rdata : list Z) : write_command_context :=
  let 'WriteCtx mot buf len req _ _ k maxd _ v := c in
  let 'Counters t i da di a := k in
  let ctx len req k v := WriteCtx mot buf len req (Some st) n k maxd rdata v in
  if st =? REPLY_AUX_ACK then
    let v := Verdict (status v) (transaction_complete v) true in
    if negb (n =? 0) then
      ctx 0 (status_request mot req) (Counters 0 0 da di (u32 (a + 1)))
        (if AUX_DEFER_RETRY_COUNTER <? u32 (a + 1) then failed STATUS_FAILED_TIMEOUT v else v)
    else ctx len req (Counters 0 0 0 di 0) (done_ok v)
  else if st =? REPLY_AUX_NACK then ctx len req (Counters 0 0 da di a) (failed STATUS_FAILED_NACK v)
  else if st =? REPLY_AUX_DEFER then
    ctx len req (Counters 0 0 (u32 (da + 1)) di a) (if maxd <? u32 (da + 1) then failed STATUS_FAILED_TIMEOUT v else v)
  else if st =? REPLY_I2C_DEFER then
    ctx 0 (status_request mot req) (Counters 0 0 0 (u32 (di + 1)) a) (if maxd <? u32 (di + 1) then failed STATUS_FAILED_TIMEOUT v else v)
  else ctx len req (Counters 0 0 da di a) (failed STATUS_UNKNOWN v).
Definition apply_write (ans : answer) (c : write_command_context) : write_command_context :=
  match ans with
  | NoReply op n =>
      let 'WriteCtx mot buf len req rst _ k maxd rdata v := c in
      let '(k, v) := channel_failure op k v in WriteCtx mot buf len req rst n k maxd rdata v
  | TooLong _ => c
  | Reply st n b => apply_write_reply st n c b
  end.
(** The answers after which the display has the data: the write goes on with queries of its status. *)
Definition accepts (ans : answer) : bool :=
  match ans with Reply st n _ => ((st =? REPLY_AUX_ACK) && negb (n =? 0)) || (st =? REPLY_I2C_DEFER) | _ => false end.

Lemma write_failure_progress maxd ans c :
  is_u32 (maxd + 1) -> 0 <= maxd -> max_defer_retry c = maxd -> counters_ok maxd AUX_DEFER_RETRY_COUNTER (wc_retry c) -> transaction_complete (wc_verdict c) = false ->
  again (wc_verdict (apply_write ans c)) = true -> (forall n, ans <> TooLong n) ->
  counters_ok maxd AUX_DEFER_RETRY_COUNTER (wc_retry (apply_write ans c)) /\ 0 <= write_left maxd (wc_retry (apply_write ans c)) < write_left maxd (wc_retry c).
Proof.
  unfold is_u32. destruct c as [mot buf len req rst rb k maxd' rdata v], ans as [op n|n|st n b]; cbn [apply_write wc_retry wc_verdict max_defer_retry]; intros Hm Hm0 -> Hk Hv Ha Hn; [|by destruct (Hn n)|].
  - destruct (channel_failure op k v) as [k' v'] eqn:E. cbn [wc_retry wc_verdict] in *.
    destruct (failure_progress _ _ _ _ _ _ _ Hk E Ha) as (H1 & H2 & H3 & H4 & H5 & H6). split; [done|]. limits. rewrite H3, H4, H5. nia.
  - destruct k as [t i da di a]. unfold apply_write_reply in *. limits. bump.
    repeat match goal with |- context [if ?b then _ else _] => destruct b eqn:? end; cbn [wc_retry wc_verdict] in *; try done;
      rewrite ?Z.ltb_ge, ?Z.ltb_lt in *; limits; bump; (split; [lia|nia]).
Qed.

(** The context at the start of a round. *)
Definition write_ready (c : write_command_context) : write_command_context :=
  let 'WriteCtx mot buf len req rst rb k maxd rdata v := c in
  WriteCtx mot buf len (AuxRequest (req_type req) (req_action req) (req_address req) (req_delay req) len buf) rst rb k maxd rdata v.

Record write_inv (len0 : Z) (buf : list Z) (c : write_command_context) : Prop := {
  wi_buf : wc_buffer c = buf;
  wi_len : 0 <= current_write_length c <= len0;
  wi_fits : (Z.to_nat len0 <= length buf)%nat;
  wi_maxd : AUX_DEFER_RETRY_COUNTER <= max_defer_retry c < 2 ^ 32 - 1;
  wi_rdata : length (wc_reply_data c) = Z.to_nat DEFAULT_AUX_MAX_DATA_SIZE;
  wi_retry : counters_ok (max_defer_retry c) AUX_DEFER_RETRY_COUNTER (wc_retry c);
  wi_verdict : wc_verdict c = start_verdict }.

(** The requests of a write: the data until the display has it, then queries of the status. *)
Definition status_query (mot : bool) (req : aux_request_transaction_data) : aux_request_transaction_data :=
  AuxRequest (req_type req) (if mot then ACTION_I2C_STATUS_REQUEST_MOT else ACTION_I2C_STATUS_REQUEST) (req_address req) (req_delay req) 0 (req_data req).
Fixpoint sends (mot : bool) (req : aux_request_transaction_data) (l : list exch) : Prop :=
  match l with
  | [] => True
  | x :: l => fst x = req /\ sends mot (if accepts (snd x) then status_query mot req else req) l
  end.

Section write_loop.
Context {S : Type} (funcs : aux_engine_funcs S) {channel : AuxChannel funcs}.

Notation write_exchange c := (exchange funcs None (wc_request c) (fun n => AuxReply (wc_reply_status c) n (wc_reply_data c))).

Lemma process_write_request_inv c s c' s' :
  process_write_request funcs c s = Ok (c', s') -> exists ans, write_exchange c s ans s' /\ c' = apply_write ans c /\ forall n, ans <> TooLong n.
Proof.
  destruct c as [mot buf len req rst rb k maxd rdata v]. unfold process_write_request. intros H. minv. cbn [wc_request] in *. match goal with u : () |- _ => destruct u end.
  destruct a; cbn [wc_reply_status wc_reply_data].
  - unfold process_write_reply in H. apply bind_Ok in H as (rep & s3 & E3 & H). destruct k as [t i da di a]. cbn [defer_retry_aux defer_retry_i2c ack_retry] in H.
    destruct (reply_status rep) as [st|] eqn:Est; [|done]. exists (Reply st z (reply_data rep)).
    split; [|split; [unfold apply_write, apply_write_reply; repeat (case_match; minv; try congruence)|done]].
    assert (s' = s3) as ->; [repeat (case_match; minv; try done)|]. by eapply exchange_reply.
  - destruct (channel_failure _ k v) eqn:Ek. minv. eexists (NoReply _ z). split; [by eapply exchange_none|]. split; [|done]. cbn [apply_write]. by rewrite Ek.
  - destruct (channel_failure _ k v) eqn:Ek. minv. eexists (NoReply _ z). split; [by eapply exchange_none|]. split; [|done]. cbn [apply_write]. by rewrite Ek.
  - destruct (channel_failure _ k v) eqn:Ek. minv. eexists (NoReply _ z). split; [by eapply exchange_none|]. split; [|done]. cbn [apply_write]. by rewrite Ek.
Qed.

Lemma process_write_returns len0 buf r s :
  channel_inv s -> write_inv len0 buf r -> (Z.to_nat (req_length (wc_request r)) <= length (req_data (wc_request r)))%nat ->
  returns (process_write_request funcs r) s (fun c' s' => channel_inv s' /\ length (wc_reply_data c') = Z.to_nat DEFAULT_AUX_MAX_DATA_SIZE).
Proof.
  destruct r as [mot b len req rst rb k maxd rdata v]. intros Hs [H1 H2 H3 H4 H5 H6 H7] Hf. cbn [wc_reply_data wc_request max_defer_retry] in *. unfold process_write_request.
  eapply returns_bind; [by apply channel_submit|]. intros [] s1 Hs1. eapply returns_bind; [by apply channel_status|]. intros [op n] s2 (Hs2 & Hn & Hp). cbn [fst snd] in *.
  destruct op; [|destruct (channel_failure _ k v); apply returns_ret; cbn; tauto..]. unfold process_write_reply.
  eapply returns_bind; [apply (channel_reply n); [done|by apply Hp|cbn [reply_data]; rewrite H5; lia]|]. intros rep s3 (Hs3 & Hl3 & _ & [st Est]). cbn [reply_data] in *.
  rewrite Est. destruct k as [t i da di a]. repeat case_match; apply returns_ret; cbn [wc_reply_data]; (split; [done|lia]).
Qed.

Lemma write_ready_inv len0 buf c :
  write_inv len0 buf c -> write_inv len0 buf (write_ready c) /\ (Z.to_nat (req_length (wc_request (write_ready c))) <= length (req_data (wc_request (write_ready c))))%nat.
Proof. destruct c. intros [H1 H2 H3 H4 H5 H6 H7]. cbn in *. subst. split; [constructor; done|lia]. Qed.

Lemma apply_write_goes_on len0 buf r a :
  write_inv len0 buf r -> length (wc_reply_data (apply_write a r)) = Z.to_nat DEFAULT_AUX_MAX_DATA_SIZE -> again (wc_verdict (apply_write a r)) = true -> (forall n, a <> TooLong n) ->
  write_inv len0 buf (apply_write a r) /\ retryable a /\
  wc_request (apply_write a r) = (if accepts a then status_request (mot r) (wc_request r) else wc_request r) /\
  current_write_length (apply_write a r) = (if accepts a then 0 else current_write_length r) /\ mot (apply_write a r) = mot r.
Proof.
  intros Hr Hd Hg Hn. pose proof Hr as [H1 H2 H3 H4 H5 H6 H7]. assert (Hm : is_u32 (max_defer_retry r + 1)) by (unfold is_u32; limits; lia).
  assert (Hm0 : 0 <= max_defer_retry r) by (limits; lia). destruct (write_failure_progress _ a r Hm Hm0 eq_refl H6 ltac:(by rewrite H7) Hg Hn) as [Hk _].
  assert (Hc : max_defer_retry (apply_write a r) = max_defer_retry r /\ wc_buffer (apply_write a r) = buf /\ wc_verdict (apply_write a r) = start_verdict /\ retryable a /\
    wc_request (apply_write a r) = (if accepts a then status_request (mot r) (wc_request r) else wc_request r) /\
    current_write_length (apply_write a r) = (if accepts a then 0 else current_write_length r) /\ mot (apply_write a r) = mot r).
  { clear Hd Hk. destruct r as [mt b len req rst rb k maxd rdata v]. cbn [max_defer_retry wc_buffer wc_verdict mot wc_request current_write_length] in *. subst. destruct a as [op n|n|st n b']; cbn [apply_write retryable accepts] in *.
    - destruct op, k; cbn in Hg |- *; try done; repeat match goal with |- context [if ?b then _ else _] => destruct b end; try done; repeat split; tauto.
    - by destruct (Hn n).
    - destruct k as [t i da di a]. unfold apply_write_reply in *. repeat match goal with |- context [if ?b then _ else _] => destruct b eqn:?; cbn [andb orb negb] in * end; try done;
        rewrite ?Z.eqb_eq in *; try (subst; done); repeat split; try tauto; try done. }
  destruct Hc as (E1 & E2 & E3 & Hre & E4 & E5 & E6). split; [|done]. constructor; rewrite ?E1; try done. rewrite E5. destruct (accepts a); lia.
Qed.

Lemma apply_write_ends len0 buf r a :
  write_inv len0 buf r -> again (wc_verdict (apply_write a r)) = false ->
  (operation_succeeded (wc_verdict (apply_write a r)) = true <-> exists b, a = Reply REPLY_AUX_ACK 0 b) /\
  (status (wc_verdict (apply_write a r)) = Some STATUS_SUCCEEDED <-> operation_succeeded (wc_verdict (apply_write a r)) = true).
Proof.
  intros [H1 H2 H3 H4 H5 H6 H7] Hg. destruct r as [mt b len req rst rb k maxd rdata v]. cbn [wc_verdict] in *. subst v. destruct a as [op n|n|st n b']; cbn [apply_write] in *.
  - destruct op, k; cbn in *; repeat case_match; try done; (split; [split; [done|by intros [? ?]]|done]).
  - done.
  - destruct k as [t i da di a]. unfold apply_write_reply in *. destruct (st =? REPLY_AUX_ACK) eqn:E0; [apply Z.eqb_eq in E0 as ->; destruct (n =? 0) eqn:En; cbn [negb] in *|apply Z.eqb_neq in E0].
    + apply Z.eqb_eq in En as ->. cbn. split; [split; [by exists b'|done]|done].
    + apply Z.eqb_neq in En. destruct (_ <? _); [|done]. cbn in *. split; [split; [done|intros [? [= ? ?]]; lia]|done].
    + repeat case_match; cbn [wc_verdict] in *; try done; (split; [split; [done|intros [? [= ? ?]]; lia]|done]).
Qed.

Record write_done (len0 : Z) (c : write_command_context) (s : S) (c' : write_command_context) (s' : S) (l : list exch) (x : exch) : Prop := {
  wd_sent : transaction funcs s (l ++ [x]) s';
  wd_requests : sends (mot c) (wc_request (write_ready c)) (l ++ [x]);
  wd_few : Z.of_nat (length l) <= write_left (max_defer_retry c) (wc_retry c);
  wd_retry : Forall (fun x => retryable (snd x)) l;
  wd_ok : operation_succeeded (wc_verdict c') = true <-> exists b, snd x = Reply REPLY_AUX_ACK 0 b;
  wd_status : status (wc_verdict c') = Some STATUS_SUCCEEDED <-> operation_succeeded (wc_verdict c') = true }.

Lemma write_left_nonneg maxd k : 0 <= maxd -> counters_ok maxd AUX_DEFER_RETRY_COUNTER k -> 0 <= write_left maxd k.
Proof. intros Hm (? & ? & ? & ? & ?). limits. nia. Qed.

(** The request of the next round. *)
Lemma next_request len0 buf c a :
  write_inv len0 buf (apply_write a (write_ready c)) ->
  wc_request (apply_write a (write_ready c)) = (if accepts a then status_request (mot (write_ready c)) (wc_request (write_ready c)) else wc_request (write_ready c)) ->
  current_write_length (apply_write a (write_ready c)) = (if accepts a then 0 else current_write_length (write_ready c)) ->
  wc_buffer c = buf ->
  wc_request (write_ready (apply_write a (write_ready c))) = if accepts a then status_query (mot c) (wc_request (write_ready c)) else wc_request (write_ready c).
Proof.
  intros Hi Hr Hl Hb. pose proof (wi_buf _ _ _ Hi) as Hb'. destruct (apply_write a (write_ready c)) as [mt b len req rst rb k maxd rdata v]. destruct c as [mt' b0 len' req' rst' rb' k' maxd' rdata' v'].
  cbn [write_ready wc_request current_write_length wc_buffer mot] in *. subst. by destruct (accepts a).
Qed.

Lemma write_round fuel c s c1 s1 :
  process_write_request funcs (write_ready c) s = Ok (c1, s1) ->
  write_loop funcs (Datatypes.S fuel) c s = (if again (wc_verdict c1) then write_loop funcs fuel c1 else mret c1) s1.
Proof. destruct c. intros E. cbn [write_loop]. by rewrite (bind_eval _ _ s c1 s1 E). Qed.

Lemma write_loop_returns len0 buf fuel c s :
  channel_inv s -> write_inv len0 buf c -> write_left (max_defer_retry c) (wc_retry c) < Z.of_nat fuel ->
  returns (write_loop funcs fuel c) s (fun c' s' => channel_inv s' /\ exists l x, write_done len0 c s c' s' l x).
Proof.
  revert c s. induction fuel as [|fuel IH]; intros c s Hs Hc Hf; [exfalso; pose proof (wi_maxd _ _ _ Hc) as Hm; assert (Hm0 : 0 <= max_defer_retry c) by (limits; lia); pose proof (write_left_nonneg _ _ Hm0 (wi_retry _ _ _ Hc)); lia|].
  destruct (write_ready_inv _ _ _ Hc) as [Hr Hfit]. destruct (process_write_returns _ _ _ s Hs Hr Hfit) as (c1 & s1 & E & Hs1 & Hd).
  destruct (process_write_request_inv _ _ _ _ E) as (a & Hx & -> & Hn).
  unfold returns. rewrite (write_round fuel c s _ s1 E). fold (returns (if again (wc_verdict (apply_write a (write_ready c))) then write_loop funcs fuel (apply_write a (write_ready c)) else mret (apply_write a (write_ready c))) s1 (fun c' s' => channel_inv s' /\ exists l x, write_done len0 c s c' s' l x)).
  assert (Hsame : max_defer_retry (write_ready c) = max_defer_retry c /\ wc_retry (write_ready c) = wc_retry c /\ mot (write_ready c) = mot c) by (by destruct c). destruct Hsame as (Em & Ek & Emt).
  destruct (again _) eqn:Hg.
  - destruct (apply_write_goes_on _ _ _ a Hr Hd Hg Hn) as (Hc' & Hre & Er & El & Emt'). pose proof (wi_maxd _ _ _ Hc) as Hm.
    assert (Em' : max_defer_retry (apply_write a (write_ready c)) = max_defer_retry c) by (rewrite <- Em; clear; destruct (write_ready c), a; cbn; unfold apply_write_reply; repeat case_match; done).
    destruct (write_failure_progress (max_defer_retry c) a (write_ready c)) as [_ Hp]; try done; [unfold is_u32; limits; lia|limits; lia|rewrite Ek; apply (wi_retry _ _ _ Hc)|by rewrite (wi_verdict _ _ _ Hr)|].
    eapply returns_weaken; [apply IH; [done|exact Hc'|rewrite Em', Ek in *; lia]|]. intros c' s' [Hs' (l & x & [D1 D2 D3 D4 D5 D6])]. split; [done|]. exists ((wc_request (write_ready c), a) :: l), x.
    rewrite Em', Ek in *. rewrite Emt', Emt in D2. rewrite (next_request len0 buf c a Hc' Er El (wi_buf _ _ _ Hc)) in D2.
    constructor; cbn [app length sends fst snd]; [by eapply transaction_cons|done|lia|by constructor|done|done].
  - apply returns_ret. split; [done|]. exists [], (wc_request (write_ready c), a). destruct (apply_write_ends _ _ _ a Hr Hg) as (D5 & D6).
    constructor; cbn [app length sends fst snd]; try done; [eapply transaction_cons; [exact Hx|constructor]|].
    apply write_left_nonneg; [pose proof (wi_maxd _ _ _ Hc); limits; lia|apply (wi_retry _ _ _ Hc)].
Qed.
End write_loop.

(** ** The hardware's channel *)

(** A reply that was announced is still there at the next read of the status,
    with no more bytes than were announced, and a reply has at most sixteen
    bytes after its command. *)
Record hw_sane (hw : trace -> aux_reg -> Z) : Prop := {
  hw_stable tr : let v := u32 (hw tr AUX_SW_STATUS) in Z.land v AUX_SW_DONE_MASK <> 0 -> get_field AUX_SW_REPLY_BYTE_COUNT v <> 0 ->
    1 <= get_field AUX_SW_REPLY_BYTE_COUNT (u32 (hw (Rd AUX_SW_STATUS v :: tr) AUX_SW_STATUS)) <= get_field AUX_SW_REPLY_BYTE_COUNT v;
  hw_short tr : get_field AUX_SW_REPLY_BYTE_COUNT (u32 (hw tr AUX_SW_STATUS)) <= DEFAULT_AUX_MAX_DATA_SIZE + 1 }.

Section dce110_channel.
Context (hw : trace -> aux_reg -> Z) (timeout_period : Z).

Lemma runs_read r : runs (dce110.REG_READ hw r).
Proof. intros s. by eexists _, _. Qed.
Lemma runs_write r v : runs (dce110.REG_WRITE r v).
Proof. intros s. by eexists _, _. Qed.
Hint Resolve runs_read runs_write : runs.
Lemma runs_set r v fs : runs (dce110.REG_SET r v fs).
Proof. unfold dce110.REG_SET. auto with runs. Qed.
Hint Resolve runs_set : runs.
Lemma runs_update r fs : runs (dce110.REG_UPDATE hw r fs).
Proof. unfold dce110.REG_UPDATE. auto with runs. Qed.
Hint Resolve runs_update : runs.
Lemma runs_seq r f x y : runs (dce110.REG_UPDATE_SEQ hw r f x y).
Proof. unfold dce110.REG_UPDATE_SEQ. auto with runs. Qed.
Lemma runs_get r f : runs (dce110.REG_GET hw r f).
Proof. unfold dce110.REG_GET. auto with runs. Qed.
Lemma runs_wait r f x n : runs (dce110.REG_WAIT hw r f x n).
Proof. induction n; cbn [dce110.REG_WAIT]; auto with runs. Qed.
Hint Resolve runs_seq runs_get runs_wait : runs.
Lemma runs_load n i data v : (i + n <= length data)%nat -> runs (dce110.load_data n i data v).
Proof.
  revert i v. induction n as [|n IH]; intros i v H; cbn [dce110.load_data]; [auto with runs|].
  destruct (lookup_lt_is_Some_2 data i ltac:(lia)) as [b ->]. apply runs_bind; [apply runs_ret|]. intros b'. apply runs_bind; [auto with runs|]. intros v'. apply IH. lia.
Qed.
Lemma runs_submit req : (Z.to_nat (req_length req) <= length (req_data req))%nat -> runs (dce110.submit_channel_request hw req).
Proof.
  intros H. unfold dce110.submit_channel_request. repeat (apply runs_bind; [auto with runs|intros ?]).
  - apply runs_if; [by apply runs_load|auto with runs].
  - auto 10 with runs.
Qed.
Lemma runs_acquire mask : runs (dce110.acquire_engine hw mask).
Proof. unfold dce110.acquire_engine. auto 15 with runs. Qed.

Definition reply_waits (n : Z) (tr : trace) : Prop :=
  0 <= n /\ exists v tr', tr = Rd AUX_SW_STATUS v :: tr' /\ v = u32 (hw tr' AUX_SW_STATUS) /\ Z.land v AUX_SW_DONE_MASK <> 0 /\ get_field AUX_SW_REPLY_BYTE_COUNT v = n + 1.

Lemma wait_last r f x n s v s' : dce110.REG_WAIT hw r f x n s = Ok (v, s') -> exists tr, s' = Rd r v :: tr /\ v = u32 (hw tr r).
Proof.
  revert s. induction n as [|n IH]; intros s; cbn [dce110.REG_WAIT]; intros H; apply bind_Ok in H as (w & s1 & E & H); injection E as <- <-.
  - destruct (_ =? _); apply ret_Ok in H as [<- <-]; eauto.
  - destruct (_ =? _); [apply ret_Ok in H as [<- <-]; eauto|]. by apply IH in H.
Qed.
Lemma count_range v : 0 <= get_field AUX_SW_REPLY_BYTE_COUNT v <= 31.
Proof.
  unfold get_field, get_reg_field_value_ex, AUX_SW_REPLY_BYTE_COUNT. cbn [fst snd]. rewrite Z.shiftr_div_pow2 by lia.
  assert (0 <= Z.land 0x1f000000 v < 2 ^ 29) by (apply land_bound_l; lia).
  assert (Z.land 0x1f000000 v <= 0x1f000000).
  { replace (Z.land 0x1f000000 v) with (Z.land 0x1f (Z.shiftr v 24) * 2 ^ 24); [pose proof (land_bound_l 5 ltac:(lia) 0x1f (Z.shiftr v 24) ltac:(lia)); lia|].
    rewrite <- Z.shiftl_mul_pow2, Z.shiftl_land by lia. apply Z.bits_inj'. intros i Hi. rewrite !Z.land_spec. change (Z.shiftl 0x1f 24) with 0x1f000000.
    rewrite Z.shiftl_spec by lia. destruct (Z.le_gt_cases 24 i); [rewrite Z.shiftr_spec by lia; do 2 f_equal; lia|].
    change 0x1f000000 with (Z.shiftl 0x1f 24). rewrite Z.shiftl_spec, (Z.testbit_neg_r 0x1f) by lia. done. }
  split; [apply Z.div_pos; lia|]. apply Z.div_le_upper_bound; lia.
Qed.
Lemma status_returns s :
  hw_sane hw ->
  returns (dce110.get_channel_status hw timeout_period) s (fun r s' =>
    0 <= snd r <= DEFAULT_AUX_MAX_DATA_SIZE /\ (fst r = AUX_CHANNEL_OPERATION_SUCCEEDED -> reply_waits (snd r) s')).
Proof.
  intros [_ Hshort]. unfold dce110.get_channel_status. destruct (runs_wait AUX_SW_STATUS AUX_SW_DONE 1 (Z.to_nat (timeout_period / 10)) s) as (v & s' & E & _).
  eapply returns_run; [exact E|]. apply wait_last in E as (tr & -> & Ev). specialize (Hshort tr). rewrite <- Ev in Hshort. pose proof (count_range v) as Hc. unfold DEFAULT_AUX_MAX_DATA_SIZE in *.
  destruct (Z.eqb_spec (Z.land v AUX_SW_DONE_MASK) 0) as [Ed|Ed]; cbn [negb]; [by apply returns_ret|].
  destruct (_ || _); [by apply returns_ret|]. destruct (negb _); [by apply returns_ret|]. rewrite (u8_small (get_field _ v)) by (unfold is_u8; lia).
  destruct (Z.eqb_spec (get_field AUX_SW_REPLY_BYTE_COUNT v) 0); apply returns_ret; cbn [fst snd]; [done|]. rewrite u8_small by (unfold is_u8; lia).
  split; [lia|]. intros _. split; [lia|]. exists v, tr. split; [done|]. split; [done|]. split; [done|lia].
Qed.
Lemma store_returns n i data s :
  (i + n <= length data)%nat ->
  returns (dce110.store_data hw n i data) s (fun d _ => length d = length data /\ drop (i + n) d = drop (i + n) data).
Proof.
  revert i data s. induction n as [|n IH]; intros i data s H; cbn [dce110.store_data]; [by apply returns_ret|].
  destruct (runs_get AUX_SW_DATA AUX_SW_DATA_DATA s) as ([v b] & s' & E & _). eapply returns_run; [exact E|]. destruct (Nat.ltb_spec i (length data)); [|lia].
  eapply returns_weaken; [apply IH; rewrite length_insert; lia|]. intros d s2 [Hl Hd]. rewrite length_insert in Hl. split; [done|].
  replace (i + S n)%nat with (S i + n)%nat by lia. rewrite Hd. by rewrite drop_insert_lt by lia.
Qed.
Lemma get_run r f s : dce110.REG_GET hw r f s = Ok ((u32 (hw s r), get_field f (u32 (hw s r))), Rd r (u32 (hw s r)) :: s).
Proof. done. Qed.
Lemma reply_returns n rep s :
  hw_sane hw -> reply_waits n s -> (Z.to_nat n <= length (reply_data rep))%nat ->
  returns (dce110.process_channel_reply hw rep) s (fun rep' _ =>
    length (reply_data rep') = length (reply_data rep) /\ drop (Z.to_nat n) (reply_data rep') = drop (Z.to_nat n) (reply_data rep) /\ is_Some (reply_status rep')).
Proof.
  intros [Hst _] (Hn & v & tr & -> & Ev & Hd & Hc) Hl. specialize (Hst tr). rewrite <- Ev in Hst. unfold dce110.process_channel_reply.
  eapply returns_run; [apply get_run|]. specialize (Hst Hd ltac:(lia)). rewrite Hc in Hst. cbv beta iota. set (m := get_field AUX_SW_REPLY_BYTE_COUNT _) in *. clearbody m.
  destruct (Z.eqb_spec m 0); [lia|]. cbn [negb]. repeat (eapply returns_bind; [apply runs_update || apply runs_set|intros ? ? _]).
  eapply returns_bind; [apply runs_get|]. intros [w b] s5 _. cbv beta iota.
  destruct (_ =? 0).
  - eapply returns_bind; [apply store_returns; lia|]. intros d s6 [Hd1 Hd2]. apply returns_ret. cbn [reply_data reply_status]. split; [done|]. split; [|by eauto].
    replace (Z.to_nat n) with (0 + Z.to_nat (m - 1) + (Z.to_nat n - Z.to_nat (m - 1)))%nat by lia. by rewrite <- !(drop_drop _ (Z.to_nat n - _)), Hd2.
  - repeat destruct (_ =? _); apply returns_ret; cbn; eauto.
Qed.
End dce110_channel.

(** The hardware is a channel. *)
Definition dce110_channel hw timeout_period (H : hw_sane hw) : AuxChannel (dce110.aux_engine_funcs hw timeout_period).
Proof.
  refine {| channel_inv := fun _ => True; channel_pending := reply_waits hw |}; intros; cbn [dce110.aux_engine_funcs submit_channel_request process_channel_reply get_channel_status].
  - by apply runs_submit.
  - eapply returns_weaken; [by apply status_returns|]. intros a s' [? ?]. done.
  - eapply returns_weaken; [by apply (reply_returns hw n)|]. intros a s' ?. done.
Defined.

(** ** Transactions and commands *)

(** The rounds a transaction may take. *)
Definition read_rounds : nat := 224.
Definition write_rounds (maxd : Z) : nat := Z.to_nat (write_left maxd start_retry + 1).
Definition defer_limit (max_defer_write_retry : Z) : Z := if AUX_DEFER_RETRY_COUNTER <? max_defer_write_retry then max_defer_write_retry else AUX_DEFER_RETRY_COUNTER.

Definition request_fits (r : i2caux_transaction_request) : Prop := is_u32 (payload_length r) /\ (Z.to_nat (payload_length r) <= length (payload_data r))%nat.
Definition known_space (r : i2caux_transaction_request) : Prop := address_space r = ADDRESS_SPACE_DPCD \/ address_space r = ADDRESS_SPACE_I2C.

(** The request on the channel for a read or a write of a payload. *)
Definition channel_request (dp i2c_mot i2c : Z) (r : i2caux_transaction_request) (mot : bool) : aux_request_transaction_data :=
  if address_space r =? ADDRESS_SPACE_DPCD then AuxRequest AUX_TRANSACTION_TYPE_DP dp (address r) 0 (payload_length r) (payload_data r)
  else AuxRequest AUX_TRANSACTION_TYPE_I2C (if mot then i2c_mot else i2c) (Z.shiftr (address r) 1) 0 (payload_length r) (payload_data r).
Notation read_request := (channel_request ACTION_DP_READ ACTION_I2C_READ_MOT ACTION_I2C_READ).
Notation write_request := (channel_request ACTION_DP_WRITE ACTION_I2C_WRITE_MOT ACTION_I2C_WRITE).

Section transactions.
Context {S : Type} (funcs : aux_engine_funcs S) {channel : AuxChannel funcs}.

Definition read_context (request : i2caux_transaction_request) (mot : bool) : read_command_context :=
  ReadCtx (payload_data request) (payload_length request) 0 (read_request request mot) None 0 start_retry start_verdict.
Lemma read_command_run fuel request mot s :
  known_space request -> read_command funcs fuel request mot s = (c ← read_loop funcs fuel (read_context request mot); mret (operation_succeeded (rc_verdict c), rc_buffer c, status (rc_verdict c))) s.
Proof. unfold read_command, read_context, channel_request. by intros [-> | ->]. Qed.
Lemma read_context_inv request mot : request_fits request -> read_inv (payload_length request) (read_context request mot).
Proof. intros [Hu Hl]. constructor; cbn; try (unfold is_u32 in *; lia); try done. Qed.

Lemma read_command_returns fuel request mot s :
  channel_inv s -> request_fits request -> known_space request -> (read_rounds <= fuel)%nat ->
  returns (read_command funcs fuel request mot) s (fun r s' => channel_inv s' /\ exists l x c', read_done funcs (payload_length request) (read_context request mot) s c' s' l x /\
    r = (operation_succeeded (rc_verdict c'), rc_buffer c', status (rc_verdict c'))).
Proof.
  intros Hs Hf Hsp Hfuel. unfold returns. rewrite (read_command_run fuel request mot s Hsp).
  eapply returns_bind; [apply (read_loop_returns funcs (payload_length request)); [done|by apply read_context_inv|unfold read_rounds in *; limits; cbn; lia]|].
  intros c' s' [Hs' (l & x & Hd)]. apply returns_ret. split; [done|]. by exists l, x, c'.
Qed.

Definition write_context (maxd : Z) (request : i2caux_transaction_request) (mot : bool) : write_command_context :=
  WriteCtx mot (payload_data request) (payload_length request) (write_request request mot) None 0 start_retry maxd (replicate (Z.to_nat DEFAULT_AUX_MAX_DATA_SIZE) 0) start_verdict.
Lemma write_command_run fuel maxd request mot s :
  known_space request ->
  write_command funcs fuel maxd request mot s = (c ← write_loop funcs fuel (write_context (defer_limit maxd) request mot); mret (operation_succeeded (wc_verdict c), status (wc_verdict c))) s.
Proof. unfold write_command, write_context, channel_request, defer_limit. by intros [-> | ->]. Qed.
Lemma defer_limit_range maxd : maxd < 2 ^ 32 - 1 -> AUX_DEFER_RETRY_COUNTER <= defer_limit maxd < 2 ^ 32 - 1.
Proof. intros H. unfold defer_limit. destruct (Z.ltb_spec AUX_DEFER_RETRY_COUNTER maxd); limits; lia. Qed.
Lemma write_context_inv maxd request mot : maxd < 2 ^ 32 - 1 -> request_fits request -> write_inv (payload_length request) (payload_data request) (write_context (defer_limit maxd) request mot).
Proof. intros Hm [Hu Hl]. pose proof (defer_limit_range maxd Hm). constructor; cbn [write_context wc_buffer current_write_length max_defer_retry wc_reply_data wc_retry wc_verdict]; [done|unfold is_u32 in Hu; lia|done|done|done|unfold start_retry; limits; lia|done]. Qed.

Lemma write_command_returns fuel maxd request mot s :
  channel_inv s -> request_fits request -> known_space request -> maxd < 2 ^ 32 - 1 -> (write_rounds (defer_limit maxd) <= fuel)%nat ->
  returns (write_command funcs fuel maxd request mot) s (fun r s' => channel_inv s' /\ exists l x c', write_done funcs (payload_length request) (write_context (defer_limit maxd) request mot) s c' s' l x /\
    r = (operation_succeeded (wc_verdict c'), status (wc_verdict c'))).
Proof.
  intros Hs Hf Hsp Hm Hfuel. unfold returns. rewrite (write_command_run fuel maxd request mot s Hsp).
  eapply returns_bind; [apply (write_loop_returns funcs (payload_length request) (payload_data request)); [done|by apply write_context_inv|]|].
  - cbn [write_context max_defer_retry wc_retry]. unfold write_rounds in Hfuel. lia.
  - intros c' s' [Hs' (l & x & Hd)]. apply returns_ret. split; [done|]. by exists l, x, c'.
Qed.
End transactions.

(** ** What goes on the wire *)

(** Fields of registers. *)
Definition field_at (f : field) (w : Z) : Prop := 0 <= fst f /\ 0 <= w /\ fst f + w <= 32 /\ snd f = Z.shiftl (Z.ones w) (fst f).
Lemma get_set_field f w x v : field_at f w -> get_field f (set_field f x v) = x mod 2 ^ w.
Proof.
  destruct f as [sh mask]. intros (Hs & Hw & Hb & Em). cbn [fst snd] in *. subst mask. unfold get_field, set_field, get_reg_field_value_ex, set_reg_field_value_ex. cbn [fst snd].
  rewrite <- Z.land_ones by lia. apply Z.bits_inj'. intros i Hi. rewrite Z.shiftr_spec, !Z.land_spec, Z.lor_spec, !Z.land_spec, testbit_u32, testbit_u32, Z.lnot_spec by lia.
  rewrite !Z.shiftl_spec by lia. replace (i + sh - sh) with i by lia. rewrite testbit_ones_nonneg by lia. destruct (Z.ltb_spec i w); cbn [andb negb orb]; [|by rewrite andb_false_r].
  destruct (Z.ltb_spec (i + sh) 32); [|lia]. cbn [andb negb orb]. by rewrite andb_false_r, andb_true_r.
Qed.
Lemma get_set_other f w g w' x v : field_at f w -> field_at g w' -> fst f + w <= fst g \/ fst g + w' <= fst f -> get_field f (set_field g x v) = get_field f v.
Proof.
  destruct f as [sh m], g as [sh' m']. intros (Hs & Hw & Hb & Em) (Hs' & Hw' & Hb' & Em') Hd. cbn [fst snd] in *. subst m m'. unfold get_field, set_field, get_reg_field_value_ex, set_reg_field_value_ex. cbn [fst snd].
  apply Z.bits_inj'. intros i Hi. rewrite !Z.shiftr_spec, !Z.land_spec, Z.lor_spec, !Z.land_spec, testbit_u32, testbit_u32, Z.lnot_spec by lia. rewrite !Z.shiftl_spec by lia.
  replace (i + sh - sh) with i by lia. rewrite testbit_ones_nonneg by lia. destruct (Z.ltb_spec i w); cbn [andb negb orb]; [|done].
  assert (E : Z.testbit (Z.ones w') (i + sh - sh') = false) by (destruct Hd; [apply Z.testbit_neg_r; lia|apply Z.ones_spec_high; lia]).
  rewrite E. destruct (Z.ltb_spec (i + sh) 32); [|lia]. cbn [andb negb orb]. by rewrite andb_true_r, orb_false_r.
Qed.
Lemma data_field : field_at AUX_SW_DATA_DATA 8.
Proof. done. Qed.
Lemma wr_bytes_field : field_at AUX_SW_WR_BYTES 5.
Proof. done. Qed.

(** The bytes written to the FIFO, in order. *)
Fixpoint wire (tr : trace) : list Z :=
  match tr with
  | [] => []
  | Wr AUX_SW_DATA v :: tr => wire tr ++ [get_field AUX_SW_DATA_DATA v]
  | _ :: tr => wire tr
  end.

(** The AUX request syntax: four bits of command, twenty of address, the
    length less one unless there is no data, and the data of a write. *)
Definition message (req : aux_request_transaction_data) : list Z :=
  [Z.lor (req_action req) (req_address req / 65536); req_address req / 256 mod 256; req_address req mod 256]
  ++ (if req_length req =? 0 then [] else [req_length req - 1])
  ++ (if dce110.is_write req then take (Z.to_nat (req_length req)) (req_data req) else []).
Definition decode_message (m : list Z) : option (Z * Z * Z * list Z) :=
  match m with
  | b0 :: b1 :: b2 :: rest =>
      let addr := Z.land b0 15 * 65536 + b1 * 256 + b2 in
      match rest with
      | [] => Some (Z.land b0 240, addr, 0, [])
      | n :: data => Some (Z.land b0 240, addr, n + 1, data)
      end
  | _ => None
  end.

Section on_wire.
Context (hw : trace -> aux_reg -> Z).

Lemma set_wire r v fs s : dce110.REG_SET r v fs s = Ok (fold_left (fun v '(f, x) => set_field f x v) fs v, Wr r (fold_left (fun v '(f, x) => set_field f x v) fs v) :: s).
Proof. done. Qed.
Lemma update_wire r fs s : exists v, dce110.REG_UPDATE hw r fs s = Ok (fold_left (fun v '(f, x) => set_field f x v) fs v, Wr r (fold_left (fun v '(f, x) => set_field f x v) fs v) :: Rd r v :: s).
Proof. by eexists. Qed.
Lemma returns_update {A} r fs (k : Z -> M trace A) s Q :
  (forall v, returns (k (fold_left (fun v '(f, x) => set_field f x v) fs v)) (Wr r (fold_left (fun v '(f, x) => set_field f x v) fs v) :: Rd r v :: s) Q) ->
  returns (mbind k (dce110.REG_UPDATE hw r fs)) s Q.
Proof. intros H. exact (H (u32 (hw s r))). Qed.
(** Accesses that do not touch the FIFO. *)
Lemma quiet_update r fs s : r <> AUX_SW_DATA -> returns (dce110.REG_UPDATE hw r fs) s (fun _ s' => wire s' = wire s /\ forall e, e ∈ s -> e ∈ s').
Proof. intros Hr. destruct (update_wire r fs s) as [v E]. eexists _, _. split; [exact E|]. split; [by destruct r|]. intros e He. by do 2 right. Qed.
Lemma quiet_seq r f x y s : r <> AUX_SW_DATA -> returns (dce110.REG_UPDATE_SEQ hw r f x y) s (fun _ s' => wire s' = wire s).
Proof.
  intros Hr. unfold dce110.REG_UPDATE_SEQ. destruct (update_wire r [(f, x)] s) as [v E]. eapply returns_run; [exact E|]. eapply returns_run; [apply set_wire|]. apply returns_ret. by destruct r.
Qed.
Lemma load_wire n i data v s :
  (i + n <= length data)%nat -> Forall is_u8 data ->
  returns (dce110.load_data n i data v) s (fun _ s' => wire s' = wire s ++ take n (drop i data) /\ forall e, e ∈ s -> e ∈ s').
Proof.
  revert i v s. induction n as [|n IH]; intros i v s Hl Hd; cbn [dce110.load_data].
  { apply returns_ret. rewrite take_0, app_nil_r. done. }
  destruct (lookup_lt_is_Some_2 data i ltac:(lia)) as [b Eb]. rewrite Eb. eapply returns_run; [done|]. eapply returns_run; [apply set_wire|].
  eapply returns_weaken; [apply IH; [lia|done]|]. cbn [wire fold_left]. intros _ s' [-> Hs]. split; [|intros e He; apply Hs; by right].
  rewrite (get_set_field _ 8) by apply data_field. rewrite Z.mod_small by (by eapply (Forall_lookup_1 _ _ _ _ Hd Eb)).
  rewrite <- app_assoc. f_equal. by rewrite (drop_S data b i Eb).
Qed.

(** Requests of the AUX syntax. *)
Record well_formed (req : aux_request_transaction_data) : Prop := {
  wf_action : exists k, 0 <= k < 16 /\ req_action req = 16 * k;
  wf_address : 0 <= req_address req < 2 ^ 20;
  wf_length : 0 <= req_length req <= DEFAULT_AUX_MAX_DATA_SIZE;
  wf_data : Forall is_u8 (req_data req);
  wf_room : (Z.to_nat (req_length req) <= length (req_data req))%nat }.

Lemma compose_high c a : 0 <= a < 2 ^ 20 -> dce110.COMPOSE_AUX_SW_DATA_16_20 c a = Z.lor c (a / 65536).
Proof.
  intros Ha. unfold dce110.COMPOSE_AUX_SW_DATA_16_20. f_equal. change 65536 with (2 ^ 16). rewrite <- Z.shiftr_div_pow2 by lia. rewrite Z.shiftr_land. change (Z.shiftr 0xF0000 16) with (Z.ones 4).
  rewrite Z.land_comm, Z.land_ones by lia. apply Z.mod_small. rewrite Z.shiftr_div_pow2 by lia. split; [apply Z.div_pos; lia|apply Z.div_lt_upper_bound; lia].
Qed.
Lemma compose_mid a : 0 <= a -> dce110.COMPOSE_AUX_SW_DATA_8_15 a = a / 256 mod 256.
Proof. intros Ha. unfold dce110.COMPOSE_AUX_SW_DATA_8_15. rewrite Z.shiftr_land. change (Z.shiftr 0xFF00 8) with (Z.ones 8). rewrite Z.land_comm, Z.land_ones, Z.shiftr_div_pow2 by lia. done. Qed.
Lemma compose_low a : dce110.COMPOSE_AUX_SW_DATA_0_7 a = a mod 256.
Proof. unfold dce110.COMPOSE_AUX_SW_DATA_0_7. change 0xFF with (Z.ones 8). rewrite Z.land_comm, Z.land_ones by lia. done. Qed.

(** A nibble above another: the first byte of a message. *)
Lemma nibbles k x : 0 <= k < 16 -> 0 <= x < 16 -> Z.lor (16 * k) x = 16 * k + x /\ Z.land (16 * k + x) 240 = 16 * k /\ Z.land (16 * k + x) 15 = x.
Proof.
  intros Hk Hx. assert (H : forallb (fun k => forallb (fun x => (Z.lor (16 * k) x =? 16 * k + x) && (Z.land (16 * k + x) 240 =? 16 * k) && (Z.land (16 * k + x) 15 =? x)) (seqZ 0 16)) (seqZ 0 16) = true) by by vm_compute.
  rewrite forallb_forall in H. specialize (H k). rewrite forallb_forall in H. specialize (H ltac:(by apply list_elem_of_In, elem_of_seqZ) x ltac:(by apply list_elem_of_In, elem_of_seqZ)).
  rewrite !andb_true_iff, !Z.eqb_eq in H. tauto.
Qed.

Lemma first_byte req : well_formed req -> 0 <= Z.lor (req_action req) (req_address req / 65536) < 256.
Proof.
  intros [(k & Hk & ->) Ha _ _ _]. assert (0 <= req_address req / 65536 < 16) by (split; [apply Z.div_pos; lia|apply Z.div_lt_upper_bound; lia]).
  rewrite (proj1 (nibbles k _ Hk H)). lia.
Qed.
(** The header: the first bytes of the message, before [k]. *)
Lemma header_wire req s (k : Z -> M trace unit) Q :
  well_formed req ->
  (forall v s', (forall e, e ∈ s -> e ∈ s') ->
     wire s' = wire s ++ [Z.lor (req_action req) (req_address req / 65536); req_address req / 256 mod 256; req_address req mod 256]
       ++ (if req_length req =? 0 then [] else [req_length req - 1]) -> returns (k v) s' Q) ->
  returns (value ← dce110.REG_UPDATE hw AUX_SW_DATA
             [(AUX_SW_INDEX, 0); (AUX_SW_DATA_RW, 0); (AUX_SW_AUTOINCREMENT_DISABLE, 1);
              (AUX_SW_DATA_DATA, dce110.COMPOSE_AUX_SW_DATA_16_20 (req_action req) (req_address req))];
           value ← dce110.REG_SET AUX_SW_DATA value [(AUX_SW_AUTOINCREMENT_DISABLE, 0); (AUX_SW_DATA_DATA, dce110.COMPOSE_AUX_SW_DATA_8_15 (req_address req))];
           value ← dce110.REG_SET AUX_SW_DATA value [(AUX_SW_DATA_DATA, dce110.COMPOSE_AUX_SW_DATA_0_7 (req_address req))];
           value ← (if negb (req_length req =? 0) then dce110.REG_SET AUX_SW_DATA value [(AUX_SW_DATA_DATA, u32 (req_length req - 1))] else mret value);
           k value) s Q.
Proof.
  intros Hw Hk. pose proof (first_byte req Hw) as Hb. destruct Hw as [_ Ha Hl _ _]. unfold DEFAULT_AUX_MAX_DATA_SIZE in Hl.
  apply returns_update. intros v0. eapply returns_run; [apply set_wire|]. eapply returns_run; [apply set_wire|]. cbn [fold_left].
  rewrite compose_high, compose_mid, compose_low by lia. destruct (Z.eqb_spec (req_length req) 0) as [En|En]; cbn [negb].
  - eapply returns_run; [done|]. apply Hk; [intros e He; by do 4 right|]. cbn [wire]. rewrite !(get_set_field _ 8) by apply data_field. change (2 ^ 8) with 256.
    rewrite (Z.mod_small (Z.lor _ _)), !Z.mod_mod by lia. by rewrite <- !app_assoc.
  - eapply returns_run; [apply set_wire|]. apply Hk; [intros e He; by do 5 right|]. cbn [wire fold_left]. rewrite !(get_set_field _ 8) by apply data_field. change (2 ^ 8) with 256.
    rewrite (Z.mod_small (Z.lor _ _)), !Z.mod_mod, u32_small, (Z.mod_small (req_length req - 1)) by (unfold is_u32; lia). by rewrite <- !app_assoc.
Qed.

Lemma message_length req : well_formed req -> Z.of_nat (length (message req)) = (if req_length req =? 0 then 3 else 4) + (if dce110.is_write req then req_length req else 0).
Proof.
  intros [_ _ Hl _ Hr]. unfold message. rewrite !length_app. cbn [length]. destruct (req_length req =? 0), (dce110.is_write req); cbn [length]; rewrite ?length_take; lia.
Qed.

(** From the announcement of the length on. *)
Lemma submit_tail req s :
  well_formed req -> wire s = [] ->
  returns (dce110.submit_channel_request hw req) s (fun _ s' => exists v w tr,
    s' = Wr AUX_SW_CONTROL v :: tr /\ get_field AUX_SW_GO v = 1 /\ wire tr = message req /\ Wr AUX_SW_CONTROL w ∈ tr /\ get_field AUX_SW_WR_BYTES w = Z.of_nat (length (message req))).
Proof.
  intros Hw Hs. pose proof (message_length req Hw) as Hml. pose proof (wf_length _ Hw) as Hl. unfold DEFAULT_AUX_MAX_DATA_SIZE in Hl. unfold dce110.submit_channel_request.
  eapply returns_bind; [by apply quiet_seq|]. intros ? s1 E1; cbn beta in E1. eapply returns_bind; [by apply quiet_seq|]. intros ? s2 E2; cbn beta in E2.
  eapply returns_bind; [by apply quiet_update|]. intros v s3 [E3 _]. eapply returns_run; [apply set_wire|]. eapply returns_bind; [by apply quiet_seq|]. cbn [wire]. intros ? s4 E4; cbn beta in E4.
  apply returns_update. intros v5. cbn [fold_left].
  match goal with |- context [Wr AUX_SW_CONTROL ?x :: _] => set (w := x) end.
  assert (Hwr : get_field AUX_SW_WR_BYTES w = Z.of_nat (length (message req))).
  { unfold w. rewrite (get_set_field _ 5) by apply wr_bytes_field. rewrite Hml. destruct (Z.eqb_spec (req_length req) 0), (dce110.is_write req); cbn [negb]; rewrite ?u32_small by (unfold is_u32; lia); apply Z.mod_small; lia. }
  clearbody w. set (s5 := Wr AUX_SW_CONTROL w :: Rd AUX_SW_CONTROL v5 :: s4). assert (Hs5 : wire s5 = []) by (cbn; congruence).
  assert (Hin : Wr AUX_SW_CONTROL w ∈ s5) by left. clearbody s5.
  apply header_wire; [done|]. intros v6 s6 Hin6 Hw6.
  assert (Hload : returns (if dce110.is_write req then dce110.load_data (Z.to_nat (req_length req)) 0 (req_data req) v6 else mret v6) s6 (fun _ s' => wire s' = message req /\ Wr AUX_SW_CONTROL w ∈ s')).
  { unfold message. rewrite Hs5 in Hw6. destruct (dce110.is_write req); [|apply returns_ret; rewrite Hw6, !app_nil_r; auto].
    eapply returns_weaken; [apply load_wire; [apply (wf_room _ Hw)|apply (wf_data _ Hw)]|]. intros ? s' [-> Hin7]. rewrite Hw6, drop_0, <- app_assoc. auto. }
  eapply returns_bind; [exact Hload|]. intros ? s7 [E7 Hin7]. eapply returns_bind; [by apply quiet_update|]. intros ? s8 [E8 Hin8].
  apply returns_update. intros v9. apply returns_ret. eexists _, w, _. split; [done|].
  split; [cbn [fold_left]; by rewrite (get_set_field _ 1)|]. split; [cbn [wire]; congruence|]. split; [right; by apply Hin8|done].
Qed.

Lemma decode_message_ok req : well_formed req ->
  decode_message (message req) = Some (req_action req, req_address req, req_length req, if dce110.is_write req then take (Z.to_nat (req_length req)) (req_data req) else []).
Proof.
  intros [(k & Hk & Ea) Ha Hl _ _]. unfold message, decode_message. cbn [app]. assert (Hx : 0 <= req_address req / 65536 < 16) by (split; [apply Z.div_pos; lia|apply Z.div_lt_upper_bound; lia]).
  rewrite Ea. destruct (nibbles k _ Hk Hx) as (-> & -> & ->).
  assert (Eaddr : req_address req / 65536 * 65536 + req_address req / 256 mod 256 * 256 + req_address req mod 256 = req_address req).
  { change 65536 with (256 * 256) at 1. rewrite <- Z.div_div by lia. pose proof (Z.div_mod (req_address req / 256) 256). pose proof (Z.div_mod (req_address req) 256). lia. }
  rewrite Eaddr. destruct (Z.eqb_spec (req_length req) 0) as [En|En].
  - rewrite En. destruct (dce110.is_write req); cbn; done.
  - cbn [app]. by replace (req_length req - 1 + 1) with (req_length req) by lia.
Qed.
End on_wire.

(** ** Commands *)

Section command.
Context {S : Type} (funcs : aux_engine_funcs S) {channel : AuxChannel funcs}.

Definition payload_fits (p : aux_payload) : Prop := is_u8 (ap_length p) /\ (Z.to_nat (ap_length p) <= length (ap_data p))%nat.
Lemma payload_request_ok p : payload_fits p -> request_fits (payload_request p) /\ known_space (payload_request p).
Proof.
  intros [Hu Hl]. split; [split; [cbn; unfold is_u8, is_u32 in *; lia|done]|]. unfold known_space, payload_request. cbn. destruct (i2c_over_aux p); auto.
Qed.
(** A buffer after the command: a write's is as it was, a read's has changed in its wanted bytes only. *)
Definition buffer_kept (p : aux_payload) (buf : list Z) : Prop :=
  length buf = length (ap_data p) /\ drop (Z.to_nat (ap_length p)) buf = drop (Z.to_nat (ap_length p)) (ap_data p) /\ (write p = true -> buf = ap_data p).

(** Enough fuel for both directions. *)
Definition rounds (maxd : Z) : nat := Nat.max read_rounds (write_rounds (defer_limit maxd)).

Lemma end_command_returns fuel maxd request s :
  channel_inv s -> known_space request -> maxd < 2 ^ 32 - 1 -> (rounds maxd <= fuel)%nat ->
  returns (end_of_transaction_command funcs fuel maxd request) s (fun _ s' => channel_inv s').
Proof.
  intros Hs Hsp Hm Hfuel. unfold rounds in Hfuel. unfold end_of_transaction_command. destruct (negb _); [by apply returns_ret|].
  assert (Hf : request_fits (I2cauxRequest (operation request) (address_space request) (address request) 0 [0])) by (split; cbn; [unfold is_u32; lia|lia]).
  destruct (_ =? _).
  - eapply returns_bind; [by apply read_command_returns; (done || lia)|]. intros [[ok b] st] s' [Hs' _]. by apply returns_ret.
  - eapply returns_bind; [by apply write_command_returns; (done || lia)|]. intros [ok st] s' [Hs' _]. by apply returns_ret.
Qed.

Lemma submit_request_returns fuel maxd p middle s :
  channel_inv s -> payload_fits p -> maxd < 2 ^ 32 - 1 -> (rounds maxd <= fuel)%nat ->
  returns (dal_aux_engine_submit_request funcs fuel maxd (payload_request p) middle) s (fun r s' => channel_inv s' /\ buffer_kept p (snd r)).
Proof.
  intros Hs Hp Hm Hfuel. destruct (payload_request_ok p Hp) as [Hf Hsp]. pose proof Hfuel as Hfuel'. unfold rounds in Hfuel'. unfold dal_aux_engine_submit_request.
  assert (Hrun : returns (if operation (payload_request p) =? I2CAUX_TRANSACTION_READ then
       '(ok, buf, _) ← read_command funcs fuel (payload_request p) true; mret (ok, buf)
     else if operation (payload_request p) =? I2CAUX_TRANSACTION_WRITE then
       '(ok, _) ← write_command funcs fuel maxd (payload_request p) true; mret (ok, payload_data (payload_request p))
     else mret (false, payload_data (payload_request p))) s (fun r s' => channel_inv s' /\ buffer_kept p (snd r))).
  { cbn [payload_request operation payload_data]. destruct (write p) eqn:Ew; cbn.
    - eapply returns_bind; [by apply write_command_returns; (done || lia)|]. intros [ok st] s' [Hs' _]. apply returns_ret. done.
    - eapply returns_bind; [by apply read_command_returns; (done || lia)|]. intros [[ok b] st] s' (Hs' & l & x & c' & [_ _ _ _ _ _ _ _ D8 D9] & [= -> -> ->]). apply returns_ret.
      split; [done|]. cbn in D8, D9 |- *. split; [done|]. split; [done|]. by rewrite Ew. }
  eapply returns_bind; [exact Hrun|]. intros [ok buf] s1 [Hs1 Hb]. destruct (_ || _).
  - eapply returns_bind; [eapply returns_bind; [by apply end_command_returns|intros ? s2 Hs2; by apply (returns_ret tt s2 (fun _ s' => channel_inv s'))]|]. intros ? s2 Hs2. by apply returns_ret.
  - eapply returns_run; [done|]. by apply returns_ret.
Qed.

Lemma submit_payloads_returns fuel maxd ps s :
  channel_inv s -> Forall payload_fits ps -> maxd < 2 ^ 32 - 1 -> (rounds maxd <= fuel)%nat ->
  returns (submit_payloads funcs fuel maxd ps) s (fun r s' => channel_inv s' /\ Forall2 buffer_kept ps (snd r)).
Proof.
  intros Hs Hps Hm Hfuel. revert s Hs. induction Hps as [|p ps Hp Hps IH]; intros s Hs; cbn [submit_payloads]; [apply returns_ret; by split|].
  eapply returns_bind; [by apply submit_request_returns|]. intros [ok buf] s1 [Hs1 Hb]. destruct ok; cbn [negb].
  - eapply returns_bind; [by apply IH|]. intros [ok bufs] s2 [Hs2 Hbs]. apply returns_ret. split; [done|]. by constructor.
  - apply returns_ret. split; [done|]. constructor; [done|]. cbn. clear. induction ps; constructor; [done|done].
Qed.
End command.

(** ** The loops end

    Whatever the channel answers, if its operations end, so do the loops: the
    code may fault but never runs out of rounds. *)

Definition ends {S A} (m : M S A) : Prop := forall s, m s <> NoFuel.
Lemma ends_runs {S A} (m : M S A) : runs m -> ends m.
Proof. intros H s. destruct (H s) as (a & s' & E & _). congruence. Qed.
Lemma ends_bind {S A B} (m : M S A) (k : A -> M S B) : ends m -> (forall a, ends (k a)) -> ends (mbind k m).
Proof. intros Hm Hk s. unfold mbind, M_bind. specialize (Hm s). destruct (m s) as [[a s']| |]; [apply Hk|done..]. Qed.
Lemma ends_ret {S A} (a : A) : ends (mret (M := M S) a).
Proof. done. Qed.
Lemma ends_fault {S A} : ends (fault (S := S) (A := A)).
Proof. done. Qed.
Lemma ends_deref {S A} (o : option A) : ends (deref (S := S) o).
Proof. by destruct o. Qed.
Lemma ends_if {S A} (b : bool) (m1 m2 : M S A) : ends m1 -> ends m2 -> ends (if b then m1 else m2).
Proof. by destruct b. Qed.
Create HintDb ends.
#[export] Hint Resolve ends_bind ends_ret ends_fault ends_deref ends_if : ends.

Record ops_end {S} (funcs : aux_engine_funcs S) : Prop := {
  oe_submit req : ends (submit_channel_request funcs req);
  oe_reply rep : ends (process_channel_reply funcs rep);
  oe_status : ends (get_channel_status funcs) }.

Section loops_end.
Context {S : Type} (funcs : aux_engine_funcs S) (Hops : ops_end funcs).

Lemma process_read_ends c : ends (process_read_request funcs c).
Proof.
  destruct Hops as [H1 H2 H3]. unfold process_read_request, process_read_reply. apply ends_bind; [done|]. intros _. apply ends_bind; [done|]. intros [op n]. destruct c as [buf len off req rst rb k v].
  destruct op; [|destruct (channel_failure _ k v); apply ends_ret..]. apply ends_if; [apply ends_ret|]. apply ends_bind; [done|]. intros rep. cbn. repeat case_match; (apply ends_ret || apply ends_fault).
Qed.
Lemma process_write_ends c : ends (process_write_request funcs c).
Proof.
  destruct Hops as [H1 H2 H3]. unfold process_write_request, process_write_reply. apply ends_bind; [done|]. intros _. apply ends_bind; [done|]. intros [op n]. destruct c as [mt buf len req rst rb k maxd rdata v].
  destruct op; [|destruct (channel_failure _ k v); apply ends_ret..]. apply ends_bind; [done|]. intros rep. cbn. repeat case_match; (apply ends_ret || apply ends_fault).
Qed.

Lemma read_loop_ends fuel c s :
  counters_ok AUX_DEFER_RETRY_COUNTER AUX_INVALID_REPLY_RETRY_COUNTER (rc_retry c) -> read_left (rc_retry c) < Z.of_nat fuel -> read_loop funcs fuel c s <> NoFuel.
Proof.
  revert c s. induction fuel as [|fuel IH]; intros c s Hk Hf; [destruct Hk as (? & ? & ? & ? & ?); limits; lia|].
  destruct c as [buf len off req rst rb k v]. cbn [read_loop rc_retry] in *. unfold memset_zero. destruct (_ <=? _)%nat; [|done].
  match goal with |- mbind _ _ s <> _ => unfold mbind at 1, M_bind at 1; unfold mret at 1, M_ret at 1 end.
  match goal with |- mbind _ (process_read_request funcs ?c0) s <> _ => set (c := c0); pose proof (process_read_ends c s) as He; unfold mbind, M_bind; destruct (process_read_request funcs c s) as [[c' s']| |] eqn:E; [|done..] end.
  apply process_read_request_inv in E as (ans & _ & ->). destruct (again _) eqn:Hg; [|done]. destruct (read_progress ans c Hk Hg) as (Hk' & _ & Hl). apply IH; [done|]. cbn [c rc_retry] in Hl. lia.
Qed.
Lemma write_loop_ends fuel maxd c s :
  AUX_DEFER_RETRY_COUNTER <= maxd < 2 ^ 32 - 1 -> max_defer_retry c = maxd -> counters_ok maxd AUX_DEFER_RETRY_COUNTER (wc_retry c) -> transaction_complete (wc_verdict c) = false ->
  write_left maxd (wc_retry c) < Z.of_nat fuel -> write_loop funcs fuel c s <> NoFuel.
Proof.
  intros Hm. assert (Hm0 : 0 <= maxd) by (limits; lia). revert c s. induction fuel as [|fuel IH]; intros c s Em Hk Hv Hf; [pose proof (write_left_nonneg _ _ Hm0 Hk); lia|].
  destruct c as [mt buf len req rst rb k maxd' rdata v]. cbn [write_loop wc_retry max_defer_retry wc_verdict] in *. subst maxd'.
  match goal with |- mbind _ (process_write_request funcs ?c0) s <> _ => set (c := c0); pose proof (process_write_ends c s) as He; unfold mbind, M_bind; destruct (process_write_request funcs c s) as [[c' s']| |] eqn:E; [|done..] end.
  apply process_write_request_inv in E as (ans & _ & -> & Hn). destruct (again _) eqn:Hg; [|done].
  destruct (write_failure_progress maxd ans c ltac:(unfold is_u32; limits; lia) Hm0 eq_refl Hk Hv Hg Hn) as (Hk' & Hl). cbn [c wc_retry] in Hl. apply IH; [|done| |lia].
  - unfold c. clear. destruct ans; cbn; unfold apply_write_reply; repeat case_match; done.
  - unfold again in Hg. apply andb_true_iff in Hg as [_ Hg]. by apply negb_true_iff in Hg.
Qed.

Lemma read_command_ends fuel request mot : (read_rounds <= fuel)%nat -> ends (read_command funcs fuel request mot).
Proof.
  intros Hf. unfold read_command. assert (Hl : forall c, rc_retry c = start_retry -> ends (read_loop funcs fuel c)).
  { intros c E s. apply read_loop_ends; rewrite E; [unfold start_retry; limits; lia|]. assert (read_left start_retry = 223) by done. unfold read_rounds in Hf. lia. }
  repeat apply ends_if; auto using ends_bind, ends_ret.
Qed.
Lemma write_command_ends fuel maxd request mot : maxd < 2 ^ 32 - 1 -> (write_rounds (defer_limit maxd) <= fuel)%nat -> ends (write_command funcs fuel maxd request mot).
Proof.
  intros Hm Hf. unfold write_command. fold (defer_limit maxd). pose proof (defer_limit_range maxd Hm) as Hr.
  assert (Hl : forall c, wc_retry c = start_retry -> max_defer_retry c = defer_limit maxd -> transaction_complete (wc_verdict c) = false -> ends (write_loop funcs fuel c)).
  { intros c E E2 E3 s. apply (write_loop_ends fuel (defer_limit maxd)); try done; rewrite E; [unfold start_retry; limits; lia|]. unfold write_rounds in Hf. lia. }
  repeat apply ends_if; auto using ends_bind, ends_ret.
Qed.
Lemma submit_payloads_ends fuel maxd ps : maxd < 2 ^ 32 - 1 -> (rounds maxd <= fuel)%nat -> ends (submit_payloads funcs fuel maxd ps).
Proof.
  intros Hm Hf. unfold rounds in Hf. pose proof (fun r b => read_command_ends fuel r b ltac:(lia)) as Hr. pose proof (fun r b => write_command_ends fuel maxd r b Hm ltac:(lia)) as Hw.
  assert (He : forall r, ends (end_of_transaction_command funcs fuel maxd r)).
  { intros r. unfold end_of_transaction_command. apply ends_if; [apply ends_ret|]. apply ends_if; (apply ends_bind; [done|]); [intros [[ok b] st]|intros [ok st]]; apply ends_ret. }
  induction ps as [|p ps IH]; cbn [submit_payloads]; [apply ends_ret|]. apply ends_bind.
  - unfold dal_aux_engine_submit_request. apply ends_bind; [|intros [ok b]; auto with ends].
    apply ends_if; [apply ends_bind; [done|]; intros [[ok b] st]; apply ends_ret|]. apply ends_if; [apply ends_bind; [done|]; intros [ok st]; apply ends_ret|apply ends_ret].
  - intros [ok buf]. apply ends_if; [apply ends_ret|]. apply ends_bind; [done|]. intros [ok' bufs]. apply ends_ret.
Qed.
End loops_end.

(** The operations of the DCE 11 block end. *)
Lemma dce110_ops_end hw timeout_period : ops_end (dce110.aux_engine_funcs hw timeout_period).
Proof.
  assert (Hload : forall n i data v, ends (dce110.load_data n i data v)).
  { induction n; intros i data v; cbn [dce110.load_data]; auto 10 using ends_runs, runs_set with ends. }
  assert (Hstore : forall n i data, ends (dce110.store_data hw n i data)).
  { induction n; intros i data; cbn [dce110.store_data]; [apply ends_ret|]. apply ends_bind; [apply ends_runs, runs_get|]. intros [v b]. auto with ends. }
  split; cbn [dce110.aux_engine_funcs submit_channel_request process_channel_reply get_channel_status].
  - intros req. unfold dce110.submit_channel_request. repeat (apply ends_bind; [auto using ends_runs, runs_seq, runs_update, runs_set with ends|intros ?]). apply ends_ret.
  - intros rep. unfold dce110.process_channel_reply. apply ends_bind; [apply ends_runs, runs_get|]. intros [v n]. apply ends_if; [|apply ends_ret].
    do 3 (apply ends_bind; [apply ends_runs; auto using runs_update, runs_set|intros ?]). apply ends_bind; [apply ends_runs, runs_get|]. intros [w b]. auto 10 with ends.
  - unfold dce110.get_channel_status. apply ends_bind; [apply ends_runs, runs_wait|]. intros v. auto 10 with ends.
Qed.

(** ** Claims *)

(** A display whose every reply is an acknowledge with the byte [0x42]. *)
Definition answering (tr : trace) (r : aux_reg) : Z :=
  match r with
  | AUX_SW_STATUS => 0x02000001
  | AUX_SW_DATA => match tr with Rd AUX_SW_DATA _ :: _ => 0x4200 | _ => 0 end
  | AUX_ARB_CONTROL => 4
  | _ => 0
  end.
Lemma answering_sane : hw_sane answering.
Proof. split; intros tr; by vm_compute. Qed.
(** A display that acknowledges without data. *)
Definition accepting (tr : trace) (r : aux_reg) : Z := match r with AUX_SW_STATUS => 0x01000001 | AUX_ARB_CONTROL => 4 | _ => 0 end.
Lemma accepting_sane : hw_sane accepting.
Proof. split; intros tr; by vm_compute. Qed.

(** C14: A read over the AUX channel never goes beyond 224 exchanges, whatever
    the channel and the display answer.  Over a channel that reports at most
    sixteen bytes and delivers the replies it has announced ([AuxChannel]; the
    block of DCE 11 does as long as a reply it reported is still there when it
    is fetched), the read returns: it reports success exactly when the last
    answer is an acknowledge with the bytes that were still wanted, after
    answers that asked for a retry; every exchange carried the same command and
    address; nothing but the wanted bytes of the buffer has changed, and unless
    earlier acknowledges carried bytes, the buffer is what the last reply left. *)
Theorem aux_read_delivers {S} (funcs : aux_engine_funcs S) fuel request mot s :
  request_fits request -> known_space request -> (read_rounds <= fuel)%nat ->
  (ops_end funcs -> read_command funcs fuel request mot s <> NoFuel) /\
  forall channel : AuxChannel funcs, channel_inv s -> exists ok buf st s' l x,
    read_command funcs fuel request mot s = Ok ((ok, buf, st), s') /\
    transaction funcs s (l ++ [x]) s' /\ (length (l ++ [x]) <= read_rounds)%nat /\
    Forall (fun x => asks_like (read_request request mot) (fst x)) (l ++ [x]) /\ Forall (fun x => retryable (snd x)) l /\
    (ok = true <-> exists b, snd x = Reply REPLY_AUX_ACK (payload_length request - acked_all l) b) /\
    (st = Some STATUS_SUCCEEDED <-> ok = true) /\
    length buf = length (payload_data request) /\ drop (Z.to_nat (payload_length request)) buf = drop (Z.to_nat (payload_length request)) (payload_data request) /\
    (ok = true -> acked_all l = 0 -> snd x = Reply REPLY_AUX_ACK (payload_length request) buf).
Proof.
  intros Hf Hsp Hfuel. split; [intros Hops; by apply read_command_ends|]. intros channel Hs.
  destruct (read_command_returns funcs fuel request mot s Hs Hf Hsp Hfuel) as (r & s' & E & _ & l & x & c' & [D1 D0 D2 D3 D4 D5 D6 D7 D8 D9] & ->).
  exists (operation_succeeded (rc_verdict c')), (rc_buffer c'), (status (rc_verdict c')), s', l, x. cbn [read_context rc_request rc_retry current_read_length rc_buffer] in *.
  split; [done|]. split; [done|]. split; [|do 6 (split; [done|]); intros Hok H0; apply D5 in Hok as [b Eb]; rewrite H0, Z.sub_0_r in Eb; rewrite Eb; f_equal; symmetry; by apply (D7 _ _ _ Eb)].
  rewrite length_app. cbn [length]. unfold read_rounds. assert (read_left start_retry = 223) by done. lia.
Qed.
Lemma aux_read_delivers_witness :
  exists s', read_command (dce110.aux_engine_funcs answering 1600) 224 (I2cauxRequest I2CAUX_TRANSACTION_READ ADDRESS_SPACE_DPCD 0x202 1 [0; 7]) true [] = Ok ((true, [0x42; 7], Some STATUS_SUCCEEDED), s').
Proof.
  assert (Hf : request_fits (I2cauxRequest I2CAUX_TRANSACTION_READ ADDRESS_SPACE_DPCD 0x202 1 [0; 7])) by (split; [done|cbn; lia]).
  destruct (@aux_read_delivers trace (dce110.aux_engine_funcs answering 1600) 224
    (I2cauxRequest I2CAUX_TRANSACTION_READ ADDRESS_SPACE_DPCD 0x202 1 [0; 7]) true [] Hf (or_introl eq_refl) (Nat.le_refl 224)) as [_ H].
  destruct (H (dce110_channel answering 1600 answering_sane) I) as (ok & buf & st & s' & l & x & E & _).
  assert (Ev : match read_command (dce110.aux_engine_funcs answering 1600) 224 (I2cauxRequest I2CAUX_TRANSACTION_READ ADDRESS_SPACE_DPCD 0x202 1 [0; 7]) true [] with Ok (r, _) => r = (true, [0x42; 7], Some STATUS_SUCCEEDED) | _ => False end) by (vm_compute; reflexivity).
  rewrite E in Ev. exists s'. by rewrite <- Ev.
Defined.

(** C15: A write over the AUX channel never makes more exchanges than the retry
    limits allow, whatever the channel and the display answer.  Over a channel
    that reports at most sixteen bytes and delivers the replies it has announced
    ([AuxChannel]) the write returns, and it reports success exactly when the
    last answer is an acknowledge of everything.  The data is sent until the
    display has it, and from the answer that says so on the requests only query
    the status. *)
Theorem aux_write_delivers {S} (funcs : aux_engine_funcs S) fuel maxd request middle s :
  request_fits request -> known_space request -> maxd < 2 ^ 32 - 1 -> (write_rounds (defer_limit maxd) <= fuel)%nat ->
  (ops_end funcs -> write_command funcs fuel maxd request middle s <> NoFuel) /\
  forall channel : AuxChannel funcs, channel_inv s -> exists ok st s' l x,
    write_command funcs fuel maxd request middle s = Ok ((ok, st), s') /\
    transaction funcs s (l ++ [x]) s' /\ (length (l ++ [x]) <= write_rounds (defer_limit maxd))%nat /\
    sends middle (write_request request middle) (l ++ [x]) /\ Forall (fun x => retryable (snd x)) l /\
    (ok = true <-> exists b, snd x = Reply REPLY_AUX_ACK 0 b) /\ (st = Some STATUS_SUCCEEDED <-> ok = true).
Proof.
  intros Hf Hsp Hm Hfuel. split; [intros Hops; by apply write_command_ends|]. intros channel Hs.
  destruct (write_command_returns funcs fuel maxd request middle s Hs Hf Hsp Hm Hfuel) as (r & s' & E & _ & l & x & c' & [D1 D2 D3 D4 D5 D6] & ->).
  exists (operation_succeeded (wc_verdict c')), (status (wc_verdict c')), s', l, x. split; [done|]. split; [done|]. cbn [write_context mot max_defer_retry wc_retry] in *.
  split; [rewrite length_app; cbn [length]; unfold write_rounds; lia|]. split; [|done].
  assert (Er : wc_request (write_ready (write_context (defer_limit maxd) request middle)) = write_request request middle) by (unfold write_context, channel_request; by destruct (address_space request =? _)).
  by rewrite Er in D2.
Qed.
Lemma aux_write_delivers_witness :
  exists s', write_command (dce110.aux_engine_funcs accepting 1600) 220 0 (I2cauxRequest I2CAUX_TRANSACTION_WRITE ADDRESS_SPACE_I2C 0xA0 1 [5]) true [] = Ok ((true, Some STATUS_SUCCEEDED), s').
Proof.
  assert (Hf : request_fits (I2cauxRequest I2CAUX_TRANSACTION_WRITE ADDRESS_SPACE_I2C 0xA0 1 [5])) by (split; [done|cbn; lia]).
  assert (Hr : (write_rounds (defer_limit 0) <= 220)%nat) by (apply Nat.leb_le; by vm_compute).
  destruct (@aux_write_delivers trace (dce110.aux_engine_funcs accepting 1600) 220 0
    (I2cauxRequest I2CAUX_TRANSACTION_WRITE ADDRESS_SPACE_I2C 0xA0 1 [5]) true [] Hf (or_intror eq_refl) eq_refl Hr) as [_ H].
  destruct (H (dce110_channel accepting 1600 accepting_sane) I) as (ok & st & s' & l & x & E & _).
  assert (Ev : match write_command (dce110.aux_engine_funcs accepting 1600) 220 0 (I2cauxRequest I2CAUX_TRANSACTION_WRITE ADDRESS_SPACE_I2C 0xA0 1 [5]) true [] with Ok (r, _) => r = (true, Some STATUS_SUCCEEDED) | _ => False end) by (vm_compute; reflexivity).
  rewrite E in Ev. exists s'. by rewrite <- Ev.
Defined.

(** C36: What is put on the wire for a request of the AUX syntax decodes to the
    request, whatever the registers read: its command, its twenty bits of
    address, its length and, for a write, its data.  The number of bytes
    announced is the length of the message, and the message is complete when
    the transaction is started. *)
Theorem aux_request_on_wire hw req :
  well_formed req ->
  exists v tr,
    dce110.submit_channel_request hw req [] = Ok (tt, Wr AUX_SW_CONTROL v :: tr) /\ get_field AUX_SW_GO v = 1 /\
    decode_message (wire tr) = Some (req_action req, req_address req, req_length req, if dce110.is_write req then take (Z.to_nat (req_length req)) (req_data req) else []) /\
    exists w, Wr AUX_SW_CONTROL w ∈ tr /\ get_field AUX_SW_WR_BYTES w = Z.of_nat (length (wire tr)).
Proof.
  intros Hw. destruct (submit_tail hw req [] Hw eq_refl) as ([] & s' & E & v & w & tr & -> & Hgo & Hwire & Hin & Hlen). exists v, tr. split; [done|]. split; [done|].
  rewrite Hwire. split; [by apply decode_message_ok|]. by exists w.
Qed.
Lemma aux_request_on_wire_witness :
  exists v tr, dce110.submit_channel_request answering (AuxRequest AUX_TRANSACTION_TYPE_DP ACTION_DP_WRITE 0x12345 0 2 [1; 2]) [] = Ok (tt, Wr AUX_SW_CONTROL v :: tr) /\
    decode_message (wire tr) = Some (0x80, 0x12345, 2, [1; 2]).
Proof.
  destruct (aux_request_on_wire answering (AuxRequest AUX_TRANSACTION_TYPE_DP ACTION_DP_WRITE 0x12345 0 2 [1; 2])) as (v & tr & E & _ & Hd & _).
  - constructor; cbn; [by exists 8|lia|unfold DEFAULT_AUX_MAX_DATA_SIZE; lia|repeat constructor; unfold is_u8; lia|lia].
  - exists v, tr. split; [exact E|exact Hd].
Defined.

(** C37: On the hardware, the transactions of a command of AUX payloads end
    within the retry limits whatever the registers read and the display answers.
    When a reply that the block has reported is still there when it is fetched,
    and has at most sixteen bytes, the command returns, whether or not the pins
    and the block can be taken: no buffer is written outside the bytes its read
    asked for, and the data of the writes is not changed. *)
Theorem aux_command_ends hw timeout_period reset_mask ddc_open ddc_close fuel cmd s :
  runs ddc_open -> runs ddc_close -> max_defer_write_retry cmd < 2 ^ 32 - 1 -> (rounds (max_defer_write_retry cmd) <= fuel)%nat ->
  let run := dal_i2caux_submit_aux_command (dce110.aux_engine_funcs hw timeout_period)
      (dal_aux_engine_acquire ddc_open ddc_close (dce110.acquire_engine hw reset_mask)) (dal_i2caux_release_engine (dce110.release_engine hw) ddc_close) fuel cmd s in
  run <> NoFuel /\
  (hw_sane hw -> Forall payload_fits (payloads cmd) -> exists ok bufs s', run = Ok ((ok, bufs), s') /\ Forall2 buffer_kept (payloads cmd) bufs).
Proof.
  intros Ho Hc Hm Hfuel. assert (Ha : runs (dal_aux_engine_acquire ddc_open ddc_close (dce110.acquire_engine hw reset_mask))).
  { unfold dal_aux_engine_acquire. apply runs_bind; [done|]. intros []; cbn [negb]; auto using runs_acquire with runs. }
  assert (Hrel : runs (dal_i2caux_release_engine (dce110.release_engine hw) ddc_close)).
  { unfold dal_i2caux_release_engine, dce110.release_engine. apply runs_bind; [|done]. auto using runs_update with runs. }
  cbv zeta. split.
  { unfold dal_i2caux_submit_aux_command. apply ends_bind; [by apply ends_runs|]. intros got. apply ends_if; [apply ends_ret|].
    apply ends_bind; [by apply submit_payloads_ends; [apply dce110_ops_end|..]|]. intros r. apply ends_bind; [by apply ends_runs|]. intros _. apply ends_ret. }
  intros Hhw Hp. assert (H : returns (dal_i2caux_submit_aux_command (dce110.aux_engine_funcs hw timeout_period)
      (dal_aux_engine_acquire ddc_open ddc_close (dce110.acquire_engine hw reset_mask)) (dal_i2caux_release_engine (dce110.release_engine hw) ddc_close) fuel cmd) s (fun r _ => Forall2 buffer_kept (payloads cmd) (snd r)));
    [|destruct H as ([ok bufs] & s' & E & H); by exists ok, bufs, s'].
  unfold dal_i2caux_submit_aux_command. eapply returns_bind; [apply Ha|].
  intros got s1 _. destruct got; cbn [negb]; [|apply returns_ret; cbn; clear; induction (payloads cmd); by constructor].
  eapply returns_bind; [apply (submit_payloads_returns _ (channel := dce110_channel hw timeout_period Hhw)); done|]. intros r s2 [_ Hb].
  eapply returns_bind; [apply Hrel|]. intros ? s3 _; apply returns_ret; exact Hb.
Qed.
Lemma aux_command_ends_witness :
  exists s', dal_i2caux_submit_aux_command (dce110.aux_engine_funcs answering 1600)
    (dal_aux_engine_acquire (mret true) (mret tt) (dce110.acquire_engine answering 0x10)) (dal_i2caux_release_engine (dce110.release_engine answering) (mret tt)) 224
    (AuxCommand [AuxPayload false false 0x202 1 [0]] 0 0) [] = Ok ((true, [[0x42]]), s').
Proof.
  assert (Hp : Forall payload_fits [AuxPayload false false 0x202 1 [0]]) by (repeat constructor; cbn; (done || lia)).
  assert (Hr : (rounds 0 <= 224)%nat) by (apply Nat.leb_le; by vm_compute).
  destruct (aux_command_ends answering 1600 0x10 (mret true) (mret tt) 224 (AuxCommand [AuxPayload false false 0x202 1 [0]] 0 0) [] (runs_ret true) (runs_ret tt) eq_refl Hr) as [_ H].
  destruct (H answering_sane Hp) as (ok & bufs & s' & E & _).
  assert (Ev : match dal_i2caux_submit_aux_command (dce110.aux_engine_funcs answering 1600)
    (dal_aux_engine_acquire (mret true) (mret tt) (dce110.acquire_engine answering 0x10)) (dal_i2caux_release_engine (dce110.release_engine answering) (mret tt)) 224
    (AuxCommand [AuxPayload false false 0x202 1 [0]] 0 0) [] with Ok (r, _) => r = (true, [[0x42]]) | _ => False end) by (vm_compute; reflexivity).
  rewrite E in Ev. exists s'. by rewrite <- Ev.
Defined.

(** ** Observations *)

(** A channel that plays a script of replies. *)
Definition script : aux_engine_funcs (list (list Z)) :=
  AuxFuncs _ (fun _ => mret tt)
    (fun rep l => match l with [] => Fault | d :: l => Ok (AuxReply (Some REPLY_AUX_ACK) (reply_length rep) (d ++ drop (length d) (reply_data rep)), l) end)
    (fun l => match l with [] => Ok ((AUX_CHANNEL_OPERATION_FAILED_TIMEOUT, 0), l) | d :: _ => Ok ((AUX_CHANNEL_OPERATION_SUCCEEDED, Z.of_nat (length d)), l) end).
(** Two bytes that arrive in two replies: the read succeeds, the second reply
    has overwritten the first one and the last byte was never stored. *)
Lemma short_read_overwrites :
  read_command script 224 (I2cauxRequest I2CAUX_TRANSACTION_READ ADDRESS_SPACE_I2C 0xA1 2 [9; 9]) true [[1]; [2]] = Ok ((true, [2; 0], Some STATUS_SUCCEEDED), []).
Proof. by vm_compute. Qed.
(** A reply of twenty bytes to a write is stored outside [reply_data]. *)
Lemma long_write_reply_overflows :
  write_command (dce110.aux_engine_funcs (fun _ r => match r with AUX_SW_STATUS => 0x15000001 | _ => 0 end) 1600) 220 0
    (I2cauxRequest I2CAUX_TRANSACTION_WRITE ADDRESS_SPACE_DPCD 0x100 1 [0]) true [] = Fault.
Proof. by vm_compute. Qed.
(** The reply that was reported has gone when it is to be fetched (a hot plug):
    the read goes on with a status that was never set. *)
Lemma hot_plug_reads_garbage :
  read_command (dce110.aux_engine_funcs (fun tr r => match r, tr with AUX_SW_STATUS, Rd AUX_SW_STATUS _ :: _ => 1 | AUX_SW_STATUS, _ => 0x02000001 | _, _ => 0 end) 1600) 224
    (I2cauxRequest I2CAUX_TRANSACTION_READ ADDRESS_SPACE_DPCD 0x202 1 [0]) true [] = Fault.
Proof. by vm_compute. Qed.
