(* ===== verification/I2cSw.v ===== *)
(** * The software I2C engine ([dal/dc/i2caux/i2c_sw_engine.c], [i2c_engine.c], [i2caux.c])

    The engine drives the clock and the data line of a DDC bus one edge at a
    time and samples them in between.  The state is the sequence of edges and
    samples, the last one first; what a sample sees is an arbitrary function
    of the sequence so far, so that a display may stretch the clock, hold the
    data line, acknowledge or not.  Delays have no effect and are left out.

    Proved: a transfer that reports success has put exactly the start
    condition, the address, the data and the acknowledge slots of the I2C
    standard on the bus, all of them acknowledged, and has read what the
    display showed in its slots; the data line changes while the clock is high
    only for start and stop conditions. *)

From stdpp Require Import base numbers list.
From S2P Require Import Prelude CMonad Aux.

(** ** The bus *)

Inductive line := SCL | SDA.
#[global] Instance line_eq_dec : EqDecision line.
Proof. solve_decision. Defined.
Inductive edge := Drive (l : line) (b : bool) | Sample (l : line) (b : bool).
Notation edges := (list edge).

Definition I2C_SW_RETRIES : nat := 10.
Definition I2C_SW_TIMEOUT_DELAY : Z := 3000.
Definition I2CAUX_DEFAULT_I2C_SW_SPEED : Z := 50.

(** The result of a transfer, of which the engine distinguishes these. *)
Inductive i2c_channel_operation_result :=
  | I2C_CHANNEL_OPERATION_SUCCEEDED
  | I2C_CHANNEL_OPERATION_FAILED
  | I2C_CHANNEL_OPERATION_ENGINE_BUSY
  | I2C_CHANNEL_OPERATION_TIMEOUT
  | I2C_CHANNEL_OPERATION_NO_RESPONSE.

Record i2c_request_transaction_data := I2cRequest { i2c_action : Z; i2c_address : Z; i2c_length : Z; i2c_data : list Z }.

(** [clock_delay] and [speed] of [struct i2c_sw_engine]. *)
Record i2c_sw_engine := SwEngine { clock_delay : Z; speed : Z }.

Definition dal_i2c_sw_engine_set_speed (s : Z) : i2c_sw_engine :=
  let s := if s =? 0 then I2CAUX_DEFAULT_I2C_SW_SPEED else s in
  let d := 1000 / s in
  SwEngine (if d <? 12 then 12 else d) s.

Section engine.
(** What a line shows after the edges so far. *)
Context (bus : edges -> line -> bool).

Definition read_bit_from_ddc (l : line) : M edges bool := fun tr => let b := bus tr l in Ok (b, Sample l b :: tr).
Definition write_bit_to_ddc (l : line) (b : bool) : M edges unit := fun tr => Ok (tt, Drive l b :: tr).

(** [n] polls after the first one. *)
Fixpoint poll_line (l : line) (n : nat) : M edges bool :=
  b ← read_bit_from_ddc l;
  if (b : bool) then mret true
  else match n with O => mret false | S n => poll_line l n end.

(** [clock_delay_div_4] of the transfer; a division by zero faults. *)
Definition wait_for_scl_high (div4 : Z) : M edges bool :=
  if div4 =? 0 then fault else poll_line SCL (Z.to_nat (I2C_SW_TIMEOUT_DELAY / div4)).

(** The [do] loop; [n] retries are left. *)
Fixpoint start_loop (div4 : Z) (n : nat) : M edges bool :=
  write_bit_to_ddc SDA true;;
  sda ← read_bit_from_ddc SDA;
  if negb sda then match n with O => mret false | S n => start_loop div4 n end
  else
    write_bit_to_ddc SCL true;;
    high ← wait_for_scl_high div4;
    if negb high then mret false
    else
      write_bit_to_ddc SDA false;;
      write_bit_to_ddc SCL false;;
      mret true.
Definition start_sync (div4 : Z) : M edges bool := write_bit_to_ddc SCL true;; start_loop div4 I2C_SW_RETRIES.

Definition stop_sync (div4 : Z) : M edges bool :=
  write_bit_to_ddc SCL false;;
  write_bit_to_ddc SDA false;;
  write_bit_to_ddc SCL true;;
  high ← wait_for_scl_high div4;
  if negb high then mret false
  else
    write_bit_to_ddc SDA true;;
    poll_line SDA 2.

(** The bits from [shift] down. *)
Fixpoint write_bits (div4 : Z) (shift : nat) (byte : Z) : M edges bool :=
  write_bit_to_ddc SDA (negb (Z.land (Z.shiftr byte (Z.of_nat shift)) 1 =? 0));;
  write_bit_to_ddc SCL true;;
  high ← wait_for_scl_high div4;
  if negb high then mret false
  else
    write_bit_to_ddc SCL false;;
    match shift with O => mret true | S k => write_bits div4 k byte end.
Definition write_byte (div4 : Z) (byte : Z) : M edges bool :=
  sent ← write_bits div4 7 byte;
  if negb sent then mret false
  else
    write_bit_to_ddc SDA true;;
    write_bit_to_ddc SCL true;;
    high ← wait_for_scl_high div4;
    if negb high then mret false
    else
      sda ← read_bit_from_ddc SDA;
      write_bit_to_ddc SCL false;;
      mret (negb sda).

(** The bits from [shift] down, into [data]; [None] when the clock is held. *)
Fixpoint read_bits (div4 : Z) (shift : nat) (data : Z) : M edges (option Z) :=
  write_bit_to_ddc SCL true;;
  high ← wait_for_scl_high div4;
  if negb high then mret None
  else
    sda ← read_bit_from_ddc SDA;
    let data := if sda : bool then Z.lor data (Z.shiftl 1 (Z.of_nat shift)) else data in
    write_bit_to_ddc SCL false;;
    match shift with O => mret (Some data) | S k => read_bits div4 k data end.
(** The result, and the byte when all of it was read. *)
Definition read_byte (div4 : Z) (more : bool) : M edges (bool * option Z) :=
  data ← read_bits div4 7 0;
  match data with
  | None => mret (false, None)
  | Some byte =>
      write_bit_to_ddc SDA (negb more);;
      write_bit_to_ddc SCL true;;
      high ← wait_for_scl_high div4;
      if negb high then mret (false, Some byte)
      else
        write_bit_to_ddc SCL false;;
        write_bit_to_ddc SDA true;;
        mret (true, Some byte)
  end.

(** The loops over the data: [n] bytes from [i] on. *)
Fixpoint write_data (div4 : Z) (n i : nat) (data : list Z) : M edges bool :=
  match n with
  | O => mret true
  | S n =>
      b ← deref (data !! i);
      ok ← write_byte div4 b;
      if negb ok then mret false else write_data div4 n (S i) data
  end.
Definition i2c_write (div4 address length : Z) (data : list Z) : M edges bool :=
  ok ← write_byte div4 address;
  if negb ok then mret false else write_data div4 (Z.to_nat length) 0 data.

Fixpoint read_data (div4 : Z) (n i : nat) (data : list Z) : M edges (bool * list Z) :=
  match n with
  | O => mret (true, data)
  | S n =>
      '(ok, b) ← read_byte div4 (negb (Nat.eqb n 0));
      data ← (match b with
              | None => mret data
              | Some b => if (i <? length data)%nat then mret (<[i := b]> data) else fault
              end);
      if negb ok then mret (false, data) else read_data div4 n (S i) data
  end.
Definition i2c_read (div4 address length : Z) (data : list Z) : M edges (bool * list Z) :=
  ok ← write_byte div4 address;
  if negb ok then mret (false, data) else read_data div4 (Z.to_nat length) 0 data.

(** The status of the transfer and the buffer. *)
Definition dal_i2c_sw_engine_submit_channel_request (engine : i2c_sw_engine) (req : i2c_request_transaction_data) :
    M edges (i2c_channel_operation_result * list Z) :=
  let div4 := u16 (Z.shiftr (clock_delay engine) 2) in
  result ← start_sync div4;
  '(result, data) ←
    (if negb result then mret (false, i2c_data req)
     else if (i2c_action req =? ACTION_I2C_WRITE) || (i2c_action req =? ACTION_I2C_WRITE_MOT) then
       ok ← i2c_write div4 (i2c_address req) (i2c_length req) (i2c_data req); mret (ok, i2c_data req)
     else if (i2c_action req =? ACTION_I2C_READ) || (i2c_action req =? ACTION_I2C_READ_MOT) then
       i2c_read div4 (i2c_address req) (i2c_length req) (i2c_data req)
     else mret (false, i2c_data req));
  result ←
    (if negb result || (i2c_action req =? ACTION_I2C_WRITE) || (i2c_action req =? ACTION_I2C_READ) then
       stopped ← stop_sync div4; mret (result && stopped)
     else mret result);
  mret (if (result : bool) then I2C_CHANNEL_OPERATION_SUCCEEDED else I2C_CHANNEL_OPERATION_FAILED, data).

(** The line is never aborted. *)
Definition dal_ddc_check_line_aborted : bool := false.
Definition dal_i2c_sw_engine_get_channel_status : i2c_channel_operation_result :=
  if dal_ddc_check_line_aborted then I2C_CHANNEL_OPERATION_FAILED else I2C_CHANNEL_OPERATION_SUCCEEDED.

(** The loop that asks for the status runs once: the status is never that the engine is busy. *)
Definition dal_i2c_sw_engine_submit_request (engine : i2c_sw_engine) (request : i2caux_transaction_request) (middle_of_transaction : bool) :
    M edges (bool * list Z) :=
  let go action :=
    '(status, data) ← dal_i2c_sw_engine_submit_channel_request engine
      (I2cRequest action (u8 (address request)) (payload_length request) (payload_data request));
    match status with
    | I2C_CHANNEL_OPERATION_ENGINE_BUSY | I2C_CHANNEL_OPERATION_FAILED => mret (false, data)
    | _ =>
        match dal_i2c_sw_engine_get_channel_status with
        | I2C_CHANNEL_OPERATION_SUCCEEDED => mret (true, data)
        | I2C_CHANNEL_OPERATION_ENGINE_BUSY => nofuel
        | _ => mret (false, data)
        end
    end in
  if operation request =? I2CAUX_TRANSACTION_READ then go (if middle_of_transaction then ACTION_I2C_READ_MOT else ACTION_I2C_READ)
  else if operation request =? I2CAUX_TRANSACTION_WRITE then go (if middle_of_transaction then ACTION_I2C_WRITE_MOT else ACTION_I2C_WRITE)
  else mret (false, payload_data request).

(** ** Commands *)

Record i2c_payload := I2cPayload { ip_write : bool; ip_address : Z; ip_length : Z; ip_data : list Z }.

Definition i2c_payload_request (p : i2c_payload) : i2caux_transaction_request :=
  I2cauxRequest (if ip_write p then I2CAUX_TRANSACTION_WRITE else I2CAUX_TRANSACTION_READ) ADDRESS_SPACE_I2C
    (Z.lor (Z.shiftl (ip_address p) 1) (if ip_write p then 0 else 1)) (ip_length p) (ip_data p).

Fixpoint submit_i2c_payloads (engine : i2c_sw_engine) (ps : list i2c_payload) : M edges (bool * list (list Z)) :=
  match ps with
  | [] => mret (true, [])
  | p :: ps =>
      '(ok, buf) ← dal_i2c_sw_engine_submit_request engine (i2c_payload_request p) (negb (Nat.eqb (length ps) 0));
      if negb ok then mret (false, buf :: (ip_data <$> ps))
      else
        '(ok, bufs) ← submit_i2c_payloads engine ps;
        mret (ok, buf :: bufs)
  end.

(** [dal_i2c_engine_acquire] with the engine's [acquire_engine]: two attempts; the set-up always succeeds. *)
Definition dal_i2c_engine_acquire (ddc_open : M edges bool) : M edges bool :=
  got ← ddc_open;
  if got : bool then mret true else ddc_open.

(** The command, for a line that has a software engine and no hardware engine. *)
Definition dal_i2caux_submit_i2c_command (ddc_open : M edges bool) (ddc_close : M edges unit) (cmd_speed : Z) (ps : list i2c_payload) :
    M edges (bool * list (list Z)) :=
  got ← dal_i2c_engine_acquire ddc_open;
  if negb got then mret (false, ip_data <$> ps)
  else
    r ← submit_i2c_payloads (dal_i2c_sw_engine_set_speed cmd_speed) ps;
    ddc_close;;
    mret r.
End engine.

(** ** What is on the bus *)

(** A data bit with the level the engine drives and what it sampled, if it did. *)
Inductive bus_event := Start | Stop | Bit (driven : bool) (sampled : option bool).

(** The levels driven, whether the data line has kept its level since the
    clock went high, the sample taken since then, and the events so far. *)
Record monitor := Mon { m_scl : bool; m_sda : bool; m_clean : bool; m_sample : option bool; m_events : list bus_event }.
Definition step_monitor (e : edge) (m : monitor) : monitor :=
  let 'Mon scl sda clean smp evs := m in
  match e with
  | Drive SCL true => if scl then m else Mon true sda true None evs
  | Drive SCL false => if scl then Mon false sda false None (evs ++ if clean then [Bit sda smp] else []) else m
  | Drive SDA b =>
      if Bool.eqb b sda then m
      else if scl then Mon scl b false smp (evs ++ [if b then Stop else Start])
      else Mon scl b clean smp evs
  | Sample SDA b => if scl then Mon scl sda clean (Some b) evs else m
  | Sample SCL _ => m
  end.
(** An idle bus at first: both lines released. *)
Fixpoint observe (tr : edges) : monitor :=
  match tr with
  | [] => Mon true true false None []
  | e :: tr => step_monitor e (observe tr)
  end.

(** The clock is low and the data line is driven to [sda]. *)
Definition at_low (sda : bool) (evs : list bus_event) (tr : edges) : Prop := m_scl (observe tr) = false /\ m_sda (observe tr) = sda /\ m_events (observe tr) = evs.

(** The frames of the standard: the bits of a byte from the highest one, and the acknowledge. *)
Fixpoint bits_down (shift : nat) : list Z := Z.of_nat shift :: match shift with O => [] | S k => bits_down k end.
Definition byte_out (b : Z) : list bus_event := ((fun i => Bit (Z.testbit b i) None) <$> bits_down 7) ++ [Bit true (Some false)].
Definition byte_in (b : Z) (more : bool) : list bus_event := ((fun i => Bit true (Some (Z.testbit b i))) <$> bits_down 7) ++ [Bit (negb more) None].
Fixpoint bytes_in (bs : list Z) : list bus_event :=
  match bs with [] => [] | b :: bs => byte_in b (negb (Nat.eqb (length bs) 0)) ++ bytes_in bs end.
Definition transfer (write : bool) (address : Z) (bs : list Z) : list bus_event :=
  [Start] ++ byte_out address ++ (if write then bs ≫= byte_out else bytes_in bs).

Section on_bus.
Context (bus : edges -> line -> bool) (div4 : Z) (Hdiv : div4 <> 0).

Lemma poll_scl n s : returns (poll_line bus SCL n) s (fun _ s' => observe s' = observe s).
Proof.
  revert s. induction n as [|n IH]; intros s; cbn [poll_line]; (eapply returns_run; [done|]; destruct (bus s SCL); [by apply returns_ret; cbn; destruct (observe s)|]).
  - apply returns_ret. cbn. by destruct (observe s).
  - eapply returns_weaken; [apply IH|]. intros b s' ->. cbn. by destruct (observe s).
Qed.
Lemma wait_scl s : returns (wait_for_scl_high bus div4) s (fun _ s' => observe s' = observe s).
Proof. unfold wait_for_scl_high. destruct (Z.eqb_spec div4 0); [done|]. apply poll_scl. Qed.
Lemma poll_sda n s : returns (poll_line bus SDA n) s (fun _ s' => m_scl (observe s') = m_scl (observe s) /\ m_sda (observe s') = m_sda (observe s) /\ m_events (observe s') = m_events (observe s)).
Proof.
  revert s. induction n as [|n IH]; intros s; cbn [poll_line]; (eapply returns_run; [done|]; destruct (bus s SDA); [by apply returns_ret; cbn; destruct (observe s) as [[] ? ? ? ?]|]).
  - apply returns_ret. cbn. by destruct (observe s) as [[] ? ? ? ?].
  - eapply returns_weaken; [apply IH|]. intros b s' (-> & -> & ->). cbn. by destruct (observe s) as [[] ? ? ? ?].
Qed.

(** [returns_when Q]: the operation returns, and its results satisfy [Q] when it succeeded. *)
Definition returns_when (m : M edges bool) (s : edges) (Q : edges -> Prop) : Prop := returns m s (fun ok s' => ok = true -> Q s').

Ltac fold_at_low := match goal with H : at_low _ _ ?s |- _ => destruct H as (?H1 & ?H2 & ?H3); destruct (observe s) as [scl sda clean smp evs0] eqn:?Eo; cbn in * end.

Lemma start_on_bus evs s : m_sda (observe s) = true -> m_events (observe s) = evs -> returns_when (start_sync bus div4) s (at_low false (evs ++ [Start])).
Proof.
  intros Hsda Hevs. unfold start_sync. eapply returns_run; [done|].
  assert (Hh : m_scl (observe (Drive SCL true :: s)) = true /\ m_sda (observe (Drive SCL true :: s)) = true /\ m_events (observe (Drive SCL true :: s)) = evs) by (cbn; destruct (observe s) as [[] ? ? ? ?]; done).
  generalize (Drive SCL true :: s), Hh. clear s Hsda Hevs Hh. induction I2C_SW_RETRIES as [|n IH]; intros s (H1 & H2 & H3); cbn [start_loop].
  - eapply returns_run; [done|]. eapply returns_run; [done|]. destruct (bus _ SDA); cbn [negb]; [|by apply returns_ret].
    eapply returns_run; [done|]. eapply returns_bind; [apply wait_scl|]. intros b s1 E1. destruct b; cbn [negb]; [|by apply returns_ret].
    do 2 (eapply returns_run; [done|]). apply returns_ret. intros _. unfold at_low. cbn [observe]. rewrite E1. cbn [observe]. destruct (observe s) as [scl sda clean smp evs0]. cbn in *. subst. cbn. by rewrite app_nil_r.
  - eapply returns_run; [done|]. eapply returns_run; [done|]. destruct (bus _ SDA); cbn [negb].
    + eapply returns_run; [done|]. eapply returns_bind; [apply wait_scl|]. intros b s1 E1. destruct b; cbn [negb]; [|by apply returns_ret].
      do 2 (eapply returns_run; [done|]). apply returns_ret. intros _. unfold at_low. cbn [observe]. rewrite E1. cbn [observe]. destruct (observe s) as [scl sda clean smp evs0]. cbn in *. subst. cbn. by rewrite app_nil_r.
    + apply IH. cbn [observe]. destruct (observe s) as [scl sda clean smp evs0]. cbn in *. subst. done.
Qed.

Lemma stop_on_bus sda evs s : at_low sda evs s -> returns_when (stop_sync bus div4) s (fun s' => m_scl (observe s') = true /\ m_sda (observe s') = true /\ m_events (observe s') = evs ++ [Stop]).
Proof.
  intros (H1 & H2 & H3). unfold stop_sync. do 3 (eapply returns_run; [done|]). eapply returns_bind; [apply wait_scl|]. intros b s1 E1. destruct b; cbn [negb]; [|by apply returns_ret].
  eapply returns_run; [done|]. eapply returns_weaken; [apply poll_sda|]. intros b s2 (-> & -> & ->) _. cbn [observe]. rewrite E1. cbn [observe]. destruct (observe s) as [scl sda0 clean smp evs0]. cbn in *. subst. by destruct sda.
Qed.

(** One clock of the bus, with the level [b] on the data line. *)
Lemma clock_on_bus b s1 evs :
  at_low b evs s1 -> forall s2, observe s2 = observe (Drive SCL true :: s1) ->
  at_low b (evs ++ [Bit b None]) (Drive SCL false :: s2) /\ forall x, at_low b (evs ++ [Bit b (Some x)]) (Drive SCL false :: Sample SDA x :: s2).
Proof.
  intros (H1 & H2 & H3) s2 E. unfold at_low. cbn [observe] in *. rewrite E. destruct (observe s1) as [scl sda clean smp evs0]. cbn in *. subst. cbn. done.
Qed.
Lemma drive_on_bus sda evs s b : at_low sda evs s -> at_low b evs (Drive SDA b :: s).
Proof. intros (H1 & H2 & H3). unfold at_low. cbn [observe]. destruct (observe s) as [scl sda0 clean smp evs0]. cbn in *. subst. by destruct b, sda. Qed.

Lemma shifted_bit byte k : negb (Z.land (Z.shiftr byte (Z.of_nat k)) 1 =? 0) = Z.testbit byte (Z.of_nat k).
Proof.
  change 1 with (Z.ones 1). rewrite Z.land_ones by lia. change (2 ^ 1) with 2. rewrite Zmod_odd. rewrite <- Z.bit0_odd, Z.shiftr_spec by lia. rewrite Z.add_0_l. by destruct (Z.testbit byte (Z.of_nat k)).
Qed.

Lemma write_bits_on_bus k byte sda evs s :
  at_low sda evs s -> returns_when (write_bits bus div4 k byte) s (fun s' => exists b, at_low b (evs ++ ((fun i => Bit (Z.testbit byte i) None) <$> bits_down k)) s').
Proof.
  revert sda evs s. induction k as [|k IH]; intros sda evs s Hl; cbn [write_bits bits_down]; rewrite shifted_bit;
    (do 2 (eapply returns_run; [done|]); eapply returns_bind; [apply wait_scl|]; intros h s1 E1; destruct h; cbn [negb]; [|by apply returns_ret]; eapply returns_run; [done|];
     destruct (clock_on_bus _ _ evs (drive_on_bus _ _ _ _ Hl) s1 E1) as [Hc _]).
  - apply returns_ret. intros _. by eexists.
  - eapply returns_weaken; [by eapply IH|]. intros ok s2 Hok Eok. destruct (Hok Eok) as [b Hb]. exists b. by rewrite <- app_assoc in Hb.
Qed.
Lemma write_byte_on_bus byte sda evs s : at_low sda evs s -> returns_when (write_byte bus div4 byte) s (at_low true (evs ++ byte_out byte)).
Proof.
  intros Hl. unfold write_byte. eapply returns_bind; [by apply (write_bits_on_bus 7 byte sda evs)|]. intros sent s1 Hs. destruct sent; cbn [negb]; [|by apply returns_ret]. destruct (Hs eq_refl) as [b Hb].
  do 2 (eapply returns_run; [done|]). eapply returns_bind; [apply wait_scl|]. intros h s2 E2. destruct h; cbn [negb]; [|by apply returns_ret].
  eapply returns_run; [done|]. eapply returns_run; [done|]. apply returns_ret. intros Hack. apply negb_true_iff in Hack.
  destruct (clock_on_bus _ _ _ (drive_on_bus _ _ _ true Hb) s2 E2) as [_ Hc]. specialize (Hc (bus s2 SDA)). rewrite Hack in *. unfold byte_out. by rewrite app_assoc.
Qed.

Lemma set_bit (b : bool) data k i : 0 <= k -> Z.testbit data k = false -> Z.testbit (if b then Z.lor data (Z.shiftl 1 k) else data) i = if i =? k then b else Z.testbit data i.
Proof.
  intros Hk H0. destruct (Z.eqb_spec i k) as [->|Hi]; destruct b; try done.
  - by rewrite Z.lor_spec, Z.shiftl_spec, Z.sub_diag, orb_true_r by lia.
  - destruct (Z.le_gt_cases 0 i); [|by rewrite !Z.testbit_neg_r by lia]. rewrite Z.lor_spec, Z.shiftl_spec by lia. change 1 with (2 ^ 0). rewrite Z.pow2_bits_false by lia. by rewrite orb_false_r.
Qed.
(** One bit of a read: the sample is shown at its place. *)
Lemma read_bit_on_bus k data evs s Q (rest : Z -> M edges (option Z)) :
  at_low true evs s -> Z.testbit data (Z.of_nat k) = false -> (forall s', Q None s') ->
  (forall b d s', at_low true (evs ++ [Bit true (Some b)]) s' -> (forall i, Z.testbit d i = if i =? Z.of_nat k then b else Z.testbit data i) -> returns (rest d) s' Q) ->
  returns (write_bit_to_ddc SCL true;; high ← wait_for_scl_high bus div4;
           if negb high then mret None
           else sda ← read_bit_from_ddc bus SDA;
             let data := if sda : bool then Z.lor data (Z.shiftl 1 (Z.of_nat k)) else data in
             write_bit_to_ddc SCL false;; rest data) s Q.
Proof.
  intros Hl H0 HN Hrest. eapply returns_run; [done|]. eapply returns_bind; [apply wait_scl|]. intros h s1 E1. destruct h; cbn [negb]; [|by apply returns_ret].
  eapply returns_run; [done|]. eapply returns_run; [done|]. destruct (clock_on_bus _ _ evs Hl s1 E1) as [_ Hc]. apply (Hrest (bus s1 SDA)); [apply Hc|]. intros i. apply set_bit; [lia|done].
Qed.
Lemma read_bits_on_bus k data evs s :
  at_low true evs s -> (forall i, 0 <= i <= Z.of_nat k -> Z.testbit data i = false) ->
  returns (read_bits bus div4 k data) s (fun r s' => forall d, r = Some d ->
    at_low true (evs ++ ((fun i => Bit true (Some (Z.testbit d i))) <$> bits_down k)) s' /\ (forall i, Z.of_nat k < i -> Z.testbit d i = Z.testbit data i)).
Proof.
  revert data evs s. induction k as [|k IH]; intros data evs s Hl H0; cbn [read_bits bits_down].
  - apply (read_bit_on_bus 0 data evs s _ (fun d => mret (Some d))); [done|apply H0; lia|done|]. intros b d s' Hl' Hd. apply returns_ret. intros ? [= <-]. cbn [fmap list_fmap]. rewrite (Hd (Z.of_nat 0)), Z.eqb_refl. split; [done|]. intros i Hi. rewrite Hd. by destruct (Z.eqb_spec i (Z.of_nat 0)); [lia|].
  - apply (read_bit_on_bus (S k) data evs s _ (fun d => read_bits bus div4 k d)); [done|apply H0; lia|done|]. intros b d s' Hl' Hd. eapply returns_weaken; [apply (IH d _ _ Hl')|].
    + intros i Hi. rewrite Hd. destruct (Z.eqb_spec i (Z.of_nat (S k))); [lia|]. apply H0. lia.
    + intros r s2 Hr d' Er. destruct (Hr d' Er) as [H1 H2]. cbn [fmap list_fmap]. rewrite H2 by lia. rewrite Hd, Z.eqb_refl. rewrite <- app_assoc in H1. split; [done|].
      intros i Hi. rewrite H2 by lia. rewrite Hd. by destruct (Z.eqb_spec i (Z.of_nat (S k))); [lia|].
Qed.
Lemma byte_of_bits d : (forall i, 7 < i -> Z.testbit d i = false) -> is_u8 d.
Proof.
  intros H. assert (Hd : 0 <= d). { destruct (Z.le_gt_cases 0 d) as [|Hd]; [done|]. apply Z.bits_iff_neg_ex in Hd as [k Hk]. specialize (Hk (Z.max k 7 + 1) ltac:(lia)). by rewrite H in Hk by lia. }
  split; [done|]. apply (bits_bound 8); [lia|done|]. intros i Hi. apply H. lia.
Qed.
Lemma read_byte_on_bus more evs s :
  at_low true evs s -> returns (read_byte bus div4 more) s (fun r s' => fst r = true -> exists b, snd r = Some b /\ is_u8 b /\ at_low true (evs ++ byte_in b more) s').
Proof.
  intros Hl. unfold read_byte. eapply returns_bind; [apply (read_bits_on_bus 7 0 evs s Hl); intros i _; apply Z.testbit_0_l|]. intros [d|] s1 Hd; [|by apply returns_ret].
  destruct (Hd d eq_refl) as [Hl1 Hb]. do 2 (eapply returns_run; [done|]). eapply returns_bind; [apply wait_scl|]. intros h s2 E2. destruct h; cbn [negb]; [|by apply returns_ret].
  do 2 (eapply returns_run; [done|]). apply returns_ret. intros _. exists d. split; [done|]. split; [apply byte_of_bits; intros i Hi; rewrite Hb by lia; apply Z.testbit_0_l|].
  destruct (clock_on_bus _ _ _ (drive_on_bus _ _ _ (negb more) Hl1) s2 E2) as [Hc _]. unfold byte_in. rewrite app_assoc. by eapply drive_on_bus.
Qed.

Lemma write_data_on_bus n i data evs s :
  at_low true evs s -> (i + n <= length data)%nat -> returns_when (write_data bus div4 n i data) s (at_low true (evs ++ (take n (drop i data) ≫= byte_out))).
Proof.
  revert i evs s. induction n as [|n IH]; intros i evs s Hl Hn; cbn [write_data]; [apply returns_ret; by rewrite take_0, app_nil_r|].
  destruct (lookup_lt_is_Some_2 data i ltac:(lia)) as [b Eb]. rewrite Eb. eapply returns_run; [done|]. eapply returns_bind; [exact (write_byte_on_bus b true evs s Hl)|]. intros ok s1 Hok. destruct ok; cbn [negb]; [|by apply returns_ret].
  eapply returns_weaken; [apply (IH (S i) _ s1 (Hok eq_refl)); lia|]. intros ok s2 H Eo. specialize (H Eo). rewrite (drop_S data b i Eb). cbn [take mbind list_bind]. by rewrite <- app_assoc in H.
Qed.
(** The buffer of a read is filled from its start. *)
Lemma read_data_on_bus n i data evs s :
  at_low true evs s -> (i + n <= length data)%nat ->
  returns (read_data bus div4 n i data) s (fun r s' => length (snd r) = length data /\ drop (i + n) (snd r) = drop (i + n) data /\ take i (snd r) = take i data /\
    (fst r = true -> Forall is_u8 (take n (drop i (snd r))) /\ at_low true (evs ++ bytes_in (take n (drop i (snd r)))) s')).
Proof.
  revert i data evs s. induction n as [|n IH]; intros i data evs s Hl Hn; cbn [read_data].
  { apply returns_ret. cbn [fst snd]. rewrite take_0, app_nil_r. done. }
  eapply returns_bind; [by apply read_byte_on_bus|]. intros [ok r] s1 Hr. cbn [fst snd] in Hr.
  assert (Hst : forall r, returns (match r with None => mret data | Some b => if (i <? length data)%nat then mret (<[i := b]> data) else fault end) s1 (fun d s' => s' = s1 /\ d = match r with None => data | Some b => <[i := b]> data end)).
  { intros [b|]; [|by apply returns_ret]. destruct (Nat.ltb_spec i (length data)); [by apply returns_ret|lia]. }
  eapply returns_bind; [apply Hst|]. intros d s2 [-> Ed]. clear Hst. assert (Hd : length d = length data /\ drop (i + S n) d = drop (i + S n) data /\ take i d = take i data).
  { subst d. destruct r as [b|]; [|done]. rewrite length_insert, drop_insert_lt, take_insert_ge by lia. done. }
  destruct Hd as (Hd1 & Hd2 & Hd3). destruct ok; cbn [negb]; [|apply returns_ret; by cbn]. destruct (Hr eq_refl) as (b & -> & Hb & Hl1).
  eapply returns_weaken; [apply (IH (S i) d _ s1 Hl1); lia|]. intros [ok2 d2] s2 (H1 & H2 & H3 & H4). cbn [fst snd] in *.
  replace (i + S n)%nat with (S i + n)%nat in * by lia. split; [congruence|]. split; [congruence|].
  assert (Hi : d2 !! i = Some b).
  { rewrite <- (lookup_take_lt d2 (S i) i) by lia. rewrite H3, lookup_take_lt by lia. subst d. apply list_lookup_insert_eq. lia. }
  split; [rewrite <- Hd3; replace i with (Nat.min i (S i)) by lia; by rewrite <- !take_take, H3|]. intros Ho. destruct (H4 Ho) as [H5 H6].
  rewrite (drop_S d2 b i Hi). cbn [take bytes_in]. split; [by constructor|]. rewrite <- app_assoc in H6.
  replace (Nat.eqb (length (take n (drop (S i) d2))) 0) with (Nat.eqb n 0); [done|]. rewrite length_take, length_drop. destruct n; [done|]. destruct (Nat.eqb_spec (S n `min` (length d2 - S i)) 0); [lia|done].
Qed.

Lemma stop_runs s : returns (stop_sync bus div4) s (fun _ _ => True).
Proof.
  unfold stop_sync. do 3 (eapply returns_run; [done|]). eapply returns_bind; [apply wait_scl|]. intros b s1 _. destruct b; cbn [negb]; [|by apply returns_ret].
  eapply returns_run; [done|]. eapply returns_weaken; [apply poll_sda|]. done.
Qed.
End on_bus.

(** ** Transfers *)

Definition i2c_action_of (write mot : bool) : Z :=
  if write then (if mot then ACTION_I2C_WRITE_MOT else ACTION_I2C_WRITE) else if mot then ACTION_I2C_READ_MOT else ACTION_I2C_READ.

Lemma write_actions w m : (i2c_action_of w m =? ACTION_I2C_WRITE) || (i2c_action_of w m =? ACTION_I2C_WRITE_MOT) = w.
Proof. by destruct w, m. Qed.
Lemma read_actions w m : (i2c_action_of w m =? ACTION_I2C_READ) || (i2c_action_of w m =? ACTION_I2C_READ_MOT) = negb w.
Proof. by destruct w, m. Qed.
Lemma stop_actions w m : (i2c_action_of w m =? ACTION_I2C_WRITE) || (i2c_action_of w m =? ACTION_I2C_READ) = negb m.
Proof. by destruct w, m. Qed.

(** A buffer of a transfer before and after it. *)
Definition i2c_buffer_kept (write : bool) (len : Z) (data buf : list Z) : Prop :=
  length buf = length data /\ drop (Z.to_nat len) buf = drop (Z.to_nat len) data /\ (if write then buf = data else True).

Lemma speed_ok sp : 0 <= sp -> u16 (Z.shiftr (clock_delay (dal_i2c_sw_engine_set_speed sp)) 2) <> 0.
Proof.
  intros Hs. unfold dal_i2c_sw_engine_set_speed. cbn [clock_delay]. set (d := 1000 / _).
  assert (Hd : d <= 1000). { unfold d, I2CAUX_DEFAULT_I2C_SW_SPEED. destruct (Z.eqb_spec sp 0); [by vm_compute|]. apply Z.div_le_upper_bound; lia. }
  assert (H : 12 <= (if d <? 12 then 12 else d) <= 1000) by (destruct (Z.ltb_spec d 12); lia). rewrite Z.shiftr_div_pow2 by lia. change (2 ^ 2) with 4.
  assert (3 <= (if d <? 12 then 12 else d) / 4 <= 250) by (split; [apply Z.div_le_lower_bound; lia|apply Z.div_le_upper_bound; lia]). unfold u16. rewrite Z.mod_small by lia. lia.
Qed.

Section transfers.
Context (bus : edges -> line -> bool) (engine : i2c_sw_engine).
Hypothesis Hdiv : u16 (Z.shiftr (clock_delay engine) 2) <> 0.

Lemma channel_on_bus write mot addr len data s :
  m_sda (observe s) = true -> (Z.to_nat len <= length data)%nat ->
  returns (dal_i2c_sw_engine_submit_channel_request bus engine (I2cRequest (i2c_action_of write mot) addr len data)) s (fun r s' =>
    i2c_buffer_kept write len data (snd r) /\ (fst r = I2C_CHANNEL_OPERATION_SUCCEEDED \/ fst r = I2C_CHANNEL_OPERATION_FAILED) /\
    (fst r = I2C_CHANNEL_OPERATION_SUCCEEDED ->
       m_scl (observe s') = negb mot /\ m_sda (observe s') = true /\ (write = false -> Forall is_u8 (take (Z.to_nat len) (snd r))) /\
       m_events (observe s') = m_events (observe s) ++ transfer write addr (take (Z.to_nat len) (snd r)) ++ if mot then [] else [Stop])).
Proof.
  intros Hsda Hlen. unfold dal_i2c_sw_engine_submit_channel_request. cbn [i2c_action i2c_address i2c_length i2c_data]. set (div4 := u16 _) in *. rewrite write_actions, read_actions.
  eapply returns_bind; [by apply start_on_bus|]. intros started s1 Hst.
  assert (Hbody : returns (if negb started then mret (false, data)
     else if write then ok ← i2c_write bus div4 addr len data; mret (ok, data)
     else if negb write then i2c_read bus div4 addr len data
     else mret (false, data)) s1 (fun r s' => i2c_buffer_kept write len data (snd r) /\
       (fst r = true -> (write = false -> Forall is_u8 (take (Z.to_nat len) (snd r))) /\ at_low true (m_events (observe s) ++ transfer write addr (take (Z.to_nat len) (snd r))) s'))).
  { assert (Hk : i2c_buffer_kept write len data data) by (repeat split; by destruct write). destruct started; cbn [negb]; [|by apply returns_ret]. specialize (Hst eq_refl). destruct write.
    - unfold i2c_write. eapply returns_bind; [eapply returns_bind; [by apply (write_byte_on_bus bus div4 Hdiv addr false)|]|].
      + intros ok s2 Hok. destruct ok; cbn [negb]; [|by apply (returns_ret false s2 (fun ok s' => ok = true -> at_low true (m_events (observe s) ++ transfer true addr (take (Z.to_nat len) data)) s'))].
        eapply returns_weaken; [apply (write_data_on_bus bus div4 Hdiv (Z.to_nat len) 0 data _ s2 (Hok eq_refl)); lia|]. intros ok s3 H Eo. specialize (H Eo). rewrite drop_0, <- !app_assoc in H. by destruct H as (? & ? & ?).
      + intros ok s2 H. apply returns_ret. cbn [fst snd]. split; [done|]. intros Eo. split; [done|by apply H].
    - cbn [negb]. unfold i2c_read.
      eapply returns_bind; [by apply (write_byte_on_bus bus div4 Hdiv addr false)|]. intros ok s2 Hok. destruct ok; cbn [negb]; [|by apply returns_ret].
      eapply returns_weaken; [apply (read_data_on_bus bus div4 Hdiv (Z.to_nat len) 0 data _ s2 (Hok eq_refl)); lia|]. intros [ok d] s3 (H1 & H2 & _ & H4). cbn [fst snd] in *. split; [done|].
      intros Eo. destruct (H4 Eo) as [H5 H6]. rewrite drop_0 in H5, H6. split; [done|]. by rewrite <- !app_assoc in H6. }
  eapply returns_bind; [exact Hbody|]. intros [ok d] s2 [Hk Hok]. cbn [fst snd] in *. destruct ok; cbn [negb orb andb]; [rewrite stop_actions|].
  - destruct (Hok eq_refl) as [Hu Hl]. destruct mot.
    + cbn [negb]. eapply returns_run; [done|]. apply returns_ret. cbn [fst snd]. destruct Hl as (H1 & H2 & H3). rewrite app_nil_r. split; [done|]. split; [by left|done].
    + cbn [negb]. eapply returns_bind; [eapply returns_bind; [by apply (stop_on_bus bus div4 Hdiv true)|]; intros st s3 H; apply (returns_ret st s3 (fun ok s' => ok = true -> _) H)|].
      intros st s3 H. apply returns_ret. cbn [fst snd]. split; [done|]. destruct st; [split; [by left|]; intros _; destruct (H eq_refl) as (H1 & H2 & H3); by rewrite <- app_assoc in H3|split; [by right|done]].
  - eapply returns_bind; [eapply returns_bind; [by apply stop_runs|]; intros st s3 _; apply (returns_ret false s3 (fun ok s' => ok = false)); done|].
    intros st s3 ->. apply returns_ret. cbn [fst snd]. split; [done|]. split; [by right|done].
Qed.
End transfers.

(** ** Commands on the bus *)

Definition i2c_payload_fits (p : i2c_payload) : Prop := 0 <= ip_address p < 128 /\ (Z.to_nat (ip_length p) <= length (ip_data p))%nat.
(** The address byte: seven bits of address and the direction. *)
Definition address_byte (p : i2c_payload) : Z := 2 * ip_address p + if ip_write p then 0 else 1.
(** The transfers of a command with repeated starts, and one stop at the end. *)
Fixpoint command_events (ps : list i2c_payload) (bufs : list (list Z)) : list bus_event :=
  match ps, bufs with
  | p :: ps, b :: bufs =>
      transfer (ip_write p) (address_byte p) (take (Z.to_nat (ip_length p)) b) ++ (if Nat.eqb (length ps) 0 then [Stop] else []) ++ command_events ps bufs
  | _, _ => []
  end.
Definition payload_kept (p : i2c_payload) (b : list Z) : Prop := i2c_buffer_kept (ip_write p) (ip_length p) (ip_data p) b.

Lemma address_on_bus p : 0 <= ip_address p < 128 -> u8 (Z.lor (Z.shiftl (ip_address p) 1) (if ip_write p then 0 else 1)) = address_byte p.
Proof.
  intros Ha. unfold address_byte. rewrite Z.shiftl_mul_pow2 by lia. change (2 ^ 1) with 2. destruct (ip_write p); [rewrite Z.lor_0_r; rewrite u8_small by (unfold is_u8; lia); lia|].
  replace (Z.lor (ip_address p * 2) 1) with (2 * ip_address p + 1); [rewrite u8_small by (unfold is_u8; lia); lia|].
  rewrite (Z.mul_comm (ip_address p)). destruct (ip_address p) as [|q|q]; [done|done|lia].
Qed.

Section commands_on_bus.
Context (bus : edges -> line -> bool) (engine : i2c_sw_engine).
Hypothesis Hdiv : u16 (Z.shiftr (clock_delay engine) 2) <> 0.

Lemma request_on_bus p mot s :
  m_sda (observe s) = true -> i2c_payload_fits p ->
  returns (dal_i2c_sw_engine_submit_request bus engine (i2c_payload_request p) mot) s (fun r s' =>
    payload_kept p (snd r) /\ (fst r = true ->
       m_scl (observe s') = negb mot /\ m_sda (observe s') = true /\
       m_events (observe s') = m_events (observe s) ++ transfer (ip_write p) (address_byte p) (take (Z.to_nat (ip_length p)) (snd r)) ++ if mot then [] else [Stop])).
Proof.
  intros Hs [Ha Hl]. unfold dal_i2c_sw_engine_submit_request, i2c_payload_request. cbn [operation address payload_length payload_data]. rewrite address_on_bus by done.
  pose proof (channel_on_bus bus engine Hdiv (ip_write p) mot (address_byte p) (ip_length p) (ip_data p) s Hs Hl) as Hc. unfold i2c_action_of in Hc.
  unfold payload_kept. destruct (ip_write p); cbn [Z.eqb];
    (eapply returns_bind; [exact Hc|]; intros [st d] s' (Hk & Hr & Hok); cbn [fst snd] in *; destruct Hr; subst st;
     [apply (returns_ret (true, d) s'); split; [done|]; intros _; by destruct (Hok eq_refl) as (H1 & H2 & _ & H4)|by apply (returns_ret (false, d) s')]).
Qed.

Lemma payloads_on_bus ps s :
  m_sda (observe s) = true -> Forall i2c_payload_fits ps ->
  returns (submit_i2c_payloads bus engine ps) s (fun r s' =>
    Forall2 payload_kept ps (snd r) /\ (fst r = true ->
      m_sda (observe s') = true /\ m_scl (observe s') = (match ps with [] => m_scl (observe s) | _ => true end) /\ m_events (observe s') = m_events (observe s) ++ command_events ps (snd r))).
Proof.
  intros Hs Hps. revert s Hs. induction Hps as [|p ps Hp Hps IH]; intros s Hs; cbn [submit_i2c_payloads].
  { apply returns_ret. cbn. rewrite app_nil_r. done. }
  eapply returns_bind; [by apply request_on_bus|]. intros [ok b] s1 [Hk Hok]. cbn [fst snd] in *. destruct ok; cbn [negb].
  - destruct (Hok eq_refl) as (H1 & H2 & H3). eapply returns_bind; [by apply IH|]. intros [ok2 bufs] s2 [Hk2 Hok2]. cbn [fst snd] in *. apply returns_ret. cbn [fst snd]. split; [by constructor|].
    intros Eo. destruct (Hok2 Eo) as (G1 & G2 & G3). split; [done|]. cbn [command_events]. rewrite G3, H3. split.
    + rewrite G2, H1. by destruct ps.
    + rewrite <- !app_assoc. destruct (length ps =? 0)%nat; done.
  - apply returns_ret. cbn [fst snd]. split; [|done]. constructor; [done|]. clear. induction ps; constructor; [by repeat split; destruct (ip_write a)|done].
Qed.
End commands_on_bus.

(** ** Giving the bus back *)

Section released.
Context (bus : edges -> line -> bool) (div4 : Z) (Hdiv : div4 <> 0).
(** The display does not hold the clock. *)
Hypothesis Hscl : forall tr, m_scl (observe tr) = true -> bus tr SCL = true.

Lemma wait_high s : m_scl (observe s) = true -> exists s', wait_for_scl_high bus div4 s = Ok (true, s') /\ observe s' = observe s.
Proof.
  intros H. unfold wait_for_scl_high. destruct (Z.eqb_spec div4 0); [done|]. exists (Sample SCL true :: s).
  split; [destruct (Z.to_nat _); cbn [poll_line]; unfold mbind, M_bind, read_bit_from_ddc; by rewrite (Hscl s H)|]. cbn. by destruct (observe s).
Qed.
Lemma stop_releases s :
  returns (stop_sync bus div4) s (fun _ s' => m_scl (observe s') = true /\ m_sda (observe s') = true /\ exists evs, m_events (observe s') = evs ++ [Stop]).
Proof.
  unfold stop_sync. do 3 (eapply returns_run; [done|]).
  assert (Hm : exists clean smp evs, observe (Drive SCL true :: Drive SDA false :: Drive SCL false :: s) = Mon true false clean smp evs).
  { cbn. destruct (observe s) as [[] [] clean smp evs]; cbn; by eexists _, _, _. }
  destruct Hm as (clean & smp & evs & Em). destruct (wait_high (Drive SCL true :: Drive SDA false :: Drive SCL false :: s)) as (s1 & E1 & Eo); [by rewrite Em|].
  eapply returns_run; [exact E1|]. cbn [negb]. eapply returns_run; [done|]. eapply returns_weaken; [apply poll_sda|]. intros b s2 (-> & -> & ->). cbn [observe]. rewrite Eo, Em. cbn. by eauto.
Qed.
End released.

(** Every operation returns from every state. *)
Section engine_runs.
Context (bus : edges -> line -> bool) (div4 : Z) (Hdiv : div4 <> 0).
Lemma runs_drive l b : runs (write_bit_to_ddc l b).
Proof. intros s. by eexists _, _. Qed.
Lemma runs_sample l : runs (read_bit_from_ddc bus l).
Proof. intros s. by eexists _, _. Qed.
Lemma runs_wait_scl : runs (wait_for_scl_high bus div4).
Proof. intros s. eapply returns_weaken; [by apply wait_scl|]. done. Qed.
Hint Resolve runs_drive runs_sample runs_wait_scl : runs.
Lemma runs_start : runs (start_sync bus div4).
Proof. unfold start_sync. apply runs_bind; [auto with runs|]. intros _. induction I2C_SW_RETRIES; cbn [start_loop]; auto 15 with runs. Qed.
Lemma runs_write_byte b : runs (write_byte bus div4 b).
Proof. assert (H : forall k, runs (write_bits bus div4 k b)) by (intros k; induction k; cbn [write_bits]; auto 15 with runs). unfold write_byte. auto 15 with runs. Qed.
Lemma runs_read_byte more : runs (read_byte bus div4 more).
Proof.
  assert (H : forall k d, runs (read_bits bus div4 k d)) by (intros k; induction k; intros d; cbn [read_bits]; auto 15 with runs). unfold read_byte.
  apply runs_bind; [done|]. intros [b|]; auto 15 with runs.
Qed.
Hint Resolve runs_write_byte runs_read_byte : runs.
Lemma runs_i2c_write addr len data : (Z.to_nat len <= length data)%nat -> runs (i2c_write bus div4 addr len data).
Proof.
  intros H. unfold i2c_write. apply runs_bind; [auto with runs|]. intros ok. apply runs_if; [auto with runs|].
  assert (Hw : forall n i, (i + n <= length data)%nat -> runs (write_data bus div4 n i data)); [|apply Hw; lia].
  intros n. induction n as [|n IH]; intros i Hi; cbn [write_data]; [auto with runs|]. destruct (lookup_lt_is_Some_2 data i ltac:(lia)) as [b ->].
  apply runs_bind; [apply runs_ret|]. intros b'. apply runs_bind; [auto with runs|]. intros ok'. apply runs_if; [auto with runs|]. apply IH. lia.
Qed.
Lemma runs_i2c_read addr len data : (Z.to_nat len <= length data)%nat -> runs (i2c_read bus div4 addr len data).
Proof.
  intros H. unfold i2c_read. apply runs_bind; [auto with runs|]. intros ok. apply runs_if; [auto with runs|].
  assert (Hr : forall n i d, (i + n <= length d)%nat -> runs (read_data bus div4 n i d)); [|apply Hr; lia].
  intros n. induction n as [|n IH]; intros i d Hi; cbn [read_data]; [auto with runs|]. apply runs_bind; [auto with runs|]. intros [ok' [b|]].
  - destruct (Nat.ltb_spec i (length d)); [|lia]. apply runs_bind_ret. apply runs_if; [auto with runs|]. apply IH. rewrite length_insert. lia.
  - apply runs_bind_ret. apply runs_if; [auto with runs|]. apply IH. lia.
Qed.
End engine_runs.

(** Any transfer that fails, and any that is not in the middle of a command, ends with a stop condition. *)
Lemma transfer_releases bus engine action addr len data s :
  (forall tr, m_scl (observe tr) = true -> bus tr SCL = true) -> u16 (Z.shiftr (clock_delay engine) 2) <> 0 -> (Z.to_nat len <= length data)%nat ->
  returns (dal_i2c_sw_engine_submit_channel_request bus engine (I2cRequest action addr len data)) s (fun r s' =>
    fst r = I2C_CHANNEL_OPERATION_FAILED \/ action = ACTION_I2C_WRITE \/ action = ACTION_I2C_READ ->
    m_scl (observe s') = true /\ m_sda (observe s') = true /\ exists evs, m_events (observe s') = evs ++ [Stop]).
Proof.
  intros Hscl Hdiv Hlen. unfold dal_i2c_sw_engine_submit_channel_request. cbn [i2c_action i2c_address i2c_length i2c_data]. set (div4 := u16 _) in *.
  eapply returns_bind; [by apply runs_start|]. intros started s1 _.
  match goal with |- returns (mbind _ ?m) _ _ => assert (Hm : runs m) end.
  { destruct started; cbn [negb]; [|apply runs_ret]. destruct (_ || _); [apply runs_bind; [by apply runs_i2c_write|intros ?; apply runs_ret]|]. destruct (_ || _); [by apply runs_i2c_read|apply runs_ret]. }
  eapply returns_bind; [apply Hm|]. intros [ok d] s2 _. clear Hm. destruct (negb ok || (action =? ACTION_I2C_WRITE) || (action =? ACTION_I2C_READ)) eqn:Est.
  - eapply returns_bind; [eapply returns_bind; [by apply stop_releases|]; intros st s3 H; apply (returns_ret (ok && st) s3 (fun _ s' => _) H)|]. intros st s3 H. by apply returns_ret.
  - eapply returns_run; [done|]. apply returns_ret. cbn [fst]. rewrite !orb_false_iff, negb_false_iff, !Z.eqb_neq in Est. destruct Est as [[-> Hw] Hr]. intros [? | [? | ?]]; done.
Qed.

(** ** Claims *)

(** A display that acknowledges its address and what is written to it, and
    shows an alternating pattern when it is read: the bits driven since the
    last start condition tell it where the transfer stands. *)
Definition frame (evs : list bus_event) : list bool := fold_left (fun acc e => match e with Bit b _ => acc ++ [b] | _ => [] end) evs [].
Definition display (tr : edges) (l : line) : bool :=
  match l with
  | SCL => m_scl (observe tr)
  | SDA =>
      let m := observe tr in
      let bits := frame (m_events m) in
      let n := length bits in
      m_sda m && negb (m_scl m && (if (n <? 9)%nat then (n =? 8)%nat else if nth 7 bits false then (n mod 9 <? 8)%nat && Nat.even n else (n mod 9 =? 8)%nat))
  end.
(** A display that never answers. *)
Definition silent (tr : edges) (l : line) : bool := match l with SCL => m_scl (observe tr) | SDA => m_sda (observe tr) end.

(** C16: The software engine speaks I2C.  Whatever the display does, a command
    returns and changes no buffer outside the bytes it reads; and when it
    reports success, what has been on the bus is for every payload a start
    condition, the address byte, highest bit first, then the bytes written or
    read, every byte that was sent acknowledged by the display, every byte
    that was read acknowledged by the engine but the last, its bits those the
    display showed while the clock was high, and one stop condition at the
    end, with both lines released.  There are no other start or stop
    conditions: the data line did not move while the clock was high.  At the
    beginning the data line is released. *)
Theorem i2c_command_on_bus bus sp ps s :
  0 <= sp -> m_sda (observe s) = true -> Forall i2c_payload_fits ps ->
  exists ok bufs s',
    submit_i2c_payloads bus (dal_i2c_sw_engine_set_speed sp) ps s = Ok ((ok, bufs), s') /\ Forall2 payload_kept ps bufs /\
    (ok = true ->
       m_events (observe s') = m_events (observe s) ++ command_events ps bufs /\
       m_sda (observe s') = true /\ (ps <> [] -> m_scl (observe s') = true)).
Proof.
  intros Hsp Hs Hps. destruct (payloads_on_bus bus (dal_i2c_sw_engine_set_speed sp) (speed_ok sp Hsp) ps s Hs Hps) as ([ok bufs] & s' & E & Hk & Hok). exists ok, bufs, s'. split; [done|]. split; [done|].
  intros Eo. destruct (Hok Eo) as (H1 & H2 & H3). split; [done|]. split; [done|]. by destruct ps.
Qed.
Lemma i2c_command_on_bus_witness :
  exists s', submit_i2c_payloads display (dal_i2c_sw_engine_set_speed 50) [I2cPayload true 0x50 1 [0]; I2cPayload false 0x50 2 [0; 0]] [] = Ok ((true, [[0]; [0xAA; 0x55]]), s') /\
    m_events (observe s') = command_events [I2cPayload true 0x50 1 [0]; I2cPayload false 0x50 2 [0; 0]] [[0]; [0xAA; 0x55]].
Proof.
  assert (Hp : Forall i2c_payload_fits [I2cPayload true 0x50 1 [0]; I2cPayload false 0x50 2 [0; 0]]) by (repeat constructor; cbn; lia).
  assert (Hsp : 0 <= 50) by lia.
  destruct (i2c_command_on_bus display 50 _ [] Hsp eq_refl Hp) as (ok & bufs & s' & E & _ & Hok).
  assert (Er : exists t, submit_i2c_payloads display (dal_i2c_sw_engine_set_speed 50) [I2cPayload true 0x50 1 [0]; I2cPayload false 0x50 2 [0; 0]] [] = Ok ((true, [[0]; [0xAA; 0x55]]), t)) by (eexists; vm_compute; reflexivity).
  destruct Er as [t Et]. rewrite Et in E. injection E as <- <- ->. exists s'. split; [exact Et|]. exact (proj1 (Hok eq_refl)).
Defined.

(** C38: A transfer of the software engine that fails, at whatever point, gives
    the bus back when the display lets the clock go: it ends with a stop
    condition and both lines released, as does every transfer that is the last
    one of a command. *)
Theorem i2c_failure_releases_bus bus sp action addr len data s :
  0 <= sp -> (forall tr, m_scl (observe tr) = true -> bus tr SCL = true) -> (Z.to_nat len <= length data)%nat ->
  exists status buf s',
    dal_i2c_sw_engine_submit_channel_request bus (dal_i2c_sw_engine_set_speed sp) (I2cRequest action addr len data) s = Ok ((status, buf), s') /\
    (status = I2C_CHANNEL_OPERATION_FAILED \/ action = ACTION_I2C_WRITE \/ action = ACTION_I2C_READ ->
     m_scl (observe s') = true /\ m_sda (observe s') = true /\ exists evs, m_events (observe s') = evs ++ [Stop]).
Proof.
  intros Hsp Hscl Hlen. destruct (transfer_releases bus (dal_i2c_sw_engine_set_speed sp) action addr len data s Hscl (speed_ok sp Hsp) Hlen) as ([st buf] & s' & E & H). by exists st, buf, s'.
Qed.
Lemma i2c_failure_releases_bus_witness :
  exists buf s', dal_i2c_sw_engine_submit_channel_request silent (dal_i2c_sw_engine_set_speed 50) (I2cRequest ACTION_I2C_WRITE_MOT 0xA0 1 [0]) [] = Ok ((I2C_CHANNEL_OPERATION_FAILED, buf), s') /\
    m_scl (observe s') = true /\ m_sda (observe s') = true.
Proof.
  assert (Hsp : 0 <= 50) by lia. assert (Hl : (Z.to_nat 1 <= length [0])%nat) by (cbn; lia). assert (Hscl : forall tr, m_scl (observe tr) = true -> silent tr SCL = true) by done.
  destruct (i2c_failure_releases_bus silent 50 ACTION_I2C_WRITE_MOT 0xA0 1 [0] [] Hsp Hscl Hl) as (st & buf & s' & E & H).
  assert (Er : exists b t, dal_i2c_sw_engine_submit_channel_request silent (dal_i2c_sw_engine_set_speed 50) (I2cRequest ACTION_I2C_WRITE_MOT 0xA0 1 [0]) [] = Ok ((I2C_CHANNEL_OPERATION_FAILED, b), t)) by (eexists _, _; vm_compute; reflexivity).
  destruct Er as (b & t & Et). rewrite Et in E. injection E as <- -> ->. exists buf, s'. split; [exact Et|]. destruct (H (or_introl eq_refl)) as (H1 & H2 & _). split; [exact H1|exact H2].
Defined.
