(* ===== verification/Gpio.v ===== *)
(** * GPIO pins ([dal/dc/gpio])

    The service hands out pins: a bit per pin says that it is taken.  Opening
    a pin saves the bits of its mask, output and enable registers and sets
    them for a mode; closing it puts them back.  A DDC line is a data and a
    clock pin.  The registers are a store; the tables of registers are an
    argument, [factory].

    The lemmas say which bits an operation may change, what the service's
    bits are after it, and that closing restores what opening saved; the
    theorems about clients are in [GpioSpec]. *)

From stdpp Require Import base numbers list gmap.
From S2P Require Import Prelude CMonad Aux.

Inductive gpio_result :=
  | GPIO_RESULT_OK | GPIO_RESULT_NULL_HANDLE | GPIO_RESULT_INVALID_DATA | GPIO_RESULT_DEVICE_BUSY
  | GPIO_RESULT_OPEN_FAILED | GPIO_RESULT_ALREADY_OPENED | GPIO_RESULT_NON_SPECIFIC_ERROR.
#[global] Instance gpio_result_eq_dec : EqDecision gpio_result.
Proof. solve_decision. Defined.
Definition ok_result (r : gpio_result) : bool := bool_decide (r = GPIO_RESULT_OK).

Inductive gpio_mode :=
  | GPIO_MODE_UNKNOWN | GPIO_MODE_INPUT | GPIO_MODE_OUTPUT | GPIO_MODE_FAST_OUTPUT | GPIO_MODE_HARDWARE | GPIO_MODE_INTERRUPT.

Definition GPIO_ID_DDC_DATA : Z := 0.
Definition GPIO_ID_DDC_CLOCK : Z := 1.
Definition GPIO_ID_GENERIC : Z := 2.
Definition GPIO_ID_HPD : Z := 3.
Definition GPIO_ID_GPIO_PAD : Z := 4.
Definition GPIO_ID_VIP_PAD : Z := 5.
Definition GPIO_ID_SYNC : Z := 6.
Definition GPIO_ID_GSL : Z := 7.
Definition GPIO_ID_COUNT : Z := 8.

Inductive gpio_ddc_config_type :=
  | GPIO_DDC_CONFIG_TYPE_MODE_AUX | GPIO_DDC_CONFIG_TYPE_MODE_I2C | GPIO_DDC_CONFIG_TYPE_POLL_FOR_CONNECT
  | GPIO_DDC_CONFIG_TYPE_POLL_FOR_DISCONNECT | GPIO_DDC_CONFIG_TYPE_DISABLE_POLLING.

(** The union of [struct gpio_config_data]; the delays are in milliseconds. *)
Inductive gpio_config :=
  | ConfigDdc (type : gpio_ddc_config_type)
  | ConfigHpd (delay_on_connect delay_on_disconnect : Z).

(** ** Pins ([hw_gpio.c], [hw_gpio_pin.c], [hw_ddc.c], [hw_hpd.c]) *)

Record addr_mask := AddrMask { am_addr : Z; am_mask : Z }.
Record hw_gpio_pin_reg := PinReg { DC_GPIO_DATA_MASK : addr_mask; DC_GPIO_DATA_A : addr_mask; DC_GPIO_DATA_EN : addr_mask; DC_GPIO_DATA_Y : addr_mask }.
Inductive pin_kind := PinDdc | PinHpd.

(** [struct hw_gpio]; [setup_addr] is the address of the set-up register of a
    DDC line or of the filter of a hot-plug pin, [status_addr] that of the
    status of a hot-plug pin.  No pin supports the mux. *)
Record hw_gpio := HwGpio {
  hp_kind : pin_kind;
  hp_id : Z;
  hp_en : Z;
  hp_mode : gpio_mode;
  hp_opened : bool;
  pin_reg : hw_gpio_pin_reg;
  setup_addr : Z;
  status_addr : Z;
  store_mask : Z;
  store_a : Z;
  store_en : Z }.
Definition with_mode (m : gpio_mode) (p : hw_gpio) : hw_gpio :=
  HwGpio (hp_kind p) (hp_id p) (hp_en p) m (hp_opened p) (pin_reg p) (setup_addr p) (status_addr p) (store_mask p) (store_a p) (store_en p).
Definition with_opened (b : bool) (p : hw_gpio) : hw_gpio :=
  HwGpio (hp_kind p) (hp_id p) (hp_en p) (hp_mode p) b (pin_reg p) (setup_addr p) (status_addr p) (store_mask p) (store_a p) (store_en p).

(** The service's bits and the registers. *)
Record gpio_state := GpioState { busyness : list (option (list Z)); regs : Z -> Z }.
Definition set_regs (r : Z -> Z) (s : gpio_state) : gpio_state := GpioState (busyness s) r.
Definition set_busyness (b : list (option (list Z))) (s : gpio_state) : gpio_state := GpioState b (regs s).
Notation GM := (M gpio_state).

Definition dm_read_reg (addr : Z) : GM Z := gets (fun s => regs s addr).
Definition dm_write_reg (addr v : Z) : GM unit := modify (fun s => set_regs (fun a => if a =? addr then v else regs s a) s).

Definition dal_hw_gpio_get_reg_value (r : addr_mask) : GM Z := v ← dm_read_reg (am_addr r); mret (Z.land v (am_mask r)).
Definition dal_hw_gpio_set_reg_value (r : addr_mask) (value : Z) : GM gpio_result :=
  if negb (Z.land value (am_mask r) =? value) then mret GPIO_RESULT_INVALID_DATA
  else
    prev_value ← dm_read_reg (am_addr r);
    dm_write_reg (am_addr r) (Z.lor (Z.land prev_value (u32 (Z.lnot (am_mask r)))) (Z.land value (am_mask r)));;
    mret GPIO_RESULT_OK.

(** The loop from [result] on; [n] positions are left. *)
Fixpoint shift_loop (n : nat) (result mask : Z) : Z :=
  match n with
  | O => result
  | S n => if negb (Z.land (u32 (Z.shiftl 1 result)) mask =? 0) then result else shift_loop n (result + 1) mask
  end.
Definition dal_hw_gpio_get_shift_from_mask (mask : Z) : Z := if mask =? 0 then 32 else shift_loop 32 0 mask.

Definition store_registers (p : hw_gpio) : GM hw_gpio :=
  m ← dal_hw_gpio_get_reg_value (DC_GPIO_DATA_MASK (pin_reg p));
  a ← dal_hw_gpio_get_reg_value (DC_GPIO_DATA_A (pin_reg p));
  e ← dal_hw_gpio_get_reg_value (DC_GPIO_DATA_EN (pin_reg p));
  mret (HwGpio (hp_kind p) (hp_id p) (hp_en p) (hp_mode p) (hp_opened p) (pin_reg p) (setup_addr p) (status_addr p) m a e).
Definition restore_registers (p : hw_gpio) : GM unit :=
  dal_hw_gpio_set_reg_value (DC_GPIO_DATA_MASK (pin_reg p)) (store_mask p);;
  dal_hw_gpio_set_reg_value (DC_GPIO_DATA_A (pin_reg p)) (store_a p);;
  dal_hw_gpio_set_reg_value (DC_GPIO_DATA_EN (pin_reg p)) (store_en p);;
  mret tt.

(** Two registers in turn; any failure is reported as non-specific. *)
Definition set_two (r1 : addr_mask) (v1 : Z) (r2 : addr_mask) (v2 : Z) : GM gpio_result :=
  res ← dal_hw_gpio_set_reg_value r1 v1;
  if negb (ok_result res) then mret GPIO_RESULT_NON_SPECIFIC_ERROR
  else
    res ← dal_hw_gpio_set_reg_value r2 v2;
    if negb (ok_result res) then mret GPIO_RESULT_NON_SPECIFIC_ERROR else mret GPIO_RESULT_OK.
Definition config_mode_input (p : hw_gpio) : GM gpio_result :=
  set_two (DC_GPIO_DATA_EN (pin_reg p)) 0 (DC_GPIO_DATA_MASK (pin_reg p)) (am_mask (DC_GPIO_DATA_MASK (pin_reg p))).
Definition config_mode_output (p : hw_gpio) : GM gpio_result :=
  set_two (DC_GPIO_DATA_EN (pin_reg p)) (am_mask (DC_GPIO_DATA_EN (pin_reg p))) (DC_GPIO_DATA_MASK (pin_reg p)) (am_mask (DC_GPIO_DATA_MASK (pin_reg p))).
Definition config_mode_fast_output (p : hw_gpio) : GM gpio_result :=
  set_two (DC_GPIO_DATA_A (pin_reg p)) 0 (DC_GPIO_DATA_MASK (pin_reg p)) (am_mask (DC_GPIO_DATA_MASK (pin_reg p))).
Definition config_mode_hardware (p : hw_gpio) : GM gpio_result :=
  res ← dal_hw_gpio_set_reg_value (DC_GPIO_DATA_MASK (pin_reg p)) 0;
  if negb (ok_result res) then mret GPIO_RESULT_NON_SPECIFIC_ERROR else mret GPIO_RESULT_OK.
Definition dal_hw_gpio_config_mode (p : hw_gpio) (mode : gpio_mode) : GM (gpio_result * hw_gpio) :=
  let p := with_mode mode p in
  res ← (match mode with
         | GPIO_MODE_INPUT => config_mode_input p
         | GPIO_MODE_OUTPUT => config_mode_output p
         | GPIO_MODE_FAST_OUTPUT => config_mode_fast_output p
         | GPIO_MODE_HARDWARE => config_mode_hardware p
         | _ => mret GPIO_RESULT_NON_SPECIFIC_ERROR
         end);
  mret (res, p).
(** [config_mode] of a hot-plug pin knows the interrupt mode. *)
Definition hpd_config_mode (p : hw_gpio) (mode : gpio_mode) : GM (gpio_result * hw_gpio) :=
  match mode with
  | GPIO_MODE_INTERRUPT => res ← dal_hw_gpio_set_reg_value (DC_GPIO_DATA_MASK (pin_reg p)) 0; mret (res, with_mode mode p)
  | _ => dal_hw_gpio_config_mode p mode
  end.
Definition dal_hw_gpio_change_mode (p : hw_gpio) (mode : gpio_mode) : GM (gpio_result * hw_gpio) :=
  match hp_kind p with PinDdc => dal_hw_gpio_config_mode p mode | PinHpd => hpd_config_mode p mode end.

Definition dal_hw_gpio_open (p : hw_gpio) (mode : gpio_mode) : GM (bool * hw_gpio) :=
  p ← store_registers p;
  '(res, p) ← dal_hw_gpio_change_mode p mode;
  mret (ok_result res, with_opened (ok_result res) p).
(** [options] says whether there is a place for the options, which come back. *)
Definition dal_hw_ddc_open (p : hw_gpio) (mode : gpio_mode) (options : bool) : GM (bool * hw_gpio * bool) :=
  if negb options then mret (false, p, false)
  else
    en ← dal_hw_gpio_get_reg_value (DC_GPIO_DATA_EN (pin_reg p));
    '(ok, p) ← dal_hw_gpio_open p mode;
    mret (ok, p, negb (en =? 0)).
Definition dal_hw_gpio_close (p : hw_gpio) : GM hw_gpio := restore_registers p;; mret (with_opened false (with_mode GPIO_MODE_UNKNOWN p)).

(** The value, when it can be read. *)
Definition dal_hw_gpio_get_value (p : hw_gpio) : GM (gpio_result * Z) :=
  match hp_mode p with
  | GPIO_MODE_INPUT | GPIO_MODE_OUTPUT | GPIO_MODE_HARDWARE | GPIO_MODE_FAST_OUTPUT =>
      v ← dal_hw_gpio_get_reg_value (DC_GPIO_DATA_Y (pin_reg p));
      let sh := dal_hw_gpio_get_shift_from_mask (am_mask (DC_GPIO_DATA_Y (pin_reg p))) in
      if 32 <=? sh then fault else mret (GPIO_RESULT_OK, Z.shiftr v sh)
  | _ => mret (GPIO_RESULT_NON_SPECIFIC_ERROR, 0)
  end.
Definition dal_hw_gpio_set_value (p : hw_gpio) (value : Z) : GM gpio_result :=
  match hp_mode p with
  | GPIO_MODE_OUTPUT =>
      let sh := dal_hw_gpio_get_shift_from_mask (am_mask (DC_GPIO_DATA_A (pin_reg p))) in
      if 32 <=? sh then fault else dal_hw_gpio_set_reg_value (DC_GPIO_DATA_A (pin_reg p)) (u32 (Z.shiftl value sh))
  | GPIO_MODE_FAST_OUTPUT =>
      let m := am_mask (DC_GPIO_DATA_EN (pin_reg p)) in
      let sh := dal_hw_gpio_get_shift_from_mask m in
      if 32 <=? sh then fault else dal_hw_gpio_set_reg_value (DC_GPIO_DATA_EN (pin_reg p)) (Z.land m (u32 (Z.lnot (u32 (Z.shiftl value sh)))))
  | _ => mret GPIO_RESULT_NON_SPECIFIC_ERROR
  end.

(** ** The pads of the lines ([dce110/hw_ddc_dce110.c]) *)

Definition DC_GPIO_DDC1DATA_PD_EN : field := (12, 0x1000).
Definition DC_GPIO_DDC1CLK_PD_EN : field := (4, 0x10).
Definition AUX_PAD1_MODE : field := (0x10, 0x10000).
Definition DC_GPIO_SDA_PD_DIS : field := (5, 0x20).
Definition DC_GPIO_SCL_PD_DIS : field := (1, 0x2).
Definition DC_I2C_DDC1_ENABLE : field := (6, 0x40).
Definition DC_I2C_DDC1_EDID_DETECT_ENABLE : field := (4, 0x10).
Definition DC_I2C_DDC1_EDID_DETECT_MODE : field := (5, 0x20).
Definition GPIO_DDC_LINE_DDC_VGA : Z := 6.
Definition GPIO_DDC_LINE_VIP_PAD : Z := 7.
Definition GPIO_DDC_LINE_COUNT : Z := 8.

Definition setup_i2c_polling (addr enable_detect detect_mode : Z) : GM unit :=
  value ← dm_read_reg addr;
  let value := set_field DC_I2C_DDC1_ENABLE enable_detect value in
  let value := set_field DC_I2C_DDC1_EDID_DETECT_ENABLE enable_detect value in
  let value := if negb (enable_detect =? 0) then set_field DC_I2C_DDC1_EDID_DETECT_MODE detect_mode value else value in
  dm_write_reg addr value.

(** The polling configurations, for the lines that have a set-up register. *)
Definition poll_config (p : hw_gpio) (enable_detect detect_mode : Z) : GM gpio_result :=
  if hp_en p <=? GPIO_DDC_LINE_DDC_VGA then setup_i2c_polling (setup_addr p) enable_detect detect_mode;; mret GPIO_RESULT_OK
  else mret GPIO_RESULT_NON_SPECIFIC_ERROR.

Definition ddc_set_config (p : hw_gpio) (type : gpio_ddc_config_type) : GM gpio_result :=
  let addr := am_addr (DC_GPIO_DATA_MASK (pin_reg p)) in
  regval ← dm_read_reg addr;
  let ddc_data_pd_en := get_field DC_GPIO_DDC1DATA_PD_EN regval in
  let ddc_clk_pd_en := get_field DC_GPIO_DDC1CLK_PD_EN regval in
  let aux_pad_mode := get_field AUX_PAD1_MODE regval in
  match type with
  | GPIO_DDC_CONFIG_TYPE_MODE_I2C =>
      (if negb (hp_en p =? GPIO_DDC_LINE_VIP_PAD) then
         if (ddc_data_pd_en =? 0) || (ddc_clk_pd_en =? 0)
         then dm_write_reg addr (set_field DC_GPIO_DDC1CLK_PD_EN 1 (set_field DC_GPIO_DDC1DATA_PD_EN 1 regval)) else mret tt
       else
         (* the bits are computed and the register is written as it was *)
         (if negb (get_field DC_GPIO_SDA_PD_DIS regval =? 0) then dm_write_reg addr regval else mret tt);;
         (if get_field DC_GPIO_SCL_PD_DIS regval =? 0 then dm_write_reg addr regval else mret tt));;
      (if negb (aux_pad_mode =? 0) then regval ← dm_read_reg addr; dm_write_reg addr (set_field AUX_PAD1_MODE 0 regval) else mret tt);;
      mret GPIO_RESULT_OK
  | GPIO_DDC_CONFIG_TYPE_MODE_AUX =>
      (if aux_pad_mode =? 0 then dm_write_reg addr (set_field AUX_PAD1_MODE 1 regval) else mret tt);;
      mret GPIO_RESULT_OK
  | GPIO_DDC_CONFIG_TYPE_POLL_FOR_CONNECT => poll_config p 1 0
  | GPIO_DDC_CONFIG_TYPE_POLL_FOR_DISCONNECT => poll_config p 1 1
  | GPIO_DDC_CONFIG_TYPE_DISABLE_POLLING => poll_config p 0 0
  end.

(** ** Hot-plug pins ([dce110/hw_hpd_dce110.c]) *)

Definition DC_HPD_SENSE_DELAYED : field := (4, 0x10).
Definition DC_HPD_CONNECT_INT_DELAY : field := (0, 0xff).
Definition DC_HPD_DISCONNECT_INT_DELAY : field := (0x14, 0xff00000).

Definition hpd_get_value (p : hw_gpio) : GM (gpio_result * Z) :=
  match hp_mode p with
  | GPIO_MODE_INTERRUPT => regval ← dm_read_reg (status_addr p); mret (GPIO_RESULT_OK, get_field DC_HPD_SENSE_DELAYED regval)
  | _ => dal_hw_gpio_get_value p
  end.
Definition hpd_set_config (p : hw_gpio) (delay_on_connect delay_on_disconnect : Z) : GM gpio_result :=
  value ← dm_read_reg (setup_addr p);
  let value := set_field DC_HPD_CONNECT_INT_DELAY (delay_on_connect / 10) value in
  let value := set_field DC_HPD_DISCONNECT_INT_DELAY (delay_on_disconnect / 10) value in
  dm_write_reg (setup_addr p) value;;
  mret GPIO_RESULT_OK.

(** The operations of a pin's function table; a configuration is that of the
    kind of the pin (reading the other member of the union is a fault). *)
Definition pin_get_value (p : hw_gpio) : GM (gpio_result * Z) :=
  match hp_kind p with PinDdc => dal_hw_gpio_get_value p | PinHpd => hpd_get_value p end.
Definition pin_set_config (p : hw_gpio) (c : gpio_config) : GM gpio_result :=
  match hp_kind p, c with
  | PinDdc, ConfigDdc type => ddc_set_config p type
  | PinHpd, ConfigHpd delay_on_connect delay_on_disconnect => hpd_set_config p delay_on_connect delay_on_disconnect
  | _, _ => fault
  end.
Definition pin_open (p : hw_gpio) (mode : gpio_mode) (options : bool) : GM (bool * hw_gpio * bool) :=
  match hp_kind p with
  | PinDdc => dal_hw_ddc_open p mode options
  | PinHpd => '(ok, p) ← dal_hw_gpio_open p mode; mret (ok, p, false)
  end.

(** ** The service ([gpio_service.c]) *)

Section service.
(** The function that makes a pin of a kind of pins, if there is one. *)
Context (factory : Z -> option (Z -> option hw_gpio)).

(** The slot of a pin: the word and its bit. *)
Definition busy_slot (id en : Z) : GM (list Z * Z) :=
  b ← gets busyness;
  if (id <? 0) || (en <? 0) then fault
  else
    slots ← deref (b !! Z.to_nat id ≫= fun x => x);
    w ← deref (slots !! Z.to_nat (en / 32));
    mret (slots, w).
Definition is_pin_busy (id en : Z) : GM bool :=
  '(_, w) ← busy_slot id en;
  mret (negb (Z.land w (u32 (Z.shiftl 1 (en mod 32))) =? 0)).
Definition write_slot (id en : Z) (slots : list Z) (w : Z) : GM unit :=
  modify (fun s => set_busyness (<[Z.to_nat id := Some (<[Z.to_nat (en / 32) := w]> slots)]> (busyness s)) s).
Definition set_pin_busy (id en : Z) : GM unit :=
  '(slots, w) ← busy_slot id en;
  write_slot id en slots (Z.lor w (u32 (Z.shiftl 1 (en mod 32)))).
Definition set_pin_free (id en : Z) : GM unit :=
  '(slots, w) ← busy_slot id en;
  write_slot id en slots (Z.land w (u32 (Z.lnot (u32 (Z.shiftl 1 (en mod 32)))))).

(** Closing a pin; the pin is destroyed and the pointer is cleared. *)
Definition dal_gpio_service_close (p : option hw_gpio) : GM unit :=
  match p with
  | None => mret tt
  | Some p => set_pin_free (hp_id p) (hp_en p);; dal_hw_gpio_close p;; mret tt
  end.

(** The result, the pin and the option of a DDC pin. *)
Definition dal_gpio_service_open (id en : Z) (mode : gpio_mode) (options : bool) : GM (gpio_result * option hw_gpio * bool) :=
  b ← gets busyness;
  if (id <? 0) then fault
  else
    slot ← deref (b !! Z.to_nat id);
    match slot with
    | None => mret (GPIO_RESULT_OPEN_FAILED, None, false)
    | Some _ =>
        busy ← is_pin_busy id en;
        if (busy : bool) then mret (GPIO_RESULT_DEVICE_BUSY, None, false)
        else if id =? GPIO_ID_VIP_PAD then mret (GPIO_RESULT_NON_SPECIFIC_ERROR, None, false)
        else
          create ← deref (factory id);
          match create en with
          | None => mret (GPIO_RESULT_NON_SPECIFIC_ERROR, None, false)
          | Some p =>
              '(ok, p, opt) ← pin_open p mode options;
              if negb ok then dal_gpio_service_close (Some p);; mret (GPIO_RESULT_OPEN_FAILED, None, opt)
              else
                set_pin_busy id en;;
                mret (GPIO_RESULT_OK, Some p, opt)
          end
    end.

(** ** Handles ([gpio_base.c]) *)

Record gpio := Gpio { g_pin : option hw_gpio; g_id : Z; g_en : Z; g_mode : gpio_mode }.
Definition dal_gpio_create (id en : Z) : gpio := Gpio None id en GPIO_MODE_UNKNOWN.

Definition dal_gpio_open_ex (g : gpio) (mode : gpio_mode) (options : bool) : GM (gpio_result * gpio * bool) :=
  match g_pin g with
  | Some _ => mret (GPIO_RESULT_ALREADY_OPENED, g, false)
  | None =>
      '(res, p, opt) ← dal_gpio_service_open (g_id g) (g_en g) mode options;
      mret (res, Gpio p (g_id g) (g_en g) mode, opt)
  end.
Definition dal_gpio_open (g : gpio) (mode : gpio_mode) : GM (gpio_result * gpio * bool) := dal_gpio_open_ex g mode false.
Definition dal_gpio_close (g : gpio) : GM gpio :=
  dal_gpio_service_close (g_pin g);; mret (Gpio None (g_id g) (g_en g) GPIO_MODE_UNKNOWN).
Definition dal_gpio_get_value (g : gpio) : GM (gpio_result * Z) :=
  match g_pin g with None => mret (GPIO_RESULT_NULL_HANDLE, 0) | Some p => pin_get_value p end.
Definition dal_gpio_set_value (g : gpio) (value : Z) : GM gpio_result :=
  match g_pin g with None => mret GPIO_RESULT_NULL_HANDLE | Some p => dal_hw_gpio_set_value p value end.
(** The mode of the handle stays as it was. *)
Definition dal_gpio_change_mode (g : gpio) (mode : gpio_mode) : GM (gpio_result * gpio) :=
  match g_pin g with
  | None => mret (GPIO_RESULT_NULL_HANDLE, g)
  | Some p => '(res, p) ← dal_hw_gpio_change_mode p mode; mret (res, Gpio (Some p) (g_id g) (g_en g) (g_mode g))
  end.
Definition dal_gpio_set_config (g : gpio) (c : gpio_config) : GM gpio_result :=
  match g_pin g with None => mret GPIO_RESULT_NULL_HANDLE | Some p => pin_set_config p c end.

(** ** Lines ([ddc.c]) *)

Record ddc := Ddc { pin_data : gpio; pin_clock : gpio; hw_supported : bool }.

Definition dal_ddc_open (d : ddc) (mode : gpio_mode) (config_type : gpio_ddc_config_type) : GM (gpio_result * ddc) :=
  '(res, gd, _) ← dal_gpio_open_ex (pin_data d) mode true;
  if negb (ok_result res) then mret (res, Ddc gd (pin_clock d) (hw_supported d))
  else
    '(res, gc, _) ← dal_gpio_open_ex (pin_clock d) mode true;
    if negb (ok_result res) then gd ← dal_gpio_close gd; mret (res, Ddc gd gc (hw_supported d))
    else
      res ← dal_gpio_set_config gd (ConfigDdc config_type);
      if ok_result res then mret (res, Ddc gd gc (hw_supported d))
      else
        gc ← dal_gpio_close gc;
        gd ← dal_gpio_close gd;
        mret (res, Ddc gd gc (hw_supported d)).
Definition dal_ddc_close (d : ddc) : GM ddc :=
  gc ← dal_gpio_close (pin_clock d);
  gd ← dal_gpio_close (pin_data d);
  mret (Ddc gd gc (hw_supported d)).
Definition dal_ddc_change_mode (d : ddc) (mode : gpio_mode) : GM (gpio_result * ddc) :=
  let original_mode := g_mode (pin_data d) in
  '(res, gd) ← dal_gpio_change_mode (pin_data d) mode;
  if negb (ok_result res) then
    '(_, gd) ← dal_gpio_change_mode gd original_mode; mret (res, Ddc gd (pin_clock d) (hw_supported d))
  else
    '(res, gc) ← dal_gpio_change_mode (pin_clock d) mode;
    if ok_result res then mret (res, Ddc gd gc (hw_supported d))
    else
      '(_, gc) ← dal_gpio_change_mode gc original_mode;
      '(_, gd) ← dal_gpio_change_mode gd original_mode;
      mret (res, Ddc gd gc (hw_supported d)).
Definition dal_ddc_get_clock (d : ddc) : GM (gpio_result * Z) := dal_gpio_get_value (pin_clock d).
Definition dal_ddc_set_clock (d : ddc) (value : Z) : GM gpio_result := dal_gpio_set_value (pin_clock d) value.
Definition dal_ddc_get_data (d : ddc) : GM (gpio_result * Z) := dal_gpio_get_value (pin_data d).
Definition dal_ddc_set_data (d : ddc) (value : Z) : GM gpio_result := dal_gpio_set_value (pin_data d) value.
Definition dal_ddc_set_config (d : ddc) (config_type : gpio_ddc_config_type) : GM gpio_result := dal_gpio_set_config (pin_data d) (ConfigDdc config_type).
(** The line of the pins when the hardware serves it ([i2caux.c]). *)
Definition get_hw_supported_ddc_line (d : ddc) : option Z :=
  if negb (hw_supported d) then None else if GPIO_DDC_LINE_COUNT <=? g_en (pin_data d) then None else Some (g_en (pin_data d)).

(** ** Interrupt pins ([irq.c]) *)

Definition dal_gpio_create_irq (id en : Z) : option gpio := if (id =? GPIO_ID_HPD) || (id =? GPIO_ID_GPIO_PAD) then Some (dal_gpio_create id en) else None.
Definition dal_irq_open (g : gpio) : GM (gpio_result * gpio * bool) := dal_gpio_open g GPIO_MODE_INTERRUPT.
Definition dal_irq_get_value (g : gpio) : GM (gpio_result * Z) := dal_gpio_get_value g.
Definition dal_irq_setup_hpd_filter (g : gpio) (config : option (Z * Z)) : GM gpio_result :=
  match config with None => mret GPIO_RESULT_INVALID_DATA | Some (c, d) => dal_gpio_set_config g (ConfigHpd c d) end.
Definition dal_irq_close (g : gpio) : GM gpio := dal_gpio_close g.
End service.

(** ** Bits of registers *)

Definition rbit (r : Z -> Z) (a i : Z) : bool := Z.testbit (r a) i.
Definition is_bit (i : Z) : Prop := 0 <= i < 32.
(** The registers of a pin that are saved, with what is saved. *)
Definition saved (p : hw_gpio) : list (addr_mask * Z) :=
  [(DC_GPIO_DATA_MASK (pin_reg p), store_mask p); (DC_GPIO_DATA_A (pin_reg p), store_a p); (DC_GPIO_DATA_EN (pin_reg p), store_en p)].
Definition saved_regs (p : hw_gpio) : list addr_mask := [DC_GPIO_DATA_MASK (pin_reg p); DC_GPIO_DATA_A (pin_reg p); DC_GPIO_DATA_EN (pin_reg p)].
Definition covers (p : hw_gpio) (a i : Z) : Prop := exists r, r ∈ saved_regs p /\ am_addr r = a /\ Z.testbit (am_mask r) i = true.
(** The service's bits are the same, and so are the bits outside [P]. *)
Definition touches (P : Z -> Z -> Prop) (s s' : gpio_state) : Prop := busyness s' = busyness s /\ forall a i, is_bit i -> ~ P a i -> rbit (regs s') a i = rbit (regs s) a i.
Definition in_reg (r : addr_mask) (a i : Z) : Prop := am_addr r = a /\ Z.testbit (am_mask r) i = true.

Lemma touches_refl P s : touches P s s.
Proof. by split. Qed.
Lemma touches_trans P s1 s2 s3 : touches P s1 s2 -> touches P s2 s3 -> touches P s1 s3.
Proof. intros [B1 H1] [B2 H2]. split; [congruence|]. intros a i Hi HP. by rewrite H2, H1. Qed.
Lemma touches_weaken (P Q : Z -> Z -> Prop) s s' : (forall a i, P a i -> Q a i) -> touches P s s' -> touches Q s s'.
Proof. intros H [B T]. split; [done|]. intros a i Hi HQ. apply T; [done|]. intros HP. by apply HQ, H. Qed.

Lemma merged_bit mask prev v i : is_bit i -> Z.testbit (Z.lor (Z.land prev (u32 (Z.lnot mask))) (Z.land v mask)) i = if Z.testbit mask i then Z.testbit v i else Z.testbit prev i.
Proof.
  intros Hi. unfold is_bit in Hi. rewrite Z.lor_spec, !Z.land_spec, testbit_u32, Z.lnot_spec by lia. destruct (Z.ltb_spec i 32); [|lia]. destruct (Z.testbit mask i); cbn; [by rewrite andb_false_r, andb_true_r|by rewrite andb_true_r, andb_false_r, orb_false_r].
Qed.
Lemma set_reg_value_run r v s :
  exists res s', dal_hw_gpio_set_reg_value r v s = Ok (res, s') /\ touches (in_reg r) s s' /\
    (Z.land v (am_mask r) = v -> res = GPIO_RESULT_OK /\ forall i, is_bit i -> Z.testbit (am_mask r) i = true -> rbit (regs s') (am_addr r) i = Z.testbit v i).
Proof.
  unfold dal_hw_gpio_set_reg_value. destruct (Z.eqb_spec (Z.land v (am_mask r)) v) as [E|E]; cbn [negb].
  - eexists _, _. split; [reflexivity|]. split; [split; [done|]|intros _; split; [done|]].
    + intros a i Hi HP. unfold rbit. cbn. destruct (Z.eqb_spec a (am_addr r)) as [->|]; [|done]. rewrite merged_bit by done. destruct (Z.testbit (am_mask r) i) eqn:Em; [by destruct HP|done].
    + intros i Hi Em. unfold rbit. cbn. by rewrite Z.eqb_refl, merged_bit, Em.
  - eexists _, _. split; [reflexivity|]. split; [apply touches_refl|done].
Qed.

(** [within P m]: [m] returns and touches the bits of [P] only. *)
Definition within {A} (P : Z -> Z -> Prop) (m : GM A) : Prop := forall s, returns m s (fun _ s' => touches P s s').
Lemma within_ret {A} P (a : A) : within P (mret a).
Proof. intros s. apply returns_ret, touches_refl. Qed.
Lemma within_bind {A B} P (m : GM A) (k : A -> GM B) : within P m -> (forall a, within P (k a)) -> within P (mbind k m).
Proof. intros Hm Hk s. eapply returns_bind; [apply Hm|]. intros a s' H. eapply returns_weaken; [apply Hk|]. intros b s2 H2. exact (touches_trans _ _ _ _ H H2). Qed.
Lemma within_if {A} P (b : bool) (m1 m2 : GM A) : within P m1 -> within P m2 -> within P (if b then m1 else m2).
Proof. by destruct b. Qed.
Lemma within_gets {A} P (f : gpio_state -> A) : within P (gets f).
Proof. intros s. eexists _, _. split; [reflexivity|]. apply touches_refl. Qed.
Lemma within_set (P : Z -> Z -> Prop) r v : (forall a i, in_reg r a i -> P a i) -> within P (dal_hw_gpio_set_reg_value r v).
Proof. intros H s. destruct (set_reg_value_run r v s) as (res & s' & E & T & _). exists res, s'. split; [done|]. by eapply touches_weaken. Qed.
Create HintDb within.
#[export] Hint Resolve within_ret within_bind within_if within_gets : within.

Lemma covers_mask p a i : in_reg (DC_GPIO_DATA_MASK (pin_reg p)) a i -> covers p a i.
Proof. intros [? ?]. eexists. split; [left|done]. Qed.
Lemma covers_a p a i : in_reg (DC_GPIO_DATA_A (pin_reg p)) a i -> covers p a i.
Proof. intros [? ?]. eexists. split; [right; left|done]. Qed.
Lemma covers_en p a i : in_reg (DC_GPIO_DATA_EN (pin_reg p)) a i -> covers p a i.
Proof. intros [? ?]. eexists. split; [right; right; left|done]. Qed.
#[export] Hint Resolve within_set covers_mask covers_a covers_en : within.

Lemma within_change_mode p mode : within (covers p) (dal_hw_gpio_change_mode p mode).
Proof.
  unfold dal_hw_gpio_change_mode, hpd_config_mode, dal_hw_gpio_config_mode, config_mode_input, config_mode_output, config_mode_fast_output, config_mode_hardware, set_two.
  destruct (hp_kind p), mode; cbn [with_mode pin_reg]; auto 10 with within.
Qed.
Lemma within_store p : within (covers p) (store_registers p).
Proof. unfold store_registers, dal_hw_gpio_get_reg_value, dm_read_reg. auto 15 with within. Qed.

(** The bits a configuration of a line changes. *)
Definition pad_bit (p : hw_gpio) (a i : Z) : Prop :=
  (a = am_addr (DC_GPIO_DATA_MASK (pin_reg p)) /\ (i = 16 \/ hp_en p <> GPIO_DDC_LINE_VIP_PAD /\ (i = 4 \/ i = 12))) \/ (hp_en p <> GPIO_DDC_LINE_VIP_PAD /\ a = setup_addr p).

Lemma set_field_other f x v i : is_bit i -> Z.testbit (snd f) i = false -> Z.testbit (set_field f x v) i = Z.testbit v i.
Proof.
  intros Hi Hm. unfold is_bit in Hi. unfold set_field, set_reg_field_value_ex. rewrite Z.lor_spec, !Z.land_spec, testbit_u32, Z.lnot_spec by lia.
  rewrite Hm. destruct (Z.ltb_spec i 32); [|lia]. cbn. by rewrite andb_true_r, orb_false_r.
Qed.
Lemma touches_write (P : Z -> Z -> Prop) addr v s :
  (forall i, is_bit i -> ~ P addr i -> Z.testbit v i = rbit (regs s) addr i) -> exists s', dm_write_reg addr v s = Ok (tt, s') /\ touches P s s' /\ regs s' addr = v.
Proof.
  intros H. eexists. split; [reflexivity|]. split; [split; [done|]|cbn; by rewrite Z.eqb_refl]. intros a i Hi HP. unfold rbit. cbn. destruct (Z.eqb_spec a addr) as [->|]; [by apply H|done].
Qed.
Lemma mask_bit k i : 0 <= k -> i <> k -> Z.testbit (2 ^ k) i = false.
Proof. intros Hk Hi. rewrite Z.pow2_bits_eqb by done. by apply Z.eqb_neq. Qed.

(** Writing a register in which only bits of [P] differ from what is there. *)
Lemma returns_write {A} (P : Z -> Z -> Prop) addr v (k : GM A) s0 s :
  touches P s0 s -> (forall i, is_bit i -> ~ P addr i -> Z.testbit v i = rbit (regs s) addr i) -> (forall s', touches P s0 s' -> returns k s' (fun _ s' => touches P s0 s')) ->
  returns (dm_write_reg addr v;; k) s (fun _ s' => touches P s0 s').
Proof. intros Hs Hv Hk. destruct (touches_write P addr v s Hv) as (s' & E & T & _). eapply returns_run; [exact E|]. apply Hk. by eapply touches_trans. Qed.

Lemma within_polling p e m : within (pad_bit p) (poll_config p e m).
Proof.
  intros s. unfold poll_config. destruct (Z.leb_spec (hp_en p) GPIO_DDC_LINE_DDC_VGA) as [Hl|]; [|apply returns_ret, touches_refl]. unfold setup_i2c_polling.
  destruct (touches_write (pad_bit p) (setup_addr p) (let value := regs s (setup_addr p) in let value := set_field DC_I2C_DDC1_ENABLE e value in let value := set_field DC_I2C_DDC1_EDID_DETECT_ENABLE e value in
    if negb (e =? 0) then set_field DC_I2C_DDC1_EDID_DETECT_MODE m value else value) s) as (s' & E & T & _).
  - intros i Hi HP. destruct HP. right. split; [unfold GPIO_DDC_LINE_VIP_PAD, GPIO_DDC_LINE_DDC_VGA in *; lia|done].
  - eapply returns_run; [exact E|]. by apply returns_ret.
Qed.
Lemma within_set_config p type : within (pad_bit p) (ddc_set_config p type).
Proof.
  intros s. unfold ddc_set_config. destruct type; try (eapply returns_run; [done|]; apply within_polling); eapply returns_run; try done; set (addr := am_addr _).
  - destruct (_ =? 0); [|apply returns_ret, touches_refl]. eapply returns_write; [apply touches_refl| |intros s' T; by apply returns_ret].
    intros i Hi HP. apply set_field_other; [done|]. apply (mask_bit 16); [lia|]. intros ->. apply HP. left. auto.
  - match goal with |- context [mbind _ ?m1] => assert (H1 : returns m1 s (fun _ s' => touches (pad_bit p) s s')) end.
    { destruct (Z.eqb_spec (hp_en p) GPIO_DDC_LINE_VIP_PAD) as [Ep|Ep]; cbn [negb].
      - eapply returns_bind with (R := fun _ s' => touches (pad_bit p) s s' /\ regs s' addr = regs s addr).
        + destruct (negb _); [|apply returns_ret; split; [apply touches_refl|done]]. destruct (touches_write (pad_bit p) addr (regs s addr) s) as (s' & E & T & Ev); [done|]. by exists tt, s'.
        + intros _ s1 [T1 E1]. destruct (_ =? 0); [|by apply returns_ret]. destruct (touches_write (pad_bit p) addr (regs s addr) s1) as (s' & E & T & _); [intros; by rewrite <- E1|]. exists tt, s'. split; [done|]. by eapply touches_trans.
      - destruct (_ || _); [|apply returns_ret, touches_refl].
        destruct (touches_write (pad_bit p) addr (set_field DC_GPIO_DDC1CLK_PD_EN 1 (set_field DC_GPIO_DDC1DATA_PD_EN 1 (regs s addr))) s) as (s' & E & T & _); [|by exists tt, s'].
        intros i Hi HP. rewrite !set_field_other; [done|done| |done|].
        + apply (mask_bit 12); [lia|]. intros ->. apply HP. left. auto.
        + apply (mask_bit 4); [lia|]. intros ->. apply HP. left. auto. }
    eapply returns_bind; [exact H1|]. intros ? s1 T1. cbn beta in T1. destruct (negb (get_field AUX_PAD1_MODE _ =? 0)); [|eapply returns_run; [reflexivity|]; apply returns_ret; exact T1].
    eapply returns_bind with (R := fun _ s' => touches (pad_bit p) s s'); [|intros ? s2 T2; by apply returns_ret]. eapply returns_run; [done|].
    destruct (touches_write (pad_bit p) addr (set_field AUX_PAD1_MODE 0 (regs s1 addr)) s1) as (s' & E & T & _); [|exists tt, s'; split; [done|by eapply touches_trans]].
    intros i Hi HP. apply set_field_other; [done|]. apply (mask_bit 16); [lia|]. intros ->. apply HP. left. auto.
Qed.

Lemma within_hpd_config p c d : within (fun a _ => a = setup_addr p) (hpd_set_config p c d).
Proof.
  intros s. unfold hpd_set_config. eapply returns_run; [done|].
  match goal with |- returns (dm_write_reg ?a ?v;; _) s _ => destruct (touches_write (fun b _ => b = setup_addr p) a v s) as (s' & E & T & _) end; [done|]. eapply returns_run; [exact E|]. by apply returns_ret.
Qed.

(** ** The service's bits *)

Definition busy (s : gpio_state) (id en : Z) : bool :=
  match busyness s !! Z.to_nat id with
  | Some (Some slots) => match slots !! Z.to_nat (en / 32) with Some w => Z.testbit w (en mod 32) | None => false end
  | _ => false
  end.

Lemma busy_slot_Ok id en s r s' :
  busy_slot id en s = Ok (r, s') -> s' = s /\ 0 <= id /\ 0 <= en /\ busyness s !! Z.to_nat id = Some (Some (fst r)) /\ fst r !! Z.to_nat (en / 32) = Some (snd r).
Proof.
  unfold busy_slot. intros H. apply bind_Ok in H as (b & s1 & E & H). apply gets_Ok in E as [<- <-]. destruct (Z.ltb_spec id 0); [done|]. destruct (Z.ltb_spec en 0); [done|]. cbn [orb] in H.
  apply bind_Ok in H as (slots & s1 & E & H). apply deref_Ok in E as [E <-]. apply bind_Ok in H as (w & s1 & E' & H). apply deref_Ok in E' as [E' <-]. apply ret_Ok in H as [<- <-]. cbn.
  destruct (busyness s !! Z.to_nat id) as [[l|]|]; cbn in E; [|done|done]. injection E as ->. repeat split; (done || lia).
Qed.
Lemma busy_of_slot id en s r : busyness s !! Z.to_nat id = Some (Some (fst r)) -> fst r !! Z.to_nat (en / 32) = Some (snd r) -> busy s id en = Z.testbit (snd r) (en mod 32).
Proof. intros E1 E2. unfold busy. by rewrite E1, E2. Qed.
Lemma one_bit w k : 0 <= k < 32 -> negb (Z.land w (u32 (Z.shiftl 1 k)) =? 0) = Z.testbit w k.
Proof.
  intros Hk. rewrite Z.shiftl_1_l. assert (E : u32 (2 ^ k) = 2 ^ k).
  { apply u32_small. split; [lia|]. pose proof (Z.pow_lt_mono_r 2 k 32). lia. } rewrite E. destruct (Z.eqb_spec (Z.land w (2 ^ k)) 0) as [H|H]; cbn [negb].
  - assert (Ht : Z.testbit (Z.land w (2 ^ k)) k = false) by (rewrite H; apply Z.testbit_0_l). rewrite Z.land_spec, Z.pow2_bits_true, andb_true_r in Ht by lia. done.
  - destruct (Z.testbit w k) eqn:Ew; [done|]. destruct H. apply Z.bits_inj'. intros i Hi. rewrite Z.land_spec, Z.pow2_bits_eqb, Z.testbit_0_l by lia. destruct (Z.eqb_spec k i) as [->|]; [by rewrite Ew|apply andb_false_r].
Qed.
Lemma is_pin_busy_Ok id en s b s' : is_pin_busy id en s = Ok (b, s') -> s' = s /\ 0 <= id /\ 0 <= en /\ b = busy s id en.
Proof.
  unfold is_pin_busy. intros H. apply bind_Ok in H as ([slots w] & s1 & E & H). apply ret_Ok in H as [<- <-]. apply busy_slot_Ok in E as (-> & Hi & He & E1 & E2).
  rewrite one_bit by (apply Z.mod_pos_bound; lia). split; [done|]. split; [done|]. split; [done|]. by rewrite (busy_of_slot id en s (slots, w) E1 E2).
Qed.
(** A bit that is written, and the others. *)
Lemma write_slot_busy id en slots w w' s s' u id' en' (b : bool) :
  write_slot id en slots w' s = Ok (u, s') -> 0 <= id -> 0 <= en -> 0 <= id' -> 0 <= en' -> busyness s !! Z.to_nat id = Some (Some slots) -> slots !! Z.to_nat (en / 32) = Some w ->
  (forall k, 0 <= k < 32 -> Z.testbit w' k = if k =? en mod 32 then b else Z.testbit w k) ->
  regs s' = regs s /\ busy s' id' en' = if decide (id' = id /\ en' = en) then b else busy s id' en'.
Proof.
  unfold write_slot. intros H Hi He Hi' He' E1 E2 Hw. apply modify_Ok in H as <-. split; [done|]. unfold busy. cbn [set_busyness busyness].
  assert (Hlt : (Z.to_nat id < length (busyness s))%nat) by (by eapply lookup_lt_Some). assert (Hlt2 : (Z.to_nat (en / 32) < length slots)%nat) by (by eapply lookup_lt_Some).
  destruct (decide (id' = id)) as [->|Hn].
  - rewrite list_lookup_insert_eq by done. destruct (decide (en' / 32 = en / 32)) as [Eq|Hq].
    + rewrite Eq, list_lookup_insert_eq by done. rewrite Hw by (apply Z.mod_pos_bound; lia). rewrite E1, E2. pose proof (Z.div_mod en 32). pose proof (Z.div_mod en' 32).
      destruct (Z.eqb_spec (en' mod 32) (en mod 32)), (decide (id = id /\ en' = en)) as [[_ ->]|Hne]; try done; [destruct Hne; split; [done|lia]].
    + pose proof (Z.div_pos en 32). pose proof (Z.div_pos en' 32). rewrite list_lookup_insert_ne by lia. rewrite E1. rewrite decide_False by (intros [_ ->]; done). done.
  - rewrite list_lookup_insert_ne by lia. rewrite decide_False by (intros [-> _]; done). done.
Qed.
Lemma set_pin_busy_Ok id en s u s' id' en' :
  set_pin_busy id en s = Ok (u, s') -> 0 <= id' -> 0 <= en' -> regs s' = regs s /\ busy s' id' en' = if decide (id' = id /\ en' = en) then true else busy s id' en'.
Proof.
  unfold set_pin_busy. intros H Hi' He'. apply bind_Ok in H as ([slots w] & s1 & E & H). apply busy_slot_Ok in E as (-> & Hi & He & E1 & E2). cbn [fst snd] in *.
  eapply write_slot_busy; try done. intros k Hk. pose proof (Z.mod_pos_bound en 32 ltac:(lia)). rewrite Z.lor_spec, testbit_u32, Z.shiftl_1_l, Z.pow2_bits_eqb by lia.
  destruct (Z.ltb_spec k 32); [|lia]. rewrite Z.eqb_sym. destruct (k =? en mod 32); cbn; [apply orb_true_r|apply orb_false_r].
Qed.
Lemma set_pin_free_Ok id en s u s' id' en' :
  set_pin_free id en s = Ok (u, s') -> 0 <= id' -> 0 <= en' -> regs s' = regs s /\ busy s' id' en' = if decide (id' = id /\ en' = en) then false else busy s id' en'.
Proof.
  unfold set_pin_free. intros H Hi' He'. apply bind_Ok in H as ([slots w] & s1 & E & H). apply busy_slot_Ok in E as (-> & Hi & He & E1 & E2). cbn [fst snd] in *.
  eapply write_slot_busy; try done. intros k Hk. pose proof (Z.mod_pos_bound en 32 ltac:(lia)). rewrite Z.land_spec, testbit_u32, Z.lnot_spec, testbit_u32, Z.shiftl_1_l, Z.pow2_bits_eqb by lia.
  destruct (Z.ltb_spec k 32); [|lia]. rewrite Z.eqb_sym. destruct (k =? en mod 32); cbn; [apply andb_false_r|apply andb_true_r].
Qed.

(** ** Saving and restoring *)

Definition saved_ok (orig : Z -> Z) (p : hw_gpio) : Prop :=
  forall r st, (r, st) ∈ saved p -> Z.land st (am_mask r) = st /\ forall i, is_bit i -> Z.testbit (am_mask r) i = true -> Z.testbit st i = rbit orig (am_addr r) i.
(** The part of a pin that does not change. *)
Definition same_pin (p q : hw_gpio) : Prop := hp_kind p = hp_kind q /\ hp_id p = hp_id q /\ hp_en p = hp_en q /\ pin_reg p = pin_reg q /\ setup_addr p = setup_addr q.
Lemma same_pin_trans p q r : same_pin p q -> same_pin q r -> same_pin p r.
Proof. intros (? & ? & ? & ? & ?) (? & ? & ? & ? & ?). repeat split; congruence. Qed.
Lemma same_covers p q a i : same_pin p q -> covers p a i <-> covers q a i.
Proof. intros (_ & _ & _ & E & _). unfold covers, saved_regs. by rewrite E. Qed.

Lemma store_Ok p s q s' : store_registers p s = Ok (q, s') -> s' = s /\ same_pin q p /\ saved_ok (regs s) q /\ hp_mode q = hp_mode p.
Proof.
  unfold store_registers, dal_hw_gpio_get_reg_value, dm_read_reg. intros H. minv. split; [done|]. split; [by repeat split|]. split; [|done].
  assert (Hb : forall v m i, Z.testbit m i = true -> Z.testbit (Z.land v m) i = Z.testbit v i) by (intros v m i Hm; by rewrite Z.land_spec, Hm, andb_true_r).
  assert (Hl : forall v m, Z.land (Z.land v m) m = Z.land v m) by (intros v m; by rewrite <- Z.land_assoc, Z.land_diag).
  intros r st Hin. unfold saved in Hin. cbn [pin_reg store_mask store_a store_en] in Hin. rewrite !elem_of_cons, elem_of_nil in Hin.
  destruct Hin as [[= -> ->]|[[= -> ->]|[[= -> ->]|[]]]]; (split; [apply Hl|intros i _ Hm; by apply Hb]).
Qed.
Lemma saved_ok_orig orig r p : saved_ok r p -> (forall a i, is_bit i -> covers p a i -> rbit r a i = rbit orig a i) -> saved_ok orig p.
Proof.
  intros H Hr rg st Hin. destruct (H rg st Hin) as [H1 H2]. split; [done|]. intros i Hi Hm. rewrite H2 by done. apply Hr; [done|]. exists rg. split; [|done].
  unfold saved in Hin. repeat (apply elem_of_cons in Hin as [[= -> _]|Hin]); [left|right; left|right; right; left|by apply elem_of_nil in Hin].
Qed.

(** A step towards the original bits: none is lost, and those of [r] are there. *)
Lemma set_restores orig r st s :
  Z.land st (am_mask r) = st -> (forall i, is_bit i -> Z.testbit (am_mask r) i = true -> Z.testbit st i = rbit orig (am_addr r) i) ->
  exists res s', dal_hw_gpio_set_reg_value r st s = Ok (res, s') /\ touches (in_reg r) s s' /\
    (forall i, is_bit i -> Z.testbit (am_mask r) i = true -> rbit (regs s') (am_addr r) i = rbit orig (am_addr r) i) /\
    (forall a i, is_bit i -> rbit (regs s) a i = rbit orig a i -> rbit (regs s') a i = rbit orig a i).
Proof.
  intros Hl Hs. destruct (set_reg_value_run r st s) as (res & s' & E & T & Hv). destruct (Hv Hl) as [_ Hb]. exists res, s'. split; [done|]. split; [done|].
  assert (H1 : forall i, is_bit i -> Z.testbit (am_mask r) i = true -> rbit (regs s') (am_addr r) i = rbit orig (am_addr r) i) by (intros i Hi Hm; rewrite Hb, Hs; done).
  split; [done|]. intros a i Hi Ho. destruct (decide (am_addr r = a)) as [<-|Hn]; [destruct (Z.testbit (am_mask r) i) eqn:Em; [by apply H1|]|];
    (rewrite (proj2 T) by (first [done|unfold in_reg; intros [? ?]; congruence])); done.
Qed.
Lemma restore_run orig p s :
  saved_ok orig p -> exists s', restore_registers p s = Ok (tt, s') /\ touches (covers p) s s' /\ forall a i, is_bit i -> covers p a i -> rbit (regs s') a i = rbit orig a i.
Proof.
  intros H. unfold restore_registers.
  destruct (H (DC_GPIO_DATA_MASK (pin_reg p)) (store_mask p) ltac:(left)) as [L1 B1]. destruct (H (DC_GPIO_DATA_A (pin_reg p)) (store_a p) ltac:(right; left)) as [L2 B2]. destruct (H (DC_GPIO_DATA_EN (pin_reg p)) (store_en p) ltac:(right; right; left)) as [L3 B3].
  destruct (set_restores orig _ _ s L1 B1) as (r1 & s1 & E1 & T1 & G1 & K1). destruct (set_restores orig _ _ s1 L2 B2) as (r2 & s2 & E2 & T2 & G2 & K2). destruct (set_restores orig _ _ s2 L3 B3) as (r3 & s3 & E3 & T3 & G3 & K3).
  exists s3. split; [rewrite (bind_eval _ _ _ _ _ E1), (bind_eval _ _ _ _ _ E2), (bind_eval _ _ _ _ _ E3); done|].
  split; [eapply touches_trans; [eapply touches_weaken; [apply covers_mask|exact T1]|eapply touches_trans; [eapply touches_weaken; [apply covers_a|exact T2]|eapply touches_weaken; [apply covers_en|exact T3]]]|].
  intros a i Hi (r & Hr & <- & Hm). unfold saved_regs in Hr. rewrite !elem_of_cons, elem_of_nil in Hr. destruct Hr as [->|[->|[->|[]]]]; auto.
Qed.

Lemma change_mode_Ok p mode s res q s' : dal_hw_gpio_change_mode p mode s = Ok ((res, q), s') -> touches (covers p) s s' /\ same_pin q p /\ saved q = saved p.
Proof.
  intros E. destruct (within_change_mode p mode s) as (x & s2 & E2 & T). rewrite E in E2. injection E2 as <- <-. split; [done|].
  unfold dal_hw_gpio_change_mode, hpd_config_mode, dal_hw_gpio_config_mode in E. destruct (hp_kind p), mode; apply bind_Ok in E as (r & s3 & _ & E); apply ret_Ok in E as [[= _ <-] _]; by repeat split.
Qed.
Lemma set_value_Ok p v s res s' : dal_hw_gpio_set_value p v s = Ok (res, s') -> touches (covers p) s s'.
Proof.
  unfold dal_hw_gpio_set_value. intros H. destruct (hp_mode p); try (apply ret_Ok in H as [_ <-]; apply touches_refl); destruct (_ <=? _); try done.
  - destruct (set_reg_value_run (DC_GPIO_DATA_A (pin_reg p)) (u32 (Z.shiftl v (dal_hw_gpio_get_shift_from_mask (am_mask (DC_GPIO_DATA_A (pin_reg p)))))) s) as (r & s2 & E & T & _). rewrite E in H. injection H as _ <-. eapply touches_weaken; [apply covers_a|done].
  - destruct (set_reg_value_run (DC_GPIO_DATA_EN (pin_reg p)) (Z.land (am_mask (DC_GPIO_DATA_EN (pin_reg p))) (u32 (Z.lnot (u32 (Z.shiftl v (dal_hw_gpio_get_shift_from_mask (am_mask (DC_GPIO_DATA_EN (pin_reg p)))))))) ) s) as (r & s2 & E & T & _).
    rewrite E in H. injection H as _ <-. eapply touches_weaken; [apply covers_en|done].
Qed.

Lemma pin_open_Ok p mode options s ok q opt s' :
  pin_open p mode options s = Ok ((ok, q, opt), s') -> (hp_kind p = PinDdc -> options = true) -> touches (covers p) s s' /\ same_pin q p /\ saved_ok (regs s) q.
Proof.
  assert (Hopen : forall ok q s s', dal_hw_gpio_open p mode s = Ok ((ok, q), s') -> touches (covers p) s s' /\ same_pin q p /\ saved_ok (regs s) q).
  { unfold dal_hw_gpio_open. intros ok1 q1 s1 s2 H. apply bind_Ok in H as (p1 & s3 & E & H). apply store_Ok in E as (-> & Sp & Sv & _). apply bind_Ok in H as ([res p2] & s3 & E & H).
    apply change_mode_Ok in E as (T & Sp2 & Es). apply ret_Ok in H as [[= _ <-] <-]. split; [eapply touches_weaken; [|exact T]; intros a i; by apply (same_covers p1 p)|].
    split; [by apply (same_pin_trans _ p1)|]. intros r st Hin. apply Sv. by rewrite <- Es. }
  unfold pin_open. intros H Hk. destruct (hp_kind p).
  - rewrite (Hk eq_refl) in H. unfold dal_hw_ddc_open, dal_hw_gpio_get_reg_value, dm_read_reg in H. cbn [negb] in H. apply bind_Ok in H as (en & s1 & E & H). apply bind_Ok in E as (v & s2 & E & E'). apply gets_Ok in E as [_ <-]. apply ret_Ok in E' as [_ <-]. apply bind_Ok in H as ([ok1 p1] & s2 & E & H).
    apply ret_Ok in H as [[= _ <- _] <-]. by apply (Hopen ok1).
  - apply bind_Ok in H as ([ok1 p1] & s2 & E & H). apply ret_Ok in H as [[= _ <- _] <-]. by apply (Hopen ok1).
Qed.

(** Closing: the pin's bit is cleared and its registers are as they were. *)
Definition freed (id en : Z) (s s' : gpio_state) : Prop :=
  forall id' en', 0 <= id' -> 0 <= en' -> busy s' id' en' = if decide (id' = id /\ en' = en) then false else busy s id' en'.
Lemma close_Ok orig p s u s' :
  dal_gpio_service_close (Some p) s = Ok (u, s') -> saved_ok orig p ->
  freed (hp_id p) (hp_en p) s s' /\ (forall a i, is_bit i -> ~ covers p a i -> rbit (regs s') a i = rbit (regs s) a i) /\ (forall a i, is_bit i -> covers p a i -> rbit (regs s') a i = rbit orig a i).
Proof.
  cbn [dal_gpio_service_close]. intros H Hs. apply bind_Ok in H as (u1 & s1 & E & H). apply bind_Ok in H as (q & s2 & E2 & H). apply ret_Ok in H as [_ <-].
  unfold dal_hw_gpio_close in E2. destruct (restore_run orig p s1 Hs) as (s3 & E3 & [Tb T] & R). rewrite (bind_eval _ _ _ _ _ E3) in E2. apply ret_Ok in E2 as [_ <-].
  destruct (set_pin_free_Ok _ _ _ _ _ 0 0 E ltac:(lia) ltac:(lia)) as [Er _]. split; [|split].
  - intros id' en' Hi He. unfold busy. rewrite Tb. by apply (set_pin_free_Ok _ _ _ _ _ id' en' E).
  - intros a i Hi Hc. rewrite T by done. by rewrite Er.
  - exact R.
Qed.
