(* ===== verification/GpioSpec.v ===== *)
(** * The pins of DCE 11 and their clients ([dal/dc/gpio])

    The register tables of the DDC and hot-plug pins, the factory that makes
    pins from them, the translation between registers and pins, and the
    service's own creation.  The clients of the service hold handles, which
    they open, use and close in any order.

    Proved, for any factory whose pins have registers of their own
    ([FactoryOk], which the DCE 11 tables satisfy): two open handles are on
    different pins and on different register bits ([gpio_pins_exclusive]); the
    bits of a pin that no handle holds are what they were before the first one
    was opened ([gpio_registers_restored]); a DDC line opens with both pins
    or with neither ([ddc_open_all_or_nothing]); the translations of DCE 11 are
    inverse to each other ([gpio_translate_round_trip]). *)

From stdpp Require Import base numbers list gmap relations.
From S2P Require Import Prelude CMonad Aux Gpio.

(** ** Tables ([dce110/hw_ddc_dce110.c], [dce110/hw_hpd_dce110.c])

    The registers of a pin, the address of its set-up register or filter and
    that of its status.  The masks of a DDC pin's pad are kept by the code and
    not used. *)

Record pin_init := Init { hw_gpio_data_reg : hw_gpio_pin_reg; init_setup : Z; init_status : Z }.

Definition hw_ddc_dce110_init_data : list pin_init := [
    (* GPIO_DDC_LINE_DDC1 *) Init (PinReg (AddrMask 0x4868 0x100) (AddrMask 0x4869 0x100) (AddrMask 0x486a 0x100) (AddrMask 0x486b 0x100)) 0x16df 0;
    (* GPIO_DDC_LINE_DDC2 *) Init (PinReg (AddrMask 0x486c 0x100) (AddrMask 0x486d 0x100) (AddrMask 0x486e 0x100) (AddrMask 0x486f 0x100)) 0x16e1 0;
    (* GPIO_DDC_LINE_DDC3 *) Init (PinReg (AddrMask 0x4870 0x100) (AddrMask 0x4871 0x100) (AddrMask 0x4872 0x100) (AddrMask 0x4873 0x100)) 0x16e3 0;
    (* GPIO_DDC_LINE_DDC4 *) Init (PinReg (AddrMask 0x4874 0x100) (AddrMask 0x4875 0x100) (AddrMask 0x4876 0x100) (AddrMask 0x4877 0x100)) 0x16e5 0;
    (* GPIO_DDC_LINE_DDC5 *) Init (PinReg (AddrMask 0x4878 0x100) (AddrMask 0x4879 0x100) (AddrMask 0x487a 0x100) (AddrMask 0x487b 0x100)) 0x16e7 0;
    (* GPIO_DDC_LINE_DDC6 *) Init (PinReg (AddrMask 0x487c 0x100) (AddrMask 0x487d 0x100) (AddrMask 0x487e 0x100) (AddrMask 0x487f 0x100)) 0x16e9 0;
    (* GPIO_DDC_LINE_DDC_VGA *) Init (PinReg (AddrMask 0x4880 0x100) (AddrMask 0x4881 0x100) (AddrMask 0x4882 0x100) (AddrMask 0x4883 0x100)) 0x16f1 0;
    (* GPIO_DDC_LINE_I2CPAD *) Init (PinReg (AddrMask 0x4898 0x10) (AddrMask 0x4899 0x2) (AddrMask 0x489a 0x2) (AddrMask 0x489b 0x2)) 0 0].
Definition hw_ddc_dce110_init_clock : list pin_init := [
    (* GPIO_DDC_LINE_DDC1 *) Init (PinReg (AddrMask 0x4868 0x1) (AddrMask 0x4869 0x1) (AddrMask 0x486a 0x1) (AddrMask 0x486b 0x1)) 0x16df 0;
    (* GPIO_DDC_LINE_DDC2 *) Init (PinReg (AddrMask 0x486c 0x1) (AddrMask 0x486d 0x1) (AddrMask 0x486e 0x1) (AddrMask 0x486f 0x1)) 0x16e1 0;
    (* GPIO_DDC_LINE_DDC3 *) Init (PinReg (AddrMask 0x4870 0x1) (AddrMask 0x4871 0x1) (AddrMask 0x4872 0x1) (AddrMask 0x4873 0x1)) 0x16e3 0;
    (* GPIO_DDC_LINE_DDC4 *) Init (PinReg (AddrMask 0x4874 0x1) (AddrMask 0x4875 0x1) (AddrMask 0x4876 0x1) (AddrMask 0x4877 0x1)) 0x16e5 0;
    (* GPIO_DDC_LINE_DDC5 *) Init (PinReg (AddrMask 0x4878 0x1) (AddrMask 0x4879 0x1) (AddrMask 0x487a 0x1) (AddrMask 0x487b 0x1)) 0x16e7 0;
    (* GPIO_DDC_LINE_DDC6 *) Init (PinReg (AddrMask 0x487c 0x1) (AddrMask 0x487d 0x1) (AddrMask 0x487e 0x1) (AddrMask 0x487f 0x1)) 0x16e9 0;
    (* GPIO_DDC_LINE_DDC_VGA *) Init (PinReg (AddrMask 0x4880 0x1) (AddrMask 0x4881 0x1) (AddrMask 0x4882 0x1) (AddrMask 0x4883 0x1)) 0x16f1 0;
    (* GPIO_DDC_LINE_I2CPAD *) Init (PinReg (AddrMask 0x4898 0x1) (AddrMask 0x4899 0x1) (AddrMask 0x489a 0x1) (AddrMask 0x489b 0x1)) 0 0].
Definition hw_gpio_generic_dce110_init : list pin_init := [
    (* GPIO_HPD_1 *) Init (PinReg (AddrMask 0x488c 0x1) (AddrMask 0x488d 0x1) (AddrMask 0x488e 0x1) (AddrMask 0x488f 0x1)) 0x189c 0x1898;
    (* GPIO_HPD_2 *) Init (PinReg (AddrMask 0x488c 0x100) (AddrMask 0x488d 0x100) (AddrMask 0x488e 0x100) (AddrMask 0x488f 0x100)) 0x18a4 0x18a0;
    (* GPIO_HPD_3 *) Init (PinReg (AddrMask 0x488c 0x10000) (AddrMask 0x488d 0x10000) (AddrMask 0x488e 0x10000) (AddrMask 0x488f 0x10000)) 0x18ac 0x18a8;
    (* GPIO_HPD_4 *) Init (PinReg (AddrMask 0x488c 0x100000) (AddrMask 0x488d 0x1000000) (AddrMask 0x488e 0x100000) (AddrMask 0x488f 0x1000000)) 0x18b4 0x18b0;
    (* GPIO_HPD_5 *) Init (PinReg (AddrMask 0x488c 0x1000000) (AddrMask 0x488d 0x4000000) (AddrMask 0x488e 0x1000000) (AddrMask 0x488f 0x4000000)) 0x18bc 0x18b8;
    (* GPIO_HPD_6 *) Init (PinReg (AddrMask 0x488c 0x10000000) (AddrMask 0x488d 0x10000000) (AddrMask 0x488e 0x10000000) (AddrMask 0x488f 0x10000000)) 0x18c4 0x18c0].

(** [dal_hw_gpio_construct] and the entry of the table. *)
Definition construct_pin (kind : pin_kind) (id en : Z) (init : pin_init) : hw_gpio :=
  HwGpio kind id en GPIO_MODE_UNKNOWN false (hw_gpio_data_reg init) (init_setup init) (init_status init) 0 0 0.
Definition dal_hw_ddc_dce110_create (id en : Z) : option hw_gpio :=
  if (en <? 0) || (7 <? en) then None
  else if id =? GPIO_ID_DDC_DATA then construct_pin PinDdc id en <$> hw_ddc_dce110_init_data !! Z.to_nat en
  else if id =? GPIO_ID_DDC_CLOCK then construct_pin PinDdc id en <$> hw_ddc_dce110_init_clock !! Z.to_nat en
  else None.
Definition dal_hw_hpd_dce110_create (id en : Z) : option hw_gpio :=
  if negb (id =? GPIO_ID_HPD) then None
  else if (en <? 0) || (5 <? en) then None
  else construct_pin PinHpd id en <$> hw_gpio_generic_dce110_init !! Z.to_nat en.

(** The function table of the factory and its numbers of pins. *)
Definition factory_dce110 (id : Z) : option (Z -> option hw_gpio) :=
  if (id =? GPIO_ID_DDC_DATA) || (id =? GPIO_ID_DDC_CLOCK) then Some (dal_hw_ddc_dce110_create id)
  else if id =? GPIO_ID_HPD then Some (dal_hw_hpd_dce110_create id)
  else None.
Definition number_of_pins_dce110 : list Z := [8; 8; 7; 6; 31; 0; 2; 4].

(** The storage that [dal_gpio_service_create] allocates: a bit per pin. *)
Definition busy_storage (number_of_pins : list Z) : list (option (list Z)) :=
  map (fun n => if n =? 0 then None else Some (replicate (Z.to_nat ((n + 32 - 1) / 32)) 0)) number_of_pins.

(** ** Translation ([dce110/hw_translate_dce110.c]) *)

Fixpoint switch {A} (x : Z) (cases : list (Z * A)) : option A :=
  match cases with
  | [] => None
  | (c, a) :: cases => if x =? c then Some a else switch x cases
  end.

Definition mmDC_GPIO_GENERIC_A : Z := 0x4861.
Definition mmDC_GPIO_HPD_A : Z := 0x488d.
Definition mmDC_GPIO_SYNCA_A : Z := 0x4885.
Definition mmDC_GPIO_GENLK_A : Z := 0x4889.
Definition mmDC_GPIO_DDC1_A : Z := 0x4869.
Definition mmDC_GPIO_DDC2_A : Z := 0x486d.
Definition mmDC_GPIO_DDC3_A : Z := 0x4871.
Definition mmDC_GPIO_DDC4_A : Z := 0x4875.
Definition mmDC_GPIO_DDC5_A : Z := 0x4879.
Definition mmDC_GPIO_DDC6_A : Z := 0x487d.
Definition mmDC_GPIO_DDCVGA_A : Z := 0x4881.
Definition mmDC_GPIO_I2CPAD_A : Z := 0x4899.

(** The kind of the pin, which stays as it was for a DDC register, and its number. *)
Definition offset_to_id (offset mask : Z) : option (option Z * Z) :=
  if offset =? mmDC_GPIO_GENERIC_A then
    pair (Some GPIO_ID_GENERIC) <$> switch mask [(0x1, 0); (0x100, 1); (0x10000, 2); (0x100000, 3); (0x200000, 4); (0x400000, 5); (0x800000, 6)]
  else if offset =? mmDC_GPIO_HPD_A then
    pair (Some GPIO_ID_HPD) <$> switch mask [(0x1, 0); (0x100, 1); (0x10000, 2); (0x1000000, 3); (0x4000000, 4); (0x10000000, 5)]
  else if offset =? mmDC_GPIO_SYNCA_A then
    pair (Some GPIO_ID_SYNC) <$> switch mask [(0x1, 0); (0x100, 1)]
  else if offset =? mmDC_GPIO_GENLK_A then
    pair (Some GPIO_ID_GSL) <$> switch mask [(0x1, 0); (0x100, 1); (0x10000, 2); (0x1000000, 3)]
  else
    pair None <$> switch offset [(mmDC_GPIO_DDC1_A, 0); (mmDC_GPIO_DDC2_A, 1); (mmDC_GPIO_DDC3_A, 2); (mmDC_GPIO_DDC4_A, 3);
                                 (mmDC_GPIO_DDC5_A, 4); (mmDC_GPIO_DDC6_A, 5); (mmDC_GPIO_DDCVGA_A, 6); (mmDC_GPIO_I2CPAD_A, 7)].

Record gpio_pin_info := PinInfo { offset : Z; offset_y : Z; offset_en : Z; offset_mask : Z; mask : Z; mask_y : Z; mask_en : Z; mask_mask : Z }.

(** The output registers of the DDC lines. *)
Definition ddc_offset (en : Z) : option Z :=
  switch en [(0, mmDC_GPIO_DDC1_A); (1, mmDC_GPIO_DDC2_A); (2, mmDC_GPIO_DDC3_A); (3, mmDC_GPIO_DDC4_A);
             (4, mmDC_GPIO_DDC5_A); (5, mmDC_GPIO_DDC6_A); (6, mmDC_GPIO_DDCVGA_A); (7, mmDC_GPIO_I2CPAD_A)].
(** The register and the mask of the two switches. *)
Definition id_to_offset_switch (id en : Z) : option (Z * Z) :=
  if id =? GPIO_ID_DDC_DATA then (fun o => (o, 0x100)) <$> ddc_offset en
  else if id =? GPIO_ID_DDC_CLOCK then (fun o => (o, 0x1)) <$> ddc_offset en
  else if id =? GPIO_ID_GENERIC then
    pair mmDC_GPIO_GENERIC_A <$> switch en [(0, 0x1); (1, 0x100); (2, 0x10000); (3, 0x100000); (4, 0x200000); (5, 0x400000); (6, 0x800000)]
  else if id =? GPIO_ID_HPD then
    pair mmDC_GPIO_HPD_A <$> switch en [(0, 0x1); (1, 0x100); (2, 0x10000); (3, 0x1000000); (4, 0x4000000); (5, 0x10000000)]
  else if id =? GPIO_ID_SYNC then pair mmDC_GPIO_SYNCA_A <$> switch en [(0, 0x1); (1, 0x100)]
  else if id =? GPIO_ID_GSL then pair mmDC_GPIO_GENLK_A <$> switch en [(0, 0x1); (1, 0x100); (2, 0x10000); (3, 0x1000000)]
  else None.
Definition id_to_offset (id en : Z) : option gpio_pin_info :=
  '(o, m) ← id_to_offset_switch id en;
  Some (PinInfo o (u32 (o + 2)) (u32 (o + 1)) (u32 (o - 1)) m m m m).

Lemma switch_Some {A} x (cases : list (Z * A)) a : switch x cases = Some a -> (x, a) ∈ cases.
Proof.
  induction cases as [|[c b] cases IH]; cbn [switch]; [done|]. destruct (Z.eqb_spec x c) as [->|_]; [|intros H; right; auto]. intros [= ->]. left.
Qed.
(** A finite table satisfies what each of its entries does. *)
Lemma switch_forall {A} (f : Z -> A -> bool) x (cases : list (Z * A)) a : forallb (fun e => f (fst e) (snd e)) cases = true -> switch x cases = Some a -> f x a = true.
Proof. rewrite forallb_forall. intros H E. apply (H (x, a)), list_elem_of_In. by apply switch_Some. Qed.

(** The kind that is found again: a DDC register does not tell it. *)
Definition found_id (id : Z) : option Z := if (id =? GPIO_ID_DDC_DATA) || (id =? GPIO_ID_DDC_CLOCK) then None else Some id.
Definition finds (id en : Z) (om : Z * Z) : bool := bool_decide (offset_to_id (fst om) (snd om) = Some (found_id id, en)).

Lemma switch_finds id en (o : Z) cases m : forallb (fun e => finds id (fst e) (o, snd e)) cases = true -> switch en cases = Some m -> finds id en (o, m) = true.
Proof. apply (switch_forall (fun e m => finds id e (o, m))). Qed.
Lemma ddc_offset_finds id en o m : id = GPIO_ID_DDC_DATA \/ id = GPIO_ID_DDC_CLOCK -> m = 0x1 \/ m = 0x100 -> ddc_offset en = Some o -> finds id en (o, m) = true.
Proof. intros Hid Hm. apply (switch_forall (fun e o => finds id e (o, m))). destruct Hid as [-> | ->], Hm as [-> | ->]; vm_compute; reflexivity. Qed.
Lemma switch_finds_ok id en om : id_to_offset_switch id en = Some om -> finds id en om = true.
Proof.
  unfold id_to_offset_switch.
  destruct (Z.eqb_spec id GPIO_ID_DDC_DATA) as [->|_]; [intros (o & E & ->)%fmap_Some; revert E; apply ddc_offset_finds; auto|].
  destruct (Z.eqb_spec id GPIO_ID_DDC_CLOCK) as [->|_]; [intros (o & E & ->)%fmap_Some; revert E; apply ddc_offset_finds; auto|].
  repeat match goal with |- context [?i =? ?c] => destruct (Z.eqb_spec i c) as [->|_]; [intros (m & E & ->)%fmap_Some; revert E; apply switch_finds; vm_compute; reflexivity|] end. done.
Qed.

(** The translations of DCE 11 are inverse: from the register and the mask
    that [id_to_offset] gives for a pin, [offset_to_id] finds the number of
    the pin again, and its kind unless the register is that of a DDC line. *)
Theorem gpio_translate_round_trip (id en : Z) (info : gpio_pin_info) :
  id_to_offset id en = Some info -> offset_to_id (offset info) (mask info) = Some (found_id id, en).
Proof.
  unfold id_to_offset. intros E. apply bind_Some in E as ([o m] & E & [= <-]). cbn [offset mask]. apply switch_finds_ok in E. by apply bool_decide_eq_true in E.
Qed.
Lemma gpio_translate_round_trip_witness :
  id_to_offset GPIO_ID_HPD 3 = Some (PinInfo 0x488d 0x488f 0x488e 0x488c 0x1000000 0x1000000 0x1000000 0x1000000) /\ offset_to_id 0x488d 0x1000000 = Some (Some GPIO_ID_HPD, 3).
Proof. split; [reflexivity|]. exact (gpio_translate_round_trip GPIO_ID_HPD 3 (PinInfo 0x488d 0x488f 0x488e 0x488c 0x1000000 0x1000000 0x1000000 0x1000000) eq_refl). Defined.

(** ** Factories *)

Definition makes (factory : Z -> option (Z -> option hw_gpio)) (id en : Z) (p : hw_gpio) : Prop := exists create, factory id = Some create /\ create en = Some p.
(** The bits that a configuration may change. *)
Definition config_bit (p : hw_gpio) (a i : Z) : Prop := match hp_kind p with PinDdc => pad_bit p a i | PinHpd => a = setup_addr p end.

(** What the service needs of a factory: a pin carries its own name, the bits
    of different pins are different, a configuration changes no pin's bits, and
    a new pin has saved nothing. *)
Class FactoryOk (factory : Z -> option (Z -> option hw_gpio)) : Prop := {
  fo_ids id en p : makes factory id en p -> hp_id p = id /\ hp_en p = en;
  fo_apart id1 en1 p1 id2 en2 p2 a i : makes factory id1 en1 p1 -> makes factory id2 en2 p2 -> (id1, en1) <> (id2, en2) -> is_bit i -> covers p1 a i -> ~ covers p2 a i;
  fo_config id1 en1 p1 id2 en2 p2 a i : makes factory id1 en1 p1 -> makes factory id2 en2 p2 -> is_bit i -> config_bit p1 a i -> ~ covers p2 a i;
  fo_fresh id en p : makes factory id en p -> store_mask p = 0 /\ store_a p = 0 /\ store_en p = 0 }.

(** The pins of DCE 11, all of them. *)
Definition pins_dce110 : list hw_gpio :=
  imap (fun n => construct_pin PinDdc GPIO_ID_DDC_DATA (Z.of_nat n)) hw_ddc_dce110_init_data ++
  imap (fun n => construct_pin PinDdc GPIO_ID_DDC_CLOCK (Z.of_nat n)) hw_ddc_dce110_init_clock ++
  imap (fun n => construct_pin PinHpd GPIO_ID_HPD (Z.of_nat n)) hw_gpio_generic_dce110_init.
Lemma imap_elem {A B} (f : nat -> A -> B) (l : list A) en a : 0 <= en -> l !! Z.to_nat en = Some a -> f (Z.to_nat en) a ∈ imap f l.
Proof. intros Hen E. apply list_elem_of_lookup. exists (Z.to_nat en). rewrite list_lookup_imap, E. done. Qed.
Lemma makes_dce110 id en p : makes factory_dce110 id en p -> p ∈ pins_dce110 /\ hp_id p = id /\ hp_en p = en.
Proof.
  intros (create & Ef & Ec). unfold factory_dce110 in Ef.
  assert (Himap : forall kind i l q, 0 <= en -> construct_pin kind i en <$> l !! Z.to_nat en = Some q -> q ∈ imap (fun n => construct_pin kind i (Z.of_nat n)) l /\ hp_id q = i /\ hp_en q = en).
  { intros kind i l q Hen (x & Ex & ->)%fmap_Some. split; [|done]. pose proof (imap_elem (fun n => construct_pin kind i (Z.of_nat n)) l en x Hen Ex) as H. cbn beta in H. by rewrite Z2Nat.id in H. }
  destruct (Z.eqb_spec id GPIO_ID_DDC_DATA) as [->|H0]; [|destruct (Z.eqb_spec id GPIO_ID_DDC_CLOCK) as [->|H1]; [|destruct (Z.eqb_spec id GPIO_ID_HPD) as [->|]; [|done]]]; injection Ef as <-.
  - unfold dal_hw_ddc_dce110_create in Ec. destruct (Z.ltb_spec en 0); [done|]. destruct (7 <? en); [done|]. apply Himap in Ec as (Hin & Hids); [|done]. split; [|done]. unfold pins_dce110. rewrite !elem_of_app. auto.
  - unfold dal_hw_ddc_dce110_create in Ec. destruct (Z.ltb_spec en 0); [done|]. destruct (7 <? en); [done|]. apply Himap in Ec as (Hin & Hids); [|done]. split; [|done]. unfold pins_dce110. rewrite !elem_of_app. auto.
  - unfold dal_hw_hpd_dce110_create in Ec. cbn [negb Z.eqb] in Ec. destruct (Z.ltb_spec en 0); [done|]. destruct (5 <? en); [done|]. apply Himap in Ec as (Hin & Hids); [|done]. split; [|done]. unfold pins_dce110. rewrite !elem_of_app. auto.
Qed.

(** Tests on the tables. *)
Definition reg_apart (r1 r2 : addr_mask) : bool := negb (am_addr r1 =? am_addr r2) || (Z.land (am_mask r1) (am_mask r2) =? 0).
Definition pin_apart (p1 p2 : hw_gpio) : bool := forallb (fun r1 => forallb (reg_apart r1) (saved_regs p2)) (saved_regs p1).
(** The registers a configuration writes, with the bits it may change. *)
Definition config_regs (p : hw_gpio) : list addr_mask :=
  match hp_kind p with
  | PinDdc =>
      if hp_en p =? GPIO_DDC_LINE_VIP_PAD then [AddrMask (am_addr (DC_GPIO_DATA_MASK (pin_reg p))) 0x10000]
      else [AddrMask (am_addr (DC_GPIO_DATA_MASK (pin_reg p))) 0x11010; AddrMask (setup_addr p) 0xffffffff]
  | PinHpd => [AddrMask (setup_addr p) 0xffffffff]
  end.
Definition config_apart (p1 p2 : hw_gpio) : bool := forallb (fun r1 => forallb (reg_apart r1) (saved_regs p2)) (config_regs p1).

Lemma reg_apart_bits r1 r2 a i : reg_apart r1 r2 = true -> in_reg r1 a i -> in_reg r2 a i -> False.
Proof.
  unfold reg_apart. intros H [E1 T1] [E2 T2]. rewrite E1, E2, Z.eqb_refl in H. cbn in H. apply Z.eqb_eq in H.
  assert (Ht : Z.testbit (Z.land (am_mask r1) (am_mask r2)) i = true) by (by rewrite Z.land_spec, T1, T2). rewrite H, Z.testbit_0_l in Ht. done.
Qed.
Lemma regs_apart_bits l1 l2 a i : forallb (fun r1 => forallb (reg_apart r1) l2) l1 = true -> (exists r, r ∈ l1 /\ in_reg r a i) -> ~ exists r, r ∈ l2 /\ in_reg r a i.
Proof.
  rewrite forallb_forall. intros H (r1 & H1 & I1) (r2 & H2 & I2). specialize (H r1 (proj1 (list_elem_of_In _ _) H1)). rewrite forallb_forall in H. specialize (H r2 (proj1 (list_elem_of_In _ _) H2)). by eapply reg_apart_bits.
Qed.
Lemma ones_bit i : is_bit i -> Z.testbit 0xffffffff i = true.
Proof. intros Hi. change 0xffffffff with (Z.ones 32). apply Z.ones_spec_low. exact Hi. Qed.
Lemma config_bit_regs p a i : is_bit i -> config_bit p a i -> exists r, r ∈ config_regs p /\ in_reg r a i.
Proof.
  intros Hi. unfold config_bit, config_regs, pad_bit, in_reg. destruct (hp_kind p).
  - destruct (Z.eqb_spec (hp_en p) GPIO_DDC_LINE_VIP_PAD) as [E|E].
    + intros [[-> [-> |[? _]]]|[? _]]; [|done|done]. eexists. split; [left|done].
    + intros [[-> Hb]|[_ ->]]; [eexists; split; [left|]|eexists; split; [right; left|split; [done|by apply ones_bit]]]. split; [done|]. destruct Hb as [->|[_ [-> | ->]]]; done.
  - intros ->. eexists. split; [left|]. split; [done|by apply ones_bit].
Qed.

Lemma pins_apart_ok : forallb (fun p1 => forallb (fun p2 => ((hp_id p1 =? hp_id p2) && (hp_en p1 =? hp_en p2)) || pin_apart p1 p2) pins_dce110) pins_dce110 = true.
Proof. vm_compute. reflexivity. Qed.
Lemma configs_apart_ok : forallb (fun p1 => forallb (config_apart p1) pins_dce110) pins_dce110 = true.
Proof. vm_compute. reflexivity. Qed.
Lemma forallb_at {A} (f : A -> A -> bool) l x y : forallb (fun a => forallb (f a) l) l = true -> x ∈ l -> y ∈ l -> f x y = true.
Proof. rewrite forallb_forall. intros H Hx Hy. specialize (H x (proj1 (list_elem_of_In _ _) Hx)). rewrite forallb_forall in H. by apply H, list_elem_of_In. Qed.

(** The tables of DCE 11 give every pin registers of its own. *)
#[export] Instance factory_dce110_ok : FactoryOk factory_dce110.
Proof.
  split.
  - intros id en p H. by apply makes_dce110 in H as [_ ?].
  - intros id1 en1 p1 id2 en2 p2 a i (H1 & <- & <-)%makes_dce110 (H2 & <- & <-)%makes_dce110 Hn Hi. apply regs_apart_bits.
    pose proof (forallb_at _ _ p1 p2 pins_apart_ok H1 H2) as H. cbn beta in H. apply orb_true_iff in H as [[?%Z.eqb_eq ?%Z.eqb_eq]%andb_true_iff|H]; [congruence|exact H].
  - intros id1 en1 p1 id2 en2 p2 a i [H1 _]%makes_dce110 [H2 _]%makes_dce110 Hi Hc. apply (config_bit_regs _ _ _ Hi) in Hc. revert Hc. apply regs_apart_bits. exact (forallb_at _ _ p1 p2 configs_apart_ok H1 H2).
  - intros id en p [H _]%makes_dce110. assert (K : forallb (fun p => (store_mask p =? 0) && (store_a p =? 0) && (store_en p =? 0)) pins_dce110 = true) by (vm_compute; reflexivity).
    rewrite forallb_forall in K. specialize (K p (proj1 (list_elem_of_In _ _) H)). rewrite !andb_true_iff, !Z.eqb_eq in K. tauto.
Qed.

(** The registers of a pin as its translation gives them. *)
Definition translated_reg (info : gpio_pin_info) : hw_gpio_pin_reg :=
  PinReg (AddrMask (offset_mask info) (mask_mask info)) (AddrMask (offset info) (mask info)) (AddrMask (offset_en info) (mask_en info)) (AddrMask (offset_y info) (mask_y info)).
#[export] Instance addr_mask_eq_dec : EqDecision addr_mask.
Proof. solve_decision. Defined.
#[export] Instance pin_reg_eq_dec : EqDecision hw_gpio_pin_reg.
Proof. solve_decision. Defined.
(** The pins whose translation is wrong: the data pin of the I2C pad and
    the fourth and fifth hot-plug pins. *)
Definition mistranslated (id en : Z) : bool := if id =? GPIO_ID_HPD then (en =? 3) || (en =? 4) else (id =? GPIO_ID_DDC_DATA) && (en =? GPIO_DDC_LINE_VIP_PAD).
(** A pin's translation gives the registers of the pin, but for three pins,
    where the table and the translation give different masks. *)
Theorem translation_agrees id en p : makes factory_dce110 id en p -> exists info, id_to_offset id en = Some info /\ (translated_reg info = pin_reg p <-> mistranslated id en = false).
Proof.
  intros (Hp & <- & <-)%makes_dce110.
  assert (H : forallb (fun p => match id_to_offset (hp_id p) (hp_en p) with Some info => eqb (bool_decide (translated_reg info = pin_reg p)) (negb (mistranslated (hp_id p) (hp_en p))) | None => false end) pins_dce110 = true) by (vm_compute; reflexivity).
  rewrite forallb_forall in H. specialize (H p (proj1 (list_elem_of_In _ _) Hp)). cbn beta in H. destruct (id_to_offset (hp_id p) (hp_en p)) as [info|]; [|done]. exists info. split; [done|].
  apply eqb_prop in H. rewrite <- (bool_decide_eq_true (translated_reg info = pin_reg p)), H. apply negb_true_iff.
Qed.

(** ** Open drain

    The software I2C engine drives a line only low: a one lets it float. *)

Definition bits_are (r : addr_mask) (b : bool) (s : gpio_state) : Prop := forall i, is_bit i -> Z.testbit (am_mask r) i = true -> rbit (regs s) (am_addr r) i = b.
(** The registers of a pin are different, and one bit enables it. *)
Definition one_enable (p : hw_gpio) : bool :=
  let m := am_mask (DC_GPIO_DATA_EN (pin_reg p)) in let sh := dal_hw_gpio_get_shift_from_mask m in
  (sh <? 32) && (m =? u32 (Z.shiftl 1 sh)) && (Z.land m (u32 (Z.lnot (u32 (Z.shiftl 0 sh)))) =? m) && (Z.land m (u32 (Z.lnot (u32 (Z.shiftl 1 sh)))) =? 0) &&
  negb (am_addr (DC_GPIO_DATA_A (pin_reg p)) =? am_addr (DC_GPIO_DATA_EN (pin_reg p))) && negb (am_addr (DC_GPIO_DATA_A (pin_reg p)) =? am_addr (DC_GPIO_DATA_MASK (pin_reg p))) &&
  negb (am_addr (DC_GPIO_DATA_EN (pin_reg p)) =? am_addr (DC_GPIO_DATA_MASK (pin_reg p))).

Lemma set_bits r v (b : bool) s : v = (if b then am_mask r else 0) -> exists s', dal_hw_gpio_set_reg_value r v s = Ok (GPIO_RESULT_OK, s') /\ touches (in_reg r) s s' /\ bits_are r b s'.
Proof.
  intros ->. destruct (set_reg_value_run r (if b then am_mask r else 0) s) as (res & s' & E & T & H). destruct H as [-> H]; [destruct b; [apply Z.land_diag|done]|].
  exists s'. split; [done|]. split; [done|]. intros i Hi Hm. rewrite H by done. destruct b; [done|apply Z.testbit_0_l].
Qed.
Lemma bits_kept r r' b s s' : am_addr r <> am_addr r' -> touches (in_reg r') s s' -> bits_are r b s -> bits_are r b s'.
Proof. intros Hn [_ T] H i Hi Hm. rewrite T; [by apply H|done|]. intros [E _]. congruence. Qed.

(** A pin that is opened for fast output is driven low by the value 0 and not
    driven by the value 1: its output bit is 0 and its enable bit is the
    opposite of the value. *)
Theorem fast_output_open_drain id en p s (v : bool) :
  makes factory_dce110 id en p ->
  exists q s1 s2, dal_hw_gpio_open p GPIO_MODE_FAST_OUTPUT s = Ok ((true, q), s1) /\ dal_hw_gpio_set_value q (if v then 1 else 0) s1 = Ok (GPIO_RESULT_OK, s2) /\
    bits_are (DC_GPIO_DATA_MASK (pin_reg p)) true s2 /\ bits_are (DC_GPIO_DATA_A (pin_reg p)) false s2 /\ bits_are (DC_GPIO_DATA_EN (pin_reg p)) (negb v) s2.
Proof.
  intros (Hp & _ & _)%makes_dce110. assert (H : forallb one_enable pins_dce110 = true) by (vm_compute; reflexivity). rewrite forallb_forall in H. specialize (H p (proj1 (list_elem_of_In _ _) Hp)).
  unfold one_enable in H. repeat (apply andb_true_iff in H as [H ?]).
  repeat match goal with K : negb (_ =? _) = true |- _ => apply negb_true_iff, Z.eqb_neq in K | K : (_ =? _) = true |- _ => apply Z.eqb_eq in K end. apply Z.ltb_lt in H.
  destruct (within_store p s) as (q0 & s0 & E0 & _). destruct (store_Ok _ _ _ _ E0) as (-> & Sq & _). pose proof Sq as (Sk & _ & _ & Sr & _).
  destruct (set_bits (DC_GPIO_DATA_A (pin_reg p)) 0 false s eq_refl) as (s1 & E1 & T1 & B1).
  destruct (set_bits (DC_GPIO_DATA_MASK (pin_reg p)) (am_mask (DC_GPIO_DATA_MASK (pin_reg p))) true s1 eq_refl) as (s2 & E2 & T2 & B2).
  set (m := am_mask (DC_GPIO_DATA_EN (pin_reg p))) in *. set (sh := dal_hw_gpio_get_shift_from_mask m) in *.
  destruct (set_bits (DC_GPIO_DATA_EN (pin_reg p)) (Z.land m (u32 (Z.lnot (u32 (Z.shiftl (if v then 1 else 0) sh))))) (negb v) s2) as (s3 & E3 & T3 & B3); [by destruct v|].
  exists (with_opened true (with_mode GPIO_MODE_FAST_OUTPUT q0)), s2, s3. split; [|split].
  - unfold dal_hw_gpio_open. rewrite (bind_eval _ _ _ _ _ E0). unfold dal_hw_gpio_change_mode, hpd_config_mode, dal_hw_gpio_config_mode, config_mode_fast_output, set_two. cbn [with_mode pin_reg]. rewrite Sr.
    destruct (hp_kind q0); unfold mbind, M_bind; rewrite E1; change (ok_result GPIO_RESULT_OK) with true; cbn; rewrite E2; done.
  - unfold dal_hw_gpio_set_value. cbn [hp_mode with_opened with_mode pin_reg]. rewrite Sr. fold m. fold sh. destruct (Z.leb_spec 32 sh); [lia|]. exact E3.
  - split; [|split; [|done]].
    + eapply bits_kept; [|exact T3|exact B2]. done.
    + eapply bits_kept; [|exact T3|]; [done|]. eapply bits_kept; [|exact T2|exact B1]. done.
Qed.

(** ** Clients

    The clients' handles, the service and the registers, and the pins that were
    opened without a place for the options: their bits were not saved, and
    closing such a pin again clears them. *)

Record world := World { handles : gmap nat gpio; service : gpio_state; cleared : list (Z * Z) }.

(** What the bits of a pin that nobody holds are, if they were [orig]. *)
Definition resting (orig : Z -> Z) (l : list (Z * Z)) (id en : Z) : Z -> Z := if decide ((id, en) ∈ l) then (fun _ => 0) else orig.

Section clients.
Context (factory : Z -> option (Z -> option hw_gpio)) `{!FactoryOk factory}.

Inductive call :=
  | CallOpen (mode : gpio_mode) (options : bool)
  | CallClose
  | CallSetValue (value : Z)
  | CallChangeMode (mode : gpio_mode)
  | CallSetConfig (config : gpio_config).
Definition do_call (c : call) (g : gpio) : GM gpio :=
  match c with
  | CallOpen mode options => '(_, g, _) ← dal_gpio_open_ex factory g mode options; mret g
  | CallClose => dal_gpio_close g
  | CallSetValue value => dal_gpio_set_value g value;; mret g
  | CallChangeMode mode => '(_, g) ← dal_gpio_change_mode g mode; mret g
  | CallSetConfig config => dal_gpio_set_config g config;; mret g
  end.
(** A DDC pin that is free is opened without a place for the options: the call
    gets as far as the pin, which refuses to open. *)
Definition clears (c : call) (g : gpio) (s : gpio_state) : Prop :=
  (exists mode, c = CallOpen mode false) /\ g_pin g = None /\ g_id g <> GPIO_ID_VIP_PAD /\ (exists sl, busyness s !! Z.to_nat (g_id g) = Some (Some sl)) /\
  busy s (g_id g) (g_en g) = false /\ exists p, makes factory (g_id g) (g_en g) p /\ hp_kind p = PinDdc.

Inductive step : world -> world -> Prop :=
  | StepCreate h id en w : handles w !! h = None -> step w (World (<[h := dal_gpio_create id en]> (handles w)) (service w) (cleared w))
  | StepCall h g c g' s' w : handles w !! h = Some g -> ~ clears c g (service w) -> do_call c g (service w) = Ok (g', s') -> step w (World (<[h := g']> (handles w)) s' (cleared w))
  | StepClear h g c g' s' w : handles w !! h = Some g -> clears c g (service w) -> do_call c g (service w) = Ok (g', s') ->
      step w (World (<[h := g']> (handles w)) s' ((g_id g, g_en g) :: cleared w))
  | StepDestroy h g g' s' w : handles w !! h = Some g -> dal_gpio_close g (service w) = Ok (g', s') -> step w (World (delete h (handles w)) s' (cleared w)).

(** [h] is open on the pin [id], [en]. *)
Definition open_on (w : world) (h : nat) (id en : Z) (p : hw_gpio) : Prop := exists g, handles w !! h = Some g /\ g_pin g = Some p /\ g_id g = id /\ g_en g = en.

(** Before the first handle: nothing is busy and the registers are [orig]. *)
Definition initial (w : world) : Prop := handles w = ∅ /\ cleared w = [] /\ forall id en, busy (service w) id en = false.

Record inv (orig : Z -> Z) (w : world) : Prop := {
  inv_held h id en p : open_on w h id en p -> 0 <= id /\ 0 <= en /\ busy (service w) id en = true /\ saved_ok (resting orig (cleared w) id en) p /\ exists p0, makes factory id en p0 /\ same_pin p p0;
  inv_single h1 h2 id en p1 p2 : open_on w h1 id en p1 -> open_on w h2 id en p2 -> h1 = h2;
  inv_busy id en : 0 <= id -> 0 <= en -> busy (service w) id en = true -> exists h p, open_on w h id en p;
  inv_free id en p a i : makes factory id en p -> 0 <= id -> 0 <= en -> busy (service w) id en = false -> is_bit i -> covers p a i -> rbit (regs (service w)) a i = rbit (resting orig (cleared w) id en) a i }.

Lemma inv_initial w : initial w -> inv (regs (service w)) w.
Proof.
  intros (Hh & Hl & Hb). split; [intros ???? (g & E & _); rewrite Hh in E; done|intros ?????? (g & E & _); rewrite Hh in E; done|intros id en _ _ E; by rewrite Hb in E|].
  intros id en p a i _ _ _ _ _ _. unfold resting. rewrite Hl, decide_False; [done|]. apply not_elem_of_nil.
Qed.

Lemma open_insert w h g s l h' id en p :
  open_on (World (<[h := g]> (handles w)) s l) h' id en p <-> (h' = h /\ g_pin g = Some p /\ g_id g = id /\ g_en g = en) \/ (h' <> h /\ open_on w h' id en p).
Proof.
  unfold open_on. cbn [handles]. destruct (decide (h' = h)) as [->|Hn].
  - rewrite lookup_insert_eq. split; [intros (g' & [= <-] & ?); auto|]. intros [[_ H]|[? _]]; [by exists g|done].
  - rewrite lookup_insert_ne by done. split; [auto|]. by intros [[? _]|[_ H]].
Qed.

(** The frame of a client: what changes bits of its own pin and bits of
    configurations only keeps the bits of every other pin. *)
Lemma others_kept id0 en0 p id en q a i :
  (exists p0, makes factory id0 en0 p0 /\ same_pin p p0) -> makes factory id en q -> (id0, en0) <> (id, en) -> is_bit i -> covers q a i -> ~ (covers p a i \/ config_bit p a i).
Proof.
  intros (p0 & M0 & Sp) Mq Hn Hi Hq [Hc|Hc].
  - apply (same_covers p p0 a i Sp) in Hc. exact (fo_apart _ _ _ _ _ _ _ _ M0 Mq Hn Hi Hc Hq).
  - assert (Hc0 : config_bit p0 a i) by (destruct Sp as (E1 & _ & E2 & E3 & E4); unfold config_bit, pad_bit in *; rewrite <- E1, <- E2, <- E3, <- E4; exact Hc). exact (fo_config _ _ _ _ _ _ _ _ M0 Mq Hi Hc0 Hq).
Qed.

(** Using an open pin. *)
Lemma inv_use orig w h id en p q m s' :
  inv orig w -> open_on w h id en p -> touches (fun a i => covers p a i \/ config_bit p a i) (service w) s' -> same_pin q p -> saved q = saved p ->
  inv orig (World (<[h := Gpio (Some q) id en m]> (handles w)) s' (cleared w)).
Proof.
  intros I Ho [Tb T] Sq Es. destruct (inv_held _ _ I _ _ _ _ Ho) as (Hid & Hen & Hbusy & Hsv & Hmk).
  assert (Eb : forall i e, busy s' i e = busy (service w) i e) by (intros i e; unfold busy; by rewrite Tb). split; cbn [service cleared].
  - intros h' id' en' p'. rewrite open_insert. cbn [g_pin g_id g_en]. rewrite Eb. intros [(-> & [= <-] & <- & <-)|[_ Ho']]; [|exact (inv_held _ _ I _ _ _ _ Ho')].
    split; [done|]. split; [done|]. split; [done|]. split; [unfold saved_ok; by rewrite Es|]. destruct Hmk as (p0 & M0 & S0). exists p0. split; [done|]. by apply (same_pin_trans _ p).
  - intros h1 h2 id' en' p1 p2. rewrite !open_insert. cbn [g_pin g_id g_en]. intros [(-> & _ & <- & <-)|[_ O1]] [(-> & _ & E1 & E2)|[_ O2]]; [done| |subst id' en'|];
      [exact (inv_single _ _ I _ _ _ _ _ _ Ho O2)|exact (inv_single _ _ I _ _ _ _ _ _ O1 Ho)|exact (inv_single _ _ I _ _ _ _ _ _ O1 O2)].
  - intros id' en' H1 H2. rewrite Eb. intros Hb. destruct (inv_busy _ _ I _ _ H1 H2 Hb) as (h' & p' & O'). destruct (decide (h' = h)) as [->|Hn].
    + exists h, q. apply open_insert. left. destruct O' as (g & Eg & _ & <- & <-), Ho as (g0 & Eg0 & _ & <- & <-). rewrite Eg in Eg0. injection Eg0 as ->. done.
    + exists h', p'. apply open_insert. auto.
  - intros id' en' p' a i M' H1 H2. rewrite Eb. intros Hb Hi Hc. rewrite <- (inv_free _ _ I id' en' p' a i M' H1 H2 Hb Hi Hc). apply T; [done|].
    apply (others_kept id en p id' en' p'); try done. intros [= -> ->]. congruence.
Qed.

(** Closing an open pin, whatever becomes of the handle. *)
Lemma inv_shut orig w h id en p u s' hs' :
  inv orig w -> open_on w h id en p -> dal_gpio_service_close (Some p) (service w) = Ok (u, s') ->
  (forall h' id' en' p', open_on (World hs' s' (cleared w)) h' id' en' p' <-> h' <> h /\ open_on w h' id' en' p') -> inv orig (World hs' s' (cleared w)).
Proof.
  intros I Ho Hc Hh. destruct (inv_held _ _ I _ _ _ _ Ho) as (Hid & Hen & Hbusy & Hsv & (p0 & M0 & S0)). destruct (fo_ids _ _ _ M0) as [Ei Ee].
  destruct (close_Ok (resting orig (cleared w) id en) p _ _ _ Hc Hsv) as (Hf & Hout & Hin). pose proof S0 as (_ & Si & Sn & _). rewrite Si, Sn, Ei, Ee in Hf. split; cbn [service cleared].
  - intros h' id' en' p' [Hn O']%Hh. destruct (inv_held _ _ I _ _ _ _ O') as (H1 & H2 & H3 & H4 & H5). rewrite Hf by done. rewrite decide_False; [done|].
    intros [-> ->]. apply Hn. exact (inv_single _ _ I _ _ _ _ _ _ O' Ho).
  - intros h1 h2 id' en' p1 p2 [_ O1]%Hh [_ O2]%Hh. exact (inv_single _ _ I _ _ _ _ _ _ O1 O2).
  - intros id' en' H1 H2. rewrite Hf by done. case_decide as Hd; [done|]. intros Hb. destruct (inv_busy _ _ I _ _ H1 H2 Hb) as (h' & p' & O'). exists h', p'. apply Hh. split; [|done].
    intros ->. destruct O' as (g & Eg & _ & <- & <-), Ho as (g0 & Eg0 & _ & <- & <-). rewrite Eg in Eg0. injection Eg0 as ->. by apply Hd.
  - intros id' en' p' a i M' H1 H2. rewrite Hf by done. case_decide as Hd; intros Hb Hi Hc'.
    + destruct Hd as [-> ->]. apply Hin; [done|]. apply (same_covers p p0); [done|]. destruct M0 as (c1 & F1 & C1), M' as (c2 & F2 & C2). congruence.
    + rewrite <- (inv_free _ _ I id' en' p' a i M' H1 H2 Hb Hi Hc'). apply Hout; [done|]. intros Hcp. apply (others_kept id en p id' en' p' a i); eauto. congruence.
Qed.

(** No pin is opened or closed, and the bits of the free pins are as they were. *)
Lemma inv_idle orig w w' :
  inv orig w -> cleared w' = cleared w -> (forall h id en p, open_on w' h id en p <-> open_on w h id en p) -> (forall id en, 0 <= id -> 0 <= en -> busy (service w') id en = busy (service w) id en) ->
  (forall id en p a i, makes factory id en p -> 0 <= id -> 0 <= en -> busy (service w) id en = false -> is_bit i -> covers p a i -> rbit (regs (service w')) a i = rbit (resting orig (cleared w) id en) a i) -> inv orig w'.
Proof.
  intros I El Ho Hb Hr. split; rewrite ?El.
  - intros h id en p O%Ho. destruct (inv_held _ _ I _ _ _ _ O) as (H1 & H2 & H3). split; [done|]. split; [done|]. by rewrite Hb.
  - intros h1 h2 id en p1 p2 O1%Ho O2%Ho. exact (inv_single _ _ I _ _ _ _ _ _ O1 O2).
  - intros id en H1 H2. rewrite Hb by done. intros E. destruct (inv_busy _ _ I _ _ H1 H2 E) as (h & p & O). exists h, p. by apply Ho.
  - intros id en p a i M H1 H2. rewrite Hb by done. by apply Hr.
Qed.

Record opening (id en : Z) (s : gpio_state) (p0 q : hw_gpio) (s1 : gpio_state) : Prop := {
  og_id : 0 <= id; og_en : 0 <= en; og_makes : makes factory id en p0; og_free : busy s id en = false;
  og_touch : touches (covers p0) s s1; og_same : same_pin q p0; og_saved : saved_ok (regs s) q }.
Lemma service_open_Ok id en mode options s res po opt s' :
  dal_gpio_service_open factory id en mode options s = Ok ((res, po, opt), s') ->
  (busy s id en = false -> id <> GPIO_ID_VIP_PAD -> (exists sl, busyness s !! Z.to_nat id = Some (Some sl)) -> forall p, makes factory id en p -> hp_kind p = PinDdc -> options = true) ->
  (po = None /\ res <> GPIO_RESULT_OK /\ (s' = s \/ exists p0 q s1 u, opening id en s p0 q s1 /\ dal_gpio_service_close (Some q) s1 = Ok (u, s'))) \/
  (exists p0 q s1 u, po = Some q /\ res = GPIO_RESULT_OK /\ opening id en s p0 q s1 /\ set_pin_busy id en s1 = Ok (u, s')).
Proof.
  unfold dal_gpio_service_open. intros H Hopt. apply bind_Ok in H as (b & s1 & E & H). apply gets_Ok in E as [<- <-]. destruct (Z.ltb_spec id 0) as [|Hid]; [done|].
  apply bind_Ok in H as (slot & s1 & E & H). apply deref_Ok in E as [Esl <-]. destruct slot as [sl|]; [|apply ret_Ok in H as [[= <- <- <-] <-]; left; auto].
  apply bind_Ok in H as (bz & s1 & E & H). apply is_pin_busy_Ok in E as (-> & _ & Hen & ->). destruct (busy s id en) eqn:Hbz; [apply ret_Ok in H as [[= <- <- <-] <-]; left; auto|].
  destruct (Z.eqb_spec id GPIO_ID_VIP_PAD); [apply ret_Ok in H as [[= <- <- <-] <-]; left; auto|]. apply bind_Ok in H as (create & s1 & E & H). apply deref_Ok in E as [Ef <-].
  destruct (create en) as [p0|] eqn:Ec; [|apply ret_Ok in H as [[= <- <- <-] <-]; left; auto]. assert (M : makes factory id en p0) by (by exists create).
  apply bind_Ok in H as ([[ok q] op] & s1 & E & H). apply pin_open_Ok in E as (T & Sq & Sv); [|apply Hopt; eauto].
  assert (Og : opening id en s p0 q s1) by (by split). destruct ok; cbn [negb] in H; apply bind_Ok in H as (u & s2 & E & H); apply ret_Ok in H as [[= <- <- <-] <-].
  - right. exists p0, q, s1, u. auto.
  - left. split; [done|]. split; [done|]. right. exists p0, q, s1, u. auto.
Qed.

Lemma makes_fun id en p q : makes factory id en p -> makes factory id en q -> p = q.
Proof. intros (c1 & F1 & C1) (c2 & F2 & C2). congruence. Qed.
(** What opening saves is what was there before the first handle. *)
Lemma opening_saved orig w id en p0 q s1 : inv orig w -> opening id en (service w) p0 q s1 -> saved_ok (resting orig (cleared w) id en) q.
Proof. intros I [H1 H2 M F T S Sv]. eapply saved_ok_orig; [exact Sv|]. intros a i Hi Hc. apply (inv_free _ _ I id en p0 a i); try done. by apply (same_covers q p0). Qed.
(** Opening changes the bits of the pin only. *)
Lemma opening_others orig w id en p0 q s1 id' en' p' a i :
  inv orig w -> opening id en (service w) p0 q s1 -> makes factory id' en' p' -> 0 <= id' -> 0 <= en' -> busy (service w) id' en' = false -> (id, en) <> (id', en') -> is_bit i -> covers p' a i -> rbit (regs s1) a i = rbit (resting orig (cleared w) id' en') a i.
Proof.
  intros I [H1 H2 M F T S Sv] M' H1' H2' F' Hn Hi Hc. rewrite <- (inv_free _ _ I id' en' p' a i M' H1' H2' F' Hi Hc). apply T; [done|]. intros Hc0. exact (fo_apart _ _ _ _ _ _ _ _ M M' Hn Hi Hc0 Hc).
Qed.
Lemma inv_opened orig w h g p0 q s1 u s' m :
  inv orig w -> handles w !! h = Some g -> g_pin g = None -> opening (g_id g) (g_en g) (service w) p0 q s1 -> set_pin_busy (g_id g) (g_en g) s1 = Ok (u, s') ->
  inv orig (World (<[h := Gpio (Some q) (g_id g) (g_en g) m]> (handles w)) s' (cleared w)).
Proof.
  intros I Eg Ep Og Hs. pose proof (opening_saved _ _ _ _ _ _ _ I Og) as Hsv. pose proof Og as [Hid Hen M F T S Sv].
  assert (Hbz : forall id' en', 0 <= id' -> 0 <= en' -> busy s' id' en' = if decide (id' = g_id g /\ en' = g_en g) then true else busy (service w) id' en').
  { intros id' en' H1 H2. destruct (set_pin_busy_Ok _ _ _ _ _ id' en' Hs H1 H2) as [_ ->]. unfold busy at 1. by rewrite (proj1 T). }
  destruct (set_pin_busy_Ok _ _ _ _ _ 0 0 Hs ltac:(lia) ltac:(lia)) as [Er _].
  assert (Hne : forall h' id' en' p', open_on w h' id' en' p' -> ~ (id' = g_id g /\ en' = g_en g)) by (intros h' id' en' p' O [-> ->]; destruct (inv_held _ _ I _ _ _ _ O) as (_ & _ & Hb & _); congruence).
  split; cbn [service cleared].
  - intros h' id' en' p'. rewrite open_insert. cbn [g_pin g_id g_en]. intros [(-> & [= <-] & <- & <-)|[_ O]].
    + rewrite Hbz, decide_True by done. repeat (split; [done|]). by exists p0.
    + destruct (inv_held _ _ I _ _ _ _ O) as (H1 & H2 & H3 & H4). rewrite Hbz, decide_False by (done || by eapply Hne). done.
  - intros h1 h2 id' en' p1 p2. rewrite !open_insert. cbn [g_pin g_id g_en]. intros [(-> & _ & <- & <-)|[_ O1]] [(-> & _ & E1 & E2)|[_ O2]]; [done| | |exact (inv_single _ _ I _ _ _ _ _ _ O1 O2)].
    + by destruct (Hne _ _ _ _ O2).
    + by destruct (Hne _ _ _ _ O1).
  - intros id' en' H1 H2. rewrite Hbz by done. case_decide as Hd; [destruct Hd as [-> ->]; intros _; exists h, q; apply open_insert; by left|]. intros Hb. destruct (inv_busy _ _ I _ _ H1 H2 Hb) as (h' & p' & O).
    exists h', p'. apply open_insert. right. split; [|done]. intros ->. destruct O as (g' & Eg' & Ep' & _). congruence.
  - intros id' en' p' a i M' H1 H2. rewrite Hbz, Er by done. case_decide as Hd; [done|]. intros Hb Hi Hc. eapply (opening_others orig w (g_id g) (g_en g) p0 q s1 id' en' p'); try done. intros [= <- <-]. by apply Hd.
Qed.
Lemma inv_failed orig w h g g' p0 q s1 u s' :
  inv orig w -> handles w !! h = Some g -> g_pin g = None -> g_pin g' = None -> opening (g_id g) (g_en g) (service w) p0 q s1 -> dal_gpio_service_close (Some q) s1 = Ok (u, s') ->
  inv orig (World (<[h := g']> (handles w)) s' (cleared w)).
Proof.
  intros I Eg Ep Ep' Og Hc. pose proof (opening_saved _ _ _ _ _ _ _ I Og) as Hsv. destruct (close_Ok _ q _ _ _ Hc Hsv) as (Hf & Hout & Hin). pose proof Og as [Hid Hen M F T S Sv].
  destruct (fo_ids _ _ _ M) as [Ei Ee]. pose proof S as (_ & Si & Sn & _). rewrite Si, Sn, Ei, Ee in Hf. apply (inv_idle orig w); cbn [service cleared].
  - done.
  - done.
  - intros h' id en p. rewrite open_insert, Ep'. split; [by intros [(_ & ? & _)|[_ ?]]|]. intros O. right. split; [|done]. intros ->. destruct O as (g2 & Eg2 & Ep2 & _). congruence.
  - intros id en H1 H2. rewrite Hf by done. case_decide as Hd; [destruct Hd as [-> ->]; done|]. unfold busy. by rewrite (proj1 T).
  - intros id en p a i M' H1 H2 Hb Hi Hcv. destruct (decide ((g_id g, g_en g) = (id, en))) as [[= <- <-]|Hn].
    + apply Hin; [done|]. apply (same_covers q p0); [done|]. by rewrite (makes_fun _ _ _ _ M M').
    + rewrite Hout; [by apply (opening_others orig w (g_id g) (g_en g) p0 q s1 id en p)|done|]. intros Hq%(same_covers q p0); [|done]. exact (fo_apart _ _ _ _ _ _ _ _ M M' Hn Hi Hq Hcv).
Qed.

(** A handle that stays closed, or that stays as it is. *)
Lemma inv_closed orig w h g' : inv orig w -> g_pin g' = None -> (forall g, handles w !! h = Some g -> g_pin g = None) -> inv orig (World (<[h := g']> (handles w)) (service w) (cleared w)).
Proof.
  intros I Ep' Ep. apply (inv_idle orig w); [done|done| |done|exact (inv_free _ _ I)].
  intros h' id en p. rewrite open_insert, Ep'. split; [by intros [(_ & ? & _)|[_ ?]]|]. intros O. right. split; [|done]. intros ->. destruct O as (g2 & Eg2 & Ep2 & _). rewrite (Ep g2 Eg2) in Ep2. done.
Qed.
Lemma inv_noop orig w h g : inv orig w -> handles w !! h = Some g -> inv orig (World (<[h := g]> (handles w)) (service w) (cleared w)).
Proof. intros I E. rewrite insert_id by done. by destruct w. Qed.
Lemma close_inv orig w h g g' s' : inv orig w -> handles w !! h = Some g -> dal_gpio_close g (service w) = Ok (g', s') -> inv orig (World (<[h := g']> (handles w)) s' (cleared w)) /\ inv orig (World (delete h (handles w)) s' (cleared w)).
Proof.
  intros I E H. unfold dal_gpio_close in H. apply bind_Ok in H as (u & s1 & Ec & H). apply ret_Ok in H as [<- <-]. destruct (g_pin g) as [p|] eqn:Ep.
  - assert (O : open_on w h (g_id g) (g_en g) p) by (by exists g). split; (eapply (inv_shut _ w h); [done|exact O|exact Ec|]); intros h' id en q.
    + rewrite open_insert. cbn [g_pin]. split; [by intros [(_ & ? & _)|?]|auto].
    + unfold open_on. cbn [handles]. destruct (decide (h' = h)) as [->|Hn]; [rewrite lookup_delete_eq|rewrite lookup_delete_ne by done]; split; [by intros (? & ? & _)|by intros [? _]|auto|by intros [_ ?]].
  - cbn in Ec. apply ret_Ok in Ec as [_ <-]. split; [apply inv_closed; [done..|congruence]|]. apply (inv_idle orig w); [done|done| |done|exact (inv_free _ _ I)].
    intros h' id en q. unfold open_on. cbn [handles]. destruct (decide (h' = h)) as [->|Hn]; [rewrite lookup_delete_eq|by rewrite lookup_delete_ne]. split; [by intros (? & ? & _)|]. intros (g2 & Eg & Ep2 & _). congruence.
Qed.
Lemma open_inv orig w h g mode options res g' opt s' :
  inv orig w -> handles w !! h = Some g -> ~ clears (CallOpen mode options) g (service w) -> dal_gpio_open_ex factory g mode options (service w) = Ok ((res, g', opt), s') -> inv orig (World (<[h := g']> (handles w)) s' (cleared w)).
Proof.
  intros I E Hok H. unfold dal_gpio_open_ex in H. destruct (g_pin g) as [p|] eqn:Ep; [apply ret_Ok in H as [[= _ <- _] <-]; by apply inv_noop|].
  apply bind_Ok in H as ([[r po] op] & s1 & Eo & H). apply ret_Ok in H as [[= <- <- <-] <-]. apply service_open_Ok in Eo.
  2:{ intros F V S p M K. destruct options; [done|]. destruct Hok. split; [eauto|]. split_and!; eauto. }
  destruct Eo as [(-> & _ & [-> |(p0 & q & s2 & u & Og & Ec)])|(p0 & q & s2 & u & -> & _ & Og & Es)].
  - apply inv_closed; [done..|congruence].
  - by eapply inv_failed.
  - by eapply inv_opened.
Qed.
Lemma pin_config_touches p c s r s' : pin_set_config p c s = Ok (r, s') -> touches (config_bit p) s s'.
Proof.
  unfold pin_set_config, config_bit. intros H. destruct (hp_kind p), c as [type|d1 d2]; try done.
  - destruct (within_set_config p type s) as (r2 & s2 & E & T). rewrite E in H. by injection H as _ <-.
  - destruct (within_hpd_config p d1 d2 s) as (r2 & s2 & E & T). rewrite E in H. by injection H as _ <-.
Qed.
Lemma use_same orig w h g p s' : inv orig w -> handles w !! h = Some g -> g_pin g = Some p -> touches (fun a i => covers p a i \/ config_bit p a i) (service w) s' -> inv orig (World (<[h := g]> (handles w)) s' (cleared w)).
Proof.
  intros I E Ep T. destruct g as [po id en m]. cbn in Ep. subst po. apply (inv_use orig w h id en p p m s'); [done|by eexists|done|by repeat split|done].
Qed.
Lemma call_inv orig w h g c g' s' : inv orig w -> handles w !! h = Some g -> ~ clears c g (service w) -> do_call c g (service w) = Ok (g', s') -> inv orig (World (<[h := g']> (handles w)) s' (cleared w)).
Proof.
  intros I E Hok H. destruct c as [mode options| |value|mode|config]; cbn [do_call] in H.
  - apply bind_Ok in H as ([[r g1] op] & s1 & Eo & H). apply ret_Ok in H as [<- <-]. by eapply open_inv.
  - by eapply close_inv.
  - apply bind_Ok in H as (r & s1 & Ev & H). apply ret_Ok in H as [<- <-]. unfold dal_gpio_set_value in Ev. destruct (g_pin g) as [p|] eqn:Ep; [|apply ret_Ok in Ev as [_ <-]; by apply inv_noop].
    apply set_value_Ok in Ev. eapply use_same; [done..|]. eapply touches_weaken; [|exact Ev]. auto.
  - apply bind_Ok in H as ([r g1] & s1 & Ev & H). apply ret_Ok in H as [<- <-]. unfold dal_gpio_change_mode in Ev. destruct (g_pin g) as [p|] eqn:Ep; [|apply ret_Ok in Ev as [[= _ <-] <-]; by apply inv_noop].
    apply bind_Ok in Ev as ([r2 q] & s2 & Ec & Ev). apply ret_Ok in Ev as [[= _ <-] <-]. apply change_mode_Ok in Ec as (T & S & Es).
    apply (inv_use orig w h (g_id g) (g_en g) p q); [done|by exists g| |done|done]. eapply touches_weaken; [|exact T]. auto.
  - apply bind_Ok in H as (r & s1 & Ev & H). apply ret_Ok in H as [<- <-]. unfold dal_gpio_set_config in Ev. destruct (g_pin g) as [p|] eqn:Ep; [|apply ret_Ok in Ev as [_ <-]; by apply inv_noop].
    apply pin_config_touches in Ev. eapply use_same; [done..|]. eapply touches_weaken; [|exact Ev]. auto.
Qed.
(** A DDC pin that was not opened is closed: its bits are cleared. *)
Lemma fresh_saved id en p : makes factory id en p -> saved_ok (fun _ => 0) p.
Proof.
  intros M r st Hin. destruct (fo_fresh _ _ _ M) as (E1 & E2 & E3). assert (st = 0) as ->.
  { unfold saved in Hin. rewrite E1, E2, E3 in Hin. repeat (apply elem_of_cons in Hin as [[= _ ->]|Hin]; [done|]). by apply elem_of_nil in Hin. }
  split; [done|]. intros i _ _. unfold rbit. by rewrite Z.testbit_0_l.
Qed.
Lemma clear_opens c g w g' s' : clears c g (service w) -> do_call c g (service w) = Ok (g', s') ->
  0 <= g_id g /\ 0 <= g_en g /\ busy (service w) (g_id g) (g_en g) = false /\ g_pin g = None /\ g_pin g' = None /\
  exists p u, makes factory (g_id g) (g_en g) p /\ dal_gpio_service_close (Some p) (service w) = Ok (u, s').
Proof.
  intros ([mode ->] & Ep & Hv & [sl Hsl] & Hf & p & M & Hk) H. cbn [do_call] in H. apply bind_Ok in H as ([[r g1] op] & s1 & Eo & H). apply ret_Ok in H as [<- <-].
  unfold dal_gpio_open_ex in Eo. rewrite Ep in Eo. apply bind_Ok in Eo as ([[r2 po] op2] & s2 & Es & H). apply ret_Ok in H as [[= <- <- <-] <-]. cbn [g_pin].
  unfold dal_gpio_service_open in Es. apply bind_Ok in Es as (b & s3 & E & Es). apply gets_Ok in E as [<- <-]. destruct (Z.ltb_spec (g_id g) 0) as [|Hid]; [done|].
  rewrite Hsl in Es. apply bind_Ok in Es as (slot & s3 & E & Es). apply deref_Ok in E as [[= <-] <-]. apply bind_Ok in Es as (bz & s3 & E & Es). apply is_pin_busy_Ok in E as (-> & _ & Hen & ->). rewrite Hf in Es.
  destruct (Z.eqb_spec (g_id g) GPIO_ID_VIP_PAD); [done|]. apply bind_Ok in Es as (create & s3 & E & Es). apply deref_Ok in E as [Ef <-].
  pose proof M as (c2 & F2 & C2). rewrite Ef in F2. injection F2 as <-. rewrite C2 in Es. unfold pin_open in Es. rewrite Hk in Es. cbn [dal_hw_ddc_open negb] in Es.
  apply bind_Ok in Es as ([[ok q] o3] & s3 & E & Es). apply ret_Ok in E as [[= <- <- <-] <-]. cbn [negb] in Es. apply bind_Ok in Es as (u & s4 & E & Es). apply ret_Ok in Es as [[= <- <- <-] <-]. eauto 10.
Qed.
Lemma resting_cons orig l k id en : k <> (id, en) -> resting orig (k :: l) id en = resting orig l id en.
Proof. intros Hn. unfold resting. destruct (decide ((id, en) ∈ l)); [by rewrite decide_True by (by right)|]. rewrite decide_False; [done|]. rewrite elem_of_cons. naive_solver. Qed.
Lemma clear_inv orig w h g c g' s' : inv orig w -> handles w !! h = Some g -> clears c g (service w) -> do_call c g (service w) = Ok (g', s') ->
  inv orig (World (<[h := g']> (handles w)) s' ((g_id g, g_en g) :: cleared w)).
Proof.
  intros I E Hcl H. destruct (clear_opens _ _ _ _ _ Hcl H) as (Hid & Hen & Hf & Ep & Ep' & p & u & M & Hc). clear Hcl H.
  destruct (close_Ok _ p _ _ _ Hc (fresh_saved _ _ _ M)) as (Hb & Hout & Hin). destruct (fo_ids _ _ _ M) as [Ei Ee]. rewrite Ei, Ee in Hb.
  assert (Hbz : forall id en, 0 <= id -> 0 <= en -> busy s' id en = busy (service w) id en) by (intros id en H1 H2; rewrite Hb by done; case_decide as Hd; [by destruct Hd as [-> ->]|done]).
  assert (Ho : forall h' id en q, open_on (World (<[h := g']> (handles w)) s' ((g_id g, g_en g) :: cleared w)) h' id en q <-> open_on w h' id en q).
  { intros h' id en q. rewrite open_insert, Ep'. split; [by intros [(_ & ? & _)|[_ ?]]|]. intros O. right. split; [|done]. intros ->. destruct O as (g2 & Eg2 & Ep2 & _). congruence. }
  split; cbn [service cleared].
  - intros h' id en q O%Ho. destruct (inv_held _ _ I _ _ _ _ O) as (H1 & H2 & H3 & H4 & H5). rewrite resting_cons, Hbz by (done || congruence). auto.
  - intros h1 h2 id en p1 p2 O1%Ho O2%Ho. exact (inv_single _ _ I _ _ _ _ _ _ O1 O2).
  - intros id en H1 H2. rewrite Hbz by done. intros Eb. destruct (inv_busy _ _ I _ _ H1 H2 Eb) as (h' & q & O). exists h', q. by apply Ho.
  - intros id en q a i M' H1 H2. rewrite Hbz by done. intros Eb Hi Hcv. destruct (decide ((g_id g, g_en g) = (id, en))) as [[= <- <-]|Hn].
    + rewrite (makes_fun _ _ _ _ M' M) in Hcv. rewrite (Hin a i Hi Hcv). unfold resting. by rewrite decide_True by left.
    + rewrite resting_cons by done. rewrite <- (inv_free _ _ I id en q a i M' H1 H2 Eb Hi Hcv). apply Hout; [done|]. intros Hq. exact (fo_apart _ _ _ _ _ _ _ _ M M' Hn Hi Hq Hcv).
Qed.
Lemma client_step_inv orig w w' : inv orig w -> step w w' -> inv orig w'.
Proof.
  intros I Hs. revert I. destruct Hs as [h id en w1 E|h g c g' s' w1 E Hok H|h g c g' s' w1 E Hcl H|h g g' s' w1 E H]; intros I.
  - apply inv_closed; [done|done|congruence].
  - by eapply call_inv.
  - by eapply clear_inv.
  - by eapply close_inv.
Qed.
Lemma clients_inv w0 w : initial w0 -> rtc step w0 w -> inv (regs (service w0)) w.
Proof.
  intros H0 Hr. pose proof (inv_initial _ H0) as I. clear H0. revert I. generalize (regs (service w0)) as orig. induction Hr as [|w1 w2 w3 Hs _ IH]; [done|].
  intros orig I. apply IH. by eapply client_step_inv.
Qed.

(** C18: pins are exclusive.  Whatever the clients create, open, use, close
    and destroy, in any order, two open handles are on different pins, and no
    register bit belongs to both. *)
Theorem gpio_pins_exclusive (w0 w : world) (h1 h2 : nat) (id1 en1 id2 en2 : Z) (p1 p2 : hw_gpio) :
  initial w0 -> rtc step w0 w -> open_on w h1 id1 en1 p1 -> open_on w h2 id2 en2 p2 -> h1 <> h2 ->
  (id1, en1) <> (id2, en2) /\ forall a i, is_bit i -> covers p1 a i -> ~ covers p2 a i.
Proof.
  intros H0 Hr O1 O2 Hn. pose proof (clients_inv _ _ H0 Hr) as I. assert (Hd : (id1, en1) <> (id2, en2)) by (intros [= -> ->]; exact (Hn (inv_single _ _ I _ _ _ _ _ _ O1 O2))).
  split; [done|]. intros a i Hi C1 C2. destruct (inv_held _ _ I _ _ _ _ O1) as (_ & _ & _ & _ & q1 & M1 & S1). destruct (inv_held _ _ I _ _ _ _ O2) as (_ & _ & _ & _ & q2 & M2 & S2).
  apply (same_covers p1 q1 a i S1) in C1. apply (same_covers p2 q2 a i S2) in C2. exact (fo_apart _ _ _ _ _ _ _ _ M1 M2 Hd Hi C1 C2).
Qed.

(** C17: registers are restored.  Whatever the clients create, open, use, close
    and destroy, in any order, the mask, output and enable bits of a pin that no
    handle is open on are what they were before the first handle was created,
    unless a client has tried to open the pin, a free DDC pin, without a place
    for the options: then they are 0 from that call on, whenever nobody holds
    the pin. *)
Theorem gpio_registers_restored (w0 w : world) (id en : Z) (p : hw_gpio) (a i : Z) :
  initial w0 -> rtc step w0 w -> makes factory id en p -> 0 <= id -> 0 <= en -> (forall h q, ~ open_on w h id en q) -> is_bit i -> covers p a i ->
  rbit (regs (service w)) a i = if decide ((id, en) ∈ cleared w) then false else rbit (regs (service w0)) a i.
Proof.
  intros H0 Hr M Hid Hen Hfree Hi Hc. pose proof (clients_inv _ _ H0 Hr) as I.
  transitivity (rbit (resting (regs (service w0)) (cleared w) id en) a i); [|unfold resting, rbit; case_decide; [apply Z.testbit_0_l|done]].
  apply (inv_free _ _ I id en p a i); try done.
  destruct (busy (service w) id en) eqn:Hb; [|done]. destruct (inv_busy _ _ I _ _ Hid Hen Hb) as (h & q & O). by destruct (Hfree h q).
Qed.

(** A line's operations are calls on its two handles. *)
Lemma open_ex_pin g mode s res g' opt s' :
  dal_gpio_open_ex factory g mode true s = Ok ((res, g', opt), s') -> g_pin g = None -> if ok_result res then is_Some (g_pin g') else g_pin g' = None.
Proof.
  unfold dal_gpio_open_ex. intros H Ep. rewrite Ep in H. apply bind_Ok in H as ([[r po] op] & s1 & E & H). apply ret_Ok in H as [[= <- <- <-] <-]. apply service_open_Ok in E; [|by intros]. cbn [g_pin].
  destruct E as [(-> & Hr & _)|(p0 & q & s2 & u & -> & -> & _)]; [|by eexists]. unfold ok_result. by rewrite bool_decide_eq_false_2.
Qed.
Lemma open_step w h g mode res g' opt s' : handles w !! h = Some g -> dal_gpio_open_ex factory g mode true (service w) = Ok ((res, g', opt), s') -> step w (World (<[h := g']> (handles w)) s' (cleared w)).
Proof. intros E H. apply (StepCall h g (CallOpen mode true)); [done|by intros [[? [=]] _]|]. cbn [do_call]. by rewrite (bind_eval _ _ _ _ _ H). Qed.
Lemma close_step w h g g' s' : handles w !! h = Some g -> dal_gpio_close g (service w) = Ok (g', s') -> step w (World (<[h := g']> (handles w)) s' (cleared w)) /\ g_pin g' = None.
Proof. intros E H. split; [by apply (StepCall h g CallClose); [|intros [[? [=]] _]|]|]. unfold dal_gpio_close in H. apply bind_Ok in H as (u & s1 & _ & H). by apply ret_Ok in H as [<- _]. Qed.
Lemma config_step w h g c res s' : handles w !! h = Some g -> dal_gpio_set_config g c (service w) = Ok (res, s') -> step w (World (handles w) s' (cleared w)).
Proof. intros E H. rewrite <- (insert_id (handles w) h g) by done. apply (StepCall h g (CallSetConfig c)); [done|by intros [[? [=]] _]|]. cbn [do_call]. by rewrite (bind_eval _ _ _ _ _ H). Qed.

(** C39: opening a DDC line is a sequence of calls on its data and clock
    handles, and when it returns either it succeeded and both pins are open, or
    it failed (the first pin, the second one or the configuration) and both
    pins are closed again. *)
Theorem ddc_open_all_or_nothing (w : world) (hd hc : nat) (d : ddc) (mode : gpio_mode) (type : gpio_ddc_config_type) (res : gpio_result) (d' : ddc) (s' : gpio_state) :
  hd <> hc -> handles w !! hd = Some (pin_data d) -> handles w !! hc = Some (pin_clock d) -> g_pin (pin_data d) = None -> g_pin (pin_clock d) = None ->
  dal_ddc_open factory d mode type (service w) = Ok ((res, d'), s') ->
  rtc step w (World (<[hc := pin_clock d']> (<[hd := pin_data d']> (handles w))) s' (cleared w)) /\
  if ok_result res then is_Some (g_pin (pin_data d')) /\ is_Some (g_pin (pin_clock d')) else g_pin (pin_data d') = None /\ g_pin (pin_clock d') = None.
Proof.
  intros Hn Ed Ec Pd Pc H. unfold dal_ddc_open in H. apply bind_Ok in H as ([[r1 gd] o1] & s1 & E1 & H). pose proof (open_ex_pin _ _ _ _ _ _ _ E1 Pd) as K1. pose proof (open_step w hd _ _ _ _ _ _ Ed E1) as T1.
  destruct (ok_result r1) eqn:R1; cbn [negb] in H.
  2:{ apply ret_Ok in H as [[= <- <-] <-]. rewrite R1. cbn [pin_data pin_clock]. split; [|done]. rewrite (insert_id (<[hd:=gd]> _) hc) by (by rewrite lookup_insert_ne). by apply rtc_once. }
  apply bind_Ok in H as ([[r2 gc] o2] & s2 & E2 & H). pose proof (open_ex_pin _ _ _ _ _ _ _ E2 Pc) as K2.
  pose proof (open_step (World (<[hd:=gd]> (handles w)) s1 (cleared w)) hc _ _ _ _ _ _ ltac:(cbn; by rewrite lookup_insert_ne) E2) as T2. cbn [handles cleared] in T2.
  assert (Lc : forall gc', <[hc := gc']> (<[hd := gd]> (handles w)) !! hd = Some gd) by (intros gc'; rewrite lookup_insert_ne by done; apply lookup_insert_eq).
  assert (Sw : forall gc' gd', <[hd := gd']> (<[hc := gc']> (<[hd := gd]> (handles w))) = <[hc := gc']> (<[hd := gd']> (handles w))) by (intros; rewrite insert_insert_ne, insert_insert_eq by done; done).
  destruct (ok_result r2) eqn:R2; cbn [negb] in H.
  2:{ apply bind_Ok in H as (gd2 & s3 & E3 & H). apply ret_Ok in H as [[= <- <-] <-]. rewrite R2. cbn [pin_data pin_clock].
      destruct (close_step (World (<[hc:=gc]> (<[hd:=gd]> (handles w))) s2 (cleared w)) hd gd gd2 s3 (Lc gc) E3) as [T3 P3]. cbn [handles cleared] in T3. rewrite Sw in T3. split; [|done]. by eapply rtc_l, rtc_l, rtc_once. }
  apply bind_Ok in H as (r3 & s3 & E3 & H). pose proof (config_step (World (<[hc:=gc]> (<[hd:=gd]> (handles w))) s2 (cleared w)) hd gd _ _ _ (Lc gc) E3) as T3. cbn [handles cleared] in T3.
  destruct (ok_result r3) eqn:R3; [apply ret_Ok in H as [[= <- <-] <-]; rewrite R3; split; [by eapply rtc_l, rtc_l, rtc_once|done]|].
  apply bind_Ok in H as (gc2 & s4 & E4 & H). apply bind_Ok in H as (gd2 & s5 & E5 & H). apply ret_Ok in H as [[= <- <-] <-]. rewrite R3. cbn [pin_data pin_clock].
  destruct (close_step (World (<[hc:=gc]> (<[hd:=gd]> (handles w))) s3 (cleared w)) hc gc gc2 s4 ltac:(apply lookup_insert_eq) E4) as [T4 P4]. cbn [handles cleared] in T4. rewrite insert_insert_eq in T4.
  destruct (close_step (World (<[hc:=gc2]> (<[hd:=gd]> (handles w))) s4 (cleared w)) hd gd gd2 s5 (Lc gc2) E5) as [T5 P5]. cbn [handles cleared] in T5. rewrite Sw in T5. split; [|done]. by eapply rtc_l, rtc_l, rtc_l, rtc_l, rtc_once.
Qed.
End clients.

(** ** On DCE 11 *)

(** A service that was just created has no busy pin. *)
Lemma busy_storage_free ns r id en : busy (GpioState (busy_storage ns) r) id en = false.
Proof.
  unfold busy, busy_storage. cbn [busyness]. rewrite list_lookup_fmap. destruct (ns !! Z.to_nat id) as [n|]; [|done]. cbn [fmap option_fmap option_map]. destruct (n =? 0); [done|].
  destruct (replicate _ 0 !! Z.to_nat (en / 32)) as [x|] eqn:E; [|done]. apply lookup_replicate in E as [-> _]. apply Z.testbit_0_l.
Qed.
(** The world after a call that returns. *)
Definition after (h : nat) (c : call) (w : world) : world :=
  match handles w !! h with
  | Some g => match do_call factory_dce110 c g (service w) with Ok (g', s') => World (<[h := g']> (handles w)) s' (cleared w) | _ => w end
  | None => w
  end.
Definition created (h : nat) (id en : Z) (w : world) : world := if handles w !! h is Some _ then w else World (<[h := dal_gpio_create id en]> (handles w)) (service w) (cleared w).
Definition with_options (c : call) : bool := match c with CallOpen _ options => options | _ => true end.
Lemma after_steps w0 w h c : with_options c = true -> rtc (step factory_dce110) w0 w -> rtc (step factory_dce110) w0 (after h c w).
Proof.
  intros Hc Hr. unfold after. destruct (handles w !! h) as [g|] eqn:E; [|done]. destruct (do_call _ c g (service w)) as [[g' s']| |] eqn:Ec; [|done..].
  eapply rtc_r; [exact Hr|]. apply (StepCall _ h g c g' s' w); [done| |done]. by intros [[? ->] _].
Qed.
Lemma created_steps w0 w h id en : rtc (step factory_dce110) w0 w -> rtc (step factory_dce110) w0 (created h id en w).
Proof. intros Hr. unfold created. destruct (handles w !! h) eqn:E; [done|]. eapply rtc_r; [exact Hr|]. by apply StepCreate. Qed.

Definition demo_start : world := World ∅ (GpioState (busy_storage number_of_pins_dce110) (fun _ => 0xa5a5a5a5)) [].
(** Two clients of the first line: one reads the data pin, the other drives the clock. *)
Definition demo_open : world :=
  after 1 (CallOpen GPIO_MODE_FAST_OUTPUT true) (after 0 (CallOpen GPIO_MODE_INPUT true) (created 1 GPIO_ID_DDC_CLOCK 0 (created 0 GPIO_ID_DDC_DATA 0 demo_start))).
Definition demo_closed : world := after 0 CallClose (after 0 (CallChangeMode GPIO_MODE_OUTPUT) (after 1 (CallSetValue 1) demo_open)).
Lemma demo_initial : initial demo_start.
Proof. split; [done|]. split; [done|]. intros id en. apply busy_storage_free. Qed.
Lemma demo_open_steps : rtc (step factory_dce110) demo_start demo_open.
Proof. repeat (apply after_steps; [done|]). repeat apply created_steps. apply rtc_refl. Qed.
Lemma demo_closed_steps : rtc (step factory_dce110) demo_start demo_closed.
Proof. do 3 (apply after_steps; [done|]). apply demo_open_steps. Qed.

Lemma gpio_pins_exclusive_witness :
  exists p1 p2, open_on demo_open 0 0 0 p1 /\ open_on demo_open 1 1 0 p2 /\ (0, 0) <> (1, 0) /\ forall a i, is_bit i -> covers p1 a i -> ~ covers p2 a i.
Proof.
  eexists _, _.
  match goal with |- open_on ?w ?h ?i ?e ?p /\ _ => assert (O1 : open_on w h i e p) by (eexists; split; [vm_compute; reflexivity|]; split; [reflexivity|]; split; reflexivity) end.
  match goal with |- _ /\ open_on ?w ?h ?i ?e ?p /\ _ => assert (O2 : open_on w h i e p) by (eexists; split; [vm_compute; reflexivity|]; split; [reflexivity|]; split; reflexivity) end.
  split; [exact O1|]. split; [exact O2|].
  exact (gpio_pins_exclusive factory_dce110 demo_start demo_open 0 1 0 0 1 0 _ _ demo_initial demo_open_steps O1 O2 ltac:(lia)).
Defined.

(** The bit of the data pin's enable register, which was set for output. *)
Lemma gpio_registers_restored_witness :
  (forall h q, ~ open_on demo_closed h 0 0 q) /\ rbit (regs (service demo_closed)) 0x486a 8 = rbit (regs (service demo_start)) 0x486a 8.
Proof.
  assert (Hf : forall h q, ~ open_on demo_closed h 0 0 q).
  { assert (E : exists g0 g1, handles demo_closed = <[1%nat := g1]> (<[0%nat := g0]> ∅) /\ g_pin g0 = None /\ g_id g1 = 1) by (eexists _, _; split; [vm_compute; reflexivity|]; split; reflexivity).
    destruct E as (g0 & g1 & E & E0 & E1). intros h q (g & Eg & Ep & Ei & _). rewrite E in Eg. apply lookup_insert_Some in Eg as [[_ <-]|[_ Eg]]; [congruence|]. apply lookup_insert_Some in Eg as [[_ <-]|[_ Eg]]; [congruence|done]. }
  split; [exact Hf|].
  assert (M : makes factory_dce110 0 0 (construct_pin PinDdc 0 0 (Init (PinReg (AddrMask 0x4868 0x100) (AddrMask 0x4869 0x100) (AddrMask 0x486a 0x100) (AddrMask 0x486b 0x100)) 0x16df 0))) by (eexists; split; reflexivity).
  refine (gpio_registers_restored factory_dce110 demo_start demo_closed 0 0 _ 0x486a 8 demo_initial demo_closed_steps M _ _ Hf _ _); [lia|lia|unfold is_bit; lia|].
  exists (AddrMask 0x486a 0x100). split; [right; right; left|]. split; reflexivity.
Defined.

(** The pad line cannot be polled: both pins are closed again. *)
Definition demo_ddc : ddc := Ddc (dal_gpio_create GPIO_ID_DDC_DATA 7) (dal_gpio_create GPIO_ID_DDC_CLOCK 7) true.
Definition demo_line : world := created 1 GPIO_ID_DDC_CLOCK 7 (created 0 GPIO_ID_DDC_DATA 7 demo_start).
Lemma demo_ddc_fails : returns (dal_ddc_open factory_dce110 demo_ddc GPIO_MODE_HARDWARE GPIO_DDC_CONFIG_TYPE_POLL_FOR_CONNECT) (service demo_line) (fun r _ => fst r = GPIO_RESULT_NON_SPECIFIC_ERROR).
Proof.
  assert (H : match dal_ddc_open factory_dce110 demo_ddc GPIO_MODE_HARDWARE GPIO_DDC_CONFIG_TYPE_POLL_FOR_CONNECT (service demo_line) with Ok ((GPIO_RESULT_NON_SPECIFIC_ERROR, _), _) => true | _ => false end = true) by (vm_compute; reflexivity).
  unfold returns. destruct (dal_ddc_open _ _ _ _ _) as [[[r d'] s']| |]; [|done..]. exists (r, d'), s'. split; [done|]. by destruct r.
Qed.
Lemma ddc_open_all_or_nothing_witness :
  exists d' s', dal_ddc_open factory_dce110 demo_ddc GPIO_MODE_HARDWARE GPIO_DDC_CONFIG_TYPE_POLL_FOR_CONNECT (service demo_line) = Ok ((GPIO_RESULT_NON_SPECIFIC_ERROR, d'), s') /\
    rtc (step factory_dce110) demo_line (World (<[1%nat := pin_clock d']> (<[0%nat := pin_data d']> (handles demo_line))) s' []) /\ g_pin (pin_data d') = None /\ g_pin (pin_clock d') = None.
Proof.
  destruct demo_ddc_fails as ([r d'] & s' & E & Hr). cbn in Hr. subst r. exists d', s'. split; [exact E|].
  exact (ddc_open_all_or_nothing factory_dce110 demo_line 0 1 demo_ddc _ _ _ d' s' ltac:(lia) eq_refl eq_refl eq_refl eq_refl E).
Defined.

(** A DDC pin opened without options ([dal_gpio_open]) is not opened, and its
    registers, which were not saved, are cleared. *)
Theorem open_without_options_clobbers :
  exists g s', dal_gpio_open factory_dce110 (dal_gpio_create GPIO_ID_DDC_DATA 0) GPIO_MODE_INPUT (service demo_start) = Ok ((GPIO_RESULT_OPEN_FAILED, g, false), s') /\
    regs (service demo_start) 0x4868 = 0xa5a5a5a5 /\ regs s' 0x4868 = 0xa5a5a4a5.
Proof. eexists _, _. split; [reflexivity|]. split; reflexivity. Qed.
(** The factory counts generic pins and has no function that makes one. *)
Theorem generic_pin_not_made mode options : dal_gpio_service_open factory_dce110 GPIO_ID_GENERIC 0 mode options (service demo_start) = Fault.
Proof. reflexivity. Qed.
